(* ===== verification/_CoqProject ===== *)
-Q . S2P
Prelude.v
ErrorCode.v
Bytes.v
SeqVerify.v
Fifo.v
LockFreeQueue.v
Tlv.v
FlowControl.v
FairQueue.v
SendQueue.v
BytesDelivery.v
RcCollection.v
Fragment.v
BleTrans.v
PktFrame.v
PendingPacket.v
BrTrans.v
ProxySlice.v
ProxyFile.v
FileTransfer.v
FileDevice.v
Sha256.v
RbTree.v
RbFrame.v
Hlist.v
EpTree.v
Epoll.v
SkipList.v
FillpItem.v
FillpRecv.v
FillpNack.v
FillpSend.v
FillpKept.v
FillpSender.v
FillpLink.v
ChannelId.v
ProxyState.v
ProxyTable.v
ProxyChannel.v
ProxyLogic.v
ProxyIds.v
ProxyTimer.v
ProxyFaults.v
InnerSession.v
LnnMap.v
TdcPacket.v
InnerTdc.v
CommonList.v
Looper.v
LnnFsm.v
