(* ===== verification/Prelude.v ===== *)
(** * DSoftBus verification library

    A model of the data paths of DSoftBus (the C code under src/core, the file
    transfer of src/sdk and parts of the fillp transport under
    src/components/nstackx), of its proxy channels, and the theorems that make
    them correct.

    ** The program

    DSoftBus connects devices over Bluetooth (BR and BLE), TCP and Wi-Fi and
    offers sessions on top.  A message of an inner session is encrypted and put
    behind a packet head by the transmission layer.  On a TCP direct channel the
    packet goes to the socket as it is, and the receiver cuts the byte stream
    into packets again; on a proxy channel it is cut into slices, each of which
    the connection layer sends as one packet of its own.  The connection layer
    keeps packets in send queues that are fair between clients and have
    priorities, limits its rate by a sliding window, frames packets for a stream
    (BR, COC) or cuts them to the MTU (BLE GATT), and on BR acknowledges one
    packet of a window.  The bus centre keeps its ledgers in a hash map; packets
    of authenticated channels carry numbers that a replay window checks.  Much of
    the program runs on loopers, threads that handle queued messages in the order
    of their due times; joining a network and authentication are state machines
    that get their messages from a looper.  The agents of the decision centre
    exchange messages of up to 10 MB, which are cut into fragments.  The client
    library sends files over proxy channels: frames with checksums in windows
    that the receiver acknowledges, then a list of the names.

    Proxy channels are opened by a handshake over a connection of the connection
    layer.  The transmission layer keeps two tables, of channels and of
    connections with their users; requests of applications, messages of peers,
    messages of a looper, results of connection attempts and a timer that ends
    what waits too long all work on them.  The numbers of channels come from one
    allocator for proxy and TCP direct channels.

    Fillp is a reliable transport over UDP for streams and files.  The sender
    cuts data into numbered items, sends each in a packet, and keeps it in one of
    several lists until it is acknowledged; the receiver collects them in skip
    lists ordered by number, hands data to the application in the order of the
    stream, acknowledges it and reports missing packets, which are sent again.  Sockets are watched through epoll instances
    made of red-black trees and linked lists, and connection set-up is protected
    by HMAC-SHA-256.

    ** Files

    - [Prelude]: machine integers ([u8] ... [s64] are the truncations of C), the
      hint database [word], tactics, shared lemmas, and the notation for the
      update of one field of a record.
    - [ErrorCode]: result codes of softbus_error_code.h.
    - [Bytes]: bytes, their little- and big-endian images, the byte-order
      functions of adapter/common/kernel/posix/softbus_adapter_socket.c over the
      memory of a host of either endianness, the size rules of the allocator of
      softbus_adapter_mem.c, and [memcpy_s].
    - [SeqVerify]: core/common/security/sequence_verification.
    - [Fifo], [LockFreeQueue]: the interface of a bounded queue as a class with
      laws, and core/common/queue (softbus_queue.c and .h), its instance.
    - [Tlv]: core/common/utils/softbus_tlv_utils.c.
    - [FlowControl]: core/connection/manager/softbus_conn_flow_control.c.
    - [FairQueue]: core/connection/common/src/softbus_conn_fair_priority_queue.c,
      proved against [Fifo].
    - [SendQueue]: the send queues of BR and BLE,
      core/connection/br/src/softbus_conn_br_send_queue.c and
      ble/src/softbus_conn_ble_send_queue.c, with the waits of
      common/src/softbus_conn_common.c; rings of [LockFreeQueue].
    - [BytesDelivery]: core/connection/common/src/softbus_conn_bytes_delivery.c,
      the delivery task on top of [FairQueue].
    - [RcCollection]: softbus_rc_object.c and softbus_rc_collection.c of
      core/connection/common/src.
    - [Fragment]: lnn_cloud_query_fragment.c and lnn_fragment_recv.c of
      core/bus_center/lnn/decision_center/agent_communication/src.
    - [BleTrans]: GATT sending and receiving of softbus_conn_ble_trans.c.
    - [PktFrame]: the packet head of softbus_datahead_transform.c and the stream
      parsers of softbus_conn_br_trans.c and softbus_conn_ble_trans.c.
    - [PendingPacket]: softbus_conn_br_pending_packet.c.
    - [BrTrans]: the sending half of softbus_conn_br_trans.c, on top of
      [FlowControl] and [PendingPacket].
    - [ProxySlice]: core/transmission/common/src/trans_proxy_process_data.c and
      trans_assemble_tlv.c, packets and slices.
    - [ProxyFile]: client_trans_proxy_file_common.c and
      client_trans_proxy_file_helper.c of
      sdk/transmission/trans_channel/proxy/src: paths, checksums, the list of
      names, frames.
    - [FileTransfer]: client_trans_proxy_file_manager.c and
      client_trans_pending.c, sender and receiver.
    - [FileDevice]: the receiver's tables under arbitrary frames.
    - [Sha256]: sha256.c and hmac.c of fillp beside FIPS 180-4 and RFC 2104.
      This and the files down to [FillpLink] model components/nstackx/fillp.
    - [RbTree], [RbFrame]: rb_tree.c (insertion, deletion) over a memory of
      nodes, and that its operations touch only the nodes of their tree.
    - [Hlist]: hlist.h.
    - [EpTree], [Epoll]: epoll_app.c, epoll.c and the epoll functions of
      socket_common.c and spunge_app.c, on top of [RbTree] and [Hlist].
    - [SkipList]: skiplist.c.
    - [FillpItem]: packet items, comparison of numbers, building and analysis of
      data packets; the class [ItemList] with its laws [ItemListLaws], which is
      what the transport asks of its ordered lists, and its instances from
      [SkipList].
    - [FillpRecv]: the receiving side (fillp_input.c, fillp_common.c, the
      acknowledgement of fillp_output.c, the timers of spunge_core.c), proved
      against [ItemListLaws].
    - [FillpNack]: the search for missing packets.
    - [FillpSend]: the sending side (fillp_output.c, the rest of fillp_common.c
      and fillp_input.c, submission and timer of fillp_pcb.c and fillp_timer.c,
      the protection of the tail of fillp_flow_control.c, the send cycle and the
      token bucket of spunge_core.c).
    - [FillpKept]: the invariant of the sending side, step by step.
    - [FillpSender]: its events in any order, and what the invariant shows.
    - [FillpLink]: a sender and a receiver with a network between them that
      loses, repeats and reorders packets.
    - [ChannelId]: the allocator of channel numbers in trans_channel_manager.c.
    - [ProxyState], [ProxyTable], [ProxyChannel]: the tables, operations on
      them, and the handlers of softbus_proxychannel_manager.c and of
      softbus_proxychannel_transceiver.c.
    - [ProxyLogic], [ProxyIds], [ProxyTimer], [ProxyFaults]: a program logic for
      the handlers and what it shows: the invariant of the tables, channel
      numbers, the timer, deviations.
    - [InnerSession]: the session table and the proxy half of
      core/transmission/trans_channel/common/src/trans_inner.c.
    - [LnnMap]: core/bus_center/utils/src/lnn_map.c.
    - [TdcPacket]: core/transmission/common/src/trans_tcp_process_data.c.
    - [InnerTdc]: the TCP half of trans_inner.c.
    - [CommonList]: the intrusive lists of core/common/include/common_list.h.
    - [Looper]: core/common/message_handler/message_handler.c, the threads with
      ordered message queues, as a transition system.
    - [LnnFsm]: core/bus_center/utils/src/lnn_state_machine.c, on top of
      [CommonList] and [Looper].

    Definitions have the names of the C functions; a C struct is a record, a
    list of the code is a list in the same order ([CommonList] shows why that is
    right; [LnnFsm], where nodes are shared, uses its memory instead), a static
    variable is a field of the component's state.

    ** Conventions

    The host is LP64.  Integers are [Z] with every truncation written; signed
    arithmetic wraps.  NULL is [None].  Logging, diagnostics and the release of
    memory are omitted.  What the code asks of its surroundings is an argument:
    what the allocator answers ([libc], per allocation where a function makes
    several), whether a lock is obtained, the clock, the socket and the driver,
    the listener, and encryption.  Theorems about errors quantify over all
    answers; theorems about successful transfers assume that the surroundings
    work, and each of those has an instance with concrete functions.  A critical
    section is one step; where the code waits or sleeps with its lock released
    ([FlowControl.Apply], ConnBrGetBrPendingPacket, both sides of the fair queue
    and of the send queues, the delivery task) the operation is split there, so that others can come between.

    Loops that are not structural take fuel and answer [None] without it:
    [Tlv.SetTlvBinary] (the length of the input), [InnerTdc.drain] (the bytes in
    the buffer and one), [FlowControl.Apply] (attempts, a bound is proved),
    iteration of a map (its number of nodes), the frame reader (the bytes that
    the source still has), the search of a state (the nodes that exist), the
    names of a file list and the fragments of a packet (the bytes and one), the
    rebalancing and the descent of a tree (its number of nodes), walks of a list
    (its number of cells), hashing (a block of 64 bytes per round and one), the
    search of a free channel number (1025, one more than there can be channels),
    the search of a skip list (its number of nodes; the random level stops at
    16), the options of a data packet (their length), and the loops that hand
    data to the application, free, move or send items (the number of items in
    the list; for the send loop also the answers of the pool).  For each there is
    a theorem that the fuel is enough.

    ** Theorems

    - Replay window: the nested case analysis equals a specification on the
      circle of 32-bit numbers (IsPassSeqCheck_serial); the window never exceeds
      60; replays are accepted only for the lowest expected number; every fresh
      number inside is accepted.  Two deviations are recorded as theorems.
    - Queue: sequences of operations answer as a bounded FIFO
      (ring_queue_refines_fifo); creation.
    - TLV: packing and parsing are inverse; parsing terminates and accepts only
      well-formed binaries; integer members.
    - Flow control: in every window at most the quota is granted, apart from
      grants made while the record of a grant cannot be allocated; termination.
    - Fair queue: every flow is FIFO, priorities are respected, no sender waits
      longer than the number of other senders.
    - Send queues: in every interleaving of producers and the sending thread the
      messages of a flow leave in order, unless a producer resumes on a queue
      destroyed meanwhile, which is the only bad access (send_queue_fifo,
      send_queue_bad_access).
    - Delivery: senders that post one after the other never leave a message
      behind; two concurrent ones can (a finding).
    - Reference counts: when clients use an object only while they hold a
      reference and save it once, no object is used or freed twice and no node is
      linked twice; identifiers stay unique.
    - Fragments: a message cut into slices is put together whatever the order of
      its packets; reads stay inside the packet, and packets that agree on the
      length write inside the buffer.
    - Files: a file of any size up to 5 MB arrives unchanged over a channel that
      loses nothing, also when answers come late (file_transfer_complete); the
      checksum is CRC-16/MODBUS; a received file is created below the receiving
      directory only; arbitrary frames keep the tables of a device well formed
      (device_frames_safe).
    - GATT, stream framing, proxy and TCP channels: what is sent arrives, for all
      sizes, orders and cuts; arbitrary input never overruns a buffer and only
      complete, authentic packets are delivered.  The receiver of a stream is a
      little-endian host; a big-endian one loses packets (a finding).
    - BR: an entry that a waiter holds is alive; all bytes are written; the
      window stays in range; a rejected request queues nothing.
    - Hash map: operations refine a finite map; a failing insertion changes
      nothing; iteration visits every node once.
    - Lists: the pointer operations refine sequences.
    - Looper: in every interleaving messages are handled when due, in order, and
      freed exactly once; due messages are handled; a looper whose thread has
      started is destroyed safely.
    - State machine: whatever the messages until it is deinitialised, callbacks
      are called in order, also when they change the state themselves and when
      its states are shared with other machines.
    - Digests: the buffered computation equals FIPS 180-4 for every cut of the
      message (sha256_equivalent), and HMAC equals RFC 2104 (hmac_equivalent).
    - Trees, lists and epoll: sequences of operations on the tree of an instance
      behave as a finite map and keep it balanced; EpollCtl refines a map of
      interests (epoll_ctl_refines_map), never follows a pointer that is not
      valid (epoll_memory_safe), and an event that a socket raises is delivered
      (epoll_event_delivered).
    - Skip list: whatever the random levels, operations answer as a sorted
      list without duplicates (skiplist_refines_sorted).
    - Fillp: whatever packets come in whatever order, the application gets a
      prefix of the stream that was sent (fillp_stream_in_order), and at least
      its first items once these have arrived (fillp_stream_complete); the
      packets listed as missing are exactly those missing (nack_list_exact).
      On the other side, every submitted item that is not acknowledged is in
      exactly one list of the sender, whatever packets come and whether or not
      the network takes packets (unacked_items_kept).  Together: what the
      application of the receiver has not got the sender still holds, so when
      the sender holds nothing, all that was submitted has arrived
      (fillp_nothing_lost).  Numbers are 32 bits wide and wrap; the theorems ask
      that those in use at one time lie within a quarter of the range.
    - Proxy channels: in every history a number in use is not handed out again,
      and the search for one ends when only numbers in use are given back
      (channel_ids_unique); the tables stay consistent, with different numbers
      for all channels that got one (proxy_table_sound), and a channel that waits
      for its peer is ended by the timer
      (waiting_channel_expires).

    ** Not modelled

    Connection management (BLE, BR, TCP), authentication, discovery, lanes and
    the ledgers, IPC and the rest of the client SDK, whose logic is mostly calls
    of external services, and C++ code.  Of fillp: connection set-up
    and shutdown, rate control, the timing wheel and memory pools; the rest of
    nstackx.  Of the
    proxy channels: paging and the parsing of incoming bytes.  Of the modelled
    files, thread creation and control messages.  The ring queue's operations are
    not interleaved at the level of single memory accesses. *)

From Stdlib Require Export ZArith Lia Bool.
From Stdlib Require Export Strings.Byte.
From stdpp Require Export base list option numbers.

(** ** Scopes *)

Declare Scope dsb_scope.
Delimit Scope dsb_scope with dsb.
#[global] Open Scope dsb_scope.
#[global] Open Scope Z_scope.

(** ** Machine integers

    A w-bit C integer is a [Z]; every place where C truncates writes the
    truncation explicitly. *)

Definition u8 (z : Z) : Z := z mod 256.
Definition u16 (z : Z) : Z := z mod 65536.
Definition u32 (z : Z) : Z := z mod 4294967296.
Definition u64 (z : Z) : Z := z mod 18446744073709551616.
Definition s16 (z : Z) : Z := (z + 32768) mod 65536 - 32768.
Definition s32 (z : Z) : Z := (z + 2147483648) mod 4294967296 - 2147483648.
Definition s64 (z : Z) : Z :=
  (z + 9223372036854775808) mod 18446744073709551616 - 9223372036854775808.

(** [x << n] on a 64-bit unsigned operand. *)
Definition shl64 (x n : Z) : Z := u64 (Z.shiftl x n).

Definition in_u8 (z : Z) : Prop := 0 <= z < 256.
Definition in_u16 (z : Z) : Prop := 0 <= z < 65536.
Definition in_u32 (z : Z) : Prop := 0 <= z < 4294967296.
Definition in_u64 (z : Z) : Prop := 0 <= z < 18446744073709551616.
Definition in_s32 (z : Z) : Prop := -2147483648 <= z < 2147483648.
Definition in_s64 (z : Z) : Prop :=
  -9223372036854775808 <= z < 9223372036854775808.

Abbreviation INT32_MAX := 2147483647.
Abbreviation UINT32_MAX := 4294967295.
Abbreviation UINT16_MAX := 65535.

Create HintDb word.

Lemma u8_range z : in_u8 (u8 z).
Proof. apply Z.mod_pos_bound. lia. Qed.

Lemma u16_range z : in_u16 (u16 z).
Proof. apply Z.mod_pos_bound. lia. Qed.

Lemma u32_range z : in_u32 (u32 z).
Proof. apply Z.mod_pos_bound. lia. Qed.

Lemma u64_range z : in_u64 (u64 z).
Proof. apply Z.mod_pos_bound. lia. Qed.

Lemma s32_range z : in_s32 (s32 z).
Proof.
  unfold in_s32, s32.
  pose proof (Z.mod_pos_bound (z + 2147483648) 4294967296 ltac:(lia)). lia.
Qed.

Lemma u8_small z : in_u8 z -> u8 z = z.
Proof. apply Z.mod_small. Qed.

Lemma u16_small z : in_u16 z -> u16 z = z.
Proof. apply Z.mod_small. Qed.

Lemma u32_small z : in_u32 z -> u32 z = z.
Proof. apply Z.mod_small. Qed.

Lemma u64_small z : in_u64 z -> u64 z = z.
Proof. apply Z.mod_small. Qed.

Lemma s32_small z : in_s32 z -> s32 z = z.
Proof. unfold in_s32, s32. intros. rewrite Z.mod_small; lia. Qed.

Lemma s32_u32 z : s32 (u32 z) = s32 z.
Proof. unfold s32, u32. rewrite Zplus_mod_idemp_l. reflexivity. Qed.

Lemma u32_s32 z : u32 (s32 z) = u32 z.
Proof.
  unfold s32, u32. rewrite Zminus_mod_idemp_l. f_equal. lia.
Qed.

#[export] Hint Resolve u8_range u16_range u32_range u64_range s32_range : word.

(** A 32-bit signed subtraction wraps at most once. *)
Lemma s32_wrap_cases z :
  -6442450944 <= z < 6442450944 ->
  (s32 z = z /\ in_s32 z) \/
  (s32 z = z - 4294967296 /\ 2147483648 <= z) \/
  (s32 z = z + 4294967296 /\ z < -2147483648).
Proof.
  intros Hz. unfold s32, in_s32.
  Z.to_euclidean_division_equations. lia.
Qed.

Lemma s32_congr x y k : in_s32 y -> x = y + k * 4294967296 -> s32 x = y.
Proof.
  intros Hy ->. unfold s32.
  replace (y + k * 4294967296 + 2147483648)
    with (y + 2147483648 + k * 4294967296) by lia.
  rewrite Z_mod_plus_full. apply (s32_small y Hy).
Qed.

Lemma s32_decomp x : exists k, x = s32 x + k * 4294967296.
Proof.
  exists ((x + 2147483648) / 4294967296). unfold s32.
  pose proof (Z.div_mod (x + 2147483648) 4294967296). lia.
Qed.

(** [s32_cases t] splits on the wrap of every [s32] of the term [t]. *)
Ltac s32_cases t :=
  let H := fresh "Hwrap" in
  pose proof (s32_wrap_cases t) as H; unfold in_s32 in H;
  destruct H as [[H ?]|[[H ?]|[H ?]]]; [lia| | |].

(** Turns the boolean comparisons of the goal and the context into the
    propositions they decide. *)
Ltac zbool :=
  repeat match goal with
  | H : _ && _ = true |- _ => apply andb_prop in H as [? ?]
  | H : _ || _ = false |- _ => apply orb_false_elim in H as [? ?]
  | H : negb _ = true |- _ => apply negb_true_iff in H
  | H : negb _ = false |- _ => apply negb_false_iff in H
  | H : (_ =? _) = true |- _ => apply Z.eqb_eq in H
  | H : (_ =? _) = false |- _ => apply Z.eqb_neq in H
  | H : (_ <? _) = true |- _ => apply Z.ltb_lt in H
  | H : (_ <? _) = false |- _ => apply Z.ltb_ge in H
  | H : (_ <=? _) = true |- _ => apply Z.leb_le in H
  | H : (_ <=? _) = false |- _ => apply Z.leb_gt in H
  end.

(** Case analysis on the comparison that drives the goal. *)
Ltac zcase :=
  match goal with
  | |- context [?a =? ?b] => destruct (Z.eqb_spec a b)
  | |- context [?a <? ?b] => destruct (Z.ltb_spec a b)
  | |- context [?a <=? ?b] => destruct (Z.leb_spec a b)
  end.

(** ** Powers of two as masks *)

Lemma land_pow2_mask x k : 0 <= k -> Z.land x (2 ^ k - 1) = x mod 2 ^ k.
Proof.
  intros Hk. rewrite <- Z.land_ones, Z.ones_equiv by lia. f_equal.
Qed.

Lemma pow2_of_land x :
  0 < x -> Z.land (x - 1) x = 0 -> exists k, 0 <= k /\ x = 2 ^ k.
Proof.
  intros Hx Hl. exists (Z.log2 x). split; [apply Z.log2_nonneg|].
  destruct (Z.log2_spec x Hx) as [H1 H2].
  destruct (Z.eq_dec x (2 ^ Z.log2 x)) as [E|E]; [exact E|exfalso].
  assert (Hlog : Z.log2 (x - 1) = Z.log2 x)
    by (apply Z.log2_unique; [apply Z.log2_nonneg|lia]).
  assert (0 < x - 1) by (pose proof (Z.pow_pos_nonneg 2 (Z.log2 x) ltac:(lia) (Z.log2_nonneg x)); lia).
  assert (Z.testbit (Z.land (x - 1) x) (Z.log2 x) = true) as Hb.
  { rewrite Z.land_spec, (Z.bit_log2 x), andb_true_r by lia.
    rewrite <- Hlog. apply Z.bit_log2. lia. }
  rewrite Hl, Z.bits_0 in Hb. discriminate.
Qed.

(** 2^k divides 2^32, so masking commutes with 32-bit truncation. *)
Lemma u32_mod_pow2 x k : 0 <= k <= 32 -> u32 x mod 2 ^ k = x mod 2 ^ k.
Proof.
  intros Hk. unfold u32.
  replace 4294967296 with (2 ^ k * 2 ^ (32 - k))
    by (rewrite <- Z.pow_add_r by lia; now replace (k + (32 - k)) with 32 by lia).
  rewrite Z.rem_mul_r by (apply Z.pow_nonzero || apply Z.pow_pos_nonneg; lia).
  rewrite Z.mul_comm, Z_mod_plus_full. apply Z.mod_mod, Z.pow_nonzero; lia.
Qed.

(** Distinct positions of a run shorter than the modulus have distinct
    residues. *)
Lemma mod_run_inj m c i j :
  0 < m -> 0 <= i < m -> 0 <= j < m -> (c + i) mod m = (c + j) mod m -> i = j.
Proof.
  intros Hm Hi Hj H.
  assert (Hd : ((c + i) - (c + j)) mod m = 0)
    by (rewrite Zminus_mod, H, Z.sub_diag; apply Zmod_0_l).
  replace (c + i - (c + j)) with (i - j) in Hd by lia.
  apply Z.mod_divide in Hd; [|lia]. destruct Hd as [q Hq].
  assert (q = 0) by nia. lia.
Qed.

(** ** Updates of records

    [x <| f := v |>] is the record [x] with [v] in field [f]. *)

Class Eta (R : Type) := mkEta { eta : R -> R }.
Class Setter {R T : Type} (f : R -> T) := mkSetter { upd : (T -> T) -> R -> R }.
Arguments upd {R T} f {_} _ _.

Ltac derive_setter :=
  match goal with
  | |- @Setter ?R ?T ?f =>
      let e := eval hnf in (@eta R ltac:(typeclasses eauto)) in
      lazymatch e with fun _ => _ => idtac end;
      lazymatch eval pattern f in e with
      | ?s _ => let t := eval cbv beta in (fun g : T -> T => s (fun r => g (f r))) in exact (mkSetter R T f t)
      end
  end.
#[export] Hint Extern 1 (Setter _) => derive_setter : typeclass_instances.

Notation "x <| f := v |>" := (upd f (fun _ => v) x)
  (at level 1, f at level 0, left associativity, format "x  <| f  :=  v |>") : dsb_scope.
