(* ===== verification/ErrorCode.v ===== *)
(** * Error codes

    The values of [enum SoftBusErrNo] and [enum QueueError] that the modelled
    functions return, computed from the macros of
    [interfaces/kits/common/softbus_error_code.h]. *)

From S2P Require Import Prelude.

Definition SOFTBUS_SUB_SYSTEM : Z := 203.

Definition SOFTBUS_ERRNO (module : Z) : Z :=
  - Z.lor (Z.lor (Z.shiftl SOFTBUS_SUB_SYSTEM 21) (Z.shiftl module 16)) 65535.

Definition TRANS_SUB_MODULE_CODE : Z := 5.
Definition CONN_SUB_MODULE_CODE : Z := 2.
Definition PUBLIC_SUB_MODULE_CODE : Z := 10.

Definition SOFTBUS_PUBLIC_ERR_BASE : Z :=
  Eval vm_compute in SOFTBUS_ERRNO PUBLIC_SUB_MODULE_CODE.
Definition SOFTBUS_TRANS_ERR_BASE : Z :=
  Eval vm_compute in SOFTBUS_ERRNO TRANS_SUB_MODULE_CODE.
Definition SOFTBUS_CONN_ERR_BASE : Z :=
  Eval vm_compute in SOFTBUS_ERRNO CONN_SUB_MODULE_CODE.

Definition SOFTBUS_OK : Z := 0.
Definition EOK : Z := 0.

Definition SOFTBUS_TIMOUT : Z := SOFTBUS_PUBLIC_ERR_BASE + 1.
Definition SOFTBUS_INVALID_PARAM : Z := SOFTBUS_PUBLIC_ERR_BASE + 2.
Definition SOFTBUS_MEM_ERR : Z := SOFTBUS_PUBLIC_ERR_BASE + 3.
Definition SOFTBUS_NOT_IMPLEMENT : Z := SOFTBUS_PUBLIC_ERR_BASE + 4.
Definition SOFTBUS_NO_INIT : Z := SOFTBUS_PUBLIC_ERR_BASE + 5.
Definition SOFTBUS_CREATE_JSON_ERR : Z := SOFTBUS_PUBLIC_ERR_BASE + 6.
Definition SOFTBUS_PARSE_JSON_ERR : Z := SOFTBUS_PUBLIC_ERR_BASE + 7.
Definition SOFTBUS_MALLOC_ERR : Z := SOFTBUS_PUBLIC_ERR_BASE + 10.
Definition SOFTBUS_DECRYPT_ERR : Z := SOFTBUS_PUBLIC_ERR_BASE + 13.
Definition SOFTBUS_LOCK_ERR : Z := SOFTBUS_PUBLIC_ERR_BASE + 17.
Definition SOFTBUS_NO_ENOUGH_DATA : Z := SOFTBUS_PUBLIC_ERR_BASE + 19.
Definition SOFTBUS_INVALID_DATA_HEAD : Z := SOFTBUS_PUBLIC_ERR_BASE + 20.
Definition SOFTBUS_DATA_NOT_ENOUGH : Z := SOFTBUS_PUBLIC_ERR_BASE + 23.
Definition SOFTBUS_ALREADY_EXISTED : Z := SOFTBUS_PUBLIC_ERR_BASE + 25.
Definition SOFTBUS_NOT_FIND : Z := SOFTBUS_PUBLIC_ERR_BASE + 28.
Definition SOFTBUS_ALREADY_TRIGGERED : Z := SOFTBUS_PUBLIC_ERR_BASE + 29.

(** [enum QueueError] of softbus_queue.h. *)
Definition QUEUE_INVAL : Z := -10.
Definition QUEUE_FULL : Z := -9.
Definition QUEUE_EMPTY : Z := -8.

Lemma SOFTBUS_ERRNO_public : SOFTBUS_ERRNO PUBLIC_SUB_MODULE_CODE = SOFTBUS_PUBLIC_ERR_BASE.
Proof. reflexivity. Qed.
