(* ===== verification/Bytes.v ===== *)
(** * Bytes, byte order and memory

    Bytes are [Byte.byte].  [le n z] and [be n z] are the [n]-byte images of
    an unsigned integer; the byte-order functions of
    adapter/common/kernel/posix/softbus_adapter_socket.c are modelled over the
    memory image of a host of either endianness, and the allocator of
    softbus_adapter_mem.c over the answer of libc. *)

From S2P Require Import Prelude ErrorCode.

(** ** One byte *)

Definition byteZ (b : byte) : Z := Z.of_N (Byte.to_N b).

Definition Zbyte (z : Z) : byte :=
  match Byte.of_N (Z.to_N (u8 z)) with
  | Some b => b
  | None => Byte.x00
  end.

Lemma byteZ_range b : in_u8 (byteZ b).
Proof. unfold in_u8, byteZ. pose proof (Byte.to_N_bounded b). lia. Qed.

Lemma byteZ_Zbyte z : byteZ (Zbyte z) = u8 z.
Proof.
  unfold Zbyte, byteZ. pose proof (u8_range z) as Hr. unfold in_u8 in Hr.
  destruct (Byte.of_N (Z.to_N (u8 z))) eqn:E.
  - apply Byte.to_of_N in E. rewrite E. apply Z2N.id. lia.
  - apply Byte.of_N_None_iff in E. lia.
Qed.

Lemma byteZ_inj a b : byteZ a = byteZ b -> a = b.
Proof.
  unfold byteZ. intros H. apply N2Z.inj in H.
  pose proof (Byte.of_to_N a) as Ha. rewrite H, Byte.of_to_N in Ha. congruence.
Qed.

Lemma Zbyte_byteZ b : Zbyte (byteZ b) = b.
Proof. apply byteZ_inj. rewrite byteZ_Zbyte. apply u8_small, byteZ_range. Qed.

#[export] Instance byte_eq_dec : EqDecision byte.
Proof. intros a b. destruct (Byte.byte_eq_dec a b); [left|right]; assumption. Defined.

(** ** Fixed-width images *)

Fixpoint le (n : nat) (z : Z) : list byte :=
  match n with
  | O => []
  | S n' => Zbyte z :: le n' (z / 256)
  end.

Fixpoint unle (l : list byte) : Z :=
  match l with
  | [] => 0
  | b :: l' => byteZ b + 256 * unle l'
  end.

Definition be (n : nat) (z : Z) : list byte := reverse (le n z).
Definition unbe (l : list byte) : Z := unle (reverse l).

Lemma length_le n z : length (le n z) = n.
Proof. revert z. induction n; intros; simpl; auto. Qed.

Lemma length_be n z : length (be n z) = n.
Proof. unfold be. now rewrite length_reverse, length_le. Qed.

Lemma unle_range l : 0 <= unle l < 256 ^ Z.of_nat (length l).
Proof.
  induction l as [|b l IH]; simpl unle; [simpl; lia|].
  simpl length. rewrite Nat2Z.inj_succ, Z.pow_succ_r by lia.
  pose proof (byteZ_range b) as Hb. unfold in_u8 in Hb. lia.
Qed.

Lemma unle_le n z : unle (le n z) = z mod 256 ^ Z.of_nat n.
Proof.
  revert z. induction n as [|n IH]; intros z; simpl unle.
  - rewrite Z.mod_1_r. reflexivity.
  - rewrite IH, byteZ_Zbyte, Nat2Z.inj_succ, Z.pow_succ_r by lia.
    unfold u8. rewrite Z.rem_mul_r; [reflexivity|lia|].
    apply Z.pow_pos_nonneg; lia.
Qed.

Lemma le_unle l : le (length l) (unle l) = l.
Proof.
  induction l as [|b l IH]; simpl; [reflexivity|].
  pose proof (byteZ_range b) as Hb. unfold in_u8 in Hb. f_equal.
  - apply byteZ_inj. rewrite byteZ_Zbyte. unfold u8.
    rewrite Z.mul_comm, Z_mod_plus_full. apply Z.mod_small. lia.
  - rewrite Z.mul_comm, Z_div_plus_full by lia.
    rewrite Z.div_small by lia. exact IH.
Qed.

Lemma unbe_be n z : unbe (be n z) = z mod 256 ^ Z.of_nat n.
Proof. unfold unbe, be. now rewrite reverse_involutive, unle_le. Qed.

Lemma unle_le_u8 z : unle (le 1 z) = u8 z.
Proof. now rewrite unle_le. Qed.
Lemma unle_le_u16 z : unle (le 2 z) = u16 z.
Proof. now rewrite unle_le. Qed.
Lemma unle_le_u32 z : unle (le 4 z) = u32 z.
Proof. now rewrite unle_le. Qed.
Lemma unle_le_u64 z : unle (le 8 z) = u64 z.
Proof. now rewrite unle_le. Qed.
Lemma unbe_be_u32 z : unbe (be 4 z) = u32 z.
Proof. now rewrite unbe_be. Qed.

Lemma unle4_range l : length l = 4%nat -> in_u32 (unle l).
Proof. intros H. pose proof (unle_range l) as Hr. rewrite H in Hr. exact Hr. Qed.

Lemma unbe4_range l : length l = 4%nat -> in_u32 (unbe l).
Proof. intros H. apply unle4_range. now rewrite length_reverse. Qed.

(** ** Byte order *)

Module ByteOrder.
Section Host.

(** [IsLittleEndian] of the host the code runs on. *)
Context (IsLittleEndian : bool).

(** Memory image of an [n]-byte unsigned integer on the host, and back. *)
Definition memOf (n : nat) (v : Z) : list byte :=
  if IsLittleEndian then le n v else be n v.
Definition ofMem (l : list byte) : Z :=
  if IsLittleEndian then unle l else unbe l.

Definition xor_byte (a b : byte) : byte := Zbyte (Z.lxor (byteZ a) (byteZ b)).

(** [in[i] ^= in[j]]. *)
Definition xor_at (i j : nat) (l : list byte) : list byte :=
  match l !! i, l !! j with
  | Some a, Some b => <[i := xor_byte a b]> l
  | _, _ => l
  end.

Fixpoint ShiftByteLoop (fuel left right : nat) (l : list byte) : list byte :=
  match fuel with
  | O => l
  | S fuel' =>
    if (left <? right)%nat then
      let l1 := xor_at left right l in
      let l2 := xor_at right left l1 in
      let l3 := xor_at left right l2 in
      ShiftByteLoop fuel' (S left) (pred right) l3
    else l
  end.

(** The loop runs at most [length l] times. *)
Definition ShiftByte (l : list byte) : list byte :=
  ShiftByteLoop (length l) 0 (pred (length l)) l.

Definition ProcByteOrder (l : list byte) : list byte :=
  if IsLittleEndian then l else ShiftByte l.

(** [SoftBusHtoLss/Ls/Ll/Lll] for n = 1, 2, 4, 8. *)
Definition SoftBusHtoL (n : nat) (value : Z) : Z :=
  ofMem (ProcByteOrder (memOf n value)).
Definition SoftBusLtoH (n : nat) (value : Z) : Z :=
  ofMem (ProcByteOrder (memOf n value)).

Definition SoftBusLEtoBEs (value : Z) : Z :=
  if negb IsLittleEndian then value
  else ofMem (ShiftByte (memOf 2 value)).

(** The exclusive-or exchange swaps, so [ShiftByte] reverses. *)

Lemma xor_byte_exchange a b :
  xor_byte b (xor_byte a b) = a /\
  xor_byte (xor_byte a b) (xor_byte b (xor_byte a b)) = b.
Proof.
  assert (Hx : forall x y, in_u8 (Z.lxor (byteZ x) (byteZ y))).
  { intros x y. pose proof (byteZ_range x). pose proof (byteZ_range y).
    unfold in_u8 in *. assert (0 <= Z.lxor (byteZ x) (byteZ y))
      by (apply Z.lxor_nonneg; lia).
    split; [assumption|].
    destruct (Z.eq_dec (Z.lxor (byteZ x) (byteZ y)) 0) as [->|]; [lia|].
    change 256 with (2 ^ 8). apply Z.log2_lt_pow2; [lia|].
    eapply Z.le_lt_trans; [apply Z.log2_lxor; lia|].
    apply Z.max_lub_lt; [destruct (Z.eq_dec (byteZ x) 0) as [->|]
      |destruct (Z.eq_dec (byteZ y) 0) as [->|]]; try (simpl; lia);
      apply Z.log2_lt_pow2; simpl; lia. }
  assert (Hb : forall x y, byteZ (xor_byte x y) = Z.lxor (byteZ x) (byteZ y))
    by (intros; unfold xor_byte; rewrite byteZ_Zbyte; apply u8_small, Hx).
  assert (E : xor_byte b (xor_byte a b) = a).
  { apply byteZ_inj. rewrite !Hb, (Z.lxor_comm (byteZ a)), <- Z.lxor_assoc,
      Z.lxor_nilpotent. apply Z.lxor_0_l. }
  split; [exact E|]. rewrite E. apply byteZ_inj.
  rewrite !Hb, (Z.lxor_comm _ (byteZ a)), <- Z.lxor_assoc, Z.lxor_nilpotent.
  apply Z.lxor_0_l.
Qed.

Lemma xor_at_swap (l1 l2 l3 : list byte) a b i j :
  i = length l1 -> j = S (length l1 + length l2) ->
  xor_at i j (xor_at j i (xor_at i j (l1 ++ a :: l2 ++ b :: l3))) =
  l1 ++ b :: l2 ++ a :: l3.
Proof.
  intros -> ->.
  assert (Hi : forall x y, (l1 ++ x :: l2 ++ y :: l3) !! length l1 = Some x)
    by (intros; now rewrite list_lookup_middle).
  assert (Hj : forall x y, (l1 ++ x :: l2 ++ y :: l3) !! S (length l1 + length l2) = Some y).
  { intros. rewrite lookup_app_r by lia.
    replace (S (length l1 + length l2) - length l1)%nat with (S (length l2)) by lia.
    simpl. now rewrite list_lookup_middle. }
  assert (Ui : forall x y z, <[length l1 := z]> (l1 ++ x :: l2 ++ y :: l3)
             = l1 ++ z :: l2 ++ y :: l3)
    by (intros; rewrite insert_app_r_alt, Nat.sub_diag by lia; reflexivity).
  assert (Uj : forall x y z, <[S (length l1 + length l2) := z]> (l1 ++ x :: l2 ++ y :: l3)
             = l1 ++ x :: l2 ++ z :: l3).
  { intros. rewrite insert_app_r_alt by lia. f_equal.
    replace (S (length l1 + length l2) - length l1)%nat with (S (length l2)) by lia.
    simpl. f_equal. rewrite insert_app_r_alt, Nat.sub_diag by lia. reflexivity. }
  destruct (xor_byte_exchange a b) as [E1 E2].
  unfold xor_at at 3. rewrite Hi, Hj, Ui.
  unfold xor_at at 2. rewrite Hi, Hj, Uj.
  unfold xor_at. rewrite Hi, Hj, Ui, E2, E1. reflexivity.
Qed.

Lemma ShiftByteLoop_reverse fuel : forall l1 m l3,
  (length m <= fuel)%nat ->
  ShiftByteLoop fuel (length l1) (length l1 + pred (length m)) (l1 ++ m ++ l3) =
  l1 ++ reverse m ++ l3.
Proof.
  induction fuel as [|fuel IH]; intros l1 m l3 Hm.
  { destruct m; simpl in Hm; [reflexivity|lia]. }
  destruct m as [|a m]; [simpl; now rewrite Nat.add_0_r, Nat.ltb_irrefl|].
  destruct m as [|b m _] using rev_ind; [simpl; now rewrite Nat.add_0_r, Nat.ltb_irrefl|].
  simpl length in *. rewrite length_app in *. simpl length in *.
  cbn [ShiftByteLoop pred].
  destruct (Nat.ltb_spec (length l1) (length l1 + (length m + 1))); [|lia].
  replace (l1 ++ (a :: m ++ [b]) ++ l3) with (l1 ++ a :: m ++ b :: l3)
    by (simpl; now rewrite <- app_assoc).
  rewrite xor_at_swap by lia.
  specialize (IH (l1 ++ [b]) m (a :: l3) ltac:(lia)).
  rewrite length_app in IH. simpl length in IH.
  replace (l1 ++ b :: m ++ a :: l3) with ((l1 ++ [b]) ++ m ++ a :: l3)
    by (rewrite <- app_assoc; reflexivity).
  destruct m as [|c m].
  - destruct fuel; simpl; rewrite <- ?app_assoc; [reflexivity|].
    destruct (Nat.ltb_spec (S (length l1)) (pred (length l1 + 1))); [lia|].
    reflexivity.
  - replace (S (length l1)) with (length l1 + 1)%nat by lia.
    replace (pred (length l1 + (length (c :: m) + 1)))
      with (length l1 + 1 + pred (length (c :: m)))%nat by (simpl; lia).
    rewrite IH, (reverse_cons _ a), (reverse_app (c :: m)), <- !app_assoc.
    reflexivity.
Qed.

Lemma ShiftByte_reverse l : ShiftByte l = reverse l.
Proof.
  unfold ShiftByte.
  pose proof (ShiftByteLoop_reverse (length l) [] l [] ltac:(lia)) as H.
  simpl in H. now rewrite !app_nil_r in H.
Qed.

Lemma ofMem_memOf n v : ofMem (memOf n v) = v mod 256 ^ Z.of_nat n.
Proof. unfold ofMem, memOf. destruct IsLittleEndian; [apply unle_le|apply unbe_be]. Qed.

Lemma memOf_ofMem l : memOf (length l) (ofMem l) = l.
Proof.
  unfold ofMem, memOf. destruct IsLittleEndian; [apply le_unle|].
  unfold be, unbe. rewrite <- (length_reverse l), le_unle. apply reverse_involutive.
Qed.

(** The memory image of a value converted with [SoftBusHtoL*] is the
    little-endian image on every host. *)
Lemma memOf_SoftBusHtoL n v : memOf n (SoftBusHtoL n v) = le n v.
Proof.
  unfold SoftBusHtoL. set (l := ProcByteOrder (memOf n v)).
  assert (Hl : l = le n v).
  { unfold l, ProcByteOrder, memOf. destruct IsLittleEndian; [reflexivity|].
    rewrite ShiftByte_reverse. unfold be. apply reverse_involutive. }
  rewrite Hl. rewrite <- (length_le n v) at 1. apply memOf_ofMem.
Qed.

(** Reading four (two, eight) little-endian bytes and converting with
    [SoftBusLtoH*] gives their little-endian value. *)
Lemma SoftBusLtoH_ofMem l : SoftBusLtoH (length l) (ofMem l) = unle l.
Proof.
  unfold SoftBusLtoH. rewrite memOf_ofMem. unfold ProcByteOrder, ofMem.
  destruct IsLittleEndian; [reflexivity|].
  rewrite ShiftByte_reverse. unfold unbe. now rewrite reverse_involutive.
Qed.

End Host.
End ByteOrder.

(** ** Memory *)

Definition MAX_MALLOC_SIZE : Z := 536870912.

(** [libc size] is the answer of libc's malloc for [size] bytes. *)
Definition SoftBusMalloc (libc : Z -> bool) (size : Z) : bool :=
  if MAX_MALLOC_SIZE <? u32 size then false else libc (u32 size).

(** The memset_s of a zero-sized block fails, so [SoftBusCalloc 0] is NULL. *)
Definition SoftBusCalloc (libc : Z -> bool) (size : Z) : bool :=
  if negb (SoftBusMalloc libc size) then false
  else if u32 size =? 0 then false else true.

(** [memcpy_s(dest, destMax, src, count)] on distinct non-null buffers copies
    iff the destination is big enough. *)
Definition memcpy_s (destMax count : Z) : bool :=
  (0 <? destMax) && (count <=? destMax).

Lemma SoftBusCalloc_true libc size :
  0 < size <= MAX_MALLOC_SIZE -> libc size = true -> SoftBusCalloc libc size = true.
Proof.
  unfold SoftBusCalloc, SoftBusMalloc, MAX_MALLOC_SIZE. intros Hs Hl.
  rewrite u32_small by (unfold in_u32; lia).
  destruct (Z.ltb_spec 536870912 size); [lia|]. rewrite Hl. simpl.
  destruct (Z.eqb_spec size 0); [lia|reflexivity].
Qed.

Lemma SoftBusCalloc_size libc size :
  SoftBusCalloc libc size = true -> 0 < u32 size <= MAX_MALLOC_SIZE.
Proof.
  unfold SoftBusCalloc, SoftBusMalloc. pose proof (u32_range size) as Hr.
  unfold in_u32 in Hr.
  destruct (Z.ltb_spec MAX_MALLOC_SIZE (u32 size)); [discriminate|].
  destruct (libc _); [|discriminate]. simpl.
  destruct (Z.eqb_spec (u32 size) 0); [discriminate|lia].
Qed.

Lemma memcpy_s_spec destMax count :
  memcpy_s destMax count = true <-> 0 < destMax /\ count <= destMax.
Proof. unfold memcpy_s. rewrite andb_true_iff, Z.ltb_lt, Z.leb_le. reflexivity. Qed.

(** ** Buffers *)

(** A write of [bytes] at [off] into [buf]; [None] outside. *)
Definition writeAt (off : Z) (bytes buf : list byte) : option (list byte) :=
  if (0 <=? off) && (off + Z.of_nat (length bytes) <=? Z.of_nat (length buf)) then
    Some (take (Z.to_nat off) buf ++ bytes ++ drop (Z.to_nat off + length bytes) buf)
  else None.

(** A read of [n] bytes at [off] from [buf]; [None] outside. *)
Definition readAt (off n : Z) (buf : list byte) : option (list byte) :=
  if (0 <=? off) && (0 <=? n) && (off + n <=? Z.of_nat (length buf)) then
    Some (take (Z.to_nat n) (drop (Z.to_nat off) buf))
  else None.

Lemma writeAt_eq off bytes buf : 0 <= off -> off + Z.of_nat (length bytes) <= Z.of_nat (length buf) ->
  writeAt off bytes buf =
  Some (take (Z.to_nat off) buf ++ bytes ++ drop (Z.to_nat off + length bytes) buf).
Proof.
  intros H1 H2. unfold writeAt. destruct (Z.leb_spec 0 off); [|lia].
  destruct (Z.leb_spec (off + Z.of_nat (length bytes)) (Z.of_nat (length buf))); [reflexivity|lia].
Qed.

Lemma writeAt_ok off bytes buf : 0 <= off -> off + Z.of_nat (length bytes) <= Z.of_nat (length buf) ->
  exists buf', writeAt off bytes buf = Some buf' /\ length buf' = length buf.
Proof.
  intros H1 H2. rewrite writeAt_eq by assumption. eexists. split; [reflexivity|].
  rewrite !length_app, length_take, length_drop. lia.
Qed.

(** A write in the middle of a buffer whose parts are known. *)
Lemma writeAt_app off bytes a b c : off = Z.of_nat (length a) -> length b = length bytes ->
  writeAt off bytes (a ++ b ++ c) = Some (a ++ bytes ++ c).
Proof.
  intros -> Hb. rewrite writeAt_eq by (rewrite ?length_app; lia).
  rewrite Nat2Z.id, take_app_length. f_equal. f_equal. f_equal.
  rewrite app_assoc, drop_app_length'; [reflexivity|]. rewrite length_app. lia.
Qed.

Lemma writeAt_app0 bytes b c : length b = length bytes -> writeAt 0 bytes (b ++ c) = Some (bytes ++ c).
Proof. intros H. exact (writeAt_app 0 bytes [] b c eq_refl H). Qed.

Lemma readAt_app off n a b c : off = Z.of_nat (length a) -> n = Z.of_nat (length b) ->
  readAt off n (a ++ b ++ c) = Some b.
Proof.
  intros -> ->. unfold readAt.
  destruct (Z.leb_spec 0 (Z.of_nat (length a))); [|lia].
  destruct (Z.leb_spec 0 (Z.of_nat (length b))); [|lia].
  destruct (Z.leb_spec (Z.of_nat (length a) + Z.of_nat (length b)) (Z.of_nat (length (a ++ b ++ c))));
    [|rewrite !length_app in *; lia].
  cbn [andb]. now rewrite !Nat2Z.id, drop_app_length, take_app_length.
Qed.

Lemma readAt_ok off n buf : 0 <= off -> 0 <= n -> off + n <= Z.of_nat (length buf) ->
  exists l, readAt off n buf = Some l /\ Z.of_nat (length l) = n.
Proof.
  intros H1 H2 H3. unfold readAt.
  destruct (Z.leb_spec 0 off), (Z.leb_spec 0 n), (Z.leb_spec (off + n) (Z.of_nat (length buf))); try lia.
  eexists. split; [reflexivity|]. rewrite length_take, length_drop. lia.
Qed.
