(* ===== verification/SeqVerify.v ===== *)
(** * Sequence verification (anti-replay window)

    Model of core/common/security/sequence_verification/
    softbus_sequence_verification.c.  The session layer calls
    [IsPassSeqCheck] on every received packet; the window is the pair
    [minSeq], [maxSeq] with one bit of [recvBitmap] per sequence number
    between them.  Signed 32-bit subtraction and increment wrap (two's
    complement), as the code's "consider flip" comments rely on. *)

From S2P Require Import Prelude.

Module SeqVerify.

Definition MAX_SEQ_BIAS : Z := 60.

Record SeqVerifyInfo := mkSeq {
  maxSeq : Z;
  minSeq : Z;
  recvBitmap : Z
}.

Definition IsDifferentSign (seqA seqB : Z) : bool :=
  if ((0 <=? seqA) && (0 <=? seqB)) || ((seqA <? 0) && (seqB <? 0)) then false
  else true.

Definition IsPassDuplicateCheck (i : SeqVerifyInfo) (recvSeq : Z)
  : bool * SeqVerifyInfo :=
  let offset := u32 (s32 (maxSeq i - recvSeq)) in
  let isRepeat := Z.land (recvBitmap i) (shl64 1 offset) in
  if negb (isRepeat =? 0) then (false, i)
  else (true, mkSeq (maxSeq i) (minSeq i)
                (Z.lor (recvBitmap i) (shl64 1 offset))).

Definition IsPassOverMaxCheck (i : SeqVerifyInfo) (recvSeq : Z)
  : bool * SeqVerifyInfo :=
  if s32 (recvSeq - maxSeq i) <? 0 then (false, i)
  else if MAX_SEQ_BIAS <=? s32 (recvSeq - minSeq i) then (false, i)
  else
    let seqOffset := u32 (s32 (s32 (recvSeq - maxSeq i) + 1)) in
    (true, mkSeq (s32 (recvSeq + 1)) (minSeq i)
             (Z.lor (shl64 (recvBitmap i) seqOffset) (shl64 1 1))).

Definition IsPassAllRangeCheck (i : SeqVerifyInfo) (recvSeq : Z)
  : bool * SeqVerifyInfo :=
  if recvSeq =? minSeq i then
    (true, mkSeq (maxSeq i) (s32 (recvSeq + 1)) (recvBitmap i))
  else if minSeq i <? recvSeq then
    if recvSeq <? maxSeq i then IsPassDuplicateCheck i recvSeq
    else IsPassOverMaxCheck i recvSeq
  else (false, i).

Definition IsPassNormalCheck (i : SeqVerifyInfo) (recvSeq : Z)
  : bool * SeqVerifyInfo :=
  if recvSeq =? minSeq i then
    (true, mkSeq (s32 (recvSeq + 1)) (s32 (recvSeq + 1)) (recvBitmap i))
  else if negb (IsDifferentSign recvSeq (minSeq i)) then
    if maxSeq i <? recvSeq then IsPassOverMaxCheck i recvSeq
    else (false, i)
  else IsPassOverMaxCheck i recvSeq.

Definition IsPassNoflipDisorderCheck (i : SeqVerifyInfo) (recvSeq : Z)
  : bool * SeqVerifyInfo :=
  if 0 <=? minSeq i then
    if 0 <=? recvSeq then IsPassAllRangeCheck i recvSeq
    else IsPassOverMaxCheck i recvSeq
  else if maxSeq i <? 0 then
    if recvSeq <? 0 then IsPassAllRangeCheck i recvSeq
    else IsPassOverMaxCheck i recvSeq
  else (false, i).

Definition IsPassFlipPositiveCheck (i : SeqVerifyInfo) (recvSeq : Z)
  : bool * SeqVerifyInfo :=
  if 0 <=? recvSeq then
    if recvSeq <? maxSeq i then IsPassDuplicateCheck i recvSeq
    else IsPassOverMaxCheck i recvSeq
  else
    if recvSeq =? minSeq i then
      (true, mkSeq (maxSeq i) (s32 (recvSeq + 1)) (recvBitmap i))
    else if minSeq i <? recvSeq then IsPassDuplicateCheck i recvSeq
    else (false, i).

Definition IsPassFlipNegativeCheck (i : SeqVerifyInfo) (recvSeq : Z)
  : bool * SeqVerifyInfo :=
  if 0 <=? recvSeq then
    if recvSeq =? minSeq i then
      (true, mkSeq (maxSeq i) (s32 (recvSeq + 1)) (recvBitmap i))
    else if minSeq i <? recvSeq then IsPassDuplicateCheck i recvSeq
    else (false, i)
  else
    if recvSeq <? maxSeq i then IsPassDuplicateCheck i recvSeq
    else IsPassOverMaxCheck i recvSeq.

(** The body of [IsPassSeqCheck] after its NULL guard. *)
Definition seqCheck (i : SeqVerifyInfo) (recvSeq : Z) : bool * SeqVerifyInfo :=
  let isDifferentSign := IsDifferentSign (minSeq i) (maxSeq i) in
  if minSeq i =? maxSeq i then IsPassNormalCheck i recvSeq
  else if (minSeq i <? maxSeq i) && negb isDifferentSign then
    IsPassNoflipDisorderCheck i recvSeq
  else if (maxSeq i <? minSeq i) && isDifferentSign then
    IsPassFlipNegativeCheck i recvSeq
  else if (minSeq i <? maxSeq i) && isDifferentSign then
    IsPassFlipPositiveCheck i recvSeq
  else (false, i).

Definition IsPassSeqCheck (seqVerifyInfo : option SeqVerifyInfo) (recvSeq : Z)
  : bool * option SeqVerifyInfo :=
  match seqVerifyInfo with
  | None => (false, None)
  | Some i => let '(r, i') := seqCheck i recvSeq in (r, Some i')
  end.

(** ** Reference: the window check in serial-number arithmetic *)

(** Signed distance from the low edge of the window. *)
Definition dist (i : SeqVerifyInfo) (s : Z) : Z := s32 (s - minSeq i).

Definition window (i : SeqVerifyInfo) : Z := s32 (maxSeq i - minSeq i).

Definition refCheck (i : SeqVerifyInfo) (s : Z) : bool * SeqVerifyInfo :=
  let d := dist i s in
  let w := window i in
  if d =? 0 then
    (true, mkSeq (if w =? 0 then s32 (s + 1) else maxSeq i) (s32 (s + 1))
             (recvBitmap i))
  else if (d <? 0) || (MAX_SEQ_BIAS <=? d) then (false, i)
  else if d <? w then
    if Z.testbit (recvBitmap i) (w - d) then (false, i)
    else (true, mkSeq (maxSeq i) (minSeq i) (Z.setbit (recvBitmap i) (w - d)))
  else
    (true, mkSeq (s32 (s + 1)) (minSeq i)
             (Z.lor (u64 (Z.shiftl (recvBitmap i) (d - w + 1))) 2)).

(** A window the code can hold: at most [MAX_SEQ_BIAS] wide. *)
Record wf (i : SeqVerifyInfo) : Prop := {
  wf_min : in_s32 (minSeq i);
  wf_max : in_s32 (maxSeq i);
  wf_window : 0 <= window i <= MAX_SEQ_BIAS;
  wf_bitmap : in_u64 (recvBitmap i)
}.

(** [s] is not within [MAX_SEQ_BIAS] of the point opposite the window. *)
Definition near (i : SeqVerifyInfo) (s : Z) : Prop :=
  in_s32 s /\ -2147483648 + MAX_SEQ_BIAS <= dist i s.

Definition initial : SeqVerifyInfo := mkSeq 0 0 0.

(** ** Bit-level facts *)

Lemma land_bit_zero b n :
  0 <= n -> (Z.land b (Z.shiftl 1 n) =? 0) = negb (Z.testbit b n).
Proof.
  intros Hn. destruct (Z.testbit b n) eqn:E; simpl.
  - apply Z.eqb_neq. intros H.
    assert (Z.testbit (Z.land b (Z.shiftl 1 n)) n = false) as H'
      by (rewrite H; apply Z.bits_0).
    rewrite Z.land_spec, E, Z.shiftl_spec, Z.sub_diag in H' by lia.
    discriminate.
  - apply Z.eqb_eq. apply Z.bits_inj'. intros k Hk.
    rewrite Z.land_spec, Z.bits_0, Z.shiftl_spec by lia.
    destruct (Z.eq_dec k n) as [->|Hne]; [rewrite E; reflexivity|].
    rewrite andb_false_iff. right.
    destruct (Z.ltb_spec k n); [apply Z.testbit_neg_r; lia|].
    change 1 with (2 ^ 0). rewrite Z.pow2_bits_false by lia. reflexivity.
Qed.

Lemma shl64_bit n : 0 <= n < 64 -> shl64 1 n = Z.shiftl 1 n.
Proof.
  intros. unfold shl64. apply u64_small. unfold in_u64.
  rewrite Z.shiftl_1_l. split; [lia|].
  change 18446744073709551616 with (2 ^ 64). apply Z.pow_lt_mono_r; lia.
Qed.

Lemma IsPassDuplicateCheck_ref i s n :
  n = u32 (s32 (maxSeq i - s)) -> 0 <= n < 64 ->
  IsPassDuplicateCheck i s =
  if Z.testbit (recvBitmap i) n then (false, i)
  else (true, mkSeq (maxSeq i) (minSeq i) (Z.setbit (recvBitmap i) n)).
Proof.
  intros -> Hn. unfold IsPassDuplicateCheck.
  rewrite shl64_bit, land_bit_zero, negb_involutive by lia.
  rewrite Z.setbit_spec', Z.shiftl_1_l. reflexivity.
Qed.

(** ** Equivalence with the reference *)

(** Positions of the window edge and of a received number relative to
    [minSeq], with the number of 2^32 wraps made explicit. *)
Lemma edge_pos i : wf i -> exists k, maxSeq i = minSeq i + window i + k * 4294967296.
Proof.
  intros _. destruct (s32_decomp (maxSeq i - minSeq i)) as [k Hk].
  exists k. unfold window. lia.
Qed.

Lemma recv_pos i s : exists k, s = minSeq i + dist i s + k * 4294967296.
Proof.
  destruct (s32_decomp (s - minSeq i)) as [k Hk]. exists k. unfold dist. lia.
Qed.

Lemma over_max_dist i s :
  wf i -> near i s -> s32 (s - maxSeq i) = dist i s - window i.
Proof.
  intros Hw [Hs Hd]. destruct (edge_pos i Hw) as [k1 E1].
  destruct (recv_pos i s) as [k2 E2].
  pose proof (s32_range (s - minSeq i)) as Hr. fold (dist i s) in Hr.
  destruct Hw as [_ _ Hwin _]. unfold in_s32, MAX_SEQ_BIAS in *.
  apply (s32_congr _ _ (k2 - k1)); unfold in_s32; lia.
Qed.

Lemma IsPassDuplicateCheck_window i s :
  wf i -> near i s -> 0 < dist i s < window i ->
  IsPassDuplicateCheck i s =
  if Z.testbit (recvBitmap i) (window i - dist i s) then (false, i)
  else (true, mkSeq (maxSeq i) (minSeq i)
                (Z.setbit (recvBitmap i) (window i - dist i s))).
Proof.
  intros Hw Hn Hd. destruct (edge_pos i Hw) as [k1 E1].
  destruct (recv_pos i s) as [k2 E2].
  destruct Hw as [_ _ Hwin _]. unfold MAX_SEQ_BIAS in *.
  apply IsPassDuplicateCheck_ref; [|lia].
  rewrite (s32_congr _ (window i - dist i s) (k1 - k2));
    [rewrite u32_small; [reflexivity|]| |]; unfold in_u32, in_s32; lia.
Qed.

Lemma IsPassOverMaxCheck_window i s :
  wf i -> near i s ->
  IsPassOverMaxCheck i s =
  if dist i s <? window i then (false, i)
  else if MAX_SEQ_BIAS <=? dist i s then (false, i)
  else (true, mkSeq (s32 (s + 1)) (minSeq i)
                (Z.lor (u64 (Z.shiftl (recvBitmap i) (dist i s - window i + 1))) 2)).
Proof.
  intros Hw Hn. unfold IsPassOverMaxCheck.
  rewrite (over_max_dist i s Hw Hn). fold (dist i s).
  destruct Hw as [_ _ Hwin _]. unfold MAX_SEQ_BIAS in *.
  destruct (Z.ltb_spec (dist i s) (window i)), (Z.ltb_spec (dist i s - window i) 0);
    try lia; [reflexivity|].
  destruct (Z.leb_spec 60 (dist i s)); [reflexivity|].
  rewrite (s32_small (dist i s - window i + 1)) by (unfold in_s32; lia).
  rewrite u32_small by (unfold in_u32; lia). reflexivity.
Qed.

Lemma IsDifferentSign_spec a b :
  IsDifferentSign a b = negb (Bool.eqb (0 <=? a) (0 <=? b)).
Proof.
  unfold IsDifferentSign.
  destruct (Z.leb_spec 0 a), (Z.leb_spec 0 b), (Z.ltb_spec a 0), (Z.ltb_spec b 0);
    try lia; reflexivity.
Qed.

Lemma seqCheck_ref i s : wf i -> near i s -> seqCheck i s = refCheck i s.
Proof.
  intros Hw Hn. destruct (edge_pos i Hw) as [k1 E1].
  destruct (recv_pos i s) as [k2 E2].
  pose proof (IsPassOverMaxCheck_window i s Hw Hn) as HO.
  pose proof (IsPassDuplicateCheck_window i s Hw Hn) as HD.
  pose proof Hw as [Hmin Hmax Hwin _]. pose proof Hn as [Hs Hd].
  pose proof (s32_range (s - minSeq i)) as Hr. fold (dist i s) in Hr.
  unfold in_s32, MAX_SEQ_BIAS in *.
  unfold seqCheck, refCheck, IsPassNormalCheck, IsPassNoflipDisorderCheck,
    IsPassAllRangeCheck, IsPassFlipNegativeCheck, IsPassFlipPositiveCheck.
  rewrite !IsDifferentSign_spec. unfold MAX_SEQ_BIAS in *.
  assert (Hk1 : k1 = 0 \/ k1 = -1) by lia.
  assert (Hk2 : k2 = 0 \/ k2 = -1 \/ k2 = 1) by lia.
  rewrite !HO. clear HO.
  destruct (Z.eqb_spec (dist i s) 0); [|destruct (Z.ltb_spec (dist i s) 0)];
    [| |destruct (Z.leb_spec 60 (dist i s))];
    destruct (Z.ltb_spec (dist i s) (window i)); simpl;
    try (rewrite HD by lia); clear HD;
    repeat (zcase; simpl; try lia); try reflexivity.
Qed.

(** ** Window geometry under the four kinds of transition *)

(** What one reference step does to a state, by cases on the distance. *)
Inductive refStep (i : SeqVerifyInfo) (s : Z) : bool -> SeqVerifyInfo -> Prop :=
| step_in_order j :
    dist i s = 0 -> s = minSeq i ->
    minSeq j = s32 (minSeq i + 1) ->
    window j = Z.max 0 (window i - 1) ->
    recvBitmap j = recvBitmap i -> wf j -> refStep i s true j
| step_reject :
    dist i s <> 0 ->
    (dist i s < 0 \/ MAX_SEQ_BIAS <= dist i s \/
     0 < dist i s < window i /\
     Z.testbit (recvBitmap i) (window i - dist i s) = true) ->
    refStep i s false i
| step_fill j :
    0 < dist i s < window i ->
    minSeq j = minSeq i -> window j = window i ->
    recvBitmap j = Z.setbit (recvBitmap i) (window i - dist i s) -> wf j ->
    refStep i s true j
| step_extend j :
    0 < dist i s < MAX_SEQ_BIAS -> window i <= dist i s ->
    minSeq j = minSeq i -> window j = dist i s + 1 ->
    recvBitmap j =
      Z.lor (u64 (Z.shiftl (recvBitmap i) (dist i s - window i + 1))) 2 ->
    wf j -> refStep i s true j.

Lemma setbit_u64 b n : in_u64 b -> 0 <= n < 64 -> in_u64 (Z.setbit b n).
Proof.
  unfold in_u64. intros Hb Hn. change 18446744073709551616 with (2 ^ 64) in *.
  rewrite Z.setbit_spec'.
  assert (H : 0 <= Z.lor b (2 ^ n)) by (apply Z.lor_nonneg; lia).
  split; [exact H|].
  destruct (Z.eq_dec (Z.lor b (2 ^ n)) 0) as [->|]; [lia|].
  apply Z.log2_lt_pow2; [lia|]. rewrite Z.log2_lor by lia.
  rewrite Z.log2_pow2 by lia. apply Z.max_lub_lt; [|lia].
  destruct (Z.eq_dec b 0) as [->|]; [simpl; lia|]. apply Z.log2_lt_pow2; lia.
Qed.

Lemma lor2_u64 b : in_u64 b -> in_u64 (Z.lor b 2).
Proof.
  intros Hb. replace (Z.lor b 2) with (Z.setbit b 1)
    by (rewrite Z.setbit_spec'; reflexivity).
  apply setbit_u64; [exact Hb|lia].
Qed.

Lemma min_of_dist_0 i s : wf i -> in_s32 s -> dist i s = 0 -> s = minSeq i.
Proof.
  intros [Hm _ _ _] Hs Hd. destruct (recv_pos i s) as [k Hk].
  unfold in_s32 in *. lia.
Qed.

Lemma window_next_min i k b :
  wf i -> 0 < window i ->
  window (mkSeq (maxSeq i) (s32 (minSeq i + 1 + k * 4294967296)) b) = window i - 1.
Proof.
  intros Hw Hp. destruct (edge_pos i Hw) as [k1 E1].
  destruct (s32_decomp (minSeq i + 1 + k * 4294967296)) as [k2 E2].
  destruct Hw as [_ _ Hwin _]. unfold MAX_SEQ_BIAS in *.
  unfold window at 1. simpl.
  apply (s32_congr _ _ (k1 - k + k2)); unfold in_s32; lia.
Qed.

Lemma window_extend i s b :
  0 <= dist i s < MAX_SEQ_BIAS ->
  window (mkSeq (s32 (s + 1)) (minSeq i) b) = dist i s + 1.
Proof.
  intros Hd. destruct (recv_pos i s) as [k1 E1].
  destruct (s32_decomp (s + 1)) as [k2 E2].
  unfold window, MAX_SEQ_BIAS in *. simpl.
  apply (s32_congr _ _ (k1 - k2)); unfold in_s32; lia.
Qed.

Lemma refCheck_step i s :
  wf i -> near i s -> refStep i s (fst (refCheck i s)) (snd (refCheck i s)).
Proof.
  intros Hw Hn. pose proof Hn as [Hs _]. pose proof Hw as [Hmin Hmax Hwin Hb].
  unfold refCheck. destruct (Z.eqb_spec (dist i s) 0) as [Hd|Hd].
  - pose proof (min_of_dist_0 i s Hw Hs Hd) as Heq.
    assert (Hwin' : window (mkSeq (if window i =? 0 then s32 (s + 1) else maxSeq i)
              (s32 (s + 1)) (recvBitmap i)) = Z.max 0 (window i - 1)).
    { destruct (Z.eqb_spec (window i) 0) as [H0|H0].
      - unfold window at 1. simpl. rewrite Z.sub_diag, H0. reflexivity.
      - pose proof (window_next_min i 0 (recvBitmap i) Hw ltac:(lia)) as E.
        rewrite Z.mul_0_l, Z.add_0_r, <- Heq in E. rewrite E. lia. }
    apply step_in_order; simpl; auto; [now rewrite <- Heq|].
    split; simpl; auto with word; [|rewrite Hwin'; unfold MAX_SEQ_BIAS in *; lia].
    destruct (window i =? 0); auto with word.
  - destruct (Z.ltb_spec (dist i s) 0); [apply step_reject; auto|].
    destruct (Z.leb_spec MAX_SEQ_BIAS (dist i s)); [apply step_reject; auto|]. simpl.
    destruct (Z.ltb_spec (dist i s) (window i)).
    + destruct (Z.testbit (recvBitmap i) (window i - dist i s)) eqn:E; simpl;
        [apply step_reject; [exact Hd|right; right; split; [lia|exact E]]|].
      apply step_fill; simpl; auto; [lia|]. split; simpl; auto.
      apply setbit_u64; [exact Hb|unfold MAX_SEQ_BIAS in *; lia].
    + apply step_extend; simpl; auto; [lia|apply window_extend; lia|].
      split; simpl; auto with word.
      * rewrite window_extend by lia. lia.
      * apply lor2_u64; auto with word.
Qed.

Lemma seqCheck_step i s :
  wf i -> near i s -> refStep i s (fst (seqCheck i s)) (snd (seqCheck i s)).
Proof. intros Hw Hn. rewrite seqCheck_ref by assumption. now apply refCheck_step. Qed.

Lemma refStep_wf i s b j : wf i -> refStep i s b j -> wf j.
Proof. now destruct 2. Qed.

(** Distances after a step: unchanged, or one less when [minSeq] moves. *)
Lemma dist_same_min i j t : minSeq j = minSeq i -> dist j t = dist i t.
Proof. unfold dist. now intros ->. Qed.

Lemma dist_next_min i j t :
  minSeq j = s32 (minSeq i + 1) -> -2147483648 < dist i t ->
  dist j t = dist i t - 1.
Proof.
  intros Hj Ht. destruct (recv_pos i t) as [k1 E1].
  destruct (s32_decomp (minSeq i + 1)) as [k2 E2].
  pose proof (s32_range (t - minSeq i)) as Hr. fold (dist i t) in Hr.
  unfold dist at 1. rewrite Hj.
  unfold in_s32 in Hr. apply (s32_congr _ _ (k1 + k2)); unfold in_s32; lia.
Qed.

Lemma setbit_keep b n m : 0 <= n -> Z.testbit b m = true -> Z.testbit (Z.setbit b n) m = true.
Proof. intros Hn H. apply Z.setbit_iff; auto. Qed.

Lemma extend_bit b n k :
  0 <= n -> 0 <= k -> k + n < 64 ->
  Z.testbit (Z.lor (u64 (Z.shiftl b n)) 2) (k + n) =
  Z.testbit b k || (k + n =? 1).
Proof.
  intros Hn Hk Hlt. rewrite Z.lor_spec. f_equal.
  - unfold u64. change 18446744073709551616 with (2 ^ 64).
    rewrite Z.mod_pow2_bits_low, Z.shiftl_spec by lia. f_equal. lia.
  - change 2 with (2 ^ 1). rewrite Z.pow2_bits_eqb by lia. apply Z.eqb_sym.
Qed.

Lemma extend_bit_low b n k :
  0 <= k < n -> k < 64 ->
  Z.testbit (Z.lor (u64 (Z.shiftl b n)) 2) k = (k =? 1).
Proof.
  intros Hk Hlt. rewrite Z.lor_spec. unfold u64.
  change 18446744073709551616 with (2 ^ 64).
  rewrite Z.mod_pow2_bits_low, Z.shiftl_spec_low by lia.
  change 2 with (2 ^ 1). rewrite Z.pow2_bits_eqb by lia. apply Z.eqb_sym.
Qed.

(** ** A recorded number stays recorded until [minSeq] reaches it *)

Definition recorded (i : SeqVerifyInfo) (s : Z) : Prop :=
  0 <= dist i s < window i /\
  Z.testbit (recvBitmap i) (window i - dist i s) = true.

(** [s] is recorded in the window, or at most [n] below it. *)
Definition settled (n : Z) (i : SeqVerifyInfo) (s : Z) : Prop :=
  recorded i s \/ - n <= dist i s < 0.

Lemma settled_accept i s j : wf i -> refStep i s true j -> settled 1 j s.
Proof.
  intros Hw Hst. inversion Hst as [? Hd Hs Hm Hwin Hb Hwj| |? Hd Hm Hwin Hb Hwj
    |? Hd Hge Hm Hwin Hb Hwj]; subst.
  - right. rewrite (dist_next_min i j) by (auto; lia). lia.
  - left. split; rewrite (dist_same_min i j) by auto; rewrite Hwin; [lia|].
    rewrite Hb. apply Z.setbit_eq. lia.
  - left. split; rewrite (dist_same_min i j) by auto; rewrite Hwin; [lia|].
    pose proof (wf_window i Hw). unfold MAX_SEQ_BIAS in *.
    rewrite Hb. replace (dist i s + 1 - dist i s) with 1 by lia.
    destruct (Z.eq_dec (dist i s) (window i)) as [E|E].
    + rewrite E, Z.sub_diag.
      pose proof (extend_bit (recvBitmap i) 1 0 ltac:(lia) ltac:(lia) ltac:(lia)) as H1.
      rewrite orb_true_r in H1. exact H1.
    + rewrite extend_bit_low by lia. reflexivity.
Qed.

Lemma settled_step n i s t b j :
  wf i -> 0 <= n < 2147483648 - 1 -> settled n i s -> refStep i t b j ->
  settled (n + 1) j s.
Proof.
  intros Hw Hn Hset Hst. pose proof (wf_window i Hw) as Hwin0.
  unfold MAX_SEQ_BIAS in *.
  inversion Hst as [? Hd Hs Hm Hwin Hb Hwj|Hd Hc |? Hd Hm Hwin Hb Hwj
    |? Hd Hge Hm Hwin Hb Hwj]; subst.
  - assert (Hds : dist j s = dist i s - 1)
      by (apply dist_next_min; [exact Hm|destruct Hset as [[? _]|?]; lia]).
    destruct Hset as [[Hr Hbit]|Hr]; [|right; lia].
    destruct (Z.eq_dec (dist i s) 0); [right; lia|]. left. split; [lia|].
    rewrite Hb, Hds, Hwin, Z.max_r by lia. rewrite <- Hbit. f_equal. lia.
  - destruct Hset as [?|?]; [left; assumption|right; lia].
  - unfold settled, recorded. rewrite (dist_same_min i j s Hm), Hwin, Hb.
    destruct Hset as [[Hr Hbit]|Hr]; [left|right; lia].
    split; [exact Hr|]. apply setbit_keep; [lia|exact Hbit].
  - unfold settled, recorded. rewrite (dist_same_min i j s Hm), Hwin, Hb.
    destruct Hset as [[Hr Hbit]|Hr]; [left|right; lia]. split; [lia|].
    unfold MAX_SEQ_BIAS in *.
    replace (dist i t + 1 - dist i s)
      with (window i - dist i s + (dist i t - window i + 1)) by lia.
    rewrite extend_bit by lia. now rewrite Hbit.
Qed.

Lemma settled_accept_min n i s :
  wf i -> in_s32 s -> 0 <= n <= 2147483648 - MAX_SEQ_BIAS -> settled n i s ->
  fst (seqCheck i s) = true -> s = minSeq i.
Proof.
  intros Hw Hs Hn Hset Hacc. unfold MAX_SEQ_BIAS in *.
  assert (Hnear : near i s).
  { split; [exact Hs|]. unfold MAX_SEQ_BIAS. destruct Hset as [[? _]|?]; lia. }
  pose proof (seqCheck_step i s Hw Hnear) as Hst. rewrite Hacc in Hst.
  inversion Hst; subst; auto; exfalso.
  - destruct Hset as [[Hr Hbit]|Hr]; [|lia].
    rewrite (seqCheck_ref i s Hw Hnear) in Hacc. unfold refCheck in Hacc.
    destruct (Z.eqb_spec (dist i s) 0); [lia|].
    destruct (_ || _); [discriminate|].
    destruct (Z.ltb_spec (dist i s) (window i)); [|lia].
    rewrite Hbit in Hacc. discriminate.
  - destruct Hset as [[Hr _]|Hr]; lia.
Qed.

(** ** Runs of the receiver *)

Definition passes (i : SeqVerifyInfo) (s : Z) : bool :=
  fst (IsPassSeqCheck (Some i) s).

Definition next (i : SeqVerifyInfo) (s : Z) : SeqVerifyInfo :=
  default i (snd (IsPassSeqCheck (Some i) s)).

Fixpoint run (i : SeqVerifyInfo) (l : list Z) : SeqVerifyInfo :=
  match l with
  | [] => i
  | s :: l' => run (next i s) l'
  end.

(** The numbers of [l] that pass, in order. *)
Fixpoint accepted (i : SeqVerifyInfo) (l : list Z) : list Z :=
  match l with
  | [] => []
  | s :: l' => (if passes i s then [s] else []) ++ accepted (next i s) l'
  end.

(** Every number of [l] is [near] when it is received. *)
Fixpoint nearAll (i : SeqVerifyInfo) (l : list Z) : Prop :=
  match l with
  | [] => True
  | s :: l' => near i s /\ nearAll (next i s) l'
  end.

Lemma IsPassSeqCheck_unfold i s :
  IsPassSeqCheck (Some i) s = (fst (seqCheck i s), Some (snd (seqCheck i s))).
Proof. unfold IsPassSeqCheck. now destruct (seqCheck i s). Qed.

Lemma passes_seqCheck i s : passes i s = fst (seqCheck i s).
Proof. unfold passes. now rewrite IsPassSeqCheck_unfold. Qed.

Lemma next_seqCheck i s : next i s = snd (seqCheck i s).
Proof. unfold next. now rewrite IsPassSeqCheck_unfold. Qed.

Lemma next_step i s :
  wf i -> near i s -> refStep i s (passes i s) (next i s).
Proof. rewrite passes_seqCheck, next_seqCheck. apply seqCheck_step. Qed.

Lemma next_wf i s : wf i -> near i s -> wf (next i s).
Proof. intros Hw Hn. exact (refStep_wf _ _ _ _ Hw (next_step i s Hw Hn)). Qed.

Lemma initial_wf : wf initial.
Proof. split; vm_compute; split; congruence. Qed.

Lemma run_wf_from l : forall i, wf i -> nearAll i l -> wf (run i l).
Proof.
  induction l as [|s l IH]; simpl; [auto|]. intros i Hw [Hn Hl].
  apply IH; [|exact Hl]. now apply next_wf.
Qed.

Lemma run_settled l : forall n i s,
  wf i -> nearAll i l -> 0 <= n -> n + Z.of_nat (length l) < 2147483647 ->
  settled n i s -> settled (n + Z.of_nat (length l)) (run i l) s.
Proof.
  induction l as [|t l IH]; intros n i s Hw Hl Hn Hlen Hset.
  - simpl. now rewrite Z.add_0_r.
  - destruct Hl as [Ht Hl]. simpl length in *. rewrite Nat2Z.inj_succ in *.
    replace (n + Z.succ (Z.of_nat (length l)))
      with ((n + 1) + Z.of_nat (length l)) by lia.
    apply IH; [now apply next_wf|exact Hl|lia|lia|].
    eapply settled_step; [exact Hw|lia|exact Hset|]. now apply next_step.
Qed.

(** Every recorded number of the window was accepted; the bit of [maxSeq]
    itself is never set. *)
Definition justified (i : SeqVerifyInfo) (acc : list Z) : Prop :=
  Z.testbit (recvBitmap i) 0 = false /\
  forall t, in_s32 t -> 0 < dist i t -> recorded i t -> t ∈ acc.

Lemma dist_inj i s t : in_s32 s -> in_s32 t -> dist i s = dist i t -> s = t.
Proof.
  intros Hs Ht He. destruct (recv_pos i s) as [k1 E1].
  destruct (recv_pos i t) as [k2 E2]. unfold in_s32 in *. lia.
Qed.

Lemma bit0_step i s b j :
  wf i -> Z.testbit (recvBitmap i) 0 = false -> refStep i s b j ->
  Z.testbit (recvBitmap j) 0 = false.
Proof.
  intros Hw H0 Hst. pose proof (wf_window i Hw) as Hwin0.
  inversion Hst as [? ? ? ? ? Hb ?| |? Hd ? ? Hb ?|? ? ? ? ? Hb ?]; subst;
    [now rewrite Hb|exact H0| |]; rewrite Hb.
  - rewrite Z.setbit_neq by lia. exact H0.
  - rewrite extend_bit_low by (unfold MAX_SEQ_BIAS in *; lia). reflexivity.
Qed.

Lemma justified_step i s b j acc :
  wf i -> near i s -> refStep i s b j -> justified i acc ->
  justified j ((if b then [s] else []) ++ acc).
Proof.
  intros Hw [Hs _] Hst [H0 Hj]. pose proof (wf_window i Hw) as Hwin0.
  split; [now apply (bit0_step i s b j)|].
  inversion Hst as [? Hd Heq Hm Hwin Hb Hwj|Hd Hc |? Hd Hm Hwin Hb Hwj
    |? Hd Hge Hm Hwin Hb Hwj]; subst; simpl; intros t Ht Hpos [Hr Hbit].
  - apply list_elem_of_further.
    destruct (Z.eq_dec (dist i t) (-2147483648)) as [E|E].
    + exfalso. destruct (recv_pos i t) as [k1 E1].
      destruct (s32_decomp (minSeq i + 1)) as [k2 E2].
      assert (dist j t = 2147483647)
        by (unfold dist; rewrite Hm; apply (s32_congr _ _ (k1 + k2 - 1));
            unfold in_s32; lia).
      unfold MAX_SEQ_BIAS in *; lia.
    + pose proof (s32_range (t - minSeq i)) as Hrg. fold (dist i t) in Hrg.
      unfold in_s32 in Hrg. rewrite (dist_next_min i j) in * by (auto; lia).
      rewrite Hwin, Hb in *. apply Hj; [exact Ht|lia|]. split; [lia|].
      rewrite <- Hbit. f_equal. lia.
  - apply Hj; [exact Ht|exact Hpos|split; assumption].
  - rewrite (dist_same_min i j t Hm), Hwin, Hb in *.
    destruct (Z.eq_dec (dist i t) (dist i s)) as [E|E].
    + rewrite (dist_inj i t s Ht Hs E). constructor.
    + apply list_elem_of_further, Hj; [exact Ht|exact Hpos|]. split; [exact Hr|].
      rewrite Z.setbit_neq in Hbit by lia. exact Hbit.
  - rewrite (dist_same_min i j t Hm), Hwin, Hb in *. unfold MAX_SEQ_BIAS in *.
    destruct (Z.eq_dec (dist i t) (dist i s)) as [E|E];
      [rewrite (dist_inj i t s Ht Hs E); constructor|].
    apply list_elem_of_further, Hj; [exact Ht|exact Hpos|].
    destruct (Z.leb_spec (dist i t) (window i)) as [Hlt|Hlt].
    + revert Hbit.
      replace (dist i s + 1 - dist i t)
        with (window i - dist i t + (dist i s - window i + 1)) by lia.
      rewrite extend_bit, orb_true_iff by lia. intros [H|H];
        [|apply Z.eqb_eq in H; lia].
      split; [|exact H]. destruct (Z.eq_dec (dist i t) (window i)) as [Ew|]; [|lia].
      rewrite Ew, Z.sub_diag in H. congruence.
    + rewrite extend_bit_low in Hbit by lia. apply Z.eqb_eq in Hbit. lia.
Qed.

Lemma justified_run l : forall i acc,
  wf i -> nearAll i l -> justified i acc ->
  justified (run i l) (reverse (accepted i l) ++ acc).
Proof.
  induction l as [|s l IH]; intros i acc Hw Hl Hj; [exact Hj|].
  destruct Hl as [Hs Hl]. simpl. rewrite reverse_app, <- app_assoc.
  apply IH; [now apply next_wf|exact Hl|].
  replace (reverse (if passes i s then [s] else []))
    with (if passes i s then [s] else []) by (now destruct (passes i s)).
  eapply justified_step; eauto using next_step.
Qed.

Lemma justified_initial : justified initial [].
Proof.
  split; [reflexivity|]. intros t _ _ [_ Hbit]. simpl in Hbit.
  now rewrite Z.bits_0 in Hbit.
Qed.

(** ** Properties *)

(** C21.  On every well-formed window and every received number that is not
    opposite the window, [IsPassSeqCheck] (five sign-dependent sub-checks over
    wrapping 32-bit arithmetic) returns the verdict and leaves the state of the
    single serial-number check [refCheck]: in order at distance 0, rejected
    below the window or [MAX_SEQ_BIAS] and more above it, otherwise decided by
    the bitmap or by extending the window. *)
Theorem IsPassSeqCheck_serial (i : SeqVerifyInfo) (s : Z) (Hw : wf i) (Hn : near i s) :
  IsPassSeqCheck (Some i) s = (fst (refCheck i s), Some (snd (refCheck i s))).
Proof. rewrite IsPassSeqCheck_unfold, seqCheck_ref by assumption. reflexivity. Qed.

(**  From the initial state, after any sequence of received numbers the
    window is at most [MAX_SEQ_BIAS] wide and the bitmap fits 64 bits, so the
    offset of every number inside the window is a defined shift count. *)
Theorem run_window_bounded (l : list Z) (Hl : nearAll initial l) :
  wf (run initial l) /\
  forall s, 0 <= dist (run initial l) s <= window (run initial l) ->
    0 <= s32 (maxSeq (run initial l) - s) < 64.
Proof.
  pose proof (run_wf_from l initial initial_wf Hl) as Hw.
  split; [exact Hw|]. intros s Hd.
  destruct (edge_pos _ Hw) as [k1 E1].
  destruct (recv_pos (run initial l) s) as [k2 E2].
  pose proof (wf_window _ Hw) as Hwin. unfold MAX_SEQ_BIAS in Hwin.
  rewrite (s32_congr _ (window (run initial l) - dist (run initial l) s) (k1 - k2));
    unfold in_s32; lia.
Qed.

(** Replay protection: a number that was accepted is accepted again later
    (within 2^31 - 120 packets) only if it equals [minSeq] at that moment. *)
Theorem replay_only_at_min (i : SeqVerifyInfo) (s : Z) (l : list Z)
    (Hw : wf i) (Hn : near i s) (Hacc : passes i s = true)
    (Hl : nearAll (next i s) l)
    (Hlen : Z.of_nat (length l) < 2147483648 - 2 * MAX_SEQ_BIAS)
    (Hagain : passes (run (next i s) l) s = true) :
  s = minSeq (run (next i s) l).
Proof.
  unfold MAX_SEQ_BIAS in *. pose proof (next_step i s Hw Hn) as Hst. rewrite Hacc in Hst.
  pose proof (next_wf i s Hw Hn) as Hw'.
  eapply (settled_accept_min (1 + Z.of_nat (length l)));
    [now apply run_wf_from|apply Hn|unfold MAX_SEQ_BIAS; lia| |now rewrite <- passes_seqCheck].
  apply run_settled; [exact Hw'|exact Hl|lia|lia|].
  exact (settled_accept i s _ Hw Hst).
Qed.

(**  No false rejection: from the initial state, a number inside the
    acceptance range [minSeq .. minSeq + MAX_SEQ_BIAS) that was not accepted
    before passes. *)
Theorem fresh_in_window_accepted (l : list Z) (s : Z)
    (Hl : nearAll initial l) (Hs : in_s32 s)
    (Hd : 0 <= dist (run initial l) s < MAX_SEQ_BIAS)
    (Hfresh : s ∉ accepted initial l) :
  passes (run initial l) s = true.
Proof.
  pose proof (run_wf_from l initial initial_wf Hl) as Hw.
  assert (Hn : near (run initial l) s) by (split; [exact Hs|unfold MAX_SEQ_BIAS in *; lia]).
  pose proof (next_step _ s Hw Hn) as Hst.
  destruct (passes (run initial l) s) eqn:E; [reflexivity|exfalso].
  inversion Hst as [|H0 [H|[H|[Hr Hbit]]]| |]; subst; [lia|lia|].
  pose proof (justified_run l initial [] initial_wf Hl justified_initial) as [_ Hj].
  rewrite app_nil_r in Hj. apply Hfresh, elem_of_reverse, Hj; [exact Hs|lia|].
  split; [lia|exact Hbit].
Qed.

(** The replay that [replay_only_at_min] leaves open happens: after 2 arrives early, 0 and 1
    move [minSeq] up to 2 without consulting the bitmap, and 2 passes again. *)
Theorem replay_accepted_after_catch_up :
  accepted initial [2; 0; 1; 2] = [2; 0; 1; 2].
Proof. reflexivity. Qed.

(** Outside [near] the check is unsound: with the window 0..3 open, the number
    -2^31 (about 2^31 away) passes, and the shift count is 2^31 - 2. *)
Theorem opposite_number_accepted :
  accepted initial [2; -2147483648] = [2; -2147483648] /\
  s32 (s32 (-2147483648 - maxSeq (run initial [2])) + 1) = 2147483646.
Proof. split; reflexivity. Qed.

(** ** Witnesses *)

Lemma IsPassSeqCheck_serial_witness :
  IsPassSeqCheck (Some (mkSeq (-2147483646) 2147483645 2)) 2147483646 =
  (true, Some (mkSeq (-2147483646) 2147483645 18)).
Proof.
  apply (IsPassSeqCheck_serial (mkSeq (-2147483646) 2147483645 2) 2147483646).
  - split; vm_compute; split; congruence.
  - split; vm_compute; [split; congruence|congruence].
Defined.

Lemma run_window_bounded_witness :
  wf (run initial [2; 0; 5]) /\
  forall s, 0 <= dist (run initial [2; 0; 5]) s <= window (run initial [2; 0; 5]) ->
    0 <= s32 (maxSeq (run initial [2; 0; 5]) - s) < 64.
Proof.
  apply (run_window_bounded [2; 0; 5]). repeat split; vm_compute; congruence.
Defined.

Lemma replay_only_at_min_witness :
  2 = minSeq (run (next initial 2) [0; 1]).
Proof.
  apply (replay_only_at_min initial 2 [0; 1]).
  - exact initial_wf.
  - repeat split; vm_compute; congruence.
  - reflexivity.
  - repeat split; vm_compute; congruence.
  - vm_compute. reflexivity.
  - reflexivity.
Defined.

Lemma fresh_in_window_accepted_witness :
  passes (run initial [2; 0]) 1 = true.
Proof.
  apply (fresh_in_window_accepted [2; 0] 1).
  - repeat split; vm_compute; congruence.
  - split; vm_compute; congruence.
  - split; vm_compute; congruence.
  - vm_compute. intros H. repeat (apply elem_of_cons in H as [H|H]; [discriminate|]).
    inversion H.
Defined.

End SeqVerify.
