(* ===== verification/Fifo.v ===== *)
(** * Bounded FIFO interface

    What the connection send queues rely on from the ring queue of
    core/common/queue: creation, one enqueue, one dequeue, the count, and the laws that
    make them a bounded first-in first-out buffer.  [LockFreeQueue] provides
    the instance; [FairQueue] and [SendQueue] are proved against the interface. *)

From S2P Require Import Prelude ErrorCode.

(** [fifo_create alloc size]; [fifo_enq] is [None] when the enqueue never
    returns. *)
Class FifoOps (Q A : Type) := {
  fifo_create : bool -> Z -> option Q;
  fifo_enq : Q -> A -> option (Z * Q);
  fifo_deq : Q -> Z * option A * Q;
  fifo_count : Q -> Z * option Z
}.

Class FifoLaws (Q A : Type) {ops : FifoOps Q A} := {
  (** [q] holds [xs] and can hold [cap] elements. *)
  fifo_repr : Z -> Q -> list A -> Prop;
  fifo_bounded cap q xs : fifo_repr cap q xs -> Z.of_nat (length xs) <= cap;
  fifo_created alloc n q : fifo_create alloc n = Some q -> fifo_repr (n - 1) q [];
  fifo_enq_room cap q xs x :
    fifo_repr cap q xs -> Z.of_nat (length xs) < cap ->
    exists q', fifo_enq q x = Some (0, q') /\ fifo_repr cap q' (xs ++ [x]);
  fifo_enq_full cap q xs x :
    fifo_repr cap q xs -> Z.of_nat (length xs) = cap ->
    fifo_enq q x = Some (QUEUE_FULL, q);
  fifo_deq_cons cap q x xs :
    fifo_repr cap q (x :: xs) ->
    exists q', fifo_deq q = (0, Some x, q') /\ fifo_repr cap q' xs;
  fifo_deq_nil cap q :
    fifo_repr cap q [] -> fifo_deq q = (QUEUE_EMPTY, None, q);
  fifo_count_ok cap q xs :
    fifo_repr cap q xs -> fifo_count q = (0, Some (Z.of_nat (length xs)))
}.
