(* ===== verification/LockFreeQueue.v ===== *)
(** * Ring queue

    Model of core/common/queue/softbus_queue.c and the inline operations of
    core/common/include/softbus_queue.h.  Indices are free-running unsigned
    32-bit counters, masked when they address [nodes].  The operations are
    modelled as executed without interference (every caller in the connection
    component holds the mutex of its send queue); memory barriers are then
    no-ops and the compare-and-swap of the multi-producer and multi-consumer
    variants succeeds at the first attempt. *)

From S2P Require Import Prelude ErrorCode Fifo.

Module LockFreeQueue.

Definition QUEUE_HEADER_MAGIC : Z := 3437092300. (* 0xccddddcc *)
Definition QUEUE_SIZE_MAX : Z := 8192.
Definition CACHE_LINE_SIZE : Z := 64.
Definition sizeof_uintptr : Z := 8.
Definition sizeof_LockFreeQueue : Z := 192.

(** The [producer] and [consumer] status blocks. *)
Record ring := mkRing { size : Z; mask : Z; head : Z; tail : Z }.

Record LockFreeQueue (A : Type) := mkQueue {
  magic : Z;
  unitNum : Z;
  producer : ring;
  consumer : ring;
  nodes : list (option A)   (* None is the zero word *)
}.
Arguments mkQueue {A}.
Arguments magic {A}.
Arguments unitNum {A}.
Arguments producer {A}.
Arguments consumer {A}.
Arguments nodes {A}.

Definition IS_POWER_OF_2 (x : Z) : bool := Z.land (u32 (x - 1)) x =? 0.

Section Ops.
Context {A : Type}.
Implicit Types (q : LockFreeQueue A) (node : option A).

(** [queue] points to memory holding [nodes] words after the header. *)
Definition QueueInit (queue : option (LockFreeQueue A)) (num : Z)
  : Z * option (LockFreeQueue A) :=
  match queue with
  | None => (QUEUE_INVAL, None)
  | Some q =>
    if (num <? 1) || negb (IS_POWER_OF_2 num) then (QUEUE_INVAL, Some q)
    else (0, Some (mkQueue QUEUE_HEADER_MAGIC num
                     (mkRing num (u32 (num - 1)) 0 0)
                     (mkRing num (u32 (num - 1)) 0 0) (nodes q)))
  end.

(** Returns the code and the value stored through [queueSize]. *)
Definition QueueSizeCalc (num : Z) (queueSizePtr : bool) : Z * option Z :=
  if negb queueSizePtr then (QUEUE_INVAL, None)
  else if QUEUE_SIZE_MAX <? num then (QUEUE_INVAL, None)
  else
    let size := u32 (sizeof_uintptr * num + sizeof_LockFreeQueue) in
    (0, Some (Z.land (u32 (size + CACHE_LINE_SIZE - 1))
                (u32 (Z.lnot (CACHE_LINE_SIZE - 1))))).

Definition QueueCountGet (queue : option (LockFreeQueue A)) (countPtr : bool)
  : Z * option Z :=
  match queue with
  | None => (QUEUE_INVAL, None)
  | Some q =>
    if negb countPtr then (QUEUE_INVAL, None)
    else
      let producerTail := tail (producer q) in
      let consumerTail := tail (consumer q) in
      (0, Some (Z.land (u32 (producerTail - consumerTail)) (mask (producer q))))
  end.

(** A calloc of [queueSize] bytes leaves this many words after the header. *)
Definition callocQueue (queueSize : Z) : LockFreeQueue A :=
  mkQueue 0 0 (mkRing 0 0 0 0) (mkRing 0 0 0 0)
    (replicate (Z.to_nat ((queueSize - sizeof_LockFreeQueue) / sizeof_uintptr)) None).

(** [alloc] tells whether SoftBusCalloc succeeds. *)
Definition CreateQueue (alloc : bool) (num : Z) : option (LockFreeQueue A) :=
  if (num <? 1) || negb (IS_POWER_OF_2 num) then None
  else
    match QueueSizeCalc num true with
    | (ret, Some queueSize) =>
      if negb (ret =? 0) then None
      else if negb alloc then None
      else
        let '(ret', q) := QueueInit (Some (callocQueue queueSize)) num in
        if negb (ret' =? 0) then None else q
    | (_, None) => None
    end.

Definition QueueIsEmpty (queue : option (LockFreeQueue A)) : Z :=
  match queue with
  | None => QUEUE_INVAL
  | Some q =>
    let producerTail := tail (producer q) in
    let consumerTail := tail (consumer q) in
    if Z.land (u32 (producerTail - consumerTail)) (mask (producer q)) =? 0
    then 0 else -1
  end.

Definition setProducer q (h t : Z) (ns : list (option A)) : LockFreeQueue A :=
  mkQueue (magic q) (unitNum q)
    (mkRing (size (producer q)) (mask (producer q)) h t) (consumer q) ns.

Definition setConsumer q (h t : Z) : LockFreeQueue A :=
  mkQueue (magic q) (unitNum q) (producer q)
    (mkRing (size (consumer q)) (mask (consumer q)) h t) (nodes q).

Definition slot (i m : Z) : nat := Z.to_nat (Z.land i m).

Definition QueueSingleProducerEnqueue (queue : option (LockFreeQueue A)) node
  : Z * option (LockFreeQueue A) :=
  match queue, node with
  | Some q, Some _ =>
    let m := mask (producer q) in
    let producerHead := head (producer q) in
    let consumerTail := tail (consumer q) in
    let availableCount := u32 (u32 (m + consumerTail) - producerHead) in
    if availableCount <? 1 then (QUEUE_FULL, queue)
    else
      let producerNext := u32 (producerHead + 1) in
      (0, Some (setProducer q producerNext producerNext
                  (<[slot producerHead m := node]> (nodes q))))
  | _, _ => (QUEUE_INVAL, queue)
  end.

(** The wait for the producers before this one spins while
    [producer.tail <> producerHead]; without other producers it would spin
    forever, which the result [None] stands for. *)
Definition QueueMultiProducerEnqueue (queue : option (LockFreeQueue A)) node
  : option (Z * option (LockFreeQueue A)) :=
  match queue, node with
  | Some q, Some _ =>
    let m := mask (producer q) in
    let producerHead := head (producer q) in
    let consumerTail := tail (consumer q) in
    let availableCount := u32 (u32 (m + consumerTail) - producerHead) in
    if availableCount <? 1 then Some (QUEUE_FULL, queue)
    else
      let producerNext := u32 (producerHead + 1) in
      if negb (tail (producer q) =? producerHead) then None
      else
        Some (0, Some (setProducer q producerNext (u32 (tail (producer q) + 1))
                         (<[slot producerHead m := node]> (nodes q))))
  | _, _ => Some (QUEUE_INVAL, queue)
  end.

(** Returns the code, the word stored through [node] and the queue. *)
Definition QueueSingleConsumerDequeue (queue : option (LockFreeQueue A))
    (nodePtr : bool) : Z * option A * option (LockFreeQueue A) :=
  match queue, nodePtr with
  | Some q, true =>
    let m := mask (producer q) in
    let consumerHead := head (consumer q) in
    let producerTail := tail (producer q) in
    let availableCount := u32 (producerTail - consumerHead) in
    if availableCount <? 1 then (QUEUE_EMPTY, None, queue)
    else
      let consumerNext := u32 (consumerHead + 1) in
      (0, mjoin (nodes q !! slot consumerHead m),
       Some (setConsumer q consumerNext consumerNext))
  | _, _ => (QUEUE_INVAL, None, queue)
  end.

Definition QueueMultiConsumerDequeue (queue : option (LockFreeQueue A))
    (nodePtr : bool) : option (Z * option A * option (LockFreeQueue A)) :=
  match queue, nodePtr with
  | Some q, true =>
    let m := mask (producer q) in
    let consumerHead := head (consumer q) in
    let producerTail := tail (producer q) in
    let availableCount := u32 (producerTail - consumerHead) in
    if availableCount <? 1 then Some (QUEUE_EMPTY, None, queue)
    else
      let consumerNext := u32 (consumerHead + 1) in
      if negb (tail (consumer q) =? consumerHead) then None
      else
        Some (0, mjoin (nodes q !! slot consumerHead m),
              Some (setConsumer q consumerNext (u32 (tail (consumer q) + 1))))
  | _, _ => Some (QUEUE_INVAL, None, queue)
  end.

End Ops.

(** ** Abstraction: the elements between the consumer and the producer *)

Section Repr.
Context {A : Type}.
Implicit Types (q : LockFreeQueue A) (xs : list A).

(** [q] is a ring of [2^k] words, quiescent (no operation in progress), whose
    live words, from the consumer index on, are [xs]. *)
Record repr (k : Z) q xs : Prop := {
  repr_k : 0 <= k <= 31;
  repr_mask : mask (producer q) = 2 ^ k - 1;
  repr_nodes : 2 ^ k <= Z.of_nat (length (nodes q));
  repr_ptail : tail (producer q) = head (producer q);
  repr_ctail : tail (consumer q) = head (consumer q);
  repr_chead : in_u32 (head (consumer q));
  repr_phead : head (producer q) = u32 (head (consumer q) + Z.of_nat (length xs));
  repr_len : Z.of_nat (length xs) <= 2 ^ k - 1;
  repr_live : forall n x, xs !! n = Some x ->
    nodes q !! Z.to_nat ((head (consumer q) + Z.of_nat n) mod 2 ^ k) = Some (Some x)
}.

Lemma repr_pow k q xs : repr k q xs -> 1 <= 2 ^ k <= 2147483648.
Proof.
  intros H. destruct (repr_k _ _ _ H) as [H1 H2]. split.
  - pose proof (Z.pow_pos_nonneg 2 k). lia.
  - change 2147483648 with (2 ^ 31). apply Z.pow_le_mono_r; lia.
Qed.

Lemma slot_pow2 (i k : Z) : 0 <= k <= 32 -> slot (u32 i) (2 ^ k - 1) = Z.to_nat (i mod 2 ^ k).
Proof.
  intros Hk. unfold slot. rewrite land_pow2_mask by lia. now rewrite u32_mod_pow2.
Qed.

(** The unsigned differences the code computes. *)
Lemma repr_used k q xs :
  repr k q xs ->
  u32 (tail (producer q) - head (consumer q)) = Z.of_nat (length xs).
Proof.
  intros H. pose proof (repr_pow _ _ _ H). pose proof (repr_len _ _ _ H).
  rewrite (repr_ptail _ _ _ H), (repr_phead _ _ _ H). unfold u32.
  rewrite Zminus_mod_idemp_l, Z.add_simpl_l. apply Z.mod_small. lia.
Qed.

Lemma repr_free k q xs :
  repr k q xs ->
  u32 (u32 (mask (producer q) + tail (consumer q)) - head (producer q)) =
  2 ^ k - 1 - Z.of_nat (length xs).
Proof.
  intros H. pose proof (repr_pow _ _ _ H). pose proof (repr_len _ _ _ H).
  rewrite (repr_mask _ _ _ H), (repr_ctail _ _ _ H), (repr_phead _ _ _ H).
  unfold u32. rewrite <- Zminus_mod.
  replace (2 ^ k - 1 + head (consumer q) - (head (consumer q) + Z.of_nat (length xs)))
    with (2 ^ k - 1 - Z.of_nat (length xs)) by lia.
  apply Z.mod_small. lia.
Qed.

Lemma repr_enq k q xs x :
  repr k q xs -> Z.of_nat (length xs) < 2 ^ k - 1 ->
  repr k (setProducer q (u32 (head (producer q) + 1)) (u32 (head (producer q) + 1))
            (<[slot (head (producer q)) (mask (producer q)) := Some x]> (nodes q)))
       (xs ++ [x]).
Proof.
  intros H Hlt. pose proof (repr_pow _ _ _ H) as Hp. pose proof (repr_k _ _ _ H) as Hk.
  rewrite (repr_mask _ _ _ H), (repr_phead _ _ _ H), slot_pow2 by lia.
  split; simpl; try (apply H); auto.
  - rewrite length_insert. apply H.
  - rewrite length_app. simpl. unfold u32. rewrite Zplus_mod_idemp_l. f_equal. lia.
  - rewrite length_app. simpl. lia.
  - intros n y Hn. apply lookup_app_Some in Hn as [Hn|[Hge Hn]].
    + rewrite list_lookup_insert_ne; [now apply H|].
      apply lookup_lt_Some in Hn. intros He.
      apply Z2Nat.inj in He; try (apply Z.mod_pos_bound; lia).
      apply mod_run_inj in He; lia.
    + apply list_lookup_singleton_Some in Hn as [Hn <-].
      replace n with (length xs) by lia. rewrite list_lookup_insert_eq; [reflexivity|].
      pose proof (repr_nodes _ _ _ H).
      pose proof (Z.mod_pos_bound (head (consumer q) + Z.of_nat (length xs)) (2 ^ k)). lia.
Qed.

Lemma repr_deq k q x xs :
  repr k q (x :: xs) ->
  nodes q !! slot (head (consumer q)) (mask (producer q)) = Some (Some x) /\
  repr k (setConsumer q (u32 (head (consumer q) + 1)) (u32 (head (consumer q) + 1))) xs.
Proof.
  intros H. pose proof (repr_pow _ _ _ H) as Hp. pose proof (repr_k _ _ _ H) as Hk.
  pose proof (repr_len _ _ _ H) as Hlen. simpl length in Hlen. split.
  - rewrite (repr_mask _ _ _ H).
    rewrite <- (u32_small (head (consumer q))) by apply H. rewrite slot_pow2 by lia.
    pose proof (repr_live _ _ _ H 0%nat x eq_refl) as Hx. now rewrite Z.add_0_r in Hx.
  - split; simpl; try (apply H); auto with word; try lia.
    + rewrite (repr_phead _ _ _ H). unfold u32. rewrite Zplus_mod_idemp_l.
      f_equal. simpl length. lia.
    + intros n y Hn. pose proof (repr_live _ _ _ H (S n) y Hn) as Hy.
      rewrite <- Hy. do 2 f_equal.
      rewrite <- (u32_mod_pow2 (u32 _ + _)) by lia. unfold u32.
      rewrite Zplus_mod_idemp_l. fold (u32 (head (consumer q) + 1 + Z.of_nat n)).
      rewrite u32_mod_pow2 by lia. f_equal. lia.
Qed.

(** ** Creation *)

Lemma cache_align x : in_u32 x -> Z.land x (u32 (Z.lnot (CACHE_LINE_SIZE - 1))) = 64 * (x / 64).
Proof.
  intros Hx. change (u32 (Z.lnot (CACHE_LINE_SIZE - 1))) with (Z.shiftl (Z.ones 26) 6).
  transitivity (Z.shiftl (Z.land (Z.shiftr x 6) (Z.ones 26)) 6).
  - apply Z.bits_inj'. intros n Hn.
    rewrite Z.land_spec, !Z.shiftl_spec by lia.
    destruct (Z.ltb_spec n 6).
    + rewrite !(Z.testbit_neg_r _ (n - 6)) by lia. apply andb_false_r.
    + rewrite Z.land_spec, Z.shiftr_spec by lia. do 2 f_equal. lia.
  - rewrite Z.land_ones, Z.shiftl_mul_pow2, Z.shiftr_div_pow2 by lia.
    change (2 ^ 6) with 64. unfold in_u32 in Hx.
    rewrite Z.mod_small; [lia|]. change (2 ^ 26) with 67108864.
    Z.to_euclidean_division_equations. lia.
Qed.

Lemma QueueSizeCalc_ok num :
  0 <= num <= QUEUE_SIZE_MAX ->
  exists sz, QueueSizeCalc num true = (0, Some sz) /\ sz mod CACHE_LINE_SIZE = 0 /\
    sizeof_uintptr * num + sizeof_LockFreeQueue <= sz
      < sizeof_uintptr * num + sizeof_LockFreeQueue + CACHE_LINE_SIZE.
Proof.
  unfold QUEUE_SIZE_MAX. intros Hn. unfold QueueSizeCalc. simpl negb.
  destruct (Z.ltb_spec QUEUE_SIZE_MAX num) as [H|H]; [unfold QUEUE_SIZE_MAX in H; lia|].
  unfold CACHE_LINE_SIZE, sizeof_uintptr, sizeof_LockFreeQueue in *.
  eexists. split; [reflexivity|].
  rewrite cache_align by auto with word.
  rewrite (u32_small (8 * num + 192)), u32_small by (unfold in_u32; lia).
  Z.to_euclidean_division_equations. lia.
Qed.

Lemma IS_POWER_OF_2_spec num :
  1 <= num < 4294967296 -> IS_POWER_OF_2 num = true ->
  exists k, 0 <= k <= 31 /\ num = 2 ^ k.
Proof.
  intros Hn Hp. unfold IS_POWER_OF_2 in Hp. apply Z.eqb_eq in Hp.
  rewrite u32_small in Hp by (unfold in_u32; lia).
  destruct (pow2_of_land num) as [k [Hk ->]]; [lia|exact Hp|].
  exists k. split; [|reflexivity]. split; [exact Hk|].
  destruct (Z.leb_spec k 31); [assumption|].
  pose proof (Z.pow_le_mono_r 2 32 k). change (2 ^ 32) with 4294967296 in *. lia.
Qed.

Lemma CreateQueue_repr alloc num q :
  CreateQueue alloc num = Some q -> exists k, num = 2 ^ k /\ repr k q [].
Proof.
  unfold CreateQueue. destruct (Z.ltb_spec num 1); [discriminate|].
  destruct (IS_POWER_OF_2 num) eqn:Hp; [|discriminate]. simpl orb.
  destruct (Z.ltb_spec QUEUE_SIZE_MAX num) as [Hbig|Hsmall].
  { unfold QueueSizeCalc. simpl. destruct (Z.ltb_spec QUEUE_SIZE_MAX num); [discriminate|lia]. }
  destruct (QueueSizeCalc_ok num) as (sz & -> & _ & Hsz); [lia|].
  destruct alloc; [|discriminate]. simpl negb. cbv iota.
  unfold QueueInit. rewrite Hp. destruct (Z.ltb_spec num 1); [lia|]. simpl.
  intros [= <-]. unfold QUEUE_SIZE_MAX in *.
  destruct (IS_POWER_OF_2_spec num) as (k & Hk & ->); [lia|exact Hp|].
  exists k. split; [reflexivity|].
  split; simpl; try lia; try reflexivity.
  - apply u32_small. unfold in_u32. lia.
  - rewrite length_replicate.
    unfold sizeof_uintptr, sizeof_LockFreeQueue, CACHE_LINE_SIZE in *.
    Z.to_euclidean_division_equations. lia.
  - unfold in_u32. lia.
  - discriminate.
Qed.

(** ** The operations on a represented queue *)

Lemma multi_enq_room k q xs x :
  repr k q xs -> Z.of_nat (length xs) < 2 ^ k - 1 ->
  exists q', QueueMultiProducerEnqueue (Some q) (Some x) = Some (0, Some q') /\
    QueueSingleProducerEnqueue (Some q) (Some x) = (0, Some q') /\
    repr k q' (xs ++ [x]).
Proof.
  intros H Hlt. pose proof (repr_enq k q xs x H Hlt) as Hr.
  unfold QueueMultiProducerEnqueue, QueueSingleProducerEnqueue.
  rewrite (repr_free _ _ _ H), (repr_ptail _ _ _ H), Z.eqb_refl.
  destruct (Z.ltb_spec (2 ^ k - 1 - Z.of_nat (length xs)) 1); [lia|]. eauto.
Qed.

Lemma multi_enq_full k q xs x :
  repr k q xs -> Z.of_nat (length xs) = 2 ^ k - 1 ->
  QueueMultiProducerEnqueue (Some q) (Some x) = Some (QUEUE_FULL, Some q) /\
  QueueSingleProducerEnqueue (Some q) (Some x) = (QUEUE_FULL, Some q).
Proof.
  intros H He. unfold QueueMultiProducerEnqueue, QueueSingleProducerEnqueue.
  rewrite (repr_free _ _ _ H).
  destruct (Z.ltb_spec (2 ^ k - 1 - Z.of_nat (length xs)) 1); [auto|lia].
Qed.

Lemma single_deq_cons k q x xs :
  repr k q (x :: xs) ->
  exists q', QueueSingleConsumerDequeue (Some q) true = (0, Some x, Some q') /\
    QueueMultiConsumerDequeue (Some q) true = Some (0, Some x, Some q') /\
    repr k q' xs.
Proof.
  intros H. destruct (repr_deq _ _ _ _ H) as [Hx Hr].
  unfold QueueSingleConsumerDequeue, QueueMultiConsumerDequeue.
  rewrite (repr_used _ _ _ H), Hx, (repr_ctail _ _ _ H), Z.eqb_refl.
  simpl length. destruct (Z.ltb_spec (Z.of_nat (S (length xs))) 1); [lia|]. eauto.
Qed.

Lemma single_deq_nil k q :
  repr k q [] ->
  QueueSingleConsumerDequeue (Some q) true = (QUEUE_EMPTY, None, Some q) /\
  QueueMultiConsumerDequeue (Some q) true = Some (QUEUE_EMPTY, None, Some q).
Proof.
  intros H. unfold QueueSingleConsumerDequeue, QueueMultiConsumerDequeue.
  rewrite (repr_used _ _ _ H). auto.
Qed.

Lemma repr_count k q xs :
  repr k q xs ->
  Z.land (u32 (tail (producer q) - tail (consumer q))) (mask (producer q)) =
  Z.of_nat (length xs).
Proof.
  intros H. pose proof (repr_pow _ _ _ H). pose proof (repr_len _ _ _ H).
  pose proof (repr_k _ _ _ H).
  rewrite (repr_ctail _ _ _ H), (repr_used _ _ _ H), (repr_mask _ _ _ H).
  rewrite land_pow2_mask by lia. apply Z.mod_small. lia.
Qed.

End Repr.

(** ** The ring queue is a bounded FIFO *)

#[export] Instance lfq_ops A : FifoOps (LockFreeQueue A) A := {
  fifo_create := CreateQueue;
  fifo_enq q x :=
    match QueueMultiProducerEnqueue (Some q) (Some x) with
    | Some (r, Some q') => Some (r, q')
    | _ => None
    end;
  fifo_deq q :=
    match QueueSingleConsumerDequeue (Some q) true with
    | (r, x, Some q') => (r, x, q')
    | (r, x, None) => (r, x, q)
    end;
  fifo_count q := QueueCountGet (Some q) true
}.

#[export] Program Instance lfq_laws A : FifoLaws (LockFreeQueue A) A := {
  fifo_repr cap q xs := exists k, cap = 2 ^ k - 1 /\ repr k q xs
}.
Next Obligation. intros A cap q xs (k & -> & H). apply H. Qed.
Next Obligation.
  intros A alloc n q H. destruct (CreateQueue_repr _ _ _ H) as (k & -> & Hr). eauto.
Qed.
Next Obligation.
  intros A cap q xs x (k & -> & H) Hlt. cbn [fifo_enq fifo_deq lfq_ops].
  destruct (multi_enq_room k q xs x H Hlt) as (q' & -> & _ & Hr). eauto.
Qed.
Next Obligation.
  intros A cap q xs x (k & -> & H) He. cbn [fifo_enq fifo_deq lfq_ops].
  now rewrite (proj1 (multi_enq_full k q xs x H He)).
Qed.
Next Obligation.
  intros A cap q x xs (k & -> & H). cbn [fifo_enq fifo_deq lfq_ops].
  destruct (single_deq_cons k q x xs H) as (q' & -> & _ & Hr). eauto.
Qed.
Next Obligation.
  intros A cap q (k & -> & H). cbn [fifo_enq fifo_deq lfq_ops]. now rewrite (proj1 (single_deq_nil k q H)).
Qed.
Next Obligation.
  intros A cap q xs (k & -> & H). cbn [fifo_count lfq_ops]. unfold QueueCountGet. cbn [negb].
  now rewrite (repr_count k q xs H).
Qed.

(** ** Refinement over whole executions *)

Section Refinement.
Context {A : Type}.

Inductive op :=
| OpSingleEnq (x : A) | OpMultiEnq (x : A)
| OpSingleDeq | OpMultiDeq | OpCount | OpIsEmpty.

(** Code, dequeued element, stored count; [None] for a call that never
    returns. *)
Definition out : Type := option (Z * option A * option Z).

Definition implStep (q : LockFreeQueue A) (o : op) : out * LockFreeQueue A :=
  match o with
  | OpSingleEnq x =>
    let '(r, q') := QueueSingleProducerEnqueue (Some q) (Some x) in
    (Some (r, None, None), default q q')
  | OpMultiEnq x =>
    match QueueMultiProducerEnqueue (Some q) (Some x) with
    | Some (r, q') => (Some (r, None, None), default q q')
    | None => (None, q)
    end
  | OpSingleDeq =>
    let '(r, x, q') := QueueSingleConsumerDequeue (Some q) true in
    (Some (r, x, None), default q q')
  | OpMultiDeq =>
    match QueueMultiConsumerDequeue (Some q) true with
    | Some (r, x, q') => (Some (r, x, None), default q q')
    | None => (None, q)
    end
  | OpCount => let '(r, n) := QueueCountGet (Some q) true in (Some (r, None, n), q)
  | OpIsEmpty => (Some (QueueIsEmpty (Some q), None, None), q)
  end.

(** The promise: a list with room for [cap] elements. *)
Definition specStep (cap : Z) (xs : list A) (o : op) : out * list A :=
  match o with
  | OpSingleEnq x | OpMultiEnq x =>
    if Z.of_nat (length xs) <? cap then (Some (0, None, None), xs ++ [x])
    else (Some (QUEUE_FULL, None, None), xs)
  | OpSingleDeq | OpMultiDeq =>
    match xs with
    | [] => (Some (QUEUE_EMPTY, None, None), [])
    | x :: xs' => (Some (0, Some x, None), xs')
    end
  | OpCount => (Some (0, None, Some (Z.of_nat (length xs))), xs)
  | OpIsEmpty => (Some (if decide (xs = []) then 0 else -1, None, None), xs)
  end.

Fixpoint trace {S : Type} (step : S -> op -> out * S) (s : S) (l : list op) : list out :=
  match l with
  | [] => []
  | o :: l' => let '(r, s') := step s o in r :: trace step s' l'
  end.

Lemma implStep_refines k q xs o :
  repr k q xs ->
  exists q', implStep q o = (fst (specStep (2 ^ k - 1) xs o), q') /\
    repr k q' (snd (specStep (2 ^ k - 1) xs o)).
Proof.
  intros H. pose proof (repr_len _ _ _ H).
  destruct o; cbn [implStep specStep].
  1, 2: destruct (Z.ltb_spec (Z.of_nat (length xs)) (2 ^ k - 1)) as [Hlt|Hge];
    [destruct (multi_enq_room k q xs x H Hlt) as (q' & E1 & E2 & Hr)
    |destruct (multi_enq_full k q xs x H ltac:(lia)) as [E1 E2]];
    rewrite ?E1, ?E2; cbn; eauto.
  1, 2: destruct xs as [|x xs];
    [destruct (single_deq_nil k q H) as [E1 E2]
    |destruct (single_deq_cons k q x xs H) as (q' & E1 & E2 & Hr)];
    rewrite ?E1, ?E2; cbn; eauto.
  - exists q. unfold QueueCountGet. cbn [negb]. now rewrite (repr_count k q xs H).
  - exists q. unfold QueueIsEmpty. rewrite (repr_count k q xs H).
    destruct xs; cbn; auto.
Qed.

Lemma trace_refines k l : forall q xs,
  repr k q xs -> trace implStep q l = trace (specStep (2 ^ k - 1)) xs l.
Proof.
  induction l as [|o l IH]; intros q xs H; [reflexivity|]. cbn [trace].
  destruct (implStep_refines k q xs o H) as (q' & -> & Hr).
  destruct (specStep (2 ^ k - 1) xs o) as [r xs']. simpl in *. f_equal. now apply IH.
Qed.

End Refinement.

(** ** Properties *)

(** C16.  A queue made by [CreateQueue] answers every sequence of enqueues,
    dequeues (single and multi variants), counts and emptiness tests exactly as
    a list with room for [unitNum - 1] elements, for ever: also after the 32-bit
    counters wrap. *)
Theorem ring_queue_refines_fifo {A : Type} (alloc : bool) (num : Z)
    (q : LockFreeQueue A) (l : list op)
    (Hq : CreateQueue alloc num = Some q) :
  trace implStep q l = trace (specStep (num - 1)) [] l.
Proof. destruct (CreateQueue_repr _ _ _ Hq) as (k & -> & Hr). now apply trace_refines. Qed.

(**  [CreateQueue] succeeds exactly on the powers of two up to
    [QUEUE_SIZE_MAX] (memory permitting), and the block it allocates holds the
    header and [unitNum] words. *)
Theorem CreateQueue_exact {A : Type} (num : Z) (Hnum : in_u32 num) :
  (is_Some (@CreateQueue A true num) <->
   (exists k, 0 <= k <= 13 /\ num = 2 ^ k)) /\
  (forall q : LockFreeQueue A, CreateQueue true num = Some q ->
     num <= Z.of_nat (length (nodes q))).
Proof.
  split.
  - split.
    + intros [q Hq]. pose proof Hq as Hq'.
      destruct (CreateQueue_repr _ _ _ Hq) as (k & -> & Hr).
      exists k. split; [|reflexivity]. pose proof (repr_k _ _ _ Hr).
      split; [lia|]. destruct (Z.leb_spec k 13) as [|Hk]; [assumption|exfalso].
      revert Hq'. unfold CreateQueue, QueueSizeCalc.
      destruct ((_ <? _) || _); [discriminate|]. cbn [negb].
      destruct (Z.ltb_spec QUEUE_SIZE_MAX (2 ^ k)) as [|Hle]; [discriminate|].
      pose proof (Z.pow_le_mono_r 2 14 k ltac:(lia) ltac:(lia)).
      unfold QUEUE_SIZE_MAX in Hle. change (2 ^ 14) with 16384 in *. lia.
    + intros (k & Hk & ->).
      assert (k = 0 \/ k = 1 \/ k = 2 \/ k = 3 \/ k = 4 \/ k = 5 \/ k = 6 \/ k = 7 \/
              k = 8 \/ k = 9 \/ k = 10 \/ k = 11 \/ k = 12 \/ k = 13) as Hcases by lia.
      repeat destruct Hcases as [->|Hcases]; [..|subst k]; eexists; reflexivity.
  - intros q Hq. destruct (CreateQueue_repr _ _ _ Hq) as (k & -> & Hr). apply Hr.
Qed.

(** ** Witnesses *)

Lemma ring_queue_refines_fifo_witness :
  trace implStep (default (callocQueue 0) (CreateQueue true 2))
    [OpMultiEnq 7; OpSingleEnq 8; OpCount; OpSingleDeq; OpMultiDeq; OpIsEmpty] =
  [Some (0, None, None); Some (QUEUE_FULL, None, None); Some (0, None, Some 1);
   Some (0, Some 7, None); Some (QUEUE_EMPTY, None, None); Some (0, None, None)].
Proof.
  apply (ring_queue_refines_fifo true 2 (default (callocQueue 0) (CreateQueue true 2))
    [OpMultiEnq 7; OpSingleEnq 8; OpCount; OpSingleDeq; OpMultiDeq; OpIsEmpty]).
  reflexivity.
Defined.

Lemma CreateQueue_exact_witness :
  is_Some (@CreateQueue Z true 1024).
Proof.
  apply (CreateQueue_exact 1024); [vm_compute; split; congruence|].
  exists 10. split; [lia|reflexivity].
Defined.

End LockFreeQueue.
