(* ===== verification/Tlv.v ===== *)
(** * TLV objects

    Model of core/common/utils/softbus_tlv_utils.c: a list of type-length-value
    members with configurable type and length widths, its packed binary and the
    parser.  [libc] is the allocator's answer ([libc n] for the n-th allocation
    of a call that makes several). *)

From S2P Require Import Prelude ErrorCode Bytes.

Module Tlv.

Definition MAX_VALUE_LENGTH : Z := 512.
Definition MAX_TLV_BINARY_LENGTH : Z := 4096.
Definition UINT8_T : Z := 1.
Definition UINT16_T : Z := 2.
Definition UINT32_T : Z := 4.
Definition sizeof_TlvMember : Z := 24.
Definition sizeof_TlvObject : Z := 32.

Record TlvMember := mkMember {
  type : Z;
  length : Z;
  value : list byte
}.

Record TlvObject := mkObject {
  tSize : Z;
  lSize : Z;
  mList : list TlvMember;
  size : Z
}.

Definition TLV_SIZE (obj : TlvObject) (len : Z) : Z :=
  u32 (tSize obj + lSize obj + len).

(** The first [n] bytes at a pointer. *)
Definition bytesAt (p : list byte) (n : Z) : list byte := take (Z.to_nat n) p.

Definition NewTlvMember (libc : Z -> bool) (ty len : Z) (v : option (list byte))
  : option TlvMember :=
  if negb (SoftBusMalloc libc (sizeof_TlvMember + len)) then None
  else Some (mkMember ty len
               (if 0 <? len then match v with Some p => bytesAt p len | None => [] end
                else [])).

Definition CreateTlvObject (libc : Z -> bool) (ts ls : Z) : option TlvObject :=
  if negb ((UINT8_T <=? ts) && (ts <=? UINT32_T)) then None
  else if negb ((UINT8_T <=? ls) && (ls <=? UINT32_T)) then None
  else if negb (SoftBusMalloc libc sizeof_TlvObject) then None
  else Some (mkObject ts ls [] 0).

Definition addMember (obj : TlvObject) (tlv : TlvMember) : TlvObject :=
  mkObject (tSize obj) (lSize obj) (mList obj ++ [tlv])
    (u32 (size obj + TLV_SIZE obj (length tlv))).

Definition AddTlvMember (libc : Z -> bool) (obj : option TlvObject) (ty len : Z)
    (v : option (list byte)) : Z * option TlvObject :=
  match obj with
  | None => (SOFTBUS_INVALID_PARAM, None)
  | Some o =>
    if negb (((0 <? len) && (len <? MAX_VALUE_LENGTH) && bool_decide (v <> None))
             || (len =? 0))
    then (SOFTBUS_INVALID_PARAM, Some o)
    else
      match NewTlvMember libc ty len v with
      | None => (SOFTBUS_MALLOC_ERR, Some o)
      | Some tlv => (SOFTBUS_OK, Some (addMember o tlv))
      end
  end.

(** Returns the code and what is stored through [length] and [value]. *)
Definition GetTlvMember (obj : option TlvObject) (ty : Z) (lengthPtr valuePtr : bool)
  : Z * option (Z * list byte) :=
  match obj with
  | None => (SOFTBUS_INVALID_PARAM, None)
  | Some o =>
    if negb lengthPtr then (SOFTBUS_INVALID_PARAM, None)
    else if negb valuePtr then (SOFTBUS_INVALID_PARAM, None)
    else
      match list_find (fun m => type m = ty) (mList o) with
      | Some (_, m) => (SOFTBUS_OK, Some (length m, value m))
      | None => (SOFTBUS_NOT_FIND, None)
      end
  end.

(** Packs into a buffer with [sz] bytes left; returns the bytes written. *)
Definition PackTypeOrLength (sz content contentSize : Z) : Z * list byte :=
  let copy (n : nat) :=
    if memcpy_s sz (Z.of_nat n) then (SOFTBUS_OK, le n content)
    else (SOFTBUS_MEM_ERR, []) in
  if contentSize =? UINT8_T then copy 1%nat
  else if contentSize =? UINT16_T then copy 2%nat
  else if contentSize =? UINT32_T then copy 4%nat
  else (SOFTBUS_NOT_IMPLEMENT, []).

Definition PackValue (sz : Z) (v : list byte) (vSize : Z) : Z * list byte :=
  if vSize =? 0 then (SOFTBUS_OK, [])
  else if memcpy_s sz vSize then (SOFTBUS_OK, bytesAt v vSize)
  else (SOFTBUS_MEM_ERR, []).

Definition PackTlvMember (obj : TlvObject) (tlv : TlvMember) (sz : Z) : Z * list byte :=
  if sz <? TLV_SIZE obj (length tlv) then (SOFTBUS_NO_ENOUGH_DATA, [])
  else
    let '(ret1, b1) := PackTypeOrLength sz (type tlv) (tSize obj) in
    if negb (ret1 =? SOFTBUS_OK) then (ret1, [])
    else
      let offset1 := tSize obj in
      let '(ret2, b2) := PackTypeOrLength (u32 (sz - offset1)) (length tlv) (lSize obj) in
      if negb (ret2 =? SOFTBUS_OK) then (ret2, [])
      else
        let offset2 := u32 (offset1 + lSize obj) in
        let '(ret3, b3) := PackValue (u32 (sz - offset2)) (value tlv) (length tlv) in
        if negb (ret3 =? SOFTBUS_OK) then (ret3, [])
        else (SOFTBUS_OK, b1 ++ b2 ++ b3).

(** The packing loop: [written] is the buffer up to [offset]. *)
Fixpoint GetTlvBinaryLoop (obj : TlvObject) (l : list TlvMember) (offset : Z)
    (written : list byte) : Z * (Z * list byte) :=
  match l with
  | [] => (SOFTBUS_OK, (offset, written))
  | tlv :: l' =>
    let '(ret, b) := PackTlvMember obj tlv (u32 (size obj - offset)) in
    if negb (ret =? SOFTBUS_OK) then (ret, (offset, written))
    else GetTlvBinaryLoop obj l' (u32 (offset + TLV_SIZE obj (length tlv))) (written ++ b)
  end.

(** Returns the code, [*output] (the whole block) and [*outputSize]. *)
Definition GetTlvBinary (libc : Z -> bool) (obj : option TlvObject)
    (outputPtr outputSizePtr : bool) : Z * option (list byte * Z) :=
  match obj with
  | None => (SOFTBUS_INVALID_PARAM, None)
  | Some o =>
    if negb outputPtr then (SOFTBUS_INVALID_PARAM, None)
    else if negb outputSizePtr then (SOFTBUS_INVALID_PARAM, None)
    else if negb (0 <? size o) then (SOFTBUS_NOT_FIND, None)
    else if negb (SoftBusCalloc libc (size o)) then (SOFTBUS_MALLOC_ERR, None)
    else
      let '(ret, (offset, written)) := GetTlvBinaryLoop o (mList o) 0 [] in
      if negb (ret =? SOFTBUS_OK) then (ret, None)
      else
        let rest := replicate (Z.to_nat (size o) - List.length written) Byte.x00 in
        (SOFTBUS_OK, Some (written ++ rest, offset))
  end.

Definition UnpackTypeOrLength (buf : list byte) (sz : Z) : Z :=
  if (sz =? UINT8_T) || (sz =? UINT16_T) || (sz =? UINT32_T)
  then unle (bytesAt buf sz)
  else UINT32_MAX.

(** One iteration of the parsing loop: continue with the new object and
    offset, leave the loop, or return a code. *)
Inductive parseStep :=
| ParseNext (o : TlvObject) (offset : Z)
| ParseDone
| ParseReturn (ret : Z) (o : TlvObject).

Definition SetTlvBinaryBody (libc : Z -> bool) (o : TlvObject) (input : list byte)
    (inputSize offset : Z) : parseStep :=
  if u32 (offset + TLV_SIZE o 0) <=? inputSize then
    let at_ n := drop (Z.to_nat n) input in
    let ty := UnpackTypeOrLength (at_ offset) (tSize o) in
    let len := UnpackTypeOrLength (at_ (offset + tSize o)) (lSize o) in
    if negb (negb (ty =? UINT32_MAX) && negb (len =? UINT32_MAX))
    then ParseReturn SOFTBUS_NOT_IMPLEMENT o
    else if negb (len <? MAX_VALUE_LENGTH) then ParseReturn SOFTBUS_INVALID_DATA_HEAD o
    else if u32 (inputSize - offset) <? TLV_SIZE o len
    then ParseReturn SOFTBUS_NO_ENOUGH_DATA o
    else
      match AddTlvMember libc (Some o) ty len (Some (at_ (offset + TLV_SIZE o 0))) with
      | (ret, Some o') =>
        if negb (ret =? SOFTBUS_OK) then ParseReturn ret o'
        else ParseNext o' (u32 (offset + TLV_SIZE o len))
      | (ret, None) => ParseReturn ret o
      end
  else ParseDone.

(** [None] when the fuel runs out. *)
Fixpoint SetTlvBinaryLoop (fuel : nat) (libc : nat -> Z -> bool) (o : TlvObject)
    (input : list byte) (inputSize offset : Z) : option (Z * TlvObject) :=
  match fuel with
  | O => None
  | S fuel' =>
    match SetTlvBinaryBody (libc fuel') o input inputSize offset with
    | ParseNext o' offset' => SetTlvBinaryLoop fuel' libc o' input inputSize offset'
    | ParseReturn ret o' => Some (ret, o')
    | ParseDone =>
      if negb (0 <? offset) then Some (SOFTBUS_NO_ENOUGH_DATA, o)
      else Some (SOFTBUS_OK, o)
    end
  end.

Definition SetTlvBinary (libc : nat -> Z -> bool) (obj : option TlvObject)
    (input : option (list byte)) (inputSize : Z) : option (Z * option TlvObject) :=
  match obj with
  | None => Some (SOFTBUS_INVALID_PARAM, None)
  | Some o =>
    match input with
    | None => Some (SOFTBUS_INVALID_PARAM, obj)
    | Some inp =>
      if negb ((0 <? inputSize) && (inputSize <? MAX_TLV_BINARY_LENGTH))
      then Some (SOFTBUS_INVALID_DATA_HEAD, obj)
      else
        match SetTlvBinaryLoop (S (Z.to_nat inputSize)) libc o inp inputSize 0 with
        | Some (ret, o') => Some (ret, Some o')
        | None => None
        end
    end
  end.

(** [buffer] is the destination when it is not NULL; the new contents are
    returned. *)
Definition GetTlvMemberWithSpecifiedBuffer (obj : option TlvObject) (ty : Z)
    (buffer : option (list byte)) (sz : Z) : Z * option (list byte) :=
  match obj with
  | None => (SOFTBUS_INVALID_PARAM, buffer)
  | Some _ =>
    match GetTlvMember obj ty true true with
    | (ret, Some (len, v)) =>
      if negb (ret =? SOFTBUS_OK) then (ret, buffer)
      else if negb (len =? sz) then (SOFTBUS_INVALID_PARAM, buffer)
      else if negb (0 <? len) then (SOFTBUS_OK, buffer)
      else
        match buffer with
        | None => (SOFTBUS_INVALID_PARAM, None)
        | Some b =>
          if memcpy_s sz len then (SOFTBUS_OK, Some (bytesAt v len ++ drop (Z.to_nat len) b))
          else (SOFTBUS_MEM_ERR, buffer)
        end
    | (ret, None) => (ret, buffer)
    end
  end.

(** [sz] is [*size]; returns the code, the buffer and the new [*size]. *)
Definition GetTlvMemberWithEstimatedBuffer (obj : option TlvObject) (ty : Z)
    (buffer : option (list byte)) (sz : option Z)
  : Z * option (list byte) * option Z :=
  match obj, sz, buffer with
  | None, _, _ => (SOFTBUS_INVALID_PARAM, buffer, sz)
  | _, None, _ => (SOFTBUS_INVALID_PARAM, buffer, sz)
  | _, _, None => (SOFTBUS_INVALID_PARAM, buffer, sz)
  | Some _, Some n, Some b =>
    match GetTlvMember obj ty true true with
    | (ret, Some (len, v)) =>
      if negb (ret =? SOFTBUS_OK) then (ret, buffer, sz)
      else if len =? 0 then (SOFTBUS_OK, buffer, Some 0)
      else if negb (memcpy_s n len) then (SOFTBUS_MEM_ERR, buffer, sz)
      else (SOFTBUS_OK, Some (bytesAt v len ++ drop (Z.to_nat len) b), Some len)
    | (ret, None) => (ret, buffer, sz)
    end
  end.

(** Integer members are stored little-endian ([memOf_SoftBusHtoL]). *)
Definition AddTlvMemberU8 libc obj ty (v : Z) :=
  AddTlvMember libc obj ty 1 (Some (le 1 v)).
Definition AddTlvMemberU16 libc obj ty (v : Z) :=
  AddTlvMember libc obj ty 2 (Some (le 2 v)).
Definition AddTlvMemberU32 libc obj ty (v : Z) :=
  AddTlvMember libc obj ty 4 (Some (le 4 v)).
Definition AddTlvMemberU64 libc obj ty (v : Z) :=
  AddTlvMember libc obj ty 8 (Some (le 8 v)).

(** [val] is the variable [value] points to; overwritten on success. *)
Definition getMemberInt (n : nat) (obj : option TlvObject) (ty : Z) (val : option Z)
  : Z * option Z :=
  match GetTlvMemberWithSpecifiedBuffer obj ty (le n <$> val) (Z.of_nat n) with
  | (ret, Some b) =>
    if negb (ret =? SOFTBUS_OK) then (ret, val) else (SOFTBUS_OK, Some (unle b))
  | (ret, None) => (ret, val)
  end.
Definition GetTlvMemberU8 := getMemberInt 1.
Definition GetTlvMemberU16 := getMemberInt 2.
Definition GetTlvMemberU32 := getMemberInt 4.
Definition GetTlvMemberU64 := getMemberInt 8.

(** ** Well-formed members and their encoding *)

Definition okWidth (w : Z) : Prop := w = UINT8_T \/ w = UINT16_T \/ w = UINT32_T.

Record memberOK (t l : Z) (m : TlvMember) : Prop := {
  ok_type : 0 <= type m < 256 ^ t;
  ok_type_max : type m <> UINT32_MAX;
  ok_length : 0 <= length m < 256 ^ l;
  ok_length_max : length m < MAX_VALUE_LENGTH;
  ok_value : Z.of_nat (List.length (value m)) = length m
}.

Definition enc (t l : Z) (m : TlvMember) : list byte :=
  le (Z.to_nat t) (type m) ++ le (Z.to_nat l) (length m) ++ value m.

Definition encs (t l : Z) (ms : list TlvMember) : list byte := concat (enc t l <$> ms).

Definition total (t l : Z) (ms : list TlvMember) : Z :=
  Z.of_nat (List.length (encs t l ms)).

(** The invariant of an object. *)
Record wfObject (o : TlvObject) : Prop := {
  wf_t : okWidth (tSize o);
  wf_l : okWidth (lSize o);
  wf_members : Forall (memberOK (tSize o) (lSize o)) (mList o);
  wf_size : size o = u32 (total (tSize o) (lSize o) (mList o))
}.

Ltac widths H := destruct H as [->|[->| ->]]; unfold UINT8_T, UINT16_T, UINT32_T in *.

Lemma okWidth_range w : okWidth w -> 1 <= w <= 4.
Proof. intros H. widths H; lia. Qed.

Lemma PackTypeOrLength_ok sz c w :
  okWidth w -> w <= sz -> PackTypeOrLength sz c w = (SOFTBUS_OK, le (Z.to_nat w) c).
Proof.
  intros Hw Hle. widths Hw; unfold PackTypeOrLength;
    cbn -[memcpy_s le]; (destruct (memcpy_s _ _) eqn:E; [reflexivity|]);
    exfalso; apply not_true_iff_false in E; apply E, memcpy_s_spec; lia.
Qed.

Lemma UnpackTypeOrLength_ok buf w :
  okWidth w -> UnpackTypeOrLength buf w = unle (bytesAt buf w).
Proof. intros Hw. now widths Hw. Qed.

Lemma length_enc t l m :
  0 <= t -> 0 <= l -> memberOK t l m ->
  Z.of_nat (List.length (enc t l m)) = t + l + length m.
Proof.
  intros Ht Hl Hm. unfold enc. rewrite !length_app, !length_le.
  pose proof (ok_value _ _ _ Hm). lia.
Qed.

Lemma TLV_SIZE_ok o m :
  wfObject o -> memberOK (tSize o) (lSize o) m ->
  TLV_SIZE o (length m) = Z.of_nat (List.length (enc (tSize o) (lSize o) m)).
Proof.
  intros Ho Hm. pose proof (okWidth_range _ (wf_t _ Ho)).
  pose proof (okWidth_range _ (wf_l _ Ho)).
  rewrite length_enc by (lia || exact Hm). unfold TLV_SIZE. apply u32_small.
  pose proof (ok_length_max _ _ _ Hm). pose proof (ok_length _ _ _ Hm).
  unfold in_u32, MAX_VALUE_LENGTH in *. lia.
Qed.

Lemma TLV_SIZE_0 o : wfObject o -> TLV_SIZE o 0 = tSize o + lSize o.
Proof.
  intros Ho. pose proof (okWidth_range _ (wf_t _ Ho)).
  pose proof (okWidth_range _ (wf_l _ Ho)). unfold TLV_SIZE.
  rewrite u32_small; unfold in_u32; lia.
Qed.

Lemma encs_app t l a b : encs t l (a ++ b) = encs t l a ++ encs t l b.
Proof. unfold encs. now rewrite fmap_app, concat_app. Qed.

Lemma encs_cons t l m ms : encs t l (m :: ms) = enc t l m ++ encs t l ms.
Proof. reflexivity. Qed.

Lemma wf_addMember o m :
  wfObject o -> memberOK (tSize o) (lSize o) m -> wfObject (addMember o m).
Proof.
  intros Ho Hm. pose proof Ho as [Ht Hl Hms Hs]. split; simpl; auto.
  - apply Forall_app. auto.
  - rewrite TLV_SIZE_ok, Hs by assumption. unfold total. rewrite encs_app, length_app.
    unfold u32. rewrite Zplus_mod_idemp_l. f_equal.
    change (encs (tSize o) (lSize o) [m]) with (enc (tSize o) (lSize o) m ++ []).
    rewrite app_nil_r. lia.
Qed.

(** ** Packing *)

Lemma PackTlvMember_ok o m sz :
  wfObject o -> memberOK (tSize o) (lSize o) m -> in_u32 sz ->
  Z.of_nat (List.length (enc (tSize o) (lSize o) m)) <= sz ->
  PackTlvMember o m sz = (SOFTBUS_OK, enc (tSize o) (lSize o) m).
Proof.
  intros Ho Hm Hsz Hle. unfold PackTlvMember.
  pose proof (okWidth_range _ (wf_t _ Ho)). pose proof (okWidth_range _ (wf_l _ Ho)).
  pose proof (ok_length _ _ _ Hm). pose proof (ok_value _ _ _ Hm).
  rewrite TLV_SIZE_ok by assumption.
  destruct (Z.ltb_spec sz (Z.of_nat (List.length (enc (tSize o) (lSize o) m)))); [lia|].
  rewrite length_enc in Hle by (lia || exact Hm). unfold in_u32 in Hsz.
  rewrite PackTypeOrLength_ok by (apply Ho || lia). cbn [negb Z.eqb SOFTBUS_OK].
  rewrite (u32_small (sz - _)), PackTypeOrLength_ok
    by (apply Ho || unfold in_u32; lia). cbn [negb Z.eqb SOFTBUS_OK].
  rewrite (u32_small (tSize o + lSize o)), (u32_small (sz - _)) by (unfold in_u32; lia).
  assert (Hv : PackValue (sz - (tSize o + lSize o)) (value m) (length m) =
               (SOFTBUS_OK, value m)).
  { unfold PackValue. destruct (Z.eqb_spec (length m) 0) as [E|E].
    - destruct (value m); [reflexivity|simpl in *; lia].
    - assert (Hc : memcpy_s (sz - (tSize o + lSize o)) (length m) = true)
        by (apply memcpy_s_spec; lia).
      rewrite Hc. unfold bytesAt. rewrite take_ge by lia. reflexivity. }
  rewrite Hv. reflexivity.
Qed.

Lemma GetTlvBinaryLoop_ok o :
  wfObject o -> forall ms written,
  Forall (memberOK (tSize o) (lSize o)) ms ->
  size o = Z.of_nat (List.length (written ++ encs (tSize o) (lSize o) ms)) ->
  in_u32 (size o) ->
  GetTlvBinaryLoop o ms (Z.of_nat (List.length written)) written =
  (SOFTBUS_OK, (size o, written ++ encs (tSize o) (lSize o) ms)).
Proof.
  intros Ho. induction ms as [|m ms IH]; intros written Hms Hs Hr.
  - unfold encs in *. simpl in *. rewrite app_nil_r in *. now rewrite <- Hs.
  - apply Forall_cons_1 in Hms as [Hm Hms]. cbn [GetTlvBinaryLoop].
    rewrite encs_cons, !length_app in Hs. unfold in_u32 in Hr.
    rewrite PackTlvMember_ok; [|assumption|assumption|auto with word|
      rewrite u32_small by (unfold in_u32; lia); lia].
    cbn [negb Z.eqb SOFTBUS_OK].
    rewrite TLV_SIZE_ok, u32_small by (assumption || unfold in_u32; lia).
    replace (Z.of_nat (List.length written) +
             Z.of_nat (List.length (enc (tSize o) (lSize o) m)))
      with (Z.of_nat (List.length (written ++ enc (tSize o) (lSize o) m)))
      by (rewrite length_app; lia).
    rewrite IH; [|assumption| |assumption].
    + rewrite encs_cons. now rewrite <- app_assoc.
    + rewrite !length_app. lia.
Qed.

(** ** Parsing *)

(** The allocation of one member succeeds. *)
Definition room (libc : Z -> bool) (m : TlvMember) : Prop :=
  SoftBusMalloc libc (sizeof_TlvMember + length m) = true.

Lemma AddTlvMember_ok libc o m p :
  memberOK (tSize o) (lSize o) m -> room libc m -> bytesAt p (length m) = value m ->
  AddTlvMember libc (Some o) (type m) (length m) (Some p) =
  (SOFTBUS_OK, Some (addMember o m)).
Proof.
  intros Hm Hr Hp. pose proof (ok_length _ _ _ Hm). pose proof (ok_length_max _ _ _ Hm).
  pose proof (ok_value _ _ _ Hm). unfold AddTlvMember, NewTlvMember.
  unfold room in Hr. rewrite Hr. cbn [negb].
  assert (Hg : (0 <? length m) && (length m <? MAX_VALUE_LENGTH) &&
               bool_decide (Some p <> None) || (length m =? 0) = true).
  { rewrite bool_decide_eq_true_2 by discriminate.
    destruct (Z.eqb_spec (length m) 0); [now rewrite orb_true_r|].
    rewrite orb_false_r, andb_true_r. apply andb_true_intro.
    rewrite !Z.ltb_lt. lia. }
  rewrite Hg. cbn [negb]. rewrite Hp.
  assert (Hv : (if 0 <? length m then value m else []) = value m).
  { destruct (Z.ltb_spec 0 (length m)); [reflexivity|].
    destruct (value m); [reflexivity|simpl in *; lia]. }
  rewrite Hv. now destruct m.
Qed.

Lemma bytesAt_app (a b : list byte) n :
  Z.to_nat n = List.length a -> bytesAt (a ++ b) n = a.
Proof. intros H. unfold bytesAt. now rewrite H, take_app_length. Qed.

Lemma unle_le_small w z : 0 <= z < 256 ^ w -> 0 <= w -> unle (le (Z.to_nat w) z) = z.
Proof.
  intros Hz Hw. rewrite unle_le, Z2Nat.id by lia. now apply Z.mod_small.
Qed.

Lemma SetTlvBinaryBody_accept libc o m pre post :
  wfObject o -> memberOK (tSize o) (lSize o) m -> room libc m ->
  Z.of_nat (List.length (pre ++ enc (tSize o) (lSize o) m ++ post)) < MAX_TLV_BINARY_LENGTH ->
  SetTlvBinaryBody libc o (pre ++ enc (tSize o) (lSize o) m ++ post)
    (Z.of_nat (List.length (pre ++ enc (tSize o) (lSize o) m ++ post)))
    (Z.of_nat (List.length pre)) =
  ParseNext (addMember o m) (Z.of_nat (List.length (pre ++ enc (tSize o) (lSize o) m))).
Proof.
  intros Ho Hm Hr Hlen. unfold MAX_TLV_BINARY_LENGTH in Hlen.
  pose proof (okWidth_range _ (wf_t _ Ho)) as Ht. pose proof (okWidth_range _ (wf_l _ Ho)) as Hl.
  pose proof (length_enc (tSize o) (lSize o) m ltac:(lia) ltac:(lia) Hm) as Hel.
  pose proof (ok_length _ _ _ Hm) as Hlm. pose proof (ok_type _ _ _ Hm) as Htm.
  unfold SetTlvBinaryBody. rewrite TLV_SIZE_0 by assumption.
  rewrite !length_app in *.
  rewrite u32_small by (unfold in_u32; lia).
  destruct (Z.leb_spec (Z.of_nat (List.length pre) + (tSize o + lSize o))
    (Z.of_nat (List.length pre + (List.length (enc (tSize o) (lSize o) m) + List.length post))));
    [|lia].
  rewrite !UnpackTypeOrLength_ok by apply Ho.
  assert (E1 : drop (Z.to_nat (Z.of_nat (List.length pre))) (pre ++ enc (tSize o) (lSize o) m ++ post)
               = le (Z.to_nat (tSize o)) (type m) ++ le (Z.to_nat (lSize o)) (length m) ++ value m ++ post)
    by (rewrite Nat2Z.id, drop_app_length; unfold enc; now rewrite <- !app_assoc).
  assert (E2 : drop (Z.to_nat (Z.of_nat (List.length pre) + tSize o)) (pre ++ enc (tSize o) (lSize o) m ++ post)
               = le (Z.to_nat (lSize o)) (length m) ++ value m ++ post).
  { rewrite Z2Nat.inj_add, <- drop_drop, E1 by lia.
    rewrite <- (length_le (Z.to_nat (tSize o)) (type m)) at 1. apply drop_app_length. }
  assert (E3 : drop (Z.to_nat (Z.of_nat (List.length pre) + (tSize o + lSize o)))
                 (pre ++ enc (tSize o) (lSize o) m ++ post) = value m ++ post).
  { rewrite Z.add_assoc, Z2Nat.inj_add, <- drop_drop, E2 by lia.
    rewrite <- (length_le (Z.to_nat (lSize o)) (length m)) at 1. apply drop_app_length. }
  rewrite E1, E2, E3.
  rewrite !bytesAt_app by (now rewrite length_le).
  rewrite !unle_le_small by lia.
  pose proof (ok_type_max _ _ _ Hm). pose proof (ok_length_max _ _ _ Hm).
  destruct (Z.eqb_spec (type m) UINT32_MAX); [contradiction|].
  unfold MAX_VALUE_LENGTH in *.
  destruct (Z.eqb_spec (length m) UINT32_MAX); [lia|]. cbn [negb andb].
  destruct (Z.ltb_spec (length m) 512); [|lia]. cbn [negb].
  rewrite TLV_SIZE_ok by assumption. rewrite (u32_small (_ - _)) by (unfold in_u32; lia).
  zcase; [lia|].
  rewrite AddTlvMember_ok; [|assumption|assumption|
    apply bytesAt_app; pose proof (ok_value _ _ _ Hm); lia].
  cbn [negb Z.eqb SOFTBUS_OK]. f_equal. rewrite u32_small; unfold in_u32; lia.
Qed.

Lemma SetTlvBinaryLoop_accept libc : forall ms fuel o pre,
  wfObject o -> Forall (memberOK (tSize o) (lSize o)) ms ->
  (forall n, Forall (room (libc n)) ms) ->
  let input := pre ++ encs (tSize o) (lSize o) ms in
  Z.of_nat (List.length input) < MAX_TLV_BINARY_LENGTH -> input <> [] ->
  (List.length ms < fuel)%nat ->
  exists o', SetTlvBinaryLoop fuel libc o input (Z.of_nat (List.length input))
    (Z.of_nat (List.length pre)) = Some (SOFTBUS_OK, o') /\
    o' = foldl addMember o ms.
Proof.
  induction ms as [|m ms IH]; intros fuel o pre Ho Hms Hr input Hlen Hne Hf;
    (destruct fuel as [|fuel]; [simpl in Hf; lia|]); cbn [SetTlvBinaryLoop].
  - subst input. unfold encs in *. simpl in *. rewrite app_nil_r in *.
    pose proof (okWidth_range _ (wf_t _ Ho)). pose proof (okWidth_range _ (wf_l _ Ho)).
    unfold MAX_TLV_BINARY_LENGTH in *.
    unfold SetTlvBinaryBody. rewrite TLV_SIZE_0, u32_small by (assumption || unfold in_u32; lia).
    destruct (Z.leb_spec (Z.of_nat (List.length pre) + (tSize o + lSize o))
      (Z.of_nat (List.length pre))); [lia|].
    destruct pre; [congruence|]. simpl List.length.
    destruct (Z.ltb_spec 0 (Z.of_nat (S (List.length pre)))); [|lia]. eauto.
  - apply Forall_cons_1 in Hms as [Hm Hms]. subst input. rewrite encs_cons in *.
    rewrite SetTlvBinaryBody_accept; [|assumption|assumption| |assumption].
    2: { specialize (Hr fuel). now apply Forall_cons_1 in Hr as [? _]. }
    rewrite app_assoc in *. simpl in Hf.
    apply (IH fuel (addMember o m) (pre ++ enc (tSize o) (lSize o) m));
      [now apply wf_addMember|exact Hms| |exact Hlen|exact Hne|lia].
    intros n. specialize (Hr n). now apply Forall_cons_1 in Hr as [_ ?].
Qed.

Lemma foldl_addMember o ms :
  mList (foldl addMember o ms) = mList o ++ ms /\
  tSize (foldl addMember o ms) = tSize o /\ lSize (foldl addMember o ms) = lSize o.
Proof.
  revert o. induction ms as [|m ms IH]; intros o; simpl; [now rewrite app_nil_r|].
  destruct (IH (addMember o m)) as (-> & -> & ->). simpl. now rewrite <- app_assoc.
Qed.

(** ** What a successful step has read *)

Lemma AddTlvMember_inv libc o ty len p ret o' :
  AddTlvMember libc (Some o) ty len (Some p) = (ret, Some o') ->
  (ret = SOFTBUS_OK /\ o' = addMember o (mkMember ty len (if 0 <? len then bytesAt p len else []))) \/
  (ret <> SOFTBUS_OK /\ o' = o).
Proof.
  unfold AddTlvMember, NewTlvMember.
  destruct (negb _); [intros [= <- <-]; right; split; [discriminate|reflexivity]|].
  destruct (SoftBusMalloc _ _); simpl; intros [= <- <-];
    [left; auto|right; split; [discriminate|reflexivity]].
Qed.

Lemma SetTlvBinaryBody_next libc o input n offset o' offset' :
  1 <= tSize o <= 4 -> 1 <= lSize o <= 4 -> 0 <= offset <= n -> n < MAX_TLV_BINARY_LENGTH ->
  SetTlvBinaryBody libc o input n offset = ParseNext o' offset' ->
  exists m, o' = addMember o m /\
    type m = UnpackTypeOrLength (drop (Z.to_nat offset) input) (tSize o) /\
    length m = UnpackTypeOrLength (drop (Z.to_nat (offset + tSize o)) input) (lSize o) /\
    value m = (if 0 <? length m
               then bytesAt (drop (Z.to_nat (offset + (tSize o + lSize o))) input) (length m)
               else []) /\
    type m <> UINT32_MAX /\ 0 <= length m < MAX_VALUE_LENGTH /\
    offset' = offset + (tSize o + lSize o + length m) /\ offset' <= n.
Proof.
  unfold MAX_TLV_BINARY_LENGTH. intros Ht Hl Hoff Hn. unfold SetTlvBinaryBody.
  assert (E0 : TLV_SIZE o 0 = tSize o + lSize o)
    by (unfold TLV_SIZE; rewrite u32_small; unfold in_u32; lia).
  rewrite E0, (u32_small (offset + _)) by (unfold in_u32; lia).
  set (ty := UnpackTypeOrLength (drop (Z.to_nat offset) input) (tSize o)).
  set (len := UnpackTypeOrLength (drop (Z.to_nat (offset + tSize o)) input) (lSize o)).
  assert (Hlen0 : 0 <= len).
  { unfold len, UnpackTypeOrLength. destruct (_ || _); [apply unle_range|lia]. }
  destruct (Z.leb_spec (offset + (tSize o + lSize o)) n); [|discriminate].
  destruct (Z.eqb_spec ty UINT32_MAX) as [|Hty]; [discriminate|].
  destruct (Z.eqb_spec len UINT32_MAX); [discriminate|]. cbn [negb andb].
  destruct (Z.ltb_spec len MAX_VALUE_LENGTH) as [Hmax|]; [|discriminate]. cbn [negb].
  unfold MAX_VALUE_LENGTH in *.
  assert (E1 : TLV_SIZE o len = tSize o + lSize o + len)
    by (unfold TLV_SIZE; rewrite u32_small; unfold in_u32; lia).
  rewrite E1, (u32_small (n - offset)) by (unfold in_u32; lia).
  destruct (Z.ltb_spec (n - offset) (tSize o + lSize o + len)); [discriminate|].
  destruct (AddTlvMember libc (Some o) ty len _) as [ret [o1|]] eqn:E; [|discriminate].
  apply AddTlvMember_inv in E as [[-> ->]|[Hret ->]].
  - intros [= <- <-]. eexists. split; [reflexivity|]. cbn [type length value].
    rewrite u32_small by (unfold in_u32; lia). repeat split; auto; lia.
  - apply Z.eqb_neq in Hret. rewrite Hret. discriminate.
Qed.

(** On widths 1, 2 and 4 the member that was added encodes to the bytes that
    were consumed. *)
Lemma SetTlvBinaryBody_sound libc o input offset o' offset' :
  wfObject o -> 0 <= offset <= Z.of_nat (List.length input) ->
  Z.of_nat (List.length input) < MAX_TLV_BINARY_LENGTH ->
  SetTlvBinaryBody libc o input (Z.of_nat (List.length input)) offset = ParseNext o' offset' ->
  exists m, o' = addMember o m /\ memberOK (tSize o) (lSize o) m /\
    drop (Z.to_nat offset) input = enc (tSize o) (lSize o) m ++ drop (Z.to_nat offset') input /\
    offset < offset' <= Z.of_nat (List.length input).
Proof.
  intros Ho Hoff Hn Hb.
  pose proof (okWidth_range _ (wf_t _ Ho)) as Ht. pose proof (okWidth_range _ (wf_l _ Ho)) as Hl.
  apply SetTlvBinaryBody_next in Hb as (m & -> & Ety & Elen & Ev & Hty & Hlen & -> & Hle); try lia.
  exists m. split; [reflexivity|].
  rewrite UnpackTypeOrLength_ok in Ety, Elen by apply Ho.
  rewrite Z2Nat.inj_add, <- drop_drop in Elen by lia.
  rewrite Z2Nat.inj_add, (Z2Nat.inj_add (tSize o)), <- !drop_drop in Ev by lia.
  set (D := drop (Z.to_nat offset) input) in *. unfold bytesAt in *.
  assert (HD : Z.of_nat (List.length D) = Z.of_nat (List.length input) - offset)
    by (unfold D; rewrite length_drop; lia).
  assert (L1 : List.length (take (Z.to_nat (tSize o)) D) = Z.to_nat (tSize o))
    by (rewrite length_take; lia).
  assert (L2 : List.length (take (Z.to_nat (lSize o)) (drop (Z.to_nat (tSize o)) D))
               = Z.to_nat (lSize o)) by (rewrite length_take, length_drop; lia).
  assert (Hv : value m = take (Z.to_nat (length m))
             (drop (Z.to_nat (lSize o)) (drop (Z.to_nat (tSize o)) D))).
  { rewrite Ev. destruct (Z.ltb_spec 0 (length m)); [reflexivity|].
    replace (length m) with 0 by lia. reflexivity. }
  assert (Lv : Z.of_nat (List.length (value m)) = length m)
    by (rewrite Hv, length_take, !length_drop; lia).
  split; [split; try lia; try assumption|split; [|lia]].
  - rewrite Ety. pose proof (unle_range (take (Z.to_nat (tSize o)) D)) as Hr.
    rewrite L1, Z2Nat.id in Hr by lia. exact Hr.
  - rewrite Elen.
    pose proof (unle_range (take (Z.to_nat (lSize o)) (drop (Z.to_nat (tSize o)) D))) as Hr.
    rewrite L2, Z2Nat.id in Hr by lia. exact Hr.
  - unfold enc. rewrite Hv. rewrite Ety at 1. rewrite Elen at 1.
    rewrite <- L1 at 1. rewrite le_unle. rewrite <- L2 at 1. rewrite le_unle.
    replace (drop (Z.to_nat (offset + (tSize o + lSize o + length m))) input)
      with (drop (Z.to_nat (length m)) (drop (Z.to_nat (lSize o)) (drop (Z.to_nat (tSize o)) D)))
      by (unfold D; rewrite !drop_drop; f_equal; lia).
    rewrite <- !app_assoc, !take_drop. reflexivity.
Qed.

Lemma SetTlvBinaryLoop_total libc input n : forall fuel o offset,
  1 <= tSize o <= 4 -> 1 <= lSize o <= 4 -> 0 <= offset <= n ->
  n < MAX_TLV_BINARY_LENGTH -> (Z.to_nat (n - offset) < fuel)%nat ->
  is_Some (SetTlvBinaryLoop fuel libc o input n offset).
Proof.
  induction fuel as [|fuel IH]; intros o offset Ht Hl Hoff Hn Hf; [lia|].
  cbn [SetTlvBinaryLoop].
  destruct (SetTlvBinaryBody (libc fuel) o input n offset) as [o' offset'| |] eqn:E;
    [|destruct (negb _); eauto|eauto].
  apply SetTlvBinaryBody_next in E as (m & -> & _ & _ & _ & _ & Hlen & -> & Hle);
    try assumption. apply IH; simpl; auto; lia.
Qed.

Lemma SetTlvBinaryLoop_sound libc input :
  Z.of_nat (List.length input) < MAX_TLV_BINARY_LENGTH ->
  forall fuel o offset o',
  wfObject o -> 0 <= offset <= Z.of_nat (List.length input) ->
  SetTlvBinaryLoop fuel libc o input (Z.of_nat (List.length input)) offset
    = Some (SOFTBUS_OK, o') ->
  exists ms rest, o' = foldl addMember o ms /\ Forall (memberOK (tSize o) (lSize o)) ms /\
    drop (Z.to_nat offset) input = encs (tSize o) (lSize o) ms ++ rest /\
    Z.of_nat (List.length rest) < tSize o + lSize o.
Proof.
  intros Hn. induction fuel as [|fuel IH]; intros o offset o' Ho Hoff; [discriminate|].
  cbn [SetTlvBinaryLoop].
  destruct (SetTlvBinaryBody (libc fuel) o input _ offset) as [o1 offset1| |ret o1] eqn:E.
  - intros Hr. apply SetTlvBinaryBody_sound in E as (m & -> & Hm & Hd & Hlt); try assumption.
    apply IH in Hr as (ms & rest & -> & Hms & Hd1 & Hrest);
      [|now apply wf_addMember|lia].
    exists (m :: ms), rest. split; [reflexivity|]. split; [now constructor|].
    split; [|exact Hrest]. rewrite Hd, Hd1, encs_cons, <- app_assoc. reflexivity.
  - intros Hr. exists [], (drop (Z.to_nat offset) input).
    assert (Ho' : o' = o) by (destruct (negb (0 <? offset)); congruence).
    split; [exact Ho'|]. split; [constructor|]. split; [reflexivity|].
    revert E. unfold SetTlvBinaryBody, MAX_TLV_BINARY_LENGTH in *.
    pose proof (okWidth_range _ (wf_t _ Ho)). pose proof (okWidth_range _ (wf_l _ Ho)).
    rewrite TLV_SIZE_0, u32_small by (assumption || unfold in_u32; lia).
    destruct (Z.leb_spec (offset + (tSize o + lSize o)) (Z.of_nat (List.length input))).
    + intros E. exfalso. revert E. repeat (destruct (negb _); [discriminate|]).
      destruct (_ <? _); [discriminate|].
      destruct (AddTlvMember _ _ _ _ _) as [ret [o1|]]; [destruct (negb _)|]; discriminate.
    + intros _. rewrite length_drop. lia.
  - intros [= -> <-]. exfalso. revert E. unfold SetTlvBinaryBody.
    destruct (_ <=? _); [|discriminate].
    repeat (destruct (negb _); [intros [=]|]).
    destruct (_ <? _); [intros [=]|].
    destruct (AddTlvMember _ _ _ _ _) as [ret [o2|]] eqn:Ea; [|].
    + destruct (Z.eqb_spec ret SOFTBUS_OK); cbn [negb]; [discriminate|congruence].
    + unfold AddTlvMember in Ea. destruct (negb _); [congruence|].
      destruct (NewTlvMember _ _ _ _); congruence.
Qed.

(** ** Properties *)

Lemma wf_foldl o ms :
  wfObject o -> Forall (memberOK (tSize o) (lSize o)) ms -> wfObject (foldl addMember o ms).
Proof.
  revert o. induction ms as [|m ms IH]; intros o Ho Hms; [exact Ho|].
  apply Forall_cons_1 in Hms as [Hm Hms]. simpl. apply IH; [now apply wf_addMember|exact Hms].
Qed.

(** A well-formed object is determined by its widths and members. *)
Lemma wf_determined o o' :
  wfObject o -> wfObject o' -> tSize o = tSize o' -> lSize o = lSize o' ->
  mList o = mList o' -> o = o'.
Proof.
  intros [_ _ _ H1] [_ _ _ H2] Et El Em. rewrite Et, El, Em, <- H2 in H1.
  destruct o, o'; simpl in *; congruence.
Qed.

Lemma wf_empty t l : okWidth t -> okWidth l -> wfObject (mkObject t l [] 0).
Proof. intros Ht Hl. now split. Qed.

Lemma encs_nonempty o : wfObject o -> mList o <> [] -> encs (tSize o) (lSize o) (mList o) <> [].
Proof.
  intros Ho Hne. pose proof (okWidth_range _ (wf_t _ Ho)). pose proof (okWidth_range _ (wf_l _ Ho)).
  destruct (mList o) as [|m ms] eqn:E; [congruence|]. rewrite encs_cons. intros H1.
  apply app_eq_nil in H1 as [H1 _]. apply (f_equal List.length) in H1.
  unfold enc in H1. rewrite !length_app, !length_le in H1. simpl in H1. lia.
Qed.

Lemma members_bound o :
  wfObject o -> (List.length (mList o) <= List.length (encs (tSize o) (lSize o) (mList o)))%nat.
Proof.
  intros Ho. pose proof (okWidth_range _ (wf_t _ Ho)).
  induction (mList o) as [|m ms IH]; [simpl; lia|]. rewrite encs_cons, length_app.
  unfold enc. rewrite !length_app, !length_le. simpl. lia.
Qed.

(** C34: Packing a well-formed, non-empty object of less than 4096 encoded bytes
    succeeds, the reported size is the number of bytes, and parsing the result
    into a fresh object of the same widths rebuilds exactly the object. *)
Theorem tlv_roundtrip (libc1 : Z -> bool) (libc2 : nat -> Z -> bool) (o : TlvObject)
    (Hwf : wfObject o) (Hne : mList o <> [])
    (Hsize : total (tSize o) (lSize o) (mList o) < MAX_TLV_BINARY_LENGTH)
    (Halloc1 : forall n, libc1 n = true) (Halloc2 : forall k n, libc2 k n = true) :
  exists bin,
    GetTlvBinary libc1 (Some o) true true = (SOFTBUS_OK, Some (bin, Z.of_nat (List.length bin))) /\
    SetTlvBinary libc2 (Some (mkObject (tSize o) (lSize o) [] 0)) (Some bin)
      (Z.of_nat (List.length bin)) = Some (SOFTBUS_OK, Some o).
Proof.
  pose proof (encs_nonempty o Hwf Hne) as Henc. pose proof (members_bound o Hwf) as Hmb.
  unfold total, MAX_TLV_BINARY_LENGTH in Hsize.
  set (bin := encs (tSize o) (lSize o) (mList o)) in *.
  assert (Hlen : 0 < Z.of_nat (List.length bin)) by (destruct bin; simpl; [congruence|lia]).
  assert (Hs : size o = Z.of_nat (List.length bin))
    by (rewrite (wf_size _ Hwf); unfold total; fold bin; apply u32_small; unfold in_u32; lia).
  exists bin. split.
  - unfold GetTlvBinary. cbn [negb].
    destruct (Z.ltb_spec 0 (size o)); [|lia]. cbn [negb].
    rewrite SoftBusCalloc_true by (auto || unfold MAX_MALLOC_SIZE; lia). cbn [negb].
    pose proof (GetTlvBinaryLoop_ok o Hwf (mList o) [] (wf_members _ Hwf) Hs
                  ltac:(unfold in_u32; lia)) as HL. simpl app in HL. fold bin in HL.
    change (Z.of_nat (List.length (@nil byte))) with 0 in HL. rewrite HL. cbn -[replicate].
    replace (Z.to_nat (size o) - List.length bin)%nat with 0%nat by lia.
    simpl. now rewrite app_nil_r, Hs.
  - unfold SetTlvBinary, MAX_TLV_BINARY_LENGTH.
    destruct (Z.ltb_spec 0 (Z.of_nat (List.length bin))); [|lia].
    destruct (Z.ltb_spec (Z.of_nat (List.length bin)) 4096); [|lia]. cbn [andb negb].
    pose proof (wf_empty _ _ (wf_t _ Hwf) (wf_l _ Hwf)) as Hw0.
    destruct (SetTlvBinaryLoop_accept libc2 (mList o)
      (S (Z.to_nat (Z.of_nat (List.length bin)))) _ [] Hw0) as (o' & Hl & Ho').
    + exact (wf_members _ Hwf).
    + intros n. eapply Forall_impl;
        [|exact (wf_members _ Hwf)]. intros m Hm.
      pose proof (ok_length _ _ _ Hm). pose proof (ok_length_max _ _ _ Hm).
      unfold room, SoftBusMalloc, MAX_MALLOC_SIZE, MAX_VALUE_LENGTH, sizeof_TlvMember in *.
      rewrite u32_small by (unfold in_u32; lia).
      destruct (Z.ltb_spec 536870912 (24 + length m)); [lia|apply Halloc2].
    + simpl. fold bin. unfold MAX_TLV_BINARY_LENGTH. lia.
    + exact Henc.
    + lia.
    + cbn [app tSize lSize List.length] in Hl. fold bin in Hl. change (Z.of_nat 0) with 0 in Hl.
      rewrite Hl.
      destruct (foldl_addMember (mkObject (tSize o) (lSize o) [] 0) (mList o)) as (Em & Et & El).
      rewrite <- Ho' in Em, Et, El. do 3 f_equal.
      apply wf_determined; auto. rewrite Ho'. apply wf_foldl; [exact Hw0|apply Hwf].
Qed.

Definition sampleObject : TlvObject :=
  foldl addMember (mkObject 1 2 [] 0)
    [mkMember 7 2 [Byte.x01; Byte.x02]; mkMember 9 0 []].

Lemma sampleObject_wf : wfObject sampleObject.
Proof.
  unfold sampleObject. apply wf_foldl.
  - apply wf_empty; unfold okWidth; auto.
  - repeat constructor; simpl; lia || discriminate.
Qed.

Lemma tlv_roundtrip_witness : exists bin,
  GetTlvBinary (fun _ => true) (Some sampleObject) true true
    = (SOFTBUS_OK, Some (bin, Z.of_nat (List.length bin))) /\
  SetTlvBinary (fun _ _ => true) (Some (mkObject 1 2 [] 0)) (Some bin)
    (Z.of_nat (List.length bin)) = Some (SOFTBUS_OK, Some sampleObject).
Proof.
  apply (tlv_roundtrip (fun _ => true) (fun _ _ => true) sampleObject sampleObject_wf).
  - discriminate.
  - reflexivity.
  - reflexivity.
  - reflexivity.
Defined.

(** The parser returns on every input: the loop of [SetTlvBinary] consumes
    at least the two header fields per round, so the [inputSize + 1] rounds of
    fuel are never exhausted, whatever the object's widths. *)
Theorem SetTlvBinary_total (libc : nat -> Z -> bool) (obj : TlvObject) (input : option (list byte))
    (inputSize : Z) (Ht : 1 <= tSize obj <= 4) (Hl : 1 <= lSize obj <= 4) :
  is_Some (SetTlvBinary libc (Some obj) input inputSize).
Proof.
  unfold SetTlvBinary. destruct input as [inp|]; [|eauto].
  destruct (Z.ltb_spec 0 inputSize); [|simpl; eauto].
  destruct (Z.ltb_spec inputSize MAX_TLV_BINARY_LENGTH); [|simpl; eauto]. cbn [andb negb].
  destruct (SetTlvBinaryLoop_total libc inp inputSize (S (Z.to_nat inputSize)) obj 0) as [[r o'] E];
    try assumption; try lia.
  rewrite E. eauto.
Qed.

Lemma SetTlvBinary_total_witness :
  is_Some (SetTlvBinary (fun _ _ => true) (Some (mkObject 3 1 [] 0))
    (Some [Byte.x01; Byte.x00; Byte.x00; Byte.x00]) 4).
Proof. apply SetTlvBinary_total; simpl; lia. Defined.

(** When the parser answers [SOFTBUS_OK], the object stays well-formed, its
    new members are exactly the records of the input in order (their encodings
    concatenated are the input), and what is left over is shorter than a record
    header. *)
Theorem SetTlvBinary_sound (libc : nat -> Z -> bool) (obj obj' : TlvObject) (input : list byte)
    (Hwf : wfObject obj)
    (Hok : SetTlvBinary libc (Some obj) (Some input) (Z.of_nat (List.length input))
           = Some (SOFTBUS_OK, Some obj')) :
  exists ms rest,
    mList obj' = mList obj ++ ms /\ wfObject obj' /\
    input = encs (tSize obj) (lSize obj) ms ++ rest /\
    Z.of_nat (List.length rest) < tSize obj + lSize obj.
Proof.
  revert Hok. unfold SetTlvBinary.
  destruct (Z.ltb_spec 0 (Z.of_nat (List.length input))); [|intros [=]].
  destruct (Z.ltb_spec (Z.of_nat (List.length input)) MAX_TLV_BINARY_LENGTH); [|intros [=]].
  cbn [andb negb].
  destruct (SetTlvBinaryLoop _ _ _ _ _ _) as [[r o1]|] eqn:E; [|discriminate].
  intros [= -> ->].
  apply SetTlvBinaryLoop_sound in E as (ms & rest & -> & Hms & Hd & Hr); try assumption; [|lia].
  exists ms, rest. split; [apply foldl_addMember|]. split; [now apply wf_foldl|]. now split.
Qed.

Lemma SetTlvBinary_sound_witness : exists ms rest,
  [mkMember 5 1 [Byte.x2a]] = [] ++ ms /\ wfObject (mkObject 1 1 [mkMember 5 1 [Byte.x2a]] 3) /\
  [Byte.x05; Byte.x01; Byte.x2a; Byte.x06] = encs 1 1 ms ++ rest /\
  Z.of_nat (List.length rest) < 1 + 1.
Proof.
  apply (SetTlvBinary_sound (fun _ _ => true) (mkObject 1 1 [] 0)
           (mkObject 1 1 [mkMember 5 1 [Byte.x2a]] 3)).
  - apply wf_empty; unfold okWidth; auto.
  - vm_compute. reflexivity.
Defined.

(** An integer member added under a type the object does not have yet is
    found by the getter of its width. *)
Lemma get_int_after_add n libc o ty v old :
  (0 < n < 512)%nat -> (forall k, libc k = true) -> Forall (fun m => type m <> ty) (mList o) ->
  exists o', AddTlvMember libc (Some o) ty (Z.of_nat n) (Some (le n v)) = (SOFTBUS_OK, Some o') /\
    getMemberInt n (Some o') ty (Some old) = (SOFTBUS_OK, Some (v mod 256 ^ Z.of_nat n)).
Proof.
  intros Hn Hl Hf. unfold AddTlvMember, NewTlvMember, MAX_VALUE_LENGTH.
  rewrite bool_decide_eq_true_2 by discriminate.
  destruct (Z.ltb_spec 0 (Z.of_nat n)); [|lia].
  destruct (Z.ltb_spec (Z.of_nat n) 512); [|lia]. cbn [andb orb negb].
  unfold SoftBusMalloc, MAX_MALLOC_SIZE, sizeof_TlvMember.
  rewrite u32_small by (unfold in_u32; lia).
  destruct (Z.ltb_spec 536870912 (24 + Z.of_nat n)); [lia|]. rewrite Hl. cbn [negb].
  eexists. split; [reflexivity|].
  unfold getMemberInt, GetTlvMemberWithSpecifiedBuffer, GetTlvMember, addMember.
  cbn [mList negb option_fmap option_map fmap].
  rewrite list_find_app_r by (apply list_find_None; exact Hf).
  cbn [list_find]. rewrite decide_True by reflexivity. cbn -[le memcpy_s SOFTBUS_OK].
  rewrite Z.eqb_refl. cbn [negb Z.eqb SOFTBUS_OK].
  destruct (Z.ltb_spec 0 (Z.of_nat n)); [|lia]. cbn [negb].
  assert (Hc : memcpy_s (Z.of_nat n) (Z.of_nat n) = true) by (apply memcpy_s_spec; lia).
  rewrite Hc. unfold bytesAt.
  rewrite Nat2Z.id, !take_ge, drop_ge, app_nil_r by (rewrite ?length_take, ?length_le; lia).
  rewrite Z.eqb_refl. cbn [negb Z.eqb SOFTBUS_OK]. now rewrite unle_le.
Qed.

(** The typed accessors agree with the typed adders: a value of any of the
    four widths that is added under a fresh type is read back unchanged. *)
Theorem tlv_int_get_after_add (libc : Z -> bool) (o : TlvObject) (ty v old : Z)
    (Hl : forall k, libc k = true) (Hfresh : Forall (fun m => type m <> ty) (mList o)) :
  (exists o', AddTlvMemberU8 libc (Some o) ty v = (SOFTBUS_OK, Some o') /\
     GetTlvMemberU8 (Some o') ty (Some old) = (SOFTBUS_OK, Some (u8 v))) /\
  (exists o', AddTlvMemberU16 libc (Some o) ty v = (SOFTBUS_OK, Some o') /\
     GetTlvMemberU16 (Some o') ty (Some old) = (SOFTBUS_OK, Some (u16 v))) /\
  (exists o', AddTlvMemberU32 libc (Some o) ty v = (SOFTBUS_OK, Some o') /\
     GetTlvMemberU32 (Some o') ty (Some old) = (SOFTBUS_OK, Some (u32 v))) /\
  (exists o', AddTlvMemberU64 libc (Some o) ty v = (SOFTBUS_OK, Some o') /\
     GetTlvMemberU64 (Some o') ty (Some old) = (SOFTBUS_OK, Some (u64 v))).
Proof.
  split; [|split; [|split]].
  - exact (get_int_after_add 1 libc o ty v old ltac:(lia) Hl Hfresh).
  - exact (get_int_after_add 2 libc o ty v old ltac:(lia) Hl Hfresh).
  - exact (get_int_after_add 4 libc o ty v old ltac:(lia) Hl Hfresh).
  - exact (get_int_after_add 8 libc o ty v old ltac:(lia) Hl Hfresh).
Qed.

Lemma tlv_int_get_after_add_witness : exists o',
  AddTlvMemberU16 (fun _ => true) (Some sampleObject) 3 1000 = (SOFTBUS_OK, Some o') /\
  GetTlvMemberU16 (Some o') 3 (Some 0) = (SOFTBUS_OK, Some (u16 1000)).
Proof.
  apply (tlv_int_get_after_add (fun _ => true) sampleObject 3 1000 0).
  - reflexivity.
  - repeat constructor; discriminate.
Defined.

End Tlv.
