(* ===== verification/FlowControl.v ===== *)
(** * Sliding-window flow control

    Model of core/connection/manager/softbus_conn_flow_control.c, the
    controller that BLE and BR senders ask before every write.  [Apply] sleeps
    with the lock released and calls itself again, so one call is a list of
    attempts; each attempt runs under the lock and is atomic. *)

From S2P Require Import Prelude ErrorCode Bytes.

Module FlowControl.

Definition MIN_WINDOW_IN_MILLIS : Z := 100.
Definition MAX_WINDOW_IN_MILLIS : Z := 2000.
Definition MIN_QUOTA_IN_BYTES : Z := 10 * 1024.
Definition MAX_QUOTA_IN_BYTES : Z := 2 * 1024 * 1024.
Definition sizeof_HistoryNode : Z := 32.

Record HistoryNode := mkHistory {
  timestamp : Z;
  amount : Z
}.

(** [histories] is in list order: [ListAdd] puts the newest first. *)
Record ConnSlideWindowController := mkController {
  active : bool;
  windowInMillis : Z;
  quotaInBytes : Z;
  histories : list HistoryNode
}.

(** What the world answers during one attempt: the mutex, the clock and the
    allocator, and what other threads do to the controller while the caller
    sleeps. *)
Record Attempt := mkAttempt {
  lockRet : Z;
  nowMs : Z;
  libc : Z -> bool;
  others : ConnSlideWindowController -> ConnSlideWindowController
}.

(** The scan of the histories: total and start of the current window, and the
    nodes that are kept. *)
Fixpoint scanHistories (expired : Z) (l : list HistoryNode) (total start : Z)
  : Z * Z * list HistoryNode :=
  match l with
  | [] => (total, start, [])
  | it :: l' =>
    if expired <? timestamp it then
      let '(total', start', kept) :=
        scanHistories expired l' (s32 (total + amount it)) (timestamp it) in
      (total', start', it :: kept)
    else scanHistories expired l' total start
  end.

Inductive outcome :=
| Return (ret : Z) (c : ConnSlideWindowController)
| Sleep (ms : Z) (c : ConnSlideWindowController).

(** The body of [Apply] up to its tail call. *)
Definition applyOnce (self : ConnSlideWindowController) (expect : Z) (a : Attempt) : outcome :=
  if negb (lockRet a =? SOFTBUS_OK) then Return SOFTBUS_LOCK_ERR self
  else if negb (active self) then Return expect self
  else
    let now := nowMs a in
    let expiredTimestamp := u64 (now - u64 (windowInMillis self)) in
    let '(appliedTotal, start, kept) := scanHistories expiredTimestamp (histories self) 0 0 in
    let self' := mkController (active self) (windowInMillis self) (quotaInBytes self) kept in
    if quotaInBytes self <=? appliedTotal then
      Sleep (u32 (u64 (u64 (windowInMillis self) - u64 (now - start)))) self'
    else
      let remain := s32 (quotaInBytes self - appliedTotal) in
      let amt := if expect <? remain then expect else remain in
      if negb (SoftBusCalloc (libc a) sizeof_HistoryNode) then Return expect self'
      else Return amt (mkController (active self) (windowInMillis self) (quotaInBytes self)
                         (mkHistory now amt :: kept)).

(** One call; [None] when the attempts run out while it is still asleep. *)
Fixpoint ApplyLoop (self : ConnSlideWindowController) (expect : Z) (l : list Attempt)
  : option (Z * ConnSlideWindowController) :=
  match l with
  | [] => None
  | a :: l' =>
    match applyOnce self expect a with
    | Return ret c => Some (ret, c)
    | Sleep _ c => ApplyLoop (others a c) expect l'
    end
  end.

Definition Apply (self : option ConnSlideWindowController) (expect : Z) (l : list Attempt)
  : option (Z * option ConnSlideWindowController) :=
  match self with
  | None => Some (SOFTBUS_INVALID_PARAM, None)
  | Some c =>
    match ApplyLoop c expect l with
    | Some (ret, c') => Some (ret, Some c')
    | None => None
    end
  end.

Definition CleanupHistoriesUnsafe (self : ConnSlideWindowController) : ConnSlideWindowController :=
  mkController (active self) (windowInMillis self) (quotaInBytes self) [].

Definition ChangeConfiguration (lock : Z) (self : option ConnSlideWindowController)
    (act : bool) (window quota : Z) : Z * option ConnSlideWindowController :=
  match self with
  | None => (SOFTBUS_INVALID_PARAM, None)
  | Some c =>
    if act && negb ((MIN_WINDOW_IN_MILLIS <=? window) && (window <=? MAX_WINDOW_IN_MILLIS))
    then (SOFTBUS_INVALID_PARAM, self)
    else if act && negb ((MIN_QUOTA_IN_BYTES <=? quota) && (quota <=? MAX_QUOTA_IN_BYTES))
    then (SOFTBUS_INVALID_PARAM, self)
    else if negb (lock =? SOFTBUS_OK) then (SOFTBUS_LOCK_ERR, self)
    else (SOFTBUS_OK, Some (CleanupHistoriesUnsafe (mkController act window quota (histories c))))
  end.

Definition Enable (lock : Z) self (window quota : Z) :=
  ChangeConfiguration lock self true window quota.
Definition Disable (lock : Z) self := ChangeConfiguration lock self false (-1) (-1).

(** The fields a successful construction sets. *)
Definition ConnSlideWindowControllerConstructor (mutexInit : Z)
    (self : option ConnSlideWindowController) : Z * option ConnSlideWindowController :=
  match self with
  | None => (SOFTBUS_INVALID_PARAM, None)
  | Some _ =>
    if negb (mutexInit =? SOFTBUS_OK) then (SOFTBUS_LOCK_ERR, self)
    else (SOFTBUS_OK, Some (mkController false (-1) (-1) []))
  end.

Definition zeroController := mkController false 0 0 [].
Definition sizeof_Controller : Z := 96.

Definition ConnSlideWindowControllerNew (libc : Z -> bool) (mutexInit : Z)
  : option ConnSlideWindowController :=
  if negb (SoftBusCalloc libc sizeof_Controller) then None
  else
    let '(ret, c) := ConnSlideWindowControllerConstructor mutexInit (Some zeroController) in
    if negb (ret =? SOFTBUS_OK) then None else c.

Definition ConnSlideWindowControllerDestructor (lock : Z)
    (self : option ConnSlideWindowController) : option ConnSlideWindowController :=
  match self with
  | None => None
  | Some c => if negb (lock =? SOFTBUS_OK) then self else Some (CleanupHistoriesUnsafe c)
  end.

(** ** Reachable states

    The grants since the last change of configuration, newest first, are two
    ghosts of the run: [g] those the controller recorded in a history node, [u]
    those it did not record, because it was inactive or because the node could
    not be allocated, where [Apply] grants the whole request. *)

Definition sum (l : list HistoryNode) : Z := foldr (fun h s => amount h + s) 0 l.

Definition between (lo hi : Z) (l : list HistoryNode) : list HistoryNode :=
  filter (fun h => lo < timestamp h <= hi) l.

(** The clock is past the largest window and below 2^63. *)
Definition clockOK (t : Z) : Prop := MAX_WINDOW_IN_MILLIS <= t < 9223372036854775808.

(** Is the grant of an attempt that got the lock recorded? *)
Definition recorded (c : ConnSlideWindowController) (a : Attempt) : bool :=
  active c && SoftBusCalloc (libc a) sizeof_HistoryNode.

(** A request is positive, the clock does not run backwards and is past the
    largest window; the answers of lock and allocator are arbitrary. *)
Inductive reach : list HistoryNode -> list HistoryNode -> Z -> ConnSlideWindowController -> Prop :=
| reach_new libc t c :
    ConnSlideWindowControllerNew libc SOFTBUS_OK = Some c -> clockOK t -> reach [] [] t c
| reach_config g u t c lock act w q ret c' :
    reach g u t c ->
    ChangeConfiguration lock (Some c) act w q = (ret, Some c') ->
    reach (if ret =? SOFTBUS_OK then [] else g) (if ret =? SOFTBUS_OK then [] else u) t c'
| reach_sleep g u t c expect a ms c' :
    reach g u t c -> 0 < expect -> in_s32 expect -> t <= nowMs a -> clockOK (nowMs a) ->
    applyOnce c expect a = Sleep ms c' -> reach g u (nowMs a) c'
| reach_unlocked g u t c expect a ret c' :
    reach g u t c -> lockRet a <> SOFTBUS_OK ->
    applyOnce c expect a = Return ret c' -> reach g u t c'
| reach_grant g u t c expect a ret c' :
    reach g u t c -> 0 < expect -> in_s32 expect -> t <= nowMs a -> clockOK (nowMs a) ->
    lockRet a = SOFTBUS_OK ->
    applyOnce c expect a = Return ret c' ->
    reach (if recorded c a then mkHistory (nowMs a) ret :: g else g)
          (if recorded c a then u else mkHistory (nowMs a) ret :: u) (nowMs a) c'.

(** The invariant: an active controller has a valid configuration, its
    histories are the grants that may still count, and every window of the
    grants respects the quota. *)
Record inv (g : list HistoryNode) (t : Z) (c : ConnSlideWindowController) : Prop := {
  inv_clock : clockOK t;
  inv_window : active c = true -> MIN_WINDOW_IN_MILLIS <= windowInMillis c <= MAX_WINDOW_IN_MILLIS;
  inv_quota : active c = true -> MIN_QUOTA_IN_BYTES <= quotaInBytes c <= MAX_QUOTA_IN_BYTES;
  inv_positive : Forall (fun h => 0 < amount h) g;
  inv_past : Forall (fun h => 0 <= timestamp h <= t) g;
  inv_kept : active c = true ->
    filter (fun h => t - windowInMillis c < timestamp h) g =
    filter (fun h => t - windowInMillis c < timestamp h) (histories c);
  inv_sub : histories c ⊆ g;
  inv_bound : active c = true -> forall s, sum (between (s - windowInMillis c) s g) <= quotaInBytes c
}.

(** ** The scan *)

Lemma sum_app a b : sum (a ++ b) = sum a + sum b.
Proof. induction a; simpl; lia. Qed.

Lemma sum_nonneg l : Forall (fun h => 0 < amount h) l -> 0 <= sum l.
Proof. induction 1; simpl; lia. Qed.

Lemma sum_filter_le (P Q : HistoryNode -> Prop) `{!forall h, Decision (P h), !forall h, Decision (Q h)}
    (l : list HistoryNode) :
  Forall (fun h => 0 < amount h) l -> (forall h, h ∈ l -> P h -> Q h) ->
  sum (filter P l) <= sum (filter Q l).
Proof.
  induction 1 as [|h l Hh Hl IH]; intros HPQ; [simpl; lia|].
  assert (sum (filter P l) <= sum (filter Q l))
    by (apply IH; intros; apply HPQ; [now right|assumption]).
  rewrite !filter_cons. destruct (decide (P h)) as [Hp|].
  - rewrite decide_True by (apply HPQ; [left|exact Hp]). simpl. lia.
  - destruct (decide (Q h)); simpl; lia.
Qed.

(** The start of the window after the scan: the last kept timestamp. *)
Definition lastStart (start : Z) (l : list HistoryNode) : Z :=
  foldl (fun _ h => timestamp h) start l.

Lemma lastStart_elem start l : l <> [] -> exists h, h ∈ l /\ lastStart start l = timestamp h.
Proof.
  revert start. induction l as [|h l IH]; intros start Hne; [congruence|].
  destruct l as [|h' l]; [exists h; split; [left|reflexivity]|].
  destruct (IH (timestamp h)) as (x & Hx & E); [discriminate|].
  exists x. split; [now right|exact E].
Qed.

Lemma Forall_filter_keep {A} (P Q : A -> Prop) `{!forall h, Decision (P h)} l :
  Forall Q l -> Forall Q (filter P l).
Proof.
  rewrite !list.Forall_forall. intros HQ x Hx. apply HQ.
  now apply list_elem_of_filter in Hx as [_ ?].
Qed.

Lemma scanHistories_spec expired l : forall total start,
  let kept := filter (fun h => expired < timestamp h) l in
  Forall (fun h => 0 < amount h) kept -> 0 <= total -> total + sum kept <= INT32_MAX ->
  scanHistories expired l total start = (total + sum kept, lastStart start kept, kept).
Proof.
  induction l as [|h l IH]; intros total start kept Hp H0 Hb; subst kept.
  { simpl. now rewrite Z.add_0_r. }
  rewrite filter_cons in *. cbn [scanHistories].
  destruct (Z.ltb_spec expired (timestamp h)); [rewrite decide_True in * by lia
    |rewrite decide_False in * by lia; now apply IH].
  apply Forall_cons_1 in Hp as [Hh Hp]. simpl sum in *.
  pose proof (sum_nonneg _ Hp).
  rewrite s32_small by (unfold in_s32; lia).
  rewrite IH by (assumption || lia). now rewrite Z.add_assoc.
Qed.

Lemma filter_trans (P Q : HistoryNode -> Prop) `{!forall h, Decision (P h), !forall h, Decision (Q h)}
    (l : list HistoryNode) :
  (forall h, P h -> Q h) -> filter P (filter Q l) = filter P l.
Proof.
  intros Himp. induction l as [|h l IH]; [reflexivity|].
  rewrite (filter_cons Q), (filter_cons P). destruct (decide (Q h)) as [Hq|Hq].
  - rewrite filter_cons. now rewrite IH.
  - rewrite decide_False by auto. exact IH.
Qed.

Section Step.
Context (g : list HistoryNode) (t : Z) (c : ConnSlideWindowController).
Context (Hinv : inv g t c) (Hact : active c = true).
Context (now : Z) (Hnow : t <= now) (Hclock : clockOK now).

Abbreviation W := (windowInMillis c).
Abbreviation kept := (filter (fun h => now - W < timestamp h) (histories c)).

Lemma expired_value : u64 (now - u64 W) = now - W.
Proof.
  pose proof (inv_window _ _ _ Hinv Hact).
  unfold clockOK, MIN_WINDOW_IN_MILLIS, MAX_WINDOW_IN_MILLIS in *.
  rewrite (u64_small W), u64_small; unfold in_u64; lia.
Qed.

Lemma kept_grants : kept = filter (fun h => now - W < timestamp h) g.
Proof.
  rewrite <- (filter_trans (fun h => now - W < timestamp h) (fun h => t - W < timestamp h) (histories c))
    by (intros; lia).
  rewrite <- (inv_kept _ _ _ Hinv Hact). apply filter_trans. intros; lia.
Qed.

Lemma kept_positive : Forall (fun h => 0 < amount h) kept.
Proof. rewrite kept_grants. apply Forall_filter_keep, Hinv. Qed.

Lemma kept_bound : sum kept <= quotaInBytes c.
Proof.
  rewrite kept_grants. etrans; [|exact (inv_bound _ _ _ Hinv Hact now)].
  apply sum_filter_le; [apply Hinv|]. intros h Hh ?.
  pose proof (inv_past _ _ _ Hinv) as Hp. rewrite list.Forall_forall in Hp.
  specialize (Hp h Hh). simpl in Hp. lia.
Qed.

Lemma scan_now :
  scanHistories (u64 (now - u64 W)) (histories c) 0 0 = (sum kept, lastStart 0 kept, kept).
Proof.
  rewrite expired_value. apply scanHistories_spec; [apply kept_positive|lia|].
  pose proof kept_bound. pose proof (inv_quota _ _ _ Hinv Hact).
  unfold MAX_QUOTA_IN_BYTES in *. lia.
Qed.

Definition trim : ConnSlideWindowController := mkController (active c) W (quotaInBytes c) kept.

(** What one attempt does on an active controller. *)
Lemma applyOnce_spec expect a :
  lockRet a = SOFTBUS_OK -> nowMs a = now ->
  applyOnce c expect a =
  if quotaInBytes c <=? sum kept
  then Sleep (u32 (u64 (u64 W - u64 (now - lastStart 0 kept)))) trim
  else
    let amt := Z.min expect (quotaInBytes c - sum kept) in
    if SoftBusCalloc (libc a) sizeof_HistoryNode
    then Return amt (mkController (active c) W (quotaInBytes c) (mkHistory now amt :: kept))
    else Return expect trim.
Proof.
  intros Hl Hn. unfold applyOnce. rewrite Hl, Hact, Hn, scan_now. cbn [Z.eqb SOFTBUS_OK negb].
  destruct (Z.leb_spec (quotaInBytes c) (sum kept)); [now unfold trim; rewrite Hact|].
  pose proof (inv_quota _ _ _ Hinv Hact). pose proof (sum_nonneg _ kept_positive).
  unfold MAX_QUOTA_IN_BYTES in *. rewrite s32_small by (unfold in_s32; lia).
  replace (if expect <? quotaInBytes c - sum kept then expect else quotaInBytes c - sum kept)
    with (Z.min expect (quotaInBytes c - sum kept)) by (zcase; lia).
  unfold trim. rewrite Hact. now destruct (SoftBusCalloc _ _).
Qed.

Lemma kept_sub : kept ⊆ g.
Proof.
  intros h Hh. apply list_elem_of_filter in Hh as [_ Hh]. now apply (inv_sub _ _ _ Hinv).
Qed.

Lemma inv_trim : inv g now trim.
Proof.
  split; simpl; try apply Hinv; auto.
  - eapply Forall_impl; [|apply (inv_past _ _ _ Hinv)]. simpl. intros; lia.
  - intros _. rewrite <- kept_grants. symmetry. apply filter_trans. auto.
  - apply kept_sub.
Qed.

Lemma inv_grant amt :
  0 < amt -> sum kept + amt <= quotaInBytes c ->
  inv (mkHistory now amt :: g) now
      (mkController (active c) W (quotaInBytes c) (mkHistory now amt :: kept)).
Proof.
  intros Hpos Hle. pose proof (inv_window _ _ _ Hinv Hact). unfold MIN_WINDOW_IN_MILLIS in *.
  pose proof inv_trim as Ht. unfold clockOK, MAX_WINDOW_IN_MILLIS in *.
  split; simpl; try apply Hinv; auto.
  - constructor; [exact Hpos|apply Hinv].
  - constructor; [simpl; lia|apply Ht].
  - intros _. rewrite !filter_cons, !decide_True by (simpl; lia). f_equal.
    apply (inv_kept _ _ _ Ht Hact).
  - intros x Hx. apply elem_of_cons in Hx as [->|Hx]; [left|right; now apply kept_sub].
  - intros _ s. unfold between. rewrite filter_cons.
    destruct (decide (s - W < timestamp (mkHistory now amt) <= s)) as [Hin|Hout]; simpl in *.
    + assert (sum (filter (fun h => s - W < timestamp h <= s) g) <= sum kept); [|simpl; lia].
      rewrite kept_grants. apply sum_filter_le; [apply Hinv|]. intros; lia.
    + apply (inv_bound _ _ _ Hinv Hact).
Qed.

End Step.

Lemma inv_new libc t c :
  ConnSlideWindowControllerNew libc SOFTBUS_OK = Some c -> clockOK t -> inv [] t c.
Proof.
  unfold ConnSlideWindowControllerNew. destruct (SoftBusCalloc _ _); [|discriminate].
  intros [= <-] Ht. split; simpl; try discriminate; [exact Ht|constructor|constructor|reflexivity].
Qed.

Lemma ChangeConfiguration_spec lock c act w q ret c' :
  ChangeConfiguration lock (Some c) act w q = (ret, Some c') ->
  (ret = SOFTBUS_OK /\ c' = mkController act w q [] /\
   (act = true -> MIN_WINDOW_IN_MILLIS <= w <= MAX_WINDOW_IN_MILLIS /\
                  MIN_QUOTA_IN_BYTES <= q <= MAX_QUOTA_IN_BYTES)) \/
  (ret <> SOFTBUS_OK /\ c' = c).
Proof.
  unfold ChangeConfiguration.
  destruct (act && negb _) eqn:E1; [intros [= <- <-]; right; split; [discriminate|reflexivity]|].
  destruct (act && negb (_ && (q <=? _))) eqn:E2;
    [intros [= <- <-]; right; split; [discriminate|reflexivity]|].
  destruct (Z.eqb_spec lock SOFTBUS_OK); cbn [negb]; intros [= <- <-];
    [left|right; split; [discriminate|reflexivity]].
  split; [reflexivity|]. split; [reflexivity|]. intros ->.
  cbn [andb] in *. zbool. lia.
Qed.

Lemma inv_config g t c lock act w q ret c' :
  inv g t c -> ChangeConfiguration lock (Some c) act w q = (ret, Some c') ->
  inv (if ret =? SOFTBUS_OK then [] else g) t c'.
Proof.
  intros Hi Hc. apply ChangeConfiguration_spec in Hc as [(-> & -> & Hr)|[Hne ->]].
  - cbn. split; simpl; try constructor; try apply Hi; try (intros; apply Hr; assumption).
    + intros x Hx. inversion Hx.
    + intros Ha s. destruct (Hr Ha). unfold MIN_QUOTA_IN_BYTES in *. lia.
  - apply Z.eqb_neq in Hne. now rewrite Hne.
Qed.

Lemma applyOnce_active c expect a ms c' : applyOnce c expect a = Sleep ms c' ->
  active c = true /\ lockRet a = SOFTBUS_OK.
Proof.
  unfold applyOnce. destruct (Z.eqb_spec (lockRet a) SOFTBUS_OK); [|discriminate].
  destruct (active c); [auto|discriminate].
Qed.

(** A controller that is not active: time passes. *)
Lemma inv_inactive g t t' c : inv g t c -> active c = false -> t <= t' -> clockOK t' -> inv g t' c.
Proof.
  intros Hi Ha Ht Hclk. split; try (intros; congruence); try apply Hi; try exact Hclk.
  eapply Forall_impl; [|apply (inv_past _ _ _ Hi)]. simpl. intros; lia.
Qed.

(** An attempt that got the lock and returns. *)
Lemma inv_return g t c expect a ret c' :
  inv g t c -> 0 < expect -> t <= nowMs a -> clockOK (nowMs a) -> lockRet a = SOFTBUS_OK ->
  applyOnce c expect a = Return ret c' ->
  inv (if recorded c a then mkHistory (nowMs a) ret :: g else g) (nowMs a) c'.
Proof.
  intros IH He Ht Hclk Hl Ho. unfold recorded. destruct (active c) eqn:Hact; cbn [andb].
  2: { unfold applyOnce in Ho. rewrite Hl, Hact in Ho. injection Ho as <- <-. now apply (inv_inactive g t). }
  rewrite (applyOnce_spec g t c IH Hact (nowMs a)) in Ho by auto.
  destruct (Z.leb_spec (quotaInBytes c)
    (sum (filter (fun h => nowMs a - windowInMillis c < timestamp h) (histories c)))) as [|Hq];
    [discriminate|].
  cbv zeta in Ho. destruct (SoftBusCalloc _ _); injection Ho as <- <-.
  - apply (inv_grant g t); auto; lia.
  - now apply (inv_trim g t).
Qed.

Lemma reach_inv g u t c : reach g u t c -> inv g t c.
Proof.
  induction 1 as [libc t c Hc Ht|g u t c lock act w q ret c' _ IH Hc
    |g u t c expect a ms c' _ IH He Hes Ht Hclk Ho|g u t c expect a ret c' _ IH Hl Ho
    |g u t c expect a ret c' _ IH He Hes Ht Hclk Hl Ho].
  - now apply (inv_new libc).
  - now apply (inv_config _ _ _ lock act w q ret c' IH).
  - destruct (applyOnce_active _ _ _ _ _ Ho) as [Hact Hl].
    rewrite (applyOnce_spec g t c IH Hact (nowMs a)) in Ho by auto.
    destruct (_ <=? _) in Ho; [|destruct (SoftBusCalloc _ _) in Ho; discriminate].
    injection Ho as <- <-. now apply (inv_trim g t).
  - unfold applyOnce in Ho. apply Z.eqb_neq in Hl. rewrite Hl in Ho. now injection Ho as <- <-.
  - now apply (inv_return g t c expect a ret c').
Qed.

Lemma sum_between_app lo hi a b : sum (between lo hi (a ++ b)) = sum (between lo hi a) + sum (between lo hi b).
Proof. unfold between. now rewrite list.filter_app, sum_app. Qed.

(** C31: The quota holds in every window, up to the grants the controller could
    not record.  Whatever the interleaving of senders, sleeps and changes of
    configuration and whatever locks and allocator answer, in any interval
    (s - window, s] since the configuration was set the recorded grants add up
    to at most [quotaInBytes], and all grants to at most that plus the grants
    made while the history node could not be allocated: there [Apply] hands out
    the whole request and does not count it.  Requests are positive, the clock
    does not run backwards, and it is past the largest window (2000 ms) and below
    2^63. *)
Theorem window_quota (g u : list HistoryNode) (t : Z) (c : ConnSlideWindowController)
    (Hreach : reach g u t c) (Hact : active c = true) : forall s,
  sum (between (s - windowInMillis c) s g) <= quotaInBytes c /\
  sum (between (s - windowInMillis c) s (g ++ u))
    <= quotaInBytes c + sum (between (s - windowInMillis c) s u).
Proof.
  intros s. pose proof (inv_bound _ _ _ (reach_inv _ _ _ _ Hreach) Hact s) as Hb.
  split; [exact Hb|]. rewrite sum_between_app. now apply Z.add_le_mono_r.
Qed.

Definition attemptAt (t : Z) : Attempt := mkAttempt 0 t (fun _ => true) (fun c => c).
Definition noMemoryAt (t : Z) : Attempt := mkAttempt 0 t (fun _ => false) (fun c => c).

Lemma reach_sample :
  reach [mkHistory 5050 4240; mkHistory 5000 6000] [mkHistory 5040 9000] 5050
    (mkController true 100 10240 [mkHistory 5050 4240; mkHistory 5000 6000]).
Proof.
  assert (clockOK 5000 /\ clockOK 5040 /\ clockOK 5050) as (H1 & H2 & H3)
    by (unfold clockOK, MAX_WINDOW_IN_MILLIS; lia).
  apply (reach_grant [mkHistory 5000 6000] [mkHistory 5040 9000] 5040
           (mkController true 100 10240 [mkHistory 5000 6000]) 9000 (attemptAt 5050) 4240);
    try reflexivity; try (simpl; unfold in_s32; lia); [|exact H3].
  apply (reach_grant [mkHistory 5000 6000] [] 5000
           (mkController true 100 10240 [mkHistory 5000 6000]) 9000 (noMemoryAt 5040) 9000);
    try reflexivity; try (simpl; unfold in_s32; lia); [|exact H2].
  apply (reach_grant [] [] 5000 (mkController true 100 10240 []) 6000 (attemptAt 5000) 6000);
    try reflexivity; try (simpl; unfold in_s32; lia); [|exact H1].
  apply (reach_config [] [] 5000 (mkController false (-1) (-1) []) 0 true 100 10240 SOFTBUS_OK);
    [|reflexivity].
  now apply (reach_new (fun _ => true)).
Qed.

(** Two recorded grants fill the quota; the unrecorded one exceeds it. *)
Lemma window_quota_witness :
  let g := [mkHistory 5050 4240; mkHistory 5000 6000] in
  let u := [mkHistory 5040 9000] in
  (sum (between (5060 - 100) 5060 g) <= 10240 /\
   sum (between (5060 - 100) 5060 (g ++ u)) <= 10240 + sum (between (5060 - 100) 5060 u)) /\
  sum (between (5060 - 100) 5060 g) = 10240 /\ sum (between (5060 - 100) 5060 (g ++ u)) = 19240.
Proof.
  intros g u. split; [exact (window_quota _ _ _ _ reach_sample eq_refl 5060)|]. split; reflexivity.
Defined.

(** ** Termination of a call

    After a sleep of the computed length the oldest grant of the window has
    expired. *)

(** Every sleep of the call lasts at least as long as asked, and nobody else
    uses the controller meanwhile. *)
Fixpoint sleepsInFull (c : ConnSlideWindowController) (expect : Z) (l : list Attempt) : Prop :=
  match l with
  | [] => True
  | a :: l' =>
    lockRet a = SOFTBUS_OK /\ clockOK (nowMs a) /\
    match applyOnce c expect a with
    | Return _ _ => True
    | Sleep ms c' =>
      others a c' = c' /\ sleepsInFull c' expect l' /\
      match l' with
      | [] => True
      | a' :: _ => nowMs a + ms <= nowMs a'
      end
    end
  end.

(** The histories still alive at [now]. *)
Definition alive (c : ConnSlideWindowController) (now : Z) : list HistoryNode :=
  filter (fun h => now - windowInMillis c < timestamp h) (histories c).

Lemma filter_shrinks (P Q : HistoryNode -> Prop)
    `{!forall h, Decision (P h), !forall h, Decision (Q h)} l x :
  (forall h, P h -> Q h) -> x ∈ l -> Q x -> ~ P x ->
  (length (filter P l) < length (filter Q l))%nat.
Proof.
  intros Himp. assert (Hle : forall k, (length (filter P k) <= length (filter Q k))%nat).
  { induction k as [|h k IH]; [simpl; lia|]. rewrite !filter_cons.
    destruct (decide (P h)); [rewrite decide_True by auto; simpl; lia|].
    destruct (decide (Q h)); simpl; lia. }
  induction 1 as [x l|x y l Hx IH]; intros HQ HP; rewrite !filter_cons.
  - rewrite decide_False, decide_True by assumption. simpl. specialize (Hle l). lia.
  - specialize (IH HQ HP). destruct (decide (P y)); [rewrite decide_True by auto; simpl; lia|].
    destruct (decide (Q y)); simpl; lia.
Qed.

Lemma quota_positive g t c : inv g t c -> active c = true -> 0 < quotaInBytes c.
Proof. intros Hi Ha. pose proof (inv_quota _ _ _ Hi Ha). unfold MIN_QUOTA_IN_BYTES in *. lia. Qed.

(** The sleep ends when the oldest grant of the window expires. *)
Lemma sleep_length g t c now :
  inv g t c -> active c = true -> t <= now -> clockOK now -> alive c now <> [] ->
  exists h, h ∈ alive c now /\
    now + u32 (u64 (u64 (windowInMillis c) - u64 (now - lastStart 0 (alive c now)))) =
    timestamp h + windowInMillis c.
Proof.
  intros Hi Ha Ht Hclk Hne. destruct (lastStart_elem 0 _ Hne) as (h & Hh & E).
  exists h. split; [exact Hh|]. rewrite E.
  pose proof (inv_window _ _ _ Hi Ha). pose proof Hh as Hh'.
  apply list_elem_of_filter in Hh' as [Hgt Hin].
  pose proof (inv_past _ _ _ Hi) as Hp. rewrite list.Forall_forall in Hp.
  specialize (Hp h (inv_sub _ _ _ Hi _ Hin)). simpl in Hp.
  unfold clockOK, MIN_WINDOW_IN_MILLIS, MAX_WINDOW_IN_MILLIS in *.
  rewrite (u64_small (windowInMillis c)), (u64_small (now - _)), (u64_small (_ - _)), u32_small;
    unfold in_u64, in_u32; lia.
Qed.

Lemma ApplyLoop_terminates expect : forall l g t c,
  inv g t c -> active c = true -> 0 < expect ->
  match l with [] => True | a :: _ => t <= nowMs a end ->
  match l with [] => False | a :: _ => (length (alive c (nowMs a)) < length l)%nat end ->
  sleepsInFull c expect l ->
  exists ret c', ApplyLoop c expect l = Some (ret, c') /\ 0 < ret <= expect.
Proof.
  induction l as [|a l IH]; intros g t c Hi Ha He Ht Hlen Hs; [contradiction|].
  destruct Hs as (Hl & Hclk & Hs). cbn [ApplyLoop].
  rewrite (applyOnce_spec g t c Hi Ha (nowMs a)) in * by auto. fold (alive c (nowMs a)) in *.
  pose proof (kept_bound g t c Hi Ha (nowMs a) Ht) as Hb. fold (alive c (nowMs a)) in Hb.
  pose proof (quota_positive _ _ _ Hi Ha).
  destruct (Z.leb_spec (quotaInBytes c) (sum (alive c (nowMs a)))) as [Hfull|Hroom].
  - destruct Hs as (Hoth & Hs & Hnext). rewrite Hoth.
    assert (Hne : alive c (nowMs a) <> []) by (intros E; rewrite E in Hfull; simpl in Hfull; lia).
    destruct (sleep_length g t c (nowMs a) Hi Ha Ht Hclk Hne) as (h & Hh & E).
    destruct l as [|a' l]; [destruct (alive c (nowMs a)); [congruence|simpl in Hlen; lia]|].
    apply (IH g (nowMs a)); [now apply (inv_trim g t)|exact Ha|exact He| | |exact Hs].
    + pose proof (u32_range (u64 (u64 (windowInMillis c) -
        u64 (nowMs a - lastStart 0 (alive c (nowMs a)))))) as Hr. unfold in_u32 in Hr. lia.
    + assert (length (alive (trim c (nowMs a)) (nowMs a')) < length (alive c (nowMs a)))%nat;
        [|simpl in *; lia].
      unfold alive at 1. simpl histories. simpl windowInMillis. fold (alive c (nowMs a)).
      assert (Hsame : filter (fun h => nowMs a - windowInMillis c < timestamp h) (alive c (nowMs a))
                      = alive c (nowMs a)) by (apply filter_trans; auto).
      rewrite <- Hsame at 2.
      pose proof Hh as Hh'. apply list_elem_of_filter in Hh' as [Hgt _].
      apply filter_shrinks with (x := h); [intros; lia|exact Hh|exact Hgt|lia].
  - cbv zeta. destruct (SoftBusCalloc _ _); eexists _, _; (split; [reflexivity|lia]).
Qed.

(** C40: A call of [Apply] returns, with a grant between one byte and what was
    asked for: if every sleep lasts as long as requested and the controller is
    left alone meanwhile, one attempt more than there are recorded grants is
    enough, because each sleep outlives the oldest grant of the window. *)
Theorem Apply_terminates (g u : list HistoryNode) (t expect : Z) (c : ConnSlideWindowController)
    (l : list Attempt) (Hreach : reach g u t c) (Hact : active c = true) (Hexpect : 0 < expect)
    (Hlen : (length (histories c) < length l)%nat)
    (Hmono : match l with [] => True | a :: _ => t <= nowMs a end)
    (Hsleep : sleepsInFull c expect l) :
  exists ret c', Apply (Some c) expect l = Some (ret, Some c') /\ 0 < ret <= expect.
Proof.
  destruct (ApplyLoop_terminates expect l g t c (reach_inv _ _ _ _ Hreach)) as (ret & c' & E & Hr);
    auto.
  - destruct l as [|a l]; [simpl in Hlen; lia|]. unfold alive.
    eapply Nat.le_lt_trans; [apply length_filter|exact Hlen].
  - exists ret, c'. cbn. now rewrite E.
Qed.

Lemma Apply_terminates_witness : exists ret c',
  Apply (Some (mkController true 100 10240 [mkHistory 5050 4240; mkHistory 5000 6000])) 8000
    [attemptAt 5060; attemptAt 5100; attemptAt 5150] = Some (ret, Some c') /\ 0 < ret <= 8000.
Proof.
  apply (Apply_terminates _ _ _ _ _ _ reach_sample eq_refl).
  - lia.
  - simpl. lia.
  - simpl. lia.
  - repeat split; vm_compute; congruence.
Defined.

End FlowControl.
