(* ===== verification/FairQueue.v ===== *)
(** * Fair priority queue

    Model of core/connection/common/src/softbus_conn_fair_priority_queue.c, the
    send queue of the connection layer: one priority queue per sender id, id 0
    being the inner queue, served round-robin.  It is proved against the FIFO
    interface of [Fifo], which [LockFreeQueue] implements. *)

From S2P Require Import Prelude ErrorCode Bytes Fifo LockFreeQueue.
From stdpp Require Import list.
#[local] Open Scope Z_scope.

Module FairQueue.

Definition CONN_PRIORITY_HIGH : Z := 0.
Definition CONN_PRIORITY_MIDDLE : Z := 1.
Definition CONN_PRIORITY_LOW : Z := 2.
Definition CONN_PRIORITY_BUTT : Z := 3.
Definition FACTOR_S_MS_US : Z := 1000.
Definition sizeof_PriorityQueue : Z := 56.
Definition sizeof_ConnFairPriorityQueue : Z := 64.

(** A concrete message starts with the id and the priority. *)
Record ConnQueueItem (P : Type) := ConnQueueItemConstruct {
  id : Z;
  priority : Z;
  payload : P
}.
Arguments ConnQueueItemConstruct {P}.
Arguments id {P}.
Arguments priority {P}.
Arguments payload {P}.

Section Model.
Context {P Q : Type} `{!FifoOps Q (ConnQueueItem P)}.
Abbreviation Item := (ConnQueueItem P).

(** [queue] is the array indexed by priority; [None] is a NULL entry. *)
Record PriorityQueue := mkPQ {
  pid : Z;
  queue : list (option Q);
  psize : Z
}.

Definition CreatePriorityQueue (libc : Z -> bool) (i size : Z) : option PriorityQueue :=
  if negb (SoftBusCalloc libc sizeof_PriorityQueue) then None
  else Some (mkPQ i (replicate (Z.to_nat CONN_PRIORITY_BUTT) None) size).

(** [alloc] is the allocator's answer for the ring buffer. *)
Definition GetQueue (alloc : bool) (pq : PriorityQueue) (prio : Z) (createIfEmpty : bool)
  : option Q * PriorityQueue :=
  if negb (prio <? CONN_PRIORITY_BUTT) then (None, pq)
  else
    let lfq := mjoin (queue pq !! Z.to_nat prio) in
    if negb createIfEmpty || bool_decide (is_Some lfq) then (lfq, pq)
    else
      match fifo_create alloc (psize pq) with
      | None => (None, pq)
      | Some q => (Some q, mkPQ (pid pq) (<[Z.to_nat prio := Some q]> (queue pq)) (psize pq))
      end.

Definition setQueue (pq : PriorityQueue) (prio : Z) (q : Q) : PriorityQueue :=
  mkPQ (pid pq) (<[Z.to_nat prio := Some q]> (queue pq)) (psize pq).

(** [None] when the enqueue into the ring buffer does not return. *)
Definition Enqueue (alloc : bool) (pq : PriorityQueue) (item : Item)
  : option (Z * PriorityQueue) :=
  let prio := priority item in
  match GetQueue alloc pq prio true with
  | (None, pq') => Some (SOFTBUS_MALLOC_ERR, pq')
  | (Some lfq, pq') =>
    match fifo_enq lfq item with
    | None => None
    | Some (ret, lfq') => Some (ret, setQueue pq' prio lfq')
    end
  end.

(** [n] rounds of the loop, from [prio]. *)
Fixpoint DequeueLoop (n : nat) (prio : Z) (pq : PriorityQueue)
  : Z * option Item * PriorityQueue :=
  match n with
  | O => (QUEUE_EMPTY, None, pq)
  | S n' =>
    match GetQueue false pq prio false with
    | (None, _) => DequeueLoop n' (prio + 1) pq
    | (Some lfq, _) =>
      let '(ret, out, lfq') := fifo_deq lfq in
      let pq' := setQueue pq prio lfq' in
      if ret =? QUEUE_EMPTY then DequeueLoop n' (prio + 1) pq'
      else (ret, out, pq')
    end
  end.

Definition Dequeue (pq : PriorityQueue) (least : Z) : Z * option Item * PriorityQueue :=
  DequeueLoop (Z.to_nat (least + 1)) 0 pq.

Record ConnFairPriorityQueue := mkFPQ {
  size : Z;
  queues : list PriorityQueue;
  innerQueue : PriorityQueue
}.

(** The results of the three initialisations of the lock and the conditions,
    and the allocator's answers for the two blocks. *)
Definition ConnCreateQueue (libc1 libc2 : Z -> bool) (lockInit cond1 cond2 : Z) (sz : Z)
  : option ConnFairPriorityQueue :=
  if negb (SoftBusCalloc libc1 sizeof_ConnFairPriorityQueue) then None
  else if negb (lockInit =? SOFTBUS_OK) then None
  else if negb (cond1 =? SOFTBUS_OK) then None
  else if negb (cond2 =? SOFTBUS_OK) then None
  else
    match CreatePriorityQueue libc2 0 sz with
    | None => None
    | Some inner => Some (mkFPQ sz [] inner)
    end.

(** Which priority queue a pointer stands for. *)
Inductive pqRef := RefInner | RefOuter (n : nat).

Definition derefPq (q : ConnFairPriorityQueue) (r : pqRef) : option PriorityQueue :=
  match r with
  | RefInner => Some (innerQueue q)
  | RefOuter n => queues q !! n
  end.

Definition storePq (q : ConnFairPriorityQueue) (r : pqRef) (pq : PriorityQueue)
  : ConnFairPriorityQueue :=
  match r with
  | RefInner => mkFPQ (size q) (queues q) pq
  | RefOuter n => mkFPQ (size q) (<[n := pq]> (queues q)) (innerQueue q)
  end.

Definition GetOrCreatePriorityQueue (libc : Z -> bool) (q : ConnFairPriorityQueue) (i : Z)
  : option pqRef * ConnFairPriorityQueue :=
  if i =? 0 then (Some RefInner, q)
  else
    match list_find (fun pq => pid pq = i) (queues q) with
    | Some (n, _) => (Some (RefOuter n), q)
    | None =>
      match CreatePriorityQueue libc i (size q) with
      | None => (None, q)
      | Some pq => (Some (RefOuter (length (queues q))),
                    mkFPQ (size q) (queues q ++ [pq]) (innerQueue q))
      end
    end.

(** The deadline of a timed wait.  [timeoutMs * FACTOR_S_MS_US] is computed in
    32 bits. *)
Definition waitDeadline (timeoutMs sec usec : Z) : Z * Z :=
  let us := s64 (s32 (timeoutMs * FACTOR_S_MS_US) + usec) in
  (s64 (sec + Z.quot us (FACTOR_S_MS_US * FACTOR_S_MS_US)),
   Z.rem us (FACTOR_S_MS_US * FACTOR_S_MS_US)).

(** [condWait deadline q]: the answer of SoftBusCondWait and the queue when the
    lock is held again. *)
Definition WaitCondition (getTime : Z * (Z * Z))
    (condWait : option (Z * Z) -> ConnFairPriorityQueue -> Z * ConnFairPriorityQueue)
    (timeoutMs : Z) (q : ConnFairPriorityQueue) : Z * ConnFairPriorityQueue :=
  if timeoutMs <? 0 then condWait None q
  else
    let '(ret, (sec, usec)) := getTime in
    if negb (ret =? SOFTBUS_OK) then (ret, q)
    else condWait (Some (waitDeadline timeoutMs sec usec)) q.

(** The locked part of one round of [ConnEnqueue]: the code of [Enqueue]. *)
Definition enqueueRound (libc : Z -> bool) (alloc : bool) (q : ConnFairPriorityQueue) (item : Item)
  : option (Z * ConnFairPriorityQueue) :=
  match GetOrCreatePriorityQueue libc q (id item) with
  | (None, q') => Some (SOFTBUS_MALLOC_ERR, q')
  | (Some r, q') =>
    match derefPq q' r with
    | None => None
    | Some pq =>
      match Enqueue alloc pq item with
      | None => None
      | Some (code, pq') => Some (code, storePq q' r pq')
      end
    end
  end.

(** What the world answers during a call. *)
Record Env := mkEnv {
  lockRet : Z;
  libcE : Z -> bool;
  allocE : bool;
  getTimeE : Z * (Z * Z);
  condWaitE : option (Z * Z) -> ConnFairPriorityQueue -> Z * ConnFairPriorityQueue
}.

Definition SOFTBUS_CONN_INTERNAL_ERR : Z := SOFTBUS_CONN_ERR_BASE + 97.

(** The retry loop; a second round has [afterWait] set and never waits. *)
Fixpoint ConnEnqueueLoop (fuel : nat) (e : Env) (afterWait : bool)
    (q : ConnFairPriorityQueue) (item : Item) (timeoutMs : Z)
  : option (Z * ConnFairPriorityQueue) :=
  match fuel with
  | O => None
  | S fuel' =>
    match enqueueRound (libcE e) (allocE e) q item with
    | None => None
    | Some (code, q') =>
      if negb (code =? QUEUE_FULL) then Some (code, q')
      else if afterWait then Some (SOFTBUS_CONN_INTERNAL_ERR, q')
      else
        let '(wcode, q'') := WaitCondition (getTimeE e) (condWaitE e) timeoutMs q' in
        if negb (wcode =? SOFTBUS_OK) then Some (wcode, q'')
        else ConnEnqueueLoop fuel' e true q'' item timeoutMs
    end
  end.

Definition ConnEnqueue (e : Env) (q : option ConnFairPriorityQueue) (item : option Item)
    (timeoutMs : Z) : option (Z * option ConnFairPriorityQueue) :=
  match q, item with
  | None, _ => Some (SOFTBUS_INVALID_PARAM, q)
  | _, None => Some (SOFTBUS_INVALID_PARAM, q)
  | Some q0, Some it =>
    if negb (lockRet e =? SOFTBUS_OK) then Some (lockRet e, q)
    else
      match ConnEnqueueLoop 2 e false q0 it timeoutMs with
      | None => None
      | Some (code, q') => Some (code, Some q')
      end
  end.

Definition DequeueInner (q : ConnFairPriorityQueue) (least : Z)
  : Z * option Item * ConnFairPriorityQueue :=
  let '(ret, out, pq) := Dequeue (innerQueue q) least in
  (ret, out, mkFPQ (size q) (queues q) pq).

(** The traversal: queues found empty are removed, the first other one goes to
    the tail. *)
Fixpoint DequeueFairlyLoop (l : list PriorityQueue) : Z * option Item * list PriorityQueue :=
  match l with
  | [] => (QUEUE_EMPTY, None, [])
  | it :: l' =>
    let '(ret, out, it') := Dequeue it CONN_PRIORITY_LOW in
    if ret =? QUEUE_EMPTY then DequeueFairlyLoop l'
    else (ret, out, l' ++ [it'])
  end.

Definition DequeueFairly (q : ConnFairPriorityQueue) : Z * option Item * ConnFairPriorityQueue :=
  let '(ret, out, l) := DequeueFairlyLoop (queues q) in
  (ret, out, mkFPQ (size q) l (innerQueue q)).

(** The locked part of one round of [ConnDequeue]. *)
Definition dequeueRound (q : ConnFairPriorityQueue) : Z * option Item * ConnFairPriorityQueue :=
  let '(c1, o1, q1) := DequeueInner q CONN_PRIORITY_MIDDLE in
  if negb (c1 =? QUEUE_EMPTY) then (c1, o1, q1)
  else
    let '(c2, o2, q2) := DequeueFairly q1 in
    if negb (c2 =? QUEUE_EMPTY) then (c2, o2, q2)
    else DequeueInner q2 CONN_PRIORITY_LOW.

Fixpoint ConnDequeueLoop (fuel : nat) (e : Env) (afterWait : bool)
    (q : ConnFairPriorityQueue) (timeoutMs : Z)
  : option (Z * option Item * ConnFairPriorityQueue) :=
  match fuel with
  | O => None
  | S fuel' =>
    let '(code, out, q') := dequeueRound q in
    if negb (code =? QUEUE_EMPTY) then Some (code, out, q')
    else if afterWait then Some (SOFTBUS_CONN_INTERNAL_ERR, None, q')
    else
      let '(wcode, q'') := WaitCondition (getTimeE e) (condWaitE e) timeoutMs q' in
      if wcode =? SOFTBUS_TIMOUT then Some (wcode, None, q'')
      else if negb (wcode =? SOFTBUS_OK) then Some (wcode, None, q'')
      else ConnDequeueLoop fuel' e true q'' timeoutMs
  end.

Definition ConnDequeue (e : Env) (q : option ConnFairPriorityQueue) (outMsg : bool)
    (timeoutMs : Z) : option (Z * option Item * option ConnFairPriorityQueue) :=
  match q with
  | None => Some (SOFTBUS_INVALID_PARAM, None, None)
  | Some q0 =>
    if negb outMsg then Some (SOFTBUS_INVALID_PARAM, None, q)
    else if negb (lockRet e =? SOFTBUS_OK) then Some (lockRet e, None, q)
    else
      match ConnDequeueLoop 2 e false q0 timeoutMs with
      | None => None
      | Some (code, out, q') => Some (code, out, Some q')
      end
  end.

End Model.

Arguments PriorityQueue Q : clear implicits.
Arguments ConnFairPriorityQueue Q : clear implicits.
Arguments Env Q : clear implicits.

(** ** Abstract queue

    Per sender id three first-in first-out lists, by priority; the senders in
    the order in which they will be served. *)

Section Spec.
Context {P Q : Type} `{!FifoOps Q (ConnQueueItem P), !FifoLaws Q (ConnQueueItem P)}.
Abbreviation Item := (ConnQueueItem P).
Abbreviation levels := (list (list Item)).

Record abs := mkAbs {
  aInner : levels;
  aOuter : list (Z * levels)
}.

(** First non-empty level among [n] from level [p]. *)
Fixpoint specDeq (n p : nat) (lv : levels) : option (Item * levels) :=
  match n with
  | O => None
  | S n' =>
    match lv !! p with
    | Some (x :: xs) => Some (x, <[p := xs]> lv)
    | _ => specDeq n' (S p) lv
    end
  end.

(** Round robin: senders with nothing to send are dropped, the first other one
    is served and goes to the end. *)
Fixpoint specFair (l : list (Z * levels)) : option Item * list (Z * levels) :=
  match l with
  | [] => (None, [])
  | (i, lv) :: l' =>
    match specDeq 3 0 lv with
    | Some (x, lv') => (Some x, l' ++ [(i, lv')])
    | None => specFair l'
    end
  end.

(** Inner high and middle first, then the senders, then inner low. *)
Definition specRound (a : abs) : option Item * abs :=
  match specDeq 2 0 (aInner a) with
  | Some (x, lv) => (Some x, mkAbs lv (aOuter a))
  | None =>
    match specFair (aOuter a) with
    | (Some x, l) => (Some x, mkAbs (aInner a) l)
    | (None, l) =>
      match specDeq 3 0 (aInner a) with
      | Some (x, lv) => (Some x, mkAbs lv l)
      | None => (None, mkAbs (aInner a) l)
      end
    end
  end.

(** ** Representation *)

Definition entryR (cap : Z) (oq : option Q) (xs : list Item) : Prop :=
  match oq with
  | None => xs = []
  | Some q => fifo_repr cap q xs
  end.

Record pqR (sz : Z) (pq : PriorityQueue Q) (i : Z) (lv : levels) : Prop := {
  pq_pid : pid pq = i;
  pq_size : psize pq = sz;
  pq_len : length lv = 3%nat;
  pq_entries : Forall2 (entryR (sz - 1)) (queue pq) lv;
  pq_items : forall p xs x, lv !! p = Some xs -> x ∈ xs -> id x = i /\ priority x = Z.of_nat p
}.

Record fpqR (sz : Z) (q : ConnFairPriorityQueue Q) (a : abs) : Prop := {
  fpq_size : size q = sz;
  fpq_inner : pqR sz (innerQueue q) 0 (aInner a);
  fpq_outer : Forall2 (fun pq e => pqR sz pq e.1 e.2) (queues q) (aOuter a);
  fpq_nodup : NoDup (0 :: (aOuter a).*1)
}.

Lemma fifo_enq_cases cap q xs x : fifo_repr cap q xs ->
  (exists q', fifo_enq q x = Some (SOFTBUS_OK, q') /\ fifo_repr cap q' (xs ++ [x]) /\
     Z.of_nat (length xs) < cap) \/
  (fifo_enq q x = Some (QUEUE_FULL, q) /\ Z.of_nat (length xs) = cap).
Proof.
  intros Hr. pose proof (fifo_bounded cap q xs Hr).
  destruct (Z.eq_dec (Z.of_nat (length xs)) cap) as [E|].
  - right. split; [now apply (fifo_enq_full cap q xs)|exact E].
  - left. destruct (fifo_enq_room cap q xs x Hr) as (q' & E & Hr'); [lia|]. exists q'. repeat split; auto; lia.
Qed.

Section OnePq.
Context (sz : Z) (pq : PriorityQueue Q) (i : Z) (lv : levels) (HR : pqR sz pq i lv).

Lemma pqR_queue_len : length (queue pq) = 3%nat.
Proof. rewrite (Forall2_length _ _ _ (pq_entries _ _ _ _ HR)). apply HR. Qed.

(** Writing back one ring buffer. *)
Lemma pqR_set p q xs :
  (p < 3)%nat -> fifo_repr (sz - 1) q xs ->
  (forall x, x ∈ xs -> id x = i /\ priority x = Z.of_nat p) ->
  pqR sz (setQueue pq (Z.of_nat p) q) i (<[p := xs]> lv).
Proof.
  intros Hp Hq Hx. pose proof HR as [H1 H2 H3 H4 H5].
  split; unfold setQueue; simpl; auto.
  - now rewrite length_insert.
  - rewrite Nat2Z.id. apply Forall2_insert; [exact H4|exact Hq].
  - intros p' xs' x Hl Hin. destruct (decide (p = p')) as [->|].
    + rewrite list_lookup_insert_eq in Hl by (rewrite H3; lia). injection Hl as <-. auto.
    + rewrite list_lookup_insert_ne in Hl by assumption. eauto.
Qed.

Lemma pqR_set_same p q xs :
  lv !! p = Some xs -> fifo_repr (sz - 1) q xs -> pqR sz (setQueue pq (Z.of_nat p) q) i lv.
Proof.
  intros Hl Hq. rewrite <- (list_insert_id lv p xs Hl).
  apply pqR_set; [|exact Hq|intros x; now apply HR].
  apply lookup_lt_Some in Hl. rewrite (pq_len _ _ _ _ HR) in Hl. exact Hl.
Qed.

Lemma pqR_entry p : (p < 3)%nat -> exists oq xs,
  queue pq !! p = Some oq /\ lv !! p = Some xs /\ entryR (sz - 1) oq xs.
Proof.
  intros Hp. destruct (lookup_lt_is_Some_2 lv p) as [xs Hxs]; [rewrite (pq_len _ _ _ _ HR); lia|].
  destruct (Forall2_lookup_r _ _ _ _ _ (pq_entries _ _ _ _ HR) Hxs) as (oq & Hoq & He). eauto.
Qed.

Lemma Enqueue_spec alloc (x : Item) p xs :
  id x = i -> priority x = Z.of_nat p -> (p < 3)%nat -> lv !! p = Some xs ->
  exists code pq', Enqueue alloc pq x = Some (code, pq') /\
    ((code = SOFTBUS_OK /\ Z.of_nat (length xs) < sz - 1 /\ pqR sz pq' i (<[p := xs ++ [x]]> lv)) \/
     (code = QUEUE_FULL /\ Z.of_nat (length xs) = sz - 1 /\ pqR sz pq' i lv) \/
     (code = SOFTBUS_MALLOC_ERR /\ xs = [] /\ pq' = pq /\ fifo_create alloc sz = None)).
Proof.
  intros Hi Hpr Hp Hxs. destruct (pqR_entry p Hp) as (oq & xs' & Hoq & Hxs' & He).
  rewrite Hxs in Hxs'. injection Hxs' as <-.
  assert (Hall : forall y, y ∈ xs ++ [x] -> id y = i /\ priority y = Z.of_nat p).
  { intros y Hy. apply elem_of_app in Hy as [Hy|Hy]; [now apply (pq_items _ _ _ _ HR _ _ _ Hxs)|].
    apply list_elem_of_singleton in Hy as ->. auto. }
  unfold Enqueue, GetQueue. rewrite Hpr, Nat2Z.id, Hoq.
  destruct (Z.ltb_spec (Z.of_nat p) CONN_PRIORITY_BUTT) as [|Hge]; unfold CONN_PRIORITY_BUTT in *; [|lia].
  cbn [negb mjoin option_join orb]. destruct oq as [q|].
  - rewrite bool_decide_eq_true_2 by eauto.
    destruct (fifo_enq_cases _ _ _ x He) as [(q' & -> & Hq' & Hlt)|[-> Heq]]; eexists _, _;
      (split; [reflexivity|]); [left|right; left].
    + split; [reflexivity|]. split; [exact Hlt|]. now apply pqR_set.
    + split; [reflexivity|]. split; [exact Heq|]. now apply (pqR_set_same p q xs).
  - rewrite bool_decide_eq_false_2 by (intros [? [=]]). simpl in He. subst xs.
    rewrite (pq_size _ _ _ _ HR).
    destruct (fifo_create alloc sz) as [q|] eqn:Ec.
    2: { eexists _, _. split; [reflexivity|]. right; right. auto. }
    pose proof (fifo_created _ _ _ Ec) as Hq0.
    set (pq1 := mkPQ (pid pq) (<[p := Some q]> (queue pq)) sz).
    assert (Hset : forall q', setQueue pq1 (Z.of_nat p) q' = setQueue pq (Z.of_nat p) q').
    { intros q'. unfold setQueue, pq1. simpl. rewrite Nat2Z.id, list_insert_insert_eq.
      now rewrite (pq_size _ _ _ _ HR). }
    destruct (fifo_enq_cases _ _ _ x Hq0) as [(q' & -> & Hq' & Hlt)|[-> Heq]]; eexists _, _;
      (split; [reflexivity|]); rewrite Hset; [left|right; left].
    + split; [reflexivity|]. split; [exact Hlt|]. now apply pqR_set.
    + split; [reflexivity|]. split; [exact Heq|]. now apply (pqR_set_same p q []).
Qed.

End OnePq.

Lemma DequeueLoop_spec sz i lv : forall n p pq,
  pqR sz pq i lv -> (p + n <= 3)%nat ->
  match specDeq n p lv with
  | Some (x, lv') => exists pq', DequeueLoop n (Z.of_nat p) pq = (SOFTBUS_OK, Some x, pq') /\
                                 pqR sz pq' i lv'
  | None => exists pq', DequeueLoop n (Z.of_nat p) pq = (QUEUE_EMPTY, None, pq') /\ pqR sz pq' i lv
  end.
Proof.
  induction n as [|n IH]; intros p pq HR Hp; cbn [specDeq DequeueLoop]; [eauto|].
  destruct (pqR_entry sz pq i lv HR p) as (oq & xs & Hoq & Hxs & He); [lia|].
  unfold GetQueue. rewrite Nat2Z.id, Hoq, Hxs.
  destruct (Z.ltb_spec (Z.of_nat p) CONN_PRIORITY_BUTT) as [|Hge]; unfold CONN_PRIORITY_BUTT in *; [|lia].
  cbn [negb mjoin option_join orb]. replace (Z.of_nat p + 1) with (Z.of_nat (S p)) by lia.
  destruct oq as [q|]; simpl in He; [|subst xs; apply IH; [assumption|lia]].
  destruct xs as [|x xs].
  - rewrite (fifo_deq_nil _ _ He). cbn [Z.eqb QUEUE_EMPTY Pos.eqb].
    apply IH; [now apply (pqR_set_same sz pq i lv HR p q [])|lia].
  - destruct (fifo_deq_cons _ _ _ _ He) as (q' & -> & Hq'). cbn [Z.eqb QUEUE_EMPTY].
    eexists. split; [reflexivity|]. apply pqR_set; [exact HR|lia|exact Hq'|].
    intros y Hy. apply (pq_items _ _ _ _ HR _ _ _ Hxs). now right.
Qed.

Lemma Dequeue_spec sz pq i lv least :
  pqR sz pq i lv -> -1 <= least <= 2 ->
  match specDeq (Z.to_nat (least + 1)) 0 lv with
  | Some (x, lv') => exists pq', Dequeue pq least = (SOFTBUS_OK, Some x, pq') /\ pqR sz pq' i lv'
  | None => exists pq', Dequeue pq least = (QUEUE_EMPTY, None, pq') /\ pqR sz pq' i lv
  end.
Proof. intros HR Hl. apply (DequeueLoop_spec sz i lv _ 0 pq HR). lia. Qed.

Lemma DequeueFairlyLoop_spec sz : forall l la,
  Forall2 (fun pq e => pqR sz pq e.1 e.2) l la ->
  exists l', DequeueFairlyLoop l =
    (if specFair la is (Some _, _) then SOFTBUS_OK else QUEUE_EMPTY, (specFair la).1, l') /\
    Forall2 (fun pq e => pqR sz pq e.1 e.2) l' (specFair la).2.
Proof.
  induction 1 as [|pq [i lv] l la Hpq Hl IH]; cbn [DequeueFairlyLoop specFair]; [eauto|].
  pose proof (Dequeue_spec sz pq i lv CONN_PRIORITY_LOW Hpq ltac:(unfold CONN_PRIORITY_LOW; lia)) as Hd.
  change (Z.to_nat (CONN_PRIORITY_LOW + 1)) with 3%nat in Hd.
  destruct (specDeq 3 0 lv) as [[x lv']|]; destruct Hd as (pq' & -> & Hpq').
  - cbn. eexists. split; [reflexivity|]. apply Forall2_app; [exact Hl|]. constructor; [exact Hpq'|constructor].
  - exact IH.
Qed.

Lemma specFair_ids l : forall out l', specFair l = (out, l') -> NoDup l.*1 ->
  NoDup l'.*1 /\ (forall i, i ∈ l'.*1 -> i ∈ l.*1).
Proof.
  induction l as [|[i lv] l IH]; cbn [specFair fmap list_fmap fst]; intros out l' E Hnd.
  { injection E as <- <-. auto. }
  apply NoDup_cons in Hnd as [Hi Hnd]. destruct (specDeq 3 0 lv) as [[x lv']|].
  - injection E as <- <-. rewrite fmap_app. split.
    + apply NoDup_app. split; [exact Hnd|]. split; [|simpl; apply NoDup_singleton].
      simpl. intros y Hy Hy'. apply list_elem_of_singleton in Hy' as ->. contradiction.
    + intros y Hy. apply elem_of_app in Hy as [Hy|Hy]; [now right|].
      simpl in Hy. apply list_elem_of_singleton in Hy as ->. left.
  - destruct (IH _ _ E Hnd) as [H1 H2]. split; [exact H1|]. intros y Hy. right. auto.
Qed.

(** One locked round of [ConnDequeue] is one step of the abstract queue. *)
Lemma dequeueRound_spec sz q a :
  fpqR sz q a ->
  exists q', dequeueRound q =
    (if specRound a is (Some _, _) then SOFTBUS_OK else QUEUE_EMPTY, (specRound a).1, q') /\
    fpqR sz q' (specRound a).2.
Proof.
  intros [Hs Hin Hout Hnd]. unfold dequeueRound, DequeueInner, DequeueFairly, specRound.
  pose proof (Dequeue_spec sz _ _ _ CONN_PRIORITY_MIDDLE Hin ltac:(unfold CONN_PRIORITY_MIDDLE; lia)) as Hd.
  change (Z.to_nat (CONN_PRIORITY_MIDDLE + 1)) with 2%nat in Hd.
  destruct (specDeq 2 0 (aInner a)) as [[x lv]|]; destruct Hd as (pq1 & -> & Hpq1).
  { cbn. eexists. split; [reflexivity|]. now split. }
  cbn [negb Z.eqb QUEUE_EMPTY Pos.eqb queues].
  destruct (DequeueFairlyLoop_spec sz _ _ Hout) as (l' & -> & Hl').
  apply NoDup_cons in Hnd as [H0 Hnd].
  destruct (specFair (aOuter a)) as [out la] eqn:Ef.
  destruct (specFair_ids _ _ _ Ef Hnd) as [Hnd' Hsub].
  assert (Hnd0 : NoDup (0 :: la.*1)) by (apply NoDup_cons; split; auto).
  destruct out as [x|].
  { cbn. eexists. split; [reflexivity|]. now split. }
  cbn [negb Z.eqb QUEUE_EMPTY Pos.eqb innerQueue size queues].
  pose proof (Dequeue_spec sz _ _ _ CONN_PRIORITY_LOW Hpq1 ltac:(unfold CONN_PRIORITY_LOW; lia)) as Hd.
  change (Z.to_nat (CONN_PRIORITY_LOW + 1)) with 3%nat in Hd.
  destruct (specDeq 3 0 (aInner a)) as [[x lv]|]; destruct Hd as (pq2 & -> & Hpq2);
    (eexists; split; [reflexivity|]; now split).
Qed.

(** ** Flows *)

(** What is queued of sender [i] at level [p]. *)
Fixpoint flowOf (l : list (Z * levels)) (i : Z) (p : nat) : list Item :=
  match l with
  | [] => []
  | (j, lv) :: l' => if j =? i then default [] (lv !! p) else flowOf l' i p
  end.

Definition flow (a : abs) : Z -> nat -> list Item := flowOf ((0, aInner a) :: aOuter a).

Definition level (x : Item) : nat := Z.to_nat (priority x).

(** Removing [out] turns the flows [f] into [f']. *)
Definition pops (out : option Item) (f f' : Z -> nat -> list Item) : Prop :=
  match out with
  | Some x => f (id x) (level x) = x :: f' (id x) (level x) /\
              forall i p, ~ (i = id x /\ p = level x) -> f' i p = f i p
  | None => forall i p, f i p = [] /\ f' i p = []
  end.

Lemma specDeq_some n : forall p lv x lv', specDeq n p lv = Some (x, lv') ->
  exists k xs, lv !! k = Some (x :: xs) /\ lv' = <[k := xs]> lv /\ (p <= k < p + n)%nat /\
    forall j ys, (p <= j < k)%nat -> lv !! j = Some ys -> ys = [].
Proof.
  induction n as [|n IH]; intros p lv x lv'; cbn [specDeq]; [discriminate|].
  destruct (lv !! p) as [[|y ys]|] eqn:E.
  - intros Hs. apply IH in Hs as (k & xs & H1 & H2 & H3 & H4). exists k, xs. repeat split; auto; try lia.
    intros j zs Hj Hz. destruct (decide (j = p)) as [->|]; [congruence|]. apply (H4 j); auto; lia.
  - intros [= <- <-]. exists p, ys. repeat split; auto; try lia.
  - intros Hs. apply IH in Hs as (k & xs & H1 & H2 & H3 & H4). exists k, xs. repeat split; auto; try lia.
    intros j zs Hj Hz. destruct (decide (j = p)) as [->|]; [congruence|]. apply (H4 j); auto; lia.
Qed.

Lemma specDeq_none n : forall p lv, specDeq n p lv = None ->
  forall k, (p <= k < p + n)%nat -> default [] (lv !! k) = [].
Proof.
  induction n as [|n IH]; intros p lv; cbn [specDeq]; [lia|].
  destruct (lv !! p) as [[|y ys]|] eqn:E; [|discriminate|]; intros Hs k Hk;
    (destruct (decide (k = p)) as [->|]; [now rewrite E|apply (IH (S p) lv Hs); lia]).
Qed.

Lemma flowOf_notin l i p : i ∉ l.*1 -> flowOf l i p = [].
Proof.
  induction l as [|[j lv] l IH]; simpl; [reflexivity|]. intros Hn.
  apply not_elem_of_cons in Hn as [Hne Hn].
  destruct (Z.eqb_spec j i); [congruence|auto].
Qed.

Lemma flowOf_app l1 l2 i p :
  flowOf (l1 ++ l2) i p = if decide (i ∈ l1.*1) then flowOf l1 i p else flowOf l2 i p.
Proof.
  induction l1 as [|[j lv] l1 IH]; cbn [app flowOf fmap list_fmap fst].
  { rewrite decide_False; [reflexivity|]. intros Hn. inversion Hn. }
  destruct (Z.eqb_spec j i) as [->|].
  - now rewrite decide_True by left.
  - rewrite IH. destruct (decide (i ∈ l1.*1)).
    + rewrite decide_True by now right. reflexivity.
    + rewrite decide_False; [reflexivity|]. apply not_elem_of_cons. auto.
Qed.

Definition wellPlaced (e : Z * levels) : Prop :=
  length e.2 = 3%nat /\
  forall p xs x, e.2 !! p = Some xs -> x ∈ xs -> id x = e.1 /\ priority x = Z.of_nat p.

(** Serving one sender. *)
Lemma specDeq_pops n i lv x lv' p :
  wellPlaced (i, lv) -> specDeq n p lv = Some (x, lv') ->
  id x = i /\ default [] (lv !! level x) = x :: default [] (lv' !! level x) /\
  forall k, k <> level x -> lv' !! k = lv !! k.
Proof.
  intros [Hlen Hx] Hs. apply specDeq_some in Hs as (k & xs & Hk & -> & _).
  destruct (Hx k (x :: xs) x) as [Hi Hp]; [exact Hk|left|]. simpl in Hi.
  assert (level x = k) as -> by (unfold level; lia).
  split; [exact Hi|]. rewrite Hk, list_lookup_insert_eq by (apply lookup_lt_Some in Hk; exact Hk).
  split; [reflexivity|]. intros j Hj. now rewrite list_lookup_insert_ne.
Qed.

Lemma specDeq_empty lv i : wellPlaced (i, lv) -> specDeq 3 0 lv = None ->
  forall p, default [] (lv !! p) = [].
Proof.
  intros [Hlen _] Hs p. destruct (decide (p < 3)%nat); [apply (specDeq_none 3 0 lv Hs); lia|].
  rewrite lookup_ge_None_2 by (simpl in Hlen; lia). reflexivity.
Qed.

Lemma specFair_pops l : forall out l',
  NoDup l.*1 -> Forall wellPlaced l -> specFair l = (out, l') -> pops out (flowOf l) (flowOf l').
Proof.
  induction l as [|[i lv] l IH]; cbn [specFair fmap list_fmap fst flowOf]; intros out l' Hnd Hw E; [injection E as <- <-; split; reflexivity|].
  apply NoDup_cons in Hnd as [Hi Hnd]. apply Forall_cons_1 in Hw as [Hlv Hw].
  destruct (specDeq 3 0 lv) as [[x lv']|] eqn:Es.
  - injection E as <- <-. destruct (specDeq_pops _ _ _ _ _ _ Hlv Es) as (Hx & Hd & Hk).
    split.
    + rewrite Hx, Z.eqb_refl, flowOf_app, decide_False by assumption. simpl.
      now rewrite Z.eqb_refl.
    + intros j p Hjp. rewrite flowOf_app. simpl.
      destruct (Z.eqb_spec i j) as [->|Hne].
      * rewrite decide_False by assumption. rewrite Hk; [reflexivity|]. intros ->. auto.
      * destruct (decide (j ∈ l.*1)); [reflexivity|]. now rewrite flowOf_notin.
  - specialize (IH _ _ Hnd Hw E). pose proof (specDeq_empty lv i Hlv Es) as He.
    destruct (specFair_ids _ _ _ E Hnd) as [_ Hsub].
    assert (Hi' : forall p, flowOf l' i p = []) by (intros p; apply flowOf_notin; auto).
    destruct out as [x|].
    + destruct IH as [H1 H2]. split.
      * destruct (Z.eqb_spec i (id x)) as [E'|]; [|exact H1].
        rewrite <- E', flowOf_notin in H1 by assumption. discriminate.
      * intros j p Hjp. destruct (Z.eqb_spec i j) as [<-|]; [now rewrite He, Hi'|auto].
    + intros j p. destruct (IH j p). destruct (Z.eqb_spec i j); [now rewrite He|auto].
Qed.

Lemma pqR_wellPlaced sz pq i lv : pqR sz pq i lv -> wellPlaced (i, lv).
Proof. intros [_ _ H1 _ H2]. split; [exact H1|exact H2]. Qed.

Lemma outer_wellPlaced sz l la :
  Forall2 (fun pq e => pqR sz pq e.1 e.2) l la -> Forall wellPlaced la.
Proof.
  induction 1 as [|pq [i lv] l la Hpq _ IH]; constructor; [|exact IH].
  now apply (pqR_wellPlaced sz pq).
Qed.

(** An abstract round removes the head of exactly one flow, or finds all of
    them empty. *)
Lemma specRound_pops sz q a :
  fpqR sz q a -> pops (specRound a).1 (flow a) (flow (specRound a).2).
Proof.
  intros [_ Hin Hout Hnd]. apply pqR_wellPlaced in Hin. apply outer_wellPlaced in Hout.
  apply NoDup_cons in Hnd as [H0 Hnd]. unfold specRound, flow.
  assert (Hinner : forall n x lv l, specDeq n 0 (aInner a) = Some (x, lv) ->
    (forall i p, flowOf l i p = flowOf (aOuter a) i p) ->
    pops (Some x) (flowOf ((0, aInner a) :: aOuter a)) (flowOf ((0, lv) :: l))).
  { intros n x lv l Es Hl. destruct (specDeq_pops _ _ _ _ _ _ Hin Es) as (Hx & Hd & Hk).
    split; cbn [flowOf]; [rewrite Hx, Z.eqb_refl; exact Hd|].
    intros j p Hj. destruct (Z.eqb_spec 0 j) as [<-|]; [|apply Hl].
    rewrite Hk; [reflexivity|]. intros ->. auto. }
  destruct (specDeq 2 0 (aInner a)) as [[x lv]|] eqn:E2; [now apply (Hinner 2%nat)|].
  destruct (specFair (aOuter a)) as [[x|] l] eqn:Ef;
    pose proof (specFair_pops _ _ _ Hnd Hout Ef) as Hp; cbn [fst snd].
  - destruct Hp as [H1 H2]. split; cbn [flowOf].
    + destruct (Z.eqb_spec 0 (id x)) as [E|]; [|exact H1].
      rewrite <- E, flowOf_notin in H1 by assumption. discriminate.
    + intros j p Hj. destruct (Z.eqb_spec 0 j); auto.
  - destruct (specDeq 3 0 (aInner a)) as [[x lv]|] eqn:E3.
    + apply (Hinner 3%nat); [exact E3|]. intros i p. cbn [aOuter snd].
      destruct (Hp i p) as [-> ->]. reflexivity.
    + intros i p. cbn [flowOf aOuter aInner fst snd]. destruct (Hp i p) as [-> ->].
      rewrite (specDeq_empty _ 0 Hin E3). now destruct (0 =? i).
Qed.

(** ** Enqueueing *)

Definition pushes (x : Item) (f f' : Z -> nat -> list Item) : Prop :=
  f' (id x) (level x) = f (id x) (level x) ++ [x] /\
  forall i p, ~ (i = id x /\ p = level x) -> f' i p = f i p.

Lemma flowOf_insert l : forall n i lv lv' j p,
  NoDup l.*1 -> l !! n = Some (i, lv) ->
  flowOf (<[n := (i, lv')]> l) j p = if i =? j then default [] (lv' !! p) else flowOf l j p.
Proof.
  induction l as [|[k w] l IH]; intros [|n] i lv lv' j p Hnd Hl; simplify_eq/=;
    [destruct (Z.eqb_spec i j); reflexivity|].
  apply NoDup_cons in Hnd as [Hk Hnd]. rewrite (IH n i lv lv' j p Hnd Hl).
  destruct (Z.eqb_spec k j) as [->|]; [|reflexivity].
  destruct (Z.eqb_spec i j) as [->|]; [|reflexivity]. exfalso. apply Hk.
  apply list_elem_of_fmap. exists (j, lv). split; [reflexivity|].
  now apply list_elem_of_lookup_2 in Hl.
Qed.

Lemma flowOf_lookup l n i lv p :
  NoDup l.*1 -> l !! n = Some (i, lv) -> flowOf l i p = default [] (lv !! p).
Proof.
  intros Hnd Hl. rewrite <- (list_insert_id l n (i, lv) Hl) at 1.
  rewrite (flowOf_insert l n i lv lv i p Hnd Hl). now rewrite Z.eqb_refl.
Qed.

(** The abstract entry behind a pointer. *)
Definition derefAbs (a : abs) (r : pqRef) : option (Z * levels) :=
  match r with RefInner => Some (0, aInner a) | RefOuter n => aOuter a !! n end.

Definition storeAbs (a : abs) (r : pqRef) (e : Z * levels) : abs :=
  match r with
  | RefInner => mkAbs e.2 (aOuter a)
  | RefOuter n => mkAbs (aInner a) (<[n := e]> (aOuter a))
  end.

Lemma storeAbs_spec sz q a r pq i lv pq' lv' :
  fpqR sz q a -> derefPq q r = Some pq -> derefAbs a r = Some (i, lv) -> pqR sz pq' i lv' ->
  fpqR sz (storePq q r pq') (storeAbs a r (i, lv')) /\
  (forall p, flow a i p = default [] (lv !! p)) /\
  (forall p, flow (storeAbs a r (i, lv')) i p = default [] (lv' !! p)) /\
  (forall j p, j <> i -> flow (storeAbs a r (i, lv')) j p = flow a j p).
Proof.
  intros [Hs Hin Hout Hnd] Hp Ha Hpq'. pose proof Hnd as Hnd1.
  apply NoDup_cons in Hnd1 as [H0 Hnd1]. destruct r as [|n]; simpl in *.
  - injection Ha as <- <-. injection Hp as <-. split; [now split|].
    split; [reflexivity|]. split; [reflexivity|]. intros j p Hj. unfold flow. cbn [flowOf aInner aOuter fst snd].
    destruct (Z.eqb_spec 0 j); [congruence|reflexivity].
  - assert (Hi0 : i <> 0).
    { intros ->. apply H0, list_elem_of_fmap. exists (0, lv). split; [reflexivity|].
      now apply list_elem_of_lookup_2 in Ha. }
    split; [split; simpl; auto|].
    + now apply Forall2_insert.
    + rewrite list_fmap_insert, (list_insert_id ((aOuter a).*1)); [exact Hnd|].
      now rewrite list_lookup_fmap, Ha.
    + assert (Hf : forall p, flow a i p = default [] (lv !! p)).
      { intros p. unfold flow. cbn [flowOf aInner aOuter fst snd]. destruct (Z.eqb_spec 0 i); [congruence|].
        now apply (flowOf_lookup _ n). }
      split; [exact Hf|]. split; [intros p|intros j p Hj]; unfold flow; cbn [flowOf aInner aOuter fst snd];
        rewrite (flowOf_insert _ n i lv lv' _ _ Hnd1 Ha).
      * rewrite Z.eqb_refl. destruct (Z.eqb_spec 0 i); [congruence|reflexivity].
      * destruct (Z.eqb_spec 0 j); [reflexivity|]. destruct (Z.eqb_spec i j); [congruence|reflexivity].
Qed.

Lemma CreatePriorityQueue_spec libc i sz pq :
  CreatePriorityQueue libc i sz = Some pq -> pqR sz pq i [[]; []; []].
Proof.
  unfold CreatePriorityQueue. destruct (negb _); [discriminate|]. intros [= <-].
  split; simpl; auto.
  - repeat constructor.
  - intros [|[|[|p]]] xs x [= <-] Hx; inversion Hx.
Qed.

(** Looking up or creating the sender's queue leaves every flow as it is. *)
Lemma GetOrCreatePriorityQueue_spec sz libc q a i :
  fpqR sz q a ->
  match GetOrCreatePriorityQueue libc q i with
  | (None, q') => q' = q
  | (Some r, q') => exists a' pq lv, fpqR sz q' a' /\ derefPq q' r = Some pq /\
      derefAbs a' r = Some (i, lv) /\ pqR sz pq i lv /\ forall j p, flow a' j p = flow a j p
  end.
Proof.
  intros HR. pose proof HR as [Hs Hin Hout Hnd]. unfold GetOrCreatePriorityQueue.
  destruct (Z.eqb_spec i 0) as [->|Hi].
  { exists a, (innerQueue q), (aInner a). auto 10. }
  destruct (list_find (fun pq => pid pq = i) (queues q)) as [[n pq]|] eqn:Ef.
  - apply list_find_Some in Ef as (Hl & Hpid & _).
    destruct (Forall2_lookup_l _ _ _ _ _ Hout Hl) as ([j lv] & Ha & Hpq). simpl in Hpq.
    assert (j = i) as -> by (rewrite <- (pq_pid _ _ _ _ Hpq); exact Hpid).
    exists a, pq, lv. auto.
  - destruct (CreatePriorityQueue libc i (size q)) as [pq|] eqn:Ec; [|reflexivity].
    rewrite Hs in Ec. apply CreatePriorityQueue_spec in Ec.
    assert (Hnot : i ∉ (aOuter a).*1).
    { intros H. apply list_elem_of_fmap in H as ([j lv] & -> & Hin').
      apply list_elem_of_lookup_1 in Hin' as [n Hn].
      destruct (Forall2_lookup_r _ _ _ _ _ Hout Hn) as (pq' & Hpq' & Hr).
      apply list_find_None in Ef. rewrite Forall_forall in Ef.
      apply (Ef pq'); [now apply list_elem_of_lookup_2 in Hpq'|apply Hr]. }
    exists (mkAbs (aInner a) (aOuter a ++ [(i, [[]; []; []])])), pq, [[]; []; []].
    split; [split; simpl; auto|].
    + apply Forall2_app; [exact Hout|]. now constructor.
    + rewrite fmap_app. simpl. apply (NoDup_app (0 :: (aOuter a).*1) [i]).
      split; [exact Hnd|]. split; [|apply NoDup_singleton].
      intros y Hy Hy'. apply list_elem_of_singleton in Hy' as ->.
      apply elem_of_cons in Hy as [|]; auto.
    + split; [simpl; rewrite lookup_app_r by lia; now rewrite Nat.sub_diag|].
      split; [simpl; rewrite lookup_app_r by (rewrite (Forall2_length _ _ _ Hout); lia);
              now rewrite (Forall2_length _ _ _ Hout), Nat.sub_diag|].
      split; [exact Ec|]. intros j p. unfold flow. cbn [flowOf aInner aOuter fst snd].
      destruct (Z.eqb_spec 0 j); [reflexivity|]. rewrite flowOf_app.
      destruct (decide (j ∈ (aOuter a).*1)) as [|Hn]; [reflexivity|].
      rewrite (flowOf_notin _ _ _ Hn). cbn [flowOf]. destruct (i =? j); [|reflexivity].
      now destruct p as [|[|[|p]]].
Qed.

(** One locked round of [ConnEnqueue]. *)
Lemma enqueueRound_spec sz libc alloc q a (x : Item) :
  fpqR sz q a -> 0 <= priority x ->
  exists code q' a', enqueueRound libc alloc q x = Some (code, q') /\ fpqR sz q' a' /\
    ((code = SOFTBUS_OK /\ pushes x (flow a) (flow a') /\
      Z.of_nat (length (flow a (id x) (level x))) < sz - 1) \/
     (code = QUEUE_FULL /\ (forall i p, flow a' i p = flow a i p) /\
      Z.of_nat (length (flow a (id x) (level x))) = sz - 1) \/
     (code = SOFTBUS_MALLOC_ERR /\ (forall i p, flow a' i p = flow a i p))).
Proof.
  intros HR Hp. unfold enqueueRound.
  pose proof (GetOrCreatePriorityQueue_spec sz libc q a (id x) HR) as Hg.
  destruct (GetOrCreatePriorityQueue libc q (id x)) as [[r|] q1].
  2: { subst q1. exists SOFTBUS_MALLOC_ERR, q, a. split; [reflexivity|]. split; [exact HR|].
       right; right. auto. }
  destruct Hg as (a1 & pq & lv & HR1 & Hd & Hda & Hpq & Hf). rewrite Hd.
  assert (Hsame : forall pq', pqR sz pq' (id x) lv ->
    fpqR sz (storePq q1 r pq') (storeAbs a1 r (id x, lv)) /\
    forall j p, flow (storeAbs a1 r (id x, lv)) j p = flow a j p).
  { intros pq' Hpq'.
    destruct (storeAbs_spec _ _ _ _ _ _ _ _ _ HR1 Hd Hda Hpq') as (HR2 & Hfa & Hfi & Hfj).
    split; [exact HR2|]. intros j p.
    destruct (decide (j = id x)) as [->|]; [now rewrite Hfi, <- Hfa, Hf|now rewrite Hfj, Hf]. }
  destruct (Z.ltb_spec (priority x) CONN_PRIORITY_BUTT) as [Hlt|Hge].
  - unfold CONN_PRIORITY_BUTT in Hlt.
    destruct (pqR_entry sz pq _ lv Hpq (level x)) as (_ & xs & _ & Hxs & _); [unfold level; lia|].
    destruct (Enqueue_spec sz pq _ lv Hpq alloc x (level x) xs) as (code & pq' & E & Hcase);
      [reflexivity|unfold level; lia|unfold level; lia|exact Hxs|].
    rewrite E.
    assert (Hlen : flow a (id x) (level x) = xs).
    { rewrite <- Hf. destruct (storeAbs_spec _ _ _ _ _ _ _ _ _ HR1 Hd Hda Hpq) as (_ & -> & _).
      now rewrite Hxs. }
    rewrite Hlen.
    destruct Hcase as [(-> & Hroom & Hpq')|[(-> & Hfull & Hpq')|(-> & -> & -> & _)]].
    + destruct (storeAbs_spec _ _ _ _ _ _ _ _ _ HR1 Hd Hda Hpq') as (HR2 & Hfa & Hfi & Hfj).
      eexists _, _, _. split; [reflexivity|]. split; [exact HR2|]. left.
      split; [reflexivity|]. split; [split|exact Hroom].
      * rewrite Hfi, list_lookup_insert_eq by (apply lookup_lt_Some in Hxs; exact Hxs).
        now rewrite Hlen.
      * intros j p Hj. destruct (decide (j = id x)) as [->|]; [|now rewrite Hfj, Hf].
        rewrite Hfi, list_lookup_insert_ne by (intros E'; apply Hj; auto). now rewrite <- Hfa, Hf.
    + destruct (Hsame pq' Hpq') as [H1 H2]. eexists _, _, _. split; [reflexivity|].
      split; [exact H1|]. right; left. auto.
    + destruct (Hsame pq Hpq) as [H1 H2]. eexists _, _, _. split; [reflexivity|].
      split; [exact H1|]. right; right. auto.
  - assert (E : Enqueue alloc pq x = Some (SOFTBUS_MALLOC_ERR, pq)).
    { unfold Enqueue, GetQueue. apply Z.ltb_ge in Hge. now rewrite Hge. }
    rewrite E. destruct (Hsame pq Hpq) as [H1 H2]. eexists _, _, _. split; [reflexivity|].
    split; [exact H1|]. right; right. auto.
Qed.

(** ** Executions

    Every locked round is one step, so the steps of concurrent callers
    interleave freely. *)

Inductive qop :=
| OpEnqueue (libc : Z -> bool) (alloc : bool) (x : Item)
| OpDequeue.

(** The queue, the items accepted and the items delivered, oldest first. *)
Fixpoint run (q : ConnFairPriorityQueue Q) (ops : list qop)
  : option (ConnFairPriorityQueue Q * list Item * list Item) :=
  match ops with
  | [] => Some (q, [], [])
  | OpEnqueue libc alloc x :: ops' =>
    match enqueueRound libc alloc q x with
    | None => None
    | Some (code, q') =>
      match run q' ops' with
      | None => None
      | Some (q'', acc, out) =>
        Some (q'', if code =? SOFTBUS_OK then x :: acc else acc, out)
      end
    end
  | OpDequeue :: ops' =>
    let '(code, o, q') := dequeueRound q in
    match run q' ops' with
    | None => None
    | Some (q'', acc, out) => Some (q'', acc, match o with Some x => x :: out | None => out end)
    end
  end.

Definition inFlow (i : Z) (p : nat) (x : Item) : Prop := id x = i /\ level x = p.
#[local] Instance inFlow_dec i p x : Decision (inFlow i p x).
Proof. unfold inFlow. apply _. Defined.

Definition validOp (o : qop) : Prop :=
  match o with OpEnqueue _ _ x => 0 <= priority x | OpDequeue => True end.

Lemma run_flows sz : forall ops q a,
  fpqR sz q a -> Forall validOp ops ->
  exists q' a' acc out, run q ops = Some (q', acc, out) /\ fpqR sz q' a' /\
    forall i p, flow a i p ++ filter (inFlow i p) acc = filter (inFlow i p) out ++ flow a' i p.
Proof.
  induction ops as [|[libc alloc x|] ops IH]; intros q a HR Hv; cbn [run].
  - exists q, a, [], []. split; [reflexivity|]. split; [exact HR|]. intros i p. now rewrite app_nil_r.
  - apply Forall_cons_1 in Hv as [Hx Hv].
    destruct (enqueueRound_spec sz libc alloc q a x HR Hx) as (code & q1 & a1 & -> & HR1 & Hc).
    destruct (IH q1 a1 HR1 Hv) as (q' & a' & acc & out & -> & HR' & Hfl).
    eexists _, a', _, _. split; [reflexivity|]. split; [exact HR'|]. intros i p.
    rewrite <- Hfl. destruct Hc as [(-> & [Hp1 Hp2] & _)|Hc].
    + cbn [Z.eqb SOFTBUS_OK]. rewrite filter_cons.
      destruct (decide (inFlow i p x)) as [[<- <-]|Hn].
      * rewrite Hp1, <- app_assoc. reflexivity.
      * rewrite Hp2; [reflexivity|]. intros [-> ->]. apply Hn. now split.
    + assert (Hcode : (code =? SOFTBUS_OK) = false /\ forall i p, flow a1 i p = flow a i p)
        by (destruct Hc as [(-> & Hs & _)|(-> & Hs)]; split; auto).
      destruct Hcode as [-> ->]. reflexivity.
  - apply Forall_cons_1 in Hv as [_ Hv].
    destruct (dequeueRound_spec sz q a HR) as (q1 & -> & HR1).
    pose proof (specRound_pops sz q a HR) as Hp.
    destruct (IH q1 _ HR1 Hv) as (q' & a' & acc & out & -> & HR' & Hfl).
    eexists _, a', _, _. split; [reflexivity|]. split; [exact HR'|]. intros i p.
    destruct (specRound a).1 as [x|] eqn:Ex; cbn [pops] in *.
    + destruct Hp as [Hp1 Hp2]. rewrite filter_cons.
      destruct (decide (inFlow i p x)) as [[<- <-]|Hn].
      * cbn [app]. now rewrite Hp1, <- Hfl.
      * rewrite <- Hfl, Hp2; [reflexivity|]. intros [-> ->]. apply Hn. now split.
    + rewrite <- Hfl. destruct (Hp i p) as [-> ->]. reflexivity.
Qed.

Lemma ConnCreateQueue_spec libc1 libc2 l1 l2 l3 sz q :
  ConnCreateQueue libc1 libc2 l1 l2 l3 sz = Some q ->
  fpqR sz q (mkAbs [[]; []; []] []).
Proof.
  unfold ConnCreateQueue. repeat (destruct (negb _); [discriminate|]).
  destruct (CreatePriorityQueue libc2 0 sz) as [pq|] eqn:E; [|discriminate].
  apply CreatePriorityQueue_spec in E. intros [= <-]. split; simpl; auto. apply NoDup_singleton.
Qed.

(** C20: No message is lost, duplicated or reordered within its flow: from a
    fresh queue, after any interleaving of enqueue and dequeue rounds (each of
    which returns), what was accepted of a sender at a priority is what was
    delivered of it, in order, followed by what is still queued. *)
Theorem flows_are_fifo (libc1 libc2 : Z -> bool) (sz : Z) (q0 : ConnFairPriorityQueue Q)
    (ops : list qop)
    (Hnew : ConnCreateQueue libc1 libc2 SOFTBUS_OK SOFTBUS_OK SOFTBUS_OK sz = Some q0)
    (Hops : Forall validOp ops) :
  exists q a acc out, run q0 ops = Some (q, acc, out) /\ fpqR sz q a /\
    forall i p, filter (inFlow i p) acc = filter (inFlow i p) out ++ flow a i p.
Proof.
  apply ConnCreateQueue_spec in Hnew.
  destruct (run_flows sz ops q0 _ Hnew Hops) as (q & a & acc & out & Hr & HR & Hf).
  exists q, a, acc, out. split; [exact Hr|]. split; [exact HR|]. intros i p.
  rewrite <- Hf. unfold flow. cbn [flowOf aInner aOuter].
  destruct (0 =? i); [|reflexivity]. now destruct p as [|[|[|p]]].
Qed.

(** ** Priorities and fairness *)

Lemma specDeq_lower n i lv x lv' :
  wellPlaced (i, lv) -> specDeq n 0 lv = Some (x, lv') ->
  forall p, (p < level x)%nat -> default [] (lv !! p) = [].
Proof.
  intros [_ Hx] Hs p Hp. apply specDeq_some in Hs as (k & xs & Hk & -> & _ & Hlow).
  destruct (Hx k (x :: xs) x) as [_ Hpr]; [exact Hk|left|].
  assert (level x = k) as E by (unfold level; lia). rewrite E in Hp.
  destruct (lv !! p) as [ys|] eqn:El; [|reflexivity]. simpl. apply (Hlow p ys); [lia|exact El].
Qed.

Lemma specFair_lower l : forall x l',
  NoDup l.*1 -> Forall wellPlaced l -> specFair l = (Some x, l') ->
  id x ∈ l.*1 /\ forall p, (p < level x)%nat -> flowOf l (id x) p = [].
Proof.
  induction l as [|[i lv] l IH]; cbn [specFair fmap list_fmap fst flowOf]; intros x l' Hnd Hw E;
    [discriminate|].
  apply NoDup_cons in Hnd as [Hi Hnd]. apply Forall_cons_1 in Hw as [Hlv Hw].
  destruct (specDeq 3 0 lv) as [[y lv']|] eqn:Es.
  - injection E as <- <-. destruct (specDeq_pops _ _ _ _ _ _ Hlv Es) as (-> & _).
    split; [left|]. intros p Hp. rewrite Z.eqb_refl. now apply (specDeq_lower 3 i lv y lv').
  - destruct (IH _ _ Hnd Hw E) as [H1 H2]. split; [now right|]. intros p Hp.
    destruct (Z.eqb_spec i (id x)); [now apply (specDeq_empty lv i)|auto].
Qed.

(** What the served message says about the messages that wait. *)
Record bestChoice (x : Item) (f : Z -> nat -> list Item) : Prop := {
  (** nothing of the same sender has a higher priority; *)
  best_level : forall p, (p < level x)%nat -> f (id x) p = [];
  (** a sender is served only when the inner queue has nothing above low; *)
  best_inner : id x <> 0 -> f 0 0%nat = [] /\ f 0 1%nat = [];
  (** the inner low level is served only when no sender waits. *)
  best_low : id x = 0 -> priority x = CONN_PRIORITY_LOW -> forall i p, i <> 0 -> f i p = []
}.

Lemma specRound_best sz q a x a' :
  fpqR sz q a -> specRound a = (Some x, a') -> bestChoice x (flow a).
Proof.
  intros [_ Hin Hout Hnd] E. apply pqR_wellPlaced in Hin. apply outer_wellPlaced in Hout.
  apply NoDup_cons in Hnd as [H0 Hnd]. unfold specRound in E.
  destruct (specDeq 2 0 (aInner a)) as [[y lv]|] eqn:E2.
  - injection E as <- <-. destruct (specDeq_pops _ _ _ _ _ _ Hin E2) as (Hy & _).
    pose proof (specDeq_lower _ _ _ _ _ Hin E2) as Hlow. split.
    + intros p Hp. unfold flow. cbn [flowOf]. rewrite Hy. now apply Hlow.
    + congruence.
    + intros _ Hpr. exfalso. apply specDeq_some in E2 as (k & xs & Hk & _ & Hkr & _).
      destruct Hin as [_ Hin]. destruct (Hin k (y :: xs) y) as [_ Hp]; [exact Hk|left|].
      unfold CONN_PRIORITY_LOW in Hpr. lia.
  - pose proof (specDeq_none _ _ _ E2) as He2.
    destruct (specFair (aOuter a)) as [[y|] l] eqn:Ef.
    + injection E as <- <-. destruct (specFair_lower _ _ _ Hnd Hout Ef) as [Hy Hlow].
      assert (id y <> 0) by (intros Ey; rewrite Ey in Hy; contradiction).
      split; [|split; apply He2; lia|congruence].
      intros p Hp. unfold flow. cbn [flowOf]. destruct (Z.eqb_spec 0 (id y)); [congruence|auto].
    + pose proof (specFair_pops _ _ _ Hnd Hout Ef) as Hp.
      destruct (specDeq 3 0 (aInner a)) as [[y lv]|] eqn:E3; [|discriminate].
      injection E as <- <-. destruct (specDeq_pops _ _ _ _ _ _ Hin E3) as (Hy & _).
      split; [|congruence|].
      * intros p Hpl. unfold flow. cbn [flowOf]. rewrite Hy. now apply (specDeq_lower 3 0 (aInner a) y lv).
      * intros _ _ i p Hi. unfold flow. cbn [flowOf].
        destruct (Z.eqb_spec 0 i); [congruence|]. apply Hp.
Qed.

(** [ConnDequeue] never waits while something is queued, whatever the
    environment: it returns [SOFTBUS_OK] with the oldest message of a flow,
    removes just that message, and respects the priorities: inner high and
    middle before the senders, the senders before inner low, and higher levels
    first within a sender. *)
Theorem ConnDequeue_priority (e : Env Q) (sz timeoutMs : Z) (q : ConnFairPriorityQueue Q) (a : abs)
    (i : Z) (p : nat) (HR : fpqR sz q a) (Hlock : lockRet e = SOFTBUS_OK)
    (Hsome : flow a i p <> []) :
  exists x q' a',
    ConnDequeue e (Some q) true timeoutMs = Some (SOFTBUS_OK, Some x, Some q') /\
    fpqR sz q' a' /\ pops (Some x) (flow a) (flow a') /\ bestChoice x (flow a).
Proof.
  destruct (dequeueRound_spec sz q a HR) as (q' & E & HR').
  pose proof (specRound_pops sz q a HR) as Hp.
  destruct (specRound a) as [[x|] a'] eqn:Er; [|destruct (Hp i p); contradiction].
  exists x, q', a'. split; [|split; [exact HR'|split; [exact Hp|]]].
  - unfold ConnDequeue. rewrite Hlock. cbn [negb Z.eqb SOFTBUS_OK ConnDequeueLoop].
    rewrite E. reflexivity.
  - now apply (specRound_best sz q a x a').
Qed.

(** [n] dequeue rounds. *)
Fixpoint drain (n : nat) (q : ConnFairPriorityQueue Q) : list (option Item) :=
  match n with
  | O => []
  | S n' => let '(_, o, q') := dequeueRound q in o :: drain n' q'
  end.

Definition busy (e : Z * levels) : Prop := specDeq 3 0 e.2 <> None.

Lemma drain_spec sz : forall l1 l2 q inner,
  fpqR sz q (mkAbs inner (l1 ++ l2)) -> specDeq 2 0 inner = None -> Forall busy l1 ->
  Forall2 (fun e o => exists x, o = Some x /\ id x = e.1) l1 (drain (length l1) q).
Proof.
  induction l1 as [|[i lv] l1 IH]; intros l2 q inner HR Hin Hb; cbn [drain length]; [constructor|].
  apply Forall_cons_1 in Hb as [Hi Hb]. unfold busy in Hi. cbn [snd] in Hi.
  destruct (dequeueRound_spec sz q _ HR) as (q' & E & HR'). rewrite E.
  unfold specRound in *. cbn [aInner aOuter app] in *. rewrite Hin in *.
  cbn [specFair] in *. destruct (specDeq 3 0 lv) as [[x lv']|] eqn:Es; [|congruence].
  cbn [fst snd] in *. constructor.
  - exists x. split; [reflexivity|]. apply fpq_outer in HR. cbn [aOuter] in HR.
    apply Forall2_cons_inv_r in HR as (pq & k & Hpq & _ & _).
    now apply (specDeq_pops 3 i lv x lv' 0 (pqR_wellPlaced _ _ _ _ Hpq)).
  - apply (IH (l2 ++ [(i, lv')]) q' inner); [now rewrite app_assoc|exact Hin|exact Hb].
Qed.

(** Round-robin fairness: while the inner queue has nothing above low, as
    many dequeues as there are waiting senders serve every one of them exactly
    once, in the order of the list. *)
Theorem senders_served_in_turn (sz : Z) (q : ConnFairPriorityQueue Q) (a : abs)
    (HR : fpqR sz q a) (Hinner : specDeq 2 0 (aInner a) = None) (Hbusy : Forall busy (aOuter a)) :
  Forall2 (fun e o => exists x, o = Some x /\ id x = e.1)
    (aOuter a) (drain (length (aOuter a)) q).
Proof.
  apply (drain_spec sz (aOuter a) [] q (aInner a)); [|exact Hinner|exact Hbusy].
  rewrite app_nil_r. now destruct a.
Qed.

End Spec.

(** ** Instance with the ring buffer *)

#[local] Existing Instance LockFreeQueue.lfq_ops.
#[local] Existing Instance LockFreeQueue.lfq_laws.
Abbreviation LQ := (LockFreeQueue.LockFreeQueue (ConnQueueItem Z)).

Definition yes (_ : Z) : bool := true.

Definition emptyQueue : ConnFairPriorityQueue LQ :=
  mkFPQ 4 [] (mkPQ 0 [None; None; None] 4).

Definition item (i prio body : Z) : ConnQueueItem Z := ConnQueueItemConstruct i prio body.

Definition sampleOps : list (qop (P := Z)) :=
  [OpEnqueue yes true (item 7 1 100); OpEnqueue yes true (item 9 1 200);
   OpEnqueue yes true (item 7 1 101); OpEnqueue yes true (item 7 0 102); OpDequeue].

Lemma sampleOps_valid : Forall validOp sampleOps.
Proof. repeat constructor; simpl; lia. Qed.

Lemma flows_are_fifo_witness : exists q a acc out,
  run emptyQueue sampleOps = Some (q, acc, out) /\ fpqR 4 q a /\
  forall i p, filter (inFlow i p) acc = filter (inFlow i p) out ++ flow a i p.
Proof. apply (flows_are_fifo yes yes 4 emptyQueue sampleOps); [reflexivity|apply sampleOps_valid]. Defined.

(** The queue after [sampleOps]: sender 9 is next. *)
Lemma sample_state : exists q, fpqR 4 q
  (mkAbs [[]; []; []] [(9, [[]; [item 9 1 200]; []]); (7, [[]; [item 7 1 100; item 7 1 101]; []])]).
Proof.
  pose proof (ConnCreateQueue_spec (Q := LQ) yes yes 0 0 0 4 emptyQueue eq_refl) as H0.
  assert (H : forall i bs, exists pq : PriorityQueue LQ,
     pqR 4 pq i [[]; (fun b => item i 1 b) <$> bs; []] \/ (3 < length bs)%nat).
  { intros i bs. induction bs as [|b bs IH] using rev_ind.
    - exists (mkPQ i [None; None; None] 4). left.
      apply (CreatePriorityQueue_spec yes i 4). reflexivity.
    - destruct IH as [pq [HR|Hl]]; [|exists pq; right; rewrite length_app; simpl; lia].
      destruct (Enqueue_spec 4 pq i _ HR true (item i 1 b) 1 _ eq_refl eq_refl ltac:(lia) eq_refl)
        as (code & pq' & _ & [(_ & _ & HR')|[(_ & Hfull & _)|(_ & _ & _ & Hc)]]).
      + exists pq'. left. rewrite fmap_app. exact HR'.
      + exists pq. right. rewrite length_fmap in Hfull. rewrite length_app. simpl. lia.
      + exfalso. vm_compute in Hc. discriminate. }
  destruct (H 9 [200]) as [p1 [H1|]]; [|simpl in *; lia].
  destruct (H 7 [100; 101]) as [p2 [H2|]]; [|simpl in *; lia].
  exists (mkFPQ 4 [p1; p2] (innerQueue emptyQueue)). split; simpl; [reflexivity|apply H0| |].
  - constructor; [exact H1|]. constructor; [exact H2|constructor].
  - apply (bool_decide_unpack (NoDup [0; 9; 7])). reflexivity.
Qed.

Lemma ConnDequeue_priority_witness : exists (q : ConnFairPriorityQueue LQ) x q' a',
  ConnDequeue (mkEnv 0 yes true (0, (0, 0)) (fun _ q => (0, q))) (Some q) true 100
    = Some (SOFTBUS_OK, Some x, Some q') /\
  fpqR 4 q' a' /\
  pops (Some x) (flow (mkAbs [[]; []; []] [(9, [[]; [item 9 1 200]; []]);
                        (7, [[]; [item 7 1 100; item 7 1 101]; []])])) (flow a').
Proof.
  destruct sample_state as [q HR]. exists q.
  destruct (ConnDequeue_priority (mkEnv 0 yes true (0, (0, 0)) (fun _ q => (0, q)))
    4 100 q _ 7 1 HR eq_refl) as (x & q' & a' & H1 & H2 & H3 & _); [discriminate|].
  exists x, q', a'. auto.
Defined.

Lemma senders_served_in_turn_witness : exists q : ConnFairPriorityQueue LQ,
  Forall2 (fun e o => exists x, o = Some x /\ id x = e.1)
    [(9, [[]; [item 9 1 200]; []]); (7, [[]; [item 7 1 100; item 7 1 101]; []])] (drain 2 q).
Proof.
  destruct sample_state as [q HR]. exists q.
  apply (senders_served_in_turn 4 q _ HR); [reflexivity|].
  repeat constructor; unfold busy; simpl; discriminate.
Defined.

End FairQueue.
