(* ===== verification/SendQueue.v ===== *)
(** * BR and BLE send queues

    Model of core/connection/br/src/softbus_conn_br_send_queue.c and
    core/connection/ble/src/softbus_conn_ble_send_queue.c, with the queue helpers
    of core/connection/common/src/softbus_conn_common.c.  The two files differ in
    a few expressions, which depend here on [transport].  Queues live at
    addresses, because a producer that waits for room keeps the pointer of its
    ring while the lock is released.  A call is cut into the parts that run under
    the lock; [sysStep] interleaves the parts of all threads. *)

From S2P Require Import Prelude ErrorCode Fifo LockFreeQueue.
From stdpp Require Import list gmap.
#[local] Open Scope Z_scope.

Module SendQueue.

Definition CONN_MIDDLE : Z := 2.
Definition CONN_HIGH : Z := 3.
Definition HIGH_PRIORITY : Z := 0.
Definition MIDDLE_PRIORITY : Z := 1.
Definition LOW_PRIORITY : Z := 2.
Definition QUEUE_NUM_PER_PID : Z := 3.
Definition WAIT_QUEUE_BUFFER_PERIOD_LEN : Z := 2.
Definition WAIT_QUEUE_DELAY : Z := 1000.
Definition MICROSECONDS : Z := 1000000.
Definition USECTONSEC : Z := 1000.
Definition QUEUE_LIMIT : list Z := [32; 32; 32].
Definition SOFTBUS_CONN_BR_INTERNAL_ERR : Z := SOFTBUS_CONN_ERR_BASE + 16.
Definition SOFTBUS_CONN_BLE_INTERNAL_ERR : Z := SOFTBUS_CONN_ERR_BASE + 26.
Definition SOFTBUS_CONN_COND_WAIT_FAIL : Z := SOFTBUS_CONN_ERR_BASE + 96.
Definition SOFTBUS_CONN_GET_TIME_FAIL : Z := SOFTBUS_CONN_ERR_BASE + 99.
Definition SOFTBUS_CONN_GET_MSG_FAIL : Z := SOFTBUS_CONN_ERR_BASE + 100.
Definition SOFTBUS_CONN_BR_CREATE_QUEUE_FAIL : Z := SOFTBUS_CONN_ERR_BASE + 111.

Inductive transport := BR | BLE.

(** The fields of [SendBrQueueNode] and [SendQueueNode] the queue reads, and the
    rest of the node. *)
Record SendQueueNode (P : Type) := mkNode {
  pid : Z;
  flag : Z;
  isInner : bool;
  body : P
}.
Arguments mkNode {P}.
Arguments pid {P}.
Arguments flag {P}.
Arguments isInner {P}.
Arguments body {P}.

Definition GetPriority (flg : Z) : Z :=
  if flg =? CONN_HIGH then HIGH_PRIORITY
  else if flg =? CONN_MIDDLE then MIDDLE_PRIORITY
  else LOW_PRIORITY.

Definition GetQueueLimit (index : Z) : Z :=
  if (QUEUE_NUM_PER_PID <=? index) || (index <? 0) then u32 SOFTBUS_INVALID_PARAM
  else default 0 (QUEUE_LIMIT !! Z.to_nat index).

(** The deadline of the wait: [inl] the error when the clock cannot be read,
    [inr None] to wait for ever. *)
Definition ConnectSoftBusCondWait (getTime : Z * (Z * Z)) (timeMillis : Z)
  : Z + option (Z * Z) :=
  if timeMillis =? 0 then inr None
  else
    let '(ret, (sec, usec)) := getTime in
    if negb (ret =? SOFTBUS_OK) then inl SOFTBUS_CONN_GET_TIME_FAIL
    else
      let us := s64 (usec + s32 timeMillis * USECTONSEC) in
      inr (Some (s64 (sec + Z.quot us MICROSECONDS), Z.rem us MICROSECONDS)).

(** The answers of a wait that end [WaitQueueLength] with an error. *)
Definition waitFailed (ret : Z) : bool :=
  negb (ret =? SOFTBUS_OK) && negb (ret =? SOFTBUS_TIMOUT).

Section Model.
Context {P Q : Type} `{!FifoOps Q (SendQueueNode P)}.
Abbreviation Msg := (SendQueueNode P).

Record ConnectionQueue := mkCQ { cpid : Z; queue : list Q }.

(** The loop of [WaitQueueLength] goes on as long as this is [false]. *)
Definition queueHasRoom (q : Q) (maxLen diffLen : Z) : bool :=
  let '(r, count) := fifo_count q in
  if negb (r =? 0) then true else default 0 count <? u32 (maxLen - diffLen).

(** [n] rounds from index [i]; the result code, the message, [*isFull]. *)
Fixpoint GetMsgLoop (n i : nat) (qs : list Q) (isFull : bool)
  : Z * option Msg * bool * list Q :=
  match n with
  | O => (SOFTBUS_CONN_GET_MSG_FAIL, None, isFull, qs)
  | S n' =>
    match qs !! i with
    | None => (SOFTBUS_CONN_GET_MSG_FAIL, None, isFull, qs)
    | Some q =>
      let '(r, count) := fifo_count q in
      if negb (r =? 0) then GetMsgLoop n' (S i) qs isFull
      else
        let full := default 0 (QUEUE_LIMIT !! i) - WAIT_QUEUE_BUFFER_PERIOD_LEN <=?
                    s32 (default 0 count) in
        let '(ret, out, q') := fifo_deq q in
        let qs' := <[i := q']> qs in
        if negb (ret =? 0) then GetMsgLoop n' (S i) qs' full
        else (SOFTBUS_OK, out, full, qs')
    end
  end.

Definition GetMsg (c : ConnectionQueue) (isFull : bool) (leastPriority : Z)
  : Z * option Msg * bool * ConnectionQueue :=
  let '(ret, out, full, qs) := GetMsgLoop (Z.to_nat (leastPriority + 1)) 0 (queue c) isFull in
  (ret, out, full, mkCQ (cpid c) qs).

(** [alloc 0] answers for the block, [alloc (i + 1)] for ring [i]; what was
    created is freed again when a later one fails. *)
Fixpoint createRings (alloc : nat -> bool) (n i : nat) : option (list Q) :=
  match n with
  | O => Some []
  | S n' =>
    match fifo_create (alloc (S i)) (GetQueueLimit (Z.of_nat i)) with
    | None => None
    | Some q => cons q <$> createRings alloc n' (S i)
    end
  end.

Definition CreateBrQueue (alloc : nat -> bool) (p : Z) : option ConnectionQueue :=
  if negb (alloc 0%nat) then None
  else mkCQ p <$> createRings alloc (Z.to_nat QUEUE_NUM_PER_PID) 0.

(** [mem] holds the live queues; [asleep]: the sending thread waits on
    [g_sendCond] and has not been woken. *)
Record State := mkState {
  mem : gmap nat ConnectionQueue;
  brk : nat;
  g_queueList : list nat;
  g_innerQueue : option nat;
  asleep : bool
}.

Definition DestroyBrQueue (a : nat) (m : gmap nat ConnectionQueue) : gmap nat ConnectionQueue :=
  delete a m.

(** A producer inside [WaitQueueLength]: its message, the queue whose ring it
    points into, whether that is the inner queue, and its [isListEmpty]. *)
Record Waiter := mkWaiter {
  wmsg : Msg;
  wq : nat;
  winner : bool;
  wempty : bool
}.

(** [BadAccess]: a queue that has been freed or never existed is used.  [Hangs]:
    the enqueue into the ring does not return. *)
Inductive outcome :=
| Returned (code : Z)
| Waits (w : Waiter) (deadline : option (Z * Z))
| BadAccess
| Hangs.

Definition wake (st : State) : State :=
  mkState (mem st) (brk st) (g_queueList st) (g_innerQueue st) false.

Definition setMem (st : State) (m : gmap nat ConnectionQueue) : State :=
  mkState m (brk st) (g_queueList st) (g_innerQueue st) (asleep st).

(** The label END. *)
Definition finish (isListEmpty : bool) (code : Z) (st : State) : outcome * State :=
  (Returned code, if isListEmpty then wake st else st).

Definition ringAt (st : State) (a : nat) (prio : Z) : option Q :=
  mem st !! a ≫= fun c => queue c !! Z.to_nat prio.

Definition setRing (st : State) (a : nat) (prio : Z) (q : Q) : State :=
  match mem st !! a with
  | None => st
  | Some c => setMem st (<[a := mkCQ (cpid c) (<[Z.to_nat prio := q]> (queue c))]> (mem st))
  end.

Definition internalErr (t : transport) : Z :=
  match t with BR => SOFTBUS_CONN_BR_INTERNAL_ERR | BLE => SOFTBUS_CONN_BLE_INTERNAL_ERR end.

(** [QueueMultiProducerEnqueue] and what follows; [ret] is the variable's value
    before it.  For a user queue the BR code keeps that value when the enqueue
    fails. *)
Definition putMsg (t : transport) (inner isListEmpty : bool) (ret : Z) (st : State) (a : nat)
    (msg : Msg) : outcome * State :=
  let prio := GetPriority (flag msg) in
  match ringAt st a prio with
  | None => (BadAccess, st)
  | Some q =>
    match fifo_enq q msg with
    | None => (Hangs, st)
    | Some (code, q') =>
      let ret' :=
        match t with
        | BR => if inner then code else if negb (code =? 0) then ret else SOFTBUS_OK
        | BLE => code
        end in
      finish isListEmpty ret' (setRing st a prio q')
    end
  end.

(** One round of [WaitQueueLength], and the code after it once there is room. *)
Definition waitThenPut (t : transport) (getTime : Z * (Z * Z)) (inner isListEmpty : bool)
    (st : State) (a : nat) (msg : Msg) : outcome * State :=
  let prio := GetPriority (flag msg) in
  match ringAt st a prio with
  | None => (BadAccess, st)
  | Some q =>
    if queueHasRoom q (GetQueueLimit prio) WAIT_QUEUE_BUFFER_PERIOD_LEN then
      putMsg t inner isListEmpty SOFTBUS_OK st a msg
    else
      match ConnectSoftBusCondWait getTime WAIT_QUEUE_DELAY with
      | inl _ => finish isListEmpty SOFTBUS_CONN_COND_WAIT_FAIL st
      | inr deadline => (Waits (mkWaiter msg a inner isListEmpty) deadline, st)
      end
  end.

(** [item->pid == queueNode->pid] along the list; [None] on a freed node. *)
Fixpoint findQueue (m : gmap nat ConnectionQueue) (l : list nat) (p : Z) : option (option nat) :=
  match l with
  | [] => Some None
  | a :: l' =>
    match m !! a with
    | None => None
    | Some c => if cpid c =? p then Some (Some a) else findQueue m l' p
    end
  end.

Definition toInner (t : transport) (msg : Msg) : bool :=
  match t with
  | BR => (pid msg =? 0) && isInner msg
  | BLE => pid msg =? 0
  end.

Definition ListTailInsert (st : State) (c : ConnectionQueue) : State :=
  mkState (<[brk st := c]> (mem st)) (S (brk st)) (g_queueList st ++ [brk st])
    (g_innerQueue st) (asleep st).

(** The call up to its return or its first wait. *)
Definition EnqueueNonBlock (t : transport) (lock : Z) (alloc : nat -> bool)
    (getTime : Z * (Z * Z)) (msg : option Msg) (st : State) : outcome * State :=
  match msg with
  | None => (Returned SOFTBUS_INVALID_PARAM, st)
  | Some m =>
    if negb (lock =? SOFTBUS_OK) then (Returned SOFTBUS_LOCK_ERR, st)
    else if toInner t m then
      match g_innerQueue st with
      | None => (BadAccess, st)
      | Some a => waitThenPut t getTime true true st a m
      end
    else
      let isListEmpty := bool_decide (g_queueList st = []) in
      match findQueue (mem st) (g_queueList st) (pid m) with
      | None => (BadAccess, st)
      | Some (Some a) => waitThenPut t getTime false isListEmpty st a m
      | Some None =>
        match CreateBrQueue alloc (pid m) with
        | None => finish isListEmpty (internalErr t) st
        | Some c =>
          putMsg t false isListEmpty (internalErr t) (ListTailInsert st c) (brk st) m
        end
      end
  end.

(** The rest of the call, when the wait has answered [ret]. *)
Definition EnqueueResume (t : transport) (getTime : Z * (Z * Z)) (ret : Z) (w : Waiter)
    (st : State) : outcome * State :=
  if waitFailed ret then finish (wempty w) SOFTBUS_CONN_COND_WAIT_FAIL st
  else waitThenPut t getTime (winner w) (wempty w) st (wq w) (wmsg w).

Definition ConnBrEnqueueNonBlock := EnqueueNonBlock BR.
Definition ConnBleEnqueueNonBlock := EnqueueNonBlock BLE.

(** The traversal of [ConnBrDequeueBlock]: each queue is taken off the list, and
    destroyed if it has nothing to send; [None] on a freed node. *)
Fixpoint dequeueUsers (m : gmap nat ConnectionQueue) (l : list nat) (isFull : bool)
  : option (option (option Msg) * bool * gmap nat ConnectionQueue * list nat) :=
  match l with
  | [] => Some (None, isFull, m, [])
  | a :: l' =>
    match m !! a with
    | None => None
    | Some c =>
      let '(ret, out, full, c') := GetMsg c isFull LOW_PRIORITY in
      if ret =? SOFTBUS_OK then Some (Some out, full, <[a := c']> m, l' ++ [a])
      else dequeueUsers (DestroyBrQueue a m) l' full
    end
  end.

(** [DReturned code msg broadcast]: the call ends, [broadcast] tells whether the
    waiting producers are woken; [DWaits isFull]: it sleeps on [g_sendCond]. *)
Inductive doutcome :=
| DReturned (code : Z) (msg : option Msg) (broadcast : bool)
| DWaits (isFull : bool)
| DBadAccess.

Definition setInner (st : State) (a : nat) (c : ConnectionQueue) : State :=
  setMem st (<[a := c]> (mem st)).

(** One round of the loop. *)
Definition dequeueRound (isFull : bool) (st : State) : doutcome * State :=
  match g_innerQueue st with
  | None => (DBadAccess, st)
  | Some ia =>
    match mem st !! ia with
    | None => (DBadAccess, st)
    | Some ic =>
      let '(r1, o1, f1, ic1) := GetMsg ic isFull MIDDLE_PRIORITY in
      let st1 := setInner st ia ic1 in
      if r1 =? SOFTBUS_OK then (DReturned SOFTBUS_OK o1 f1, st1)
      else
        match dequeueUsers (mem st1) (g_queueList st1) f1 with
        | None => (DBadAccess, st1)
        | Some (res, f2, m2, l2) =>
          let st2 := mkState m2 (brk st1) l2 (g_innerQueue st1) (asleep st1) in
          match res with
          | Some o2 => (DReturned SOFTBUS_OK o2 f2, st2)
          | None =>
            match m2 !! ia with
            | None => (DBadAccess, st2)
            | Some ic2 =>
              let '(r3, o3, f3, ic3) := GetMsg ic2 f2 LOW_PRIORITY in
              let st3 := setInner st2 ia ic3 in
              if r3 =? SOFTBUS_OK then (DReturned SOFTBUS_OK o3 f3, st3)
              else (DWaits f3, mkState (mem st3) (brk st3) (g_queueList st3) (g_innerQueue st3) true)
            end
          end
        end
    end
  end.

(** The call up to its return or its first wait. *)
Definition DequeueBlock (getTime : Z) (msgPtr : bool) (lock : Z) (st : State) : doutcome * State :=
  if negb (getTime =? SOFTBUS_OK) then (DReturned SOFTBUS_INVALID_PARAM None false, st)
  else if negb msgPtr then (DReturned SOFTBUS_INVALID_PARAM None false, st)
  else if negb (lock =? SOFTBUS_OK) then (DReturned SOFTBUS_LOCK_ERR None false, st)
  else dequeueRound false st.

(** The rest of the call, when the wait has answered [ret]. *)
Definition DequeueResume (ret : Z) (isFull : bool) (st : State) : doutcome * State :=
  let st' := wake st in
  if negb (ret =? SOFTBUS_OK) then
    if ret =? SOFTBUS_TIMOUT then (DReturned SOFTBUS_TIMOUT None isFull, st')
    else (DReturned SOFTBUS_CONN_COND_WAIT_FAIL None isFull, st')
  else dequeueRound isFull st'.

Definition ConnBrDequeueBlock := DequeueBlock.
Definition ConnBleDequeueBlock := DequeueBlock.

Definition initError (t : transport) (br : Z) : Z :=
  match t with BR => br | BLE => SOFTBUS_NO_INIT end.

(** The results of the initialisation of the lock and the two conditions. *)
Definition InnerQueueInit (t : transport) (lockInit cond1 cond2 : Z) (alloc : nat -> bool)
    (st : State) : Z * State :=
  if negb (lockInit =? SOFTBUS_OK) then (initError t SOFTBUS_LOCK_ERR, st)
  else if negb (cond1 =? SOFTBUS_OK) then (initError t SOFTBUS_NO_INIT, st)
  else if negb (cond2 =? SOFTBUS_OK) then (initError t SOFTBUS_NO_INIT, st)
  else
    match CreateBrQueue alloc 0 with
    | None => (initError t SOFTBUS_CONN_BR_CREATE_QUEUE_FAIL,
               mkState (mem st) (brk st) (g_queueList st) None (asleep st))
    | Some c => (SOFTBUS_OK,
        mkState (<[brk st := c]> (mem st)) (S (brk st)) (g_queueList st) (Some (brk st)) (asleep st))
    end.

Definition ConnBrInnerQueueInit := InnerQueueInit BR.
Definition ConnBleInitSendQueue := InnerQueueInit BLE.

Definition InnerQueueDeinit (st : State) : State :=
  mkState (match g_innerQueue st with None => mem st | Some a => DestroyBrQueue a (mem st) end)
    (brk st) (g_queueList st) None (asleep st).

Definition ConnBrInnerQueueDeinit := InnerQueueDeinit.
Definition ConnBleDeinitSendQueue := InnerQueueDeinit.

(** The static initialisation. *)
Definition zeroState : State := mkState ∅ 0 [] None false.

(** ** Interleavings

    Any number of producers and one sending thread.  [consumer] is the [isFull]
    of the sending thread while it is inside a wait. *)

Record Sys := mkSys {
  st : State;
  waiters : list Waiter;
  consumer : option bool;
  accepted : list Msg;
  delivered : list Msg
}.

Inductive event :=
| EEnqueue (lock : Z) (alloc : nat -> bool) (getTime : Z * (Z * Z)) (msg : option Msg)
| EResume (n : nat) (ret : Z) (getTime : Z * (Z * Z))
| EDequeue (getTime : Z) (msgPtr : bool) (lock : Z)
| EDequeueResume (ret : Z).

(** [m] is accepted when its call returns SOFTBUS_OK.  [None]: memory is used
    after it was freed, or a call hangs. *)
Definition afterEnqueue (s : Sys) (ws : list Waiter) (m : option Msg) (r : outcome * State)
  : option Sys :=
  match r with
  | (Returned code, st') =>
    Some (mkSys st' ws (consumer s)
            (accepted s ++ (if code =? SOFTBUS_OK then option_list m else [])) (delivered s))
  | (Waits w _, st') => Some (mkSys st' (ws ++ [w]) (consumer s) (accepted s) (delivered s))
  | _ => None
  end.

Definition afterDequeue (s : Sys) (r : doutcome * State) : option Sys :=
  match r with
  | (DReturned _ m _, st') =>
    Some (mkSys st' (waiters s) None (accepted s) (delivered s ++ option_list m))
  | (DWaits isFull, st') =>
    Some (mkSys st' (waiters s) (Some isFull) (accepted s) (delivered s))
  | _ => None
  end.

(** An event that cannot happen changes nothing. *)
Definition sysStep (t : transport) (s : Sys) (e : event) : option Sys :=
  match e with
  | EEnqueue lock alloc gt m =>
    afterEnqueue s (waiters s) m (EnqueueNonBlock t lock alloc gt m (st s))
  | EResume n ret gt =>
    match waiters s !! n with
    | None => Some s
    | Some w => afterEnqueue s (delete n (waiters s)) (Some (wmsg w)) (EnqueueResume t gt ret w (st s))
    end
  | EDequeue gt p lock =>
    match consumer s with
    | Some _ => Some s
    | None => afterDequeue s (DequeueBlock gt p lock (st s))
    end
  | EDequeueResume ret =>
    match consumer s with
    | None => Some s
    | Some isFull => afterDequeue s (DequeueResume ret isFull (st s))
    end
  end.

Fixpoint runSys (t : transport) (s : Sys) (l : list event) : option Sys :=
  match l with
  | [] => Some s
  | e :: l' => match sysStep t s e with None => None | Some s' => runSys t s' l' end
  end.

(** What a ring holds, by emptying a copy of it. *)
Fixpoint drain (n : nat) (q : Q) : list Msg :=
  match n with
  | O => []
  | S n' => match fifo_deq q with (_, Some x, q') => x :: drain n' q' | _ => [] end
  end.

(** A flow: the inner queue or a user's, and the priority. *)
Definition flowOf (t : transport) (m : Msg) : option Z * Z :=
  (if toInner t m then None else Some (pid m), GetPriority (flag m)).

Definition queueOf (st : State) (who : option Z) : option nat :=
  match who with
  | None => g_innerQueue st
  | Some p => mjoin (findQueue (mem st) (g_queueList st) p)
  end.

Definition queued (st : State) (f : option Z * Z) : list Msg :=
  match queueOf st f.1 ≫= fun a => ringAt st a f.2 with
  | None => []
  | Some q => drain 32 q
  end.

End Model.

Arguments ConnectionQueue Q : clear implicits.
Arguments State Q : clear implicits.
Arguments Waiter P : clear implicits.
Arguments Sys P Q : clear implicits.
Arguments event P : clear implicits.

(** ** Rings *)

Section Proofs.
Context {P Q : Type} `{!FifoOps Q (SendQueueNode P), !FifoLaws Q (SendQueueNode P)}.
Abbreviation Msg := (SendQueueNode P).
Implicit Types (q : Q) (c : ConnectionQueue Q) (st : State Q) (m : Msg).

Definition ringOK q : Prop := fifo_repr 31 q (drain 32 q).
Definition ringsOK (qs : list Q) : Prop := length qs = 3%nat /\ Forall ringOK qs.
Definition ringsEmpty (qs : list Q) : Prop := Forall (fun q => drain 32 q = []) qs.

Lemma drain_repr cap q xs : fifo_repr cap q xs ->
  forall n, (length xs <= n)%nat -> drain n q = xs.
Proof.
  revert q. induction xs as [|x xs IH]; intros q Hr n Hn; (destruct n as [|n]; [reflexivity||(simpl in Hn; lia)|]);
    cbn [drain].
  - now rewrite (fifo_deq_nil _ _ Hr).
  - destruct (fifo_deq_cons _ _ _ _ Hr) as (q' & -> & Hr'). f_equal. apply IH; [exact Hr'|].
    simpl in Hn. lia.
Qed.

Lemma ringOK_repr q xs : fifo_repr 31 q xs -> ringOK q /\ drain 32 q = xs.
Proof.
  intros Hr. pose proof (fifo_bounded _ _ _ Hr). unfold ringOK.
  rewrite (drain_repr 31 q xs Hr 32) by lia. auto.
Qed.

Lemma ringOK_enq q m : ringOK q -> Z.of_nat (length (drain 32 q)) < 31 ->
  exists q', fifo_enq q m = Some (0, q') /\ ringOK q' /\ drain 32 q' = drain 32 q ++ [m].
Proof.
  intros Hr Hl. destruct (fifo_enq_room 31 q _ m Hr Hl) as (q' & He & Hr').
  exists q'. split; [exact He|]. now apply ringOK_repr.
Qed.

Lemma ringOK_deq q : ringOK q ->
  match drain 32 q with
  | [] => fifo_deq q = (QUEUE_EMPTY, None, q)
  | x :: xs => exists q', fifo_deq q = (0, Some x, q') /\ ringOK q' /\ drain 32 q' = xs
  end.
Proof.
  unfold ringOK at 1. destruct (drain 32 q) as [|x xs] eqn:E; intros Hr.
  - now apply (fifo_deq_nil 31).
  - destruct (fifo_deq_cons _ _ _ _ Hr) as (q' & Hd & Hr'). exists q'.
    split; [exact Hd|]. now apply ringOK_repr.
Qed.

Lemma ringOK_count q : ringOK q -> fifo_count q = (0, Some (Z.of_nat (length (drain 32 q)))).
Proof. apply fifo_count_ok. Qed.

Lemma ringOK_length q : ringOK q -> Z.of_nat (length (drain 32 q)) <= 31.
Proof. apply fifo_bounded. Qed.

Lemma GetPriority_range flg : 0 <= GetPriority flg < 3.
Proof. unfold GetPriority, HIGH_PRIORITY, MIDDLE_PRIORITY, LOW_PRIORITY. repeat zcase; lia. Qed.

Lemma queueHasRoom_iff q flg : ringOK q ->
  queueHasRoom q (GetQueueLimit (GetPriority flg)) WAIT_QUEUE_BUFFER_PERIOD_LEN =
  (Z.of_nat (length (drain 32 q)) <? 30).
Proof.
  intros Hr. unfold queueHasRoom. rewrite (ringOK_count q Hr). cbn [negb Z.eqb default].
  f_equal. unfold GetPriority. now destruct (flg =? CONN_HIGH), (flg =? CONN_MIDDLE).
Qed.

(** [GetMsg] finds the first non-empty ring or changes nothing. *)
Lemma GetMsgLoop_spec n : forall i qs full, ringsOK qs -> (i + n <= 3)%nat ->
  exists full',
  (GetMsgLoop n i qs full = (SOFTBUS_CONN_GET_MSG_FAIL, None, full', qs) /\
   forall p q, (i <= p < i + n)%nat -> qs !! p = Some q -> drain 32 q = []) \/
  (exists p q x q', (i <= p < i + n)%nat /\ qs !! p = Some q /\ drain 32 q = x :: drain 32 q' /\
   ringOK q' /\ GetMsgLoop n i qs full = (SOFTBUS_OK, Some x, full', <[p := q']> qs) /\
   forall p' r, (i <= p' < p)%nat -> qs !! p' = Some r -> drain 32 r = []).
Proof.
  induction n as [|n IH]; intros i qs full [Hlen Hok] Hi; cbn [GetMsgLoop].
  - exists full. left. split; [reflexivity|]. intros; lia.
  - destruct (lookup_lt_is_Some_2 qs i) as [q Hq]; [lia|]. rewrite Hq.
    assert (Hr : ringOK q) by (eapply Forall_lookup_1; eauto).
    rewrite (ringOK_count q Hr). cbn [Z.eqb negb].
    set (f1 := _ <=? _). pose proof (ringOK_deq q Hr) as Hd.
    destruct (drain 32 q) as [|x xs] eqn:Ed.
    + rewrite Hd. cbn [Z.eqb negb QUEUE_EMPTY]. rewrite (list_insert_id qs i q Hq).
      destruct (IH (S i) qs f1 (conj Hlen Hok) ltac:(lia)) as (full' & [[-> He]|H]); exists full'.
      * left. split; [reflexivity|]. intros p r Hp Hl.
        destruct (decide (p = i)) as [->|]; [congruence|]. apply (He p); [lia|exact Hl].
      * right. destruct H as (p & q1 & x1 & q1' & Hp & Hl & Hx & Hr1 & -> & Hb).
        exists p, q1, x1, q1'. split_and!; auto; [lia|lia|]. intros p' r Hp' Hl'.
        destruct (decide (p' = i)) as [->|]; [congruence|]. apply (Hb p'); [lia|exact Hl'].
    + destruct Hd as (q' & -> & Hr' & Hx). cbn [Z.eqb negb]. exists f1. right.
      exists i, q, x, q'. rewrite Hx. split_and!; auto; [lia|]. intros; lia.
Qed.

Lemma ringsOK_insert qs p q' : ringsOK qs -> ringOK q' -> ringsOK (<[p := q']> qs).
Proof. intros [H1 H2] H. split; [now rewrite length_insert|]. now apply Forall_insert. Qed.

Lemma createRings_ok alloc n : forall i qs, createRings alloc n i = Some qs -> (i + n <= 3)%nat ->
  length qs = n /\ Forall ringOK qs /\ ringsEmpty qs.
Proof.
  induction n as [|n IH]; intros i qs H Hi; cbn [createRings] in H.
  - injection H as <-. split_and!; [reflexivity|constructor|constructor].
  - destruct (fifo_create _ _) as [q|] eqn:Ec; [|discriminate].
    destruct (createRings alloc n (S i)) as [qs'|] eqn:Er; [|discriminate].
    cbn in H. injection H as <-. destruct (IH (S i) qs' Er ltac:(lia)) as (H1 & H2 & H3).
    assert (Hq : GetQueueLimit (Z.of_nat i) = 32)
      by (destruct i as [|[|[|]]]; [reflexivity..|lia]).
    rewrite Hq in Ec. apply fifo_created, ringOK_repr in Ec as [Ho Hd].
    split_and!; [simpl; lia|now constructor|now constructor].
Qed.

Lemma CreateBrQueue_ok alloc p c : CreateBrQueue alloc p = Some c ->
  cpid c = p /\ ringsOK (queue c) /\ ringsEmpty (queue c).
Proof.
  unfold CreateBrQueue. destruct (alloc 0%nat); [|discriminate]. cbn [negb].
  destruct (createRings _ _ _) as [qs|] eqn:E; [|discriminate]. intros [= <-]. cbn.
  apply createRings_ok in E as (H1 & H2 & H3); [|unfold QUEUE_NUM_PER_PID; lia]. unfold ringsOK. auto.
Qed.

(** ** The queues of a state *)

Record sinv st (ia : nat) : Prop := {
  i_inner : g_innerQueue st = Some ia;
  i_fresh : ia ∉ g_queueList st;
  i_dom a : is_Some (mem st !! a) <-> a = ia \/ a ∈ g_queueList st;
  i_nodup : NoDup (g_queueList st);
  i_brk a : is_Some (mem st !! a) -> (a < brk st)%nat;
  i_rings a c : mem st !! a = Some c -> ringsOK (queue c);
  i_pids a b c d : a ∈ g_queueList st -> b ∈ g_queueList st ->
    mem st !! a = Some c -> mem st !! b = Some d -> cpid c = cpid d -> a = b
}.

(** Who the queue at [a] belongs to. *)
Definition ownerOf (ia a : nat) (c : ConnectionQueue Q) : option Z :=
  if decide (a = ia) then None else Some (cpid c).

Lemma findQueue_spec (mm : gmap nat (ConnectionQueue Q)) l p :
  (forall a, a ∈ l -> is_Some (mm !! a)) ->
  exists r, findQueue mm l p = Some r /\
    match r with
    | Some a => a ∈ l /\ exists c, mm !! a = Some c /\ cpid c = p
    | None => forall a c, a ∈ l -> mm !! a = Some c -> cpid c <> p
    end.
Proof.
  induction l as [|a l IH]; intros Hl; cbn [findQueue].
  - exists None. split; [reflexivity|]. intros a c Ha. now apply not_elem_of_nil in Ha.
  - destruct (Hl a) as [c Hc]; [left|]. rewrite Hc. destruct (Z.eqb_spec (cpid c) p) as [Hp|Hp].
    + exists (Some a). split; [reflexivity|]. split; [left|eauto].
    + destruct IH as (r & -> & Hr); [intros b Hb; apply Hl; now right|]. exists r.
      split; [reflexivity|]. destruct r as [b|].
      * destruct Hr as [Hb He]. split; [now right|exact He].
      * intros b d Hb Hd. apply elem_of_cons in Hb as [->|Hb]; [congruence|eauto].
Qed.

Lemma queueOf_iff st ia w a : sinv st ia ->
  queueOf st w = Some a <-> exists c, mem st !! a = Some c /\ ownerOf ia a c = w.
Proof.
  intros [Hi Hf Hd Hn Hb Hr Hp]. unfold ownerOf. destruct w as [p|]; cbn [queueOf].
  - destruct (findQueue_spec (mem st) (g_queueList st) p) as (r & -> & H).
    { intros b Hb'. apply Hd. now right. }
    cbn [mjoin option_join]. split.
    + intros [= ->]. destruct H as (Ha & c & Hc & <-). exists c. split; [exact Hc|].
      rewrite decide_False by congruence. reflexivity.
    + intros (c & Hc & Ho). case_decide as Hd'; [discriminate|]. injection Ho as <-.
      assert (Ha : a ∈ g_queueList st) by (destruct (proj1 (Hd a)); eauto; congruence).
      destruct r as [b|]; [|now destruct (H a c Ha Hc)].
      destruct H as (Hbl & d & Hd2 & He). f_equal. eauto.
  - rewrite Hi. split.
    + intros [= <-]. destruct (proj2 (Hd ia) (or_introl eq_refl)) as [c Hc]. exists c.
      split; [exact Hc|]. now rewrite decide_True.
    + intros (c & Hc & Ho). case_decide; [congruence|discriminate].
Qed.

(** Two states with the same live queues and owners have the same flows. *)
Lemma queueOf_same st st' ia ia' : sinv st ia -> sinv st' ia' ->
  (forall a w, (exists c, mem st !! a = Some c /\ ownerOf ia a c = w) <->
               (exists c, mem st' !! a = Some c /\ ownerOf ia' a c = w)) ->
  forall w, queueOf st w = queueOf st' w.
Proof.
  intros H1 H2 H w. apply option_eq. intros a.
  now rewrite (queueOf_iff _ _ _ _ H1), (queueOf_iff _ _ _ _ H2).
Qed.

Lemma queued_iff st st' f :
  queueOf st f.1 = queueOf st' f.1 ->
  (forall a, queueOf st f.1 = Some a -> mem st !! a = mem st' !! a) ->
  queued st f = queued st' f.
Proof.
  unfold queued. intros <- H. destruct (queueOf st f.1) as [a|]; [|reflexivity].
  unfold ringAt. cbn. now rewrite (H a eq_refl).
Qed.

(** New contents for the queue at [a]. *)
Lemma sinv_update st ia a c qs : sinv st ia -> mem st !! a = Some c -> ringsOK qs ->
  let st' := setMem st (<[a := mkCQ (cpid c) qs]> (mem st)) in
  sinv st' ia /\ forall w, queueOf st' w = queueOf st w.
Proof.
  intros Hs Hc Hqs st'. pose proof Hs as [Hi Hf Hd Hn Hb Hr Hp].
  assert (Hdom : forall b, is_Some (mem st' !! b) <-> is_Some (mem st !! b)).
  { intros b. subst st'. cbn. destruct (decide (a = b)) as [<-|Hne].
    - rewrite lookup_insert_eq. split; eauto.
    - now rewrite lookup_insert_ne. }
  assert (Hpid : forall b d', mem st' !! b = Some d' ->
    exists d, mem st !! b = Some d /\ cpid d = cpid d').
  { subst st'. cbn. intros b d' Hb'. destruct (decide (a = b)) as [<-|Hne].
    - rewrite lookup_insert_eq in Hb'. injection Hb' as <-. eauto.
    - rewrite lookup_insert_ne in Hb' by exact Hne. eauto. }
  assert (Hs' : sinv st' ia).
  { split; [exact Hi|exact Hf| |exact Hn| | |].
    - intros b. rewrite Hdom. apply Hd.
    - intros b. rewrite Hdom. apply Hb.
    - subst st'. cbn. intros b d Hb'. destruct (decide (a = b)) as [<-|Hne].
      + rewrite lookup_insert_eq in Hb'. now injection Hb' as <-.
      + rewrite lookup_insert_ne in Hb' by exact Hne. eauto.
    - intros b1 b2 d1 d2 H1 H2 H3 H4 H5. apply Hpid in H3 as (e1 & ? & ?), H4 as (e2 & ? & ?).
      apply (Hp b1 b2 e1 e2); auto; congruence. }
  split; [exact Hs'|]. apply (queueOf_same st' st ia ia Hs' Hs). intros b w. unfold ownerOf. split.
  - intros (d & Hd' & Ho). apply Hpid in Hd' as (e & He & Hpe). exists e. now rewrite Hpe.
  - intros (e & He & Ho). destruct (proj2 (Hdom b)) as [d Hd']; [eauto|].
    pose proof (Hpid b d Hd') as (e' & He' & Hpe). exists d. split; [exact Hd'|].
    rewrite He in He'. injection He' as <-. now rewrite <- Hpe.
Qed.

Lemma queued_update st ia a c qs f : sinv st ia -> mem st !! a = Some c -> ringsOK qs ->
  queued (setMem st (<[a := mkCQ (cpid c) qs]> (mem st))) f =
  if decide (ownerOf ia a c = f.1) then
    match qs !! Z.to_nat f.2 with Some q => drain 32 q | None => [] end
  else queued st f.
Proof.
  intros Hs Hc Hqs. destruct (sinv_update st ia a c qs Hs Hc Hqs) as [Hs' Hq].
  destruct (decide _) as [Ho|Ho].
  - unfold queued. rewrite Hq, (proj2 (queueOf_iff st ia f.1 a Hs)) by eauto. cbn. unfold ringAt. cbn.
    now rewrite lookup_insert_eq.
  - apply queued_iff; [apply Hq|]. rewrite Hq. intros b Hb. cbn.
    rewrite lookup_insert_ne; [reflexivity|]. intros <-.
    apply (queueOf_iff st ia f.1 a Hs) in Hb as (d & Hd & Ho'). congruence.
Qed.

Lemma queued_at st ia a c f : sinv st ia -> mem st !! a = Some c -> ownerOf ia a c = f.1 ->
  queued st f = match queue c !! Z.to_nat f.2 with Some q => drain 32 q | None => [] end.
Proof.
  intros Hs Hc Ho. unfold queued. rewrite (proj2 (queueOf_iff st ia f.1 a Hs)) by eauto.
  cbn. unfold ringAt. now rewrite Hc.
Qed.

(** A queue for a new user. *)
Lemma sinv_new st ia c : sinv st ia -> ringsOK (queue c) -> ringsEmpty (queue c) ->
  (forall a d, a ∈ g_queueList st -> mem st !! a = Some d -> cpid d <> cpid c) ->
  let st' := ListTailInsert st c in
  sinv st' ia /\ ownerOf ia (brk st) c = Some (cpid c) /\ forall f, queued st' f = queued st f.
Proof.
  intros Hs Hc He Hnew st'. pose proof Hs as [Hi Hf Hd Hn Hb Hr Hp].
  assert (Hbrk : mem st !! brk st = None).
  { destruct (mem st !! brk st) eqn:E; [|reflexivity]. pose proof (Hb (brk st) ltac:(eauto)). lia. }
  assert (Hia : ia <> brk st) by (pose proof (Hb ia (proj2 (Hd ia) (or_introl eq_refl))); lia).
  assert (Hout : brk st ∉ g_queueList st).
  { intros Hin. destruct (proj2 (Hd (brk st)) (or_intror Hin)) as [d Hd']. congruence. }
  assert (Hs' : sinv st' ia).
  { split; subst st'; unfold ListTailInsert; cbn.
    - exact Hi.
    - rewrite elem_of_app, list_elem_of_singleton. tauto.
    - intros a. rewrite elem_of_app, list_elem_of_singleton. destruct (decide (a = brk st)) as [->|Hne].
      + rewrite lookup_insert_eq. split; eauto.
      + rewrite lookup_insert_ne by congruence. rewrite Hd. tauto.
    - apply NoDup_app. split_and!; [exact Hn| |apply NoDup_singleton].
      intros a Ha ->%list_elem_of_singleton. auto.
    - intros a. destruct (decide (a = brk st)) as [->|Hne]; [lia|].
      rewrite lookup_insert_ne by congruence. intros H%Hb. lia.
    - intros a d. destruct (decide (a = brk st)) as [->|Hne].
      + rewrite lookup_insert_eq. now intros [= <-].
      + rewrite lookup_insert_ne by congruence. apply Hr.
    - intros a b d e. rewrite !elem_of_app, !list_elem_of_singleton.
      destruct (decide (a = brk st)) as [->|Ha], (decide (b = brk st)) as [->|Hb'];
        rewrite ?lookup_insert_eq, ?lookup_insert_ne by congruence; intros Hal Hbl H1 H2 Heq;
        [reflexivity|exfalso|exfalso|].
      + injection H1 as <-. destruct Hbl as [Hbl|]; [|auto]. now apply (Hnew b e Hbl H2).
      + injection H2 as <-. destruct Hal as [Hal|]; [|auto]. now apply (Hnew a d Hal H1).
      + destruct Hal, Hbl; try contradiction. eauto. }
  assert (Ho : ownerOf ia (brk st) c = Some (cpid c))
    by (unfold ownerOf; now rewrite decide_False by congruence).
  split_and!; [exact Hs'|exact Ho|]. intros f.
  destruct (queueOf st f.1) as [a|] eqn:Eq.
  - pose proof Eq as (d & Hd' & Hod)%(queueOf_iff st ia f.1 a Hs).
    assert (Ha : a <> brk st) by congruence.
    rewrite (queued_at st ia a d f Hs Hd' Hod). apply (queued_at st' ia a d f Hs'); [|exact Hod].
    subst st'. cbn. now rewrite lookup_insert_ne by congruence.
  - unfold queued at 2. rewrite Eq. cbn.
    destruct (queueOf st' f.1) as [a|] eqn:Eq'; [|unfold queued; now rewrite Eq'].
    pose proof Eq' as (d & Hd' & Hod)%(queueOf_iff st' ia f.1 a Hs').
    rewrite (queued_at st' ia a d f Hs' Hd' Hod). destruct (decide (a = brk st)) as [->|Hne].
    + subst st'. cbn in Hd'. rewrite lookup_insert_eq in Hd'. injection Hd' as <-.
      destruct (queue c !! _) as [q|] eqn:El; [|reflexivity].
      exact (proj1 (Forall_lookup _ _) He _ _ El).
    + exfalso. subst st'. cbn in Hd'. rewrite lookup_insert_ne in Hd' by congruence.
      assert (queueOf st f.1 = Some a) by (apply (queueOf_iff st ia f.1 a Hs); eauto). congruence.
Qed.

(** Queues with nothing in them are dropped, the others reordered. *)
Lemma sinv_restrict st ia l (mm : gmap nat (ConnectionQueue Q)) b :
  sinv st ia -> NoDup l -> l ⊆ g_queueList st ->
  (forall a, mm !! a = if decide (a = ia \/ a ∈ l) then mem st !! a else None) ->
  (forall a c, a ∈ g_queueList st -> a ∉ l -> mem st !! a = Some c -> ringsEmpty (queue c)) ->
  let st' := mkState mm (brk st) l (g_innerQueue st) b in
  sinv st' ia /\ forall f, queued st' f = queued st f.
Proof.
  intros Hs Hnd Hsub Hmm Hemp st'. pose proof Hs as [Hi Hf Hd Hn Hb Hr Hp].
  assert (Hle : forall a c, mm !! a = Some c -> mem st !! a = Some c).
  { intros a c. rewrite Hmm. case_decide; [auto|discriminate]. }
  assert (Hs' : sinv st' ia).
  { split; subst st'; cbn.
    - exact Hi.
    - auto.
    - intros a. rewrite Hmm. case_decide as Hc.
      + rewrite Hd. split; [tauto|]. intros [|]; auto.
      + split; [intros [? [=]]|tauto].
    - exact Hnd.
    - intros a [c Hc]. eauto.
    - eauto.
    - intros a1 a2 c d H1 H2 H3 H4. apply (Hp a1 a2); auto. }
  split; [exact Hs'|]. intros f.
  destruct (queueOf st f.1) as [a|] eqn:Eq.
  - pose proof Eq as (d & Hd' & Hod)%(queueOf_iff st ia f.1 a Hs).
    destruct (decide (a = ia \/ a ∈ l)) as [Hin|Hout].
    + rewrite (queued_at st ia a d f Hs Hd' Hod). apply (queued_at st' ia a d f Hs'); [|exact Hod].
      subst st'. cbn. rewrite Hmm, decide_True by exact Hin. exact Hd'.
    + rewrite (queued_at st ia a d f Hs Hd' Hod).
      assert (He : ringsEmpty (queue d)).
      { apply (Hemp a); [|tauto|exact Hd']. destruct (proj1 (Hd a)); [eauto|tauto|assumption]. }
      destruct (queueOf st' f.1) as [a'|] eqn:Eq'.
      * exfalso. pose proof Eq' as (e & He' & Hoe)%(queueOf_iff st' ia f.1 a' Hs').
        assert (queueOf st f.1 = Some a') as E2 by (apply (queueOf_iff st ia f.1 a' Hs); eauto).
        rewrite Eq in E2. injection E2 as <-. subst st'. cbn in He'. rewrite Hmm, decide_False in He' by exact Hout.
        discriminate.
      * unfold queued. rewrite Eq'. cbn. destruct (queue d !! _) as [q|] eqn:El; [|reflexivity].
        symmetry. exact (proj1 (Forall_lookup _ _) He _ _ El).
  - destruct (queueOf st' f.1) as [a'|] eqn:Eq'; [exfalso|unfold queued; now rewrite Eq, Eq'].
    pose proof Eq' as (e & He' & Hoe)%(queueOf_iff st' ia f.1 a' Hs').
    assert (queueOf st f.1 = Some a') as E2 by (apply (queueOf_iff st ia f.1 a' Hs); eauto). congruence.
Qed.

(** The traversal of the users' queues. *)
Lemma dequeueUsers_spec l : forall (mm : gmap nat (ConnectionQueue Q)) full,
  NoDup l -> (forall a, a ∈ l -> exists c, mm !! a = Some c /\ ringsOK (queue c)) ->
  exists full' l1 mm',
    (forall b, mm' !! b = if decide (b ∈ l1) then None else mm !! b) /\
    (forall a c, a ∈ l1 -> mm !! a = Some c -> ringsEmpty (queue c)) /\
    ((l1 = l /\ dequeueUsers mm l full = Some (None, full', mm', [])) \/
     (exists a l2 c p q x q', l = l1 ++ a :: l2 /\ mm !! a = Some c /\ (p < 3)%nat /\
        queue c !! p = Some q /\ drain 32 q = x :: drain 32 q' /\ ringOK q' /\
        dequeueUsers mm l full =
          Some (Some (Some x), full', <[a := mkCQ (cpid c) (<[p := q']> (queue c))]> mm', l2 ++ [a]))).
Proof.
  induction l as [|a l IH]; intros mm full Hnd Hl; cbn [dequeueUsers].
  - exists full, [], mm. split_and!; auto. intros a c Ha. now apply not_elem_of_nil in Ha.
  - apply NoDup_cons in Hnd as [Ha Hnd]. destruct (Hl a) as (c & Hc & Hok); [left|]. rewrite Hc.
    unfold GetMsg. change (Z.to_nat (LOW_PRIORITY + 1)) with 3%nat.
    destruct (GetMsgLoop_spec 3 0 (queue c) full Hok ltac:(lia)) as (f1 & [[-> He]|H]).
    + cbn [Z.eqb SOFTBUS_CONN_GET_MSG_FAIL]. change (_ =? SOFTBUS_OK) with false. cbn iota.
      assert (Hl' : forall b, b ∈ l -> delete a mm !! b = mm !! b).
      { intros b Hb. rewrite lookup_delete_ne; [reflexivity|]. intros ->. auto. }
      destruct (IH (delete a mm) f1 Hnd) as (f2 & l1 & mm' & Hm & Hemp & Hres).
      { intros b Hb. rewrite Hl' by exact Hb. apply Hl. now right. }
      assert (Hl1 : forall b, b ∈ l1 -> b ∈ l).
      { destruct Hres as [[-> _]|(? & ? & ? & ? & ? & ? & ? & -> & _)]; intros b Hb;
          [exact Hb|rewrite elem_of_app; now left]. }
      exists f2, (a :: l1), mm'. split_and!.
      * intros b. rewrite Hm. destruct (decide (b ∈ l1)) as [Hb|Hb].
        { rewrite decide_True; [reflexivity|now right]. }
        destruct (decide (b = a)) as [->|Hne].
        { rewrite decide_True by left. apply lookup_delete_eq. }
        rewrite decide_False; [now rewrite lookup_delete_ne by congruence|].
        rewrite elem_of_cons. tauto.
      * intros b d Hb Hd. apply elem_of_cons in Hb as [->|Hb].
        { rewrite Hc in Hd. injection Hd as <-. apply Forall_lookup. intros p q Hq. apply (He p q); [|exact Hq].
          apply lookup_lt_Some in Hq. rewrite (proj1 Hok) in Hq. lia. }
        apply (Hemp b); [exact Hb|]. rewrite Hl' by auto. exact Hd.
      * destruct Hres as [[-> Hr]|(a' & l2 & c' & p & q & x & q' & Hl2 & Hc' & Hp & Hq & Hx & Hrq & Hr)].
        { left. split; [reflexivity|]. exact Hr. }
        right. exists a', l2, c', p, q, x, q'. split_and!; auto.
        { cbn. now f_equal. }
        rewrite <- Hl'; [exact Hc'|]. rewrite Hl2. apply elem_of_app. right. left.
    + destruct H as (p & q & x & q' & Hp & Hq & Hx & Hrq & -> & _).
      change (SOFTBUS_OK =? SOFTBUS_OK) with true. cbn iota.
      exists f1, [], mm. split_and!; [reflexivity| |].
      * intros b d Hb. now apply not_elem_of_nil in Hb.
      * right. exists a, l, c, p, q, x, q'. split_and!; auto. lia.
Qed.

(** ** One call *)

Definition inRange (f : option Z * Z) : Prop := 0 <= f.2 < 3.

(** Addresses are not reused; a live queue keeps its user. *)
Definition evolves st st' : Prop :=
  (brk st <= brk st')%nat /\
  forall a c', (a < brk st)%nat -> mem st' !! a = Some c' ->
    exists c, mem st !! a = Some c /\ cpid c = cpid c'.

Lemma evolves_refl st : evolves st st.
Proof. split; [lia|]. eauto. Qed.

Lemma evolves_wake st0 st : evolves st0 st -> evolves st0 (wake st).
Proof. auto. Qed.

Lemma evolves_update st0 st a c qs : evolves st0 st -> mem st !! a = Some c ->
  evolves st0 (setMem st (<[a := mkCQ (cpid c) qs]> (mem st))).
Proof.
  intros [Hb Hm] Hc. split; [exact Hb|]. cbn. intros b d Hb' Hd.
  destruct (decide (a = b)) as [<-|Hne].
  - rewrite lookup_insert_eq in Hd. injection Hd as <-. exact (Hm a c Hb' Hc).
  - rewrite lookup_insert_ne in Hd by exact Hne. auto.
Qed.

Lemma sinv_asleep st ia b : sinv st ia ->
  sinv (mkState (mem st) (brk st) (g_queueList st) (g_innerQueue st) b) ia.
Proof. intros []; now split. Qed.

Lemma sinv_wake st ia : sinv st ia -> sinv (wake st) ia.
Proof. apply sinv_asleep. Qed.

Lemma queued_wake st f : queued (wake st) f = queued st f.
Proof. reflexivity. Qed.

Definition sleepOK st : Prop :=
  asleep st = true -> g_queueList st = [] /\ forall f, inRange f -> queued st f = [].

Definition waiterOK (t : transport) st (ia : nat) (w : Waiter P) : Prop :=
  (wq w < brk st)%nat /\
  (if winner w then toInner t (wmsg w) = true /\ wq w = ia /\ wempty w = true
   else toInner t (wmsg w) = false /\ wq w <> ia /\
        forall c, mem st !! wq w = Some c -> cpid c = pid (wmsg w)).

Lemma waiterOK_evolves t st st' ia w : evolves st st' -> waiterOK t st ia w -> waiterOK t st' ia w.
Proof.
  intros [Hb Hm] [H1 H2]. split; [lia|]. destruct (winner w); [exact H2|].
  destruct H2 as (H2 & H3 & H4). split_and!; auto. intros c' Hc'.
  destruct (Hm _ _ H1 Hc') as (c & Hc & <-). auto.
Qed.

(** What an enqueue promises about its message [m]. *)
Definition enqPost (t : transport) (ia : nat) st m (r : outcome * State Q) : Prop :=
  match r with
  | (Returned code, st') =>
    sinv st' ia /\ evolves st st' /\ (asleep st' = true -> st' = st) /\
    forall f, inRange f ->
      queued st' f = queued st f ++ (if (code =? SOFTBUS_OK) && bool_decide (f = flowOf t m) then [m] else [])
  | (Waits w _, st') => st' = st /\ waiterOK t st ia w /\ wmsg w = m
  | _ => False
  end.

Lemma finish_fail t ia st m e code : sinv st ia -> code <> SOFTBUS_OK ->
  enqPost t ia st m (finish e code st).
Proof.
  intros Hs Hc. unfold finish, enqPost. rewrite (proj2 (Z.eqb_neq _ _) Hc). cbn [andb].
  split_and!.
  - destruct e; auto using sinv_wake.
  - destruct e; auto using evolves_wake, evolves_refl.
  - destruct e; [discriminate|reflexivity].
  - intros f _. rewrite app_nil_r. now destruct e.
Qed.

(** [evolves] and the awake sender, for the state after one ring is written. *)
Lemma putMsg_ok t ia inner e ret st0 st a c m : sinv st ia -> mem st !! a = Some c ->
  evolves st0 st -> (forall f, queued st f = queued st0 f) ->
  (e = false -> asleep st = false) ->
  (ownerOf ia a c, GetPriority (flag m)) = flowOf t m -> inner = toInner t m ->
  (forall q, queue c !! Z.to_nat (GetPriority (flag m)) = Some q -> Z.of_nat (length (drain 32 q)) < 31) ->
  enqPost t ia st0 m (putMsg t inner e ret st a m).
Proof.
  intros Hs Hc Hev Hq0 Hsl Hfl -> Hroom. unfold putMsg, ringAt. rewrite Hc. cbn [mbind option_bind].
  pose proof (i_rings _ _ Hs a c Hc) as Hok. pose proof (GetPriority_range (flag m)) as Hp.
  set (p := GetPriority (flag m)) in *.
  destruct (lookup_lt_is_Some_2 (queue c) (Z.to_nat p)) as [q Hq]; [rewrite (proj1 Hok); lia|].
  rewrite Hq. destruct (ringOK_enq q m) as (q' & -> & Hrq & Hdr);
    [exact (proj1 (Forall_lookup _ _) (proj2 Hok) _ _ Hq)|auto|].
  set (code := match t with BR => _ | BLE => _ end).
  assert (Hcode : code = SOFTBUS_OK) by (subst code; destruct t; [destruct (toInner BR m)|]; reflexivity).
  rewrite Hcode. unfold finish, enqPost, setRing.
  rewrite Hc.
  destruct (sinv_update st ia a c (<[Z.to_nat p := q']> (queue c)) Hs Hc) as [Hs' _];
    [now apply ringsOK_insert|].
  set (st' := setMem st _) in *.
  assert (Hev' : evolves st0 st') by now apply evolves_update.
  split_and!.
  - destruct e; auto using sinv_wake.
  - destruct e; auto using evolves_wake.
  - destruct e; [discriminate|]. intros H. subst st'. cbn in H. rewrite Hsl in H; [discriminate|reflexivity].
  - intros f Hf. assert (queued (if e then wake st' else st') f = queued st' f) as -> by now destruct e.
    subst st'. rewrite (queued_update st ia a c _ f Hs Hc) by now apply ringsOK_insert.
    rewrite <- Hq0. cbn [Z.eqb SOFTBUS_OK andb].
    destruct f as [w fp]. cbn [fst snd]. unfold inRange in Hf. cbn in Hf.
    case_decide as Ho.
    + rewrite (queued_at st ia a c (w, fp) Hs Hc Ho). cbn [snd].
      destruct (decide (fp = p)) as [->|Hne].
      * rewrite list_lookup_insert_eq, Hq by (rewrite (proj1 Hok); lia).
        rewrite bool_decide_eq_true_2 by (rewrite <- Hfl, Ho; reflexivity). exact Hdr.
      * rewrite list_lookup_insert_ne by lia. rewrite bool_decide_eq_false_2 by (rewrite <- Hfl; congruence).
        now rewrite app_nil_r.
    + rewrite bool_decide_eq_false_2 by (rewrite <- Hfl; congruence). now rewrite app_nil_r.
Qed.

Lemma waitThenPut_ok t ia gt inner e st a c m : sinv st ia -> mem st !! a = Some c ->
  (e = false -> asleep st = false) -> (inner = true -> e = true) ->
  (ownerOf ia a c, GetPriority (flag m)) = flowOf t m -> inner = toInner t m ->
  enqPost t ia st m (waitThenPut t gt inner e st a m).
Proof.
  intros Hs Hc Hsl Hie Hfl Hin. unfold waitThenPut, ringAt. rewrite Hc. cbn [mbind option_bind].
  pose proof (i_rings _ _ Hs a c Hc) as Hok. pose proof (GetPriority_range (flag m)) as Hp.
  destruct (lookup_lt_is_Some_2 (queue c) (Z.to_nat (GetPriority (flag m)))) as [q Hq];
    [rewrite (proj1 Hok); lia|].
  rewrite Hq, queueHasRoom_iff by exact (proj1 (Forall_lookup _ _) (proj2 Hok) _ _ Hq).
  destruct (Z.ltb_spec (Z.of_nat (length (drain 32 q))) 30) as [Hlt|Hge].
  - apply (putMsg_ok t ia inner e SOFTBUS_OK st st a c m); auto using evolves_refl.
    intros q' Hq'. rewrite Hq in Hq'. injection Hq' as <-. lia.
  - destruct (ConnectSoftBusCondWait gt WAIT_QUEUE_DELAY) as [err|dl].
    + apply finish_fail; [exact Hs|discriminate].
    + split_and!; [reflexivity| |reflexivity]. unfold flowOf, ownerOf in Hfl.
      split; cbn; [apply (i_brk _ _ Hs); eauto|]. subst inner.
      destruct (toInner t m) eqn:Et; case_decide; try discriminate; split_and!; auto.
      intros d Hd. congruence.
Qed.

Lemma EnqueueNonBlock_ok t ia lock alloc gt m st : sinv st ia -> sleepOK st ->
  enqPost t ia st m (EnqueueNonBlock t lock alloc gt (Some m) st).
Proof.
  intros Hs Hsl. unfold EnqueueNonBlock.
  destruct (lock =? SOFTBUS_OK); cbn [negb]; [|exact (finish_fail t ia st m false SOFTBUS_LOCK_ERR Hs ltac:(discriminate))].
  destruct (toInner t m) eqn:Et.
  - rewrite (i_inner _ _ Hs). destruct (proj2 (i_dom _ _ Hs ia) (or_introl eq_refl)) as [c Hc].
    apply (waitThenPut_ok t ia gt true true st ia c); auto; [discriminate|].
    unfold ownerOf, flowOf. now rewrite Et, decide_True.
  - destruct (findQueue_spec (mem st) (g_queueList st) (pid m)) as (r & -> & Hr).
    { intros b Hb. apply (i_dom _ _ Hs). now right. }
    set (e := bool_decide _).
    assert (He : e = false -> asleep st = false).
    { subst e. intros He%bool_decide_eq_false. destruct (asleep st) eqn:Ea; [|reflexivity].
      destruct (Hsl Ea). contradiction. }
    destruct r as [a|].
    + destruct Hr as (Ha & c & Hc & Hpc). apply (waitThenPut_ok t ia gt false e st a c); auto; [discriminate|].
      unfold ownerOf, flowOf. rewrite Et, Hpc, decide_False; [reflexivity|].
      intros ->. exact (i_fresh _ _ Hs Ha).
    + destruct (CreateBrQueue alloc (pid m)) as [c|] eqn:Ec.
      2: { apply finish_fail; [exact Hs|now destruct t]. }
      apply CreateBrQueue_ok in Ec as (Hpc & Hok & Hem).
      destruct (sinv_new st ia c Hs Hok Hem) as (Hs' & Ho & Hq).
      { intros a d Ha Hd. rewrite Hpc. eauto. }
      apply (putMsg_ok t ia false e (internalErr t) st (ListTailInsert st c) (brk st) c); auto.
      * cbn. apply lookup_insert_eq.
      * split; [cbn; lia|]. cbn. intros a c' Ha Hl. rewrite lookup_insert_ne in Hl by lia. eauto.
      * rewrite Ho, Hpc. unfold flowOf. now rewrite Et.
      * intros q Hq'. rewrite (proj1 (Forall_lookup _ _) Hem _ _ Hq'). cbn. lia.
Qed.

Lemma EnqueueResume_ok t ia gt ret w st : sinv st ia -> sleepOK st -> waiterOK t st ia w ->
  waitFailed ret = true \/ is_Some (mem st !! wq w) ->
  enqPost t ia st (wmsg w) (EnqueueResume t gt ret w st).
Proof.
  intros Hs Hsl [Hb Hw] Hlive. unfold EnqueueResume.
  destruct (waitFailed ret) eqn:Ewf; [apply finish_fail; [exact Hs|discriminate]|].
  destruct Hlive as [?|[c Hc]]; [discriminate|].
  apply (waitThenPut_ok t ia gt (winner w) (wempty w) st (wq w) c); auto.
  - intros He. destruct (asleep st) eqn:Ea; [|reflexivity]. destruct (winner w).
    + destruct Hw as (_ & _ & ?). congruence.
    + destruct Hw as (_ & Hne & _). destruct (proj1 (i_dom _ _ Hs (wq w))) as [?|Hin]; [eauto|congruence|].
      rewrite (proj1 (Hsl Ea)) in Hin. now apply not_elem_of_nil in Hin.
  - destruct (winner w); [tauto|discriminate].
  - unfold ownerOf, flowOf. destruct (winner w).
    + destruct Hw as (-> & -> & _). now rewrite decide_True.
    + destruct Hw as (-> & Hne & Hp). rewrite decide_False by exact Hne. now rewrite (Hp c Hc).
  - destruct (winner w); destruct Hw as (-> & _); reflexivity.
Qed.

(** What a round of the sending thread promises. *)
Definition deqPost (ia : nat) st (r : doutcome * State Q) : Prop :=
  match r with
  | (DReturned code om _, st') =>
    sinv st' ia /\ evolves st st' /\ asleep st' = asleep st /\
    exists g, inRange g /\ forall f, inRange f ->
      queued st f = (if decide (f = g) then option_list om else []) ++ queued st' f
  | (DWaits _, st') =>
    sinv st' ia /\ evolves st st' /\ sleepOK st' /\
    (forall f, inRange f -> queued st f = []) /\ (forall f, inRange f -> queued st' f = [])
  | (DBadAccess, _) => False
  end.

Lemma took_one st st' ia a c p q x q' st2 :
  sinv st ia -> mem st !! a = Some c -> (p < 3)%nat -> queue c !! p = Some q ->
  drain 32 q = x :: drain 32 q' -> ringOK q' ->
  st' = setMem st (<[a := mkCQ (cpid c) (<[p := q']> (queue c))]> (mem st)) ->
  (forall f, queued st2 f = queued st f) ->
  exists g, inRange g /\ forall f, inRange f ->
    queued st2 f = (if decide (f = g) then [x] else []) ++ queued st' f.
Proof.
  intros Hs Hc Hp Hq Hx Hrq -> H2. pose proof (i_rings _ _ Hs a c Hc) as Hok.
  exists (ownerOf ia a c, Z.of_nat p). split; [unfold inRange; cbn; lia|]. intros [w fp] Hf.
  unfold inRange in Hf. cbn in Hf. rewrite H2.
  rewrite (queued_update st ia a c _ _ Hs Hc) by now apply ringsOK_insert. cbn [fst snd].
  destruct (decide (ownerOf ia a c = w)) as [Ho|Ho].
  - rewrite (queued_at st ia a c (w, fp) Hs Hc Ho). cbn [snd].
    destruct (decide (fp = Z.of_nat p)) as [->|Hne].
    + rewrite decide_True by congruence. rewrite Nat2Z.id, Hq, list_lookup_insert_eq, Hx
        by (rewrite (proj1 Hok); lia). reflexivity.
    + rewrite decide_False by congruence. rewrite list_lookup_insert_ne by lia. reflexivity.
  - rewrite decide_False by congruence. reflexivity.
Qed.

Lemma evolves_restrict st ia l (mm : gmap nat (ConnectionQueue Q)) b :
  (forall a, mm !! a = if decide (a = ia \/ a ∈ l) then mem st !! a else None) ->
  evolves st (mkState mm (brk st) l (g_innerQueue st) b).
Proof.
  intros Hmm. split; [cbn; lia|]. cbn. intros a c _ Ha. rewrite Hmm in Ha. case_decide; [eauto|discriminate].
Qed.

(** The memory after the queues [l1] of the list were destroyed. *)
Lemma destroyed_mem st ia l1 l2 l (mm : gmap nat (ConnectionQueue Q)) : sinv st ia ->
  g_queueList st = l1 ++ l2 -> l ≡ₚ l2 ->
  (forall b, mm !! b = if decide (b ∈ l1) then None else mem st !! b) ->
  forall a, mm !! a = if decide (a = ia \/ a ∈ l) then mem st !! a else None.
Proof.
  intros Hs Hl Hp Hm a. pose proof (i_nodup _ _ Hs) as Hnd. pose proof (i_fresh _ _ Hs) as Hf.
  rewrite Hl in Hnd, Hf. apply NoDup_app in Hnd as (_ & Hdis & _). rewrite elem_of_app in Hf.
  rewrite Hm. destruct (decide (a ∈ l1)) as [H1|H1].
  - rewrite decide_False; [reflexivity|]. intros [->|H2]; [tauto|]. rewrite Hp in H2. now apply (Hdis a).
  - case_decide as H2; [reflexivity|]. destruct (mem st !! a) eqn:E; [exfalso|reflexivity].
    destruct (proj1 (i_dom _ _ Hs a)) as [|Hin]; [eauto|tauto|].
    rewrite Hl, elem_of_app in Hin. rewrite Hp in H2. tauto.
Qed.

(** Nothing is queued once the inner queue is all that is left, and empty. *)
Lemma all_empty st ia c f : sinv st ia -> g_queueList st = [] -> mem st !! ia = Some c ->
  ringsEmpty (queue c) -> queued st f = [].
Proof.
  intros Hs Hl Hc He. unfold queued. destruct (queueOf st f.1) as [a|] eqn:Eq; [|reflexivity].
  cbn. apply (queueOf_iff st ia f.1 a Hs) in Eq as (d & Hd & _).
  destruct (proj1 (i_dom _ _ Hs a)) as [->|Hin]; [eauto| |rewrite Hl in Hin; now apply not_elem_of_nil in Hin].
  unfold ringAt. rewrite Hc. cbn. destruct (queue c !! _) as [q|] eqn:El; [|reflexivity].
  exact (proj1 (Forall_lookup _ _) He _ _ El).
Qed.

Lemma set_same st a c : mem st !! a = Some c -> setInner st a (mkCQ (cpid c) (queue c)) = st.
Proof. intros H. unfold setInner, setMem. destruct c; cbn. rewrite insert_id by exact H. now destruct st. Qed.

(** The sender takes one message out of the queue at [a]. *)
Lemma deq_took st0 st ia a c p q x q' b : sinv st ia -> mem st !! a = Some c -> (p < 3)%nat ->
  queue c !! p = Some q -> drain 32 q = x :: drain 32 q' -> ringOK q' ->
  evolves st0 st -> asleep st = asleep st0 -> (forall f, queued st0 f = queued st f) ->
  deqPost ia st0 (DReturned SOFTBUS_OK (Some x) b, setInner st a (mkCQ (cpid c) (<[p := q']> (queue c)))).
Proof.
  intros Hs Hc Hp Hq Hx Hrq Hev Has H0. split_and!.
  - apply sinv_update; auto. apply ringsOK_insert; [|exact Hrq]. now apply (i_rings _ _ Hs a).
  - now apply evolves_update.
  - exact Has.
  - cbn [option_list]. eapply (took_one st _ ia a c p q x q' st0); eauto.
Qed.

Lemma dequeueRound_ok ia full st : sinv st ia -> deqPost ia st (dequeueRound full st).
Proof.
  intros Hs. unfold dequeueRound. rewrite (i_inner _ _ Hs).
  destruct (proj2 (i_dom _ _ Hs ia) (or_introl eq_refl)) as [ic Hic]. rewrite Hic.
  pose proof (i_rings _ _ Hs ia ic Hic) as Hok. unfold GetMsg.
  change (Z.to_nat (MIDDLE_PRIORITY + 1)) with 2%nat.
  destruct (GetMsgLoop_spec 2 0 (queue ic) full Hok ltac:(lia)) as (f1 & [[-> _]|H]).
  2: { destruct H as (p & q & x & q' & Hp & Hq & Hx & Hrq & -> & _).
    change (SOFTBUS_OK =? SOFTBUS_OK) with true. cbn iota.
    eapply deq_took; eauto using evolves_refl. lia. }
  change (SOFTBUS_CONN_GET_MSG_FAIL =? SOFTBUS_OK) with false. cbn iota. rewrite set_same by exact Hic.
  destruct (dequeueUsers_spec (g_queueList st) (mem st) f1 (i_nodup _ _ Hs)) as (f2 & l1 & mm & Hm & Hem & Hres).
  { intros a Ha. destruct (proj2 (i_dom _ _ Hs a) (or_intror Ha)) as [c Hc]. exists c.
    split; [exact Hc|]. now apply (i_rings _ _ Hs a). }
  destruct Hres as [[-> ->]|(a & l2 & c & p & q & x & q' & Hl & Hc & Hp & Hq & Hx & Hrq & ->)].
  - pose proof (destroyed_mem st ia (g_queueList st) [] [] mm Hs ltac:(now rewrite app_nil_r)
      ltac:(reflexivity) Hm) as Hmm.
    destruct (sinv_restrict st ia [] mm (asleep st) Hs) as [Hs' Hq'];
      [constructor|intros ? H; now apply not_elem_of_nil in H|exact Hmm|eauto|].
    set (st' := mkState mm _ _ _ _) in *.
    assert (Hic' : mm !! ia = Some ic) by (rewrite Hmm, decide_True by auto; exact Hic). rewrite Hic'.
    assert (Hev : evolves st st') by apply (evolves_restrict st ia [] mm (asleep st) Hmm).
    change (Z.to_nat (LOW_PRIORITY + 1)) with 3%nat.
    destruct (GetMsgLoop_spec 3 0 (queue ic) f2 Hok ltac:(lia)) as (f3 & [[-> He]|H]).
    + change (SOFTBUS_CONN_GET_MSG_FAIL =? SOFTBUS_OK) with false. cbn iota. rewrite set_same by exact Hic'.
      assert (Hall : forall f, queued st' f = []).
      { intros f. apply (all_empty st' ia ic f Hs'); [reflexivity|exact Hic'|]. apply Forall_lookup.
        intros p q Hpq. apply (He p q); [|exact Hpq]. apply lookup_lt_Some in Hpq. rewrite (proj1 Hok) in Hpq. lia. }
      split_and!; [exact (sinv_asleep st' ia true Hs')|exact Hev|intros _; split; [reflexivity|]; intros f _; apply Hall| |];
        intros f _; [rewrite <- Hq'|]; apply Hall.
    + destruct H as (p & q & x & q' & Hp & Hq & Hx & Hrq & -> & _).
      change (SOFTBUS_OK =? SOFTBUS_OK) with true. cbn iota.
      apply (deq_took st st' ia ia ic p q x q'); auto. lia.
  - assert (Hperm : l2 ++ [a] ≡ₚ a :: l2) by (symmetry; apply Permutation_cons_append).
    pose proof (destroyed_mem st ia l1 (a :: l2) (l2 ++ [a]) mm Hs Hl Hperm Hm) as Hmm.
    pose proof (i_nodup _ _ Hs) as Hnd. rewrite Hl in Hnd. apply NoDup_app in Hnd as (_ & Hdis & Hnd).
    destruct (sinv_restrict st ia (l2 ++ [a]) mm (asleep st) Hs) as [Hs' Hq'].
    + rewrite Hperm. exact Hnd.
    + intros b Hb. rewrite Hperm in Hb. rewrite Hl. apply elem_of_app. now right.
    + exact Hmm.
    + intros b d Hb Hnb Hd. apply (Hem b); [|exact Hd]. rewrite Hl, elem_of_app in Hb.
      rewrite Hperm in Hnb. tauto.
    + set (st' := mkState mm _ _ _ _) in *.
      apply (deq_took st st' ia a c p q x q'); auto.
      * cbn. rewrite Hmm, decide_True; [exact Hc|]. right. apply elem_of_app. right. left.
      * apply (evolves_restrict st ia (l2 ++ [a]) mm (asleep st) Hmm).
Qed.

(** ** Every interleaving *)

Definition ofFlow (t : transport) (f : option Z * Z) (l : list Msg) : list Msg :=
  base.filter (fun m => flowOf t m = f) l.

Record inv (t : transport) (ia : nat) (s : Sys P Q) : Prop := {
  v_st : sinv (st s) ia;
  v_waiters : Forall (waiterOK t (st s) ia) (waiters s);
  v_sleep : sleepOK (st s);
  v_awake : consumer s = None -> asleep (st s) = false;
  v_flow f : inRange f -> ofFlow t f (accepted s) = ofFlow t f (delivered s) ++ queued (st s) f
}.

Lemma flowOf_range t m : inRange (flowOf t m).
Proof. unfold inRange, flowOf. cbn. apply GetPriority_range. Qed.

Lemma ofFlow_app t f l1 l2 : ofFlow t f (l1 ++ l2) = ofFlow t f l1 ++ ofFlow t f l2.
Proof. apply filter_app. Qed.

Lemma ofFlow_one t f m : ofFlow t f [m] = if bool_decide (f = flowOf t m) then [m] else [].
Proof.
  unfold ofFlow. rewrite filter_cons, filter_nil.
  destruct (decide (flowOf t m = f)) as [<-|Hne]; [now rewrite bool_decide_eq_true_2|].
  now rewrite bool_decide_eq_false_2 by congruence.
Qed.

Lemma afterEnqueue_inv t ia s ws m r s' : inv t ia s -> Forall (waiterOK t (st s) ia) ws ->
  enqPost t ia (st s) m r -> afterEnqueue s ws (Some m) r = Some s' -> inv t ia s'.
Proof.
  intros [H1 H2 H3 H4 H5] Hws Hr Ha. destruct r as [[code|w dl| |] st']; cbn in Ha; [| |contradiction..];
    injection Ha as <-.
  - destruct Hr as (Hs & Hev & Hsl & Hq). split; cbn -[ofFlow].
    + exact Hs.
    + eapply Forall_impl; [exact Hws|]. intros w. now apply waiterOK_evolves.
    + intros Ha. pose proof (Hsl Ha) as ->. exact (H3 Ha).
    + intros Hn. destruct (asleep st') eqn:Ea; [|reflexivity]. rewrite (Hsl eq_refl) in Ea.
      rewrite H4 in Ea by exact Hn. discriminate.
    + intros f Hf. rewrite (Hq f Hf). rewrite ofFlow_app, app_assoc, (H5 f Hf). f_equal. destruct (code =? SOFTBUS_OK); cbn [andb option_list]; [|reflexivity].
      apply ofFlow_one.
  - destruct Hr as (-> & Hw & _). split; cbn; auto. apply Forall_app. split; [exact Hws|now constructor].
Qed.

Lemma afterDequeue_inv t ia s st0 r s' : inv t ia s -> sinv st0 ia -> evolves (st s) st0 ->
  asleep st0 = false -> (forall f, queued st0 f = queued (st s) f) ->
  deqPost ia st0 r -> afterDequeue s r = Some s' -> inv t ia s'.
Proof.
  intros [H1 H2 H3 H4 H5] Hs0 Hev0 Ha0 Hq0 Hr Ha.
  assert (Hw : forall st', evolves st0 st' -> Forall (waiterOK t st' ia) (waiters s)).
  { intros st' Hev. eapply Forall_impl; [exact H2|]. intros w Hw.
    eapply waiterOK_evolves; [exact Hev|]. eapply waiterOK_evolves; [exact Hev0|exact Hw]. }
  destruct r as [[code om b|full|] st']; cbn in Ha; [| |contradiction]; injection Ha as <-.
  - destruct Hr as (Hs & Hev & Has & g & Hg & Hq). rewrite Ha0 in Has.
    split; cbn -[ofFlow]; auto; [intros Hx; congruence|]. intros f Hf.
    rewrite (H5 f Hf), <- Hq0, (Hq f Hf). rewrite ofFlow_app, <- app_assoc. f_equal.
    destruct om as [x|]; [|now case_decide]. cbn [option_list]. f_equal.
    assert (Hx : flowOf t x = g).
    { assert (x ∈ ofFlow t g (accepted s)) as Hin.
      { rewrite (H5 g Hg), <- Hq0, (Hq g Hg), decide_True by reflexivity. apply elem_of_app. right. left. }
      apply list_elem_of_filter in Hin. tauto. }
    change (option_list (Some x)) with [x]. rewrite ofFlow_one, Hx. case_decide as Hfg; [now rewrite bool_decide_eq_true_2|].
    now rewrite bool_decide_eq_false_2.
  - destruct Hr as (Hs & Hev & Hsl & He1 & He2). split; cbn -[ofFlow]; auto; [discriminate|].
    intros f Hf. now rewrite (He2 f Hf), (H5 f Hf), <- Hq0, (He1 f Hf).
Qed.

Lemma sendQueue_step_inv t ia s e s' : inv t ia s -> sysStep t s e = Some s' -> inv t ia s'.
Proof.
  intros Hi H. pose proof Hi as [H1 H2 H3 H4 H5]. destruct e as [lock alloc gt om|n ret gt|gt p lock|ret]; cbn in H.
  - destruct om as [m|].
    + eapply (afterEnqueue_inv t ia s (waiters s) m); eauto. now apply EnqueueNonBlock_ok.
    + cbn in H. injection H as <-. split; cbn; auto. rewrite app_nil_r. exact H5.
  - destruct (waiters s !! n) as [w|] eqn:Ew; [|injection H as <-; exact Hi].
    pose proof (proj1 (Forall_lookup _ _) H2 _ _ Ew) as Hw.
    destruct (decide (waitFailed ret = true \/ is_Some (mem (st s) !! wq w))) as [Hl|Hl].
    + refine (afterEnqueue_inv t ia s (delete n (waiters s)) (wmsg w) _ s' Hi _ _ H); [now apply Forall_delete|].
      now apply EnqueueResume_ok.
    + unfold EnqueueResume, waitThenPut, ringAt in H. destruct (waitFailed ret); [tauto|].
      destruct (mem (st s) !! wq w); [exfalso; eauto|discriminate].
  - destruct (consumer s) eqn:Ec; [injection H as <-; exact Hi|].
    assert (Hd : deqPost ia (st s) (DequeueBlock gt p lock (st s))).
    { unfold DequeueBlock. destruct (negb (gt =? SOFTBUS_OK)), (negb p), (negb (lock =? SOFTBUS_OK));
        try (split_and!; [exact H1|apply evolves_refl|reflexivity|]; exists (None, 0); split;
          [unfold inRange; cbn; lia|intros; now case_decide]).
      now apply dequeueRound_ok. }
    eapply (afterDequeue_inv t ia s (st s)); eauto using evolves_refl.
  - destruct (consumer s) as [full|] eqn:Ec; [|injection H as <-; exact Hi].
    assert (Hd : deqPost ia (wake (st s)) (DequeueResume ret full (st s))).
    { unfold DequeueResume. destruct (negb (ret =? SOFTBUS_OK)); [|now apply dequeueRound_ok, sinv_wake].
      destruct (ret =? SOFTBUS_TIMOUT); (split_and!; [now apply sinv_wake|apply evolves_refl|reflexivity|];
        exists (None, 0); split; [unfold inRange; cbn; lia|intros; now case_decide]). }
    eapply (afterDequeue_inv t ia s (wake (st s))); eauto using sinv_wake, evolves_wake, evolves_refl.
Qed.

Lemma sendQueue_run_inv t ia l : forall s s', inv t ia s -> runSys t s l = Some s' -> inv t ia s'.
Proof.
  induction l as [|e l IH]; intros s s' Hi H; cbn in H; [now injection H as <-|].
  destruct (sysStep t s e) as [s1|] eqn:E; [|discriminate]. eauto using sendQueue_step_inv.
Qed.

(** The state after a successful initialisation. *)
Definition startSys (t : transport) (alloc : nat -> bool) : option (Sys P Q) :=
  match InnerQueueInit t SOFTBUS_OK SOFTBUS_OK SOFTBUS_OK alloc zeroState with
  | (code, st0) => if code =? SOFTBUS_OK then Some (mkSys st0 [] None [] []) else None
  end.

Lemma startSys_inv t alloc s : startSys t alloc = Some s -> inv t 0 s.
Proof.
  unfold startSys, InnerQueueInit. cbn [negb Z.eqb SOFTBUS_OK].
  destruct (CreateBrQueue alloc 0) as [c|] eqn:Ec; [|destruct t; discriminate].
  intros [= <-]. apply CreateBrQueue_ok in Ec as (Hp & Hok & He).
  assert (Hl : forall a, (<[0%nat := c]> ∅ : gmap nat (ConnectionQueue Q)) !! a = if decide (a = 0%nat) then Some c else None).
  { intros a. case_decide as H; [subst; apply lookup_insert_eq|]. rewrite lookup_insert_ne by congruence. apply lookup_empty. }
  assert (Hs : sinv (mkState (<[0%nat := c]> ∅) 1 [] (Some 0%nat) false) 0).
  { split; cbn.
    - reflexivity.
    - apply not_elem_of_nil.
    - intros a. rewrite Hl. case_decide as H; [subst; split; eauto|]. split; [intros [? [=]]|].
      intros [|Hin]; [tauto|]. now apply not_elem_of_nil in Hin.
    - constructor.
    - intros a. rewrite Hl. case_decide; [lia|intros [? [=]]].
    - intros a d. rewrite Hl. case_decide; [now intros [= <-]|discriminate].
    - intros a b d e Ha. now apply not_elem_of_nil in Ha. }
  split; cbn -[ofFlow queued]; auto.
  - intros [=].
  - intros f _. symmetry. apply (all_empty _ 0 c f Hs); [reflexivity| |exact He]. cbn. now rewrite Hl.
Qed.

End Proofs.

(** ** Properties *)

#[local] Existing Instance LockFreeQueue.lfq_ops.
#[local] Existing Instance LockFreeQueue.lfq_laws.
Abbreviation ring P := (LockFreeQueue.LockFreeQueue (SendQueueNode P)).

(** C11: In every interleaving of producers and the sending thread that uses no freed
    queue: of each user and priority the messages whose enqueue returned
    SOFTBUS_OK are, in order, those already sent followed by those still queued;
    and the sending thread never sleeps, unwoken, while a message is queued. *)
Theorem send_queue_fifo {P : Type} (t : transport) (alloc : nat -> bool) (s0 s : Sys P (ring P))
    (l : list (event P)) (f : option Z * Z)
    (Hstart : startSys t alloc = Some s0) (Hrun : runSys t s0 l = Some s) (Hf : inRange f) :
  ofFlow t f (accepted s) = ofFlow t f (delivered s) ++ queued (st s) f /\
  (asleep (st s) = true -> queued (st s) f = []).
Proof.
  pose proof (sendQueue_run_inv t 0 l s0 s (startSys_inv t alloc s0 Hstart) Hrun) as Hi.
  split; [now apply Hi|]. intros Ha. now apply (v_sleep _ _ _ Hi).
Qed.

(** C38: A run goes wrong exactly when a producer resumes after the queue it was
    waiting for has been destroyed. *)
Theorem send_queue_bad_access {P : Type} (t : transport) (alloc : nat -> bool) (s0 s : Sys P (ring P))
    (l : list (event P)) (e : event P)
    (Hstart : startSys t alloc = Some s0) (Hrun : runSys t s0 l = Some s) :
  sysStep t s e = None <->
  exists n ret gt w, e = EResume n ret gt /\ waiters s !! n = Some w /\ waitFailed ret = false /\
    winner w = false /\ mem (st s) !! wq w = None.
Proof.
  pose proof (sendQueue_run_inv t 0 l s0 s (startSys_inv t alloc s0 Hstart) Hrun) as Hi.
  pose proof Hi as [H1 H2 H3 H4 H5]. split.
  - intros H. destruct e as [lock al gt om|n ret gt|gt p lock|ret]; cbn in H.
    + destruct om as [m|]; [|discriminate].
      pose proof (EnqueueNonBlock_ok t 0 lock al gt m (st s) H1 H3) as Hp.
      destruct (EnqueueNonBlock _ _ _ _ _ _) as [[] ?]; cbn in H; easy.
    + destruct (waiters s !! n) as [w|] eqn:Ew; [|discriminate].
      pose proof (proj1 (Forall_lookup _ _) H2 _ _ Ew) as Hw.
      destruct (decide (waitFailed ret = true \/ is_Some (mem (st s) !! wq w))) as [Hl|Hl].
      * pose proof (EnqueueResume_ok t 0 gt ret w (st s) H1 H3 Hw Hl) as Hp.
        destruct (EnqueueResume _ _ _ _ _) as [[] ?]; cbn in H; easy.
      * exists n, ret, gt, w. split_and!; auto.
        -- destruct (waitFailed ret); tauto.
        -- destruct Hw as [_ Hw]. destruct (winner w); [|reflexivity]. destruct Hw as (_ & Hq & _).
           exfalso. apply Hl. right. rewrite Hq. apply (i_dom _ _ H1). now left.
        -- destruct (mem (st s) !! wq w); [exfalso; eauto|reflexivity].
    + destruct (consumer s); [discriminate|]. unfold DequeueBlock in H.
      destruct (negb (gt =? SOFTBUS_OK)), (negb p), (negb (lock =? SOFTBUS_OK)); try discriminate.
      pose proof (dequeueRound_ok 0 false (st s) H1) as Hp.
      destruct (dequeueRound _ _) as [[] ?]; cbn in H; easy.
    + destruct (consumer s) as [full|]; [|discriminate]. unfold DequeueResume in H.
      destruct (negb (ret =? SOFTBUS_OK)); [destruct (ret =? SOFTBUS_TIMOUT); discriminate|].
      pose proof (dequeueRound_ok 0 full (wake (st s)) (sinv_wake _ _ H1)) as Hp.
      destruct (dequeueRound _ _) as [[] ?]; cbn in H; easy.
  - intros (n & ret & gt & w & -> & Hw & Hf & _ & Hm). cbn. rewrite Hw. unfold EnqueueResume, waitThenPut, ringAt.
    now rewrite Hf, Hm.
Qed.

(** ** Examples and witnesses *)

Definition okAlloc (_ : nat) : bool := true.
Definition okTime : Z * (Z * Z) := (SOFTBUS_OK, (0, 0)).
Definition userMsg (n : Z) : SendQueueNode Z := mkNode 5 CONN_HIGH false n.
Definition innerMsg (n : Z) : SendQueueNode Z := mkNode 0 CONN_HIGH true n.
Definition enqEv (m : SendQueueNode Z) : event Z := EEnqueue SOFTBUS_OK okAlloc okTime (Some m).
Definition deqEv : event Z := EDequeue SOFTBUS_OK true SOFTBUS_OK.
Definition start0 (t : transport) : Sys Z (ring Z) :=
  default (mkSys zeroState [] None [] []) (startSys t okAlloc).

Lemma send_queue_fifo_witness : exists s,
  runSys BR (start0 BR) [enqEv (userMsg 1); enqEv (innerMsg 2); enqEv (userMsg 3); deqEv; deqEv] = Some s /\
  map body (delivered s) = [2; 1] /\
  ofFlow BR (Some 5, 0) (accepted s) = ofFlow BR (Some 5, 0) (delivered s) ++ queued (st s) (Some 5, 0).
Proof.
  eexists. split; [vm_compute; reflexivity|]. split; [reflexivity|].
  apply (send_queue_fifo BR okAlloc (start0 BR) _
    [enqEv (userMsg 1); enqEv (innerMsg 2); enqEv (userMsg 3); deqEv; deqEv] (Some 5, 0)).
  - vm_compute. reflexivity.
  - vm_compute. reflexivity.
  - split; [apply Z.leb_le|apply Z.ltb_lt]; reflexivity.
Defined.

(** The 31st producer waits; the sender empties and destroys the queue; the
    producer then uses the freed ring. *)
Definition staleRun : list (event Z) :=
  map (fun n => enqEv (userMsg (Z.of_nat n))) (seq 0 31) ++ replicate 31 deqEv.

Lemma send_queue_bad_access_witness : exists s,
  runSys BR (start0 BR) staleRun = Some s /\ sysStep BR s (EResume 0 SOFTBUS_OK okTime) = None.
Proof.
  eexists. split; [vm_compute; reflexivity|].
  refine (proj2 (send_queue_bad_access BR okAlloc (start0 BR) _ staleRun (EResume 0 SOFTBUS_OK okTime) _ _) _).
  - vm_compute. reflexivity.
  - vm_compute. reflexivity.
  - eexists 0%nat, SOFTBUS_OK, okTime, _. split_and!; [reflexivity..|vm_compute; reflexivity].
Defined.

End SendQueue.
