(* ===== verification/BytesDelivery.v ===== *)
(** * Bytes delivery

    Model of core/connection/common/src/softbus_conn_bytes_delivery.c: bytes to
    be sent are put into a fair priority queue ([FairQueue]) and handed to a
    handler by a task that ends when it has been idle and is started again by the
    next sender.  Operations are cut where the delivery's lock is taken and
    released; [sysStep] interleaves senders and task. *)

From S2P Require Import Prelude ErrorCode Bytes Fifo LockFreeQueue FairQueue.
From stdpp Require Import list.
#[local] Open Scope Z_scope.

Module BytesDelivery.
Import FairQueue.

Definition CONN_MIDDLE : Z := 2.
Definition CONN_HIGH : Z := 3.
Definition MESSAGE_POSTING : Z := 1.
Definition sizeof_ConnBytesDeliveryItem : Z := 64.
Definition sizeof_ConnBytesDelivery : Z := 112.

Definition FlagToPriority (flag : Z) : Z :=
  if flag =? CONN_HIGH then CONN_PRIORITY_HIGH
  else if flag =? CONN_MIDDLE then CONN_PRIORITY_MIDDLE
  else CONN_PRIORITY_LOW.

Record ConnBytesAddition := mkAddition { module : Z; apid : Z; flag : Z; seq : Z }.

Record DeliveryBody := mkBody {
  connectionId : Z;
  data : list byte;
  dlength : Z;
  addition : ConnBytesAddition
}.
Abbreviation Item := (ConnQueueItem DeliveryBody).

Definition ConnCreateBytesDeliveryItem (libc : Z -> bool) (connId : Z) (dat : list byte) (len : Z)
    (add : ConnBytesAddition) : option Item :=
  if negb (SoftBusCalloc libc sizeof_ConnBytesDeliveryItem) then None
  else Some (ConnQueueItemConstruct (apid add) (FlagToPriority (flag add)) (mkBody connId dat len add)).

Section Model.
Context {Q : Type} `{!FifoOps Q Item}.

Record ConnBytesDelivery := mkDelivery {
  dqueue : ConnFairPriorityQueue Q;
  deliveryTaskRunning : bool;
  deliveryMessagePosting : bool
}.

(** [config], [handler] and [name] tell whether the pointers are set. *)
Definition ConnCreateBytesDelivery (config handler name : bool) (unitNum : Z) (libc1 libc2 libc3 : Z -> bool)
    (qlock cond1 cond2 mutexInit : Z) : option ConnBytesDelivery :=
  if negb config then None
  else if negb handler then None
  else if negb name then None
  else if negb (SoftBusCalloc libc1 sizeof_ConnBytesDelivery) then None
  else
    match ConnCreateQueue libc2 libc3 qlock cond1 cond2 unitNum with
    | None => None
    | Some q => if negb (mutexInit =? SOFTBUS_OK) then None else Some (mkDelivery q false false)
    end.

Definition setQueueD (d : ConnBytesDelivery) (q : ConnFairPriorityQueue Q) : ConnBytesDelivery :=
  mkDelivery q (deliveryTaskRunning d) (deliveryMessagePosting d).
Definition setRunning (d : ConnBytesDelivery) (b : bool) : ConnBytesDelivery :=
  mkDelivery (dqueue d) b (deliveryMessagePosting d).
Definition setPosting (d : ConnBytesDelivery) (b : bool) : ConnBytesDelivery :=
  mkDelivery (dqueue d) (deliveryTaskRunning d) b.

(** [code] is the answer of the first dequeue.  The retry stores what it takes
    out of the queue in the parameter [out] itself and not where it points to:
    the last component is that item, which the caller never sees. *)
Definition RetryDequeueExclusiveIfNeed (lock : Z) (e : Env Q) (code : Z) (d : ConnBytesDelivery)
  : option (Z * ConnBytesDelivery * option Item) :=
  if negb (code =? SOFTBUS_TIMOUT) then Some (code, d, None)
  else if negb (lock =? SOFTBUS_OK) then Some (lock, d, None)
  else
    match ConnDequeue e (Some (dqueue d)) true 0 with
    | Some (code', out, Some q') =>
      let d' := setQueueD d q' in
      if code' =? SOFTBUS_TIMOUT then
        if deliveryMessagePosting d' then Some (MESSAGE_POSTING, d', None)
        else Some (code', setRunning d' false, None)
      else Some (code', d', out)
    | _ => None
    end.

(** One round of the loop of [DeliverTask].  [NullItem]: the item pointer, still
    NULL, is dereferenced. *)
Inductive round :=
| TaskExit (d : ConnBytesDelivery)
| TaskAgain (d : ConnBytesDelivery)
| Handled (it : Item) (d : ConnBytesDelivery)
| NullItem (d : ConnBytesDelivery).

Definition DeliverTask (e1 e2 : Env Q) (lock idleTimeoutMs : Z) (d : ConnBytesDelivery) : option round :=
  match ConnDequeue e1 (Some (dqueue d)) true idleTimeoutMs with
  | Some (ret1, item, Some q1) =>
    match RetryDequeueExclusiveIfNeed lock e2 ret1 (setQueueD d q1) with
    | None => None
    | Some (ret, d', _) =>
      if ret =? SOFTBUS_TIMOUT then Some (TaskExit d')
      else if ret =? MESSAGE_POSTING then Some (TaskAgain d')
      else if negb (ret =? SOFTBUS_OK) then Some (TaskAgain d')
      else
        match item with
        | None => Some (NullItem d')
        | Some it => Some (Handled it d')
        end
    end
  | _ => None
  end.

(** [start]: the answer of [ConnStartActionAsync]; the flag tells whether a task
    was started. *)
Definition PullDeliverTaskIfNeed (lock start : Z) (d : ConnBytesDelivery) : Z * ConnBytesDelivery * bool :=
  if negb (lock =? SOFTBUS_OK) then (lock, d, false)
  else
    let d' := setPosting d true in
    if deliveryTaskRunning d' then (lock, d', false)
    else if negb (start =? SOFTBUS_OK) then (start, d', false)
    else (start, setRunning d' true, true).

Definition MarkPostMessageDone (lock : Z) (d : ConnBytesDelivery) : ConnBytesDelivery :=
  if negb (lock =? SOFTBUS_OK) then d else setPosting d false.

Definition ConnDeliver (d : option ConnBytesDelivery) (lock1 start lock2 : Z) (libc : Z -> bool)
    (e : Env Q) (waitTimeoutMs connId : Z) (dat : list byte) (len : Z) (add : ConnBytesAddition)
  : option (Z * option ConnBytesDelivery) :=
  match d with
  | None => Some (SOFTBUS_INVALID_PARAM, None)
  | Some d0 =>
    let '(ret, d1, _) := PullDeliverTaskIfNeed lock1 start d0 in
    if negb (ret =? SOFTBUS_OK) then Some (ret, Some d1)
    else
      match ConnCreateBytesDeliveryItem libc connId dat len add with
      | None => Some (SOFTBUS_MALLOC_ERR, Some d1)
      | Some it =>
        match ConnEnqueue e (Some (dqueue d1)) (Some it) waitTimeoutMs with
        | Some (ret2, Some q') => Some (ret2, Some (MarkPostMessageDone lock2 (setQueueD d1 q')))
        | _ => None
        end
      end
  end.

Definition ConnIsDeliveryTaskRunning (d : option ConnBytesDelivery) (lock : Z) : bool :=
  match d with
  | None => false
  | Some d0 => if negb (lock =? SOFTBUS_OK) then false else deliveryTaskRunning d0
  end.

(** ** Interleavings

    The task: not running, before its dequeue, after an idle timeout, holding
    the lock after the second dequeue found nothing, or stopped by the use of
    the NULL item.  A sender is in the list from the end of
    [PullDeliverTaskIfNeed] to the end of [MarkPostMessageDone]; [None]: it has
    enqueued its item. *)

Inductive taskPc := Exited | Top | Waited | Locked | Crashed.

#[local] Instance taskPc_eq : EqDecision taskPc.
Proof. solve_decision. Defined.

Record Sys := mkSys {
  dl : ConnBytesDelivery;
  task : taskPc;
  senders : list (option Item)
}.

Inductive event :=
| EPull (lock start : Z) (item : option Item)
| EEnqueue (n : nat) (libc : Z -> bool) (alloc : bool)
| EMark (n : nat) (lock : Z)
| EDequeue (timeout : bool)
| ERetry (lock : Z) (timeout : bool)
| EDecide.

(** [EPull] ends a call when the pull fails or there is no item.  A dequeue that
    finds nothing waits; if it is woken it comes back to the start.  [None]: an
    operation of the queue does not return. *)
Definition sysStep (s : Sys) (ev : event) : option Sys :=
  match ev with
  | EPull lock start item =>
    if decide (task s = Locked) then Some s
    else
      let '(ret, d', started) := PullDeliverTaskIfNeed lock start (dl s) in
      let pc := if started then Top else task s in
      if negb (ret =? SOFTBUS_OK) then Some (mkSys d' pc (senders s))
      else Some (mkSys d' pc (senders s ++ match item with None => [] | Some it => [Some it] end))
  | EEnqueue n libc alloc =>
    match senders s !! n with
    | Some (Some it) =>
      match enqueueRound libc alloc (dqueue (dl s)) it with
      | None => None
      | Some (_, q') => Some (mkSys (setQueueD (dl s) q') (task s) (<[n := None]> (senders s)))
      end
    | _ => Some s
    end
  | EMark n lock =>
    if decide (task s = Locked) then Some s
    else
      match senders s !! n with
      | Some None => Some (mkSys (MarkPostMessageDone lock (dl s)) (task s) (delete n (senders s)))
      | _ => Some s
      end
  | EDequeue timeout =>
    if decide (task s = Top) then
      let '(code, _, q') := dequeueRound (dqueue (dl s)) in
      let d' := setQueueD (dl s) q' in
      if code =? QUEUE_EMPTY then Some (mkSys d' (if timeout then Waited else Top) (senders s))
      else Some (mkSys d' Top (senders s))
    else Some s
  | ERetry lock timeout =>
    if decide (task s = Waited) then
      if negb (lock =? SOFTBUS_OK) then Some (mkSys (dl s) Top (senders s))
      else
        let '(code, _, q') := dequeueRound (dqueue (dl s)) in
        let d' := setQueueD (dl s) q' in
        if code =? QUEUE_EMPTY then Some (mkSys d' (if timeout then Locked else Waited) (senders s))
        else Some (mkSys d' Crashed (senders s))
    else Some s
  | EDecide =>
    if decide (task s = Locked) then
      if deliveryMessagePosting (dl s) then Some (mkSys (dl s) Top (senders s))
      else Some (mkSys (setRunning (dl s) false) Exited (senders s))
    else Some s
  end.

Fixpoint runSys (s : Sys) (l : list event) : option Sys :=
  match l with
  | [] => Some s
  | e :: l' => match sysStep s e with None => None | Some s' => runSys s' l' end
  end.

(** At most one sender at a time. *)
Fixpoint solo (s : Sys) (l : list event) : bool :=
  match l with
  | [] => true
  | e :: l' =>
    match e with
    | EPull _ _ _ => bool_decide (senders s = [])
    | _ => true
    end && match sysStep s e with None => true | Some s' => solo s' l' end
  end.

End Model.

Arguments ConnBytesDelivery Q : clear implicits.
Arguments Sys Q : clear implicits.

(** ** With one sender at a time *)

Section Proofs.
Context {Q : Type} `{!FifoOps Q Item, !FifoLaws Q Item}.

Definition nothingQueued (a : abs (P := DeliveryBody)) : Prop := forall i p, flow a i p = [].

Definition validEvent (e : event) : Prop :=
  match e with EPull _ _ (Some it) => 0 <= priority it | _ => True end.

Record inv (sz : Z) (s : Sys Q) : Prop := {
  v_queue : exists a, fpqR sz (dqueue (dl s)) a /\
    (deliveryTaskRunning (dl s) = false -> nothingQueued a) /\
    (task s = Locked -> nothingQueued a \/ deliveryMessagePosting (dl s) = true);
  v_task : deliveryTaskRunning (dl s) = false <-> task s = Exited;
  v_solo : (length (senders s) <= 1)%nat;
  v_posting : senders s <> [] -> deliveryMessagePosting (dl s) = true /\ deliveryTaskRunning (dl s) = true;
  v_items : Forall (fun o => match o with Some it => 0 <= priority (it : Item) | None => True end) (senders s)
}.

Lemma round_cases sz (q : ConnFairPriorityQueue Q) a : fpqR sz q a ->
  exists code out q' a', dequeueRound q = (code, out, q') /\ fpqR sz q' a' /\
    (code = QUEUE_EMPTY -> nothingQueued a /\ nothingQueued a') /\
    (forall i p, length (flow a' i p) <= length (flow a i p))%nat.
Proof.
  intros HR. pose proof (specRound_pops sz q a HR) as Hp.
  destruct (dequeueRound_spec sz q a HR) as (q' & -> & HR'). destruct (specRound a) as [[x|] a']; cbn in *.
  - eexists _, _, _, _. split; [reflexivity|]. split; [exact HR'|]. split; [discriminate|].
    destruct Hp as [H1 H2]. intros i p. destruct (decide (i = id x /\ p = level x)) as [[-> ->]|Hn].
    + rewrite H1. cbn. lia.
    + rewrite H2 by exact Hn. lia.
  - eexists _, _, _, _. split; [reflexivity|]. split; [exact HR'|]. split.
    + intros _. split; intros i p; apply Hp.
    + intros i p. destruct (Hp i p) as [-> ->]. lia.
Qed.

Lemma nothing_shrinks (a a' : abs (P := DeliveryBody)) :
  (forall i p, length (flow a' i p) <= length (flow a i p))%nat -> nothingQueued a -> nothingQueued a'.
Proof. intros H Ha i p. specialize (H i p). rewrite Ha in H. destruct (flow a' i p); [reflexivity|cbn in H; lia]. Qed.

Lemma delivery_step_inv sz s e : inv sz s -> validEvent e ->
  match e with EPull _ _ _ => bool_decide (senders s = []) | _ => true end = true ->
  exists s', sysStep s e = Some s' /\ inv sz s'.
Proof.
  intros Hi Hv Hs. pose proof Hi as [(a & HR & Hrun & Hlk) Ht Hl Hp Hit].
  destruct e as [lock start it|n libc al|n lock|to|lock to|]; cbn [sysStep].
  - case_decide as Hpc; [eauto|]. apply bool_decide_eq_true in Hs. unfold PullDeliverTaskIfNeed.
    destruct (Z.eqb_spec lock SOFTBUS_OK) as [->|Hlock]; cbn [negb].
    2: { rewrite (proj2 (Z.eqb_neq _ _) Hlock). cbn [negb]. eexists. split; [reflexivity|]. destruct s; cbn in *. split; eauto. }
    assert (Hnew : Forall (fun o => match o with Some it => 0 <= priority (it : Item) | None => True end)
      (match it with None => [] | Some i => [Some i] end)).
    { destruct it; [|constructor]. constructor; [exact Hv|constructor]. }
    cbn [deliveryTaskRunning setPosting]. destruct (deliveryTaskRunning (dl s)) eqn:Er.
    + change (SOFTBUS_OK =? SOFTBUS_OK) with true. cbn [negb]. eexists. split; [reflexivity|]. rewrite Hs. cbn [app].
      split; cbn; auto.
      * exists a. split_and!; auto. rewrite Er. discriminate.
      * now rewrite Er.
      * destruct it; cbn; lia.
    + destruct (Z.eqb_spec start SOFTBUS_OK) as [->|Hstart]; cbn [negb].
      * eexists. split; [reflexivity|]. rewrite Hs. cbn [app].
        split; cbn; auto.
        -- exists a. split_and!; auto; discriminate.
        -- split; discriminate.
        -- destruct it; cbn; lia.
      * rewrite (proj2 (Z.eqb_neq _ _) Hstart). cbn [negb]. eexists. split; [reflexivity|]. rewrite Hs.
        split; cbn; auto; [exists a; auto|now rewrite Er].
  - destruct (senders s !! n) as [[it|]|] eqn:En; [|eauto|eauto].
    pose proof (proj1 (Forall_lookup _ _) Hit _ _ En) as Hpri. cbn in Hpri.
    destruct (enqueueRound_spec sz libc al (dqueue (dl s)) a it HR Hpri) as (code & q' & a' & -> & HR' & _).
    assert (Hne : senders s <> []) by (intros E; rewrite E in En; discriminate).
    destruct (Hp Hne) as [Hpost Hrunning].
    eexists. split; [reflexivity|]. split; cbn.
    + exists a'. split_and!; auto. rewrite Hrunning. discriminate.
    + exact Ht.
    + now rewrite length_insert.
    + intros _. auto.
    + apply Forall_insert; [exact Hit|exact I].
  - case_decide as Hpc; [eauto|]. destruct (senders s !! n) as [[it|]|] eqn:En; [eauto| |eauto].
    assert (Hne : senders s <> []) by (intros E; rewrite E in En; discriminate).
    destruct (Hp Hne) as [Hpost Hrunning].
    assert (Hempty : delete n (senders s) = []).
    { destruct (senders s) as [|x [|y l]]; [congruence| |cbn in Hl; lia]. destruct n; [reflexivity|discriminate]. }
    eexists. split; [reflexivity|]. unfold MarkPostMessageDone. rewrite Hempty.
    destruct (negb (lock =? SOFTBUS_OK)); split; cbn; auto; try (exists a; split_and!; auto; tauto); try constructor; congruence.
  - case_decide as Hpc; [|eauto].
    destruct (round_cases sz (dqueue (dl s)) a HR) as (code & out & q' & a' & -> & HR' & He & Hsh).
    destruct (code =? QUEUE_EMPTY); eexists; (split; [reflexivity|]); split; cbn; auto.
    + exists a'. split_and!; [exact HR'|intros E; eapply nothing_shrinks; eauto|]. destruct to; discriminate.
    + rewrite Ht, Hpc. destruct to; split; discriminate.
    + exists a'. split_and!; [exact HR'|intros E; eapply nothing_shrinks; eauto|discriminate].
    + rewrite Ht, Hpc. split; discriminate.
  - case_decide as Hpc; [|eauto]. destruct (negb (lock =? SOFTBUS_OK)).
    { eexists. split; [reflexivity|]. split; cbn; auto; [exists a; split_and!; auto; discriminate|].
      rewrite Ht, Hpc. split; discriminate. }
    destruct (round_cases sz (dqueue (dl s)) a HR) as (code & out & q' & a' & -> & HR' & He & Hsh).
    destruct (Z.eqb_spec code QUEUE_EMPTY) as [Hc|Hc]; eexists; (split; [reflexivity|]); split; cbn; auto.
    + exists a'. split_and!; [exact HR'|intros E; eapply nothing_shrinks; eauto|]. intros _. left. now apply He.
    + rewrite Ht, Hpc. destruct to; split; discriminate.
    + exists a'. split_and!; [exact HR'|intros E; eapply nothing_shrinks; eauto|discriminate].
    + rewrite Ht, Hpc. split; discriminate.
  - case_decide as Hpc; [|eauto]. destruct (deliveryMessagePosting (dl s)) eqn:Epost; eexists; (split; [reflexivity|]).
    + split; cbn; auto; [exists a; split_and!; auto; discriminate|rewrite Ht, Hpc; split; discriminate|].
      intros Hne. destruct (Hp Hne). auto.
    + destruct (Hlk Hpc) as [Hnq|]; [|congruence]. split; cbn; auto.
      * exists a. split_and!; auto; discriminate.
      * split; reflexivity.
      * intros Hne. destruct (Hp Hne). congruence.
Qed.

Lemma delivery_run_inv sz l : forall s, inv sz s -> Forall validEvent l -> solo s l = true ->
  exists s', runSys s l = Some s' /\ inv sz s'.
Proof.
  induction l as [|e l IH]; intros s Hi Hv Hs; cbn [runSys solo] in *; [eauto|].
  apply andb_prop in Hs as [Hs1 Hs2]. inversion Hv; subst.
  destruct (delivery_step_inv sz s e Hi) as (s1 & E & Hi1); [assumption|destruct e; auto|]. rewrite E in *. auto.
Qed.

Lemma start_inv sz d : ConnCreateBytesDelivery true true true sz yes yes yes 0 0 0 0 = Some d ->
  inv sz (mkSys d Exited []).
Proof.
  unfold ConnCreateBytesDelivery. cbn [negb]. destruct (SoftBusCalloc _ _); [|discriminate]. cbn [negb].
  destruct (ConnCreateQueue _ _ _ _ _ _) as [q|] eqn:E; [|discriminate]. intros [= <-].
  apply ConnCreateQueue_spec in E. split; cbn; auto.
  - exists (mkAbs [[]; []; []] []). split_and!; auto; [|discriminate]. intros _ i p. unfold flow.
    cbn [flowOf aInner aOuter]. destruct (0 =? i); [|reflexivity]. destruct p as [|[|[|p]]]; reflexivity.
  - split; reflexivity.
Qed.

End Proofs.

(** ** Properties *)

#[local] Existing Instance LockFreeQueue.lfq_ops.
#[local] Existing Instance LockFreeQueue.lfq_laws.
Abbreviation LQ := (LockFreeQueue.LockFreeQueue Item).

(** Senders that post one after the other never leave a message behind: in every
    interleaving with the delivery task all operations return, and once the task
    is marked as not running (the next sender will start it again) it has ended
    with the queue empty. *)
Theorem solo_senders_never_stuck (sz : Z) (d : ConnBytesDelivery LQ) (l : list event)
    (Hd : ConnCreateBytesDelivery true true true sz yes yes yes 0 0 0 0 = Some d)
    (Hv : Forall validEvent l) (Hsolo : solo (mkSys d Exited []) l = true) :
  exists s, runSys (mkSys d Exited []) l = Some s /\
    (deliveryTaskRunning (dl s) = false <-> task s = Exited) /\
    (task s = Exited -> exists a, fpqR sz (dqueue (dl s)) a /\ forall i p, flow a i p = []).
Proof.
  destruct (delivery_run_inv sz l _ (start_inv sz d Hd) Hv Hsolo) as (s & Hr & [(a & HR & Hn & _) Ht _ _ _]).
  exists s. split; [exact Hr|]. split; [exact Ht|]. intros E. exists a. split; [exact HR|]. now apply Hn, Ht.
Qed.

(** ** Examples and witnesses *)

Definition delivery4 : ConnBytesDelivery LQ :=
  default (mkDelivery (mkFPQ 0 [] (mkPQ 0 [] 0)) false false)
    (ConnCreateBytesDelivery true true true 4 yes yes yes 0 0 0 0).

Definition msg (n : Z) : Item :=
  ConnQueueItemConstruct 7 1 (mkBody n [] 0 (mkAddition 0 7 CONN_MIDDLE n)).

Definition soloRun : list event :=
  [EPull 0 0 (Some (msg 1)); EDequeue true; EEnqueue 0 yes true; EMark 0 0; ERetry 5 true;
   EDequeue true; EDequeue true; ERetry 0 true; EDecide].

Lemma solo_senders_never_stuck_witness : exists s,
  runSys (mkSys delivery4 Exited []) soloRun = Some s /\ task s = Exited.
Proof.
  destruct (solo_senders_never_stuck 4 delivery4 soloRun) as (s & Hs & _).
  - vm_compute. reflexivity.
  - repeat constructor; cbn; lia.
  - vm_compute. reflexivity.
  - exists s. split; [exact Hs|]. vm_compute in Hs. injection Hs as <-. reflexivity.
Defined.

(** Two senders at once: the first one clears the mark of the second, the task
    ends, and the message of the second stays in the queue with no task. *)
Lemma two_senders_stuck : exists s,
  runSys (mkSys delivery4 Exited [])
    [EPull 0 0 (Some (msg 1)); EEnqueue 0 yes true; EDequeue true; EPull 0 0 (Some (msg 2)); EMark 0 0;
     EDequeue true; ERetry 0 true; EDecide; EEnqueue 0 yes true; EMark 0 0] = Some s /\
  task s = Exited /\ senders s = [] /\ (dequeueRound (dqueue (dl s))).1.2 = Some (msg 2).
Proof. eexists. split; [vm_compute; reflexivity|]. repeat split. Qed.

(** A message that arrives between the idle timeout and the second dequeue is
    taken out of the queue and lost, and the task uses a NULL item. *)
Lemma retry_loses_item : exists s,
  runSys (mkSys delivery4 Exited [])
    [EPull 0 0 (Some (msg 1)); EDequeue true; EEnqueue 0 yes true; ERetry 0 true] = Some s /\
  task s = Crashed /\ (dequeueRound (dqueue (dl s))).1.2 = None.
Proof. eexists. split; [vm_compute; reflexivity|]. split; reflexivity. Qed.

(** The same in the code of [DeliverTask]: while the first dequeue waits for the
    idle timeout another thread enqueues. *)
Definition enqueuedDuringWait (d : option (Z * Z)) (q : ConnFairPriorityQueue LQ)
  : Z * ConnFairPriorityQueue LQ :=
  match enqueueRound yes true q (msg 1) with
  | Some (_, q') => (SOFTBUS_TIMOUT, q')
  | None => (SOFTBUS_TIMOUT, q)
  end.

Lemma DeliverTask_null_item :
  let e1 := mkEnv 0 yes true (0, (0, 0)) enqueuedDuringWait in
  let e2 := mkEnv 0 yes true (0, (0, 0)) (fun _ q => (SOFTBUS_TIMOUT, q)) in
  exists d', DeliverTask e1 e2 0 1000 delivery4 = Some (NullItem d').
Proof. eexists. vm_compute. reflexivity. Qed.

End BytesDelivery.
