(* ===== verification/RcCollection.v ===== *)
(** * Reference-counted objects and their collections

    Model of core/connection/common/src/softbus_rc_object.c and
    softbus_rc_collection.c.  Objects live at addresses; the free hook of an
    object, a function of its owner, releases it.  The identifier generator of a
    collection and the matcher of a search are functions of the caller too and
    are arguments here.  [None] as the result of an operation means undefined
    behaviour: an object or a list that has been released is used, or a node
    that is in the list is linked into it again. *)

From S2P Require Import Prelude ErrorCode.
From stdpp Require Import list gmap.
#[local] Open Scope Z_scope.

Module RcCollection.

Definition SOFTBUS_RC_ID_EXHAUSTED_ERR : Z := SOFTBUS_PUBLIC_ERR_BASE + 107.

Record SoftBusRcObject := mkObject { id : Z; objectRc : Z }.

(** [heap] the live objects, [objects] the nodes of the collection's list,
    [nextId] the static counter. *)
Record State := mkState {
  heap : gmap nat SoftBusRcObject;
  brk : nat;
  objects : list nat;
  nextId : Z
}.

Definition setHeap (st : State) (h : gmap nat SoftBusRcObject) : State :=
  mkState h (brk st) (objects st) (nextId st).

(** [lock]: the answer of the object's lock. *)
Definition Reference (lock : Z) (object : option nat) (st : State) : option (Z * State) :=
  match object with
  | None => Some (SOFTBUS_INVALID_PARAM, st)
  | Some a =>
    match heap st !! a with
    | None => None
    | Some o =>
      if negb (lock =? SOFTBUS_OK) then Some (lock, st)
      else Some (SOFTBUS_OK, setHeap st (<[a := mkObject (id o) (s32 (objectRc o + 1))]> (heap st)))
    end
  end.

(** [ptr] is [None] for a NULL pointer to the pointer; the result is the pointer
    left in [*ptr]. *)
Definition Deference (lock : Z) (ptr : option (option nat)) (st : State)
  : option (option nat * State) :=
  match ptr with
  | None => Some (None, st)
  | Some None => Some (None, st)
  | Some (Some a) =>
    match heap st !! a with
    | None => None
    | Some o =>
      if negb (lock =? SOFTBUS_OK) then Some (Some a, st)
      else
        let remain := s32 (objectRc o - 1) in
        let h := <[a := mkObject (id o) remain]> (heap st) in
        if remain <=? 0 then Some (None, setHeap st (delete a h))
        else Some (None, setHeap st h)
    end
  end.

(** A new object at a fresh address, for the caller. *)
Definition SoftBusRcObjectConstruct (name hook : bool) (mutexInit : Z) (st : State)
  : Z * option nat * State :=
  if negb name then (SOFTBUS_INVALID_PARAM, None, st)
  else if negb hook then (SOFTBUS_INVALID_PARAM, None, st)
  else if negb (mutexInit =? SOFTBUS_OK) then (mutexInit, None, st)
  else (SOFTBUS_OK, Some (brk st),
        mkState (<[brk st := mkObject 0 1]> (heap st)) (S (brk st)) (objects st) (nextId st)).

(** Does an object of the list have this identifier?  [None] on a freed node. *)
Fixpoint idInUse (h : gmap nat SoftBusRcObject) (l : list nat) (i : Z) : option bool :=
  match l with
  | [] => Some false
  | a :: l' =>
    match h !! a with
    | None => None
    | Some o => if i =? id o then Some true else idInUse h l' i
    end
  end.

(** [retry] bounds the recursion; the result is the identifier and the counter
    after the call. *)
Fixpoint AllocateUniqueIdUnsafe (idGenerator : Z -> Z) (h : gmap nat SoftBusRcObject) (l : list nat)
    (next : Z) (retry : nat) : option (Z * Z) :=
  match retry with
  | O => Some (0, next)
  | S retry' =>
    let index := if next =? 0 then 1 else next in
    let i := u32 (idGenerator index) in
    match idInUse h l i with
    | None => None
    | Some true => AllocateUniqueIdUnsafe idGenerator h l (u16 (index + 1)) retry'
    | Some false => Some (i, u16 (index + 1))
    end
  end.

Definition setId (st : State) (a : nat) (o : SoftBusRcObject) (i next : Z) : State :=
  mkState (<[a := mkObject i (objectRc o)]> (heap st)) (brk st) (objects st) next.

(** [listLock] and [lock]: the answers of the list's and of the object's lock;
    [idGenerator] is [None] for a collection without one.  The insertion does not
    look whether the node is linked: a linked one tears the list. *)
Definition SoftBusRcSave (idGenerator : option (SoftBusRcObject -> Z -> Z)) (listLock lock : Z)
    (object : option nat) (st : State) : option (Z * State) :=
  match object with
  | None => Some (SOFTBUS_INVALID_PARAM, st)
  | Some a =>
    if negb (listLock =? SOFTBUS_OK) then Some (listLock, st)
    else
      match heap st !! a with
      | None => None
      | Some o =>
        let r :=
          match idGenerator with
          | None => Some (inr st)
          | Some gen =>
            match AllocateUniqueIdUnsafe (gen o) (heap st) (objects st) (nextId st)
                    (Z.to_nat UINT16_MAX) with
            | None => None
            | Some (i, next) =>
              let st' := mkState (heap st) (brk st) (objects st) next in
              if i =? 0 then Some (inl st') else Some (inr (setId st a o i next))
            end
          end in
        match r with
        | None => None
        | Some (inl st') => Some (SOFTBUS_RC_ID_EXHAUSTED_ERR, st')
        | Some (inr st') =>
          match Reference lock object st' with
          | None => None
          | Some (code, st'') =>
            if negb (code =? SOFTBUS_OK) then Some (code, st'')
            else if bool_decide (a ∈ objects st'') then None
            else Some (SOFTBUS_OK,
                       mkState (heap st'') (brk st'') (objects st'' ++ [a]) (nextId st''))
          end
        end
      end
  end.

(** The first object of [l] the matcher accepts. *)
Fixpoint findObject (matcher : nat -> SoftBusRcObject -> bool) (h : gmap nat SoftBusRcObject)
    (l : list nat) : option (option nat) :=
  match l with
  | [] => Some None
  | a :: l' =>
    match h !! a with
    | None => None
    | Some o => if matcher a o then Some (Some a) else findObject matcher h l'
    end
  end.

Definition SoftBusRcGetCommon (matcher : nat -> SoftBusRcObject -> bool) (listLock lock : Z)
    (st : State) : option (option nat * State) :=
  if negb (listLock =? SOFTBUS_OK) then Some (None, st)
  else
    match findObject matcher (heap st) (objects st) with
    | None => None
    | Some None => Some (None, st)
    | Some (Some a) =>
      match Reference lock (Some a) st with
      | None => None
      | Some (code, st') => if negb (code =? SOFTBUS_OK) then Some (None, st') else Some (Some a, st')
      end
    end.

Definition IdMatcher (i : Z) (_ : nat) (o : SoftBusRcObject) : bool := id o =? i.

Definition SoftBusRcGetById (i : Z) := SoftBusRcGetCommon (IdMatcher i).

Definition PointerMatcher (p a : nat) (_ : SoftBusRcObject) : bool := bool_decide (a = p).

(** [lock1]: the object's lock in [SoftBusRcGetCommon]; [lock2] and [lock3]: in
    the two dereferences.  The list's lock is recursive. *)
Definition SoftBusRcRemove (listLock lock1 lock2 lock3 : Z) (object : option nat) (st : State)
  : option State :=
  match object with
  | None => Some st
  | Some p =>
    if negb (listLock =? SOFTBUS_OK) then Some st
    else
      match SoftBusRcGetCommon (PointerMatcher p) SOFTBUS_OK lock1 st with
      | None => None
      | Some (None, st1) => Some st1
      | Some (Some a, st1) =>
        let st2 := mkState (heap st1) (brk st1) (base.filter (fun b => b <> a) (objects st1)) (nextId st1) in
        match Deference lock2 (Some (Some a)) st2 with
        | None => None
        | Some (_, st3) =>
          match Deference lock3 (Some (Some a)) st3 with
          | None => None
          | Some (_, st4) => Some st4
          end
        end
      end
  end.

(** [locks]: the answers of the objects' locks, in the order of the list. *)
Fixpoint destructLoop (locks : nat -> Z) (n : nat) (l : list nat) (st : State) : option State :=
  match l with
  | [] => Some st
  | a :: l' =>
    let st1 := mkState (heap st) (brk st) l' (nextId st) in
    match Deference (locks n) (Some (Some a)) st1 with
    | None => None
    | Some (_, st2) => destructLoop locks (S n) l' st2
    end
  end.

Definition SoftBusRcCollectionDestruct (listLock : Z) (locks : nat -> Z) (st : State) : option State :=
  if negb (listLock =? SOFTBUS_OK) then Some st else destructLoop locks 0 (objects st) st.

(** ** Clients

    [handles]: the references clients hold, one entry each; [opened]: the
    collection has not been destructed. *)

Record Sys := mkSys { st : State; handles : list nat; opened : bool }.

Inductive op :=
| OpNew (mutexInit : Z)
| OpSave (listLock lock : Z) (a : nat)
| OpGet (matcher : nat -> SoftBusRcObject -> bool) (listLock lock : Z)
| OpReference (lock : Z) (a : nat)
| OpRemove (listLock lock1 lock2 lock3 : Z) (a : nat)
| OpDereference (lock : Z) (a : nat)
| OpDestruct (listLock : Z) (locks : nat -> Z).

(** One reference to [a] less. *)
Fixpoint dropOne (a : nat) (l : list nat) : list nat :=
  match l with
  | [] => []
  | b :: l' => if decide (a = b) then l' else b :: dropOne a l'
  end.

(** One operation, as the code runs it.  A destructed collection has lost its
    list ([objects] is NULL and is read without a check), except that destructing
    it again does nothing. *)
Definition sysStep (gen : option (SoftBusRcObject -> Z -> Z)) (s : Sys) (o : op) : option Sys :=
  match o with
  | OpNew mi =>
    let '(_, a, st') := SoftBusRcObjectConstruct true true mi (st s) in
    Some (mkSys st' (option_list a ++ handles s) (opened s))
  | OpSave ll lk a =>
    if opened s then
      match SoftBusRcSave gen ll lk (Some a) (st s) with
      | None => None
      | Some (_, st') => Some (mkSys st' (handles s) (opened s))
      end
    else None
  | OpGet m ll lk =>
    if opened s then
      match SoftBusRcGetCommon m ll lk (st s) with
      | None => None
      | Some (a, st') => Some (mkSys st' (option_list a ++ handles s) (opened s))
      end
    else None
  | OpReference lk a =>
    match Reference lk (Some a) (st s) with
    | None => None
    | Some (code, st') =>
      Some (mkSys st' (if code =? SOFTBUS_OK then a :: handles s else handles s) (opened s))
    end
  | OpRemove ll l1 l2 l3 a =>
    if opened s then
      match SoftBusRcRemove ll l1 l2 l3 (Some a) (st s) with
      | None => None
      | Some st' => Some (mkSys st' (handles s) (opened s))
      end
    else None
  | OpDereference lk a =>
    match Deference lk (Some (Some a)) (st s) with
    | None => None
    | Some (p, st') =>
      Some (mkSys st' (match p with None => dropOne a (handles s) | Some _ => handles s end) (opened s))
    end
  | OpDestruct ll ls =>
    if opened s then
      match SoftBusRcCollectionDestruct ll ls (st s) with
      | None => None
      | Some st' => Some (mkSys st' (handles s) (negb (ll =? SOFTBUS_OK)))
      end
    else Some s
  end.

(** What the client owes: it uses an object only while it holds a reference to
    it, saves it only while it is not in the collection, and leaves a destructed
    collection alone. *)
Definition allowed (s : Sys) (o : op) : Prop :=
  match o with
  | OpNew _ | OpDestruct _ _ => True
  | OpSave _ _ a => opened s = true /\ a ∈ handles s /\ a ∉ objects (st s)
  | OpGet _ _ _ => opened s = true
  | OpReference _ a | OpDereference _ a => a ∈ handles s
  | OpRemove _ _ _ _ a => opened s = true /\ a ∈ handles s
  end.

#[local] Instance allowed_dec s o : Decision (allowed s o).
Proof. destruct o; cbn; apply _. Defined.

(** Every operation of a run is allowed when it starts. *)
Fixpoint legalRun (gen : option (SoftBusRcObject -> Z -> Z)) (s : Sys) (l : list op) : Prop :=
  match l with
  | [] => True
  | o :: l' => allowed s o /\ forall s', sysStep gen s o = Some s' -> legalRun gen s' l'
  end.

Fixpoint runSys (gen : option (SoftBusRcObject -> Z -> Z)) (s : Sys) (l : list op) : option Sys :=
  match l with
  | [] => Some s
  | o :: l' => match sysStep gen s o with None => None | Some s' => runSys gen s' l' end
  end.

(** The same, as a test. *)
Fixpoint isLegal (gen : option (SoftBusRcObject -> Z -> Z)) (s : Sys) (l : list op) : bool :=
  match l with
  | [] => true
  | o :: l' =>
    bool_decide (allowed s o) && match sysStep gen s o with None => true | Some s' => isLegal gen s' l' end
  end.

Lemma isLegal_sound gen l : forall s, isLegal gen s l = true -> legalRun gen s l.
Proof.
  induction l as [|o l IH]; intros s; cbn [isLegal legalRun]; [auto|].
  rewrite andb_true_iff, bool_decide_eq_true. intros [Ho Hl]. split; [exact Ho|].
  intros s' E. rewrite E in Hl. auto.
Qed.

Definition emptySys : Sys := mkSys (mkState ∅ 0 [] 1) [] true.

(** Every lock of the operation is acquired. *)
Definition locksOK (o : op) : Prop :=
  match o with
  | OpNew _ => True
  | OpSave a b _ | OpGet _ a b => a = SOFTBUS_OK /\ b = SOFTBUS_OK
  | OpReference a _ | OpDereference a _ => a = SOFTBUS_OK
  | OpRemove a b c d _ => a = SOFTBUS_OK /\ b = SOFTBUS_OK /\ c = SOFTBUS_OK /\ d = SOFTBUS_OK
  | OpDestruct a f => a = SOFTBUS_OK /\ forall n, f n = SOFTBUS_OK
  end.

(** ** Counting references

    [R]: everything that refers to an object.  [strict]: no reference has been
    leaked. *)

Abbreviation refs := (count_occ Nat.eq_dec).

Definition counted (strict : bool) (N : Z) (R : list nat) (h : gmap nat SoftBusRcObject) : Prop :=
  (forall a, a ∈ R -> is_Some (h !! a)) /\
  (forall a o, h !! a = Some o -> 1 <= objectRc o <= N /\ Z.of_nat (refs R a) <= objectRc o /\
     (strict = true -> Z.of_nat (refs R a) = objectRc o)).

Lemma counted_perm strict N R R' h : R ≡ₚ R' -> counted strict N R h -> counted strict N R' h.
Proof.
  intros HR [H1 H2]. pose proof (proj1 (Permutation_count_occ Nat.eq_dec R R') HR) as Hc. split.
  - intros a Ha. apply H1. now rewrite HR.
  - intros a o Ho. rewrite <- Hc. auto.
Qed.

#[local] Instance counted_proper strict N : Proper (Permutation ==> eq ==> iff) (counted strict N).
Proof. intros R R' HR h h' ->. split; now apply counted_perm. Qed.

Lemma counted_weaken strict N N' R h : N <= N' -> counted strict N R h -> counted strict N' R h.
Proof. intros HN [H1 H2]. split; [exact H1|]. intros a o Ho. destruct (H2 a o Ho) as ((? & ?) & ? & ?). split_and!; auto; lia. Qed.

Lemma counted_lax strict N R h : counted strict N R h -> counted false N R h.
Proof. intros [H1 H2]. split; [exact H1|]. intros a o Ho. destruct (H2 a o Ho) as (? & ? & ?). split_and!; auto; try lia; discriminate. Qed.

(** Forgetting about a reference. *)
Lemma counted_forget N R a h : counted false N (a :: R) h -> counted false N R h.
Proof.
  intros [H1 H2]. split; [intros b Hb; apply H1; now right|].
  intros b o Ho. destruct (H2 b o Ho) as (H3 & H4 & _). split; [exact H3|]. split; [|discriminate].
  cbn in H4. destruct (Nat.eq_dec a b); lia.
Qed.

Lemma counted_id strict N R h a o i : counted strict N R h -> h !! a = Some o ->
  counted strict N R (<[a := mkObject i (objectRc o)]> h).
Proof.
  intros [H1 H2] Ho. split.
  - intros b Hb. destruct (decide (a = b)) as [<-|]; [rewrite lookup_insert_eq; eauto|].
    rewrite lookup_insert_ne by assumption. auto.
  - intros b p Hp. destruct (decide (a = b)) as [<-|].
    + rewrite lookup_insert_eq in Hp. injection Hp as <-. apply (H2 a o Ho).
    + rewrite lookup_insert_ne in Hp by assumption. auto.
Qed.

Lemma counted_new strict N R h a : 1 <= N -> counted strict N R h -> h !! a = None ->
  counted strict N (a :: R) (<[a := mkObject 0 1]> h).
Proof.
  intros HN [H1 H2] Ha.
  assert (HR : refs R a = 0%nat).
  { apply count_occ_not_In. intros Hin%list_elem_of_In%H1. rewrite Ha in Hin. now destruct Hin. }
  split.
  - intros b Hb. destruct (decide (a = b)) as [<-|]; [rewrite lookup_insert_eq; eauto|].
    rewrite lookup_insert_ne by assumption. apply elem_of_cons in Hb as [->|]; [congruence|auto].
  - intros b p Hp. cbn. destruct (Nat.eq_dec a b) as [<-|].
    + rewrite lookup_insert_eq in Hp. injection Hp as <-. cbn. rewrite HR. lia.
    + rewrite lookup_insert_ne in Hp by assumption. auto.
Qed.

Lemma Reference_counted strict N R lock a st : counted strict N R (heap st) -> a ∈ R -> N < 2147483647 ->
  exists st' code, Reference lock (Some a) st = Some (code, st') /\
    code = lock /\ brk st' = brk st /\ objects st' = objects st /\ nextId st' = nextId st /\
    (forall b, is_Some (heap st' !! b) <-> is_Some (heap st !! b)) /\
    (forall b, id <$> heap st' !! b = id <$> heap st !! b) /\
    if lock =? SOFTBUS_OK then counted strict (N + 1) (a :: R) (heap st') else st' = st.
Proof.
  intros Hc Ha HN. pose proof Hc as [H1 H2]. unfold Reference. destruct (H1 a Ha) as [o Ho]. rewrite Ho.
  destruct (Z.eqb_spec lock SOFTBUS_OK) as [->|Hl]; cbn [negb]; [|eexists _, _; split_and!; reflexivity].
  destruct (H2 a o Ho) as (H3 & H4 & H5). rewrite s32_small by (unfold in_s32; lia).
  eexists _, _. split; [reflexivity|]. cbn. split_and!; auto.
  - intros b. destruct (decide (a = b)) as [<-|]; [rewrite lookup_insert_eq; split; eauto|].
    now rewrite lookup_insert_ne.
  - intros b. destruct (decide (a = b)) as [<-|]; [now rewrite lookup_insert_eq, Ho|].
    now rewrite lookup_insert_ne.
  - split.
    + intros b Hb. destruct (decide (a = b)) as [<-|]; [rewrite lookup_insert_eq; eauto|].
      rewrite lookup_insert_ne by assumption. apply elem_of_cons in Hb as [->|]; [congruence|auto].
    + intros b p Hp. cbn. destruct (Nat.eq_dec a b) as [<-|].
      * rewrite lookup_insert_eq in Hp. injection Hp as <-. cbn. split_and!; try lia. intros Hs. specialize (H5 Hs). lia.
      * rewrite lookup_insert_ne in Hp by assumption. destruct (H2 b p Hp) as (? & ? & ?). split_and!; auto; lia.
Qed.

Lemma Deference_counted strict N R lock a st : counted strict N (a :: R) (heap st) -> N < 2147483648 ->
  exists st' p, Deference lock (Some (Some a)) st = Some (p, st') /\
    brk st' = brk st /\ objects st' = objects st /\ nextId st' = nextId st /\
    (forall b, is_Some (heap st' !! b) -> is_Some (heap st !! b)) /\
    (forall b o, heap st' !! b = Some o -> exists o', heap st !! b = Some o' /\ id o' = id o) /\
    if lock =? SOFTBUS_OK then p = None /\ counted strict N R (heap st') else p = Some a /\ st' = st.
Proof.
  intros [H1 H2] HN. unfold Deference. destruct (H1 a) as [o Ho]; [left|]. rewrite Ho.
  destruct (Z.eqb_spec lock SOFTBUS_OK) as [->|Hl]; cbn [negb]; [|eexists _, _; split_and!; eauto].
  destruct (H2 a o Ho) as (H3 & H4 & H5). rewrite s32_small by (unfold in_s32; lia).
  cbn in H4, H5. destruct (Nat.eq_dec a a) as [_|]; [|congruence].
  assert (Hother : forall b p, b <> a -> heap st !! b = Some p -> 1 <= objectRc p <= N /\
    Z.of_nat (refs R b) <= objectRc p /\ (strict = true -> Z.of_nat (refs R b) = objectRc p)).
  { intros b p Hb Hp. destruct (H2 b p Hp) as (? & H & H'). cbn in H, H'. destruct (Nat.eq_dec a b); [congruence|auto]. }
  destruct (Z.leb_spec (objectRc o - 1) 0) as [Hz|Hz]; eexists _, _; (split; [reflexivity|]); cbn;
    split_and!; auto.
  - intros b. destruct (decide (a = b)) as [<-|]; [rewrite lookup_delete_eq; intros [? [=]]|].
    now rewrite lookup_delete_ne, lookup_insert_ne.
  - intros b p. destruct (decide (a = b)) as [<-|]; [now rewrite lookup_delete_eq|].
    rewrite lookup_delete_ne, lookup_insert_ne by assumption. eauto.
  - split.
    + intros b Hb. assert (b <> a).
      { intros ->. apply list_elem_of_In, (count_occ_In Nat.eq_dec) in Hb. lia. }
      rewrite lookup_delete_ne, lookup_insert_ne by congruence. apply H1. now right.
    + intros b p. destruct (decide (a = b)) as [<-|]; [now rewrite lookup_delete_eq|].
      rewrite lookup_delete_ne, lookup_insert_ne by assumption. auto.
  - intros b. destruct (decide (a = b)) as [<-|]; [eauto|]. now rewrite lookup_insert_ne.
  - intros b p. destruct (decide (a = b)) as [<-|]; [rewrite lookup_insert_eq; intros [= <-]; eauto|].
    rewrite lookup_insert_ne by assumption. eauto.
  - split.
    + intros b Hb. destruct (decide (a = b)) as [<-|]; [rewrite lookup_insert_eq; eauto|].
      rewrite lookup_insert_ne by assumption. apply H1. now right.
    + intros b p. destruct (decide (a = b)) as [<-|].
      * rewrite lookup_insert_eq. intros [= <-]. cbn. split_and!; try lia. intros Hs. specialize (H5 Hs). lia.
      * rewrite lookup_insert_ne by assumption. auto.
Qed.

(** The reference [a] is given up, or leaked when the lock fails. *)
Lemma Deference_drop strict N R lock a st : counted strict N (a :: R) (heap st) -> N < 2147483648 ->
  (strict = true -> lock = SOFTBUS_OK) ->
  exists st' p, Deference lock (Some (Some a)) st = Some (p, st') /\
    brk st' = brk st /\ objects st' = objects st /\ nextId st' = nextId st /\
    (forall b o, heap st' !! b = Some o -> exists o', heap st !! b = Some o' /\ id o' = id o) /\
    (p = None \/ p = Some a /\ st' = st) /\ counted strict N R (heap st').
Proof.
  intros Hc HN Hs. destruct (Deference_counted strict N R lock a st Hc HN) as (st' & p & -> & H1 & H2 & H3 & _ & H5 & H).
  exists st', p. destruct (Z.eqb_spec lock SOFTBUS_OK) as [->|Hl].
  - destruct H as [-> H]. split_and!; auto.
  - destruct H as [-> ->]. destruct strict; [now destruct Hl; apply Hs|].
    split_and!; auto. now apply counted_forget in Hc.
Qed.

(** ** Identifiers *)

Definition norm (next : Z) : Z := if next =? 0 then 1 else next.

(** The index tried after [j] failures. *)
Definition tried (next : Z) (j : nat) : Z := (norm next - 1 + Z.of_nat j) mod 65535 + 1.

Lemma norm_range next : in_u16 next -> 1 <= norm next < 65536.
Proof. unfold in_u16, norm. intros. zcase; lia. Qed.

Lemma tried_0 next : in_u16 next -> tried next 0 = norm next.
Proof. intros H%norm_range. unfold tried. rewrite Z.mod_small; lia. Qed.

Lemma tried_S next j : in_u16 next -> tried next (S j) = tried (u16 (norm next + 1)) j.
Proof.
  intros H%norm_range. unfold tried, norm at 2, u16. f_equal.
  destruct (Z.eq_dec (norm next) 65535) as [->|Hne].
  - change ((65535 + 1) mod 65536) with 0. cbn [Z.eqb].
    replace (65535 - 1 + Z.of_nat (S j)) with (1 - 1 + Z.of_nat j + 1 * 65535) by lia. apply Z_mod_plus_full.
  - rewrite (Z.mod_small (norm next + 1)) by lia.
    destruct (Z.eqb_spec (norm next + 1) 0); [lia|]. f_equal. lia.
Qed.

(** Within 65535 attempts every index is tried. *)
Lemma tried_all next k : in_u16 next -> 1 <= k <= 65535 ->
  exists j, (j < Z.to_nat UINT16_MAX)%nat /\ tried next j = k.
Proof.
  intros H%norm_range Hk. exists (Z.to_nat ((k - norm next) mod 65535)).
  pose proof (Z.mod_pos_bound (k - norm next) 65535 ltac:(lia)). split; [lia|].
  unfold tried. rewrite Z2Nat.id by lia. rewrite Zplus_mod_idemp_r.
  replace (norm next - 1 + (k - norm next)) with (k - 1) by lia. rewrite Z.mod_small; lia.
Qed.

Definition used (h : gmap nat SoftBusRcObject) (l : list nat) (i : Z) : Prop :=
  exists a o, a ∈ l /\ h !! a = Some o /\ id o = i.

Lemma idInUse_spec h l i : (forall a, a ∈ l -> is_Some (h !! a)) ->
  exists b, idInUse h l i = Some b /\ (b = true <-> used h l i).
Proof.
  induction l as [|a l IH]; intros Hl; cbn [idInUse].
  - exists false. split; [reflexivity|]. split; [discriminate|]. intros (a & o & Ha & _). now apply not_elem_of_nil in Ha.
  - destruct (Hl a) as [o Ho]; [left|]. rewrite Ho. destruct (Z.eqb_spec i (id o)) as [->|Hne].
    + exists true. split; [reflexivity|]. split; [|reflexivity]. intros _. exists a, o. split_and!; auto. left.
    + destruct IH as (b & -> & Hb); [intros c Hc; apply Hl; now right|]. exists b. split; [reflexivity|]. rewrite Hb.
      split; intros (c & p & Hc & Hp & Hi).
      * exists c, p. split_and!; auto. now right.
      * apply elem_of_cons in Hc as [->|Hc]; [congruence|]. exists c, p. auto.
Qed.

(** What the allocation answers: an unused identifier, or nothing after all its
    attempts failed. *)
Lemma Allocate_spec gen h l retry : forall next, in_u16 next -> (forall a, a ∈ l -> is_Some (h !! a)) ->
  exists i next', AllocateUniqueIdUnsafe gen h l next retry = Some (i, next') /\ in_u16 next' /\
    ((exists j, (j < retry)%nat /\ i = u32 (gen (tried next j)) /\ ~ used h l i) \/
     (i = 0 /\ forall j, (j < retry)%nat -> used h l (u32 (gen (tried next j))))).
Proof.
  induction retry as [|n IH]; intros next Hn Hl; cbn [AllocateUniqueIdUnsafe].
  - exists 0, next. split_and!; auto; [apply Hn..|]. right. split; [reflexivity|]. intros; lia.
  - fold (norm next). destruct (idInUse_spec h l (u32 (gen (norm next))) Hl) as (b & -> & Hb).
    pose proof (norm_range next Hn). destruct b.
    + destruct (IH (u16 (norm next + 1))) as (i & n' & -> & Hn' & Hres); [apply u16_range|exact Hl|].
      exists i, n'. split_and!; auto; [apply Hn'..|]. destruct Hres as [(j & Hj & Hi & Hu)|[-> Hall]].
      * left. exists (S j). rewrite tried_S by exact Hn. split_and!; auto. lia.
      * right. split; [reflexivity|]. intros [|j] Hj; [rewrite tried_0 by exact Hn; now apply Hb|].
        rewrite tried_S by exact Hn. apply Hall. lia.
    + eexists _, _. split; [reflexivity|]. split; [apply u16_range|]. left. exists 0%nat.
      rewrite tried_0 by exact Hn. split_and!; auto; [lia|]. intros Hu%Hb. discriminate.
Qed.

(** ** Invariant *)

Definition idsOK (st : State) : Prop :=
  forall a b o p, a ∈ objects st -> b ∈ objects st -> heap st !! a = Some o -> heap st !! b = Some p ->
    id o = id p -> a = b.

Record inv (gen : option (SoftBusRcObject -> Z -> Z)) (strict : bool) (N : Z) (s : Sys) : Prop := {
  v_count : counted strict N (handles s ++ objects (st s)) (heap (st s));
  v_nodup : NoDup (objects (st s));
  v_brk a : is_Some (heap (st s) !! a) -> (a < brk (st s))%nat;
  v_next : in_u16 (nextId (st s));
  v_ids : is_Some gen -> idsOK (st s)
}.

(** Fewer objects with the same identifiers. *)
Lemma idsOK_shrink st st' : objects st' ⊆ objects st ->
  (forall b o, heap st' !! b = Some o -> exists o', heap st !! b = Some o' /\ id o' = id o) ->
  idsOK st -> idsOK st'.
Proof.
  intros Ho Hh Hi a b o p Ha Hb Hoa Hob Hid.
  destruct (Hh a o Hoa) as (o' & ? & ?), (Hh b p Hob) as (p' & ? & ?).
  apply (Hi a b o' p'); auto; congruence.
Qed.

Lemma heap_ids st st' : (forall b, id <$> heap st' !! b = id <$> heap st !! b) ->
  forall b o, heap st' !! b = Some o -> exists o', heap st !! b = Some o' /\ id o' = id o.
Proof.
  intros H b o Ho. specialize (H b). rewrite Ho in H. destruct (heap st !! b) as [o'|]; [|discriminate].
  injection H as H. eauto.
Qed.

Lemma findObject_spec m h l : (forall a, a ∈ l -> is_Some (h !! a)) ->
  exists r, findObject m h l = Some r /\
    match r with
    | Some a => a ∈ l /\ exists o, h !! a = Some o /\ m a o = true
    | None => forall a o, a ∈ l -> h !! a = Some o -> m a o = false
    end.
Proof.
  induction l as [|a l IH]; intros Hl; cbn [findObject].
  - exists None. split; [reflexivity|]. intros a o Ha. now apply not_elem_of_nil in Ha.
  - destruct (Hl a) as [o Ho]; [left|]. rewrite Ho. destruct (m a o) eqn:Em.
    + exists (Some a). split; [reflexivity|]. split; [left|eauto].
    + destruct IH as (r & -> & Hr); [intros b Hb; apply Hl; now right|]. exists r. split; [reflexivity|].
      destruct r as [b|]; [destruct Hr; split; [now right|assumption]|].
      intros b p Hb Hp. apply elem_of_cons in Hb as [->|Hb]; [congruence|eauto].
Qed.

Lemma SoftBusRcGetCommon_ok gen strict N s m ll lk : inv gen strict N s -> N < 2147483647 ->
  exists r st', SoftBusRcGetCommon m ll lk (st s) = Some (r, st') /\
    brk st' = brk (st s) /\ objects st' = objects (st s) /\ nextId st' = nextId (st s) /\
    (forall b, is_Some (heap st' !! b) <-> is_Some (heap (st s) !! b)) /\
    (forall b, id <$> heap st' !! b = id <$> heap (st s) !! b) /\
    counted strict (N + 1) (option_list r ++ handles s ++ objects (st s)) (heap st') /\
    (forall a, r = Some a -> a ∈ objects (st s) /\ exists o, heap (st s) !! a = Some o /\ m a o = true).
Proof.
  intros [Hc Hn Hb Hx Hi] HN. unfold SoftBusRcGetCommon.
  assert (Hw : counted strict (N + 1) (handles s ++ objects (st s)) (heap (st s)))
    by (eapply counted_weaken; [|exact Hc]; lia).
  destruct (ll =? SOFTBUS_OK); cbn [negb]; [|eexists None, _; split_and!; eauto; [reflexivity..|discriminate]].
  destruct (findObject_spec m (heap (st s)) (objects (st s))) as (r & -> & Hr).
  { intros a Ha. apply Hc. apply elem_of_app. now right. }
  destruct r as [a|]; [|eexists None, _; split_and!; eauto; [reflexivity..|discriminate]].
  destruct Hr as [Ha Hm].
  destruct (Reference_counted strict N _ lk a (st s) Hc) as (st' & code & -> & -> & H1 & H2 & H3 & H4 & H5 & H6);
    [apply elem_of_app; now right|exact HN|].
  destruct (lk =? SOFTBUS_OK); cbn [negb].
  - exists (Some a), st'. split_and!; auto. intros b [= <-]. auto.
  - exists None, st'. split_and!; auto; [now rewrite H6|discriminate].
Qed.

(** Taking [a] off the list. *)
Lemma objects_split (a : nat) (l : list nat) : NoDup l -> a ∈ l -> l ≡ₚ a :: base.filter (fun b => b <> a) l.
Proof.
  induction l as [|b l IH]; intros Hn Ha; [now apply not_elem_of_nil in Ha|].
  apply NoDup_cons in Hn as [Hb Hn]. rewrite filter_cons. destruct (decide (b = a)) as [->|Hne].
  - rewrite decide_False by auto. f_equiv. clear IH Hn Ha. induction l as [|c l IH]; [reflexivity|].
    apply not_elem_of_cons in Hb as [Hc Hb]. rewrite filter_cons, decide_True by congruence. f_equiv. auto.
  - rewrite decide_True by exact Hne. apply elem_of_cons in Ha as [->|Ha]; [congruence|].
    rewrite (IH Hn Ha) at 1. apply Permutation_swap.
Qed.

Lemma dropOne_perm a l : a ∈ l -> l ≡ₚ a :: dropOne a l.
Proof.
  induction l as [|b l IH]; intros Ha; [now apply not_elem_of_nil in Ha|]. cbn.
  case_decide as Hab; [now subst|]. apply elem_of_cons in Ha as [->|Ha]; [congruence|].
  rewrite (IH Ha) at 1. apply Permutation_swap.
Qed.

Lemma save_inv gen strict N s ll lk a : inv gen strict N s -> N < 2147483647 ->
  a ∈ handles s -> a ∉ objects (st s) -> (strict = true -> lk = SOFTBUS_OK) ->
  exists code st', SoftBusRcSave gen ll lk (Some a) (st s) = Some (code, st') /\
    inv gen strict (N + 1) (mkSys st' (handles s) (opened s)).
Proof.
  intros Hinv HN Ha Hout Hs. pose proof Hinv as [Hc Hn Hb Hx Hi]. unfold SoftBusRcSave.
  assert (Hw : inv gen strict (N + 1) s) by (split; auto; eapply counted_weaken; [|exact Hc]; lia).
  destruct (ll =? SOFTBUS_OK); cbn [negb]; [|eexists _, _; split; [reflexivity|]; now destruct s].
  destruct (proj1 Hc a) as [o Ho]; [apply elem_of_app; now left|]. rewrite Ho.
  assert (Hlive : forall b, b ∈ objects (st s) -> is_Some (heap (st s) !! b))
    by (intros b Hb'; apply Hc, elem_of_app; now right).
  (* the object, with the identifier it is saved under *)
  assert (Hfin : forall st1, counted strict N (handles s ++ objects (st s)) (heap st1) ->
    brk st1 = brk (st s) -> objects st1 = objects (st s) -> in_u16 (nextId st1) ->
    (forall b, is_Some (heap st1 !! b) -> is_Some (heap (st s) !! b)) ->
    (is_Some gen -> forall b c o p, (b = a \/ b ∈ objects (st s)) -> (c = a \/ c ∈ objects (st s)) ->
       heap st1 !! b = Some o -> heap st1 !! c = Some p -> id o = id p -> b = c) ->
    exists code st', match Reference lk (Some a) st1 with
      | None => None
      | Some (code, st'') => if negb (code =? SOFTBUS_OK) then Some (code, st'')
          else if bool_decide (a ∈ objects st'') then None
          else Some (SOFTBUS_OK, mkState (heap st'') (brk st'') (objects st'' ++ [a]) (nextId st''))
      end = Some (code, st') /\ inv gen strict (N + 1) (mkSys st' (handles s) (opened s))).
  { intros st1 Hc1 Hb1 Ho1 Hx1 Hd1 Hi1.
    destruct (Reference_counted strict N _ lk a st1 Hc1) as (st2 & code & -> & -> & H1 & H2 & H3 & H4 & H5 & H6);
      [apply elem_of_app; now left|exact HN|].
    destruct (Z.eqb_spec lk SOFTBUS_OK) as [->|Hl]; cbn [negb].
    - rewrite bool_decide_eq_false_2 by now rewrite H2, Ho1.
      eexists _, _. split; [reflexivity|]. split; cbn.
      + rewrite H2, Ho1. eapply counted_perm; [|exact H6].
        rewrite app_assoc. rewrite (Permutation_app_comm _ [a]). reflexivity.
      + rewrite H2, Ho1. apply NoDup_app. split_and!; [exact Hn| |apply NoDup_singleton].
        intros b Hb' ->%list_elem_of_singleton. auto.
      + intros b Hb'. rewrite H1, Hb1. apply Hb, Hd1, H4, Hb'.
      + now rewrite H3.
      + intros Hg b c o1 p1. cbn. rewrite H2, Ho1, !elem_of_app, !list_elem_of_singleton. intros Hbl Hcl Hob Hoc Hid.
        destruct (heap_ids st1 st2 H5 b o1 Hob) as (ob & ? & ?), (heap_ids st1 st2 H5 c p1 Hoc) as (oc & ? & ?).
        apply (Hi1 Hg b c ob oc); auto; [tauto|tauto|congruence].
    - eexists _, _. split; [reflexivity|]. subst st2. split; cbn.
      + rewrite Ho1. eapply counted_weaken; [|exact Hc1]. lia.
      + now rewrite Ho1.
      + intros b Hb'. rewrite Hb1. auto.
      + exact Hx1.
      + intros Hg b c o1 p1. cbn. rewrite Ho1. intros Hb' Hc'. apply (Hi1 Hg); auto. }
  destruct gen as [g|].
  - destruct (Allocate_spec (g o) (heap (st s)) (objects (st s)) (Z.to_nat UINT16_MAX) (nextId (st s)) Hx Hlive)
      as (i & next' & -> & Hx' & Hres).
    destruct (Z.eqb_spec i 0) as [->|Hi0].
    + eexists _, _. split; [reflexivity|]. split; cbn; auto. eapply counted_weaken; [|exact Hc]. lia.
    + destruct Hres as [(j & _ & _ & Hu)|[-> _]]; [|congruence].
      assert (Hne : forall b o1, b <> a -> (b = a \/ b ∈ objects (st s)) ->
        (setId (st s) a o i next').(heap) !! b = Some o1 ->
        b ∈ objects (st s) /\ heap (st s) !! b = Some o1 /\ id o1 <> i).
      { cbn. intros b o1 Hb' Hor Hl. rewrite lookup_insert_ne in Hl by congruence.
        assert (Hin : b ∈ objects (st s)) by tauto. split_and!; auto. intros Hid. apply Hu. exists b, o1. auto. }
      apply Hfin; auto.
      * cbn. now apply counted_id.
      * cbn. intros b. destruct (decide (a = b)) as [<-|]; [eauto|]. now rewrite lookup_insert_ne.
      * intros Hg b c o1 p1 Hbl Hcl Hob Hoc Hid.
        destruct (decide (b = a)) as [->|Hba], (decide (c = a)) as [->|Hca]; [reflexivity| | |].
        -- exfalso. destruct (Hne c p1 Hca Hcl Hoc) as (_ & _ & Hni). cbn in Hob. rewrite lookup_insert_eq in Hob.
           injection Hob as <-. cbn in Hid. congruence.
        -- exfalso. destruct (Hne b o1 Hba Hbl Hob) as (_ & _ & Hni). cbn in Hoc. rewrite lookup_insert_eq in Hoc.
           injection Hoc as <-. cbn in Hid. congruence.
        -- destruct (Hne c p1 Hca Hcl Hoc) as (? & ? & _), (Hne b o1 Hba Hbl Hob) as (? & ? & _).
           apply (Hi Hg b c o1 p1); auto.
  - apply Hfin; auto. intros [? [=]].
Qed.

Lemma remove_inv gen strict N s ll l1 l2 l3 a : inv gen strict N s -> N < 2147483647 ->
  (strict = true -> l2 = SOFTBUS_OK /\ l3 = SOFTBUS_OK) ->
  exists st', SoftBusRcRemove ll l1 l2 l3 (Some a) (st s) = Some st' /\
    inv gen strict (N + 1) (mkSys st' (handles s) (opened s)).
Proof.
  intros Hinv HN Hs. pose proof Hinv as [Hc Hn Hb Hx Hi]. unfold SoftBusRcRemove.
  destruct (ll =? SOFTBUS_OK); cbn [negb].
  2: { eexists. split; [reflexivity|]. split; auto. eapply counted_weaken; [|exact Hc]; lia. }
  destruct (SoftBusRcGetCommon_ok gen strict N s (PointerMatcher a) SOFTBUS_OK l1 Hinv HN)
    as (r & st1 & -> & H1 & H2 & H3 & H4 & H5 & H6 & H7).
  destruct r as [b|].
  - destruct (H7 b eq_refl) as (Hb' & o & Ho & Hm). apply bool_decide_eq_true in Hm as ->. cbn [option_list app] in H6.
    set (st2 := mkState _ _ _ _).
    assert (Hperm : a :: handles s ++ objects (st s) ≡ₚ a :: a :: handles s ++ objects st2).
    { subst st2. cbn. rewrite H2, (objects_split a (objects (st s)) Hn Hb') at 1. f_equiv.
      rewrite Permutation_middle. reflexivity. }
    rewrite Hperm in H6.
    destruct (Deference_drop strict (N + 1) _ l2 a st2 H6) as (st3 & p & -> & A1 & A2 & A3 & A4 & _ & A6); [lia|intros; now apply Hs|].
    destruct (Deference_drop strict (N + 1) _ l3 a st3 A6) as (st4 & p' & -> & B1 & B2 & B3 & B4 & _ & B6); [lia|intros; now apply Hs|].
    eexists. split; [reflexivity|].
    assert (Hids : forall b o, heap st4 !! b = Some o -> exists o', heap (st s) !! b = Some o' /\ id o' = id o).
    { intros b o1 Hob. destruct (B4 b o1 Hob) as (o2 & Ho2 & E2), (A4 b o2 Ho2) as (o3 & Ho3 & E3).
      destruct (heap_ids (st s) st1 H5 b o3 Ho3) as (o4 & Ho4 & E4). exists o4. split; [exact Ho4|congruence]. }
    split; cbn.
    + now rewrite B2, A2.
    + rewrite B2, A2. subst st2. cbn. rewrite H2. now apply NoDup_filter.
    + intros b [o1 Hob]. rewrite B1, A1. subst st2. cbn. rewrite H1. apply Hb.
      destruct (Hids b o1 Hob) as (? & ? & _). eauto.
    + rewrite B3, A3. subst st2. cbn. now rewrite H3.
    + intros Hg. apply (idsOK_shrink (st s)); auto. rewrite B2, A2. subst st2. cbn. rewrite H2.
      intros b Hbl. apply list_elem_of_filter in Hbl. tauto.
  - eexists. split; [reflexivity|]. split; cbn.
    + now rewrite H2.
    + now rewrite H2.
    + intros b Hb'. rewrite H1. apply Hb, H4, Hb'.
    + now rewrite H3.
    + intros Hg. apply (idsOK_shrink (st s)); auto; [now rewrite H2|]. now apply heap_ids.
Qed.

Lemma destructLoop_inv gen strict N hs b : N < 2147483648 -> forall locks l n st,
  (strict = true -> forall n, locks n = SOFTBUS_OK) -> objects st = l ->
  inv gen strict N (mkSys st hs b) ->
  exists st', destructLoop locks n l st = Some st' /\ forall b', inv gen strict N (mkSys st' hs b').
Proof.
  intros HN locks l. induction l as [|a l IH]; intros n st Hs Hl [Hc Hn Hb Hx Hi]; cbn in Hc, Hn, Hb, Hx, Hi; cbn [destructLoop].
  - eexists. split; [reflexivity|]. intros b'. split; auto.
  - set (st1 := mkState (heap st) (brk st) l (nextId st)). rewrite Hl in Hc. rewrite <- Permutation_middle in Hc.
    destruct (Deference_drop strict N (hs ++ l) (locks n) a st1 Hc HN) as (st2 & p & -> & A1 & A2 & A3 & A4 & _ & A6);
      [intros; now apply Hs|].
    rewrite Hl in Hn. apply NoDup_cons in Hn as [Hal Hn].
    apply IH; [exact Hs|now rewrite A2|]. split; cbn.
    + rewrite A2. exact A6.
    + now rewrite A2.
    + intros c [o Ho]. rewrite A1. apply Hb. destruct (A4 c o Ho) as (? & ? & _). eauto.
    + now rewrite A3.
    + intros Hg. apply (idsOK_shrink st); auto. rewrite A2, Hl. subst st1. cbn. set_solver.
Qed.

Lemma rc_step_inv gen strict N s o : inv gen strict N s -> 1 <= N < 2147483647 -> allowed s o ->
  (strict = true -> locksOK o) ->
  exists s', sysStep gen s o = Some s' /\ inv gen strict (N + 1) s'.
Proof.
  intros Hinv HN Hal Hs. pose proof Hinv as [Hc Hn Hb Hx Hi].
  assert (Hsame : inv gen strict (N + 1) s) by (split; auto; eapply counted_weaken; [|exact Hc]; lia).
  destruct o as [mi|ll lk a|m ll lk|lk a|ll l1 l2 l3 a|lk a|ll ls]; cbn [sysStep allowed] in *.
  - unfold SoftBusRcObjectConstruct. cbn [negb]. destruct (mi =? SOFTBUS_OK); cbn [negb option_list app].
    2: { eexists. split; [reflexivity|]. now destruct s. }
    assert (Hfr : heap (st s) !! brk (st s) = None).
    { destruct (heap (st s) !! brk (st s)) eqn:E; [|reflexivity]. pose proof (Hb _ ltac:(eauto)). lia. }
    eexists. split; [reflexivity|]. split; cbn.
    + apply counted_new; [lia|apply Hsame|exact Hfr].
    + exact Hn.
    + intros b. destruct (decide (brk (st s) = b)) as [<-|]; [lia|]. rewrite lookup_insert_ne by assumption. intros H%Hb. lia.
    + exact Hx.
    + intros Hg a b o p Ha Hb'. cbn in *.
      assert (Hne : forall c, c ∈ objects (st s) -> brk (st s) <> c).
      { intros c Hcl <-. destruct (proj1 Hc (brk (st s))) as [? E]; [apply elem_of_app; now right|congruence]. }
      rewrite !lookup_insert_ne by auto. now apply (Hi Hg).
  - destruct Hal as (Eop & Ha & Hout). rewrite Eop.
    destruct (save_inv gen strict N s ll lk a Hinv ltac:(lia) Ha Hout) as (code & st' & -> & H).
    + intros E. apply Hs in E. cbn in E. tauto.
    + rewrite Eop in H. eauto.
  - rewrite Hal.
    destruct (SoftBusRcGetCommon_ok gen strict N s m ll lk Hinv ltac:(lia)) as (r & st1 & -> & H1 & H2 & H3 & H4 & H5 & H6 & H7).
    eexists. split; [reflexivity|]. split; cbn.
    + now rewrite H2, <- app_assoc.
    + now rewrite H2.
    + intros b Hb'. rewrite H1. apply Hb, H4, Hb'.
    + now rewrite H3.
    + intros Hg. apply (idsOK_shrink (st s)); auto; [now rewrite H2|]. now apply heap_ids.
  - destruct (Reference_counted strict N _ lk a (st s) Hc) as (st2 & code & -> & -> & H1 & H2 & H3 & H4 & H5 & H6);
      [apply elem_of_app; now left|lia|].
    eexists. split; [reflexivity|]. destruct (lk =? SOFTBUS_OK); [|subst st2; now destruct s]. split; cbn.
    + now rewrite H2.
    + now rewrite H2.
    + intros b Hb'. rewrite H1. apply Hb, H4, Hb'.
    + now rewrite H3.
    + intros Hg. apply (idsOK_shrink (st s)); auto; [now rewrite H2|]. now apply heap_ids.
  - destruct Hal as (Eop & _). rewrite Eop.
    destruct (remove_inv gen strict N s ll l1 l2 l3 a Hinv ltac:(lia)) as (st' & -> & H).
    + intros E. apply Hs in E. cbn in E. tauto.
    + rewrite Eop in H. eauto.
  - rewrite (dropOne_perm a (handles s) Hal) in Hc.
    destruct (Deference_drop strict N _ lk a (st s) Hc) as (st2 & p & -> & A1 & A2 & A3 & A4 & Ap & A6);
      [lia|intros E; exact (Hs E)|].
    eexists. split; [reflexivity|]. destruct Ap as [->|[-> ->]]; [|now destruct s]. split; cbn.
    + rewrite A2. eapply counted_weaken; [|exact A6]. lia.
    + now rewrite A2.
    + intros b [o Ho]. rewrite A1. apply Hb. destruct (A4 b o Ho) as (? & ? & _). eauto.
    + now rewrite A3.
    + intros Hg. apply (idsOK_shrink (st s)); auto. now rewrite A2.
  - destruct (opened s) eqn:Eop; [|eauto]. unfold SoftBusRcCollectionDestruct.
    destruct (Z.eqb_spec ll SOFTBUS_OK) as [->|]; cbn [negb].
    2: { eexists. split; [reflexivity|]. rewrite <- Eop. now destruct s. }
    destruct (destructLoop_inv gen strict (N + 1) (handles s) (opened s) ltac:(lia) ls (objects (st s)) 0 (st s)) as (st' & -> & H); auto.
    + intros E. apply (Hs E).
    + now destruct s.
    + eexists. split; [reflexivity|]. apply H.
Qed.

Lemma rc_run_inv gen strict l : forall N s, inv gen strict N s -> 1 <= N ->
  N + Z.of_nat (length l) < 2147483648 -> legalRun gen s l -> (strict = true -> Forall locksOK l) ->
  exists s', runSys gen s l = Some s' /\ inv gen strict (N + Z.of_nat (length l)) s'.
Proof.
  induction l as [|o l IH]; intros N s Hi HN Hlen Hal Hs; cbn [runSys length legalRun] in *.
  - exists s. rewrite Z.add_0_r. auto.
  - destruct Hal as [Ho Hal]. destruct (rc_step_inv gen strict N s o Hi ltac:(lia) Ho) as (s1 & E1 & Hi1).
    { intros E. apply Hs in E. now inversion E. }
    rewrite E1. destruct (IH (N + 1) s1 Hi1 ltac:(lia) ltac:(lia) (Hal s1 E1)) as (s2 & -> & Hi2).
    { intros E. apply Hs in E. now inversion E. }
    exists s2. split; [reflexivity|]. now replace (N + Z.of_nat (S (length l))) with (N + 1 + Z.of_nat (length l)) by lia.
Qed.

Lemma emptySys_inv gen strict : inv gen strict 1 emptySys.
Proof.
  split; cbn.
  - split; [intros a Ha; now apply not_elem_of_nil in Ha|]. intros a o Ho. now rewrite lookup_empty in Ho.
  - constructor.
  - intros a. rewrite lookup_empty. intros [? [=]].
  - unfold in_u16. lia.
  - intros _ a b o p Ha. now apply not_elem_of_nil in Ha.
Qed.

(** ** Properties *)

(** C30: In a run of fewer than 2^31 - 1 operations, from an empty collection on, as
    long as every client keeps the rules (it uses an object only while it
    holds a reference to it, saves it only while it is not in the collection, and
    makes no call on a collection that has been destructed), no operation touches
    a freed object or links a linked node, everything a client or the collection
    refers to is alive, and saved objects have distinct identifiers when the
    collection has a generator, whichever locks fail; and when no lock ever fails,
    an object's count is exactly the number of references to it, so that it is
    freed with the last one. *)
Theorem rc_objects_safe (gen : option (SoftBusRcObject -> Z -> Z)) (l : list op)
    (Hlen : Z.of_nat (length l) < 2147483647) (Hlegal : legalRun gen emptySys l) :
  exists s, runSys gen emptySys l = Some s /\
    (forall a, a ∈ handles s ++ objects (st s) -> is_Some (heap (st s) !! a)) /\
    NoDup (objects (st s)) /\
    (is_Some gen -> idsOK (st s)) /\
    (Forall locksOK l -> forall a o, heap (st s) !! a = Some o ->
       objectRc o = Z.of_nat (count_occ Nat.eq_dec (handles s ++ objects (st s)) a) /\ 1 <= objectRc o).
Proof.
  destruct (rc_run_inv gen false l 1 emptySys (emptySys_inv gen false)) as (s & Hr & Hi); [lia|lia|exact Hlegal|discriminate|].
  exists s. split_and!; [exact Hr|apply Hi|apply Hi|apply Hi|]. intros Hok a o Ho.
  destruct (rc_run_inv gen true l 1 emptySys (emptySys_inv gen true)) as (s' & Hr' & Hi'); [lia|lia|exact Hlegal|auto|].
  rewrite Hr in Hr'. injection Hr' as <-.
  destruct (proj2 (v_count _ _ _ _ Hi') a o Ho) as (H1 & _ & H2). rewrite H2 by reflexivity. lia.
Qed.

(** The allocation of an identifier fails only when none is left: if some index
    of the generator gives an identifier that is not in use, an unused one is
    found within the bounded number of attempts. *)
Theorem unique_id_found (gen : Z -> Z) (h : gmap nat SoftBusRcObject) (l : list nat) (next k : Z)
    (Hnext : in_u16 next) (Hlive : forall a, a ∈ l -> is_Some (h !! a))
    (Hk : 1 <= k <= 65535) (Hfree : ~ used h l (u32 (gen k))) :
  exists i next', AllocateUniqueIdUnsafe gen h l next (Z.to_nat UINT16_MAX) = Some (i, next') /\ ~ used h l i.
Proof.
  destruct (Allocate_spec gen h l (Z.to_nat UINT16_MAX) next Hnext Hlive) as (i & next' & -> & _ & [(j & _ & _ & Hu)|[_ Hall]]);
    [eauto|]. exfalso. destruct (tried_all next k Hnext Hk) as (j & Hj & <-). apply Hfree, Hall, Hj.
Qed.

(** ** Witnesses *)

Definition genIndex (_ : SoftBusRcObject) (index : Z) : Z := index.

Definition sampleRun : list op :=
  [OpNew 0; OpNew 0; OpSave 0 0 0; OpSave 0 0 1; OpGet (IdMatcher 2) 0 0; OpDereference 0 0;
   OpRemove 0 0 0 0 1; OpDereference 0 1; OpDestruct 0 (fun _ => 0); OpReference 0 1].

Lemma rc_objects_safe_witness : exists s,
  runSys (Some genIndex) emptySys sampleRun = Some s /\
  handles s = [1%nat; 1%nat] /\ heap (st s) !! 0%nat = None /\ heap (st s) !! 1%nat = Some (mkObject 2 2).
Proof.
  destruct (rc_objects_safe (Some genIndex) sampleRun) as (s & Hs & _).
  - cbn; lia.
  - apply isLegal_sound. vm_compute. reflexivity.
  - exists s. split; [exact Hs|]. vm_compute in Hs. injection Hs as <-. vm_compute. repeat split.
Defined.

(** The rules are needed: saving an object twice, or looking into a destructed
    collection, is undefined. *)
Lemma second_save_undefined :
  runSys (Some genIndex) emptySys [OpNew 0; OpSave 0 0 0; OpSave 0 0 0] = None.
Proof. vm_compute. reflexivity. Qed.

Lemma get_after_destruct_undefined :
  runSys None emptySys [OpDestruct 0 (fun _ => 0); OpGet (IdMatcher 1) 0 0] = None.
Proof. reflexivity. Qed.

Lemma unique_id_found_witness : exists i next',
  AllocateUniqueIdUnsafe (fun k => k) {[ 7%nat := mkObject 1 1 ]} [7%nat] 0 (Z.to_nat UINT16_MAX) = Some (i, next') /\
  ~ used {[ 7%nat := mkObject 1 1 ]} [7%nat] i.
Proof.
  apply (unique_id_found (fun k => k) {[ 7%nat := mkObject 1 1 ]} [7%nat] 0 2).
  - unfold in_u16. lia.
  - intros a ->%list_elem_of_singleton. vm_compute. eauto.
  - lia.
  - intros (a & o & Ha & Ho & Hid). apply list_elem_of_singleton in Ha as ->. vm_compute in Ho.
    injection Ho as <-. discriminate.
Defined.

End RcCollection.
