(* ===== verification/Fragment.v ===== *)
(** * Fragments of cloud messages

    Model of core/bus_center/lnn/decision_center/agent_communication/src:
    lnn_cloud_query_fragment.c cuts a message into numbered slices and puts the
    received slices together again; lnn_fragment_recv.c takes a received packet
    apart.  The functions of the optional far-field module,
    [LnnSendAgentDataPacked] and [FarfieldParseModuleTypePacked], are arguments.
    [None] as a result means an access outside a buffer. *)

From S2P Require Import Prelude ErrorCode Bytes.
From stdpp Require Import list sorting.
#[local] Open Scope Z_scope.

Module Fragment.

Definition MAX_MSG_LEN : Z := 1300.
Definition FRAGMENT_HEADER_LEN : Z := 16.
Definition FAR_FIELD_PKT_HEAD_SIZE : Z := 12.
Definition MAX_SLICE_LEN : Z := MAX_MSG_LEN - FRAGMENT_HEADER_LEN - FAR_FIELD_PKT_HEAD_SIZE.
Definition MAX_FRAGMENT_NUM : Z := 1024.
Definition MAX_ASSEMBLED_LEN : Z := 10 * 1024 * 1024.
Definition FRAGMENT_CONTEXT_TIMEOUT_MS : Z := 5 * 60 * 1000.
Definition BYTE_BITS : Z := 8.
Definition sizeof_FragmentContext : Z := 64.

Definition BitmapBytes (sliceTotal : Z) : Z := u32 (sliceTotal + BYTE_BITS - 1) / BYTE_BITS.

Record DataFragmentInfo := mkInfo { msgId : Z; size : Z; offset : Z; total : Z }.

Record FragmentContext := mkCtx {
  cMsgId : Z;
  cTotal : Z;
  sliceTotal : Z;
  receivedSliceCount : Z;
  sliceBitmap : list Z;
  buffer : list byte;
  createTime : Z
}.

(** ** Sending *)

(** The identifier and the counter after the call. *)
Definition GenerateMsgId (lock g_currentMsgId : Z) : Z * Z :=
  if negb (lock =? SOFTBUS_OK) then (0, g_currentMsgId)
  else
    let next := u32 (g_currentMsgId + 1) in
    if g_currentMsgId =? 0 then (next, u32 (next + 1)) else (g_currentMsgId, next).

(** The header's memory image; [bufferLen] is the size of the destination. *)
Definition WriteFragmentHeader (bufferLen : Z) (h : DataFragmentInfo) : Z * list byte :=
  if bufferLen <? FRAGMENT_HEADER_LEN then (SOFTBUS_INVALID_PARAM, [])
  else (SOFTBUS_OK, be 4 (msgId h) ++ be 4 (size h) ++ be 4 (offset h) ++ be 4 (total h)).

(** [data]: what the data pointer points to. *)
Definition CreateFragmentBuffer (libc : Z -> bool) (h : DataFragmentInfo) (data : list byte)
  : Z * list byte :=
  let totalLen := u32 (FRAGMENT_HEADER_LEN + size h) in
  if negb (SoftBusCalloc libc totalLen) then (SOFTBUS_MALLOC_ERR, [])
  else
    let '(ret, head) := WriteFragmentHeader totalLen h in
    if negb (ret =? SOFTBUS_OK) then (ret, [])
    else if 0 <? size h then
      if negb (memcpy_s (u32 (totalLen - FRAGMENT_HEADER_LEN)) (size h)) then (SOFTBUS_MEM_ERR, [])
      else (SOFTBUS_OK, head ++ take (Z.to_nat (size h)) data)
    else (SOFTBUS_OK, head).

(** [send i pkt]: the answer of LnnSendAgentDataPacked for the [i]-th slice; the
    result also has the packets it was given. *)
Definition SendSingleSlice (libc : Z -> bool) (send : list byte -> Z) (h : DataFragmentInfo)
    (data : list byte) : Z * list (list byte) :=
  let '(ret, buf) := CreateFragmentBuffer libc h data in
  if negb (ret =? SOFTBUS_OK) then (ret, [])
  else (send buf, [buf]).

(** [n] rounds of the loop from slice [i]. *)
Fixpoint sliceLoop (libc : Z -> bool) (send : Z -> list byte -> Z) (mid dataLen sliceLen : Z)
    (data : list byte) (n : nat) (i : Z) : Z * list (list byte) :=
  match n with
  | O => (SOFTBUS_OK, [])
  | S n' =>
    let off := u32 (i * sliceLen) in
    if dataLen <? off then (SOFTBUS_INVALID_PARAM, [])
    else
      let sz := if dataLen <? u32 (off + sliceLen) then u32 (dataLen - off) else sliceLen in
      let '(ret, sent) :=
        SendSingleSlice libc (send i) (mkInfo mid sz off dataLen) (drop (Z.to_nat off) data) in
      if negb (ret =? SOFTBUS_OK) then (ret, sent)
      else
        let '(ret', sent') := sliceLoop libc send mid dataLen sliceLen data n' (i + 1) in
        (ret', sent ++ sent')
  end.

(** [info]: the message's data, its slice length and identifier. *)
Definition DataSlice (libc : Z -> bool) (send : Z -> list byte -> Z) (udid : bool)
    (data : option (list byte)) (sliceLen mid : Z) : Z * list (list byte) :=
  match data with
  | None => (SOFTBUS_INVALID_PARAM, [])
  | Some d =>
    let dataLen := Z.of_nat (length d) in
    if negb udid then (SOFTBUS_INVALID_PARAM, [])
    else if (dataLen =? 0) || (sliceLen =? 0) || (MAX_SLICE_LEN <? sliceLen) ||
            (MAX_ASSEMBLED_LEN <? dataLen) then (SOFTBUS_INVALID_PARAM, [])
    else
      let n := u32 (dataLen + sliceLen - 1) / sliceLen in
      if MAX_FRAGMENT_NUM <? n then (SOFTBUS_INVALID_PARAM, [])
      else sliceLoop libc send mid dataLen sliceLen d (Z.to_nat n) 0
  end.

(** ** Receiving *)

Definition word (n : nat) (l : list byte) : Z := unbe (take 4 (drop n l)).

(** [data]: the memory from the pointer on, [dataLen] the length the caller
    passes.  [None], here and below: a read or a write outside a buffer. *)
Definition ParseFragmentHeader (data : list byte) (dataLen : Z) : option (Z * option DataFragmentInfo) :=
  if dataLen <? FRAGMENT_HEADER_LEN then Some (SOFTBUS_INVALID_PARAM, None)
  else
    match readAt 0 FRAGMENT_HEADER_LEN data with
    | None => None
    | Some d => Some (SOFTBUS_OK, Some (mkInfo (word 0 d) (word 4 d) (word 8 d) (word 12 d)))
    end.

Definition ValidateFragmentHeader (h : DataFragmentInfo) (dataLen : Z) : Z :=
  if (MAX_ASSEMBLED_LEN <? total h) || (MAX_SLICE_LEN <? size h) || (total h <=? offset h) ||
     (dataLen <? FRAGMENT_HEADER_LEN) then SOFTBUS_INVALID_PARAM
  else if negb (size h =? u32 (dataLen - FRAGMENT_HEADER_LEN)) then SOFTBUS_INVALID_PARAM
  else if total h <? u32 (offset h + size h) then SOFTBUS_INVALID_PARAM
  else SOFTBUS_OK.

Definition ValidateAndParseFragment (data : option (list byte)) : option (Z * option DataFragmentInfo) :=
  match data with
  | None => Some (SOFTBUS_INVALID_PARAM, None)
  | Some d =>
    if Z.of_nat (length d) <? FRAGMENT_HEADER_LEN then Some (SOFTBUS_INVALID_PARAM, None)
    else
      match ParseFragmentHeader d (Z.of_nat (length d)) with
      | None => None
      | Some (ret, None) => Some (ret, None)
      | Some (ret, Some h) =>
        let ret' := ValidateFragmentHeader h (Z.of_nat (length d)) in
        if negb (ret' =? SOFTBUS_OK) then Some (ret', None) else Some (SOFTBUS_OK, Some h)
      end
  end.

(** [Some None] is the NULL the function returns on failure; [None] a read past
    the end of the packet. *)
Definition CreateFragmentDataCopy (libc : Z -> bool) (data : list byte) (fragmentSize : Z)
  : option (option (list byte)) :=
  if negb (SoftBusCalloc libc fragmentSize) then Some None
  else if 0 <? fragmentSize then
    if negb (memcpy_s fragmentSize fragmentSize) then Some None
    else
      match readAt FRAGMENT_HEADER_LEN fragmentSize data with
      | None => None
      | Some copy => Some (Some copy)
      end
  else Some (Some []).

Definition FindFragmentContext (mid : Z) (l : list FragmentContext) : option (nat * FragmentContext) :=
  list_find (fun c => cMsgId c = mid) l.

Definition CreateFragmentContext (libc : Z -> bool) (now mid tot sliceTot : Z) : option FragmentContext :=
  if negb (SoftBusCalloc libc sizeof_FragmentContext) then None
  else if negb (SoftBusCalloc libc tot) then None
  else if negb (SoftBusCalloc libc (BitmapBytes sliceTot)) then None
  else Some (mkCtx mid tot sliceTot 0 (replicate (Z.to_nat (BitmapBytes sliceTot)) 0)
               (replicate (Z.to_nat tot) Byte.x00) now).

(** The position of the context in the list. *)
Definition FindOrCreateFragmentContext (libc : Z -> bool) (now : Z) (h : DataFragmentInfo)
    (l : list FragmentContext) : Z * option (nat * FragmentContext) * list FragmentContext :=
  match FindFragmentContext (msgId h) l with
  | Some nc => (SOFTBUS_OK, Some nc, l)
  | None =>
    let sliceTot := u32 (total h + MAX_SLICE_LEN - 1) / MAX_SLICE_LEN in
    match CreateFragmentContext libc now (msgId h) (total h) sliceTot with
    | None => (SOFTBUS_MALLOC_ERR, None, l)
    | Some c => (SOFTBUS_OK, Some (length l, c), l ++ [c])
    end
  end.

Definition CleanupTimeoutFragmentContexts (now : Z) (l : list FragmentContext) : list FragmentContext :=
  base.filter (fun c => u64 (now - createTime c) <= FRAGMENT_CONTEXT_TIMEOUT_MS) l.

(** [1 << (i % BYTE_BITS)] *)
Definition bitMask (i : Z) : Z := Z.shiftl 1 (i mod BYTE_BITS).

(** [now1]: the clock at the clean-up, [now2]: at the creation of a context.  The
    result: the code, the assembled data, the contexts. *)
Definition ProcessFragmentWithLock (lock now1 now2 : Z) (libc : Z -> bool) (h : DataFragmentInfo)
    (fragmentData : list byte) (l : list FragmentContext)
  : option (Z * option (list byte) * list FragmentContext) :=
  if negb (lock =? SOFTBUS_OK) then Some (SOFTBUS_LOCK_ERR, None, l)
  else
    let l1 := CleanupTimeoutFragmentContexts now1 l in
    match FindOrCreateFragmentContext libc now2 h l1 with
    | (ret, None, l2) => Some (ret, None, l2)
    | (_, Some (n, c), l2) =>
      let sliceIndex := offset h / MAX_SLICE_LEN in
      if sliceTotal c <=? sliceIndex then Some (SOFTBUS_OK, None, l2)
      else
        match sliceBitmap c !! Z.to_nat (sliceIndex / BYTE_BITS) with
        | None => None
        | Some w =>
          if negb (Z.land w (bitMask sliceIndex) =? 0) then Some (SOFTBUS_OK, None, l2)
          else if negb (memcpy_s (size h) (size h)) then Some (SOFTBUS_MEM_ERR, None, delete n l2)
          else
            match readAt 0 (size h) fragmentData ≫= fun bytes => writeAt (offset h) bytes (buffer c) with
            | None => None
            | Some buf =>
              let bm := <[Z.to_nat (sliceIndex / BYTE_BITS) := u8 (Z.lor w (bitMask sliceIndex))]>
                          (sliceBitmap c) in
              let count := u32 (receivedSliceCount c + 1) in
              if count =? sliceTotal c then Some (SOFTBUS_OK, Some buf, delete n l2)
              else Some (SOFTBUS_OK, None,
                     <[n := mkCtx (cMsgId c) (cTotal c) (sliceTotal c) count bm buf (createTime c)]> l2)
            end
        end
    end.

(** [outs] tells whether the three output pointers are set; the result: the code,
    [*assembledData], [*msgId], the contexts. *)
Definition DataAggregate (outs : bool) (lock now1 now2 : Z) (libc : Z -> bool)
    (data : option (list byte)) (l : list FragmentContext)
  : option (Z * option (list byte) * option Z * list FragmentContext) :=
  if negb outs then Some (SOFTBUS_INVALID_PARAM, None, None, l)
  else
    match ValidateAndParseFragment data, data with
    | None, _ => None
    | Some (_, Some h), Some d =>
      match CreateFragmentDataCopy libc d (size h) with
      | None => None
      | Some None => Some (SOFTBUS_MALLOC_ERR, None, None, l)
      | Some (Some frag) =>
        match ProcessFragmentWithLock lock now1 now2 libc h frag l with
        | None => None
        | Some (ret, out, l') => Some (ret, out, Some (msgId h), l')
        end
      end
    | Some (ret, _), _ => Some (ret, None, None, l)
    end.

(** ** Taking a received packet apart *)

Record FragmentRecvContext := mkRecvCtx { rMsgId : Z; rModule : Z; rCreateTime : Z }.

Definition sizeof_FragmentRecvContext : Z := 32.

Definition GetOrCreateFragmentContext (libc : Z -> bool) (now mid modu : Z) (l : list FragmentRecvContext)
  : Z * list FragmentRecvContext :=
  match list_find (fun c => rMsgId c = mid) l with
  | Some _ => (SOFTBUS_OK, l)
  | None =>
    if negb (SoftBusCalloc libc sizeof_FragmentRecvContext) then (SOFTBUS_MALLOC_ERR, l)
    else (SOFTBUS_OK, mkRecvCtx mid modu now :: l)
  end.

Definition FragmentRecvClear (mid : Z) (l : list FragmentRecvContext) : list FragmentRecvContext :=
  match list_find (fun c => rMsgId c = mid) l with
  | Some (n, _) => delete n l
  | None => l
  end.

Definition FragmentRecvClearAll (_ : list FragmentRecvContext) : list FragmentRecvContext := [].

Definition CleanupTimeoutContexts (now : Z) (l : list FragmentRecvContext) : list FragmentRecvContext :=
  base.filter (fun c => u64 (now - rCreateTime c) <= FRAGMENT_CONTEXT_TIMEOUT_MS) l.

Definition ExtractFragmentData (libc : Z -> bool) (data : list byte) (off fragmentTotalSize : Z)
  : option (Z * list byte) :=
  let sz := u32 (fragmentTotalSize - FAR_FIELD_PKT_HEAD_SIZE) in
  if negb (SoftBusCalloc libc sz) then Some (SOFTBUS_MALLOC_ERR, [])
  else if negb (memcpy_s sz sz) then Some (SOFTBUS_MEM_ERR, [])
  else
    match readAt (off + FAR_FIELD_PKT_HEAD_SIZE) sz data with
    | None => None
    | Some buf => Some (SOFTBUS_OK, buf)
    end.

(** [parse bytes]: the answer of FarfieldParseModuleTypePacked.  The result: the
    code, what the callback is given, the new offset, the contexts. *)
Definition ProcessSingleFragment (libc : Z -> bool) (now : Z) (parse : list byte -> option Z)
    (data : list byte) (off : Z) (l : list FragmentRecvContext)
  : option (Z * option (list byte * Z) * Z * list FragmentRecvContext) :=
  let dataLen := Z.of_nat (length data) in
  let totalHeaderSize := FAR_FIELD_PKT_HEAD_SIZE + FRAGMENT_HEADER_LEN in
  if u32 (dataLen - off) <? totalHeaderSize then Some (SOFTBUS_INVALID_PARAM, None, off, l)
  else
    match parse (drop (Z.to_nat off) data) with
    | None => Some (SOFTBUS_INVALID_PARAM, None, off, l)
    | Some modu =>
      match ParseFragmentHeader (drop (Z.to_nat (off + FAR_FIELD_PKT_HEAD_SIZE)) data) FRAGMENT_HEADER_LEN with
      | None => None
      | Some (_, None) => Some (SOFTBUS_INVALID_PARAM, None, off, l)
      | Some (_, Some h) =>
        let '(ret, l') := GetOrCreateFragmentContext libc now (msgId h) modu l in
        if negb (ret =? SOFTBUS_OK) then Some (ret, None, off, l')
        else
          let fragmentTotalSize := u32 (totalHeaderSize + size h) in
          if u32 (dataLen - off) <? fragmentTotalSize then Some (SOFTBUS_INVALID_PARAM, None, off, l')
          else
            match ExtractFragmentData libc data off fragmentTotalSize with
            | None => None
            | Some (ret2, buf) =>
              if negb (ret2 =? SOFTBUS_OK) then Some (ret2, None, off, l')
              else Some (SOFTBUS_OK, Some (buf, modu), u32 (off + fragmentTotalSize), l')
            end
      end
    end.

(** The while loop; [None] also when the fuel runs out. *)
Fixpoint recvLoop (fuel : nat) (libc : Z -> bool) (now : nat -> Z) (parse : list byte -> option Z)
    (data : list byte) (off : Z) (l : list FragmentRecvContext)
  : option (Z * list (list byte * Z) * list FragmentRecvContext) :=
  if negb (off <? Z.of_nat (length data)) then Some (SOFTBUS_OK, [], l)
  else
    match fuel with
    | O => None
    | S fuel' =>
      match ProcessSingleFragment libc (now fuel) parse data off l with
      | None => None
      | Some (ret, Some cb, off', l') =>
        match recvLoop fuel' libc now parse data off' l' with
        | None => None
        | Some (ret', cbs, l'') => Some (ret', cb :: cbs, l'')
        end
      | Some (ret, None, _, l') => Some (ret, [], l')
      end
    end.

Definition FragmentRecvProcess (udid callback : bool) (libc : Z -> bool) (now : nat -> Z)
    (parse : list byte -> option Z) (data : option (list byte)) (l : list FragmentRecvContext)
  : option (Z * list (list byte * Z) * list FragmentRecvContext) :=
  match data with
  | None => Some (SOFTBUS_INVALID_PARAM, [], l)
  | Some d =>
    if negb udid || negb callback then Some (SOFTBUS_INVALID_PARAM, [], l)
    else
      let dataLen := Z.of_nat (length d) in
      if (dataLen =? 0) || (MAX_MSG_LEN <? dataLen) then Some (SOFTBUS_INVALID_PARAM, [], l)
      else
        let l1 := CleanupTimeoutContexts (now 0%nat) l in
        match parse d with
        | None => Some (SOFTBUS_INVALID_PARAM, [], l1)
        | Some modu =>
          if modu =? 0 then
            if dataLen <=? FAR_FIELD_PKT_HEAD_SIZE then Some (SOFTBUS_INVALID_PARAM, [], l1)
            else Some (SOFTBUS_OK, [(drop (Z.to_nat FAR_FIELD_PKT_HEAD_SIZE) d, modu)], l1)
          else recvLoop (length d) libc now parse d 0 l1
        end
  end.

(** ** Bitmaps *)

Definition bitAt (bm : list Z) (i : Z) : bool :=
  match bm !! Z.to_nat (i / BYTE_BITS) with
  | Some w => Z.testbit w (i mod BYTE_BITS)
  | None => false
  end.

Lemma bitMask_bits i j : 0 <= j -> Z.testbit (bitMask i) j = (i mod BYTE_BITS =? j).
Proof.
  intros Hj. unfold bitMask. pose proof (Z.mod_pos_bound i BYTE_BITS ltac:(unfold BYTE_BITS; lia)).
  rewrite Z.shiftl_1_l. apply Z.pow2_bits_eqb. lia.
Qed.

Lemma land_bitMask w i : (Z.land w (bitMask i) =? 0) = negb (Z.testbit w (i mod BYTE_BITS)).
Proof.
  pose proof (Z.mod_pos_bound i BYTE_BITS ltac:(unfold BYTE_BITS; lia)) as Hm.
  destruct (Z.testbit w (i mod BYTE_BITS)) eqn:E; cbn [negb].
  - apply Z.eqb_neq. intros H0.
    assert (Z.testbit (Z.land w (bitMask i)) (i mod BYTE_BITS) = true) as Hb
      by (rewrite Z.land_spec, E, bitMask_bits by lia; apply Z.eqb_refl).
    rewrite H0, Z.bits_0 in Hb. discriminate.
  - apply Z.eqb_eq. apply Z.bits_inj_0. intros j. destruct (Z.ltb_spec j 0) as [Hj|Hj];
      [now apply Z.testbit_neg_r|]. rewrite Z.land_spec, bitMask_bits by lia.
    destruct (Z.eqb_spec (i mod BYTE_BITS) j) as [<-|]; [now rewrite E|apply andb_false_r].
Qed.

Lemma bitAt_set bm i j w : 0 <= i -> 0 <= j -> bm !! Z.to_nat (i / BYTE_BITS) = Some w ->
  bitAt (<[Z.to_nat (i / BYTE_BITS) := u8 (Z.lor w (bitMask i))]> bm) j = (i =? j) || bitAt bm j.
Proof.
  intros Hi Hj Hw. unfold bitAt. assert (Hb : 0 < BYTE_BITS) by (unfold BYTE_BITS; lia).
  pose proof (Z.mod_pos_bound j BYTE_BITS Hb) as Hm. pose proof (Z.div_pos i BYTE_BITS Hi Hb).
  pose proof (Z.div_pos j BYTE_BITS Hj Hb). pose proof (lookup_lt_Some _ _ _ Hw) as Hlt.
  destruct (Z.eq_dec (j / BYTE_BITS) (i / BYTE_BITS)) as [E|E].
  - rewrite E, list_lookup_insert_eq, Hw by exact Hlt. unfold u8. change 256 with (2 ^ 8).
    rewrite Z.mod_pow2_bits_low by (unfold BYTE_BITS in *; lia). rewrite Z.lor_spec, bitMask_bits by lia.
    rewrite orb_comm. f_equal. pose proof (Z.div_mod i BYTE_BITS). pose proof (Z.div_mod j BYTE_BITS).
    destruct (Z.eqb_spec (i mod BYTE_BITS) (j mod BYTE_BITS)), (Z.eqb_spec i j); auto; subst; try congruence; lia.
  - rewrite list_lookup_insert_ne by lia.
    destruct (Z.eqb_spec i j) as [->|]; [congruence|reflexivity].
Qed.

(** The number of the first [n] bits that are set. *)
Fixpoint countBits (f : nat -> bool) (n : nat) : nat :=
  match n with
  | O => 0
  | S n' => (countBits f n' + if f n' then 1 else 0)%nat
  end.

Lemma countBits_ext f g n : (forall i, (i < n)%nat -> f i = g i) -> countBits f n = countBits g n.
Proof. induction n as [|n IH]; intros H; cbn; [reflexivity|]. rewrite IH by (intros; apply H; lia). rewrite H by lia. reflexivity. Qed.

Lemma countBits_set f g n i : (i < n)%nat -> f i = false -> g i = true ->
  (forall j, j <> i -> g j = f j) -> countBits g n = S (countBits f n).
Proof.
  intros Hi Hf Hg He. induction n as [|n IH]; [lia|]. cbn. destruct (decide (n = i)) as [->|Hne].
  - rewrite Hf, Hg, (countBits_ext g f) by (intros; apply He; lia). lia.
  - rewrite IH by lia. rewrite He by exact Hne. lia.
Qed.

Lemma countBits_le f n : (countBits f n <= n)%nat.
Proof. induction n as [|n IH]; cbn; [lia|]. destruct (f n); lia. Qed.

Lemma countBits_all f n : countBits f n = n <-> forall i, (i < n)%nat -> f i = true.
Proof.
  induction n as [|n IH]; cbn; [split; intros; lia|]. pose proof (countBits_le f n). destruct (f n) eqn:E.
  - split; [intros H' i Hi|intros H']. { destruct (decide (i = n)) as [->|]; [exact E|]. apply IH; lia. }
    rewrite (proj2 IH); [lia|]. intros; apply H'; lia.
  - split; [lia|]. intros H'. rewrite H' in E by lia. discriminate.
Qed.

Lemma countBits_none n : countBits (fun _ => false) n = 0%nat.
Proof. induction n as [|n IH]; cbn; lia. Qed.

(** ** Slices *)

Definition sliceOf (d : list byte) (i : nat) : list byte :=
  take (Z.to_nat MAX_SLICE_LEN) (drop (i * Z.to_nat MAX_SLICE_LEN) d).

Definition sliceCount (len : Z) : Z := (len + MAX_SLICE_LEN - 1) / MAX_SLICE_LEN.

Definition headOf (mid len : Z) (d : list byte) (i : nat) : DataFragmentInfo :=
  mkInfo mid (Z.of_nat (length (sliceOf d i))) (Z.of_nat i * MAX_SLICE_LEN) len.

Definition packet (mid : Z) (d : list byte) (i : nat) : list byte :=
  let h := headOf mid (Z.of_nat (length d)) d i in
  be 4 (msgId h) ++ be 4 (size h) ++ be 4 (offset h) ++ be 4 (total h) ++ sliceOf d i.

Lemma MAX_SLICE_LEN_val : MAX_SLICE_LEN = 1272.
Proof. reflexivity. Qed.

Lemma length_fragmentSlice d i :
  Z.of_nat (length (sliceOf d i)) =
  Z.min MAX_SLICE_LEN (Z.max 0 (Z.of_nat (length d) - Z.of_nat i * MAX_SLICE_LEN)).
Proof. unfold sliceOf. rewrite length_take, length_drop, MAX_SLICE_LEN_val. lia. Qed.

Lemma sliceCount_bound len i : 0 < len -> 0 <= i < sliceCount len -> i * MAX_SLICE_LEN < len.
Proof.
  unfold sliceCount. rewrite MAX_SLICE_LEN_val. intros Hl Hi.
  pose proof (Z.mul_div_le (len + 1272 - 1) 1272 ltac:(lia)). nia.
Qed.

Lemma take_length_take {A} n (l : list A) : take (length (take n l)) l = take n l.
Proof.
  rewrite length_take. destruct (Nat.le_ge_cases n (length l)) as [H|H].
  - now rewrite Nat.min_l.
  - now rewrite Nat.min_r, !take_ge by lia.
Qed.

Lemma sliceLoop_ok libc send mid d n : forall i sent, (0 < length d)%nat ->
  Z.of_nat (length d) <= MAX_ASSEMBLED_LEN -> 0 <= i -> i + Z.of_nat n <= sliceCount (Z.of_nat (length d)) ->
  sliceLoop libc send mid (Z.of_nat (length d)) MAX_SLICE_LEN d n i = (SOFTBUS_OK, sent) ->
  sent = packet mid d <$> seq (Z.to_nat i) n.
Proof.
  induction n as [|n IH]; intros i sent Hd Hm Hi Hc; cbn [sliceLoop]; [now intros [= <-]|].
  pose proof (sliceCount_bound (Z.of_nat (length d)) i ltac:(lia) ltac:(lia)) as Hb.
  unfold MAX_ASSEMBLED_LEN in Hm. rewrite MAX_SLICE_LEN_val in *.
  rewrite (u32_small (i * 1272)) by (unfold in_u32; lia).
  destruct (Z.ltb_spec (Z.of_nat (length d)) (i * 1272)); [lia|].
  rewrite (u32_small (i * 1272 + 1272)) by (unfold in_u32; lia).
  rewrite (u32_small (Z.of_nat (length d) - i * 1272)) by (unfold in_u32; lia).
  set (sz := if _ <? _ then _ else _).
  assert (Hsz : sz = Z.of_nat (length (sliceOf d (Z.to_nat i)))).
  { rewrite length_fragmentSlice, MAX_SLICE_LEN_val. subst sz. zcase; lia. }
  assert (Hr : 0 < sz <= 1272) by (subst sz; zcase; lia).
  unfold SendSingleSlice, CreateFragmentBuffer, WriteFragmentHeader. cbn [size].
  rewrite (u32_small (FRAGMENT_HEADER_LEN + sz)) by (unfold in_u32, FRAGMENT_HEADER_LEN; lia).
  destruct (SoftBusCalloc libc _); cbn [negb]; [|discriminate].
  destruct (Z.ltb_spec (FRAGMENT_HEADER_LEN + sz) FRAGMENT_HEADER_LEN) as [|_]; [lia|].
  change (SOFTBUS_OK =? SOFTBUS_OK) with true. cbn [negb].
  destruct (Z.ltb_spec 0 sz) as [_|]; [|lia].
  destruct (memcpy_s _ _); cbn [negb]; [|discriminate].
  change (SOFTBUS_OK =? SOFTBUS_OK) with true. cbn [negb].
  match goal with |- context [send i ?b] => set (pkt := b) end.
  assert (Hp : pkt = packet mid d (Z.to_nat i)).
  { subst pkt. unfold packet, headOf. cbn [msgId size offset total]. rewrite Z2Nat.id, Hsz, <- !app_assoc by lia.
    do 4 f_equal. rewrite Nat2Z.id. unfold sliceOf.
    replace (Z.to_nat i * Z.to_nat MAX_SLICE_LEN)%nat with (Z.to_nat (i * 1272)) by (rewrite MAX_SLICE_LEN_val; lia).
    apply take_length_take. }
  destruct (Z.eqb_spec (send i pkt) SOFTBUS_OK) as [Hs|Hs]; cbn [negb]; [|intros [= E]; congruence].
  destruct (sliceLoop libc send mid _ _ d n (i + 1)) as [ret' sent'] eqn:E. intros [= -> <-].
  rewrite (IH (i + 1) sent') by (auto; lia). rewrite Hp.
  replace (Z.to_nat (i + 1)) with (S (Z.to_nat i)) by lia. reflexivity.
Qed.

(** A message that can be sent. *)
Definition sendable (d : list byte) : Prop :=
  0 < Z.of_nat (length d) <= MAX_ASSEMBLED_LEN /\ sliceCount (Z.of_nat (length d)) <= MAX_FRAGMENT_NUM.

Lemma sliceCount_pos len : 0 < len -> 1 <= sliceCount len.
Proof. unfold sliceCount. rewrite MAX_SLICE_LEN_val. intros. apply Z.div_le_lower_bound; lia. Qed.

Lemma DataSlice_ok libc send udid d mid sent :
  DataSlice libc send udid (Some d) MAX_SLICE_LEN mid = (SOFTBUS_OK, sent) ->
  sendable d /\ sent = packet mid d <$> seq 0 (Z.to_nat (sliceCount (Z.of_nat (length d)))).
Proof.
  unfold DataSlice. destruct udid; [|discriminate]. cbn [negb].
  destruct (_ || _) eqn:E; [discriminate|]. zbool.
  rewrite u32_small by (unfold in_u32, MAX_ASSEMBLED_LEN in *; rewrite MAX_SLICE_LEN_val; lia).
  fold (sliceCount (Z.of_nat (length d))).
  destruct (Z.ltb_spec MAX_FRAGMENT_NUM (sliceCount (Z.of_nat (length d)))); [discriminate|].
  assert (Hp : 0 < Z.of_nat (length d)) by lia. pose proof (sliceCount_pos _ Hp).
  intros Hs. split; [split; lia|]. apply (sliceLoop_ok libc send mid d _ 0 sent); auto; lia.
Qed.

Lemma word_be0 z l : word 0 (be 4 z ++ l) = u32 z.
Proof. unfold word. rewrite drop_0. rewrite take_app_length' by (now rewrite length_be). apply unbe_be_u32. Qed.

Lemma word_skip n z l : word (4 + n) (be 4 z ++ l) = word n l.
Proof.
  unfold word. rewrite <- drop_drop, drop_app_length' by (now rewrite length_be). reflexivity.
Qed.

Lemma length_packet mid d i : length (packet mid d i) = (16 + length (sliceOf d i))%nat.
Proof. unfold packet. rewrite !length_app, !length_be. reflexivity. Qed.

Definition packetHead (mid : Z) (d : list byte) (i : nat) : list byte :=
  let h := headOf mid (Z.of_nat (length d)) d i in
  be 4 (msgId h) ++ be 4 (size h) ++ be 4 (offset h) ++ be 4 (total h) ++ [].

Lemma packet_split mid d i : packet mid d i = packetHead mid d i ++ sliceOf d i.
Proof. unfold packet, packetHead. now rewrite <- !app_assoc. Qed.

Lemma length_packetHead mid d i : length (packetHead mid d i) = 16%nat.
Proof. unfold packetHead. now rewrite !length_app, !length_be. Qed.

Lemma packet_head mid d i : readAt 0 FRAGMENT_HEADER_LEN (packet mid d i) = Some (packetHead mid d i).
Proof.
  rewrite packet_split. apply (readAt_app 0 FRAGMENT_HEADER_LEN [] (packetHead mid d i) (sliceOf d i)); [reflexivity|].
  now rewrite length_packetHead.
Qed.

(** What the receiver reads from a packet. *)
Lemma parse_packet mid d i : in_u32 mid -> sendable d ->
  Z.of_nat i < sliceCount (Z.of_nat (length d)) ->
  ValidateAndParseFragment (Some (packet mid d i)) = Some (SOFTBUS_OK, Some (headOf mid (Z.of_nat (length d)) d i)).
Proof.
  intros Hm [Hl Hc] Hi. pose proof (sliceCount_bound _ (Z.of_nat i) (proj1 Hl) ltac:(lia)) as Hb.
  pose proof (length_fragmentSlice d i) as Hs.
  unfold ValidateAndParseFragment, ParseFragmentHeader. rewrite length_packet.
  destruct (Z.ltb_spec (Z.of_nat (16 + length (sliceOf d i))) FRAGMENT_HEADER_LEN) as [Hlt|_];
    [unfold FRAGMENT_HEADER_LEN in Hlt; lia|].
  rewrite packet_head.
  assert (Hh : mkInfo (word 0 (packetHead mid d i)) (word 4 (packetHead mid d i)) (word 8 (packetHead mid d i))
                (word 12 (packetHead mid d i)) = headOf mid (Z.of_nat (length d)) d i).
  { unfold packetHead. cbn [msgId size offset total headOf].
    rewrite word_be0, (word_skip 0), (word_skip 4), (word_skip 0), (word_skip 8), (word_skip 4), (word_skip 0), !word_be0.
    unfold headOf. unfold MAX_ASSEMBLED_LEN in Hl. rewrite MAX_SLICE_LEN_val in *.
    rewrite !u32_small; try reflexivity; unfold in_u32 in *; lia. }
  rewrite Hh. unfold ValidateFragmentHeader, headOf. cbn [size offset total].
  destruct (Z.ltb_spec MAX_ASSEMBLED_LEN (Z.of_nat (length d))); [lia|].
  destruct (Z.ltb_spec MAX_SLICE_LEN (Z.of_nat (length (sliceOf d i)))); [lia|].
  destruct (Z.leb_spec (Z.of_nat (length d)) (Z.of_nat i * MAX_SLICE_LEN)); [lia|].
  destruct (Z.ltb_spec (Z.of_nat (16 + length (sliceOf d i))) FRAGMENT_HEADER_LEN) as [Hlt|_];
    [unfold FRAGMENT_HEADER_LEN in Hlt; lia|]. cbn [orb].
  unfold MAX_ASSEMBLED_LEN, FRAGMENT_HEADER_LEN in *. rewrite MAX_SLICE_LEN_val in *.
  rewrite u32_small by (unfold in_u32; lia).
  destruct (Z.eqb_spec (Z.of_nat (length (sliceOf d i))) (Z.of_nat (16 + length (sliceOf d i)) - 16)) as [_|]; [|lia].
  cbn [negb]. rewrite u32_small by (unfold in_u32; lia).
  destruct (Z.ltb_spec (Z.of_nat (length d)) (Z.of_nat i * 1272 + Z.of_nat (length (sliceOf d i)))); [lia|].
  reflexivity.
Qed.

Lemma copy_packet libc mid d i : (forall s, libc s = true) -> 0 < Z.of_nat (length (sliceOf d i)) ->
  CreateFragmentDataCopy libc (packet mid d i) (Z.of_nat (length (sliceOf d i))) = Some (Some (sliceOf d i)).
Proof.
  intros Hlibc Hp. pose proof (length_fragmentSlice d i) as Hs. rewrite MAX_SLICE_LEN_val in Hs.
  unfold CreateFragmentDataCopy. rewrite SoftBusCalloc_true; [|unfold MAX_MALLOC_SIZE; lia|apply Hlibc].
  cbn [negb]. destruct (Z.ltb_spec 0 (Z.of_nat (length (sliceOf d i)))) as [_|]; [|lia].
  rewrite (proj2 (memcpy_s_spec _ _)) by lia. cbn [negb]. rewrite packet_split.
  pose proof (readAt_app FRAGMENT_HEADER_LEN (Z.of_nat (length (sliceOf d i))) (packetHead mid d i) (sliceOf d i) [])
    as Hr. rewrite app_nil_r in Hr. rewrite Hr; [reflexivity|now rewrite length_packetHead|reflexivity].
Qed.

(** ** One message being received *)

Section OneMessage.
Context (mid t0 : Z) (d : list byte) (Hmid : in_u32 mid) (Hd : sendable d).
Let len : Z := Z.of_nat (length d).
Let n : nat := Z.to_nat (sliceCount len).

Lemma len_eq : len = Z.of_nat (length d).
Proof. reflexivity. Qed.

Lemma n_eq : n = Z.to_nat (sliceCount len).
Proof. reflexivity. Qed.

Record ctxOK (got : nat -> bool) (c : FragmentContext) : Prop := {
  c_id : cMsgId c = mid;
  c_slices : sliceTotal c = Z.of_nat n;
  c_buffer : length (buffer c) = length d;
  c_bitmap : length (sliceBitmap c) = Z.to_nat (BitmapBytes (Z.of_nat n));
  c_bits i : (i < n)%nat -> bitAt (sliceBitmap c) (Z.of_nat i) = got i;
  c_count : receivedSliceCount c = Z.of_nat (countBits got n);
  c_data i k : (i < n)%nat -> got i = true ->
    Z.of_nat i * MAX_SLICE_LEN <= Z.of_nat k < Z.of_nat (S i) * MAX_SLICE_LEN -> buffer c !! k = d !! k
}.

Lemma n_bounds : Z.of_nat n = sliceCount len /\ 1 <= Z.of_nat n <= 1024.
Proof.
  destruct Hd as [[H1 H2] H3]. pose proof len_eq as Hl. pose proof (sliceCount_pos len ltac:(lia)).
  rewrite n_eq, Z2Nat.id by lia. unfold MAX_FRAGMENT_NUM in H3. rewrite <- Hl in H3. lia.
Qed.

Lemma BitmapBytes_n : BitmapBytes (Z.of_nat n) = (Z.of_nat n + 7) / 8.
Proof.
  pose proof n_bounds. unfold BitmapBytes, BYTE_BITS. rewrite u32_small by (unfold in_u32; lia). f_equal. lia.
Qed.

(** The slice index of packet [i], and its place in the bitmap. *)
Lemma index_packet i : offset (headOf mid len d i) / MAX_SLICE_LEN = Z.of_nat i.
Proof. cbn. apply Z.div_mul. rewrite MAX_SLICE_LEN_val. lia. Qed.

Lemma bitmap_lookup got c i : ctxOK got c -> (i < n)%nat ->
  exists w, sliceBitmap c !! Z.to_nat (Z.of_nat i / BYTE_BITS) = Some w /\
    Z.testbit w (Z.of_nat i mod BYTE_BITS) = got i.
Proof.
  intros Hc Hi. pose proof (c_bits _ _ Hc i Hi) as Hb. unfold bitAt in Hb.
  destruct (sliceBitmap c !! _) as [w|] eqn:E; [eauto|].
  exfalso. apply lookup_ge_None in E. rewrite (c_bitmap _ _ Hc), BitmapBytes_n in E.
  pose proof n_bounds. unfold BYTE_BITS in E.
  assert (Z.of_nat i / 8 < (Z.of_nat n + 7) / 8); [|pose proof (Z.div_pos (Z.of_nat i) 8); lia].
  apply Z.div_lt_upper_bound; [lia|]. pose proof (Z.mul_succ_div_gt (Z.of_nat n + 7) 8). lia.
Qed.

Lemma slice_nonempty i : (i < n)%nat -> 0 < Z.of_nat (length (sliceOf d i)) /\
  Z.of_nat i * MAX_SLICE_LEN + Z.of_nat (length (sliceOf d i)) <= len.
Proof.
  intros Hi. pose proof n_bounds as [Hn _].
  pose proof (sliceCount_bound len (Z.of_nat i) (proj1 (proj1 Hd)) ltac:(lia)).
  pose proof (length_fragmentSlice d i). pose proof len_eq. rewrite MAX_SLICE_LEN_val in *. lia.
Qed.

Lemma write_slice got c i : ctxOK got c -> (i < n)%nat ->
  exists buf, writeAt (Z.of_nat i * MAX_SLICE_LEN) (sliceOf d i) (buffer c) = Some buf /\
    length buf = length d /\
    (forall k, Z.of_nat i * MAX_SLICE_LEN <= Z.of_nat k < Z.of_nat (S i) * MAX_SLICE_LEN -> buf !! k = d !! k) /\
    (forall k, ~ (Z.of_nat i * MAX_SLICE_LEN <= Z.of_nat k < Z.of_nat (S i) * MAX_SLICE_LEN) ->
       buf !! k = buffer c !! k).
Proof.
  intros Hc Hi. destruct (slice_nonempty i Hi) as [Hp Hle]. pose proof (length_fragmentSlice d i) as Hs.
  pose proof (c_buffer _ _ Hc) as Hb. pose proof len_eq. unfold writeAt. rewrite Hb.
  destruct (Z.leb_spec 0 (Z.of_nat i * MAX_SLICE_LEN)) as [_|Hneg]; [|rewrite MAX_SLICE_LEN_val in Hneg; lia].
  destruct (Z.leb_spec (Z.of_nat i * MAX_SLICE_LEN + Z.of_nat (length (sliceOf d i))) (Z.of_nat (length d))) as [_|]; [|lia].
  cbn [andb]. eexists. split; [reflexivity|].
  set (o := Z.to_nat (Z.of_nat i * MAX_SLICE_LEN)).
  assert (Ho : Z.of_nat o = Z.of_nat i * MAX_SLICE_LEN) by (subst o; rewrite MAX_SLICE_LEN_val; lia).
  assert (Hlo : length (take o (buffer c)) = o) by (rewrite length_take, Hb; lia).
  split; [rewrite !length_app, Hlo, length_drop, Hb; lia|]. split; intros k Hk.
  - rewrite lookup_app_r, Hlo by lia. destruct (decide (k - o < length (sliceOf d i))%nat) as [Hin|Hout].
    + rewrite lookup_app_l by exact Hin. unfold sliceOf. rewrite lookup_take_lt, lookup_drop.
      * f_equal. rewrite MAX_SLICE_LEN_val in *. lia.
      * rewrite MAX_SLICE_LEN_val in *. lia.
    + rewrite MAX_SLICE_LEN_val in *. rewrite lookup_app_r by lia. rewrite lookup_drop.
      rewrite !lookup_ge_None_2; [reflexivity|lia|rewrite Hb; lia].
  - destruct (decide (k < o)%nat) as [Hlt|Hge].
    + rewrite lookup_app_l by lia. now apply lookup_take_lt.
    + rewrite MAX_SLICE_LEN_val in *. rewrite lookup_app_r, Hlo by lia. rewrite lookup_app_r by lia.
      rewrite lookup_drop. f_equal. lia.
Qed.

Definition addTo (i : nat) (got : nat -> bool) : nat -> bool := fun j => (i =? j)%nat || got j.

(** Every byte is in a slice. *)
Lemma covered k : Z.of_nat k < len -> exists i, (i < n)%nat /\
  Z.of_nat i * MAX_SLICE_LEN <= Z.of_nat k < Z.of_nat (S i) * MAX_SLICE_LEN.
Proof.
  intros Hk. exists (Z.to_nat (Z.of_nat k / MAX_SLICE_LEN)). pose proof n_bounds as [Hn _].
  unfold sliceCount in Hn. rewrite MAX_SLICE_LEN_val in *.
  pose proof (Z.div_pos (Z.of_nat k) 1272). pose proof (Z.mul_div_le (Z.of_nat k) 1272 ltac:(lia)).
  pose proof (Z.mul_succ_div_gt (Z.of_nat k) 1272 ltac:(lia)).
  assert (Z.of_nat k / 1272 < (len + 1272 - 1) / 1272); [|lia].
  apply Z.div_lt_upper_bound; [lia|]. pose proof (Z.mul_succ_div_gt (len + 1272 - 1) 1272 ltac:(lia)). lia.
Qed.

Lemma complete_buffer got c : ctxOK got c -> (forall i, (i < n)%nat -> got i = true) -> buffer c = d.
Proof.
  intros Hc Hall. apply list_eq. intros k. destruct (decide (k < length d)%nat) as [Hk|Hk].
  - destruct (covered k) as (i & Hi & Hr); [pose proof len_eq; lia|]. exact (c_data _ _ Hc i k Hi (Hall i Hi) Hr).
  - rewrite !lookup_ge_None_2; [reflexivity|lia|rewrite (c_buffer _ _ Hc); lia].
Qed.

(** The context after slice [i] was stored. *)
Lemma ctxOK_add got c i w buf : ctxOK got c -> (i < n)%nat -> got i = false ->
  sliceBitmap c !! Z.to_nat (Z.of_nat i / BYTE_BITS) = Some w ->
  length buf = length d ->
  (forall k, Z.of_nat i * MAX_SLICE_LEN <= Z.of_nat k < Z.of_nat (S i) * MAX_SLICE_LEN -> buf !! k = d !! k) ->
  (forall k, ~ (Z.of_nat i * MAX_SLICE_LEN <= Z.of_nat k < Z.of_nat (S i) * MAX_SLICE_LEN) -> buf !! k = buffer c !! k) ->
  ctxOK (addTo i got)
    (mkCtx (cMsgId c) (cTotal c) (sliceTotal c) (u32 (receivedSliceCount c + 1))
       (<[Z.to_nat (Z.of_nat i / BYTE_BITS) := u8 (Z.lor w (bitMask (Z.of_nat i)))]> (sliceBitmap c))
       buf (createTime c)).
Proof.
  intros Hc Hi Hg Hw Hl Hin Hout. pose proof Hc as [H1 H2 H3 H4 H5 H6 H7]. split; cbn.
  - exact H1.
  - exact H2.
  - exact Hl.
  - now rewrite length_insert.
  - intros j Hj. rewrite (bitAt_set _ _ _ w) by (auto; lia). rewrite H5 by exact Hj. unfold addTo. f_equal.
    destruct (Z.eqb_spec (Z.of_nat i) (Z.of_nat j)), (Nat.eqb_spec i j); auto; lia.
  - rewrite H6, (countBits_set got (addTo i got) n i); auto.
    + pose proof (countBits_le got n). pose proof n_bounds. rewrite u32_small by (unfold in_u32; lia). lia.
    + unfold addTo. now rewrite Nat.eqb_refl.
    + intros j Hj. unfold addTo. rewrite (proj2 (Nat.eqb_neq i j)) by congruence. reflexivity.
  - intros j k Hj Hgj Hk. destruct (decide (j = i)) as [->|Hne]; [now apply Hin|].
    rewrite Hout by (rewrite MAX_SLICE_LEN_val in *; lia). apply (H7 j k Hj); [|exact Hk].
    unfold addTo in Hgj. rewrite (proj2 (Nat.eqb_neq i j)) in Hgj by congruence. exact Hgj.
Qed.

Lemma ctxOK_new libc now : (forall s, libc s = true) -> exists c,
  CreateFragmentContext libc now mid len (u32 (len + MAX_SLICE_LEN - 1) / MAX_SLICE_LEN) = Some c /\
  createTime c = now /\ ctxOK (fun _ => false) c.
Proof.
  intros Hlibc. destruct n_bounds as [Hn Hb]. destruct Hd as [[Hd1 Hd2] _]. unfold MAX_ASSEMBLED_LEN in Hd2.
  pose proof len_eq as Hl. pose proof BitmapBytes_n as Hbm.
  rewrite u32_small by (unfold in_u32; rewrite MAX_SLICE_LEN_val; lia). fold (sliceCount len). rewrite <- Hn.
  unfold CreateFragmentContext.
  assert (1 <= BitmapBytes (Z.of_nat n) <= 1024).
  { rewrite Hbm. split; [apply Z.div_le_lower_bound; lia|apply Z.div_le_upper_bound; lia]. }
  rewrite !SoftBusCalloc_true by (try apply Hlibc; unfold MAX_MALLOC_SIZE, sizeof_FragmentContext; lia). cbn [negb].
  eexists. split; [reflexivity|]. split; [reflexivity|]. split; cbn.
  - reflexivity.
  - reflexivity.
  - rewrite length_replicate. lia.
  - apply length_replicate.
  - intros i Hi. unfold bitAt. destruct (replicate _ 0 !! _) as [w|] eqn:E; [|reflexivity].
    apply lookup_replicate in E as [-> _]. apply Z.bits_0.
  - now rewrite countBits_none.
  - discriminate.
Qed.

(** The first packet does not arrive before [t0], no packet later than this. *)
Definition inWindow (t : Z) : Prop := t0 <= t <= t0 + FRAGMENT_CONTEXT_TIMEOUT_MS.

(** [got]: the slices received so far.  Before the first there is no context. *)
Definition receiving (t : Z) (got : nat -> bool) (l : list FragmentContext) : Prop :=
  (FindFragmentContext mid l = None /\ forall i, got i = false) \/
  (exists m c, FindFragmentContext mid l = Some (m, c) /\ ctxOK got c /\ t0 <= createTime c <= t).

Lemma find_filter (P P2 : FragmentContext -> Prop) `{!forall x, Decision (P x), !forall x, Decision (P2 x)} l m c :
  list_find P l = Some (m, c) -> P2 c -> exists m', list_find P (base.filter P2 l) = Some (m', c).
Proof.
  revert m. induction l as [|x l IH]; intros m Hm HP2; cbn in Hm; [discriminate|]. rewrite filter_cons.
  case_decide as Hx.
  - injection Hm as <- <-. rewrite decide_True by exact HP2. exists 0%nat. cbn. now rewrite decide_True.
  - destruct (list_find P l) as [[m1 c1]|] eqn:E; [|discriminate]. cbn in Hm. injection Hm as <- <-.
    destruct (IH m1 eq_refl HP2) as [m' Hm']. case_decide; [|eauto]. exists (S m'). cbn. now rewrite decide_False, Hm'.
Qed.

Lemma cleanup_find t got l : inWindow t -> receiving t got l ->
  receiving t got (CleanupTimeoutFragmentContexts t l).
Proof.
  unfold inWindow, FRAGMENT_CONTEXT_TIMEOUT_MS. intros Hwin [[H Hg]|(m & c & H & Hc & Hf)].
  - left. split; [|exact Hg]. apply list_find_None in H. apply list_find_None.
    apply Forall_forall. intros c Hc. apply list_elem_of_filter in Hc as [_ Hc].
    exact (proj1 (Forall_forall _ _) H c Hc).
  - right. destruct (find_filter (fun c => cMsgId c = mid)
      (fun c => u64 (t - createTime c) <= FRAGMENT_CONTEXT_TIMEOUT_MS) l m c H) as [m' Hm'].
    { rewrite u64_small by (unfold in_u64; lia). unfold FRAGMENT_CONTEXT_TIMEOUT_MS. lia. }
    exists m', c. auto.
Qed.

(** The context a packet of the message goes to. *)
Lemma found_context libc t got l i : (forall s, libc s = true) -> inWindow t -> receiving t got l ->
  exists m c l', FindOrCreateFragmentContext libc t (headOf mid len d i) l = (SOFTBUS_OK, Some (m, c), l') /\
    l' !! m = Some c /\ FindFragmentContext mid l' = Some (m, c) /\ ctxOK got c /\ t0 <= createTime c <= t.
Proof.
  intros Hlibc [Hwin _] [[H Hg]|(m & c & H & Hc & Hf)]; unfold FindOrCreateFragmentContext; cbn [msgId headOf total]; rewrite H.
  - destruct (ctxOK_new libc t Hlibc) as (c & -> & Ht & Hc). exists (length l), c, (l ++ [c]). split; [reflexivity|].
    assert (Hl : (l ++ [c]) !! length l = Some c) by (now rewrite lookup_app_r, Nat.sub_diag by lia).
    split_and!; auto.
    + apply list_find_Some. split_and!; auto; [apply Hc|]. intros j y Hj Hlt. rewrite lookup_app_l in Hj by lia.
      apply list_find_None in H. exact (proj1 (Forall_lookup _ _) H _ _ Hj).
    + destruct Hc as [H1 H2 H3 H4 H5 H6 H7]. split; auto.
      * intros j Hj. rewrite H5, Hg by exact Hj. reflexivity.
      * rewrite H6. f_equal. apply countBits_ext. intros. now rewrite Hg.
      * intros j k Hj Hgj. now rewrite Hg in Hgj.
    + lia.
    + lia.
  - exists m, c, l. pose proof H as (Hl & _)%list_find_Some. auto.
Qed.

Lemma find_insert (l : list FragmentContext) m c c' : FindFragmentContext mid l = Some (m, c) -> cMsgId c' = mid ->
  FindFragmentContext mid (<[m := c']> l) = Some (m, c').
Proof.
  intros (Hl & Hp & Hb)%list_find_Some Hc'. apply list_find_Some. split_and!; [|exact Hc'|].
  - apply list_lookup_insert_eq. now apply lookup_lt_Some in Hl.
  - intros j y Hj Hlt. rewrite list_lookup_insert_ne in Hj by lia. eauto.
Qed.

(** One packet: nothing new, one more slice, or the message. *)
Lemma aggregate_packet libc t got l i : (forall s, libc s = true) -> inWindow t -> receiving t got l -> (i < n)%nat ->
  exists out l', DataAggregate true SOFTBUS_OK t t libc (Some (packet mid d i)) l = Some (SOFTBUS_OK, out, Some mid, l') /\
    ((out = None /\ receiving t (addTo i got) l' /\ exists j, (j < n)%nat /\ addTo i got j = false) \/
     (out = None /\ got i = true /\ receiving t got l') \/
     (out = Some d /\ forall j, (j < n)%nat -> addTo i got j = true)).
Proof.
  intros Hlibc Hwin Hr Hi. destruct n_bounds as [Hn Hnb]. destruct (slice_nonempty i Hi) as [Hp Hle].
  unfold DataAggregate. cbn [negb]. rewrite parse_packet by (auto; fold len; lia). fold len.
  cbn [size headOf]. rewrite copy_packet by auto. unfold ProcessFragmentWithLock. change (SOFTBUS_OK =? SOFTBUS_OK) with true. cbn [negb].
  apply (cleanup_find t got l Hwin) in Hr. destruct (found_context libc t got _ i Hlibc Hwin Hr) as (m & c & l' & -> & Hl & Hf & Hc & Hfr).
  rewrite index_packet, (c_slices _ _ Hc). destruct (Z.leb_spec (Z.of_nat n) (Z.of_nat i)); [lia|].
  destruct (bitmap_lookup got c i Hc Hi) as (w & Hw & Hb). rewrite Hw, land_bitMask, Hb. destruct (got i) eqn:Eg; cbn [negb].
  { exists None, l'. split; [reflexivity|]. right. left. split_and!; auto. right. exists m, c. auto. }
  cbn [size headOf offset]. rewrite (proj2 (memcpy_s_spec _ _)) by lia. cbn [negb].
  pose proof (readAt_app 0 _ [] (sliceOf d i) [] eq_refl eq_refl) as Hrd.
  cbn [app] in Hrd. rewrite app_nil_r in Hrd. rewrite Hrd. cbn [mbind option_bind].
  destruct (write_slice got c i Hc Hi) as (buf & -> & Hbl & Hin & Hout).
  pose proof (ctxOK_add got c i w buf Hc Hi Eg Hw Hbl Hin Hout) as Hc'. rewrite (c_slices _ _ Hc) in Hc'.
  pose proof (c_count _ _ Hc') as Hcnt. cbn [receivedSliceCount] in Hcnt. rewrite Hcnt.
  destruct (Z.eqb_spec (Z.of_nat (countBits (addTo i got) n)) (Z.of_nat n)) as [He|He].
  - exists (Some buf), (delete m l'). split; [reflexivity|]. right. right.
    assert (Hall : forall j, (j < n)%nat -> addTo i got j = true) by (apply countBits_all; lia).
    split; [|exact Hall]. f_equal. exact (complete_buffer _ _ Hc' Hall).
  - eexists None, _. split; [reflexivity|]. left. split; [reflexivity|]. split.
    + right. exists m. eexists. split; [apply (find_insert l' m c); [exact Hf|apply Hc']|]. rewrite <- Hcnt. split; [exact Hc'|exact Hfr].
    + destruct (decide (Forall (fun j => addTo i got j = true) (seq 0 n))) as [Hall|Hnot].
      * exfalso. apply He. f_equal. apply countBits_all. intros j Hj.
        apply (proj1 (Forall_forall _ _) Hall). apply elem_of_seq. lia.
      * apply not_Forall_Exists in Hnot; [|intros j; apply _]. apply Exists_exists in Hnot as (j & Hj & Hg).
        exists j. split; [apply elem_of_seq in Hj; lia|]. apply not_true_is_false, Hg.
Qed.

Lemma receiving_later t t' got l : receiving t got l -> t <= t' -> receiving t' got l.
Proof.
  intros [H|(m & c & H & Hc & Hf)] Ht; [now left|]. right. exists m, c. split_and!; auto; lia.
Qed.

End OneMessage.

(** ** A run of the receiver *)

(** Packets with the time they arrive at; what each call hands out. *)
Fixpoint receive (libc : Z -> bool) (rs : list (Z * list byte)) (l : list FragmentContext)
  : option (list (option (list byte)) * list FragmentContext) :=
  match rs with
  | [] => Some ([], l)
  | (t, p) :: rs' =>
    match DataAggregate true SOFTBUS_OK t t libc (Some p) l with
    | None => None
    | Some (_, out, _, l') =>
      match receive libc rs' l' with
      | None => None
      | Some (outs, l'') => Some (out :: outs, l'')
      end
    end
  end.

Lemma receive_app libc rs1 : forall rs2 l outs1 l1, receive libc rs1 l = Some (outs1, l1) ->
  receive libc (rs1 ++ rs2) l =
  match receive libc rs2 l1 with Some (outs2, l2) => Some (outs1 ++ outs2, l2) | None => None end.
Proof.
  induction rs1 as [|[t p] rs1 IH]; intros rs2 l outs1 l1 H; cbn [receive app] in *.
  - injection H as <- <-. now destruct (receive libc rs2 l) as [[]|].
  - destruct (DataAggregate _ _ _ _ _ _ _) as [[[[ret out] mo] l']|]; [|discriminate].
    destruct (receive libc rs1 l') as [[outs l2]|] eqn:E; [|discriminate]. injection H as <- <-.
    rewrite (IH rs2 l' outs l2 E). now destruct (receive libc rs2 l2) as [[]|].
Qed.

(** Arrivals are times and slice numbers. *)
Definition arrive (pkts : list (list byte)) (a : Z * nat) : Z * list byte := (a.1, nth a.2 pkts []).

Definition packetsOf (mid : Z) (d : list byte) : list (list byte) :=
  packet mid d <$> seq 0 (Z.to_nat (sliceCount (Z.of_nat (length d)))).

Lemma nth_packetsOf mid d i : (i < length (packetsOf mid d))%nat -> nth i (packetsOf mid d) [] = packet mid d i.
Proof.
  unfold packetsOf. rewrite length_fmap, length_seq. intros Hi. apply nth_lookup_Some.
  rewrite list_lookup_fmap, lookup_seq_lt by exact Hi. reflexivity.
Qed.

Section Run.
Context (libc : Z -> bool) (mid t0 : Z) (d : list byte).
Context (Hmid : in_u32 mid) (Hd : sendable d) (Hlibc : forall s, libc s = true).
Let pkts : list (list byte) := packetsOf mid d.

Lemma length_pkts : length pkts = Z.to_nat (sliceCount (Z.of_nat (length d))).
Proof. unfold pkts, packetsOf. now rewrite length_fmap, length_seq. Qed.

(** As long as slice [last] is missing nothing is handed out. *)
Lemma receive_incomplete last (rs : list (Z * nat)) : (last < length pkts)%nat ->
  forall t got l, receiving mid t0 d t got l -> got last = false ->
  Forall (fun a => (a.2 < length pkts)%nat /\ a.2 <> last /\ t <= a.1 /\ inWindow t0 a.1) rs ->
  StronglySorted Z.le rs.*1 ->
  exists l' got', receive libc (arrive pkts <$> rs) l = Some (replicate (length rs) None, l') /\
    (forall i, got' i = true <-> got i = true \/ i ∈ rs.*2) /\
    (forall t', t <= t' -> Forall (fun a => a.1 <= t') rs -> receiving mid t0 d t' got' l').
Proof.
  intros Hlast. induction rs as [|[t1 i] rs IH]; intros t got l Hr Hg Hp Hs.
  - exists l, got. split; [reflexivity|]. split.
    + intros i. cbn. rewrite elem_of_nil. tauto.
    + intros t' Ht' _. now apply (receiving_later mid t0 d t).
  - apply Forall_cons_1 in Hp as [(Hi & Hne & Ht & Hw) Hp]. cbn in Hi, Hne, Ht, Hw.
    cbn [fmap list_fmap] in Hs. apply StronglySorted_inv in Hs as [Hs Hle].
    apply (receiving_later mid t0 d t t1) in Hr; [|exact Ht].
    rewrite length_pkts in Hi. destruct (aggregate_packet mid t0 d Hmid Hd libc t1 got l i Hlibc Hw Hr Hi) as (out & l1 & Ha & Hres).
    cbn [fmap list_fmap receive arrive fst snd]. unfold pkts. rewrite nth_packetsOf by (fold pkts; rewrite length_pkts; exact Hi).
    fold pkts. rewrite Ha. rewrite length_pkts in Hlast.
    assert (exists got1, out = None /\ receiving mid t0 d t1 got1 l1 /\ got1 last = false /\
      forall j, got1 j = true <-> got j = true \/ j = i) as (got1 & -> & Hr1 & Hg1 & Hgot1).
    { assert (Hadd : forall j, addTo i got j = true <-> got j = true \/ j = i).
      { intros j. unfold addTo. destruct (Nat.eqb_spec i j); cbn; split; intros; auto; destruct H; auto; congruence. }
      assert (Hl0 : addTo i got last = false).
      { apply not_true_is_false. intros E. apply Hadd in E as [E|E]; congruence. }
      destruct Hres as [(-> & H1 & _)| [ (-> & Hgi & H1)|(_ & Hall)]].
      - exists (addTo i got). auto.
      - exists got. split_and!; auto. intros j. split; [auto|]. intros [Hj| ->]; auto.
      - rewrite Hall in Hl0 by exact Hlast. discriminate. }
    destruct (IH t1 got1 l1 Hr1 Hg1) as (l2 & got2 & -> & Hgot2 & Hr2); [|exact Hs|].
    { apply Forall_forall. intros a Ha'. pose proof (proj1 (Forall_forall _ _) Hp a Ha') as (A1 & A2 & A3 & A4).
      split; [exact A1|]. split; [exact A2|]. split; [|exact A4].
      apply (proj1 (Forall_forall _ _) Hle). apply list_elem_of_fmap. eauto. }
    exists l2, got2. split; [reflexivity|]. split.
    + intros j. rewrite Hgot2, Hgot1, elem_of_cons. tauto.
    + intros t' Ht' Hall. apply Forall_cons_1 in Hall as [H1 H2]. auto.
Qed.

End Run.

(** ** Properties *)

(** C7: A message cut by [DataSlice] into slices of the maximal length is put
    together again: in whatever order the slices arrive, with any repetitions and
    next to any other messages in progress, as long as they arrive within the
    timeout, nothing is handed out until the last missing slice arrives, and then
    exactly the original message. *)
Theorem fragments_reassembled (libc : Z -> bool) (slibc : Z -> bool) (send : Z -> list byte -> Z)
    (mid t0 tl : Z) (last : nat) (d : list byte) (pkts : list (list byte)) (rs : list (Z * nat))
    (l : list FragmentContext)
    (Hmid : in_u32 mid) (Hlibc : forall s, libc s = true)
    (Hsent : DataSlice slibc send true (Some d) MAX_SLICE_LEN mid = (SOFTBUS_OK, pkts))
    (Hnew : Forall (fun c => cMsgId c <> mid) l)
    (Hidx : Forall (fun a => (a.2 < length pkts)%nat /\ a.2 <> last) rs) (Hlast : (last < length pkts)%nat)
    (Hall : forall i, (i < length pkts)%nat -> i = last \/ i ∈ rs.*2)
    (Hsort : StronglySorted Z.le (rs.*1 ++ [tl])) (Htime : Forall (inWindow t0) (rs.*1 ++ [tl])) :
  exists l', receive libc (arrive pkts <$> rs ++ [(tl, last)]) l =
             Some (replicate (length rs) None ++ [Some d], l').
Proof.
  apply DataSlice_ok in Hsent as [Hd ->]. fold (packetsOf mid d) in *.
  apply Forall_app in Htime as [Htr Htl]. apply Forall_cons_1 in Htl as [Htl _].
  assert (Hr0 : receiving mid t0 d t0 (fun _ => false) l) by (left; split; [now apply list_find_None|auto]).
  assert (Hle : forall t, t ∈ rs.*1 -> t <= tl).
  { intros t Ht. eapply (StronglySorted_app_1_elem_of Z.le); [exact Hsort|exact Ht|]. now apply list_elem_of_singleton. }
  destruct (receive_incomplete libc mid t0 d Hmid Hd Hlibc last rs Hlast t0 (fun _ => false) l Hr0 eq_refl)
    as (l1 & got & Hrun & Hgot & Hr1).
  - apply Forall_forall. intros a Ha. pose proof (proj1 (Forall_forall _ _) Hidx a Ha) as [A1 A2].
    assert (Ht : inWindow t0 a.1) by (apply (proj1 (Forall_forall _ _) Htr), list_elem_of_fmap; eauto).
    split; [exact A1|]. split; [exact A2|]. split; [apply Ht|exact Ht].
  - now apply StronglySorted_app_1_l in Hsort.
  - rewrite fmap_app, (receive_app _ _ _ _ _ _ Hrun). cbn [fmap list_fmap receive arrive fst snd].
    rewrite nth_packetsOf by exact Hlast.
    assert (Hr : receiving mid t0 d tl got l1).
    { apply Hr1; [apply Htl|]. apply Forall_forall. intros a Ha. apply Hle, list_elem_of_fmap. eauto. }
    unfold packetsOf in Hlast. rewrite length_fmap, length_seq in Hlast.
    destruct (aggregate_packet mid t0 d Hmid Hd libc tl got l1 last Hlibc Htl Hr Hlast) as (out & l2 & -> & Hres).
    exists l2. f_equal. f_equal. f_equal. f_equal.
    assert (Hgl : forall j, (j < Z.to_nat (sliceCount (Z.of_nat (length d))))%nat -> addTo last got j = true).
    { intros j Hj. unfold addTo. destruct (Hall j) as [->|Hin]; [unfold packetsOf; now rewrite length_fmap, length_seq|now rewrite Nat.eqb_refl|].
      rewrite (proj2 (Hgot j)) by auto. apply orb_true_r. }
    destruct Hres as [(_ & _ & j & Hj & Hf)| [ (_ & Hg & _)|(-> & _)]].
    + rewrite Hgl in Hf by exact Hj. discriminate.
    + exfalso. apply Hgot in Hg as [|Hg]; [discriminate|]. apply list_elem_of_fmap in Hg as (a & Ha1 & Ha2).
      now destruct (proj1 (Forall_forall _ _) Hidx a Ha2) as [_ []].
    + reflexivity.
Qed.

(** *** Memory safety *)

Record wfCtx (c : FragmentContext) : Prop := {
  w_total : 0 < cTotal c <= MAX_ASSEMBLED_LEN;
  w_slices : sliceTotal c = sliceCount (cTotal c);
  w_buffer : Z.of_nat (length (buffer c)) = cTotal c;
  w_bitmap : Z.of_nat (length (sliceBitmap c)) = BitmapBytes (sliceTotal c)
}.

(** The packet belongs to a new message, or agrees with the length of the one it
    belongs to. *)
Definition consistent (h : DataFragmentInfo) (l : list FragmentContext) : Prop :=
  forall c, c ∈ l -> cMsgId c = msgId h -> cTotal c = total h.

Definition saneHead (h : DataFragmentInfo) (frag : list byte) : Prop :=
  0 <= offset h < total h /\ total h <= MAX_ASSEMBLED_LEN /\ 0 < size h /\ offset h + size h <= total h /\
  Z.of_nat (length frag) = size h.

Lemma wfCtx_index c i : wfCtx c -> 0 <= i < sliceTotal c -> is_Some (sliceBitmap c !! Z.to_nat (i / BYTE_BITS)).
Proof.
  intros [H1 H2 H3 H4] Hi. apply lookup_lt_is_Some. apply Nat2Z.inj_lt. rewrite H4.
  unfold MAX_ASSEMBLED_LEN in H1.
  assert (Hs : sliceTotal c <= 10485760).
  { rewrite H2. unfold sliceCount. rewrite MAX_SLICE_LEN_val. apply Z.div_le_upper_bound; lia. }
  unfold BitmapBytes, BYTE_BITS in *. rewrite u32_small by (unfold in_u32; lia).
  rewrite Z2Nat.id by (apply Z.div_pos; lia). apply Z.div_lt_upper_bound; [lia|].
  pose proof (Z.mul_succ_div_gt (sliceTotal c + 8 - 1) 8 ltac:(lia)). lia.
Qed.

Lemma Create_wf libc now mid tot c : 0 < tot <= MAX_ASSEMBLED_LEN ->
  CreateFragmentContext libc now mid tot (u32 (tot + MAX_SLICE_LEN - 1) / MAX_SLICE_LEN) = Some c ->
  wfCtx c /\ cTotal c = tot /\ cMsgId c = mid.
Proof.
  intros Ht. unfold MAX_ASSEMBLED_LEN in Ht. rewrite u32_small by (unfold in_u32; rewrite MAX_SLICE_LEN_val; lia).
  fold (sliceCount tot). unfold CreateFragmentContext. repeat (destruct (negb _); [discriminate|]). intros [= <-].
  split_and!; [|reflexivity..]. split; cbn; auto.
  - rewrite length_replicate. lia.
  - rewrite length_replicate, Z2Nat.id; [reflexivity|]. unfold BitmapBytes. apply Z.div_pos; [|unfold BYTE_BITS; lia].
    apply (u32_range (sliceCount tot + BYTE_BITS - 1)).
Qed.

Lemma ProcessFragment_safe lock now1 now2 libc h frag l : Forall wfCtx l -> saneHead h frag -> consistent h l ->
  exists ret out l', ProcessFragmentWithLock lock now1 now2 libc h frag l = Some (ret, out, l') /\ Forall wfCtx l'.
Proof.
  intros Hl (Ho & Ht & Hs & Hle & Hf) Hc. unfold ProcessFragmentWithLock.
  destruct (negb _); [eexists _, _, _; eauto|].
  set (l1 := CleanupTimeoutFragmentContexts now1 l).
  assert (Hl1 : Forall wfCtx l1).
  { apply Forall_forall. intros c [_ Hin]%list_elem_of_filter. exact (proj1 (Forall_forall _ _) Hl c Hin). }
  assert (Hfound : exists ret r l2, FindOrCreateFragmentContext libc now2 h l1 = (ret, r, l2) /\ Forall wfCtx l2 /\
    forall n c, r = Some (n, c) -> wfCtx c /\ cTotal c = total h).
  { unfold FindOrCreateFragmentContext, FindFragmentContext. destruct (list_find _ l1) as [[n c]|] eqn:E.
    - eexists _, _, _. split; [reflexivity|]. split; [exact Hl1|]. intros ? ? [= <- <-].
      apply list_find_Some in E as (E1 & E2 & _). apply list_elem_of_lookup_2 in E1.
      split; [exact (proj1 (Forall_forall _ _) Hl1 c E1)|]. apply Hc; [|exact E2].
      now apply list_elem_of_filter in E1.
    - destruct (CreateFragmentContext _ _ _ _ _) as [c|] eqn:Ec; eexists _, _, _; (split; [reflexivity|]).
      + apply Create_wf in Ec as (Hw & Htot & _); [|lia]. split; [apply Forall_app; split; [exact Hl1|now constructor]|].
        intros ? ? [= <- <-]. auto.
      + split; [exact Hl1|discriminate]. }
  destruct Hfound as (ret & r & l2 & -> & Hl2 & Hr). destruct r as [[n c]|]; [|eexists _, _, _; eauto].
  destruct (Hr n c eq_refl) as [Hw Htot].
  destruct (Z.leb_spec (sliceTotal c) (offset h / MAX_SLICE_LEN)) as [|Hi]; [eexists _, _, _; eauto|].
  destruct (wfCtx_index c (offset h / MAX_SLICE_LEN) Hw) as [w ->].
  { split; [|exact Hi]. apply Z.div_pos; rewrite ?MAX_SLICE_LEN_val; lia. }
  destruct (negb _); [eexists _, _, _; eauto|].
  destruct (negb _); [eexists _, _, _; split; [reflexivity|]; now apply Forall_delete|].
  destruct (readAt_ok 0 (size h) frag) as (bytes & -> & Hbs); [lia..|]. cbn [mbind option_bind].
  destruct (writeAt_ok (offset h) bytes (buffer c)) as (buf & -> & Hb); [lia|pose proof (w_buffer c Hw); lia|].
  destruct (_ =? sliceTotal c); eexists _, _, _; (split; [reflexivity|]); [now apply Forall_delete|].
  apply Forall_insert; [exact Hl2|]. destruct Hw as [H1 H2 H3 H4]. split; cbn; auto; [now rewrite Hb|now rewrite length_insert].
Qed.

Lemma parsed_sane p h : in_u32 (Z.of_nat (length p)) -> ValidateAndParseFragment (Some p) = Some (SOFTBUS_OK, Some h) ->
  0 <= offset h < total h /\ total h <= MAX_ASSEMBLED_LEN /\ 0 <= size h /\ offset h + size h <= total h /\
  Z.of_nat (length p) = 16 + size h.
Proof.
  unfold in_u32. intros Hin. unfold ValidateAndParseFragment, ParseFragmentHeader, FRAGMENT_HEADER_LEN.
  destruct (Z.ltb_spec (Z.of_nat (length p)) 16) as [|Hlen]; [discriminate|].
  destruct (readAt_ok 0 16 p) as (q & -> & Hq); [lia..|].
  set (h0 := mkInfo _ _ _ _). destruct (negb _) eqn:E; [discriminate|]. intros [= <-]. zbool.
  assert (Hw : forall k, (k <= 12)%nat -> in_u32 (word k q)).
  { intros k Hk. unfold word. apply unbe4_range. rewrite length_take, length_drop. lia. }
  pose proof (Hw 4%nat ltac:(lia)) as W1. pose proof (Hw 8%nat ltac:(lia)) as W2. unfold in_u32 in W1, W2.
  unfold ValidateFragmentHeader in E. destruct (_ || _) eqn:E1 in E; [discriminate|].
  destruct (negb _) eqn:E2 in E; [discriminate|]. destruct (_ <? _) eqn:E3 in E; [discriminate|]. zbool.
  unfold FRAGMENT_HEADER_LEN, MAX_ASSEMBLED_LEN in *. rewrite MAX_SLICE_LEN_val in *. subst h0. cbn in *.
  rewrite u32_small in E2, E3 by (unfold in_u32; lia). lia.
Qed.

(** Whatever the bytes are, the header is read inside the packet. *)
Lemma ValidateAndParse_total p :
  (exists ret, ValidateAndParseFragment (Some p) = Some (ret, None)) \/
  (exists h, ValidateAndParseFragment (Some p) = Some (SOFTBUS_OK, Some h)).
Proof.
  unfold ValidateAndParseFragment, ParseFragmentHeader, FRAGMENT_HEADER_LEN.
  destruct (Z.ltb_spec (Z.of_nat (length p)) 16); [eauto|].
  destruct (readAt_ok 0 16 p) as (q & -> & _); [lia..|]. destruct (negb _); eauto.
Qed.

(** The copy of a fragment whose header passed the checks. *)
Lemma copy_in_bounds libc p h : in_u32 (Z.of_nat (length p)) ->
  ValidateAndParseFragment (Some p) = Some (SOFTBUS_OK, Some h) ->
  exists r, CreateFragmentDataCopy libc p (size h) = Some r /\ forall frag, r = Some frag -> saneHead h frag.
Proof.
  intros Hlen E. destruct (parsed_sane p h Hlen E) as (H1 & H2 & H3 & H4 & H5). unfold CreateFragmentDataCopy.
  destruct (SoftBusCalloc libc (size h)) eqn:Ec; cbn [negb]; [|exists None; split; [reflexivity|discriminate]].
  apply SoftBusCalloc_size in Ec. unfold MAX_ASSEMBLED_LEN in H2. rewrite u32_small in Ec by (unfold in_u32; lia).
  destruct (Z.ltb_spec 0 (size h)); [|lia].
  destruct (negb _); [exists None; split; [reflexivity|discriminate]|].
  destruct (readAt_ok FRAGMENT_HEADER_LEN (size h) p) as (frag & -> & Hf); [unfold FRAGMENT_HEADER_LEN; lia..|].
  eexists. split; [reflexivity|]. intros ? [= <-]. split_and!; auto; lia.
Qed.

(** C35: No packet makes the receiver leave a buffer: from well-formed contexts
    (buffer and bitmap have the sizes of their message), whatever the bytes of the
    packet and the answers of lock, clock and allocator, [DataAggregate] reads
    the header and the fragment inside the packet, reads and sets bits inside the
    bitmap and writes inside the message buffer, and the contexts stay well
    formed.  The packet must agree with the context of its message, if there is
    one, on the total length (aggregate_overflow shows the write past the buffer
    when it does not). *)
Theorem aggregate_in_bounds (outs : bool) (lock now1 now2 : Z) (libc : Z -> bool) (p : list byte)
    (l : list FragmentContext) (Hlen : in_u32 (Z.of_nat (length p))) (Hl : Forall wfCtx l)
    (Hc : forall h, ValidateAndParseFragment (Some p) = Some (SOFTBUS_OK, Some h) -> consistent h l) :
  exists ret out mo l', DataAggregate outs lock now1 now2 libc (Some p) l = Some (ret, out, mo, l') /\
    Forall wfCtx l'.
Proof.
  unfold DataAggregate. destruct (negb outs); [eexists _, _, _, _; eauto|].
  destruct (ValidateAndParse_total p) as [[ret E]|[h E]]; rewrite E; [eexists _, _, _, _; eauto|].
  destruct (copy_in_bounds libc p h Hlen E) as ([frag|] & -> & Hs); [|eexists _, _, _, _; eauto].
  destruct (ProcessFragment_safe lock now1 now2 libc h frag l Hl (Hs frag eq_refl) (Hc h E)) as (ret & out & l' & -> & Hl').
  eexists _, _, _, _. eauto.
Qed.

(** *** Taking packets apart *)

(** A fragment that was accepted moves the offset forward, inside the data. *)
Lemma ProcessSingleFragment_advance libc now parse data off l :
  in_u32 (Z.of_nat (length data)) -> 0 <= off < Z.of_nat (length data) ->
  exists ret r off' l', ProcessSingleFragment libc now parse data off l = Some (ret, r, off', l') /\
    (is_Some r -> off < off' <= Z.of_nat (length data)).
Proof.
  unfold in_u32. intros Hlen Hoff. unfold ProcessSingleFragment, FAR_FIELD_PKT_HEAD_SIZE, FRAGMENT_HEADER_LEN.
  assert (Hfail : forall (ret o : Z) (k : list FragmentRecvContext), exists ret' r off' l',
    Some (ret, @None (list byte * Z), o, k) = Some (ret', r, off', l') /\
    (is_Some r -> off < off' <= Z.of_nat (length data)))
    by (intros ret o k; exists ret, None, o, k; split; [reflexivity|intros [? [=]]]).
  rewrite (u32_small (Z.of_nat (length data) - off)) by (unfold in_u32; lia).
  destruct (Z.ltb_spec (Z.of_nat (length data) - off) (12 + 16)); [apply Hfail|].
  destruct (parse _) as [modu|]; [|apply Hfail]. unfold ParseFragmentHeader, FRAGMENT_HEADER_LEN.
  change (16 <? 16) with false. cbn iota.
  destruct (readAt_ok 0 16 (drop (Z.to_nat (off + 12)) data)) as (d & -> & _); [lia|lia|rewrite length_drop; lia|].
  set (h := mkInfo _ _ _ _).
  destruct (GetOrCreateFragmentContext _ _ _ _ _) as [r1 l1]. destruct (negb (r1 =? SOFTBUS_OK)); [apply Hfail|].
  set (tot := u32 (12 + 16 + size h)). pose proof (u32_range (12 + 16 + size h)) as Hr. fold tot in Hr. unfold in_u32 in Hr.
  destruct (Z.ltb_spec (Z.of_nat (length data) - off) tot) as [|Hle]; [apply Hfail|].
  unfold ExtractFragmentData, FAR_FIELD_PKT_HEAD_SIZE.
  destruct (SoftBusCalloc libc (u32 (tot - 12))) eqn:Ec; cbn [negb]; [|apply Hfail].
  destruct (negb (memcpy_s _ _)); [apply Hfail|].
  apply SoftBusCalloc_size in Ec. unfold MAX_MALLOC_SIZE in Ec.
  pose proof (u32_range (tot - 12)) as Hr2. rewrite (u32_small (u32 (tot - 12))) in Ec by exact Hr2. unfold in_u32 in Hr2.
  assert (12 < tot).
  { destruct (Z.ltb_spec 12 tot); [assumption|]. exfalso. unfold u32 in Ec.
    clearbody tot. Z.to_euclidean_division_equations. lia. }
  rewrite (u32_small (tot - 12)) by (unfold in_u32; lia).
  destruct (readAt_ok (off + 12) (tot - 12) data) as (buf & -> & _); [lia..|].
  change (SOFTBUS_OK =? SOFTBUS_OK) with true. cbn [negb]. eexists _, _, _, _. split; [reflexivity|].
  intros _. rewrite u32_small by (unfold in_u32; lia). lia.
Qed.

Lemma recvLoop_total libc now parse data fuel : in_u32 (Z.of_nat (length data)) -> forall off l, 0 <= off ->
  Z.of_nat (length data) - off <= Z.of_nat fuel ->
  exists r, recvLoop fuel libc now parse data off l = Some r.
Proof.
  intros Hlen. induction fuel as [|fuel IH]; intros off l Hoff Hf; cbn [recvLoop].
  - destruct (Z.ltb_spec off (Z.of_nat (length data))); [lia|]. cbn. eauto.
  - destruct (Z.ltb_spec off (Z.of_nat (length data))); cbn [negb]; [|eauto].
    destruct (ProcessSingleFragment_advance libc (now (S fuel)) parse data off l Hlen ltac:(lia))
      as (ret & [cb|] & off' & l' & -> & Hoff'); [|eauto].
    specialize (Hoff' ltac:(eauto)).
    destruct (IH off' l' ltac:(lia) ltac:(lia)) as [[[r cbs] l''] ->]. eauto.
Qed.

(** [FragmentRecvProcess] returns for every input and stays inside it. *)
Theorem FragmentRecvProcess_total (udid callback : bool) (libc : Z -> bool) (now : nat -> Z)
    (parse : list byte -> option Z) (data : option (list byte)) (l : list FragmentRecvContext) :
  exists r, FragmentRecvProcess udid callback libc now parse data l = Some r.
Proof.
  unfold FragmentRecvProcess. destruct data as [d|]; [|eauto]. destruct (_ || _); [eauto|].
  destruct (_ || _) eqn:E; [eauto|]. zbool. destruct (parse d) as [modu|]; [|eauto].
  destruct (modu =? 0); [destruct (_ <=? _); eauto|]. unfold MAX_MSG_LEN in *.
  apply recvLoop_total; [unfold in_u32; lia|lia|lia].
Qed.

(** A fragment and the head before it, as the peer's far-field module sends it. *)
Definition wellFormed (parse : list byte -> option Z) (modu : Z) (f : list byte * list byte) : Prop :=
  length f.1 = 12%nat /\ (forall rest, parse (f.1 ++ f.2 ++ rest) = Some modu) /\
  exists h, ParseFragmentHeader f.2 FRAGMENT_HEADER_LEN = Some (SOFTBUS_OK, Some h) /\ 0 <= size h /\
    Z.of_nat (length f.2) = 16 + size h.

(** The header is known from the first bytes. *)
Lemma Parse_prefix f rest h : ParseFragmentHeader f FRAGMENT_HEADER_LEN = Some (SOFTBUS_OK, Some h) ->
  ParseFragmentHeader (f ++ rest) 16 = Some (SOFTBUS_OK, Some h).
Proof.
  unfold ParseFragmentHeader, FRAGMENT_HEADER_LEN, readAt. change (16 <? 16) with false. cbn iota.
  cbn [Z.leb Z.compare andb]. rewrite length_app. destruct (Z.leb_spec (0 + 16) (Z.of_nat (length f))); [|discriminate].
  destruct (Z.leb_spec (0 + 16) (Z.of_nat (length f + length rest))); [|lia]. cbn [andb].
  rewrite !drop_0, take_app_le by lia. auto.
Qed.

Lemma GetOrCreate_ok libc now mid modu l : (forall s, libc s = true) ->
  exists l1, GetOrCreateFragmentContext libc now mid modu l = (SOFTBUS_OK, l1).
Proof.
  intros Hlibc. unfold GetOrCreateFragmentContext. destruct (list_find _ l); [eauto|].
  rewrite SoftBusCalloc_true by (try apply Hlibc; unfold sizeof_FragmentRecvContext, MAX_MALLOC_SIZE; lia). eauto.
Qed.

Lemma recvLoop_splits libc now parse modu (fs : list (list byte * list byte)) :
  (forall s, libc s = true) -> Forall (wellFormed parse modu) fs ->
  forall pre fuel l, Z.of_nat (length (pre ++ concat ((fun f => f.1 ++ f.2) <$> fs))) <= MAX_MSG_LEN ->
  (length fs <= fuel)%nat ->
  exists l', recvLoop fuel libc now parse (pre ++ concat ((fun f => f.1 ++ f.2) <$> fs)) (Z.of_nat (length pre)) l =
    Some (SOFTBUS_OK, (fun f => (f.2, modu)) <$> fs, l').
Proof.
  intros Hlibc Hfs. unfold MAX_MSG_LEN. induction Hfs as [|[hd f] fs (H1 & H2 & h & H3 & H4 & H5) Hfs IH]; intros pre fuel l Hlen Hfuel.
  - cbn in *. rewrite app_nil_r in *. exists l. destruct fuel; cbn [recvLoop]; destruct (Z.ltb_spec (Z.of_nat (length pre)) (Z.of_nat (length pre))); cbn; auto; lia.
  - destruct fuel as [|fuel]; [cbn in Hfuel; lia|]. cbn [fst snd] in *.
    cbn [fmap list_fmap concat fst snd] in *. set (rest := concat _) in *. set (data := pre ++ _) in *.
    assert (Hdl : Z.of_nat (length data) = Z.of_nat (length pre) + 12 + Z.of_nat (length f) + Z.of_nat (length rest)).
    { subst data. rewrite !length_app, H1. lia. }
    cbn [recvLoop]. destruct (Z.ltb_spec (Z.of_nat (length pre)) (Z.of_nat (length data))); [|lia]. cbn [negb].
    unfold ProcessSingleFragment, FAR_FIELD_PKT_HEAD_SIZE, FRAGMENT_HEADER_LEN.
    rewrite (u32_small (Z.of_nat (length data) - Z.of_nat (length pre))) by (unfold in_u32; lia).
    destruct (Z.ltb_spec (Z.of_nat (length data) - Z.of_nat (length pre)) (12 + 16)); [lia|].
    assert (D0 : drop (Z.to_nat (Z.of_nat (length pre))) data = hd ++ f ++ rest).
    { subst data. rewrite Nat2Z.id, drop_app_length, <- app_assoc. reflexivity. }
    assert (D1 : drop (Z.to_nat (Z.of_nat (length pre) + 12)) data = f ++ rest).
    { replace (Z.to_nat (Z.of_nat (length pre) + 12)) with (Z.to_nat (Z.of_nat (length pre)) + 12)%nat by lia.
      rewrite <- drop_drop, D0, drop_app_length' by lia. reflexivity. }
    rewrite D0, H2, D1. rewrite (Parse_prefix f rest h H3).
    match goal with |- context [GetOrCreateFragmentContext libc ?a ?b ?c l] =>
      destruct (GetOrCreate_ok libc a b c l Hlibc) as [l1 ->] end.
    change (SOFTBUS_OK =? SOFTBUS_OK) with true. cbn [negb].
    rewrite (u32_small (12 + 16 + size h)) by (unfold in_u32; lia).
    destruct (Z.ltb_spec (Z.of_nat (length data) - Z.of_nat (length pre)) (12 + 16 + size h)); [lia|].
    unfold ExtractFragmentData, FAR_FIELD_PKT_HEAD_SIZE. rewrite (u32_small (12 + 16 + size h - 12)) by (unfold in_u32; lia).
    rewrite SoftBusCalloc_true by (try apply Hlibc; unfold MAX_MALLOC_SIZE; lia). cbn [negb].
    rewrite (proj2 (memcpy_s_spec _ _)) by lia. change (SOFTBUS_OK =? SOFTBUS_OK) with true. cbn [negb].
    assert (D2 : readAt (Z.of_nat (length pre) + 12) (12 + 16 + size h - 12) data = Some f).
    { subst data. rewrite <- app_assoc, app_assoc. apply readAt_app; [rewrite length_app; lia|lia]. }
    rewrite D2. rewrite u32_small by (unfold in_u32; lia).
    destruct (IH (pre ++ hd ++ f) fuel l1) as [l2 Hl2].
    { fold rest. rewrite !length_app in *. lia. } { cbn in Hfuel. lia. }
    exists l2. fold rest in Hl2. replace ((pre ++ hd ++ f) ++ rest) with data in Hl2 by (subst data; now rewrite <- !app_assoc).
    replace (Z.of_nat (length (pre ++ hd ++ f))) with (Z.of_nat (length pre) + (12 + 16 + size h)) in Hl2
      by (rewrite !length_app, H1; lia).
    change (SOFTBUS_OK =? SOFTBUS_OK) with true. cbn [negb]. rewrite Hl2. reflexivity.
Qed.

(** A packet made of well-formed fragments is taken apart into exactly these
    fragments, in order. *)
Theorem FragmentRecvProcess_splits (libc : Z -> bool) (now : nat -> Z) (parse : list byte -> option Z)
    (modu : Z) (fs : list (list byte * list byte)) (l : list FragmentRecvContext)
    (Hlibc : forall s, libc s = true) (Hfs : Forall (wellFormed parse modu) fs) (Hne : fs <> []) (Hmod : modu <> 0)
    (Hlen : Z.of_nat (length (concat ((fun f => f.1 ++ f.2) <$> fs))) <= MAX_MSG_LEN) :
  exists l', FragmentRecvProcess true true libc now parse (Some (concat ((fun f => f.1 ++ f.2) <$> fs))) l =
    Some (SOFTBUS_OK, (fun f => (f.2, modu)) <$> fs, l').
Proof.
  unfold FragmentRecvProcess. cbn [negb orb].
  destruct fs as [|[hd f] fs]; [congruence|]. pose proof Hfs as Hf.
  apply Forall_cons_1 in Hf as [(H1 & H2 & h & _ & H4 & H5) _]. cbn [fst snd] in *.
  set (data := concat _) in *.
  assert (Hd : data = hd ++ f ++ concat ((fun f => f.1 ++ f.2) <$> fs)) by (subst data; cbn; now rewrite <- app_assoc).
  assert (Hpos : 12 + 16 <= Z.of_nat (length data)) by (rewrite Hd, !length_app; lia).
  destruct (Z.eqb_spec (Z.of_nat (length data)) 0); [lia|].
  destruct (Z.ltb_spec MAX_MSG_LEN (Z.of_nat (length data))); [lia|]. cbn [orb].
  assert (Hp : parse data = Some modu) by (rewrite Hd; apply H2). rewrite Hp. destruct (Z.eqb_spec modu 0); [contradiction|].
  pose proof (recvLoop_splits libc now parse modu ((hd, f) :: fs) Hlibc Hfs [] (length data) (CleanupTimeoutContexts (now 0%nat) l)) as Hloop.
  cbn [app length] in Hloop. apply Hloop; [exact Hlen|].
  assert (forall gs, Forall (wellFormed parse modu) gs -> (length gs <= length (concat ((fun f => f.1 ++ f.2) <$> gs)))%nat) as Hgs.
  { induction 1 as [|[a b] gs (A & _) _ IH]; cbn in *; [lia|]. rewrite !length_app. lia. }
  exact (Hgs _ Hfs).
Qed.

(** ** Witnesses and examples *)

Definition always (_ : Z) : bool := true.
Definition sample : list byte := replicate 2000 (Zbyte 7) ++ replicate 1000 (Zbyte 9).
Definition samplePkts : list (list byte) :=
  (DataSlice always (fun _ _ => SOFTBUS_OK) true (Some sample) MAX_SLICE_LEN 5).2.

Lemma fragments_reassembled_witness : exists l',
  receive always (arrive samplePkts <$> [(10, 2%nat); (11, 0%nat); (12, 2%nat)] ++ [(13, 1%nat)]) [] =
  Some (replicate 3 None ++ [Some sample], l').
Proof.
  apply (fragments_reassembled always always (fun _ _ => SOFTBUS_OK) 5 10 13 1 sample samplePkts
    [(10, 2%nat); (11, 0%nat); (12, 2%nat)] []).
  - vm_compute. split; congruence.
  - reflexivity.
  - vm_compute. reflexivity.
  - constructor.
  - vm_compute length. repeat constructor; cbn; lia.
  - vm_compute length. lia.
  - vm_compute length. intros [|[|[|i]]] Hi; [right|left|right|lia]; [|reflexivity|]; apply list_elem_of_In; cbn; auto.
  - repeat constructor; cbn; lia.
  - repeat constructor; cbn; unfold FRAGMENT_CONTEXT_TIMEOUT_MS; lia.
Defined.

(** The second packet of a message of three, after the first. *)
Definition midContexts : list FragmentContext :=
  match DataAggregate true 0 0 0 always (Some (nth 0 samplePkts [])) [] with
  | Some (_, _, _, l) => l
  | None => []
  end.

Lemma aggregate_in_bounds_witness : length midContexts = 1%nat /\ exists ret out mo l',
  DataAggregate true 0 0 0 always (Some (nth 1 samplePkts [])) midContexts = Some (ret, out, mo, l') /\ Forall wfCtx l'.
Proof.
  split; [vm_compute; reflexivity|].
  apply (aggregate_in_bounds true 0 0 0 always (nth 1 samplePkts []) midContexts).
  - vm_compute. split; congruence.
  - vm_compute midContexts. repeat constructor; vm_compute; congruence.
  - intros h Hh c Hc _. vm_compute in Hh. injection Hh as <-. vm_compute in Hc.
    apply list_elem_of_singleton in Hc as ->. reflexivity.
Defined.

(** Without agreement on the length: the first packet makes a buffer of 1273
    bytes, the second one, of the same message but with another total length,
    writes 1272 bytes at offset 1272. *)
Definition headBytes (h : DataFragmentInfo) : list byte := (WriteFragmentHeader 16 h).2.
Definition firstPkt : list byte := headBytes (mkInfo 5 1272 0 1273) ++ replicate 1272 (Zbyte 1).
Definition otherPkt : list byte := headBytes (mkInfo 5 1272 1272 3000) ++ replicate 1272 (Zbyte 2).

Lemma aggregate_overflow : exists l',
  DataAggregate true 0 0 0 always (Some firstPkt) [] = Some (SOFTBUS_OK, None, Some 5, l') /\
  Forall wfCtx l' /\ DataAggregate true 0 0 0 always (Some otherPkt) l' = None.
Proof.
  eexists. split; [vm_compute; reflexivity|]. split; [|vm_compute; reflexivity].
  repeat constructor; vm_compute; congruence.
Qed.

(** A message sent with a smaller slice length is not put together: the second
    slice counts as a repetition of the first. *)
Lemma smaller_slices_lost :
  let d := replicate 500 (Zbyte 1) ++ replicate 500 (Zbyte 2) in
  let pkts := (DataSlice always (fun _ _ => SOFTBUS_OK) true (Some d) 500 5).2 in
  length pkts = 2%nat /\
  exists l', DataAggregate true 0 0 0 always (Some (nth 0 pkts [])) [] =
    Some (SOFTBUS_OK, Some (replicate 500 (Zbyte 1) ++ replicate 500 (Zbyte 0)), Some 5, l').
Proof. vm_compute. split; [reflexivity|]. eexists. reflexivity. Qed.

Definition farHead : list byte := replicate 12 (Zbyte 3).
Definition parse3 (l : list byte) : option Z :=
  match l with b :: _ => Some (byteZ b) | [] => None end.
Definition shortPkt : list byte := headBytes (mkInfo 5 3 0 3) ++ replicate 3 (Zbyte 1).

Lemma FragmentRecvProcess_splits_witness : exists l',
  FragmentRecvProcess true true always (fun _ => 0) parse3
    (Some (concat ((fun f => f.1 ++ f.2) <$> [(farHead, shortPkt); (farHead, shortPkt)]))) [] =
  Some (SOFTBUS_OK, [(shortPkt, 3); (shortPkt, 3)], l').
Proof.
  apply (FragmentRecvProcess_splits always (fun _ => 0) parse3 3 [(farHead, shortPkt); (farHead, shortPkt)] []).
  - reflexivity.
  - repeat constructor; try reflexivity; exists (mkInfo 5 3 0 3); (split; [vm_compute; reflexivity|]); cbn; lia.
  - discriminate.
  - discriminate.
  - vm_compute. congruence.
Defined.

End Fragment.
