(* ===== verification/BleTrans.v ===== *)
(** * BLE GATT fragmentation

    Model of the GATT part of core/connection/ble/src/softbus_conn_ble_trans.c:
    a message is cut into packets that fit the MTU, each behind a 16-byte
    header in network byte order, and put together again by the receiver in
    any order of arrival.  Receiving on a COC channel is in [PktFrame]. *)

From S2P Require Import Prelude ErrorCode Bytes.
From stdpp Require Import list sorting.
#[local] Open Scope Z_scope.

Module BleTrans.

Definition MTU_HEADER_SIZE : Z := 3.
Definition BLE_TRANS_HEADER_SIZE : Z := 16.
Definition MAX_DATA_LEN : Z := 40 * 1000.
Definition SOFTBUS_CONN_BLE_INTERNAL_ERR : Z := SOFTBUS_CONN_ERR_BASE + 26.
Definition sizeof_ConnBlePacket : Z := 40.

Record BleTransHeader := mkHeader {
  seq : Z;
  size : Z;
  offset : Z;
  total : Z
}.

Record ConnBlePacket := mkPacket {
  header : BleTransHeader;
  data : list byte
}.

Record ConnBleReadBuffer := mkBuffer {
  bseq : Z;
  received : Z;
  btotal : Z;
  packets : list ConnBlePacket
}.

(** The four fields at their offsets, read with ntohl. *)
Definition readHeader (d : list byte) : BleTransHeader :=
  let field n := unbe (take 4 (drop n d)) in
  mkHeader (field 0%nat) (field 4%nat) (field 8%nat) (field 12%nat).

(** The bytes of a header whose fields were stored with htonl. *)
Definition writeHeader (h : BleTransHeader) : list byte :=
  be 4 (seq h) ++ be 4 (size h) ++ be 4 (offset h) ++ be 4 (total h).

Definition zeroHeader : BleTransHeader := mkHeader 0 0 0 0.

Definition UnpackTransHeader (d : list byte) : Z * BleTransHeader :=
  let dataLen := Z.of_nat (length d) in
  if dataLen <? BLE_TRANS_HEADER_SIZE then (SOFTBUS_INVALID_PARAM, zeroHeader)
  else
    let h := readHeader d in
    if negb (size h =? dataLen - BLE_TRANS_HEADER_SIZE) || (MAX_DATA_LEN <? total h)
       || (total h <? size h) || (u32 (total h - size h) <? offset h)
    then (SOFTBUS_CONN_BLE_INTERNAL_ERR, h)
    else (SOFTBUS_OK, h).

Definition DiscardBuffer (b : ConnBleReadBuffer) : ConnBleReadBuffer := mkBuffer 0 0 0 [].

(** Where the packet goes in the list ordered by offset; [None] for a
    duplicate offset. *)
Fixpoint placePacket (p : ConnBlePacket) (l : list ConnBlePacket) : option (list ConnBlePacket) :=
  match l with
  | [] => Some [p]
  | it :: l' =>
    if offset (header p) <? offset (header it) then Some (p :: it :: l')
    else if offset (header p) =? offset (header it) then None
    else (cons it) <$> placePacket p l'
  end.

(** The copy loop into [value]; [acc] is what is written so far. *)
Fixpoint joinPackets (l : list ConnBlePacket) (valueLen off : Z) (acc : list byte)
  : option (list byte) :=
  match l with
  | [] => Some acc
  | it :: l' =>
    if negb (offset (header it) =? off) then None
    else if negb (memcpy_s (u32 (valueLen - off)) (size (header it))) then None
    else joinPackets l' valueLen (u32 (off + size (header it)))
           (acc ++ take (Z.to_nat (size (header it)))
                     (drop (Z.to_nat BLE_TRANS_HEADER_SIZE) (data it)))
  end.

(** A zeroed block of [n] bytes whose first bytes were written. *)
Definition padTo (n : Z) (l : list byte) : list byte :=
  l ++ replicate (Z.to_nat n - length l) Byte.x00.

(** The handler.  [libc n] answers the n-th allocation of the call; the result
    is the returned block ([None] for NULL, its length being what is stored
    through [outLen]) and the buffer. *)
Definition ConnGattTransRecv (libc : nat -> Z -> bool) (dat : option (list byte))
    (b : ConnBleReadBuffer) (outLen : bool) : option (list byte) * ConnBleReadBuffer :=
  match dat with
  | None => (None, b)
  | Some d =>
    let dataLen := Z.of_nat (length d) in
    if dataLen =? 0 then (None, b)
    else if negb outLen then (None, b)
    else
      let '(ret, h) := UnpackTransHeader d in
      if negb (ret =? SOFTBUS_OK) then (None, b)
      else if size h =? total h then
        if negb (SoftBusCalloc (libc 0%nat) (total h)) then (None, b)
        else if negb (memcpy_s (total h) (size h)) then (None, b)
        else (Some (padTo (total h) (take (Z.to_nat (size h))
                     (drop (Z.to_nat BLE_TRANS_HEADER_SIZE) d))), b)
      else
        let b := if negb (bseq b =? 0) && (negb (bseq b =? seq h) || negb (btotal b =? total h))
                 then DiscardBuffer b else b in
        let packet := mkPacket h d in
        match placePacket packet (packets b) with
        | None => (None, b)
        | Some l =>
          if negb (SoftBusCalloc (libc 0%nat) sizeof_ConnBlePacket)
             || negb (SoftBusCalloc (libc 1%nat) dataLen) || negb (memcpy_s dataLen dataLen)
          then (None, DiscardBuffer b)
          else
            let b := mkBuffer (seq h) (u32 (received b + size h)) (total h) l in
            if received b <? btotal b then (None, b)
            else if btotal b <? received b then (None, DiscardBuffer b)
            else
              let valueLen := btotal b in
              if negb (SoftBusCalloc (libc 2%nat) valueLen) then (None, DiscardBuffer b)
              else
                match joinPackets l valueLen 0 [] with
                | None => (None, DiscardBuffer b)
                | Some v => (Some (padTo valueLen v), DiscardBuffer b)
                end
        end
  end.

(** The sender.  [apply n expect] is the n-th answer of the flow controller,
    [libc] the allocator, [send n packet] the driver's answer. *)
Section Send.
Context (apply : nat -> Z -> Z) (libc : nat -> Z -> bool) (send : nat -> list byte -> Z).

(** Returns the code and the packets handed to [ConnBleSend]; [None] when the
    fuel runs out. *)
Fixpoint GattSendLoop (fuel n : nat) (dataLen sequence maxPayload : Z) (waitSendData : list byte)
    (waitSendLen off : Z) : option (Z * list (list byte)) :=
  match fuel with
  | O => None
  | S fuel' =>
    if negb (0 <? waitSendLen) then Some (SOFTBUS_OK, [])
    else
      let sendLen := if waitSendLen <=? maxPayload then waitSendLen else maxPayload in
      let amount := u32 (apply n (s32 sendLen)) in
      if negb (SoftBusCalloc (libc n) (amount + BLE_TRANS_HEADER_SIZE))
      then Some (SOFTBUS_MALLOC_ERR, [])
      else if negb (memcpy_s amount amount) then Some (SOFTBUS_MEM_ERR, [])
      else
        let buff := writeHeader (mkHeader sequence amount off dataLen)
                      ++ take (Z.to_nat amount) waitSendData in
        let ret := send n buff in
        if negb (ret =? SOFTBUS_OK) then Some (ret, [buff])
        else
          match GattSendLoop fuel' (S n) dataLen sequence maxPayload
                  (drop (Z.to_nat amount) waitSendData) (u32 (waitSendLen - amount))
                  (u32 (off + amount)) with
          | None => None
          | Some (r, l) => Some (r, buff :: l)
          end
  end.

Record ConnBleConnection := mkConnection {
  mtu : Z;
  sequence : Z
}.

(** Each round sends at least one byte, or the call fails. *)
Definition ConnGattTransSend (c : ConnBleConnection) (d : list byte)
  : option (Z * list (list byte)) * ConnBleConnection :=
  let dataLen := Z.of_nat (length d) in
  if mtu c <=? MTU_HEADER_SIZE + BLE_TRANS_HEADER_SIZE
  then (Some (SOFTBUS_INVALID_PARAM, []), c)
  else
    let maxPayload := u32 (mtu c - MTU_HEADER_SIZE - BLE_TRANS_HEADER_SIZE) in
    (GattSendLoop (S (length d)) 0 dataLen (sequence c) maxPayload d dataLen 0,
     mkConnection (mtu c) (u32 (sequence c + 1))).

End Send.

(** Feeding datagrams to the receiver; the values it returned, in order. *)
Fixpoint recvAll (libc : nat -> nat -> Z -> bool) (l : list (list byte)) (b : ConnBleReadBuffer)
  : list (list byte) * ConnBleReadBuffer :=
  match l with
  | [] => ([], b)
  | d :: l' =>
    let '(v, b') := ConnGattTransRecv (libc (length l')) (Some d) b true in
    let '(vs, b'') := recvAll libc l' b' in
    (match v with Some x => x :: vs | None => vs end, b'')
  end.

Definition idle : ConnBleReadBuffer := mkBuffer 0 0 0 [].

(** The receiver takes sequence number 0 for "no message in progress", but a
    connection's first message has that number, so the check that discards a
    half-received message is skipped after it: the halves of two messages are
    joined and delivered as one. *)
Theorem first_message_mixed_with_second :
  let frag s off c := writeHeader (mkHeader s 2 off 4) ++ [c; c] in
  recvAll (fun _ _ _ => true)
    [frag 0 0 Byte.x41;  (* first half of message 0; its second half is lost *)
     frag 1 2 Byte.x42]  (* second half of message 1; its first half is lost *)
    idle = ([[Byte.x41; Byte.x41; Byte.x42; Byte.x42]], idle).
Proof. vm_compute. reflexivity. Qed.

(** From the second message on the same loss is detected. *)
Example later_messages_not_mixed :
  let frag s off c := writeHeader (mkHeader s 2 off 4) ++ [c; c] in
  (recvAll (fun _ _ _ => true) [frag 1 0 Byte.x41; frag 2 2 Byte.x42] idle).1 = [].
Proof. vm_compute. reflexivity. Qed.

(** ** Headers *)

Definition headerOK (h : BleTransHeader) : Prop :=
  in_u32 (seq h) /\ in_u32 (size h) /\ in_u32 (offset h) /\ in_u32 (total h).

Lemma length_writeHeader h : length (writeHeader h) = 16%nat.
Proof. unfold writeHeader. now rewrite !length_app, !length_be. Qed.

Lemma take_drop_be n (l1 l2 : list byte) z :
  length l1 = n -> take 4 (drop n (l1 ++ be 4 z ++ l2)) = be 4 z.
Proof.
  intros <-. rewrite drop_app_length. rewrite <- (length_be 4 z) at 1. apply take_app_length.
Qed.

Lemma readHeader_writeHeader h p : headerOK h -> readHeader (writeHeader h ++ p) = h.
Proof.
  intros (H1 & H2 & H3 & H4). unfold readHeader, writeHeader. rewrite <- !app_assoc.
  rewrite (take_drop_be 0 [] _ (seq h) eq_refl : take 4 (drop 0 (be 4 (seq h) ++ _)) = _).
  rewrite (take_drop_be 4 (be 4 (seq h))) by apply length_be.
  rewrite (app_assoc _ (be 4 (size h))), (take_drop_be 8) by (rewrite length_app, !length_be; reflexivity).
  rewrite (app_assoc _ (be 4 (offset h))), (take_drop_be 12) by (rewrite !length_app, !length_be; reflexivity).
  rewrite !unbe_be_u32, !u32_small by assumption. now destruct h.
Qed.

(** ** Fragments

    A fragment of a message is its offset and its payload. *)

Section Fragments.
Context (sq tot : Z) (Hsq : in_u32 sq) (Htot : 0 < tot <= MAX_DATA_LEN).

Definition len (l : list byte) : Z := Z.of_nat (length l).
Definition fragHeader (f : Z * list byte) : BleTransHeader := mkHeader sq (len f.2) f.1 tot.
Definition datagram (f : Z * list byte) : list byte := writeHeader (fragHeader f) ++ f.2.
Definition fragPacket (f : Z * list byte) : ConnBlePacket := mkPacket (fragHeader f) (datagram f).

Fixpoint fragments (off : Z) (pays : list (list byte)) : list (Z * list byte) :=
  match pays with
  | [] => []
  | p :: r => (off, p) :: fragments (off + len p) r
  end.

Definition sumLen (l : list (Z * list byte)) : Z := foldr (fun f s => len f.2 + s) 0 l.

Record fragOK (f : Z * list byte) : Prop := {
  frag_pos : 0 < len f.2;
  frag_off : 0 <= f.1;
  frag_end : f.1 + len f.2 <= tot
}.

Lemma fragHeader_ok f : fragOK f -> headerOK (fragHeader f).
Proof.
  intros [H1 H2 H3]. unfold headerOK, fragHeader, in_u32, MAX_DATA_LEN in *. simpl. lia.
Qed.

Lemma length_datagram f : Z.of_nat (length (datagram f)) = 16 + len f.2.
Proof. unfold datagram, len. rewrite length_app, length_writeHeader. lia. Qed.

Lemma payload_datagram f : drop (Z.to_nat BLE_TRANS_HEADER_SIZE) (datagram f) = f.2.
Proof.
  unfold datagram. change (Z.to_nat BLE_TRANS_HEADER_SIZE) with 16%nat.
  rewrite <- (length_writeHeader (fragHeader f)). apply drop_app_length.
Qed.

Lemma UnpackTransHeader_datagram f :
  fragOK f -> UnpackTransHeader (datagram f) = (SOFTBUS_OK, fragHeader f).
Proof.
  intros Hf. pose proof (fragHeader_ok f Hf) as Hh. destruct Hf as [H1 H2 H3].
  unfold UnpackTransHeader, BLE_TRANS_HEADER_SIZE, MAX_DATA_LEN in *. rewrite length_datagram.
  destruct (Z.ltb_spec (16 + len f.2) 16); [lia|].
  unfold datagram. rewrite readHeader_writeHeader by exact Hh. simpl size. simpl total. simpl offset.
  destruct (Z.eqb_spec (len f.2) (16 + len f.2 - 16)); [|lia].
  destruct (Z.ltb_spec (40 * 1000) tot); [lia|].
  destruct (Z.ltb_spec tot (len f.2)); [lia|]. simpl.
  rewrite u32_small by (unfold in_u32; lia).
  destruct (Z.ltb_spec (tot - len f.2) f.1); [lia|reflexivity].
Qed.

Lemma fragments_ok : forall pays off,
  Forall (fun p => 0 < len p) pays -> 0 <= off -> off + len (concat pays) <= tot ->
  Forall fragOK (fragments off pays).
Proof.
  induction pays as [|p r IH]; intros off Hp Ho Hl; simpl; [constructor|].
  apply Forall_cons_1 in Hp as [Hp Hr]. simpl in Hl. unfold len in *. rewrite length_app in Hl.
  constructor; [split; simpl; unfold len; lia|]. apply IH; [exact Hr|lia|unfold len; lia].
Qed.

(** ** Ordering by offset *)

Definition before (a b : ConnBlePacket) : Prop := offset (header a) < offset (header b).

#[local] Instance before_antisymm : AntiSymm eq before.
Proof. intros a b. unfold before. lia. Qed.

Lemma fragments_sorted : forall pays off,
  Forall (fun p => 0 < len p) pays -> StronglySorted before (fragPacket <$> fragments off pays).
Proof.
  assert (Hge : forall pays off, Forall (fun f => off <= f.1) (fragments off pays)).
  { induction pays as [|p r IH]; intros off; simpl; constructor; simpl; [lia|].
    eapply Forall_impl; [apply (IH (off + len p))|]. unfold len. simpl. intros; lia. }
  induction pays as [|p r IH]; intros off Hp; simpl; constructor.
  - apply IH. now apply Forall_cons_1 in Hp as [_ ?].
  - apply Forall_cons_1 in Hp as [Hp _]. apply Forall_fmap.
    eapply Forall_impl; [apply (Hge r (off + len p))|]. unfold before. simpl. intros; lia.
Qed.

Lemma placePacket_sorted p : forall l,
  StronglySorted before l -> Forall (fun q => offset (header p) <> offset (header q)) l ->
  exists l', placePacket p l = Some l' /\ l' ≡ₚ p :: l /\ StronglySorted before l'.
Proof.
  induction l as [|it l IH]; intros Hs Hne; simpl; [exists [p]; repeat constructor|].
  apply Forall_cons_1 in Hne as [Hit Hne]. inversion Hs as [|? ? Hs' Hall]; subst.
  destruct (Z.ltb_spec (offset (header p)) (offset (header it))).
  - exists (p :: it :: l). split; [reflexivity|]. split; [reflexivity|].
    constructor; [exact Hs|]. constructor; [exact H|].
    eapply Forall_impl; [exact Hall|]. unfold before. intros; lia.
  - destruct (Z.eqb_spec (offset (header p)) (offset (header it))); [contradiction|].
    destruct (IH Hs' Hne) as (l' & -> & Hp & Hs''). exists (it :: l'). split; [reflexivity|].
    split; [rewrite Hp; apply Permutation_swap|]. constructor; [exact Hs''|].
    rewrite Hp. constructor; [unfold before; lia|exact Hall].
Qed.

(** ** Joining *)

Lemma joinPackets_fragments : forall pays off acc,
  Forall (fun p => 0 < len p) pays -> 0 <= off -> off + len (concat pays) <= tot ->
  joinPackets (fragPacket <$> fragments off pays) tot off acc = Some (acc ++ concat pays).
Proof.
  unfold MAX_DATA_LEN in Htot.
  induction pays as [|p r IH]; intros off acc Hp Ho Hl;
    cbn [fragments fmap list_fmap joinPackets]; [simpl; now rewrite app_nil_r|].
  cbn [fragPacket header data fragHeader size offset fst snd].
  apply Forall_cons_1 in Hp as [Hp Hr]. simpl in Hl. unfold len in *. rewrite length_app in Hl.
  rewrite Z.eqb_refl. cbn [negb]. rewrite (u32_small (tot - off)) by (unfold in_u32; lia).
  assert (Hc : memcpy_s (tot - off) (Z.of_nat (length p)) = true) by (apply memcpy_s_spec; lia).
  rewrite Hc. cbn [negb]. rewrite u32_small by (unfold in_u32; lia).
  rewrite payload_datagram. cbn [snd concat]. rewrite Nat2Z.id, take_ge by lia.
  rewrite IH by (assumption || lia). now rewrite <- app_assoc.
Qed.

(** ** Receiving the fragments in any order *)

(** The buffer holds exactly the fragments [done]. *)
Record progress (done : list (Z * list byte)) (b : ConnBleReadBuffer) : Prop := {
  pg_perm : packets b ≡ₚ fragPacket <$> done;
  pg_sorted : StronglySorted before (packets b);
  pg_received : received b = sumLen done;
  pg_seq : bseq b = 0 \/ bseq b = sq /\ btotal b = tot
}.

Lemma progress_idle : progress [] idle.
Proof. split; simpl; [reflexivity|constructor|reflexivity|now left]. Qed.

Lemma sumLen_nonneg l : 0 <= sumLen l.
Proof. induction l; simpl; unfold len in *; lia. Qed.

Lemma sumLen_fragments : forall pays off, sumLen (fragments off pays) = len (concat pays).
Proof.
  induction pays as [|p r IH]; intros off; simpl; [reflexivity|].
  rewrite IH. unfold len. rewrite length_app. lia.
Qed.

Lemma sumLen_perm l1 l2 : l1 ≡ₚ l2 -> sumLen l1 = sumLen l2.
Proof. induction 1; simpl; lia. Qed.

Context (libc : nat -> Z -> bool) (Hlibc : forall n k, libc n k = true).

Lemma calloc_ok n k : 0 < k <= MAX_MALLOC_SIZE -> SoftBusCalloc (libc n) k = true.
Proof. intros Hk. now apply SoftBusCalloc_true. Qed.

(** What the handler does with a new fragment of the message in progress. *)
Lemma recv_fragment done b f :
  progress done b -> fragOK f -> len f.2 < tot -> Forall (fun g => f.1 <> g.1) done ->
  sumLen done + len f.2 <= tot ->
  exists l, l ≡ₚ fragPacket <$> (f :: done) /\ StronglySorted before l /\
    ConnGattTransRecv libc (Some (datagram f)) b true =
    if sumLen (f :: done) <? tot then (None, mkBuffer sq (sumLen (f :: done)) tot l)
    else match joinPackets l tot 0 [] with
         | None => (None, idle)
         | Some v => (Some (padTo tot v), idle)
         end.
Proof.
  intros [Hp Hs Hr Hq] Hf Hlt Hne Hsum. unfold MAX_DATA_LEN in Htot.
  pose proof (sumLen_nonneg done) as H0. pose proof (frag_pos f Hf).
  destruct (placePacket_sorted (fragPacket f) (packets b) Hs) as (l & Hl & Hlp & Hls).
  { rewrite Hp. apply Forall_fmap. exact Hne. }
  exists l. split; [now rewrite Hlp, Hp|]. split; [exact Hls|].
  unfold ConnGattTransRecv. rewrite length_datagram, (UnpackTransHeader_datagram f Hf).
  destruct (Z.eqb_spec (16 + len f.2) 0); [unfold len in *; lia|]. cbn [negb Z.eqb SOFTBUS_OK].
  cbn [fragHeader size total seq]. destruct (Z.eqb_spec (len f.2) tot); [lia|].
  assert (Hkeep : negb (bseq b =? 0) && (negb (bseq b =? sq) || negb (btotal b =? tot)) = false).
  { destruct Hq as [->|[-> ->]]; [reflexivity|]. rewrite !Z.eqb_refl. apply andb_false_r. }
  rewrite Hkeep. cbv zeta. fold (fragHeader f). fold (fragPacket f). rewrite Hl.
  rewrite (calloc_ok 0), (calloc_ok 1) by (unfold sizeof_ConnBlePacket, MAX_MALLOC_SIZE; lia).
  assert (Hc : memcpy_s (16 + len f.2) (16 + len f.2) = true) by (apply memcpy_s_spec; lia).
  rewrite Hc. cbn [negb orb received btotal]. rewrite Hr.
  rewrite u32_small by (unfold in_u32; lia).
  replace (sumLen done + len f.2) with (sumLen (f :: done)) in * by (simpl; lia).
  destruct (Z.ltb_spec (sumLen (f :: done)) tot); [reflexivity|].
  destruct (Z.ltb_spec tot (sumLen (f :: done))); [lia|].
  rewrite calloc_ok by (unfold MAX_MALLOC_SIZE; lia). reflexivity.
Qed.

Lemma length_concat_elem (x : list byte) l : x ∈ l -> len x <= len (concat l).
Proof.
  unfold len. induction 1 as [x l|x y l Hx IH]; simpl; rewrite length_app; lia.
Qed.

Lemma fragments_payload : forall pays off f, f ∈ fragments off pays -> f.2 ∈ pays.
Proof.
  induction pays as [|p r IH]; simpl; intros off f Hf; [inversion Hf|].
  apply elem_of_cons in Hf as [->|Hf]; [left|right; eauto].
Qed.

(** With two or more fragments each is shorter than the message. *)
Lemma fragments_lt pays :
  Forall (fun p => 0 < len p) pays -> len (concat pays) = tot -> (2 <= length pays)%nat ->
  Forall (fun f => len f.2 < tot) (fragments 0 pays).
Proof.
  intros Hpos Htl Hlen. apply Forall_forall. intros f Hf. apply fragments_payload in Hf.
  rewrite <- Htl. clear Htl. destruct pays as [|p [|p' r]]; simpl in Hlen; try lia.
  apply Forall_cons_1 in Hpos as [H1 H2]. pose proof H2 as H3. apply Forall_cons_1 in H3 as [H3 _].
  cbn [concat]. unfold len at 2. rewrite length_app. fold (len p).
  apply elem_of_cons in Hf as [->|Hf].
  - unfold len in *. simpl. rewrite length_app. lia.
  - apply length_concat_elem in Hf. unfold len in *. simpl in *. lia.
Qed.

Lemma fragments_nodup pays :
  Forall (fun p => 0 < len p) pays -> NoDup (fragments 0 pays).*1.
Proof.
  intros Hpos. pose proof (fragments_sorted pays 0 Hpos) as Hs.
  induction (fragments 0 pays) as [|f fs IH]; simpl in *; [constructor|].
  inversion Hs as [|? ? Hs' Hall]; subst. apply NoDup_cons. split; [|now apply IH].
  intros Hin. apply list_elem_of_fmap in Hin as (g & E & Hg). rewrite Forall_forall in Hall.
  assert (before (fragPacket f) (fragPacket g)) as Hb by (apply Hall, list_elem_of_fmap; eauto).
  unfold before in Hb. simpl in Hb. lia.
Qed.

Lemma recvAll_fragments pays :
  Forall (fun p => 0 < len p) pays -> len (concat pays) = tot -> (2 <= length pays)%nat ->
  forall rest done b, rest <> [] -> done ++ rest ≡ₚ fragments 0 pays -> progress done b ->
  recvAll (fun _ => libc) (datagram <$> rest) b = ([concat pays], idle).
Proof.
  intros Hpos Htl Hlen.
  pose proof (fragments_ok pays 0 Hpos ltac:(lia) ltac:(lia)) as Hok.
  pose proof (fragments_lt pays Hpos Htl Hlen) as Hlt.
  pose proof (fragments_nodup pays Hpos) as Hnd.
  induction rest as [|f rest IH]; intros done b Hne Hperm Hpg; [congruence|].
  assert (Hf : fragOK f /\ len f.2 < tot).
  { assert (f ∈ fragments 0 pays) as Hin by (rewrite <- Hperm; apply elem_of_app; right; left).
    rewrite Forall_forall in Hok, Hlt. auto. }
  destruct Hf as [Hf Hflt].
  assert (Hsum : sumLen done + len f.2 + sumLen rest = tot).
  { rewrite <- Htl, <- (sumLen_fragments pays 0), <- (sumLen_perm _ _ Hperm).
    clear. induction done; simpl; lia. }
  assert (Hdis : Forall (fun g => f.1 <> g.1) done).
  { rewrite <- Hperm, fmap_app in Hnd. apply NoDup_app in Hnd as (_ & Hd & _).
    apply Forall_forall. intros g Hg E. apply (Hd g.1).
    - apply list_elem_of_fmap. eauto.
    - rewrite <- E. left. }
  pose proof (sumLen_nonneg rest).
  destruct (recv_fragment done b f Hpg Hf Hflt Hdis ltac:(lia)) as (l & Hlp & Hls & E).
  cbn [fmap list_fmap recvAll]. rewrite E. clear E.
  destruct rest as [|g rest].
  - simpl sumLen in *. destruct (Z.ltb_spec (len f.2 + sumLen done) tot); [lia|].
    assert (l = fragPacket <$> fragments 0 pays) as ->.
    { apply (StronglySorted_unique before); [exact Hls|now apply fragments_sorted|].
      rewrite Hlp, <- Hperm. rewrite fmap_app. simpl. rewrite Permutation_app_comm. reflexivity. }
    rewrite joinPackets_fragments by (assumption || lia). simpl.
    unfold padTo. replace (Z.to_nat tot - length (concat pays))%nat with 0%nat by (unfold len in *; lia).
    simpl. now rewrite app_nil_r.
  - assert (sumLen (f :: done) < tot) as Hpart.
    { cbn [sumLen foldr] in *. assert (g ∈ fragments 0 pays) as Hin
        by (rewrite <- Hperm; apply elem_of_app; right; right; left).
      rewrite Forall_forall in Hok. destruct (Hok g Hin).
      pose proof (sumLen_nonneg rest). unfold sumLen in *. lia. }
    destruct (Z.ltb_spec (sumLen (f :: done)) tot); [|lia].
    rewrite (IH (f :: done)); [reflexivity|discriminate| |].
    + rewrite <- Hperm. simpl. rewrite Permutation_middle. reflexivity.
    + split; simpl; auto.
Qed.

End Fragments.

(** ** Sending *)

Section SendSpec.
Context (apply : nat -> Z -> Z) (libc : nat -> Z -> bool) (send : nat -> list byte -> Z).
(** The flow controller grants between one byte and what was asked for (see
    [FlowControl.Apply_terminates]). *)
Context (Happly : forall n e, 0 < e -> 0 < apply n e <= e).
Context (Hlibc : forall n k, libc n k = true) (Hsend : forall n p, send n p = SOFTBUS_OK).

Lemma GattSendLoop_spec dataLen sq maxPayload :
  0 < maxPayload -> dataLen <= MAX_DATA_LEN -> forall fuel n d off,
  0 <= off -> off + len d = dataLen -> (length d < fuel)%nat ->
  exists pays, Forall (fun p => 0 < len p <= maxPayload) pays /\ concat pays = d /\
    GattSendLoop apply libc send fuel n dataLen sq maxPayload d (len d) off
      = Some (SOFTBUS_OK, datagram sq dataLen <$> fragments off pays).
Proof.
  unfold MAX_DATA_LEN. intros Hmax Hdl. induction fuel as [|fuel IH]; intros n d off Ho Hd Hf; [lia|].
  cbn [GattSendLoop]. destruct (Z.ltb_spec 0 (len d)) as [Hpos|H0].
  2: { exists []. split; [constructor|]. split; [|reflexivity]. destruct d; [reflexivity|].
       unfold len in H0. simpl in H0. lia. }
  cbn [negb]. set (sendLen := if len d <=? maxPayload then len d else maxPayload).
  assert (Hs : 0 < sendLen <= len d /\ sendLen <= maxPayload) by (unfold sendLen; zcase; lia).
  rewrite s32_small by (unfold in_s32; lia).
  pose proof (Happly n sendLen ltac:(lia)) as Ha. set (a := apply n sendLen) in *.
  rewrite (u32_small a) by (unfold in_u32; lia).
  rewrite SoftBusCalloc_true by (auto || unfold BLE_TRANS_HEADER_SIZE, MAX_MALLOC_SIZE; lia).
  assert (Hc : memcpy_s a a = true) by (apply memcpy_s_spec; lia). rewrite Hc, Hsend.
  cbn [negb Z.eqb SOFTBUS_OK].
  rewrite !u32_small by (unfold in_u32; lia).
  assert (Hdrop : len (drop (Z.to_nat a) d) = len d - a) by (unfold len in *; rewrite length_drop; lia).
  rewrite <- Hdrop.
  destruct (IH (S n) (drop (Z.to_nat a) d) (off + a)) as (pays & Hp & Hcat & ->);
    [lia|lia|rewrite length_drop; unfold len in *; lia|].
  assert (Htake : len (take (Z.to_nat a) d) = a) by (unfold len in *; rewrite length_take; lia).
  exists (take (Z.to_nat a) d :: pays). split; [constructor; [lia|exact Hp]|].
  split; [simpl; now rewrite Hcat, take_drop|].
  cbn [fragments fmap list_fmap]. rewrite Htake. unfold datagram at 2, fragHeader. cbn [fst snd].
  now rewrite Htake.
Qed.

End SendSpec.

(** A message that fits one packet is delivered at once. *)
Lemma recv_single sq d libc :
  in_u32 sq -> 0 < len d <= MAX_DATA_LEN -> (forall n k, libc n k = true) ->
  ConnGattTransRecv libc (Some (datagram sq (len d) (0, d))) idle true = (Some d, idle).
Proof.
  intros Hsq Hd Hl. unfold ConnGattTransRecv. rewrite length_datagram.
  rewrite (UnpackTransHeader_datagram sq (len d) Hsq Hd) by (split; simpl; lia).
  cbn [snd fst]. destruct (Z.eqb_spec (16 + len d) 0); [unfold len in *; lia|].
  cbn [negb Z.eqb SOFTBUS_OK fragHeader size total snd]. rewrite Z.eqb_refl.
  unfold MAX_DATA_LEN in *.
  rewrite SoftBusCalloc_true by (auto || unfold MAX_MALLOC_SIZE; lia).
  assert (Hc : memcpy_s (len d) (len d) = true) by (apply memcpy_s_spec; lia). rewrite Hc.
  cbn [negb]. rewrite payload_datagram. cbn [snd].
  unfold len, padTo. rewrite Nat2Z.id, take_ge, Nat.sub_diag by lia. simpl. now rewrite app_nil_r.
Qed.

(** C8: A message of 1 to 40000 bytes survives GATT fragmentation: with any
    grants of the flow controller the sender emits packets no longer than the
    MTU allows, and the receiver, fed these packets in any order, returns
    exactly the message once and ends idle. *)
Theorem gatt_roundtrip (apply : nat -> Z -> Z) (libc libc' : nat -> Z -> bool)
    (send : nat -> list byte -> Z) (c : ConnBleConnection) (d : list byte)
    (Happly : forall n e, 0 < e -> 0 < apply n e <= e)
    (Hlibc : forall n k, libc n k = true) (Hlibc' : forall n k, libc' n k = true)
    (Hsend : forall n p, send n p = SOFTBUS_OK)
    (Hmtu : MTU_HEADER_SIZE + BLE_TRANS_HEADER_SIZE < mtu c) (Hmtu32 : in_u32 (mtu c))
    (Hseq : in_u32 (sequence c)) (Hlen : 0 < len d <= MAX_DATA_LEN) :
  exists ps, (ConnGattTransSend apply libc send c d).1 = Some (SOFTBUS_OK, ps) /\
    Forall (fun p => len p <= mtu c - MTU_HEADER_SIZE) ps /\
    forall ps', ps' ≡ₚ ps -> recvAll (fun _ => libc') ps' idle = ([d], idle).
Proof.
  unfold ConnGattTransSend, MTU_HEADER_SIZE, BLE_TRANS_HEADER_SIZE in *. fold (len d).
  destruct (Z.leb_spec (mtu c) (3 + 16)); [lia|]. cbn [fst].
  rewrite u32_small by (unfold in_u32 in *; lia).
  destruct (GattSendLoop_spec apply libc send Happly Hlibc Hsend (len d) (sequence c)
    (mtu c - 3 - 16) ltac:(lia) ltac:(lia) (S (length d)) 0 d 0 ltac:(lia) ltac:(lia) ltac:(lia))
    as (pays & Hp & Hcat & E).
  eexists. split; [exact E|]. split.
  - apply Forall_fmap, Forall_forall. intros f Hf. apply fragments_payload in Hf.
    rewrite Forall_forall in Hp. specialize (Hp _ Hf). simpl in Hp. cbn [compose].
    unfold len at 1. rewrite length_datagram. lia.
  - intros ps' Hps. apply Permutation_map_inv in Hps as (frs & -> & Hfrs).
    change (map (datagram (sequence c) (len d)) frs) with (datagram (sequence c) (len d) <$> frs).
    assert (Hpos : Forall (fun p => 0 < len p) pays)
      by (eapply Forall_impl; [exact Hp|]; simpl; lia).
    destruct (decide (2 <= length pays)%nat) as [H2|H2].
    + rewrite <- Hcat at 2. apply (recvAll_fragments _ _ Hseq Hlen libc' Hlibc' pays) with (done := []).
      * exact Hpos.
      * now rewrite Hcat.
      * exact H2.
      * intros ->. apply Permutation_nil_r in Hfrs. destruct pays; [simpl in H2; lia|discriminate].
      * simpl. now symmetry.
      * apply progress_idle.
    + destruct pays as [|p [|p' r]]; simpl in H2; try lia.
      { simpl in Hcat. subst d. unfold len in Hlen. simpl in Hlen. lia. }
      simpl in Hcat. rewrite app_nil_r in Hcat. subst p. simpl in Hfrs.
      apply Permutation_singleton_l in Hfrs as <-. cbn [fmap list_fmap recvAll length].
      rewrite (recv_single _ d libc') by assumption. reflexivity.
Qed.

Lemma gatt_roundtrip_witness : exists ps,
  (ConnGattTransSend (fun _ e => e) (fun _ _ => true) (fun _ _ => 0) (mkConnection 22 5)
     (replicate 10 Byte.x2a)).1 = Some (SOFTBUS_OK, ps) /\
  Forall (fun p => len p <= 22 - MTU_HEADER_SIZE) ps /\
  forall ps', ps' ≡ₚ ps ->
    recvAll (fun _ _ _ => true) ps' idle = ([replicate 10 Byte.x2a], idle).
Proof.
  apply (gatt_roundtrip (fun _ e => e) (fun _ _ => true) (fun _ _ => true) (fun _ _ => 0)
           (mkConnection 22 5) (replicate 10 Byte.x2a)).
  - intros; lia.
  - reflexivity.
  - reflexivity.
  - reflexivity.
  - reflexivity.
  - unfold in_u32; simpl; lia.
  - unfold in_u32; simpl; lia.
  - unfold len, MAX_DATA_LEN; simpl; lia.
Defined.

(** ** Arbitrary input

    What the receiver guarantees whatever bytes arrive. *)

Definition payloadOf (p : ConnBlePacket) : list byte := drop 16 (data p).
Definition sizes (l : list ConnBlePacket) : Z := foldr (fun p s => size (header p) + s) 0 l.

(** [l] covers the message from [off] on without gap or overlap. *)
Fixpoint contiguous (off : Z) (l : list ConnBlePacket) : Prop :=
  match l with
  | [] => True
  | p :: l' => offset (header p) = off /\ contiguous (off + size (header p)) l'
  end.

(** The packet is one of the datagrams, with the header that was read from it. *)
Definition genuine (ds : list (list byte)) (p : ConnBlePacket) : Prop :=
  data p ∈ ds /\ UnpackTransHeader (data p) = (SOFTBUS_OK, header p).

Definition sameMessage (l : list ConnBlePacket) : Prop :=
  forall p q, p ∈ l -> q ∈ l ->
    seq (header p) = seq (header q) /\ total (header p) = total (header q).

(** [v] is a message put together from received packets. *)
Definition assembled (ds : list (list byte)) (v : list byte) : Prop :=
  exists l, Forall (genuine ds) l /\ contiguous 0 l /\ v = concat (payloadOf <$> l) /\
    len v <= MAX_DATA_LEN /\
    (Forall (fun d => seq (readHeader d) <> 0) ds -> sameMessage l).

Record bufOK (ds : list (list byte)) (b : ConnBleReadBuffer) : Prop := {
  buf_genuine : Forall (genuine ds) (packets b);
  buf_received : received b = sizes (packets b);
  buf_bound : packets b = [] \/ received b < btotal b <= MAX_DATA_LEN;
  buf_same : Forall (fun d => seq (readHeader d) <> 0) ds -> packets b <> [] ->
    bseq b <> 0 /\ Forall (fun p => seq (header p) = bseq b /\ total (header p) = btotal b) (packets b)
}.

Lemma UnpackTransHeader_inv d h : UnpackTransHeader d = (SOFTBUS_OK, h) ->
  h = readHeader d /\ len d = 16 + size h /\ 0 <= size h <= total h /\ total h <= MAX_DATA_LEN /\
  0 <= offset h <= total h - size h.
Proof.
  unfold UnpackTransHeader, BLE_TRANS_HEADER_SIZE, MAX_DATA_LEN. fold (len d).
  destruct (Z.ltb_spec (len d) 16); [discriminate|].
  destruct (Z.eqb_spec (size (readHeader d)) (len d - 16)); [|discriminate].
  destruct (Z.ltb_spec (40 * 1000) (total (readHeader d))); [discriminate|].
  destruct (Z.ltb_spec (total (readHeader d)) (size (readHeader d))); [discriminate|]. cbn [negb orb].
  destruct (Z.ltb_spec (u32 (total (readHeader d) - size (readHeader d))) (offset (readHeader d)));
    [discriminate|]. intros [= <-].
  assert (0 <= offset (readHeader d)) by (unfold readHeader, unbe; simpl; apply unle_range).
  rewrite u32_small in * by (unfold in_u32; lia). split; [reflexivity|lia].
Qed.

Lemma genuine_size ds p : genuine ds p ->
  len (payloadOf p) = size (header p) /\ 0 <= size (header p) <= MAX_DATA_LEN /\
  take (Z.to_nat (size (header p))) (drop (Z.to_nat BLE_TRANS_HEADER_SIZE) (data p)) = payloadOf p.
Proof.
  intros [_ Hu]. apply UnpackTransHeader_inv in Hu as (_ & Hl & Hs & Ht & _).
  assert (Hp : len (payloadOf p) = size (header p))
    by (unfold payloadOf, len in *; rewrite length_drop; lia).
  split; [exact Hp|]. split; [lia|].
  change (Z.to_nat BLE_TRANS_HEADER_SIZE) with 16%nat. fold (payloadOf p).
  apply take_ge. unfold len in Hp. lia.
Qed.

Lemma placePacket_perm p : forall l l', placePacket p l = Some l' -> l' ≡ₚ p :: l.
Proof.
  induction l as [|it l IH]; simpl; intros l' E; [now injection E as <-|].
  destruct (_ <? _); [injection E as <-; reflexivity|]. destruct (_ =? _); [discriminate|].
  destruct (placePacket p l) as [l1|] eqn:E1; [|discriminate]. injection E as <-.
  rewrite (IH l1 eq_refl). apply Permutation_swap.
Qed.

Lemma sizes_perm l1 l2 : l1 ≡ₚ l2 -> sizes l1 = sizes l2.
Proof. induction 1; simpl; lia. Qed.

Lemma sizes_nonneg ds l : Forall (genuine ds) l -> 0 <= sizes l.
Proof.
  induction 1 as [|p l Hp _ IH]; simpl; [lia|]. apply genuine_size in Hp. lia.
Qed.

Lemma joinPackets_inv ds n : n <= MAX_DATA_LEN -> forall l off acc v,
  Forall (genuine ds) l -> 0 <= off -> off + sizes l <= n ->
  joinPackets l n off acc = Some v ->
  contiguous off l /\ v = acc ++ concat (payloadOf <$> l).
Proof.
  unfold MAX_DATA_LEN. intros Hn.
  induction l as [|p l IH]; intros off acc v Hg Ho Hs; cbn [joinPackets].
  { intros [= <-]. split; [exact I|]. simpl. now rewrite app_nil_r. }
  apply Forall_cons_1 in Hg as [Hp Hl]. pose proof (sizes_nonneg ds l Hl).
  destruct (genuine_size ds p Hp) as (_ & Hsz & Ht). simpl sizes in Hs.
  destruct (Z.eqb_spec (offset (header p)) off) as [Eo|]; [|discriminate].
  destruct (memcpy_s _ _); [|discriminate]. cbn [negb].
  rewrite u32_small by (unfold in_u32; lia). rewrite Ht. intros E.
  apply IH in E as [Hc ->]; [|exact Hl|lia|lia].
  split; [now split|]. cbn [fmap list_fmap concat]. now rewrite <- app_assoc.
Qed.

Lemma len_concat ds l : Forall (genuine ds) l -> len (concat (payloadOf <$> l)) = sizes l.
Proof.
  induction 1 as [|p l Hp _ IH]; [reflexivity|]. cbn [fmap list_fmap concat sizes foldr].
  apply genuine_size in Hp as [Hp _]. unfold len, sizes in *. rewrite length_app. lia.
Qed.

Lemma padTo_full n v : len v = n -> padTo n v = v.
Proof.
  intros <-. unfold padTo, len. rewrite Nat2Z.id, Nat.sub_diag. simpl. apply app_nil_r.
Qed.

Lemma bufOK_idle ds : bufOK ds idle.
Proof. split; simpl; [constructor|reflexivity|now left|congruence]. Qed.

Lemma genuine_mono d ds p : genuine ds p -> genuine (d :: ds) p.
Proof. intros [H1 H2]. split; [now right|exact H2]. Qed.

Lemma bufOK_mono d ds b : bufOK ds b -> bufOK (d :: ds) b.
Proof.
  intros [H1 H2 H3 H4]. split; auto.
  - eapply Forall_impl; [exact H1|]. apply genuine_mono.
  - intros Hd. apply Forall_cons_1 in Hd as [_ Hd]. auto.
Qed.

(** The buffer after the check that discards a message in progress. *)
Definition keptBuffer (b : ConnBleReadBuffer) (h : BleTransHeader) : ConnBleReadBuffer :=
  if negb (bseq b =? 0) && (negb (bseq b =? seq h) || negb (btotal b =? total h))
  then DiscardBuffer b else b.

Lemma keptBuffer_ok ds b h : bufOK ds b -> bufOK ds (keptBuffer b h) /\
  (Forall (fun d => seq (readHeader d) <> 0) ds -> packets (keptBuffer b h) <> [] ->
   bseq b = seq h /\ btotal b = total h /\ keptBuffer b h = b).
Proof.
  intros Hb. unfold keptBuffer.
  destruct (Z.eqb_spec (bseq b) 0) as [E0|N0]; cbn [negb andb].
  - split; [exact Hb|]. intros Hd Hne. destruct (buf_same _ _ Hb Hd Hne). contradiction.
  - destruct (Z.eqb_spec (bseq b) (seq h)); [destruct (Z.eqb_spec (btotal b) (total h))|];
      cbn [negb orb]; (split; [exact Hb || apply bufOK_idle|]); [tauto|simpl; congruence..].
Qed.

(** The packets after a new one was accepted. *)
Lemma accepted ds b d h l :
  bufOK ds b -> UnpackTransHeader d = (SOFTBUS_OK, h) -> size h < total h ->
  placePacket (mkPacket h d) (packets (keptBuffer b h)) = Some l ->
  Forall (genuine (d :: ds)) l /\
  u32 (received (keptBuffer b h) + size h) = sizes l /\ 0 <= sizes l /\
  (Forall (fun x => seq (readHeader x) <> 0) (d :: ds) ->
   seq h <> 0 /\ Forall (fun p => seq (header p) = seq h /\ total (header p) = total h) l).
Proof.
  intros Hb Hu Hlt Hp. apply placePacket_perm in Hp.
  destruct (keptBuffer_ok ds b h Hb) as [Hk Hks].
  assert (Hg : Forall (genuine (d :: ds)) l).
  { rewrite Hp. constructor; [split; [left|exact Hu]|].
    eapply Forall_impl; [apply (buf_genuine _ _ Hk)|]. apply genuine_mono. }
  split; [exact Hg|]. pose proof (sizes_nonneg _ _ Hg) as H0.
  pose proof (sizes_perm _ _ Hp) as Hsz. simpl in Hsz.
  apply UnpackTransHeader_inv in Hu as (Eh & _ & Hs & Ht & _). unfold MAX_DATA_LEN in *.
  pose proof (buf_received _ _ Hk) as Hr.
  split; [|split; [exact H0|]].
  - rewrite Hr, u32_small; [lia|]. unfold in_u32.
    pose proof (sizes_nonneg _ _ (buf_genuine _ _ Hk)).
    destruct (buf_bound _ _ Hk) as [E|Hbd]; [rewrite E; simpl; lia|].
    unfold MAX_DATA_LEN in Hbd. lia.
  - intros Hd. apply Forall_cons_1 in Hd as [Hd Hds]. rewrite <- Eh in Hd. split; [exact Hd|].
    rewrite Hp. constructor; [auto|].
    destruct (packets (keptBuffer b h)) as [|q qs] eqn:Eq; [constructor|].
    destruct Hks as (E1 & E2 & E3); [exact Hds|congruence|].
    rewrite E3 in *. rewrite <- Eq, <- E1, <- E2. apply (buf_same _ _ Hk Hds). congruence.
Qed.

Lemma sameMessage_of l s t :
  Forall (fun p => seq (header p) = s /\ total (header p) = t) l -> sameMessage l.
Proof.
  rewrite Forall_forall. intros H p q Hp Hq. destruct (H p Hp), (H q Hq). split; congruence.
Qed.

(** One call on arbitrary bytes. *)
Lemma recv_sound libc ds b d r b' :
  bufOK ds b -> ConnGattTransRecv libc (Some d) b true = (r, b') ->
  bufOK (d :: ds) b' /\ forall v, r = Some v -> assembled (d :: ds) v.
Proof.
  intros Hb. pose proof (bufOK_mono d ds b Hb) as Hb'. unfold ConnGattTransRecv.
  destruct (_ =? 0); [intros [= <- <-]; now split|]. cbn [negb].
  destruct (UnpackTransHeader d) as [ret h] eqn:Hu.
  destruct (Z.eqb_spec ret SOFTBUS_OK) as [->|]; [|intros [= <- <-]; now split]. cbn [negb].
  pose proof (UnpackTransHeader_inv _ _ Hu) as (Eh & Hl & Hs & Ht & Ho).
  assert (Hgd : genuine (d :: ds) (mkPacket h d)) by (split; [left|exact Hu]).
  destruct (genuine_size _ _ Hgd) as (Hpl & _ & Htake). cbn [header data] in Hpl, Htake.
  destruct (Z.eqb_spec (size h) (total h)) as [Est|Nst].
  { destruct (negb _); [intros [= <- <-]; now split|].
    destruct (negb _); [intros [= <- <-]; now split|]. intros [= <- <-]. split; [exact Hb'|].
    intros v [= <-]. rewrite Htake. rewrite padTo_full by lia.
    exists [mkPacket h d]. split; [now constructor|].
    split; [|split; [simpl; now rewrite app_nil_r|split; [lia|]]].
    - simpl. split; [lia|exact I].
    - intros _ p q Hp Hq. apply list_elem_of_singleton in Hp as ->.
      apply list_elem_of_singleton in Hq as ->. auto. }
  cbv zeta. fold (keptBuffer b h).
  pose proof (bufOK_mono d _ _ (proj1 (keptBuffer_ok ds b h Hb))) as Hk.
  destruct (placePacket _ _) as [l|] eqn:Hp; [|intros [= <- <-]; now split].
  destruct (accepted ds b d h l Hb Hu ltac:(lia) Hp) as (Hg & -> & H0 & Hsame).
  destruct (negb _ || _ || _); [intros [= <- <-]; split; [apply bufOK_idle|discriminate]|].
  cbn [received btotal].
  destruct (Z.ltb_spec (sizes l) (total h)).
  { intros [= <- <-]. split; [|discriminate]. split; simpl; auto; intros; auto. }
  destruct (Z.ltb_spec (total h) (sizes l)); [intros [= <- <-]; split; [apply bufOK_idle|discriminate]|].
  destruct (negb _); [intros [= <- <-]; split; [apply bufOK_idle|discriminate]|].
  destruct (joinPackets l (total h) 0 []) as [v|] eqn:Ej;
    intros [= <- <-]; (split; [apply bufOK_idle|]); [|discriminate].
  apply (joinPackets_inv (d :: ds)) in Ej as [Hc Ev]; [|exact Ht|exact Hg|lia|lia].
  simpl in Ev. subst v. intros v [= <-].
  rewrite padTo_full by (rewrite (len_concat _ _ Hg); lia).
  exists l. split; [exact Hg|]. split; [exact Hc|]. split; [reflexivity|].
  split; [rewrite (len_concat _ _ Hg); lia|].
  intros Hd. apply (sameMessage_of l (seq h) (total h)), Hsame, Hd.
Qed.

Lemma assembled_mono d ds v : assembled ds v -> assembled (d :: ds) v.
Proof.
  intros (l & H1 & H2 & H3 & H4 & H5). exists l. repeat split; auto.
  - eapply Forall_impl; [exact H1|]. apply genuine_mono.
  - intros. apply Forall_cons_1 in H as [_ Hd]. now apply H5.
  - intros. apply Forall_cons_1 in H as [_ Hd]. now apply H5.
Qed.

Lemma recvAll_sound libc : forall rest ds b vs b',
  bufOK ds b -> recvAll libc rest b = (vs, b') ->
  bufOK (reverse rest ++ ds) b' /\ Forall (assembled (reverse rest ++ ds)) vs.
Proof.
  induction rest as [|d rest IH]; intros ds b vs b' Hb; cbn [recvAll].
  { intros [= <- <-]. split; [exact Hb|constructor]. }
  destruct (ConnGattTransRecv _ _ _ _) as [v b1] eqn:E1.
  destruct (recvAll libc rest b1) as [vs1 b2] eqn:E2. intros [= <- <-].
  destruct (recv_sound _ _ _ _ _ _ Hb E1) as [Hb1 Hv].
  destruct (IH _ _ _ _ Hb1 E2) as [Hb2 Hvs].
  rewrite reverse_cons, <- app_assoc. cbn [app]. split; [exact Hb2|].
  destruct v as [x|]; [|exact Hvs]. constructor; [|exact Hvs].
  specialize (Hv x eq_refl). clear -Hv. induction (reverse rest) as [|y l IHl]; [exact Hv|].
  simpl. now apply assembled_mono.
Qed.

(** C37: Whatever bytes arrive and whichever allocations fail, every message the
    receiver returns is the concatenation of the payloads of well-formed packets
    that did arrive, contiguous from offset 0 and at most 40000 bytes in all; if
    no packet carries sequence number 0 they all belong to one message.  What
    stays buffered is bounded by 40000 bytes as well. *)
Theorem gatt_recv_sound (libc : nat -> nat -> Z -> bool) (ds : list (list byte)) :
  Forall (assembled (reverse ds)) (recvAll libc ds idle).1 /\
  sizes (packets (recvAll libc ds idle).2) <= MAX_DATA_LEN.
Proof.
  destruct (recvAll libc ds idle) as [vs b] eqn:E.
  apply (recvAll_sound libc ds []) in E as [Hb Hv]; [|apply bufOK_idle].
  rewrite app_nil_r in *. split; [exact Hv|]. simpl. rewrite <- (buf_received _ _ Hb).
  destruct (buf_bound _ _ Hb) as [Ep|]; [|unfold MAX_DATA_LEN in *; lia].
  rewrite (buf_received _ _ Hb), Ep. unfold MAX_DATA_LEN. simpl. lia.
Qed.

End BleTrans.
