(* ===== verification/PktFrame.v ===== *)
(** * Connection packets and stream framing

    Model of the packet head of softbus_conn_manager_struct.h with the byte
    order conversion of core/connection/common/src/softbus_datahead_transform.c,
    and of the parsers that cut a byte stream into packets: [BrRecvDataParse]
    and [ConnBrTransReadOneFrame] of softbus_conn_br_trans.c, and
    [ConnCocTransRecv] of softbus_conn_ble_trans.c, which is the same text. *)

From S2P Require Import Prelude ErrorCode Bytes.

Module PktFrame.
Import ByteOrder.

Definition MAGIC_NUMBER : Z := 3133078222.  (* 0xBABEFACE *)
Definition sizeof_ConnPktHead : Z := 24.
Definition BR_READ_SOCKET_CLOSED : Z := 0.
Definition SOFTBUS_CONN_BR_UNDERLAY_SOCKET_CLOSED : Z := SOFTBUS_CONN_ERR_BASE + 24.
Definition SOFTBUS_CONN_BR_UNDERLAY_READ_FAIL : Z := SOFTBUS_CONN_ERR_BASE + 25.

Record ConnPktHead := mkHead {
  magic : Z;
  module : Z;
  seq : Z;
  flag : Z;
  len : Z
}.

Section Host.
Context (isLE : bool).

Definition PackConnPktHead (h : option ConnPktHead) : option ConnPktHead :=
  match h with
  | None => None
  | Some d =>
    Some (mkHead (s32 (SoftBusHtoL isLE 4 (u32 (magic d))))
                 (s32 (SoftBusHtoL isLE 4 (u32 (module d))))
                 (s64 (SoftBusHtoL isLE 8 (u64 (seq d))))
                 (s32 (SoftBusHtoL isLE 4 (u32 (flag d))))
                 (SoftBusHtoL isLE 4 (len d)))
  end.

Definition UnpackConnPktHead (h : option ConnPktHead) : option ConnPktHead :=
  match h with
  | None => None
  | Some d =>
    Some (mkHead (s32 (SoftBusLtoH isLE 4 (u32 (magic d))))
                 (s32 (SoftBusLtoH isLE 4 (u32 (module d))))
                 (s64 (SoftBusLtoH isLE 8 (u64 (seq d))))
                 (s32 (SoftBusLtoH isLE 4 (u32 (flag d))))
                 (SoftBusLtoH isLE 4 (len d)))
  end.

(** The packed struct in memory, and the struct found at a pointer. *)
Definition headBytes (h : ConnPktHead) : list byte :=
  memOf isLE 4 (magic h) ++ memOf isLE 4 (module h) ++ memOf isLE 8 (seq h)
  ++ memOf isLE 4 (flag h) ++ memOf isLE 4 (len h).

Definition headAt (l : list byte) : ConnPktHead :=
  let field n k := ofMem isLE (take k (drop n l)) in
  mkHead (s32 (field 0%nat 4%nat)) (s32 (field 4%nat 4%nat)) (s64 (field 8%nat 8%nat))
         (s32 (field 16%nat 4%nat)) (field 20%nat 4%nat).

(** [buffer] is the filled part; its length is the field [length]. *)
Record LimitedBuffer := mkLimited {
  buffer : list byte;
  capacity : Z
}.

Definition blength (b : LimitedBuffer) : Z := Z.of_nat (length (buffer b)).

(** Converting the head in place rewrites the first 24 bytes. *)
Definition unpackInPlace (l : list byte) : list byte :=
  match UnpackConnPktHead (Some (headAt l)) with
  | Some h => headBytes h ++ drop 24 l
  | None => l
  end.

(** The parser.  Returns the packet ([None] for NULL) and the buffer. *)
Definition BrRecvDataParse (libc : Z -> bool) (b : LimitedBuffer)
  : option (list byte) * LimitedBuffer :=
  if blength b <? sizeof_ConnPktHead then (None, b)
  else
    let bytes := unpackInPlace (buffer b) in
    let b := mkLimited bytes (capacity b) in
    let head := headAt bytes in
    if negb (u32 (magic head) =? MAGIC_NUMBER) then (None, mkLimited [] (capacity b))
    else if u32 (capacity b - sizeof_ConnPktHead) <? len head
    then (None, mkLimited [] (capacity b))
    else
      let packLen := u32 (len head + sizeof_ConnPktHead) in
      if blength b <? packLen then (None, b)
      else if negb (SoftBusCalloc libc packLen) then (None, b)
      else if negb (memcpy_s packLen packLen) then (None, b)
      else if (packLen <? blength b) && negb (memcpy_s (blength b) (blength b - packLen))
      then (None, b)
      else (Some (take (Z.to_nat packLen) bytes),
            mkLimited (drop (Z.to_nat packLen) bytes) (capacity b)).

Definition ConnCocTransRecv (libc : Z -> bool) (b : LimitedBuffer)
  : option (list byte) * LimitedBuffer :=
  BrRecvDataParse libc b.

(** The read loop.  [Read s n] asks the socket driver for at most [n] bytes: its
    code, the bytes, and its new state.  [None] when the fuel runs out. *)
Section Read.
Context {S : Type} (Read : S -> Z -> Z * list byte * S) (libc : Z -> bool).

Fixpoint ConnBrTransReadOneFrame (fuel : nat) (s : S) (b : LimitedBuffer)
  : option (Z * option (list byte) * LimitedBuffer * S) :=
  match fuel with
  | O => None
  | Datatypes.S fuel' =>
    match BrRecvDataParse libc b with
    | (Some data, b') => Some (Z.of_nat (length data), Some data, b', s)
    | (None, b') =>
      let '(recvLen, bytes, s') := Read s (s32 (capacity b' - blength b')) in
      if recvLen =? BR_READ_SOCKET_CLOSED
      then Some (SOFTBUS_CONN_BR_UNDERLAY_SOCKET_CLOSED, None, b', s')
      else if recvLen <? 0
      then Some (SOFTBUS_CONN_BR_UNDERLAY_READ_FAIL, None, b', s')
      else ConnBrTransReadOneFrame fuel' s' (mkLimited (buffer b' ++ bytes) (capacity b'))
    end
  end.

(** Reading frames until the first error. *)
Fixpoint readFrames (n fuel : nat) (s : S) (b : LimitedBuffer) : list (list byte) * Z :=
  match n with
  | O => ([], SOFTBUS_OK)
  | Datatypes.S n' =>
    match ConnBrTransReadOneFrame fuel s b with
    | Some (_, Some data, b', s') =>
      let '(l, r) := readFrames n' fuel s' b' in (data :: l, r)
    | Some (r, None, _, _) => ([], r)
    | None => ([], SOFTBUS_OK)
    end
  end.

End Read.
End Host.

Arguments mkLimited _ _ : assert.

(** ** Heads *)

Record headOK (h : ConnPktHead) : Prop := {
  ok_magic : in_s32 (magic h);
  ok_module : in_s32 (module h);
  ok_seq : in_s64 (seq h);
  ok_flag : in_s32 (flag h);
  ok_len : in_u32 (len h)
}.

(** What a packed head looks like on the wire: little-endian on every host. *)
Definition wireHead (h : ConnPktHead) : list byte :=
  le 4 (magic h) ++ le 4 (module h) ++ le 8 (seq h) ++ le 4 (flag h) ++ le 4 (len h).

Lemma length_wireHead h : length (wireHead h) = 24%nat.
Proof. unfold wireHead. now rewrite !length_app, !length_le. Qed.

Lemma length_memOf isLE n v : length (memOf isLE n v) = n.
Proof. unfold memOf. destruct isLE; [apply length_le|apply length_be]. Qed.

Lemma le_mod n z : le n (z mod 256 ^ Z.of_nat n) = le n z.
Proof. rewrite <- unle_le. rewrite <- (length_le n z) at 1. apply le_unle. Qed.

(** Images of the same width agree on congruent values. *)
Lemma memOf_mod isLE n v : memOf isLE n (v mod 256 ^ Z.of_nat n) = memOf isLE n v.
Proof. unfold memOf, be. now rewrite le_mod. Qed.

Lemma memOf_u32 isLE v : memOf isLE 4 (u32 v) = memOf isLE 4 v.
Proof. exact (memOf_mod isLE 4 v). Qed.
Lemma memOf_s32 isLE v : memOf isLE 4 (s32 v) = memOf isLE 4 v.
Proof. rewrite <- (memOf_u32 isLE (s32 v)), u32_s32. apply memOf_u32. Qed.
Lemma memOf_s64 isLE v : memOf isLE 8 (s64 v) = memOf isLE 8 v.
Proof.
  rewrite <- (memOf_mod isLE 8 (s64 v)), <- (memOf_mod isLE 8 v). f_equal.
  change (256 ^ Z.of_nat 8) with 18446744073709551616. unfold s64.
  rewrite Zminus_mod_idemp_l. f_equal. lia.
Qed.

Lemma memOf_HtoL isLE n v : memOf isLE n (SoftBusHtoL isLE n (v mod 256 ^ Z.of_nat n)) = le n v.
Proof. rewrite memOf_SoftBusHtoL. apply le_mod. Qed.

Lemma PackConnPktHead_bytes isLE h :
  headBytes isLE <$> PackConnPktHead isLE (Some h) = Some (wireHead h).
Proof.
  unfold PackConnPktHead, headBytes, wireHead. cbn [fmap option_fmap option_map magic module seq flag len].
  rewrite !memOf_s32, memOf_s64. f_equal.
  change (u32 ?v) with (v mod 256 ^ Z.of_nat 4). change (u64 ?v) with (v mod 256 ^ Z.of_nat 8).
  now rewrite !memOf_HtoL, memOf_SoftBusHtoL.
Qed.

(** ** Parsing on a little-endian host *)

Lemma field_bytes (l : list byte) n k :
  (n + k <= length l)%nat -> length (take k (drop n l)) = k.
Proof. intros H. rewrite length_take, length_drop. lia. Qed.

Lemma memOf_field (l : list byte) n k :
  (n + k <= length l)%nat ->
  memOf true k (unle (take k (drop n l))) = take k (drop n l).
Proof. intros H. unfold memOf. rewrite <- (field_bytes l n k H) at 1. apply le_unle. Qed.

Lemma LtoH_true n v : SoftBusLtoH true n v = v mod 256 ^ Z.of_nat n.
Proof. unfold SoftBusLtoH, ProcByteOrder, ofMem, memOf. apply unle_le. Qed.

Lemma cut (l : list byte) n k : drop n l = take k (drop n l) ++ drop (n + k) l.
Proof. now rewrite <- drop_drop, take_drop. Qed.

Lemma cut_fields (l : list byte) :
  l = take 4 (drop 0 l) ++ take 4 (drop 4 l) ++ take 8 (drop 8 l) ++ take 4 (drop 16 l)
      ++ take 4 (drop 20 l) ++ drop 24 l.
Proof.
  rewrite <- (cut l 20 4 : _ = _ ++ drop 24 l), <- (cut l 16 4 : _ = _ ++ drop 20 l),
    <- (cut l 8 8 : _ = _ ++ drop 16 l), <- (cut l 4 4 : _ = _ ++ drop 8 l),
    <- (cut l 0 4 : _ = _ ++ drop 4 l). reflexivity.
Qed.

(** The in-place conversion is the identity. *)
Lemma unpackInPlace_LE l : (24 <= length l)%nat -> unpackInPlace true l = l.
Proof.
  intros Hl. unfold unpackInPlace, UnpackConnPktHead, headBytes, headAt.
  cbn [magic module seq flag len]. rewrite !LtoH_true.
  rewrite !memOf_s32, memOf_s64, !memOf_mod.
  rewrite !(memOf_u32 true (s32 _)), !memOf_s32.
  change (memOf true 8 (u64 ?v)) with (memOf true 8 (v mod 256 ^ Z.of_nat 8)).
  rewrite memOf_mod, memOf_s64. unfold ofMem. rewrite !memOf_field by lia.
  rewrite <- !app_assoc. symmetry. exact (cut_fields l).
Qed.

Lemma take_field (pre img post : list byte) n k :
  length pre = n -> length img = k -> take k (drop n (pre ++ img ++ post)) = img.
Proof. intros <- <-. now rewrite drop_app_length, take_app_length. Qed.

Lemma s32_unle_le z : in_s32 z -> s32 (unle (le 4 z)) = z.
Proof. intros H. rewrite unle_le_u32, s32_u32. now apply s32_small. Qed.

Lemma s64_unle_le z : in_s64 z -> s64 (unle (le 8 z)) = z.
Proof.
  intros H. rewrite unle_le_u64. unfold s64, u64, in_s64 in *.
  rewrite Zplus_mod_idemp_l, Z.mod_small; lia.
Qed.

(** Reading back a packed head, also from a buffer that goes on. *)
Lemma headAt_wireHead h p : headOK h -> headAt true (wireHead h ++ p) = h.
Proof.
  intros [H1 H2 H3 H4 H5]. unfold headAt, wireHead, ofMem. rewrite <- !app_assoc.
  rewrite (take_field [] (le 4 (magic h)) _ 0 4 eq_refl (length_le _ _)
           : take 4 (drop 0 (le 4 (magic h) ++ _)) = _).
  rewrite (take_field (le 4 (magic h)) (le 4 (module h)) _ 4 4) by apply length_le.
  rewrite (app_assoc (le 4 (magic h))), (take_field _ (le 8 (seq h)) _ 8 8)
    by (rewrite ?length_app, !length_le; reflexivity).
  rewrite (app_assoc _ (le 8 (seq h))), (take_field _ (le 4 (flag h)) _ 16 4)
    by (rewrite ?length_app, !length_le; reflexivity).
  rewrite (app_assoc _ (le 4 (flag h))), (take_field _ (le 4 (len h)) _ 20 4)
    by (rewrite ?length_app, !length_le; reflexivity).
  rewrite !s32_unle_le, s64_unle_le, unle_le_u32, u32_small by assumption. now destruct h.
Qed.

Section Stream.
Context (cap : Z) (Hcap : sizeof_ConnPktHead <= cap <= MAX_MALLOC_SIZE).
Context (libc : Z -> bool) (Hlibc : forall n, libc n = true).

(** A packet that fits the buffer. *)
Definition validPacket (pkt : list byte) : Prop :=
  exists h p, pkt = wireHead h ++ p /\ headOK h /\ u32 (magic h) = MAGIC_NUMBER /\
    len h = Z.of_nat (length p) /\ Z.of_nat (length pkt) <= cap.

(** The head is known as soon as its 24 bytes are there. *)
Lemma headAt_prefix h p l rest :
  headOK h -> l ++ rest = wireHead h ++ p -> (24 <= length l)%nat -> headAt true l = h.
Proof.
  intros Hh E Hl. apply app_eq_inv in E as [(k & -> & ->)|(k & Ew & ->)].
  - now apply headAt_wireHead.
  - assert (k = []) as ->.
    { apply (f_equal length) in Ew. rewrite length_wireHead, length_app in Ew.
      destruct k; [reflexivity|simpl in Ew; lia]. }
    rewrite app_nil_r in Ew. subst l. rewrite <- (app_nil_r (wireHead h)). now apply headAt_wireHead.
Qed.

Lemma parse_incomplete pkt rest l more :
  validPacket pkt -> l ++ more = pkt ++ rest -> (length l < length pkt)%nat ->
  BrRecvDataParse true libc (mkLimited l cap) = (None, mkLimited l cap).
Proof.
  intros (h & p & -> & Hh & Hm & Hlen & Hfit) E Hlt.
  unfold BrRecvDataParse, blength, sizeof_ConnPktHead, MAX_MALLOC_SIZE in *. cbn [buffer capacity].
  destruct (Z.ltb_spec (Z.of_nat (length l)) 24); [reflexivity|].
  rewrite unpackInPlace_LE by lia. cbv zeta. cbn [buffer capacity].
  rewrite <- app_assoc in E. rewrite (headAt_prefix h (p ++ rest) l more) by (assumption || lia).
  rewrite Hm, Z.eqb_refl. cbn [negb]. rewrite length_app, length_wireHead in *.
  rewrite (u32_small (cap - 24)) by (unfold in_u32; lia).
  destruct (Z.ltb_spec (cap - 24) (len h)); [lia|].
  rewrite (u32_small (len h + 24)) by (unfold in_u32; lia).
  destruct (Z.ltb_spec (Z.of_nat (length l)) (len h + 24)); [reflexivity|lia].
Qed.

Lemma parse_complete pkt rest :
  validPacket pkt ->
  BrRecvDataParse true libc (mkLimited (pkt ++ rest) cap) = (Some pkt, mkLimited rest cap).
Proof.
  intros (h & p & -> & Hh & Hm & Hlen & Hfit).
  unfold BrRecvDataParse, blength, sizeof_ConnPktHead, MAX_MALLOC_SIZE in *. cbn [buffer capacity].
  assert (Hl : Z.of_nat (length ((wireHead h ++ p) ++ rest))
               = 24 + len h + Z.of_nat (length rest))
    by (rewrite !length_app, length_wireHead; lia).
  assert (Hp : Z.of_nat (length (wireHead h ++ p)) = 24 + len h)
    by (rewrite length_app, length_wireHead; lia).
  destruct (Z.ltb_spec (Z.of_nat (length ((wireHead h ++ p) ++ rest))) 24); [lia|].
  rewrite unpackInPlace_LE by lia. cbv zeta. cbn [buffer capacity].
  replace (headAt true ((wireHead h ++ p) ++ rest)) with h
    by (rewrite <- app_assoc; symmetry; now apply headAt_wireHead).
  rewrite Hm, Z.eqb_refl. cbn [negb]. rewrite (u32_small (cap - 24)) by (unfold in_u32; lia).
  destruct (Z.ltb_spec (cap - 24) (len h)); [lia|].
  rewrite (u32_small (len h + 24)) by (unfold in_u32; lia). rewrite Hl.
  destruct (Z.ltb_spec (24 + len h + Z.of_nat (length rest)) (len h + 24)); [lia|].
  rewrite SoftBusCalloc_true by (auto || unfold MAX_MALLOC_SIZE; lia). cbn [negb].
  assert (Hc : memcpy_s (len h + 24) (len h + 24) = true) by (apply memcpy_s_spec; lia).
  assert (Hc' : memcpy_s (24 + len h + Z.of_nat (length rest))
                  (24 + len h + Z.of_nat (length rest) - (len h + 24)) = true)
    by (apply memcpy_s_spec; lia).
  rewrite Hc, Hc'. cbn [negb]. rewrite andb_false_r.
  replace (Z.to_nat (len h + 24)) with (length (wireHead h ++ p)) by lia.
  now rewrite take_app_length, drop_app_length.
Qed.

(** A driver that delivers a stream: a positive request returns at least one
    of the pending bytes, in order, and the end of the stream is reported as a
    closed socket. *)
Class ByteSource {S : Type} (Read : S -> Z -> Z * list byte * S) := {
  pending : S -> list byte;
  read_some s n : 0 < n -> pending s <> [] ->
    exists k s', Read s n = (Z.of_nat k, take k (pending s), s') /\
      (0 < k <= length (pending s))%nat /\ Z.of_nat k <= n /\ pending s' = drop k (pending s);
  read_end s n : pending s = [] -> exists s', Read s n = (BR_READ_SOCKET_CLOSED, [], s')
}.

Context {S : Type} (Read : S -> Z -> Z * list byte * S) {Hsrc : ByteSource Read}.

(** One frame: what is buffered and pending starts with a packet. *)
Lemma ReadOneFrame_spec pkt rest : validPacket pkt -> forall fuel s l,
  l ++ pending s = pkt ++ rest -> (length pkt - length l < fuel)%nat ->
  exists s' l', l' ++ pending s' = rest /\
    ConnBrTransReadOneFrame true Read libc fuel s (mkLimited l cap)
    = Some (Z.of_nat (length pkt), Some pkt, mkLimited l' cap, s').
Proof.
  intros Hv. assert (Hfit : Z.of_nat (length pkt) <= cap) by (destruct Hv as (h & p & _ & _ & _ & _ & ?); lia).
  unfold MAX_MALLOC_SIZE in Hcap.
  induction fuel as [|fuel IH]; intros s l E Hf; [lia|]. cbn [ConnBrTransReadOneFrame].
  destruct (decide (length l < length pkt)%nat) as [Hlt|Hge].
  - rewrite (parse_incomplete pkt rest l (pending s)) by assumption. cbn [capacity buffer].
    unfold blength. cbn [buffer]. rewrite s32_small by (unfold in_s32; lia).
    destruct (read_some s (cap - Z.of_nat (length l))) as (k & s' & -> & Hk & Hkn & Hp); [lia| |].
    { intros Hn. rewrite Hn, app_nil_r in E. apply (f_equal length) in E. rewrite length_app in E. lia. }
    destruct (Z.eqb_spec (Z.of_nat k) BR_READ_SOCKET_CLOSED); [unfold BR_READ_SOCKET_CLOSED in *; lia|].
    destruct (Z.ltb_spec (Z.of_nat k) 0); [lia|].
    apply IH; [rewrite <- app_assoc, Hp, take_drop; exact E|].
    rewrite length_app, length_take. lia.
  - apply app_eq_inv in E as [(k & -> & ->)|(k & -> & Ep)].
    + rewrite parse_complete by exact Hv. eauto.
    + assert (k = []) as -> by (rewrite length_app in *; destruct k; [reflexivity|simpl in *; lia]).
      rewrite app_nil_r in *. pose proof (parse_complete l [] Hv) as Hc.
      rewrite app_nil_r in Hc. rewrite Hc. exists s, []. split; [exact Ep|reflexivity].
Qed.

Lemma readFrames_spec fuel : forall pkts s l,
  Forall validPacket pkts -> l ++ pending s = concat pkts ->
  Forall (fun pkt => (length pkt < fuel)%nat) pkts -> (0 < fuel)%nat ->
  readFrames true Read libc (Datatypes.S (length pkts)) fuel s (mkLimited l cap)
  = (pkts, SOFTBUS_CONN_BR_UNDERLAY_SOCKET_CLOSED).
Proof.
  induction pkts as [|pkt pkts IH]; intros s l Hv E Hf H0.
  - simpl in E. apply app_eq_nil in E as [-> Ep]. cbn [readFrames length].
    destruct fuel as [|fuel]; [lia|]. cbn [ConnBrTransReadOneFrame].
    change (BrRecvDataParse true libc (mkLimited [] cap)) with ((@None (list byte)), mkLimited [] cap).
    cbn [capacity]. destruct (read_end s (s32 (cap - blength (mkLimited [] cap))) Ep) as [s' ->].
    reflexivity.
  - apply Forall_cons_1 in Hv as [Hp Hv]. apply Forall_cons_1 in Hf as [Hpf Hf].
    destruct (ReadOneFrame_spec pkt (concat pkts) Hp fuel s l E) as (s' & l' & E' & Hr); [lia|].
    change (length (pkt :: pkts)) with (Datatypes.S (length pkts)).
    remember (Datatypes.S (length pkts)) as n. cbn [readFrames]. rewrite Hr. subst n.
    now rewrite (IH s' l' Hv E' Hf H0).
Qed.

End Stream.

(** A packet as a sender of either byte order makes it: a head with the magic
    number and the length of the payload, packed by [PackConnPktHead], and the
    payload; together they fit the receiver's buffer. *)
Definition sentPacket (cap : Z) (pkt : list byte) : Prop :=
  exists sender h d p, PackConnPktHead sender (Some h) = Some d /\ pkt = headBytes sender d ++ p /\
    headOK h /\ u32 (magic h) = MAGIC_NUMBER /\ len h = Z.of_nat (length p) /\ Z.of_nat (length pkt) <= cap.

Lemma sentPacket_valid cap pkt : sentPacket cap pkt -> validPacket cap pkt.
Proof.
  intros (sender & h & d & p & Hd & -> & Hh & Hm & Hl & Hc). pose proof (PackConnPktHead_bytes sender h) as Hb.
  rewrite Hd in Hb. injection Hb as Hb. rewrite Hb in Hc |- *. now exists h, p.
Qed.

(** C9: On a little-endian host the frames of a Bluetooth stream come out exactly
    as they went in: if the driver delivers the concatenation of packets whose
    heads were packed by [PackConnPktHead] on hosts of either byte order and which
    fit the buffer, cut into reads of any sizes, the read loop returns precisely
    these packets in order and then reports the closed socket.  The buffer has room
    for a head and at most MAX_MALLOC_SIZE bytes, and allocations succeed; [cap + 1]
    rounds of fuel are enough for each frame.  (A big-endian receiver loses packets
    that arrive in pieces: big_endian_loses_incomplete_packet.) *)
Theorem framing_roundtrip (S : Type) (Read : S -> Z -> Z * list byte * S) (Hsrc : ByteSource Read)
    (libc : Z -> bool) (cap : Z) (s : S) (pkts : list (list byte))
    (Hcap : sizeof_ConnPktHead <= cap <= MAX_MALLOC_SIZE) (Hlibc : forall n, libc n = true)
    (Hpkts : Forall (sentPacket cap) pkts) (Hs : pending s = concat pkts) :
  readFrames true Read libc (Datatypes.S (length pkts)) (Datatypes.S (Z.to_nat cap)) s (mkLimited [] cap)
  = (pkts, SOFTBUS_CONN_BR_UNDERLAY_SOCKET_CLOSED).
Proof.
  assert (Hv : Forall (validPacket cap) pkts) by (eapply Forall_impl; [apply sentPacket_valid|exact Hpkts]).
  apply (readFrames_spec cap Hcap libc Hlibc Read); [exact Hv|exact Hs| |lia].
  eapply Forall_impl; [|exact Hv]. intros pkt (h & p & _ & _ & _ & _ & Hl). lia.
Qed.

(** A driver that delivers at most three bytes per read. *)
Definition drip (s : list byte) (n : Z) : Z * list byte * list byte :=
  let k := Nat.min (Z.to_nat (Z.min n 3)) (length s) in
  (Z.of_nat k, take k s, drop k s).

#[export] Program Instance drip_source : ByteSource drip := { pending := fun s => s }.
Next Obligation.
  intros s n Hn Hs. unfold drip. eexists _, _. split; [reflexivity|].
  destruct s; [congruence|]. simpl length. repeat split; lia.
Qed.
Next Obligation.
  intros s n ->. unfold drip. simpl length. rewrite Nat.min_0_r. eauto.
Qed.

(** A packet of a sender of the given byte order. *)
Definition samplePacket (sender : bool) (sq : Z) (p : list byte) : list byte :=
  match PackConnPktHead sender (Some (mkHead (s32 MAGIC_NUMBER) 1 sq 2 (Z.of_nat (length p)))) with
  | Some d => headBytes sender d ++ p
  | None => []
  end.

Lemma samplePacket_sent sender sq p cap :
  in_s64 sq -> 24 + Z.of_nat (length p) <= cap <= MAX_MALLOC_SIZE ->
  sentPacket cap (samplePacket sender sq p).
Proof.
  unfold MAX_MALLOC_SIZE. intros Hs Hl. set (h := mkHead (s32 MAGIC_NUMBER) 1 sq 2 (Z.of_nat (length p))).
  assert (Hlen : length (samplePacket sender sq p) = (24 + length p)%nat).
  { unfold samplePacket. fold h. cbn [PackConnPktHead]. unfold headBytes. now rewrite !length_app, !length_memOf. }
  eexists sender, h, _, p. split; [reflexivity|]. split; [reflexivity|].
  split; [split; simpl; auto with word; unfold in_s32, in_u32; lia|].
  split; [reflexivity|]. split; [reflexivity|]. rewrite Hlen. lia.
Qed.

Lemma framing_roundtrip_witness :
  let pkts := [samplePacket true 5 [Byte.x41]; samplePacket false 6 [Byte.x42; Byte.x43]] in
  readFrames true drip (fun _ => true) 3 (Datatypes.S (Z.to_nat 40)) (concat pkts) (mkLimited [] 40)
  = (pkts, SOFTBUS_CONN_BR_UNDERLAY_SOCKET_CLOSED).
Proof.
  intros pkts. apply (framing_roundtrip (list byte) drip drip_source (fun _ => true) 40 (concat pkts) pkts).
  - unfold sizeof_ConnPktHead, MAX_MALLOC_SIZE; lia.
  - reflexivity.
  - repeat apply Forall_cons; try apply Forall_nil;
      apply samplePacket_sent; unfold in_s64, MAX_MALLOC_SIZE; simpl; lia.
  - reflexivity.
Defined.

(** On arbitrary bytes the parser never grows the buffer beyond its
    capacity; a packet it returns is the front of the buffer, starts with the
    magic number and has the length its head declares, and the rest stays in
    the buffer in order; otherwise the buffer is left alone or emptied. *)
Theorem BrRecvDataParse_sound (libc : Z -> bool) (b b' : LimitedBuffer) (r : option (list byte))
    (Hcap : sizeof_ConnPktHead <= capacity b <= MAX_MALLOC_SIZE) (Hlen : blength b <= capacity b)
    (Hparse : BrRecvDataParse true libc b = (r, b')) :
  capacity b' = capacity b /\ blength b' <= capacity b /\
  match r with
  | Some pkt =>
    buffer b = pkt ++ buffer b' /\ u32 (magic (headAt true (buffer b))) = MAGIC_NUMBER /\
    Z.of_nat (length pkt) = sizeof_ConnPktHead + len (headAt true (buffer b))
  | None => buffer b' = buffer b \/ buffer b' = []
  end.
Proof.
  revert Hparse. unfold BrRecvDataParse, blength, sizeof_ConnPktHead, MAX_MALLOC_SIZE in *.
  destruct (Z.ltb_spec (Z.of_nat (length (buffer b))) 24) as [|H24]; [intros [= <- <-]; auto|].
  rewrite unpackInPlace_LE by lia. cbv zeta. cbn [buffer capacity]. set (h := headAt true (buffer b)).
  assert (Hl0 : 0 <= len h) by (unfold h, headAt, ofMem; simpl; apply unle_range).
  clearbody h. destruct (Z.eqb_spec (u32 (magic h)) MAGIC_NUMBER) as [Em|];
    [|intros [= <- <-]; simpl; repeat split; auto; lia]. cbn [negb].
  rewrite (u32_small (capacity b - 24)) by (unfold in_u32; lia).
  destruct (Z.ltb_spec (capacity b - 24) (len h)); [intros [= <- <-]; simpl; repeat split; auto; lia|].
  rewrite (u32_small (len h + 24)) by (unfold in_u32; lia).
  destruct (Z.ltb_spec (Z.of_nat (length (buffer b))) (len h + 24));
    [intros [= <- <-]; simpl; repeat split; auto; lia|].
  destruct (negb _); [intros [= <- <-]; simpl; repeat split; auto; lia|].
  destruct (negb _); [intros [= <- <-]; simpl; repeat split; auto; lia|].
  destruct (_ && _); intros [= <- <-]; cbn [capacity buffer];
    (split; [reflexivity|]); (split; [rewrite ?length_drop; lia|]); [now left|].
  split; [now rewrite take_drop|]. split; [exact Em|]. rewrite length_take. lia.
Qed.

Lemma BrRecvDataParse_sound_witness :
  let b := mkLimited (samplePacket true 5 [Byte.x41] ++ [Byte.xce; Byte.xfa]) 40 in
  blength (BrRecvDataParse true (fun _ => true) b).2 <= 40.
Proof.
  apply (BrRecvDataParse_sound (fun _ => true)
    (mkLimited (samplePacket true 5 [Byte.x41] ++ [Byte.xce; Byte.xfa]) 40) _
    (Some (samplePacket true 5 [Byte.x41]))).
  - unfold sizeof_ConnPktHead, MAX_MALLOC_SIZE; simpl; lia.
  - vm_compute; discriminate.
  - vm_compute; reflexivity.
Defined.

(** On a big-endian host the parser converts the head in place each time it is
    called, so the second call on an incomplete packet sees the head swapped
    back, takes the magic number for wrong and drops the stream. *)
Theorem big_endian_loses_incomplete_packet :
  let l := take 26 (samplePacket true 5 [Byte.x41; Byte.x42; Byte.x43]) in
  let '(r1, b1) := BrRecvDataParse false (fun _ => true) (mkLimited l 40) in
  let '(r2, b2) := BrRecvDataParse false (fun _ => true) b1 in
  r1 = None /\ blength b1 = 26 /\ r2 = None /\ blength b2 = 0.
Proof. vm_compute. auto. Qed.

End PktFrame.
