(* ===== verification/PendingPacket.v ===== *)
(** * Pending acknowledgements

    Model of core/connection/br/src/softbus_conn_br_pending_packet.c: the list of
    packets whose acknowledgement a sender may wait for, reference-counted
    because a waiter keeps its entry alive while the lock is released.  The list
    is the shared store; an entry is identified by a ghost [handle], the address
    the waiter keeps. *)

From S2P Require Import Prelude ErrorCode Bytes.
From stdpp Require Import list.
#[local] Open Scope Z_scope.

Module PendingPacket.

Definition sizeof_PendingPacket : Z := 200.
Definition SOFTBUS_CONN_BR_SET_PENDING_PACKET_ERR : Z := SOFTBUS_CONN_ERR_BASE + 112.

Record PendingPacket := mkPending {
  handle : nat;
  id : Z;
  seq : Z;
  data : option Z;
  finded : bool;
  refCnt : Z
}.

(** [g_pendingList] and the next fresh address. *)
Record State := mkState {
  g_pendingList : list PendingPacket;
  nextHandle : nat
}.

Definition matches (i s : Z) (p : PendingPacket) : Prop := id p = i /\ seq p = s.
#[global] Instance matches_dec i s p : Decision (matches i s p).
Proof. unfold matches. apply _. Defined.

Definition setRef (p : PendingPacket) (n : Z) : PendingPacket :=
  mkPending (handle p) (id p) (seq p) (data p) (finded p) n.

(** Applying [f] to the entry at address [h]; an entry mapped to [None] is
    removed from the list and freed. *)
Definition updateAt (h : nat) (f : PendingPacket -> option PendingPacket) (l : list PendingPacket)
  : list PendingPacket :=
  omap (fun p => if bool_decide (handle p = h) then f p else Some p) l.

(** [Reference] under a lock that can be taken. *)
Definition Reference (p : PendingPacket) : option PendingPacket :=
  Some (setRef p (s32 (refCnt p + 1))).

Definition Dereference (p : PendingPacket) : option PendingPacket :=
  let n := s32 (refCnt p - 1) in
  if n <=? 0 then None else Some (setRef p n).

(** The results of the calls that can fail: the lock, the allocation, the two
    initialisations. *)
Definition ConnBrCreateBrPendingPacket (lock : Z) (libc : Z -> bool) (mutexInit condInit : Z)
    (st : State) (i s : Z) : Z * State :=
  if negb (lock =? SOFTBUS_OK) then (SOFTBUS_LOCK_ERR, st)
  else if bool_decide (Exists (matches i s) (g_pendingList st)) then (SOFTBUS_ALREADY_EXISTED, st)
  else if negb (SoftBusCalloc libc sizeof_PendingPacket) then (SOFTBUS_MALLOC_ERR, st)
  else if negb (mutexInit =? SOFTBUS_OK) then (SOFTBUS_LOCK_ERR, st)
  else if negb (condInit =? SOFTBUS_OK) then (SOFTBUS_NO_INIT, st)
  else (SOFTBUS_OK,
        mkState (g_pendingList st ++ [mkPending (nextHandle st) i s None false 1])
                (S (nextHandle st))).

(** The first match is signalled and dereferenced. *)
Definition ConnBrDelBrPendingPacket (lock : Z) (st : State) (i s : Z) : State :=
  if negb (lock =? SOFTBUS_OK) then st
  else
    match list_find (matches i s) (g_pendingList st) with
    | None => st
    | Some (_, p) => mkState (updateAt (handle p) Dereference (g_pendingList st)) (nextHandle st)
    end.

(** Every entry of the connection is signalled and dereferenced. *)
Definition ConnBrDelBrPendingPacketById (lock : Z) (st : State) (i : Z) : State :=
  if negb (lock =? SOFTBUS_OK) then st
  else
    mkState (omap (fun p => if id p =? i then Dereference p else Some p) (g_pendingList st))
            (nextHandle st).

(** The last match, as the loop has no break. *)
Definition findLast (i s : Z) (l : list PendingPacket) : option PendingPacket :=
  list.last (filter (matches i s) l).

(** Waiting, in two parts around the time the locks are released.  The first
    takes a reference; it returns the handle the waiter keeps. *)
Definition GetBegin (dataPtr : bool) (lock refLock : Z) (st : State) (i s : Z)
  : Z * option nat * State :=
  if negb dataPtr then (SOFTBUS_INVALID_PARAM, None, st)
  else if negb (lock =? SOFTBUS_OK) then (SOFTBUS_LOCK_ERR, None, st)
  else
    match findLast i s (g_pendingList st) with
    | None => (SOFTBUS_NOT_FIND, None, st)
    | Some p =>
      if negb (refLock =? SOFTBUS_OK) then (SOFTBUS_LOCK_ERR, None, st)
      else (SOFTBUS_OK, Some (handle p),
            mkState (updateAt (handle p) Reference (g_pendingList st)) (nextHandle st))
    end.

Definition entryAt (h : nat) (st : State) : option PendingPacket :=
  snd <$> list_find (fun p => handle p = h) (g_pendingList st).

(** The second part reads the entry when the wait is over ([waited] is false
    when it was already triggered on entry), and drops the reference. *)
Definition GetEnd (entryLock : Z) (triggeredBefore : bool) (st : State) (h : nat)
  : Z * option Z * State :=
  let st' := mkState (updateAt h Dereference (g_pendingList st)) (nextHandle st) in
  if negb (entryLock =? SOFTBUS_OK) then (SOFTBUS_LOCK_ERR, None, st')
  else
    match entryAt h st with
    | None => (SOFTBUS_TIMOUT, None, st')
    | Some p =>
      if triggeredBefore then (SOFTBUS_ALREADY_TRIGGERED, data p, st')
      else if finded p then (SOFTBUS_OK, data p, st') else (SOFTBUS_TIMOUT, None, st')
    end.

(** The whole call; [wait] is what the other threads do to the list while the
    waiter sleeps on the condition. *)
Definition ConnBrGetBrPendingPacket (dataPtr : bool) (lock refLock entryLock : Z)
    (wait : State -> State) (st : State) (i s : Z) : Z * option Z * State :=
  match GetBegin dataPtr lock refLock st i s with
  | (ret, None, st1) => (ret, None, st1)
  | (_, Some h, st1) =>
    match entryAt h st1 with
    | None => (SOFTBUS_NOT_FIND, None, st1)
    | Some p =>
      if negb (entryLock =? SOFTBUS_OK) then GetEnd entryLock false st1 h
      else if finded p then GetEnd entryLock true st1 h
      else GetEnd entryLock false (wait st1) h
    end
  end.

Definition trigger (d : option Z) (p : PendingPacket) : option PendingPacket :=
  Some (mkPending (handle p) (id p) (seq p) d true (refCnt p)).

Definition ConnBrSetBrPendingPacket (lock entryLock : Z) (st : State) (i s : Z) (d : option Z)
  : Z * State :=
  if negb (lock =? SOFTBUS_OK) then (SOFTBUS_LOCK_ERR, st)
  else
    match list_find (matches i s) (g_pendingList st) with
    | None => (SOFTBUS_CONN_BR_SET_PENDING_PACKET_ERR, st)
    | Some (_, p) =>
      if negb (entryLock =? SOFTBUS_OK) then (SOFTBUS_LOCK_ERR, st)
      else (SOFTBUS_OK, mkState (updateAt (handle p) (trigger d) (g_pendingList st)) (nextHandle st))
    end.

(** ** Accounting of references

    [owned] holds the handles that were created and not yet deleted, [waiters]
    those of the calls that took a reference and did not drop it yet. *)

Definition count (h : nat) (w : list nat) : Z := Z.of_nat (length (filter (eq h) w)).

Record wf (owned waiters : list nat) (st : State) : Prop := {
  wf_handles : NoDup (handle <$> g_pendingList st);
  wf_fresh : forall p, p ∈ g_pendingList st -> (handle p < nextHandle st)%nat;
  wf_keys : NoDup ((fun p => (id p, seq p)) <$> g_pendingList st);
  wf_owned : NoDup owned;
  wf_refs : forall p, p ∈ g_pendingList st ->
    refCnt p = count (handle p) owned + count (handle p) waiters /\ 0 < refCnt p <= INT32_MAX;
  wf_alive : forall h, h ∈ owned ++ waiters -> h ∈ handle <$> g_pendingList st
}.

(** Deletions only hit entries that were not deleted before. *)
Inductive reach : list nat -> list nat -> State -> Prop :=
| reach_init : reach [] [] (mkState [] 0)
| reach_create o w st lock libc mi ci i s st' :
    reach o w st -> ConnBrCreateBrPendingPacket lock libc mi ci st i s = (SOFTBUS_OK, st') ->
    reach (nextHandle st :: o) w st'
| reach_del o w st i s n p :
    reach o w st -> list_find (matches i s) (g_pendingList st) = Some (n, p) -> handle p ∈ o ->
    reach (filter (fun h => h <> handle p) o) w (ConnBrDelBrPendingPacket SOFTBUS_OK st i s)
| reach_delById o w st i :
    reach o w st -> (forall p, p ∈ g_pendingList st -> id p = i -> handle p ∈ o) ->
    reach (filter (fun h => Forall (fun p => id p = i -> handle p <> h) (g_pendingList st)) o) w
      (ConnBrDelBrPendingPacketById SOFTBUS_OK st i)
| reach_begin o w st i s h st' :
    reach o w st -> GetBegin true SOFTBUS_OK SOFTBUS_OK st i s = (SOFTBUS_OK, Some h, st') ->
    (forall p, p ∈ g_pendingList st -> refCnt p < INT32_MAX) ->
    reach o (h :: w) st'
| reach_end o w st h l tb ret d st' :
    reach o (h :: w) st -> GetEnd l tb st h = (ret, d, st') -> reach o w st'
| reach_set o w st i s d l1 l2 ret st' :
    reach o w st -> ConnBrSetBrPendingPacket l1 l2 st i s d = (ret, st') -> reach o w st'.

Lemma count_cons h x w : count h (x :: w) = (if decide (h = x) then 1 else 0) + count h w.
Proof. unfold count. rewrite filter_cons. destruct (decide (h = x)); simpl; lia. Qed.

Lemma count_pos h w : h ∈ w <-> 0 < count h w.
Proof.
  induction w as [|x w IH]; [split; intros H; [inversion H|unfold count in H; simpl in H; lia]|].
  rewrite count_cons, elem_of_cons. assert (0 <= count h w) by (unfold count; lia).
  destruct (decide (h = x)); [split; intros; [lia|now left]|]. rewrite IH. split; intros Hc; [|now right].
  destruct Hc; [contradiction|lia].
Qed.

Lemma count_nodup h w : NoDup w -> count h w = if decide (h ∈ w) then 1 else 0.
Proof.
  induction 1 as [|x w Hx Hw IH]; [now rewrite decide_False by (intros H; inversion H)|].
  rewrite count_cons, IH. destruct (decide (h = x)) as [->|Hne].
  - rewrite (decide_True (P := x ∈ x :: w)) by left. now rewrite decide_False.
  - destruct (decide (h ∈ w)); [now rewrite decide_True by now right|].
    rewrite decide_False; [reflexivity|]. intros Hin. apply elem_of_cons in Hin as [|]; contradiction.
Qed.

(** An update that keeps the identity of the entries. *)
Definition keeps (g : PendingPacket -> option PendingPacket) : Prop :=
  forall p q, g p = Some q -> handle q = handle p /\ id q = id p /\ seq q = seq p.

Lemma omap_keeps_sub {B} (key : PendingPacket -> B) g l :
  (forall p q, g p = Some q -> key q = key p) -> key <$> omap g l `sublist_of` key <$> l.
Proof.
  intros Hk. induction l as [|p l IH]; simpl; [constructor|].
  destruct (g p) as [q|] eqn:E; simpl; [rewrite (Hk p q E); now constructor|now constructor].
Qed.

Lemma wf_update o w o' w' st g :
  wf o w st -> keeps g -> NoDup o' ->
  (forall p q, p ∈ g_pendingList st -> g p = Some q ->
     refCnt q = count (handle p) o' + count (handle p) w' /\ 0 < refCnt q <= INT32_MAX) ->
  (forall p, p ∈ g_pendingList st -> handle p ∈ o' ++ w' -> is_Some (g p)) ->
  (forall h, h ∈ o' ++ w' -> h ∈ o ++ w) ->
  wf o' w' (mkState (omap g (g_pendingList st)) (nextHandle st)).
Proof.
  intros [H1 H2 H3 H4 H5 H6] Hk Hn Hr Ha Hs. split; simpl.
  - eapply sublist_NoDup; [exact H1|]. apply omap_keeps_sub. intros p q E. now apply Hk in E.
  - intros q Hq. apply list_elem_of_omap in Hq as (p & Hp & E). apply Hk in E as (-> & _). auto.
  - eapply sublist_NoDup; [exact H3|]. apply omap_keeps_sub.
    intros p q E. apply Hk in E as (_ & -> & ->). reflexivity.
  - exact Hn.
  - intros q Hq. apply list_elem_of_omap in Hq as (p & Hp & E).
    destruct (Hk _ _ E) as (-> & _). eauto.
  - intros h Hh. pose proof (H6 h (Hs h Hh)) as Hh'. apply list_elem_of_fmap in Hh' as (p & -> & Hp).
    destruct (Ha p Hp Hh) as [q E]. apply list_elem_of_fmap. exists q.
    split; [now destruct (Hk _ _ E)|]. apply list_elem_of_omap. eauto.
Qed.

(** Dropping one reference of every entry in [D]. *)
Lemma wf_deref o w o' w' st (D : PendingPacket -> bool) :
  wf o w st -> NoDup o' -> (forall h, h ∈ o' ++ w' -> h ∈ o ++ w) ->
  (forall p, p ∈ g_pendingList st ->
     count (handle p) o + count (handle p) w =
     count (handle p) o' + count (handle p) w' + (if D p then 1 else 0)) ->
  wf o' w' (mkState (omap (fun p => if D p then Dereference p else Some p) (g_pendingList st))
                    (nextHandle st)).
Proof.
  intros Hwf Hn Hs Hc.
  assert (Hd : forall p, p ∈ g_pendingList st -> D p = true ->
    s32 (refCnt p - 1) = count (handle p) o' + count (handle p) w' /\ refCnt p - 1 <= INT32_MAX).
  { intros p Hp HD. destruct (wf_refs _ _ _ Hwf p Hp) as [Hr Hb]. specialize (Hc p Hp).
    rewrite HD in Hc. rewrite s32_small by (unfold in_s32; lia). lia. }
  apply (wf_update o w); auto.
  - intros p q. unfold Dereference. destruct (D p); [|intros [= <-]; auto].
    destruct (_ <=? _); [discriminate|]. intros [= <-]. auto.
  - intros p q Hp. specialize (Hd p Hp). specialize (Hc p Hp).
    destruct (wf_refs _ _ _ Hwf p Hp) as [Hr Hb]. unfold Dereference.
    destruct (D p); [|intros [= <-]; lia]. destruct Hd as [Hd1 Hd2]; [reflexivity|].
    destruct (Z.leb_spec (s32 (refCnt p - 1)) 0); [discriminate|]. intros [= <-]. simpl.
    rewrite Hr, Hc in Hd2. lia.
  - intros p Hp Hin. specialize (Hd p Hp). unfold Dereference. destruct (D p); [|eauto].
    destruct Hd as [Hd1 _]; [reflexivity|]. rewrite Hd1.
    assert (0 <= count (handle p) o' /\ 0 <= count (handle p) w') by (unfold count; lia).
    apply elem_of_app in Hin as [Hin|Hin]; apply count_pos in Hin;
      (destruct (Z.leb_spec (count (handle p) o' + count (handle p) w') 0); [lia|eauto]).
Qed.

(** ** Preservation *)

Lemma wf_create o w st lock libc mi ci i s st' :
  wf o w st -> ConnBrCreateBrPendingPacket lock libc mi ci st i s = (SOFTBUS_OK, st') ->
  wf (nextHandle st :: o) w st'.
Proof.
  intros [H1 H2 H3 H4 H5 H6]. unfold ConnBrCreateBrPendingPacket.
  destruct (negb (lock =? _)); [discriminate|].
  destruct (bool_decide_reflect (Exists (matches i s) (g_pendingList st))) as [|Hnew]; [discriminate|].
  repeat (destruct (negb _); [discriminate|]). intros [= <-].
  assert (Hfresh : nextHandle st ∉ handle <$> g_pendingList st).
  { intros H. apply list_elem_of_fmap in H as (p & E & Hp). specialize (H2 p Hp). lia. }
  assert (Hno : nextHandle st ∉ o ++ w) by (intros H; apply Hfresh, H6, H).
  assert (Hcnt : count (nextHandle st) o = 0 /\ count (nextHandle st) w = 0).
  { assert (0 <= count (nextHandle st) o /\ 0 <= count (nextHandle st) w) by (unfold count; lia).
    split; (apply Z.le_antisymm; [|lia]); apply Z.nlt_ge; intros Hc; apply count_pos in Hc;
      apply Hno, elem_of_app; auto. }
  split; simpl.
  - rewrite fmap_app. apply NoDup_app. split; [exact H1|]. split; [|simpl; apply NoDup_singleton].
    intros h Hh Hh'. apply list_elem_of_singleton in Hh' as ->. contradiction.
  - intros p Hp. apply elem_of_app in Hp as [Hp|Hp]; [specialize (H2 p Hp); lia|].
    apply list_elem_of_singleton in Hp as ->. simpl. lia.
  - rewrite fmap_app. apply NoDup_app. split; [exact H3|]. split; [|simpl; apply NoDup_singleton].
    intros k Hk Hk'. apply list_elem_of_singleton in Hk' as ->.
    apply list_elem_of_fmap in Hk as (p & E & Hp). injection E as Ei Es.
    apply Hnew, Exists_exists. exists p. split; [exact Hp|]. split; congruence.
  - apply NoDup_cons. split; [|exact H4]. intros H. apply Hno, elem_of_app. now left.
  - intros p Hp. apply elem_of_app in Hp as [Hp|Hp].
    + rewrite count_cons. rewrite decide_False by (specialize (H2 p Hp); lia). now apply H5.
    + apply list_elem_of_singleton in Hp as ->. simpl. rewrite count_cons, decide_True by reflexivity. lia.
  - intros h Hh. rewrite fmap_app. apply elem_of_app.
    apply elem_of_cons in Hh as [->|Hh]; [right; simpl; left|left; auto].
Qed.

Lemma wf_begin o w st i s h st' :
  wf o w st -> GetBegin true SOFTBUS_OK SOFTBUS_OK st i s = (SOFTBUS_OK, Some h, st') ->
  (forall p, p ∈ g_pendingList st -> refCnt p < INT32_MAX) -> wf o (h :: w) st'.
Proof.
  intros Hwf E Hb. unfold GetBegin in E. cbn [negb Z.eqb SOFTBUS_OK] in E.
  destruct (findLast i s (g_pendingList st)) as [e|] eqn:El; [|discriminate]. injection E as <- <-.
  assert (He : e ∈ g_pendingList st).
  { unfold findLast in El. apply last_Some_elem_of in El. now apply list_elem_of_filter in El as [_ ?]. }
  apply (wf_update o w).
  - exact Hwf.
  - intros p q. unfold Reference. destruct (bool_decide _); intros [= <-]; auto.
  - apply Hwf.
  - intros p q Hp. destruct (wf_refs _ _ _ Hwf p Hp) as [Hr Hc]. specialize (Hb p Hp).
    rewrite count_cons. unfold Reference.
    destruct (bool_decide_reflect (handle p = handle e)); intros [= <-]; simpl.
    + rewrite s32_small by (unfold in_s32; lia). rewrite decide_True by assumption. lia.
    + rewrite decide_False by assumption. lia.
  - intros p Hp _. unfold Reference. destruct (bool_decide _); eauto.
  - intros h Hh. apply elem_of_app in Hh as [Hh|Hh]; [apply elem_of_app; now left|].
    apply elem_of_cons in Hh as [->|Hh]; [|apply elem_of_app; now right].
    destruct (wf_refs _ _ _ Hwf e He) as [Hr Hc]. apply elem_of_app. rewrite !count_pos.
    assert (0 <= count (handle e) o /\ 0 <= count (handle e) w) by (unfold count; lia). lia.
Qed.

Lemma wf_end o w st h l tb ret d st' :
  wf o (h :: w) st -> GetEnd l tb st h = (ret, d, st') -> wf o w st'.
Proof.
  intros Hwf E.
  assert (st' = mkState (updateAt h Dereference (g_pendingList st)) (nextHandle st)) as ->.
  { unfold GetEnd in E. destruct (negb _); [congruence|].
    destruct (entryAt h st) as [p|]; [|congruence]. destruct tb; [congruence|].
    destruct (finded p); congruence. }
  unfold updateAt. apply (wf_deref o (h :: w)); [exact Hwf|apply Hwf| |].
  - intros x Hx. apply elem_of_app in Hx as [|]; apply elem_of_app; [now left|right; now right].
  - intros p Hp. rewrite count_cons. case_bool_decide; case_decide; subst; try contradiction; lia.
Qed.

Lemma count_filter_ne h x o : NoDup o ->
  count h (filter (fun y => y <> x) o) = if decide (h = x) then 0 else count h o.
Proof.
  intros Hn. rewrite !count_nodup by (try apply NoDup_filter; assumption).
  destruct (decide (h = x)) as [->|Hne].
  - rewrite decide_False; [reflexivity|]. intros H. now apply list_elem_of_filter in H as [? _].
  - destruct (decide (h ∈ o)) as [Hin|Hin].
    + rewrite decide_True; [reflexivity|]. now apply list_elem_of_filter.
    + rewrite decide_False; [reflexivity|]. intros H. now apply list_elem_of_filter in H as [_ ?].
Qed.

Lemma wf_del o w st i s n p :
  wf o w st -> list_find (matches i s) (g_pendingList st) = Some (n, p) -> handle p ∈ o ->
  wf (filter (fun h => h <> handle p) o) w (ConnBrDelBrPendingPacket SOFTBUS_OK st i s).
Proof.
  intros Hwf Hf Ho. unfold ConnBrDelBrPendingPacket. cbn [negb Z.eqb SOFTBUS_OK]. rewrite Hf.
  unfold updateAt. apply (wf_deref o w); [exact Hwf|apply NoDup_filter, Hwf| |].
  - intros x Hx. apply elem_of_app in Hx as [Hx|]; apply elem_of_app; [left|now right].
    now apply list_elem_of_filter in Hx as [_ ?].
  - intros q Hq. rewrite count_filter_ne by apply Hwf. case_bool_decide as E; case_decide; try contradiction.
    + rewrite E, (count_nodup _ o) by apply Hwf. rewrite decide_True by assumption. lia.
    + lia.
Qed.

Lemma wf_delById o w st i :
  wf o w st -> (forall p, p ∈ g_pendingList st -> id p = i -> handle p ∈ o) ->
  wf (filter (fun h => Forall (fun p => id p = i -> handle p <> h) (g_pendingList st)) o) w
    (ConnBrDelBrPendingPacketById SOFTBUS_OK st i).
Proof.
  intros Hwf Ho. unfold ConnBrDelBrPendingPacketById. cbn [negb Z.eqb SOFTBUS_OK].
  apply (wf_deref o w); [exact Hwf|apply NoDup_filter, Hwf| |].
  - intros x Hx. apply elem_of_app in Hx as [Hx|]; apply elem_of_app; [left|now right].
    now apply list_elem_of_filter in Hx as [_ ?].
  - intros q Hq. rewrite (count_nodup _ o), (count_nodup _ (filter _ o))
      by (try apply NoDup_filter; apply Hwf).
    destruct (Z.eqb_spec (id q) i) as [E|Hne].
    + rewrite decide_True by auto. rewrite decide_False; [lia|].
      intros H. apply list_elem_of_filter in H as [H _]. rewrite Forall_forall in H.
      now apply (H q Hq E).
    + destruct (decide (handle q ∈ o)) as [Hin|Hin].
      * rewrite decide_True; [lia|]. apply list_elem_of_filter. split; [|exact Hin].
        apply Forall_forall. intros p Hp Ei Eh. apply Hne.
        assert (p = q) as ->; [|exact Ei].
        apply list_elem_of_lookup in Hp as [a Ha]. apply list_elem_of_lookup in Hq as [b Hb].
        pose proof (wf_handles _ _ _ Hwf) as Hnd.
        assert (a = b) as ->; [|congruence].
        apply (NoDup_lookup _ a b (handle q) Hnd); rewrite list_lookup_fmap;
          [rewrite Ha|rewrite Hb]; simpl; congruence.
      * rewrite decide_False; [lia|]. intros H. now apply list_elem_of_filter in H as [_ ?].
Qed.

Lemma wf_set o w st i s d l1 l2 ret st' :
  wf o w st -> ConnBrSetBrPendingPacket l1 l2 st i s d = (ret, st') -> wf o w st'.
Proof.
  intros Hwf. unfold ConnBrSetBrPendingPacket. destruct (negb _); [intros [= <- <-]; exact Hwf|].
  destruct (list_find _ _) as [[n p]|]; [|intros [= <- <-]; exact Hwf].
  destruct (negb _); intros [= <- <-]; [exact Hwf|]. apply (wf_update o w); auto.
  - intros q q'. unfold trigger. destruct (bool_decide _); intros [= <-]; auto.
  - apply Hwf.
  - intros q q' Hq E. destruct (wf_refs _ _ _ Hwf q Hq) as [Hr Hb].
    unfold trigger in E. destruct (bool_decide _); injection E as <-; auto.
  - intros q Hq _. unfold trigger. destruct (bool_decide _); eauto.
Qed.

Lemma reach_wf o w st : reach o w st -> wf o w st.
Proof.
  induction 1; eauto using wf_create, wf_del, wf_delById, wf_begin, wf_end, wf_set.
  split; simpl; try apply NoDup_nil_2; intros p Hp; inversion Hp.
Qed.

(** Reference counts are exact and nothing is freed under a waiter: in every
    reachable state each listed entry counts its owner and its waiters, and the
    entry a waiter holds is still in the list, so the reads after the wait and
    the final [Dereference] touch live memory. *)
Theorem waiter_entry_alive (o w : list nat) (st : State) (h : nat)
    (Hreach : reach o w st) (Hwait : h ∈ w) :
  exists p, entryAt h st = Some p /\
    refCnt p = count h o + count h w /\ 0 < refCnt p.
Proof.
  pose proof (reach_wf _ _ _ Hreach) as Hwf.
  assert (Hin : h ∈ handle <$> g_pendingList st) by (apply Hwf, elem_of_app; now right).
  apply list_elem_of_fmap in Hin as (p & -> & Hp). unfold entryAt.
  destruct (list_find (fun q => handle q = handle p) (g_pendingList st)) as [[n q]|] eqn:E.
  - apply list_find_Some in E as (Hq & Eh & _). apply list_elem_of_lookup_2 in Hq.
    exists q. split; [reflexivity|]. destruct (wf_refs _ _ _ Hwf q Hq) as [Hr Hb].
    rewrite <- Eh. split; [exact Hr|lia].
  - apply list_find_None in E. rewrite Forall_forall in E. now destruct (E p Hp).
Qed.

(** A waiter on entry (3, 8) whose connection is closed meanwhile. *)
Lemma sample_reach : exists st, reach [] [0%nat] st.
Proof.
  eexists. apply (reach_delById [0%nat] [0%nat] (mkState [mkPending 0 3 8 None false 2] 1) 3).
  - apply (reach_begin [0%nat] [] (mkState [mkPending 0 3 8 None false 1] 1) 3 8).
    + apply (reach_create [] [] (mkState [] 0) 0 (fun _ => true) 0 0 3 8); [apply reach_init|reflexivity].
    + reflexivity.
    + intros p Hp. apply list_elem_of_singleton in Hp as ->. simpl. lia.
  - intros p Hp _. apply list_elem_of_singleton in Hp as ->. left.
Qed.

Lemma waiter_entry_alive_witness : exists st p,
  entryAt 0 st = Some p /\ refCnt p = count 0 [] + count 0 [0%nat] /\ 0 < refCnt p.
Proof.
  destruct sample_reach as [st Hr]. exists st.
  apply (waiter_entry_alive [] [0%nat] st 0 Hr). left.
Defined.

(** The wait drops only its own reference, so an acknowledged entry stays in the
    list until the connection is closed: after create, acknowledge and wait the
    list still holds it. *)
Theorem acknowledged_entry_stays :
  let st0 := mkState [] 0 in
  let st1 := (ConnBrCreateBrPendingPacket 0 (fun _ => true) 0 0 st0 3 8).2 in
  let st2 := (ConnBrSetBrPendingPacket 0 0 st1 3 8 None).2 in
  ConnBrGetBrPendingPacket true 0 0 0 (fun s => s) st2 3 8 =
  (SOFTBUS_ALREADY_TRIGGERED, None, mkState [mkPending 0 3 8 None true 1] 1).
Proof. vm_compute. reflexivity. Qed.

End PendingPacket.
