(* ===== verification/BrTrans.v ===== *)
(** * BR sending

    Model of the sending side of core/connection/br/src/softbus_conn_br_trans.c:
    the write loop with its retries, the acknowledgement window, one round of
    the send task, and the request that posts bytes to it.  Reading is in
    [PktFrame], the pending acknowledgements in [PendingPacket]. *)

From S2P Require Import Prelude ErrorCode Bytes FlowControl PendingPacket.

Module BrTrans.

Definition CONN_BR_SEND_DATA_FAIL_TRY_SEND_COUNT_MAX : Z := 5.
Definition ERR_QUEUE_FULL : Z := -11.
Definition ERR_INTERRUPTION : Z := -4.
Definition SOFTBUS_CONN_BR_UNDERLAY_WRITE_FAIL : Z := SOFTBUS_CONN_ERR_BASE + 23.
Definition SOFTBUS_CONN_BR_CONNECTION_NOT_EXIST_ERR : Z := SOFTBUS_CONN_ERR_BASE + 19.
Definition SOFTBUS_CONN_BR_CONNECTION_NOT_READY_ERR : Z := SOFTBUS_CONN_ERR_BASE + 20.
Definition SOFTBUS_CONN_BR_CONNECTION_INVALID_SOCKET : Z := SOFTBUS_CONN_ERR_BASE + 21.
Definition MIN_WINDOW : Z := 10.
Definition MAX_WINDOW : Z := 80.
Definition DEFAULT_WINDOW : Z := 20.
Definition ACK_FAILED_TIMES : Z := 3.
Definition TIMEOUT_TIMES : Z := 2.
Definition INVALID_SOCKET_HANDLE : Z := -1.
Definition MAX_DATA_LEN : Z := 40 * 1000.
Definition MODULE_CONNECTION : Z := 11.
Definition BR_CONNECTION_STATE_CONNECTED : Z := 1.
Definition CONNECT_BR : Z := 2.

(** ** The write loop *)

Definition IsNeedRetrySend (writeLen trySendCount : Z) : bool :=
  ((writeLen =? ERR_QUEUE_FULL) || (writeLen =? ERR_INTERRUPTION))
  && (trySendCount <? CONN_BR_SEND_DATA_FAIL_TRY_SEND_COUNT_MAX).

Section Write.
(** The n-th grant of the flow controller and the n-th answer of the driver's
    Write for an amount. *)
Context (apply : nat -> Z -> Z) (Write : nat -> Z -> Z).

(** Code and the chunks the driver accepted; [None] when the fuel runs out. *)
Fixpoint BrTransSendLoop (fuel n : nat) (mtu : Z) (data : list byte)
    (waitWriteLen trySendCount : Z) : option (Z * list (list byte)) :=
  match fuel with
  | O => None
  | S fuel' =>
    if negb (0 <? waitWriteLen) then Some (SOFTBUS_OK, [])
    else
      let expect := if mtu <? waitWriteLen then mtu else waitWriteLen in
      let amount := apply n (s32 expect) in
      let writeLen := Write n amount in
      if writeLen <? 0 then
        if IsNeedRetrySend writeLen trySendCount
        then BrTransSendLoop fuel' (S n) mtu data waitWriteLen (trySendCount + 1)
        else Some (SOFTBUS_CONN_BR_UNDERLAY_WRITE_FAIL, [])
      else
        match BrTransSendLoop fuel' (S n) mtu (drop (Z.to_nat writeLen) data)
                (u32 (waitWriteLen - writeLen)) 0 with
        | None => None
        | Some (r, l) => Some (r, take (Z.to_nat writeLen) data :: l)
        end
  end.

(** Between two accepted bytes there are at most five retries. *)
Definition BrTransSend (mtu : Z) (data : list byte) : option (Z * list (list byte)) :=
  BrTransSendLoop (6 * length data + 7) 0 mtu data (Z.of_nat (length data)) 0.

End Write.

(** ** Acknowledgement window *)

Record ConnBrConnection := mkBrConn {
  connectionId : Z;
  mtu : Z;
  socketHandle : Z;
  window : Z;
  sequence : Z;
  waitSequence : Z;
  ackTimeoutCount : Z
}.

Definition setAck (c : ConnBrConnection) (w t : Z) : ConnBrConnection :=
  mkBrConn (connectionId c) (mtu c) (socketHandle c) w (sequence c) 0 t.

(** The switch on the result of the wait; it also clears [waitSequence]. *)
Definition ackResult (c : ConnBrConnection) (ret : Z) : ConnBrConnection :=
  if ret =? SOFTBUS_ALREADY_TRIGGERED
  then setAck c (if window c <? MAX_WINDOW then window c + 1 else MAX_WINDOW) 0
  else if ret =? SOFTBUS_OK then setAck c (window c) 0
  else if ret =? SOFTBUS_TIMOUT then
    let count := s32 (ackTimeoutCount c + 1) in
    let w1 := if (MIN_WINDOW <? window c) && (Z.rem count TIMEOUT_TIMES =? 0)
              then window c - 1 else window c in
    let w2 := if (w1 <? DEFAULT_WINDOW) && (ACK_FAILED_TIMES <? count)
              then DEFAULT_WINDOW else w1 in
    setAck c w2 count
  else setAck c (window c) 0.

(** What the world answers during one round of the send task. *)
Record Env := mkEnv {
  connLock1 : Z;      (* the locks WaitAck takes *)
  connLock2 : Z;
  pendLock : Z;
  pendRefLock : Z;
  pendEntryLock : Z;
  pendWait : PendingPacket.State -> PendingPacket.State;
  pendMutexInit : Z;
  pendCondInit : Z;
  libcE : Z -> bool;
  ackMessage : Z + list byte;          (* ConnBrPackCtlMessage: error or bytes *)
  applyE : nat -> Z -> Z;
  writeAck : nat -> Z -> Z;
  writeData : nat -> Z -> Z
}.

Definition WaitAck (e : Env) (c : ConnBrConnection) (st : PendingPacket.State)
  : ConnBrConnection * PendingPacket.State :=
  if negb (connLock1 e =? SOFTBUS_OK) then (c, st)
  else
    let '(ret, _, st') := PendingPacket.ConnBrGetBrPendingPacket true (pendLock e) (pendRefLock e)
      (pendEntryLock e) (pendWait e) st (connectionId c) (waitSequence c) in
    if negb (connLock2 e =? SOFTBUS_OK) then (c, st') else (ackResult c ret, st').

(** Returns the code, [None] when the write loop does not finish. *)
Definition SendAck (e : Env) (c : ConnBrConnection) (st : PendingPacket.State)
  : option (Z * PendingPacket.State) :=
  match ackMessage e with
  | inl err => Some (err, st)
  | inr data =>
    let '(ret, st') := PendingPacket.ConnBrCreateBrPendingPacket (pendLock e) (libcE e)
      (pendMutexInit e) (pendCondInit e) st (connectionId c) (sequence c) in
    if negb (ret =? SOFTBUS_OK) then Some (ret, st')
    else
      match BrTransSend (applyE e) (writeAck e) (mtu c) data with
      | None => None
      | Some (ret', _) =>
        if negb (ret' =? SOFTBUS_OK)
        then Some (ret', PendingPacket.ConnBrDelBrPendingPacket (pendLock e) st'
                           (connectionId c) (sequence c))
        else Some (ret', st')
      end
  end.

Definition setSequence (c : ConnBrConnection) (s : Z) : ConnBrConnection :=
  mkBrConn (connectionId c) (mtu c) (socketHandle c) (window c) s (waitSequence c) (ackTimeoutCount c).
Definition setWait (c : ConnBrConnection) (s : Z) : ConnBrConnection :=
  mkBrConn (connectionId c) (mtu c) (socketHandle c) (window c) (sequence c) s (ackTimeoutCount c).

(** The part of [SendHandlerLoop] after a message was taken from the queue.
    [conn] is the connection, [None] if it is gone, and the code of its lock.
    Returns the code reported to [onPostByteFinshed], the connection, the pending
    list and what was written. *)
Definition sendOne (e : Env) (conn : option (Z * ConnBrConnection)) (st : PendingPacket.State)
    (data : list byte)
  : option (Z * option ConnBrConnection * PendingPacket.State * list (list byte)) :=
  match conn with
  | None => Some (SOFTBUS_CONN_BR_CONNECTION_NOT_EXIST_ERR, None, st, [])
  | Some (lock, c) =>
    if negb (lock =? SOFTBUS_OK) then Some (SOFTBUS_LOCK_ERR, Some c, st, [])
    else if socketHandle c =? INVALID_SOCKET_HANDLE
    then Some (SOFTBUS_CONN_BR_CONNECTION_INVALID_SOCKET, Some c, st, [])
    else
      let c := setSequence c (s64 (sequence c + 1)) in
      match (if Z.rem (sequence c) (window c) =? 0
             then match SendAck e c st with
                  | None => None
                  | Some (r, st') => Some (if r =? SOFTBUS_OK then setWait c (sequence c) else c, st')
                  end
             else Some (c, st)) with
      | None => None
      | Some (c, st) =>
        let '(c, st) :=
          if (1 <? window c) && (Z.rem (sequence c) (window c) =? window c - 1)
             && negb (waitSequence c =? 0)
          then WaitAck e c st else (c, st) in
        match BrTransSend (applyE e) (writeData e) (mtu c) data with
        | None => None
        | Some (ret, out) => Some (ret, Some c, st, out)
        end
      end
  end.

(** ** Posting bytes *)

(** [g_startBrSendLPInfo]. *)
Record StartBrSendLPInfo := mkLP {
  messagePosted : bool;
  sendTaskRunning : bool
}.

Record SendBrQueueNode := mkNode {
  nConnectionId : Z;
  nData : list byte;
  nPid : Z;
  nFlag : Z;
  nModule : Z;
  nSeq : Z;
  isInner : bool
}.

(** [conn] is the connection's lock code and state; [lpLock], [start] and
    [enqueue] are the answers of the low-power lock, of ConnStartActionAsync and
    of ConnBrEnqueueNonBlock.  Returns the code, the low-power state and the node
    that is in the queue now. *)
Definition ConnBrPostBytes (conn : option (Z * Z)) (libc : Z -> bool) (lpLock start : Z)
    (enqueue : SendBrQueueNode -> Z) (lp : StartBrSendLPInfo)
    (connId : Z) (dat : option (list byte)) (pid flg modu sq : Z)
  : Z * StartBrSendLPInfo * option SendBrQueueNode :=
  match dat with
  | None => (SOFTBUS_INVALID_PARAM, lp, None)
  | Some d =>
    let len := Z.of_nat (length d) in
    if (len =? 0) || (MAX_DATA_LEN <? len) then (SOFTBUS_INVALID_PARAM, lp, None)
    else
      match conn with
      | None => (SOFTBUS_CONN_BR_CONNECTION_NOT_EXIST_ERR, lp, None)
      | Some (lock, state) =>
        if negb (lock =? SOFTBUS_OK) then (SOFTBUS_LOCK_ERR, lp, None)
        else if negb (state =? BR_CONNECTION_STATE_CONNECTED) && negb (modu =? MODULE_CONNECTION)
        then (SOFTBUS_CONN_BR_CONNECTION_NOT_READY_ERR, lp, None)
        else if negb (SoftBusCalloc libc 64) then (SOFTBUS_MEM_ERR, lp, None)
        else
          let node := mkNode connId d pid flg modu sq (pid =? 0) in
          if negb (lpLock =? SOFTBUS_OK) then (SOFTBUS_LOCK_ERR, lp, None)
          else
            let lp := mkLP true (sendTaskRunning lp) in
            if negb (sendTaskRunning lp) && negb (start =? SOFTBUS_OK) then (start, lp, None)
            else
              let lp := mkLP (messagePosted lp) true in
              let ret := enqueue node in
              if negb (ret =? SOFTBUS_OK) then (ret, lp, None)
              else (SOFTBUS_OK, lp, Some node)
      end
  end.

(** The configuration request goes to the flow controller. *)
Definition ConnBrTransConfigPostLimit (lock : Z)
    (configuration : option (Z * bool * Z * Z))   (* type, active, window, quota *)
    (fc : option FlowControl.ConnSlideWindowController)
  : Z * option FlowControl.ConnSlideWindowController :=
  match configuration with
  | None => (SOFTBUS_INVALID_PARAM, fc)
  | Some (type, act, w, q) =>
    if negb (type =? CONNECT_BR) then (SOFTBUS_INVALID_PARAM, fc)
    else if negb act then FlowControl.Disable lock fc
    else FlowControl.Enable lock fc w q
  end.

(** ** Properties *)

Section WriteSpec.
Context (apply : nat -> Z -> Z) (Write : nat -> Z -> Z) (m : Z) (Hm : 0 < m).
Context (Happly : forall n e, 0 < e -> 0 < apply n e <= e).
(** The driver fails or accepts between one byte and the amount. *)
Context (Hwrite : forall n a, Write n a < 0 \/ 0 < Write n a <= a).

Definition outcome (data : list byte) (res : option (Z * list (list byte))) : Prop :=
  exists r chunks, res = Some (r, chunks) /\
    (r = SOFTBUS_OK /\ concat chunks = data \/
     r = SOFTBUS_CONN_BR_UNDERLAY_WRITE_FAIL /\ exists rest, data = concat chunks ++ rest).

Lemma BrTransSendLoop_spec : forall fuel n data try,
  Z.of_nat (length data) <= INT32_MAX -> 0 <= try <= 5 ->
  (6 * length data + 6 - Z.to_nat try < fuel)%nat ->
  outcome data (BrTransSendLoop apply Write fuel n m data (Z.of_nat (length data)) try).
Proof.
  induction fuel as [|fuel IH]; intros n data try Hlen Htry Hf; [lia|]. cbn [BrTransSendLoop].
  destruct (Z.ltb_spec 0 (Z.of_nat (length data))) as [Hpos|H0]; cbn [negb].
  2: { exists SOFTBUS_OK, []. split; [reflexivity|]. left. split; [reflexivity|].
       destruct data; [reflexivity|simpl in H0; lia]. }
  set (expect := if m <? Z.of_nat (length data) then m else Z.of_nat (length data)).
  assert (He : 0 < expect <= Z.of_nat (length data)) by (unfold expect; zcase; lia).
  rewrite s32_small by (unfold in_s32; lia).
  pose proof (Happly n expect ltac:(lia)) as Ha. set (a := apply n expect) in *.
  destruct (Hwrite n a) as [Hw|Hw]; set (w := Write n a) in *.
  - destruct (Z.ltb_spec w 0); [|lia].
    destruct (IsNeedRetrySend w try) eqn:Er.
    + apply IH; [exact Hlen| |]; unfold IsNeedRetrySend, CONN_BR_SEND_DATA_FAIL_TRY_SEND_COUNT_MAX in Er;
        zbool; lia.
    + exists SOFTBUS_CONN_BR_UNDERLAY_WRITE_FAIL, []. split; [reflexivity|]. right.
      split; [reflexivity|]. now exists data.
  - destruct (Z.ltb_spec w 0); [lia|].
    rewrite u32_small by (unfold in_u32; lia).
    replace (Z.of_nat (length data) - w) with (Z.of_nat (length (drop (Z.to_nat w) data)))
      by (rewrite length_drop; lia).
    destruct (IH (S n) (drop (Z.to_nat w) data) 0) as (r & chunks & -> & Hr);
      [rewrite length_drop; lia|lia|rewrite length_drop; lia|].
    exists r, (take (Z.to_nat w) data :: chunks). split; [reflexivity|].
    destruct Hr as [[-> Hc]|(-> & rest & Hc)]; [left|right]; (split; [reflexivity|]).
    + simpl. now rewrite Hc, take_drop.
    + exists rest. simpl. rewrite <- app_assoc, <- Hc. now rewrite take_drop.
Qed.

End WriteSpec.

(** The write loop always returns: with a driver that fails or makes
    progress, it reports success exactly when the driver accepted all bytes of
    the message, in order and once each; otherwise it reports the write failure
    and the driver accepted a prefix.  At most five retries in a row keep the
    number of rounds below [6 * length + 7]. *)
Theorem BrTransSend_exact (apply : nat -> Z -> Z) (Write : nat -> Z -> Z) (m : Z) (data : list byte)
    (Hm : 0 < m) (Happly : forall n e, 0 < e -> 0 < apply n e <= e)
    (Hwrite : forall n a, Write n a < 0 \/ 0 < Write n a <= a)
    (Hlen : Z.of_nat (length data) <= MAX_DATA_LEN) :
  exists r chunks, BrTransSend apply Write m data = Some (r, chunks) /\
    (r = SOFTBUS_OK /\ concat chunks = data \/
     r = SOFTBUS_CONN_BR_UNDERLAY_WRITE_FAIL /\ exists rest, data = concat chunks ++ rest).
Proof.
  apply (BrTransSendLoop_spec apply Write m Hm Happly Hwrite); unfold MAX_DATA_LEN in *; lia.
Qed.

Lemma BrTransSend_exact_witness : exists r chunks,
  BrTransSend (fun _ e => e) (fun n a => if Nat.even n then ERR_QUEUE_FULL else if 0 <? a then 1 else -1)
    5 (replicate 7 Byte.x31) = Some (r, chunks) /\
  (r = SOFTBUS_OK /\ concat chunks = replicate 7 Byte.x31 \/
   r = SOFTBUS_CONN_BR_UNDERLAY_WRITE_FAIL /\ exists rest, replicate 7 Byte.x31 = concat chunks ++ rest).
Proof.
  apply (BrTransSend_exact (fun _ e => e)
    (fun n a => if Nat.even n then ERR_QUEUE_FULL else if 0 <? a then 1 else -1)).
  - lia.
  - intros; lia.
  - intros n a. unfold ERR_QUEUE_FULL. destruct (Nat.even n); [left; lia|].
    destruct (Z.ltb_spec 0 a); [right; lia|left; lia].
  - simpl. unfold MAX_DATA_LEN. lia.
Defined.

(** The states of a connection that the send task goes through. *)
Inductive connReach : ConnBrConnection -> Prop :=
| connReach_init i m s : connReach (mkBrConn i m s DEFAULT_WINDOW 0 0 0)
| connReach_send c e lock st data ret c' st' out :
    connReach c -> sequence c < 9223372036854775807 ->
    sendOne e (Some (lock, c)) st data = Some (ret, Some c', st', out) -> connReach c'.

Record windowOK (c : ConnBrConnection) : Prop := {
  win_range : MIN_WINDOW <= window c <= MAX_WINDOW;
  win_seq : 0 <= waitSequence c <= sequence c
}.

Lemma ackResult_ok c ret : windowOK c -> windowOK (ackResult c ret).
Proof.
  unfold ackResult, setAck, MIN_WINDOW, MAX_WINDOW, DEFAULT_WINDOW. intros [H1 H2].
  unfold MIN_WINDOW, MAX_WINDOW in H1.
  destruct (ret =? SOFTBUS_ALREADY_TRIGGERED); [|destruct (ret =? SOFTBUS_OK);
    [|destruct (ret =? SOFTBUS_TIMOUT)]]; split; simpl; unfold MIN_WINDOW, MAX_WINDOW; try lia.
  - zcase; lia.
  - destruct (Z.ltb_spec 10 (window c)); cbn [andb];
      [destruct (Z.rem _ _ =? 0)|]; (destruct (_ && _); lia).
Qed.

Lemma WaitAck_ok e c st c' st' : WaitAck e c st = (c', st') -> windowOK c -> windowOK c'.
Proof.
  unfold WaitAck. destruct (negb _); [intros [= <- <-]; auto|].
  destruct (PendingPacket.ConnBrGetBrPendingPacket _ _ _ _ _ _ _ _) as [[ret d] st1].
  destruct (negb _); intros [= <- <-]; [auto|]. apply ackResult_ok.
Qed.

Lemma sendOne_ok e lock c st data ret c' st' out :
  windowOK c -> sequence c < 9223372036854775807 ->
  sendOne e (Some (lock, c)) st data = Some (ret, Some c', st', out) -> windowOK c'.
Proof.
  intros [H1 H2] Hseq. unfold sendOne.
  destruct (negb _); [intros [= <- <- <- <-]; now split|].
  destruct (_ =? INVALID_SOCKET_HANDLE); [intros [= <- <- <- <-]; now split|].
  set (c1 := setSequence c (s64 (sequence c + 1))).
  assert (Hs : sequence c1 = sequence c + 1)
    by (simpl; unfold s64; rewrite Z.mod_small; lia).
  assert (Hc1 : windowOK c1) by (split; [exact H1|rewrite Hs; simpl; lia]).
  assert (Hc1' : windowOK (setWait c1 (sequence c1))) by (split; [exact H1|simpl in *; lia]).
  clearbody c1.
  destruct (if Z.rem _ _ =? 0 then _ else _) as [[c2 st2]|] eqn:E2; [|discriminate].
  assert (Hc2 : windowOK c2).
  { destruct (Z.rem _ _ =? 0); [|congruence].
    destruct (SendAck e c1 st) as [[r st3]|]; [|discriminate].
    destruct (r =? SOFTBUS_OK); injection E2 as <- <-; assumption. }
  destruct (if (_ && _ && _)%bool then _ else _) as [c3 st3] eqn:E3.
  assert (Hc3 : windowOK c3).
  { destruct (_ && _ && _)%bool; [now apply WaitAck_ok in E3|congruence]. }
  destruct (BrTransSend _ _ _ _) as [[r o]|]; [|discriminate]. now intros [= <- <- <- <-].
Qed.

(** The congestion window of a connection stays between 10 and 80 whatever
    acknowledgements arrive or time out, so the send task never divides by zero,
    and it never waits for a sequence number it has not sent yet. *)
Theorem window_in_range (c : ConnBrConnection) (Hreach : connReach c) :
  MIN_WINDOW <= window c <= MAX_WINDOW /\ 0 <= waitSequence c <= sequence c.
Proof.
  assert (H : windowOK c); [|destruct H; auto].
  induction Hreach as [i m s|c e lock st data ret c' st' out _ IH Hs E].
  - split; simpl; unfold MIN_WINDOW, MAX_WINDOW, DEFAULT_WINDOW; lia.
  - now apply (sendOne_ok e lock c st data ret c' st' out).
Qed.

Definition quietEnv : Env :=
  mkEnv 0 0 0 0 0 (fun s => s) 0 0 (fun _ => true) (inl (-1)) (fun _ e => e) (fun _ a => a) (fun _ a => a).

Lemma window_in_range_witness :
  MIN_WINDOW <= window (mkBrConn 3 990 5 20 1 0 0) <= MAX_WINDOW /\
  0 <= waitSequence (mkBrConn 3 990 5 20 1 0 0) <= sequence (mkBrConn 3 990 5 20 1 0 0).
Proof.
  apply window_in_range.
  apply (connReach_send (mkBrConn 3 990 5 20 0 0 0) quietEnv 0 (PendingPacket.mkState [] 0)
           [Byte.x01] 0 _ (PendingPacket.mkState [] 0) [[Byte.x01]]).
  - apply connReach_init.
  - simpl. lia.
  - vm_compute. reflexivity.
Defined.

(** A branch that returns an error code and queues nothing. *)
Ltac refuse H := let E := fresh in intros E; eapply H; [|exact E]; (discriminate || assumption).

(** Posting bytes succeeds exactly when the node is in the send queue, and
    then the send task is running or was started and has been told that a message
    was posted; a refused request queues nothing. *)
Theorem ConnBrPostBytes_queued conn libc lpLock start enqueue lp connId dat pid flg modu sq ret lp' node
    (Hpost : ConnBrPostBytes conn libc lpLock start enqueue lp connId dat pid flg modu sq = (ret, lp', node)) :
  (ret = SOFTBUS_OK <-> exists d, dat = Some d /\ node = Some (mkNode connId d pid flg modu sq (pid =? 0))
                                  /\ 0 < Z.of_nat (length d) <= MAX_DATA_LEN) /\
  (ret = SOFTBUS_OK -> lp' = mkLP true true) /\
  (ret <> SOFTBUS_OK -> node = None).
Proof.
  revert Hpost. unfold ConnBrPostBytes.
  assert (Hbad : forall r l, r <> SOFTBUS_OK -> (r, l, @None SendBrQueueNode) = (ret, lp', node) ->
    (ret = SOFTBUS_OK <-> exists d, dat = Some d /\ node = Some (mkNode connId d pid flg modu sq (pid =? 0))
                                    /\ 0 < Z.of_nat (length d) <= MAX_DATA_LEN) /\
    (ret = SOFTBUS_OK -> lp' = mkLP true true) /\ (ret <> SOFTBUS_OK -> node = None)).
  { intros r l Hr [= <- <- <-]. split; [|split; auto; congruence].
    split; [congruence|]. intros (d & _ & Hn & _). discriminate. }
  destruct dat as [d|]; [|refuse Hbad].
  destruct (Z.eqb_spec (Z.of_nat (length d)) 0); [refuse Hbad|].
  destruct (Z.ltb_spec MAX_DATA_LEN (Z.of_nat (length d)));
    [refuse Hbad|]. cbn [orb].
  destruct conn as [[lock state]|]; [|refuse Hbad].
  destruct (negb (lock =? SOFTBUS_OK)); [refuse Hbad|].
  destruct (negb (state =? _) && _); [refuse Hbad|].
  destruct (negb (SoftBusCalloc libc 64)); [refuse Hbad|].
  destruct (negb (lpLock =? SOFTBUS_OK)); [refuse Hbad|].
  cbn [sendTaskRunning messagePosted].
  destruct (Z.eqb_spec start SOFTBUS_OK) as [->|Hst]; cbn [negb]; [rewrite andb_false_r|].
  - destruct (Z.eqb_spec (enqueue (mkNode connId d pid flg modu sq (pid =? 0))) SOFTBUS_OK);
      cbn [negb]; [|refuse Hbad].
    intros [= <- <- <-]. split; [|split; congruence]. split; [|reflexivity].
    intros _. exists d. repeat split; auto; lia.
  - destruct (sendTaskRunning lp) eqn:Er; cbn [negb andb];
      [|refuse Hbad].
    destruct (Z.eqb_spec (enqueue (mkNode connId d pid flg modu sq (pid =? 0))) SOFTBUS_OK);
      cbn [negb]; [|refuse Hbad].
    intros [= <- <- <-]. split; [|split; congruence]. split; [|reflexivity].
    intros _. exists d. repeat split; auto; lia.
Qed.

Lemma ConnBrPostBytes_queued_witness :
  0 = SOFTBUS_OK <-> exists d, Some [Byte.x07] = Some d /\
    Some (mkNode 3 [Byte.x07] 0 1 2 9 true) = Some (mkNode 3 d 0 1 2 9 (0 =? 0)) /\
    0 < Z.of_nat (length d) <= MAX_DATA_LEN.
Proof.
  apply (ConnBrPostBytes_queued (Some (0, 1)) (fun _ => true) 0 0 (fun _ => 0) (mkLP false false)
    3 (Some [Byte.x07]) 0 1 2 9 0 (mkLP true true)).
  vm_compute. reflexivity.
Defined.

End BrTrans.
