(* ===== verification/ProxySlice.v ===== *)
(** * Proxy channel: packets and slices

    Model of core/transmission/common/src/trans_proxy_process_data.c and
    trans_assemble_tlv.c: a payload is encrypted and put behind a packet head
    (fixed or TLV), the packet is cut into slices of 4 KiB with a slice head,
    and the receiver collects the slices of a packet in a [SliceProcessor].
    Structs in messages are given as their little-endian images (see
    [ByteOrder.memOf_SoftBusHtoL] and [ByteOrder.SoftBusLtoH_ofMem]); the
    cipher is a parameter. *)

From S2P Require Import Prelude ErrorCode Bytes.

Module ProxySlice.

Definition SLICE_LEN : Z := 4 * 1024.
Definition SHORT_SLICE_LEN : Z := 1024.
Definition PROXY_TLV_ELEMENT : Z := 5.
Definition TLV_TYPE_AND_LENGTH : Z := 2.
Definition PROXY_TLV_PKT_HEAD : Z := 32.
Definition MAGICNUM_SIZE : Z := 4.
Definition TLVCOUNT_SIZE : Z := 1.
Definition MAGIC_NUMBER : Z := 3133078222.  (* 0xBABEFACE *)
Definition GCM_IV_LEN : Z := 12.
Definition TAG_LEN : Z := 16.
Definition SHORT_TAG_LEN : Z := 8.
Definition OVERHEAD_LEN : Z := GCM_IV_LEN + TAG_LEN.
Definition NONCE_LEN : Z := 2.
Definition sizeof_SliceHead : Z := 16.
Definition sizeof_D2dSliceHead : Z := 4.
Definition sizeof_PacketHead : Z := 16.
Definition sizeof_PacketD2DHead : Z := 8.
Definition sizeof_PacketD2DNewHead : Z := 4.
Definition sizeof_TlvElement : Z := 16.

Definition TLV_TYPE_INNER_SEQ : Z := 0.
Definition TLV_TYPE_DATA_SEQ : Z := 1.
Definition TLV_TYPE_FLAG : Z := 2.
Definition TLV_TYPE_NEED_ACK : Z := 3.
Definition TLV_TYPE_DATA_LEN : Z := 4.

Definition PROXY_CHANNEL_PRIORITY_MESSAGE : Z := 0.
Definition PROXY_CHANNEL_PRIORITY_BYTES : Z := 1.
Definition PROXY_CHANNEL_PRIORITY_FILE : Z := 2.
Definition PROXY_CHANNEL_PRIORITY_BUTT : Z := 3.

Definition TRANS_SESSION_BYTES : Z := 0.
Definition TRANS_SESSION_ACK : Z := 1.
Definition TRANS_SESSION_MESSAGE : Z := 2.
Definition TRANS_SESSION_ASYNC_MESSAGE : Z := 12.
Definition BUSINESS_TYPE_D2D_MESSAGE : Z := 10.
Definition BUSINESS_TYPE_D2D_VOICE : Z := 11.

Definition SOFTBUS_TRANS_INVALID_DATA_LENGTH : Z := SOFTBUS_TRANS_ERR_BASE + 11.
Definition SOFTBUS_TRANS_PROXY_SESS_ENCRYPT_ERR : Z := SOFTBUS_TRANS_ERR_BASE + 20.
Definition SOFTBUS_TRANS_PROXY_ASSEMBLE_PACK_NO_INVALID : Z := SOFTBUS_TRANS_ERR_BASE + 22.
Definition SOFTBUS_TRANS_PROXY_ASSEMBLE_PACK_EXCEED_LENGTH : Z := SOFTBUS_TRANS_ERR_BASE + 23.
Definition SOFTBUS_TRANS_PROXY_ASSEMBLE_PACK_DATA_NULL : Z := SOFTBUS_TRANS_ERR_BASE + 24.

(** The limits [TransGetProxyDataBufMaxSize] reads from the configuration. *)
Record Config := mkConfig {
  g_proxyMaxByteBufSize : Z;
  g_proxyMaxMessageBufSize : Z;
  g_proxyMaxD2dVoiceBufSize : Z;
  g_proxyMaxD2dMessageBufSize : Z
}.

(** A failed read leaves the old value. *)
Definition TransGetProxyDataBufMaxSize (SoftbusGetConfig : Z -> option Z) (old : Config) : Config :=
  let get n v := default v (SoftbusGetConfig n) in
  mkConfig (get 0 (g_proxyMaxByteBufSize old)) (get 1 (g_proxyMaxMessageBufSize old))
           (get 2 (g_proxyMaxD2dVoiceBufSize old)) (get 3 (g_proxyMaxD2dMessageBufSize old)).

(** ** Heads *)

Record SliceHead := mkSliceHead {
  priority : Z;
  sliceNum : Z;
  sliceSeq : Z;
  reserved : Z
}.

Definition TransPackSliceHead (h : SliceHead) : list byte :=
  le 4 (priority h) ++ le 4 (sliceNum h) ++ le 4 (sliceSeq h) ++ le 4 (reserved h).

(** A signed 32-bit field at a byte offset. *)
Definition field (l : list byte) (n : nat) : Z := s32 (unle (take 4 (drop n l))).

Definition TransUnPackSliceHead (l : list byte) : SliceHead :=
  mkSliceHead (field l 0) (field l 4) (field l 8) (field l 12).

Record PacketHead := mkPacketHead {
  magicNumber : Z;
  seq : Z;
  flags : Z;
  dataLen : Z
}.

Definition TransPackPacketHead (h : PacketHead) : list byte :=
  le 4 (magicNumber h) ++ le 4 (seq h) ++ le 4 (flags h) ++ le 4 (dataLen h).

Definition TransUnPackPacketHead (l : list byte) : PacketHead :=
  mkPacketHead (field l 0) (field l 4) (field l 8) (field l 12).

(** The fields of a TLV packet head as they are in memory; [None] of [needAck]
    does not occur, the byte is kept as it came. *)
Record DataHeadTlvPacketHead := mkTlvHead {
  tMagic : list byte;
  tlvCount : Z;
  tSeq : list byte;
  tDataSeq : list byte;
  tFlags : list byte;
  tDataLen : list byte;
  needAck : list byte
}.

(** The head after [TransUnPackTlvPackHead]. *)
Record TlvHeadValues := mkTlvValues {
  vMagic : Z; vSeq : Z; vDataSeq : Z; vFlags : Z; vDataLen : Z
}.

Definition TransUnPackTlvPackHead (h : DataHeadTlvPacketHead) : TlvHeadValues :=
  mkTlvValues (unle (tMagic h)) (s32 (unle (tSeq h))) (unle (tDataSeq h)) (unle (tFlags h))
              (unle (tDataLen h)).

(** ** Assembling TLV elements (trans_assemble_tlv.c)

    [cursor] is the position of [tlvElement] in the array, in elements. *)

Record TlvElement := mkElement { eType : Z; eValue : list byte }.

Record DataHead := mkDataHead {
  elements : list TlvElement;
  count : Z;
  cursor : Z
}.

(** [bufferSize] is [*bufferSize]; the element is written at the cursor, which
    is the end of the array while it is being filled. *)
Definition TransAssembleTlvData (libc : Z -> bool) (h : DataHead) (ty : Z) (buffer : list byte)
    (bufferSize : Z) : Z * DataHead * Z :=
  let bufferLen := u8 (Z.of_nat (length buffer)) in
  if bufferLen =? 0 then (SOFTBUS_INVALID_PARAM, h, bufferSize)
  else if negb (SoftBusCalloc libc bufferLen) then (SOFTBUS_MALLOC_ERR, h, bufferSize)
  else if negb (memcpy_s bufferLen bufferLen) then (SOFTBUS_MEM_ERR, h, bufferSize)
  else (SOFTBUS_OK,
        mkDataHead (elements h ++ [mkElement ty buffer]) (u8 (count h + 1)) (cursor h + 1),
        s32 (bufferSize + (TLV_TYPE_AND_LENGTH + bufferLen))).

(** The index of the first element it frees, and the head afterwards. *)
Definition ReleaseTlvValueBuffer (h : DataHead) : Z * DataHead :=
  (cursor h - count h, mkDataHead (elements h) 0 (cursor h - count h)).

(** ** Packing *)

Section Crypto.
(** Encryption with a key and a sequence number: code and output, and back. *)
Context {Key : Type}.
Context (SoftBusEncryptDataWithSeq SoftBusDecryptDataWithSeq : Key -> Z -> list byte -> Z * list byte).

Definition TransProxyPackBytes (libc : Z -> bool) (inData : list byte) (sessionKey : option Key)
    (flag sq : Z) : Z * option (list byte) :=
  match sessionKey with
  | None => (SOFTBUS_INVALID_PARAM, None)
  | Some key =>
    let inLen := Z.of_nat (length inData) in
    let outLen := u32 (inLen + OVERHEAD_LEN + sizeof_PacketHead) in
    if negb (SoftBusCalloc libc outLen) then (SOFTBUS_MEM_ERR, None)
    else
      let '(ret, cipher) := SoftBusEncryptDataWithSeq key sq inData in
      if negb (ret =? SOFTBUS_OK)
         || negb (Z.of_nat (length cipher) =? u32 (inLen + OVERHEAD_LEN))
      then (SOFTBUS_TRANS_PROXY_SESS_ENCRYPT_ERR, None)
      else (SOFTBUS_OK,
            Some (TransPackPacketHead
                    (mkPacketHead MAGIC_NUMBER sq flag (s32 (outLen - sizeof_PacketHead)))
                  ++ cipher))
  end.

(** The loop that copies the elements; [tempLen] is not reduced as it goes.
    Returns the bytes and how many elements the cursor has moved past. *)
Fixpoint packElements (l : list TlvElement) (tempLen : Z) : option (list byte) * Z :=
  match l with
  | [] => (Some [], 0)
  | e :: l' =>
    let len := u8 (Z.of_nat (length (eValue e))) in
    if negb (memcpy_s tempLen 1) then (None, 0)
    else if negb (memcpy_s (tempLen - 1) 1) then (None, 0)
    else if negb (memcpy_s (tempLen - 2) len) then (None, 0)
    else
      let '(r, n) := packElements l' tempLen in
      ((fun r => le 1 (eType e) ++ le 1 len ++ take (Z.to_nat len) (eValue e) ++ r) <$> r, n + 1)
  end.

(** Returns the block and the head, whose cursor has moved past the elements. *)
Definition TransProxyPackTlvData (libc : Z -> bool) (h : DataHead) (tlvBufferSize dataLen : Z)
  : option (list byte) * DataHead :=
  let newDataHeadSize := u32 (MAGICNUM_SIZE + TLVCOUNT_SIZE + tlvBufferSize) in
  let bufLen := s32 (dataLen + newDataHeadSize) in
  if negb (SoftBusCalloc libc bufLen) then (None, h)
  else if negb (memcpy_s bufLen MAGICNUM_SIZE) then (None, h)
  else if negb (memcpy_s (bufLen - MAGICNUM_SIZE) TLVCOUNT_SIZE) then (None, h)
  else
    let tempLen := bufLen - MAGICNUM_SIZE - TLVCOUNT_SIZE in
    let todo := take (Z.to_nat (count h)) (drop (Z.to_nat (cursor h)) (elements h)) in
    let '(body, n) := packElements todo tempLen in
    let h' := mkDataHead (elements h) (count h) (cursor h + n) in
    match body with
    | None => (None, h')
    | Some body =>
      let written := le 4 MAGIC_NUMBER ++ le 1 (count h) ++ body in
      (Some (written ++ replicate (Z.to_nat bufLen - length written) Byte.x00), h')
    end.

(** The allocations of a TLV head, by number. *)
Definition ProxyBuildTlvDataHead (libc : nat -> Z -> bool) (finalSeq flag dataLen : Z)
  : Z * option (DataHead * Z) :=
  if negb (SoftBusCalloc (libc 0%nat) (PROXY_TLV_ELEMENT * sizeof_TlvElement))
  then (SOFTBUS_MALLOC_ERR, None)
  else
    let h0 := mkDataHead [] 0 0 in
    let '(r1, h1, s1) := TransAssembleTlvData (libc 1%nat) h0 TLV_TYPE_INNER_SEQ (le 4 finalSeq) 0 in
    if negb (r1 =? SOFTBUS_OK) then (r1, None)
    else
      let '(r2, h2, s2) := TransAssembleTlvData (libc 2%nat) h1 TLV_TYPE_FLAG (le 4 flag) s1 in
      if negb (r2 =? SOFTBUS_OK) then (r2, None)
      else
        let '(r3, h3, s3) := TransAssembleTlvData (libc 3%nat) h2 TLV_TYPE_DATA_LEN (le 4 dataLen) s2 in
        if negb (r3 =? SOFTBUS_OK) then (r3, None)
        else (SOFTBUS_OK, Some (h3, s3)).

(** Adds the last two elements and moves the cursor back to the first. *)
Definition ProxyBuildNeedAckTlvData (libc : nat -> Z -> bool) (h : DataHead) (ack : bool)
    (dataSeqs size : Z) : Z * option (DataHead * Z) :=
  let '(r1, h1, s1) := TransAssembleTlvData (libc 4%nat) h TLV_TYPE_NEED_ACK
                         (le 1 (if ack then 1 else 0)) size in
  if negb (r1 =? SOFTBUS_OK) then (r1, None)
  else
    let '(r2, h2, s2) := TransAssembleTlvData (libc 5%nat) h1 TLV_TYPE_DATA_SEQ (le 4 dataSeqs) s1 in
    if negb (r2 =? SOFTBUS_OK) then (r2, None)
    else (SOFTBUS_OK, Some (mkDataHead (elements h2) (count h2) (cursor h2 - PROXY_TLV_ELEMENT), s2)).

(** Code, [outData] ([None] for NULL), and the first element that
    [ReleaseTlvValueBuffer] touched, if it was called. *)
Definition TransProxyPackTlvBytes (libc : nat -> Z -> bool) (inData : list byte)
    (sessionKey : option Key) (flag sq : Z) (ack : bool) (dataSeq : Z)
  : Z * option (list byte) * option Z :=
  match sessionKey with
  | None => (SOFTBUS_INVALID_PARAM, None, None)
  | Some key =>
    let inLen := Z.of_nat (length inData) in
    let dataLen := u32 (inLen + OVERHEAD_LEN) in
    match ProxyBuildTlvDataHead libc sq flag dataLen with
    | (ret, None) => (ret, None, None)
    | (_, Some (h, s)) =>
      match ProxyBuildNeedAckTlvData libc h ack dataSeq s with
      | (ret, None) => (ret, None, None)
      | (ret, Some (h2, tlvBufferSize)) =>
        match TransProxyPackTlvData (libc 6%nat) h2 tlvBufferSize dataLen with
        | (None, h3) => (ret, None, Some (ReleaseTlvValueBuffer h3).1)
        | (Some out, h3) =>
          let rel := Some (ReleaseTlvValueBuffer h3).1 in
          let newDataHeadSize := s32 (MAGICNUM_SIZE + TLVCOUNT_SIZE + tlvBufferSize) in
          let '(eret, cipher) := SoftBusEncryptDataWithSeq key sq inData in
          if negb (eret =? SOFTBUS_OK)
             || negb (Z.of_nat (length cipher) =? u32 (inLen + OVERHEAD_LEN))
          then (SOFTBUS_TRANS_PROXY_SESS_ENCRYPT_ERR, None, rel)
          else (SOFTBUS_OK, Some (take (Z.to_nat newDataHeadSize) out ++ cipher), rel)
        end
      end
    end
  end.

(** ** Decryption and limits *)

(** The ciphertext starts at [data]; the plaintext and its length. *)
Definition TransProxyDecryptPacketData (sq : Z) (inData : list byte) (sessionKey : option Key)
  : Z * list byte :=
  match sessionKey with
  | None => (SOFTBUS_INVALID_PARAM, [])
  | Some key =>
    let '(ret, plain) := SoftBusDecryptDataWithSeq key sq inData in
    if negb (ret =? SOFTBUS_OK) then (SOFTBUS_DECRYPT_ERR, [])
    else (SOFTBUS_OK, plain)
  end.

End Crypto.

(** Checks the length and allocates the output; the input slice on success. *)
Definition TransProxyProcessSessionData (libc : Z -> bool) (hDataLen : Z) (data : list byte)
  : Z * option (list byte) :=
  if hDataLen <=? OVERHEAD_LEN then (SOFTBUS_TRANS_INVALID_DATA_LENGTH, None)
  else if negb (SoftBusCalloc libc (u32 (hDataLen - OVERHEAD_LEN))) then (SOFTBUS_MALLOC_ERR, None)
  else (SOFTBUS_OK, Some (take (Z.to_nat hDataLen) data)).

(** The TLV variant has the same text on the unpacked TLV head. *)
Definition TransProxyProcData (libc : Z -> bool) (h : TlvHeadValues) (data : list byte)
  : Z * option (list byte) :=
  TransProxyProcessSessionData libc (vDataLen h) data.

Definition TransProxySessionDataLenCheck (cfg : Config) (len type : Z) : Z :=
  if (type =? TRANS_SESSION_MESSAGE) || (type =? TRANS_SESSION_ASYNC_MESSAGE) then
    if g_proxyMaxMessageBufSize cfg <? len then SOFTBUS_TRANS_INVALID_DATA_LENGTH else SOFTBUS_OK
  else if type =? TRANS_SESSION_BYTES then
    if g_proxyMaxByteBufSize cfg <? len then SOFTBUS_TRANS_INVALID_DATA_LENGTH else SOFTBUS_OK
  else SOFTBUS_OK.

Definition TransProxyD2dDataLenCheck (cfg : Config) (len type : Z) : Z :=
  if type =? BUSINESS_TYPE_D2D_VOICE then
    if g_proxyMaxD2dVoiceBufSize cfg <? len then SOFTBUS_TRANS_INVALID_DATA_LENGTH else SOFTBUS_OK
  else if type =? BUSINESS_TYPE_D2D_MESSAGE then
    if g_proxyMaxD2dMessageBufSize cfg <? len then SOFTBUS_TRANS_INVALID_DATA_LENGTH else SOFTBUS_OK
  else SOFTBUS_OK.

(** ** Slices *)

Definition SessionPktTypeToProxyIndex (packetType : Z) : Z :=
  if (packetType =? TRANS_SESSION_MESSAGE) || (packetType =? TRANS_SESSION_ASYNC_MESSAGE)
     || (packetType =? TRANS_SESSION_ACK)
  then PROXY_CHANNEL_PRIORITY_MESSAGE
  else if packetType =? TRANS_SESSION_BYTES then PROXY_CHANNEL_PRIORITY_BYTES
  else PROXY_CHANNEL_PRIORITY_FILE.

(** The slice and [*dataLen]. *)
Definition packSlice (unit : Z) (libc : Z -> bool) (outData : list byte) (num pktType cnt : Z)
  : option (list byte * Z) :=
  let outLen := Z.of_nat (length outData) in
  let len := if cnt =? u32 (num - 1) then u32 (outLen - cnt * unit) else unit in
  let offset := s32 (cnt * unit) in
  if negb (SoftBusCalloc libc (u32 (len + sizeof_SliceHead))) then None
  else
    let head := TransPackSliceHead
      (mkSliceHead (SessionPktTypeToProxyIndex pktType) (s32 num) (s32 cnt) 0) in
    if negb (memcpy_s len len) then None
    else Some (head ++ take (Z.to_nat len) (drop (Z.to_nat offset) outData), len).

Definition TransProxyPackData := packSlice SLICE_LEN.

Definition TransProxyPackD2DData (libc : Z -> bool) (outData : list byte) (num pktType cnt : Z)
  : option (list byte * Z) :=
  if num =? 0 then None else packSlice SHORT_SLICE_LEN libc outData num pktType cnt.

(** The short head has 16-bit fields; the lengths are 16-bit too. *)
Definition TransProxyPackNewHeadD2DData (libc : Z -> bool) (outData : list byte) (num cnt : Z)
  : option (list byte * Z) :=
  if num =? 0 then None
  else
    let outLen := Z.of_nat (length outData) in
    let len := u16 (if cnt =? num - 1 then outLen - cnt * SHORT_SLICE_LEN else SHORT_SLICE_LEN) in
    let offset := cnt * SHORT_SLICE_LEN in
    if negb (SoftBusCalloc libc (len + sizeof_D2dSliceHead)) then None
    else if negb (memcpy_s len len) then None
    else Some (le 2 num ++ le 2 cnt ++ take (Z.to_nat len) (drop (Z.to_nat offset) outData), len).

Definition TransProxyCheckSliceHead (head : option SliceHead) : Z :=
  match head with
  | None => SOFTBUS_INVALID_PARAM
  | Some h =>
    if (priority h <? 0) || (PROXY_CHANNEL_PRIORITY_BUTT <=? priority h)
    then SOFTBUS_INVALID_DATA_HEAD
    else if negb (sliceNum h =? 1) && (sliceNum h <=? sliceSeq h) then SOFTBUS_INVALID_DATA_HEAD
    else SOFTBUS_OK
  end.

(** [data] is the filled part of the block ([dataLen] bytes of [bufLen]). *)
Record SliceProcessor := mkProc {
  active : bool;
  timeout : Z;
  sliceNumber : Z;
  expectedSeq : Z;
  pDataLen : Z;
  bufLen : Z;
  pdata : option (list byte)
}.

Definition TransProxyClearProcessor (p : SliceProcessor) : SliceProcessor :=
  mkProc false 0 0 0 0 0 None.

(** Common to the three first-slice handlers: the limit on the number of slices,
    the allocation, the copy. *)
Definition firstSlice (limit unit extra : Z) (libc : Z -> bool) (p : SliceProcessor)
    (h : SliceHead) (data : list byte) : Z * SliceProcessor :=
  let len := Z.of_nat (length data) in
  let maxDataLen := u32 (limit + unit) in
  if (sliceNum h <? 0) || (maxDataLen / unit <? sliceNum h)
  then (SOFTBUS_INVALID_DATA_HEAD, p)
  else
    let maxLen := u32 (u32 (sliceNum h * unit) + extra) in
    if negb (SoftBusCalloc libc maxLen)
    then (SOFTBUS_MALLOC_ERR,
          mkProc (active p) (timeout p) (sliceNumber p) (expectedSeq p) (pDataLen p) (bufLen p) None)
    else if negb (memcpy_s maxLen len)
    then (SOFTBUS_MEM_ERR,
          mkProc (active p) (timeout p) (sliceNumber p) (expectedSeq p) (pDataLen p) (s32 maxLen) None)
    else (SOFTBUS_OK, mkProc true 0 (sliceNum h) 1 (s32 len) (s32 maxLen) (Some data)).

Definition TransProxyFirstSliceProcess (cfg : Config) (libc : Z -> bool) (p : SliceProcessor)
    (h : SliceHead) (data : list byte) (supportTlv : bool) : Z * SliceProcessor :=
  firstSlice (if priority h =? PROXY_CHANNEL_PRIORITY_MESSAGE
              then g_proxyMaxMessageBufSize cfg else g_proxyMaxByteBufSize cfg)
    SLICE_LEN
    ((if supportTlv then PROXY_TLV_PKT_HEAD else sizeof_PacketHead) + OVERHEAD_LEN) libc p h data.

Definition TransProxyD2DFirstNewHeadSliceProcess (cfg : Config) (libc : Z -> bool)
    (p : SliceProcessor) (h : SliceHead) (data : list byte) (businessType : Z) : Z * SliceProcessor :=
  firstSlice (if priority h =? PROXY_CHANNEL_PRIORITY_MESSAGE
              then g_proxyMaxD2dMessageBufSize cfg else g_proxyMaxD2dVoiceBufSize cfg)
    SHORT_SLICE_LEN
    (if businessType =? BUSINESS_TYPE_D2D_MESSAGE then sizeof_PacketD2DNewHead + SHORT_TAG_LEN
     else sizeof_PacketD2DNewHead) libc p h data.

Definition TransProxyD2DFirstSliceProcess (cfg : Config) (libc : Z -> bool)
    (p : SliceProcessor) (h : SliceHead) (data : list byte) (businessType : Z) : Z * SliceProcessor :=
  firstSlice (if priority h =? PROXY_CHANNEL_PRIORITY_MESSAGE
              then g_proxyMaxMessageBufSize cfg else g_proxyMaxByteBufSize cfg)
    SHORT_SLICE_LEN
    (if businessType =? BUSINESS_TYPE_D2D_MESSAGE then sizeof_PacketD2DHead + SHORT_TAG_LEN
     else sizeof_PacketD2DHead) libc p h data.

Definition TransProxySliceProcessChkPkgIsValid (p : SliceProcessor) (h : SliceHead)
    (data : list byte) : Z :=
  let len := Z.of_nat (length data) in
  if len <=? 0 then SOFTBUS_INVALID_PARAM
  else if negb (sliceNum h =? sliceNumber p) || negb (sliceSeq h =? expectedSeq p)
  then SOFTBUS_TRANS_PROXY_ASSEMBLE_PACK_NO_INVALID
  else if (bufLen p <? pDataLen p) || (s32 (bufLen p - pDataLen p) <? s32 len)
  then SOFTBUS_TRANS_PROXY_ASSEMBLE_PACK_EXCEED_LENGTH
  else if bool_decide (pdata p = None) then SOFTBUS_TRANS_PROXY_ASSEMBLE_PACK_DATA_NULL
  else SOFTBUS_OK.

Definition TransGetActualDataLen (cfg : Config) (h : SliceHead) : Z * Z :=
  let maxDataLen := u32 ((if priority h =? PROXY_CHANNEL_PRIORITY_MESSAGE
    then g_proxyMaxMessageBufSize cfg else g_proxyMaxByteBufSize cfg) + SLICE_LEN) in
  if (sliceNum h <? 0) || (maxDataLen / SLICE_LEN <? sliceNum h)
  then (SOFTBUS_INVALID_DATA_HEAD, 0)
  else (SOFTBUS_OK, u32 (sliceNum h * SLICE_LEN)).

Definition TransProxyNormalSliceProcess (p : SliceProcessor) (h : SliceHead) (data : list byte)
  : Z * SliceProcessor :=
  let len := Z.of_nat (length data) in
  let ret := TransProxySliceProcessChkPkgIsValid p h data in
  if negb (ret =? SOFTBUS_OK) then (ret, p)
  else if negb (memcpy_s (u32 (bufLen p - pDataLen p)) len) then (SOFTBUS_MEM_ERR, p)
  else (SOFTBUS_OK,
        mkProc (active p) 0 (sliceNumber p) (s32 (expectedSeq p + 1)) (s32 (pDataLen p + s32 len))
          (bufLen p) ((fun d => d ++ data) <$> pdata p)).

(** ** Packets without slices *)

Definition TransProxyNoSubPacketProc (data : list byte) : Z * option PacketHead :=
  let len := Z.of_nat (length data) in
  if len <=? sizeof_PacketHead then (SOFTBUS_INVALID_PARAM, None)
  else
    let h := TransUnPackPacketHead data in
    if negb (u32 (magicNumber h) =? MAGIC_NUMBER) then (SOFTBUS_INVALID_DATA_HEAD, None)
    else if dataLen h <=? 0 then (SOFTBUS_INVALID_DATA_HEAD, None)
    else if negb (dataLen h =? s32 (len - sizeof_PacketHead))
    then (SOFTBUS_TRANS_INVALID_DATA_LENGTH, None)
    else (SOFTBUS_OK, Some h).

(** Copying [new] over the start of a field; [None] when it does not fit. *)
Definition overwrite (old new : list byte) : option (list byte) :=
  if memcpy_s (Z.of_nat (length old)) (Z.of_nat (length new))
  then Some (new ++ drop (length new) old) else None.

(** Stores one element; unknown types are skipped. *)
Definition storeTlv (h : DataHeadTlvPacketHead) (ty : Z) (v : list byte)
  : option DataHeadTlvPacketHead :=
  if ty =? TLV_TYPE_INNER_SEQ then
    (fun x => mkTlvHead (tMagic h) (tlvCount h) x (tDataSeq h) (tFlags h) (tDataLen h) (needAck h))
      <$> overwrite (tSeq h) v
  else if ty =? TLV_TYPE_DATA_SEQ then
    (fun x => mkTlvHead (tMagic h) (tlvCount h) (tSeq h) x (tFlags h) (tDataLen h) (needAck h))
      <$> overwrite (tDataSeq h) v
  else if ty =? TLV_TYPE_FLAG then
    (fun x => mkTlvHead (tMagic h) (tlvCount h) (tSeq h) (tDataSeq h) x (tDataLen h) (needAck h))
      <$> overwrite (tFlags h) v
  else if ty =? TLV_TYPE_NEED_ACK then
    (fun x => mkTlvHead (tMagic h) (tlvCount h) (tSeq h) (tDataSeq h) (tFlags h) (tDataLen h) x)
      <$> overwrite (needAck h) v
  else if ty =? TLV_TYPE_DATA_LEN then
    (fun x => mkTlvHead (tMagic h) (tlvCount h) (tSeq h) (tDataSeq h) (tFlags h) x (needAck h))
      <$> overwrite (tDataLen h) v
  else Some h.

(** The loop over the elements; [temp] is the rest of the data. *)
Fixpoint parseElements (n : nat) (len headSize : Z) (temp : list byte) (h : DataHeadTlvPacketHead)
  : Z * DataHeadTlvPacketHead * Z :=
  match n with
  | O => (SOFTBUS_OK, h, headSize)
  | S n' =>
    if len <? headSize + TLV_TYPE_AND_LENGTH then (SOFTBUS_DATA_NOT_ENOUGH, h, headSize)
    else
      let ty := unle (take 1 temp) in
      let length := unle (take 1 (drop 1 temp)) in
      if len <? headSize + TLV_TYPE_AND_LENGTH + length then (SOFTBUS_DATA_NOT_ENOUGH, h, headSize)
      else
        let temp := drop 2 temp in
        let headSize' := u32 (headSize + (TLV_TYPE_AND_LENGTH + length)) in
        match storeTlv h ty (take (Z.to_nat length) temp) with
        | None => (SOFTBUS_MEM_ERR, h, headSize')
        | Some h' => parseElements n' len headSize' (drop (Z.to_nat length) temp) h'
        end
  end.

(** Length check and the two fixed fields. *)
Definition CheckLenAndCopyData (data : list byte) (head : DataHeadTlvPacketHead) (headSize : Z)
  : Z * DataHeadTlvPacketHead :=
  if Z.of_nat (length data) <=? headSize then (SOFTBUS_DATA_NOT_ENOUGH, head)
  else (SOFTBUS_OK, mkTlvHead (take 4 data) (unle (take 1 (drop 4 data))) (tSeq head) (tDataSeq head)
                      (tFlags head) (tDataLen head) (needAck head)).

(** [head] is what the caller's struct holds before, [hs] its [*headSize]. *)
Definition TransProxyParseTlv (data : list byte) (head : DataHeadTlvPacketHead) (hs : Z)
  : Z * DataHeadTlvPacketHead * Z :=
  let headSize := u32 (hs + (MAGICNUM_SIZE + TLVCOUNT_SIZE)) in
  let '(res, h) := CheckLenAndCopyData data head headSize in
  if negb (res =? SOFTBUS_OK) then (res, h, headSize)
  else parseElements (Z.to_nat (tlvCount h)) (Z.of_nat (length data)) headSize (drop 5 data) h.

Definition TransProxyNoSubPacketTlvProc (len : Z) (pktHead : DataHeadTlvPacketHead)
    (newPktHeadSize : Z) : Z * TlvHeadValues :=
  let h := TransUnPackTlvPackHead pktHead in
  if negb (vMagic h =? MAGIC_NUMBER) then (SOFTBUS_INVALID_DATA_HEAD, h)
  else if vDataLen h =? 0 then (SOFTBUS_TRANS_INVALID_DATA_LENGTH, h)
  else if (len <=? newPktHeadSize) || negb (vDataLen h =? u32 (len - newPktHeadSize))
  then (SOFTBUS_TRANS_INVALID_DATA_LENGTH, h)
  else (SOFTBUS_OK, h).

(** Length rules of a D2D packet; the ciphertext on success. *)
Definition TransProxyProcessD2DData (libc : Z -> bool) (hDataLen businessType : Z) (data : list byte)
  : Z * option (list byte * Z) :=
  if businessType =? BUSINESS_TYPE_D2D_MESSAGE then
    if hDataLen <=? SHORT_TAG_LEN then (SOFTBUS_TRANS_INVALID_DATA_LENGTH, None)
    else if negb (SoftBusCalloc libc (hDataLen - SHORT_TAG_LEN)) then (SOFTBUS_MALLOC_ERR, None)
    else (SOFTBUS_OK, Some (take (Z.to_nat hDataLen) data, hDataLen - SHORT_TAG_LEN))
  else
    if hDataLen <=? 0 then (SOFTBUS_TRANS_INVALID_DATA_LENGTH, None)
    else if negb (SoftBusCalloc libc hDataLen) then (SOFTBUS_MALLOC_ERR, None)
    else (SOFTBUS_OK, Some (take (Z.to_nat hDataLen) data, hDataLen)).

(** ** D2D packets

    The nonce is the four random bytes in memory, [NONCE_LEN] of which travel
    in front of the ciphertext. [SoftBusCalcHKDF] and the CTR cipher are
    parameters; [stack] is what the array [shortIv] holds before the copy. *)

Definition SHORT_SESSION_IV_LENGTH : Z := 4.
Definition SOFTBUS_GCM_SET_IV_FAIL : Z := SOFTBUS_PUBLIC_ERR_BASE + 67.
Definition SOFTBUS_GENERATE_RANDOM_ARRAY_FAIL : Z := SOFTBUS_PUBLIC_ERR_BASE + 83.
Definition SOFTBUS_CALC_HKDF_FAIL : Z := SOFTBUS_PUBLIC_ERR_BASE + 113.

Section D2D.
Context {Key : Type}.
Context (SoftBusCalcHKDF : list byte -> Z * list byte).
Context (SoftBusEncryptDataByCtr : Key -> list byte -> list byte -> Z * list byte).

Definition TransGenerateToBytesRandIv (stack nonce : list byte) : Z * list byte :=
  match overwrite stack (take (Z.to_nat NONCE_LEN) nonce) with
  | None => (SOFTBUS_MEM_ERR, [])
  | Some shortIv =>
    let '(r, iv) := SoftBusCalcHKDF shortIv in
    if negb (r =? SOFTBUS_OK) then (SOFTBUS_CALC_HKDF_FAIL, []) else (SOFTBUS_OK, iv)
  end.

(** [random] is the answer of the random generator. *)
Definition TransProxyGenerateIv (random : option (list byte)) (stack : list byte)
    (sessionKey : option Key) : Z * (list byte * list byte) :=
  match sessionKey with
  | None => (SOFTBUS_INVALID_PARAM, ([], []))
  | Some _ =>
    match random with
    | None => (SOFTBUS_GENERATE_RANDOM_ARRAY_FAIL, ([], []))
    | Some nonce =>
      let '(r, iv) := TransGenerateToBytesRandIv stack nonce in
      if negb (r =? SOFTBUS_OK) then (SOFTBUS_GCM_SET_IV_FAIL, (nonce, []))
      else (SOFTBUS_OK, (nonce, iv))
    end
  end.

(** Flags in one byte, a padding byte, a 16-bit length, the nonce. *)
Definition TransPackNewHeadD2DToBytesExtraData (flag outLen : Z) (nonce : list byte) : list byte :=
  le 1 flag ++ [Byte.x00]
  ++ le 2 (u16 (u16 outLen - sizeof_PacketD2DNewHead - NONCE_LEN)) ++ take (Z.to_nat NONCE_LEN) nonce.

Definition TransPackD2DToBytesExtraData (flag outLen : Z) (nonce : list byte) : list byte :=
  le 4 flag ++ le 4 (s32 (outLen - sizeof_PacketD2DHead - NONCE_LEN))
  ++ take (Z.to_nat NONCE_LEN) nonce.

Definition TransProxyPackD2DBytes (libc : Z -> bool) (random : option (list byte))
    (stack : list byte) (inData : list byte) (sessionKey : option Key) (flag : Z) (isNewHead : bool)
  : Z * option (list byte) :=
  match sessionKey with
  | None => (SOFTBUS_INVALID_PARAM, None)
  | Some key =>
    let '(r, (nonce, iv)) := TransProxyGenerateIv random stack (Some key) in
    if negb (r =? SOFTBUS_OK) then (r, None)
    else
      let inLen := Z.of_nat (length inData) in
      let headSize := if isNewHead then sizeof_PacketD2DNewHead else sizeof_PacketD2DHead in
      let outLen := u32 (inLen + NONCE_LEN + headSize) in
      if negb (SoftBusCalloc libc outLen) then (SOFTBUS_MALLOC_ERR, None)
      else
        let '(ret, cipher) := SoftBusEncryptDataByCtr key iv inData in
        if negb (ret =? SOFTBUS_OK) || negb (Z.of_nat (length cipher) =? inLen)
        then (SOFTBUS_TRANS_PROXY_SESS_ENCRYPT_ERR, None)
        else
          let head := if isNewHead then TransPackNewHeadD2DToBytesExtraData flag outLen nonce
                      else TransPackD2DToBytesExtraData flag outLen nonce in
          (SOFTBUS_OK, Some (head ++ cipher))
  end.

End D2D.

(** ** Heads come back *)

Lemma take4_le (pre post : list byte) z n :
  length pre = n -> take 4 (drop n (pre ++ le 4 z ++ post)) = le 4 z.
Proof.
  intros <-. rewrite drop_app_length. rewrite <- (length_le 4 z) at 1. apply take_app_length.
Qed.

(** Four signed fields in a row. *)
Lemma four_fields a b c d p :
  in_s32 a -> in_s32 b -> in_s32 c -> in_s32 d ->
  let l := (le 4 a ++ le 4 b ++ le 4 c ++ le 4 d) ++ p in
  field l 0 = a /\ field l 4 = b /\ field l 8 = c /\ field l 12 = d.
Proof.
  intros Ha Hb Hc Hd l. unfold l, field. rewrite <- !app_assoc.
  assert (Hu : forall z, in_s32 z -> s32 (unle (le 4 z)) = z)
    by (intros z Hz; rewrite unle_le_u32, s32_u32; now apply s32_small).
  rewrite (take4_le [] _ a 0 eq_refl : take 4 (drop 0 (le 4 a ++ _)) = _).
  rewrite (take4_le (le 4 a) _ b 4) by apply length_le.
  rewrite (app_assoc (le 4 a)), (take4_le _ _ c 8) by (rewrite length_app, !length_le; reflexivity).
  rewrite (app_assoc _ (le 4 c)), (take4_le _ _ d 12) by (rewrite !length_app, !length_le; reflexivity).
  rewrite !Hu by assumption. auto.
Qed.

Lemma TransUnPackSliceHead_pack h p :
  in_s32 (priority h) -> in_s32 (sliceNum h) -> in_s32 (sliceSeq h) -> in_s32 (reserved h) ->
  TransUnPackSliceHead (TransPackSliceHead h ++ p) = h.
Proof.
  intros H1 H2 H3 H4. unfold TransUnPackSliceHead, TransPackSliceHead.
  destruct (four_fields _ _ _ _ p H1 H2 H3 H4) as (-> & -> & -> & ->). now destruct h.
Qed.

Lemma length_TransPackSliceHead h : length (TransPackSliceHead h) = 16%nat.
Proof. unfold TransPackSliceHead. now rewrite !length_app, !length_le. Qed.

Lemma length_TransPackPacketHead h : length (TransPackPacketHead h) = 16%nat.
Proof. unfold TransPackPacketHead. now rewrite !length_app, !length_le. Qed.

(** The magic number does not fit a signed field, its image is what counts. *)
Lemma TransUnPackPacketHead_pack sq fl dl p :
  in_s32 sq -> in_s32 fl -> in_s32 dl ->
  TransUnPackPacketHead (TransPackPacketHead (mkPacketHead MAGIC_NUMBER sq fl dl) ++ p)
  = mkPacketHead (s32 MAGIC_NUMBER) sq fl dl.
Proof.
  intros H2 H3 H4. unfold TransUnPackPacketHead, TransPackPacketHead. cbn [magicNumber seq flags dataLen].
  change (le 4 MAGIC_NUMBER) with (le 4 (s32 MAGIC_NUMBER)).
  destruct (four_fields (s32 MAGIC_NUMBER) _ _ _ p (s32_range _) H2 H3 H4) as (-> & -> & -> & ->).
  reflexivity.
Qed.

(** ** TLV heads *)

Lemma parseElements_step n len hs ty v rest h h' :
  in_u8 ty -> Z.of_nat (length v) < 256 -> 0 <= hs ->
  hs + 2 + Z.of_nat (length v) <= len -> len <= MAX_MALLOC_SIZE -> storeTlv h ty v = Some h' ->
  parseElements (S n) len hs (le 1 ty ++ le 1 (Z.of_nat (length v)) ++ v ++ rest) h =
  parseElements n len (hs + 2 + Z.of_nat (length v)) rest h'.
Proof.
  intros Hty Hv Hhs Hlen Hmax Hst. cbn [parseElements]. unfold TLV_TYPE_AND_LENGTH, MAX_MALLOC_SIZE in *.
  destruct (Z.ltb_spec len (hs + 2)); [lia|].
  assert (E1 : unle (take 1 (le 1 ty ++ le 1 (Z.of_nat (length v)) ++ v ++ rest)) = ty).
  { rewrite <- (length_le 1 ty) at 1. rewrite take_app_length, unle_le_u8. now apply u8_small. }
  assert (E2 : unle (take 1 (drop 1 (le 1 ty ++ le 1 (Z.of_nat (length v)) ++ v ++ rest)))
               = Z.of_nat (length v)).
  { rewrite <- (length_le 1 ty) at 2. rewrite drop_app_length.
    rewrite <- (length_le 1 (Z.of_nat (length v))) at 1.
    rewrite take_app_length, unle_le_u8. apply u8_small. unfold in_u8. lia. }
  assert (E3 : drop 2 (le 1 ty ++ le 1 (Z.of_nat (length v)) ++ v ++ rest) = v ++ rest)
    by reflexivity.
  rewrite E1, E2, E3. destruct (Z.ltb_spec len (hs + 2 + Z.of_nat (length v))); [lia|].
  rewrite Nat2Z.id, take_app_length, Hst, drop_app_length.
  rewrite u32_small by (unfold in_u32; lia). f_equal. lia.
Qed.

(** The 32 bytes in front of the ciphertext. *)
Definition tlvHead (sq flag dLen : Z) (ack : bool) (dSeq : Z) : list byte :=
  le 4 MAGIC_NUMBER ++ le 1 5 ++
  (le 1 TLV_TYPE_INNER_SEQ ++ le 1 4 ++ le 4 sq) ++
  (le 1 TLV_TYPE_FLAG ++ le 1 4 ++ le 4 flag) ++
  (le 1 TLV_TYPE_DATA_LEN ++ le 1 4 ++ le 4 dLen) ++
  (le 1 TLV_TYPE_NEED_ACK ++ le 1 1 ++ le 1 (if ack then 1 else 0)) ++
  (le 1 TLV_TYPE_DATA_SEQ ++ le 1 4 ++ le 4 dSeq).

Lemma length_tlvHead sq flag dLen ack dSeq : length (tlvHead sq flag dLen ack dSeq) = 32%nat.
Proof. reflexivity. Qed.

Definition tlvHeadOK (h : DataHeadTlvPacketHead) : Prop :=
  length (tSeq h) = 4%nat /\ length (tDataSeq h) = 4%nat /\ length (tFlags h) = 4%nat /\
  length (tDataLen h) = 4%nat /\ length (needAck h) = 1%nat.

Lemma overwrite_same (old new : list byte) :
  length old = length new -> (0 < length old)%nat -> overwrite old new = Some new.
Proof.
  intros E H0. unfold overwrite.
  assert (Hc : memcpy_s (Z.of_nat (length old)) (Z.of_nat (length new)) = true)
    by (apply memcpy_s_spec; lia).
  now rewrite Hc, <- E, drop_all, app_nil_r.
Qed.

(** Parsing the head that packing produced, whatever the struct held before. *)
Lemma TransProxyParseTlv_head sq flag dLen ack dSeq cipher h :
  tlvHeadOK h -> Z.of_nat (32 + length cipher) <= MAX_MALLOC_SIZE ->
  TransProxyParseTlv (tlvHead sq flag dLen ack dSeq ++ cipher) h 0 =
  (SOFTBUS_OK,
   mkTlvHead (le 4 MAGIC_NUMBER) 5 (le 4 sq) (le 4 dSeq) (le 4 flag) (le 4 dLen)
     (le 1 (if ack then 1 else 0)), 32).
Proof.
  intros (H1 & H2 & H3 & H4 & H5) Hmax. unfold TransProxyParseTlv, CheckLenAndCopyData.
  change (u32 (0 + (MAGICNUM_SIZE + TLVCOUNT_SIZE))) with 5.
  rewrite length_app, length_tlvHead.
  destruct (Z.leb_spec (Z.of_nat (32 + length cipher)) 5); [lia|]. cbn [Z.eqb SOFTBUS_OK negb].
  set (len := Z.of_nat (32 + length cipher)) in *.
  assert (Hlen : 32 <= len) by lia. clearbody len.
  assert (Eb : drop 5 (tlvHead sq flag dLen ack dSeq ++ cipher) =
    le 1 TLV_TYPE_INNER_SEQ ++ le 1 4 ++ le 4 sq ++ le 1 TLV_TYPE_FLAG ++ le 1 4 ++ le 4 flag ++
    le 1 TLV_TYPE_DATA_LEN ++ le 1 4 ++ le 4 dLen ++
    le 1 TLV_TYPE_NEED_ACK ++ le 1 1 ++ le 1 (if ack then 1 else 0) ++
    le 1 TLV_TYPE_DATA_SEQ ++ le 1 4 ++ le 4 dSeq ++ cipher) by reflexivity.
  rewrite Eb. cbn [tlvCount].
  change (Z.to_nat (unle (take 1 (drop 4 (tlvHead sq flag dLen ack dSeq ++ cipher))))) with 5%nat.
  change (take 4 (tlvHead sq flag dLen ack dSeq ++ cipher)) with (le 4 MAGIC_NUMBER).
  change (unle (take 1 (drop 4 (tlvHead sq flag dLen ack dSeq ++ cipher)))) with 5.
  assert (Hsame : forall old new, length old = length new -> (0 < length old)%nat ->
                  overwrite old new = Some new) by exact overwrite_same.
  rewrite (parseElements_step _ len 5 TLV_TYPE_INNER_SEQ (le 4 sq)) with
    (h' := mkTlvHead (le 4 MAGIC_NUMBER) 5 (le 4 sq) (tDataSeq h) (tFlags h) (tDataLen h) (needAck h));
    try (unfold in_u8, TLV_TYPE_INNER_SEQ; rewrite ?length_le; lia);
    [|unfold storeTlv; cbn; rewrite Hsame by (cbn; lia); reflexivity].
  rewrite (parseElements_step _ len _ TLV_TYPE_FLAG (le 4 flag)) with
    (h' := mkTlvHead (le 4 MAGIC_NUMBER) 5 (le 4 sq) (tDataSeq h) (le 4 flag) (tDataLen h) (needAck h));
    try (unfold in_u8, TLV_TYPE_FLAG; rewrite ?length_le; lia);
    [|unfold storeTlv; cbn; rewrite Hsame by (cbn; lia); reflexivity].
  rewrite (parseElements_step _ len _ TLV_TYPE_DATA_LEN (le 4 dLen)) with
    (h' := mkTlvHead (le 4 MAGIC_NUMBER) 5 (le 4 sq) (tDataSeq h) (le 4 flag) (le 4 dLen) (needAck h));
    try (unfold in_u8, TLV_TYPE_DATA_LEN; rewrite ?length_le; lia);
    [|unfold storeTlv; cbn; rewrite Hsame by (cbn; lia); reflexivity].
  rewrite (parseElements_step _ len _ TLV_TYPE_NEED_ACK (le 1 (if ack then 1 else 0))) with
    (h' := mkTlvHead (le 4 MAGIC_NUMBER) 5 (le 4 sq) (tDataSeq h) (le 4 flag) (le 4 dLen)
             (le 1 (if ack then 1 else 0)));
    try (unfold in_u8, TLV_TYPE_NEED_ACK; rewrite ?length_le; lia);
    [|unfold storeTlv; cbn; rewrite Hsame by (cbn; lia); reflexivity].
  rewrite (parseElements_step _ len _ TLV_TYPE_DATA_SEQ (le 4 dSeq)) with
    (h' := mkTlvHead (le 4 MAGIC_NUMBER) 5 (le 4 sq) (le 4 dSeq) (le 4 flag) (le 4 dLen)
             (le 1 (if ack then 1 else 0)));
    try (unfold in_u8, TLV_TYPE_DATA_SEQ; rewrite ?length_le; lia);
    [|unfold storeTlv; cbn; rewrite Hsame by (cbn; lia); reflexivity].
  reflexivity.
Qed.

(** *** Heads that have not arrived completely *)

Definition recordBytes (r : Z * list byte) : list byte :=
  le 1 r.1 ++ le 1 (Z.of_nat (length r.2)) ++ r.2.

(** A record that fits its field. *)
Definition recordOK (r : Z * list byte) : Prop :=
  in_u8 r.1 /\ Z.of_nat (length r.2) < 256 /\
  forall h, tlvHeadOK h -> exists h', storeTlv h r.1 r.2 = Some h' /\ tlvHeadOK h'.

Lemma length_recordBytes r : length (recordBytes r) = (2 + length r.2)%nat.
Proof. unfold recordBytes. rewrite !length_app, !length_le. lia. Qed.

Lemma parseElements_cut n hs r rest k h :
  Z.of_nat (length r.2) < 256 -> (k < length (recordBytes r))%nat ->
  parseElements (S n) (hs + Z.of_nat k) hs (take k (recordBytes r ++ rest)) h = (SOFTBUS_DATA_NOT_ENOUGH, h, hs).
Proof.
  intros Hv Hk. rewrite length_recordBytes in Hk. cbn [parseElements]. unfold TLV_TYPE_AND_LENGTH.
  destruct (Z.ltb_spec (hs + Z.of_nat k) (hs + 2)); [reflexivity|].
  assert (E : take 1 (drop 1 (take k (recordBytes r ++ rest))) = le 1 (Z.of_nat (length r.2))).
  { rewrite skipn_firstn_comm, take_take, Nat.min_l by lia. reflexivity. }
  rewrite E, unle_le_u8, u8_small by (unfold in_u8; lia).
  destruct (Z.ltb_spec (hs + Z.of_nat k) (hs + 2 + Z.of_nat (length r.2))); [reflexivity|lia].
Qed.

Lemma parseElements_short recs : forall k hs h,
  Forall recordOK recs -> tlvHeadOK h -> 0 <= hs -> hs + Z.of_nat k <= MAX_MALLOC_SIZE ->
  (k < length (concat (recordBytes <$> recs)))%nat ->
  exists h' hs', parseElements (length recs) (hs + Z.of_nat k) hs (take k (concat (recordBytes <$> recs))) h =
    (SOFTBUS_DATA_NOT_ENOUGH, h', hs').
Proof.
  induction recs as [|r recs IH]; intros k hs h Hr Hh H0 Hmax Hk; [cbn in Hk; lia|].
  apply Forall_cons_1 in Hr as [(Hty & Hv & Hst) Hr]. cbn [fmap list_fmap concat length] in *.
  destruct (Nat.lt_ge_cases k (length (recordBytes r))) as [Hlt|Hge].
  - rewrite parseElements_cut by assumption. eauto.
  - rewrite take_app_ge by assumption. rewrite length_app in Hk. pose proof (length_recordBytes r) as Hlr.
    destruct (Hst h Hh) as (h1 & Es & Hh1). unfold recordBytes at 1. rewrite <- !app_assoc.
    rewrite (parseElements_step _ _ hs r.1 r.2 _ h h1) by (assumption || lia).
    destruct (IH (k - length (recordBytes r))%nat (hs + 2 + Z.of_nat (length r.2)) h1) as (h' & hs' & E);
      [assumption|assumption|lia|lia|lia|].
    exists h', hs'. rewrite <- E. f_equal; lia.
Qed.

Definition headRecords (sq flag dLen : Z) (ack : bool) (dSeq : Z) : list (Z * list byte) :=
  [(TLV_TYPE_INNER_SEQ, le 4 sq); (TLV_TYPE_FLAG, le 4 flag); (TLV_TYPE_DATA_LEN, le 4 dLen);
   (TLV_TYPE_NEED_ACK, le 1 (if ack then 1 else 0)); (TLV_TYPE_DATA_SEQ, le 4 dSeq)].

Lemma headRecords_ok sq flag dLen ack dSeq : Forall recordOK (headRecords sq flag dLen ack dSeq).
Proof.
  unfold headRecords. repeat (apply Forall_cons_2); [..|constructor];
    (split; [unfold in_u8; cbn; vm_compute; split; congruence|]; cbn [fst snd]; rewrite length_le;
     split; [lia|]; intros h (H1 & H2 & H3 & H4 & H5); unfold storeTlv; cbn;
     rewrite overwrite_same by (rewrite ?length_le; cbn; lia);
     eexists; split; [reflexivity|]; unfold tlvHeadOK; cbn; auto).
Qed.

(** A head that was cut is not enough, at whichever byte. *)
Lemma TransProxyParseTlv_short sq flag dLen ack dSeq h k :
  tlvHeadOK h -> (0 < k < 32)%nat ->
  exists h' hs, TransProxyParseTlv (take k (tlvHead sq flag dLen ack dSeq)) h 0 =
    (SOFTBUS_DATA_NOT_ENOUGH, h', hs).
Proof.
  intros Hh Hk. unfold TransProxyParseTlv, CheckLenAndCopyData.
  change (u32 (0 + (MAGICNUM_SIZE + TLVCOUNT_SIZE))) with 5.
  rewrite length_take, length_tlvHead, Nat.min_l by lia.
  destruct (Z.leb_spec (Z.of_nat k) 5); [eauto|]. cbn [Z.eqb SOFTBUS_OK negb].
  destruct (Nat.le_exists_sub 5 k) as (j & -> & _); [lia|]. rewrite (Nat.add_comm j 5).
  change (take (5 + j) (tlvHead sq flag dLen ack dSeq)) with
    (le 4 MAGIC_NUMBER ++ le 1 5 ++ take j (concat (recordBytes <$> headRecords sq flag dLen ack dSeq))).
  set (body := take j _).
  change (take 4 (le 4 MAGIC_NUMBER ++ le 1 5 ++ body)) with (le 4 MAGIC_NUMBER).
  change (unle (take 1 (drop 4 (le 4 MAGIC_NUMBER ++ le 1 5 ++ body)))) with 5.
  change (drop 5 (le 4 MAGIC_NUMBER ++ le 1 5 ++ body)) with body. cbn [tlvCount].
  change (Z.to_nat 5) with (length (headRecords sq flag dLen ack dSeq)).
  replace (Z.of_nat (5 + j)) with (5 + Z.of_nat j) by lia.
  apply parseElements_short; [apply headRecords_ok|exact Hh|lia|unfold MAX_MALLOC_SIZE; lia|].
  change (length (concat (recordBytes <$> headRecords sq flag dLen ack dSeq))) with 27%nat. lia.
Qed.

(** ** What packing produces *)

Section Packing.
Context {Key : Type}.
Context (enc : Key -> Z -> list byte -> Z * list byte).

Lemma TransAssembleTlvData_ok libc h ty buf size :
  (forall z, libc z = true) -> (0 < length buf < 256)%nat ->
  TransAssembleTlvData libc h ty buf size =
  (SOFTBUS_OK, mkDataHead (elements h ++ [mkElement ty buf]) (u8 (count h + 1)) (cursor h + 1),
   s32 (size + (TLV_TYPE_AND_LENGTH + Z.of_nat (length buf)))).
Proof.
  intros Hl Hb. unfold TransAssembleTlvData. rewrite u8_small by (unfold in_u8; lia).
  destruct (Z.eqb_spec (Z.of_nat (length buf)) 0); [lia|].
  rewrite SoftBusCalloc_true by (unfold MAX_MALLOC_SIZE; auto with lia).
  assert (Hc : memcpy_s (Z.of_nat (length buf)) (Z.of_nat (length buf)) = true)
    by (apply memcpy_s_spec; lia).
  now rewrite Hc.
Qed.

Lemma TransProxyBuildTlv_ok libc sq flag dLen ack dSeq :
  (forall n z, libc n z = true) ->
  exists h s, ProxyBuildTlvDataHead libc sq flag dLen = (SOFTBUS_OK, Some (h, s)) /\
  ProxyBuildNeedAckTlvData libc h ack dSeq s =
  (SOFTBUS_OK, Some (mkDataHead
     [mkElement TLV_TYPE_INNER_SEQ (le 4 sq); mkElement TLV_TYPE_FLAG (le 4 flag);
      mkElement TLV_TYPE_DATA_LEN (le 4 dLen);
      mkElement TLV_TYPE_NEED_ACK (le 1 (if ack then 1 else 0));
      mkElement TLV_TYPE_DATA_SEQ (le 4 dSeq)] 5 0, 27)).
Proof.
  intros Hl. unfold ProxyBuildTlvDataHead, ProxyBuildNeedAckTlvData.
  rewrite SoftBusCalloc_true by (auto; vm_compute; split; congruence).
  cbn [negb]. rewrite !TransAssembleTlvData_ok by (rewrite ?length_le; auto with lia).
  cbn [negb Z.eqb SOFTBUS_OK]. eexists _, _. split; [reflexivity|].
  rewrite !TransAssembleTlvData_ok by (rewrite ?length_le; auto with lia). reflexivity.
Qed.

Lemma packElements_ok l tempLen :
  Forall (fun e => (length (eValue e) <= 8)%nat) l -> 10 <= tempLen ->
  packElements l tempLen =
  (Some (concat ((fun e => le 1 (eType e) ++ le 1 (Z.of_nat (length (eValue e))) ++ eValue e) <$> l)),
   Z.of_nat (length l)).
Proof.
  intros Hl Ht. induction Hl as [|e l He Hl IH]; [reflexivity|]. cbn [packElements].
  rewrite u8_small by (unfold in_u8; lia).
  assert (Hcp : forall a b, b <= 8 -> 8 <= a -> memcpy_s a b = true)
    by (intros; apply memcpy_s_spec; lia).
  rewrite !Hcp by lia. rewrite IH, Nat2Z.id, firstn_all. cbn [negb fmap option_fmap option_map].
  rewrite length_cons. apply f_equal2; [|lia]. cbn [list_fmap concat]. now rewrite <- !app_assoc.
Qed.

Lemma TransProxyPackTlvBytes_ok libc m key flag sq ack dSeq c :
  (forall n z, libc n z = true) -> Z.of_nat (length m) <= 4194304 ->
  enc key sq m = (SOFTBUS_OK, c) -> Z.of_nat (length c) = Z.of_nat (length m) + OVERHEAD_LEN ->
  TransProxyPackTlvBytes enc libc m (Some key) flag sq ack dSeq =
  (SOFTBUS_OK, Some (tlvHead sq flag (Z.of_nat (length m) + OVERHEAD_LEN) ack dSeq ++ c), Some 0).
Proof.
  intros Hl Hm He Hc. unfold TransProxyPackTlvBytes. change OVERHEAD_LEN with 28 in *.
  rewrite (u32_small (Z.of_nat (length m) + 28)) by (unfold in_u32; lia).
  destruct (TransProxyBuildTlv_ok libc sq flag (Z.of_nat (length m) + 28) ack dSeq Hl)
    as (h & s & -> & ->).
  unfold TransProxyPackTlvData. change (u32 (MAGICNUM_SIZE + TLVCOUNT_SIZE + 27)) with 32.
  rewrite (s32_small (Z.of_nat (length m) + 28 + 32)) by (unfold in_s32; lia).
  rewrite SoftBusCalloc_true by (auto; unfold MAX_MALLOC_SIZE; lia).
  assert (Hcp : forall a b, b <= 8 -> 8 <= a -> memcpy_s a b = true)
    by (intros; apply memcpy_s_spec; lia).
  rewrite !Hcp by (unfold MAGICNUM_SIZE, TLVCOUNT_SIZE; lia).
  cbn [negb count cursor elements].
  rewrite packElements_ok.
  2: { apply Forall_take, Forall_drop. repeat (constructor; [cbn [eValue]; rewrite length_le; lia|]). constructor. }
  2: { unfold MAGICNUM_SIZE, TLVCOUNT_SIZE. lia. }
  rewrite He, Hc, !Z.eqb_refl. cbn [negb orb Z.eqb SOFTBUS_OK].
  change (Z.to_nat (s32 (MAGICNUM_SIZE + TLVCOUNT_SIZE + 27))) with 32%nat. reflexivity.
Qed.

Lemma TransProxyPackBytes_ok libc m key flag sq c :
  (forall z, libc z = true) -> Z.of_nat (length m) <= 4194304 ->
  enc key sq m = (SOFTBUS_OK, c) -> Z.of_nat (length c) = Z.of_nat (length m) + OVERHEAD_LEN ->
  TransProxyPackBytes enc libc m (Some key) flag sq =
  (SOFTBUS_OK, Some (TransPackPacketHead
     (mkPacketHead MAGIC_NUMBER sq flag (Z.of_nat (length m) + OVERHEAD_LEN)) ++ c)).
Proof.
  intros Hl Hm He Hc. unfold TransProxyPackBytes. change OVERHEAD_LEN with 28 in *.
  unfold sizeof_PacketHead. rewrite !u32_small by (unfold in_u32; lia).
  rewrite SoftBusCalloc_true by (auto; unfold MAX_MALLOC_SIZE; lia).
  rewrite He, Hc, !Z.eqb_refl. cbn [negb orb Z.eqb SOFTBUS_OK].
  replace (Z.of_nat (length m) + 28 + 16 - 16) with (Z.of_nat (length m) + 28) by lia.
  now rewrite s32_small by (unfold in_s32; lia).
Qed.

(** When the block for the packet cannot be allocated, the function reports
    success with a NULL packet, and frees five elements in front of the array. *)
Theorem failed_packet_reported_as_success m key flag sq ack dSeq :
  TransProxyPackTlvBytes enc (fun n _ => negb (Nat.eqb n 6)) m (Some key) flag sq ack dSeq =
  (SOFTBUS_OK, None, Some (-5)).
Proof.
  unfold TransProxyPackTlvBytes, ProxyBuildTlvDataHead.
  rewrite SoftBusCalloc_true by (auto; vm_compute; split; congruence).
  cbn [negb]. rewrite !TransAssembleTlvData_ok by (rewrite ?length_le; auto with lia).
  cbn [negb Z.eqb SOFTBUS_OK]. unfold ProxyBuildNeedAckTlvData.
  rewrite !TransAssembleTlvData_ok by (rewrite ?length_le; auto with lia).
  cbn [negb Z.eqb SOFTBUS_OK]. unfold TransProxyPackTlvData, SoftBusCalloc, SoftBusMalloc.
  cbn [Nat.eqb negb]. destruct (MAX_MALLOC_SIZE <? _); reflexivity.
Qed.

End Packing.

(** ** Slices *)

(** The n-th piece of a packet. *)
Definition sliceOf (out : list byte) (n : nat) : list byte :=
  take (Z.to_nat SLICE_LEN) (drop (n * Z.to_nat SLICE_LEN) out).

Lemma sliceOf_extends out n :
  take (n * Z.to_nat SLICE_LEN) out ++ sliceOf out n = take (S n * Z.to_nat SLICE_LEN) out.
Proof. unfold sliceOf. rewrite take_take_drop. f_equal. lia. Qed.

Lemma length_sliceOf out n :
  Z.of_nat (length (sliceOf out n)) =
  Z.min SLICE_LEN (Z.max 0 (Z.of_nat (length out) - Z.of_nat n * SLICE_LEN)).
Proof. unfold sliceOf. rewrite length_take, length_drop. unfold SLICE_LEN. lia. Qed.

(** How many slices a packet needs. *)
Definition slicesOf (out : list byte) : Z := (Z.of_nat (length out) + (SLICE_LEN - 1)) / SLICE_LEN.

Lemma slicesOf_spec out :
  (slicesOf out - 1) * SLICE_LEN < Z.of_nat (length out) <= slicesOf out * SLICE_LEN.
Proof. unfold slicesOf, SLICE_LEN. Z.to_euclidean_division_equations. lia. Qed.

Lemma TransProxyPackData_ok libc out ty n :
  (forall z, libc z = true) -> Z.of_nat (length out) <= 268435456 -> Z.of_nat n < slicesOf out ->
  exists len, TransProxyPackData libc out (slicesOf out) ty (Z.of_nat n) =
  Some (TransPackSliceHead (mkSliceHead (SessionPktTypeToProxyIndex ty) (slicesOf out) (Z.of_nat n) 0)
        ++ sliceOf out n, len).
Proof.
  intros Hl Hmax Hn. pose proof (slicesOf_spec out) as Hs. unfold TransProxyPackData, packSlice.
  set (N := slicesOf out) in *. clearbody N.
  rewrite (u32_small (N - 1)) by (unfold in_u32, SLICE_LEN in *; lia).
  rewrite (u32_small (_ - _)) by (unfold in_u32, SLICE_LEN in *; lia).
  set (len := if Z.of_nat n =? N - 1 then _ else _).
  assert (Hlen : 0 < len <= SLICE_LEN /\
    len = Z.min SLICE_LEN (Z.max 0 (Z.of_nat (length out) - Z.of_nat n * SLICE_LEN))).
  { unfold len, SLICE_LEN in *. destruct (Z.eqb_spec (Z.of_nat n) (N - 1)) as [E|E]; lia. }
  destruct Hlen as [H1 H2]. rewrite <- length_sliceOf in H2. clearbody len.
  assert (Hb : 0 < len <= 4096) by (unfold SLICE_LEN in *; lia).
  rewrite u32_small by (unfold in_u32, sizeof_SliceHead; lia).
  rewrite SoftBusCalloc_true by (auto; unfold MAX_MALLOC_SIZE, sizeof_SliceHead; lia). cbn [negb].
  assert (Hc : memcpy_s len len = true) by (apply memcpy_s_spec; lia). rewrite Hc. cbn [negb].
  rewrite !s32_small by (unfold in_s32, SLICE_LEN in *; lia).
  exists len. do 3 f_equal. rewrite H2, Nat2Z.id. unfold sliceOf.
  rewrite Z2Nat.inj_mul, Nat2Z.id by (unfold SLICE_LEN; lia).
  set (d := drop _ out). rewrite length_take.
  destruct (Nat.le_ge_cases (Z.to_nat SLICE_LEN) (length d)).
  - now rewrite Nat.min_l.
  - rewrite Nat.min_r by assumption. now rewrite firstn_all, take_ge.
Qed.

(** The number of slices is within what the receiver takes when the limit
    leaves room for the heads in its last slice. *)
Definition roomFor (limit N : Z) : Prop := 0 <= N <= (limit + SLICE_LEN) / SLICE_LEN.

Lemma slicesOf_room limit out :
  0 <= limit -> limit mod SLICE_LEN <= SLICE_LEN - 60 -> Z.of_nat (length out) <= limit + 60 ->
  roomFor limit (slicesOf out).
Proof. unfold roomFor, slicesOf, SLICE_LEN. Z.to_euclidean_division_equations. lia. Qed.

Lemma firstSlice_ok limit extra libc p h data :
  (forall z, libc z = true) -> 0 <= limit -> limit + SLICE_LEN <= UINT32_MAX ->
  roomFor limit (sliceNum h) -> sliceNum h <= 65536 -> 0 <= extra <= 60 -> 0 < sliceNum h ->
  Z.of_nat (length data) <= SLICE_LEN ->
  firstSlice limit SLICE_LEN extra libc p h data =
  (SOFTBUS_OK, mkProc true 0 (sliceNum h) 1 (Z.of_nat (length data)) (sliceNum h * SLICE_LEN + extra)
                 (Some data)).
Proof.
  intros Hl H0 Hmax Hr H64 Hx Hpos Hd. unfold firstSlice, roomFor in *.
  rewrite (u32_small (limit + SLICE_LEN)) by (unfold in_u32, SLICE_LEN in *; lia).
  destruct (Z.ltb_spec (sliceNum h) 0); [lia|].
  destruct (Z.ltb_spec ((limit + SLICE_LEN) / SLICE_LEN) (sliceNum h)); [lia|]. cbn [orb].
  assert (HL : SLICE_LEN = 4096) by reflexivity. rewrite HL in *.
  rewrite !u32_small by (unfold in_u32; rewrite ?u32_small by (unfold in_u32; lia); lia).
  rewrite SoftBusCalloc_true by (auto; unfold MAX_MALLOC_SIZE; lia). cbn [negb].
  assert (Hc : memcpy_s (sliceNum h * 4096 + extra) (Z.of_nat (length data)) = true)
    by (apply memcpy_s_spec; lia).
  rewrite Hc. cbn [negb]. now rewrite !s32_small by (unfold in_s32; lia).
Qed.

(** A processor that has collected the first [k] slices of [out]. *)
Definition collected (tmo bl : Z) (out : list byte) (k : nat) : SliceProcessor :=
  mkProc true tmo (slicesOf out) (Z.of_nat k) (Z.of_nat k * SLICE_LEN) bl
    (Some (take (k * Z.to_nat SLICE_LEN) out)).

Lemma collected_valid bl out k prio :
  Z.of_nat (length out) <= 268435456 -> slicesOf out * SLICE_LEN <= bl <= 1073741824 ->
  Z.of_nat k < slicesOf out ->
  TransProxySliceProcessChkPkgIsValid (collected 0 bl out k)
    (mkSliceHead prio (slicesOf out) (Z.of_nat k) 0) (sliceOf out k) = SOFTBUS_OK /\
  memcpy_s (u32 (bl - Z.of_nat k * SLICE_LEN)) (Z.of_nat (length (sliceOf out k))) = true.
Proof.
  intros Hmax Hbl Hk. pose proof (slicesOf_spec out) as Hs. pose proof (length_sliceOf out k) as Hlen.
  assert (HL : SLICE_LEN = 4096) by reflexivity. rewrite HL in *.
  split.
  - unfold TransProxySliceProcessChkPkgIsValid, collected.
    cbn [sliceNum sliceSeq sliceNumber expectedSeq bufLen pDataLen pdata]. rewrite !Z.eqb_refl, HL.
    destruct (Z.leb_spec (Z.of_nat (length (sliceOf out k))) 0); [lia|]. cbn [negb orb].
    destruct (Z.ltb_spec bl (Z.of_nat k * 4096)); [lia|].
    rewrite !s32_small by (unfold in_s32; lia).
    destruct (Z.ltb_spec (bl - Z.of_nat k * 4096) (Z.of_nat (length (sliceOf out k)))); [lia|].
    reflexivity.
  - rewrite u32_small by (unfold in_u32; lia). apply memcpy_s_spec. lia.
Qed.

Lemma TransProxyNormalSliceProcess_ok bl out k prio :
  Z.of_nat (length out) <= 268435456 -> slicesOf out * SLICE_LEN <= bl <= 1073741824 ->
  Z.of_nat k + 1 < slicesOf out ->
  TransProxyNormalSliceProcess (collected 0 bl out k)
    (mkSliceHead prio (slicesOf out) (Z.of_nat k) 0) (sliceOf out k) =
  (SOFTBUS_OK, collected 0 bl out (S k)).
Proof.
  intros Hmax Hbl Hk. destruct (collected_valid bl out k prio) as [H1 H2]; [lia..|].
  unfold TransProxyNormalSliceProcess. rewrite H1. cbn [negb Z.eqb SOFTBUS_OK].
  cbn [bufLen pDataLen collected]. rewrite H2. cbn [negb].
  pose proof (slicesOf_spec out) as Hs. pose proof (length_sliceOf out k) as Hlen.
  unfold collected. cbn [active sliceNumber expectedSeq bufLen pDataLen pdata fmap option_fmap option_map].
  rewrite sliceOf_extends. assert (HL : SLICE_LEN = 4096) by reflexivity. rewrite HL in *.
  rewrite !s32_small by (unfold in_s32; rewrite ?s32_small by (unfold in_s32; lia); lia).
  do 2 f_equal; lia.
Qed.

(** ** Parsed heads are within the data *)

Lemma parseElements_size n len hs temp h h' hs' :
  5 <= hs -> len <= INT32_MAX ->
  parseElements n len hs temp h = (SOFTBUS_OK, h', hs') -> 5 <= hs'.
Proof.
  intros H0 Hlen. revert hs temp h H0. induction n as [|n IH]; intros hs temp h H0; cbn [parseElements].
  { now intros [= _ <-]. }
  unfold TLV_TYPE_AND_LENGTH. destruct (_ <? _); [discriminate|].
  destruct (Z.ltb_spec len (hs + 2 + unle (take 1 (drop 1 temp)))); [discriminate|].
  destruct (storeTlv h _ _) as [h1|]; [|discriminate].
  pose proof (unle_range (take 1 (drop 1 temp))). apply IH.
  rewrite u32_small by (unfold in_u32; lia). lia.
Qed.

Lemma TransProxyParseTlv_size data h h' hs :
  Z.of_nat (length data) <= INT32_MAX ->
  TransProxyParseTlv data h 0 = (SOFTBUS_OK, h', hs) -> 5 <= hs.
Proof.
  intros Hlen. unfold TransProxyParseTlv. change (u32 (0 + (MAGICNUM_SIZE + TLVCOUNT_SIZE))) with 5.
  destruct (CheckLenAndCopyData data h 5) as [r h1]. destruct (negb (r =? SOFTBUS_OK)).
  - now intros [= _ _ <-].
  - now apply parseElements_size.
Qed.

Lemma TransProxyProcessSessionData_ct libc n data ct :
  (TransProxyProcessSessionData libc n data).2 = Some ct -> ct = take (Z.to_nat n) data.
Proof.
  unfold TransProxyProcessSessionData. destruct (n <=? OVERHEAD_LEN); [discriminate|].
  destruct (negb _); [discriminate|]. now intros [= <-].
Qed.

Lemma TransProxyNoSubPacketProc_len data r h :
  Z.of_nat (length data) <= INT32_MAX -> TransProxyNoSubPacketProc data = (r, Some h) ->
  dataLen h = Z.of_nat (length data) - sizeof_PacketHead /\ sizeof_PacketHead < Z.of_nat (length data).
Proof.
  intros Hm. unfold TransProxyNoSubPacketProc. destruct (Z.leb_spec (Z.of_nat (length data)) sizeof_PacketHead);
    [discriminate|]. destruct (negb _); [discriminate|]. destruct (_ <=? 0); [discriminate|].
  rewrite s32_small by (unfold in_s32, sizeof_PacketHead in *; lia).
  destruct (Z.eqb_spec (dataLen (TransUnPackPacketHead data)) (Z.of_nat (length data) - sizeof_PacketHead));
    [|discriminate]. cbn [negb]. intros [= _ <-]. auto.
Qed.

End ProxySlice.
