(* ===== verification/ProxyFile.v ===== *)
(** * Files over proxy channels: frames, lists and paths

    Model of sdk/transmission/trans_channel/proxy/src:
    client_trans_proxy_file_common.c (paths, the CRC, the list of names that ends
    a transfer, file locks) and client_trans_proxy_file_helper.c (the frames of a
    transfer, retransmission, the receive path).  A C string is the list of its
    bytes before the NUL.  An outer [None] means an access outside a buffer. *)

From S2P Require Import Prelude ErrorCode.
From stdpp Require Import list.
From S2P Require Import Bytes ProxySlice.
#[local] Open Scope Z_scope.

Module ProxyFile.

Definition MAX_FILE_PATH_NAME_LEN : Z := 512.
Definition PATH_MAX : Z := 4096.
Definition PATH_SEPARATOR : byte := Byte.x2f.
Definition DOT : byte := Byte.x2e.
Definition FILE_MAGIC_NUMBER : Z := 3133078222.
Definition FRAME_MAGIC_OFFSET : Z := 4.
Definition FRAME_HEAD_LEN : Z := 12.
Definition FRAME_DATA_SEQ_OFFSET : Z := 4.
Definition FRAME_CRC_LEN : Z := 2.
Definition FILE_SEND_ACK_RESULT_SUCCESS : Z := 4294967295.
Definition FILE_SEND_ACK_INTERVAL : Z := 32.
Definition APP_INFO_FILE_FEATURES_SUPPORT : Z := 1.
Definition OH_TYPE : Z := 10.
Definition sizeof_FileListItem : Z := 8.
Definition sizeof_AckResponseData : Z := 8.

Definition SOFTBUS_TRANS_INVALID_DATA_LENGTH : Z := ProxySlice.SOFTBUS_TRANS_INVALID_DATA_LENGTH.
Definition SOFTBUS_INVALID_NUM : Z := SOFTBUS_PUBLIC_ERR_BASE + 14.
Definition SOFTBUS_FILE_ERR : Z := SOFTBUS_PUBLIC_ERR_BASE + 22.
Definition SOFTBUS_FILE_BUSY : Z := SOFTBUS_PUBLIC_ERR_BASE + 30.

Definition TRANS_SESSION_FILE_FIRST_FRAME : Z := 3.
Definition TRANS_SESSION_FILE_ONGOINE_FRAME : Z := 4.
Definition TRANS_SESSION_FILE_LAST_FRAME : Z := 5.
Definition TRANS_SESSION_FILE_ONLYONE_FRAME : Z := 6.
Definition TRANS_SESSION_FILE_ALLFILE_SENT : Z := 7.
Definition TRANS_SESSION_FILE_CRC_CHECK_FRAME : Z := 8.
Definition TRANS_SESSION_FILE_RESULT_FRAME : Z := 9.
Definition TRANS_SESSION_FILE_ACK_REQUEST_SENT : Z := 10.
Definition TRANS_SESSION_FILE_ACK_RESPONSE_SENT : Z := 11.

Definition strlen (s : list byte) : Z := Z.of_nat (length s).

(** The string an array of bytes holds. *)
Fixpoint cstr (l : list byte) : list byte :=
  match l with
  | [] => []
  | b :: l' => if decide (b = Byte.x00) then [] else b :: cstr l'
  end.

(** [strstr(s, "..") != NULL] *)
Fixpoint hasDotDot (s : list byte) : bool :=
  match s with
  | a :: ((b :: _) as t) => bool_decide (a = DOT /\ b = DOT) || hasDotDot t
  | _ => false
  end.

(** ** Paths *)

Definition IsPathValid (filePath : option (list byte)) : bool :=
  match filePath with
  | None => false
  | Some p =>
    if (strlen p =? 0) || (MAX_FILE_PATH_NAME_LEN - 1 <? strlen p) then false
    else if decide (last p = Some PATH_SEPARATOR) then false
    else true
  end.

(** [realpath]: what SoftBusRealPath writes for a path. *)
Definition GetAndCheckRealPath (realpath : list byte -> option (list byte)) (filePath : option (list byte))
  : Z * list byte :=
  match filePath with
  | None => (SOFTBUS_INVALID_PARAM, [])
  | Some p =>
    match realpath p with
    | None => (SOFTBUS_FILE_ERR, [])
    | Some absPath =>
      if MAX_FILE_PATH_NAME_LEN - 1 <? s32 (strlen absPath) then (SOFTBUS_INVALID_PARAM, absPath)
      else (SOFTBUS_OK, absPath)
    end
  end.

Definition CheckDestFilePathValid (destFile : option (list byte)) : bool :=
  match destFile with
  | None => false
  | Some d =>
    let len := s32 (strlen d) in
    if (len =? 0) || (MAX_FILE_PATH_NAME_LEN <? len) then false
    else if hasDotDot d then false
    else true
  end.

(** The loop of TransGetFileName and GetDirPath: the index after the last
    separator at or before [i]. *)
Fixpoint nameIndex (path : list byte) (i : nat) : nat :=
  if decide (path !! i = Some PATH_SEPARATOR) then S i
  else match i with
       | O => O
       | S i' => nameIndex path i'
       end.

Definition TransGetFileName (path : option (list byte)) : option (list byte) :=
  match path with
  | None => None
  | Some p =>
    if strlen p =? 0 then None
    else if decide (last p = Some PATH_SEPARATOR) then None
    else Some (drop (nameIndex p (pred (length p))) p)
  end.

Definition GetFullRecvPath (libc : Z -> bool) (filePath recvRootDir : option (list byte))
  : option (list byte) :=
  match filePath, recvRootDir with
  | Some f, Some r =>
    let rootDirLength := s32 (strlen r) in
    let filePathLength := s32 (strlen f) in
    let isNeedAddSep :=
      negb (((0 <? filePathLength) && bool_decide (head f = Some PATH_SEPARATOR)) ||
            ((0 <? rootDirLength) && bool_decide (last r = Some PATH_SEPARATOR))) in
    let destFullPathLength :=
      s32 (if isNeedAddSep then rootDirLength + 4 + filePathLength
           else rootDirLength + filePathLength) in
    if negb (SoftBusCalloc libc (destFullPathLength + 1)) then None
    else
      let full := if isNeedAddSep then r ++ [PATH_SEPARATOR] ++ f else r ++ f in
      if strlen full <? u64 (destFullPathLength + 1) then Some full else None
  | _, _ => None
  end.

(** The directory with its separator; [dirPathLen] is the size of the
    destination. *)
Definition GetDirPath (fullPath : option (list byte)) (dirPathLen : Z) : Z * list byte :=
  match fullPath with
  | None => (SOFTBUS_INVALID_PARAM, [])
  | Some p =>
    if (strlen p <? 1) || bool_decide (last p = Some PATH_SEPARATOR) then (SOFTBUS_INVALID_PARAM, [])
    else
      let dirLen := nameIndex p (pred (length p)) in
      if dirPathLen <=? Z.of_nat dirLen then (SOFTBUS_INVALID_PARAM, [])
      else (SOFTBUS_OK, take dirLen p)
  end.

(** [libc1], [libc2]: the two allocations. *)
Definition GetAbsFullPath (libc1 libc2 : Z -> bool) (realpath : list byte -> option (list byte))
    (fullPath : option (list byte)) (pathSize : Z) : Z * list byte :=
  if negb (SoftBusCalloc libc1 MAX_FILE_PATH_NAME_LEN) then (SOFTBUS_MALLOC_ERR, [])
  else
    let '(ret, dirPath) := GetDirPath fullPath MAX_FILE_PATH_NAME_LEN in
    if negb (ret =? SOFTBUS_OK) then (SOFTBUS_INVALID_PARAM, [])
    else if negb (SoftBusCalloc libc2 (PATH_MAX + 1)) then (SOFTBUS_MALLOC_ERR, [])
    else
      match TransGetFileName fullPath with
      | None => (SOFTBUS_FILE_ERR, [])
      | Some fileName =>
        let '(ret2, absFullDir) := GetAndCheckRealPath realpath (Some dirPath) in
        if negb (ret2 =? SOFTBUS_OK) then (SOFTBUS_FILE_ERR, [])
        else if pathSize <? strlen fileName + strlen absFullDir + 1 then (SOFTBUS_FILE_ERR, [])
        else
          let full := absFullDir ++ [PATH_SEPARATOR] ++ fileName in
          if strlen full <? pathSize then (SOFTBUS_OK, full) else (SOFTBUS_FILE_ERR, [])
      end.

(** The prefixes of [path] that end in a separator, in order, from [done] on:
    the directories that CreateDirAndGetAbsPath looks at. *)
Fixpoint makeDirs (accessFile mkdirOk : list byte -> bool) (acc rest : list byte)
  : bool * list (list byte) :=
  match rest with
  | [] => (true, [])
  | b :: rest' =>
    let acc' := acc ++ [b] in
    if negb (bool_decide (b = PATH_SEPARATOR)) then makeDirs accessFile mkdirOk acc' rest'
    else if accessFile acc' then makeDirs accessFile mkdirOk acc' rest'
    else if mkdirOk acc' then
      let '(ok, made) := makeDirs accessFile mkdirOk acc' rest' in (ok, acc' :: made)
    else (false, [])
  end.

(** The result, the path and the directories made. *)
Definition CreateDirAndGetAbsPath (libc libc1 libc2 : Z -> bool) (accessFile mkdirOk : list byte -> bool)
    (realpath : list byte -> option (list byte)) (filePath : option (list byte)) (pathSize : Z)
  : Z * list byte * list (list byte) :=
  match filePath with
  | None => (SOFTBUS_INVALID_PARAM, [], [])
  | Some p =>
    if negb (SoftBusCalloc libc (u32 (strlen p) + 1)) then (SOFTBUS_MALLOC_ERR, [], [])
    else
      let '(ok, made) := makeDirs accessFile mkdirOk [] p in
      if negb ok then (SOFTBUS_FILE_ERR, [], made)
      else
        let '(ret, absPath) := GetAbsFullPath libc1 libc2 realpath (Some p) pathSize in
        (ret, absPath, made)
  end.

(** ** CRC *)

Definition g_auchCRCHi : list Z :=
  [0; 193; 129; 64; 1; 192; 128; 65; 1; 192; 128; 65; 0; 193; 129; 64;
   1; 192; 128; 65; 0; 193; 129; 64; 0; 193; 129; 64; 1; 192; 128; 65;
   1; 192; 128; 65; 0; 193; 129; 64; 0; 193; 129; 64; 1; 192; 128; 65;
   0; 193; 129; 64; 1; 192; 128; 65; 1; 192; 128; 65; 0; 193; 129; 64;
   1; 192; 128; 65; 0; 193; 129; 64; 0; 193; 129; 64; 1; 192; 128; 65;
   0; 193; 129; 64; 1; 192; 128; 65; 1; 192; 128; 65; 0; 193; 129; 64;
   0; 193; 129; 64; 1; 192; 128; 65; 1; 192; 128; 65; 0; 193; 129; 64;
   1; 192; 128; 65; 0; 193; 129; 64; 0; 193; 129; 64; 1; 192; 128; 65;
   1; 192; 128; 65; 0; 193; 129; 64; 0; 193; 129; 64; 1; 192; 128; 65;
   0; 193; 129; 64; 1; 192; 128; 65; 1; 192; 128; 65; 0; 193; 129; 64;
   0; 193; 129; 64; 1; 192; 128; 65; 1; 192; 128; 65; 0; 193; 129; 64;
   1; 192; 128; 65; 0; 193; 129; 64; 0; 193; 129; 64; 1; 192; 128; 65;
   0; 193; 129; 64; 1; 192; 128; 65; 1; 192; 128; 65; 0; 193; 129; 64;
   1; 192; 128; 65; 0; 193; 129; 64; 0; 193; 129; 64; 1; 192; 128; 65;
   1; 192; 128; 65; 0; 193; 129; 64; 0; 193; 129; 64; 1; 192; 128; 65;
   0; 193; 129; 64; 1; 192; 128; 65; 1; 192; 128; 65; 0; 193; 129; 64].

Definition g_auchCRCLo : list Z :=
  [0; 192; 193; 1; 195; 3; 2; 194; 198; 6; 7; 199; 5; 197; 196; 4;
   204; 12; 13; 205; 15; 207; 206; 14; 10; 202; 203; 11; 201; 9; 8; 200;
   216; 24; 25; 217; 27; 219; 218; 26; 30; 222; 223; 31; 221; 29; 28; 220;
   20; 212; 213; 21; 215; 23; 22; 214; 210; 18; 19; 211; 17; 209; 208; 16;
   240; 48; 49; 241; 51; 243; 242; 50; 54; 246; 247; 55; 245; 53; 52; 244;
   60; 252; 253; 61; 255; 63; 62; 254; 250; 58; 59; 251; 57; 249; 248; 56;
   40; 232; 233; 41; 235; 43; 42; 234; 238; 46; 47; 239; 45; 237; 236; 44;
   228; 36; 37; 229; 39; 231; 230; 38; 34; 226; 227; 35; 225; 33; 32; 224;
   160; 96; 97; 161; 99; 163; 162; 98; 102; 166; 167; 103; 165; 101; 100; 164;
   108; 172; 173; 109; 175; 111; 110; 174; 170; 106; 107; 171; 105; 169; 168; 104;
   120; 184; 185; 121; 187; 123; 122; 186; 190; 126; 127; 191; 125; 189; 188; 124;
   180; 116; 117; 181; 119; 183; 182; 118; 114; 178; 179; 115; 177; 113; 112; 176;
   80; 144; 145; 81; 147; 83; 82; 146; 150; 86; 87; 151; 85; 149; 148; 84;
   156; 92; 93; 157; 95; 159; 158; 94; 90; 154; 155; 91; 153; 89; 88; 152;
   136; 72; 73; 137; 75; 139; 138; 74; 78; 142; 143; 79; 141; 77; 76; 140;
   68; 132; 133; 69; 135; 71; 70; 134; 130; 66; 67; 131; 65; 129; 128; 64].

(** [n] bytes from state [hi], [lo]. *)
Fixpoint crcLoop (n : nat) (data : list byte) (hi lo : Z) : option (Z * Z) :=
  match n with
  | O => Some (hi, lo)
  | S n' =>
    match data with
    | [] => None
    | b :: data' =>
      let uIndex := Z.to_nat (Z.lxor lo (byteZ b)) in
      match g_auchCRCHi !! uIndex, g_auchCRCLo !! uIndex with
      | Some h, Some l => crcLoop n' data' l (Z.lxor hi h)
      | _, _ => None
      end
    end
  end.

Definition RTU_CRC (puchMsg : list byte) (usDataLen : Z) : option Z :=
  match crcLoop (Z.to_nat (u16 usDataLen)) puchMsg 255 255 with
  | Some (hi, lo) => Some (u16 (Z.lor (Z.shiftl hi 8) lo))
  | None => None
  end.

(** ** The list of names *)

(** The first loop: the sum of the lengths, [None] for a bad name. *)
Fixpoint namesLength (destFile : list (list byte)) (totalLength : Z) : option Z :=
  match destFile with
  | [] => Some totalLength
  | d :: destFile' =>
    if (strlen d =? 0) || (MAX_FILE_PATH_NAME_LEN <? strlen d) then None
    else namesLength destFile' (u32 (totalLength + strlen d))
  end.

(** The second loop from item [index]: result, buffer and offset. *)
Fixpoint fillNames (bufferSize : Z) (destFile : list (list byte)) (index offset : Z) (buffer : list byte)
  : option (Z * list byte * Z) :=
  match destFile with
  | [] => Some (SOFTBUS_OK, buffer, offset)
  | d :: destFile' =>
    let fileNameSize := u32 (strlen d) in
    match writeAt offset (be 4 index ++ be 4 fileNameSize) buffer with
    | None => None
    | Some b1 =>
      let off1 := u32 (offset + sizeof_FileListItem) in
      if negb (memcpy_s (u64 (bufferSize - off1)) fileNameSize) then Some (SOFTBUS_MEM_ERR, b1, off1)
      else
        match writeAt off1 d b1 with
        | None => None
        | Some b2 => fillNames bufferSize destFile' (u32 (index + 1)) (u32 (off1 + fileNameSize)) b2
        end
    end
  end.

(** The result and the bytes of [outbufferInfo]. *)
Definition FileListToBuffer (libc : Z -> bool) (destFile : option (list (list byte)))
  : option (Z * list byte) :=
  match destFile with
  | None => Some (SOFTBUS_INVALID_PARAM, [])
  | Some l =>
    let fileCnt := Z.of_nat (length l) in
    if fileCnt =? 0 then Some (SOFTBUS_INVALID_PARAM, [])
    else
      match namesLength l 0 with
      | None => Some (SOFTBUS_INVALID_PARAM, [])
      | Some totalLength =>
        let bufferSize := u64 (totalLength + sizeof_FileListItem * fileCnt) in
        if negb (SoftBusCalloc libc bufferSize) then Some (SOFTBUS_MALLOC_ERR, [])
        else
          match fillNames bufferSize l 0 0 (replicate (Z.to_nat (u32 bufferSize)) Byte.x00) with
          | None => None
          | Some (ret, buffer, offset) =>
            if negb (ret =? SOFTBUS_OK) then Some (ret, [])
            else Some (SOFTBUS_OK, take (Z.to_nat offset) buffer)
          end
      end
  end.

(** The loop of BufferToFileList.  The inner [None] is a refused buffer. *)
Fixpoint fileListLoop (fuel : nat) (buffer : list byte) (offset count : Z) (firstFile : list byte)
  : option (option (list byte * Z)) :=
  match fuel with
  | O => None
  | S fuel' =>
    let bufferSize := Z.of_nat (length buffer) in
    if negb (offset <=? bufferSize - sizeof_FileListItem) then Some (Some (firstFile, count))
    else
      match readAt (offset + 4) 4 buffer with
      | None => None
      | Some w =>
        let off1 := u32 (offset + sizeof_FileListItem) in
        let fileNameLength := unbe w in
        if (u32 (bufferSize - off1) <? fileNameLength) || (MAX_FILE_PATH_NAME_LEN <? fileNameLength)
        then Some None
        else
          let next first :=
            fileListLoop fuel' buffer (u32 (off1 + fileNameLength)) (s32 (count + 1)) first in
          if count =? 0 then
            if negb (memcpy_s MAX_FILE_PATH_NAME_LEN fileNameLength) then Some None
            else match readAt off1 fileNameLength buffer with
                 | None => None
                 | Some name => next name
                 end
          else next firstFile
      end
  end.

(** The first name, as its array's bytes before the zeros, and the number of
    names. *)
Definition BufferToFileList (libc : Z -> bool) (buffer : option (list byte))
  : option (option (list byte * Z)) :=
  match buffer with
  | None => Some None
  | Some b =>
    if Z.of_nat (length b) <? sizeof_FileListItem then Some None
    else if negb (SoftBusCalloc libc (MAX_FILE_PATH_NAME_LEN + 1)) then Some None
    else fileListLoop (S (length b)) b 0 0 []
  end.

(** ** File locks *)

Definition FileLock (fcntl : Z) (fd : Z) (isBlock : bool) : Z :=
  if fd <? 0 then SOFTBUS_INVALID_PARAM
  else if negb (fcntl =? 0) && negb isBlock then SOFTBUS_FILE_BUSY
  else SOFTBUS_OK.

(** [fcntl i]: the answer to the [i]-th attempt. *)
Fixpoint tryLockLoop (fcntl : nat -> Z) (fd : Z) (retryTimes i : nat) : Z :=
  match retryTimes with
  | O => SOFTBUS_FILE_BUSY
  | S n =>
    let errCode := FileLock (fcntl i) fd false in
    if errCode =? SOFTBUS_OK then SOFTBUS_OK
    else if errCode =? SOFTBUS_FILE_BUSY then tryLockLoop fcntl fd n (S i)
    else SOFTBUS_FILE_ERR
  end.

Definition TryFileLock (fcntl : nat -> Z) (fd retryTimes : Z) : Z :=
  tryLockLoop fcntl fd (Z.to_nat retryTimes) 0.

Definition FileUnLock (fcntl : Z) (fd : Z) : Z :=
  if fd <? 0 then SOFTBUS_OK
  else if fcntl <? 0 then SOFTBUS_FILE_ERR
  else SOFTBUS_OK.

(** ** Frames *)

(** [fileData] is [data + fdOff]. *)
Record FileFrame := mkFrame {
  magic : Z;
  frameType : Z;
  frameLength : Z;
  frameSeq : Z;
  frameCrc : Z;
  data : list byte;
  fdOff : Z
}.

(** The sender's record, less the listener and the peer's result, which the
    receiving thread writes. *)
Record SendListenerInfo := mkSend {
  channelId : Z;
  sessionId : Z;
  fileSize : Z;
  frameNum : Z;
  crc : Z;
  seq : Z;
  waitSeq : Z;
  waitTimeoutCount : Z;
  checkSumCRC : Z;
  bytesProcessed : Z;
  packetSize : Z;
  osType : Z
}.

Definition setData (fr : FileFrame) (d : list byte) : FileFrame :=
  mkFrame (magic fr) (frameType fr) (frameLength fr) (frameSeq fr) (frameCrc fr) d (fdOff fr).
Definition setLength (fr : FileFrame) (n : Z) : FileFrame :=
  mkFrame (magic fr) (frameType fr) n (frameSeq fr) (frameCrc fr) (data fr) (fdOff fr).
Definition setType (fr : FileFrame) (t : Z) : FileFrame :=
  mkFrame (magic fr) t (frameLength fr) (frameSeq fr) (frameCrc fr) (data fr) (fdOff fr).
Definition setSeq (i : SendListenerInfo) (s sum : Z) : SendListenerInfo :=
  mkSend (channelId i) (sessionId i) (fileSize i) (frameNum i) (crc i) s (waitSeq i)
    (waitTimeoutCount i) sum (bytesProcessed i) (packetSize i) (osType i).
Definition setWait (i : SendListenerInfo) (w c : Z) : SendListenerInfo :=
  mkSend (channelId i) (sessionId i) (fileSize i) (frameNum i) (crc i) (seq i) w c
    (checkSumCRC i) (bytesProcessed i) (packetSize i) (osType i).
Definition addProcessed (i : SendListenerInfo) (n : Z) : SendListenerInfo :=
  mkSend (channelId i) (sessionId i) (fileSize i) (frameNum i) (crc i) (seq i) (waitSeq i)
    (waitTimeoutCount i) (checkSumCRC i) (u64 (bytesProcessed i + n)) (packetSize i) (osType i).

Definition FrameIndexToType (index frameNumber : Z) : Z :=
  if (index =? 0) || (frameNumber =? 0) then TRANS_SESSION_FILE_FIRST_FRAME
  else if (index =? 1) && (frameNumber =? 2) then TRANS_SESSION_FILE_ONLYONE_FRAME
  else if index =? u64 (frameNumber - 1) then TRANS_SESSION_FILE_LAST_FRAME
  else TRANS_SESSION_FILE_ONGOINE_FRAME.

(** Little-endian fields of a received frame. *)
Definition field (off : Z) (n : Z) (d : list byte) : option Z :=
  w ← readAt off n d; Some (unle w).

(** The stores of a data frame with CRC: magic, length, sequence number, CRC. *)
Definition storeDataFrame (fr : FileFrame) (dataLen s c : Z) : option FileFrame :=
  d1 ← writeAt 0 (le 4 (magic fr)) (data fr);
  d2 ← writeAt FRAME_MAGIC_OFFSET (le 8 dataLen) d1;
  d3 ← writeAt (fdOff fr) (le 4 s) d2;
  d4 ← writeAt (fdOff fr + dataLen) (le 2 c) d3;
  Some (setData fr d4).

(** [pread readLength offset]: the bytes SoftBusPreadFile reads, [None] when it
    fails.  The result is the number of bytes or an error. *)
Definition PackReadFileData (pread : Z -> Z -> option (list byte)) (fr : FileFrame)
    (readLength fileOffset : Z) (info : SendListenerInfo)
  : option (Z * FileFrame * SendListenerInfo) :=
  match pread readLength fileOffset with
  | None => Some (-1, fr, info)
  | Some bytes =>
    let len := Z.of_nat (length bytes) in
    d0 ← writeAt (fdOff fr + FRAME_DATA_SEQ_OFFSET) bytes (data fr);
    let fr0 := setData fr d0 in
    if len <=? 0 then Some (len, fr0, info)
    else if (crc info =? APP_INFO_FILE_FEATURES_SUPPORT) && (osType info =? OH_TYPE) then
      let dataLen := u64 (len + FRAME_DATA_SEQ_OFFSET) in
      let fr1 := setLength fr0 (u32 (FRAME_HEAD_LEN + dataLen + FRAME_CRC_LEN)) in
      if packetSize info <? frameLength fr1 then Some (SOFTBUS_TRANS_INVALID_DATA_LENGTH, fr1, info)
      else
        c ← RTU_CRC (drop (Z.to_nat (fdOff fr + FRAME_DATA_SEQ_OFFSET)) d0) len;
        let s := u32 (seq info + 1) in
        fr2 ← storeDataFrame fr1 dataLen s c;
        Some (len, fr2, setSeq info s (u64 (checkSumCRC info + c)))
    else
      let tmp := u64 (FRAME_DATA_SEQ_OFFSET + len) in
      if UINT32_MAX <? tmp then Some (SOFTBUS_INVALID_NUM, fr0, info)
      else
        let fr1 := setLength fr0 (u32 tmp) in
        if packetSize info <? frameLength fr1 then Some (SOFTBUS_TRANS_INVALID_DATA_LENGTH, fr1, info)
        else
          d1 ← writeAt (fdOff fr) (le 4 (u32 (channelId info))) d0;
          Some (len, setData fr1 d1, info)
  end.

(** Which of the two layouts a session uses. *)
Definition withCrc (crcSupport os : Z) : bool :=
  (crcSupport =? APP_INFO_FILE_FEATURES_SUPPORT) && (os =? OH_TYPE).

(** [rcrc], [ros]: [crc] and [osType] of the FileRecipientInfo. *)
Definition UnpackFileDataFrame (rcrc ros : Z) (fr : FileFrame) : option (Z * FileFrame * Z) :=
  if withCrc rcrc ros then
    if frameLength fr <=? FRAME_HEAD_LEN + FRAME_DATA_SEQ_OFFSET + FRAME_CRC_LEN then
      Some (SOFTBUS_TRANS_INVALID_DATA_LENGTH, fr, 0)
    else
      m ← field 0 4 (data fr);
      dataLen ← field FRAME_MAGIC_OFFSET 8 (data fr);
      let fr1 := mkFrame m (frameType fr) (frameLength fr) (frameSeq fr) (frameCrc fr) (data fr) (fdOff fr) in
      if negb (m =? FILE_MAGIC_NUMBER) ||
         negb (dataLen =? u32 (frameLength fr - (FRAME_HEAD_LEN + FRAME_CRC_LEN))) then
        Some (SOFTBUS_INVALID_DATA_HEAD, fr1, 0)
      else
        s ← field FRAME_HEAD_LEN 4 (data fr);
        recvCRC ← field (FRAME_HEAD_LEN + dataLen) 2 (data fr);
        c ← RTU_CRC (drop (Z.to_nat (FRAME_HEAD_LEN + FRAME_DATA_SEQ_OFFSET)) (data fr))
              (dataLen - FRAME_DATA_SEQ_OFFSET);
        let fr2 := mkFrame m (frameType fr) (frameLength fr) s (frameCrc fr) (data fr) FRAME_HEAD_LEN in
        if negb (c =? recvCRC) then Some (SOFTBUS_FILE_ERR, fr2, 0)
        else Some (SOFTBUS_OK, mkFrame m (frameType fr) (frameLength fr) s c (data fr) FRAME_HEAD_LEN,
                   u32 dataLen)
  else
    let fr0 := mkFrame (magic fr) (frameType fr) (frameLength fr) (frameSeq fr) (frameCrc fr) (data fr) 0 in
    if frameLength fr <=? FRAME_DATA_SEQ_OFFSET then Some (SOFTBUS_TRANS_INVALID_DATA_LENGTH, fr0, 0)
    else
      s ← field 0 4 (data fr);
      Some (SOFTBUS_OK, mkFrame (magic fr) (frameType fr) (frameLength fr) s (frameCrc fr) (data fr) 0,
            frameLength fr).

Definition UnpackFileTransResultFrame (d : option (list byte)) : option (Z * option (Z * Z * Z)) :=
  match d with
  | None => Some (SOFTBUS_TRANS_INVALID_DATA_LENGTH, None)
  | Some b =>
    if Z.of_nat (length b) <? FRAME_HEAD_LEN + FRAME_DATA_SEQ_OFFSET + FRAME_DATA_SEQ_OFFSET + 4 then
      Some (SOFTBUS_TRANS_INVALID_DATA_LENGTH, None)
    else
      m ← field 0 4 b;
      dataLen ← field FRAME_MAGIC_OFFSET 8 b;
      if negb (m =? FILE_MAGIC_NUMBER) || negb (dataLen =? FRAME_DATA_SEQ_OFFSET + 4 + 4) then
        Some (SOFTBUS_INVALID_DATA_HEAD, None)
      else
        s ← field FRAME_HEAD_LEN 4 b;
        side ← field (FRAME_HEAD_LEN + FRAME_DATA_SEQ_OFFSET) 4 b;
        r ← field (FRAME_HEAD_LEN + FRAME_DATA_SEQ_OFFSET + 4) 4 b;
        Some (SOFTBUS_OK, Some (s, s32 r, side))
  end.

(** The start and the value of an acknowledgement. *)
Definition UnpackAckReqAndResData (fr : FileFrame) : option (Z * option (Z * Z)) :=
  if frameLength fr <? FRAME_HEAD_LEN + FRAME_DATA_SEQ_OFFSET + FRAME_DATA_SEQ_OFFSET then
    Some (SOFTBUS_TRANS_INVALID_DATA_LENGTH, None)
  else
    m ← field 0 4 (data fr);
    dataLen ← field FRAME_MAGIC_OFFSET 8 (data fr);
    if negb (m =? FILE_MAGIC_NUMBER) || (dataLen <? FRAME_DATA_SEQ_OFFSET + FRAME_DATA_SEQ_OFFSET) then
      Some (SOFTBUS_INVALID_DATA_HEAD, None)
    else
      s ← field FRAME_HEAD_LEN 4 (data fr);
      v ← field (FRAME_HEAD_LEN + FRAME_DATA_SEQ_OFFSET) 4 (data fr);
      Some (SOFTBUS_OK, Some (s, v)).

(** ** Sending *)

Section Send.

(** [getInfo]: ClientTransProxyGetInfoByChannelId; [packAndSend]:
    ClientTransProxyPackAndSendData, which changes the surroundings [E]. *)
Context {E : Type} (libc : Z -> bool) (getInfo : Z -> Z)
  (packAndSend : Z -> list byte -> Z -> E -> Z * E).

Definition ProxyChannelSendFileStream (chan : Z) (d : option (list byte)) (type : Z) (e : E) : Z * E :=
  match d with
  | None => (SOFTBUS_INVALID_PARAM, e)
  | Some b =>
    let ret := getInfo chan in
    if negb (ret =? SOFTBUS_OK) then (ret, e) else packAndSend chan b type e
  end.

Definition SendFileTransResult (chan s result side : Z) (e : E) : Z * E :=
  if negb (SoftBusCalloc libc (FRAME_HEAD_LEN + FRAME_DATA_SEQ_OFFSET + 4 + 4)) then (SOFTBUS_MALLOC_ERR, e)
  else
    ProxyChannelSendFileStream chan
      (Some (le 4 FILE_MAGIC_NUMBER ++ le 8 (FRAME_DATA_SEQ_OFFSET + 4 + 4) ++
             le 4 s ++ le 4 side ++ le 4 (u32 result)))
      TRANS_SESSION_FILE_RESULT_FRAME e.

Definition SendFileAckReqAndResData (chan startSeq value type : Z) (e : E) : Z * E :=
  if negb (SoftBusCalloc libc (FRAME_HEAD_LEN + FRAME_DATA_SEQ_OFFSET + FRAME_DATA_SEQ_OFFSET)) then
    (SOFTBUS_MALLOC_ERR, e)
  else
    ProxyChannelSendFileStream chan
      (Some (le 4 FILE_MAGIC_NUMBER ++ le 8 (FRAME_DATA_SEQ_OFFSET + FRAME_DATA_SEQ_OFFSET) ++
             le 4 startSeq ++ le 4 value))
      type e.

(** The frame of the result is the one handed to the channel. *)
Definition PackReadFileRetransData (pread : Z -> Z -> option (list byte)) (fr : FileFrame)
    (s readLength fileOffset : Z) (info : SendListenerInfo) (e : E) : option (Z * E) :=
  match pread readLength fileOffset with
  | None => Some (-1, e)
  | Some bytes =>
    let len := Z.of_nat (length bytes) in
    d0 ← writeAt (fdOff fr + FRAME_DATA_SEQ_OFFSET) bytes (data fr);
    let fr0 := setData fr d0 in
    if len <=? 0 then Some (len, e)
    else
      let dataLen := u64 (len + FRAME_DATA_SEQ_OFFSET) in
      let fr1 := setLength fr0 (u32 (FRAME_HEAD_LEN + dataLen + FRAME_CRC_LEN)) in
      if packetSize info <? frameLength fr1 then Some (SOFTBUS_TRANS_INVALID_DATA_LENGTH, e)
      else
        c ← RTU_CRC (drop (Z.to_nat (fdOff fr + FRAME_DATA_SEQ_OFFSET)) d0) len;
        fr2 ← storeDataFrame fr1 dataLen s c;
        let '(ret, e') := ProxyChannelSendFileStream (channelId info)
          (Some (take (Z.to_nat (frameLength fr2)) (data fr2))) (FrameIndexToType s (frameNum info)) e in
        if negb (ret =? SOFTBUS_OK) then Some (ret, e') else Some (len, e')
  end.

(** [s] is the signed number of the frame. *)
Definition RetransFileFrameBySeq (pread : Z -> Z -> option (list byte)) (info : SendListenerInfo) (s : Z)
    (e : E) : option (Z * E) :=
  if negb (crc info =? APP_INFO_FILE_FEATURES_SUPPORT) then Some (SOFTBUS_OK, e)
  else if s <=? 0 then Some (SOFTBUS_INVALID_PARAM, e)
  else if negb (SoftBusCalloc libc (packetSize info)) then Some (SOFTBUS_MALLOC_ERR, e)
  else
    let fr := mkFrame FILE_MAGIC_NUMBER 0 0 0 0 (replicate (Z.to_nat (packetSize info)) Byte.x00)
                FRAME_HEAD_LEN in
    let frameDataSize := u32 (packetSize info - FRAME_HEAD_LEN - FRAME_DATA_SEQ_OFFSET - FRAME_CRC_LEN) in
    let fileOffset := u64 (frameDataSize * u32 (u32 s - 1)) in
    if fileSize info <=? fileOffset then Some (SOFTBUS_INVALID_PARAM, e)
    else
      let remainedSize := u64 (fileSize info - fileOffset) in
      let readLength := if remainedSize <? frameDataSize then remainedSize else frameDataSize in
      match PackReadFileRetransData pread fr (u32 s) readLength fileOffset info e with
      | None => None
      | Some (len, e') =>
        if len <=? 0 then Some (SOFTBUS_TRANS_INVALID_DATA_LENGTH, e') else Some (SOFTBUS_OK, e')
      end.

(** Rounds [i] and up of the loop. *)
Fixpoint retransLoop (pread : Z -> Z -> option (list byte)) (info : SendListenerInfo)
    (startSeq seqResult : Z) (n : nat) (i : Z) (e : E) : option (Z * E) :=
  match n with
  | O => Some (SOFTBUS_OK, e)
  | S n' =>
    if Z.land (Z.shiftr seqResult i) 1 =? 1 then retransLoop pread info startSeq seqResult n' (i + 1) e
    else
      match RetransFileFrameBySeq pread info (s32 (u32 (startSeq + i))) e with
      | None => None
      | Some (ret, e') =>
        if negb (ret =? SOFTBUS_OK) then Some (ret, e')
        else retransLoop pread info startSeq seqResult n' (i + 1) e'
      end
  end.

(** [d]: the start and the bitmap of the AckResponseData, when there is one. *)
Definition AckResponseDataHandle (pread : Z -> Z -> option (list byte)) (info : SendListenerInfo)
    (d : option (Z * Z)) (e : E) : option (Z * E) :=
  match d with
  | None => Some (SOFTBUS_OK, e)
  | Some (startSeq, seqResult) =>
    if negb (seqResult =? FILE_SEND_ACK_RESULT_SUCCESS) then
      retransLoop pread info startSeq seqResult (Z.to_nat FILE_SEND_ACK_INTERVAL) 0 e
    else Some (SOFTBUS_OK, e)
  end.

End Send.

(** ** CRC: the tables compute the bitwise CRC-16 with polynomial 0xA001 *)

Definition crcShift (x : Z) : Z :=
  if Z.odd x then Z.lxor (Z.shiftr x 1) 40961 else Z.shiftr x 1.

Definition crcByte (x : Z) (b : byte) : Z := Nat.iter 8 crcShift (Z.lxor x (byteZ b)).

(** The reference: bit by bit from 0xFFFF. *)
Definition modbus (l : list byte) : Z := fold_left crcByte l 65535.

Definition bytes256 : list Z := map Z.of_nat (List.seq 0 256).

(** The state [hi], [lo] after the byte has been added to [lo]. *)
Definition tableStep (hi idx : Z) : option Z :=
  match g_auchCRCHi !! Z.to_nat idx, g_auchCRCLo !! Z.to_nat idx with
  | Some h, Some l => Some (Z.lor (Z.shiftl l 8) (Z.lxor hi h))
  | _, _ => None
  end.

Lemma crcShift_lxor x y : crcShift (Z.lxor x y) = Z.lxor (crcShift x) (crcShift y).
Proof.
  unfold crcShift. rewrite <- !Z.bit0_odd, Z.lxor_spec, Z.shiftr_lxor.
  destruct (Z.testbit x 0), (Z.testbit y 0); cbn [xorb]; try reflexivity.
  - now rewrite (Z.lxor_comm (Z.shiftr y 1)), Z.lxor_assoc, <- (Z.lxor_assoc 40961), Z.lxor_nilpotent, Z.lxor_0_l.
  - now rewrite !Z.lxor_assoc, (Z.lxor_comm (Z.shiftr y 1)).
  - now rewrite Z.lxor_assoc.
Qed.

Lemma iter_crcShift_lxor n x y :
  Nat.iter n crcShift (Z.lxor x y) = Z.lxor (Nat.iter n crcShift x) (Nat.iter n crcShift y).
Proof. induction n as [|n IH]; [reflexivity|]. rewrite !Nat.iter_succ, IH. apply crcShift_lxor. Qed.

(** The tables hold the shifts of the low byte. *)
Lemma tables_checked : forallb (fun idx =>
    bool_decide (tableStep 0 idx = Some (Nat.iter 8 crcShift idx)) &&
    (Nat.iter 8 crcShift (Z.shiftl idx 8) =? idx)) bytes256 = true.
Proof. vm_compute. reflexivity. Qed.

Lemma elem_bytes256 x : in_u8 x -> List.In x bytes256.
Proof.
  intros H. unfold in_u8 in H. apply in_map_iff. exists (Z.to_nat x). split; [lia|].
  apply in_seq. lia.
Qed.

Lemma tables_bytes : forallb (fun x => (0 <=? x) && (x <? 256)) g_auchCRCHi = true /\
  forallb (fun x => (0 <=? x) && (x <? 256)) g_auchCRCLo = true.
Proof. split; vm_compute; reflexivity. Qed.

Lemma table_entry (t : list Z) idx : length t = 256%nat ->
  forallb (fun x => (0 <=? x) && (x <? 256)) t = true -> in_u8 idx ->
  exists v, t !! Z.to_nat idx = Some v /\ in_u8 v.
Proof.
  intros Hl Ht Hi. unfold in_u8 in *. destruct (lookup_lt_is_Some_2 t (Z.to_nat idx)) as [v Hv]; [lia|].
  exists v. split; [exact Hv|]. rewrite forallb_forall in Ht. apply list_elem_of_lookup_2, list_elem_of_In in Hv.
  specialize (Ht v Hv). zbool. lia.
Qed.

Lemma u8_testbit v n : in_u8 v -> 8 <= n -> Z.testbit v n = false.
Proof.
  unfold in_u8. intros Hv Hn. destruct (Z.eq_dec v 0) as [->|]; [apply Z.bits_0|].
  apply Z.bits_above_log2; [lia|]. apply Z.lt_le_trans with 8; [apply Z.log2_lt_pow2; lia|lia].
Qed.

Lemma lxor_u8 a b : in_u8 a -> in_u8 b -> in_u8 (Z.lxor a b).
Proof.
  intros Ha Hb. assert (H : Z.lxor a b = Z.lxor a b mod 2 ^ 8).
  { apply Z.bits_inj'. intros n Hn. destruct (Z.ltb_spec n 8).
    - now rewrite Z.mod_pow2_bits_low by lia.
    - rewrite Z.mod_pow2_bits_high, Z.lxor_spec, !u8_testbit by (assumption || lia). reflexivity. }
  rewrite H. apply Z.mod_pos_bound. reflexivity.
Qed.

Lemma lor_disjoint hi idx : in_u8 idx -> Z.lor (Z.shiftl hi 8) idx = Z.lxor (Z.shiftl hi 8) idx.
Proof.
  intros Hi. apply Z.bits_inj'. intros n Hn. rewrite Z.lor_spec, Z.lxor_spec. destruct (Z.ltb_spec n 8).
  - rewrite Z.shiftl_spec_low by lia. now destruct (Z.testbit idx n).
  - rewrite (u8_testbit idx) by (assumption || lia). now rewrite orb_false_r, xorb_false_r.
Qed.

Lemma tableStep_bits hi idx : in_u8 hi -> in_u8 idx ->
  tableStep hi idx = Some (Nat.iter 8 crcShift (Z.lor (Z.shiftl hi 8) idx)).
Proof.
  intros Hh Hi. pose proof tables_checked as H. rewrite forallb_forall in H.
  pose proof (H hi (elem_bytes256 _ Hh)) as Hc. apply andb_prop in Hc as [_ Hc]. apply Z.eqb_eq in Hc.
  specialize (H idx (elem_bytes256 _ Hi)). apply andb_prop in H as [H _]. apply bool_decide_eq_true in H.
  rewrite (lor_disjoint hi idx Hi), iter_crcShift_lxor, Hc. unfold tableStep in *.
  set (X := Nat.iter 8 crcShift idx) in *. clearbody X. clear Hc.
  destruct (table_entry g_auchCRCHi idx eq_refl (proj1 tables_bytes) Hi) as (h & Eh & Rh). rewrite Eh in *.
  destruct (g_auchCRCLo !! _); [|discriminate]. rewrite Z.lxor_0_l in H. injection H as H. rewrite <- H.
  rewrite !lor_disjoint by (auto using lxor_u8). f_equal.
  now rewrite (Z.lxor_comm hi h), <- Z.lxor_assoc, (Z.lxor_comm hi).
Qed.

Lemma lxor_low hi lo b : in_u8 lo -> in_u8 b ->
  Z.lxor (Z.lor (Z.shiftl hi 8) lo) b = Z.lor (Z.shiftl hi 8) (Z.lxor lo b).
Proof.
  intros Hl Hb. apply Z.bits_inj'. intros n Hn. rewrite Z.lxor_spec, !Z.lor_spec, Z.lxor_spec.
  destruct (Z.ltb_spec n 8).
  - rewrite Z.shiftl_spec_low by lia. reflexivity.
  - rewrite (u8_testbit lo), (u8_testbit b) by (assumption || lia). now rewrite !orb_false_r, xorb_false_r.
Qed.

Lemma crcLoop_modbus l : forall hi lo, in_u8 hi -> in_u8 lo -> forall rest,
  exists hi' lo', crcLoop (length l) (l ++ rest) hi lo = Some (hi', lo') /\ in_u8 hi' /\ in_u8 lo' /\
    Z.lor (Z.shiftl hi' 8) lo' = fold_left crcByte l (Z.lor (Z.shiftl hi 8) lo).
Proof.
  induction l as [|b l IH]; intros hi lo Hh Hl rest.
  { exists hi, lo. auto. }
  pose proof (lxor_u8 lo (byteZ b) Hl (byteZ_range b)) as Hi.
  destruct (table_entry g_auchCRCHi (Z.lxor lo (byteZ b)) eq_refl (proj1 tables_bytes) Hi) as (h & Eh & Rh).
  destruct (table_entry g_auchCRCLo (Z.lxor lo (byteZ b)) eq_refl (proj2 tables_bytes) Hi) as (g & Eg & Rg).
  cbn [length crcLoop app]. rewrite Eh, Eg.
  destruct (IH g (Z.lxor hi h) Rg (lxor_u8 _ _ Hh Rh) rest) as (hi' & lo' & E1 & R1 & R2 & E2).
  exists hi', lo'. split_and!; auto; try apply R1; try apply R2. rewrite E2. cbn [fold_left]. f_equal.
  pose proof (tableStep_bits hi (Z.lxor lo (byteZ b)) Hh Hi) as T. unfold tableStep in T.
  rewrite Eh, Eg in T. unfold crcByte. rewrite lxor_low by (auto using byteZ_range).
  set (X := Nat.iter 8 crcShift _) in *. clearbody X. congruence.
Qed.

Lemma lor_u16 hi lo : in_u8 hi -> in_u8 lo -> in_u16 (Z.lor (Z.shiftl hi 8) lo).
Proof.
  intros Hh Hl. assert (H : Z.lor (Z.shiftl hi 8) lo = Z.lor (Z.shiftl hi 8) lo mod 2 ^ 16).
  { apply Z.bits_inj'. intros n Hn. destruct (Z.ltb_spec n 16).
    - now rewrite Z.mod_pow2_bits_low by lia.
    - rewrite Z.mod_pow2_bits_high, Z.lor_spec, Z.shiftl_spec by lia.
      rewrite !u8_testbit by (assumption || lia). reflexivity. }
  rewrite H. apply Z.mod_pos_bound. reflexivity.
Qed.

Lemma RTU_CRC_value (l rest : list byte) (H : Z.of_nat (length l) <= UINT16_MAX) :
  RTU_CRC (l ++ rest) (Z.of_nat (length l)) = Some (modbus l) /\ in_u16 (modbus l).
Proof.
  unfold RTU_CRC. rewrite u16_small by (unfold in_u16; lia). rewrite Nat2Z.id.
  destruct (crcLoop_modbus l 255 255) with (rest := rest) as (hi & lo & -> & Rh & Rl & E); [split; lia..|].
  pose proof (lor_u16 _ _ Rh Rl) as R. rewrite u16_small by exact R.
  change (Z.lor (Z.shiftl 255 8) 255) with 65535 in E. fold (modbus l) in E. rewrite <- E. auto.
Qed.

(** The table-driven checksum equals the bitwise CRC-16 (reflected polynomial
    0xA001, initial value 0xFFFF) of the bytes, and reads nothing after them. *)
Theorem RTU_CRC_modbus (l rest : list byte) (H : Z.of_nat (length l) <= UINT16_MAX) :
  RTU_CRC (l ++ rest) (Z.of_nat (length l)) = Some (modbus l) /\ in_u16 (modbus l).
Proof. now apply RTU_CRC_value. Qed.

(** The check value of CRC-16/MODBUS: the digits 1 to 9. *)
Lemma RTU_CRC_modbus_witness :
  RTU_CRC (map Zbyte [49; 50; 51; 52; 53; 54; 55; 56; 57] ++ []) 9 = Some 19255 /\ in_u16 19255.
Proof. apply (RTU_CRC_modbus (map Zbyte [49; 50; 51; 52; 53; 54; 55; 56; 57]) []). simpl; lia. Defined.

(** ** The list of names survives the trip *)

Definition goodName (d : list byte) : Prop := 0 < strlen d <= MAX_FILE_PATH_NAME_LEN.

(** The image of the names from number [index] on. *)
Fixpoint items (index : Z) (l : list (list byte)) : list byte :=
  match l with
  | [] => []
  | d :: l' => (be 4 index ++ be 4 (strlen d)) ++ d ++ items (index + 1) l'
  end.

Definition itemsLen (l : list (list byte)) : nat := sum_list_with (fun d => 8 + length d)%nat l.

Lemma length_items l : forall index, length (items index l) = itemsLen l.
Proof.
  induction l as [|d l IH]; intros index; cbn [items]; [reflexivity|].
  rewrite !length_app, IH, !length_be. unfold itemsLen. cbn [sum_list_with]. lia.
Qed.

Lemma itemsLen_count l : (8 * length l <= itemsLen l)%nat.
Proof. unfold itemsLen in *. induction l as [|d l IH]; cbn [sum_list_with length] in *; lia. Qed.

Lemma namesLength_ok l : Forall goodName l -> forall t, 0 <= t ->
  t + Z.of_nat (itemsLen l) <= MAX_MALLOC_SIZE ->
  namesLength l t = Some (t + Z.of_nat (itemsLen l) - 8 * Z.of_nat (length l)).
Proof.
  induction 1 as [|d l Hd _ IH]; intros t Ht Hs; cbn [namesLength length].
  { unfold itemsLen. cbn. f_equal. lia. }
  unfold goodName, strlen in *. change (itemsLen (d :: l)) with (8 + length d + itemsLen l)%nat in *.
  unfold MAX_MALLOC_SIZE in *.
  destruct (Z.eqb_spec (Z.of_nat (length d)) 0); [lia|].
  destruct (Z.ltb_spec MAX_FILE_PATH_NAME_LEN (Z.of_nat (length d))); [lia|]. cbn [orb].
  rewrite u32_small by (unfold in_u32; lia). rewrite IH by lia. f_equal. lia.
Qed.

Lemma fillNames_ok l : Forall goodName l -> forall index pre,
  0 <= index -> index + Z.of_nat (length l) <= UINT32_MAX ->
  Z.of_nat (length pre) + Z.of_nat (itemsLen l) <= MAX_MALLOC_SIZE ->
  fillNames (Z.of_nat (length pre) + Z.of_nat (itemsLen l)) l index (Z.of_nat (length pre))
    (pre ++ replicate (itemsLen l) Byte.x00) =
  Some (SOFTBUS_OK, pre ++ items index l, Z.of_nat (length pre) + Z.of_nat (itemsLen l)).
Proof.
  induction 1 as [|d l Hd _ IH]; intros index pre Hi Hn Hs; cbn [fillNames].
  { unfold itemsLen. cbn. now rewrite Z.add_0_r. }
  unfold goodName, strlen in *. change (itemsLen (d :: l)) with (8 + (length d + itemsLen l))%nat in *.
  unfold MAX_MALLOC_SIZE, MAX_FILE_PATH_NAME_LEN, sizeof_FileListItem in *. cbn [length] in Hn.
  rewrite !replicate_add, (u32_small (Z.of_nat (length d))) by (unfold in_u32; lia).
  rewrite (writeAt_app _ _ pre) by (rewrite ?length_app, ?length_be, ?length_replicate; reflexivity).
  rewrite (u32_small (_ + 8)), u64_small by (unfold in_u32, in_u64; lia).
  replace (memcpy_s _ _) with true by (symmetry; apply memcpy_s_spec; lia). cbn [negb].
  set (hd := be 4 index ++ be 4 (Z.of_nat (length d))).
  assert (Hh : length hd = 8%nat) by (unfold hd; now rewrite length_app, !length_be).
  rewrite (app_assoc pre hd).
  rewrite (writeAt_app _ _ (pre ++ hd)) by (rewrite ?length_app, ?length_replicate; lia).
  rewrite !u32_small by (unfold in_u32; lia).
  specialize (IH (index + 1) ((pre ++ hd) ++ d)). rewrite !length_app, Hh in IH.
  rewrite <- (app_assoc (pre ++ hd)) in IH.
  replace (Z.of_nat (length pre) + 8 + Z.of_nat (length d)) with
    (Z.of_nat (length pre + 8 + length d)) by lia.
  replace (Z.of_nat (length pre) + Z.of_nat (8 + (length d + itemsLen l))) with
    (Z.of_nat (length pre + 8 + length d) + Z.of_nat (itemsLen l)) by lia.
  rewrite IH by lia. cbn [items]. rewrite <- !app_assoc. unfold strlen. reflexivity.
Qed.

Lemma fileListLoop_items l : Forall goodName l -> forall fuel pre index count first,
  0 <= count -> 0 <= index -> Z.of_nat (length pre) + Z.of_nat (itemsLen l) <= MAX_MALLOC_SIZE ->
  count + Z.of_nat (length l) <= INT32_MAX -> index + Z.of_nat (length l) <= UINT32_MAX ->
  (length l < fuel)%nat ->
  fileListLoop fuel (pre ++ items index l) (Z.of_nat (length pre)) count first =
  Some (Some (if count =? 0 then default first (head l) else first, count + Z.of_nat (length l))).
Proof.
  induction 1 as [|d l Hd Hl IH]; intros fuel pre index count first Hc Hi Hs Hm Hx Hf;
    (destruct fuel as [|fuel]; [lia|]); cbn [fileListLoop].
  { rewrite app_nil_r. unfold sizeof_FileListItem.
    destruct (Z.leb_spec (Z.of_nat (length pre)) (Z.of_nat (length pre) - 8)); [lia|]. cbn.
    rewrite Z.add_0_r. now destruct (count =? 0). }
  cbn [items head length] in *. unfold goodName, strlen in *.
  change (itemsLen (d :: l)) with (8 + (length d + itemsLen l))%nat in *.
  unfold MAX_MALLOC_SIZE, sizeof_FileListItem in *.
  set (hd := be 4 index). set (ln := be 4 (Z.of_nat (length d))).
  assert (Hh : length hd = 4%nat) by apply length_be.
  assert (Hn : length ln = 4%nat) by apply length_be.
  assert (El : length (pre ++ (hd ++ ln) ++ d ++ items (index + 1) l) =
    (length pre + 8 + length d + itemsLen l)%nat).
  { rewrite !length_app, Hh, Hn, length_items. lia. }
  rewrite El. destruct (Z.leb_spec (Z.of_nat (length pre)) (Z.of_nat (length pre + 8 + length d + itemsLen l) - 8)); [|lia].
  cbn [negb].
  assert (R1 : readAt (Z.of_nat (length pre) + 4) 4 (pre ++ (hd ++ ln) ++ d ++ items (index + 1) l) = Some ln).
  { rewrite <- (app_assoc hd), app_assoc. apply readAt_app; rewrite ?length_app; lia. }
  assert (Ud : forall z, 0 <= z <= 536870912 -> u32 z = z) by (intros; apply u32_small; unfold in_u32; lia).
  assert (En : unbe ln = Z.of_nat (length d)) by (unfold ln; rewrite unbe_be_u32; apply Ud; lia).
  rewrite R1, En, (Ud (Z.of_nat (length pre) + 8)) by lia.
  rewrite (Ud (_ - _)), (Ud (_ + 8 + _)) by lia.
  assert (R2 : readAt (Z.of_nat (length pre) + 8) (Z.of_nat (length d))
    (pre ++ (hd ++ ln) ++ d ++ items (index + 1) l) = Some d).
  { rewrite (app_assoc pre). apply readAt_app; rewrite ?length_app; lia. }
  destruct (Z.ltb_spec (Z.of_nat (length pre + 8 + length d + itemsLen l) - (Z.of_nat (length pre) + 8)) (Z.of_nat (length d))); [lia|].
  destruct (Z.ltb_spec MAX_FILE_PATH_NAME_LEN (Z.of_nat (length d))); [lia|]. cbn [orb].
  specialize (IH fuel ((pre ++ (hd ++ ln)) ++ d) (index + 1) (count + 1)).
  rewrite <- !app_assoc in IH. rewrite !length_app, Hh, Hn in IH.
  replace (Z.of_nat (length pre + (4 + (4 + length d)))) with (Z.of_nat (length pre) + 8 + Z.of_nat (length d)) in IH by lia.
  rewrite (s32_small (count + 1)) by (unfold in_s32; lia).
  rewrite <- !app_assoc in *. destruct (Z.eqb_spec count 0) as [->|Hz].
  - replace (memcpy_s _ _) with true by (symmetry; apply memcpy_s_spec; unfold MAX_FILE_PATH_NAME_LEN in *; lia).
    cbn [negb]. rewrite R2, IH by lia. cbn. f_equal. f_equal. f_equal. lia.
  - rewrite IH by lia. destruct (Z.eqb_spec (count + 1) 0); [lia|]. f_equal. f_equal. f_equal. lia.
Qed.

(** The list of names that ends a transfer: for names of at most 512 bytes, the
    receiver of FileListToBuffer's bytes gets the first name and the number of
    names, and both sides stay inside their buffers. *)
Theorem file_list_roundtrip (libc libc' : Z -> bool) (d : list byte) (l : list (list byte))
    (Hnames : Forall goodName (d :: l))
    (Hsize : Z.of_nat (itemsLen (d :: l)) <= MAX_MALLOC_SIZE)
    (Hmem : libc (Z.of_nat (itemsLen (d :: l))) = true)
    (Hmem' : libc' (MAX_FILE_PATH_NAME_LEN + 1) = true) :
  exists buffer, FileListToBuffer libc (Some (d :: l)) = Some (SOFTBUS_OK, buffer) /\
    BufferToFileList libc' (Some buffer) = Some (Some (d, Z.of_nat (length (d :: l)))).
Proof.
  pose proof (itemsLen_count (d :: l)) as Hc. cbn [length] in Hc.
  exists (items 0 (d :: l)). unfold FileListToBuffer, BufferToFileList.
  destruct (Z.eqb_spec (Z.of_nat (length (d :: l))) 0); [cbn in *; lia|].
  rewrite namesLength_ok by (auto; lia).
  replace (0 + Z.of_nat (itemsLen (d :: l)) - 8 * Z.of_nat (length (d :: l)) +
    sizeof_FileListItem * Z.of_nat (length (d :: l))) with (Z.of_nat (itemsLen (d :: l)))
    by (unfold sizeof_FileListItem; lia).
  unfold MAX_MALLOC_SIZE in Hsize.
  rewrite u64_small, u32_small, Nat2Z.id by (unfold in_u32, in_u64; lia).
  rewrite SoftBusCalloc_true by (unfold MAX_MALLOC_SIZE; auto; lia). cbn [negb].
  pose proof (fillNames_ok (d :: l) Hnames 0 []) as Hf.
  change (Z.of_nat (length [])) with 0 in Hf. rewrite !Z.add_0_l, !app_nil_l in Hf.
  rewrite Hf by (unfold MAX_MALLOC_SIZE; cbn [length]; lia). cbn [negb Z.eqb SOFTBUS_OK].
  rewrite Nat2Z.id, take_ge by (rewrite length_items; lia). split; [reflexivity|].
  rewrite length_items. unfold sizeof_FileListItem.
  destruct (Z.ltb_spec (Z.of_nat (itemsLen (d :: l))) 8); [lia|].
  rewrite SoftBusCalloc_true by (unfold MAX_MALLOC_SIZE, MAX_FILE_PATH_NAME_LEN in *; auto; lia). cbn [negb].
  pose proof (fileListLoop_items (d :: l) Hnames (S (itemsLen (d :: l))) [] 0 0 []) as Hr.
  change (Z.of_nat (length [])) with 0 in Hr. rewrite !Z.add_0_l, !app_nil_l in Hr.
  rewrite Hr by (unfold MAX_MALLOC_SIZE; cbn [length]; lia). reflexivity.
Qed.

Lemma file_list_roundtrip_witness : exists buffer,
  FileListToBuffer (fun _ => true) (Some [[Byte.x61]; [Byte.x62; Byte.x63]]) = Some (SOFTBUS_OK, buffer) /\
  BufferToFileList (fun _ => true) (Some buffer) = Some (Some ([Byte.x61], 2)).
Proof.
  apply (file_list_roundtrip (fun _ => true) (fun _ => true) [Byte.x61] [[Byte.x62; Byte.x63]]);
    [|unfold MAX_MALLOC_SIZE; cbn; lia|reflexivity|reflexivity].
  repeat constructor; unfold goodName, strlen, MAX_FILE_PATH_NAME_LEN; cbn; lia.
Defined.

Lemma fileListLoop_total b : in_u32 (Z.of_nat (length b)) -> forall fuel offset count first,
  0 <= offset -> Z.of_nat (length b) < offset + Z.of_nat fuel ->
  offset <= Z.of_nat (length b) -> exists r, fileListLoop fuel b offset count first = Some r.
Proof.
  intros Hb. induction fuel as [|fuel IH]; intros offset count first H0 Hf Ho; [lia|].
  cbn [fileListLoop]. unfold sizeof_FileListItem, in_u32 in *.
  destruct (Z.leb_spec offset (Z.of_nat (length b) - 8)); cbn [negb]; [|eauto].
  destruct (readAt_ok (offset + 4) 4 b) as (w & -> & Hw); [lia..|].
  assert (Hr : in_u32 (unbe w)) by (apply unbe4_range; lia). unfold in_u32 in Hr.
  rewrite (u32_small (offset + 8)), (u32_small (_ - _)) by (unfold in_u32; lia).
  destruct (Z.ltb_spec (Z.of_nat (length b) - (offset + 8)) (unbe w)); cbn [orb]; [eauto|].
  destruct (MAX_FILE_PATH_NAME_LEN <? unbe w); [eauto|].
  rewrite u32_small by (unfold in_u32; lia).
  destruct (count =? 0); [|apply IH; lia].
  destruct (negb _); [eauto|].
  destruct (readAt_ok (offset + 8) (unbe w) b) as (nm & -> & _); [lia..|]. apply IH; lia.
Qed.

(** Whatever bytes arrive, the parser of the list of names ends and reads only
    inside them. *)
Theorem BufferToFileList_safe (libc : Z -> bool) (b : list byte) (Hb : in_u32 (Z.of_nat (length b))) :
  exists r, BufferToFileList libc (Some b) = Some r.
Proof.
  unfold BufferToFileList. destruct (_ <? _); [eauto|]. destruct (negb _); [eauto|].
  apply fileListLoop_total; auto; lia.
Qed.

Lemma BufferToFileList_safe_witness :
  exists r, BufferToFileList (fun _ => true) (Some (replicate 20 Byte.xff)) = Some r.
Proof. apply BufferToFileList_safe. unfold in_u32. simpl. lia. Defined.

(** ** Data frames *)

(** The image of the data frame number [s] with content [bytes]. *)
Definition dataFrame (s : Z) (bytes : list byte) : list byte :=
  le 4 FILE_MAGIC_NUMBER ++ le 8 (Z.of_nat (length bytes) + FRAME_DATA_SEQ_OFFSET) ++ le 4 s ++
  bytes ++ le 2 (modbus bytes).

Lemma length_dataFrame s bytes : length (dataFrame s bytes) = (18 + length bytes)%nat.
Proof. unfold dataFrame. rewrite !length_app, !length_le. lia. Qed.

(** A buffer cut at the fields of a frame with [n] bytes of content. *)
Lemma frame_fields n (d : list byte) : (18 + n <= length d)%nat ->
  exists a b c e f r, d = a ++ b ++ c ++ e ++ f ++ r /\
    length a = 4%nat /\ length b = 8%nat /\ length c = 4%nat /\ length e = n /\ length f = 2%nat /\
    length r = (length d - (18 + n))%nat.
Proof.
  intros H. exists (take 4 d), (take 8 (drop 4 d)), (take 4 (drop 12 d)), (take n (drop 16 d)),
    (take 2 (drop (16 + n) d)), (drop (18 + n) d).
  rewrite !length_take, !length_drop. split_and!; try lia.
  replace (drop (18 + n) d) with (drop 2 (drop (16 + n) d)) by (rewrite drop_drop; f_equal; lia).
  rewrite (take_drop 2). replace (drop (16 + n) d) with (drop n (drop 16 d)) by (rewrite drop_drop; f_equal; lia).
  rewrite (take_drop n). replace (drop 16 d) with (drop 4 (drop 12 d)) by (rewrite drop_drop; reflexivity).
  rewrite (take_drop 4). replace (drop 12 d) with (drop 8 (drop 4 d)) by (rewrite drop_drop; reflexivity).
  now rewrite (take_drop 8), (take_drop 4).
Qed.

(** The content and then the fields, stored into a buffer that is big enough,
    give the frame. *)
Lemma storeDataFrame_image fr bytes d0 s :
  magic fr = FILE_MAGIC_NUMBER -> fdOff fr = FRAME_HEAD_LEN ->
  0 < Z.of_nat (length bytes) -> (18 + length bytes <= length d0)%nat -> Z.of_nat (length bytes) <= UINT16_MAX ->
  exists d1 r, writeAt (FRAME_HEAD_LEN + FRAME_DATA_SEQ_OFFSET) bytes d0 = Some d1 /\
    RTU_CRC (drop (Z.to_nat (FRAME_HEAD_LEN + FRAME_DATA_SEQ_OFFSET)) d1) (Z.of_nat (length bytes)) =
      Some (modbus bytes) /\
    forall fr', magic fr' = magic fr -> fdOff fr' = fdOff fr -> data fr' = d1 ->
      storeDataFrame fr' (Z.of_nat (length bytes) + FRAME_DATA_SEQ_OFFSET) s (modbus bytes) =
      Some (setData fr' (dataFrame s bytes ++ r)) /\ length (dataFrame s bytes ++ r) = length d0.
Proof.
  intros Hm Ho Hp Hd Hl. destruct (frame_fields _ _ Hd) as (a & b & c & e & f & r & -> & La & Lb & Lc & Le & Lf & Lr).
  exists ((a ++ b ++ c) ++ bytes ++ f ++ r), r. unfold FRAME_HEAD_LEN, FRAME_DATA_SEQ_OFFSET in *.
  split; [|split].
  - replace (a ++ b ++ c ++ e ++ f ++ r) with ((a ++ b ++ c) ++ e ++ f ++ r) by (now rewrite <- !app_assoc).
    apply writeAt_app; rewrite ?length_app; lia.
  - rewrite drop_app_length' by (rewrite !length_app; lia). now apply RTU_CRC_value.
  - intros fr' Hm' Ho' Hd'. unfold storeDataFrame. rewrite Hm', Hm, Ho', Ho, Hd'. rewrite <- !app_assoc.
    rewrite writeAt_app0 by (now rewrite length_le). cbn [mbind option_bind].
    rewrite (writeAt_app _ _ (le 4 FILE_MAGIC_NUMBER) b) by (rewrite ?length_le; auto; lia). cbn [mbind option_bind].
    set (M := le 4 FILE_MAGIC_NUMBER). set (L := le 8 (Z.of_nat (length bytes) + 4)).
    assert (LM : length M = 4%nat) by apply length_le. assert (LL : length L = 8%nat) by apply length_le.
    rewrite (app_assoc M).
    rewrite (writeAt_app 12 _ (M ++ L) c) by (rewrite ?length_app, ?length_le; lia). cbn [mbind option_bind].
    replace ((M ++ L) ++ le 4 s ++ bytes ++ f ++ r) with (((M ++ L) ++ le 4 s ++ bytes) ++ f ++ r)
      by (now rewrite <- !app_assoc).
    rewrite writeAt_app by (rewrite ?length_app, ?length_le; lia). cbn [mbind option_bind].
    replace (((M ++ L) ++ le 4 s ++ bytes) ++ le 2 (modbus bytes) ++ r) with (dataFrame s bytes ++ r)
      by (unfold dataFrame; now rewrite <- !app_assoc).
    split; [reflexivity|]. rewrite length_app, length_dataFrame, !length_app. lia.
Qed.

Definition frameBytes (fr : FileFrame) : list byte := take (Z.to_nat (frameLength fr)) (data fr).

Lemma withCrc_true i : withCrc (crc i) (osType i) = true ->
  (crc i =? APP_INFO_FILE_FEATURES_SUPPORT) && (osType i =? OH_TYPE) = true.
Proof. auto. Qed.

(** What PackReadFileData puts into the channel's buffer. *)
Lemma PackReadFileData_frame pread fr rl off info bytes :
  withCrc (crc info) (osType info) = true ->
  pread rl off = Some bytes -> magic fr = FILE_MAGIC_NUMBER -> fdOff fr = FRAME_HEAD_LEN ->
  0 < Z.of_nat (length bytes) -> Z.of_nat (18 + length bytes) <= packetSize info ->
  Z.of_nat (length (data fr)) = packetSize info -> packetSize info <= UINT16_MAX ->
  exists fr', PackReadFileData pread fr rl off info =
    Some (Z.of_nat (length bytes), fr', setSeq info (u32 (seq info + 1)) (u64 (checkSumCRC info + modbus bytes))) /\
    frameBytes fr' = dataFrame (u32 (seq info + 1)) bytes /\ frameType fr' = frameType fr /\
    frameLength fr' = Z.of_nat (18 + length bytes) /\ length (data fr') = length (data fr) /\
    magic fr' = FILE_MAGIC_NUMBER /\ fdOff fr' = FRAME_HEAD_LEN.
Proof.
  intros Hw Hr Hm Ho Hp Hs Hd Hk. unfold PackReadFileData. rewrite Hr, Ho.
  destruct (storeDataFrame_image fr bytes (data fr) (u32 (seq info + 1)) Hm Ho Hp) as (d1 & r & E1 & E2 & E3); [lia..|].
  rewrite E1. cbn [mbind option_bind].
  destruct (Z.leb_spec (Z.of_nat (length bytes)) 0); [lia|].
  rewrite (withCrc_true _ Hw). rewrite (u64_small (_ + FRAME_DATA_SEQ_OFFSET)) by (unfold in_u64, FRAME_DATA_SEQ_OFFSET; lia).
  set (fr1 := setLength _ _). specialize (E3 fr1 eq_refl eq_refl eq_refl) as [E3 E4].
  assert (El : frameLength fr1 = Z.of_nat (18 + length bytes)).
  { unfold fr1. cbn [setLength frameLength]. unfold FRAME_HEAD_LEN, FRAME_DATA_SEQ_OFFSET, FRAME_CRC_LEN.
    rewrite u32_small; [lia|unfold in_u32; lia]. }
  rewrite El. destruct (Z.ltb_spec (packetSize info) (Z.of_nat (18 + length bytes))); [lia|].
  rewrite E2. cbn [mbind option_bind]. rewrite E3. cbn [mbind option_bind].
  eexists. split; [reflexivity|]. unfold frameBytes. cbn [setData data frameLength frameType magic fdOff].
  rewrite El, Nat2Z.id, take_app_length' by (now rewrite length_dataFrame). auto 10.
Qed.

Lemma le_unle_field l n : length l = n -> le n (unle l) = l.
Proof. intros <-. apply le_unle. Qed.

Lemma field_app off n a b c : off = Z.of_nat (length a) -> n = Z.of_nat (length b) ->
  field off n (a ++ b ++ c) = Some (unle b).
Proof. intros -> ->. unfold field. now rewrite readAt_app. Qed.

(** What UnpackFileDataFrame makes of such a frame. *)
Lemma UnpackFileDataFrame_frame rcrc ros s bytes ft fs fc fo :
  withCrc rcrc ros = true -> in_u32 s -> 0 < Z.of_nat (length bytes) -> Z.of_nat (length bytes) <= UINT16_MAX ->
  UnpackFileDataFrame rcrc ros
    (mkFrame 0 ft (Z.of_nat (18 + length bytes)) fs fc (dataFrame s bytes) fo) =
  Some (SOFTBUS_OK,
    mkFrame FILE_MAGIC_NUMBER ft (Z.of_nat (18 + length bytes)) s (modbus bytes) (dataFrame s bytes) FRAME_HEAD_LEN,
    Z.of_nat (length bytes) + FRAME_DATA_SEQ_OFFSET).
Proof.
  intros Hw Hs Hp Hl. unfold UnpackFileDataFrame. rewrite Hw. cbn [frameLength data].
  unfold FRAME_HEAD_LEN, FRAME_DATA_SEQ_OFFSET, FRAME_CRC_LEN, FRAME_MAGIC_OFFSET.
  destruct (Z.leb_spec (Z.of_nat (18 + length bytes)) (12 + 4 + 2)); [lia|].
  set (n := Z.of_nat (length bytes)).
  assert (Hcrc := proj2 (RTU_CRC_value bytes [] ltac:(lia))).
  assert (F1 : field 0 4 (dataFrame s bytes) = Some FILE_MAGIC_NUMBER) by
    exact (field_app 0 4 [] (le 4 FILE_MAGIC_NUMBER) _ eq_refl eq_refl).
  assert (F2 : field 4 8 (dataFrame s bytes) = Some (n + 4)).
  { unfold dataFrame. rewrite field_app by (rewrite length_le; reflexivity). rewrite unle_le_u64, u64_small;
      [reflexivity|unfold in_u64, FRAME_DATA_SEQ_OFFSET; lia]. }
  assert (F3 : field 12 4 (dataFrame s bytes) = Some s).
  { unfold dataFrame. rewrite (app_assoc (le 4 _)), field_app by (rewrite ?length_app, !length_le; reflexivity).
    now rewrite unle_le_u32, u32_small. }
  assert (F4 : field (12 + (n + 4)) 2 (dataFrame s bytes) = Some (modbus bytes)).
  { unfold dataFrame. rewrite <- (app_nil_r (le 2 _)).
    replace (le 4 FILE_MAGIC_NUMBER ++ le 8 (Z.of_nat (length bytes) + FRAME_DATA_SEQ_OFFSET) ++ le 4 s ++ bytes ++ le 2 (modbus bytes) ++ [])
      with ((le 4 FILE_MAGIC_NUMBER ++ le 8 (Z.of_nat (length bytes) + FRAME_DATA_SEQ_OFFSET) ++ le 4 s ++ bytes) ++ le 2 (modbus bytes) ++ [])
      by (now rewrite <- !app_assoc).
    rewrite field_app by (rewrite ?length_app, !length_le; unfold n; lia). now rewrite unle_le_u16, u16_small. }
  rewrite F1, F2. cbn [mbind option_bind]. rewrite u32_small by (unfold in_u32; lia).
  replace (n + 4 =? _) with true by (symmetry; apply Z.eqb_eq; lia). rewrite Z.eqb_refl. cbn [negb orb].
  rewrite F3, F4. cbn [mbind option_bind]. replace (n + 4 - 4) with n by lia.
  replace (drop (Z.to_nat (12 + 4)) (dataFrame s bytes)) with (bytes ++ le 2 (modbus bytes)).
  2: { unfold dataFrame. rewrite (app_assoc (le 8 _)), (app_assoc (le 4 FILE_MAGIC_NUMBER)).
       symmetry. apply drop_app_length'. rewrite !length_app, !length_le. reflexivity. }
  rewrite (proj1 (RTU_CRC_value bytes _ ltac:(lia))). cbn [mbind option_bind]. rewrite Z.eqb_refl. cbn [negb].
  rewrite u32_small by (unfold in_u32; lia). reflexivity.
Qed.

Lemma parsed_frame d n a b c e f : d = a ++ b ++ c ++ e ++ f -> length a = 4%nat -> length b = 8%nat ->
  length c = 4%nat -> length e = n -> length f = 2%nat ->
  field 0 4 d = Some (unle a) /\ field 4 8 d = Some (unle b) /\ field 12 4 d = Some (unle c) /\
  field (16 + Z.of_nat n) 2 d = Some (unle f) /\ drop 16 d = e ++ f.
Proof.
  intros -> La Lb Lc Le Lf. split_and!.
  - exact (field_app 0 4 [] a _ eq_refl ltac:(lia)).
  - apply field_app; lia.
  - rewrite app_assoc. apply field_app; rewrite ?length_app; lia.
  - replace (a ++ b ++ c ++ e ++ f) with ((a ++ b ++ c ++ e) ++ f ++ []) by (now rewrite app_nil_r, <- !app_assoc).
    apply field_app; rewrite ?length_app; lia.
  - rewrite (app_assoc b), (app_assoc a). apply drop_app_length'. rewrite !length_app. lia.
Qed.

Lemma UnpackFileDataFrame_accepts (rcrc ros : Z) (fr : FileFrame)
    (Hlen : frameLength fr = Z.of_nat (length (data fr)))
    (Hmax : frameLength fr <= UINT16_MAX) :
  exists ret fr' dataLen, UnpackFileDataFrame rcrc ros fr = Some (ret, fr', dataLen) /\
    (ret = SOFTBUS_OK -> withCrc rcrc ros = true ->
     exists bytes, data fr = dataFrame (frameSeq fr') bytes /\ frameCrc fr' = modbus bytes /\
       bytes <> [] /\ dataLen = Z.of_nat (length bytes) + FRAME_DATA_SEQ_OFFSET /\
       data fr' = data fr /\ fdOff fr' = FRAME_HEAD_LEN /\ frameType fr' = frameType fr /\ in_u32 (frameSeq fr')).
Proof.
  unfold UnpackFileDataFrame. destruct (withCrc rcrc ros).
  2: { destruct (Z.leb_spec (frameLength fr) FRAME_DATA_SEQ_OFFSET) as [|H]; [naive_solver|].
       unfold FRAME_DATA_SEQ_OFFSET in H. unfold field.
       destruct (readAt_ok 0 4 (data fr)) as (w & -> & _); [lia..|]. cbn. naive_solver. }
  unfold FRAME_HEAD_LEN, FRAME_DATA_SEQ_OFFSET, FRAME_CRC_LEN, FRAME_MAGIC_OFFSET.
  destruct (Z.leb_spec (frameLength fr) (12 + 4 + 2)) as [|H]; [naive_solver discriminate|].
  set (n := (length (data fr) - 18)%nat).
  destruct (frame_fields n (data fr)) as (a & b & c & e & f & r & E & La & Lb & Lc & Le & Lf & Lr); [lia|].
  assert (r = []) as -> by (apply nil_length_inv; lia). rewrite app_nil_r in E.
  destruct (parsed_frame (data fr) n a b c e f) as (F1 & F2 & F3 & F4 & F5); auto.
  rewrite F1, F2. cbn [mbind option_bind].
  destruct (negb (unle a =? FILE_MAGIC_NUMBER) || _) eqn:Eh.
  { do 3 eexists. split; [reflexivity|]. discriminate. }
  zbool. rewrite u32_small in * by (unfold in_u32; lia).
  assert (Hb : unle b = Z.of_nat n + 4) by lia. rewrite Hb, F3.
  replace (12 + (Z.of_nat n + 4)) with (16 + Z.of_nat n) by lia. rewrite F4. cbn [mbind option_bind].
  change (Z.to_nat (12 + 4)) with 16%nat. rewrite F5. replace (Z.of_nat n + 4 - 4) with (Z.of_nat (length e)) by lia.
  destruct (RTU_CRC_value e f ltac:(lia)) as [-> Hc]. cbn [mbind option_bind].
  destruct (Z.eqb_spec (modbus e) (unle f)) as [Ec|Ec]; cbn [negb].
  2: { do 3 eexists. split; [reflexivity|]. discriminate. }
  do 3 eexists. split; [reflexivity|]. intros _ _. exists e. cbn [frameSeq frameCrc data fdOff frameType].
  rewrite (u32_small (Z.of_nat n + 4)) by (unfold in_u32; lia).
  split_and!; auto; [|intros ->; cbn in *; lia|lia|now apply unle4_range].
  assert (Em : unle a = FILE_MAGIC_NUMBER) by assumption.
  unfold dataFrame. rewrite E, <- Em, (le_unle_field a 4), (le_unle_field c 4), Ec, (le_unle_field f 2) by assumption.
  replace (Z.of_nat (length e) + FRAME_DATA_SEQ_OFFSET) with (unle b) by (rewrite Hb; unfold FRAME_DATA_SEQ_OFFSET; lia).
  now rewrite (le_unle_field b 8).
Qed.

(** Whatever bytes arrive as a data frame, unpacking stays inside them, and a
    frame that is accepted is the image of its number and its content: a wrong
    magic number, length or CRC is always noticed. *)
Theorem UnpackFileDataFrame_sound (rcrc ros : Z) (fr : FileFrame)
    (Hlen : frameLength fr = Z.of_nat (length (data fr)))
    (Hmax : frameLength fr <= UINT16_MAX) :
  exists ret fr' dataLen, UnpackFileDataFrame rcrc ros fr = Some (ret, fr', dataLen) /\
    (ret = SOFTBUS_OK -> withCrc rcrc ros = true ->
     exists bytes, data fr = dataFrame (frameSeq fr') bytes /\ frameCrc fr' = modbus bytes /\
       bytes <> [] /\ dataLen = Z.of_nat (length bytes) + FRAME_DATA_SEQ_OFFSET /\
       data fr' = data fr /\ fdOff fr' = FRAME_HEAD_LEN /\ frameType fr' = frameType fr /\ in_u32 (frameSeq fr')).
Proof. now apply UnpackFileDataFrame_accepts. Qed.

Lemma UnpackFileDataFrame_sound_witness :
  exists ret fr' dataLen, UnpackFileDataFrame 1 10
      (mkFrame 0 4 20 0 0 (dataFrame 7 [Byte.x01; Byte.x02]) 0) = Some (ret, fr', dataLen) /\
    (ret = SOFTBUS_OK -> withCrc 1 10 = true ->
     exists bytes, dataFrame 7 [Byte.x01; Byte.x02] = dataFrame (frameSeq fr') bytes /\
       frameCrc fr' = modbus bytes /\ bytes <> [] /\
       dataLen = Z.of_nat (length bytes) + FRAME_DATA_SEQ_OFFSET /\
       data fr' = dataFrame 7 [Byte.x01; Byte.x02] /\ fdOff fr' = FRAME_HEAD_LEN /\ frameType fr' = 4 /\
       in_u32 (frameSeq fr')).
Proof.
  apply (UnpackFileDataFrame_sound 1 10 (mkFrame 0 4 20 0 0 (dataFrame 7 [Byte.x01; Byte.x02]) 0));
    [reflexivity|cbn; lia].
Defined.

(** ** Retransmission *)

(** The content of data frame [s], counted from 1, of a file cut at [F]. *)
Definition chunk (F : Z) (f : list byte) (s : Z) : list byte :=
  take (Z.to_nat F) (drop (Z.to_nat ((s - 1) * F)) f).

(** The bytes of a data frame's content in packets of [p] bytes. *)
Definition frameDataSize (p : Z) : Z := p - FRAME_HEAD_LEN - FRAME_DATA_SEQ_OFFSET - FRAME_CRC_LEN.

(** A regular file: SoftBusPreadFile reads what there is. *)
Definition preadFile (f : list byte) (readLength offset : Z) : option (list byte) :=
  Some (take (Z.to_nat readLength) (drop (Z.to_nat offset) f)).

Lemma length_chunk F f s : 0 < F -> 1 <= s -> (s - 1) * F < Z.of_nat (length f) ->
  Z.of_nat (length (chunk F f s)) = Z.min F (Z.of_nat (length f) - (s - 1) * F).
Proof. intros HF Hs H. unfold chunk. rewrite length_take, length_drop. nia. Qed.

(** Reading at most the remaining bytes reads the chunk. *)
Lemma preadFile_chunk f F s rem : 0 < F -> 1 <= s -> rem = Z.of_nat (length f) - (s - 1) * F -> 0 <= rem ->
  preadFile f (if rem <? F then rem else F) ((s - 1) * F) = Some (chunk F f s).
Proof.
  intros HF Hs -> Hr. unfold preadFile, chunk. f_equal.
  destruct (Z.ltb_spec (Z.of_nat (length f) - (s - 1) * F) F); [|reflexivity].
  rewrite !take_ge; [reflexivity|rewrite length_drop; lia..].
Qed.

Section Retrans.

Context {E : Type} (libc : Z -> bool) (getInfo : Z -> Z) (packAndSend : Z -> list byte -> Z -> E -> Z * E).

(** A retransmitted frame has the image of the first transmission. *)
Lemma RetransFileFrameBySeq_frame f info s e :
  withCrc (crc info) (osType info) = true ->
  FRAME_HEAD_LEN + FRAME_DATA_SEQ_OFFSET + FRAME_CRC_LEN < packetSize info <= UINT16_MAX ->
  fileSize info = Z.of_nat (length f) -> fileSize info <= INT32_MAX -> 1 <= s <= INT32_MAX ->
  (s - 1) * frameDataSize (packetSize info) < fileSize info ->
  libc (packetSize info) = true -> getInfo (channelId info) = SOFTBUS_OK ->
  RetransFileFrameBySeq libc getInfo packAndSend (preadFile f) info s e =
  let '(ret, e') := packAndSend (channelId info)
    (dataFrame s (chunk (frameDataSize (packetSize info)) f s)) (FrameIndexToType s (frameNum info)) e in
  Some (if (ret =? SOFTBUS_OK) || (0 <? ret) then SOFTBUS_OK else SOFTBUS_TRANS_INVALID_DATA_LENGTH, e').
Proof.
  intros Hw Hp Hf Hfs Hs Ho Hm Hg. unfold RetransFileFrameBySeq.
  pose proof (withCrc_true _ Hw) as Hc. apply andb_prop in Hc as [Hc _]. rewrite Hc. cbn [negb].
  destruct (Z.leb_spec s 0); [lia|].
  unfold FRAME_HEAD_LEN, FRAME_DATA_SEQ_OFFSET, FRAME_CRC_LEN in Hp.
  rewrite SoftBusCalloc_true by (unfold MAX_MALLOC_SIZE; auto; lia). cbn [negb].
  fold (frameDataSize (packetSize info)). set (F := frameDataSize (packetSize info)) in *.
  assert (HF : 0 < F <= UINT16_MAX) by
    (unfold F, frameDataSize, FRAME_HEAD_LEN, FRAME_DATA_SEQ_OFFSET, FRAME_CRC_LEN; lia).
  rewrite (u32_small F), (u32_small s), (u32_small (s - 1)) by (unfold in_u32; lia).
  rewrite (u64_small (F * (s - 1))) by (unfold in_u64; nia).
  rewrite (Z.mul_comm F). destruct (Z.leb_spec (fileSize info) ((s - 1) * F)); [lia|].
  rewrite u64_small by (unfold in_u64; nia).
  unfold PackReadFileRetransData. rewrite (preadFile_chunk f F s) by lia.
  pose proof (length_chunk F f s ltac:(lia) ltac:(lia) ltac:(lia)) as Hl.
  set (bytes := chunk F f s) in *. cbn [fdOff data magic].
  destruct (storeDataFrame_image
    (mkFrame FILE_MAGIC_NUMBER 0 0 0 0 (replicate (Z.to_nat (packetSize info)) Byte.x00) FRAME_HEAD_LEN)
    bytes (replicate (Z.to_nat (packetSize info)) Byte.x00) s eq_refl eq_refl ltac:(lia))
    as (d1 & r & -> & E2 & E3);
    [rewrite length_replicate; unfold F, frameDataSize, FRAME_HEAD_LEN, FRAME_DATA_SEQ_OFFSET, FRAME_CRC_LEN in *; lia|lia|].
  cbn [mbind option_bind]. destruct (Z.leb_spec (Z.of_nat (length bytes)) 0); [lia|].
  rewrite (u64_small (_ + FRAME_DATA_SEQ_OFFSET)) by (unfold in_u64, FRAME_DATA_SEQ_OFFSET; lia).
  set (fr1 := setLength _ _). specialize (E3 fr1 eq_refl eq_refl eq_refl) as [E3 _].
  assert (El : frameLength fr1 = Z.of_nat (18 + length bytes)).
  { unfold fr1. cbn [setLength frameLength]. unfold FRAME_HEAD_LEN, FRAME_DATA_SEQ_OFFSET, FRAME_CRC_LEN.
    rewrite u32_small; [lia|unfold in_u32; lia]. }
  rewrite El. destruct (Z.ltb_spec (packetSize info) (Z.of_nat (18 + length bytes)));
    [unfold F, frameDataSize, FRAME_HEAD_LEN, FRAME_DATA_SEQ_OFFSET, FRAME_CRC_LEN in *; lia|].
  rewrite E2. cbn [mbind option_bind]. rewrite E3. cbn [mbind option_bind setData data frameLength].
  rewrite El, Nat2Z.id, take_app_length' by (now rewrite length_dataFrame).
  unfold ProxyChannelSendFileStream. rewrite Hg. cbn [negb Z.eqb SOFTBUS_OK].
  destruct (packAndSend _ _ _ e) as [ret e']. destruct (Z.eqb_spec ret SOFTBUS_OK) as [->|Hn]; cbn [negb orb].
  - destruct (Z.leb_spec (Z.of_nat (length bytes)) 0); [lia|reflexivity].
  - destruct (Z.leb_spec ret 0), (Z.ltb_spec 0 ret); try lia; reflexivity.
Qed.

End Retrans.

(** ** Short frames *)

Lemma field_le (a c : list byte) n v : 0 <= v < 256 ^ Z.of_nat n ->
  field (Z.of_nat (length a)) (Z.of_nat n) (a ++ le n v ++ c) = Some v.
Proof.
  intros Hv. rewrite field_app by (rewrite ?length_le; reflexivity).
  now rewrite unle_le, Z.mod_small.
Qed.

Section Short.

Context {E : Type} (libc : Z -> bool) (getInfo : Z -> Z) (packAndSend : Z -> list byte -> Z -> E -> Z * E).

(** The image of an acknowledgement and of a result. *)
Definition ackFrame (s v : Z) : list byte := le 4 FILE_MAGIC_NUMBER ++ le 8 8 ++ le 4 s ++ le 4 v.
Definition resultFrame (s result side : Z) : list byte :=
  le 4 FILE_MAGIC_NUMBER ++ le 8 12 ++ le 4 s ++ le 4 side ++ le 4 (u32 result).

Lemma SendFileAck_frame chan s v type e : libc 20 = true -> getInfo chan = SOFTBUS_OK ->
  SendFileAckReqAndResData libc getInfo packAndSend chan s v type e = packAndSend chan (ackFrame s v) type e.
Proof.
  intros Hm Hg. unfold SendFileAckReqAndResData, FRAME_HEAD_LEN, FRAME_DATA_SEQ_OFFSET.
  rewrite SoftBusCalloc_true by (unfold MAX_MALLOC_SIZE; auto; lia). cbn [negb].
  unfold ProxyChannelSendFileStream. rewrite Hg. reflexivity.
Qed.

Lemma SendFileTransResult_frame chan s r side e : libc 24 = true -> getInfo chan = SOFTBUS_OK ->
  SendFileTransResult libc getInfo packAndSend chan s r side e =
  packAndSend chan (resultFrame s r side) TRANS_SESSION_FILE_RESULT_FRAME e.
Proof.
  intros Hm Hg. unfold SendFileTransResult, FRAME_HEAD_LEN, FRAME_DATA_SEQ_OFFSET.
  rewrite SoftBusCalloc_true by (unfold MAX_MALLOC_SIZE; auto; lia). cbn [negb].
  unfold ProxyChannelSendFileStream. rewrite Hg. reflexivity.
Qed.

End Short.

Lemma UnpackAck_frame s v ft fs fc fo m : in_u32 s -> in_u32 v ->
  UnpackAckReqAndResData (mkFrame m ft 20 fs fc (ackFrame s v) fo) = Some (SOFTBUS_OK, Some (s, v)).
Proof.
  intros Hs Hv. unfold UnpackAckReqAndResData. cbn [frameLength data].
  unfold FRAME_HEAD_LEN, FRAME_DATA_SEQ_OFFSET, FRAME_MAGIC_OFFSET. unfold ackFrame.
  assert (F1 := field_le [] (le 8 8 ++ le 4 s ++ le 4 v) 4 FILE_MAGIC_NUMBER ltac:(unfold FILE_MAGIC_NUMBER; lia)).
  assert (F2 := field_le (le 4 FILE_MAGIC_NUMBER) (le 4 s ++ le 4 v) 8 8 ltac:(lia)).
  assert (F3 := field_le (le 4 FILE_MAGIC_NUMBER ++ le 8 8) (le 4 v) 4 s Hs).
  assert (F4 := field_le (le 4 FILE_MAGIC_NUMBER ++ le 8 8 ++ le 4 s) [] 4 v Hv).
  rewrite app_nil_r in F4. rewrite <- !app_assoc in F3. rewrite <- !app_assoc in F4. rewrite app_nil_l in F1.
  rewrite !length_app, !length_le in *. change (Z.of_nat (length [])) with 0 in F1.
  change (Z.of_nat 4) with 4 in *. change (Z.of_nat 8) with 8 in *.
  change (Z.of_nat (4 + 8)) with 12 in *. change (Z.of_nat (4 + (8 + 4))) with (12 + 4) in *.
  rewrite F1, F2. cbn [mbind option_bind]. rewrite F3, F4. reflexivity.
Qed.

Lemma UnpackResult_frame s r side : in_u32 s -> in_s32 r -> in_u32 side ->
  UnpackFileTransResultFrame (Some (resultFrame s r side)) = Some (SOFTBUS_OK, Some (s, r, side)).
Proof.
  intros Hs Hr Hd. unfold UnpackFileTransResultFrame.
  unfold FRAME_HEAD_LEN, FRAME_DATA_SEQ_OFFSET, FRAME_MAGIC_OFFSET. unfold resultFrame.
  assert (F1 := field_le [] (le 8 12 ++ le 4 s ++ le 4 side ++ le 4 (u32 r)) 4 FILE_MAGIC_NUMBER
    ltac:(unfold FILE_MAGIC_NUMBER; lia)).
  assert (F2 := field_le (le 4 FILE_MAGIC_NUMBER) (le 4 s ++ le 4 side ++ le 4 (u32 r)) 8 12 ltac:(lia)).
  assert (F3 := field_le (le 4 FILE_MAGIC_NUMBER ++ le 8 12) (le 4 side ++ le 4 (u32 r)) 4 s Hs).
  assert (F4 := field_le (le 4 FILE_MAGIC_NUMBER ++ le 8 12 ++ le 4 s) (le 4 (u32 r)) 4 side Hd).
  assert (F5 := field_le (le 4 FILE_MAGIC_NUMBER ++ le 8 12 ++ le 4 s ++ le 4 side) [] 4 (u32 r) (u32_range r)).
  rewrite app_nil_r in F5. rewrite <- !app_assoc in F3. rewrite <- !app_assoc in F4. rewrite <- !app_assoc in F5. rewrite app_nil_l in F1.
  rewrite !length_app, !length_le in *. change (Z.of_nat (length [])) with 0 in F1.
  change (Z.of_nat 4) with 4 in *. change (Z.of_nat 8) with 8 in *.
  change (Z.of_nat (4 + 8)) with 12 in *. change (Z.of_nat (4 + (8 + 4))) with (12 + 4) in *.
  change (Z.of_nat (4 + (8 + (4 + 4)))) with (12 + 4 + 4) in *.
  cbn [Nat.add Z.of_nat]. rewrite F1, F2. cbn [mbind option_bind]. rewrite F3, F4, F5. cbn [mbind option_bind].
  rewrite s32_u32, s32_small by assumption. reflexivity.
Qed.

(** ** The receive path stays below the directory of the session *)

Lemma hasDotDot_app_sep a b : hasDotDot a = false -> hasDotDot b = false ->
  last a = Some PATH_SEPARATOR \/ head b = Some PATH_SEPARATOR -> hasDotDot (a ++ b) = false.
Proof.
  intros Ha Hb Hs. induction a as [|x a IH]; [exact Hb|].
  destruct a as [|y a].
  - destruct b as [|z b]; [reflexivity|]. cbn [app hasDotDot] in *. rewrite Hb, orb_false_r.
    apply bool_decide_eq_false. intros [-> ->]. destruct Hs as [Hs|Hs]; cbn in Hs; discriminate.
  - cbn [app hasDotDot] in *. apply orb_false_elim in Ha as [Ha1 Ha2]. rewrite Ha1. cbn [orb].
    apply IH; [exact Ha2|]. destruct Hs as [Hs|Hs]; [left|right]; auto.
Qed.

Lemma nameIndex_spec p : forall i, p !! i <> Some PATH_SEPARATOR ->
  (nameIndex p i <= i)%nat /\ forall j, (nameIndex p i <= j <= i)%nat -> p !! j <> Some PATH_SEPARATOR.
Proof.
  induction i as [|i IH]; intros Hi; cbn [nameIndex]; destruct (decide _) as [E|_]; try contradiction.
  { split; [lia|]. intros j Hj. now replace j with 0%nat by lia. }
  destruct (decide (p !! i = Some PATH_SEPARATOR)) as [E|E].
  - replace (nameIndex p i) with (S i) by (destruct i; cbn [nameIndex]; now rewrite decide_True).
    split; [lia|]. intros j Hj. now replace j with (S i) by lia.
  - destruct (IH E) as [H1 H2]. split; [lia|]. intros j Hj.
    destruct (decide (j = S i)) as [->|]; [exact Hi|]. apply H2. lia.
Qed.

(** The file name of a path: nonempty and without separators. *)
Lemma TransGetFileName_spec p name : TransGetFileName (Some p) = Some name ->
  name <> [] /\ (PATH_SEPARATOR ∉ name) /\ p = take (nameIndex p (pred (length p))) p ++ name.
Proof.
  unfold TransGetFileName, strlen. destruct (Z.eqb_spec (Z.of_nat (length p)) 0); [discriminate|].
  rewrite last_lookup. destruct (decide _) as [|Hl]; [discriminate|]. intros [= <-].
  destruct (nameIndex_spec p _ Hl) as [H1 H2]. rewrite take_drop. split_and!; auto.
  - intros Hn. apply (f_equal length) in Hn. rewrite length_drop in Hn. cbn in Hn. lia.
  - intros Hn. apply list_elem_of_lookup_1 in Hn as [j Hj]. rewrite lookup_drop in Hj.
    pose proof (lookup_lt_Some _ _ _ Hj). apply (H2 (nameIndex p (pred (length p)) + j)%nat); [lia|exact Hj].
Qed.

Lemma makeDirs_prefix accessFile mkdirOk rest : forall acc ok made,
  makeDirs accessFile mkdirOk acc rest = (ok, made) ->
  Forall (fun d => d `prefix_of` (acc ++ rest) /\ last d = Some PATH_SEPARATOR) made.
Proof.
  induction rest as [|b rest IH]; intros acc ok made; cbn [makeDirs].
  { intros [= <- <-]. constructor. }
  replace (acc ++ b :: rest) with ((acc ++ [b]) ++ rest) by (now rewrite <- app_assoc).
  destruct (bool_decide_reflect (b = PATH_SEPARATOR)) as [->|]; cbn [negb]; [|apply IH].
  destruct (accessFile _); [apply IH|]. destruct (mkdirOk _); [|intros [= <- <-]; constructor].
  destruct (makeDirs _ _ _ rest) as [ok' made'] eqn:E. intros [= <- <-]. constructor; [|eapply IH; eauto].
  split; [now eexists|apply last_snoc].
Qed.

Lemma GetFullRecvPath_spec libc f r full : GetFullRecvPath libc (Some f) (Some r) = Some full ->
  full = r ++ f \/ full = r ++ [PATH_SEPARATOR] ++ f.
Proof.
  intros H. unfold GetFullRecvPath in H. destruct (negb (SoftBusCalloc _ _)); [discriminate|].
  destruct (_ <? _); [|discriminate]. injection H as <-. destruct (negb _); auto.
Qed.

Lemma GetFullRecvPath_dots libc f r full : GetFullRecvPath libc (Some f) (Some r) = Some full ->
  strlen f <= INT32_MAX -> strlen r <= INT32_MAX -> hasDotDot f = false -> hasDotDot r = false ->
  hasDotDot full = false.
Proof.
  intros H Hf Hr Df Dr. unfold GetFullRecvPath, strlen in *. rewrite (s32_small (Z.of_nat (length r))), (s32_small (Z.of_nat (length f))) in H by (unfold in_s32; lia).
  destruct (negb (SoftBusCalloc _ _)); [discriminate|]. destruct (_ <? _) in H; [|discriminate].
  injection H as <-. destruct (_ || _) eqn:E; cbn [negb].
  - apply hasDotDot_app_sep; auto. apply orb_prop in E as [E|E]; apply andb_prop in E as [_ E];
      apply bool_decide_eq_true in E; auto.
  - apply hasDotDot_app_sep; auto. apply (hasDotDot_app_sep [PATH_SEPARATOR] f); auto.
Qed.

(** C32: A received file can only be created below the receiving directory, whose path
    has no two dots in a row: when the name of a first frame has been accepted, the path is the directory's path and
    the name, without any two dots in a row; every directory that is created is a
    prefix of it; and the file is an entry of the real directory of that path,
    with a name that has no separator and an absolute path that fits. *)
Theorem recv_path_confined (libc libc0 libc1 libc2 : Z -> bool) (accessFile mkdirOk : list byte -> bool)
    (realpath : list byte -> option (list byte)) (root f full absPath : list byte) (made : list (list byte))
    (Hroot : hasDotDot root = false) (Hlen : strlen root <= INT32_MAX) (Hlen' : strlen f <= INT32_MAX)
    (Hdest : CheckDestFilePathValid (Some f) = true)
    (Hfull : GetFullRecvPath libc (Some f) (Some root) = Some full)
    (Habs : CreateDirAndGetAbsPath libc0 libc1 libc2 accessFile mkdirOk realpath (Some full)
              MAX_FILE_PATH_NAME_LEN = (SOFTBUS_OK, absPath, made)) :
  root `prefix_of` full /\ f `suffix_of` full /\ hasDotDot full = false /\
  Forall (fun d => d `prefix_of` full /\ last d = Some PATH_SEPARATOR) made /\
  exists dir name absDir, full = dir ++ name /\ realpath dir = Some absDir /\
    absPath = absDir ++ [PATH_SEPARATOR] ++ name /\ name <> [] /\ (PATH_SEPARATOR ∉ name) /\
    strlen absPath < MAX_FILE_PATH_NAME_LEN.
Proof.
  assert (Df : hasDotDot f = false).
  { unfold CheckDestFilePathValid in Hdest. destruct (_ || _); [discriminate|]. now destruct (hasDotDot f). }
  pose proof (GetFullRecvPath_dots _ _ _ _ Hfull Hlen' Hlen Df Hroot) as Dfull.
  pose proof (GetFullRecvPath_spec _ _ _ _ Hfull) as Sfull.
  unfold CreateDirAndGetAbsPath in Habs. destruct (negb _); [discriminate|].
  destruct (makeDirs accessFile mkdirOk [] full) as [ok m] eqn:Em. destruct (negb ok); [discriminate|].
  destruct (GetAbsFullPath _ _ _ _ _) as [ret ap] eqn:Ea. injection Habs as -> -> ->.
  split_and!; [destruct Sfull as [-> | ->]; eexists; reflexivity| | exact Dfull
    |apply (makeDirs_prefix _ _ _ [] _ _ Em)|].
  { destruct Sfull as [-> | ->]; [now exists root|]. exists (root ++ [PATH_SEPARATOR]). now rewrite <- app_assoc. }
  unfold GetAbsFullPath in Ea. destruct (negb _); [discriminate|].
  destruct (GetDirPath (Some full) _) as [rd dirPath] eqn:Ed.
  destruct (Z.eqb_spec rd SOFTBUS_OK) as [->|]; cbn [negb] in Ea; [|discriminate].
  destruct (negb _) in Ea; [discriminate|].
  destruct (TransGetFileName (Some full)) as [name|] eqn:En; [|discriminate].
  apply TransGetFileName_spec in En as (Hn1 & Hn2 & Hn3).
  assert (Ed' : dirPath = take (nameIndex full (pred (length full))) full).
  { unfold GetDirPath in Ed. destruct (_ || _); [discriminate|]. destruct (_ <=? _); [discriminate|]. now injection Ed. }
  unfold GetAndCheckRealPath in Ea. destruct (realpath dirPath) as [absDir|] eqn:Er; [|discriminate].
  destruct (MAX_FILE_PATH_NAME_LEN - 1 <? _); [discriminate|]. cbn [negb Z.eqb SOFTBUS_OK] in Ea.
  destruct (_ <? _) in Ea; [discriminate|].
  destruct (Z.ltb_spec (strlen (absDir ++ [PATH_SEPARATOR] ++ name)) MAX_FILE_PATH_NAME_LEN); [|discriminate].
  injection Ea as <-. exists dirPath, name, absDir. subst dirPath. auto 10.
Qed.

Lemma recv_path_confined_witness :
  let b := map Zbyte in
  let root := b [47; 100] in let f := b [115; 47; 102] in
  let full := b [47; 100; 47; 115; 47; 102] in
  root `prefix_of` full /\ f `suffix_of` full /\ hasDotDot full = false /\
  Forall (fun d => d `prefix_of` full /\ last d = Some PATH_SEPARATOR) [b [47; 100; 47; 115; 47]] /\
  exists dir name absDir, full = dir ++ name /\ Some (b [47; 100; 47; 115]) = Some absDir /\
    full = absDir ++ [PATH_SEPARATOR] ++ name /\ name <> [] /\ (PATH_SEPARATOR ∉ name) /\
    strlen full < MAX_FILE_PATH_NAME_LEN.
Proof.
  exact (recv_path_confined (fun _ => true) (fun _ => true) (fun _ => true) (fun _ => true)
    (fun d => bool_decide (length d < 4)%nat) (fun _ => true) (fun _ => Some (map Zbyte [47; 100; 47; 115]))
    (map Zbyte [47; 100]) (map Zbyte [115; 47; 102]) (map Zbyte [47; 100; 47; 115; 47; 102])
    (map Zbyte [47; 100; 47; 115; 47; 102]) [map Zbyte [47; 100; 47; 115; 47]]
    eq_refl ltac:(vm_compute; discriminate) ltac:(vm_compute; discriminate) eq_refl eq_refl eq_refl).
Defined.

End ProxyFile.
