(* ===== verification/FileTransfer.v ===== *)
(** * Files over proxy channels: the transfer

    Model of sdk/transmission/trans_channel/proxy/src/client_trans_pending.c (the
    table of awaited answers) and client_trans_proxy_file_manager.c: the sender
    that cuts a file into numbered frames, asks for an acknowledgement after every
    32 frames and retransmits what is missing, and the recipient that writes the
    frames into its file.

    A sending thread shares its record and the pending table with the thread that
    receives answers; [World] holds both and the rest of the system ([net]).
    [send] hands a frame to the channel and [pass] lets time pass while the sender
    waits; both may let any other thread run. *)

From S2P Require Import Prelude ErrorCode.
From stdpp Require Import list.
From S2P Require Import Bytes ProxyFile.
#[local] Open Scope Z_scope.

Module FileTransfer.
Import ProxyFile.

Definition MAX_FILE_SIZE : Z := 5242880.
Definition MAX_SEND_FILE_NUM : Z := 10.
Definition INVALID_FD : Z := -1.
Definition WAIT_START_ACK_TIME : Z := 20000.
Definition WAIT_ACK_TIME : Z := 200.
Definition WAIT_ACK_LAST_TIME : Z := 5000.
Definition WAIT_FRAME_ACK_TIMEOUT_COUNT : Z := 24.
Definition IS_SEND_RESULT : Z := 1.
Definition IS_RECV_RESULT : Z := 0.
Definition RETRY_READ_LOCK_TIMES : Z := 2.
Definition RETRY_WRITE_LOCK_TIMES : Z := 2.
Definition PROXY_BR_MAX_PACKET_SIZE : Z := 4096 - 48.
Definition PROXY_BLE_MAX_PACKET_SIZE : Z := 1024 - 48.
Definition LANE_BR : Z := 0.
Definition FILE_TRANS_TIMEOUT : Z := 10.
Definition sizeof_PendingPacket : Z := 160.
Definition sizeof_SingleFileInfo : Z := 600.
Definition sizeof_FileRecipientInfo : Z := 1200.
Definition SOFTBUS_TRANS_PROXY_SENDMSG_ERR : Z := SOFTBUS_TRANS_ERR_BASE + 18.

(** ** The table of awaited answers *)

Record PendingPacket := mkPending {
  pendId : Z;
  pendSeq : Z;
  finded : bool;
  pendData : option (Z * Z)
}.

Definition isFor (i s : Z) (p : PendingPacket) : bool := (pendId p =? i) && (pendSeq p =? s).

Definition CheckPendingPacketExisted (lock i s : Z) (l : list PendingPacket) : Z :=
  if negb (lock =? SOFTBUS_OK) then SOFTBUS_LOCK_ERR
  else if existsb (isFor i s) l then SOFTBUS_ALREADY_EXISTED
  else SOFTBUS_OK.

Definition CreatePendingPacket (libc : Z -> bool) (lock mutexInit condInit i s : Z) (l : list PendingPacket)
  : Z * list PendingPacket :=
  let ret := CheckPendingPacketExisted lock i s l in
  if negb (ret =? SOFTBUS_OK) then (ret, l)
  else if negb (SoftBusCalloc libc sizeof_PendingPacket) then (SOFTBUS_MALLOC_ERR, l)
  else if negb (mutexInit =? SOFTBUS_OK) then (SOFTBUS_LOCK_ERR, l)
  else if negb (condInit =? SOFTBUS_OK) then (SOFTBUS_NO_INIT, l)
  else (SOFTBUS_OK, l ++ [mkPending i s false None]).

(** Removal of the first entry for [i], [s]. *)
Fixpoint removeFirst (i s : Z) (l : list PendingPacket) : list PendingPacket :=
  match l with
  | [] => []
  | p :: l' => if isFor i s p then l' else p :: removeFirst i s l'
  end.

Definition DeletePendingPacket (lock i s : Z) (l : list PendingPacket) : list PendingPacket :=
  if negb (lock =? SOFTBUS_OK) then l else removeFirst i s l.

(** The entry that GetPendingPacketData waits on, and its removal: the loop does
    not stop at the first match. *)
Definition findPending (i s : Z) (l : list PendingPacket) : option PendingPacket :=
  last (base.filter (fun p => isFor i s p = true) l).
Definition removePending (i s : Z) (l : list PendingPacket) : list PendingPacket :=
  reverse (removeFirst i s (reverse l)).

(** [Some d] replaces the data; a NULL data leaves it. *)
Fixpoint triggerFirst (i s : Z) (d : option (Z * Z)) (l : list PendingPacket) : option (list PendingPacket) :=
  match l with
  | [] => None
  | p :: l' =>
    if isFor i s p then
      Some (mkPending (pendId p) (pendSeq p) true (match d with Some _ => d | None => pendData p end) :: l')
    else match triggerFirst i s d l' with
         | Some l'' => Some (p :: l'')
         | None => None
         end
  end.

Definition SetPendingPacketData (lock i s : Z) (d : option (Z * Z)) (l : list PendingPacket)
  : Z * list PendingPacket :=
  if negb (lock =? SOFTBUS_OK) then (SOFTBUS_LOCK_ERR, l)
  else match triggerFirst i s d l with
       | Some l' => (SOFTBUS_OK, l')
       | None => (SOFTBUS_NOT_FIND, l)
       end.

(** ** The sender *)

Inductive SendEvent :=
  | SendProcess (bytes : Z)
  | SendFinish
  | SendError.

(** [result]: [info->result]. *)
Record World (N : Type) := mkWorld {
  info : SendListenerInfo;
  result : Z;
  pending : list PendingPacket;
  events : list SendEvent;
  net : N
}.
Arguments mkWorld {N}.
Arguments info {N}.
Arguments result {N}.
Arguments pending {N}.
Arguments events {N}.
Arguments net {N}.

Definition setInfo {N} (w : World N) (i : SendListenerInfo) : World N :=
  mkWorld i (result w) (pending w) (events w) (net w).
Definition setResult {N} (w : World N) (r : Z) : World N :=
  mkWorld (info w) r (pending w) (events w) (net w).
Definition setPending {N} (w : World N) (l : list PendingPacket) : World N :=
  mkWorld (info w) (result w) l (events w) (net w).
Definition addEvent {N} (w : World N) (ev : SendEvent) : World N :=
  mkWorld (info w) (result w) (pending w) (events w ++ [ev]) (net w).
Definition setNet {N} (w : World N) (n : N) : World N :=
  mkWorld (info w) (result w) (pending w) (events w) n.

(** The first frame: the buffer, with the fields of either layout. *)
Definition PackFileTransStartInfo (fr : FileFrame) (destFile : list byte) (size : Z) (i : SendListenerInfo)
  : option (Z * FileFrame) :=
  let len := u32 (strlen destFile) in
  if withCrc (crc i) (osType i) then
    let dataLen := u64 (len + FRAME_DATA_SEQ_OFFSET + 8) in
    let fr1 := setLength fr (u32 (FRAME_HEAD_LEN + dataLen)) in
    if packetSize i <? frameLength fr1 then Some (SOFTBUS_TRANS_INVALID_DATA_LENGTH, fr1)
    else
      d1 ← writeAt 0 (le 4 (magic fr)) (data fr);
      d2 ← writeAt FRAME_MAGIC_OFFSET (le 8 dataLen) d1;
      d3 ← writeAt (fdOff fr)
             (le 4 (u32 (packetSize i - FRAME_HEAD_LEN - FRAME_DATA_SEQ_OFFSET - FRAME_CRC_LEN))) d2;
      d4 ← writeAt (fdOff fr + FRAME_DATA_SEQ_OFFSET) (le 8 size) d3;
      if negb (memcpy_s len len) then Some (SOFTBUS_MEM_ERR, setData fr1 d4)
      else
        d5 ← writeAt (fdOff fr + FRAME_DATA_SEQ_OFFSET + 8) destFile d4;
        Some (SOFTBUS_OK, setData fr1 d5)
  else
    let fr1 := setLength fr (u32 (FRAME_DATA_SEQ_OFFSET + len)) in
    if packetSize i <? frameLength fr1 then Some (SOFTBUS_TRANS_INVALID_DATA_LENGTH, fr1)
    else
      d1 ← writeAt (fdOff fr) (le 4 (u32 (channelId i))) (data fr);
      if negb (memcpy_s len len) then Some (SOFTBUS_MEM_ERR, setData fr1 d1)
      else
        d2 ← writeAt (fdOff fr + FRAME_DATA_SEQ_OFFSET) destFile d1;
        Some (SOFTBUS_OK, setData fr1 d2).

(** [sizeAns]: what SoftBusGetFileSize answers.  The size and the number of
    frames. *)
Definition GetAndCheckFileSize (sizeAns : option Z) (crcSupport pktSize : Z) : Z * Z * Z :=
  match sizeAns with
  | None => (SOFTBUS_FILE_ERR, 0, 0)
  | Some size =>
    if MAX_FILE_SIZE <? size then (SOFTBUS_FILE_ERR, size, 0)
    else
      let oneFrameSize :=
        let o := u32 (pktSize - FRAME_DATA_SEQ_OFFSET) in
        if crcSupport =? APP_INFO_FILE_FEATURES_SUPPORT then u64 (o - (FRAME_HEAD_LEN + FRAME_CRC_LEN)) else o in
      if negb (oneFrameSize =? 0) then
        let n := size / oneFrameSize in
        let n' := if negb (size mod oneFrameSize =? 0) then n + 1 else n in
        (SOFTBUS_OK, size, u64 (n' + 1))
      else (SOFTBUS_FILE_ERR, size, 0)
  end.

Section Sender.

Context {N : Type} (libc : Z -> bool) (lock mutexInit condInit : Z) (getInfo : Z -> Z)
  (send : Z -> list byte -> Z -> World N -> Z * World N) (pass : Z -> World N -> World N)
  (pread : Z -> Z -> option (list byte)).

Definition create (i s : Z) (w : World N) : Z * World N :=
  let '(ret, l) := CreatePendingPacket libc lock mutexInit condInit i s (pending w) in (ret, setPending w l).

(** An entry that has disappeared during the wait is an access to freed memory,
    [None]. *)
Definition GetPendingPacketData (i s waitMillis : Z) (isDelete : bool) (w : World N)
  : option (Z * option (Z * Z) * World N) :=
  if negb (lock =? SOFTBUS_OK) then Some (SOFTBUS_LOCK_ERR, None, w)
  else
    match findPending i s (pending w) with
    | None => Some (SOFTBUS_NOT_FIND, None, w)
    | Some p =>
      if finded p then
        Some (SOFTBUS_ALREADY_TRIGGERED, pendData p, setPending w (removePending i s (pending w)))
      else
        let w' := pass waitMillis w in
        match findPending i s (pending w') with
        | None => None
        | Some p' =>
          if finded p' then
            Some (SOFTBUS_OK, pendData p', setPending w' (removePending i s (pending w')))
          else
            Some (SOFTBUS_TIMOUT, None,
                  if isDelete then setPending w' (removePending i s (pending w')) else w')
        end
    end.

Definition SendOneFrameFront (ft : Z) (w : World N) : Z * World N :=
  if negb (crc (info w) =? APP_INFO_FILE_FEATURES_SUPPORT) then (SOFTBUS_OK, w)
  else if ft =? TRANS_SESSION_FILE_FIRST_FRAME then
    let '(ret, w1) := create (sessionId (info w)) 0 w in
    if negb (ret =? SOFTBUS_OK) then (ret, w1)
    else (SOFTBUS_OK, setInfo w1 (setWait (info w1) 0 0))
  else (SOFTBUS_OK, w).

Definition SendOneFrameMiddle (ft : Z) (w : World N) : Z * World N :=
  if negb (crc (info w) =? APP_INFO_FILE_FEATURES_SUPPORT) then (SOFTBUS_OK, w)
  else if ft =? TRANS_SESSION_FILE_ONGOINE_FRAME then
    let s := seq (info w) in
    if negb (s mod FILE_SEND_ACK_INTERVAL =? 0) then (SOFTBUS_OK, w)
    else
      let '(ret, w1) := create (sessionId (info w)) s w in
      if negb (ret =? SOFTBUS_OK) then (ret, w1)
      else
        let w2 := setInfo w1 (setWait (info w1) (s32 s) 0) in
        let '(ret2, w3) := SendFileAckReqAndResData libc getInfo send (channelId (info w2))
          (u32 (s - FILE_SEND_ACK_INTERVAL + 1)) s TRANS_SESSION_FILE_ACK_REQUEST_SENT w2 in
        if negb (ret2 =? SOFTBUS_OK) then
          let w4 := setPending w3 (DeletePendingPacket lock (sessionId (info w3)) s (pending w3)) in
          (ret2, setInfo w4 (setWait (info w4) 0 (waitTimeoutCount (info w4))))
        else (SOFTBUS_OK, w3)
  else (SOFTBUS_OK, w).

(** Nothing is awaited any more. *)
Definition clearWait (w : World N) : World N := setInfo w (setWait (info w) 0 0).

Definition triggered (ret : Z) : bool := (ret =? SOFTBUS_ALREADY_TRIGGERED) || (ret =? SOFTBUS_OK).

Definition SendOneFrameRear (ft : Z) (w : World N) : option (Z * World N) :=
  if negb (crc (info w) =? APP_INFO_FILE_FEATURES_SUPPORT) || (ft =? TRANS_SESSION_FILE_ONLYONE_FRAME) then
    Some (SOFTBUS_OK, w)
  else if ft =? TRANS_SESSION_FILE_FIRST_FRAME then
    match GetPendingPacketData (sessionId (info w)) 0 WAIT_START_ACK_TIME true w with
    | None => None
    | Some (ret, _, w1) => if triggered ret then Some (SOFTBUS_OK, w1) else Some (SOFTBUS_FILE_ERR, w1)
    end
  else if u32 (waitSeq (info w)) =? 0 then Some (SOFTBUS_OK, w)
  else
    let time := if (ft =? TRANS_SESSION_FILE_LAST_FRAME) ||
                   (WAIT_FRAME_ACK_TIMEOUT_COUNT <=? waitTimeoutCount (info w))
                then WAIT_ACK_LAST_TIME else WAIT_ACK_TIME in
    match GetPendingPacketData (sessionId (info w)) (u64 (waitSeq (info w))) time false w with
    | None => None
    | Some (ret, d, w1) =>
      if triggered ret then
        match AckResponseDataHandle libc getInfo send pread (info w1) d w1 with
        | None => None
        | Some (ret2, w2) => Some (ret2, clearWait w2)
        end
      else if ret =? SOFTBUS_TIMOUT then
        let w2 := setInfo w1 (setWait (info w1) (waitSeq (info w1)) (s32 (waitTimeoutCount (info w1) + 1))) in
        if negb (ft =? TRANS_SESSION_FILE_LAST_FRAME) &&
           (waitTimeoutCount (info w2) <=? WAIT_FRAME_ACK_TIMEOUT_COUNT) then Some (SOFTBUS_OK, w2)
        else
          let w3 := setPending w2
            (DeletePendingPacket lock (sessionId (info w2)) (u64 (waitSeq (info w2))) (pending w2)) in
          Some (SOFTBUS_FILE_ERR, clearWait w3)
      else Some (SOFTBUS_FILE_ERR, clearWait w1)
    end.

Definition SendOneFrame (fr : FileFrame) (w : World N) : option (Z * World N) :=
  let oh := osType (info w) =? OH_TYPE in
  let '(ret, w1) := if oh then SendOneFrameFront (frameType fr) w else (SOFTBUS_OK, w) in
  if negb (ret =? SOFTBUS_OK) then Some (ret, w1)
  else
    let '(ret2, w2) := ProxyChannelSendFileStream getInfo send (channelId (info w1))
      (Some (take (Z.to_nat (frameLength fr)) (data fr))) (frameType fr) w1 in
    if negb (ret2 =? SOFTBUS_OK) then Some (ret2, w2)
    else if negb oh then Some (SOFTBUS_OK, w2)
    else
      let '(ret3, w3) := SendOneFrameMiddle (frameType fr) w2 in
      if negb (ret3 =? SOFTBUS_OK) then Some (ret3, w3)
      else
        match SendOneFrameRear (frameType fr) w3 with
        | None => None
        | Some (ret4, w4) =>
          if negb (ret4 =? SOFTBUS_OK) then Some (ret4, w4)
          else Some (result w4, w4)
        end.

Definition checkSumFrame (s sum : Z) : list byte :=
  le 4 FILE_MAGIC_NUMBER ++ le 8 (FRAME_DATA_SEQ_OFFSET + 8) ++ le 4 s ++ le 8 sum.

Definition SendFileCrcCheckSum (w : World N) : option (Z * World N) :=
  if negb (crc (info w) =? APP_INFO_FILE_FEATURES_SUPPORT) then Some (SOFTBUS_OK, w)
  else if negb (SoftBusCalloc libc (FRAME_HEAD_LEN + FRAME_DATA_SEQ_OFFSET + 8)) then Some (SOFTBUS_MALLOC_ERR, w)
  else
    let s := u32 (seq (info w) + 1) in
    let '(ret, w1) := create (sessionId (info w)) s w in
    if negb (ret =? SOFTBUS_OK) then Some (ret, w1)
    else
      let '(ret2, w2) := ProxyChannelSendFileStream getInfo send (channelId (info w1))
        (Some (checkSumFrame s (checkSumCRC (info w1)))) TRANS_SESSION_FILE_CRC_CHECK_FRAME w1 in
      if negb (ret2 =? SOFTBUS_OK) then
        Some (ret2, setPending w2 (DeletePendingPacket lock (sessionId (info w2)) s (pending w2)))
      else
        match GetPendingPacketData (sessionId (info w2)) s WAIT_START_ACK_TIME true w2 with
        | None => None
        | Some (ret3, _, w3) => if triggered ret3 then Some (SOFTBUS_OK, w3) else Some (ret3, w3)
        end.

(** [n] rounds from [index]. *)
Fixpoint frameLoop (destFile : list byte) (size dataSize frames : Z) (n : nat) (index : Z)
    (fr : FileFrame) (fileOffset remained : Z) (w : World N) : option (Z * World N) :=
  match n with
  | O => Some (SOFTBUS_OK, w)
  | S n' =>
    let fr0 := setType fr (FrameIndexToType index frames) in
    let packed :=
      if index =? 0 then
        match PackFileTransStartInfo fr0 destFile size (info w) with
        | None => None
        | Some (ret, fr1) => Some (ret =? SOFTBUS_OK, fr1, fileOffset, remained, w)
        end
      else
        let readLength := if remained <? dataSize then remained else dataSize in
        match PackReadFileData pread fr0 readLength fileOffset (info w) with
        | None => None
        | Some (len, fr1, i) =>
          if len <=? 0 then Some (false, fr1, fileOffset, remained, setInfo w i)
          else Some (true, fr1, u64 (fileOffset + len), u64 (remained - len), setInfo w (addProcessed i len))
        end in
    match packed with
    | None => None
    | Some (false, _, _, _, w1) => Some (SOFTBUS_FILE_ERR, w1)
    | Some (true, fr1, off1, rem1, w1) =>
      match SendOneFrame fr1 w1 with
      | None => None
      | Some (ret, w2) =>
        if negb (ret =? SOFTBUS_OK) then Some (SOFTBUS_FILE_ERR, w2)
        else
          frameLoop destFile size dataSize frames n' (index + 1)
            (setData fr1 (replicate (length (data fr1)) Byte.x00)) off1 rem1
            (addEvent w2 (SendProcess (bytesProcessed (info w2))))
      end
    end
  end.

Definition FileToFrame (frames : Z) (destFile : list byte) (size : Z) (w : World N) : option (Z * World N) :=
  let i := info w in
  if negb (SoftBusCalloc libc (packetSize i)) then Some (SOFTBUS_MALLOC_ERR, w)
  else
    let withHead := crc i =? APP_INFO_FILE_FEATURES_SUPPORT in
    let o := u32 (packetSize i - FRAME_DATA_SEQ_OFFSET) in
    let dataSize := if withHead then u64 (o - (FRAME_HEAD_LEN + FRAME_CRC_LEN)) else o in
    let fr := mkFrame FILE_MAGIC_NUMBER 0 0 0 0 (replicate (Z.to_nat (packetSize i)) Byte.x00)
                (if withHead then FRAME_HEAD_LEN else 0) in
    match frameLoop destFile size dataSize frames (Z.to_nat frames) 0 fr 0 size w with
    | None => None
    | Some (ret, w1) =>
      if negb (ret =? SOFTBUS_OK) then Some (ret, w1)
      else if osType (info w1) =? OH_TYPE then
        match SendFileCrcCheckSum w1 with
        | None => None
        | Some (ret2, w2) =>
          if negb (ret2 =? SOFTBUS_OK) then Some (SOFTBUS_FILE_ERR, w2) else Some (SOFTBUS_OK, w2)
        end
      else Some (SOFTBUS_OK, w1)
    end.

(** The source file: its real path, its size, the answers of open and fcntl. *)
Record Source := mkSource {
  srcPath : option (list byte);
  srcReal : list byte -> option (list byte);
  srcSize : option Z;
  srcFd : Z;
  srcFcntl : nat -> Z
}.

Definition FileToFrameAndSendFile (src : Source) (destFile : option (list byte)) (w : World N)
  : option (Z * World N) :=
  match destFile with
  | None => Some (SOFTBUS_FILE_ERR, w)
  | Some d =>
    if negb (CheckDestFilePathValid (Some d)) then Some (SOFTBUS_FILE_ERR, w)
    else if negb (SoftBusCalloc libc (PATH_MAX + 1)) then Some (SOFTBUS_MALLOC_ERR, w)
    else if negb (fst (GetAndCheckRealPath (srcReal src) (srcPath src)) =? SOFTBUS_OK) then Some (SOFTBUS_FILE_ERR, w)
    else
      let '(ret, size, frames) := GetAndCheckFileSize (srcSize src) (crc (info w)) (packetSize (info w)) in
      if negb (ret =? SOFTBUS_OK) then Some (SOFTBUS_FILE_ERR, w)
      else if srcFd src <? 0 then Some (SOFTBUS_FILE_ERR, w)
      else if negb (TryFileLock (srcFcntl src) (srcFd src) RETRY_READ_LOCK_TIMES =? SOFTBUS_OK) then
        Some (SOFTBUS_FILE_ERR, w)
      else
        let i := info w in
        FileToFrame frames d size
          (setInfo w (mkSend (channelId i) (sessionId i) size frames (crc i) (seq i) (waitSeq i)
            (waitTimeoutCount i) (checkSumCRC i) (bytesProcessed i) (packetSize i) (osType i)))
  end.

(** The reset of the record after a file, [result] included. *)
Definition ClearSendInfo (w : World N) : World N :=
  let i := info w in
  setResult (setInfo w (mkSend (channelId i) (sessionId i) 0 0 (crc i) 0 0 0 0 (bytesProcessed i)
    (packetSize i) (osType i))) SOFTBUS_OK.

Definition SendSingleFile (src : Source) (destFile : option (list byte)) (w : World N) : option (Z * World N) :=
  match srcPath src, destFile with
  | Some _, Some _ =>
    match FileToFrameAndSendFile src destFile w with
    | None => None
    | Some (ret, w1) => Some (ret, ClearSendInfo w1)
    end
  | _, _ => Some (SOFTBUS_INVALID_PARAM, w)
  end.

End Sender.

Definition SendFileList {N} (libc : Z -> bool) (getInfo : Z -> Z)
    (send : Z -> list byte -> Z -> World N -> Z * World N) (chan : Z) (destFile : list (list byte))
    (w : World N) : option (Z * World N) :=
  match FileListToBuffer libc (Some destFile) with
  | None => None
  | Some (ret, buffer) =>
    if negb (ret =? SOFTBUS_OK) then Some (ret, w)
    else Some (ProxyChannelSendFileStream getInfo send chan (Some buffer) TRANS_SESSION_FILE_ALLFILE_SENT w)
  end.

(** [None] in the list is a NULL string. *)
Definition IsValidFileString (str : option (list (option (list byte)))) (maxLen : Z) : bool :=
  match str with
  | None => false
  | Some l =>
    if Z.of_nat (length l) =? 0 then false
    else forallb (fun o => match o with
                           | None => false
                           | Some s => negb ((u32 (strlen s) =? 0) || (maxLen <=? u32 (strlen s)))
                           end) l
  end.

Section SendFiles.

Context {N : Type} (libc : Z -> bool) (lock mutexInit condInit : Z) (getInfo : Z -> Z)
  (send : Z -> list byte -> Z -> World N -> Z * World N) (pass : Z -> World N -> World N).

(** One file to send: the source, what reading it gives, the destination. *)
Record Job := mkJob { jobSrc : Source; jobRead : Z -> Z -> option (list byte); jobDest : list byte }.

(** GetFileSize of every source. *)
Definition CalcAllFilesInfo (jobs : list Job) : bool :=
  forallb (fun j => SoftBusCalloc libc (PATH_MAX + 1) &&
    (fst (GetAndCheckRealPath (srcReal (jobSrc j)) (srcPath (jobSrc j))) =? SOFTBUS_OK) &&
    bool_decide (is_Some (srcSize (jobSrc j)))) jobs.

Fixpoint sendJobs (jobs : list Job) (w : World N) : option (Z * World N) :=
  match jobs with
  | [] => Some (SOFTBUS_OK, w)
  | j :: jobs' =>
    match SendSingleFile libc lock mutexInit condInit getInfo send pass (jobRead j) (jobSrc j)
            (Some (jobDest j)) w with
    | None => None
    | Some (ret, w1) => if negb (ret =? SOFTBUS_OK) then Some (SOFTBUS_FILE_ERR, w1) else sendJobs jobs' w1
    end
  end.

Definition resetProcessed (i : SendListenerInfo) : SendListenerInfo :=
  mkSend (channelId i) (sessionId i) (fileSize i) (frameNum i) (crc i) (seq i) (waitSeq i)
    (waitTimeoutCount i) (checkSumCRC i) 0 (packetSize i) (osType i).

Definition ProxyStartSendFile (jobs : list Job) (w : World N) : option (Z * World N) :=
  let w0 := setInfo w (resetProcessed (info w)) in
  if negb (CalcAllFilesInfo jobs) then Some (SOFTBUS_FILE_ERR, w0)
  else
    match sendJobs jobs w0 with
    | None => None
    | Some (ret, w1) =>
      if negb (ret =? SOFTBUS_OK) then Some (SOFTBUS_FILE_ERR, w1)
      else
        match SendFileList libc getInfo send (channelId (info w1)) (map jobDest jobs) w1 with
        | None => None
        | Some (ret2, w2) =>
          if negb (ret2 =? SOFTBUS_OK) then Some (SOFTBUS_FILE_ERR, w2)
          else if negb (result w2 =? SOFTBUS_OK) then Some (SOFTBUS_FILE_ERR, w2)
          else Some (SOFTBUS_OK, addEvent w2 SendFinish)
        end
    end.

(** [created]: the record as CreateSendListenerInfo filled it in, or its error. *)
Definition HandleFileSendingProcess (created : Z * World N) (jobs : list Job) : option (Z * World N) :=
  let '(ret, w) := created in
  if negb (ret =? SOFTBUS_OK) then Some (ret, w)
  else
    match ProxyStartSendFile jobs w with
    | None => None
    | Some (ret2, w1) =>
      if negb (ret2 =? SOFTBUS_OK) then
        let w2 := setPending w1
          (DeletePendingPacket lock (sessionId (info w1)) (u64 (waitSeq (info w1))) (pending w1)) in
        Some (SOFTBUS_TRANS_PROXY_SENDMSG_ERR, addEvent w2 SendError)
      else Some (SOFTBUS_OK, w1)
    end.

(** The guards of ProxyChannelSendFile; the session's lock is obtained. *)
Definition ProxyChannelSendFile (created : Z * World N) (sFileList dFileList : option (list (option (list byte))))
    (jobs : list Job) : option (Z * World N) :=
  let fileCnt := match sFileList with Some l => Z.of_nat (length l) | None => 0 end in
  if (fileCnt =? 0) || (MAX_SEND_FILE_NUM <? fileCnt) then Some (SOFTBUS_INVALID_PARAM, snd created)
  else if negb (IsValidFileString sFileList MAX_FILE_PATH_NAME_LEN) then Some (SOFTBUS_INVALID_PARAM, snd created)
  else if negb (IsValidFileString dFileList MAX_FILE_PATH_NAME_LEN) then Some (SOFTBUS_INVALID_PARAM, snd created)
  else HandleFileSendingProcess created jobs.

End SendFiles.

(** ** The recipient *)

Definition TRANS_FILE_RECV_IDLE_STATE : Z := 0.
Definition TRANS_FILE_RECV_START_STATE : Z := 1.
Definition TRANS_FILE_RECV_PROCESS_STATE : Z := 2.
Definition TRANS_FILE_RECV_ERR_STATE : Z := 3.
Definition NODE_IDLE : Z := 0.
Definition NODE_BUSY : Z := 1.
Definition NODE_ERR : Z := 2.

(** [content]: the bytes of the file that is open as [fileFd]. *)
Record SingleFileInfo := mkFile {
  rSeq : Z;
  fileFd : Z;
  fileStatus : Z;
  fileOffset : Z;
  oneFrameLen : Z;
  startSeq : Z;
  seqResult : Z;
  preStartSeq : Z;
  preSeqResult : Z;
  rFileSize : Z;
  timeOut : Z;
  rCheckSumCRC : Z;
  filePath : list byte;
  content : list byte
}.

Record FileRecipientInfo := mkRecipient {
  rSessionId : Z;
  rChannelId : Z;
  rOsType : Z;
  rCrc : Z;
  rResult : Z;
  rootDir : list byte;
  objRefCount : Z;
  recvState : Z;
  recvFileInfo : SingleFileInfo
}.

Definition emptyFile (fd : Z) : SingleFileInfo := mkFile 0 fd 0 0 0 0 0 0 0 0 0 0 [] [].

Definition setProgress (f : SingleFileInfo) (s off res pre sum : Z) (c : list byte) : SingleFileInfo :=
  mkFile s (fileFd f) (fileStatus f) off (oneFrameLen f) (startSeq f) res (preStartSeq f) pre (rFileSize f)
    (timeOut f) sum (filePath f) c.
Definition setStatus (f : SingleFileInfo) (fd st t : Z) : SingleFileInfo :=
  mkFile (rSeq f) fd st (fileOffset f) (oneFrameLen f) (startSeq f) (seqResult f) (preStartSeq f)
    (preSeqResult f) (rFileSize f) t (rCheckSumCRC f) (filePath f) (content f).
Definition setFile (r : FileRecipientInfo) (f : SingleFileInfo) : FileRecipientInfo :=
  mkRecipient (rSessionId r) (rChannelId r) (rOsType r) (rCrc r) (rResult r) (rootDir r) (objRefCount r)
    (recvState r) f.
Definition setState (r : FileRecipientInfo) (s : Z) : FileRecipientInfo :=
  mkRecipient (rSessionId r) (rChannelId r) (rOsType r) (rCrc r) (rResult r) (rootDir r) (objRefCount r) s
    (recvFileInfo r).
Definition setCount (r : FileRecipientInfo) (n : Z) : FileRecipientInfo :=
  mkRecipient (rSessionId r) (rChannelId r) (rOsType r) (rCrc r) (rResult r) (rootDir r) n (recvState r)
    (recvFileInfo r).
Definition setRResult (r : FileRecipientInfo) (x : Z) : FileRecipientInfo :=
  mkRecipient (rSessionId r) (rChannelId r) (rOsType r) (rCrc r) x (rootDir r) (objRefCount r) (recvState r)
    (recvFileInfo r).

(** [bytes] written at [off] of a file, zeros in a hole before them. *)
Definition overwrite (off : nat) (bytes c : list byte) : list byte :=
  take off (c ++ replicate (off - length c) Byte.x00) ++ bytes ++ drop (off + length bytes) c.

(** SoftBusPwriteFile; [n] is the number of bytes it answers. *)
Definition pwriteFile (n : Z) (off : Z) (bytes c : list byte) : list byte :=
  if 0 <=? n then overwrite (Z.to_nat off) (take (Z.to_nat n) bytes) c else c.

(** What the recipient's surroundings answer. *)
Record RecvAns := mkAns {
  aLibc : Z -> bool;
  aPwrite : Z -> Z -> Z;
  aRealpath : list byte -> option (list byte);
  aAccess : list byte -> bool;
  aMkdir : list byte -> bool;
  aOpen : list byte -> Z;
  aFcntl : nat -> Z;
  aGetInfo : Z -> Z;
  (** ClientGetSessionDataById, ClientGetFileConfigInfoById, TransGetFileListener *)
  aSession : Z -> Z;
  aCrc : Z -> Z;
  (** the directory of the session's listener *)
  aRoot : Z -> option (list byte);
  aOsType : Z -> Z;
  aLinkType : Z -> Z * Z
}.

Definition UnpackFileTransStartInfo (fr : FileFrame) (rcrc ros : Z) (file : SingleFileInfo) (pktSize : Z)
  : option (Z * FileFrame * SingleFileInfo) :=
  let store fr' f' (len : Z) (off : Z) :=
    if MAX_FILE_PATH_NAME_LEN <=? len then Some (SOFTBUS_INVALID_PARAM, fr', f')
    else if 0 <? len then
      name ← readAt off len (data fr);
      Some (SOFTBUS_OK, fr',
            mkFile (rSeq f') (fileFd f') (fileStatus f') (fileOffset f') (oneFrameLen f') (startSeq f')
              (seqResult f') (preStartSeq f') (preSeqResult f') (rFileSize f') (timeOut f') (rCheckSumCRC f')
              (cstr name) (content f'))
    else Some (SOFTBUS_OK, fr', f') in
  if withCrc rcrc ros then
    if frameLength fr <? FRAME_HEAD_LEN + FRAME_DATA_SEQ_OFFSET + 8 then Some (SOFTBUS_INVALID_PARAM, fr, file)
    else
      m ← field 0 4 (data fr);
      dataLen ← field FRAME_MAGIC_OFFSET 8 (data fr);
      let fr1 := mkFrame m (frameType fr) (frameLength fr) (frameSeq fr) (frameCrc fr) (data fr) (fdOff fr) in
      if u32 (frameLength fr - FRAME_HEAD_LEN) <? dataLen then Some (SOFTBUS_TRANS_INVALID_DATA_LENGTH, fr1, file)
      else if negb (m =? FILE_MAGIC_NUMBER) || (dataLen <? FRAME_DATA_SEQ_OFFSET + 8) then
        Some (SOFTBUS_TRANS_INVALID_DATA_LENGTH, fr1, file)
      else
        one ← field FRAME_HEAD_LEN 4 (data fr);
        let fr2 := mkFrame m (frameType fr) (frameLength fr) (frameSeq fr) (frameCrc fr) (data fr) FRAME_HEAD_LEN in
        if pktSize <? one then Some (SOFTBUS_TRANS_INVALID_DATA_LENGTH, fr2, file)
        else
          size ← field (FRAME_HEAD_LEN + FRAME_DATA_SEQ_OFFSET) 8 (data fr);
          if MAX_FILE_SIZE <? size then Some (SOFTBUS_TRANS_INVALID_DATA_LENGTH, fr2, file)
          else
            store fr2
              (mkFile (rSeq file) (fileFd file) (fileStatus file) (fileOffset file) one 1 0 1 0 size
                 (timeOut file) (rCheckSumCRC file) (filePath file) (content file))
              (dataLen - FRAME_DATA_SEQ_OFFSET - 8) (FRAME_HEAD_LEN + FRAME_DATA_SEQ_OFFSET + 8)
  else if frameLength fr <? FRAME_DATA_SEQ_OFFSET then Some (SOFTBUS_TRANS_INVALID_DATA_LENGTH, fr, file)
  else
    let fr1 := mkFrame (magic fr) (frameType fr) (frameLength fr) (frameSeq fr) (frameCrc fr) (data fr) 0 in
    s ← field 0 4 (data fr);
    store fr1
      (mkFile s (fileFd file) (fileStatus file) (fileOffset file) (oneFrameLen file) (startSeq file)
         (seqResult file) (preStartSeq file) (preSeqResult file) (rFileSize file) (timeOut file)
         (rCheckSumCRC file) (filePath file) (content file))
      (frameLength fr - FRAME_DATA_SEQ_OFFSET) FRAME_DATA_SEQ_OFFSET.

(** The file's record, with the absolute path it will be created at. *)
Definition GetFileInfoByStartFrame (a : RecvAns) (fr : FileFrame) (r : FileRecipientInfo) (file : SingleFileInfo)
    (pktSize : Z) : option (Z * SingleFileInfo) :=
  if hasDotDot (rootDir r) then Some (SOFTBUS_FILE_ERR, file)
  else
    match UnpackFileTransStartInfo fr (rCrc r) (rOsType r) file pktSize with
    | None => None
    | Some (ret, _, f1) =>
      if negb (ret =? SOFTBUS_OK) then Some (ret, f1)
      else if negb (CheckDestFilePathValid (Some (filePath f1))) then Some (SOFTBUS_FILE_ERR, f1)
      else
        let full := GetFullRecvPath (aLibc a) (Some (filePath f1)) (Some (rootDir r)) in
        if negb (IsPathValid full) then Some (SOFTBUS_FILE_ERR, f1)
        else
          let '(ret2, absPath, _) := CreateDirAndGetAbsPath (aLibc a) (aLibc a) (aLibc a) (aAccess a) (aMkdir a)
            (aRealpath a) full MAX_FILE_PATH_NAME_LEN in
          Some (ret2, mkFile (rSeq f1) (fileFd f1) (fileStatus f1) (fileOffset f1) (oneFrameLen f1) (startSeq f1)
            (seqResult f1) (preStartSeq f1) (preSeqResult f1) (rFileSize f1) (timeOut f1) (rCheckSumCRC f1)
            absPath (content f1))
    end.

(** [count] rounds of the loop of WriteEmptyFrame. *)
Fixpoint emptyLoop (a : RecvAns) (count : nat) (f : SingleFileInfo) : Z * SingleFileInfo :=
  match count with
  | O => (SOFTBUS_OK, f)
  | S n =>
    let emptyLen := aPwrite a (oneFrameLen f) (fileOffset f) in
    let c := pwriteFile emptyLen (fileOffset f) (replicate (Z.to_nat (oneFrameLen f)) Byte.x00) (content f) in
    let f1 := setProgress f (rSeq f) (fileOffset f) (seqResult f) (preSeqResult f) (rCheckSumCRC f) c in
    if (emptyLen <? 0) || negb (emptyLen =? oneFrameLen f) then (SOFTBUS_FILE_ERR, f1)
    else
      emptyLoop a n (setProgress f1 (rSeq f) (u64 (fileOffset f + emptyLen)) (seqResult f) (preSeqResult f)
        (rCheckSumCRC f) c)
  end.

Definition WriteEmptyFrame (a : RecvAns) (f : SingleFileInfo) (count : Z) : Z * SingleFileInfo :=
  if 0 <? count then
    if negb (SoftBusCalloc (aLibc a) (oneFrameLen f)) then (SOFTBUS_MALLOC_ERR, f)
    else emptyLoop a (Z.to_nat count) f
  else (SOFTBUS_OK, f).

(** [0x01 << bit], an int. *)
Definition bitInt (s : Z) : Z :=
  let bit := s mod FILE_SEND_ACK_INTERVAL in
  s32 (Z.shiftl 1 (if bit =? 0 then FILE_SEND_ACK_INTERVAL - 1 else bit - 1)).

(** The result, the record and where the frame belongs in the file. *)
Definition ProcessFileFrameSequence (a : RecvAns) (fr : FileFrame) (f : SingleFileInfo)
  : Z * SingleFileInfo * Z :=
  if startSeq f <=? frameSeq fr then
    let seqDiff := s32 (s32 (frameSeq fr) - s32 (rSeq f) - 1) in
    let bytesToWrite := s64 (seqDiff * s64 (oneFrameLen f)) in
    if MAX_FILE_SIZE <? bytesToWrite then (SOFTBUS_FILE_ERR, f, 0)
    else if u64 (MAX_FILE_SIZE - u64 bytesToWrite) <? fileOffset f then (SOFTBUS_FILE_ERR, f, 0)
    else
      let '(ret, f1) := WriteEmptyFrame a f seqDiff in
      if negb (ret =? SOFTBUS_OK) then (ret, f1, 0)
      else if ((u32 (preStartSeq f1 + FILE_SEND_ACK_INTERVAL + WAIT_FRAME_ACK_TIMEOUT_COUNT - 1) <=? frameSeq fr) ||
               ((frameType fr =? TRANS_SESSION_FILE_LAST_FRAME) && (FILE_SEND_ACK_INTERVAL <? frameSeq fr))) &&
              negb (Z.land (preSeqResult f1) FILE_SEND_ACK_RESULT_SUCCESS =? FILE_SEND_ACK_RESULT_SUCCESS) then
        (SOFTBUS_FILE_ERR, f1, 0)
      else
        (SOFTBUS_OK,
         setProgress f1 (frameSeq fr) (fileOffset f1) (Z.lor (seqResult f1) (u64 (bitInt (frameSeq fr))))
           (preSeqResult f1) (rCheckSumCRC f1) (content f1),
         fileOffset f1)
  else
    (SOFTBUS_OK,
     setProgress f (rSeq f) (fileOffset f) (seqResult f)
       (Z.lor (preSeqResult f) (u32 (bitInt (frameSeq fr)))) (rCheckSumCRC f) (content f),
     u64 (u32 (frameSeq fr - 1) * oneFrameLen f)).

Definition ProcessOneFrameCRC (a : RecvAns) (fr : FileFrame) (dataLen : Z) (f : SingleFileInfo)
  : option (Z * SingleFileInfo) :=
  if (frameSeq fr <? 1) || (u32 (startSeq f + FILE_SEND_ACK_INTERVAL) <=? frameSeq fr) then
    Some (SOFTBUS_FILE_ERR, f)
  else
    let '(ret, f1, off) := ProcessFileFrameSequence a fr f in
    if negb (ret =? SOFTBUS_OK) then Some (SOFTBUS_FILE_ERR, f1)
    else
      let frameDataLength := u32 (dataLen - FRAME_DATA_SEQ_OFFSET) in
      if MAX_FILE_SIZE <? frameDataLength then Some (SOFTBUS_FILE_ERR, f1)
      else if MAX_FILE_SIZE - frameDataLength <? off then Some (SOFTBUS_FILE_ERR, f1)
      else
        bytes ← readAt (fdOff fr + FRAME_DATA_SEQ_OFFSET) frameDataLength (data fr);
        let writeLength := aPwrite a frameDataLength off in
        let f2 := setProgress f1 (rSeq f1) (fileOffset f1) (seqResult f1) (preSeqResult f1) (rCheckSumCRC f1)
                    (pwriteFile writeLength off bytes (content f1)) in
        if (writeLength <? 0) || negb (writeLength =? frameDataLength) then Some (SOFTBUS_FILE_ERR, f2)
        else if startSeq f2 <=? frameSeq fr then
          let o := u64 (fileOffset f2 + writeLength) in
          if MAX_FILE_SIZE <? o then
            Some (SOFTBUS_FILE_ERR, setProgress f2 (rSeq f2) o (seqResult f2) (preSeqResult f2) (rCheckSumCRC f2)
                    (content f2))
          else
            Some (SOFTBUS_OK, setProgress f2 (rSeq f2) o (seqResult f2) (preSeqResult f2)
                    (u64 (rCheckSumCRC f2 + frameCrc fr)) (content f2))
        else Some (SOFTBUS_OK, f2).

Definition ProcessOneFrame (a : RecvAns) (fr : FileFrame) (dataLen rcrc : Z) (f : SingleFileInfo) (ros : Z)
  : option (Z * SingleFileInfo) :=
  if fileStatus f =? NODE_ERR then Some (SOFTBUS_FILE_ERR, f)
  else if withCrc rcrc ros then ProcessOneFrameCRC a fr dataLen f
  else
    let frameDataLength := u32 (dataLen - FRAME_DATA_SEQ_OFFSET) in
    let f1 := setProgress f (frameSeq fr) (fileOffset f) (seqResult f) (preSeqResult f) (rCheckSumCRC f) (content f) in
    if MAX_FILE_SIZE <? frameDataLength then Some (SOFTBUS_FILE_ERR, f1)
    else if MAX_FILE_SIZE - frameDataLength <? fileOffset f1 then Some (SOFTBUS_FILE_ERR, f1)
    else
      bytes ← readAt (fdOff fr + FRAME_DATA_SEQ_OFFSET) frameDataLength (data fr);
      let writeLength := aPwrite a frameDataLength (fileOffset f1) in
      let c := pwriteFile writeLength (fileOffset f1) bytes (content f1) in
      let f2 := setProgress f1 (rSeq f1) (fileOffset f1) (seqResult f1) (preSeqResult f1) (rCheckSumCRC f1) c in
      if negb (writeLength =? frameDataLength) then Some (SOFTBUS_FILE_ERR, f2)
      else
        let o := u64 (fileOffset f2 + writeLength) in
        let f3 := setProgress f2 (rSeq f2) o (seqResult f2) (preSeqResult f2) (rCheckSumCRC f2) c in
        if MAX_FILE_SIZE <? o then Some (SOFTBUS_FILE_ERR, f3) else Some (SOFTBUS_OK, f3).

Definition UnpackFileCrcCheckSum (rcrc sum : Z) (fr : FileFrame) : option (Z * FileFrame) :=
  if rcrc =? APP_INFO_FILE_FEATURES_SUPPORT then
    if negb (frameLength fr =? FRAME_HEAD_LEN + FRAME_DATA_SEQ_OFFSET + 8) then
      Some (SOFTBUS_TRANS_INVALID_DATA_LENGTH, fr)
    else
      m ← field 0 4 (data fr);
      dataLen ← field FRAME_MAGIC_OFFSET 8 (data fr);
      if negb (m =? FILE_MAGIC_NUMBER) || negb (dataLen =? FRAME_DATA_SEQ_OFFSET + 8) then
        Some (SOFTBUS_INVALID_DATA_HEAD,
              mkFrame m (frameType fr) (frameLength fr) (frameSeq fr) (frameCrc fr) (data fr) (fdOff fr))
      else
        s ← field FRAME_HEAD_LEN 4 (data fr);
        recvSum ← field (FRAME_HEAD_LEN + FRAME_DATA_SEQ_OFFSET) 8 (data fr);
        let fr1 := mkFrame m (frameType fr) (frameLength fr) s (frameCrc fr) (data fr) FRAME_HEAD_LEN in
        Some (if recvSum =? sum then SOFTBUS_OK else SOFTBUS_FILE_ERR, fr1)
  else Some (SOFTBUS_OK, fr).

Inductive RecvEvent :=
  | RecvStart (path : list byte) (size : Z)
  | RecvProcess (bytes total : Z)
  | RecvFinish (path : list byte) (count : Z)
  | RecvError.

(** What a recipient does to its surroundings. *)
Class RecvOps (E : Type) := {
  rsend : Z -> list byte -> Z -> E -> Z * E;
  notify : RecvEvent -> E -> E;
  closeFile : Z -> E -> E;
  removeFile : list byte -> E -> E
}.

(** The tables of one device: g_recvRecipientInfoList, g_sendListenerInfoList
    with [result], and the pending table. *)
Record Device (E : Type) := mkDevice {
  recips : list FileRecipientInfo;
  senders : list (SendListenerInfo * Z);
  dPending : list PendingPacket;
  env : E
}.
Arguments mkDevice {E}.
Arguments recips {E}.
Arguments senders {E}.
Arguments dPending {E}.
Arguments env {E}.

Section Recipient.

Context {E : Type} `{!RecvOps E} (a : RecvAns).

Abbreviation D := (Device E).

Definition setRecips (d : D) (l : list FileRecipientInfo) : D := mkDevice l (senders d) (dPending d) (env d).
Definition setEnv (d : D) (e : E) : D := mkDevice (recips d) (senders d) (dPending d) e.

(** GetRecipientNoLock *)
Definition GetRecipientNoLock (s : Z) (l : list FileRecipientInfo) : option FileRecipientInfo :=
  List.find (fun r => rSessionId r =? s) l.

(** A change of the recipient of session [s]. *)
Fixpoint updRecipient (s : Z) (g : FileRecipientInfo -> FileRecipientInfo) (l : list FileRecipientInfo)
  : list FileRecipientInfo :=
  match l with
  | [] => []
  | r :: l' => if rSessionId r =? s then g r :: l' else r :: updRecipient s g l'
  end.

Fixpoint delRecipientOf (s : Z) (l : list FileRecipientInfo) : list FileRecipientInfo :=
  match l with
  | [] => []
  | r :: l' => if rSessionId r =? s then l' else r :: delRecipientOf s l'
  end.

Definition upd (s : Z) (g : FileRecipientInfo -> FileRecipientInfo) (d : D) : D :=
  setRecips d (updRecipient s g (recips d)).

Definition tell (ev : RecvEvent) (d : D) : D := setEnv d (notify ev (env d)).

Definition sendResult (chan s res side : Z) (d : D) : Z * D :=
  let '(ret, e) := SendFileTransResult (aLibc a) (aGetInfo a) rsend chan s res side (env d) in (ret, setEnv d e).

Definition ClearRecipientResources (r : FileRecipientInfo) (d : D) : D :=
  let f := recvFileInfo r in
  let d1 := if negb (fileFd f =? INVALID_FD) then setEnv d (closeFile (fileFd f) (env d)) else d in
  if recvState r =? TRANS_FILE_RECV_ERR_STATE then
    let d2 := setEnv d1 (removeFile (filePath f) (env d1)) in
    let d3 := if rCrc r =? APP_INFO_FILE_FEATURES_SUPPORT
              then snd (sendResult (rChannelId r) (rSeq f) SOFTBUS_FILE_ERR IS_RECV_RESULT d2) else d2 in
    tell RecvError d3
  else d1.

(** [objRefCount--] and the release of the recipient at zero. *)
Definition dropRef (s : Z) (d : D) : D :=
  match GetRecipientNoLock s (recips d) with
  | None => d
  | Some r =>
    let n := s32 (objRefCount r - 1) in
    if n =? 0 then ClearRecipientResources (setCount r n) (setRecips d (delRecipientOf s (recips d)))
    else upd s (fun r => setCount r n) d
  end.

Definition ReleaseRecipientRef (s : Z) (d : D) : D := dropRef s d.
Definition DelRecipient (s : Z) (d : D) : D := dropRef s d.

Definition ClientDeleteRecvFileList (s : Z) (d : D) : D := if s <=? 0 then d else DelRecipient s d.

(** The error state is final. *)
Definition SetRecipientRecvState (s st : Z) (d : D) : D :=
  upd s (fun r =>
    if negb (recvState r =? TRANS_FILE_RECV_ERR_STATE) then
      let r1 := setState r st in
      if st =? TRANS_FILE_RECV_IDLE_STATE then
        setFile r1 (setStatus (recvFileInfo r1) (fileFd (recvFileInfo r1)) NODE_IDLE (timeOut (recvFileInfo r1)))
      else r1
    else r) d.

(** One walk of the timer. *)
Fixpoint timerWalk (l : list FileRecipientInfo) (d : D) : list FileRecipientInfo * D :=
  match l with
  | [] => ([], d)
  | r :: l' =>
    if recvState r =? TRANS_FILE_RECV_IDLE_STATE then
      let '(l1, d1) := timerWalk l' d in (r :: l1, d1)
    else if FILE_TRANS_TIMEOUT <=? timeOut (recvFileInfo r) then
      let r1 := setCount (setState (setFile r (setStatus (recvFileInfo r) (fileFd (recvFileInfo r)) NODE_ERR 0))
                  TRANS_FILE_RECV_ERR_STATE) (s32 (objRefCount r - 1)) in
      let d1 := if objRefCount r1 =? 0 then ClearRecipientResources r1 d else d in
      timerWalk l' d1
    else
      let f := recvFileInfo r in
      let '(l1, d1) := timerWalk l' d in
      (setFile r (setStatus f (fileFd f) (fileStatus f) (s32 (timeOut f + 1))) :: l1, d1)
  end.

Definition ProxyFileTransTimerProc (d : D) : D :=
  let '(l, d1) := timerWalk (recips d) (setRecips d []) in setRecips d1 l.

Definition CreateNewRecipient (s chan os : Z) (d : D) : option D :=
  if negb (SoftBusCalloc (aLibc a) sizeof_FileRecipientInfo) then None
  else if negb (aSession a s =? SOFTBUS_OK) then None
  else
    match aRoot a s with
    | None => None
    | Some root =>
      Some (setRecips d (recips d ++ [mkRecipient s chan os (aCrc a s) 0 root 1 0 (emptyFile INVALID_FD)]))
    end.

Definition GetRecipientInCreateFileRef (s chan os : Z) (d : D) : option D * D :=
  let found := match GetRecipientNoLock s (recips d) with
               | Some _ => Some d
               | None => CreateNewRecipient s chan os d
               end in
  match found with
  | None => (None, d)
  | Some d1 =>
    match GetRecipientNoLock s (recips d1) with
    | None => (None, d1)
    | Some r =>
      if negb (recvState r =? TRANS_FILE_RECV_IDLE_STATE) then (None, d1)
      else
        let d2 := upd s (fun r => setCount (setState r TRANS_FILE_RECV_START_STATE) (s32 (objRefCount r + 1))) d1 in
        (Some d2, d2)
    end
  end.

(** The recipient in the state of processing, with a reference. *)
Definition useRecipient (r : FileRecipientInfo) : FileRecipientInfo :=
  setCount (if recvState r =? TRANS_FILE_RECV_START_STATE then setState r TRANS_FILE_RECV_PROCESS_STATE else r)
    (s32 (objRefCount r + 1)).

Definition GetRecipientInProcessRef (s : Z) (d : D) : option (FileRecipientInfo * D) :=
  match GetRecipientNoLock s (recips d) with
  | None => None
  | Some r =>
    if recvState r =? TRANS_FILE_RECV_IDLE_STATE then None
    else Some (useRecipient r, upd s useRecipient d)
  end.

Definition GetRecipientInfo (s : Z) (d : D) : option (FileRecipientInfo * D) :=
  match GetRecipientNoLock s (recips d) with
  | None => None
  | Some r => Some (useRecipient r, upd s useRecipient d)
  end.

Definition CheckRecvFileExist (absFullPath : list byte) (l : list FileRecipientInfo) : bool :=
  existsb (fun r => negb (recvState r =? TRANS_FILE_RECV_IDLE_STATE) &&
                    (fileStatus (recvFileInfo r) =? NODE_BUSY) &&
                    bool_decide (filePath (recvFileInfo r) = absFullPath)) l.

(** The recipient of session [s] gets the file [f]; it is opened and emptied. *)
Definition PutToRecvFileList (s : Z) (f : SingleFileInfo) (d : D) : Z * D :=
  match GetRecipientNoLock s (recips d) with
  | None => (SOFTBUS_INVALID_PARAM, d)
  | Some r =>
    if negb (fileStatus (recvFileInfo r) =? NODE_IDLE) then (SOFTBUS_FILE_ERR, d)
    else if CheckRecvFileExist (filePath f) (recips d) then (SOFTBUS_FILE_ERR, d)
    else
      let d1 := upd s (fun r => setFile r f) d in
      let fd := aOpen a (filePath f) in
      if fd <? 0 then (SOFTBUS_FILE_ERR, d1)
      else if negb (TryFileLock (aFcntl a) fd RETRY_WRITE_LOCK_TIMES =? SOFTBUS_OK) then
        (SOFTBUS_FILE_ERR, setEnv d1 (closeFile fd (env d1)))
      else
        (SOFTBUS_OK,
         upd s (fun r =>
           let f := recvFileInfo r in
           setFile r (mkFile (rSeq f) fd NODE_BUSY 0 (oneFrameLen f) (startSeq f) (seqResult f) (preStartSeq f)
             (preSeqResult f) (rFileSize f) 0 (rCheckSumCRC f) (filePath f) [])) d1)
  end.

(** The error exit of CreateFileFromFrame and WriteFrameToFile. *)
Definition failRecipient (s : Z) (d : D) : D :=
  DelRecipient s (ReleaseRecipientRef s (tell RecvError d)).

Definition crcOf (s : Z) (d : D) : Z :=
  match GetRecipientNoLock s (recips d) with Some r => rCrc r | None => 0 end.

Definition CreateFileFromFrame (s chan : Z) (fr : FileFrame) (os pktSize : Z) (d : D) : option (Z * D) :=
  match GetRecipientInCreateFileRef s chan os d with
  | (None, d1) => Some (SOFTBUS_NO_INIT, d1)
  | (Some d1, _) =>
    let exitErr d2 :=
      let d3 := if crcOf s d2 =? APP_INFO_FILE_FEATURES_SUPPORT
                then snd (sendResult chan 0 SOFTBUS_FILE_ERR IS_RECV_RESULT d2) else d2 in
      Some (SOFTBUS_FILE_ERR, failRecipient s d3) in
    if negb (SoftBusCalloc (aLibc a) sizeof_SingleFileInfo) then exitErr d1
    else
      match GetRecipientNoLock s (recips d1) with
      | None => None
      | Some r =>
        match GetFileInfoByStartFrame a fr r (emptyFile 0) pktSize with
        | None => None
        | Some (ret, f) =>
          if negb (ret =? SOFTBUS_OK) then exitErr d1
          else
            let '(ret2, d2) := PutToRecvFileList s f d1 in
            if negb (ret2 =? SOFTBUS_OK) then exitErr d2
            else
              let d3 := tell (RecvStart (filePath f) (rFileSize f)) d2 in
              let d4 := if crcOf s d3 =? APP_INFO_FILE_FEATURES_SUPPORT
                        then snd (sendResult chan 0 SOFTBUS_OK IS_RECV_RESULT d3) else d3 in
              Some (SOFTBUS_OK, ReleaseRecipientRef s d4)
        end
      end
  end.

Definition UpdateFileReceptionStatus (s : Z) (ft : Z) (r : FileRecipientInfo) (d : D) : D :=
  let d1 := upd s (fun r => let f := recvFileInfo r in setFile r (setStatus f (fileFd f) (fileStatus f) 0)) d in
  let d2 := tell (RecvProcess (fileOffset (recvFileInfo r)) (rFileSize (recvFileInfo r))) d1 in
  if negb (rCrc r =? APP_INFO_FILE_FEATURES_SUPPORT) &&
     ((ft =? TRANS_SESSION_FILE_LAST_FRAME) || (ft =? TRANS_SESSION_FILE_ONLYONE_FRAME)) then
    let d3 := SetRecipientRecvState s TRANS_FILE_RECV_IDLE_STATE d2 in
    let d4 := setEnv d3 (closeFile (fileFd (recvFileInfo r)) (env d3)) in
    upd s (fun r => let f := recvFileInfo r in setFile r (setStatus f INVALID_FD (fileStatus f) (timeOut f))) d4
  else d2.

Definition WriteFrameToFile (s : Z) (fr : FileFrame) (d : D) : option (Z * D) :=
  match GetRecipientInProcessRef s d with
  | None => Some (SOFTBUS_NOT_FIND, d)
  | Some (r, d1) =>
    let exitErr d2 :=
      let d3 := if rCrc r =? APP_INFO_FILE_FEATURES_SUPPORT
                then snd (sendResult (rChannelId r) 0 SOFTBUS_FILE_ERR IS_RECV_RESULT d2) else d2 in
      Some (SOFTBUS_FILE_ERR, failRecipient s (SetRecipientRecvState s TRANS_FILE_RECV_ERR_STATE d3)) in
    match UnpackFileDataFrame (rCrc r) (rOsType r) fr with
    | None => None
    | Some (ret, fr1, dataLen) =>
      if negb (ret =? SOFTBUS_OK) then exitErr d1
      else
        match ProcessOneFrame a fr1 dataLen (rCrc r) (recvFileInfo r) (rOsType r) with
        | None => None
        | Some (ret2, f) =>
          let d2 := upd s (fun r => setFile r f) d1 in
          if negb (ret2 =? SOFTBUS_OK) then exitErr d2
          else
            Some (SOFTBUS_OK,
              ReleaseRecipientRef s (UpdateFileReceptionStatus s (frameType fr1) (setFile r f) d2))
        end
    end
  end.

Definition ProcessCrcCheckSumData (s : Z) (fr : FileFrame) (d : D) : option (Z * D) :=
  match GetRecipientInProcessRef s d with
  | None => Some (SOFTBUS_NOT_FIND, d)
  | Some (r, d1) =>
    match UnpackFileCrcCheckSum (rCrc r) (rCheckSumCRC (recvFileInfo r)) fr with
    | None => None
    | Some (res, fr1) =>
      let '(ret, d2) := sendResult (rChannelId r) (frameSeq fr1) res IS_RECV_RESULT d1 in
      if negb (res =? SOFTBUS_OK) || negb (ret =? SOFTBUS_OK) then
        Some (SOFTBUS_FILE_ERR, DelRecipient s (SetRecipientRecvState s TRANS_FILE_RECV_ERR_STATE d2))
      else
        Some (SOFTBUS_OK, ReleaseRecipientRef s (SetRecipientRecvState s TRANS_FILE_RECV_IDLE_STATE d2))
    end
  end.

(** The window moves on: the recipient's file after an acknowledgement. *)
Definition nextWindow (st : Z) (f : SingleFileInfo) : SingleFileInfo :=
  let value := u32 (Z.land (seqResult f) FILE_SEND_ACK_RESULT_SUCCESS) in
  mkFile (rSeq f) (fileFd f) (fileStatus f) (fileOffset f) (oneFrameLen f) (u32 (st + FILE_SEND_ACK_INTERVAL))
    (Z.shiftr (seqResult f) FILE_SEND_ACK_INTERVAL) st value (rFileSize f) 0 (rCheckSumCRC f) (filePath f)
    (content f).

Definition ProcessFileAckRequest (s : Z) (fr : FileFrame) (d : D) : option (Z * D) :=
  match GetRecipientInProcessRef s d with
  | None => Some (SOFTBUS_NOT_FIND, d)
  | Some (r, d1) =>
    match UnpackAckReqAndResData fr with
    | None => None
    | Some (ret, None) => Some (ret, ReleaseRecipientRef s d1)
    | Some (_, Some (st, _)) =>
      if negb (st =? startSeq (recvFileInfo r)) then Some (SOFTBUS_FILE_ERR, ReleaseRecipientRef s d1)
      else
        let f := nextWindow st (recvFileInfo r) in
        let d2 := upd s (fun r => setFile r f) d1 in
        let '(ret2, e) := SendFileAckReqAndResData (aLibc a) (aGetInfo a) rsend (rChannelId r) st (preSeqResult f)
          TRANS_SESSION_FILE_ACK_RESPONSE_SENT (env d2) in
        Some (ret2, ReleaseRecipientRef s (setEnv d2 e))
    end
  end.

Definition ProcessFileListData (s : Z) (fr : FileFrame) (d : D) : option (Z * D) :=
  match GetRecipientInfo s d with
  | None => Some (SOFTBUS_NOT_FIND, d)
  | Some (r, d1) =>
    let finish ret d2 := Some (ret, DelRecipient s (ReleaseRecipientRef s d2)) in
    let exitErr := finish SOFTBUS_FILE_ERR (SetRecipientRecvState s TRANS_FILE_RECV_ERR_STATE (tell RecvError d1)) in
    match BufferToFileList (aLibc a) (Some (data fr)) with
    | None => None
    | Some None => exitErr
    | Some (Some (firstFile, fileCount)) =>
      let full := GetFullRecvPath (aLibc a) (Some (cstr firstFile)) (Some (rootDir r)) in
      if negb (IsPathValid full) then exitErr
      else if negb (SoftBusCalloc (aLibc a) (PATH_MAX + 1)) then exitErr
      else
        let '(ret, absPath) := GetAndCheckRealPath (aRealpath a) full in
        if negb (ret =? SOFTBUS_OK) then exitErr
        else
          finish SOFTBUS_OK
            (tell (RecvFinish absPath fileCount) (SetRecipientRecvState s TRANS_FILE_RECV_IDLE_STATE d1))
    end
  end.

(** ** Answers at the sending device *)

Fixpoint setSendResult (s r : Z) (l : list (SendListenerInfo * Z)) : option (list (SendListenerInfo * Z)) :=
  match l with
  | [] => None
  | (i, x) :: l' =>
    if sessionId i =? s then Some ((i, r) :: l')
    else match setSendResult s r l' with Some l'' => Some ((i, x) :: l'') | None => None end
  end.

(** [lock]: the lock of the pending table. *)
Definition ProcessFileRecvResult (lock s q r : Z) (d : D) : Z * D :=
  match setSendResult s r (senders d) with
  | None => (SOFTBUS_NOT_FIND, d)
  | Some l => (SOFTBUS_OK, mkDevice (recips d) l (snd (SetPendingPacketData lock s q None (dPending d))) (env d))
  end.

Definition ProcessFileSendResult (s r : Z) (d : D) : Z * D :=
  match GetRecipientNoLock s (recips d) with
  | None => (SOFTBUS_NOT_FIND, d)
  | Some _ => (SOFTBUS_OK, upd s (fun x => setRResult x r) d)
  end.

Definition ProcessFileTransResult (lock s : Z) (fr : FileFrame) (d : D) : option (Z * D) :=
  match UnpackFileTransResultFrame (Some (data fr)) with
  | None => None
  | Some (ret, None) => Some (ret, d)
  | Some (_, Some (q, r, side)) =>
    if side =? IS_RECV_RESULT then Some (ProcessFileRecvResult lock s q r d)
    else if side =? IS_SEND_RESULT then Some (ProcessFileSendResult s r d)
    else Some (SOFTBUS_OK, d)
  end.

Definition ProcessFileAckResponse (lock s : Z) (fr : FileFrame) (d : D) : option (Z * D) :=
  if frameLength fr =? 0 then Some (SOFTBUS_INVALID_PARAM, d)
  else if negb (SoftBusCalloc (aLibc a) sizeof_AckResponseData) then Some (SOFTBUS_MALLOC_ERR, d)
  else
    match UnpackAckReqAndResData fr with
    | None => None
    | Some (ret, None) => Some (ret, d)
    | Some (_, Some ack) =>
      match List.find (fun ir => sessionId (fst ir) =? s) (senders d) with
      | None => Some (SOFTBUS_NOT_FIND, d)
      | Some (i, _) =>
        let '(ret, l) := SetPendingPacketData lock s (u64 (waitSeq i)) (Some ack) (dPending d) in
        if negb (ret =? SOFTBUS_OK) then Some (SOFTBUS_FILE_ERR, d)
        else Some (SOFTBUS_OK, mkDevice (recips d) (senders d) l (env d))
      end
    end.

(** ** Every frame that arrives *)

(** The result and the packet size. *)
Definition CheckFrameLength (chan len os : Z) : Z * Z :=
  if negb (os =? OH_TYPE) then (if len <? 4 then SOFTBUS_INVALID_PARAM else SOFTBUS_OK, 0)
  else
    let '(ret, linkType) := aLinkType a chan in
    if negb (ret =? SOFTBUS_OK) then (ret, 0)
    else
      let p := if linkType =? LANE_BR then PROXY_BR_MAX_PACKET_SIZE else PROXY_BLE_MAX_PACKET_SIZE in
      (if p <? len then SOFTBUS_INVALID_PARAM else SOFTBUS_OK, p).

Definition ProcessRecvFileFrameData (lock s chan : Z) (fr : FileFrame) (d : D) : option (Z * D) :=
  let os := aOsType a chan in
  let '(ret, p) := CheckFrameLength chan (frameLength fr) os in
  if negb (ret =? SOFTBUS_OK) then Some (ret, d)
  else
    let t := frameType fr in
    if t =? TRANS_SESSION_FILE_FIRST_FRAME then CreateFileFromFrame s chan fr os p d
    else if (t =? TRANS_SESSION_FILE_ONGOINE_FRAME) || (t =? TRANS_SESSION_FILE_ONLYONE_FRAME) ||
            (t =? TRANS_SESSION_FILE_LAST_FRAME) then WriteFrameToFile s fr d
    else if t =? TRANS_SESSION_FILE_ACK_REQUEST_SENT then ProcessFileAckRequest s fr d
    else if t =? TRANS_SESSION_FILE_ACK_RESPONSE_SENT then ProcessFileAckResponse lock s fr d
    else if t =? TRANS_SESSION_FILE_CRC_CHECK_FRAME then ProcessCrcCheckSumData s fr d
    else if t =? TRANS_SESSION_FILE_RESULT_FRAME then ProcessFileTransResult lock s fr d
    else if t =? TRANS_SESSION_FILE_ALLFILE_SENT then ProcessFileListData s fr d
    else Some (SOFTBUS_FILE_ERR, d).

Definition ProcessFileFrameData (lock s chan : Z) (bytes : list byte) (type : Z) (d : D) : option (Z * D) :=
  ProcessRecvFileFrameData lock s chan (mkFrame 0 type (Z.of_nat (length bytes)) 0 0 bytes 0) d.

End Recipient.

(** ** Two devices

    The sending device of a [World] is connected to a receiving device.  The
    channel hands frames over in order and may lose some ([lost]); an answer that
    the recipient has sent arrives during a wait of the sender, of a short wait
    perhaps not yet ([late]). *)

Record REnv := mkREnv { outbox : list (Z * list byte); told : list RecvEvent; closed : list Z; removed : list (list byte) }.

#[local] Instance REnvOps : RecvOps REnv := {|
  rsend _ b t e := (SOFTBUS_OK, mkREnv (outbox e ++ [(t, b)]) (told e) (closed e) (removed e));
  notify ev e := mkREnv (outbox e) (told e ++ [ev]) (closed e) (removed e);
  closeFile fd e := mkREnv (outbox e) (told e) (closed e ++ [fd]) (removed e);
  removeFile p e := mkREnv (outbox e) (told e) (closed e) (removed e ++ [p])
|}.

Definition noEnv : REnv := mkREnv [] [] [] [].

Record Net := mkNet { rdev : Device REnv; tick : nat; sent : nat }.

Section Network.

(** [rsid], [rchan]: the session and channel at the recipient; [ssid], [schan]:
    at the sender. *)
Context (a sa : RecvAns) (rsid rchan ssid schan : Z) (late lost : nat -> bool).

Definition channelSend (chan : Z) (b : list byte) (t : Z) (w : World Net) : Z * World Net :=
  let n := net w in
  if lost (sent n) then (SOFTBUS_OK, setNet w (mkNet (rdev n) (tick n) (S (sent n))))
  else
    match ProcessFileFrameData a SOFTBUS_OK rsid rchan b t (rdev n) with
    | Some (_, d) => (SOFTBUS_OK, setNet w (mkNet d (tick n) (S (sent n))))
    | None => (SOFTBUS_MEM_ERR, w)
    end.

(** One answer reaches the sending device. *)
Definition answer (tb : Z * list byte) (w : World Net) : World Net :=
  match ProcessFileFrameData sa SOFTBUS_OK ssid schan (snd tb) (fst tb)
          (mkDevice [] [(info w, result w)] (pending w) noEnv) with
  | Some (_, d) =>
    mkWorld (info w) (match senders d with (_, r) :: _ => r | [] => result w end) (dPending d) (events w) (net w)
  | None => w
  end.

Definition deliver (w : World Net) : World Net :=
  let n := net w in
  let e := env (rdev n) in
  let w1 := fold_left (fun w tb => answer tb w) (outbox e) w in
  setNet w1 (mkNet (setEnv (rdev n) (mkREnv [] (told e) (closed e) (removed e))) (tick n) (sent n)).

Definition passTime (ms : Z) (w : World Net) : World Net :=
  let n := net w in
  let w' := setNet w (mkNet (rdev n) (S (tick n)) (sent n)) in
  if (ms <=? WAIT_ACK_TIME) && late (tick n) then w' else deliver w'.

End Network.

(** The transfer of one file as FileToFrame makes it; the opening of the file and the
    list of files before it are not part of this. *)
Definition transfer (a sa : RecvAns) (late lost : nat -> bool) (f dest : list byte) (w : World Net)
  : option (Z * World Net) :=
  let i := info w in
  FileToFrame (fun _ => true) SOFTBUS_OK SOFTBUS_OK SOFTBUS_OK (fun _ => SOFTBUS_OK)
    (channelSend a (sessionId i) (channelId i) lost)
    (passTime sa (sessionId i) (channelId i) late) (preadFile f)
    (frameNum i) dest (fileSize i) w.

(** The record of a sender before the first frame of a file of [size] bytes. *)
Definition startInfo (chan sid p size : Z) : SendListenerInfo :=
  mkSend chan sid size (snd (GetAndCheckFileSize (Some size) APP_INFO_FILE_FEATURES_SUPPORT p))
    APP_INFO_FILE_FEATURES_SUPPORT 0 0 0 0 0 p OH_TYPE.

Definition startWorld (chan sid p size : Z) : World Net :=
  mkWorld (startInfo chan sid p size) SOFTBUS_OK [] [] (mkNet (mkDevice [] [] [] noEnv) 0 0).

(** ** A transfer without losses *)

Section Complete.

Context (a : RecvAns) (f : list byte) (F : Z).

Hypothesis HF : 0 < F <= PROXY_BR_MAX_PACKET_SIZE.
Hypothesis Hf : Z.of_nat (length f) <= MAX_FILE_SIZE.
Hypothesis Hlibc : forall n, aLibc a n = true.
Hypothesis Hwrite : forall n off, aPwrite a n off = n.

(** The sum of the CRCs of the first [k] chunks. *)
Fixpoint crcSum (k : nat) : Z :=
  match k with
  | O => 0
  | S k' => u64 (crcSum k' + modbus (chunk F f (Z.of_nat (S k'))))
  end.

(** The bytes of the first [k] chunks. *)
Definition offOf (k : nat) : Z := Z.min (Z.of_nat k * F) (Z.of_nat (length f)).

(** The recipient's file after [k] frames, with the window starting at [st]. *)
Record fileOK (st : Z) (k : nat) (x : SingleFileInfo) : Prop := {
  ok_seq : rSeq x = Z.of_nat k;
  ok_status : fileStatus x = NODE_BUSY;
  ok_off : fileOffset x = offOf k;
  ok_len : oneFrameLen x = F;
  ok_start : startSeq x = st;
  ok_window : 1 <= st /\ (st - 1) mod 32 = 0 /\ st - 1 <= Z.of_nat k <= st + 31;
  ok_pre : (st = 1 /\ preStartSeq x = 1) \/ preSeqResult x = FILE_SEND_ACK_RESULT_SUCCESS;
  ok_prestart : 1 <= preStartSeq x <= st;
  ok_range : in_u64 (seqResult x);
  ok_bits : forall j, st <= j <= Z.of_nat k -> Z.testbit (seqResult x) ((j - 1) mod 32) = true;
  ok_sum : rCheckSumCRC x = crcSum k;
  ok_content : content x = take (Z.to_nat (offOf k)) f
}.

Lemma offOf_lt k : Z.of_nat k * F < Z.of_nat (length f) -> offOf k = Z.of_nat k * F.
Proof. unfold offOf. lia. Qed.

Lemma chunk_length k : Z.of_nat k * F < Z.of_nat (length f) ->
  Z.of_nat (length (chunk F f (Z.of_nat (S k)))) = offOf (S k) - offOf k.
Proof.
  intros H. rewrite length_chunk by nia. rewrite (offOf_lt k) by assumption. unfold offOf.
  rewrite Nat2Z.inj_succ. nia.
Qed.

Lemma chunk_bounds k : Z.of_nat k * F < Z.of_nat (length f) ->
  0 < Z.of_nat (length (chunk F f (Z.of_nat (S k)))) <= F.
Proof. intros H. rewrite length_chunk by nia. nia. Qed.

(** The next chunk lands behind the bytes that are there. *)
Lemma overwrite_next k : Z.of_nat k * F < Z.of_nat (length f) ->
  overwrite (Z.to_nat (offOf k)) (chunk F f (Z.of_nat (S k))) (take (Z.to_nat (offOf k)) f) =
  take (Z.to_nat (offOf (S k))) f.
Proof.
  intros H. pose proof (chunk_length k H) as Hl. rewrite (offOf_lt k) in * by assumption.
  set (o := Z.to_nat (Z.of_nat k * F)) in *. unfold overwrite.
  assert (Ho : (o <= length f)%nat) by lia.
  assert (Hlo : length (take o f) = o) by (rewrite length_take; lia).
  rewrite Hlo, Nat.sub_diag, app_nil_r, take_take, Nat.min_id.
  rewrite (drop_ge (take o f)) by lia. rewrite app_nil_r.
  unfold chunk. replace (Z.to_nat ((Z.of_nat (S k) - 1) * F)) with o by (unfold o; lia).
  rewrite take_take_drop. unfold offOf in *.
  destruct (decide (o + Z.to_nat F <= length f)%nat) as [Hc|Hc].
  - f_equal. unfold o. nia.
  - rewrite !take_ge; [reflexivity|nia|lia].
Qed.

Lemma bitInt_u64 q : 0 < q -> in_u64 (u64 (bitInt q)) /\ Z.testbit (u64 (bitInt q)) ((q - 1) mod 32) = true.
Proof.
  intros Hq. split; [apply u64_range|]. unfold bitInt, FILE_SEND_ACK_INTERVAL.
  set (b := q mod 32). assert (Hb : (q - 1) mod 32 = if b =? 0 then 31 else b - 1).
  { unfold b. pose proof (Z.mod_pos_bound q 32 ltac:(lia)). destruct (Z.eqb_spec (q mod 32) 0) as [E|E];
      Z.to_euclidean_division_equations; lia. }
  replace (if b =? 0 then 32 - 1 else b - 1) with ((q - 1) mod 32) by (rewrite Hb; destruct (b =? 0); lia).
  pose proof (Z.mod_pos_bound (q - 1) 32 ltac:(lia)) as Hm. revert Hm. generalize ((q - 1) mod 32). intros m Hm.
  assert (H : forallb (fun m => Z.testbit (u64 (s32 (Z.shiftl 1 m))) m) (map Z.of_nat (List.seq 0 32)) = true)
    by (vm_compute; reflexivity).
  rewrite forallb_forall in H. apply H. apply in_map_iff. exists (Z.to_nat m). split; [lia|]. apply in_seq. lia.
Qed.

Lemma lor_u64 x y : in_u64 x -> in_u64 y -> in_u64 (Z.lor x y).
Proof.
  intros Hx Hy. unfold in_u64 in *. split; [apply Z.lor_nonneg; lia|].
  change 18446744073709551616 with (2 ^ 64). destruct (Z.eq_dec (Z.lor x y) 0) as [->|]; [lia|].
  apply Z.log2_lt_pow2; [pose proof (proj2 (Z.lor_nonneg x y) ltac:(lia)); lia|]. rewrite Z.log2_lor by lia.
  assert (Hb : forall z, 0 <= z < 18446744073709551616 -> Z.log2 z < 64).
  { intros z Hz. destruct (Z.eq_dec z 0) as [->|]; [simpl; lia|]. apply Z.log2_lt_pow2; lia. }
  apply Z.max_lub_lt; auto.
Qed.

Lemma crcSum_range k : in_u64 (crcSum k).
Proof. destruct k; [unfold in_u64; simpl; lia|apply u64_range]. Qed.

(** One data frame. *)
Lemma ProcessOneFrameCRC_next st k x t l : fileOK st k x -> Z.of_nat k * F < Z.of_nat (length f) ->
  Z.of_nat (S k) <= st + 31 ->
  let c := chunk F f (Z.of_nat (S k)) in
  exists x', ProcessOneFrameCRC a
      (mkFrame FILE_MAGIC_NUMBER t l (Z.of_nat (S k)) (modbus c) (dataFrame (Z.of_nat (S k)) c) FRAME_HEAD_LEN)
      (Z.of_nat (length c) + FRAME_DATA_SEQ_OFFSET) x = Some (SOFTBUS_OK, x') /\
    fileOK st (S k) x' /\ fileFd x' = fileFd x /\ filePath x' = filePath x /\ rFileSize x' = rFileSize x.
Proof.
  intros Hx Hk Hst c. destruct Hx as [Hseq Hstat Hoff Hlen Hstart Hwin Hpre Hps Hrng Hbits Hsum Hcont].
  pose proof (chunk_length k Hk) as Hcl. fold c in Hcl. pose proof (chunk_bounds k Hk) as Hcb. fold c in Hcb.
  unfold PROXY_BR_MAX_PACKET_SIZE, MAX_FILE_SIZE in *.
  assert (Hkn : Z.of_nat k < 5242880) by nia.
  assert (Ho : 0 <= offOf k /\ offOf (S k) <= 5242880) by (unfold offOf; lia).
  unfold ProcessOneFrameCRC. cbn [frameSeq]. rewrite Hstart. unfold FILE_SEND_ACK_INTERVAL at 1.
  rewrite u32_small by (unfold in_u32; lia).
  destruct (Z.ltb_spec (Z.of_nat (S k)) 1); [lia|]. destruct (Z.leb_spec (st + 32) (Z.of_nat (S k))); [lia|].
  cbn [orb]. unfold ProcessFileFrameSequence. cbn [frameSeq frameType]. rewrite Hstart, Hseq, Hlen.
  destruct (Z.leb_spec st (Z.of_nat (S k))); [|lia].
  rewrite (s32_small (Z.of_nat (S k))), (s32_small (Z.of_nat k)) by (unfold in_s32; lia).
  replace (Z.of_nat (S k) - Z.of_nat k - 1) with 0 by lia. change (s32 0) with 0. rewrite Z.mul_0_l.
  change (s64 0) with 0. change (MAX_FILE_SIZE <? 0) with false. cbn iota.
  change (u64 (MAX_FILE_SIZE - u64 0)) with 5242880. rewrite Hoff.
  destruct (Z.ltb_spec 5242880 (offOf k)); [lia|].
  unfold WriteEmptyFrame. cbn [Z.ltb Z.compare negb Z.eqb SOFTBUS_OK].
  match goal with |- context [if ?c && ?d then _ else _] => assert (Hno : c && d = false) end.
  { destruct Hpre as [[-> Hpre]| ->]; [|apply andb_false_r]. rewrite Hpre.
    change (u32 (1 + FILE_SEND_ACK_INTERVAL + WAIT_FRAME_ACK_TIMEOUT_COUNT - 1)) with 56.
    destruct (Z.leb_spec 56 (Z.of_nat (S k))); [lia|].
    unfold FILE_SEND_ACK_INTERVAL. destruct (Z.ltb_spec 32 (Z.of_nat (S k))); [lia|].
    now rewrite andb_false_r. }
  rewrite Hno. clear Hno. cbn [negb Z.eqb SOFTBUS_OK setProgress fileOffset startSeq rSeq content seqResult preSeqResult rCheckSumCRC].
  rewrite Hoff, Hstart, Hsum, Hcont. replace (Z.of_nat (length c) + FRAME_DATA_SEQ_OFFSET - FRAME_DATA_SEQ_OFFSET)
    with (Z.of_nat (length c)) by lia.
  rewrite (u32_small (Z.of_nat (length c))) by (unfold in_u32; lia). unfold MAX_FILE_SIZE.
  destruct (Z.ltb_spec 5242880 (Z.of_nat (length c))); [lia|].
  destruct (Z.ltb_spec (5242880 - Z.of_nat (length c)) (offOf k)); [lia|].
  assert (Hr : readAt (FRAME_HEAD_LEN + FRAME_DATA_SEQ_OFFSET) (Z.of_nat (length c)) (dataFrame (Z.of_nat (S k)) c) = Some c).
  { unfold dataFrame. rewrite (app_assoc (le 8 _)), (app_assoc (le 4 FILE_MAGIC_NUMBER)).
    apply readAt_app; [|reflexivity]. rewrite !length_app, !length_le. reflexivity. }
  cbn [fdOff data frameCrc]. rewrite Hr. cbn [mbind option_bind]. rewrite Hwrite.
  unfold pwriteFile. destruct (Z.leb_spec 0 (Z.of_nat (length c))); [|lia].
  destruct (Z.ltb_spec (Z.of_nat (length c)) 0); [lia|]. rewrite Z.eqb_refl. cbn [negb orb].
  destruct (Z.leb_spec st (Z.of_nat (S k))); [|lia].
  rewrite (u64_small (offOf k + _)) by (unfold in_u64; lia).
  destruct (Z.ltb_spec 5242880 (offOf k + Z.of_nat (length c))); [lia|].
  eexists. split; [reflexivity|]. split; [|auto].
  rewrite Nat2Z.id, (take_ge c) by lia.
  destruct (bitInt_u64 (Z.of_nat (S k)) ltac:(lia)) as [Hb1 Hb2].
  split; cbn [setProgress rSeq fileStatus fileOffset oneFrameLen startSeq preStartSeq preSeqResult seqResult rCheckSumCRC content];
    auto; try lia.
  - now apply lor_u64.
  - intros j Hj. rewrite Z.lor_spec. destruct (decide (j = Z.of_nat (S k))) as [->|]; [now rewrite Hb2, orb_true_r|].
    rewrite Hbits by lia. reflexivity.
  - rewrite overwrite_next by assumption. reflexivity.
Qed.

(** A complete window reports success, and the next window starts. *)
Lemma nextWindow_ok st k x : fileOK st k x -> Z.of_nat k = st + 31 -> Z.of_nat k < 4294967200 ->
  preSeqResult (nextWindow st x) = FILE_SEND_ACK_RESULT_SUCCESS /\ fileOK (st + 32) k (nextWindow st x).
Proof.
  intros [Hseq Hstat Hoff Hlen Hstart Hwin Hpre Hps Hrng Hbits Hsum Hcont] Hk Hlt.
  assert (Hv : u32 (Z.land (seqResult x) FILE_SEND_ACK_RESULT_SUCCESS) = FILE_SEND_ACK_RESULT_SUCCESS).
  { unfold FILE_SEND_ACK_RESULT_SUCCESS. change 4294967295 with (Z.ones 32). rewrite Z.land_ones by lia.
    unfold u32. change 4294967296 with (2 ^ 32). rewrite Z.mod_mod by lia.
    apply Z.bits_inj'. intros m Hm. destruct (Z.ltb_spec m 32).
    - rewrite Z.mod_pow2_bits_low, Z.ones_spec_low by lia. specialize (Hbits (st + m) ltac:(lia)).
      replace ((st + m - 1) mod 32) with m in Hbits; [exact Hbits|].
      replace (st + m - 1) with (m + (st - 1)) by lia. rewrite Z.add_mod, (proj1 (proj2 Hwin)) by lia.
      rewrite Z.add_0_r, Z.mod_mod, Z.mod_small; lia.
    - rewrite Z.mod_pow2_bits_high, Z.ones_spec_high by lia. reflexivity. }
  split; [exact Hv|]. unfold nextWindow.
  split; cbn [rSeq fileStatus fileOffset oneFrameLen startSeq preStartSeq preSeqResult seqResult rCheckSumCRC content];
    auto; try (unfold FILE_SEND_ACK_INTERVAL in *; lia).
  - unfold FILE_SEND_ACK_INTERVAL. apply u32_small. unfold in_u32. lia.
  - split_and!; try lia. replace (st + 32 - 1) with (st - 1 + 1 * 32) by lia. rewrite Z_mod_plus_full. apply Hwin.
  - unfold in_u64 in *. rewrite Z.shiftr_div_pow2 by (unfold FILE_SEND_ACK_INTERVAL; lia).
    split; [apply Z.div_pos; [lia|reflexivity]|]. apply Z.le_lt_trans with (seqResult x); [|lia].
    apply Z.div_le_upper_bound; [reflexivity|]. change (2 ^ FILE_SEND_ACK_INTERVAL) with 4294967296. nia.
Qed.


(** *** The receiving device *)

Context (sid chan p lt : Z).

Hypothesis Hos : aOsType a chan = OH_TYPE.
Hypothesis Hlink : aLinkType a chan = (SOFTBUS_OK, lt).
Hypothesis Hp : p = if lt =? LANE_BR then PROXY_BR_MAX_PACKET_SIZE else PROXY_BLE_MAX_PACKET_SIZE.
Hypothesis HpF : F = frameDataSize p.
Hypothesis Hinfo : aGetInfo a chan = SOFTBUS_OK.

Record recvOK (st : Z) (k : nat) (r : FileRecipientInfo) : Prop := {
  rk_sid : rSessionId r = sid;
  rk_chan : rChannelId r = chan;
  rk_os : rOsType r = OH_TYPE;
  rk_crc : rCrc r = APP_INFO_FILE_FEATURES_SUPPORT;
  rk_count : objRefCount r = 1;
  rk_state : recvState r = TRANS_FILE_RECV_START_STATE \/ recvState r = TRANS_FILE_RECV_PROCESS_STATE;
  rk_file : fileOK st k (recvFileInfo r)
}.

Lemma p_range : 976 <= p <= 4048 /\ F = p - 18.
Proof.
  rewrite HpF, Hp. unfold frameDataSize, PROXY_BR_MAX_PACKET_SIZE, PROXY_BLE_MAX_PACKET_SIZE,
    FRAME_HEAD_LEN, FRAME_DATA_SEQ_OFFSET, FRAME_CRC_LEN. destruct (lt =? LANE_BR); lia.
Qed.

Lemma CheckFrameLength_ok len : len <= p -> CheckFrameLength a chan len OH_TYPE = (SOFTBUS_OK, p).
Proof.
  intros H. unfold CheckFrameLength. rewrite Hlink. cbn [negb Z.eqb OH_TYPE Pos.eqb SOFTBUS_OK].
  rewrite <- Hp. destruct (Z.ltb_spec p len); [lia|reflexivity].
Qed.

Lemma single_get r : rSessionId r = sid -> GetRecipientNoLock sid [r] = Some r.
Proof. intros H. unfold GetRecipientNoLock. cbn [List.find]. now rewrite H, Z.eqb_refl. Qed.

Lemma single_upd g r (e : REnv) : rSessionId r = sid -> upd sid g (mkDevice [r] [] [] e) = mkDevice [g r] [] [] e.
Proof. intros H. unfold upd, setRecips. cbn. now rewrite H, Z.eqb_refl. Qed.

Lemma single_release r (e : REnv) : rSessionId r = sid -> objRefCount r = 2 ->
  ReleaseRecipientRef a sid (mkDevice [r] [] [] e) = mkDevice [setCount r 1] [] [] e.
Proof.
  intros H H2. unfold ReleaseRecipientRef, dropRef. cbn [recips]. rewrite single_get by assumption.
  rewrite H2. change (s32 (2 - 1)) with 1. cbn [Z.eqb Pos.eqb]. now apply single_upd.
Qed.

(** The recipient while a frame is processed. *)
Lemma use_ok st k r (e : REnv) : recvOK st k r ->
  GetRecipientInProcessRef sid (mkDevice [r] [] [] e) = Some (useRecipient r, mkDevice [useRecipient r] [] [] e) /\
  useRecipient r = mkRecipient sid chan OH_TYPE APP_INFO_FILE_FEATURES_SUPPORT (rResult r) (rootDir r) 2
    TRANS_FILE_RECV_PROCESS_STATE (recvFileInfo r).
Proof.
  intros [H1 H2 H3 H4 H5 H6 _]. assert (E : useRecipient r = mkRecipient sid chan OH_TYPE
    APP_INFO_FILE_FEATURES_SUPPORT (rResult r) (rootDir r) 2 TRANS_FILE_RECV_PROCESS_STATE (recvFileInfo r)).
  { unfold useRecipient, setCount, setState. rewrite H5.
    destruct H6 as [H6|H6]; rewrite H6; cbn [Z.eqb Pos.eqb TRANS_FILE_RECV_START_STATE TRANS_FILE_RECV_PROCESS_STATE];
      cbn; now rewrite ?H1, ?H2, ?H3, ?H4, ?H6. }
  split; [|exact E]. unfold GetRecipientInProcessRef. cbn [recips]. rewrite single_get by assumption.
  rewrite single_upd by assumption. destruct H6 as [-> | ->]; reflexivity.
Qed.

Definition isDataType (t : Z) : Prop :=
  t = TRANS_SESSION_FILE_ONGOINE_FRAME \/ t = TRANS_SESSION_FILE_ONLYONE_FRAME \/ t = TRANS_SESSION_FILE_LAST_FRAME.

(** A data frame arrives. *)
Lemma recv_data st k r e t : recvOK st k r -> Z.of_nat k * F < Z.of_nat (length f) -> Z.of_nat (S k) <= st + 31 ->
  isDataType t ->
  exists r' e', ProcessFileFrameData a SOFTBUS_OK sid chan
      (dataFrame (Z.of_nat (S k)) (chunk F f (Z.of_nat (S k)))) t (mkDevice [r] [] [] e) =
    Some (SOFTBUS_OK, mkDevice [r'] [] [] e') /\ recvOK st (S k) r' /\ outbox e' = outbox e.
Proof.
  intros Hr Hk Hst Ht. pose proof p_range as [Hpr HFp]. pose proof (chunk_bounds k Hk) as Hcb.
  set (c := chunk F f (Z.of_nat (S k))) in *.
  assert (Hkn : Z.of_nat (S k) <= MAX_FILE_SIZE) by (unfold MAX_FILE_SIZE in *; nia). unfold MAX_FILE_SIZE in Hkn.
  unfold ProcessFileFrameData, ProcessRecvFileFrameData. cbn [frameLength frameType]. rewrite length_dataFrame, Hos.
  rewrite CheckFrameLength_ok by lia. cbn [negb Z.eqb SOFTBUS_OK].
  replace (t =? TRANS_SESSION_FILE_FIRST_FRAME) with false by (destruct Ht as [-> | [-> | ->]]; reflexivity).
  replace ((t =? TRANS_SESSION_FILE_ONGOINE_FRAME) || (t =? TRANS_SESSION_FILE_ONLYONE_FRAME) ||
    (t =? TRANS_SESSION_FILE_LAST_FRAME)) with true by (destruct Ht as [-> | [-> | ->]]; reflexivity).
  unfold WriteFrameToFile. destruct (use_ok st k r e Hr) as [-> Eu]. rewrite Eu. cbn [rCrc rOsType rChannelId recvFileInfo].
  rewrite UnpackFileDataFrame_frame by (unfold in_u32; reflexivity || lia). cbn [negb Z.eqb SOFTBUS_OK].
  unfold ProcessOneFrame. rewrite (ok_status _ _ _ (rk_file _ _ _ Hr)).
  change (NODE_BUSY =? NODE_ERR) with false. cbn iota.
  change (withCrc APP_INFO_FILE_FEATURES_SUPPORT OH_TYPE) with true. cbn iota.
  destruct (ProcessOneFrameCRC_next st k (recvFileInfo r) t (Z.of_nat (18 + length c)) (rk_file _ _ _ Hr) Hk Hst)
    as (x' & E & Hx' & _). fold c in E. rewrite E. cbn [negb Z.eqb SOFTBUS_OK frameType].
  rewrite single_upd by reflexivity. unfold UpdateFileReceptionStatus.
  rewrite single_upd by reflexivity. cbn [setFile rCrc recvFileInfo rSessionId rChannelId rOsType rResult rootDir objRefCount recvState].
  change (negb (APP_INFO_FILE_FEATURES_SUPPORT =? APP_INFO_FILE_FEATURES_SUPPORT)) with false. cbn [andb].
  unfold tell, setEnv. cbn [recips senders dPending env].
  rewrite single_release by reflexivity. do 2 eexists. split; [reflexivity|]. split; [|reflexivity].
  split; cbn; auto. destruct Hx'. split; auto.
Qed.

(** The end of a window: the acknowledgement reports every frame. *)
Lemma recv_ack st k r e v : recvOK st k r -> Z.of_nat k = st + 31 -> Z.of_nat k < 4294967200 -> in_u32 v ->
  exists r' e', ProcessFileFrameData a SOFTBUS_OK sid chan (ackFrame st v) TRANS_SESSION_FILE_ACK_REQUEST_SENT
      (mkDevice [r] [] [] e) = Some (SOFTBUS_OK, mkDevice [r'] [] [] e') /\ recvOK (st + 32) k r' /\
    outbox e' = outbox e ++ [(TRANS_SESSION_FILE_ACK_RESPONSE_SENT, ackFrame st FILE_SEND_ACK_RESULT_SUCCESS)].
Proof.
  intros Hr Hk Hlt Hv. pose proof p_range as [Hpr HFp].
  assert (Hst : in_u32 st) by (pose proof (ok_window _ _ _ (rk_file _ _ _ Hr)); unfold in_u32; lia).
  unfold ProcessFileFrameData, ProcessRecvFileFrameData. cbn [frameLength frameType].
  change (Z.of_nat (length (ackFrame st v))) with 20. rewrite Hos, CheckFrameLength_ok by lia.
  cbn [negb Z.eqb SOFTBUS_OK TRANS_SESSION_FILE_ACK_REQUEST_SENT TRANS_SESSION_FILE_FIRST_FRAME Pos.eqb
    TRANS_SESSION_FILE_ONGOINE_FRAME TRANS_SESSION_FILE_ONLYONE_FRAME TRANS_SESSION_FILE_LAST_FRAME orb].
  unfold ProcessFileAckRequest. destruct (use_ok st k r e Hr) as [-> Eu]. rewrite UnpackAck_frame by assumption. rewrite Eu.
  cbn [recvFileInfo rChannelId]. rewrite (ok_start _ _ _ (rk_file _ _ _ Hr)), Z.eqb_refl. cbn [negb].
  destruct (nextWindow_ok st k (recvFileInfo r) (rk_file _ _ _ Hr) Hk Hlt) as [Hval Hnw].
  rewrite single_upd by reflexivity. cbn [env]. rewrite SendFileAck_frame by auto. rewrite Hval.
  cbn [rsend REnvOps]. unfold setEnv. cbn [recips senders dPending setFile rSessionId rChannelId rOsType rCrc rResult rootDir objRefCount recvState].
  rewrite single_release by reflexivity. do 2 eexists. split; [reflexivity|]. split; [|reflexivity].
  split; cbn; auto.
Qed.

(** The check sum at the end. *)
Lemma recv_sum st k r e q : recvOK st k r -> in_u32 q ->
  exists r' e', ProcessFileFrameData a SOFTBUS_OK sid chan (checkSumFrame q (crcSum k))
      TRANS_SESSION_FILE_CRC_CHECK_FRAME (mkDevice [r] [] [] e) = Some (SOFTBUS_OK, mkDevice [r'] [] [] e') /\
    content (recvFileInfo r') = take (Z.to_nat (offOf k)) f /\ recvState r' = TRANS_FILE_RECV_IDLE_STATE /\
    objRefCount r' = 1 /\ rSessionId r' = sid /\
    outbox e' = outbox e ++ [(TRANS_SESSION_FILE_RESULT_FRAME, resultFrame q SOFTBUS_OK IS_RECV_RESULT)].
Proof.
  intros Hr Hq. pose proof p_range as [Hpr HFp]. pose proof (crcSum_range k) as Hs.
  unfold ProcessFileFrameData, ProcessRecvFileFrameData. cbn [frameLength frameType].
  change (Z.of_nat (length (checkSumFrame q (crcSum k)))) with 24. rewrite Hos, CheckFrameLength_ok by lia.
  cbn [negb Z.eqb SOFTBUS_OK TRANS_SESSION_FILE_ACK_REQUEST_SENT TRANS_SESSION_FILE_FIRST_FRAME Pos.eqb
    TRANS_SESSION_FILE_ACK_RESPONSE_SENT TRANS_SESSION_FILE_CRC_CHECK_FRAME
    TRANS_SESSION_FILE_ONGOINE_FRAME TRANS_SESSION_FILE_ONLYONE_FRAME TRANS_SESSION_FILE_LAST_FRAME orb].
  unfold ProcessCrcCheckSumData. destruct (use_ok st k r e Hr) as [-> Eu]. rewrite Eu.
  cbn [rCrc recvFileInfo rChannelId]. rewrite (ok_sum _ _ _ (rk_file _ _ _ Hr)).
  assert (U : forall g, UnpackFileCrcCheckSum APP_INFO_FILE_FEATURES_SUPPORT (crcSum k)
      (mkFrame 0 TRANS_SESSION_FILE_CRC_CHECK_FRAME 24 0 0 (checkSumFrame q (crcSum k)) g) =
    Some (SOFTBUS_OK, mkFrame FILE_MAGIC_NUMBER TRANS_SESSION_FILE_CRC_CHECK_FRAME 24 q 0 (checkSumFrame q (crcSum k)) FRAME_HEAD_LEN)).
  { intros g. unfold UnpackFileCrcCheckSum. cbn [frameLength data frameType frameSeq frameCrc].
    unfold FRAME_HEAD_LEN, FRAME_DATA_SEQ_OFFSET, FRAME_MAGIC_OFFSET.
    assert (F1 : field 0 4 (checkSumFrame q (crcSum k)) = Some FILE_MAGIC_NUMBER)
      by exact (field_app 0 4 [] (le 4 FILE_MAGIC_NUMBER) _ eq_refl eq_refl).
    assert (F2 := field_le (le 4 FILE_MAGIC_NUMBER) (le 4 q ++ le 8 (crcSum k)) 8 12 ltac:(lia)).
    assert (F3 := field_le (le 4 FILE_MAGIC_NUMBER ++ le 8 12) (le 8 (crcSum k)) 4 q Hq).
    assert (F4 := field_le (le 4 FILE_MAGIC_NUMBER ++ le 8 12 ++ le 4 q) [] 8 (crcSum k) Hs).
    rewrite app_nil_r in F4. rewrite <- !app_assoc in F3. rewrite <- !app_assoc in F4.
    change (le 4 FILE_MAGIC_NUMBER ++ le 8 12 ++ le 4 q ++ le 8 (crcSum k)) with (checkSumFrame q (crcSum k)) in *.
    rewrite !length_app, !length_le in *. change (Z.of_nat 4) with 4 in *. change (Z.of_nat 8) with 8 in *.
    change (Z.of_nat (4 + 8)) with 12 in *. change (Z.of_nat (4 + (8 + 4))) with (12 + 4) in *.
    rewrite F1, F2. cbn [mbind option_bind]. rewrite F3, F4. cbn [mbind option_bind]. cbn [negb Z.eqb Pos.eqb orb Z.add FILE_MAGIC_NUMBER]. rewrite (Z.eqb_refl (crcSum k)). reflexivity. }
  rewrite U. unfold sendResult. cbn [env frameSeq]. rewrite SendFileTransResult_frame by auto.
  cbn [rsend REnvOps]. unfold setEnv. cbn [recips senders dPending negb orb Z.eqb SOFTBUS_OK].
  unfold SetRecipientRecvState. rewrite single_upd by reflexivity. cbn [recvState].
  change (negb (TRANS_FILE_RECV_PROCESS_STATE =? TRANS_FILE_RECV_ERR_STATE)) with true. cbn iota.
  change (TRANS_FILE_RECV_IDLE_STATE =? TRANS_FILE_RECV_IDLE_STATE) with true. cbn iota.
  rewrite single_release by reflexivity. do 2 eexists. split; [reflexivity|].
  cbn. split_and!; auto. apply (ok_content _ _ _ (rk_file _ _ _ Hr)).
Qed.

(** *** The sending device *)

Context (sa : RecvAns) (slt : Z) (late lost : nat -> bool).

Hypothesis Hsid : in_u32 sid.
Hypothesis Hslibc : forall n, aLibc sa n = true.
Hypothesis Hsos : aOsType sa chan = OH_TYPE.
Hypothesis Hslink : aLinkType sa chan = (SOFTBUS_OK, slt).
Hypothesis Hlost : forall n, lost n = false.

(** The number of data frames. *)
Definition dataFrames : nat := Z.to_nat ((Z.of_nat (length f) + F - 1) / F).
Definition frames : Z := Z.of_nat (S dataFrames).

Lemma dataFrames_spec k : (k < dataFrames)%nat <-> Z.of_nat k * F < Z.of_nat (length f).
Proof.
  unfold dataFrames. pose proof (Z.div_pos (Z.of_nat (length f) + F - 1) F ltac:(lia) ltac:(lia)).
  rewrite <- (Nat2Z.id k) at 1. rewrite <- Z2Nat.inj_lt by lia. split; intros Hk.
  - assert (Z.of_nat k + 1 <= (Z.of_nat (length f) + F - 1) / F) by lia.
    pose proof (Z.mul_div_le (Z.of_nat (length f) + F - 1) F ltac:(lia)). nia.
  - apply Z.lt_le_trans with (Z.of_nat k + 1); [lia|]. apply Z.div_le_lower_bound; nia.
Qed.

Lemma dataFrames_max : Z.of_nat dataFrames <= MAX_FILE_SIZE.
Proof.
  destruct dataFrames as [|n] eqn:E; [unfold MAX_FILE_SIZE; lia|].
  assert (H : (n < dataFrames)%nat) by lia. apply dataFrames_spec in H. nia.
Qed.

Lemma frame_type k : (k < dataFrames)%nat ->
  isDataType (FrameIndexToType (Z.of_nat (S k)) frames) /\
  (FrameIndexToType (Z.of_nat (S k)) frames = TRANS_SESSION_FILE_ONGOINE_FRAME <-> (S k < dataFrames)%nat) /\
  (FrameIndexToType (Z.of_nat (S k)) frames = TRANS_SESSION_FILE_ONLYONE_FRAME -> dataFrames = 1%nat).
Proof.
  intros Hk. unfold FrameIndexToType, frames, isDataType. pose proof dataFrames_max as Hm. unfold MAX_FILE_SIZE in Hm.
  rewrite u64_small by (unfold in_u64; lia).
  destruct (Z.eqb_spec (Z.of_nat (S k)) 0); [lia|]. destruct (Z.eqb_spec (Z.of_nat (S dataFrames)) 0); [lia|]. cbn [orb].
  unfold TRANS_SESSION_FILE_ONGOINE_FRAME, TRANS_SESSION_FILE_ONLYONE_FRAME, TRANS_SESSION_FILE_LAST_FRAME.
  destruct (Z.eqb_spec (Z.of_nat (S k)) 1), (Z.eqb_spec (Z.of_nat (S dataFrames)) 2); cbn [andb];
    try destruct (Z.eqb_spec (Z.of_nat (S k)) (Z.of_nat (S dataFrames) - 1)); split_and!; try lia; auto.
Qed.

(** The sender's record after [k] frames. *)
Definition infoOf (k : nat) (ws wc bp : Z) : SendListenerInfo :=
  mkSend chan sid (Z.of_nat (length f)) frames APP_INFO_FILE_FEATURES_SUPPORT (Z.of_nat k) ws wc (crcSum k) bp p OH_TYPE.

(** After [k] frames of the sender, [kr] of which have been received; [wait] is
    the number of waits for an answer that is under way. *)
Record at_ (st : Z) (k kr : nat) (wait : option Z) (w : World Net) : Prop := {
  at_info : exists bp ws wc, info w = infoOf k ws wc bp /\
    match wait with None => ws = 0 | Some n => ws = st - 1 /\ wc = n /\ 0 <= n <= WAIT_FRAME_ACK_TIMEOUT_COUNT /\ 33 <= st end;
  at_result : result w = SOFTBUS_OK;
  at_pending : pending w = match wait with None => [] | Some _ => [mkPending sid (st - 1) false None] end;
  at_net : exists r e, rdev (net w) = mkDevice [r] [] [] e /\ recvOK st kr r /\
    outbox e = match wait with
               | None => []
               | Some _ => [(TRANS_SESSION_FILE_ACK_RESPONSE_SENT, ackFrame (st - 32) FILE_SEND_ACK_RESULT_SUCCESS)]
               end
}.

Abbreviation chSend := (channelSend a sid chan lost).
Abbreviation chPass := (passTime sa sid chan late).

Lemma CheckFrameLength_short len : len <= 976 -> fst (CheckFrameLength sa chan len OH_TYPE) = SOFTBUS_OK.
Proof.
  intros H. unfold CheckFrameLength. rewrite Hslink. cbn [negb Z.eqb OH_TYPE Pos.eqb SOFTBUS_OK].
  unfold PROXY_BR_MAX_PACKET_SIZE, PROXY_BLE_MAX_PACKET_SIZE.
  destruct (slt =? LANE_BR); [destruct (Z.ltb_spec (4096 - 48) len)|destruct (Z.ltb_spec (1024 - 48) len)];
    try lia; reflexivity.
Qed.

(** The answer to an acknowledgement request reaches the waiting sender. *)
Lemma answer_ack w st v q : waitSeq (info w) = q -> in_s32 q -> 0 < q -> sessionId (info w) = sid ->
  pending w = [mkPending sid q false None] -> in_u32 st -> in_u32 v ->
  answer sa sid chan (TRANS_SESSION_FILE_ACK_RESPONSE_SENT, ackFrame st v) w =
  setPending w [mkPending sid q true (Some (st, v))].
Proof.
  intros Hw Hq Hq0 Hs Hpd Hst Hv. unfold answer, ProcessFileFrameData, ProcessRecvFileFrameData. cbn [fst snd frameLength frameType].
  change (Z.of_nat (length (ackFrame st v))) with 20. rewrite Hsos.
  destruct (CheckFrameLength sa chan 20 OH_TYPE) as [ret pp] eqn:E.
  pose proof (CheckFrameLength_short 20 ltac:(lia)) as Er. rewrite E in Er. cbn in Er. subst ret.
  cbn [negb Z.eqb SOFTBUS_OK TRANS_SESSION_FILE_ACK_REQUEST_SENT TRANS_SESSION_FILE_FIRST_FRAME Pos.eqb
    TRANS_SESSION_FILE_ACK_RESPONSE_SENT
    TRANS_SESSION_FILE_ONGOINE_FRAME TRANS_SESSION_FILE_ONLYONE_FRAME TRANS_SESSION_FILE_LAST_FRAME orb].
  unfold ProcessFileAckResponse. cbn [frameLength Z.eqb].
  rewrite SoftBusCalloc_true by (unfold MAX_MALLOC_SIZE, sizeof_AckResponseData; auto; lia). cbn [negb].
  rewrite UnpackAck_frame by assumption. cbn [senders List.find fst]. rewrite Hs, Z.eqb_refl.
  unfold SetPendingPacketData. cbn [negb Z.eqb SOFTBUS_OK dPending]. rewrite Hw, Hpd.
  rewrite u64_small by (unfold in_u64, in_s32 in *; lia). unfold triggerFirst, isFor. cbn [pendId pendSeq].
  rewrite !Z.eqb_refl. cbn [andb negb Z.eqb recips senders env dPending]. reflexivity.
Qed.

(** A result reaches the sender. *)
Lemma answer_result w q rs : sessionId (info w) = sid -> pending w = [mkPending sid q false None] ->
  in_u32 q -> in_s32 rs ->
  answer sa sid chan (TRANS_SESSION_FILE_RESULT_FRAME, resultFrame q rs IS_RECV_RESULT) w =
  setResult (setPending w [mkPending sid q true None]) rs.
Proof.
  intros Hs Hpd Hq Hrs. unfold answer, ProcessFileFrameData, ProcessRecvFileFrameData. cbn [fst snd frameLength frameType].
  change (Z.of_nat (length (resultFrame q rs IS_RECV_RESULT))) with 24. rewrite Hsos.
  destruct (CheckFrameLength sa chan 24 OH_TYPE) as [ret pp] eqn:E.
  pose proof (CheckFrameLength_short 24 ltac:(lia)) as Er. rewrite E in Er. cbn in Er. subst ret.
  cbn [negb Z.eqb SOFTBUS_OK TRANS_SESSION_FILE_ACK_REQUEST_SENT TRANS_SESSION_FILE_FIRST_FRAME Pos.eqb
    TRANS_SESSION_FILE_ACK_RESPONSE_SENT TRANS_SESSION_FILE_CRC_CHECK_FRAME TRANS_SESSION_FILE_RESULT_FRAME
    TRANS_SESSION_FILE_ONGOINE_FRAME TRANS_SESSION_FILE_ONLYONE_FRAME TRANS_SESSION_FILE_LAST_FRAME orb].
  unfold ProcessFileTransResult. cbn [data]. rewrite UnpackResult_frame by (assumption || (unfold in_u32, IS_RECV_RESULT; lia)).
  cbn [Z.eqb IS_RECV_RESULT]. unfold ProcessFileRecvResult. cbn [senders setSendResult]. rewrite Hs, Z.eqb_refl.
  cbn [recips dPending env senders]. unfold SetPendingPacketData. cbn [negb Z.eqb SOFTBUS_OK]. rewrite Hpd.
  unfold triggerFirst, isFor. cbn [pendId pendSeq]. rewrite !Z.eqb_refl. cbn [andb snd pendData]. reflexivity.
Qed.

(** A wait that lets the answers through. *)
Lemma deliver_one w x r e : rdev (net w) = mkDevice [r] [] [] e -> outbox e = [x] ->
  exists e', deliver sa sid chan w = setNet (answer sa sid chan x w) (mkNet (mkDevice [r] [] [] e') (tick (net w)) (sent (net w))) /\
    outbox e' = [].
Proof.
  intros Hd Ho. unfold deliver. rewrite Hd. cbn [env]. rewrite Ho. cbn [fold_left].
  unfold setEnv. cbn [recips senders dPending]. eexists. split; reflexivity.
Qed.

(** A data frame is sent and received. *)
Lemma send_data st k wait w t : at_ st (S k) k wait w -> (k < dataFrames)%nat -> Z.of_nat (S k) <= st + 31 ->
  isDataType t ->
  exists w', chSend chan (dataFrame (Z.of_nat (S k)) (chunk F f (Z.of_nat (S k)))) t w = (SOFTBUS_OK, w') /\
    at_ st (S k) (S k) wait w' /\ info w' = info w.
Proof.
  intros [Hi Hr Hpd (r & e & Hd & Hrk & Ho)] Hk Hst Ht. apply dataFrames_spec in Hk.
  destruct (recv_data st k r e t Hrk Hk Hst Ht) as (r' & e' & E & Hr' & Ho').
  unfold channelSend. rewrite Hlost, Hd, E. eexists. split; [reflexivity|]. split; [|reflexivity].
  split; auto. exists r', e'. split; [reflexivity|]. rewrite Ho', Ho. auto.
Qed.

Lemma create_ok (w : World Net) q : pending w = [] -> create (fun _ => true) SOFTBUS_OK SOFTBUS_OK SOFTBUS_OK sid q w =
  (SOFTBUS_OK, setPending w [mkPending sid q false None]).
Proof.
  intros H. unfold create, CreatePendingPacket, CheckPendingPacketExisted. rewrite H. cbn [existsb negb Z.eqb SOFTBUS_OK].
  rewrite SoftBusCalloc_true by (unfold MAX_MALLOC_SIZE, sizeof_PendingPacket; auto; lia). reflexivity.
Qed.

Lemma find_single q b d : findPending sid q [mkPending sid q b d] = Some (mkPending sid q b d).
Proof. unfold findPending. rewrite filter_cons_True; [reflexivity|]. unfold isFor. cbn. now rewrite !Z.eqb_refl. Qed.

Lemma remove_single q b d : removePending sid q [mkPending sid q b d] = [].
Proof.
  unfold removePending. rewrite reverse_singleton. cbn [removeFirst]. unfold isFor. cbn [pendId pendSeq].
  now rewrite !Z.eqb_refl.
Qed.

(** How many waits have passed when frame [k] has been sent. *)
Definition waits (st : Z) (k : nat) (wait : option Z) (extra : Z) : Prop :=
  match wait with None => True | Some n => n = Z.of_nat k - (st - 1) + extra end.

(** After a full window of frames that are not the last, the sender asks. *)
Lemma middle_ok st k wait w t : at_ st (S k) (S k) wait w -> waits st (S k) wait 0 -> st <= Z.of_nat (S k) <= st + 31 ->
  (k < dataFrames)%nat -> isDataType t ->
  exists w' st' wait', SendOneFrameMiddle (fun _ => true) SOFTBUS_OK SOFTBUS_OK SOFTBUS_OK (fun _ => SOFTBUS_OK) chSend t w =
      (SOFTBUS_OK, w') /\ at_ st' (S k) (S k) wait' w' /\ waits st' (S k) wait' 0 /\
    (t = TRANS_SESSION_FILE_ONGOINE_FRAME -> Z.of_nat (S k) <= st' + 30).
Proof.
  intros Hat Hw Hst Hk Ht. pose proof dataFrames_max as Hm. unfold MAX_FILE_SIZE in Hm.
  destruct Hat as [(bp & ws & wc & Hi & Hwt) Hr Hpd (r & e & Hd & Hrk & Ho)].
  pose proof (ok_window _ _ _ (rk_file _ _ _ Hrk)) as (Hw1 & Hw2 & Hw3).
  assert (Hat : at_ st (S k) (S k) wait w) by (split; eauto 10).
  unfold SendOneFrameMiddle. rewrite Hi. cbn [crc infoOf seq]. rewrite Z.eqb_refl. cbn [negb].
  destruct (Z.eqb_spec t TRANS_SESSION_FILE_ONGOINE_FRAME) as [->|Hn];
    [|exists w, st, wait; split_and!; auto; intros; contradiction].
  unfold FILE_SEND_ACK_INTERVAL.
  destruct (Z.eqb_spec (Z.of_nat (S k) mod 32) 0) as [E|E]; cbn [negb].
  2: { exists w, st, wait. split_and!; auto. intros _. Z.to_euclidean_division_equations. lia. }
  assert (Hfull : Z.of_nat (S k) = st + 31) by (Z.to_euclidean_division_equations; lia).
  destruct wait as [n|]; [unfold waits, WAIT_FRAME_ACK_TIMEOUT_COUNT in *; lia|]. subst ws.
  cbn [sessionId infoOf]. rewrite create_ok by assumption. cbn [negb Z.eqb SOFTBUS_OK].
  cbn [info setPending setInfo]. rewrite Hi. cbn [channelId infoOf setWait].
  rewrite SendFileAck_frame by reflexivity.
  replace (u32 (Z.of_nat (S k) - 32 + 1)) with st by (rewrite u32_small by (unfold in_u32; lia); lia).
  destruct (recv_ack st (S k) r e (Z.of_nat (S k)) Hrk Hfull ltac:(lia) ltac:(unfold in_u32; lia))
    as (r' & e' & E2 & Hr' & Ho').
  unfold channelSend. rewrite Hlost. cbn [net setInfo setPending]. rewrite Hd, E2. cbn [negb Z.eqb SOFTBUS_OK].
  do 1 eexists. exists (st + 32), (Some 0). split; [reflexivity|]. split_and!.
  - split; cbn [info setNet setInfo setPending result pending net rdev]; auto.
    + exists bp, (st + 31), 0. rewrite s32_small by (unfold in_s32; lia). rewrite <- Hfull.
      unfold infoOf, setWait, WAIT_FRAME_ACK_TIMEOUT_COUNT. cbn [channelId sessionId fileSize frameNum crc seq checkSumCRC bytesProcessed packetSize osType].
      split; [reflexivity|]. lia.
    + rewrite Hfull. do 2 f_equal. lia.
    + exists r', e'. split; [reflexivity|]. split; [exact Hr'|]. rewrite Ho', Ho.
      replace (st + 32 - 32) with st by lia. reflexivity.
  - unfold waits. lia.
  - lia.
Qed.

Lemma AckResponse_success i d w : AckResponseDataHandle (fun _ => true) (fun _ => SOFTBUS_OK) chSend (preadFile f) i
  (Some (d, FILE_SEND_ACK_RESULT_SUCCESS)) w = Some (SOFTBUS_OK, w).
Proof. reflexivity. Qed.

(** The sender looks for the answer: it is there, or it looks again after the
    next frame, at most 24 times and not after the last one. *)
Lemma rear_ok st k wait w t : at_ st (S k) (S k) wait w -> waits st (S k) wait 0 -> isDataType t ->
  (S k <= dataFrames)%nat -> (t = TRANS_SESSION_FILE_ONLYONE_FRAME -> wait = None) ->
  exists w' wait', SendOneFrameRear (fun _ => true) SOFTBUS_OK (fun _ => SOFTBUS_OK) chSend chPass (preadFile f) t w =
      Some (SOFTBUS_OK, w') /\ at_ st (S k) (S k) wait' w' /\ waits st (S k) wait' 1 /\
    (t <> TRANS_SESSION_FILE_ONGOINE_FRAME -> wait' = None).
Proof.
  intros Hat Hw Ht Hk H1. pose proof dataFrames_max as Hm. unfold MAX_FILE_SIZE in Hm.
  destruct Hat as [(bp & ws & wc & Hi & Hwt) Hr Hpd (r & e & Hd & Hrk & Ho)].
  assert (Hat : at_ st (S k) (S k) wait w) by (split; eauto 10).
  pose proof (ok_window _ _ _ (rk_file _ _ _ Hrk)) as (Hw1 & Hw2 & Hw3).
  unfold SendOneFrameRear. rewrite Hi. cbn [crc infoOf sessionId waitSeq waitTimeoutCount]. rewrite Z.eqb_refl. cbn [negb orb].
  destruct (Z.eqb_spec t TRANS_SESSION_FILE_ONLYONE_FRAME) as [Eo|Eo].
  { rewrite (H1 Eo) in *. exists w, None. split_and!; auto. }
  replace (t =? TRANS_SESSION_FILE_FIRST_FRAME) with false by (destruct Ht as [-> | [-> | ->]]; reflexivity).
  destruct wait as [n|]; [|subst ws; exists w, None; change (u32 0 =? 0) with true; split_and!; auto].
  destruct Hwt as (-> & -> & Hn & Hst33).
  rewrite u32_small, u64_small by (unfold in_u32, in_u64; lia). destruct (Z.eqb_spec (st - 1) 0); [lia|].
  unfold GetPendingPacketData. cbn [negb Z.eqb SOFTBUS_OK]. rewrite Hpd.
  rewrite find_single. cbn [finded].
  match goal with |- context [chPass ?t w] => set (tm := t) end.
  unfold passTime. set (w0 := setNet w _).
  destruct ((tm <=? WAIT_ACK_TIME) && late (tick (net w))) eqn:El.
  - (* late *)
    apply andb_prop in El as [El _]. apply Z.leb_le in El.
    assert (Hshort : t <> TRANS_SESSION_FILE_LAST_FRAME /\ n < WAIT_FRAME_ACK_TIMEOUT_COUNT).
    { unfold tm, WAIT_ACK_LAST_TIME, WAIT_ACK_TIME in El. destruct (Z.eqb_spec t TRANS_SESSION_FILE_LAST_FRAME); cbn [orb] in El; [lia|].
      destruct (Z.leb_spec WAIT_FRAME_ACK_TIMEOUT_COUNT n); [lia|auto]. }
    change (pending w0) with (pending w). rewrite Hpd, find_single. cbn [finded].
    change (triggered SOFTBUS_TIMOUT) with false. cbn iota. rewrite Z.eqb_refl.
    destruct (Z.eqb_spec t TRANS_SESSION_FILE_LAST_FRAME); [tauto|]. cbn [negb andb].
    unfold w0. cbn [info setInfo setNet]. rewrite Hi. cbn [waitSeq waitTimeoutCount infoOf setWait].
    unfold WAIT_FRAME_ACK_TIMEOUT_COUNT in *. rewrite s32_small by (unfold in_s32; lia).
    destruct (Z.leb_spec (n + 1) 24); [|lia].
    eexists. exists (Some (n + 1)). split; [reflexivity|]. split_and!.
    + split; cbn [info setNet setInfo setPending result pending net rdev]; auto.
      * exists bp, (st - 1), (n + 1). unfold WAIT_FRAME_ACK_TIMEOUT_COUNT. split; [reflexivity|lia].
      * exists r, e. rewrite Hd. auto.
    + unfold waits in *. lia.
    + intros Hng. destruct Ht as [? | [? | ?]]; tauto.
  - (* the answer arrives *)
    assert (Hd0 : rdev (net w0) = mkDevice [r] [] [] e) by exact Hd.
    destruct (deliver_one w0 _ r e Hd0 Ho) as (e' & -> & Ho').
    rewrite (answer_ack w0 (st - 32) FILE_SEND_ACK_RESULT_SUCCESS (st - 1))
      by (unfold w0; cbn [info setNet pending]; rewrite ?Hi; cbn [waitSeq infoOf sessionId];
          unfold in_s32, in_u32, FILE_SEND_ACK_RESULT_SUCCESS; auto; lia).
    cbn [pending setNet setPending]. rewrite find_single. cbn [finded pendData]. rewrite remove_single.
    change (triggered SOFTBUS_OK) with true. cbn iota. rewrite AckResponse_success.
    eexists. exists None. split; [reflexivity|]. split_and!; [|exact I|reflexivity].
    split; cbn [clearWait info setNet setInfo setPending result pending net rdev w0]; auto.
    + exists bp, 0, 0. unfold w0. cbn [info setNet]. rewrite Hi. auto.
    + exists r, e'. auto.
Qed.

(** One data frame with everything around it. *)
Lemma SendOneFrame_data st k wait w fr : at_ st (S k) k wait w -> waits st k wait 1 -> Z.of_nat (S k) <= st + 31 ->
  (k < dataFrames)%nat -> frameType fr = FrameIndexToType (Z.of_nat (S k)) frames ->
  frameBytes fr = dataFrame (Z.of_nat (S k)) (chunk F f (Z.of_nat (S k))) ->
  exists w' st' wait', SendOneFrame (fun _ => true) SOFTBUS_OK SOFTBUS_OK SOFTBUS_OK (fun _ => SOFTBUS_OK) chSend chPass
      (preadFile f) fr w = Some (SOFTBUS_OK, w') /\ at_ st' (S k) (S k) wait' w' /\ waits st' (S k) wait' 1 /\
    ((S k < dataFrames)%nat -> Z.of_nat (S k) <= st' + 30) /\ (S k = dataFrames -> wait' = None).
Proof.
  intros Hat Hw Hst Hk Ht Hb. destruct (frame_type k Hk) as (Hd & Hong & Honly). rewrite <- Ht in *.
  pose proof (at_info _ _ _ _ _ Hat) as (bp & ws & wc & Hi & _).
  assert (Ho : osType (info w) = OH_TYPE) by (rewrite Hi; reflexivity).
  assert (Hc : crc (info w) = APP_INFO_FILE_FEATURES_SUPPORT) by (rewrite Hi; reflexivity).
  unfold SendOneFrame, SendOneFrameFront. rewrite Ho, Hc, !Z.eqb_refl. cbn [negb].
  replace (frameType fr =? TRANS_SESSION_FILE_FIRST_FRAME) with false by (destruct Hd as [-> | [-> | ->]]; reflexivity).
  cbn [negb Z.eqb SOFTBUS_OK]. unfold ProxyChannelSendFileStream. cbn [negb Z.eqb SOFTBUS_OK]. fold (frameBytes fr). rewrite Hb.
  replace (channelId (info w)) with chan by (rewrite Hi; reflexivity).
  destruct (send_data st k wait w (frameType fr) Hat Hk Hst Hd) as (w2 & -> & Hat2 & Ei2). cbn [negb Z.eqb SOFTBUS_OK].
  assert (Hw2 : waits st (S k) wait 0) by (destruct wait; unfold waits in *; [lia|exact I]).
  assert (Hst' : st <= Z.of_nat (S k) <= st + 31).
  { destruct (at_net _ _ _ _ _ Hat) as (r0 & e0 & _ & Hr0 & _). pose proof (ok_window _ _ _ (rk_file _ _ _ Hr0)). lia. }
  destruct (middle_ok st k wait w2 (frameType fr) Hat2 Hw2 Hst' Hk Hd) as (w3 & st3 & wait3 & -> & Hat3 & Hw3 & Hs3).
  cbn [negb Z.eqb SOFTBUS_OK].
  assert (H1 : frameType fr = TRANS_SESSION_FILE_ONLYONE_FRAME -> wait3 = None).
  { intros Eo. specialize (Honly Eo). destruct wait3 as [n|]; [|reflexivity]. exfalso.
    destruct (at_info _ _ _ _ _ Hat3) as (? & ? & ? & _ & _ & _ & _ & H33).
    destruct (at_net _ _ _ _ _ Hat3) as (r3 & e3 & _ & Hr3 & _).
    pose proof (ok_window _ _ _ (rk_file _ _ _ Hr3)). lia. }
  destruct (rear_ok st3 k wait3 w3 (frameType fr) Hat3 Hw3 Hd ltac:(lia) H1) as (w4 & wait4 & -> & Hat4 & Hw4 & Hq4).
  cbn [negb Z.eqb SOFTBUS_OK]. rewrite (at_result _ _ _ _ _ Hat4). exists w4, st3, wait4. split_and!; auto.
  - intros Hlt. apply Hs3, Hong, Hlt.
  - intros He. apply Hq4. rewrite Hong. lia.
Qed.

Lemma at_event st k kr wait w ev : at_ st k kr wait w -> at_ st k kr wait (addEvent w ev).
Proof. intros [H1 H2 H3 H4]. split; auto. Qed.

(** All data frames. *)
Lemma frameLoop_data dest : forall m k st wait w fr, (m = dataFrames - k)%nat -> (k <= dataFrames)%nat ->
  at_ st k k wait w -> waits st k wait 1 -> ((k < dataFrames)%nat -> Z.of_nat k <= st + 30) ->
  (k = dataFrames -> wait = None) -> magic fr = FILE_MAGIC_NUMBER -> fdOff fr = FRAME_HEAD_LEN ->
  Z.of_nat (length (data fr)) = p ->
  exists w' st', frameLoop (fun _ => true) SOFTBUS_OK SOFTBUS_OK SOFTBUS_OK (fun _ => SOFTBUS_OK) chSend chPass (preadFile f)
      dest (Z.of_nat (length f)) F frames m (Z.of_nat (S k)) fr (offOf k) (Z.of_nat (length f) - offOf k) w =
    Some (SOFTBUS_OK, w') /\ at_ st' dataFrames dataFrames None w'.
Proof.
  pose proof p_range as [Hpr HFp]. pose proof dataFrames_max as Hm0. unfold MAX_FILE_SIZE in Hm0, Hf.
  induction m as [|m IH]; intros k st wait w fr Hm Hk Hat Hw Hst Hend Hmg Hfo Hln.
  { assert (k = dataFrames) as -> by lia. rewrite (Hend eq_refl) in Hat. exists w, st. auto. }
  assert (Hlt : (k < dataFrames)%nat) by lia. pose proof (proj1 (dataFrames_spec k) Hlt) as HkF.
  pose proof (chunk_length k HkF) as Hcl. pose proof (chunk_bounds k HkF) as Hcb.
  destruct (at_info _ _ _ _ _ Hat) as (bp & ws & wc & Hi & Hwt).
  cbn [frameLoop]. destruct (Z.eqb_spec (Z.of_nat (S k)) 0); [lia|].
  set (fr0 := setType fr _).
  destruct (PackReadFileData_frame (preadFile f) fr0
    (if Z.of_nat (length f) - offOf k <? F then Z.of_nat (length f) - offOf k else F) (offOf k) (info w)
    (chunk F f (Z.of_nat (S k)))) as (fr1 & -> & Hb & Htp & _ & Hdl & Hm1 & Hf1).
  { rewrite Hi. reflexivity. }
  { rewrite (offOf_lt k HkF). replace (Z.of_nat k * F) with ((Z.of_nat (S k) - 1) * F) by lia.
    apply preadFile_chunk; lia. }
  { exact Hmg. } { exact Hfo. } { lia. } { rewrite Hi. cbn [packetSize infoOf]. lia. }
  { rewrite Hi. exact Hln. } { rewrite Hi. cbn [packetSize infoOf]. lia. }
  set (c := chunk F f (Z.of_nat (S k))) in *.
  destruct (Z.leb_spec (Z.of_nat (length c)) 0); [lia|].
  assert (Hsq : u32 (seq (info w) + 1) = Z.of_nat (S k)).
  { rewrite Hi. cbn [seq infoOf]. rewrite u32_small; [lia|unfold in_u32; lia]. }
  rewrite Hsq in *.
  set (w1 := setInfo w _).
  assert (Hat1 : at_ st (S k) k wait w1).
  { destruct Hat as [_ H2 H3 H4]. split; auto. unfold w1. cbn [info setInfo]. rewrite Hi.
    exists (u64 (bp + Z.of_nat (length c))), ws, wc. split; [reflexivity|exact Hwt]. }
  destruct (SendOneFrame_data st k wait w1 fr1 Hat1 Hw) as (w2 & st2 & wait2 & -> & Hat2 & Hw2 & Hs2 & He2);
    [specialize (Hst Hlt); lia|exact Hlt|exact Htp|exact Hb|].
  cbn [negb Z.eqb SOFTBUS_OK]. rewrite !u64_small by (unfold in_u64; unfold offOf in *; lia).
  replace (offOf k + Z.of_nat (length c)) with (offOf (S k)) by lia.
  replace (Z.of_nat (length f) - offOf k - Z.of_nat (length c)) with (Z.of_nat (length f) - offOf (S k)) by lia.
  replace (Z.of_nat (S k) + 1) with (Z.of_nat (S (S k))) by lia.
  apply (IH (S k) st2 wait2); auto; try lia.
  - now apply at_event.
  - cbn [setData data]. rewrite length_replicate, Hdl. exact Hln.
Qed.

(** *** The first frame *)

Context (dest root absPath : list byte) (made : list (list byte)).

Hypothesis Hdest : CheckDestFilePathValid (Some dest) = true.
Hypothesis Hdlen : strlen dest < MAX_FILE_PATH_NAME_LEN.
Hypothesis Hnul : cstr dest = dest.
Hypothesis Hsession : aSession a sid = SOFTBUS_OK.
Hypothesis Hcrc : aCrc a sid = APP_INFO_FILE_FEATURES_SUPPORT.
Hypothesis Hroot : aRoot a sid = Some root.
Hypothesis Hdots : hasDotDot root = false.
Hypothesis Hpath : IsPathValid (GetFullRecvPath (aLibc a) (Some dest) (Some root)) = true.
Hypothesis Habs : CreateDirAndGetAbsPath (aLibc a) (aLibc a) (aLibc a) (aAccess a) (aMkdir a) (aRealpath a)
  (GetFullRecvPath (aLibc a) (Some dest) (Some root)) MAX_FILE_PATH_NAME_LEN = (SOFTBUS_OK, absPath, made).
Hypothesis Hopen : 0 <= aOpen a absPath.
Hypothesis Hfcntl : aFcntl a 0%nat = 0.

Definition startFrame : list byte :=
  le 4 FILE_MAGIC_NUMBER ++ le 8 (strlen dest + 12) ++ le 4 F ++ le 8 (Z.of_nat (length f)) ++ dest.

Lemma length_startFrame : length startFrame = (24 + length dest)%nat.
Proof. unfold startFrame. rewrite !length_app, !length_le. lia. Qed.

Lemma dest_range : 0 < strlen dest < 512.
Proof.
  unfold CheckDestFilePathValid, MAX_FILE_PATH_NAME_LEN in *. unfold strlen in *.
  rewrite s32_small in Hdest by (unfold in_s32; lia).
  destruct (Z.eqb_spec (Z.of_nat (length dest)) 0); [discriminate|]. lia.
Qed.

Lemma pack_start fr i : withCrc (crc i) (osType i) = true -> packetSize i = p -> magic fr = FILE_MAGIC_NUMBER ->
  fdOff fr = FRAME_HEAD_LEN -> Z.of_nat (length (data fr)) = p ->
  exists fr', PackFileTransStartInfo fr dest (Z.of_nat (length f)) i = Some (SOFTBUS_OK, fr') /\
    frameBytes fr' = startFrame /\ frameType fr' = frameType fr /\ magic fr' = FILE_MAGIC_NUMBER /\
    fdOff fr' = FRAME_HEAD_LEN /\ length (data fr') = length (data fr).
Proof.
  intros Hw Hpk Hm Ho Hl. pose proof p_range as [Hpr HFp]. pose proof dest_range as Hdr. unfold strlen in Hdr.
  unfold PackFileTransStartInfo. rewrite Hw. unfold strlen, FRAME_DATA_SEQ_OFFSET, FRAME_HEAD_LEN, FRAME_CRC_LEN, FRAME_MAGIC_OFFSET in *.
  rewrite (u32_small (Z.of_nat (length dest))) by (unfold in_u32; lia).
  rewrite (u64_small (_ + 4 + 8)) by (unfold in_u64; lia). cbn [setLength frameLength data magic fdOff].
  rewrite (u32_small (12 + _)) by (unfold in_u32; lia). rewrite Hpk.
  destruct (Z.ltb_spec p (12 + (Z.of_nat (length dest) + 4 + 8))); [lia|].
  set (d := data fr) in *.
  assert (Hd : exists b1 b2 b3 b4 b5 rest, d = b1 ++ b2 ++ b3 ++ b4 ++ b5 ++ rest /\ length b1 = 4%nat /\ length b2 = 8%nat /\
    length b3 = 4%nat /\ length b4 = 8%nat /\ length b5 = length dest).
  { exists (take 4 d), (take 8 (drop 4 d)), (take 4 (drop 12 d)), (take 8 (drop 16 d)), (take (length dest) (drop 24 d)),
      (drop (length dest) (drop 24 d)).
    rewrite !length_take, !length_drop. split_and!; try lia.
    rewrite (take_drop (length dest)). replace (drop 24 d) with (drop 8 (drop 16 d)) by (rewrite drop_drop; reflexivity).
    rewrite (take_drop 8 (drop 16 d)). replace (drop 16 d) with (drop 4 (drop 12 d)) by (rewrite drop_drop; reflexivity).
    rewrite (take_drop 4 (drop 12 d)). replace (drop 12 d) with (drop 8 (drop 4 d)) by (rewrite drop_drop; reflexivity).
    now rewrite (take_drop 8), (take_drop 4). }
  destruct Hd as (b1 & b2 & b3 & b4 & b5 & rest & Ed & L1 & L2 & L3 & L4 & L5). rewrite Hm, Ho, Ed.
  replace (p - 12 - 4 - 2) with F by lia. rewrite (u32_small F) by (unfold in_u32; lia).
  replace (Z.of_nat (length dest) + 4 + 8) with (strlen dest + 12) by (unfold strlen; lia).
  set (M := le 4 FILE_MAGIC_NUMBER). set (L := le 8 (strlen dest + 12)). set (O := le 4 F). set (S := le 8 (Z.of_nat (length f))).
  assert (LM : length M = 4%nat) by apply length_le. assert (LL : length L = 8%nat) by apply length_le.
  assert (LO : length O = 4%nat) by apply length_le. assert (LS : length S = 8%nat) by apply length_le.
  rewrite writeAt_app0 by lia. cbn [mbind option_bind].
  rewrite (writeAt_app 4 L M) by lia. cbn [mbind option_bind].
  rewrite (app_assoc M), (writeAt_app 12 O (M ++ L)) by (rewrite ?length_app; lia). cbn [mbind option_bind].
  rewrite (app_assoc (M ++ L)), (writeAt_app _ S ((M ++ L) ++ O)) by (rewrite ?length_app; lia). cbn [mbind option_bind].
  replace (memcpy_s _ _) with true by (symmetry; apply memcpy_s_spec; lia). cbn [negb].
  rewrite (app_assoc ((M ++ L) ++ O)), (writeAt_app _ dest (((M ++ L) ++ O) ++ S)) by (rewrite ?length_app; lia).
  cbn [mbind option_bind]. eexists. split; [reflexivity|]. unfold frameBytes. cbn [setData data frameLength frameType magic fdOff].
  split_and!; auto.
  - cbn [setLength frameLength]. rewrite app_assoc, take_app_length' by (rewrite !length_app; unfold strlen; lia).
    unfold startFrame. fold M L O S. now rewrite <- !app_assoc.
  - rewrite !length_app in *. lia.
Qed.

Lemma unpack_start t : UnpackFileTransStartInfo
    (mkFrame 0 t (Z.of_nat (length startFrame)) 0 0 startFrame 0) APP_INFO_FILE_FEATURES_SUPPORT OH_TYPE (emptyFile 0) p =
  Some (SOFTBUS_OK, mkFrame FILE_MAGIC_NUMBER t (Z.of_nat (length startFrame)) 0 0 startFrame FRAME_HEAD_LEN,
        mkFile 0 0 0 0 F 1 0 1 0 (Z.of_nat (length f)) 0 0 dest []).
Proof.
  pose proof p_range as [Hpr HFp]. pose proof dest_range as Hdr. unfold MAX_FILE_SIZE in Hf.
  unfold UnpackFileTransStartInfo. change (withCrc APP_INFO_FILE_FEATURES_SUPPORT OH_TYPE) with true. cbn iota.
  cbn [frameLength data frameType frameSeq frameCrc fdOff]. rewrite length_startFrame. unfold strlen in Hdr.
  unfold FRAME_HEAD_LEN, FRAME_DATA_SEQ_OFFSET, FRAME_MAGIC_OFFSET.
  destruct (Z.ltb_spec (Z.of_nat (24 + length dest)) (12 + 4 + 8)); [lia|].
  assert (F1 : field 0 4 startFrame = Some FILE_MAGIC_NUMBER)
    by exact (field_app 0 4 [] (le 4 FILE_MAGIC_NUMBER) _ eq_refl eq_refl).
  assert (F2 := field_le (le 4 FILE_MAGIC_NUMBER) (le 4 F ++ le 8 (Z.of_nat (length f)) ++ dest) 8 (strlen dest + 12) ltac:(unfold strlen; lia)).
  assert (F3 := field_le (le 4 FILE_MAGIC_NUMBER ++ le 8 (strlen dest + 12)) (le 8 (Z.of_nat (length f)) ++ dest) 4 F ltac:(lia)).
  assert (F4 := field_le (le 4 FILE_MAGIC_NUMBER ++ le 8 (strlen dest + 12) ++ le 4 F) dest 8 (Z.of_nat (length f)) ltac:(lia)).
  rewrite <- !app_assoc in F3. rewrite <- !app_assoc in F4. fold startFrame in F2, F3, F4.
  rewrite !length_app, !length_le in *. change (Z.of_nat 4) with 4 in *. change (Z.of_nat 8) with 8 in *.
  change (Z.of_nat (4 + 8)) with 12 in *. change (Z.of_nat (4 + (8 + 4))) with (12 + 4) in *.
  rewrite F1, F2. cbn [mbind option_bind]. rewrite u32_small by (unfold in_u32; lia). unfold strlen in *.
  destruct (Z.ltb_spec (Z.of_nat (24 + length dest) - 12) (Z.of_nat (length dest) + 12)); [lia|].
  rewrite Z.eqb_refl. cbn [negb orb]. destruct (Z.ltb_spec (Z.of_nat (length dest) + 12) (4 + 8)); [lia|].
  rewrite F3. cbn [mbind option_bind]. destruct (Z.ltb_spec p F); [lia|]. rewrite F4. cbn [mbind option_bind].
  unfold MAX_FILE_SIZE. destruct (Z.ltb_spec 5242880 (Z.of_nat (length f))); [lia|].
  replace (Z.of_nat (length dest) + 12 - 4 - 8) with (Z.of_nat (length dest)) by lia. unfold MAX_FILE_PATH_NAME_LEN.
  destruct (Z.leb_spec 512 (Z.of_nat (length dest))); [lia|]. destruct (Z.ltb_spec 0 (Z.of_nat (length dest))); [|lia].
  assert (R : readAt (12 + 4 + 8) (Z.of_nat (length dest)) startFrame = Some dest).
  { unfold startFrame. rewrite <- (app_nil_r dest) at 3.
    replace (le 4 FILE_MAGIC_NUMBER ++ le 8 (strlen dest + 12) ++ le 4 F ++ le 8 (Z.of_nat (length f)) ++ dest ++ [])
      with ((le 4 FILE_MAGIC_NUMBER ++ le 8 (strlen dest + 12) ++ le 4 F ++ le 8 (Z.of_nat (length f))) ++ dest ++ [])
      by (now rewrite <- !app_assoc).
    apply readAt_app; [|reflexivity]. rewrite !length_app, !length_le. reflexivity. }
  rewrite R. cbn [mbind option_bind]. rewrite Hnul. reflexivity.
Qed.

(** The first frame creates the recipient and its file. *)
Lemma recv_first : exists r e,
  ProcessFileFrameData a SOFTBUS_OK sid chan startFrame TRANS_SESSION_FILE_FIRST_FRAME (mkDevice [] [] [] noEnv) =
    Some (SOFTBUS_OK, mkDevice [r] [] [] e) /\ recvOK 1 0 r /\ filePath (recvFileInfo r) = absPath /\
  outbox e = [(TRANS_SESSION_FILE_RESULT_FRAME, resultFrame 0 SOFTBUS_OK IS_RECV_RESULT)].
Proof.
  pose proof p_range as [Hpr HFp]. pose proof dest_range as Hdr. unfold strlen in Hdr.
  assert (Hcalloc : forall n, 0 < n <= MAX_MALLOC_SIZE -> SoftBusCalloc (aLibc a) n = true)
    by (intros; now apply SoftBusCalloc_true).
  unfold ProcessFileFrameData, ProcessRecvFileFrameData. cbn [frameLength frameType].
  rewrite Hos, CheckFrameLength_ok by (rewrite length_startFrame; lia). cbn [negb Z.eqb SOFTBUS_OK]. rewrite Z.eqb_refl.
  unfold CreateFileFromFrame, GetRecipientInCreateFileRef, CreateNewRecipient. cbn [GetRecipientNoLock List.find recips].
  rewrite Hcalloc by (unfold MAX_MALLOC_SIZE, sizeof_FileRecipientInfo; lia). rewrite Hsession, Hroot, Hcrc.
  cbn [negb Z.eqb SOFTBUS_OK]. unfold setRecips. cbn [recips senders dPending env app].
  rewrite single_get by reflexivity. cbn [recvState negb]. change (0 =? TRANS_FILE_RECV_IDLE_STATE) with true. cbn [negb].
  rewrite single_upd by reflexivity. rewrite Hcalloc by (unfold MAX_MALLOC_SIZE, sizeof_SingleFileInfo; lia). cbn [negb recips].
  rewrite single_get by reflexivity. unfold GetFileInfoByStartFrame. cbn [setCount setState rootDir rCrc rOsType].
  rewrite Hdots, unpack_start. cbn [negb Z.eqb SOFTBUS_OK filePath]. rewrite Hdest, Hpath, Habs. cbn [negb Z.eqb SOFTBUS_OK].
  unfold PutToRecvFileList. cbn [recips]. rewrite single_get by reflexivity. cbn [recvFileInfo emptyFile fileStatus setCount setState].
  change (negb (0 =? NODE_IDLE)) with false. cbn iota. unfold CheckRecvFileExist. cbn [existsb recvFileInfo fileStatus recvState].
  change (0 =? NODE_BUSY) with false. rewrite andb_false_r. cbn [andb orb filePath].
  destruct (Z.ltb_spec (aOpen a absPath) 0); [lia|].
  replace (TryFileLock (aFcntl a) (aOpen a absPath) RETRY_WRITE_LOCK_TIMES) with SOFTBUS_OK.
  2: { unfold TryFileLock. change (Z.to_nat RETRY_WRITE_LOCK_TIMES) with 2%nat. cbn [tryLockLoop]. unfold FileLock.
       rewrite Hfcntl. destruct (Z.ltb_spec (aOpen a absPath) 0); [lia|]. reflexivity. }
  cbn [negb Z.eqb SOFTBUS_OK]. rewrite single_upd by reflexivity. rewrite single_upd by reflexivity. cbn [negb Z.eqb SOFTBUS_OK].
  unfold tell, setEnv. cbn [recips senders dPending env]. unfold crcOf. cbn [recips]. rewrite single_get by reflexivity.
  cbn [setFile rCrc setCount setState]. rewrite Z.eqb_refl. unfold sendResult. cbn [env].
  rewrite SendFileTransResult_frame by auto. cbn [rsend REnvOps]. unfold setEnv. cbn [recips senders dPending snd].
  rewrite single_release by reflexivity. do 2 eexists. split; [reflexivity|]. split_and!; [|reflexivity..].
  split; cbn [rSessionId rChannelId rOsType rCrc objRefCount recvState recvFileInfo setCount setFile setState]; auto.
  split; cbn [rSeq fileStatus fileOffset oneFrameLen startSeq preStartSeq preSeqResult seqResult rCheckSumCRC content recvFileInfo setFile];
    auto; try (unfold in_u64; lia).
  - unfold offOf. lia.
  - split_and!; try reflexivity; lia.
  - replace (Z.to_nat (offOf 0)) with 0%nat by (unfold offOf; lia). reflexivity.
Qed.

(** A wait for the start or for the end of a transfer gets the answer. *)
Lemma long_wait w q r e (w0 := setNet w (mkNet (rdev (net w)) (S (tick (net w))) (sent (net w)))) :
  sessionId (info w) = sid -> pending w = [mkPending sid q false None] -> in_u32 q ->
  rdev (net w) = mkDevice [r] [] [] e ->
  outbox e = [(TRANS_SESSION_FILE_RESULT_FRAME, resultFrame q SOFTBUS_OK IS_RECV_RESULT)] ->
  exists w', GetPendingPacketData SOFTBUS_OK chPass sid q WAIT_START_ACK_TIME true w = Some (SOFTBUS_OK, None, w') /\
    info w' = info w /\ result w' = SOFTBUS_OK /\ pending w' = [] /\
    exists e', rdev (net w') = mkDevice [r] [] [] e' /\ outbox e' = [].
Proof.
  intros Hs Hpd Hq Hd Ho. unfold GetPendingPacketData. cbn [negb Z.eqb SOFTBUS_OK]. rewrite Hpd.
  rewrite find_single. cbn [finded]. unfold passTime. fold w0. change (WAIT_START_ACK_TIME <=? WAIT_ACK_TIME) with false. cbn [andb].
  destruct (deliver_one w0 _ r e Hd Ho) as (e' & -> & Ho').
  rewrite (answer_result w0 q SOFTBUS_OK) by (auto; unfold in_s32, SOFTBUS_OK; lia).
  cbn [pending setNet setResult setPending]. rewrite find_single. cbn [finded pendData]. rewrite remove_single.
  eexists. split; [reflexivity|]. cbn. split_and!; auto. exists e'. auto.
Qed.

Lemma SendOneFrame_first w fr : info w = infoOf 0 0 0 0 -> result w = SOFTBUS_OK -> pending w = [] ->
  rdev (net w) = mkDevice [] [] [] noEnv -> frameType fr = TRANS_SESSION_FILE_FIRST_FRAME -> frameBytes fr = startFrame ->
  exists w', SendOneFrame (fun _ => true) SOFTBUS_OK SOFTBUS_OK SOFTBUS_OK (fun _ => SOFTBUS_OK) chSend chPass
      (preadFile f) fr w = Some (SOFTBUS_OK, w') /\ at_ 1 0 0 None w'.
Proof.
  intros Hi Hr Hpd Hd Ht Hb. unfold SendOneFrame, SendOneFrameFront. rewrite Hi. cbn [osType crc infoOf sessionId].
  rewrite !Z.eqb_refl, Ht. cbn [negb]. rewrite Z.eqb_refl. rewrite create_ok by assumption. cbn [negb Z.eqb SOFTBUS_OK].
  unfold ProxyChannelSendFileStream. cbn [negb Z.eqb SOFTBUS_OK]. fold (frameBytes fr). rewrite Hb.
  cbn [info setInfo setPending]. rewrite Hi. cbn [channelId infoOf setWait].
  destruct recv_first as (r & e & E & Hrk & _ & Ho).
  unfold channelSend. rewrite Hlost. cbn [net setInfo setPending]. rewrite Hd, E. cbn [negb Z.eqb SOFTBUS_OK].
  unfold SendOneFrameMiddle. cbn [info setNet setInfo setPending crc infoOf]. rewrite Z.eqb_refl. cbn [negb].
  change (TRANS_SESSION_FILE_FIRST_FRAME =? TRANS_SESSION_FILE_ONGOINE_FRAME) with false. cbn [negb Z.eqb SOFTBUS_OK].
  unfold SendOneFrameRear. cbn [info setNet setInfo setPending crc infoOf sessionId setWait]. rewrite Z.eqb_refl. cbn [negb].
  change (TRANS_SESSION_FILE_FIRST_FRAME =? TRANS_SESSION_FILE_ONLYONE_FRAME) with false. cbn [orb]. rewrite Z.eqb_refl.
  match goal with |- context [GetPendingPacketData _ _ _ _ _ _ ?w1] =>
    destruct (long_wait w1 0 r e) as (w' & -> & Hi' & Hr' & Hp' & e' & Hd' & Ho') end;
    [reflexivity|reflexivity|unfold in_u32; lia|reflexivity|exact Ho|].
  change (triggered SOFTBUS_OK) with true. cbn [negb Z.eqb SOFTBUS_OK]. rewrite Hr'. exists w'. split; [reflexivity|].
  split; auto; [|exists r, e'; auto]. exists 0, 0, 0. split; [|reflexivity]. rewrite Hi'. reflexivity.
Qed.

Lemma start_frames : snd (GetAndCheckFileSize (Some (Z.of_nat (length f))) APP_INFO_FILE_FEATURES_SUPPORT p) = frames.
Proof.
  pose proof p_range as [Hpr HFp]. pose proof dataFrames_max as Hm. unfold MAX_FILE_SIZE in Hm.
  unfold GetAndCheckFileSize. destruct (Z.ltb_spec MAX_FILE_SIZE (Z.of_nat (length f))); [lia|].
  rewrite Z.eqb_refl. unfold FRAME_DATA_SEQ_OFFSET, FRAME_HEAD_LEN, FRAME_CRC_LEN.
  rewrite (u32_small (p - 4)), u64_small by (unfold in_u32, in_u64; lia).
  replace (p - 4 - (12 + 2)) with F by lia. destruct (Z.eqb_spec F 0); [lia|]. cbn [negb snd].
  unfold frames, dataFrames in *. set (L := Z.of_nat (length f)) in *.
  assert (E : (if negb (L mod F =? 0) then L / F + 1 else L / F) = (L + F - 1) / F).
  { pose proof (Z.div_mod L F ltac:(lia)) as Hdm. pose proof (Z.mod_pos_bound L F ltac:(lia)).
    destruct (Z.eqb_spec (L mod F) 0) as [E|E]; cbn [negb];
      [apply (Z.div_unique (L + F - 1) F (L / F) (F - 1)); lia
      |apply (Z.div_unique (L + F - 1) F (L / F + 1) (L mod F - 1)); lia]. }
  rewrite E. pose proof (Z.div_pos (L + F - 1) F ltac:(lia) ltac:(lia)).
  rewrite u64_small by (unfold in_u64; lia). lia.
Qed.

Lemma transfer_ok : exists w' r, transfer a sa late lost f dest (startWorld chan sid p (Z.of_nat (length f))) =
    Some (SOFTBUS_OK, w') /\
  recips (rdev (net w')) = [r] /\ content (recvFileInfo r) = f /\
  recvState r = TRANS_FILE_RECV_IDLE_STATE /\ objRefCount r = 1 /\ result w' = SOFTBUS_OK /\ pending w' = [].
Proof.
  pose proof p_range as [Hpr HFp]. pose proof dataFrames_max as Hm. unfold MAX_FILE_SIZE in Hm.
  assert (Hw : startWorld chan sid p (Z.of_nat (length f)) =
    mkWorld (infoOf 0 0 0 0) SOFTBUS_OK [] [] (mkNet (mkDevice [] [] [] noEnv) 0 0))
    by (unfold startWorld, startInfo, infoOf; now rewrite start_frames).
  rewrite Hw. set (w0 := mkWorld _ _ _ _ _).
  unfold transfer, FileToFrame. cbn [w0 info infoOf packetSize crc sessionId channelId frameNum fileSize].
  rewrite SoftBusCalloc_true by (unfold MAX_MALLOC_SIZE; auto; lia). rewrite Z.eqb_refl. cbn [negb].
  unfold FRAME_DATA_SEQ_OFFSET, FRAME_CRC_LEN. unfold FRAME_HEAD_LEN at 1.
  rewrite (u32_small (p - 4)), (u64_small (p - 4 - (12 + 2))) by (unfold in_u32, in_u64; lia).
  replace (p - 4 - (12 + 2)) with F by lia.
  replace (Z.to_nat frames) with (S dataFrames) by (unfold frames; lia). cbn [frameLoop Z.eqb].
  destruct (pack_start (setType (mkFrame FILE_MAGIC_NUMBER 0 0 0 0 (replicate (Z.to_nat p) Byte.x00) FRAME_HEAD_LEN)
    (FrameIndexToType 0 frames)) (info w0)) as (fr' & -> & Hb & Ht & Hmg & Hfo & Hl);
    [reflexivity|reflexivity|reflexivity|reflexivity|cbn; rewrite length_replicate; lia|].
  cbn [Z.eqb SOFTBUS_OK].
  destruct (SendOneFrame_first w0 fr') as (w1 & -> & Hat1);
    [reflexivity|reflexivity|reflexivity|reflexivity|rewrite Ht; reflexivity|exact Hb|]. cbn [negb Z.eqb SOFTBUS_OK].
  destruct (frameLoop_data dest dataFrames 0 1 None (addEvent w1 (SendProcess (bytesProcessed (info w1))))
    (setData fr' (replicate (length (data fr')) Byte.x00))) as (w2 & st2 & E2 & Hat2);
    [lia|lia|now apply at_event|exact I|lia|auto|exact Hmg|exact Hfo|cbn [setData data]; rewrite length_replicate, Hl; cbn; rewrite length_replicate; lia|].
  replace (offOf 0) with 0 in E2 by (unfold offOf; lia). rewrite Z.sub_0_r in E2. change (Z.of_nat 1) with 1 in E2. change (0 + 1) with 1.
  rewrite E2. cbn [negb Z.eqb SOFTBUS_OK].
  destruct Hat2 as [(bp & ws & wc & Hi & ->) Hr2 Hpd2 (r & e & Hd & Hrk & Ho)].
  replace (osType (info w2)) with OH_TYPE by (rewrite Hi; reflexivity). rewrite Z.eqb_refl.
  unfold SendFileCrcCheckSum. rewrite Hi. cbn [crc infoOf seq sessionId checkSumCRC]. rewrite Z.eqb_refl. cbn [negb].
  rewrite SoftBusCalloc_true by (unfold MAX_MALLOC_SIZE, FRAME_HEAD_LEN, FRAME_DATA_SEQ_OFFSET; auto; lia). cbn [negb].
  rewrite (u32_small (Z.of_nat dataFrames + 1)) by (unfold in_u32; lia).
  rewrite create_ok by assumption. cbn [negb Z.eqb SOFTBUS_OK]. unfold ProxyChannelSendFileStream. cbn [negb Z.eqb SOFTBUS_OK].
  cbn [info setPending]. rewrite Hi. cbn [channelId infoOf checkSumCRC].
  destruct (recv_sum st2 dataFrames r e (Z.of_nat dataFrames + 1) Hrk ltac:(unfold in_u32; lia))
    as (r' & e' & E3 & Hc & Hst & Hrc & _ & Ho').
  unfold channelSend. rewrite Hlost. cbn [net setPending]. rewrite Hd, E3. cbn [negb Z.eqb SOFTBUS_OK].
  match goal with |- context [GetPendingPacketData _ _ _ _ _ _ ?w3] =>
    destruct (long_wait w3 (Z.of_nat dataFrames + 1) r' e') as (w' & Ew & Hi' & Hr' & Hp' & e'' & Hd' & Ho'') end;
    [cbn [info setNet setPending]; now rewrite Hi|reflexivity|unfold in_u32; lia|reflexivity|rewrite Ho', Ho; reflexivity|].
  cbn [info setNet setPending] in *. rewrite Hi in *. cbn [sessionId infoOf] in *. rewrite Ew.
  change (triggered SOFTBUS_OK) with true. cbn [negb Z.eqb SOFTBUS_OK].
  exists w', r'. rewrite Hd'. split_and!; auto. rewrite Hc. apply take_ge. unfold offOf.
  assert (~ Z.of_nat dataFrames * F < Z.of_nat (length f)) by (rewrite <- dataFrames_spec; lia). lia.
Qed.

End Complete.

(** The recipient's side works: the session exists and supports CRCs, the path of
    the destination can be made and opened, memory and the disk suffice. *)
Record recvWorks (a : RecvAns) (sid chan lt : Z) (dest root absPath : list byte) (made : list (list byte)) : Prop := {
  rw_libc : forall n, aLibc a n = true;
  rw_write : forall n off, aPwrite a n off = n;
  rw_os : aOsType a chan = OH_TYPE;
  rw_link : aLinkType a chan = (SOFTBUS_OK, lt);
  rw_info : aGetInfo a chan = SOFTBUS_OK;
  rw_session : aSession a sid = SOFTBUS_OK;
  rw_crc : aCrc a sid = APP_INFO_FILE_FEATURES_SUPPORT;
  rw_root : aRoot a sid = Some root;
  rw_dots : hasDotDot root = false;
  rw_path : IsPathValid (GetFullRecvPath (aLibc a) (Some dest) (Some root)) = true;
  rw_abs : CreateDirAndGetAbsPath (aLibc a) (aLibc a) (aLibc a) (aAccess a) (aMkdir a) (aRealpath a)
    (GetFullRecvPath (aLibc a) (Some dest) (Some root)) MAX_FILE_PATH_NAME_LEN = (SOFTBUS_OK, absPath, made);
  rw_open : 0 <= aOpen a absPath;
  rw_fcntl : aFcntl a 0%nat = 0
}.

Definition packetOf (lt : Z) : Z := if lt =? LANE_BR then PROXY_BR_MAX_PACKET_SIZE else PROXY_BLE_MAX_PACKET_SIZE.

(** C2: A file arrives: for every content of at most 5 MB, also an empty one, on
    either kind of link, and however late the answers come (the sender looks for
    each after up to 24 more frames), a transfer over a channel that loses nothing
    succeeds; the recipient's file is the sender's, the check sum has been
    accepted, and nothing is left pending. *)
Theorem file_transfer_complete (a sa : RecvAns) (sid chan lt slt : Z) (f dest root absPath : list byte)
    (made : list (list byte)) (late : nat -> bool)
    (Hrecv : recvWorks a sid chan lt dest root absPath made)
    (Hsid : in_u32 sid) (Hslibc : forall n, aLibc sa n = true) (Hsos : aOsType sa chan = OH_TYPE)
    (Hslink : aLinkType sa chan = (SOFTBUS_OK, slt))
    (Hsize : Z.of_nat (length f) <= MAX_FILE_SIZE)
    (Hdest : CheckDestFilePathValid (Some dest) = true) (Hlen : strlen dest < MAX_FILE_PATH_NAME_LEN)
    (Hnul : cstr dest = dest) :
  exists w' r,
    transfer a sa late (fun _ => false) f dest (startWorld chan sid (packetOf lt) (Z.of_nat (length f))) =
      Some (SOFTBUS_OK, w') /\
    recips (rdev (net w')) = [r] /\ content (recvFileInfo r) = f /\
    recvState r = TRANS_FILE_RECV_IDLE_STATE /\ objRefCount r = 1 /\ result w' = SOFTBUS_OK /\ pending w' = [].
Proof.
  destruct Hrecv. apply (transfer_ok a f (frameDataSize (packetOf lt))) with (lt := lt) (slt := slt) (root := root)
    (absPath := absPath) (made := made); auto.
  unfold frameDataSize, packetOf, PROXY_BR_MAX_PACKET_SIZE, PROXY_BLE_MAX_PACKET_SIZE, FRAME_HEAD_LEN,
    FRAME_DATA_SEQ_OFFSET, FRAME_CRC_LEN. destruct (lt =? LANE_BR); lia.
Qed.

(** A recipient on a BLE link whose directory is /d. *)
Definition bleAns : RecvAns :=
  mkAns (fun _ => true) (fun n _ => n) (fun _ => Some [Byte.x2f; Byte.x64]) (fun _ => true) (fun _ => true) (fun _ => 7)
    (fun _ => 0) (fun _ => SOFTBUS_OK) (fun _ => SOFTBUS_OK) (fun _ => 1) (fun _ => Some [Byte.x2f; Byte.x64])
    (fun _ => OH_TYPE) (fun _ => (SOFTBUS_OK, 1)).

Lemma bleAns_works : recvWorks bleAns 1 1 1 [Byte.x66] [Byte.x2f; Byte.x64] [Byte.x2f; Byte.x64; Byte.x2f; Byte.x66] [].
Proof. split; try reflexivity; cbn; lia. Qed.

Lemma file_transfer_complete_witness : exists w' r,
  transfer bleAns bleAns (fun _ => true) (fun _ => false) (replicate 3000 Byte.x41) [Byte.x66]
    (startWorld 1 1 (packetOf 1) (Z.of_nat (length (replicate 3000 Byte.x41)))) = Some (SOFTBUS_OK, w') /\
  recips (rdev (net w')) = [r] /\ content (recvFileInfo r) = replicate 3000 Byte.x41 /\
  recvState r = TRANS_FILE_RECV_IDLE_STATE /\ objRefCount r = 1 /\ result w' = SOFTBUS_OK /\ pending w' = [].
Proof.
  apply (file_transfer_complete bleAns bleAns 1 1 1 1 (replicate 3000 Byte.x41) [Byte.x66] [Byte.x2f; Byte.x64]
    [Byte.x2f; Byte.x64; Byte.x2f; Byte.x66] [] (fun _ => true)).
  - exact bleAns_works.
  - unfold in_u32. lia.
  - reflexivity.
  - reflexivity.
  - reflexivity.
  - rewrite length_replicate. unfold MAX_FILE_SIZE. lia.
  - reflexivity.
  - unfold strlen, MAX_FILE_PATH_NAME_LEN. cbn. lia.
  - reflexivity.
Defined.

(** ** Arbitrary frames *)

(** Nothing has been written, or will be, behind the greatest size of a file. *)
Definition bounded (x : SingleFileInfo) : Prop :=
  0 <= fileOffset x <= MAX_FILE_SIZE /\ Z.of_nat (length (content x)) <= MAX_FILE_SIZE /\
  0 <= oneFrameLen x <= PROXY_BR_MAX_PACKET_SIZE /\ in_u32 (rSeq x).

(** A disk never writes more than it was given. *)
Definition honestDisk (a : RecvAns) : Prop := forall n off, aPwrite a n off <= n.

Lemma length_pwriteFile n off bytes c : 0 <= off -> n <= Z.of_nat (length bytes) ->
  off + Z.of_nat (length bytes) <= MAX_FILE_SIZE -> Z.of_nat (length c) <= MAX_FILE_SIZE ->
  Z.of_nat (length (pwriteFile n off bytes c)) <= MAX_FILE_SIZE.
Proof.
  intros Ho Hn Hb Hc. unfold pwriteFile. destruct (Z.leb_spec 0 n); [|exact Hc].
  unfold overwrite. repeat (rewrite length_app || rewrite length_take || rewrite length_replicate || rewrite length_drop).
  unfold MAX_FILE_SIZE in *. lia.
Qed.

Lemma emptyLoop_bounded a : honestDisk a -> forall n x ret x', bounded x ->
  fileOffset x + Z.of_nat n * oneFrameLen x <= MAX_FILE_SIZE -> emptyLoop a n x = (ret, x') ->
  bounded x' /\ startSeq x' = startSeq x.
Proof.
  intros Ha. induction n as [|n IH]; intros x ret x' Hx Hn; cbn [emptyLoop]; [intros [= <- <-]; auto|].
  destruct Hx as (H1 & H2 & H3 & H4). unfold MAX_FILE_SIZE, PROXY_BR_MAX_PACKET_SIZE in *.
  assert (Hl : Z.of_nat (length (pwriteFile (aPwrite a (oneFrameLen x) (fileOffset x)) (fileOffset x)
    (replicate (Z.to_nat (oneFrameLen x)) Byte.x00) (content x))) <= MAX_FILE_SIZE).
  { apply length_pwriteFile; rewrite ?length_replicate; unfold MAX_FILE_SIZE; try nia.
    pose proof (Ha (oneFrameLen x) (fileOffset x)). lia. }
  unfold MAX_FILE_SIZE in Hl.
  destruct (_ || _) eqn:E.
  - intros [= <- <-]. split; [|reflexivity]. unfold bounded, MAX_FILE_SIZE, PROXY_BR_MAX_PACKET_SIZE.
    cbn [setProgress fileOffset content oneFrameLen rSeq]. auto.
  - apply orb_false_elim in E as [_ E]. apply negb_false_iff, Z.eqb_eq in E. intros Hr. apply IH in Hr.
    + exact Hr.
    + unfold bounded, MAX_FILE_SIZE, PROXY_BR_MAX_PACKET_SIZE. cbn [setProgress fileOffset content oneFrameLen rSeq].
      rewrite E in *. rewrite u64_small by (unfold in_u64; nia). split_and!; auto; nia.
    + cbn [setProgress fileOffset oneFrameLen]. rewrite E. rewrite u64_small by (unfold in_u64; nia). nia.
Qed.

Lemma ProcessFileFrameSequence_bounded a fr x ret x' off : honestDisk a -> bounded x -> in_u32 (frameSeq fr) ->
  ProcessFileFrameSequence a fr x = (ret, x', off) -> bounded x' /\ 0 <= off /\ startSeq x' = startSeq x /\
    (ret = SOFTBUS_OK -> startSeq x <= frameSeq fr -> off = fileOffset x').
Proof.
  intros Ha Hx Hs. pose proof Hx as (H1 & H2 & H3 & H4). unfold ProcessFileFrameSequence.
  destruct (Z.leb_spec (startSeq x) (frameSeq fr)).
  2: { intros [= <- <- <-]. split_and!; auto; try apply u64_range. lia. }
  set (d := s32 (s32 (frameSeq fr) - s32 (rSeq x) - 1)). pose proof (s32_range (s32 (frameSeq fr) - s32 (rSeq x) - 1)) as Hd.
  fold d in Hd. unfold in_s32, PROXY_BR_MAX_PACKET_SIZE, MAX_FILE_SIZE in *.
  assert (Hone : s64 (oneFrameLen x) = oneFrameLen x) by (unfold s64; rewrite Z.mod_small; lia).
  rewrite Hone. assert (Hp : s64 (d * oneFrameLen x) = d * oneFrameLen x) by (unfold s64; rewrite Z.mod_small; nia).
  rewrite Hp. destruct (Z.ltb_spec 5242880 (d * oneFrameLen x)) as [|Hb];
    [intros [= <- <- <-]; split_and!; auto; try lia; discriminate|].
  destruct (Z.ltb_spec (u64 (5242880 - u64 (d * oneFrameLen x))) (fileOffset x)) as [|Hb2];
    [intros [= <- <- <-]; split_and!; auto; try lia; discriminate|].
  destruct (WriteEmptyFrame a x d) as [rw x1] eqn:Ew.
  assert (Hx1 : bounded x1 /\ startSeq x1 = startSeq x).
  { unfold WriteEmptyFrame in Ew. destruct (Z.ltb_spec 0 d); [|now injection Ew as <- <-].
    destruct (negb _); [now injection Ew as <- <-|]. apply (emptyLoop_bounded a Ha (Z.to_nat d) x rw x1 Hx); [|exact Ew].
    rewrite (u64_small (d * _)) in Hb2 by (unfold in_u64; nia). rewrite u64_small in Hb2 by (unfold in_u64; nia).
    unfold MAX_FILE_SIZE. rewrite Z2Nat.id by lia. lia. }
  destruct Hx1 as [Hx1 Hs1]. pose proof Hx1 as (K1 & K2 & K3 & K4).
  destruct (Z.eqb_spec rw SOFTBUS_OK) as [->|Hn]; cbn [negb]; [|intros [= <- <- <-]; split_and!; auto; try apply Hx1; lia || contradiction].
  destruct (_ && _); [intros [= <- <- <-]; split_and!; auto; try apply Hx1; lia || discriminate|]. intros [= <- <- <-].
  unfold bounded, MAX_FILE_SIZE in *. cbn [setProgress fileOffset content oneFrameLen rSeq startSeq]. split_and!; auto; lia.
Qed.

(** Whatever data frame a peer sends, in whatever order: processing it reads only
    inside the frame and never writes behind the greatest size of a file. *)
Theorem recv_file_bounded (a : RecvAns) (rcrc ros : Z) (fr : FileFrame) (x : SingleFileInfo)
    (Ha : honestDisk a) (Hx : bounded x)
    (Hlen : frameLength fr = Z.of_nat (length (data fr)))
    (Hmax : frameLength fr <= UINT16_MAX) :
  exists ret fr' dataLen, UnpackFileDataFrame rcrc ros fr = Some (ret, fr', dataLen) /\
    (ret = SOFTBUS_OK -> exists ret' x', ProcessOneFrame a fr' dataLen rcrc x ros = Some (ret', x') /\ bounded x').
Proof.
  destruct (UnpackFileDataFrame_accepts rcrc ros fr Hlen ltac:(lia)) as (ret & fr' & dataLen & E & Hs).
  exists ret, fr', dataLen. split; [exact E|]. intros ->. pose proof Hx as (H1 & H2 & H3 & H4). unfold MAX_FILE_SIZE in *.
  assert (Hread : exists bytes, u32 (dataLen - FRAME_DATA_SEQ_OFFSET) = Z.of_nat (length bytes) /\
    readAt (fdOff fr' + FRAME_DATA_SEQ_OFFSET) (Z.of_nat (length bytes)) (data fr') = Some bytes /\ in_u32 (frameSeq fr')).
  { unfold UnpackFileDataFrame in E. destruct (withCrc rcrc ros).
    - destruct (Hs eq_refl eq_refl) as (bytes & Ed & _ & _ & -> & Ed' & Efo & _ & Hq). exists bytes.
      rewrite Ed', Efo, Ed. replace (_ + FRAME_DATA_SEQ_OFFSET - FRAME_DATA_SEQ_OFFSET) with (Z.of_nat (length bytes)) by lia.
      apply (f_equal length) in Ed. rewrite length_dataFrame in Ed. split; [apply u32_small; unfold in_u32; lia|].
      split.
      + unfold dataFrame. rewrite (app_assoc (le 8 _)), (app_assoc (le 4 FILE_MAGIC_NUMBER)).
        apply readAt_app; [|reflexivity]. rewrite !length_app, !length_le. reflexivity.
      + exact Hq.
    - unfold FRAME_DATA_SEQ_OFFSET in *. destruct (Z.leb_spec (frameLength fr) 4); [discriminate|].
      unfold field in E. destruct (readAt_ok 0 4 (data fr)) as (w & Ew & Lw); [lia..|]. rewrite Ew in E.
      cbn [mbind option_bind] in E. injection E as <- <-. cbn [fdOff data frameSeq].
      exists (drop 4 (data fr)). rewrite length_drop, Hlen, u32_small by (unfold in_u32; lia). split; [lia|]. split.
      + rewrite <- (take_drop 4 (data fr)) at 2. rewrite <- (app_nil_r (drop 4 (data fr))) at 1.
        rewrite app_nil_r. rewrite <- (app_nil_r (drop 4 (data fr))) at 1. apply readAt_app.
        * rewrite length_take. lia.
        * rewrite length_drop. reflexivity.
      + apply unle4_range. lia. }
  destruct Hread as (bytes & Eu & Er & Hseq). unfold ProcessOneFrame.
  destruct (fileStatus x =? NODE_ERR); [eauto|]. destruct (withCrc rcrc ros).
  - unfold ProcessOneFrameCRC. destruct (_ || _); [eauto|].
    destruct (ProcessFileFrameSequence a fr' x) as [[rs x1] off] eqn:Es.
    destruct (ProcessFileFrameSequence_bounded _ _ _ _ _ _ Ha Hx Hseq Es) as (Hx1 & Hoff & Hss & Heq). pose proof Hx1 as (K1 & K2 & K3 & K4).
    destruct (Z.eqb_spec rs SOFTBUS_OK) as [->|]; cbn [negb]; [|eauto]. rewrite Eu. unfold MAX_FILE_SIZE in *.
    destruct (Z.ltb_spec 5242880 (Z.of_nat (length bytes))); [eauto|].
    destruct (Z.ltb_spec (5242880 - Z.of_nat (length bytes)) off); [eauto|]. rewrite Er. cbn [mbind option_bind].
    assert (Hl : Z.of_nat (length (pwriteFile (aPwrite a (Z.of_nat (length bytes)) off) off bytes (content x1))) <= MAX_FILE_SIZE)
      by (apply length_pwriteFile; auto; unfold MAX_FILE_SIZE; lia).
    unfold MAX_FILE_SIZE in Hl. set (c := pwriteFile _ _ _ _) in *.
    assert (Hb : forall s o r q m, 0 <= o <= 5242880 -> in_u32 s -> bounded (setProgress x1 s o r q m c)).
    { intros. unfold bounded, MAX_FILE_SIZE. cbn [setProgress fileOffset content oneFrameLen rSeq]. auto. }
    destruct (Z.ltb_spec (aPwrite a (Z.of_nat (length bytes)) off) 0); cbn [orb];
      [do 2 eexists; split; [reflexivity|]; apply Hb; auto|].
    destruct (Z.eqb_spec (aPwrite a (Z.of_nat (length bytes)) off) (Z.of_nat (length bytes))) as [Ew|]; cbn [negb];
      [|do 2 eexists; split; [reflexivity|]; apply Hb; auto].
    cbn [setProgress startSeq fileOffset]. rewrite Hss. destruct (Z.leb_spec (startSeq x) (frameSeq fr'));
      [|do 2 eexists; split; [reflexivity|]; apply Hb; auto].
    specialize (Heq eq_refl ltac:(lia)). rewrite Ew, u64_small by (unfold in_u64; lia).
    destruct (Z.ltb_spec 5242880 (fileOffset x1 + Z.of_nat (length bytes))); [lia|].
    do 2 eexists. split; [reflexivity|]. apply Hb; [lia|auto].
  - rewrite Eu. unfold MAX_FILE_SIZE in *. cbn [setProgress fileOffset content].
    assert (Hb : forall s o r q m c, 0 <= o <= 5242880 -> in_u32 s -> Z.of_nat (length c) <= 5242880 ->
      bounded (setProgress x s o r q m c)).
    { intros. unfold bounded, MAX_FILE_SIZE. cbn [setProgress fileOffset content oneFrameLen rSeq]. auto. }
    destruct (Z.ltb_spec 5242880 (Z.of_nat (length bytes))); [do 2 eexists; split; [reflexivity|]; apply Hb; auto|].
    destruct (Z.ltb_spec (5242880 - Z.of_nat (length bytes)) (fileOffset x)); [do 2 eexists; split; [reflexivity|]; apply Hb; auto|].
    rewrite Er. cbn [mbind option_bind].
    assert (Hl : Z.of_nat (length (pwriteFile (aPwrite a (Z.of_nat (length bytes)) (fileOffset x)) (fileOffset x) bytes (content x))) <= MAX_FILE_SIZE)
      by (apply length_pwriteFile; auto; unfold MAX_FILE_SIZE; lia).
    destruct (Z.eqb_spec (aPwrite a (Z.of_nat (length bytes)) (fileOffset x)) (Z.of_nat (length bytes))) as [Ew|]; cbn [negb];
      [|do 2 eexists; split; [reflexivity|]; apply Hb; auto].
    rewrite Ew in *. rewrite u64_small by (unfold in_u64; lia).
    destruct (Z.ltb_spec 5242880 (fileOffset x + Z.of_nat (length bytes))); [lia|].
    do 2 eexists. split; [reflexivity|]. apply Hb; auto; lia.
Qed.

Lemma recv_file_bounded_witness :
  exists ret fr' dataLen, UnpackFileDataFrame 1 10 (mkFrame 0 4 20 0 0 (dataFrame 9 [Byte.x01; Byte.x02]) 0) =
      Some (ret, fr', dataLen) /\
    (ret = SOFTBUS_OK -> exists ret' x', ProcessOneFrame bleAns fr' dataLen 1
      (mkFile 2 7 NODE_BUSY 1916 958 1 3 1 0 9000 0 5 [] []) 10 = Some (ret', x') /\ bounded x').
Proof.
  apply (recv_file_bounded bleAns 1 10 (mkFrame 0 4 20 0 0 (dataFrame 9 [Byte.x01; Byte.x02]) 0)
    (mkFile 2 7 NODE_BUSY 1916 958 1 3 1 0 9000 0 5 [] [])).
  - intros n off. cbn. lia.
  - unfold bounded, in_u32, MAX_FILE_SIZE, PROXY_BR_MAX_PACKET_SIZE. cbn. lia.
  - reflexivity.
  - cbn. lia.
Defined.

(** ** Where the code departs from what it means to do *)

(** [0x01 << 31] is a negative int: or-ed into the 64-bit map of received frames it
    also sets the upper half, the map of the next window. *)
Lemma full_window_marks_next st x y m : seqResult x = Z.lor y (u64 (bitInt (32 * m))) -> in_u64 y ->
  seqResult (nextWindow st x) = FILE_SEND_ACK_RESULT_SUCCESS.
Proof.
  intros Hx Hy. unfold nextWindow. cbn [seqResult]. rewrite Hx, Z.shiftr_lor.
  assert (E : u64 (bitInt (32 * m)) = 18446744071562067968).
  { unfold bitInt, FILE_SEND_ACK_INTERVAL. replace (32 * m) with (m * 32) by lia. rewrite Z_mod_mult. reflexivity. }
  rewrite E. change (Z.shiftr 18446744071562067968 FILE_SEND_ACK_INTERVAL) with (Z.ones 32).
  change FILE_SEND_ACK_RESULT_SUCCESS with (Z.ones 32). apply Z.bits_inj'. intros n Hn.
  unfold FILE_SEND_ACK_INTERVAL. rewrite Z.lor_spec, Z.shiftr_spec by lia. destruct (Z.ltb_spec n 32).
  - rewrite (Z.ones_spec_low 32 n) by lia. apply orb_true_r.
  - rewrite (Z.ones_spec_high 32 n) by lia. rewrite orb_false_r. unfold in_u64 in Hy.
    destruct (Z.eq_dec y 0) as [->|]; [apply Z.bits_0|]. apply Z.bits_above_log2; [lia|].
    apply Z.lt_le_trans with 64; [apply Z.log2_lt_pow2; lia|lia].
Qed.

(** The CRC of a retransmitted frame is not added to the recipient's sum, so the
    sum of a transfer with a repaired frame does not agree with the sender's. *)
Lemma retransmission_not_counted a fr dataLen x ret x' :
  frameSeq fr < startSeq x -> ProcessOneFrameCRC a fr dataLen x = Some (ret, x') -> rCheckSumCRC x' = rCheckSumCRC x.
Proof.
  intros Hs. unfold ProcessOneFrameCRC, ProcessFileFrameSequence. destruct (_ || _); [now intros [= <- <-]|].
  destruct (Z.leb_spec (startSeq x) (frameSeq fr)); [lia|]. cbn [negb Z.eqb SOFTBUS_OK].
  destruct (_ <? _); [now intros [= <- <-]|]. destruct (_ <? _); [now intros [= <- <-]|].
  destruct (readAt _ _ _); [|discriminate]. cbn [mbind option_bind].
  destruct (_ || _); [now intros [= <- <-]|]. cbn [setProgress startSeq].
  destruct (Z.leb_spec (startSeq x) (frameSeq fr)); [lia|]. now intros [= <- <-].
Qed.

(** A file of three bytes whose only data frame is lost. *)
Definition threeBytes : list byte := [Byte.x01; Byte.x02; Byte.x03].
Definition sampleJob : Job :=
  mkJob (mkSource (Some [Byte.x66]) (fun p => Some p) (Some 3) 5 (fun _ => 0)) (preadFile threeBytes) [Byte.x66].
Definition refusedRun : option (Z * World Net) :=
  ProxyStartSendFile (fun _ => true) SOFTBUS_OK SOFTBUS_OK SOFTBUS_OK (fun _ => SOFTBUS_OK)
    (channelSend bleAns 1 1 (Nat.eqb 1)) (passTime bleAns 1 1 (fun _ => false)) [sampleJob]
    (mkWorld (mkSend 1 1 0 0 1 0 0 0 0 0 976 OH_TYPE) SOFTBUS_OK [] [] (mkNet (mkDevice [] [] [] noEnv) 0 0)).

(** The recipient refuses the check sum and answers so, but the sender takes any
    answer for success and clears it: it reports the end of the transfer. *)
Lemma refused_but_finished : exists w, refusedRun = Some (SOFTBUS_OK, w) /\ last (events w) = Some SendFinish /\
  map (fun r => (recvState r, content (recvFileInfo r))) (recips (rdev (net w))) = [] /\
  removed (env (rdev (net w))) = [[Byte.x2f; Byte.x64; Byte.x2f; Byte.x66]].
Proof. eexists. split; [vm_compute; reflexivity|]. vm_compute. auto. Qed.

(** When the destination cannot be opened, the recipient closes descriptor 0,
    which is not its own. *)
Definition noOpen : RecvAns :=
  mkAns (fun _ => true) (fun n _ => n) (fun _ => Some [Byte.x2f; Byte.x64]) (fun _ => true) (fun _ => true) (fun _ => -1)
    (fun _ => 0) (fun _ => SOFTBUS_OK) (fun _ => SOFTBUS_OK) (fun _ => 1) (fun _ => Some [Byte.x2f; Byte.x64])
    (fun _ => OH_TYPE) (fun _ => (SOFTBUS_OK, 1)).

Lemma open_failure_closes_stdin : exists d,
  ProcessFileFrameData noOpen SOFTBUS_OK 1 1 (startFrame threeBytes 958 [Byte.x66]) TRANS_SESSION_FILE_FIRST_FRAME
    (mkDevice [] [] [] noEnv) = Some (SOFTBUS_FILE_ERR, d) /\ closed (env d) = [0].
Proof. eexists. split; [vm_compute; reflexivity|]. vm_compute. auto. Qed.

End FileTransfer.
