(* ===== verification/FileDevice.v ===== *)
(** * Files over proxy channels: a device under arbitrary frames

    The tables of [FileTransfer.Device] stay well formed whatever frames arrive,
    in whatever order, and whenever the timer or a closing session comes between
    two of them: no frame makes a handler access memory outside a buffer, every
    recipient is referenced by the table alone when no handler runs, and no file
    grows beyond the limit. *)

From S2P Require Import Prelude ErrorCode.
From stdpp Require Import list.
From S2P Require Import Bytes ProxyFile FileTransfer.
#[local] Open Scope Z_scope.

Module FileDevice.
Import ProxyFile FileTransfer.

Record wfRecip (r : FileRecipientInfo) : Prop := {
  wf_count : objRefCount r = 1;
  wf_state : TRANS_FILE_RECV_IDLE_STATE <= recvState r <= TRANS_FILE_RECV_ERR_STATE;
  wf_file : bounded (recvFileInfo r)
}.

(** One recipient per session. *)
Record wfTable (l : list FileRecipientInfo) : Prop := {
  wf_nodup : NoDup (map rSessionId l);
  wf_all : Forall wfRecip l
}.

Section Tables.

Context {E : Type} `{!RecvOps E} (a : RecvAns).

Hypothesis Ha : honestDisk a.

Abbreviation D := (Device E).

(** The device [d] with [r] as the recipient of session [s], and without it. *)
Definition withR (s : Z) (r : FileRecipientInfo) (d : D) (e : E) : D :=
  mkDevice (updRecipient s (fun _ => r) (recips d)) (senders d) (dPending d) e.
Definition without (s : Z) (d : D) (e : E) : D :=
  mkDevice (delRecipientOf s (recips d)) (senders d) (dPending d) e.

Definition present (s : Z) (d : D) : Prop := is_Some (GetRecipientNoLock s (recips d)).

Lemma find_spec s l r : GetRecipientNoLock s l = Some r -> rSessionId r = s /\ r ∈ l.
Proof.
  unfold GetRecipientNoLock. intros H. pose proof (find_some _ _ H) as [H1 H2].
  apply Z.eqb_eq in H2. split; [exact H2|]. now apply list_elem_of_In.
Qed.

Lemma get_updated s r l : is_Some (GetRecipientNoLock s l) -> rSessionId r = s ->
  GetRecipientNoLock s (updRecipient s (fun _ => r) l) = Some r.
Proof.
  unfold GetRecipientNoLock. intros [x Hx] Hr. induction l as [|y l IH]; [discriminate|].
  cbn [List.find updRecipient] in *. destruct (rSessionId y =? s) eqn:Ey; cbn [List.find].
  - now rewrite Hr, Z.eqb_refl.
  - rewrite Ey. auto.
Qed.

Lemma upd_updated s r g l : rSessionId r = s ->
  updRecipient s g (updRecipient s (fun _ => r) l) = updRecipient s (fun _ => g r) l.
Proof.
  intros Hr. induction l as [|y l IH]; cbn [updRecipient]; [reflexivity|].
  destruct (rSessionId y =? s) eqn:Ey; cbn [updRecipient]; [now rewrite Hr, Z.eqb_refl|]. now rewrite Ey, IH.
Qed.

Lemma del_updated s r l : rSessionId r = s ->
  delRecipientOf s (updRecipient s (fun _ => r) l) = delRecipientOf s l.
Proof.
  intros Hr. induction l as [|y l IH]; cbn [updRecipient delRecipientOf]; [reflexivity|].
  destruct (rSessionId y =? s) eqn:Ey; cbn [delRecipientOf]; [now rewrite Hr, Z.eqb_refl|]. now rewrite Ey, IH.
Qed.

Lemma upd_found s g l r : GetRecipientNoLock s l = Some r -> updRecipient s g l = updRecipient s (fun _ => g r) l.
Proof.
  unfold GetRecipientNoLock. induction l as [|y l IH]; [discriminate|]. cbn [List.find updRecipient].
  destruct (rSessionId y =? s); [now intros [= ->]|]. intros H. now rewrite IH.
Qed.

(** *** What the handlers' steps do to such a device *)

Lemma upd_withR s g r d e : rSessionId r = s -> upd s g (withR s r d e) = withR s (g r) d e.
Proof. intros H. unfold upd, setRecips, withR. cbn [recips senders dPending env]. now rewrite upd_updated. Qed.

Lemma get_withR s r d e : present s d -> rSessionId r = s ->
  GetRecipientNoLock s (recips (withR s r d e)) = Some r.
Proof. intros. now apply get_updated. Qed.

Lemma setEnv_withR s r d e e' : setEnv (withR s r d e) e' = withR s r d e'.
Proof. reflexivity. Qed.

Lemma tell_withR ev s r d e : tell ev (withR s r d e) = withR s r d (notify ev e).
Proof. reflexivity. Qed.

Lemma sendResult_withR c q x y s r d e :
  exists ret e', sendResult a c q x y (withR s r d e) = (ret, withR s r d e').
Proof. unfold sendResult. cbn [env withR]. destruct (SendFileTransResult _ _ _ _ _ _ _ _) as [ret e']. eauto. Qed.

Lemma drop2_withR s r d e : present s d -> rSessionId r = s -> objRefCount r = 2 ->
  dropRef a s (withR s r d e) = withR s (setCount r 1) d e.
Proof.
  intros Hp Hr Hc. unfold dropRef. rewrite get_withR by assumption. rewrite Hc. change (s32 (2 - 1)) with 1.
  cbn [Z.eqb Pos.eqb]. now rewrite upd_withR.
Qed.

Lemma Clear_env r d : exists e, ClearRecipientResources a r d = setEnv d e.
Proof.
  unfold ClearRecipientResources.
  set (d1 := if negb _ then _ else d). assert (H1 : exists e, d1 = setEnv d e).
  { unfold d1. destruct (negb _); [eexists; reflexivity|exists (env d); now destruct d]. }
  destruct H1 as [e1 H1]. clearbody d1. subst d1. destruct (recvState r =? _); [|eauto].
  unfold tell, sendResult, setEnv. cbn [env recips senders dPending].
  destruct (rCrc r =? _); [|eexists; reflexivity].
  destruct (SendFileTransResult _ _ _ _ _ _ _ _) as [ret e']. eexists. reflexivity.
Qed.

Lemma drop1_withR s r d e : present s d -> rSessionId r = s -> objRefCount r = 1 ->
  exists e', dropRef a s (withR s r d e) = without s d e'.
Proof.
  intros Hp Hr Hc. unfold dropRef. rewrite get_withR by assumption. rewrite Hc. change (s32 (1 - 1)) with 0.
  cbn [Z.eqb]. destruct (Clear_env (setCount r 0) (setRecips (withR s r d e) (delRecipientOf s (recips (withR s r d e)))))
    as [e' ->]. exists e'. unfold setEnv, setRecips, withR, without. cbn [recips senders dPending]. now rewrite del_updated.
Qed.

Lemma fail_withR s r d e : present s d -> rSessionId r = s -> objRefCount r = 2 ->
  exists e', failRecipient a s (withR s r d e) = without s d e'.
Proof.
  intros Hp Hr Hc. unfold failRecipient, DelRecipient, ReleaseRecipientRef. rewrite tell_withR, drop2_withR by assumption.
  now apply drop1_withR.
Qed.

Definition newState (st : Z) (r : FileRecipientInfo) : FileRecipientInfo :=
  if negb (recvState r =? TRANS_FILE_RECV_ERR_STATE) then
    let r1 := setState r st in
    if st =? TRANS_FILE_RECV_IDLE_STATE then
      setFile r1 (setStatus (recvFileInfo r1) (fileFd (recvFileInfo r1)) NODE_IDLE (timeOut (recvFileInfo r1)))
    else r1
  else r.

Lemma state_withR s st r d e : rSessionId r = s ->
  SetRecipientRecvState s st (withR s r d e) = withR s (newState st r) d e.
Proof. intros H. unfold SetRecipientRecvState. now rewrite upd_withR. Qed.

Lemma newState_same st r : rSessionId (newState st r) = rSessionId r /\ objRefCount (newState st r) = objRefCount r /\
  (bounded (recvFileInfo r) -> bounded (recvFileInfo (newState st r))) /\
  (0 <= st <= 3 -> 0 <= recvState r <= 3 -> 0 <= recvState (newState st r) <= 3).
Proof.
  unfold newState, bounded. destruct (negb _); [|auto]. destruct (st =? _); cbn; auto.
Qed.

(** *** Well-formed tables *)

Lemma sessions_upd s r l : rSessionId r = s -> map rSessionId (updRecipient s (fun _ => r) l) = map rSessionId l.
Proof.
  intros Hr. induction l as [|y l IH]; cbn [updRecipient map]; [reflexivity|].
  destruct (Z.eqb_spec (rSessionId y) s); cbn [map]; [congruence|]. now rewrite IH.
Qed.

Lemma wf_withR s r d e : wfTable (recips d) -> rSessionId r = s -> wfRecip r -> wfTable (recips (withR s r d e)).
Proof.
  intros [H1 H2] Hr Hw. unfold withR. cbn [recips]. split; [now rewrite sessions_upd|]. clear H1.
  induction (recips d) as [|y l IH]; cbn [updRecipient]; [constructor|]. apply Forall_cons_1 in H2 as [Hy Hl].
  destruct (rSessionId y =? s); constructor; auto.
Qed.

Lemma wf_without s d e : wfTable (recips d) -> wfTable (recips (without s d e)).
Proof.
  intros [H1 H2]. unfold without. cbn [recips]. induction (recips d) as [|y l IH]; cbn [delRecipientOf]; [now split|].
  cbn [map] in H1. apply NoDup_cons in H1 as [Hn H1]. apply Forall_cons_1 in H2 as [Hy Hl].
  destruct (rSessionId y =? s); [now split|]. destruct (IH H1 Hl) as [K1 K2]. split; [|constructor; auto].
  cbn [map]. apply NoDup_cons. split; [|exact K1]. intros Hin. apply Hn. clear -Hin.
  induction l as [|z l IH]; cbn [delRecipientOf map] in *; [exact Hin|].
  destruct (rSessionId z =? s); [now right|]. cbn [map] in Hin. apply elem_of_cons in Hin as [->|Hin]; [left|right; auto].
Qed.

Lemma found_withR s d r : GetRecipientNoLock s (recips d) = Some r -> d = withR s r d (env d).
Proof.
  intros H. unfold withR. destruct d as [l ss pp e]. cbn in *. f_equal.
  unfold GetRecipientNoLock in H. induction l as [|y l IH]; [reflexivity|]. cbn [List.find updRecipient] in *.
  destruct (rSessionId y =? s); [now injection H as ->|]. f_equal. auto.
Qed.

Lemma use_withR s d r : wfTable (recips d) -> GetRecipientNoLock s (recips d) = Some r ->
  upd s useRecipient d = withR s (useRecipient r) d (env d) /\ rSessionId (useRecipient r) = s /\
  objRefCount (useRecipient r) = 2 /\ recvFileInfo (useRecipient r) = recvFileInfo r /\
  0 <= recvState (useRecipient r) <= 3 /\ bounded (recvFileInfo r) /\ present s d.
Proof.
  intros [_ Hw] Hg. pose proof (find_spec _ _ _ Hg) as [Hs Hin]. rewrite Forall_forall in Hw.
  specialize (Hw r Hin). destruct Hw as [Hc Hst Hf].
  unfold TRANS_FILE_RECV_IDLE_STATE, TRANS_FILE_RECV_ERR_STATE in Hst.
  split; [unfold upd, withR, setRecips; cbn; now rewrite (upd_found _ _ _ _ Hg)|].
  unfold useRecipient, setCount, setState. cbn [rSessionId objRefCount recvFileInfo recvState]. rewrite Hc.
  unfold present. rewrite Hg.
  destruct (recvState r =? TRANS_FILE_RECV_START_STATE); cbn;
    unfold TRANS_FILE_RECV_PROCESS_STATE; split_and!; auto; lia.
Qed.

(** A recipient whose handler is done. *)
Lemma released_wf s r d e : wfTable (recips d) -> present s d -> rSessionId r = s -> objRefCount r = 2 ->
  0 <= recvState r <= 3 -> bounded (recvFileInfo r) ->
  wfTable (recips (ReleaseRecipientRef a s (withR s r d e))).
Proof.
  intros Hw Hp Hr Hc Hst Hf. unfold ReleaseRecipientRef. rewrite drop2_withR by assumption.
  apply wf_withR; auto. split; auto.
Qed.

Lemma failed_wf s r d e : wfTable (recips d) -> present s d -> rSessionId r = s -> objRefCount r = 2 ->
  wfTable (recips (failRecipient a s (withR s r d e))).
Proof.
  intros Hw Hp Hr Hc. destruct (fail_withR s r d e Hp Hr Hc) as [e' ->]. now apply wf_without.
Qed.

(** What every handler guarantees. *)
Definition fine (o : option (Z * D)) : Prop := exists ret d', o = Some (ret, d') /\ wfTable (recips d').

Lemma WriteFrameToFile_fine s fr d : wfTable (recips d) -> frameLength fr = Z.of_nat (length (data fr)) ->
  frameLength fr <= UINT16_MAX -> fine (WriteFrameToFile a s fr d).
Proof.
  intros Hw Hl Hm. unfold WriteFrameToFile, GetRecipientInProcessRef.
  destruct (GetRecipientNoLock s (recips d)) as [r|] eqn:Hg; [|do 2 eexists; eauto].
  destruct (recvState r =? _); [do 2 eexists; eauto|].
  destruct (use_withR s d r Hw Hg) as (-> & Hs & Hc & Hfi & Hst & Hb & Hp). set (u := useRecipient r) in *. clearbody u.
  assert (Herr : forall f0 e, fine (Some (SOFTBUS_FILE_ERR, failRecipient a s (SetRecipientRecvState s TRANS_FILE_RECV_ERR_STATE
    (if rCrc u =? APP_INFO_FILE_FEATURES_SUPPORT
     then snd (sendResult a (rChannelId u) 0 SOFTBUS_FILE_ERR IS_RECV_RESULT (withR s (setFile u f0) d e))
     else withR s (setFile u f0) d e))))).
  { intros f0 e. assert (He : exists e', (if rCrc u =? APP_INFO_FILE_FEATURES_SUPPORT
      then snd (sendResult a (rChannelId u) 0 SOFTBUS_FILE_ERR IS_RECV_RESULT (withR s (setFile u f0) d e))
      else withR s (setFile u f0) d e) = withR s (setFile u f0) d e').
    { destruct (rCrc u =? _); [|eauto].
      destruct (sendResult_withR (rChannelId u) 0 SOFTBUS_FILE_ERR IS_RECV_RESULT s (setFile u f0) d e) as (q & e' & ->). eauto. }
    destruct He as [e' ->]. rewrite state_withR by exact Hs. do 2 eexists. split; [reflexivity|].
    destruct (newState_same TRANS_FILE_RECV_ERR_STATE (setFile u f0)) as (N1 & N2 & _). apply failed_wf; auto.
    - rewrite N1. exact Hs.
    - rewrite N2. exact Hc. }
  destruct (recv_file_bounded a (rCrc u) (rOsType u) fr (recvFileInfo u) Ha ltac:(now rewrite Hfi) Hl Hm)
    as (ret & fr1 & dl & -> & Hok).
  assert (Hsame : withR s u d (env d) = withR s (setFile u (recvFileInfo u)) d (env d)) by (now destruct u).
  destruct (Z.eqb_spec ret SOFTBUS_OK) as [->|]; cbn [negb]; [|rewrite Hsame; apply Herr].
  destruct (Hok eq_refl) as (ret2 & x' & -> & Hx'). rewrite upd_withR by exact Hs.
  destruct (Z.eqb_spec ret2 SOFTBUS_OK) as [->|]; cbn [negb]; [|apply Herr].
  do 2 eexists. split; [reflexivity|]. unfold UpdateFileReceptionStatus. rewrite upd_withR by exact Hs.
  rewrite tell_withR. set (v := setFile (setFile u x') _).
  assert (Hv : rSessionId v = s /\ objRefCount v = 2 /\ 0 <= recvState v <= 3 /\ bounded (recvFileInfo v)) by auto.
  clearbody v. destruct Hv as (V1 & V2 & V3 & V4). destruct (_ && _); [|now apply released_wf].
  destruct (newState_same TRANS_FILE_RECV_IDLE_STATE v) as (N1 & N2 & N3 & N4).
  rewrite state_withR, setEnv_withR by exact V1. rewrite upd_withR by (rewrite N1; exact V1).
  apply released_wf; cbn [setFile rSessionId objRefCount recvState recvFileInfo]; rewrite ?N1, ?N2; auto.
  apply N4; [unfold TRANS_FILE_RECV_IDLE_STATE; lia|exact V3].
Qed.

Lemma ProcessCrcCheckSumData_fine s fr d : wfTable (recips d) -> frameLength fr = Z.of_nat (length (data fr)) ->
  fine (ProcessCrcCheckSumData a s fr d).
Proof.
  intros Hw Hl. unfold ProcessCrcCheckSumData, GetRecipientInProcessRef.
  destruct (GetRecipientNoLock s (recips d)) as [r|] eqn:Hg; [|do 2 eexists; eauto].
  destruct (recvState r =? _); [do 2 eexists; eauto|].
  destruct (use_withR s d r Hw Hg) as (-> & Hs & Hc & Hfi & Hst & Hb & Hp). set (u := useRecipient r) in *. clearbody u.
  assert (Hu : exists res fr1, UnpackFileCrcCheckSum (rCrc u) (rCheckSumCRC (recvFileInfo u)) fr = Some (res, fr1)).
  { unfold UnpackFileCrcCheckSum. destruct (_ =? _); [|eauto].
    unfold FRAME_HEAD_LEN, FRAME_DATA_SEQ_OFFSET, FRAME_MAGIC_OFFSET, field.
    destruct (Z.eqb_spec (frameLength fr) (12 + 4 + 8)) as [El|]; cbn [negb]; [|eauto].
    destruct (readAt_ok 0 4 (data fr)) as (b1 & -> & _); [lia..|]. cbn [mbind option_bind].
    destruct (readAt_ok 4 8 (data fr)) as (b2 & -> & _); [lia..|]. cbn [mbind option_bind].
    destruct (_ || _); [eauto|].
    destruct (readAt_ok 12 4 (data fr)) as (b3 & -> & _); [lia..|]. cbn [mbind option_bind].
    destruct (readAt_ok (12 + 4) 8 (data fr)) as (b4 & -> & _); [lia..|]. cbn [mbind option_bind]. eauto. }
  destruct Hu as (res & fr1 & ->).
  destruct (sendResult_withR (rChannelId u) (frameSeq fr1) res IS_RECV_RESULT s u d (env d)) as (q & e' & ->).
  destruct (_ || _); do 2 eexists; (split; [reflexivity|]); rewrite state_withR by exact Hs.
  - destruct (newState_same TRANS_FILE_RECV_ERR_STATE u) as (N1 & N2 & N3 & N4).
    apply released_wf; rewrite ?N1, ?N2; auto.
    + apply N4; [unfold TRANS_FILE_RECV_ERR_STATE; lia|exact Hst].
    + apply N3. now rewrite Hfi.
  - destruct (newState_same TRANS_FILE_RECV_IDLE_STATE u) as (N1 & N2 & N3 & N4).
    apply released_wf; rewrite ?N1, ?N2; auto.
    + apply N4; [unfold TRANS_FILE_RECV_IDLE_STATE; lia|exact Hst].
    + apply N3. now rewrite Hfi.
Qed.

Lemma UnpackAck_total fr : frameLength fr = Z.of_nat (length (data fr)) ->
  exists ret o, UnpackAckReqAndResData fr = Some (ret, o).
Proof.
  intros Hl. unfold UnpackAckReqAndResData, FRAME_HEAD_LEN, FRAME_DATA_SEQ_OFFSET, FRAME_MAGIC_OFFSET, field.
  destruct (Z.ltb_spec (frameLength fr) (12 + 4 + 4)); [eauto|].
  destruct (readAt_ok 0 4 (data fr)) as (b1 & -> & _); [lia..|]. cbn [mbind option_bind].
  destruct (readAt_ok 4 8 (data fr)) as (b2 & -> & _); [lia..|]. cbn [mbind option_bind].
  destruct (_ || _); [eauto|].
  destruct (readAt_ok 12 4 (data fr)) as (b3 & -> & _); [lia..|]. cbn [mbind option_bind].
  destruct (readAt_ok (12 + 4) 4 (data fr)) as (b4 & -> & _); [lia..|]. cbn [mbind option_bind]. eauto.
Qed.

Lemma ProcessFileAckRequest_fine s fr d : wfTable (recips d) -> frameLength fr = Z.of_nat (length (data fr)) ->
  fine (ProcessFileAckRequest a s fr d).
Proof.
  intros Hw Hl. unfold ProcessFileAckRequest, GetRecipientInProcessRef.
  destruct (GetRecipientNoLock s (recips d)) as [r|] eqn:Hg; [|do 2 eexists; eauto].
  destruct (recvState r =? _); [do 2 eexists; eauto|].
  destruct (use_withR s d r Hw Hg) as (-> & Hs & Hc & Hfi & Hst & Hb & Hp). set (u := useRecipient r) in *. clearbody u.
  rewrite <- Hfi in Hb.
  destruct (UnpackAck_total fr Hl) as (ret & [[st v]|] & ->); [|do 2 eexists; split; [reflexivity|]; now apply released_wf].
  destruct (negb _); [do 2 eexists; split; [reflexivity|]; now apply released_wf|].
  rewrite upd_withR by exact Hs. cbn [env withR]. destruct (SendFileAckReqAndResData _ _ _ _ _ _ _ _) as [ret2 e'].
  do 2 eexists. split; [reflexivity|].
  exact (released_wf s (setFile u (nextWindow st (recvFileInfo u))) d e' Hw Hp Hs Hc Hst Hb).
Qed.

Lemma ProcessFileListData_fine s fr d : wfTable (recips d) -> in_u32 (Z.of_nat (length (data fr))) ->
  fine (ProcessFileListData a s fr d).
Proof.
  intros Hw Hl. unfold ProcessFileListData, GetRecipientInfo.
  destruct (GetRecipientNoLock s (recips d)) as [r|] eqn:Hg; [|do 2 eexists; eauto].
  destruct (use_withR s d r Hw Hg) as (-> & Hs & Hc & Hfi & Hst & Hb & Hp). set (u := useRecipient r) in *. clearbody u.
  assert (Hfin : forall ret st e, fine (Some (ret, DelRecipient a s (ReleaseRecipientRef a s (withR s (newState st u) d e))))).
  { intros ret st e. do 2 eexists. split; [reflexivity|]. destruct (newState_same st u) as (N1 & N2 & _).
    unfold DelRecipient, ReleaseRecipientRef. rewrite drop2_withR by (rewrite ?N1, ?N2; auto).
    destruct (drop1_withR s (setCount (newState st u) 1) d e Hp) as [e' ->]; [now rewrite <- N1 in Hs|reflexivity|].
    now apply wf_without. }
  destruct (BufferToFileList_safe (aLibc a) (data fr) Hl) as [o ->].
  rewrite tell_withR, state_withR by exact Hs.
  destruct o as [[nm n]|]; [|apply Hfin]. destruct (negb _); [apply Hfin|]. destruct (negb _); [apply Hfin|].
  destruct (GetAndCheckRealPath _ _) as [ret ap]. destruct (negb _); [apply Hfin|].
  rewrite state_withR by exact Hs. rewrite tell_withR. apply Hfin.
Qed.

Lemma UnpackStart_total fr rcrc ros p : frameLength fr = Z.of_nat (length (data fr)) -> in_u32 (frameLength fr) ->
  0 <= p <= PROXY_BR_MAX_PACKET_SIZE ->
  exists ret fr' f, UnpackFileTransStartInfo fr rcrc ros (emptyFile 0) p = Some (ret, fr', f) /\ bounded f.
Proof.
  intros Hl Hu Hp. assert (H0 : bounded (emptyFile 0)).
  { unfold bounded, in_u32, MAX_FILE_SIZE, PROXY_BR_MAX_PACKET_SIZE. cbn. lia. }
  unfold UnpackFileTransStartInfo, FRAME_HEAD_LEN, FRAME_DATA_SEQ_OFFSET, FRAME_MAGIC_OFFSET, field.
  destruct (withCrc rcrc ros).
  - destruct (Z.ltb_spec (frameLength fr) (12 + 4 + 8)); [eauto|].
    destruct (readAt_ok 0 4 (data fr)) as (b1 & -> & _); [lia..|]. cbn [mbind option_bind].
    destruct (readAt_ok 4 8 (data fr)) as (b2 & -> & _); [lia..|]. cbn [mbind option_bind].
    rewrite u32_small by (unfold in_u32 in *; lia).
    destruct (Z.ltb_spec (frameLength fr - 12) (unle b2)); [eauto|].
    destruct (negb (unle b1 =? FILE_MAGIC_NUMBER)); cbn [orb]; [eauto|].
    destruct (Z.ltb_spec (unle b2) (4 + 8)); [eauto|].
    destruct (readAt_ok 12 4 (data fr)) as (b3 & -> & L3); [lia..|]. cbn [mbind option_bind].
    pose proof (unle_range b3) as R3. destruct (Z.ltb_spec p (unle b3)); [eauto|].
    destruct (readAt_ok (12 + 4) 8 (data fr)) as (b4 & -> & _); [lia..|]. cbn [mbind option_bind].
    destruct (MAX_FILE_SIZE <? unle b4); [eauto|].
    assert (Hb : forall nm, bounded (mkFile 0 0 0 0 (unle b3) 1 0 1 0 (unle b4) 0 0 nm [])).
    { intros nm. unfold bounded, in_u32, MAX_FILE_SIZE. cbn. unfold PROXY_BR_MAX_PACKET_SIZE in *. lia. }
    destruct (MAX_FILE_PATH_NAME_LEN <=? _); [do 3 eexists; split; [reflexivity|apply Hb]|].
    destruct (Z.ltb_spec 0 (unle b2 - 4 - 8)); [|do 3 eexists; split; [reflexivity|apply Hb]].
    destruct (readAt_ok (12 + 4 + 8) (unle b2 - 4 - 8) (data fr)) as (b5 & -> & _); [lia..|]. cbn [mbind option_bind].
    do 3 eexists. split; [reflexivity|apply Hb].
  - destruct (Z.ltb_spec (frameLength fr) 4); [eauto|].
    destruct (readAt_ok 0 4 (data fr)) as (b1 & -> & L1); [lia..|]. cbn [mbind option_bind].
    assert (Hb : forall nm, bounded (mkFile (unle b1) 0 0 0 0 0 0 0 0 0 0 0 nm [])).
    { intros nm. pose proof (unle4_range b1 ltac:(lia)) as R. unfold bounded, MAX_FILE_SIZE, PROXY_BR_MAX_PACKET_SIZE. cbn.
      split_and!; try lia; apply R. }
    destruct (MAX_FILE_PATH_NAME_LEN <=? _); [do 3 eexists; split; [reflexivity|apply Hb]|].
    destruct (Z.ltb_spec 0 (frameLength fr - 4)); [|do 3 eexists; split; [reflexivity|apply Hb]].
    destruct (readAt_ok 4 (frameLength fr - 4) (data fr)) as (b5 & -> & _); [lia..|]. cbn [mbind option_bind].
    do 3 eexists. split; [reflexivity|apply Hb].
Qed.

Lemma StartInfo_total fr r p : frameLength fr = Z.of_nat (length (data fr)) -> in_u32 (frameLength fr) ->
  0 <= p <= PROXY_BR_MAX_PACKET_SIZE ->
  exists ret f, GetFileInfoByStartFrame a fr r (emptyFile 0) p = Some (ret, f) /\ bounded f.
Proof.
  intros Hl Hu Hp. unfold GetFileInfoByStartFrame.
  assert (H0 : bounded (emptyFile 0)).
  { unfold bounded, in_u32, MAX_FILE_SIZE, PROXY_BR_MAX_PACKET_SIZE. cbn. lia. }
  destruct (hasDotDot _); [eauto|].
  destruct (UnpackStart_total fr (rCrc r) (rOsType r) p Hl Hu Hp) as (ret & fr' & f & -> & Hb).
  destruct (negb _); [eauto|]. destruct (negb _); [eauto|]. destruct (negb _); [eauto|].
  destruct (CreateDirAndGetAbsPath _ _ _ _ _ _ _ _) as [[ret2 ap] made]. do 2 eexists. split; [reflexivity|]. exact Hb.
Qed.

Lemma PutToRecvFileList_withR s f r d e : present s d -> rSessionId r = s -> bounded (recvFileInfo r) -> bounded f ->
  exists ret r' e', PutToRecvFileList a s f (withR s r d e) = (ret, withR s r' d e') /\ rSessionId r' = s /\
    objRefCount r' = objRefCount r /\ recvState r' = recvState r /\ bounded (recvFileInfo r').
Proof.
  intros Hp Hr Hb Hf. unfold PutToRecvFileList. rewrite get_withR by assumption.
  destruct (negb _); [do 3 eexists; split; [reflexivity|]; auto|].
  destruct (CheckRecvFileExist _ _); [do 3 eexists; split; [reflexivity|]; auto|].
  rewrite upd_withR by exact Hr. destruct (aOpen a (filePath f) <? 0); [do 3 eexists; split; [reflexivity|]; cbn; auto|].
  destruct (negb _); [rewrite setEnv_withR; do 3 eexists; split; [reflexivity|]; cbn; auto|].
  rewrite upd_withR by exact Hr. do 3 eexists. split; [reflexivity|]. cbn. split_and!; auto.
  unfold bounded, MAX_FILE_SIZE in *. cbn. split_and!; lia || apply Hf.
Qed.

(** The recipient for a first frame: found idle or made. *)
Lemma create_ref s chan os d : wfTable (recips d) ->
  (exists d', GetRecipientInCreateFileRef a s chan os d = (None, d') /\ wfTable (recips d')) \/
  (exists r d1 e, GetRecipientInCreateFileRef a s chan os d = (Some (withR s r d1 e), withR s r d1 e) /\
     wfTable (recips d1) /\ present s d1 /\ rSessionId r = s /\ objRefCount r = 2 /\ recvState r = 1 /\
     bounded (recvFileInfo r)).
Proof.
  intros Hw. unfold GetRecipientInCreateFileRef.
  assert (Hidle : forall d1 r, wfTable (recips d1) -> GetRecipientNoLock s (recips d1) = Some r ->
    let o := if negb (recvState r =? TRANS_FILE_RECV_IDLE_STATE) then (None, d1)
             else let d2 := upd s (fun r => setCount (setState r TRANS_FILE_RECV_START_STATE) (s32 (objRefCount r + 1))) d1 in
                  (Some d2, d2) in
    (exists d', o = (None, d') /\ wfTable (recips d')) \/
    (exists r d2 e, o = (Some (withR s r d2 e), withR s r d2 e) /\ wfTable (recips d2) /\ present s d2 /\
       rSessionId r = s /\ objRefCount r = 2 /\ recvState r = 1 /\ bounded (recvFileInfo r))).
  { intros d1 r Hw1 Hg. cbn zeta. destruct (negb _); [left; eauto|right].
    pose proof (find_spec _ _ _ Hg) as [Hs Hin]. destruct Hw1 as [H1 H2]. rewrite Forall_forall in H2.
    destruct (H2 r Hin) as [Hc _ Hf].
    exists (setCount (setState r TRANS_FILE_RECV_START_STATE) (s32 (objRefCount r + 1))), d1, (env d1).
    unfold upd, setRecips, withR. rewrite (upd_found _ _ _ _ Hg), Hc.
    split_and!; auto; [now split; [|rewrite Forall_forall]|unfold present; rewrite Hg; eauto]. }
  destruct (GetRecipientNoLock s (recips d)) as [r|] eqn:Hg; [rewrite Hg; now apply Hidle|].
  unfold CreateNewRecipient. destruct (negb _); [left; eauto|]. destruct (negb _); [left; eauto|].
  destruct (aRoot a s) as [root|]; [|left; eauto].
  set (r0 := mkRecipient s chan os (aCrc a s) 0 root 1 0 (emptyFile INVALID_FD)).
  assert (Hnone : s ∉ map rSessionId (recips d)).
  { unfold GetRecipientNoLock in Hg. intros Hin. apply list_elem_of_In, in_map_iff in Hin as (x & Hx & Hin).
    apply (find_none _ _ Hg) in Hin. apply Z.eqb_neq in Hin. contradiction. }
  assert (Hg0 : GetRecipientNoLock s (recips d ++ [r0]) = Some r0).
  { clear -Hg. unfold GetRecipientNoLock in *. induction (recips d) as [|y l IH]; cbn [List.find app] in *.
    - cbn. now rewrite Z.eqb_refl.
    - destruct (rSessionId y =? s); [discriminate|auto]. }
  unfold setRecips. cbn [recips]. rewrite Hg0. apply (Hidle (mkDevice (recips d ++ [r0]) (senders d) (dPending d) (env d))); [|exact Hg0].
  cbn [recips]. destruct Hw as [H1 H2]. split.
  - rewrite map_app. apply NoDup_app. split; [exact H1|]. split.
    + intros x Hx Hx'. cbn in Hx'. apply list_elem_of_singleton in Hx' as ->. contradiction.
    + apply NoDup_singleton.
  - apply Forall_app. split; [exact H2|]. constructor; [|constructor]. split; [reflexivity|cbn; unfold TRANS_FILE_RECV_IDLE_STATE, TRANS_FILE_RECV_ERR_STATE; lia|].
    unfold bounded, in_u32, MAX_FILE_SIZE, PROXY_BR_MAX_PACKET_SIZE. cbn. lia.
Qed.

Lemma CreateFileFromFrame_fine s chan fr os p d : wfTable (recips d) -> frameLength fr = Z.of_nat (length (data fr)) ->
  in_u32 (frameLength fr) -> 0 <= p <= PROXY_BR_MAX_PACKET_SIZE -> fine (CreateFileFromFrame a s chan fr os p d).
Proof.
  intros Hw Hl Hu Hp. unfold CreateFileFromFrame.
  destruct (create_ref s chan os d Hw) as [(d' & -> & Hw')|(r & d1 & e & -> & Hw1 & Hpr & Hs & Hc & Hst & Hb)];
    [do 2 eexists; eauto|].
  assert (Herr : forall r' e', rSessionId r' = s -> objRefCount r' = 2 ->
    fine (Some (SOFTBUS_FILE_ERR, failRecipient a s
      (if crcOf s (withR s r' d1 e') =? APP_INFO_FILE_FEATURES_SUPPORT
       then snd (sendResult a chan 0 SOFTBUS_FILE_ERR IS_RECV_RESULT (withR s r' d1 e')) else withR s r' d1 e')))).
  { intros r' e' Hs' Hc'. do 2 eexists. split; [reflexivity|]. destruct (_ =? _); [|now apply failed_wf].
    destruct (sendResult_withR chan 0 SOFTBUS_FILE_ERR IS_RECV_RESULT s r' d1 e') as (q & e'' & ->). now apply failed_wf. }
  destruct (negb _); [now apply Herr|]. rewrite get_withR by assumption.
  destruct (StartInfo_total fr r p Hl Hu Hp) as (ret & f & -> & Hf). destruct (negb _); [now apply Herr|].
  destruct (PutToRecvFileList_withR s f r d1 e Hpr Hs Hb Hf) as (ret2 & r2 & e2 & -> & Hs2 & Hc2 & Hst2 & Hb2).
  rewrite Hc in Hc2. rewrite Hst in Hst2. destruct (negb _); [now apply Herr|]. rewrite tell_withR.
  do 2 eexists. split; [reflexivity|]. destruct (_ =? _).
  - destruct (sendResult_withR chan 0 SOFTBUS_OK IS_RECV_RESULT s r2 d1
      (notify (RecvStart (filePath f) (rFileSize f)) e2)) as (q & e'' & ->). cbn [snd]. apply released_wf; auto. lia.
  - apply released_wf; auto. lia.
Qed.

(** *** Answers, the timer, and everything together *)

Lemma UnpackResult_total b : exists ret o, UnpackFileTransResultFrame (Some b) = Some (ret, o).
Proof.
  unfold UnpackFileTransResultFrame, FRAME_HEAD_LEN, FRAME_DATA_SEQ_OFFSET, FRAME_MAGIC_OFFSET, field.
  destruct (Z.ltb_spec (Z.of_nat (length b)) (12 + 4 + 4 + 4)); [eauto|].
  destruct (readAt_ok 0 4 b) as (b1 & -> & _); [lia..|]. cbn [mbind option_bind].
  destruct (readAt_ok 4 8 b) as (b2 & -> & _); [lia..|]. cbn [mbind option_bind].
  destruct (_ || _); [eauto|].
  destruct (readAt_ok 12 4 b) as (b3 & -> & _); [lia..|]. cbn [mbind option_bind].
  destruct (readAt_ok (12 + 4) 4 b) as (b4 & -> & _); [lia..|]. cbn [mbind option_bind].
  destruct (readAt_ok (12 + 4 + 4) 4 b) as (b5 & -> & _); [lia..|]. cbn [mbind option_bind]. eauto.
Qed.

Lemma ProcessFileTransResult_fine lock s fr d : wfTable (recips d) -> fine (ProcessFileTransResult lock s fr d).
Proof.
  intros Hw. unfold ProcessFileTransResult. destruct (UnpackResult_total (data fr)) as (ret & o & ->).
  destruct o as [[[q r] side]|]; [|do 2 eexists; eauto]. destruct (_ =? _).
  - unfold ProcessFileRecvResult. destruct (setSendResult _ _ _); do 2 eexists; eauto.
  - destruct (_ =? _); [|do 2 eexists; eauto]. unfold ProcessFileSendResult.
    destruct (GetRecipientNoLock s (recips d)) as [x|] eqn:Hg; [|do 2 eexists; eauto].
    do 2 eexists. split; [reflexivity|]. unfold upd, setRecips. cbn [recips]. rewrite (upd_found _ _ _ _ Hg).
    pose proof (find_spec _ _ _ Hg) as [Hs Hin].
    apply (wf_withR s (setRResult x r) d (env d) Hw); [exact Hs|].
    destruct Hw as [_ H2]. rewrite Forall_forall in H2. destruct (H2 x Hin). split; auto.
Qed.

Lemma ProcessFileAckResponse_fine lock s fr d : wfTable (recips d) -> frameLength fr = Z.of_nat (length (data fr)) ->
  fine (ProcessFileAckResponse a lock s fr d).
Proof.
  intros Hw Hl. unfold ProcessFileAckResponse. destruct (_ =? _); [do 2 eexists; eauto|].
  destruct (negb _); [do 2 eexists; eauto|]. destruct (UnpackAck_total fr Hl) as (ret & o & ->).
  destruct o as [ack|]; [|do 2 eexists; eauto]. destruct (List.find _ _) as [[i x]|]; [|do 2 eexists; eauto].
  destruct (SetPendingPacketData _ _ _ _ _) as [r2 l]. destruct (negb _); do 2 eexists; eauto.
Qed.

Lemma CheckFrameLength_range chan len os : 0 <= snd (CheckFrameLength a chan len os) <= PROXY_BR_MAX_PACKET_SIZE.
Proof.
  unfold CheckFrameLength, PROXY_BR_MAX_PACKET_SIZE, PROXY_BLE_MAX_PACKET_SIZE. destruct (negb _); [cbn; lia|].
  destruct (aLinkType a chan) as [ret lt]. destruct (negb _); [cbn; lia|]. destruct (lt =? LANE_BR); cbn; lia.
Qed.

Lemma frame_fine lock s chan b t d : wfTable (recips d) -> Z.of_nat (length b) <= UINT16_MAX ->
  fine (ProcessFileFrameData a lock s chan b t d).
Proof.
  intros Hw Hl. unfold ProcessFileFrameData, ProcessRecvFileFrameData. cbn [frameLength frameType].
  pose proof (CheckFrameLength_range chan (Z.of_nat (length b)) (aOsType a chan)) as Hp.
  destruct (CheckFrameLength a chan (Z.of_nat (length b)) (aOsType a chan)) as [ret p]. cbn in Hp.
  destruct (negb _); [do 2 eexists; eauto|].
  assert (Hu : in_u32 (Z.of_nat (length b))) by (unfold in_u32; lia).
  destruct (t =? _); [now apply CreateFileFromFrame_fine|].
  destruct (_ || _); [now apply WriteFrameToFile_fine|].
  destruct (t =? _); [now apply ProcessFileAckRequest_fine|].
  destruct (t =? _); [now apply ProcessFileAckResponse_fine|].
  destruct (t =? _); [now apply ProcessCrcCheckSumData_fine|].
  destruct (t =? _); [now apply ProcessFileTransResult_fine|].
  destruct (t =? _); [now apply ProcessFileListData_fine|]. do 2 eexists; eauto.
Qed.

Lemma close_wf s d : wfTable (recips d) -> wfTable (recips (ClientDeleteRecvFileList a s d)).
Proof.
  intros Hw. unfold ClientDeleteRecvFileList, DelRecipient. destruct (s <=? 0); [exact Hw|].
  destruct (GetRecipientNoLock s (recips d)) as [r|] eqn:Hg; [|unfold dropRef; now rewrite Hg].
  pose proof (find_spec _ _ _ Hg) as [Hs Hin]. pose proof Hw as [_ H2]. rewrite Forall_forall in H2. destruct (H2 r Hin) as [Hc _ _].
  rewrite (found_withR s d r Hg). destruct (drop1_withR s r d (env d)) as [e' ->]; auto; [unfold present; rewrite Hg; eauto|].
  now apply wf_without.
Qed.

Lemma timerWalk_wf l : forall d, NoDup (map rSessionId l) -> Forall wfRecip l ->
  exists l' e, timerWalk a l d = (l', setEnv d e) /\ Forall wfRecip l' /\ NoDup (map rSessionId l') /\
    forall x, x ∈ map rSessionId l' -> x ∈ map rSessionId l.
Proof.
  induction l as [|r l IH]; intros d Hn Hw; cbn [timerWalk].
  { exists [], (env d). split_and!; auto. now destruct d. }
  cbn [map] in Hn. apply NoDup_cons in Hn as [Hr Hn]. apply Forall_cons_1 in Hw as [Hwr Hw].
  assert (Hkeep : forall r' d, rSessionId r' = rSessionId r -> wfRecip r' ->
    exists l' e, (let '(l1, d1) := timerWalk a l d in (r' :: l1, d1)) = (l', setEnv d e) /\ Forall wfRecip l' /\
      NoDup (map rSessionId l') /\ forall x, x ∈ map rSessionId l' -> x ∈ rSessionId r :: map rSessionId l).
  { intros r' d0 Hs Hr'. destruct (IH d0 Hn Hw) as (l' & e & -> & K1 & K2 & K3). exists (r' :: l'), e.
    split_and!; auto.
    - cbn [map]. rewrite Hs. apply NoDup_cons. split; [|exact K2]. intros Hin. apply Hr. auto.
    - intros x Hx. cbn [map] in Hx. rewrite Hs in Hx. apply elem_of_cons in Hx as [->|Hx]; [left|right; auto]. }
  destruct (recvState r =? _); [apply Hkeep; auto|].
  destruct (FILE_TRANS_TIMEOUT <=? _).
  - set (r1 := setCount _ _). set (d1 := if objRefCount r1 =? 0 then ClearRecipientResources a r1 d else d).
    assert (Hd1 : exists e, d1 = setEnv d e).
    { unfold d1. destruct (_ =? 0); [apply Clear_env|exists (env d); now destruct d]. }
    destruct Hd1 as [e1 ->]. destruct (IH (setEnv d e1) Hn Hw) as (l' & e & -> & K1 & K2 & K3).
    exists l', e. split_and!; auto. intros x Hx. right. auto.
  - apply (Hkeep (setFile r (setStatus (recvFileInfo r) (fileFd (recvFileInfo r)) (fileStatus (recvFileInfo r))
      (s32 (timeOut (recvFileInfo r) + 1))))); [reflexivity|]. destruct Hwr as [W1 W2 W3]. split; auto.
Qed.

Lemma timer_wf d : wfTable (recips d) -> wfTable (recips (ProxyFileTransTimerProc a d)).
Proof.
  intros [H1 H2]. unfold ProxyFileTransTimerProc.
  destruct (timerWalk_wf (recips d) (setRecips d []) H1 H2) as (l' & e & -> & K1 & K2 & _). now split.
Qed.

(** What can happen to a device. *)
Inductive Input :=
  | InFrame (s chan : Z) (bytes : list byte) (type : Z)
  | InTimer
  | InClose (s : Z).

Definition input (lock : Z) (i : Input) (d : D) : option D :=
  match i with
  | InFrame s chan b t => match ProcessFileFrameData a lock s chan b t d with Some (_, d') => Some d' | None => None end
  | InTimer => Some (ProxyFileTransTimerProc a d)
  | InClose s => Some (ClientDeleteRecvFileList a s d)
  end.

Fixpoint inputs (lock : Z) (l : list Input) (d : D) : option D :=
  match l with
  | [] => Some d
  | i :: l' => match input lock i d with Some d' => inputs lock l' d' | None => None end
  end.

Definition shortFrame (i : Input) : Prop :=
  match i with InFrame _ _ b _ => Z.of_nat (length b) <= UINT16_MAX | _ => True end.

Lemma inputs_wf lock l : Forall shortFrame l -> forall d, wfTable (recips d) ->
  exists d', inputs lock l d = Some d' /\ wfTable (recips d').
Proof.
  induction 1 as [|i l Hi _ IH]; intros d Hw; cbn [inputs]; [eauto|].
  destruct i as [s chan b t| |s]; cbn [input].
  - destruct (frame_fine lock s chan b t d Hw Hi) as (ret & d' & -> & Hw'). auto.
  - apply IH, timer_wf, Hw.
  - apply IH, close_wf, Hw.
Qed.

End Tables.

(** C33: Whatever frames of at most 65535 bytes arrive at a device, in whatever order,
    with the timer and closing sessions in between: every handler stays inside its
    buffers, no session has two recipients, every recipient is in one of the four
    states and, when no handler runs, referenced by the table alone, and no file
    has been written beyond 5 MB. *)
Theorem device_frames_safe {E : Type} (ops : RecvOps E) (a : RecvAns) (lock : Z) (l : list Input) (e : E)
    (Ha : honestDisk a) (Hl : Forall shortFrame l) :
  exists d', inputs a lock l (mkDevice [] [] [] e) = Some d' /\ wfTable (recips d').
Proof. apply inputs_wf; auto. cbn. split; constructor. Qed.

#[local] Existing Instance REnvOps.

Lemma device_frames_safe_witness : exists d',
  inputs bleAns SOFTBUS_OK
    [InFrame 1 1 (startFrame [Byte.x01] 958 [Byte.x66]) TRANS_SESSION_FILE_FIRST_FRAME;
     InFrame 1 1 (dataFrame 9 [Byte.x01]) TRANS_SESSION_FILE_ONGOINE_FRAME; InTimer;
     InFrame 1 1 [Byte.xff] TRANS_SESSION_FILE_ACK_REQUEST_SENT; InClose 1]
    (mkDevice [] [] [] noEnv) = Some d' /\ wfTable (recips d').
Proof.
  apply (device_frames_safe REnvOps bleAns SOFTBUS_OK).
  - intros n off. cbn. lia.
  - repeat constructor; cbn; lia.
Defined.

End FileDevice.
