(* ===== verification/Sha256.v ===== *)
(** * SHA-256 and HMAC of the fillp transport

    components/nstackx/fillp/src/fillp_lib/src/sha256.c and hmac.c.  The context
    of the hash is the struct of sha256.h; its buffer of sixteen words is also
    written as 64 bytes, so the byte order of the host matters: [little] is both
    the byte order and the build flag FILLP_LITTLE_ENDIAN.  The reference is
    written after FIPS 180-4 and RFC 2104: the constants are computed from the
    roots of primes, the schedule is a list of 64 words and the working
    variables move, whereas the code keeps sixteen words and rotates indices. *)

From S2P Require Import Prelude ErrorCode.
From stdpp Require Import list.
From S2P Require Import Bytes.
#[local] Open Scope Z_scope.

Module Sha256.
Import ByteOrder.

(** ** Macros and tables *)

Definition FILLP_SHA256_DIGEST_SIZE : Z := 32.
Definition FILLP_SHA256_BLOCK_SIZE : Z := 64.
Definition FILLP_SHA256_MASK : Z := FILLP_SHA256_BLOCK_SIZE - 1.

Definition FILLP_ROTR32 (x n : Z) : Z := Z.lor (Z.shiftr x n) (u32 (Z.shiftl x (32 - n))).
Definition FILLP_SWAP32 (x : Z) : Z :=
  Z.lor (Z.land (FILLP_ROTR32 x 24) 0x00ff00ff) (Z.land (FILLP_ROTR32 x 8) 0xff00ff00).

Definition FILLP_CH (x y z : Z) : Z := Z.lxor z (Z.land x (Z.lxor y z)).
Definition FILLP_MAJ (x y z : Z) : Z := Z.lor (Z.land x y) (Z.land z (Z.lxor x y)).
Definition FILLP_S_0 (x : Z) : Z :=
  Z.lxor (Z.lxor (FILLP_ROTR32 x 2) (FILLP_ROTR32 x 13)) (FILLP_ROTR32 x 22).
Definition FILLP_S_1 (x : Z) : Z :=
  Z.lxor (Z.lxor (FILLP_ROTR32 x 6) (FILLP_ROTR32 x 11)) (FILLP_ROTR32 x 25).
Definition FILLP_G_0 (x : Z) : Z :=
  Z.lxor (Z.lxor (FILLP_ROTR32 x 7) (FILLP_ROTR32 x 18)) (Z.shiftr x 3).
Definition FILLP_G_1 (x : Z) : Z :=
  Z.lxor (Z.lxor (FILLP_ROTR32 x 17) (FILLP_ROTR32 x 19)) (Z.shiftr x 10).

Definition g_k256 : list Z := [
  0x428A2F98; 0x71374491; 0xB5C0FBCF; 0xE9B5DBA5; 0x3956C25B; 0x59F111F1; 0x923F82A4; 0xAB1C5ED5;
  0xD807AA98; 0x12835B01; 0x243185BE; 0x550C7DC3; 0x72BE5D74; 0x80DEB1FE; 0x9BDC06A7; 0xC19BF174;
  0xE49B69C1; 0xEFBE4786; 0x0FC19DC6; 0x240CA1CC; 0x2DE92C6F; 0x4A7484AA; 0x5CB0A9DC; 0x76F988DA;
  0x983E5152; 0xA831C66D; 0xB00327C8; 0xBF597FC7; 0xC6E00BF3; 0xD5A79147; 0x06CA6351; 0x14292967;
  0x27B70A85; 0x2E1B2138; 0x4D2C6DFC; 0x53380D13; 0x650A7354; 0x766A0ABB; 0x81C2C92E; 0x92722C85;
  0xA2BFE8A1; 0xA81A664B; 0xC24B8B70; 0xC76C51A3; 0xD192E819; 0xD6990624; 0xF40E3585; 0x106AA070;
  0x19A4C116; 0x1E376C08; 0x2748774C; 0x34B0BCB5; 0x391C0CB3; 0x4ED8AA4A; 0x5B9CCA4F; 0x682E6FF3;
  0x748F82EE; 0x78A5636F; 0x84C87814; 0x8CC70208; 0x90BEFFFA; 0xA4506CEB; 0xBEF9A3F7; 0xC67178F2].

Definition g_i256 : list Z := [
  0x6A09E667; 0xBB67AE85; 0x3C6EF372; 0xA54FF53A; 0x510E527F; 0x9B05688C; 0x1F83D9AB; 0x5BE0CD19].

(** Arrays of words.  Every index of the code is masked or bounded by a loop, so
    an access outside does not happen; the lengths are part of the invariant. *)
Definition get (l : list Z) (i : Z) : Z := nth (Z.to_nat i) l 0.
Definition set (l : list Z) (i v : Z) : list Z := <[Z.to_nat i := v]> l.
(** [l[i] += v] *)
Definition addAt (l : list Z) (i v : Z) : list Z := set l i (u32 (get l i + v)).

(** ** The context *)

Record FillpSha256Ctx := mkCtx {
  count0 : Z;
  count1 : Z;
  hash : list Z;
  wbuf : list Z
}.

Definition setHash (c : FillpSha256Ctx) (h : list Z) : FillpSha256Ctx :=
  mkCtx (count0 c) (count1 c) h (wbuf c).
Definition setWbuf (c : FillpSha256Ctx) (w : list Z) : FillpSha256Ctx :=
  mkCtx (count0 c) (count1 c) (hash c) w.

(** One round of the two nested loops. *)
Definition compileRound (jdex index : Z) (st : list Z * list Z) : list Z * list Z :=
  let '(buf, h) := st in
  let '(buf, key3) :=
    if 0 <? jdex then
      let key0 := Z.land (u32 (index + 14)) 15 in
      let key1 := Z.land (u32 (index + 9)) 15 in
      let key2 := Z.land (u32 (index + 1)) 15 in
      let key3 := Z.land index 15 in
      (addAt buf key3 (FILLP_G_1 (get buf key0) + get buf key1 + FILLP_G_0 (get buf key2)), key3)
    else (buf, index) in
  let key0 := Z.land (u32 (7 - index)) 7 in
  let h := addAt h key0 (get buf key3) in
  let key1 := index + jdex in
  let h := addAt h key0 (get g_k256 key1) in
  let key1 := Z.land (u32 (4 - index)) 7 in
  let h := addAt h key0 (FILLP_S_1 (get h key1)) in
  let key2 := Z.land (u32 (5 - index)) 7 in
  let key3 := Z.land (u32 (6 - index)) 7 in
  let h := addAt h key0 (FILLP_CH (get h key1) (get h key2) (get h key3)) in
  let key1 := Z.land (u32 (3 - index)) 7 in
  let h := addAt h key1 (get h key0) in
  let key1 := Z.land (u32 (0 - index)) 7 in
  let h := addAt h key0 (FILLP_S_0 (get h key1)) in
  let key2 := Z.land (u32 (1 - index)) 7 in
  let key3 := Z.land (u32 (2 - index)) 7 in
  let h := addAt h key0 (FILLP_MAJ (get h key1) (get h key2) (get h key3)) in
  (buf, h).

(** [n] rounds from [index] on. *)
Fixpoint compileInner (n : nat) (jdex index : Z) (st : list Z * list Z) : list Z * list Z :=
  match n with
  | O => st
  | S n' => compileInner n' jdex (index + 1) (compileRound jdex index st)
  end.

(** [n] passes from [jdex] on. *)
Fixpoint compileOuter (n : nat) (jdex : Z) (st : list Z * list Z) : list Z * list Z :=
  match n with
  | O => st
  | S n' => compileOuter n' (jdex + 16) (compileInner 16 jdex 0 st)
  end.

Fixpoint updateHash (n : nat) (jdex : Z) (h acc : list Z) : list Z :=
  match n with
  | O => acc
  | S n' => updateHash n' (jdex + 1) h (addAt acc jdex (get h jdex))
  end.

Definition FillpSha256Compile (ctx : FillpSha256Ctx) : FillpSha256Ctx :=
  if negb (memcpy_s 32 32) then ctx
  else
    let '(buf, h) := compileOuter 4 0 (wbuf ctx, hash ctx) in
    mkCtx (count0 ctx) (count1 ctx) (updateHash 8 0 h (hash ctx)) buf.

Definition FillpSha256Set (ctx : FillpSha256Ctx) : FillpSha256Ctx :=
  mkCtx 0 0 (if memcpy_s 32 32 then g_i256 else hash ctx) (wbuf ctx).

Section Host.

Context (little : bool).

(** The bytes of an array of words, and the words of an array of bytes. *)
Definition bytesOf (w : list Z) : list byte := concat (map (memOf little 4) w).

Fixpoint chunks (k : nat) (n : nat) (l : list byte) : list (list byte) :=
  match n with
  | O => []
  | S n' => take k l :: chunks k n' (drop k l)
  end.

Definition wordsOf (l : list byte) : list Z := map (ofMem little) (chunks 4 (length l / 4) l).

Fixpoint swapLoop (index : nat) (w : list Z) : list Z :=
  match index with
  | O => w
  | S i => swapLoop i (set w (Z.of_nat i) (FILLP_SWAP32 (get w (Z.of_nat i))))
  end.

Definition FILLP_SWAP_32_ARRAY (w : list Z) (arySize : Z) : list Z :=
  if little then swapLoop (Z.to_nat arySize) w else w.

(** [memcpy] into the buffer at a byte offset. *)
Definition storeBytes (ctx : FillpSha256Ctx) (offset : Z) (bs : list byte) : option FillpSha256Ctx :=
  b ← writeAt offset bs (bytesOf (wbuf ctx));
  Some (setWbuf ctx (wordsOf b)).

(** The loop of [FillpSha256Upd]; the last component tells that a copy failed and
    the function has returned. *)
Fixpoint updLoop (fuel : nat) (data : list byte) (ctx : FillpSha256Ctx) (dataPtr len offset freeSize : Z)
  : option (FillpSha256Ctx * (Z * Z * Z * Z) * bool) :=
  if negb (freeSize <=? len) then Some (ctx, (dataPtr, len, offset, freeSize), false)
  else
    match fuel with
    | O => None
    | S fuel' =>
      if negb (memcpy_s freeSize freeSize) then Some (ctx, (dataPtr, len, offset, freeSize), true)
      else
        bs ← readAt dataPtr freeSize data;
        c ← storeBytes ctx offset bs;
        let c := setWbuf c (FILLP_SWAP_32_ARRAY (wbuf c) (Z.shiftr FILLP_SHA256_BLOCK_SIZE 2)) in
        updLoop fuel' data (FillpSha256Compile c) (dataPtr + freeSize) (len - freeSize) 0
          FILLP_SHA256_BLOCK_SIZE
    end.

(** [len] counts at most [len / 64 + 1] blocks. *)
Definition FillpSha256Upd (ctx : FillpSha256Ctx) (data : list byte) (len : Z) : option FillpSha256Ctx :=
  let offset := Z.land (count0 ctx) FILLP_SHA256_MASK in
  let freeSize := FILLP_SHA256_BLOCK_SIZE - offset in
  let c0 := u32 (count0 ctx + u32 len) in
  let c1 := if c0 <? len then u32 (count1 ctx + 1) else count1 ctx in
  r ← updLoop (S (Z.to_nat (len / 64))) data (mkCtx c0 c1 (hash ctx) (wbuf ctx)) 0 len offset freeSize;
  let '(c, (dataPtr, len, offset, freeSize), failed) := r in
  if (failed : bool) then Some c
  else if len =? 0 then Some c
  else if negb (memcpy_s freeSize (u32 len)) then Some c
  else
    bs ← readAt dataPtr (u32 len) data;
    storeBytes c offset bs.

Fixpoint zeroFrom (n : nat) (offset : Z) (w : list Z) : list Z :=
  match n with
  | O => w
  | S n' => if offset <? 14 then zeroFrom n' (offset + 1) (set w offset 0) else w
  end.

Fixpoint hashOut (n : nat) (offset : Z) (h : list Z) : option (list byte) :=
  match n with
  | O => Some []
  | S n' =>
    match h !! Z.to_nat (Z.shiftr offset 2) with
    | None => None
    | Some w =>
      let shfBits := 8 * Z.land (Z.lnot offset) 3 in
      rest ← hashOut n' (offset + 1) h;
      Some (Zbyte (Z.shiftr w shfBits) :: rest)
    end
  end.

Definition FillpSha256Fin (ctx : FillpSha256Ctx) (hashValLen : Z) : option (list byte * FillpSha256Ctx) :=
  let offset := Z.land (count0 ctx) FILLP_SHA256_MASK in
  let w := FILLP_SWAP_32_ARRAY (wbuf ctx) (Z.shiftr (offset + 3) 2) in
  let shfBits := 8 * Z.land (Z.lnot offset) 3 in
  let i := Z.shiftr offset 2 in
  let w := set w i (Z.land (get w i) (u32 (Z.shiftl 0xffffff80 shfBits))) in
  let w := set w i (Z.lor (get w i) (u32 (Z.shiftl 0x00000080 shfBits))) in
  let '(c, offset) :=
    if FILLP_SHA256_BLOCK_SIZE - 9 <? offset then
      let w := if offset <? 60 then set w 15 0 else w in
      (FillpSha256Compile (setWbuf ctx w), 0)
    else (setWbuf ctx w, Z.shiftr offset 2 + 1) in
  let w := zeroFrom 14 offset (wbuf c) in
  let w := set w 14 (Z.lor (u32 (Z.shiftl (count1 c) 3)) (Z.shiftr (count0 c) 29)) in
  let w := set w 15 (u32 (Z.shiftl (count0 c) 3)) in
  let c := FillpSha256Compile (setWbuf c w) in
  out ← hashOut (Z.to_nat hashValLen) 0 (hash c);
  Some (out, c).

End Host.

(** ** HMAC *)

Definition FILLP_HMAC_IPAD : Z := 0x36.
Definition FILLP_HMAC_OPAD : Z := 0x5C.
Definition CSE_DATA_ONE_PAR : Z := 17.
Definition CSE_DATA_TWO_PAR : Z := 63.

Record FillpHmacSha256Ctx := mkHmac { hashki : FillpSha256Ctx; hashko : FillpSha256Ctx }.

Fixpoint cleanLoop (loop : nat) (pptr ctr : Z) : list byte * Z :=
  match loop with
  | O => ([], ctr)
  | S loop' =>
    let pptr := pptr + 1 in
    let '(bs, ctr') := cleanLoop loop' pptr (u64 (ctr + (CSE_DATA_ONE_PAR + Z.land pptr 0xF))) in
    (Zbyte ctr :: bs, ctr')
  end.

(** [memchr]: the index of the first byte [c]. *)
Fixpoint memchr (c : byte) (l : list byte) : option Z :=
  match l with
  | [] => None
  | b :: l' => if decide (b = c) then Some 0 else Z.add 1 <$> memchr c l'
  end.

(** [ptr] is the address of the buffer; the result: its new bytes and
    [pcbInst->cleanseDataCtr]. *)
Definition FillpCleanSedata (ptr len cleanseDataCtr : Z) : list byte * Z :=
  let '(bs, ctr) := cleanLoop (Z.to_nat len) ptr cleanseDataCtr in
  match memchr (Zbyte ctr) bs with
  | Some i => (bs, u8 (ctr + (CSE_DATA_TWO_PAR + (ptr + i))))
  | None => (bs, u8 ctr)
  end.

Section Hmac.

Context (little : bool).

Definition xorPad (pad : Z) (k : list byte) : list byte := map (fun b => Zbyte (Z.lxor (byteZ b) pad)) k.

(** [tctx] is the content of the stack where the context of the key is, [addr] the
    addresses of [tk], [keyIpad] and [keyOpad].  The result: the context and the
    counter of [FillpCleanSedata]. *)
Definition FillpHmacSha256Init (tctx : FillpSha256Ctx) (addr : Z * Z * Z) (ctx : option FillpHmacSha256Ctx)
    (key : option (list byte)) (klen ctr : Z) : option (option FillpHmacSha256Ctx * Z) :=
  match ctx, key with
  | None, _ => Some (ctx, ctr)
  | _, None => Some (ctx, ctr)
  | Some c, Some key =>
    if klen =? 0 then Some (ctx, ctr)
    else
      r ← (if FILLP_SHA256_BLOCK_SIZE <? klen then
             t ← FillpSha256Upd little (FillpSha256Set tctx) key klen;
             '(tk, _) ← FillpSha256Fin little t FILLP_SHA256_DIGEST_SIZE;
             Some (tk, FILLP_SHA256_DIGEST_SIZE)
           else Some (key, klen));
      let '(key, klen) := r in
      let pad0 := replicate (Z.to_nat FILLP_SHA256_BLOCK_SIZE) (Zbyte 0) in
      if negb (memcpy_s klen klen) then Some (ctx, ctr)
      else
        bs ← readAt 0 klen key;
        padded ← writeAt 0 bs pad0;
        let keyIpad := xorPad FILLP_HMAC_IPAD padded in
        let keyOpad := xorPad FILLP_HMAC_OPAD padded in
        ki ← FillpSha256Upd little (FillpSha256Set (hashki c)) keyIpad FILLP_SHA256_BLOCK_SIZE;
        ko ← FillpSha256Upd little (FillpSha256Set (hashko c)) keyOpad FILLP_SHA256_BLOCK_SIZE;
        let '(aTk, aIpad, aOpad) := addr in
        let ctr := (FillpCleanSedata aTk 32 ctr).2 in
        let ctr := (FillpCleanSedata aIpad 64 ctr).2 in
        let ctr := (FillpCleanSedata aOpad 64 ctr).2 in
        Some (Some (mkHmac ki ko), ctr)
  end.

Definition FillpHmacSha256Update (ctx : option FillpHmacSha256Ctx) (data : option (list byte)) (dlen : Z)
  : option (option FillpHmacSha256Ctx) :=
  match ctx with
  | None => Some None
  | Some c =>
    match data with
    | None =>
      if dlen =? 0 then
        k ← FillpSha256Upd little (hashki c) [Zbyte 0] 0;
        Some (Some (mkHmac k (hashko c)))
      else Some ctx
    | Some d =>
      k ← FillpSha256Upd little (hashki c) d dlen;
      Some (Some (mkHmac k (hashko c)))
    end
  end.

(** [digest]: the buffer of the caller; [None] for NULL. *)
Definition FillpHmacSha256Final (ctx : option FillpHmacSha256Ctx) (digest : option (list byte)) (size : Z)
  : option (option (list byte) * option FillpHmacSha256Ctx) :=
  match ctx, digest with
  | Some c, Some d =>
    '(inner, ki) ← FillpSha256Fin little (hashki c) size;
    d ← writeAt 0 inner d;
    ko ← FillpSha256Upd little (hashko c) d size;
    '(outer, ko) ← FillpSha256Fin little ko size;
    d ← writeAt 0 outer d;
    Some (Some d, Some (mkHmac ki ko))
  | _, _ => Some (digest, ctx)
  end.

End Hmac.

(** ** FIPS 180-4 *)

Module Fips.

Fixpoint cbrtLoop (n : nat) (c x : Z) : Z :=
  match n with
  | O => c
  | S n' =>
    let c' := c + 2 ^ Z.of_nat n' in
    cbrtLoop n' (if c' * c' * c' <=? x then c' else c) x
  end.
(** The largest [c] below 2^40 with [c^3 <= x]. *)
Definition cbrt (x : Z) : Z := cbrtLoop 40 0 x.

Definition primes : list Z := [
  2; 3; 5; 7; 11; 13; 17; 19; 23; 29; 31; 37; 41; 43; 47; 53; 59; 61; 67; 71; 73; 79; 83; 89; 97; 101; 103;
  107; 109; 113; 127; 131; 137; 139; 149; 151; 157; 163; 167; 173; 179; 181; 191; 193; 197; 199; 211; 223;
  227; 229; 233; 239; 241; 251; 257; 263; 269; 271; 277; 281; 283; 293; 307; 311].

(** The first 32 bits of the fractional parts of the roots. *)
Definition K : list Z := map (fun p => u32 (cbrt (p * 2 ^ 96))) primes.
Definition H0 : list Z := map (fun p => u32 (Z.sqrt (p * 2 ^ 64))) (take 8 primes).

Definition rotr (n x : Z) : Z := Z.lor (Z.shiftr x n) (u32 (Z.shiftl x (32 - n))).
Definition Ch (x y z : Z) : Z := Z.lxor (Z.land x y) (Z.land (Z.lnot x) z).
Definition Maj (x y z : Z) : Z := Z.lxor (Z.lxor (Z.land x y) (Z.land x z)) (Z.land y z).
Definition Sigma0 (x : Z) : Z := Z.lxor (Z.lxor (rotr 2 x) (rotr 13 x)) (rotr 22 x).
Definition Sigma1 (x : Z) : Z := Z.lxor (Z.lxor (rotr 6 x) (rotr 11 x)) (rotr 25 x).
Definition sigma0 (x : Z) : Z := Z.lxor (Z.lxor (rotr 7 x) (rotr 18 x)) (Z.shiftr x 3).
Definition sigma1 (x : Z) : Z := Z.lxor (Z.lxor (rotr 17 x) (rotr 19 x)) (Z.shiftr x 10).

(** The schedule: [n] words more. *)
Fixpoint extend (n : nat) (w : list Z) : list Z :=
  match n with
  | O => w
  | S n' =>
    let t := length w in
    extend n' (w ++ [u32 (sigma1 (nth (t - 2) w 0) + nth (t - 7) w 0 + sigma0 (nth (t - 15) w 0)
                          + nth (t - 16) w 0)])
  end.
Definition schedule (m : list Z) : list Z := extend 48 m.

Record vars := V { va : Z; vb : Z; vc : Z; vd : Z; ve : Z; vf : Z; vg : Z; vh : Z }.

Definition step (s : vars) (kw : Z * Z) : vars :=
  let T1 := u32 (vh s + Sigma1 (ve s) + Ch (ve s) (vf s) (vg s) + kw.1 + kw.2) in
  let T2 := u32 (Sigma0 (va s) + Maj (va s) (vb s) (vc s)) in
  V (u32 (T1 + T2)) (va s) (vb s) (vc s) (u32 (vd s + T1)) (ve s) (vf s) (vg s).

Definition toVars (l : list Z) : vars :=
  V (nth 0 l 0) (nth 1 l 0) (nth 2 l 0) (nth 3 l 0) (nth 4 l 0) (nth 5 l 0) (nth 6 l 0) (nth 7 l 0).
Definition ofVars (s : vars) : list Z := [va s; vb s; vc s; vd s; ve s; vf s; vg s; vh s].

(** One block of sixteen words. *)
Definition compress (h m : list Z) : list Z :=
  zip_with (fun x y => u32 (x + y)) h (ofVars (fold_left step (zip K (schedule m)) (toVars h))).

Definition pad (m : list byte) : list byte :=
  let l := Z.of_nat (length m) in
  m ++ Zbyte 0x80 :: replicate (Z.to_nat ((55 - l) mod 64)) (Zbyte 0) ++ be 8 (8 * l).

Definition blockWords (b : list byte) : list Z := map unbe (chunks 4 16 b).

(** Absorbs the complete blocks of [m]. *)
Definition absorb (h : list Z) (m : list byte) : list Z :=
  fold_left (fun h b => compress h (blockWords b)) (chunks 64 (length m / 64) m) h.

Definition sha256 (m : list byte) : list byte := concat (map (be 4) (absorb H0 (pad m))).

(** RFC 2104 with SHA-256 and its blocks of 64 bytes. *)
Definition xorWith (v : Z) (k : list byte) : list byte := map (fun b => Zbyte (Z.lxor (byteZ b) v)) k.
Definition hmac (key m : list byte) : list byte :=
  let k := if (64 <? length key)%nat then sha256 key else key in
  let k := k ++ replicate (64 - length k) (Zbyte 0) in
  sha256 (xorWith 0x5c k ++ sha256 (xorWith 0x36 k ++ m)).

End Fips.

(** ** The compression function *)

Ltac bitwise := apply Z.bits_inj'; intros ? ?; rewrite ?Z.lxor_spec, ?Z.lor_spec, ?Z.land_spec, ?Z.lnot_spec,
  ?Z.lxor_spec, ?Z.lor_spec, ?Z.land_spec by assumption.

Lemma FILLP_CH_Ch x y z : FILLP_CH x y z = Fips.Ch x y z.
Proof. unfold FILLP_CH, Fips.Ch. bitwise. now destruct (Z.testbit x n), (Z.testbit y n), (Z.testbit z n). Qed.

Lemma FILLP_MAJ_Maj x y z : FILLP_MAJ x y z = Fips.Maj x y z.
Proof. unfold FILLP_MAJ, Fips.Maj. bitwise. now destruct (Z.testbit x n), (Z.testbit y n), (Z.testbit z n). Qed.

Lemma FILLP_G_0_sigma0 x : FILLP_G_0 x = Fips.sigma0 x.
Proof. reflexivity. Qed.

Lemma FILLP_G_1_sigma1 x : FILLP_G_1 x = Fips.sigma1 x.
Proof. reflexivity. Qed.

Lemma g_k256_K : g_k256 = Fips.K.
Proof. vm_compute. reflexivity. Qed.

Lemma g_i256_H0 : g_i256 = Fips.H0.
Proof. vm_compute. reflexivity. Qed.

(** The working variable [k] of round [i] is at index [k - i]. *)
Definition slot (i k : Z) : Z := Z.land (u32 (k - i)) 7.
Definition view (i : Z) (h : list Z) : Fips.vars :=
  Fips.V (get h (slot i 0)) (get h (slot i 1)) (get h (slot i 2)) (get h (slot i 3))
    (get h (slot i 4)) (get h (slot i 5)) (get h (slot i 6)) (get h (slot i 7)).

(** The part of a round that works on the hash, with its word and its constant;
    [s0] to [s7] are the indices of the working variables. *)
Definition hashRoundAt (s0 s1 s2 s3 s4 s5 s6 s7 w k : Z) (h : list Z) : list Z :=
  let h := addAt h s7 w in
  let h := addAt h s7 k in
  let h := addAt h s7 (FILLP_S_1 (get h s4)) in
  let h := addAt h s7 (FILLP_CH (get h s4) (get h s5) (get h s6)) in
  let h := addAt h s3 (get h s7) in
  let h := addAt h s7 (FILLP_S_0 (get h s0)) in
  addAt h s7 (FILLP_MAJ (get h s0) (get h s1) (get h s2)).
Definition hashRound (i w k : Z) (h : list Z) : list Z :=
  hashRoundAt (slot i 0) (slot i 1) (slot i 2) (slot i 3) (slot i 4) (slot i 5) (slot i 6) (slot i 7) w k h.

(** The part that extends the schedule. *)
Definition bufRound (jdex i : Z) (buf : list Z) : list Z :=
  if 0 <? jdex then
    addAt buf i (FILLP_G_1 (get buf ((i + 14) mod 16)) + get buf ((i + 9) mod 16)
                 + FILLP_G_0 (get buf ((i + 1) mod 16)))
  else buf.

Lemma land_u32_15 x : Z.land (u32 x) 15 = x mod 16.
Proof. change 15 with (2 ^ 4 - 1). rewrite land_pow2_mask by lia. now rewrite u32_mod_pow2 by lia. Qed.

Lemma compileRound_split jdex i buf h : 0 <= i < 16 ->
  compileRound jdex i (buf, h) =
  (bufRound jdex i buf, hashRound i (get (bufRound jdex i buf) i) (get g_k256 (i + jdex)) h).
Proof.
  intros Hi. unfold compileRound, bufRound.
  assert (E : Z.land i 15 = i).
  { change 15 with (2 ^ 4 - 1). rewrite land_pow2_mask by lia. apply Z.mod_small. lia. }
  rewrite !land_u32_15, E. destruct (0 <? jdex); reflexivity.
Qed.

Ltac enum_index i Hi :=
  let H := fresh in
  assert (H : i = 0 \/ i = 1 \/ i = 2 \/ i = 3 \/ i = 4 \/ i = 5 \/ i = 6 \/ i = 7 \/ i = 8 \/ i = 9 \/
              i = 10 \/ i = 11 \/ i = 12 \/ i = 13 \/ i = 14 \/ i = 15) by lia;
  clear Hi; repeat (destruct H as [H|H]; [subst i|]); [..|subst i].

Ltac eval_indices := repeat match goal with
  | |- context [slot ?i ?k] =>
    let v := eval vm_compute in (slot i k) in change (slot i k) with v
  end.

Lemma length_addAt l i v : length (addAt l i v) = length l.
Proof. apply length_insert. Qed.

Lemma length_hashRound i w k h : length (hashRound i w k h) = length h.
Proof. unfold hashRound, hashRoundAt. now rewrite !length_addAt. Qed.

Lemma u32_add_l a b : u32 (u32 a + b) = u32 (a + b).
Proof. apply Zplus_mod_idemp_l. Qed.

Lemma u32_add_r a b : u32 (a + u32 b) = u32 (a + b).
Proof. apply Zplus_mod_idemp_r. Qed.

Lemma T1_sum a w k s c : u32 (u32 (u32 (u32 (a + w) + k) + s) + c) = u32 (a + s + c + k + w).
Proof. rewrite (u32_add_l (a + w)), (u32_add_l (a + w + k)), u32_add_l. f_equal. lia. Qed.

Lemma T12_sum a w k s c s' m :
  u32 (u32 (u32 (u32 (u32 (u32 (a + w) + k) + s) + c) + s') + m) =
  u32 (u32 (a + s + c + k + w) + u32 (s' + m)).
Proof. rewrite <- (T1_sum a w k s c), u32_add_r, (u32_add_l _ m). f_equal. lia. Qed.

(** One round of the code is one step of the standard, with the names of the
    working variables moved by one index. *)
Lemma hashRound_step i w k h : 0 <= i < 16 -> length h = 8%nat ->
  view (i + 1) (hashRound i w k h) = Fips.step (view i h) (k, w).
Proof.
  intros Hi Hh. do 8 (destruct h as [|? h]; [discriminate|]). destruct h; [|discriminate]. clear Hh.
  enum_index i Hi; unfold hashRound, view; eval_indices;
    cbv [hashRoundAt addAt get set Z.to_nat Pos.to_nat Pos.iter_op Nat.add nth insert list_insert];
    change FILLP_S_0 with Fips.Sigma0; change FILLP_S_1 with Fips.Sigma1;
    rewrite !FILLP_CH_Ch, !FILLP_MAJ_Maj; unfold Fips.step;
    cbn [Fips.va Fips.vb Fips.vc Fips.vd Fips.ve Fips.vf Fips.vg Fips.vh fst snd];
    rewrite T12_sum, T1_sum; reflexivity.
Qed.

(** *** The schedule in sixteen words *)

Lemma length_extend n w : length (Fips.extend n w) = (n + length w)%nat.
Proof. revert w. induction n; intros w; simpl; [reflexivity|]. rewrite IHn, length_app. simpl. lia. Qed.

Lemma extend_old n w t : (t < length w)%nat -> nth t (Fips.extend n w) 0 = nth t w 0.
Proof.
  revert w. induction n as [|n IH]; intros w Ht; [reflexivity|].
  cbn [Fips.extend]. rewrite IH by (rewrite length_app; simpl; lia). now rewrite app_nth1.
Qed.

(** The recurrence of the schedule. *)
Lemma extend_new n w t : (16 <= length w <= t)%nat -> (t < n + length w)%nat ->
  let W := Fips.extend n w in
  nth t W 0 = u32 (Fips.sigma1 (nth (t - 2) W 0) + nth (t - 7) W 0 + Fips.sigma0 (nth (t - 15) W 0)
                   + nth (t - 16) W 0).
Proof.
  revert w. induction n as [|n IH]; intros w Hw Ht W; [lia|].
  destruct (decide (t = length w)) as [->|Hne].
  - unfold W. cbn [Fips.extend]. rewrite !extend_old by (rewrite length_app; simpl; lia).
    rewrite (app_nth2 w) by lia. rewrite Nat.sub_diag. cbn [nth].
    now rewrite !(app_nth1 w) by lia.
  - apply IH; rewrite length_app; simpl; lia.
Qed.

Section Pass.

Context (m : list Z) (Hm : length m = 16%nat).

Abbreviation W := (Fips.schedule m).

Lemma length_W : length W = 64%nat.
Proof. unfold Fips.schedule. rewrite length_extend, Hm. reflexivity. Qed.

Lemma W_new t : (16 <= t < 64)%nat ->
  nth t W 0 = u32 (Fips.sigma1 (nth (t - 2) W 0) + nth (t - 7) W 0 + Fips.sigma0 (nth (t - 15) W 0)
                   + nth (t - 16) W 0).
Proof. intros Ht. apply (extend_new 48 m t); lia. Qed.

Lemma W_old j : 0 <= j < 16 -> get W j = get m j.
Proof. intros Hj. apply extend_old. lia. Qed.

(** The buffer in pass [p] before index [i]: the first [i] words are already those
    of this pass, the others those of the previous one. *)
Definition bufAt (p i : Z) (buf : list Z) : Prop :=
  length buf = 16%nat /\
  forall j, 0 <= j < 16 -> get buf j = get W (if j <? i then 16 * p + j else 16 * (p - 1) + j).

Lemma bufAt_start : bufAt 1 0 m.
Proof.
  split; [exact Hm|]. intros j Hj. destruct (Z.ltb_spec j 0); [lia|].
  replace (16 * (1 - 1) + j) with j by lia. now rewrite W_old.
Qed.

Lemma bufAt_next p buf : bufAt p 16 buf <-> bufAt (p + 1) 0 buf.
Proof.
  unfold bufAt. split; intros [H1 H2]; (split; [exact H1|]); intros j Hj; specialize (H2 j Hj); rewrite H2;
    destruct (Z.ltb_spec j 0), (Z.ltb_spec j 16); try lia; f_equal; lia.
Qed.

Lemma get_addAt l i j v : 0 <= i < Z.of_nat (length l) -> 0 <= j ->
  get (addAt l i v) j = if j =? i then u32 (get l i + v) else get l j.
Proof.
  intros Hi Hj. unfold get, addAt, set. destruct (Z.eqb_spec j i) as [->|].
  - rewrite nth_lookup, list_lookup_insert_eq by lia. reflexivity.
  - rewrite !nth_lookup, list_lookup_insert_ne by lia. reflexivity.
Qed.

Lemma bufRound_bufAt p i buf : 1 <= p <= 3 -> 0 <= i < 16 -> bufAt p i buf ->
  bufAt p (i + 1) (bufRound (16 * p) i buf) /\ get (bufRound (16 * p) i buf) i = get W (16 * p + i).
Proof.
  intros Hp Hi [Hl Hb].
  assert (E : get (bufRound (16 * p) i buf) i = get W (16 * p + i)).
  { unfold bufRound. destruct (Z.ltb_spec 0 (16 * p)); [|lia].
    rewrite get_addAt, Z.eqb_refl by lia.
    assert (Hc : forall d, 1 <= d <= 15 -> get buf ((i + d) mod 16) = get W (16 * p + i - (16 - d))).
    { intros d Hd. pose proof (Z.mod_pos_bound (i + d) 16 ltac:(lia)). rewrite Hb by lia. f_equal.
      destruct (Z.ltb_spec ((i + d) mod 16) i); Z.div_mod_to_equations; lia. }
    rewrite !Hc, (Hb i) by lia. destruct (Z.ltb_spec i i); [lia|].
    unfold get. rewrite (W_new (Z.to_nat (16 * p + i))), FILLP_G_0_sigma0, FILLP_G_1_sigma1 by lia. f_equal.
    replace (Z.to_nat (16 * p + i - (16 - 14))) with (Z.to_nat (16 * p + i) - 2)%nat by lia.
    replace (Z.to_nat (16 * p + i - (16 - 9))) with (Z.to_nat (16 * p + i) - 7)%nat by lia.
    replace (Z.to_nat (16 * p + i - (16 - 1))) with (Z.to_nat (16 * p + i) - 15)%nat by lia.
    replace (Z.to_nat (16 * (p - 1) + i)) with (Z.to_nat (16 * p + i) - 16)%nat by lia. lia. }
  split; [|exact E]. split.
  - unfold bufRound. destruct (0 <? 16 * p); [rewrite length_addAt|]; exact Hl.
  - intros j Hj. destruct (Z.eq_dec j i) as [->|Hne].
    + rewrite E. destruct (Z.ltb_spec i (i + 1)); [reflexivity|lia].
    + transitivity (get buf j).
      { unfold bufRound. destruct (Z.ltb_spec 0 (16 * p)); [|reflexivity].
        rewrite get_addAt by lia. destruct (Z.eqb_spec j i); [lia|reflexivity]. }
      rewrite Hb by lia. destruct (Z.ltb_spec j i), (Z.ltb_spec j (i + 1)); try lia; reflexivity.
Qed.

(** The first pass leaves the buffer alone. *)
Definition passBuf (p i : Z) (buf : list Z) : Prop := if p =? 0 then buf = m else bufAt p i buf.

Lemma round_sound p i buf h : 0 <= p <= 3 -> 0 <= i < 16 -> passBuf p i buf -> length h = 8%nat ->
  let '(buf', h') := compileRound (16 * p) i (buf, h) in
  passBuf p (i + 1) buf' /\ length h' = 8%nat /\
  view (i + 1) h' = Fips.step (view i h) (get Fips.K (16 * p + i), get W (16 * p + i)).
Proof.
  intros Hp Hi Hb Hh. rewrite compileRound_split, g_k256_K by lia.
  rewrite length_hashRound, hashRound_step, (Z.add_comm i (16 * p)) by assumption.
  unfold passBuf in *. destruct (Z.eqb_spec p 0) as [->|Hne].
  - subst buf. change (bufRound (16 * 0) i m) with m. split; [reflexivity|]. split; [exact Hh|].
    do 2 f_equal. rewrite W_old by lia. reflexivity.
  - destruct (bufRound_bufAt p i buf ltac:(lia) Hi Hb) as [H1 H2]. rewrite H2. auto.
Qed.

(** The pairs of constant and word from round [t] on. *)
Definition kws (t n : nat) : list (Z * Z) := take n (drop t (zip Fips.K W)).

Lemma kws_S t n : (t < 64)%nat ->
  kws t (S n) = (nth t Fips.K 0, nth t W 0) :: kws (S t) n.
Proof.
  intros Ht. unfold kws. pose proof length_W as HW.
  assert (Hz : zip Fips.K W !! t = Some (nth t Fips.K 0, nth t W 0)).
  { rewrite lookup_zip_with.
    destruct (Fips.K !! t) as [k|] eqn:E1; [|apply lookup_ge_None in E1; change (length Fips.K) with 64%nat in E1; lia].
    destruct (W !! t) as [w|] eqn:E2; [|apply lookup_ge_None in E2; lia].
    cbn [mbind option_bind]. now rewrite !nth_lookup, E1, E2. }
  now rewrite (drop_S _ _ _ Hz).
Qed.

Lemma inner_sound n : forall p i st, 0 <= p <= 3 -> 0 <= i -> i + Z.of_nat n <= 16 ->
  passBuf p i st.1 -> length st.2 = 8%nat ->
  let st' := compileInner n (16 * p) i st in
  passBuf p (i + Z.of_nat n) st'.1 /\ length st'.2 = 8%nat /\
  view (i + Z.of_nat n) st'.2 = fold_left Fips.step (kws (Z.to_nat (16 * p + i)) n) (view i st.2).
Proof.
  induction n as [|n IH]; intros p i [buf h] Hp Hi Hn Hb Hh; cbn [compileInner fst snd] in *.
  { change (Z.of_nat 0) with 0. rewrite Z.add_0_r. cbv zeta. auto. }
  pose proof (round_sound p i buf h Hp ltac:(lia) Hb Hh) as Hr.
  destruct (compileRound (16 * p) i (buf, h)) as [buf' h'] eqn:E. destruct Hr as (H1 & H2 & H3).
  destruct (IH p (i + 1) (buf', h') Hp ltac:(lia) ltac:(lia) H1 H2) as (J1 & J2 & J3).
  replace (i + Z.of_nat (S n)) with (i + 1 + Z.of_nat n) by lia.
  cbv zeta. split; [exact J1|]. split; [exact J2|]. rewrite J3. cbn [snd]. rewrite H3, kws_S by lia.
  cbn [fold_left]. do 3 f_equal. lia.
Qed.

Lemma kws_app t a b : kws t (a + b) = kws t a ++ kws (t + a) b.
Proof. unfold kws. now rewrite <- take_take_drop, drop_drop. Qed.

Lemma pass_sound p st : 0 <= p <= 3 -> (if p =? 0 then st.1 = m else bufAt p 0 st.1) -> length st.2 = 8%nat ->
  let st' := compileInner 16 (16 * p) 0 st in
  bufAt (p + 1) 0 st'.1 /\ length st'.2 = 8%nat /\
  view 0 st'.2 = fold_left Fips.step (kws (Z.to_nat (16 * p)) 16) (view 0 st.2).
Proof.
  intros Hp Hb Hh. destruct (inner_sound 16 p 0 st Hp ltac:(lia) ltac:(lia) Hb Hh) as (H1 & H2 & H3).
  cbv zeta. rewrite Z.add_0_r in H3. split; [|split; [exact H2|exact H3]].
  unfold passBuf in H1. destruct (Z.eqb_spec p 0) as [->|].
  - rewrite H1. apply bufAt_start.
  - now apply bufAt_next.
Qed.

(** Sixty-four rounds of the code are those of the standard. *)
Lemma outer_sound h : length h = 8%nat ->
  let st' := compileOuter 4 0 (m, h) in
  length st'.1 = 16%nat /\ length st'.2 = 8%nat /\
  view 0 st'.2 = fold_left Fips.step (zip Fips.K W) (view 0 h).
Proof.
  intros Hh. cbn [compileOuter].
  destruct (pass_sound 0 (m, h) ltac:(lia) eq_refl Hh) as (A1 & A2 & A3).
  change (16 * 0) with 0 in *. change (0 + 16) with (16 * 1). change (0 + 1) with 1 in A1.
  set (s1 := compileInner 16 0 0 (m, h)) in *.
  destruct (pass_sound 1 s1 ltac:(lia) A1 A2) as (B1 & B2 & B3). change (1 + 1) with 2 in B1.
  set (s2 := compileInner 16 (16 * 1) 0 s1) in *. change (16 * 1 + 16) with (16 * 2).
  destruct (pass_sound 2 s2 ltac:(lia) B1 B2) as (C1 & C2 & C3). change (2 + 1) with 3 in C1.
  set (s3 := compileInner 16 (16 * 2) 0 s2) in *. change (16 * 2 + 16) with (16 * 3).
  destruct (pass_sound 3 s3 ltac:(lia) C1 C2) as (D1 & D2 & D3).
  set (s4 := compileInner 16 (16 * 3) 0 s3) in *. cbv zeta.
  split; [apply D1|]. split; [exact D2|]. rewrite D3, C3, B3, A3.
  rewrite <- !fold_left_app. f_equal. cbn [snd].
  change (Z.to_nat 0) with 0%nat. change (Z.to_nat (16 * 1)) with (0 + 16)%nat.
  change (Z.to_nat (16 * 2)) with (0 + 32)%nat. change (Z.to_nat (16 * 3)) with (0 + 48)%nat.
  rewrite !app_assoc, <- (kws_app 0 16 16). change (16 + 16)%nat with 32%nat.
  rewrite <- (kws_app 0 32 16). change (32 + 16)%nat with 48%nat. rewrite <- (kws_app 0 48 16).
  unfold kws. rewrite drop_0. apply take_ge. rewrite length_zip_with, length_W. reflexivity.
Qed.

End Pass.

Lemma view0_toVars h : view 0 h = Fips.toVars h.
Proof. reflexivity. Qed.

(** [FillpSha256Compile] is the compression function. *)
Lemma FillpSha256Compile_compress ctx : length (hash ctx) = 8%nat -> length (wbuf ctx) = 16%nat ->
  exists buf, length buf = 16%nat /\
  FillpSha256Compile ctx = mkCtx (count0 ctx) (count1 ctx) (Fips.compress (hash ctx) (wbuf ctx)) buf.
Proof.
  intros Hh Hw. destruct (outer_sound (wbuf ctx) Hw (hash ctx) Hh) as (H1 & H2 & H3).
  unfold FillpSha256Compile. change (memcpy_s 32 32) with true. cbn [negb].
  destruct (compileOuter 4 0 (wbuf ctx, hash ctx)) as [buf h]. cbn [fst snd] in *.
  exists buf. split; [exact H1|]. f_equal. unfold Fips.compress. rewrite <- view0_toVars, <- H3.
  clear H3 H1. destruct ctx as [c0 c1 hh w]. cbn [hash] in *.
  do 8 (destruct hh as [|? hh]; [discriminate|]). destruct hh; [|discriminate].
  do 8 (destruct h as [|? h]; [discriminate|]). destruct h; [|discriminate]. reflexivity.
Qed.

(** ** Bytes and words *)

Lemma testbit_cons a y n : in_u8 a -> 0 <= n ->
  Z.testbit (a + 256 * y) n = if n <? 8 then Z.testbit a n else Z.testbit y (n - 8).
Proof.
  intros Ha Hn. unfold in_u8 in Ha. destruct (Z.ltb_spec n 8).
  - rewrite <- (Z.mod_pow2_bits_low (a + 256 * y) 8 n) by lia. f_equal. change (2 ^ 8) with 256.
    rewrite Z.mul_comm, Z_mod_plus_full. apply Z.mod_small. lia.
  - replace n with (n - 8 + 8) at 1 by lia. rewrite <- Z.div_pow2_bits by lia. f_equal. change (2 ^ 8) with 256.
    rewrite Z.mul_comm, Z_div_plus_full, Z.div_small by lia. lia.
Qed.

Lemma testbit_above x n : in_u32 x -> 32 <= n -> Z.testbit x n = false.
Proof.
  intros Hx Hn. unfold in_u32 in Hx. rewrite <- (Z.mod_small x (2 ^ 32)) by (change (2 ^ 32) with 4294967296; lia).
  apply Z.mod_pow2_bits_high. lia.
Qed.

Lemma testbit_ROTR32 x k n : 0 < k < 32 -> 0 <= n < 32 ->
  Z.testbit (FILLP_ROTR32 x k) n = (Z.testbit x (n + k) || Z.testbit x (n - (32 - k)))%bool.
Proof.
  intros Hk Hn. unfold FILLP_ROTR32, u32. rewrite Z.lor_spec, Z.shiftr_spec by lia.
  change 4294967296 with (2 ^ 32). now rewrite Z.mod_pow2_bits_low, Z.shiftl_spec by lia.
Qed.

Lemma SWAP32_reads a b c d : FILLP_SWAP32 (unle [a; b; c; d]) = unbe [a; b; c; d].
Proof.
  assert (Hr : in_u32 (unle [a; b; c; d])) by (apply unle4_range; reflexivity).
  assert (Hr' : in_u32 (unbe [a; b; c; d])) by (apply unbe4_range; reflexivity).
  apply Z.bits_inj'. intros n Hn. destruct (Z.lt_ge_cases n 32).
  2:{ rewrite (testbit_above (unbe _)) by assumption. unfold FILLP_SWAP32.
      rewrite Z.lor_spec, !Z.land_spec, (testbit_above 0x00ff00ff), (testbit_above 0xff00ff00)
        by (unfold in_u32; lia). now rewrite !andb_false_r. }
  unfold FILLP_SWAP32. rewrite Z.lor_spec, !Z.land_spec, !testbit_ROTR32 by lia.
  change (unbe [a; b; c; d]) with (unle [d; c; b; a]).
  assert (Ht : forall x y z w n, 0 <= n < 32 -> Z.testbit (unle [x; y; z; w]) n =
    if n <? 8 then Z.testbit (byteZ x) n else if n - 8 <? 8 then Z.testbit (byteZ y) (n - 8)
    else if n - 8 - 8 <? 8 then Z.testbit (byteZ z) (n - 8 - 8) else Z.testbit (byteZ w) (n - 8 - 8 - 8)).
  { intros x y z w k Hk. cbn [unle]. rewrite testbit_cons by (auto using byteZ_range; lia).
    destruct (Z.ltb_spec k 8); [reflexivity|]. rewrite testbit_cons by (auto using byteZ_range; lia).
    destruct (Z.ltb_spec (k - 8) 8); [reflexivity|]. rewrite testbit_cons by (auto using byteZ_range; lia).
    destruct (Z.ltb_spec (k - 8 - 8) 8); [reflexivity|]. now rewrite Z.mul_0_r, Z.add_0_r. }
  assert (Hneg : forall x k, k < 0 -> Z.testbit x k = false) by (intros; now apply Z.testbit_neg_r).
  assert (Hab : forall k, 32 <= k -> Z.testbit (unle [a; b; c; d]) k = false)
    by (intros; now apply testbit_above).
  assert (He : n ∈ seqZ 0 32) by (apply elem_of_seqZ; lia).
  let l := eval vm_compute in (seqZ 0 32) in change (seqZ 0 32) with l in He.
  repeat (apply elem_of_cons in He as [->|He];
    [repeat match goal with
       | |- context [Z.testbit (Zpos ?p) ?k] =>
         let v := eval vm_compute in (Z.testbit (Zpos p) k) in change (Z.testbit (Zpos p) k) with v
       end;
     rewrite ?andb_false_r, ?andb_true_r, ?orb_false_r, ?orb_false_l;
     rewrite ?Hab, ?(Hneg (unle [a; b; c; d])) by lia; rewrite ?orb_false_r, ?orb_false_l;
     rewrite !Ht by lia; reflexivity|]).
  now apply not_elem_of_nil in He.
Qed.

Lemma length_chunks k n l : length (chunks k n l) = n.
Proof. revert l. induction n; intros l; simpl; auto. Qed.

Lemma chunks_app k n n' a b : length a = (n * k)%nat -> chunks k (n + n') (a ++ b) = chunks k n a ++ chunks k n' b.
Proof.
  revert a. induction n as [|n IH]; intros a Ha.
  - destruct a; [reflexivity|discriminate].
  - cbn [chunks Nat.add app]. rewrite take_app_le, drop_app_le by lia. f_equal. apply IH. rewrite length_drop. lia.
Qed.

Lemma chunks_all k n l : length l = (n * k)%nat -> Forall (fun c => length c = k) (chunks k n l).
Proof.
  revert l. induction n as [|n IH]; intros l Hl; [constructor|]. cbn [chunks]. constructor.
  - rewrite length_take. lia.
  - apply IH. rewrite length_drop. lia.
Qed.

Lemma concat_chunks k n l : length l = (n * k)%nat -> concat (chunks k n l) = l.
Proof.
  revert l. induction n as [|n IH]; intros l Hl; [destruct l; [reflexivity|discriminate]|].
  cbn [chunks concat]. rewrite IH by (rewrite length_drop; lia). apply take_drop.
Qed.

Section HostBytes.

Context (little : bool).

Abbreviation bytesOf := (bytesOf little).
Abbreviation wordsOf := (wordsOf little).

Lemma length_bytesOf w : length (bytesOf w) = (4 * length w)%nat.
Proof.
  induction w as [|x w IH]; [reflexivity|]. unfold bytesOf in *. cbn [map concat length].
  rewrite length_app, IH. unfold memOf. destruct little; rewrite ?length_le, ?length_be; lia.
Qed.

Lemma wordsOf_chunks n l : length l = (n * 4)%nat -> wordsOf l = map (ofMem little) (chunks 4 n l).
Proof. intros H. unfold wordsOf. rewrite H, Nat.div_mul by lia. reflexivity. Qed.

Lemma bytesOf_wordsOf n l : length l = (n * 4)%nat -> bytesOf (wordsOf l) = l.
Proof.
  intros H. rewrite (wordsOf_chunks n l H). unfold bytesOf. rewrite map_map.
  rewrite <- (concat_chunks 4 n l H) at 2. f_equal.
  pose proof (chunks_all 4 n l H) as Hc. induction Hc as [|c cs Hc _ IH]; [reflexivity|]. cbn [map].
  f_equal; [|exact IH]. rewrite <- Hc. apply memOf_ofMem.
Qed.

Lemma length_wordsOf n l : length l = (n * 4)%nat -> length (wordsOf l) = n.
Proof. intros H. now rewrite (wordsOf_chunks n l H), length_map, length_chunks. Qed.

Lemma wordsOf_app n a b : length a = (n * 4)%nat -> (exists k, length b = (k * 4)%nat) ->
  wordsOf (a ++ b) = wordsOf a ++ wordsOf b.
Proof.
  intros Ha [k Hb]. rewrite (wordsOf_chunks (n + k)), (wordsOf_chunks n a Ha), (wordsOf_chunks k b Hb)
    by (rewrite length_app; lia).
  now rewrite chunks_app, map_app.
Qed.

(** The exchange of bytes changes a prefix of the words. *)
Lemma swapLoop_prefix n w : (n <= length w)%nat -> swapLoop n w = map FILLP_SWAP32 (take n w) ++ drop n w.
Proof.
  revert w. induction n as [|n IH]; intros w Hn; [now rewrite drop_0|].
  cbn [swapLoop]. unfold set, get. rewrite Nat2Z.id.
  destruct (w !! n) as [x|] eqn:E; [|apply lookup_ge_None in E; lia].
  rewrite IH by (rewrite length_insert; lia).
  rewrite take_insert_ge by lia. rewrite (take_S_r _ _ _ E), map_app, <- app_assoc. f_equal.
  rewrite nth_lookup, E. cbn [default]. rewrite insert_take_drop by lia. rewrite drop_app_length'; [reflexivity|].
  rewrite length_take. lia.
Qed.

(** The words of a prefix of the buffer after the exchange are big-endian. *)
Lemma swapped_words n a b k : length a = (n * 4)%nat -> length b = (k * 4)%nat ->
  FILLP_SWAP_32_ARRAY little (wordsOf (a ++ b)) (Z.of_nat n) = map unbe (chunks 4 n a) ++ wordsOf b.
Proof.
  intros Ha Hb. rewrite (wordsOf_app n) by eauto. unfold FILLP_SWAP_32_ARRAY.
  pose proof (length_wordsOf n a Ha) as Hl. rewrite (wordsOf_chunks n a Ha) in *.
  unfold ofMem in *. destruct little; [|reflexivity].
  rewrite Nat2Z.id, swapLoop_prefix by (rewrite length_app; lia).
  rewrite take_app_length', drop_app_length' by lia. f_equal.
  rewrite map_map. clear Hl. pose proof (chunks_all 4 n a Ha) as Hc.
  induction Hc as [|c cs Hc _ IH]; [reflexivity|]. cbn [map]. f_equal; [|exact IH].
  destruct c as [|? [|? [|? [|? [|]]]]]; try discriminate. apply SWAP32_reads.
Qed.

Lemma swapped_block b : length b = 64%nat ->
  FILLP_SWAP_32_ARRAY little (wordsOf b) 16 = Fips.blockWords b.
Proof.
  intros Hb. pose proof (swapped_words 16 b [] 0 Hb eq_refl) as H. rewrite app_nil_r in H.
  change (Z.of_nat 16) with 16 in H. rewrite H. apply app_nil_r.
Qed.

(** ** Absorbing a message *)

Lemma length_compress h m : length h = 8%nat -> length (Fips.compress h m) = 8%nat.
Proof. intros H. unfold Fips.compress. rewrite length_zip_with, H. reflexivity. Qed.

Lemma length_absorb h m : length h = 8%nat -> length (Fips.absorb h m) = 8%nat.
Proof.
  unfold Fips.absorb. generalize (chunks 64 (length m / 64) m). intros l. revert h.
  induction l as [|b l IH]; intros h Hh; [exact Hh|]. cbn [fold_left]. apply IH, length_compress, Hh.
Qed.

Definition blocks (l : list byte) : Prop := exists k, length l = (k * 64)%nat.

Lemma absorb_app h a b : blocks a -> Fips.absorb h (a ++ b) = Fips.absorb (Fips.absorb h a) b.
Proof.
  intros [k Hk]. unfold Fips.absorb. rewrite length_app, Hk, Nat.div_mul by lia.
  replace ((k * 64 + length b) / 64)%nat with (k + length b / 64)%nat
    by (rewrite (Nat.add_comm (k * 64)), Nat.div_add by lia; lia).
  now rewrite chunks_app, fold_left_app.
Qed.

Lemma absorb_block h b : length b = 64%nat -> Fips.absorb h b = Fips.compress h (Fips.blockWords b).
Proof.
  intros Hb. unfold Fips.absorb. rewrite Hb. change (64 / 64)%nat with 1%nat. cbn [chunks fold_left].
  rewrite take_ge by lia. reflexivity.
Qed.

(** The context holds the blocks [F] in its hash and the bytes [R] in its buffer. *)
Record rep (ctx : FillpSha256Ctx) (F R : list byte) : Prop := {
  rep_F : blocks F;
  rep_R : (length R < 64)%nat;
  rep_hash : hash ctx = Fips.absorb Fips.H0 F;
  rep_wbuf : length (wbuf ctx) = 16%nat;
  rep_bytes : R <> [] -> exists J, length (R ++ J) = 64%nat /\ wbuf ctx = wordsOf (R ++ J)
}.

Lemma rep_length_hash ctx F R : rep ctx F R -> length (hash ctx) = 8%nat.
Proof. intros H. rewrite (rep_hash _ _ _ H). apply length_absorb. reflexivity. Qed.

Lemma storeBytes_ok ctx F R D : rep ctx F R -> (length R + length D <= 64)%nat ->
  exists J, length (R ++ D ++ J) = 64%nat /\
    storeBytes little ctx (Z.of_nat (length R)) D = Some (setWbuf ctx (wordsOf (R ++ D ++ J))).
Proof.
  intros [HF HR Hh Hw Hb] Hl.
  assert (exists J, length (R ++ J) = 64%nat /\ bytesOf (wbuf ctx) = R ++ J) as (J & HJ & HB).
  { destruct R as [|x R].
    - exists (bytesOf (wbuf ctx)). split; [cbn [app]; rewrite length_bytesOf; lia|reflexivity].
    - destruct (Hb ltac:(discriminate)) as (J & H1 & H2). exists J. split; [exact H1|].
      rewrite H2. apply (bytesOf_wordsOf 16). exact H1. }
  exists (drop (length D) J). rewrite !length_app, length_drop in *. split; [lia|].
  unfold storeBytes. rewrite HB, <- (take_drop (length D) J) at 1.
  rewrite writeAt_app; [reflexivity|reflexivity|]. rewrite length_take. lia.
Qed.

(** A full buffer is compressed. *)
Lemma fill_block ctx F R D : rep ctx F R -> (length R + length D = 64)%nat ->
  exists c, storeBytes little ctx (Z.of_nat (length R)) D = Some c /\
    let c' := FillpSha256Compile (setWbuf c (FILLP_SWAP_32_ARRAY little (wbuf c) 16)) in
    rep c' (F ++ R ++ D) [] /\ count0 c' = count0 ctx /\ count1 c' = count1 ctx.
Proof.
  intros Hr Hl. destruct (storeBytes_ok ctx F R D Hr ltac:(lia)) as (J & HJ & ->).
  eexists. split; [reflexivity|]. cbv zeta. cbn [wbuf setWbuf].
  assert (J = []) as -> by (rewrite !length_app in HJ; apply length_zero_iff_nil; lia).
  rewrite app_nil_r in HJ. rewrite app_nil_r, swapped_block by assumption.
  set (c := setWbuf _ _). destruct (FillpSha256Compile_compress c) as (buf & Hbuf & ->).
  { apply (rep_length_hash _ _ _ Hr). }
  { unfold c, setWbuf. cbn [wbuf]. unfold Fips.blockWords. now rewrite length_map, length_chunks. }
  destruct Hr as [[k HF] HR Hh Hw Hb]. split; [|split; reflexivity]. constructor; cbn [hash wbuf setWbuf c].
  - exists (k + 1)%nat. rewrite length_app, HF, length_app. lia.
  - cbn. lia.
  - rewrite absorb_app, (absorb_block _ (R ++ D)) by (exists k || rewrite length_app; assumption || lia).
    now rewrite Hh.
  - exact Hbuf.
  - congruence.
Qed.

Lemma updLoop_ok fuel : forall ctx F R A D C,
  rep ctx F R -> (length R + length D < 64 * S fuel)%nat ->
  exists ctx' F' R' A' D',
    updLoop little fuel (A ++ D ++ C) ctx (Z.of_nat (length A)) (Z.of_nat (length D)) (Z.of_nat (length R))
      (64 - Z.of_nat (length R)) =
    Some (ctx', (Z.of_nat (length A'), Z.of_nat (length D'), Z.of_nat (length R'), 64 - Z.of_nat (length R')), false) /\
    A ++ D = A' ++ D' /\ F ++ R ++ D = F' ++ R' ++ D' /\ rep ctx' F' R' /\ (length R' + length D' < 64)%nat /\
    count0 ctx' = count0 ctx /\ count1 ctx' = count1 ctx.
Proof.
  induction fuel as [|fuel IH]; intros ctx F R A D C Hr Hf; cbn [updLoop].
  - destruct (Z.leb_spec (64 - Z.of_nat (length R)) (Z.of_nat (length D))); [lia|]. cbn [negb].
    exists ctx, F, R, A, D. repeat (split; [reflexivity || assumption || lia|]). reflexivity.
  - destruct (Z.leb_spec (64 - Z.of_nat (length R)) (Z.of_nat (length D))); cbn [negb].
    2:{ exists ctx, F, R, A, D. repeat (split; [reflexivity || assumption || lia|]). reflexivity. }
    pose proof (rep_R _ _ _ Hr) as HR.
    assert (memcpy_s (64 - Z.of_nat (length R)) (64 - Z.of_nat (length R)) = true) as -> by (apply memcpy_s_spec; lia).
    cbn [negb].
    set (D1 := take (64 - length R) D). set (D2 := drop (64 - length R) D).
    assert (HD : D = D1 ++ D2) by (symmetry; apply take_drop).
    assert (HD1 : (length R + length D1 = 64)%nat) by (unfold D1; rewrite length_take; lia).
    rewrite HD, <- (app_assoc D1), readAt_app by lia. cbn [mbind option_bind].
    destruct (fill_block ctx F R D1 Hr HD1) as (c & -> & Hc & Hn0 & Hn1). cbn [mbind option_bind].
    change (Z.shiftr FILLP_SHA256_BLOCK_SIZE 2) with 16. set (c' := FillpSha256Compile _) in *.
    destruct (IH c' (F ++ R ++ D1) [] (A ++ D1) D2 C Hc) as (x & F' & R' & A' & D' & E & E1 & E2 & E3 & E4 & E5 & E6).
    { unfold D2. rewrite length_drop. cbn [length]. lia. }
    exists x, F', R', A', D'. rewrite <- E, <- E1. split; [|split; [now rewrite <- app_assoc|]].
    + change (Z.of_nat (length (@nil byte))) with 0. change (64 - 0) with FILLP_SHA256_BLOCK_SIZE.
      f_equal; [now rewrite <- app_assoc| |]; rewrite ?length_app; lia.
    + rewrite <- E2, E5, E6, Hn0, Hn1. cbn [app]. rewrite <- !app_assoc. auto.
Qed.

(** The number of bytes, in two words. *)
Definition counted (ctx : FillpSha256Ctx) (n : Z) : Prop :=
  count0 ctx = u32 n /\ count1 ctx = u32 (n / 4294967296).

(** The context has absorbed [m]. *)
Definition holds (ctx : FillpSha256Ctx) (m : list byte) : Prop :=
  counted ctx (Z.of_nat (length m)) /\ exists F R, m = F ++ R /\ rep ctx F R.

Lemma FillpSha256Set_holds ctx : length (wbuf ctx) = 16%nat -> holds (FillpSha256Set ctx) [].
Proof.
  intros Hw. split; [split; reflexivity|]. exists [], []. split; [reflexivity|].
  constructor; cbn [FillpSha256Set hash wbuf].
  - now exists 0%nat.
  - cbn. lia.
  - change (memcpy_s 32 32) with true. rewrite g_i256_H0. reflexivity.
  - exact Hw.
  - congruence.
Qed.

Lemma block_offset F R n : blocks F -> (length R < 64)%nat -> n = Z.of_nat (length (F ++ R)) ->
  Z.land (u32 n) FILLP_SHA256_MASK = Z.of_nat (length R).
Proof.
  intros [k Hk] HR ->. unfold FILLP_SHA256_MASK. change (FILLP_SHA256_BLOCK_SIZE - 1) with (2 ^ 6 - 1).
  rewrite land_pow2_mask, u32_mod_pow2 by lia. rewrite length_app, Hk. change (2 ^ 6) with 64.
  symmetry. apply (Z.mod_unique _ _ (Z.of_nat k)); lia.
Qed.

Lemma counted_add ctx n d h w : 0 <= n -> 0 <= d < 4294967296 -> counted ctx n ->
  let c0 := u32 (count0 ctx + u32 d) in
  counted (mkCtx c0 (if c0 <? d then u32 (count1 ctx + 1) else count1 ctx) h w) (n + d).
Proof.
  intros Hn Hd [-> ->]. unfold counted. cbn [count0 count1].
  assert (E : u32 (u32 n + u32 d) = u32 (n + d)) by (now rewrite u32_add_l, u32_add_r).
  split; [exact E|]. rewrite E. unfold u32.
  pose proof (Z.div_mod n 4294967296 ltac:(lia)). pose proof (Z.mod_pos_bound n 4294967296 ltac:(lia)).
  set (q := n / 4294967296) in *. set (r := n mod 4294967296) in *. rewrite H.
  destruct (Z.lt_ge_cases (r + d) 4294967296).
  - replace ((4294967296 * q + r + d) mod 4294967296) with (r + d)
      by (apply (Z.mod_unique _ _ q); lia).
    replace ((4294967296 * q + r + d) / 4294967296) with q by (apply (Z.div_unique _ _ _ (r + d)); lia).
    destruct (Z.ltb_spec (r + d) d); [lia|reflexivity].
  - replace ((4294967296 * q + r + d) mod 4294967296) with (r + d - 4294967296)
      by (apply (Z.mod_unique _ _ (q + 1)); lia).
    replace ((4294967296 * q + r + d) / 4294967296) with (q + 1)
      by (apply (Z.div_unique _ _ _ (r + d - 4294967296)); lia).
    destruct (Z.ltb_spec (r + d - 4294967296) d); [|lia]. apply Zplus_mod_idemp_l.
Qed.

(** [FillpSha256Upd] absorbs its data. *)
Lemma FillpSha256Upd_holds ctx m D C : holds ctx m -> Z.of_nat (length D) < 4294967296 ->
  exists ctx', FillpSha256Upd little ctx (D ++ C) (Z.of_nat (length D)) = Some ctx' /\ holds ctx' (m ++ D).
Proof.
  intros [Hc (F & R & -> & Hr)] HD. unfold FillpSha256Upd.
  pose proof (counted_add ctx (Z.of_nat (length (F ++ R))) (Z.of_nat (length D)) (hash ctx) (wbuf ctx) ltac:(lia) ltac:(lia) Hc) as Hc'.
  cbv zeta in Hc'. set (c := mkCtx _ _ _ _) in *.
  rewrite (proj1 Hc), (block_offset F R) by (reflexivity || apply Hr). cbv zeta.
  assert (Hrc : rep c F R) by (destruct Hr; constructor; assumption).
  unfold FILLP_SHA256_BLOCK_SIZE.
  destruct (updLoop_ok (S (Z.to_nat (Z.of_nat (length D) / 64))) c F R [] D C Hrc)
    as (c' & F' & R' & A' & D' & E & E1 & E2 & E3 & E4 & E5 & E6).
  { pose proof (rep_R _ _ _ Hr). pose proof (Z.div_mod (Z.of_nat (length D)) 64 ltac:(lia)).
    pose proof (Z.mod_pos_bound (Z.of_nat (length D)) 64 ltac:(lia)). lia. }
  cbn [app length] in E. change (Z.of_nat 0) with 0 in E.
  rewrite E. cbn [mbind option_bind].
  assert (Hn : Z.of_nat (length ((F ++ R) ++ D)) = Z.of_nat (length (F ++ R)) + Z.of_nat (length D))
    by (rewrite (length_app (F ++ R)); lia).
  assert (Hcnt : counted c' (Z.of_nat (length ((F ++ R) ++ D)))).
  { rewrite Hn. unfold counted. rewrite E5, E6. exact Hc'. }
  rewrite <- app_assoc in Hcnt |- *. rewrite E2 in Hcnt |- *.
  assert (Hl : (length A' + length D' = length D)%nat) by (rewrite <- length_app, <- E1; reflexivity).
  destruct (Z.eqb_spec (Z.of_nat (length D')) 0).
  - assert (D' = []) as -> by (apply length_zero_iff_nil; lia).
    exists c'. split; [reflexivity|]. split; [exact Hcnt|]. exists F', R'. rewrite app_nil_r. auto.
  - rewrite u32_small by (unfold in_u32; lia).
    assert (memcpy_s (64 - Z.of_nat (length R')) (Z.of_nat (length D')) = true) as -> by (apply memcpy_s_spec; lia).
    cbn [negb]. cbn [app] in E1. rewrite E1, <- app_assoc, readAt_app by reflexivity. cbn [mbind option_bind].
    destruct (storeBytes_ok c' F' R' D' E3 ltac:(lia)) as (J & HJ & ->).
    eexists. split; [reflexivity|]. split; [exact Hcnt|]. exists F', (R' ++ D'). split; [reflexivity|].
    destruct E3. constructor; cbn [setWbuf hash wbuf]; try assumption.
    + rewrite length_app. lia.
    + now apply length_wordsOf.
    + intros _. exists J. now rewrite <- app_assoc.
Qed.

(** ** Padding *)

Abbreviation zeros n := (replicate n (Zbyte 0)).
Abbreviation bw n l := (map unbe (chunks 4 n l)).

Lemma bw_app n k a b : length a = (n * 4)%nat -> bw (n + k)%nat (a ++ b) = bw n a ++ bw k b.
Proof. intros H. now rewrite chunks_app, map_app. Qed.

Lemma bw_zeros n : bw n (zeros (4 * n)) = replicate n 0.
Proof.
  induction n as [|n IH]; [reflexivity|]. replace (4 * S n)%nat with (4 + 4 * n)%nat by lia.
  rewrite replicate_add, (bw_app 1 n) by reflexivity. rewrite IH. reflexivity.
Qed.

Lemma bw_one l : length l = 4%nat -> bw 1 l = [unbe l].
Proof. intros H. cbn [chunks map]. rewrite take_ge by lia. reflexivity. Qed.

Lemma be4_shifts w : be 4 w = [Zbyte (Z.shiftr w 24); Zbyte (Z.shiftr w 16); Zbyte (Z.shiftr w 8); Zbyte (Z.shiftr w 0)].
Proof.
  unfold be. rewrite !Z.shiftr_div_pow2 by lia. cbn [le]. rewrite !Z.div_div by lia.
  change (2 ^ 0) with 1. rewrite Z.div_1_r. reflexivity.
Qed.

(** The length of the message, in the last two words. *)
Lemma bw_length x : 0 <= x < 2 ^ 64 -> bw 2 (be 8 x) = [x / 4294967296; u32 x].
Proof.
  intros Hx. assert (E : be 8 x = be 4 (x / 4294967296) ++ be 4 x).
  { unfold be. rewrite <- reverse_app. f_equal. cbn [le app]. rewrite !Z.div_div by lia. reflexivity. }
  rewrite E, (bw_app 1 1), !bw_one, !unbe_be_u32 by apply length_be. cbn [app]. f_equal.
  apply u32_small. unfold in_u32. split; [apply Z.div_pos; lia|]. apply Z.div_lt_upper_bound; [lia|].
  change (2 ^ 64) with 18446744073709551616 in Hx. lia.
Qed.

Lemma lor_double_1 y : 0 <= y -> Z.lor (2 * y) 1 = 2 * y + 1.
Proof. destruct y; [reflexivity|reflexivity|lia]. Qed.

(** Clearing everything below the padding bit and setting it. *)
Lemma mask_word x k : in_u32 x -> 0 <= k < 31 ->
  Z.lor (Z.land x (Z.ldiff (Z.ones 32) (Z.ones k))) (2 ^ k) = (x / 2 ^ (k + 1)) * 2 ^ (k + 1) + 2 ^ k.
Proof.
  intros Hx Hk. pose proof (Z.div_pos x (2 ^ (k + 1)) ltac:(unfold in_u32 in Hx; lia) ltac:(apply Z.pow_pos_nonneg; lia)).
  transitivity (Z.shiftl (Z.lor (2 * (x / 2 ^ (k + 1))) 1) k).
  2:{ rewrite lor_double_1, Z.shiftl_mul_pow2 by lia. rewrite (Z.pow_add_r 2 k 1) by lia. lia. }
  apply Z.bits_inj'. intros n Hn.
  rewrite Z.lor_spec, Z.land_spec, Z.ldiff_spec, !Z.testbit_ones_nonneg, Z.shiftl_spec, Z.pow2_bits_eqb by lia.
  destruct (Z.lt_ge_cases n k).
  { destruct (Z.ltb_spec n k), (Z.eqb_spec k n); try lia. rewrite (Z.testbit_neg_r _ (n - k)) by lia.
    cbn [negb]. now rewrite !andb_false_r. }
  rewrite Z.lor_spec. destruct (Z.eq_dec n k) as [->|].
  { rewrite Z.eqb_refl, Z.sub_diag, orb_true_r. symmetry. apply orb_true_r. }
  destruct (Z.eqb_spec k n), (Z.ltb_spec n k); try lia. cbn [negb].
  rewrite orb_false_r, andb_true_r. change 1 with (Z.ones 1) at 2.
  rewrite (Z.testbit_ones_nonneg 1) by lia. destruct (Z.ltb_spec (n - k) 1); [lia|]. rewrite orb_false_r.
  rewrite Z.double_bits by lia. rewrite Z.div_pow2_bits by lia.
  replace (Z.pred (n - k) + (k + 1)) with n by lia.
  destruct (Z.ltb_spec n 32); [apply andb_true_r|]. rewrite testbit_above by (assumption || lia). reflexivity.
Qed.

(** The word with the last [s] bytes [T] of the message and the padding bit. *)
Definition padWord (x : Z) (s : Z) : Z :=
  Z.lor (Z.land x (u32 (Z.shiftl 0xffffff80 (8 * (3 - s))))) (u32 (Z.shiftl 0x00000080 (8 * (3 - s)))).

Lemma padWord_empty x : padWord x 0 = unbe (Zbyte 0x80 :: zeros 3).
Proof.
  unfold padWord. change (u32 (Z.shiftl 0xffffff80 (8 * (3 - 0)))) with 0x80000000.
  change (u32 (Z.shiftl 0x00000080 (8 * (3 - 0)))) with 0x80000000.
  change (unbe (Zbyte 0x80 :: zeros 3)) with 0x80000000.
  bitwise. destruct (Z.testbit x n), (Z.testbit 2147483648 n); reflexivity.
Qed.

Lemma padWord_tail T j : (0 < length T < 4)%nat -> length (T ++ j) = 4%nat ->
  padWord (unbe (T ++ j)) (Z.of_nat (length T)) = unbe (T ++ Zbyte 0x80 :: zeros (3 - length T)).
Proof.
  intros HT Hj. pose proof (unbe4_range (T ++ j) Hj) as Hr. rewrite length_app in Hj.
  pose proof byteZ_range as Hb. unfold in_u8 in Hb.
  destruct T as [|t1 [|t2 [|t3 [|]]]]; cbn [length] in *; try lia;
    destruct j as [|j1 [|j2 [|j3 [|]]]]; cbn [length] in *; try lia; unfold padWord.
  - change (u32 (Z.shiftl 0xffffff80 _)) with (Z.ldiff (Z.ones 32) (Z.ones 23)).
    change (u32 (Z.shiftl 0x00000080 _)) with (2 ^ 23). rewrite mask_word by (assumption || lia).
    cbn. pose proof (Hb t1). pose proof (Hb j1). pose proof (Hb j2). pose proof (Hb j3).
    rewrite <- (Z.div_unique _ 16777216 (byteZ t1) (byteZ j3 + 256 * (byteZ j2 + 256 * byteZ j1))) by lia.
    change (byteZ (Zbyte 128)) with 128. change (byteZ (Zbyte 0)) with 0. lia.
  - change (u32 (Z.shiftl 0xffffff80 _)) with (Z.ldiff (Z.ones 32) (Z.ones 15)).
    change (u32 (Z.shiftl 0x00000080 _)) with (2 ^ 15). rewrite mask_word by (assumption || lia).
    cbn. pose proof (Hb t1). pose proof (Hb t2). pose proof (Hb j1). pose proof (Hb j2).
    rewrite <- (Z.div_unique _ 65536 (byteZ t2 + 256 * byteZ t1) (byteZ j2 + 256 * byteZ j1)) by lia.
    change (byteZ (Zbyte 128)) with 128. change (byteZ (Zbyte 0)) with 0. lia.
  - change (u32 (Z.shiftl 0xffffff80 _)) with (Z.ldiff (Z.ones 32) (Z.ones 7)).
    change (u32 (Z.shiftl 0x00000080 _)) with (2 ^ 7). rewrite mask_word by (assumption || lia).
    cbn. pose proof (Hb t1). pose proof (Hb t2). pose proof (Hb t3). pose proof (Hb j1).
    rewrite <- (Z.div_unique _ 256 (byteZ t3 + 256 * (byteZ t2 + 256 * byteZ t1)) (byteZ j1)) by lia.
    change (byteZ (Zbyte 128)) with 128. lia.
Qed.

Lemma get_middle A x X i : i = Z.of_nat (length A) -> get (A ++ x :: X) i = x.
Proof. intros ->. unfold get. now rewrite Nat2Z.id, nth_lookup, list_lookup_middle. Qed.

Lemma set_middle A x X i v : i = Z.of_nat (length A) -> set (A ++ x :: X) i v = A ++ v :: X.
Proof. intros ->. unfold set. rewrite Nat2Z.id, insert_app_r_alt, Nat.sub_diag by lia. reflexivity. Qed.

(** The buffer after the exchange of bytes: the word [x] holds what follows the
    complete words of the message. *)
Lemma swapped_tail ctx F R : rep ctx F R ->
  let q := (length R / 4)%nat in let s := (length R mod 4)%nat in
  exists x X, length X = (15 - q)%nat /\
    FILLP_SWAP_32_ARRAY little (wbuf ctx) (Z.shiftr (Z.of_nat (length R) + 3) 2) = bw q (take (4 * q) R) ++ x :: X /\
    (s = 0%nat \/ exists j, length (drop (4 * q) R ++ j) = 4%nat /\ x = unbe (drop (4 * q) R ++ j)).
Proof.
  intros [HF HR Hh Hw Hb] q s. pose proof (Nat.div_mod_eq (length R) 4) as Hdm. fold q s in Hdm.
  pose proof (Nat.mod_upper_bound (length R) 4 ltac:(lia)) as Hs. fold s in Hs.
  assert (Hl1 : length (take (4 * q) R) = (q * 4)%nat) by (rewrite length_take; lia).
  assert (Hl2 : length (drop (4 * q) R) = s) by (rewrite length_drop; lia).
  rewrite Z.shiftr_div_pow2 by lia. change (2 ^ 2) with 4.
  assert (Hq : (Z.of_nat (length R) + 3) / 4 = Z.of_nat (if decide (s = 0)%nat then q else S q)).
  { destruct (decide (s = 0%nat)); symmetry;
      [apply (Z.div_unique _ _ _ 3)|apply (Z.div_unique _ _ _ (Z.of_nat s - 1))]; lia. }
  rewrite Hq. clear Hq. destruct (decide (R = [])) as [->|Hne].
  { change q with 0%nat. change s with 0%nat. cbn [decide decide_rel]. destruct (wbuf ctx) as [|x X]; [discriminate|].
    exists x, X. split; [cbn in *; lia|]. split; [|now left].
    unfold FILLP_SWAP_32_ARRAY. destruct little; reflexivity. }
  destruct (Hb Hne) as (J & HJ & ->). rewrite length_app in HJ.
  replace (wordsOf (R ++ J)) with (wordsOf ((take (4 * q) R ++ drop (4 * q) R) ++ J)) by (now rewrite take_drop).
  destruct (decide (s = 0%nat)) as [Hs0|Hs0].
  - assert (drop (4 * q) R = []) as -> by (apply length_zero_iff_nil; lia). rewrite app_nil_r.
    rewrite (swapped_words q _ J (16 - q)) by lia.
    pose proof (length_wordsOf (16 - q) J ltac:(lia)) as HwJ.
    destruct (wordsOf J) as [|x X]; cbn [length] in HwJ; [lia|]. exists x, X. split; [lia|]. split; [reflexivity|now left].
  - set (T := drop (4 * q) R) in *. set (j := take (4 - s) J). set (J' := drop (4 - s) J).
    assert (HJ' : J = j ++ J') by (symmetry; apply take_drop).
    assert (Hj : length (T ++ j) = 4%nat) by (unfold j; rewrite length_app, length_take; lia).
    replace ((take (4 * q) R ++ T) ++ J) with ((take (4 * q) R ++ (T ++ j)) ++ J')
      by (rewrite HJ', <- !app_assoc; reflexivity).
    rewrite (swapped_words (S q) _ J' (15 - q))
      by (rewrite ?(length_app (take (4 * q) R)), ?Hj, ?Hl1; unfold J'; rewrite ?length_drop; lia).
    exists (unbe (T ++ j)), (wordsOf J'). split; [apply length_wordsOf; unfold J'; rewrite length_drop; lia|].
    split; [|right; now exists j].
    replace (S q) with (q + 1)%nat by lia. rewrite (bw_app q 1), bw_one, <- app_assoc by assumption. reflexivity.
Qed.

Lemma shf_bits n : 8 * Z.land (Z.lnot (Z.of_nat n)) 3 = 8 * (3 - Z.of_nat (n mod 4)).
Proof.
  change 3 with (2 ^ 2 - 1) at 1. rewrite land_pow2_mask by lia. change (2 ^ 2) with 4. f_equal.
  unfold Z.lnot. rewrite Nat2Z.inj_mod. change (Z.of_nat 4) with 4.
  symmetry. apply (Z.mod_unique _ _ (- (Z.of_nat n / 4) - 1)).
  - left. pose proof (Z.mod_pos_bound (Z.of_nat n) 4 ltac:(lia)). lia.
  - pose proof (Z.div_mod (Z.of_nat n) 4 ltac:(lia)). lia.
Qed.

(** The buffer with the padding bit set. *)
Lemma padded_words ctx F R : rep ctx F R ->
  let r := Z.of_nat (length R) in let q := (length R / 4)%nat in
  let w := FILLP_SWAP_32_ARRAY little (wbuf ctx) (Z.shiftr (r + 3) 2) in
  let sh := 8 * Z.land (Z.lnot r) 3 in let i := Z.shiftr r 2 in
  let w := set w i (Z.land (get w i) (u32 (Z.shiftl 0xffffff80 sh))) in
  let w := set w i (Z.lor (get w i) (u32 (Z.shiftl 0x00000080 sh))) in
  exists X, length X = (15 - q)%nat /\
    w = bw (q + 1)%nat (R ++ Zbyte 0x80 :: zeros (3 - length R mod 4)) ++ X.
Proof.
  intros Hr r q. destruct (swapped_tail ctx F R Hr) as (x & X & HX & Hw & Hx). fold q in HX, Hw, Hx.
  fold r in Hw. cbv zeta. rewrite Hw. unfold r. rewrite shf_bits.
  assert (Hi : Z.shiftr (Z.of_nat (length R)) 2 = Z.of_nat (length (bw q (take (4 * q) R)))).
  { rewrite length_map, length_chunks. unfold q. rewrite Nat2Z.inj_div. now rewrite Z.shiftr_div_pow2 by lia. }
  rewrite Hi, (get_middle _ x), (set_middle _ x), get_middle, set_middle by reflexivity.
  exists X. split; [exact HX|]. change (Z.lor _ _) with (padWord x (Z.of_nat (length R mod 4))).
  pose proof (Nat.div_mod_eq (length R) 4) as Hdm. fold q in Hdm.
  pose proof (Nat.mod_upper_bound (length R) 4 ltac:(lia)) as Hs.
  replace (bw (q + 1)%nat (R ++ _)) with
    (bw (q + 1)%nat (take (4 * q) R ++ drop (4 * q) R ++ Zbyte 0x80 :: zeros (3 - length R mod 4)))
    by (now rewrite app_assoc, take_drop).
  rewrite (bw_app q 1) by (rewrite length_take; lia).
  rewrite <- app_assoc. f_equal. rewrite bw_one
    by (rewrite length_app, length_drop; cbn [length]; rewrite length_replicate; lia).
  cbn [app]. f_equal. assert (Hd : length (drop (4 * q) R) = (length R mod 4)%nat) by (rewrite length_drop; lia).
  destruct Hx as [Hx|(j & Hj & ->)].
  - rewrite Hx in Hd |- *. apply length_zero_iff_nil in Hd. rewrite Hd. apply padWord_empty.
  - destruct (decide (length R mod 4 = 0)%nat) as [H0|H0].
    + rewrite H0 in Hd |- *. apply length_zero_iff_nil in Hd. rewrite Hd. apply padWord_empty.
    + rewrite <- Hd. apply padWord_tail; [lia|exact Hj].
Qed.

Lemma zeroFrom_middle n P Q S' : (length P + length Q = 14)%nat -> (length Q <= n)%nat ->
  zeroFrom n (Z.of_nat (length P)) (P ++ Q ++ S') = P ++ replicate (length Q) 0 ++ S'.
Proof.
  revert P Q. induction n as [|n IH]; intros P Q HP HQ.
  - destruct Q; [reflexivity|cbn in HQ; lia].
  - cbn [zeroFrom]. destruct Q as [|y Q].
    + destruct (Z.ltb_spec (Z.of_nat (length P)) 14); [cbn in HP; lia|reflexivity].
    + cbn [length] in HP, HQ. destruct (Z.ltb_spec (Z.of_nat (length P)) 14); [|lia].
      cbn [app]. rewrite set_middle by reflexivity.
      specialize (IH (P ++ [0]) Q). rewrite length_app in IH. cbn [length] in IH.
      replace (P ++ 0 :: Q ++ S') with ((P ++ [0]) ++ Q ++ S') by (rewrite <- app_assoc; reflexivity).
      replace (Z.of_nat (length P) + 1) with (Z.of_nat (length P + 1)) by lia.
      rewrite IH by lia. cbn [length replicate]. now rewrite <- app_assoc.
Qed.

Lemma zeroFrom_all w : length w = 16%nat -> zeroFrom 14 0 w = replicate 14 0 ++ drop 14 w.
Proof. intros H. do 16 (destruct w as [|? w]; [discriminate|]). destruct w; [reflexivity|discriminate]. Qed.

Lemma hashOut_prefix n k h : forall off l, hashOut (n + k) off h = Some l -> hashOut n off h = Some (take n l).
Proof.
  induction n as [|n IH]; intros off l H; [reflexivity|]. cbn [hashOut Nat.add] in *.
  destruct (h !! _) as [w|]; [|discriminate].
  destruct (hashOut (n + k) (off + 1) h) as [l'|] eqn:E; [|discriminate].
  cbn [mbind option_bind] in H. injection H as <-. now rewrite (IH _ _ E).
Qed.

Lemma hashOut_full h : length h = 8%nat -> hashOut 32 0 h = Some (concat (map (be 4) h)).
Proof.
  intros Hh. do 8 (destruct h as [|? h]; [discriminate|]). destruct h; [|discriminate].
  cbn [map concat]. rewrite !be4_shifts. reflexivity.
Qed.

Lemma hashOut_ok n h : length h = 8%nat -> 0 <= n <= 32 ->
  hashOut (Z.to_nat n) 0 h = Some (take (Z.to_nat n) (concat (map (be 4) h))).
Proof.
  intros Hh Hn. apply (hashOut_prefix _ (32 - Z.to_nat n)).
  replace (Z.to_nat n + (32 - Z.to_nat n))%nat with 32%nat by lia. now apply hashOut_full.
Qed.

(** The last two words. *)
Lemma length_words ctx n : 0 <= n < 2 ^ 61 -> counted ctx n ->
  [Z.lor (u32 (Z.shiftl (count1 ctx) 3)) (Z.shiftr (count0 ctx) 29); u32 (Z.shiftl (count0 ctx) 3)] =
  bw 2 (be 8 (8 * n)).
Proof.
  change (2 ^ 61) with 2305843009213693952. intros Hn [-> ->].
  rewrite bw_length by (change (2 ^ 64) with 18446744073709551616; lia).
  rewrite !Z.shiftl_mul_pow2, Z.shiftr_div_pow2 by lia. change (2 ^ 3) with 8. change (2 ^ 29) with 536870912.
  assert (Hhi : 0 <= n / 4294967296 < 536870912)
    by (split; [apply Z.div_pos; lia|apply Z.div_lt_upper_bound; lia]).
  f_equal; [|f_equal; unfold u32; rewrite Zmult_mod_idemp_l; f_equal; lia].
  rewrite (u32_small (n / _)) by (unfold in_u32; lia). rewrite u32_small by (unfold in_u32; lia).
  set (c1 := n / 4294967296) in *. set (v := u32 n / 536870912).
  assert (Hv : 0 <= v < 8).
  { pose proof (u32_range n) as Hr. unfold in_u32 in Hr. unfold v.
    split; [apply Z.div_pos; lia|apply Z.div_lt_upper_bound; lia]. }
  assert (Hsum : Z.lor (c1 * 8) v = c1 * 8 + v).
  { assert (He : v = 0 \/ v = 1 \/ v = 2 \/ v = 3 \/ v = 4 \/ v = 5 \/ v = 6 \/ v = 7) by lia.
    rewrite (Z.mul_comm c1). destruct c1 as [|p|p]; [|change (8 * Z.pos p) with (Z.pos p~0~0~0)|lia];
      decompose [or] He; subst v; match goal with H : ?x = _ |- _ => rewrite H end; reflexivity. }
  rewrite Hsum. unfold v, u32, c1.
  pose proof (Z.div_mod n 4294967296 ltac:(lia)) as Hd. pose proof (Z.mod_pos_bound n 4294967296 ltac:(lia)).
  symmetry. pose proof (Z.div_mod (n mod 4294967296) 536870912 ltac:(lia)).
  pose proof (Z.mod_pos_bound (n mod 4294967296) 536870912 ltac:(lia)).
  symmetry. apply (Z.div_unique _ _ _ (8 * ((n mod 4294967296) mod 536870912))); lia.
Qed.

Lemma length_padded R k : length (R ++ Zbyte 0x80 :: zeros k) = (length R + 1 + k)%nat.
Proof. rewrite length_app. cbn [length]. rewrite length_replicate. lia. Qed.

(** Compressing a block of words that are those of [b]. *)
Lemma compile_words ctx F b : blocks F -> hash ctx = Fips.absorb Fips.H0 F -> wbuf ctx = bw 16 b -> length b = 64%nat ->
  hash (FillpSha256Compile ctx) = Fips.absorb Fips.H0 (F ++ b) /\ length (wbuf (FillpSha256Compile ctx)) = 16%nat /\
  count0 (FillpSha256Compile ctx) = count0 ctx /\ count1 (FillpSha256Compile ctx) = count1 ctx.
Proof.
  intros HF Hh Hw Hb. destruct (FillpSha256Compile_compress ctx) as (buf & Hbuf & ->).
  - rewrite Hh. apply length_absorb. reflexivity.
  - now rewrite Hw, length_map, length_chunks.
  - cbn [hash wbuf count0 count1]. rewrite absorb_app, (absorb_block _ b), Hh, Hw by assumption. auto.
Qed.

Lemma bw_padded q k P : length P = (q * 4)%nat -> bw (q + k)%nat (P ++ zeros (4 * k)) = bw q P ++ replicate k 0.
Proof. intros H. now rewrite bw_app, bw_zeros. Qed.

(** The last block: [b] and the length. *)
Lemma last_block c F b n l w S' : blocks F -> hash c = Fips.absorb Fips.H0 F -> counted c l -> 0 <= l < 2 ^ 61 ->
  length b = 56%nat -> length S' = 2%nat -> w = bw 14 b ++ S' -> 0 <= n <= 32 ->
  let w := set w 14 (Z.lor (u32 (Z.shiftl (count1 c) 3)) (Z.shiftr (count0 c) 29)) in
  let w := set w 15 (u32 (Z.shiftl (count0 c) 3)) in
  let c := FillpSha256Compile (setWbuf c w) in
  hashOut (Z.to_nat n) 0 (hash c) =
  Some (take (Z.to_nat n) (concat (map (be 4) (Fips.absorb Fips.H0 (F ++ b ++ be 8 (8 * l)))))).
Proof.
  intros HF Hh Hc Hl Hb HS -> Hn. destruct S' as [|x [|y [|]]]; try discriminate. cbv zeta.
  pose proof (length_words c l Hl Hc) as Hlw.
  set (hi := Z.lor _ _) in *. set (lo := u32 (Z.shiftl (count0 c) 3)) in *.
  rewrite set_middle by (now rewrite length_map, length_chunks).
  replace (bw 14 b ++ hi :: [y]) with ((bw 14 b ++ [hi]) ++ [y]) by (now rewrite <- app_assoc).
  rewrite (set_middle _ y []) by (now rewrite length_app, length_map, length_chunks).
  rewrite <- app_assoc. cbn [app]. rewrite Hlw, <- (bw_app 14 2) by assumption.
  destruct (compile_words (setWbuf c (bw 16 (b ++ be 8 (8 * l)))) F (b ++ be 8 (8 * l))) as (H1 & _);
    [assumption|exact Hh|reflexivity|rewrite length_app, length_be; lia|].
  change (14 + 2)%nat with 16%nat. rewrite H1. apply hashOut_ok; [|exact Hn]. apply length_absorb. reflexivity.
Qed.

(** [FillpSha256Fin] writes the digest of what was absorbed. *)
Lemma FillpSha256Fin_holds ctx m n : holds ctx m -> Z.of_nat (length m) < 2 ^ 61 -> 0 <= n <= 32 ->
  exists ctx', FillpSha256Fin little ctx n = Some (take (Z.to_nat n) (Fips.sha256 m), ctx').
Proof.
  intros [Hc (F & R & -> & Hr)] Hm Hn. set (l := Z.of_nat (length (F ++ R))) in *.
  pose proof (rep_R _ _ _ Hr) as HR. destruct (rep_F _ _ _ Hr) as [k Hk].
  destruct (padded_words ctx F R Hr) as (X & HX & Hw). cbv zeta in Hw.
  set (q := (length R / 4)%nat) in *. set (s := (length R mod 4)%nat) in *.
  assert (Hdm : length R = (4 * q + s)%nat) by apply Nat.div_mod_eq.
  assert (Hs : (s < 4)%nat) by (apply Nat.mod_upper_bound; lia).
  assert (Hl : l = 64 * Z.of_nat k + Z.of_nat (length R)) by (unfold l; rewrite length_app; lia).
  unfold FillpSha256Fin. rewrite (proj1 Hc), (block_offset F R) by (reflexivity || assumption || now exists k).
  rewrite Hw. clear Hw. set (P := R ++ Zbyte 128 :: zeros (3 - s)) in *.
  assert (HP : length P = ((q + 1) * 4)%nat) by (unfold P; rewrite length_padded; lia).
  unfold Fips.sha256, Fips.pad. fold l. change (FILLP_SHA256_BLOCK_SIZE - 9) with 55.
  destruct (Z.ltb_spec 55 (Z.of_nat (length R))).
  - (* two blocks *)
    set (b1 := P ++ zeros (4 * (15 - q))).
    assert (Hb1 : length b1 = 64%nat) by (unfold b1; rewrite length_app, length_replicate; lia).
    assert (Hw1 : (if Z.of_nat (length R) <? 60 then set (bw (q + 1)%nat P ++ X) 15 0 else bw (q + 1)%nat P ++ X) =
      bw 16 b1).
    { transitivity (bw ((q + 1) + (15 - q))%nat b1); [|do 2 f_equal; lia].
      unfold b1. rewrite (bw_padded (q + 1)) by exact HP. destruct (Z.ltb_spec (Z.of_nat (length R)) 60).
      - assert (q = 14%nat) as Eq by lia. rewrite Eq in HX |- *. destruct X as [|x [|]]; try discriminate.
        rewrite set_middle by (rewrite length_map, length_chunks; reflexivity). reflexivity.
      - assert (q = 15%nat) as Eq by lia. rewrite Eq in HX |- *. destruct X; [reflexivity|discriminate]. }
    rewrite Hw1. set (c := setWbuf ctx (bw 16 b1)).
    destruct (compile_words c F b1) as (H1 & H2 & H3 & H4); [now exists k|apply Hr|reflexivity|exact Hb1|].
    set (c1 := FillpSha256Compile c) in *.
    assert (HF1 : blocks (F ++ b1)) by (exists (k + 1)%nat; rewrite length_app; lia).
    assert (Hc1 : counted c1 l) by (unfold counted in *; rewrite H3, H4; exact Hc).
    assert (Hz : zeroFrom 14 0 (wbuf c1) = bw 14 (zeros 56) ++ drop 14 (wbuf c1)).
    { rewrite (zeroFrom_all _ H2). f_equal. }
    assert (Hd : length (drop 14 (wbuf c1)) = 2%nat) by (rewrite length_drop; lia).
    rewrite (last_block c1 (F ++ b1) (zeros 56) n l _ _ HF1 H1 Hc1 ltac:(lia) eq_refl Hd Hz Hn).
    cbn [mbind option_bind]. eexists. do 6 f_equal.
    unfold b1, P. rewrite <- !app_assoc. do 2 f_equal. cbn [app]. f_equal.
    rewrite !app_assoc. f_equal. rewrite <- !replicate_add. f_equal.
    rewrite Hl. rewrite <- (Z.mod_unique _ 64 (- Z.of_nat k - 1) (119 - Z.of_nat (length R))) by lia. lia.
  - set (b := P ++ zeros (4 * (13 - q))).
    assert (Hi : Z.shiftr (Z.of_nat (length R)) 2 + 1 = Z.of_nat (length (bw (q + 1)%nat P))).
    { rewrite length_map, length_chunks, Z.shiftr_div_pow2 by lia. change (2 ^ 2) with (Z.of_nat 4).
      rewrite <- Nat2Z.inj_div. fold q. lia. }
    cbn [wbuf setWbuf]. rewrite Hi.
    assert (Hz : zeroFrom 14 (Z.of_nat (length (bw (q + 1)%nat P))) (bw (q + 1)%nat P ++ X) = bw 14 b ++ drop (13 - q) X).
    { rewrite <- (take_drop (13 - q) X) at 1.
      rewrite zeroFrom_middle by (rewrite ?length_map, ?length_chunks, length_take; lia).
      rewrite app_assoc. f_equal. transitivity (bw ((q + 1) + (13 - q))%nat b); [|do 2 f_equal; lia].
      unfold b. rewrite bw_padded by exact HP. do 2 f_equal. rewrite length_take. lia. }
    assert (HF1 : blocks F) by (now exists k).
    assert (Hb : length b = 56%nat) by (unfold b; rewrite length_app, length_replicate; lia).
    assert (Hd : length (drop (13 - q) X) = 2%nat) by (rewrite length_drop; lia).
    rewrite (last_block (setWbuf ctx (bw (q + 1)%nat P ++ X)) F b n l _ _ HF1 (rep_hash _ _ _ Hr) Hc ltac:(lia) Hb Hd Hz Hn).
    cbn [mbind option_bind]. eexists. do 6 f_equal.
    unfold b, P. rewrite <- !app_assoc. do 2 f_equal. cbn [app]. f_equal.
    rewrite !app_assoc. f_equal. rewrite <- !replicate_add. f_equal.
    rewrite Hl. rewrite <- (Z.mod_unique _ 64 (- Z.of_nat k) (55 - Z.of_nat (length R))) by lia. lia.
Qed.

(** ** Properties *)

(** A context for which the caller absorbs the pieces [ms]. *)
Fixpoint updates (ctx : FillpSha256Ctx) (ms : list (list byte)) : option FillpSha256Ctx :=
  match ms with
  | [] => Some ctx
  | m :: ms' => c ← FillpSha256Upd little ctx m (Z.of_nat (length m)); updates c ms'
  end.

Definition hashPieces (ctx : FillpSha256Ctx) (ms : list (list byte)) (n : Z) : option (list byte) :=
  c ← updates (FillpSha256Set ctx) ms;
  '(d, _) ← FillpSha256Fin little c n;
  Some d.

(** A piece whose length is a 32-bit number, as all callers pass it.  The update
    takes a size_t and carries into the upper half of the bit count at most once. *)
Definition short (m : list byte) : Prop := Z.of_nat (length m) < 4294967296.

Lemma Upd_whole ctx m d : holds ctx m -> short d ->
  exists ctx', FillpSha256Upd little ctx d (Z.of_nat (length d)) = Some ctx' /\ holds ctx' (m ++ d).
Proof. intros H Hd. pose proof (FillpSha256Upd_holds ctx m d [] H Hd) as E. now rewrite app_nil_r in E. Qed.

Lemma updates_holds ms : forall ctx m, holds ctx m -> Forall short ms ->
  exists ctx', updates ctx ms = Some ctx' /\ holds ctx' (m ++ concat ms).
Proof.
  induction ms as [|d ms IH]; intros ctx m H Hs; cbn [updates concat].
  - exists ctx. now rewrite app_nil_r.
  - apply Forall_cons_1 in Hs as [Hd Hs]. destruct (Upd_whole ctx m d H Hd) as (c & -> & Hc).
    cbn [mbind option_bind]. destruct (IH c _ Hc Hs) as (c' & E & Hc'). exists c'. now rewrite app_assoc.
Qed.

(** C15: the code computes SHA-256: whatever the context held before, on a host of
    either byte order, a message of less than 2^61 bytes given in any pieces of
    less than 2^32 bytes yields the digest of FIPS 180-4, cut to the length asked
    for. *)
Theorem sha256_equivalent (ctx : FillpSha256Ctx) (ms : list (list byte)) (n : Z)
    (Hctx : length (wbuf ctx) = 16%nat) (Hs : Forall short ms)
    (Hm : Z.of_nat (length (concat ms)) < 2 ^ 61) (Hn : 0 <= n <= 32) :
  hashPieces ctx ms n = Some (take (Z.to_nat n) (Fips.sha256 (concat ms))).
Proof.
  unfold hashPieces. destruct (updates_holds ms _ [] (FillpSha256Set_holds ctx Hctx) Hs) as (c & -> & Hc).
  cbn [mbind option_bind app] in *. destruct (FillpSha256Fin_holds c _ n Hc Hm Hn) as (c' & ->). reflexivity.
Qed.

Lemma length_sha256 m : length (Fips.sha256 m) = 32%nat.
Proof.
  unfold Fips.sha256. pose proof (length_absorb Fips.H0 (Fips.pad m) eq_refl) as H.
  revert H. generalize (Fips.absorb Fips.H0 (Fips.pad m)). intros h Hh.
  do 8 (destruct h as [|? h]; [discriminate|]). destruct h; [|discriminate]. reflexivity.
Qed.

Lemma Fin_digest c m : holds c m -> Z.of_nat (length m) < 2 ^ 61 ->
  exists c', FillpSha256Fin little c 32 = Some (Fips.sha256 m, c').
Proof.
  intros H Hm. destruct (FillpSha256Fin_holds c m 32 H Hm ltac:(lia)) as (c' & ->). exists c'.
  rewrite take_ge by (rewrite length_sha256; lia). reflexivity.
Qed.

Fixpoint hmacUpdates (ctx : option FillpHmacSha256Ctx) (ms : list (list byte)) : option (option FillpHmacSha256Ctx) :=
  match ms with
  | [] => Some ctx
  | m :: ms' => c ← FillpHmacSha256Update little ctx (Some m) (Z.of_nat (length m)); hmacUpdates c ms'
  end.

(** The sequence of calls of a client. *)
Definition hmacPieces (tctx : FillpSha256Ctx) (addr : Z * Z * Z) (ctx : FillpHmacSha256Ctx) (key : list byte)
    (ctr : Z) (ms : list (list byte)) (digest : list byte) : option (option (list byte)) :=
  '(c, _) ← FillpHmacSha256Init little tctx addr (Some ctx) (Some key) (Z.of_nat (length key)) ctr;
  c ← hmacUpdates c ms;
  '(d, _) ← FillpHmacSha256Final little c (Some digest) FILLP_SHA256_DIGEST_SIZE;
  Some d.

Definition hmacKey (key : list byte) : list byte :=
  let k := if (64 <? length key)%nat then Fips.sha256 key else key in
  k ++ zeros (64 - length k).

Record hmacHolds (c : FillpHmacSha256Ctx) (key m : list byte) : Prop := {
  inner_holds : holds (hashki c) (Fips.xorWith 0x36 (hmacKey key) ++ m);
  outer_holds : holds (hashko c) (Fips.xorWith 0x5c (hmacKey key))
}.

Lemma length_hmacKey key : length (hmacKey key) = 64%nat.
Proof.
  unfold hmacKey. rewrite length_app, length_replicate. destruct (Nat.ltb_spec 64 (length key)); [|lia].
  rewrite length_sha256. lia.
Qed.

Lemma length_xorWith v k : length (Fips.xorWith v k) = length k.
Proof. apply length_map. Qed.

(** Copying the key over zeros pads it. *)
Lemma pad_key k : (length k <= 64)%nat ->
  (bs ← readAt 0 (Z.of_nat (length k)) k; writeAt 0 bs (zeros 64)) = Some (k ++ zeros (64 - length k)).
Proof.
  intros Hk. pose proof (readAt_app 0 (Z.of_nat (length k)) [] k [] eq_refl eq_refl) as Hr.
  cbn [app] in Hr. rewrite app_nil_r in Hr. rewrite Hr. cbn [mbind option_bind].
  replace 64%nat with (length k + (64 - length k))%nat at 1 by lia.
  rewrite replicate_add. apply writeAt_app0. apply length_replicate.
Qed.

Lemma reset_absorb c v key : length (wbuf c) = 16%nat ->
  exists c', FillpSha256Upd little (FillpSha256Set c) (Fips.xorWith v (hmacKey key)) 64 = Some c' /\
    holds c' (Fips.xorWith v (hmacKey key)).
Proof.
  intros Hw.
  destruct (Upd_whole _ [] (Fips.xorWith v (hmacKey key)) (FillpSha256Set_holds c Hw)) as (c' & E & H).
  - unfold short. rewrite length_xorWith, length_hmacKey. lia.
  - rewrite length_xorWith, length_hmacKey in E. now exists c'.
Qed.

Lemma FillpHmacSha256Init_holds tctx addr ctx key ctr : key <> [] -> short key ->
  length (wbuf tctx) = 16%nat -> length (wbuf (hashki ctx)) = 16%nat -> length (wbuf (hashko ctx)) = 16%nat ->
  exists c ctr', FillpHmacSha256Init little tctx addr (Some ctx) (Some key) (Z.of_nat (length key)) ctr =
    Some (Some c, ctr') /\ hmacHolds c key [].
Proof.
  intros Hne Hs Ht Hi Ho. unfold FillpHmacSha256Init.
  assert (Hk0 : (0 < length key)%nat) by (destruct key; [congruence|cbn; lia]).
  destruct (Z.eqb_spec (Z.of_nat (length key)) 0); [lia|].
  assert (Hk : (if FILLP_SHA256_BLOCK_SIZE <? Z.of_nat (length key) then
             t ← FillpSha256Upd little (FillpSha256Set tctx) key (Z.of_nat (length key));
             '(tk, _) ← FillpSha256Fin little t FILLP_SHA256_DIGEST_SIZE;
             Some (tk, FILLP_SHA256_DIGEST_SIZE)
           else Some (key, Z.of_nat (length key))) =
     let k := if (64 <? length key)%nat then Fips.sha256 key else key in Some (k, Z.of_nat (length k))).
  { unfold FILLP_SHA256_BLOCK_SIZE, FILLP_SHA256_DIGEST_SIZE.
    destruct (Z.ltb_spec 64 (Z.of_nat (length key))), (Nat.ltb_spec 64 (length key)); try lia; [|reflexivity].
    destruct (Upd_whole _ [] key (FillpSha256Set_holds tctx Ht) Hs) as (c & -> & Hc). cbn [mbind option_bind].
    unfold short in Hs.
    destruct (Fin_digest c key Hc) as (c' & ->).
    { change (2 ^ 61) with 2305843009213693952. lia. }
    cbn [mbind option_bind]. cbv zeta. now rewrite length_sha256. }
  rewrite Hk. clear Hk. cbv zeta. cbn [mbind option_bind].
  set (k := if (64 <? length key)%nat then Fips.sha256 key else key).
  assert (Hkl : (0 < length k <= 64)%nat).
  { unfold k. destruct (Nat.ltb_spec 64 (length key)); [rewrite length_sha256|]; lia. }
  assert (memcpy_s (Z.of_nat (length k)) (Z.of_nat (length k)) = true) as -> by (apply memcpy_s_spec; lia).
  cbn [negb]. pose proof (pad_key k ltac:(lia)) as Hp. change (Z.to_nat FILLP_SHA256_BLOCK_SIZE) with 64%nat.
  destruct (readAt 0 (Z.of_nat (length k)) k) as [bs|]; [|discriminate]. cbn [mbind option_bind] in Hp |- *.
  rewrite Hp. cbn [mbind option_bind]. change (k ++ zeros (64 - length k)) with (hmacKey key).
  change xorPad with Fips.xorWith. unfold FILLP_HMAC_IPAD, FILLP_HMAC_OPAD, FILLP_SHA256_BLOCK_SIZE.
  destruct (reset_absorb (hashki ctx) 0x36 key Hi) as (ki & -> & Hki).
  destruct (reset_absorb (hashko ctx) 0x5c key Ho) as (ko & -> & Hko). cbn [mbind option_bind].
  destruct addr as [[a1 a2] a3]. eexists _, _. split; [reflexivity|]. constructor; [|exact Hko].
  cbn [hashki]. now rewrite app_nil_r.
Qed.

Lemma hmacUpdates_holds ms : forall c key m, hmacHolds c key m -> Forall short ms ->
  exists c', hmacUpdates (Some c) ms = Some (Some c') /\ hmacHolds c' key (m ++ concat ms).
Proof.
  induction ms as [|d ms IH]; intros c key m H Hs; cbn [hmacUpdates concat].
  - exists c. now rewrite app_nil_r.
  - apply Forall_cons_1 in Hs as [Hd Hs]. cbn [FillpHmacSha256Update].
    destruct (Upd_whole (hashki c) _ d (inner_holds _ _ _ H) Hd) as (k & -> & Hk). cbn [mbind option_bind].
    destruct (IH (mkHmac k (hashko c)) key (m ++ d)) as (c' & E & Hc'); [|exact Hs|].
    + constructor; [now rewrite app_assoc|apply H].
    + exists c'. now rewrite app_assoc.
Qed.

(** C25: the code computes HMAC-SHA-256 of RFC 2104: for every non-empty key and every
    message of less than 2^60 bytes in any pieces, key and pieces of less than 2^32 bytes
    as their parameters allow, whatever the contexts and the stack held before, the
    32 bytes of the digest are those of the standard. *)
Theorem hmac_equivalent (tctx : FillpSha256Ctx) (addr : Z * Z * Z) (ctx : FillpHmacSha256Ctx) (key : list byte)
    (ctr : Z) (ms : list (list byte)) (digest : list byte)
    (Hkey : key <> []) (Hks : short key) (Ht : length (wbuf tctx) = 16%nat)
    (Hi : length (wbuf (hashki ctx)) = 16%nat) (Ho : length (wbuf (hashko ctx)) = 16%nat)
    (Hs : Forall short ms) (Hm : Z.of_nat (length (concat ms)) < 2 ^ 60) (Hd : length digest = 32%nat) :
  hmacPieces tctx addr ctx key ctr ms digest = Some (Some (Fips.hmac key (concat ms))).
Proof.
  unfold hmacPieces.
  destruct (FillpHmacSha256Init_holds tctx addr ctx key ctr Hkey Hks Ht Hi Ho) as (c & ctr' & -> & Hc).
  cbn [mbind option_bind]. destruct (hmacUpdates_holds ms c key [] Hc Hs) as (c1 & -> & [H1 H2]).
  cbn [mbind option_bind app FillpHmacSha256Final] in *. unfold FILLP_SHA256_DIGEST_SIZE.
  change (2 ^ 60) with 1152921504606846976 in Hm.
  destruct (Fin_digest (hashki c1) _ H1) as (ki & ->).
  { rewrite length_app, length_xorWith, length_hmacKey. change (2 ^ 61) with 2305843009213693952. lia. }
  cbn [mbind option_bind].
  pose proof (writeAt_app0 (Fips.sha256 (Fips.xorWith 54 (hmacKey key) ++ concat ms)) digest []) as Hw.
  rewrite !app_nil_r, length_sha256 in Hw. rewrite (Hw Hd). cbn [mbind option_bind].
  set (inner := Fips.sha256 _) in *.
  assert (Hin : length inner = 32%nat) by apply length_sha256.
  destruct (Upd_whole (hashko c1) _ inner H2) as (ko & E & Hko); [unfold short; lia|].
  rewrite Hin in E. change (Z.of_nat 32) with 32 in E. rewrite E. cbn [mbind option_bind].
  destruct (Fin_digest ko _ Hko) as (ko' & ->).
  { rewrite length_app, length_xorWith, length_hmacKey. change (2 ^ 61) with 2305843009213693952. lia. }
  cbn [mbind option_bind].
  pose proof (writeAt_app0 (Fips.sha256 (Fips.xorWith 92 (hmacKey key) ++ inner)) inner []) as Hw'.
  rewrite !app_nil_r, length_sha256 in Hw'. rewrite (Hw' Hin). reflexivity.
Qed.

End HostBytes.

(** ** Witnesses *)

Definition ctx0 : FillpSha256Ctx := mkCtx 7 8 [] (replicate 16 (-1)).
Definition abc : list (list byte) := [map Zbyte [97]; map Zbyte [98; 99]].

Lemma sha256_equivalent_witness :
  hashPieces true ctx0 abc 4 = Some (take 4 (Fips.sha256 (map Zbyte [97; 98; 99]))).
Proof.
  apply (sha256_equivalent true ctx0 abc 4); [reflexivity|repeat constructor|cbn; lia|lia].
Defined.

Lemma hmac_equivalent_witness :
  hmacPieces true ctx0 (1000, 2000, 3000) (mkHmac ctx0 ctx0) (map Zbyte [1; 2; 3]) 5 abc (replicate 32 (Zbyte 9)) =
  Some (Some (Fips.hmac (map Zbyte [1; 2; 3]) (map Zbyte [97; 98; 99]))).
Proof.
  apply (hmac_equivalent true ctx0 (1000, 2000, 3000) (mkHmac ctx0 ctx0) (map Zbyte [1; 2; 3]) 5 abc);
    try reflexivity; try discriminate; repeat constructor; cbn; lia.
Defined.

(** The digest of "abc" in FIPS 180-4, first four bytes. *)
Example sha256_abc : take 4 (Fips.sha256 (concat abc)) = map Zbyte [0xba; 0x78; 0x16; 0xbf].
Proof. vm_compute. reflexivity. Qed.

End Sha256.
