(* ===== verification/RbTree.v ===== *)
(** * Red-black trees of the fillp transport

    components/nstackx/fillp/src/public/src/rb_tree.c, with the three functions of
    app_lib/src/epoll_app.c that keep the descriptors of an epoll instance in such
    a tree.  The model has the memory of the nodes, with their parent pointers, so
    every assignment of the code is one update; a NULL or dangling pointer gives
    [None].

    The theorems show that the pointers always form a red-black tree (balanced: no
    red node has a red child, every path has the same number of black nodes), that
    rebalancing keeps the order of the nodes, and that the three functions
    implement a set of descriptors. *)

From S2P Require Import Prelude.
From stdpp Require Import gmap list sorting.
#[local] Open Scope Z_scope.

Module RbTree.

Definition RB_RED : Z := 0.
Definition RB_BLACK : Z := 1.

Record RbNode := mkNode {
  rbParent : option nat;
  rbRight : option nat;
  rbLeft : option nat;
  color : Z
}.

(** The nodes by their address, and the root. *)
Record Store := mkStore {
  mem : gmap nat RbNode;
  rbNode : option nat
}.

(** ** Access through pointers *)

Definition load (x : option nat) (st : Store) : option RbNode := a ← x; mem st !! a.
Definition modify (f : RbNode -> RbNode) (x : option nat) (st : Store) : option Store :=
  a ← x;
  n ← mem st !! a;
  Some (mkStore (<[a := f n]> (mem st)) (rbNode st)).

Definition getParent (x : option nat) (st : Store) : option (option nat) := rbParent <$> load x st.
Definition getLeft (x : option nat) (st : Store) : option (option nat) := rbLeft <$> load x st.
Definition getRight (x : option nat) (st : Store) : option (option nat) := rbRight <$> load x st.
Definition getColor (x : option nat) (st : Store) : option Z := color <$> load x st.

Definition setParent (v x : option nat) : Store -> option Store :=
  modify (fun n => mkNode v (rbRight n) (rbLeft n) (color n)) x.
Definition setRight (v x : option nat) : Store -> option Store :=
  modify (fun n => mkNode (rbParent n) v (rbLeft n) (color n)) x.
Definition setLeft (v x : option nat) : Store -> option Store :=
  modify (fun n => mkNode (rbParent n) (rbRight n) v (color n)) x.
Definition setColor (c : Z) (x : option nat) : Store -> option Store :=
  modify (fun n => mkNode (rbParent n) (rbRight n) (rbLeft n) c) x.
Definition setRoot (x : option nat) (st : Store) : Store := mkStore (mem st) x.

(** [x != NULL && x->color == c] *)
Definition hasColor (c : Z) (x : option nat) (st : Store) : option bool :=
  match x with
  | None => Some false
  | Some _ => c' ← getColor x st; Some (c' =? c)
  end.
(** [x == NULL || x->color == RB_BLACK] *)
Definition nullOrBlack (x : option nat) (st : Store) : option bool :=
  match x with
  | None => Some true
  | Some _ => c ← getColor x st; Some (c =? RB_BLACK)
  end.

Abbreviation same p q := (bool_decide ((p : option nat) = q)).

(** ** Rotations *)

Definition FillpRbRotateLeft (x : option nat) (st : Store) : option Store :=
  y ← getRight x st;
  yl ← getLeft y st;
  st ← setRight yl x st;
  st ← (match yl with Some _ => setParent x yl st | None => Some st end);
  p ← getParent x st;
  st ← setParent p y st;
  p ← getParent x st;
  st ← (match p with
        | Some _ => pl ← getLeft p st; if same x pl then setLeft y p st else setRight y p st
        | None => Some (setRoot y st)
        end);
  st ← setLeft x y st;
  setParent y x st.

Definition FillpRbRotateRight (x : option nat) (st : Store) : option Store :=
  y ← getLeft x st;
  yr ← getRight y st;
  st ← setLeft yr x st;
  st ← (match yr with Some _ => setParent x yr st | None => Some st end);
  p ← getParent x st;
  st ← setParent p y st;
  p ← getParent x st;
  st ← (match p with
        | Some _ => pr ← getRight p st; if same x pr then setRight y p st else setLeft y p st
        | None => Some (setRoot y st)
        end);
  st ← setRight x y st;
  setParent y x st.

Definition EqualRight (x : option nat) (st : Store) : option (option nat * Store) :=
  p ← getParent x st;
  pr ← getRight p st;
  if same x pr then st ← FillpRbRotateLeft p st; Some (p, st) else Some (x, st).

Definition EqualLeft (x : option nat) (st : Store) : option (option nat * Store) :=
  p ← getParent x st;
  pl ← getLeft p st;
  if same x pl then st ← FillpRbRotateRight p st; Some (p, st) else Some (x, st).

(** ** Insertion *)

(** Uncle is red: recolour, go on at the grandparent. *)
Definition uncleRed (p y g : option nat) (st : Store) : option (option nat * Store) :=
  st ← setColor RB_BLACK p st;
  st ← setColor RB_BLACK y st;
  st ← setColor RB_RED g st;
  Some (g, st).

(** The parent and the grandparent are recoloured, the latter is returned. *)
Definition recolor (x : option nat) (st : Store) : option (option nat * Store) :=
  p ← getParent x st;
  st ← setColor RB_BLACK p st;
  g ← getParent p st;
  st ← setColor RB_RED g st;
  Some (g, st).

(** One round of the loop, when the parent [p] of [x] is red. *)
Definition insertRound (x p : option nat) (st : Store) : option (option nat * Store) :=
  g ← getParent p st;
  gl ← getLeft g st;
  if same p gl then
    y ← getRight g st;
    red ← hasColor RB_RED y st;
    if (red : bool) then uncleRed p y g st
    else
      '(x, st) ← EqualRight x st;
      '(g, st) ← recolor x st;
      st ← FillpRbRotateRight g st;
      Some (x, st)
  else
    y ← getLeft g st;
    red ← hasColor RB_RED y st;
    if (red : bool) then uncleRed p y g st
    else
      '(x, st) ← EqualLeft x st;
      '(g, st) ← recolor x st;
      st ← FillpRbRotateLeft g st;
      Some (x, st).

Fixpoint insertLoop (fuel : nat) (x : option nat) (st : Store) : option Store :=
  match fuel with
  | O => None
  | S fuel' =>
    if same x (rbNode st) then Some st
    else
      p ← getParent x st;
      c ← getColor p st;
      if negb (c =? RB_RED) then Some st
      else '(x, st) ← insertRound x p st; insertLoop fuel' x st
  end.

(** The loop climbs a path of the tree. *)
Definition FillpRbInsertColor (x : option nat) (st : Store) : option Store :=
  st ← insertLoop (S (size (mem st))) x st;
  setColor RB_BLACK (rbNode st) st.

(** ** Removal *)

(** The result: [x], [parent], the store and the value returned. *)
Definition FillpRbEraseColorAtLeft (x parent : option nat) (st : Store)
  : option (option nat * option nat * Store * bool) :=
  w ← getRight parent st;
  cw ← getColor w st;
  if cw =? RB_RED then
    st ← setColor RB_BLACK w st;
    st ← setColor RB_RED parent st;
    st ← FillpRbRotateLeft parent st;
    Some (x, parent, st, false)
  else
    wl ← getLeft w st;
    wr ← getRight w st;
    bl ← nullOrBlack wl st;
    br ← nullOrBlack wr st;
    if bl && br then
      st ← setColor RB_RED w st;
      p ← getParent parent st;
      Some (parent, p, st, false)
    else
      '(w, st) ← (if (br : bool) then
                    st ← (match wl with Some _ => setColor RB_BLACK wl st | None => Some st end);
                    st ← setColor RB_RED w st;
                    st ← FillpRbRotateRight w st;
                    w ← getRight parent st;
                    Some (w, st)
                  else Some (w, st));
      cp ← getColor parent st;
      st ← setColor cp w st;
      st ← setColor RB_BLACK parent st;
      wr ← getRight w st;
      c ← getColor wr st;
      st ← (if negb (c =? RB_BLACK) then setColor RB_BLACK wr st else Some st);
      st ← FillpRbRotateLeft parent st;
      Some (rbNode st, parent, st, true).

Definition FillpRbEraseColorAtRight (x parent : option nat) (st : Store)
  : option (option nat * option nat * Store * bool) :=
  w ← getLeft parent st;
  cw ← getColor w st;
  if cw =? RB_RED then
    st ← setColor RB_BLACK w st;
    st ← setColor RB_RED parent st;
    st ← FillpRbRotateRight parent st;
    Some (x, parent, st, false)
  else
    wl ← getLeft w st;
    wr ← getRight w st;
    bl ← nullOrBlack wl st;
    br ← nullOrBlack wr st;
    if bl && br then
      st ← setColor RB_RED w st;
      p ← getParent parent st;
      Some (parent, p, st, false)
    else
      '(w, st) ← (if (bl : bool) then
                    st ← (match wr with Some _ => setColor RB_BLACK wr st | None => Some st end);
                    st ← setColor RB_RED w st;
                    st ← FillpRbRotateLeft w st;
                    w ← getLeft parent st;
                    Some (w, st)
                  else Some (w, st));
      cp ← getColor parent st;
      st ← setColor cp w st;
      st ← setColor RB_BLACK parent st;
      wl ← getLeft w st;
      c ← getColor wl st;
      st ← (if negb (c =? RB_BLACK) then setColor RB_BLACK wl st else Some st);
      st ← FillpRbRotateRight parent st;
      Some (rbNode st, parent, st, true).

Fixpoint eraseLoop (fuel : nat) (x parent : option nat) (st : Store) : option (option nat * Store) :=
  match fuel with
  | O => None
  | S fuel' =>
    black ← (if same x (rbNode st) then Some false else nullOrBlack x st);
    if negb black then Some (x, st)
    else
      match parent with
      | None => Some (x, st)
      | Some _ =>
        pl ← getLeft parent st;
        '(x, parent, st, done) ← (if same x pl then FillpRbEraseColorAtLeft x parent st
                                  else FillpRbEraseColorAtRight x parent st);
        if (done : bool) then Some (x, st) else eraseLoop fuel' x parent st
      end
  end.

(** A red sibling adds a level once, and two rounds remain then. *)
Definition FillpRbEraseColor (x parent : option nat) (st : Store) : option Store :=
  '(x, st) ← eraseLoop (3 + size (mem st)) x parent st;
  match x with
  | Some _ => setColor RB_BLACK x st
  | None => Some st
  end.

Fixpoint leftmost (fuel : nat) (node : option nat) (st : Store) : option (option nat) :=
  match fuel with
  | O => None
  | S fuel' =>
    l ← getLeft node st;
    match l with
    | None => Some node
    | Some _ => leftmost fuel' l st
    end
  end.

(** The link of the parent (or the root) that pointed to [old] points to [new]. *)
Definition replaceChild (old new : option nat) (st : Store) : option Store :=
  p ← getParent old st;
  match p with
  | Some _ => pl ← getLeft p st; if same pl old then setLeft new p st else setRight new p st
  | None => Some (setRoot new st)
  end.

Definition FillpRbEraseLowlvlNode (oldNode : option nat) (st : Store) : option Store :=
  node ← getRight oldNode st;
  node ← leftmost (S (size (mem st))) node st;
  st ← replaceChild oldNode node st;
  childNode ← getRight node st;
  parentNode ← getParent node st;
  c ← getColor node st;
  '(parentNode, st) ←
    (if same parentNode oldNode then Some (node, st)
     else
       st ← (match childNode with Some _ => setParent parentNode childNode st | None => Some st end);
       st ← setLeft childNode parentNode st;
       oldRight ← getRight oldNode st;
       st ← setRight oldRight node st;
       oldRight ← getRight oldNode st;
       st ← setParent node oldRight st;
       Some (parentNode, st));
  oc ← getColor oldNode st;
  st ← setColor oc node st;
  op ← getParent oldNode st;
  st ← setParent op node st;
  ol ← getLeft oldNode st;
  st ← setLeft ol node st;
  ol ← getLeft oldNode st;
  st ← setParent node ol st;
  if c =? RB_BLACK then FillpRbEraseColor childNode parentNode st else Some st.

Definition FillpRbErase (node : option nat) (st : Store) : option Store :=
  l ← getLeft node st;
  r ← getRight node st;
  match l, r with
  | Some _, Some _ => FillpRbEraseLowlvlNode node st
  | _, _ =>
    let childNode := match l with None => r | Some _ => l end in
    parentNode ← getParent node st;
    c ← getColor node st;
    st ← (match childNode with Some _ => setParent parentNode childNode st | None => Some st end);
    st ← (match parentNode with
          | Some _ => pl ← getLeft parentNode st;
                      if same pl node then setLeft childNode parentNode st
                      else setRight childNode parentNode st
          | None => Some (setRoot childNode st)
          end);
    if c =? RB_BLACK then FillpRbEraseColor childNode parentNode st else Some st
  end.

(** ** The code without left and right

    [true] stands for left.  The functions of the code come in mirrored pairs; the
    proofs treat both members of a pair at once. *)

Definition getC (d : bool) (x : option nat) (st : Store) : option (option nat) :=
  if d then getLeft x st else getRight x st.
Definition setC (d : bool) (v x : option nat) : Store -> option Store :=
  if d then setLeft v x else setRight v x.

(** [rotate true] is the rotation to the left. *)
Definition rotate (d : bool) (x : option nat) (st : Store) : option Store :=
  y ← getC (negb d) x st;
  yc ← getC d y st;
  st ← setC (negb d) yc x st;
  st ← (match yc with Some _ => setParent x yc st | None => Some st end);
  p ← getParent x st;
  st ← setParent p y st;
  p ← getParent x st;
  st ← (match p with
        | Some _ => pc ← getC d p st; if same x pc then setC d y p st else setC (negb d) y p st
        | None => Some (setRoot y st)
        end);
  st ← setC d x y st;
  setParent y x st.

Lemma FillpRbRotateLeft_rotate x st : FillpRbRotateLeft x st = rotate true x st.
Proof. reflexivity. Qed.
Lemma FillpRbRotateRight_rotate x st : FillpRbRotateRight x st = rotate false x st.
Proof. reflexivity. Qed.

(** ** Trees and their place in memory *)

Inductive tree :=
| Leaf
| Node (a : nat) (c : Z) (l r : tree).

(** The node [a] with [t] on side [d] and [s] on the other. *)
Definition mk (d : bool) (a : nat) (c : Z) (t s : tree) : tree :=
  if d then Node a c t s else Node a c s t.

Definition root (t : tree) : option nat := match t with Leaf => None | Node a _ _ _ => Some a end.

(** A path from a subtree to the root: side, address and colour of the parent, and
    the subtree on the other side. *)
Abbreviation frame := (bool * nat * Z * tree)%type.
Abbreviation path := (list frame).

Definition fill1 (f : frame) (t : tree) : tree := let '(d, a, c, s) := f in mk d a c t s.
Fixpoint fill (k : path) (t : tree) : tree :=
  match k with [] => t | f :: k' => fill k' (fill1 f t) end.

Definition parentOf (k : path) : option nat :=
  match k with [] => None | (_, a, _, _) :: _ => Some a end.

Definition cell (p : option nat) (d : bool) (t s : option nat) (c : Z) : RbNode :=
  mkNode p (if d then s else t) (if d then t else s) c.

Fixpoint repr (h : gmap nat RbNode) (t : tree) (p : option nat) : Prop :=
  match t with
  | Leaf => True
  | Node a c l r => h !! a = Some (mkNode p (root r) (root l) c) /\ repr h l (Some a) /\ repr h r (Some a)
  end.

Fixpoint reprK (h : gmap nat RbNode) (k : path) (r : option nat) : Prop :=
  match k with
  | [] => True
  | (d, a, c, s) :: k' =>
    h !! a = Some (cell (parentOf k') d r (root s) c) /\ repr h s (Some a) /\ reprK h k' (Some a)
  end.

Fixpoint rootK (k : path) (r : option nat) : option nat :=
  match k with [] => r | (_, a, _, _) :: k' => rootK k' (Some a) end.

(** How often an address occurs. *)
Definition one (a b : nat) : nat := if decide (a = b) then 1 else 0.
Fixpoint occ (x : nat) (t : tree) : nat :=
  match t with Leaf => 0 | Node a _ l r => one x a + occ x l + occ x r end.
Fixpoint occK (x : nat) (k : path) : nat :=
  match k with [] => 0 | (_, a, _, s) :: k' => one x a + occ x s + occK x k' end.

(** The store holds the tree [t] under the path [k]. *)
Record hold (st : Store) (k : path) (t : tree) : Prop := {
  hold_t : repr (mem st) t (parentOf k);
  hold_k : reprK (mem st) k (root t);
  hold_root : rbNode st = rootK k (root t);
  hold_once : forall a, (occ a t + occK a k <= 1)%nat
}.

Lemma one_eq a : one a a = 1%nat.
Proof. unfold one. now rewrite decide_True. Qed.

Lemma one_ne a b : a <> b -> one a b = 0%nat.
Proof. intros H. unfold one. now rewrite decide_False. Qed.

Lemma occ_mk x d a c t s : occ x (mk d a c t s) = (one x a + occ x t + occ x s)%nat.
Proof. destruct d; cbn; lia. Qed.

Lemma root_mk d a c t s : root (mk d a c t s) = Some a.
Proof. now destruct d. Qed.

Lemma repr_mk h d a c t s p :
  repr h (mk d a c t s) p <-> h !! a = Some (cell p d (root t) (root s) c) /\ repr h t (Some a) /\ repr h s (Some a).
Proof. destruct d; cbn; tauto. Qed.

Lemma root_occ a t : root t = Some a -> (1 <= occ a t)%nat.
Proof. destruct t; cbn; [discriminate|]. intros [= ->]. rewrite one_eq. lia. Qed.

(** A path and a subtree can be taken apart at any place. *)
Lemma hold_up st d a c s k t : hold st ((d, a, c, s) :: k) t <-> hold st k (mk d a c t s).
Proof.
  split; intros [H1 H2 H3 H4].
  - destruct H2 as (Ha & Hs & Hk). constructor.
    + apply repr_mk. auto.
    + rewrite root_mk. exact Hk.
    + rewrite root_mk. exact H3.
    + intros x. specialize (H4 x). rewrite occ_mk. cbn [occK] in H4. lia.
  - apply repr_mk in H1 as (Ha & Ht & Hs). rewrite root_mk in H2, H3. constructor.
    + exact Ht.
    + cbn. auto.
    + exact H3.
    + intros x. specialize (H4 x). rewrite occ_mk in H4. cbn [occK]. lia.
Qed.

(** *** Regions that an operation changes at the border only *)

Definition withParent (p : option nat) (n : RbNode) : RbNode := mkNode p (rbRight n) (rbLeft n) (color n).
Definition withChild (d : bool) (v : option nat) (n : RbNode) : RbNode :=
  if d then mkNode (rbParent n) (rbRight n) v (color n) else mkNode (rbParent n) v (rbLeft n) (color n).

Lemma repr_agree h h' t p : (forall a, (1 <= occ a t)%nat -> h' !! a = h !! a) -> repr h t p -> repr h' t p.
Proof.
  revert p. induction t as [|a c l IHl r IHr]; intros p Ha; cbn; [trivial|]. intros (H1 & H2 & H3).
  split; [|split].
  - rewrite Ha by (cbn; rewrite one_eq; lia). exact H1.
  - apply IHl; [|exact H2]. intros b Hb. apply Ha. cbn. lia.
  - apply IHr; [|exact H3]. intros b Hb. apply Ha. cbn. lia.
Qed.

(** Another parent for the root of a subtree. *)
Lemma repr_reparent h h' t p p' : (forall a, (occ a t <= 1)%nat) ->
  (forall a, (1 <= occ a t)%nat -> root t <> Some a -> h' !! a = h !! a) ->
  (forall a, root t = Some a -> h' !! a = withParent p' <$> h !! a) ->
  repr h t p -> repr h' t p'.
Proof.
  intros Ho Ha Hr. destruct t as [|a c l r]; cbn; [trivial|]. intros (H1 & H2 & H3).
  cbn in Ho. pose proof (Ho a) as Hoa. rewrite one_eq in Hoa. split; [|split].
  - rewrite (Hr a eq_refl), H1. reflexivity.
  - apply (repr_agree h); [|exact H2]. intros b Hb. apply Ha; cbn; [lia|]. intros [= ->]. lia.
  - apply (repr_agree h); [|exact H3]. intros b Hb. apply Ha; cbn; [lia|]. intros [= ->]. lia.
Qed.

Lemma reprK_agree h h' k r : (forall a, (1 <= occK a k)%nat -> h' !! a = h !! a) -> reprK h k r -> reprK h' k r.
Proof.
  revert r. induction k as [|[[[d a] c] s] k IH]; intros r Ha; cbn; [trivial|]. intros (H1 & H2 & H3).
  split; [|split].
  - rewrite Ha by (cbn; rewrite one_eq; lia). exact H1.
  - apply (repr_agree h); [|exact H2]. intros b Hb. apply Ha. cbn. lia.
  - apply IH; [|exact H3]. intros b Hb. apply Ha. cbn. lia.
Qed.

(** Another child at the end of a path. *)
Lemma reprK_rechild h h' k r r' : (forall a, (occK a k <= 1)%nat) ->
  (forall a, (1 <= occK a k)%nat -> parentOf k <> Some a -> h' !! a = h !! a) ->
  (forall d a c s k', k = (d, a, c, s) :: k' -> h' !! a = withChild d r' <$> h !! a) ->
  reprK h k r -> reprK h' k r'.
Proof.
  intros Ho Ha Hr. destruct k as [|[[[d a] c] s] k]; cbn; [trivial|]. intros (H1 & H2 & H3).
  pose proof (Ho a) as Hoa. cbn in Hoa. rewrite one_eq in Hoa. split; [|split].
  - rewrite (Hr d a c s k eq_refl), H1. now destruct d.
  - apply (repr_agree h); [|exact H2]. intros b Hb. apply Ha; cbn; [lia|]. intros [= ->]. lia.
  - apply (reprK_agree h); [|exact H3]. intros b Hb. apply Ha; cbn; [lia|]. intros [= ->]. lia.
Qed.

(** *** Steps *)

Definition altS (f : RbNode -> RbNode) (a : nat) (st : Store) : Store := mkStore (alter f a (mem st)) (rbNode st).

Lemma modify_some f a st n : mem st !! a = Some n -> modify f (Some a) st = Some (altS f a st).
Proof.
  intros H. unfold modify, altS. cbn. rewrite H. cbn. do 2 f_equal.
  apply map_eq. intros b. destruct (decide (b = a)) as [->|].
  - now rewrite lookup_insert_eq, lookup_alter_eq, H.
  - now rewrite lookup_insert_ne, lookup_alter_ne by congruence.
Qed.

Lemma setC_some d v a st n : mem st !! a = Some n -> setC d v (Some a) st = Some (altS (withChild d v) a st).
Proof. intros H. destruct d; apply (modify_some _ _ _ _ H). Qed.

Lemma setParent_some v a st n : mem st !! a = Some n -> setParent v (Some a) st = Some (altS (withParent v) a st).
Proof. apply modify_some. Qed.

Lemma setColor_some c a st n : mem st !! a = Some n ->
  setColor c (Some a) st = Some (altS (fun n => mkNode (rbParent n) (rbRight n) (rbLeft n) c) a st).
Proof. apply modify_some. Qed.

Definition childOf (d : bool) (n : RbNode) : option nat := if d then rbLeft n else rbRight n.

Lemma getC_some d a st n : mem st !! a = Some n -> getC d (Some a) st = Some (childOf d n).
Proof. intros H. unfold getC, getLeft, getRight, load. cbn. rewrite H. now destruct d. Qed.

Lemma getParent_some a st n : mem st !! a = Some n -> getParent (Some a) st = Some (rbParent n).
Proof. intros H. unfold getParent, load. cbn. now rewrite H. Qed.

Lemma getColor_some a st n : mem st !! a = Some n -> getColor (Some a) st = Some (color n).
Proof. intros H. unfold getColor, load. cbn. now rewrite H. Qed.

Lemma altS_eq f a st n : mem st !! a = Some n -> mem (altS f a st) !! a = Some (f n).
Proof. intros H. cbn. now rewrite lookup_alter_eq, H. Qed.

Lemma altS_ne f a b st : b <> a -> mem (altS f a st) !! b = mem st !! b.
Proof. intros H. cbn. apply lookup_alter_ne. congruence. Qed.

Lemma childOf_cell d p e t s c : childOf d (cell p e t s c) = if Bool.eqb d e then t else s.
Proof. now destruct d, e. Qed.

Lemma withChild_cell d v p e t s c :
  withChild d v (cell p e t s c) = if Bool.eqb d e then cell p e v s c else cell p e t v c.
Proof. now destruct d, e. Qed.

(** The border of a subtree. *)
Definition reparented (t : option nat) (p : option nat) (st : Store) : Store :=
  match t with Some b => altS (withParent p) b st | None => st end.

Lemma reparent_step t p st : (forall b, t = Some b -> is_Some (mem st !! b)) ->
  match t with Some _ => setParent p t st | None => Some st end = Some (reparented t p st).
Proof. destruct t as [b|]; [|reflexivity]. intros H. destruct (H b eq_refl) as [n Hn]. apply (setParent_some _ _ _ _ Hn). Qed.

Lemma reparented_ne t p st a : t <> Some a -> mem (reparented t p st) !! a = mem st !! a.
Proof. destruct t as [b|]; [|reflexivity]. intros H. apply altS_ne. congruence. Qed.

Lemma reparented_eq p st a : mem (reparented (Some a) p st) !! a = withParent p <$> mem st !! a.
Proof. cbn. apply lookup_alter_eq. Qed.

Lemma reparented_root t p st : rbNode (reparented t p st) = rbNode st.
Proof. now destruct t. Qed.

(** The border of a path. *)
Definition linked (k : path) (y : option nat) (st : Store) : Store :=
  match k with
  | [] => setRoot y st
  | (e, q, _, _) :: _ => altS (withChild e y) q st
  end.

Lemma linked_ne k y st a : parentOf k <> Some a -> mem (linked k y st) !! a = mem st !! a.
Proof. destruct k as [|[[[e q] c] s] k]; [reflexivity|]. cbn [parentOf]. intros H. apply altS_ne. congruence. Qed.

Lemma linked_eq e q c s k y st : mem (linked ((e, q, c, s) :: k) y st) !! q = withChild e y <$> mem st !! q.
Proof. cbn. apply lookup_alter_eq. Qed.

Lemma rbNode_linked k y st : rbNode (linked k y st) = match parentOf k with None => y | Some _ => rbNode st end.
Proof. now destruct k as [|[[[e q] c] s] k]. Qed.

Lemma rootK_linked k y st r : rbNode st = rootK k r -> rbNode (linked k y st) = rootK k y.
Proof. destruct k as [|[[[e q] c] s] k]; [reflexivity|]. intros H. exact H. Qed.

(** The code finds the side of [x] by comparing it with one child. *)
Lemma relink d k x y st : (forall e q c s k', k = (e, q, c, s) :: k' ->
    exists p, mem st !! q = Some (cell p e (Some x) (root s) c) /\ root s <> Some x) ->
  match parentOf k with
  | Some _ => pc ← getC d (parentOf k) st;
              if same (Some x) pc then setC d y (parentOf k) st else setC (negb d) y (parentOf k) st
  | None => Some (setRoot y st)
  end = Some (linked k y st).
Proof.
  intros H. destruct k as [|[[[e q] c] s] k]; [reflexivity|]. cbn [parentOf linked].
  destruct (H e q c s k eq_refl) as (p & Hq & Hs).
  rewrite (getC_some _ _ _ _ Hq), childOf_cell. cbn [mbind option_bind].
  destruct (Bool.eqb d e) eqn:E.
  - apply eqb_prop in E as ->. rewrite bool_decide_true by reflexivity. apply (setC_some _ _ _ _ _ Hq).
  - rewrite bool_decide_false by congruence.
    assert (negb d = e) as -> by (destruct d, e; cbn in *; congruence). apply (setC_some _ _ _ _ _ Hq).
Qed.

(** Nodes are neither added nor removed by these steps. *)
Definition nodes (st : Store) : gset nat := dom (mem st).

Lemma nodes_altS f a st : nodes (altS f a st) = nodes st.
Proof. apply dom_alter_L. Qed.

Lemma nodes_reparented t p st : nodes (reparented t p st) = nodes st.
Proof. destruct t; [apply nodes_altS|reflexivity]. Qed.

Lemma nodes_linked k y st : nodes (linked k y st) = nodes st.
Proof. destruct k as [|[[[e q] c] s] k]; [reflexivity|apply nodes_altS]. Qed.

(** Contradictions from an address that would occur twice. *)
Lemma parent_occ k a : parentOf k = Some a -> (1 <= occK a k)%nat.
Proof. destruct k as [|[[[e q] c] s] k]; cbn; [discriminate|]. intros [= ->]. rewrite one_eq. lia. Qed.

Ltac at_most_once H a :=
  let H' := fresh "Hocc" in
  pose proof (H a) as H'; rewrite ?occ_mk in H'; cbn [occ occK] in H'; rewrite ?one_eq in H'.

Ltac twice Ho :=
  let E := fresh "E" in
  intros E;
  match type of E with
  | root ?t = Some ?b => pose proof (root_occ b t E); at_most_once Ho b; lia
  | parentOf ?k = Some ?b => pose proof (parent_occ k b E); at_most_once Ho b; lia
  | ?a = ?b => first [subst b; at_most_once Ho a; lia | subst a; at_most_once Ho b; lia]
  end.

(** The memory agrees with [h] away from [x], [y] and the borders of [B] and [k]. *)
Definition awayFrom (h h' : gmap nat RbNode) (x y : nat) (B : tree) (k : path) : Prop :=
  forall a, a <> x -> a <> y -> root B <> Some a -> parentOf k <> Some a -> h' !! a = h !! a.

(** The steps of a rotation, with the content of [x] and [y] at the end. *)
Lemma rotate_steps d k x cx A y cy B C st :
  hold st k (mk d x cx A (mk d y cy B C)) ->
  exists st', rotate d (Some x) st = Some st' /\ nodes st' = nodes st /\ rbNode st' = rootK k (Some y) /\
    awayFrom (mem st) (mem st') x y B k /\
    mem st' !! x = Some (cell (Some y) d (root A) (root B) cx) /\
    mem st' !! y = Some (cell (parentOf k) d (Some x) (root C) cy) /\
    (forall b, root B = Some b -> mem st' !! b = withParent (Some x) <$> mem st !! b) /\
    (forall e q c s k', k = (e, q, c, s) :: k' -> mem st' !! q = withChild e (Some y) <$> mem st !! q).
Proof.
  intros [Ht Hk Hr Ho]. apply repr_mk in Ht as (Hx & HA & Hy). apply repr_mk in Hy as (Hy & HB & HC).
  rewrite root_mk in Hx, Hk, Hr.
  assert (Hxy : x <> y) by twice Ho. assert (HBx : root B <> Some x) by twice Ho.
  assert (HBy : root B <> Some y) by twice Ho. assert (Hkx : parentOf k <> Some x) by twice Ho.
  assert (Hky : parentOf k <> Some y) by twice Ho.
  assert (HBk : forall b, root B = Some b -> parentOf k <> Some b).
  { intros b E. pose proof (root_occ _ _ E). twice Ho. }
  unfold rotate.
  rewrite (getC_some _ _ _ _ Hx), childOf_cell. replace (Bool.eqb (negb d) d) with false by now destruct d.
  cbn [mbind option_bind]. rewrite (getC_some _ _ _ _ Hy), childOf_cell, eqb_reflx. cbn [mbind option_bind].
  rewrite (setC_some _ _ _ _ _ Hx). cbn [mbind option_bind]. set (s1 := altS _ x st).
  assert (H1x : mem s1 !! x = Some (cell (parentOf k) d (root A) (root B) cx)).
  { unfold s1. rewrite (altS_eq _ _ _ _ Hx), withChild_cell. now destruct d. }
  assert (H1 : forall a, a <> x -> mem s1 !! a = mem st !! a) by (intros; now apply altS_ne).
  rewrite reparent_step.
  2:{ intros b E. rewrite H1 by congruence. destruct B; [discriminate|]. injection E as ->. now destruct HB as (-> & _). }
  cbn [mbind option_bind]. set (s2 := reparented (root B) (Some x) s1).
  assert (H2x : mem s2 !! x = mem s1 !! x) by now apply reparented_ne.
  assert (H2y : mem s2 !! y = mem st !! y) by (rewrite <- H1 by congruence; now apply reparented_ne).
  rewrite H1x in H2x. rewrite Hy in H2y. rewrite (getParent_some _ _ _ H2x). cbn [mbind option_bind cell rbParent].
  rewrite (setParent_some _ _ _ _ H2y). cbn [mbind option_bind]. set (s3 := altS _ y s2).
  assert (H3x : mem s3 !! x = mem s2 !! x) by now apply altS_ne. rewrite H2x in H3x.
  assert (H3y : mem s3 !! y = Some (cell (parentOf k) d (root B) (root C) cy))
    by (unfold s3; rewrite (altS_eq _ _ _ _ H2y); reflexivity).
  rewrite (getParent_some _ _ _ H3x). cbn [mbind option_bind cell rbParent].
  assert (H3 : forall a, a <> x -> a <> y -> root B <> Some a -> mem s3 !! a = mem st !! a).
  { intros a Ha1 Ha2 Ha3. unfold s3, s2. now rewrite altS_ne, reparented_ne, H1. }
  rewrite relink.
  2:{ intros e q c s k' ->. cbn in Hk. destruct Hk as (Hq & Hs & _). exists (parentOf k'). cbn [parentOf] in *.
      rewrite H3 by (congruence || (intros E; now apply (HBk q E))). split; [exact Hq|twice Ho]. }
  cbn [mbind option_bind]. set (s4 := linked k (Some y) s3).
  assert (H4y : mem s4 !! y = mem s3 !! y) by now apply linked_ne. rewrite H3y in H4y.
  rewrite (setC_some _ _ _ _ _ H4y). cbn [mbind option_bind]. set (s5 := altS _ y s4).
  assert (H5x : mem s5 !! x = mem s3 !! x) by (unfold s5, s4; rewrite altS_ne, linked_ne by assumption; reflexivity).
  rewrite H3x in H5x. rewrite (setParent_some _ _ _ _ H5x). set (s6 := altS _ x s5). exists s6.
  split; [reflexivity|]. split; [|split; [|split; [|split; [|split; [|split]]]]].
  - unfold s6, s5, s4, s3, s2, s1. now rewrite !nodes_altS, nodes_linked, nodes_altS, nodes_reparented, nodes_altS.
  - apply (rootK_linked _ _ _ (Some x)). unfold s3, s2. cbn [rbNode altS]. now rewrite reparented_root.
  - intros a Ha1 Ha2 Ha3 Ha4. unfold s6, s5, s4. rewrite !altS_ne, linked_ne by assumption. now apply H3.
  - unfold s6. rewrite (altS_eq _ _ _ _ H5x). reflexivity.
  - unfold s6. rewrite altS_ne by congruence. unfold s5. now rewrite (altS_eq _ _ _ _ H4y), withChild_cell, eqb_reflx.
  - intros b E. unfold s6, s5, s4, s3. rewrite !altS_ne by congruence. rewrite linked_ne by now apply HBk.
    rewrite altS_ne by congruence. unfold s2. now rewrite E, reparented_eq, H1 by congruence.
  - intros e q c s k' ->. cbn [parentOf] in *. unfold s6, s5, s4. rewrite !altS_ne by congruence.
    rewrite linked_eq, H3; [reflexivity|congruence|congruence|]. intros E. now apply (HBk q E).
Qed.

(** A rotation changes the tree as its picture says. *)
Lemma rotate_hold d k x cx A y cy B C st :
  hold st k (mk d x cx A (mk d y cy B C)) ->
  exists st', rotate d (Some x) st = Some st' /\ nodes st' = nodes st /\ hold st' k (mk d y cy (mk d x cx A B) C).
Proof.
  intros H. destruct (rotate_steps d k x cx A y cy B C st H) as (st' & E & Hn & Hr & Haw & Hx & Hy & HB & Hk).
  exists st'. split; [exact E|]. split; [exact Hn|]. destruct H as [Ht Hk0 _ Ho].
  apply repr_mk in Ht as (_ & HA0 & Ht). apply repr_mk in Ht as (_ & HB0 & HC0). rewrite root_mk in Hk0.
  constructor.
  - apply repr_mk. rewrite root_mk. split; [exact Hy|]. split.
    + apply repr_mk. split; [exact Hx|]. split.
      * apply (repr_agree (mem st)); [|exact HA0]. intros a Ha. apply Haw; twice Ho.
      * apply (repr_reparent (mem st) _ _ (Some y)); [| |exact HB|exact HB0].
        -- intros a. at_most_once Ho a. lia.
        -- intros a Ha Hne. apply Haw; [twice Ho|twice Ho|exact Hne|twice Ho].
    + apply (repr_agree (mem st)); [|exact HC0]. intros a Ha. apply Haw; twice Ho.
  - rewrite root_mk. apply (reprK_rechild (mem st) _ _ (Some x)); [| |exact Hk|exact Hk0].
    + intros a. at_most_once Ho a. lia.
    + intros a Ha Hne. apply Haw; [twice Ho|twice Ho|twice Ho|exact Hne].
  - now rewrite root_mk.
  - intros a. at_most_once Ho a. rewrite !occ_mk. lia.
Qed.

(** *** Colours *)

Lemma mk_swap d a c t s : mk (negb d) a c s t = mk d a c t s.
Proof. now destruct d. Qed.

Lemma mk_any d t : t <> Leaf -> exists a c l r, t = mk d a c l r.
Proof. destruct t as [|a c l r]; [congruence|]. intros _. destruct d; [exists a, c, l, r|exists a, c, r, l]; reflexivity. Qed.

Lemma setColor_hold c' d k a c t s st : hold st k (mk d a c t s) ->
  exists st', setColor c' (Some a) st = Some st' /\ nodes st' = nodes st /\ hold st' k (mk d a c' t s).
Proof.
  intros [Ht Hk Hr Ho]. apply repr_mk in Ht as (Ha & Ht & Hs).
  rewrite (setColor_some _ _ _ _ Ha). set (st' := altS _ a st). exists st'.
  split; [reflexivity|]. split; [apply nodes_altS|].
  assert (Haw : forall b, b <> a -> mem st' !! b = mem st !! b) by (intros; now apply altS_ne).
  rewrite root_mk in Hk, Hr. constructor; rewrite ?root_mk.
  - apply repr_mk. split; [|split].
    + unfold st'. rewrite (altS_eq _ _ _ _ Ha). reflexivity.
    + apply (repr_agree (mem st)); [|exact Ht]. intros b Hb. apply Haw. twice Ho.
    + apply (repr_agree (mem st)); [|exact Hs]. intros b Hb. apply Haw. twice Ho.
  - apply (reprK_agree (mem st)); [|exact Hk]. intros b Hb. apply Haw. twice Ho.
  - exact Hr.
  - intros b. at_most_once Ho b. rewrite occ_mk. lia.
Qed.

(** The other child of a node in the path. *)
Lemma hold_sibling st D g c u k t : hold st ((D, g, c, u) :: k) t <-> hold st ((negb D, g, c, t) :: k) u.
Proof. rewrite !hold_up. now rewrite mk_swap. Qed.

(** What the pointers around a subtree are. *)
Lemma hold_parent st k t a : hold st k t -> root t = Some a -> getParent (Some a) st = Some (parentOf k).
Proof.
  intros H E. destruct t as [|b c l r]; [discriminate|]. injection E as ->.
  destruct H as [(Ha & _) _ _ _]. apply (getParent_some _ _ _ Ha).
Qed.

Lemma hold_child st d D g c u k t : hold st ((D, g, c, u) :: k) t ->
  getC d (Some g) st = Some (if Bool.eqb d D then root t else root u).
Proof. intros [_ (Hg & _) _ _]. now rewrite (getC_some _ _ _ _ Hg), childOf_cell. Qed.

Lemma hold_color st d k a c t s : hold st k (mk d a c t s) -> getColor (Some a) st = Some c.
Proof. intros [Ht _ _ _]. apply repr_mk in Ht as (Ha & _). apply (getColor_some _ _ _ Ha). Qed.

Lemma hold_hasColor st k t c : hold st k t ->
  hasColor c (root t) st = Some (match t with Leaf => false | Node _ c' _ _ => c' =? c end).
Proof.
  intros H. destruct t as [|a c' l r]; [reflexivity|]. unfold hasColor. cbn [root].
  rewrite (hold_color st true k a c' l r H). reflexivity.
Qed.

Lemma hold_nullOrBlack st k t : hold st k t ->
  nullOrBlack (root t) st = Some (match t with Leaf => true | Node _ c' _ _ => c' =? RB_BLACK end).
Proof.
  intros H. destruct t as [|a c' l r]; [reflexivity|]. unfold nullOrBlack. cbn [root].
  rewrite (hold_color st true k a c' l r H). reflexivity.
Qed.

(** The root of a subtree is not the root of its sibling, and not that of the tree
    unless the path is empty. *)
Lemma hold_sibling_ne st D g c u k t a : hold st ((D, g, c, u) :: k) t -> root t = Some a -> root u <> Some a.
Proof. intros H E. pose proof (root_occ _ _ E). pose proof (hold_once _ _ _ H) as Ho. twice Ho. Qed.

Lemma rootK_in k r a : rootK k r = Some a -> r = Some a \/ (1 <= occK a k)%nat.
Proof.
  revert r. induction k as [|[[[d b] c] s] k IH]; intros r E; [now left|]. cbn in *.
  destruct (IH _ E) as [[= ->]|H]; right; [rewrite one_eq|]; lia.
Qed.

Lemma hold_not_root st f k t a : hold st (f :: k) t -> root t = Some a -> rbNode st <> Some a.
Proof.
  intros H E. rewrite (hold_root _ _ _ H). intros E'. pose proof (root_occ _ _ E).
  pose proof (hold_once _ _ _ H a). destruct f as [[[d b] c] s]. cbn [rootK occK] in *.
  destruct (rootK_in _ _ _ E') as [[= ->]|]; [rewrite one_eq in *|]; lia.
Qed.

(** ** Order and balance *)

Fixpoint inorder (t : tree) : list nat :=
  match t with Leaf => [] | Node a _ l r => inorder l ++ a :: inorder r end.

Lemma inorder_rotate d x cx cx' A y cy cy' B C :
  inorder (mk d y cy (mk d x cx A B) C) = inorder (mk d x cx' A (mk d y cy' B C)).
Proof. destruct d; cbn; now rewrite <- ?app_assoc. Qed.

Lemma inorder_fill k t t' : inorder t = inorder t' -> inorder (fill k t) = inorder (fill k t').
Proof.
  revert t t'. induction k as [|[[[d a] c] s] k IH]; intros t t' E; [exact E|]. cbn. apply IH.
  destruct d; cbn; now rewrite E.
Qed.

Lemma inorder_color d a c c' t s : inorder (mk d a c t s) = inorder (mk d a c' t s).
Proof. now destruct d. Qed.

Lemma inorder_mk d a c c' t t' s s' : inorder t = inorder t' -> inorder s = inorder s' ->
  inorder (mk d a c t s) = inorder (mk d a c' t' s').
Proof. intros E1 E2. destruct d; cbn; now rewrite E1, E2. Qed.

Definition isBlack (t : tree) : Prop := match t with Leaf => True | Node _ c _ _ => c = RB_BLACK end.
#[local] Instance isBlack_dec t : Decision (isBlack t).
Proof. destruct t; cbn; apply _. Defined.

(** A tree with [n] black nodes on every path and no red node below a red one. *)
Inductive rb : tree -> nat -> Prop :=
| rb_leaf : rb Leaf 0
| rb_red a l r n : rb l n -> rb r n -> isBlack l -> isBlack r -> rb (Node a RB_RED l r) n
| rb_black a l r n : rb l n -> rb r n -> rb (Node a RB_BLACK l r) (S n).

Definition headBlack (k : path) : Prop := match k with [] => False | (_, _, c, _) :: _ => c = RB_BLACK end.

(** A path that completes a subtree of [n] black nodes; a red node of the path
    needs a black one above and two black children. *)
Fixpoint rbK (k : path) (n : nat) : Prop :=
  match k with
  | [] => True
  | (_, _, c, s) :: k' =>
    rb s n /\ ((c = RB_BLACK /\ rbK k' (S n)) \/ (c = RB_RED /\ isBlack s /\ headBlack k' /\ rbK k' n))
  end.

Lemma rb_mk_red d a t s n : rb t n -> rb s n -> isBlack t -> isBlack s -> rb (mk d a RB_RED t s) n.
Proof. destruct d; constructor; assumption. Qed.

Lemma rb_mk_black d a t s n : rb t n -> rb s n -> rb (mk d a RB_BLACK t s) (S n).
Proof. destruct d; constructor; assumption. Qed.

Lemma rb_mk_inv d a c t s n : rb (mk d a c t s) n ->
  (c = RB_RED /\ rb t n /\ rb s n /\ isBlack t /\ isBlack s) \/
  (c = RB_BLACK /\ exists m, n = S m /\ rb t m /\ rb s m).
Proof. destruct d; inversion 1; subst; [left|right|left|right]; eauto 10. Qed.

Lemma isBlack_mk d a c t s : isBlack (mk d a c t s) <-> c = RB_BLACK.
Proof. now destruct d. Qed.

(** Putting a subtree into its place. *)
Lemma rb_fill k : forall t n, rb t n -> rbK k n -> isBlack t \/ headBlack k \/ k = [] -> exists m, rb (fill k t) m.
Proof.
  induction k as [|[[[d a] c] s] k IH]; intros t n Ht Hk Hc; [now exists n|]. cbn in Hk, Hc |- *.
  destruct Hk as (Hs & [(-> & Hk)|(-> & Hsb & Hh & Hk)]).
  - apply (IH _ (S n)); [now apply rb_mk_black|exact Hk|]. left. now apply isBlack_mk.
  - destruct Hc as [Hc|[Hc|Hc]]; [|discriminate|discriminate].
    apply (IH _ n); [now apply rb_mk_red|exact Hk|auto].
Qed.

(** Taking a tree apart. *)
Lemma rb_unfill k : forall t, isBlack (fill k t) -> (exists m, rb (fill k t) m) ->
  exists n, rb t n /\ rbK k n /\ (isBlack t \/ headBlack k).
Proof.
  induction k as [|[[[d a] c] s] k IH]; intros t Hb Hm; cbn in *.
  - destruct Hm as [m Hm]. exists m. auto.
  - destruct (IH _ Hb Hm) as (n & Hn & Hk & Hc). rewrite isBlack_mk in Hc.
    destruct (rb_mk_inv _ _ _ _ _ _ Hn) as [(-> & Ht & Hs & Htb & Hsb)|(-> & m & -> & Ht & Hs)].
    + exists n. destruct Hc as [Hc|Hc]; [discriminate|]. split; [exact Ht|]. split; [|now left]. auto 10.
    + exists m. split; [exact Ht|]. split; [|now right]. auto.
Qed.

(** ** Insertion *)

Definition equalC (D : bool) (x : option nat) (st : Store) : option (option nat * Store) :=
  p ← getParent x st;
  pc ← getC (negb D) p st;
  if same x pc then st ← rotate D p st; Some (p, st) else Some (x, st).

Definition roundC (D : bool) (x p g : option nat) (st : Store) : option (option nat * Store) :=
  y ← getC (negb D) g st;
  red ← hasColor RB_RED y st;
  if (red : bool) then uncleRed p y g st
  else
    '(x, st) ← equalC D x st;
    '(g, st) ← recolor x st;
    st ← rotate (negb D) g st;
    Some (x, st).

Lemma insertRound_roundC x p st :
  insertRound x p st =
  (g ← getParent p st; gl ← getLeft g st; if same p gl then roundC true x p g st else roundC false x p g st).
Proof. reflexivity. Qed.

(** The round recognises the side of the parent. *)
Lemma insertRound_side st d p cp s D g cg u k t x : hold st ((d, p, cp, s) :: (D, g, cg, u) :: k) t ->
  insertRound (Some x) (Some p) st = roundC D (Some x) (Some p) (Some g) st.
Proof.
  intros H. rewrite hold_up in H. rewrite insertRound_roundC.
  rewrite (hold_parent _ _ _ p H) by apply root_mk. cbn [mbind option_bind parentOf].
  pose proof (hold_child st true _ _ _ _ _ _ H) as Hc. cbn [getC] in Hc. rewrite Hc. cbn [mbind option_bind].
  pose proof (hold_sibling_ne _ _ _ _ _ _ _ p H (root_mk _ _ _ _ _)) as Hne. rewrite root_mk.
  destruct D; cbn [Bool.eqb].
  - now rewrite bool_decide_true.
  - now rewrite bool_decide_false by congruence.
Qed.

(** Uncle is red. *)
Lemma round_uncle st d p s D g y ul ur k t x :
  hold st ((d, p, RB_RED, s) :: (D, g, RB_BLACK, Node y RB_RED ul ur) :: k) t -> 
  exists st', roundC D (Some x) (Some p) (Some g) st = Some (Some g, st') /\ nodes st' = nodes st /\
    hold st' k (mk D g RB_RED (mk d p RB_BLACK t s) (Node y RB_BLACK ul ur)).
Proof.
  intros H. unfold roundC. rewrite hold_up in H. rewrite (hold_child _ (negb D) _ _ _ _ _ _ H).
  replace (Bool.eqb (negb D) D) with false by now destruct D. cbn [mbind option_bind root].
  pose proof H as H'. rewrite hold_sibling in H'. pose proof (hold_hasColor _ _ _ RB_RED H') as Hc. cbn [root] in Hc.
  rewrite Hc. cbn [mbind option_bind]. change (RB_RED =? RB_RED) with true. cbv iota. unfold uncleRed.
  destruct (setColor_hold RB_BLACK d _ p _ _ _ _ H) as (s1 & -> & N1 & H1). cbn [mbind option_bind].
  rewrite hold_sibling in H1. change (Node y RB_RED ul ur) with (mk true y RB_RED ul ur) in H1.
  destruct (setColor_hold RB_BLACK true _ y _ _ _ _ H1) as (s2 & -> & N2 & H2). cbn [mbind option_bind].
  rewrite <- hold_sibling, hold_up in H2.
  destruct (setColor_hold RB_RED D _ g _ _ _ _ H2) as (s3 & -> & N3 & H3). cbn [mbind option_bind].
  exists s3. split; [reflexivity|]. split; [congruence|exact H3].
Qed.

(** The end of a round: parent and grandparent are recoloured and turned. *)
Lemma round_turn st D p cp s g cg u k t x : hold st ((D, p, cp, s) :: (D, g, cg, u) :: k) t -> root t = Some x ->
  exists st',
    ('(g, st) ← recolor (Some x) st; st ← rotate (negb D) g st; Some (Some x, st)) = Some (Some x, st') /\
    nodes st' = nodes st /\ hold st' ((D, p, RB_BLACK, mk (negb D) g RB_RED u s) :: k) t.
Proof.
  intros H E. unfold recolor. rewrite (hold_parent _ _ _ x H E). cbn [mbind option_bind parentOf].
  rewrite hold_up in H. destruct (setColor_hold RB_BLACK D _ p _ _ _ _ H) as (s1 & -> & N1 & H1).
  cbn [mbind option_bind]. rewrite (hold_parent _ _ _ p H1) by apply root_mk. cbn [mbind option_bind parentOf].
  rewrite hold_up in H1. destruct (setColor_hold RB_RED D _ g _ _ _ _ H1) as (s2 & -> & N2 & H2).
  cbn [mbind option_bind]. rewrite <- (mk_swap D g), <- (mk_swap D p) in H2.
  destruct (rotate_hold _ _ _ _ _ _ _ _ _ _ H2) as (s3 & -> & N3 & H3). cbn [mbind option_bind].
  exists s3. split; [reflexivity|]. split; [congruence|].
  rewrite hold_up. now rewrite <- (mk_swap D p).
Qed.

(** Uncle is black. *)
Lemma round_black st d p cp s D g cg u k x cx A B :
  isBlack u -> hold st ((d, p, cp, s) :: (D, g, cg, u) :: k) (mk D x cx A B) ->
  exists st' x' t' s',
    roundC D (Some x) (Some p) (Some g) st = Some (Some x', st') /\ nodes st' = nodes st /\ root t' = Some x' /\
    ((d = D /\ t' = mk D x cx A B /\ hold st' ((D, p, RB_BLACK, mk (negb D) g RB_RED u s) :: k) t') \/
     (d = negb D /\ t' = mk D p cp s A /\ s' = B /\
      hold st' ((D, x, RB_BLACK, mk (negb D) g RB_RED u B) :: k) t')).
Proof.
  intros Hu H. pose proof H as H0. rewrite hold_up in H0. unfold roundC. rewrite (hold_child _ (negb D) _ _ _ _ _ _ H0).
  replace (Bool.eqb (negb D) D) with false by now destruct D. cbn [mbind option_bind].
  rewrite hold_sibling in H0. rewrite (hold_hasColor _ _ _ RB_RED H0). cbn [mbind option_bind].
  assert ((match u with Leaf => false | Node _ c' _ _ => c' =? RB_RED end) = false) as ->
    by (destruct u; [reflexivity|]; cbn in Hu; now rewrite Hu).
  unfold equalC. rewrite (hold_parent _ _ _ x H) by apply root_mk. cbn [mbind option_bind parentOf].
  rewrite (hold_child _ (negb D) _ _ _ _ _ _ H). cbn [mbind option_bind]. rewrite root_mk.
  destruct (Bool.eqb (negb D) d) eqn:Ed.
  - apply eqb_prop in Ed as <-. rewrite bool_decide_true by reflexivity.
    rewrite hold_up in H. rewrite mk_swap in H.
    destruct (rotate_hold _ _ _ _ _ _ _ _ _ _ H) as (s1 & -> & N1 & H1). cbn [mbind option_bind].
    rewrite <- hold_up in H1.
    destruct (round_turn _ _ _ _ _ _ _ _ _ _ p H1 (root_mk _ _ _ _ _)) as (s2 & -> & N2 & H2).
    exists s2, p, (mk D p cp s A), B. split; [reflexivity|]. split; [congruence|]. rewrite root_mk. auto 10.
  - assert (d = D) as -> by (destruct d, D; cbn in Ed; congruence).
    rewrite bool_decide_false by (pose proof (hold_sibling_ne _ _ _ _ _ _ _ x H (root_mk _ _ _ _ _)); congruence).
    cbn [mbind option_bind].
    destruct (round_turn _ _ _ _ _ _ _ _ _ _ x H (root_mk _ _ _ _ _)) as (s2 & -> & N2 & H2).
    exists s2, x, (mk D x cx A B), B. split; [reflexivity|]. split; [congruence|]. rewrite root_mk. auto 10.
Qed.

(** When the parent is black, or there is none, the loop ends. *)
Lemma insertLoop_ends fuel st k t x : hold st k t -> root t = Some x -> headBlack k \/ k = [] ->
  insertLoop (S fuel) (Some x) st = Some st.
Proof.
  intros H E Hk. cbn [insertLoop]. destruct k as [|[[[d p] c] s] k].
  - rewrite (hold_root _ _ _ H). cbn [rootK]. rewrite E, bool_decide_true by reflexivity. reflexivity.
  - destruct Hk as [Hk|Hk]; [|discriminate]. cbn in Hk. subst c.
    pose proof (hold_not_root _ _ _ _ _ H E). rewrite bool_decide_false by congruence.
    rewrite (hold_parent _ _ _ x H E). cbn [mbind option_bind parentOf]. rewrite hold_up in H.
    rewrite (hold_color _ _ _ _ _ _ _ H). reflexivity.
Qed.

(** The whole tree, seen from the root. *)
Lemma hold_fill st k t : hold st k t <-> hold st [] (fill k t).
Proof.
  revert t. induction k as [|[[[d a] c] s] k IH]; intros t; [reflexivity|]. rewrite hold_up. apply IH.
Qed.

Lemma root_fill k t : root t <> None -> root (fill k t) <> None.
Proof.
  revert t. induction k as [|[[[d a] c] s] k IH]; intros t H; [exact H|]. apply IH. cbn. now rewrite root_mk.
Qed.

Lemma insertLoop_ok fuel : forall st k x A B n,
  hold st k (Node x RB_RED A B) -> rb (Node x RB_RED A B) n -> rbK k n -> (length k < fuel)%nat ->
  exists st' T, insertLoop fuel (Some x) st = Some st' /\ nodes st' = nodes st /\ hold st' [] T /\
    inorder T = inorder (fill k (Node x RB_RED A B)) /\ (exists m, rb T m) /\ root T <> None.
Proof.
  induction fuel as [|fuel IH]; intros st k x A B n H Ht Hk Hf; [lia|].
  destruct k as [|[[[d p] cp] s] k].
  { rewrite (insertLoop_ends fuel _ _ _ x H eq_refl) by now right.
    exists st, (Node x RB_RED A B). repeat (split; [reflexivity || exact H || now exists n|]). discriminate. }
  destruct Hk as (Hs & [(-> & Hk)|(-> & Hsb & Hh & Hk)]).
  { rewrite (insertLoop_ends fuel _ _ _ x H eq_refl) by now left.
    exists st, (fill ((d, p, RB_BLACK, s) :: k) (Node x RB_RED A B)). split; [reflexivity|]. split; [reflexivity|].
    split; [now rewrite <- hold_fill|]. split; [reflexivity|]. split.
    - apply (rb_fill _ _ n Ht); cbn; auto.
    - now apply root_fill. }
  destruct k as [|[[[D g] cg] u] k]; [destruct Hh|]. cbn in Hh. subst cg.
  destruct Hk as (Hu & [(_ & Hk)|(? & _)]); [|discriminate].
  cbn [insertLoop]. pose proof (hold_not_root _ _ _ _ _ H eq_refl). rewrite bool_decide_false by congruence.
  rewrite (hold_parent _ _ _ x H eq_refl). cbn [mbind option_bind parentOf].
  pose proof H as H'. rewrite hold_up in H'. rewrite (hold_color _ _ _ _ _ _ _ H'). cbn [mbind option_bind].
  change (RB_RED =? RB_RED) with true. cbn [negb].
  rewrite (insertRound_side _ _ _ _ _ _ _ _ _ _ _ x H).
  assert (Hcase : isBlack u \/ exists y ul ur, u = Node y RB_RED ul ur)
    by (inversion Hu; subst; [now left|right; eauto|now left]).
  destruct Hcase as [Hub|(y & ul & ur & ->)].
  - destruct (mk_any D (Node x RB_RED A B) ltac:(discriminate)) as (x0 & c0 & A0 & B0 & E).
    assert (x0 = x /\ c0 = RB_RED) as [-> ->] by (destruct D; injection E; auto). rewrite E in *.
    destruct (rb_mk_inv _ _ _ _ _ _ Ht) as [(_ & HA & HB & HAb & HBb)|(? & _)]; [|discriminate].
    destruct (round_black _ _ _ _ _ _ _ _ _ _ _ _ _ _ Hub H) as (st' & x' & t' & s' & -> & N1 & E1 & Hc).
    cbn [mbind option_bind]. destruct fuel as [|fuel]; [cbn in Hf; lia|].
    destruct Hc as [(-> & -> & Hc)|(-> & -> & -> & Hc)];
      rewrite (insertLoop_ends fuel _ _ _ x' Hc E1) by (now left); exists st'; eexists;
      (split; [reflexivity|]; split; [exact N1|]; split; [rewrite <- hold_fill; exact Hc|]; split; [|split]).
    + cbn [fill fill1]. apply inorder_fill. rewrite <- (mk_swap D p), <- (mk_swap D g), <- (mk_swap D p).
      apply inorder_rotate.
    + apply (rb_fill _ _ n Ht); [|cbn; auto]. cbn. split; [|left; auto]. now apply rb_mk_red.
    + apply root_fill. now rewrite root_mk.
    + cbn [fill fill1]. apply inorder_fill. destruct D; cbn; repeat (rewrite <- ?app_assoc; cbn); reflexivity.
    + apply (rb_fill _ _ n); [now apply rb_mk_red| |cbn; auto]. cbn. split; [|left; auto]. now apply rb_mk_red.
    + apply root_fill. now rewrite root_mk.
  - destruct (round_uncle _ _ _ _ _ _ _ _ _ _ _ x H) as (st' & -> & N1 & H1). cbn [mbind option_bind].
    set (t1 := mk D g RB_RED _ _) in H1.
    assert (Ht1 : rb t1 (S n)).
    { inversion Hu; subst. apply rb_mk_red; [apply rb_mk_black|constructor|apply isBlack_mk|]; try assumption; reflexivity. }
    assert (exists l r, t1 = Node g RB_RED l r) as (l & r & E1) by (unfold t1; destruct D; eauto).
    rewrite E1 in *. destruct (IH _ _ _ _ _ _ H1 Ht1 Hk) as (st2 & T & -> & N2 & H2 & E2 & Hm & HT);
      [cbn in Hf; lia|].
    exists st2, T. split; [reflexivity|]. split; [congruence|]. split; [exact H2|]. split; [|auto].
    rewrite E2, <- E1. cbn [fill fill1]. apply inorder_fill. unfold t1.
    apply inorder_mk; [apply inorder_color|reflexivity].
Qed.

(** *** The length of a path *)

Definition frameAddr (f : frame) : nat := let '(_, a, _, _) := f in a.

Lemma occK_frames a k : a ∈ map frameAddr k -> (1 <= occK a k)%nat.
Proof.
  induction k as [|[[[d b] c] s] k IH]; cbn; [intros H; now apply not_elem_of_nil in H|].
  intros [->|H]%elem_of_cons; [rewrite one_eq; lia|]. specialize (IH H). lia.
Qed.

Lemma frames_NoDup k : (forall a, (occK a k <= 1)%nat) -> NoDup (map frameAddr k).
Proof.
  induction k as [|[[[d b] c] s] k IH]; cbn; intros H; constructor.
  - intros Hin. pose proof (occK_frames b k Hin). specialize (H b). rewrite one_eq in H. lia.
  - apply IH. intros a. specialize (H a). lia.
Qed.

Lemma frames_in h k r a : reprK h k r -> a ∈ map frameAddr k -> a ∈ dom h.
Proof.
  revert r. induction k as [|[[[d b] c] s] k IH]; cbn; intros r H Ha; [now apply not_elem_of_nil in Ha|].
  destruct H as (Hb & _ & Hk). apply elem_of_cons in Ha as [->|Ha]; [now apply elem_of_dom_2 in Hb|eauto].
Qed.

Lemma path_length st k t : hold st k t -> (length k <= size (mem st))%nat.
Proof.
  intros H. rewrite <- size_dom.
  assert (Hn : NoDup (map frameAddr k)) by (apply frames_NoDup; intros a; pose proof (hold_once _ _ _ H a); lia).
  rewrite <- (length_map frameAddr k), <- (size_list_to_set (C := gset nat) _ Hn).
  apply subseteq_size. intros a Ha. apply elem_of_list_to_set in Ha. exact (frames_in _ _ _ _ (hold_k _ _ _ H) Ha).
Qed.

Definition blacken (t : tree) : tree := match t with Leaf => Leaf | Node a _ l r => Node a RB_BLACK l r end.

Lemma rb_blacken t n : rb t n -> exists m, rb (blacken t) m.
Proof. destruct 1; cbn; [exists 0%nat; constructor|exists (S n); now constructor|exists (S n); now constructor]. Qed.

Lemma inorder_blacken t : inorder (blacken t) = inorder t.
Proof. now destruct t. Qed.

Lemma isBlack_blacken t : isBlack (blacken t).
Proof. now destruct t. Qed.

Lemma blacken_hold st k t : hold st k t ->
  exists st', match root t with Some _ => setColor RB_BLACK (root t) st | None => Some st end = Some st' /\
    nodes st' = nodes st /\ hold st' k (blacken t).
Proof.
  intros H. destruct t as [|a c l r]; [now exists st|]. cbn [root].
  exact (setColor_hold RB_BLACK true k a c l r st H).
Qed.

(** A tree that is well formed: balanced, with a black root. *)
Definition wf (T : tree) : Prop := isBlack T /\ exists m, rb T m.

(** Rebalancing after a new red leaf was linked in. *)
Lemma FillpRbInsertColor_ok st k x : hold st k (Node x RB_RED Leaf Leaf) -> rbK k 0 ->
  exists st' T, FillpRbInsertColor (Some x) st = Some st' /\ nodes st' = nodes st /\ hold st' [] T /\ wf T /\
    inorder T = inorder (fill k (Node x RB_RED Leaf Leaf)).
Proof.
  intros H Hk. unfold FillpRbInsertColor. pose proof (path_length _ _ _ H) as Hl.
  destruct (insertLoop_ok (S (size (mem st))) st k x Leaf Leaf 0 H) as (s1 & T & -> & N1 & H1 & E1 & [m Hm] & HT);
    [repeat constructor|exact Hk|lia|].
  cbn [mbind option_bind]. destruct (blacken_hold _ _ _ H1) as (s2 & E2 & N2 & H2).
  rewrite (hold_root _ _ _ H1). cbn [rootK]. destruct (root T) as [a|] eqn:Er; [|congruence].
  exists s2, (blacken T). split; [exact E2|]. split; [congruence|]. split; [exact H2|].
  split; [split; [apply isBlack_blacken|now apply (rb_blacken T m)]|]. now rewrite inorder_blacken.
Qed.

(** ** Removal *)

Definition eraseC (D : bool) (x parent : option nat) (st : Store) : option (option nat * option nat * Store * bool) :=
  w ← getC (negb D) parent st;
  cw ← getColor w st;
  if cw =? RB_RED then
    st ← setColor RB_BLACK w st;
    st ← setColor RB_RED parent st;
    st ← rotate D parent st;
    Some (x, parent, st, false)
  else
    wl ← getLeft w st;
    wr ← getRight w st;
    bl ← nullOrBlack wl st;
    br ← nullOrBlack wr st;
    if bl && br then
      st ← setColor RB_RED w st;
      p ← getParent parent st;
      Some (parent, p, st, false)
    else
      '(w, st) ← (if (if D then br else bl) then
                    st ← (match (if D then wl else wr) with
                          | Some _ => setColor RB_BLACK (if D then wl else wr) st
                          | None => Some st
                          end);
                    st ← setColor RB_RED w st;
                    st ← rotate (negb D) w st;
                    w ← getC (negb D) parent st;
                    Some (w, st)
                  else Some (w, st));
      cp ← getColor parent st;
      st ← setColor cp w st;
      st ← setColor RB_BLACK parent st;
      wf ← getC (negb D) w st;
      c ← getColor wf st;
      st ← (if negb (c =? RB_BLACK) then setColor RB_BLACK wf st else Some st);
      st ← rotate D parent st;
      Some (rbNode st, parent, st, true).

Lemma eraseLeft_eraseC x p st : FillpRbEraseColorAtLeft x p st = eraseC true x p st.
Proof. reflexivity. Qed.
Lemma eraseRight_eraseC x p st : FillpRbEraseColorAtRight x p st = eraseC false x p st.
Proof. reflexivity. Qed.

(** The sibling is red. *)
Lemma erase_red st D p cp w Wn Wf k t x : hold st ((D, p, cp, mk D w RB_RED Wn Wf) :: k) t ->
  exists st', eraseC D x (Some p) st = Some (x, Some p, st', false) /\ nodes st' = nodes st /\
    hold st' ((D, p, RB_RED, Wn) :: (D, w, RB_BLACK, Wf) :: k) t.
Proof.
  intros H. unfold eraseC. rewrite (hold_child _ (negb D) _ _ _ _ _ _ H).
  replace (Bool.eqb (negb D) D) with false by now destruct D. rewrite root_mk. cbn [mbind option_bind].
  rewrite hold_sibling in H. rewrite (hold_color _ _ _ _ _ _ _ H). cbn [mbind option_bind].
  change (RB_RED =? RB_RED) with true. cbv iota.
  destruct (setColor_hold RB_BLACK _ _ _ _ _ _ _ H) as (s1 & -> & N1 & H1). cbn [mbind option_bind].
  rewrite <- hold_sibling, hold_up in H1.
  destruct (setColor_hold RB_RED _ _ _ _ _ _ _ H1) as (s2 & -> & N2 & H2). cbn [mbind option_bind].
  destruct (rotate_hold _ _ _ _ _ _ _ _ _ _ H2) as (s3 & -> & N3 & H3). cbn [mbind option_bind].
  exists s3. split; [reflexivity|]. split; [congruence|]. rewrite !hold_up. exact H3.
Qed.

(** The colours of the children of the sibling, as the code reads them. *)
Lemma sibling_children st D p cp w cw Wn Wf k t : hold st ((D, p, cp, mk D w cw Wn Wf) :: k) t ->
  getLeft (Some w) st = Some (if D then root Wn else root Wf) /\
  getRight (Some w) st = Some (if D then root Wf else root Wn) /\
  nullOrBlack (root Wn) st = Some (match Wn with Leaf => true | Node _ c' _ _ => c' =? RB_BLACK end) /\
  nullOrBlack (root Wf) st = Some (match Wf with Leaf => true | Node _ c' _ _ => c' =? RB_BLACK end).
Proof.
  intros H. rewrite hold_sibling, <- hold_up in H.
  pose proof (hold_child _ true _ _ _ _ _ _ H) as Hl. pose proof (hold_child _ false _ _ _ _ _ _ H) as Hr.
  cbn [getC] in Hl, Hr. rewrite Hl, Hr. split; [now destruct D|]. split; [now destruct D|].
  split; [apply (hold_nullOrBlack _ _ _ H)|]. rewrite hold_sibling in H. apply (hold_nullOrBlack _ _ _ H).
Qed.

Lemma black_test t : isBlack t -> match t with Leaf => true | Node _ c' _ _ => c' =? RB_BLACK end = true.
Proof. destruct t; [reflexivity|]. cbn. now intros ->. Qed.

(** The sibling is black and so are its children. *)
Lemma erase_black st D p cp w Wn Wf k t x : isBlack Wn -> isBlack Wf ->
  hold st ((D, p, cp, mk D w RB_BLACK Wn Wf) :: k) t ->
  exists st', eraseC D x (Some p) st = Some (Some p, parentOf k, st', false) /\ nodes st' = nodes st /\
    hold st' k (mk D p cp t (mk D w RB_RED Wn Wf)).
Proof.
  intros Hn Hf H. destruct (sibling_children _ _ _ _ _ _ _ _ _ _ H) as (Hl & Hr & Bn & Bf).
  rewrite (black_test _ Hn) in Bn. rewrite (black_test _ Hf) in Bf.
  unfold eraseC. rewrite (hold_child _ (negb D) _ _ _ _ _ _ H).
  replace (Bool.eqb (negb D) D) with false by now destruct D. rewrite root_mk. cbn [mbind option_bind].
  rewrite hold_sibling in H. rewrite (hold_color _ _ _ _ _ _ _ H). cbn [mbind option_bind].
  change (RB_BLACK =? RB_RED) with false. cbv iota. rewrite Hl. cbn [mbind option_bind]. rewrite Hr. cbn [mbind option_bind].
  assert (nullOrBlack (if D then root Wn else root Wf) st = Some true) as -> by now destruct D.
  cbn [mbind option_bind].
  assert (nullOrBlack (if D then root Wf else root Wn) st = Some true) as -> by now destruct D.
  cbn [mbind option_bind andb].
  destruct (setColor_hold RB_RED _ _ _ _ _ _ _ H) as (s1 & -> & N1 & H1). cbn [mbind option_bind].
  rewrite <- hold_sibling, hold_up in H1. rewrite (hold_parent _ _ _ p H1) by apply root_mk. cbn [mbind option_bind].
  exists s1. auto.
Qed.

(** The end of the last case: the far child is there. *)
Definition eraseTurn (D : bool) (parent w : option nat) (st : Store) : option (option nat * option nat * Store * bool) :=
  cp ← getColor parent st;
  st ← setColor cp w st;
  st ← setColor RB_BLACK parent st;
  wf ← getC (negb D) w st;
  c ← getColor wf st;
  st ← (if negb (c =? RB_BLACK) then setColor RB_BLACK wf st else Some st);
  st ← rotate D parent st;
  Some (rbNode st, parent, st, true).

Lemma erase_turn st D p cp w cw Wn Wf k t : Wf <> Leaf -> hold st ((D, p, cp, mk D w cw Wn Wf) :: k) t ->
  exists st', eraseTurn D (Some p) (Some w) st = Some (rbNode st', Some p, st', true) /\ nodes st' = nodes st /\
    hold st' k (mk D w cp (mk D p RB_BLACK t Wn) (blacken Wf)).
Proof.
  intros Hf H. unfold eraseTurn. pose proof H as H0. rewrite hold_up in H0. rewrite (hold_color _ _ _ _ _ _ _ H0).
  cbn [mbind option_bind]. rewrite hold_sibling in H.
  destruct (setColor_hold cp _ _ _ _ _ _ _ H) as (s1 & -> & N1 & H1). cbn [mbind option_bind].
  rewrite <- hold_sibling, hold_up in H1.
  destruct (setColor_hold RB_BLACK _ _ _ _ _ _ _ H1) as (s2 & -> & N2 & H2). cbn [mbind option_bind].
  rewrite <- hold_up, hold_sibling, <- hold_up in H2. rewrite (hold_child _ (negb D) _ _ _ _ _ _ H2).
  replace (Bool.eqb (negb D) D) with false by now destruct D. cbn [mbind option_bind].
  rewrite hold_sibling in H2. destruct Wf as [|f c lf rf]; [congruence|]. cbn [root].
  change (Node f c lf rf) with (mk true f c lf rf) in H2. rewrite (hold_color _ _ _ _ _ _ _ H2). cbn [mbind option_bind].
  assert (exists s3, (if negb (c =? RB_BLACK) then setColor RB_BLACK (Some f) s2 else Some s2) = Some s3 /\
    nodes s3 = nodes s2 /\ hold s3 ((negb D, w, cp, Wn) :: (negb D, p, RB_BLACK, t) :: k) (Node f RB_BLACK lf rf))
    as (s3 & -> & N3 & H3).
  { destruct (Z.eqb_spec c RB_BLACK) as [->|]; cbn [negb]; [now exists s2|].
    exact (setColor_hold RB_BLACK _ _ _ _ _ _ _ H2). }
  cbn [mbind option_bind]. rewrite !hold_up, !mk_swap in H3.
  destruct (rotate_hold _ _ _ _ _ _ _ _ _ _ H3) as (s4 & -> & N4 & H4). cbn [mbind option_bind].
  exists s4. split; [reflexivity|]. split; [congruence|exact H4].
Qed.

(** The near child is red and the far one black: the sibling is turned first. *)
Lemma erase_near st D p cp w v P Q Wf k t :
  hold st ((D, p, cp, mk D w RB_BLACK (mk D v RB_RED P Q) Wf) :: k) t ->
  exists st',
    (st ← setColor RB_BLACK (Some v) st; st ← setColor RB_RED (Some w) st; st ← rotate (negb D) (Some w) st;
     w ← getC (negb D) (Some p) st; Some (w, st)) = Some (Some v, st') /\ nodes st' = nodes st /\
    hold st' ((D, p, cp, mk D v RB_BLACK P (mk D w RB_RED Q Wf)) :: k) t.
Proof.
  intros H. rewrite hold_sibling, <- hold_up in H.
  destruct (setColor_hold RB_BLACK _ _ _ _ _ _ _ H) as (s1 & -> & N1 & H1). cbn [mbind option_bind].
  rewrite hold_up in H1. destruct (setColor_hold RB_RED _ _ _ _ _ _ _ H1) as (s2 & -> & N2 & H2). cbn [mbind option_bind].
  rewrite <- (mk_swap D w), <- (mk_swap D v) in H2.
  destruct (rotate_hold _ _ _ _ _ _ _ _ _ _ H2) as (s3 & -> & N3 & H3). cbn [mbind option_bind].
  rewrite !mk_swap in H3. rewrite <- hold_sibling in H3.
  rewrite (hold_child _ (negb D) _ _ _ _ _ _ H3). replace (Bool.eqb (negb D) D) with false by now destruct D.
  rewrite root_mk. cbn [mbind option_bind]. exists s3. split; [reflexivity|]. split; [congruence|exact H3].
Qed.

(** The sibling is black with a red child: this ends the loop. *)
Lemma erase_last st D p cp w Wn Wf k t x n : rb Wn n -> rb Wf n -> ~ (isBlack Wn /\ isBlack Wf) ->
  hold st ((D, p, cp, mk D w RB_BLACK Wn Wf) :: k) t ->
  exists st' w' A B, eraseC D x (Some p) st = Some (rbNode st', Some p, st', true) /\ nodes st' = nodes st /\
    hold st' k (mk D w' cp (mk D p RB_BLACK t A) B) /\ rb A n /\ rb B (S n) /\ isBlack B /\
    inorder (mk D w' cp (mk D p RB_BLACK t A) B) = inorder (mk D p cp t (mk D w RB_BLACK Wn Wf)).
Proof.
  intros Hn Hf Hnb H. destruct (sibling_children _ _ _ _ _ _ _ _ _ _ H) as (Hl & Hr & Bn & Bf).
  unfold eraseC. rewrite (hold_child _ (negb D) _ _ _ _ _ _ H).
  replace (Bool.eqb (negb D) D) with false by now destruct D. rewrite root_mk. cbn [mbind option_bind].
  pose proof H as H0. rewrite hold_sibling in H0. rewrite (hold_color _ _ _ _ _ _ _ H0). cbn [mbind option_bind].
  change (RB_BLACK =? RB_RED) with false. cbv iota. rewrite Hl. cbn [mbind option_bind]. rewrite Hr. cbn [mbind option_bind].
  set (bn := match Wn with Leaf => true | _ => _ end) in Bn. set (bf := match Wf with Leaf => true | _ => _ end) in Bf.
  assert (nullOrBlack (if D then root Wn else root Wf) st = Some (if D then bn else bf)) as -> by now destruct D.
  cbn [mbind option_bind].
  assert (nullOrBlack (if D then root Wf else root Wn) st = Some (if D then bf else bn)) as -> by now destruct D.
  cbn [mbind option_bind].
  assert (Hc : forall T m, rb T m -> ~ isBlack T -> exists a l r, T = mk D a RB_RED l r /\ rb l m /\ rb r m /\
    isBlack l /\ isBlack r).
  { intros T m HT HTb. destruct (mk_any D T) as (a & c & l & r & ->); [intros ->; now apply HTb|].
    exists a, l, r. destruct (rb_mk_inv _ _ _ _ _ _ HT) as [(-> & ?)|(-> & _)]; [tauto|].
    exfalso. now apply HTb, isBlack_mk. }
  destruct (decide (isBlack Wf)) as [HfB|HfR].
  - (* the near child is red *)
    assert (HnR : ~ isBlack Wn) by tauto. destruct (Hc _ _ Hn HnR) as (v & P & Q & -> & HP & HQ & HPb & HQb).
    assert (bf = true) as -> by apply (black_test _ HfB).
    assert (bn = false) as -> by (unfold bn; now destruct D).
    replace (_ && _) with false by now destruct D. cbv iota.
    replace (if D then if D then true else false else if D then false else true) with true by now destruct D.
    assert (Hw : (if D then if D then root (mk D v RB_RED P Q) else root Wf
                  else if D then root Wf else root (mk D v RB_RED P Q)) = Some v) by (destruct D; reflexivity).
    rewrite Hw. destruct (erase_near _ _ _ _ _ _ _ _ _ _ _ H) as (s1 & -> & N1 & H1). cbn [mbind option_bind].
    destruct (erase_turn s1 D p cp v RB_BLACK P (mk D w RB_RED Q Wf) k t) as (s2 & E2 & N2 & H2);
      [destruct D; discriminate|exact H1|].
    exists s2, v, P, (blacken (mk D w RB_RED Q Wf)). split; [exact E2|]. split; [congruence|]. split; [exact H2|].
    replace (blacken (mk D w RB_RED Q Wf)) with (mk D w RB_BLACK Q Wf) by now destruct D.
    split; [exact HP|]. split; [now apply rb_mk_black|]. split; [now apply isBlack_mk|].
    destruct D; cbn; repeat (rewrite <- ?app_assoc; cbn); reflexivity.
  - destruct (Hc _ _ Hf HfR) as (f & P & Q & -> & HP & HQ & HPb & HQb).
    assert (bf = false) as -> by (unfold bf; now destruct D).
    replace (_ && _) with false by (destruct D, bn; reflexivity). cbv iota.
    replace (if D then if D then false else bn else if D then bn else false) with false by now destruct D.
    cbv iota. cbn [mbind option_bind].
    destruct (erase_turn st D p cp w RB_BLACK Wn (mk D f RB_RED P Q) k t) as (s2 & E2 & N2 & H2);
      [destruct D; discriminate|exact H|].
    exists s2, w, Wn, (blacken (mk D f RB_RED P Q)). split; [exact E2|]. split; [congruence|]. split; [exact H2|].
    replace (blacken (mk D f RB_RED P Q)) with (mk D f RB_BLACK P Q) by now destruct D.
    split; [exact Hn|]. split; [now apply rb_mk_black|]. split; [now apply isBlack_mk|].
    destruct D; cbn; repeat (rewrite <- ?app_assoc; cbn); reflexivity.
Qed.

(** The loop recognises the side of the subtree. *)
Lemma eraseLoop_side fuel st D p cp W k t : hold st ((D, p, cp, W) :: k) t -> W <> Leaf -> isBlack t ->
  eraseLoop (S fuel) (root t) (Some p) st =
  ('(x, parent, st, done) ← eraseC D (root t) (Some p) st;
   if (done : bool) then Some (x, st) else eraseLoop fuel x parent st).
Proof.
  intros H HW Hb. cbn [eraseLoop].
  assert (same (root t) (rbNode st) = false) as ->.
  { apply bool_decide_false. destruct (root t) as [a|] eqn:E.
    - pose proof (hold_not_root _ _ _ _ _ H E). congruence.
    - rewrite (hold_root _ _ _ H). cbn [rootK]. clear. generalize p. induction k as [|[[[d b] c] s] k IH]; intros q; cbn;
        [discriminate|apply IH]. }
  rewrite (hold_nullOrBlack _ _ _ H), (black_test _ Hb). cbn [mbind option_bind negb].
  pose proof (hold_child _ true _ _ _ _ _ _ H) as Hc. cbn [getC] in Hc. rewrite Hc. cbn [mbind option_bind].
  destruct D; cbn [Bool.eqb].
  - rewrite bool_decide_true by reflexivity. now rewrite eraseLeft_eraseC.
  - rewrite bool_decide_false; [now rewrite eraseRight_eraseC|].
    destruct (root t) as [a|] eqn:E.
    + pose proof (hold_sibling_ne _ _ _ _ _ _ _ _ H E). congruence.
    + destruct W; [congruence|discriminate].
Qed.

Lemma eraseLoop_stops fuel st k t : hold st k t -> (k = [] \/ ~ isBlack t) ->
  eraseLoop (S fuel) (root t) (parentOf k) st = Some (root t, st).
Proof.
  intros H Hc. cbn [eraseLoop]. destruct (decide (root t = rbNode st)) as [E|E].
  - now rewrite bool_decide_true.
  - rewrite bool_decide_false by exact E. rewrite (hold_nullOrBlack _ _ _ H). cbn [mbind option_bind].
    destruct Hc as [->|Hc]; [now rewrite (hold_root _ _ _ H) in E|].
    destruct t as [|a c l r]; [now destruct Hc|]. cbn in Hc. destruct (Z.eqb_spec c RB_BLACK); [now destruct Hc|reflexivity].
Qed.

Lemma eraseLoop_ok fuel : forall st k t n,
  hold st k t -> rb t n -> rbK k (S n) ->
  (length k + 3 <= fuel)%nat \/ (2 <= fuel)%nat /\ ~ headBlack k ->
  exists st' k' t' m, eraseLoop fuel (root t) (parentOf k) st = Some (root t', st') /\ nodes st' = nodes st /\
    hold st' k' t' /\ inorder (fill k' t') = inorder (fill k t) /\ rb (blacken t') m /\ rbK k' m.
Proof.
  induction fuel as [|fuel IH]; intros st k t n H Ht Hk Hf; [lia|].
  assert (Hcase : (k = [] \/ ~ isBlack t) \/ (k <> [] /\ isBlack t)).
  { destruct k; [auto|]. destruct (decide (isBlack t)); [right; split; [discriminate|assumption]|left; now right]. }
  destruct Hcase as [Hc|[Hne Hb]].
  { rewrite (eraseLoop_stops fuel _ _ _ H Hc). destruct Hc as [->|Hc].
    - destruct (rb_blacken t n Ht) as [m Hm]. exists st, [], t, m. auto 10.
    - exists st, k, t, (S n). repeat (split; [reflexivity || assumption|]). split; [|exact Hk].
      destruct Ht; [now destruct Hc|cbn; now constructor|now destruct Hc]. }
  destruct k as [|[[[D p] cp] W] k]; [congruence|]. clear Hne. destruct Hk as (HW & Hk).
  assert (HWne : W <> Leaf) by (intros ->; inversion HW). cbn [parentOf]. rewrite (eraseLoop_side fuel _ _ _ _ _ _ _ H HWne Hb).
  destruct (mk_any D W HWne) as (w & cw & Wn & Wf & ->).
  destruct (rb_mk_inv _ _ _ _ _ _ HW) as [(-> & HWn & HWf & HWnb & HWfb)|(-> & m & [= <-] & HWn & HWf)].
  - (* red sibling *)
    destruct Hk as [(-> & Hk)|(_ & Hsb & _)]; [|now apply isBlack_mk in Hsb].
    destruct Hf as [Hf|(_ & Hf)]; [|now cbn in Hf].
    destruct (erase_red _ _ _ _ _ _ _ _ _ (root t) H) as (s1 & -> & N1 & H1). cbn [mbind option_bind].
    destruct (IH s1 _ t n H1 Ht) as (s2 & k' & t' & m & E & N2 & H2 & E2 & Hm & Hk').
    + cbn. split; [exact HWn|]. right. auto 10.
    + right. cbn in Hf |- *. split; [lia|discriminate].
    + cbn [parentOf] in E. exists s2, k', t', m. split; [exact E|]. split; [congruence|]. split; [exact H2|].
      split; [|auto]. rewrite E2. cbn [fill fill1]. apply inorder_fill. apply inorder_rotate.
  - destruct (decide (isBlack Wn /\ isBlack Wf)) as [[Hnb Hfb]|Hnb].
    + (* black children *)
      destruct (erase_black _ _ _ _ _ _ _ _ _ (root t) Hnb Hfb H) as (s1 & -> & N1 & H1). cbn [mbind option_bind].
      set (t1 := mk D p cp t (mk D w RB_RED Wn Wf)) in *. assert (Hr1 : root t1 = Some p) by apply root_mk.
      assert (Ein : inorder (fill k t1) = inorder (fill ((D, p, cp, mk D w RB_BLACK Wn Wf) :: k) t)).
      { cbn [fill fill1]. apply inorder_fill, inorder_mk; [reflexivity|apply inorder_color]. }
      assert (HW' : rb (mk D w RB_RED Wn Wf) n) by now apply rb_mk_red.
      destruct Hk as [(-> & Hk)|(-> & _ & _ & Hk)].
      * destruct (IH s1 k t1 (S n) H1) as (s2 & k' & t' & m & E & N2 & H2 & E2 & Hm & Hk').
        -- now apply rb_mk_black.
        -- exact Hk.
        -- destruct Hf as [Hf|(_ & Hf)]; [left; cbn in Hf; lia|now cbn in Hf].
        -- rewrite Hr1 in E. exists s2, k', t', m. split; [exact E|]. split; [congruence|]. rewrite E2, Ein. auto.
      * destruct fuel as [|fuel]; [cbn in Hf; lia|].
        assert (Hnot : ~ isBlack t1) by (unfold t1; rewrite isBlack_mk; discriminate).
        pose proof (eraseLoop_stops fuel _ _ _ H1 (or_intror Hnot)) as E. rewrite Hr1 in E. rewrite E.
        exists s1, k, t1, (S n). split; [now rewrite Hr1|]. split; [exact N1|]. split; [exact H1|].
        split; [exact Ein|]. split; [|exact Hk]. unfold t1.
        replace (blacken _) with (mk D p RB_BLACK t (mk D w RB_RED Wn Wf)) by now destruct D. now apply rb_mk_black.
    + destruct (erase_last _ _ _ _ _ _ _ _ _ (root t) n HWn HWf Hnb H)
        as (s1 & w' & A & B & -> & N1 & H1 & HA & HB & HBb & Ein). cbn [mbind option_bind].
      set (t1 := mk D w' cp (mk D p RB_BLACK t A) B) in *.
      assert (exists m, rb (fill k t1) m) as [m Hm].
      { assert (Hp : rb (mk D p RB_BLACK t A) (S n)) by now apply rb_mk_black.
        destruct Hk as [(-> & Hk)|(-> & _ & Hh & Hk)].
        - apply (rb_fill k _ (S (S n))); [now apply rb_mk_black|exact Hk|]. left. now apply isBlack_mk.
        - apply (rb_fill k _ (S n)); [apply rb_mk_red; try assumption; now apply isBlack_mk|exact Hk|auto]. }
      destruct (rb_blacken _ _ Hm) as [m' Hm']. exists s1, [], (fill k t1), m'.
      rewrite hold_fill in H1. rewrite (hold_root _ _ _ H1). cbn [rootK].
      split; [reflexivity|]. split; [exact N1|]. split; [exact H1|]. split; [|cbn; auto].
      cbn [fill fill1]. now apply inorder_fill.
Qed.

Lemma top_black k : forall t n, rbK k n -> k <> [] -> isBlack (fill k t).
Proof.
  induction k as [|[[[d a] c] s] k IH]; intros t n Hk Hne; [congruence|]. cbn in *.
  destruct k as [|f k].
  - destruct Hk as (_ & [(-> & _)|(_ & _ & [] & _)]). now apply isBlack_mk.
  - destruct Hk as (_ & [(-> & Hk)|(-> & _ & _ & Hk)]); eapply (IH _ _ Hk); discriminate.
Qed.

(** Rebalancing a subtree that lacks a black node. *)
Lemma FillpRbEraseColor_ok st k t n : hold st k t -> rb t n -> rbK k (S n) ->
  exists st' T, FillpRbEraseColor (root t) (parentOf k) st = Some st' /\ nodes st' = nodes st /\ hold st' [] T /\
    wf T /\ inorder T = inorder (fill k t).
Proof.
  intros H Ht Hk. unfold FillpRbEraseColor. pose proof (path_length _ _ _ H) as Hl.
  destruct (eraseLoop_ok (3 + size (mem st)) st k t n H Ht Hk) as (s1 & k' & t' & m & -> & N1 & H1 & E1 & Hm & Hk');
    [lia|].
  cbn [mbind option_bind]. destruct (blacken_hold _ _ _ H1) as (s2 & -> & N2 & H2).
  exists s2, (fill k' (blacken t')). split; [reflexivity|]. split; [congruence|]. rewrite hold_fill in H2.
  split; [exact H2|]. split; [split|].
  - destruct k' as [|f k']; [apply isBlack_blacken|]. apply (top_black _ _ _ Hk'). discriminate.
  - apply (rb_fill k' _ m Hm Hk'). left. apply isBlack_blacken.
  - rewrite <- E1. apply inorder_fill, inorder_blacken.
Qed.

(** *** Taking a node out *)

(** A store that agrees with another one on the nodes of the tree. *)
Lemma hold_agree st st' k t : hold st k t -> rbNode st' = rbNode st ->
  (forall a, (1 <= occ a t + occK a k)%nat -> mem st' !! a = mem st !! a) -> hold st' k t.
Proof.
  intros [H1 H2 H3 H4] Hr Ha. constructor.
  - apply (repr_agree (mem st)); [|exact H1]. intros a Hoa. apply Ha. lia.
  - apply (reprK_agree (mem st)); [|exact H2]. intros a Hoa. apply Ha. lia.
  - congruence.
  - exact H4.
Qed.

Definition dirOf (k : path) : bool := match k with [] => true | (d, _, _, _) :: _ => d end.

Lemma lookup_reparented x p st b :
  mem (reparented x p st) !! b = if decide (x = Some b) then withParent p <$> mem st !! b else mem st !! b.
Proof. case_decide; [subst x; apply reparented_eq|now apply reparented_ne]. Qed.

Lemma lookup_linked k y st b :
  mem (linked k y st) !! b = if decide (parentOf k = Some b) then withChild (dirOf k) y <$> mem st !! b else mem st !! b.
Proof.
  case_decide as E; [|now apply linked_ne]. destruct k as [|[[[e q] c] s] k]; [discriminate|]. injection E as ->.
  apply linked_eq.
Qed.

Lemma lookup_altS f a st b :
  mem (altS f a st) !! b = if decide (a = b) then f <$> mem st !! b else mem st !! b.
Proof. case_decide; [subst b; apply lookup_alter_eq|now apply altS_ne]. Qed.

(** The code compares the link with the node. *)
Lemma relink_left k x y st : (forall e q c s k', k = (e, q, c, s) :: k' ->
    exists p, mem st !! q = Some (cell p e (Some x) (root s) c) /\ root s <> Some x) ->
  match parentOf k with
  | Some _ => pl ← getLeft (parentOf k) st;
              if same pl (Some x) then setLeft y (parentOf k) st else setRight y (parentOf k) st
  | None => Some (setRoot y st)
  end = Some (linked k y st).
Proof.
  intros H. rewrite <- (relink true k x y st H). destruct (parentOf k) as [p|]; [|reflexivity]. cbn [getC setC negb].
  destruct (getLeft (Some p) st) as [pl|]; [|reflexivity]. cbn [mbind option_bind].
  destruct (decide (pl = Some x)) as [->|Hne]; [reflexivity|]. now rewrite !bool_decide_false by congruence.
Qed.

Lemma repr_root_some h t p a : repr h t p -> root t = Some a -> is_Some (h !! a).
Proof. destruct t; [discriminate|]. intros (H & _) [= <-]. now rewrite H. Qed.

Ltac frame_head H := let e := fresh "e" in let q := fresh "q" in let c := fresh "c" in let s := fresh "s" in
  let k := fresh "k'" in intros e q c s k ->; cbn in H; destruct H as (?H & _).

(** A node with one child at most is replaced by it. *)
Lemma bypass_hold st k d z c t : hold st k (mk d z c t Leaf) ->
  hold (linked k (root t) (reparented (root t) (parentOf k) st)) k t.
Proof.
  intros [Ht Hk Hr Ho]. apply repr_mk in Ht as (Hz & Ht & _). rewrite root_mk in Hk, Hr. constructor.
  - apply (repr_reparent (mem st) _ _ (Some z)); [| | |exact Ht].
    + intros a. at_most_once Ho a. lia.
    + intros a Ha Hne. rewrite lookup_linked, lookup_reparented, !decide_False; [reflexivity|exact Hne|twice Ho].
    + intros a E. pose proof (root_occ _ _ E). rewrite lookup_linked, lookup_reparented, decide_False by twice Ho.
      now rewrite decide_True.
  - apply (reprK_rechild (mem st) _ _ (Some z)); [| | |exact Hk].
    + intros a. at_most_once Ho a. lia.
    + intros a Ha Hne. rewrite lookup_linked, lookup_reparented, !decide_False; [reflexivity|twice Ho|exact Hne].
    + intros e q cq s k' ->. rewrite lookup_linked, lookup_reparented, decide_True by reflexivity.
      rewrite decide_False; [reflexivity|twice Ho].
  - apply (rootK_linked _ _ _ (Some z)). now rewrite reparented_root.
  - intros a. at_most_once Ho a. lia.
Qed.

(** A node [z] is replaced by a node [s] that is not in the tree. *)
Definition replaced (k : path) (c : Z) (L R : tree) (s : nat) (st : Store) : Store :=
  linked k (Some s) (reparented (root R) (Some s) (reparented (root L) (Some s)
    (altS (fun _ => mkNode (parentOf k) (root R) (root L) c) s st))).

Lemma replace_hold st k z c L R s : hold st k (Node z c L R) -> is_Some (mem st !! s) ->
  occ s (Node z c L R) = 0%nat -> occK s k = 0%nat -> hold (replaced k c L R s st) k (Node s c L R).
Proof.
  intros [(Hz & HL & HR) Hk Hr Ho] [ns Hs] Hs1 Hs2. cbn [root occ] in *.
  assert (Hfr : forall b, (1 <= occ b L + occ b R + occK b k)%nat -> s <> b) by (intros b Hb ->; lia).
  constructor; unfold replaced.
  - cbn [repr]. split; [|split].
    + rewrite lookup_linked, !lookup_reparented, lookup_altS.
      rewrite (decide_False (P := parentOf k = Some s)) by (intros E; pose proof (parent_occ _ _ E); lia).
      rewrite (decide_False (P := root R = Some s)) by (intros E; pose proof (root_occ _ _ E); lia).
      rewrite (decide_False (P := root L = Some s)) by (intros E; pose proof (root_occ _ _ E); lia).
      now rewrite decide_True, Hs.
    + apply (repr_reparent (mem st) _ _ (Some z)); [| | |exact HL].
      * intros a. at_most_once Ho a. lia.
      * intros a Ha Hne. rewrite lookup_linked, !lookup_reparented, lookup_altS, !decide_False;
          [reflexivity|apply Hfr; lia|exact Hne|twice Ho|twice Ho].
      * intros a E. pose proof (root_occ _ _ E). rewrite lookup_linked, !lookup_reparented, lookup_altS.
        rewrite (decide_False (P := parentOf k = Some a)) by twice Ho.
        rewrite (decide_False (P := root R = Some a)) by twice Ho.
        rewrite decide_True, decide_False by (assumption || apply Hfr; lia). reflexivity.
    + apply (repr_reparent (mem st) _ _ (Some z)); [| | |exact HR].
      * intros a. at_most_once Ho a. lia.
      * intros a Ha Hne. rewrite lookup_linked, !lookup_reparented, lookup_altS, !decide_False;
          [reflexivity|apply Hfr; lia|twice Ho|exact Hne|twice Ho].
      * intros a E. pose proof (root_occ _ _ E). rewrite lookup_linked, !lookup_reparented, lookup_altS.
        rewrite (decide_False (P := parentOf k = Some a)) by twice Ho. rewrite decide_True by assumption.
        rewrite !decide_False; [reflexivity|apply Hfr; lia|twice Ho].
  - cbn [root]. apply (reprK_rechild (mem st) _ _ (Some z)); [| | |exact Hk].
    + intros a. at_most_once Ho a. lia.
    + intros a Ha Hne. rewrite lookup_linked, !lookup_reparented, lookup_altS, !decide_False;
        [reflexivity|apply Hfr; lia|twice Ho|twice Ho|exact Hne].
    + intros e q cq sq k' ->. pose proof (parent_occ ((e, q, cq, sq) :: k') q eq_refl).
      rewrite lookup_linked, !lookup_reparented, lookup_altS, decide_True by reflexivity.
      rewrite !decide_False; [reflexivity|apply Hfr; lia|twice Ho|twice Ho].
  - apply (rootK_linked _ _ _ (Some z)). now rewrite !reparented_root.
  - intros a. at_most_once Ho a. cbn [occ]. destruct (decide (a = s)) as [->|Hne]; [rewrite one_eq; lia|].
    rewrite (one_ne a s Hne). lia.
Qed.

(** *** A node with two children *)

Lemma fill_app k1 k2 t : fill (k1 ++ k2) t = fill k2 (fill k1 t).
Proof. revert t. induction k1 as [|f k1 IH]; intros t; [reflexivity|]. apply IH. Qed.

Lemma hold_app st k1 k2 t : hold st (k1 ++ k2) t <-> hold st k2 (fill k1 t).
Proof. rewrite (hold_fill st (k1 ++ k2)), fill_app, <- hold_fill. reflexivity. Qed.

Lemma occ_fill a k t : occ a (fill k t) = (occ a t + occK a k)%nat.
Proof.
  revert t. induction k as [|[[[d b] c] s] k IH]; intros t; [cbn; lia|].
  cbn [fill fill1 occK]. rewrite IH, occ_mk. lia.
Qed.

Lemma occK_app a k1 k2 : occK a (k1 ++ k2) = (occK a k1 + occK a k2)%nat.
Proof. induction k1 as [|[[[d b] c] s] k1 IH]; cbn; [reflexivity|]. rewrite IH. lia. Qed.

Lemma root_fill_same k t t' : k <> [] -> root (fill k t) = root (fill k t').
Proof.
  revert t t'. induction k as [|[[[d b] c] s] k IH]; intros t t' Hne; [congruence|]. cbn [fill fill1].
  destruct k as [|f k]; [cbn [fill]; now rewrite !root_mk|]. apply IH. discriminate.
Qed.

Lemma root_frames k t a : k <> [] -> root (fill k t) = Some a -> (1 <= occK a k)%nat.
Proof.
  revert t. induction k as [|[[[d b] c] s] k IH]; intros t Hne E; [congruence|]. cbn [fill fill1 occK] in *.
  destruct k as [|f k].
  - cbn [fill] in E. rewrite root_mk in E. injection E as ->. rewrite one_eq. lia.
  - specialize (IH (mk d b c t s) ltac:(discriminate) E). lia.
Qed.

(** The leftmost node of a subtree and the path to it. *)
Definition leftFrames (k : path) : Prop := Forall (fun f => f.1.1.1 = true) k.

Lemma split_leftmost R : R <> Leaf ->
  exists kR s cs C, R = fill kR (Node s cs Leaf C) /\ leftFrames kR.
Proof.
  induction R as [|a c l IHl r _]; [congruence|]. intros _. destruct l as [|b cb ll lr].
  - exists [], a, c, r. split; [reflexivity|constructor].
  - destruct IHl as (kR & s & cs & C & E & Hk); [discriminate|]. rewrite E.
    exists (kR ++ [(true, a, c, r)]), s, cs, C. rewrite fill_app. split; [reflexivity|].
    apply Forall_app. split; [exact Hk|]. now repeat constructor.
Qed.

Lemma leftmost_ok st s cs C kR : forall K fuel, hold st (kR ++ K) (Node s cs Leaf C) -> leftFrames kR ->
  (length kR < fuel)%nat -> leftmost fuel (root (fill kR (Node s cs Leaf C))) st = Some (Some s).
Proof.
  induction kR as [|[[[d a] c] r] kR IH] using rev_ind; intros K fuel H Hl Hf.
  - destruct fuel as [|fuel]; [cbn in Hf; lia|]. cbn [fill root leftmost]. destruct H as [(Hs & _) _ _ _].
    unfold getLeft, load. cbn. now rewrite Hs.
  - apply Forall_app in Hl as [Hl Hd]. apply Forall_cons_1 in Hd as [Hd _]. cbn in Hd. subst d.
    rewrite length_app in Hf. destruct fuel as [|fuel]; [lia|]. rewrite <- app_assoc in H.
    rewrite fill_app. cbn [fill fill1 root mk leftmost].
    pose proof H as H'. rewrite hold_app in H'. cbn [app] in H'.
    pose proof (hold_child _ true _ _ _ _ _ _ H') as Hc. cbn [getC Bool.eqb] in Hc. rewrite Hc. cbn [mbind option_bind].
    assert (Hne : root (fill kR (Node s cs Leaf C)) <> None) by now apply root_fill.
    destruct (root (fill kR (Node s cs Leaf C))) as [l|] eqn:El; [|congruence].
    apply (IH ((true, a, c, r) :: K)); [exact H|exact Hl|]. cbn in Hf. lia.
Qed.

(** The last part of [FillpRbEraseLowlvlNode]. *)
Definition takeOver (oldNode node childNode parentNode : option nat) (c : Z) (st : Store) : option Store :=
  oc ← getColor oldNode st;
  st ← setColor oc node st;
  op ← getParent oldNode st;
  st ← setParent op node st;
  ol ← getLeft oldNode st;
  st ← setLeft ol node st;
  ol ← getLeft oldNode st;
  st ← setParent node ol st;
  if c =? RB_BLACK then FillpRbEraseColor childNode parentNode st else Some st.

(** Its middle part, where the successor is taken out of its place. *)
Definition spliceOut (oldNode node childNode parentNode : option nat) (st : Store) : option (option nat * Store) :=
  st ← (match childNode with Some _ => setParent parentNode childNode st | None => Some st end);
  st ← setLeft childNode parentNode st;
  oldRight ← getRight oldNode st;
  st ← setRight oldRight node st;
  oldRight ← getRight oldNode st;
  st ← setParent node oldRight st;
  Some (parentNode, st).

Lemma lowlvl_parts x st : FillpRbEraseLowlvlNode x st =
  (n ← getRight x st;
   node ← leftmost (S (size (mem st))) n st;
   st ← replaceChild x node st;
   ch ← getRight node st;
   pa ← getParent node st;
   c ← getColor node st;
   '(pa, st) ← (if same pa x then Some (node, st) else spliceOut x node ch pa st);
   takeOver x node ch pa c st).
Proof. reflexivity. Qed.

Lemma repr_in h t : forall p a, repr h t p -> (1 <= occ a t)%nat -> is_Some (h !! a).
Proof.
  induction t as [|b c l IHl r IHr]; intros p a; [cbn; lia|]. intros (Hb & Hl & Hr). cbn [occ]. unfold one.
  case_decide as E; [subst; rewrite Hb; eauto|]. intros Ho. destruct (decide (occ a l = 0%nat)); [eapply IHr|eapply IHl]; eauto; lia.
Qed.

Lemma reprK_in h k : forall r a, reprK h k r -> (1 <= occK a k)%nat -> is_Some (h !! a).
Proof.
  induction k as [|[[[d b] c] s] k IH]; intros r a; [cbn; lia|]. intros (Hb & Hs & Hk). cbn [occK]. unfold one.
  case_decide as E; [subst; rewrite Hb; eauto|]. intros Ho.
  destruct (decide (occ a s = 0%nat)); [eapply IH|eapply repr_in]; eauto; lia.
Qed.

(** The value at an address of a store that was updated in several places. *)
Ltac look := repeat first [rewrite lookup_linked | rewrite lookup_reparented | rewrite lookup_altS];
  cbn [parentOf app]; repeat (case_decide; simplify_eq; try congruence).

Lemma spliceOut_ok z s rc q b n2 n3 n4 st1 : rc <> Some z -> q <> z -> s <> z -> rc <> Some s -> q <> s -> b <> z ->
  mem st1 !! z = Some n2 -> rbRight n2 = Some b -> mem st1 !! s = Some n3 ->
  (forall a, rc = Some a -> is_Some (mem st1 !! a)) -> mem st1 !! q = Some n4 -> is_Some (mem st1 !! b) ->
  spliceOut (Some z) (Some s) rc (Some q) st1 = Some (Some q,
    altS (withParent (Some s)) b (altS (withChild false (Some b)) s
      (altS (withChild true rc) q (reparented rc (Some q) st1)))).
Proof.
  intros HCz Hqz Hsz HCs Hqs Hbz Hz Hzb Hs HC Hq [nb Hb]. unfold spliceOut.
  rewrite (reparent_step _ _ _ HC). cbn [mbind option_bind].
  change (setLeft rc) with (setC true rc).
  assert (exists n5, mem (reparented rc (Some q) st1) !! q = Some n5) as [n5 H5] by (look; rewrite Hq; eauto).
  rewrite (setC_some _ _ _ _ _ H5). cbn [mbind option_bind]. change (getRight (Some z)) with (getC false (Some z)).
  erewrite getC_some by (look; exact Hz). cbn [mbind option_bind childOf]. rewrite Hzb.
  change (setRight (Some b)) with (setC false (Some b)).
  erewrite setC_some by (look; exact Hs). cbn [mbind option_bind].
  erewrite getC_some by (look; exact Hz). cbn [mbind option_bind childOf]. rewrite Hzb.
  assert (exists n6, mem (altS (withChild false (Some b)) s (altS (withChild true rc) q (reparented rc (Some q) st1))) !! b
    = Some n6) as [n6 H6] by
    (look; match goal with Hx : mem st1 !! ?x = Some _ |- context [mem st1 !! ?x] => rewrite Hx end; cbn; eauto).
  now rewrite (setParent_some _ _ _ _ H6).
Qed.

Section TwoChildren.

Context (st : Store) (k : path) (z : nat) (c : Z) (L : tree) (kR : path) (s : nat) (cs : Z) (C : tree).
Context (H : hold st (kR ++ (false, z, c, L) :: k) (Node s cs Leaf C)) (HL : L <> Leaf).

#[local] Abbreviation K := (kR ++ (false, z, c, L) :: k).
#[local] Abbreviation R := (fill kR (Node s cs Leaf C)).

Lemma two_once a : (one a s + occ a C + (occK a kR + (one a z + occ a L + occK a k)) <= 1)%nat.
Proof using H. pose proof (hold_once _ _ _ H a) as Ho. rewrite occK_app in Ho. cbn [occ occK] in Ho. lia. Qed.

(** The tree without [s], which takes the place of [z]. *)
Lemma successor_hold :
  hold (replaced k c L (fill kR C) s (linked K (root C) (reparented (root C) (parentOf K) st))) k (Node s c L (fill kR C)).
Proof using H.
  pose proof two_once as Ho.
  pose proof (bypass_hold st K false s cs C H) as H1. rewrite hold_app, hold_up in H1. cbn [mk] in H1.
  apply (replace_hold _ k z); [exact H1| | |].
  - rewrite lookup_linked, lookup_reparented. destruct H as [(Hs & _) _ _ _]. rewrite Hs.
    repeat case_decide; eexists; reflexivity.
  - cbn [occ]. rewrite occ_fill. pose proof (Ho s) as Hs. rewrite one_eq in Hs. lia.
  - pose proof (Ho s) as Hs. rewrite one_eq in Hs. lia.
Qed.

Lemma old_cell : mem st !! z = Some (mkNode (parentOf k) (root R) (root L) c).
Proof using H. pose proof H as H'. rewrite hold_app in H'. destruct H' as [_ (Hz & _) _ _]. exact Hz. Qed.

Lemma new_cell : mem st !! s = Some (mkNode (parentOf K) (root C) None cs).
Proof using H. destruct H as [(Hs & _) _ _ _]. exact Hs. Qed.

(** Which of the pointers involved differ. *)
Ltac differ := let E := fresh "E" in let Hdiff := fresh "Hdiff" in intros E; match type of E with
  | root ?t = Some ?b => pose proof (root_occ b t E); pose proof (two_once b) as Hdiff
  | parentOf ?k0 = Some ?b => pose proof (parent_occ k0 b E); pose proof (two_once b) as Hdiff
  | ?a = ?b => pose proof (two_once a) as Hdiff; rewrite <- E in Hdiff
  end; rewrite ?one_eq in Hdiff; lia.

Lemma z_s : z <> s. Proof using H. differ. Qed.
Lemma k_z : parentOf k <> Some z. Proof using H. differ. Qed.
Lemma k_s : parentOf k <> Some s. Proof using H. differ. Qed.
Lemma C_z : root C <> Some z. Proof using H. differ. Qed.
Lemma C_s : root C <> Some s. Proof using H. differ. Qed.
Lemma L_z : root L <> Some z. Proof using H. differ. Qed.
Lemma L_s : root L <> Some s. Proof using H. differ. Qed.
Lemma C_L a : root C = Some a -> root L = Some a -> False.
Proof using H. intros E1. pose proof (root_occ _ _ E1). differ. Qed.
Lemma k_C a : parentOf k = Some a -> root C = Some a -> False.
Proof using H. intros E1. pose proof (parent_occ _ _ E1). differ. Qed.
Lemma k_L a : parentOf k = Some a -> root L = Some a -> False.
Proof using H. intros E1. pose proof (parent_occ _ _ E1). differ. Qed.

Lemma k_head e q cq sq k' : k = (e, q, cq, sq) :: k' ->
  exists p, mem st !! q = Some (cell p e (Some z) (root sq) cq) /\ root sq <> Some z.
Proof using H.
  intros Ek. pose proof H as H'. rewrite hold_app in H'. destruct H' as [_ (_ & _ & Hk) _ _].
  pose proof (two_once z) as Ho. rewrite Ek in Hk, Ho. cbn [reprK occK] in Hk, Ho. destruct Hk as (Hq & _).
  eexists. split; [exact Hq|]. intros E. pose proof (root_occ _ _ E). rewrite one_eq in Ho. lia.
Qed.

(** Finding the successor. *)
Lemma lowlvl_starts : leftFrames kR -> exists n, getRight (Some z) st = Some n /\
  leftmost (S (size (mem st))) n st = Some (Some s) /\
  replaceChild (Some z) (Some s) st = Some (linked k (Some s) st).
Proof using H.
  intros Hl. exists (root R). split; [|split].
  - exact (getC_some false z st _ old_cell).
  - eapply leftmost_ok; [exact H|exact Hl|]. pose proof (path_length _ _ _ H) as Hp. rewrite length_app in Hp. cbn in Hp. lia.
  - unfold replaceChild. rewrite (getParent_some _ _ _ old_cell). cbn [mbind option_bind rbParent].
    apply relink_left. exact k_head.
Qed.

(** The successor takes over the place of [z]. *)
Lemma takeOver_ok ch pa ns st1 : mem st1 !! z = mem st !! z -> mem st1 !! s = Some ns ->
  (forall l, root L = Some l -> is_Some (mem st1 !! l)) ->
  exists st', takeOver (Some z) (Some s) ch pa cs st1 =
    (if cs =? RB_BLACK then FillpRbEraseColor ch pa st' else Some st') /\
    nodes st' = nodes st1 /\ rbNode st' = rbNode st1 /\
    forall a, mem st' !! a = mem (reparented (root L) (Some s)
      (altS (fun n => mkNode (parentOf k) (rbRight n) (root L) c) s st1)) !! a.
Proof using H HL.
  intros Hz Hs Hl. rewrite old_cell in Hz. pose proof z_s. pose proof L_z. pose proof L_s.
  destruct (root L) as [l|] eqn:El; [|now destruct L]. destruct (Hl l eq_refl) as [nl Hnl].
  unfold takeOver. rewrite (getColor_some _ _ _ Hz). cbn [mbind option_bind color].
  rewrite (setColor_some _ _ _ _ Hs). cbn [mbind option_bind].
  erewrite getParent_some by (look; exact Hz). cbn [mbind option_bind rbParent].
  erewrite setParent_some by (look; rewrite Hs; reflexivity). cbn [mbind option_bind].
  change (getLeft (Some z)) with (getC true (Some z)).
  erewrite getC_some by (look; exact Hz). cbn [mbind option_bind childOf rbLeft].
  change (setLeft (Some l)) with (setC true (Some l)).
  erewrite setC_some by (look; rewrite Hs; reflexivity). cbn [mbind option_bind].
  erewrite getC_some by (look; exact Hz). cbn [mbind option_bind childOf rbLeft].
  erewrite setParent_some by (look; exact Hnl). cbn [mbind option_bind].
  eexists. split; [reflexivity|]. split; [now rewrite !nodes_altS|]. split; [reflexivity|].
  intros a. look. rewrite Hs. reflexivity.
Qed.

(** The store [successor_hold] speaks of. *)
#[local] Abbreviation target :=
  (replaced k c L (fill kR C) s (linked K (root C) (reparented (root C) (parentOf K) st))).

Lemma target_hold st' : rbNode st' = rbNode target -> (forall a, a <> z -> mem st' !! a = mem target !! a) ->
  hold st' (kR ++ (false, s, c, L) :: k) C.
Proof using H.
  intros Hr Ha. rewrite hold_app, hold_up. cbn [mk]. apply (hold_agree target); [exact successor_hold|exact Hr|].
  intros a Hoa. apply Ha. intros ->. cbn [occ] in Hoa. rewrite occ_fill in Hoa.
  pose proof (two_once z) as Ho. pose proof (one_ne z s z_s). rewrite one_eq in Ho. lia.
Qed.

Lemma L_some st1 : nodes st1 = nodes st -> forall l, root L = Some l -> is_Some (mem st1 !! l).
Proof using H.
  intros N l El. apply elem_of_dom. change (l ∈ nodes st1). rewrite N. apply elem_of_dom.
  pose proof H as H'. rewrite hold_app in H'. destruct H' as [_ (_ & Hl & _) _ _]. now apply (repr_root_some _ L (Some z)).
Qed.

Lemma C_cell a : root C = Some a -> exists n, mem st !! a = Some n /\ rbParent n = Some s.
Proof using H.
  intros E. destruct H as [(_ & _ & HC) _ _ _]. destruct C as [|b cb l r]; [discriminate|].
  injection E as ->. destruct HC as (Hb & _). eexists. split; [exact Hb|reflexivity].
Qed.

(** The successor is the right child. *)
Lemma lowlvl_child : kR = [] -> exists st', FillpRbEraseLowlvlNode (Some z) st =
    (if cs =? RB_BLACK then FillpRbEraseColor (root C) (Some s) st' else Some st') /\
  nodes st' = nodes st /\ hold st' (kR ++ (false, s, c, L) :: k) C.
Proof using H HL.
  intros E. pose proof z_s. pose proof k_z. pose proof k_s. pose proof C_z. pose proof C_s. pose proof L_z. pose proof L_s.
  pose proof old_cell as Hz. pose proof new_cell as Hs. pose proof k_C as HkC. pose proof k_L as HkL. pose proof C_L as HCL.
  pose proof C_cell as HCc.   destruct lowlvl_starts as (n & E1 & E2 & E3); [rewrite E; constructor|].
  destruct (takeOver_ok (root C) (Some s) (mkNode (parentOf K) (root C) None cs) (linked k (Some s) st))
    as (st' & Et & Nt & Rt & Mt).
  { look. }
  { look. }
  { apply L_some, nodes_linked. }
  exists st'. split; [|split].
  - rewrite lowlvl_parts, E1. cbn [mbind option_bind]. rewrite E2. cbn [mbind option_bind].
    rewrite E3. cbn [mbind option_bind]. change (getRight (Some s)) with (getC false (Some s)).
    assert (Hs1 : mem (linked k (Some s) st) !! s = Some (mkNode (parentOf K) (root C) None cs)) by look.
    rewrite (getC_some _ _ _ _ Hs1). cbn [mbind option_bind]. rewrite (getParent_some _ _ _ Hs1).
    cbn [mbind option_bind]. rewrite (getColor_some _ _ _ Hs1). cbn [mbind option_bind rbParent color childOf rbRight].
    rewrite bool_decide_true by now rewrite E. exact Et.
  - rewrite Nt. apply nodes_linked.
  - apply target_hold.
    + rewrite Rt. unfold replaced. rewrite !rbNode_linked, !reparented_root. cbn [rbNode altS].
      rewrite rbNode_linked, reparented_root, E. reflexivity.
    + intros a Ha. rewrite Mt, E. unfold replaced. cbn [fill app]. look; try (exfalso; eauto; fail).
      * now rewrite Hs.
      * destruct (HCc a) as ([p r l ca] & -> & Hp); [assumption|]. cbn in Hp. now subst p.
Qed.

Lemma frames_away a : (1 <= occK a kR)%nat ->
  a <> z /\ a <> s /\ root C <> Some a /\ root L <> Some a /\ parentOf k <> Some a.
Proof using H.
  intros Ha. pose proof (two_once a) as Ho.
  assert (z <> a /\ s <> a) as [Hz Hs] by (split; intros E; rewrite E, one_eq in Ho; lia).
  repeat split; try congruence; intros E; [pose proof (root_occ _ _ E)|pose proof (root_occ _ _ E)|pose proof (parent_occ _ _ E)]; lia.
Qed.

Lemma E_some st1 a : nodes st1 = nodes st -> (1 <= occK a kR)%nat \/ root C = Some a -> is_Some (mem st1 !! a).
Proof using H.
  intros N Ha. apply elem_of_dom. change (a ∈ nodes st1). rewrite N. apply elem_of_dom. destruct H as [(_ & _ & HC) Hk _ _].
  destruct Ha as [Ha|Ha]; [|exact (repr_root_some _ _ _ _ HC Ha)]. apply (reprK_in _ _ _ _ Hk). rewrite occK_app. lia.
Qed.

(** The successor is deeper. *)
Lemma lowlvl_deep q cq sq kR' : kR = (true, q, cq, sq) :: kR' -> leftFrames kR -> exists st', FillpRbEraseLowlvlNode (Some z) st =
    (if cs =? RB_BLACK then FillpRbEraseColor (root C) (Some q) st' else Some st') /\
  nodes st' = nodes st /\ hold st' (kR ++ (false, s, c, L) :: k) C.
Proof using H HL.
  intros E Hlf. pose proof z_s. pose proof k_z. pose proof k_s. pose proof C_z. pose proof C_s. pose proof L_z. pose proof L_s.
  pose proof old_cell as Hz. pose proof new_cell as Hs. pose proof k_C as HkC. pose proof k_L as HkL. pose proof C_L as HCL.
  pose proof C_cell as HCc.   assert (HK : parentOf K = Some q) by now rewrite E.
  assert (HlK : forall y s0, linked K y s0 = altS (withChild true y) q s0) by now rewrite E.
  assert (Hoq : (1 <= occK q kR)%nat) by (rewrite E; cbn [occK]; rewrite one_eq; lia).
  destruct (frames_away q Hoq) as (Hqz & Hqs & HqC & HqL & Hqk).
  assert (Hne : kR <> []) by now rewrite E.
  destruct (root (fill kR C)) as [b|] eqn:Eb.
  2: { pose proof (root_fill_same kR (Node s cs Leaf C) C Hne) as Er. rewrite Eb in Er.
       exfalso. revert Er. apply root_fill. discriminate. }
  destruct (frames_away b) as (Hbz & Hbs & HbC & HbL & Hbk); [exact (root_frames _ _ _ Hne Eb)|].
  destruct lowlvl_starts as (n & E1 & E2 & E3); [exact Hlf|].
  rewrite (root_fill_same _ _ C Hne), Eb in Hz.
  set (st1 := linked k (Some s) st) in *.
  set (st2 := altS (withChild true (root C)) q (reparented (root C) (Some q) st1)).
  set (st4 := altS (withParent (Some s)) b (altS (withChild false (Some b)) s st2)).
  assert (N4 : nodes st4 = nodes st) by (unfold st4, st2, st1; now rewrite !nodes_altS, nodes_reparented, nodes_linked).
  assert (Hs1 : mem st1 !! s = Some (mkNode (parentOf K) (root C) None cs)) by (unfold st1; look).
  destruct (takeOver_ok (root C) (Some q) (mkNode (Some q) (Some b) None cs) st4) as (st' & Et & Nt & Rt & Mt).
  { unfold st4, st2, st1. look. }
  { unfold st4, st2, st1. look. now rewrite Hs, HK. }
  { now apply L_some. }
  exists st'. split; [|split; [congruence|]].
  - rewrite lowlvl_parts, E1. cbn [mbind option_bind]. rewrite E2. cbn [mbind option_bind].
    rewrite E3. cbn [mbind option_bind]. change (getRight (Some s)) with (getC false (Some s)).
    rewrite (getC_some _ _ _ _ Hs1). cbn [mbind option_bind]. rewrite (getParent_some _ _ _ Hs1).
    cbn [mbind option_bind]. rewrite (getColor_some _ _ _ Hs1). cbn [mbind option_bind rbParent color childOf rbRight].
    rewrite HK, bool_decide_false by congruence.
    destruct (E_some st1 q) as [nq Hq]; [apply nodes_linked|left; exact Hoq|].
    rewrite (spliceOut_ok z s (root C) q b (mkNode (parentOf k) (Some b) (root L) c) _ nq st1 ltac:(assumption) Hqz
      ltac:(congruence) ltac:(assumption) Hqs Hbz ltac:(unfold st1; look) eq_refl Hs1); [exact Et| |exact Hq|].
    + intros a Ha. apply E_some; [apply nodes_linked|now right].
    + apply E_some; [apply nodes_linked|]. left. exact (root_frames _ _ _ Hne Eb).
  - apply target_hold.
    + rewrite Rt. unfold replaced, st4, st2, st1. rewrite !rbNode_linked, !reparented_root. cbn [rbNode altS].
      rewrite !reparented_root, !rbNode_linked, !reparented_root, HK. reflexivity.
    + intros a Ha. rewrite Mt. unfold replaced, st4, st2, st1. rewrite Eb, HK, HlK.
      clear - Hs Ha HkC HkL HCL H0 H2 H4 H6 Hqz Hqs HqC HqL Hqk Hbz Hbs HbC HbL Hbk.
      look; try (exfalso; eauto; fail). now rewrite Hs.
Qed.

End TwoChildren.

(** *** Removal keeps the tree balanced and takes out one node *)

Lemma inorder_ctx k : exists l1 l2, forall t, inorder (fill k t) = l1 ++ inorder t ++ l2.
Proof.
  induction k as [|[[[d a] c] s] k (l1 & l2 & IH)].
  - exists [], []. intros t. now rewrite app_nil_r.
  - destruct d.
    + exists l1, (a :: inorder s ++ l2). intros t. cbn [fill fill1 mk]. rewrite IH. cbn. now rewrite <- app_assoc.
    + exists (l1 ++ inorder s ++ [a]), l2. intros t. cbn [fill fill1 mk]. rewrite IH. cbn. now rewrite <- !app_assoc.
Qed.

Lemma inorder_leftFrames k : leftFrames k -> exists l2, forall t, inorder (fill k t) = inorder t ++ l2.
Proof.
  induction 1 as [|[[[d a] c] s] k Hd _ (l2 & IH)].
  - exists []. intros t. now rewrite app_nil_r.
  - cbn in Hd. subst d. exists (a :: inorder s ++ l2). intros t. cbn [fill fill1 mk]. rewrite IH. cbn. now rewrite <- app_assoc.
Qed.

Lemma split_node z T : (1 <= occ z T)%nat -> exists k c L R, T = fill k (Node z c L R).
Proof.
  induction T as [|a c l IHl r IHr]; cbn [occ]; [lia|]. unfold one. case_decide as E.
  - subst a. intros _. now exists [], c, l, r.
  - intros Ho. destruct (decide (occ z l = 0%nat)).
    + destruct IHr as (k & c' & L & R & ->); [lia|]. exists (k ++ [(false, a, c, l)]), c', L, R. now rewrite fill_app.
    + destruct IHl as (k & c' & L & R & ->); [lia|]. exists (k ++ [(true, a, c, r)]), c', L, R. now rewrite fill_app.
Qed.

(** The address of a node of the path does not matter for balance. *)
Lemma rbK_rename kR d z s c L k n : rbK (kR ++ (d, z, c, L) :: k) n -> rbK (kR ++ (d, s, c, L) :: k) n.
Proof.
  revert n. induction kR as [|[[[e a] ca] t] kR IH]; intros n; [auto|]. cbn.
  intros (Ht & [(-> & Hk)|(-> & Hb & Hh & Hk)]); split; auto. right. repeat split; auto.
  destruct kR as [|[[[? ?] ?] ?] ?]; exact Hh.
Qed.

Lemma rb_under kR d s z c L k x cx C n : rb (mk d z c (fill kR (Node x cx Leaf C)) L) n -> rbK k n ->
  c = RB_BLACK \/ headBlack k -> exists m, rb (Node x cx Leaf C) m /\ rbK (kR ++ (d, s, c, L) :: k) m /\
    (cx = RB_BLACK \/ headBlack (kR ++ (d, s, c, L) :: k)).
Proof.
  intros Hn Hk Hc.
  assert (Hf : exists m, rb (fill k (mk d z c (fill kR (Node x cx Leaf C)) L)) m).
  { apply (rb_fill k _ n Hn Hk). rewrite isBlack_mk. tauto. }
  replace (fill k _) with (fill (kR ++ (d, z, c, L) :: k) (Node x cx Leaf C)) in Hf by (rewrite fill_app; reflexivity).
  assert (Hb : isBlack (fill (kR ++ (d, z, c, L) :: k) (Node x cx Leaf C))).
  { rewrite fill_app. destruct k as [|f k]; [|apply (top_black _ _ n Hk); discriminate].
    destruct Hc as [->|[]]. now apply isBlack_mk. }
  destruct (rb_unfill _ _ Hb Hf) as (m & Hm & HK & Hh). exists m. split; [exact Hm|].
  split; [exact (rbK_rename _ _ _ s _ _ _ _ HK)|]. destruct Hh as [Hh|Hh]; [now left|right].
  destruct kR as [|[[[? ?] ?] ?] ?]; exact Hh.
Qed.

(** What is left to do when a node with one child at most is out of the tree. *)
Lemma after_removal st d z c t k n : hold st k t -> rb (mk d z c t Leaf) n -> rbK k n -> c = RB_BLACK \/ headBlack k ->
  exists st' T, (if c =? RB_BLACK then FillpRbEraseColor (root t) (parentOf k) st else Some st) = Some st' /\
    nodes st' = nodes st /\ hold st' [] T /\ wf T /\ inorder T = inorder (fill k t).
Proof.
  intros H Ht Hk Hc. destruct (rb_mk_inv _ _ _ _ _ _ Ht) as [(-> & Ht' & _ & Hb & _)|(-> & m & -> & Ht' & _)].
  - cbn [Z.eqb RB_RED RB_BLACK]. destruct Hc as [|Hh]; [discriminate|]. exists st, (fill k t).
    split; [reflexivity|]. split; [reflexivity|]. split; [exact (proj1 (hold_fill st k t) H)|]. split; [|reflexivity]. split.
    + apply (top_black k t n Hk). now destruct k.
    + apply (rb_fill k t n Ht' Hk). now left.
  - rewrite Z.eqb_refl. exact (FillpRbEraseColor_ok st k t m H Ht' Hk).
Qed.

(** The first case of [FillpRbErase]. *)
Lemma erase_single st k d z c t n : hold st k (mk d z c t Leaf) -> rb (mk d z c t Leaf) n -> rbK k n ->
  c = RB_BLACK \/ headBlack k -> exists st' T, FillpRbErase (Some z) st = Some st' /\
    nodes st' = nodes st /\ hold st' [] T /\ wf T /\ inorder T = inorder (fill k t).
Proof.
  intros H Hn Hk Hc. pose proof (bypass_hold _ _ _ _ _ _ H) as H1.
  destruct (after_removal _ d z c t k n H1 Hn Hk Hc) as (st' & T & E & N & R).
  exists st', T. rewrite nodes_linked, nodes_reparented in N. split; [|now split].
  rewrite <- E. destruct H as [Ht HK Hr Ho]. apply repr_mk in Ht as (Hz & Ht & _). rewrite root_mk in HK.
  unfold FillpRbErase. change (getLeft (Some z)) with (getC true (Some z)). change (getRight (Some z)) with (getC false (Some z)).
  rewrite !(getC_some _ _ _ _ Hz). cbn [mbind option_bind].
  assert (Hcell : forall b, childOf b (cell (parentOf k) d (root t) None c) = if Bool.eqb b d then root t else None).
  { intros b. apply childOf_cell. }
  cbn [root] in Hz |- *. rewrite !Hcell, (getParent_some _ _ _ Hz), (getColor_some _ _ _ Hz).
  assert (Hrest : (st1 ← (match root t with Some _ => setParent (parentOf k) (root t) st | None => Some st end);
     st2 ← (match parentOf k with
          | Some _ => pl ← getLeft (parentOf k) st1;
                      if same pl (Some z) then setLeft (root t) (parentOf k) st1 else setRight (root t) (parentOf k) st1
          | None => Some (setRoot (root t) st1)
          end);
     if c =? RB_BLACK then FillpRbEraseColor (root t) (parentOf k) st2 else Some st2) =
    (if c =? RB_BLACK then FillpRbEraseColor (root t) (parentOf k) (linked k (root t) (reparented (root t) (parentOf k) st))
     else Some (linked k (root t) (reparented (root t) (parentOf k) st)))).
  { rewrite reparent_step by (intros b; now apply repr_root_some with (p := Some z)). cbn [mbind option_bind].
    rewrite (relink_left k z); [reflexivity|]. intros e q cq s k' ->. cbn in HK. destruct HK as (Hq & _).
    exists (parentOf k'). rewrite lookup_reparented, decide_False by twice Ho. split; [exact Hq|]. twice Ho. }
  now destruct d, (root t).
Qed.


(** The second case: the successor takes the place of the node. *)
Lemma erase_double st k z c L R n : hold st k (Node z c L R) -> rb (Node z c L R) n -> rbK k n ->
  c = RB_BLACK \/ headBlack k -> L <> Leaf -> R <> Leaf -> exists st' T, FillpRbErase (Some z) st = Some st' /\
    nodes st' = nodes st /\ hold st' [] T /\ wf T /\
    exists l1 l2, inorder (fill k (Node z c L R)) = l1 ++ z :: l2 /\ inorder T = l1 ++ l2.
Proof.
  intros H Hn Hk Hc HL HR. destruct (split_leftmost R HR) as (kR & s & cs & C & -> & Hlf).
  change (Node z c L (fill kR (Node s cs Leaf C))) with (mk false z c (fill kR (Node s cs Leaf C)) L) in H.
  assert (HK : hold st (kR ++ (false, z, c, L) :: k) (Node s cs Leaf C)) by (rewrite hold_app, hold_up; exact H).
  assert (Hwf : exists m, rb (Node s cs Leaf C) m /\ rbK (kR ++ (false, s, c, L) :: k) m /\
            (cs = RB_BLACK \/ headBlack (kR ++ (false, s, c, L) :: k))) by exact (rb_under kR false s z c L k s cs C n Hn Hk Hc).
  destruct Hwf as (m & Hm & HKm & Hcs).
  assert (exists st', FillpRbEraseLowlvlNode (Some z) st =
      (if cs =? RB_BLACK then FillpRbEraseColor (root C) (parentOf (kR ++ (false, s, c, L) :: k)) st' else Some st') /\
      nodes st' = nodes st /\ hold st' (kR ++ (false, s, c, L) :: k) C) as (st' & E & N & H').
  { destruct kR as [|[[[d q] cq] sq] kR'] eqn:EkR.
    - exact (lowlvl_child st k z c L [] s cs C HK HL eq_refl).
    - pose proof (Forall_cons_1 _ _ _ Hlf) as [Hd _]. cbn in Hd. subst d.
      exact (lowlvl_deep st k z c L _ s cs C HK HL q cq sq kR' eq_refl Hlf). }
  destruct (after_removal st' false s cs C _ m H' Hm HKm Hcs) as (st2 & T & E2 & N2 & HT & HwT & ET).
  exists st2, T. split; [|split; [congruence|split; [exact HT|split; [exact HwT|]]]].
  - rewrite <- E2, <- E. unfold FillpRbErase. pose proof (old_cell st k z c L kR s cs C HK) as Hz.
    change (getLeft (Some z)) with (getC true (Some z)). change (getRight (Some z)) with (getC false (Some z)).
    rewrite !(getC_some _ _ _ _ Hz). cbn [mbind option_bind childOf rbLeft rbRight].
    destruct (root L) eqn:EL; [|now destruct L]. destruct (root (fill kR (Node s cs Leaf C))) eqn:ER; [reflexivity|].
    exfalso. revert ER. apply root_fill. discriminate.
  - destruct (inorder_ctx k) as (l1 & l2 & El). destruct (inorder_leftFrames kR Hlf) as (l3 & E3).
    exists (l1 ++ inorder L), (s :: inorder C ++ l3 ++ l2). rewrite ET, fill_app. cbn [fill fill1 mk].
    rewrite !El. cbn [inorder]. rewrite !E3. cbn [inorder app]. rewrite <- !app_assoc. cbn [app]. now rewrite <- ?app_assoc.
Qed.

Lemma leaf_or_not t : t = Leaf \/ t <> Leaf.
Proof. destruct t; [now left|now right]. Qed.

(** Every node can be taken out. *)
Lemma FillpRbErase_ok st T z : hold st [] T -> wf T -> (1 <= occ z T)%nat ->
  exists st' T', FillpRbErase (Some z) st = Some st' /\ nodes st' = nodes st /\ hold st' [] T' /\ wf T' /\
    exists l1 l2, inorder T = l1 ++ z :: l2 /\ inorder T' = l1 ++ l2.
Proof.
  intros H [Hb Hm] Hz. destruct (split_node z T Hz) as (k & c & L & R & ->). rewrite <- hold_fill in H.
  destruct (rb_unfill k _ Hb Hm) as (n & Hn & Hk & Hc).
  destruct (inorder_ctx k) as (l1 & l2 & El).
  destruct (leaf_or_not L) as [->|HL]; [|destruct (leaf_or_not R) as [->|HR]].
  - destruct (erase_single st k false z c R n H Hn Hk Hc) as (st' & T & E & N & HT & HwT & ET).
    exists st', T. repeat (split; [assumption|]). exists l1, (inorder R ++ l2). now rewrite ET, !El.
  - destruct (erase_single st k true z c L n H Hn Hk Hc) as (st' & T & E & N & HT & HwT & ET).
    exists st', T. repeat (split; [assumption|]). exists (l1 ++ inorder L), l2. rewrite ET, !El. cbn [inorder].
    rewrite <- !app_assoc. split; reflexivity.
  - exact (erase_double st k z c L R n H Hn Hk Hc HL HR).
Qed.

(** The memory determines the tree. *)
Lemma repr_unique h t : forall t' p p', repr h t p -> repr h t' p' -> root t = root t' -> t = t'.
Proof.
  induction t as [|a c l IHl r IHr]; intros [|a' c' l' r'] p p' H H' E; try discriminate; [reflexivity|].
  injection E as <-. destruct H as (Ha & Hl & Hr), H' as (Ha' & Hl' & Hr'). rewrite Ha in Ha'. injection Ha' as _ Er El Ec.
  f_equal; [exact Ec|exact (IHl _ _ _ Hl Hl' El)|exact (IHr _ _ _ Hr Hr' Er)].
Qed.

Lemma hold_unique st T T' : hold st [] T -> hold st [] T' -> T = T'.
Proof.
  intros [H _ Hr _] [H' _ Hr' _]. apply (repr_unique (mem st) _ _ _ _ H H'). cbn in *. congruence.
Qed.

(** No node of a tree is its own parent. *)
Lemma own_parent st T a n : hold st [] T -> (1 <= occ a T)%nat -> mem st !! a = Some n -> rbParent n <> Some a.
Proof.
  intros H Ha Hn. destruct (split_node a T Ha) as (k & c & L & R & ->). rewrite <- hold_fill in H.
  destruct H as [(Hc & _) _ _ Ho]. rewrite Hc in Hn. injection Hn as <-. cbn. intros E. pose proof (parent_occ _ _ E).
  specialize (Ho a). cbn [occ] in Ho. rewrite one_eq in Ho. lia.
Qed.

Lemma occ_elem a T : a ∈ inorder T -> (1 <= occ a T)%nat.
Proof.
  induction T as [|b c l IHl r IHr]; cbn [occ inorder]; [now intros ?%elem_of_nil|].
  rewrite elem_of_app, elem_of_cons. unfold one. case_decide; [lia|].
  intros [Hin|[->|Hin]]; [specialize (IHl Hin); lia|done|specialize (IHr Hin); lia].
Qed.

Lemma inorder_NoDup T : (forall a, (occ a T <= 1)%nat) -> NoDup (inorder T).
Proof.
  induction T as [|b c l IHl r IHr]; cbn [occ inorder]; intros H; [constructor|]. apply NoDup_app. split; [|split].
  - apply IHl. intros a. specialize (H a). lia.
  - intros a Hl Hr. pose proof (occ_elem _ _ Hl). specialize (H a). apply elem_of_cons in Hr as [->|Hr].
    + rewrite one_eq in H. lia.
    + pose proof (occ_elem _ _ Hr). lia.
  - constructor; [|apply IHr; intros a; specialize (H a); lia]. intros Hb. pose proof (occ_elem _ _ Hb). specialize (H b).
    rewrite one_eq in H. lia.
Qed.

End RbTree.
