(* ===== verification/RbFrame.v ===== *)
(** * The red-black tree functions touch only their tree

    A run of a function of rb_tree.c that succeeds with the nodes of one tree does
    the same in a larger memory, and nothing to the rest of it.  So several trees
    can share one memory. *)

From S2P Require Import Prelude RbTree.
From stdpp Require Import gmap list.
#[local] Open Scope Z_scope.

Import RbTree.

Create HintDb frame.

Module RbFrame.

Definition extend (F : gmap nat RbNode) (st : Store) : Store := mkStore (mem st ∪ F) (rbNode st).

Lemma load_frame F x st v : load x st = Some v -> load x (extend F st) = Some v.
Proof. destruct x as [a|]; [|discriminate]. cbn. intros E. now apply lookup_union_Some_l. Qed.

Lemma modify_frame F f x st st' : modify f x st = Some st' -> modify f x (extend F st) = Some (extend F st').
Proof.
  destruct x as [a|]; [|discriminate]. unfold modify. cbn. destruct (mem st !! a) as [n|] eqn:E; [|discriminate].
  intros [= <-]. rewrite (lookup_union_Some_l _ _ _ _ E). unfold extend. cbn. now rewrite insert_union_l.
Qed.

Lemma fmap_load_frame F {B} (g : RbNode -> B) x st v : g <$> load x st = Some v -> g <$> load x (extend F st) = Some v.
Proof. intros (n & E & ->)%fmap_Some. now rewrite (load_frame _ _ _ _ E). Qed.

Lemma getParent_frame F x st v : getParent x st = Some v -> getParent x (extend F st) = Some v.
Proof. apply fmap_load_frame. Qed.
Lemma getLeft_frame F x st v : getLeft x st = Some v -> getLeft x (extend F st) = Some v.
Proof. apply fmap_load_frame. Qed.
Lemma getRight_frame F x st v : getRight x st = Some v -> getRight x (extend F st) = Some v.
Proof. apply fmap_load_frame. Qed.
Lemma getColor_frame F x st v : getColor x st = Some v -> getColor x (extend F st) = Some v.
Proof. apply fmap_load_frame. Qed.
Lemma setParent_frame F v x st st' : setParent v x st = Some st' -> setParent v x (extend F st) = Some (extend F st').
Proof. apply modify_frame. Qed.
Lemma setLeft_frame F v x st st' : setLeft v x st = Some st' -> setLeft v x (extend F st) = Some (extend F st').
Proof. apply modify_frame. Qed.
Lemma setRight_frame F v x st st' : setRight v x st = Some st' -> setRight v x (extend F st) = Some (extend F st').
Proof. apply modify_frame. Qed.
Lemma setColor_frame F v x st st' : setColor v x st = Some st' -> setColor v x (extend F st) = Some (extend F st').
Proof. apply modify_frame. Qed.

Lemma bind_some {B C} (m : option B) (k : B -> option C) x r : m = Some x -> k x = Some r -> mbind k m = Some r.
Proof. now intros -> ?. Qed.

Lemma bind_assoc {B C D} (m : option B) (k : B -> option C) (k' : C -> option D) :
  mbind k' (mbind k m) = mbind (fun x => mbind k' (k x)) m.
Proof. now destruct m. Qed.

#[export] Hint Resolve getParent_frame getLeft_frame getRight_frame getColor_frame
  setParent_frame setLeft_frame setRight_frame setColor_frame : frame.

(** Follows a run, one assignment at a time. *)
Ltac framed :=
  repeat match goal with
  | H : Some _ = Some _ |- _ => injection H as H; subst
  | H : None = Some _ |- _ => discriminate H
  | H : context [rbNode (extend _ _)] |- _ => cbn [rbNode extend] in H
  | |- context [rbNode (extend ?F ?s)] => change (rbNode (extend F s)) with (rbNode s)
  | |- context [setRoot ?v (extend ?F ?s)] => change (setRoot v (extend F s)) with (extend F (setRoot v s))
  | H : mbind _ ?m = Some _ |- _ =>
    let E := fresh "E" in destruct m eqn:E; [cbn [mbind option_bind] in H|discriminate H]
  | H : (let '(_, _) := ?p in _) = Some _ |- _ => destruct p
  | H : (if ?b then _ else _) = Some _ |- _ => let E := fresh "E" in destruct b eqn:E
  | H : match ?x with Some _ => _ | None => _ end = Some _ |- _ => let E := fresh "E" in destruct x eqn:E
  | |- mbind _ (mbind _ _) = Some _ => rewrite bind_assoc
  | |- mbind _ (Some _) = Some _ => cbn [mbind option_bind]
  | H : ?b = true |- context [if ?b then _ else _] => rewrite H
  | H : ?b = false |- context [if ?b then _ else _] => rewrite H
  | |- mbind _ _ = Some _ => eapply bind_some; [solve [eauto 3 with frame]|cbv beta iota]
  end; eauto 3 with frame.

Lemma hasColor_frame F c x st v : hasColor c x st = Some v -> hasColor c x (extend F st) = Some v.
Proof. unfold hasColor. intros H. framed. Qed.
Lemma nullOrBlack_frame F x st v : nullOrBlack x st = Some v -> nullOrBlack x (extend F st) = Some v.
Proof. unfold nullOrBlack. intros H. framed. Qed.
#[export] Hint Resolve hasColor_frame nullOrBlack_frame : frame.

Lemma rotateLeft_frame F x st st' : FillpRbRotateLeft x st = Some st' -> FillpRbRotateLeft x (extend F st) = Some (extend F st').
Proof. unfold FillpRbRotateLeft. intros H. framed. Qed.
Lemma rotateRight_frame F x st st' : FillpRbRotateRight x st = Some st' -> FillpRbRotateRight x (extend F st) = Some (extend F st').
Proof. unfold FillpRbRotateRight. intros H. framed. Qed.
#[export] Hint Resolve rotateLeft_frame rotateRight_frame : frame.

(** The result of a function that returns a pointer. *)
Abbreviation ext F r := (r.1, extend F r.2).

Lemma EqualRight_frame F x st r : EqualRight x st = Some r -> EqualRight x (extend F st) = Some (ext F r).
Proof. unfold EqualRight. intros H. framed. Qed.
Lemma EqualLeft_frame F x st r : EqualLeft x st = Some r -> EqualLeft x (extend F st) = Some (ext F r).
Proof. unfold EqualLeft. intros H. framed. Qed.
Lemma uncleRed_frame F p y g st r : uncleRed p y g st = Some r -> uncleRed p y g (extend F st) = Some (ext F r).
Proof. unfold uncleRed. intros H. framed. Qed.
Lemma recolor_frame F x st r : recolor x st = Some r -> recolor x (extend F st) = Some (ext F r).
Proof. unfold recolor. intros H. framed. Qed.
#[export] Hint Resolve EqualRight_frame EqualLeft_frame uncleRed_frame recolor_frame : frame.

Lemma insertRound_frame F x p st r : insertRound x p st = Some r -> insertRound x p (extend F st) = Some (ext F r).
Proof. unfold insertRound. intros H. framed. Qed.
#[export] Hint Resolve insertRound_frame : frame.

Lemma insertLoop_frame F n : forall m x st st', (n <= m)%nat -> insertLoop n x st = Some st' ->
  insertLoop m x (extend F st) = Some (extend F st').
Proof.
  induction n as [|n IH]; intros m x st st' Hm; [discriminate|]. destruct m as [|m]; [lia|]. cbn [insertLoop].
  intros H. framed. apply IH; [lia|done].
Qed.

Lemma size_extend F st : (size (mem st) <= size (mem (extend F st)))%nat.
Proof. cbn. rewrite <- !size_dom, dom_union_L. apply subseteq_size, union_subseteq_l. Qed.

Lemma FillpRbInsertColor_frame F x st st' : FillpRbInsertColor x st = Some st' ->
  FillpRbInsertColor x (extend F st) = Some (extend F st').
Proof.
  unfold FillpRbInsertColor. pose proof (size_extend F st) as Hs. intros H. framed.
  eapply bind_some; [eapply insertLoop_frame; [|eassumption]; lia|]. framed.
Qed.

Abbreviation ext4 F r := (r.1.1.1, r.1.1.2, extend F r.1.2, r.2).

Lemma eraseLeft_frame F x p st r : FillpRbEraseColorAtLeft x p st = Some r ->
  FillpRbEraseColorAtLeft x p (extend F st) = Some (ext4 F r).
Proof. unfold FillpRbEraseColorAtLeft. intros H. framed. Qed.
Lemma eraseRight_frame F x p st r : FillpRbEraseColorAtRight x p st = Some r ->
  FillpRbEraseColorAtRight x p (extend F st) = Some (ext4 F r).
Proof. unfold FillpRbEraseColorAtRight. intros H. framed. Qed.
#[export] Hint Resolve eraseLeft_frame eraseRight_frame : frame.

Lemma eraseLoop_frame F n : forall m x p st r, (n <= m)%nat -> eraseLoop n x p st = Some r ->
  eraseLoop m x p (extend F st) = Some (ext F r).
Proof.
  induction n as [|n IH]; intros m x p st r Hm; [discriminate|]. destruct m as [|m]; [lia|]. cbn [eraseLoop].
  intros H. framed.
  all: cbn [fst snd]; repeat match goal with E : ?b = true |- context [if ?b then _ else _] => rewrite E
    | E : ?b = false |- context [if ?b then _ else _] => rewrite E end; try reflexivity; apply IH; [lia|done].
Qed.

Lemma FillpRbEraseColor_frame F x p st st' : FillpRbEraseColor x p st = Some st' ->
  FillpRbEraseColor x p (extend F st) = Some (extend F st').
Proof.
  unfold FillpRbEraseColor. pose proof (size_extend F st) as Hs. intros H. framed.
  all: eapply bind_some; [eapply eraseLoop_frame; [|eassumption]; lia|]; cbn [fst snd]; framed.
Qed.

Lemma leftmost_frame F n : forall m x st r, (n <= m)%nat -> leftmost n x st = Some r -> leftmost m x (extend F st) = Some r.
Proof.
  induction n as [|n IH]; intros m x st r Hm; [discriminate|]. destruct m as [|m]; [lia|]. cbn [leftmost].
  intros H. framed. all: apply IH; [lia|done].
Qed.

Lemma replaceChild_frame F o n st st' : replaceChild o n st = Some st' -> replaceChild o n (extend F st) = Some (extend F st').
Proof. unfold replaceChild. intros H. framed. Qed.
Lemma spliceOut_frame F o n c p st r : spliceOut o n c p st = Some r -> spliceOut o n c p (extend F st) = Some (ext F r).
Proof. unfold spliceOut. intros H. framed. Qed.
#[export] Hint Resolve FillpRbEraseColor_frame replaceChild_frame spliceOut_frame : frame.
Lemma takeOver_frame F o n c p cl st st' : takeOver o n c p cl st = Some st' ->
  takeOver o n c p cl (extend F st) = Some (extend F st').
Proof. unfold takeOver. intros H. framed. Qed.
#[export] Hint Resolve takeOver_frame : frame.

Lemma FillpRbEraseLowlvlNode_frame F x st st' : FillpRbEraseLowlvlNode x st = Some st' ->
  FillpRbEraseLowlvlNode x (extend F st) = Some (extend F st').
Proof.
  rewrite !lowlvl_parts. pose proof (size_extend F st) as Hs. intros H. framed.
  all: eapply bind_some; [eapply leftmost_frame; [|eassumption]; lia|]; framed.
Qed.
#[export] Hint Resolve FillpRbEraseLowlvlNode_frame : frame.

Lemma FillpRbErase_frame F x st st' : FillpRbErase x st = Some st' -> FillpRbErase x (extend F st) = Some (extend F st').
Proof. unfold FillpRbErase. intros H. framed. Qed.

End RbFrame.
