(* ===== verification/Hlist.v ===== *)
(** * Linked lists of the fillp transport

    components/nstackx/fillp/src/public/include/hlist.h: doubly linked lists whose
    nodes are fields of the objects they link.  A node points to the [next] field
    of its predecessor; that field is the first of the structure, and
    [HLIST_PREV] reads the pointer as one to the node.  A node with a NULL
    [pprev] is in no list.

    The model has the memory of the nodes.  The theorems show that the operations
    implement sequences and leave every other list as it is. *)

From S2P Require Import Prelude.
From stdpp Require Import gmap list.
#[local] Open Scope Z_scope.

Module Hlist.

Section Model.

(** The addresses of nodes. *)
Context {A : Type} {EqA : EqDecision A} {CountA : Countable A}.

Record HlistNode := mkHlistNode {
  next : option A;
  pprev : option A;
  inList : option A     (* [list] *)
}.

(** The nodes, heads of lists included, and the sizes of the lists. *)
Record Heap := mkHeap {
  cells : gmap A HlistNode;
  sizes : gmap A Z
}.

Definition NULLNODE : HlistNode := mkHlistNode None None None.

Definition load (x : option A) (hp : Heap) : option HlistNode := a ← x; cells hp !! a.
Definition modify (f : HlistNode -> HlistNode) (x : option A) (hp : Heap) : option Heap :=
  a ← x;
  n ← cells hp !! a;
  Some (mkHeap (<[a := f n]> (cells hp)) (sizes hp)).

Definition setNext (v x : option A) : Heap -> option Heap := modify (fun n => mkHlistNode v (pprev n) (inList n)) x.
Definition setPprev (v x : option A) : Heap -> option Heap := modify (fun n => mkHlistNode (next n) v (inList n)) x.
Definition setList (v x : option A) : Heap -> option Heap := modify (fun n => mkHlistNode (next n) (pprev n) v) x.
Definition setSize (lst : A) (v : Z) (hp : Heap) : Heap := mkHeap (cells hp) (<[lst := v]> (sizes hp)).

Definition HLIST_INIT (lst : A) (hp : Heap) : option Heap :=
  hp ← setNext None (Some lst) hp;
  hp ← setPprev (Some lst) (Some lst) hp;
  Some (setSize lst 0 hp).

Definition HLIST_INIT_NODE (n : A) (hp : Heap) : option Heap :=
  hp ← setList None (Some n) hp;
  hp ← setNext None (Some n) hp;
  setPprev None (Some n) hp.

Definition HLIST_EMPTY (lst : A) (hp : Heap) : option bool :=
  s ← sizes hp !! lst; Some (s =? 0).
Definition HLISTNODE_LINKED (n : A) (hp : Heap) : option bool :=
  nd ← load (Some n) hp; Some (negb (bool_decide (pprev nd = None))).
Definition HLIST_FIRST (lst : A) (hp : Heap) : option (option A) :=
  nd ← load (Some lst) hp; Some (next nd).
Definition HLIST_TAIL (lst : A) (hp : Heap) : option (option A) :=
  empty ← HLIST_EMPTY lst hp;
  if (empty : bool) then Some None else nd ← load (Some lst) hp; Some (pprev nd).

Definition HlistAddAfter (lst : A) (prev : option A) (toBeAdded : A) (hp : Heap) : option Heap :=
  pn ← load prev hp;
  hp ← (match next pn with
        | Some _ => setPprev (Some toBeAdded) (next pn) hp
        | None => setPprev (Some toBeAdded) (Some lst) hp
        end);
  pn ← load prev hp;
  hp ← setNext (next pn) (Some toBeAdded) hp;
  hp ← setPprev prev (Some toBeAdded) hp;
  hp ← setNext (Some toBeAdded) prev hp;
  s ← sizes hp !! lst;
  setList (Some lst) (Some toBeAdded) (setSize lst (u32 (s + 1)) hp).

Definition HlistAddTail (lst node : A) (hp : Heap) : option Heap :=
  hd ← load (Some lst) hp;
  HlistAddAfter lst (pprev hd) node hp.

Definition HlistAddHead (lst node : A) (hp : Heap) : option Heap :=
  HlistAddAfter lst (Some lst) node hp.

Definition HlistDelete (lst n : A) (hp : Heap) : option Heap :=
  t ← HLIST_TAIL lst hp;
  nd ← load (Some n) hp;
  hp ← (if bool_decide (Some n = t) then setPprev (pprev nd) (Some lst) hp else Some hp);
  nd ← load (Some n) hp;
  hp ← setNext (next nd) (pprev nd) hp;
  nd ← load (Some n) hp;
  hp ← (match next nd with Some _ => setPprev (pprev nd) (next nd) hp | None => Some hp end);
  hp ← HLIST_INIT_NODE n hp;
  s ← sizes hp !! lst;
  Some (if s >? 0 then setSize lst (s - 1) hp else hp).

Definition HlistDelNode (n : A) (hp : Heap) : option Heap :=
  nd ← load (Some n) hp;
  match inList nd with Some lst => HlistDelete lst n hp | None => Some hp end.

Definition HlistPopHead (lst : option A) (hp : Heap) : option (option A * Heap) :=
  match lst with
  | None => Some (None, hp)
  | Some l =>
    ret ← HLIST_FIRST l hp;
    match ret with
    | Some r => hp ← HlistDelete l r hp; Some (ret, hp)
    | None => Some (None, hp)
    end
  end.

(** ** Lists in memory *)

(** The first node of [l], or what follows. *)
Definition first (l : list A) (nx : option A) : option A := match l with [] => nx | a :: _ => Some a end.
(** The last node of [l], or what precedes. *)
Fixpoint final (p : A) (l : list A) : A := match l with [] => p | a :: l' => final a l' end.

(** The nodes [l] of the list [h], between [p] and [nx]. *)
Fixpoint seg (m : gmap A HlistNode) (h p : A) (l : list A) (nx : option A) : Prop :=
  match l with
  | [] => True
  | a :: l' => m !! a = Some (mkHlistNode (first l' nx) (Some p) (Some h)) /\ seg m h a l' nx
  end.

Record repr (hp : Heap) (h : A) (l : list A) : Prop := {
  repr_head : exists hl, cells hp !! h = Some (mkHlistNode (first l None) (Some (final h l)) hl);
  repr_seg : seg (cells hp) h h l None;
  repr_size : sizes hp !! h = Some (Z.of_nat (length l));
  repr_nodup : NoDup (h :: l)
}.

(** What an operation on the list [h] and the node [n] leaves alone. *)
Record elsewhere (hp hp' : Heap) (h n : A) (l : list A) : Prop := {
  other_cells : forall a, a ∉ h :: n :: l -> cells hp' !! a = cells hp !! a;
  other_sizes : forall h', h' <> h -> sizes hp' !! h' = sizes hp !! h'
}.

Lemma final_app p l1 l2 : final p (l1 ++ l2) = final (final p l1) l2.
Proof. revert p. induction l1 as [|a l1 IH]; intros p; [reflexivity|]. apply IH. Qed.

Lemma first_app l1 l2 nx : first (l1 ++ l2) nx = first l1 (first l2 nx).
Proof. now destruct l1. Qed.

Lemma seg_app m h p l1 l2 nx : seg m h p (l1 ++ l2) nx <-> seg m h p l1 (first l2 nx) /\ seg m h (final p l1) l2 nx.
Proof.
  revert p. induction l1 as [|a l1 IH]; intros p; cbn [app seg final]; [tauto|]. rewrite IH, first_app. tauto.
Qed.

Lemma seg_agree m m' h p l nx : (forall a, a ∈ l -> m' !! a = m !! a) -> seg m h p l nx -> seg m' h p l nx.
Proof.
  revert p. induction l as [|a l IH]; intros p Ha; [done|]. intros [Hs Hl]. split.
  - rewrite Ha; [exact Hs|left].
  - apply IH; [|exact Hl]. intros b Hb. apply Ha. now right.
Qed.

(** The places of a segment that depend on its borders. *)
Lemma seg_last m m' h p l nx nx' : NoDup l ->
  (forall a, a ∈ l -> a <> final p l -> m' !! a = m !! a) ->
  (l <> [] -> m' !! final p l = (fun n => mkHlistNode nx' (pprev n) (inList n)) <$> m !! final p l) ->
  seg m h p l nx -> seg m' h p l nx'.
Proof.
  intros Hd Ha Hf. destruct l as [|b l _] using rev_ind; [done|]. rewrite final_app in Ha, Hf. cbn [final] in Ha, Hf.
  rewrite !seg_app. cbn [seg first]. intros (Hs & Hb & _). apply NoDup_app in Hd as (_ & Hd & _). split; [|split; [|done]].
  - apply (seg_agree m); [|exact Hs]. intros a Hin. apply Ha; [apply elem_of_app; now left|].
    intros ->. apply (Hd b Hin). left.
  - rewrite Hf by (now destruct l). now rewrite Hb.
Qed.

Lemma seg_first m m' h p p' l nx : NoDup l -> (forall a, a ∈ l -> first l None <> Some a -> m' !! a = m !! a) ->
  (forall a, first l None = Some a -> m' !! a = (fun n => mkHlistNode (next n) (Some p') (inList n)) <$> m !! a) ->
  seg m h p l nx -> seg m' h p' l nx.
Proof.
  intros Hd Ha Hf. destruct l as [|b l]; [done|]. intros [Hb Hs]. apply NoDup_cons in Hd as [Hb' _]. split.
  - rewrite (Hf b eq_refl), Hb. reflexivity.
  - apply (seg_agree m); [|exact Hs]. intros a Hin. apply Ha; [now right|]. cbn. congruence.
Qed.

(** ** The operations on one list *)

Definition upd (f : HlistNode -> HlistNode) (a : A) (hp : Heap) : Heap := mkHeap (alter f a (cells hp)) (sizes hp).

Lemma heap_eq hp hp' : (forall a, cells hp !! a = cells hp' !! a) -> sizes hp = sizes hp' -> hp = hp'.
Proof. destruct hp as [c z], hp' as [c' z']. cbn. intros Hc ->. f_equal. now apply map_eq. Qed.

Lemma load_some a hp : load (Some a) hp = cells hp !! a.
Proof. reflexivity. Qed.

Lemma modify_upd f a hp : is_Some (cells hp !! a) -> modify f (Some a) hp = Some (upd f a hp).
Proof.
  intros [n Hn]. unfold modify, upd. cbn. rewrite Hn. cbn. do 2 f_equal. symmetry. apply map_eq. intros b.
  destruct (decide (a = b)) as [<-|Hne]; [now rewrite lookup_alter_eq, lookup_insert_eq, Hn|].
  now rewrite lookup_alter_ne, lookup_insert_ne.
Qed.

Lemma setNext_upd v a hp : is_Some (cells hp !! a) ->
  setNext v (Some a) hp = Some (upd (fun n => mkHlistNode v (pprev n) (inList n)) a hp).
Proof. apply modify_upd. Qed.
Lemma setPprev_upd v a hp : is_Some (cells hp !! a) ->
  setPprev v (Some a) hp = Some (upd (fun n => mkHlistNode (next n) v (inList n)) a hp).
Proof. apply modify_upd. Qed.
Lemma setList_upd v a hp : is_Some (cells hp !! a) ->
  setList v (Some a) hp = Some (upd (fun n => mkHlistNode (next n) (pprev n) v) a hp).
Proof. apply modify_upd. Qed.

Lemma lookup_upd f a hp b : cells (upd f a hp) !! b = if decide (a = b) then f <$> cells hp !! b else cells hp !! b.
Proof. cbn. case_decide; [subst; apply lookup_alter_eq|now apply lookup_alter_ne]. Qed.

Lemma upd_some f a hp b : is_Some (cells hp !! b) -> is_Some (cells (upd f a hp) !! b).
Proof. intros [n Hn]. rewrite lookup_upd, Hn. case_decide; eauto. Qed.

Lemma setSize_cells lst v hp : cells (setSize lst v hp) = cells hp.
Proof. reflexivity. Qed.

Lemma init_node n hp : is_Some (cells hp !! n) -> HLIST_INIT_NODE n hp = Some (upd (fun _ => NULLNODE) n hp).
Proof.
  intros Hn. unfold HLIST_INIT_NODE. rewrite setList_upd by exact Hn. cbn [mbind option_bind].
  rewrite setNext_upd by now apply upd_some. cbn [mbind option_bind]. rewrite setPprev_upd by now do 2 apply upd_some.
  apply f_equal, heap_eq; [|reflexivity]. intros a. rewrite !lookup_upd. case_decide; [|reflexivity].
  now destruct (cells hp !! a).
Qed.

Lemma final_in p l : final p l ∈ p :: l.
Proof. revert p. induction l as [|a l IH]; intros p; [left|]. right. apply IH. Qed.

Lemma final_in_list p l : l <> [] -> final p l ∈ l.
Proof. destruct l as [|a l]; [done|]. intros _. exact (final_in a l). Qed.

Lemma first_in l nx a : first l nx = Some a -> l <> [] -> a ∈ l.
Proof. destruct l as [|b l]; [done|]. intros [= ->] _. left. Qed.

Lemma seg_some m h p l nx a : seg m h p l nx -> a ∈ l -> is_Some (m !! a).
Proof.
  revert p. induction l as [|b l IH]; intros p; [now intros _ ?%elem_of_nil|]. intros [Hb Hl] [->|Hin]%elem_of_cons; eauto.
Qed.

Lemma repr_some hp h l a : repr hp h l -> a ∈ h :: l -> is_Some (cells hp !! a).
Proof. intros [[hl Hh] Hs _ _] [->|Hin]%elem_of_cons; [eauto|now apply (seg_some _ h h l None)]. Qed.

(** The next pointer of a node of the list. *)
Lemma repr_next hp h l1 l2 : repr hp h (l1 ++ l2) ->
  exists n, cells hp !! final h l1 = Some n /\ next n = first l2 None.
Proof.
  intros [[hl Hh] Hs _ _]. destruct l1 as [|b l1 _] using rev_ind; [eauto|]. rewrite final_app. cbn [final].
  apply seg_app in Hs as [Hs _]. apply seg_app in Hs as [_ [Hb _]]. rewrite Hb. eauto.
Qed.

(** The node before which a node is added. *)
Definition follower (h : A) (l2 : list A) : A := match first l2 None with Some b => b | None => h end.

(** The effect of an addition. *)
Definition added (hp : Heap) (h n : A) (l1 l2 : list A) : Heap :=
  setSize h (u32 (Z.of_nat (length (l1 ++ l2)) + 1))
    (upd (fun nd => mkHlistNode (Some n) (pprev nd) (inList nd)) (final h l1)
      (upd (fun _ => mkHlistNode (first l2 None) (Some (final h l1)) (Some h)) n
        (upd (fun nd => mkHlistNode (next nd) (Some n) (inList nd)) (follower h l2) hp))).

Lemma prev_cases h l1 : (final h l1 = h /\ l1 = []) \/ (final h l1 ∈ l1 /\ l1 <> []).
Proof. destruct l1 as [|b l]; [now left|]. right. split; [apply final_in_list|]; discriminate. Qed.

Lemma foll_cases h l2 : (follower h l2 = h /\ l2 = []) \/ (exists b l, l2 = b :: l /\ follower h l2 = b).
Proof. destruct l2 as [|b l]; [now left|]. right. eauto. Qed.

(** Which nodes differ. *)
Lemma parts (h : A) (l1 : list A) (n : A) (l2 : list A) : NoDup (h :: l1 ++ n :: l2) ->
  h <> n /\ (forall a, a ∈ l1 -> a <> h /\ a <> n /\ a ∉ l2) /\ (forall a, a ∈ l2 -> a <> h /\ a <> n).
Proof.
  intros Hd. apply NoDup_cons in Hd as [Hh Hd]. apply NoDup_app in Hd as (_ & Hd & Hn2).
  apply NoDup_cons in Hn2 as [Hn2 _]. rewrite elem_of_app, elem_of_cons in Hh.
  split; [intros ->; tauto|]. split.
  - intros a Ha. specialize (Hd a Ha). rewrite elem_of_cons in Hd. split; [intros ->; tauto|]. tauto.
  - intros a Ha. split; intros ->; tauto.
Qed.

Section Add.

Context (hp : Heap) (h n : A) (l1 l2 : list A).
Context (Hr : repr hp h (l1 ++ l2)) (Hn : n ∉ h :: l1 ++ l2) (Hs : is_Some (cells hp !! n)).

#[local] Abbreviation prev := (final h l1).
#[local] Abbreviation foll := (follower h l2).
#[local] Abbreviation addedHp := (added hp h n l1 l2).

Lemma prev_ne : prev <> n.
Proof using All. pose proof (final_in h l1). intros E. apply Hn. rewrite <- E. set_solver. Qed.

Lemma follower_in : foll ∈ h :: l2.
Proof using All. unfold follower. destruct l2; cbn; set_solver. Qed.

Lemma follower_ne : foll <> n.
Proof using All. pose proof follower_in. intros E. apply Hn. rewrite <- E. set_solver. Qed.

Lemma added_steps : HlistAddAfter h (Some prev) n hp = Some addedHp.
Proof using All.
  pose proof prev_ne as Hpn. pose proof follower_ne as Hfn.
  assert (Hf : is_Some (cells hp !! foll)).
  { apply (repr_some _ _ _ _ Hr). pose proof follower_in. set_solver. }
  assert (Hp : is_Some (cells hp !! prev)).
  { apply (repr_some _ _ _ _ Hr). pose proof (final_in h l1). set_solver. }
  destruct (repr_next _ _ _ _ Hr) as (np & Hnp & Hnx).
  unfold HlistAddAfter. rewrite load_some, Hnp. cbn [mbind option_bind]. rewrite Hnx.
  set (hp1 := upd (fun nd => mkHlistNode (next nd) (Some n) (inList nd)) foll hp).
  assert (E1 : match first l2 None with
    | Some _ => setPprev (Some n) (first l2 None) hp | None => setPprev (Some n) (Some h) hp end = Some hp1).
  { unfold hp1, follower in *. destruct (first l2 None); now apply modify_upd. }
  rewrite E1. cbn [mbind option_bind].
  assert (Hp1 : exists n1, cells hp1 !! prev = Some n1 /\ next n1 = first l2 None).
  { unfold hp1. rewrite lookup_upd, Hnp. case_decide; eexists; split; reflexivity || assumption. }
  destruct Hp1 as (n1 & Hp1 & Hn1). rewrite load_some, Hp1. cbn [mbind option_bind]. rewrite Hn1.
  assert (Hs1 : is_Some (cells hp1 !! n)) by now apply upd_some.
  rewrite setNext_upd by exact Hs1. cbn [mbind option_bind].
  rewrite setPprev_upd by now apply upd_some. cbn [mbind option_bind].
  rewrite setNext_upd by (do 2 apply upd_some; eauto). cbn [mbind option_bind upd sizes hp1].
  rewrite (repr_size _ _ _ Hr). cbn [mbind option_bind].
  rewrite setList_upd by (cbn [setSize cells]; do 3 apply upd_some; exact Hs1).
  apply f_equal, heap_eq; [|reflexivity]. intros a. unfold added. rewrite setSize_cells. fold hp1. rewrite !lookup_upd, setSize_cells, !lookup_upd.
  destruct Hs1 as [ns Hns]. repeat case_decide; try congruence. subst a. rewrite Hns. reflexivity.
Qed.

Lemma Add_nodup : NoDup (h :: l1 ++ n :: l2).
Proof using All.
  pose proof (repr_nodup _ _ _ Hr) as Hd. assert (Hp : h :: l1 ++ n :: l2 ≡ₚ n :: h :: l1 ++ l2).
  { rewrite <- Permutation_middle. apply perm_swap. }
  rewrite Hp. now apply NoDup_cons.
Qed.

Lemma added_elsewhere : elsewhere hp addedHp h n (l1 ++ l2).
Proof using All.
  pose proof follower_in. pose proof (final_in h l1). constructor.
  - intros a Ha. unfold added. rewrite setSize_cells, !lookup_upd, !decide_False; [reflexivity|set_solver..].
  - intros h' Hne. cbn. now rewrite lookup_insert_ne.
Qed.

Lemma added_head : exists hl, cells addedHp !! h = Some (mkHlistNode (first (l1 ++ n :: l2) None) (Some (final h (l1 ++ n :: l2))) hl).
Proof using All.
  destruct (repr_head _ _ _ Hr) as [hl Hh]. destruct (parts _ _ _ _ Add_nodup) as (Hhn & H1 & H2). exists hl. unfold added.
  rewrite setSize_cells, !lookup_upd, Hh, (decide_False (P := n = h)) by congruence.
  rewrite !first_app, !final_app. cbn [first final].
  destruct (prev_cases h l1) as [[E1 ->]|[E1 E1']], (foll_cases h l2) as [[E2 ->]|(b & l & -> & E2)]; rewrite E2; cbn [first final] in *.
  - now rewrite !decide_True.
  - rewrite decide_True, decide_False; [reflexivity|apply H2; left|reflexivity].
  - rewrite decide_False by now apply H1. rewrite decide_True by reflexivity. now destruct l1.
  - rewrite decide_False by now apply H1. rewrite decide_False by (apply H2; left). now destruct l1.
Qed.

Lemma added_seg : seg (cells addedHp) h h (l1 ++ n :: l2) None.
Proof using All.
  destruct (repr_seg _ _ _ Hr, repr_nodup _ _ _ Hr) as [Hseg Hd].
  apply NoDup_cons in Hd as [_ Hd]. apply NoDup_app in Hd as (Hd1 & _ & Hd2). destruct (parts _ _ _ _ Add_nodup) as (Hhn & H1 & H2).
  apply seg_app in Hseg as [Hs1 Hs2]. apply seg_app. cbn [seg first]. unfold added. split; [|split].
  - apply (seg_last (cells hp) _ h h l1 (first l2 None)); [exact Hd1| | |exact Hs1].
    + intros a Ha Hne. destruct (H1 a Ha) as (Hah & Han & Ha2).
      rewrite setSize_cells, !lookup_upd, !decide_False; [reflexivity| | |congruence]; [|congruence].
      destruct (foll_cases h l2) as [[-> _]|(b & l & E & ->)]; [congruence|]. intros ->. apply Ha2. rewrite E. left.
    + intros Hne. pose proof (final_in_list h l1 Hne) as Hp. destruct (H1 _ Hp) as (Hah & Han & Ha2).
      rewrite setSize_cells, !lookup_upd, decide_True, (decide_False (P := n = _)) by congruence.
      rewrite decide_False; [reflexivity|].
      destruct (foll_cases h l2) as [[-> _]|(b & l & E & ->)]; [congruence|]. intros ->. apply Ha2. rewrite E. left.
  - rewrite setSize_cells, !lookup_upd, decide_False, decide_True by (reflexivity || exact prev_ne).
    rewrite decide_False by exact follower_ne. destruct Hs as [ns ->]. reflexivity.
  - apply (seg_first (cells hp) _ h prev n l2 None); [exact Hd2| | |exact Hs2].
    + intros a Ha Hne. destruct (H2 a Ha) as (Hah & Han).
      rewrite setSize_cells, !lookup_upd, !decide_False; [reflexivity| |congruence|].
      * destruct (foll_cases h l2) as [[-> _]|(b & l & E & ->)]; [congruence|]. rewrite E in Hne. cbn in Hne. congruence.
      * destruct (prev_cases h l1) as [[-> _]|[Hp _]]; [congruence|]. intros <-. now apply (H1 _ Hp).
    + intros a Ha. assert (Hal : a ∈ l2) by (destruct l2; [done|]; injection Ha as ->; left). destruct (H2 a Hal) as (Hah & Han).
      assert (foll = a) as -> by (unfold follower; now rewrite Ha).
      rewrite setSize_cells, !lookup_upd, (decide_True (P := a = a)), !decide_False; [reflexivity|congruence| |reflexivity].
      destruct (prev_cases h l1) as [[-> _]|[Hp _]]; [congruence|]. intros <-. now apply (H1 _ Hp).
Qed.

Lemma added_repr : Z.of_nat (length (l1 ++ l2)) < 4294967295 -> repr addedHp h (l1 ++ n :: l2).
Proof using All.
  intros Hlen. constructor; [exact added_head|exact added_seg| |exact Add_nodup].
  unfold added. cbn. rewrite lookup_insert_eq. rewrite !length_app in *. cbn [length].
  rewrite u32_small by (unfold in_u32; lia). f_equal. lia.
Qed.

End Add.

(** The effect of a deletion. *)
Definition removed (hp : Heap) (h n : A) (l1 l2 : list A) : Heap :=
  setSize h (Z.of_nat (length (l1 ++ l2)))
    (upd (fun _ => NULLNODE) n
      (upd (fun nd => mkHlistNode (next nd) (Some (final h l1)) (inList nd)) (follower h l2)
        (upd (fun nd => mkHlistNode (first l2 None) (pprev nd) (inList nd)) (final h l1) hp))).

Section Delete.

Context (hp : Heap) (h n : A) (l1 l2 : list A).
Context (Hr : repr hp h (l1 ++ n :: l2)).

#[local] Abbreviation prev := (final h l1).
#[local] Abbreviation foll := (follower h l2).
#[local] Abbreviation removedHp := (removed hp h n l1 l2).

Lemma Delete_parts : h <> n /\ (forall a, a ∈ l1 -> a <> h /\ a <> n /\ a ∉ l2) /\ (forall a, a ∈ l2 -> a <> h /\ a <> n).
Proof using Hr. exact (parts _ _ _ _ (repr_nodup _ _ _ Hr)). Qed.

Lemma Delete_ne : prev <> n /\ foll <> n.
Proof using Hr.
  destruct Delete_parts as (Hhn & H1 & H2). split.
  - destruct (prev_cases h l1) as [[-> _]|[Hp _]]; [done|now apply H1].
  - destruct (foll_cases h l2) as [[-> _]|(b & l & E & ->)]; [done|]. apply H2. rewrite E. left.
Qed.

Lemma Delete_some : is_Some (cells hp !! prev) /\ is_Some (cells hp !! foll).
Proof using Hr.
  split; apply (repr_some _ _ _ _ Hr).
  - pose proof (final_in h l1) as Hp. rewrite elem_of_cons, elem_of_app in *. tauto.
  - destruct (foll_cases h l2) as [[-> _]|(b & l & E & ->)]; [left|]. right. rewrite E, elem_of_app, !elem_of_cons. auto.
Qed.

Lemma Delete_node : cells hp !! n = Some (mkHlistNode (first l2 None) (Some prev) (Some h)).
Proof using Hr. destruct Hr as [_ Hs _ _]. apply seg_app in Hs as (_ & Hs & _). exact Hs. Qed.

Lemma Delete_tail : HLIST_TAIL h hp = Some (Some (final n l2)).
Proof using Hr.
  destruct Hr as [[hl Hh] _ Hsz _]. unfold HLIST_TAIL, HLIST_EMPTY. rewrite Hsz. cbn [mbind option_bind].
  destruct (Z.eqb_spec (Z.of_nat (length (l1 ++ n :: l2))) 0) as [E|_]; [rewrite length_app in E; cbn in E; lia|].
  rewrite load_some, Hh.
  cbn [mbind option_bind pprev]. now rewrite final_app.
Qed.

Lemma tail_test : Some n = Some (final n l2) <-> l2 = [].
Proof using Hr.
  destruct Delete_parts as (_ & _ & H2). split; [|now intros ->]. intros [= E]. destruct l2 as [|b l]; [done|]. exfalso.
  pose proof (final_in b l) as Hf. cbn in E. rewrite <- E in Hf. now apply (H2 n).
Qed.

Lemma unlink_steps hp1 : cells hp1 !! n = cells hp !! n -> is_Some (cells hp1 !! prev) -> sizes hp1 = sizes hp ->
    (forall b, first l2 None = Some b -> is_Some (cells hp1 !! b)) ->
    (nd ← load (Some n) hp1;
     hp2 ← setNext (next nd) (pprev nd) hp1;
     nd ← load (Some n) hp2;
     hp3 ← (match next nd with Some _ => setPprev (pprev nd) (next nd) hp2 | None => Some hp2 end);
     hp4 ← HLIST_INIT_NODE n hp3;
     s ← sizes hp4 !! h;
     Some (if s >? 0 then setSize h (s - 1) hp4 else hp4)) =
    Some (let hp2 := upd (fun nd => mkHlistNode (first l2 None) (pprev nd) (inList nd)) prev hp1 in
      let hp3 := match first l2 None with
        | Some b => upd (fun nd => mkHlistNode (next nd) (Some prev) (inList nd)) b hp2 | None => hp2 end in
      setSize h (Z.of_nat (length (l1 ++ l2))) (upd (fun _ => NULLNODE) n hp3)).
Proof using Hr.
  intros H1 [np Hp] Hsz Hb. destruct Delete_ne as [Hpn Hfn]. rewrite Delete_node in H1.
  rewrite load_some, H1. cbn [mbind option_bind next pprev]. rewrite setNext_upd by eauto. cbn [mbind option_bind].
  rewrite load_some, lookup_upd, decide_False, H1 by done. cbn [mbind option_bind next pprev].
  set (hp2 := upd _ prev hp1).
  assert (E3 : match first l2 None with Some _ => setPprev (Some prev) (first l2 None) hp2 | None => Some hp2 end =
    Some (match first l2 None with
      | Some b => upd (fun nd => mkHlistNode (next nd) (Some prev) (inList nd)) b hp2 | None => hp2 end)).
  { destruct (first l2 None) as [b|]; [|reflexivity]. apply setPprev_upd. apply upd_some. eauto. }
  rewrite E3. cbn [mbind option_bind]. set (hp3 := match first l2 None with Some _ => _ | None => _ end).
  assert (Hn3 : is_Some (cells hp3 !! n)).
  { unfold hp3, hp2. destruct (first l2 None); repeat apply upd_some; eauto. }
  assert (Hz3 : sizes hp3 = sizes hp) by (unfold hp3, hp2; now destruct (first l2 None)).
  rewrite init_node by exact Hn3. cbn [mbind option_bind upd sizes]. rewrite Hz3, (repr_size _ _ _ Hr). cbn [mbind option_bind].
  destruct (Z.gtb_spec (Z.of_nat (length (l1 ++ n :: l2))) 0) as [_|E]; [|rewrite length_app in E; cbn in E; lia].
  apply f_equal. replace (_ - 1) with (Z.of_nat (length (l1 ++ l2))); [reflexivity|]. rewrite !length_app. cbn [length]. lia.
Qed.

Lemma removed_steps : HlistDelete h n hp = Some removedHp.
Proof using Hr.
  destruct Delete_ne as [Hpn Hfn]. destruct Delete_some as [Hp Hf]. pose proof Delete_node as Hn.
  unfold HlistDelete. rewrite Delete_tail. cbn [mbind option_bind]. rewrite load_some, Hn. cbn [mbind option_bind pprev].
  destruct (foll_cases h l2) as [[E El]|(b & l & El & E)]; rewrite E in *.
  - rewrite bool_decide_true by now apply tail_test. rewrite setPprev_upd by exact Hf. cbn [mbind option_bind].
    rewrite unlink_steps.
    + apply f_equal. unfold removed. rewrite E, El. cbn [first]. apply heap_eq; [|reflexivity]. intros a.
      rewrite !setSize_cells, !lookup_upd. repeat case_decide; try congruence. now destruct (cells hp !! a).
    + rewrite lookup_upd, decide_False by done. reflexivity.
    + now apply upd_some.
    + reflexivity.
    + rewrite El. done.
  - rewrite bool_decide_false by (rewrite tail_test; now rewrite El). cbn [mbind option_bind]. rewrite unlink_steps; [|done..|].
    + apply f_equal. unfold removed. rewrite E, El. reflexivity.
    + rewrite El. intros ? [= <-]. exact Hf.
Qed.

Lemma removed_elsewhere : elsewhere hp removedHp h n (l1 ++ l2) /\ cells removedHp !! n = Some NULLNODE.
Proof using Hr.
  destruct Delete_ne as [Hpn Hfn]. pose proof Delete_node as Hn. split.
  - constructor; [|intros h' Hne; cbn; now rewrite lookup_insert_ne].
    intros a Ha. rewrite !elem_of_cons, elem_of_app in Ha. unfold removed.
    rewrite setSize_cells, !lookup_upd, !decide_False; [reflexivity| | |intros ->; tauto].
    + destruct (prev_cases h l1) as [[-> _]|[Hp _]]; intros <-; tauto.
    + destruct (foll_cases h l2) as [[-> _]|(b & l & E & ->)]; intros <-; [tauto|]. rewrite E, elem_of_cons in Ha. tauto.
  - unfold removed. rewrite setSize_cells, !lookup_upd, decide_True, !decide_False by done. now rewrite Hn.
Qed.

Lemma removed_head : exists hl, cells removedHp !! h = Some (mkHlistNode (first (l1 ++ l2) None) (Some (final h (l1 ++ l2))) hl).
Proof using Hr.
  destruct Delete_parts as (Hhn & H1 & H2). destruct (repr_head _ _ _ Hr) as [hl Hh]. exists hl. unfold removed.
  rewrite setSize_cells, !lookup_upd, Hh, (decide_False (P := n = h)) by congruence.
  rewrite !first_app, !final_app. cbn [first final]. clear Hr Hh.
  destruct (prev_cases h l1) as [[E1 ->]|[E1 E1']], (foll_cases h l2) as [[E2 ->]|(b & l & -> & E2)]; rewrite E2; cbn [first final] in *.
  - now rewrite !decide_True.
  - rewrite decide_False, decide_True; [reflexivity|reflexivity|apply H2; left].
  - rewrite decide_True by reflexivity. rewrite decide_False by now apply H1. now destruct l1.
  - rewrite decide_False by (apply H2; left). rewrite decide_False by now apply H1. now destruct l1.
Qed.

Lemma removed_seg : seg (cells removedHp) h h (l1 ++ l2) None.
Proof using Hr.
  destruct (repr_seg _ _ _ Hr, repr_nodup _ _ _ Hr) as [Hseg Hd]. destruct Delete_parts as (Hhn & H1 & H2).
  apply NoDup_cons in Hd as [_ Hd]. apply NoDup_app in Hd as (Hd1 & _ & Hd2). apply NoDup_cons in Hd2 as [_ Hd2].
  apply seg_app in Hseg as (Hs1 & _ & Hs2). cbn [first] in Hs1. apply seg_app. unfold removed. split.
  - apply (seg_last (cells hp) _ h h l1 (Some n)); [exact Hd1| | |exact Hs1].
    + intros a Ha Hne. destruct (H1 a Ha) as (Hah & Han & Ha2).
      rewrite setSize_cells, !lookup_upd, !decide_False; [reflexivity|congruence| |congruence].
      destruct (foll_cases h l2) as [[-> _]|(b & l & E & ->)]; [congruence|]. intros ->. apply Ha2. rewrite E. left.
    + intros Hne. pose proof (final_in_list h l1 Hne) as Hp. destruct (H1 _ Hp) as (Hah & Han & Ha2).
      rewrite setSize_cells, !lookup_upd, (decide_True (P := final h l1 = _)), (decide_False (P := n = _)) by congruence.
      rewrite decide_False; [reflexivity|].
      destruct (foll_cases h l2) as [[-> _]|(b & l & E & ->)]; [congruence|]. intros ->. apply Ha2. rewrite E. left.
  - apply (seg_first (cells hp) _ h n prev l2 None); [exact Hd2| | |exact Hs2].
    + intros a Ha Hne. destruct (H2 a Ha) as (Hah & Han).
      rewrite setSize_cells, !lookup_upd, !decide_False; [reflexivity| | |congruence].
      * destruct (prev_cases h l1) as [[-> _]|[Hp _]]; [congruence|]. intros <-. now apply (H1 _ Hp).
      * destruct (foll_cases h l2) as [[-> _]|(b & l & E & ->)]; [congruence|]. rewrite E in Hne. cbn in Hne. congruence.
    + intros a Ha. assert (Hal : a ∈ l2) by (clear - Ha; destruct l2; [done|]; injection Ha as ->; left). destruct (H2 a Hal) as (Hah & Han).
      assert (foll = a) as -> by (unfold follower; now rewrite Ha).
      rewrite setSize_cells, !lookup_upd, (decide_True (P := a = a)), !decide_False; [reflexivity| |congruence|reflexivity].
      destruct (prev_cases h l1) as [[-> _]|[Hp _]]; [congruence|]. intros <-. now apply (H1 _ Hp).
Qed.

Lemma removed_repr : repr removedHp h (l1 ++ l2).
Proof using Hr.
  constructor; [exact removed_head|exact removed_seg| |].
  - unfold removed. cbn. now rewrite lookup_insert_eq.
  - pose proof (repr_nodup _ _ _ Hr) as Hd. assert (Hp : h :: l1 ++ n :: l2 ≡ₚ n :: h :: l1 ++ l2).
    { rewrite <- Permutation_middle. apply perm_swap. }
    rewrite Hp in Hd. now apply NoDup_cons in Hd as [_ Hd].
Qed.

End Delete.

(** ** Several lists *)

(** [L] gives the sequence of each list by the address of its head. *)
Record lists (hp : Heap) (L : gmap A (list A)) : Prop := {
  lists_each : forall h l, L !! h = Some l -> repr hp h l;
  lists_apart : forall h1 l1 h2 l2 a, L !! h1 = Some l1 -> L !! h2 = Some l2 -> a ∈ h1 :: l1 -> a ∈ h2 :: l2 -> h1 = h2;
  lists_loose : forall a n, L !! a = None -> (forall h l, L !! h = Some l -> a ∉ l) -> cells hp !! a = Some n -> n = NULLNODE
}.

(** A node that is in no list. *)
Definition loose (L : gmap A (list A)) (a : A) : Prop := L !! a = None /\ forall h l, L !! h = Some l -> a ∉ l.

Lemma repr_elsewhere hp hp' h n l h' l' : elsewhere hp hp' h n l -> repr hp h' l' -> h' <> h ->
  (forall a, a ∈ h' :: l' -> a ∉ h :: n :: l) -> repr hp' h' l'.
Proof.
  intros [Hc Hz] [[hl Hh] Hs Hsz Hd] Hne Hap. constructor; [| | |exact Hd].
  - exists hl. rewrite Hc; [exact Hh|apply Hap; left].
  - apply (seg_agree (cells hp)); [|exact Hs]. intros a Ha. apply Hc, Hap. now right.
  - now rewrite Hz.
Qed.

(** One list changes by one node. *)
Lemma lists_change hp hp' L h n l l' : lists hp L -> elsewhere hp hp' h n l -> repr hp' h l' ->
  (exists l0, L !! h = Some l0 /\ forall a, a ∈ l0 -> a ∈ n :: l) -> (forall a, a ∈ l' -> a ∈ n :: l) -> (forall a, a ∈ l -> a ∈ l') ->
  (forall h2 l2, L !! h2 = Some l2 -> h2 <> h -> n ∉ h2 :: l2 /\ forall a, a ∈ h2 :: l2 -> a ∉ h :: l) ->
  (n ∈ l' \/ cells hp' !! n = Some NULLNODE) -> n <> h ->
  lists hp' (<[h := l']> L).
Proof.
  intros HL He Hr' (l0 & Hl0 & Hsub) Hin Hout Hn Hnull Hnh. constructor.
  - intros h2 l2 E. destruct (decide (h2 = h)) as [->|Hne].
    + rewrite lookup_insert_eq in E. now injection E as <-.
    + rewrite lookup_insert_ne in E by congruence. destruct (Hn _ _ E Hne) as [Hn1 Hn2].
      apply (repr_elsewhere hp hp' h n l); [exact He|now apply (lists_each _ _ HL)|exact Hne|].
      intros a Ha. specialize (Hn2 a Ha). rewrite !elem_of_cons in *. intros [->|[->|Hl]]; tauto.
  - intros h1 l1 h2 l2 a E1 E2 H1 H2.
    assert (Hback : forall h3 l3, <[h := l']> L !! h3 = Some l3 -> a ∈ h3 :: l3 -> h3 <> h -> L !! h3 = Some l3).
    { intros h3 l3 E3 _ Hne. now rewrite lookup_insert_ne in E3 by congruence. }
    destruct (decide (h1 = h)) as [->|Hne1], (decide (h2 = h)) as [->|Hne2]; [done| | |].
    + apply Hback in E2; [|done|done]. rewrite lookup_insert_eq in E1. injection E1 as <-.
      destruct (Hn _ _ E2 Hne2) as [Hn1 Hn2]. exfalso. apply (Hn2 a H2). rewrite elem_of_cons in H1 |- *.
      destruct H1 as [->|H1]; [now left|]. apply Hin, elem_of_cons in H1 as [->|H1]; [done|now right].
    + apply Hback in E1; [|done|done]. rewrite lookup_insert_eq in E2. injection E2 as <-.
      destruct (Hn _ _ E1 Hne1) as [Hn1 Hn2]. exfalso. apply (Hn2 a H1). rewrite elem_of_cons in H2 |- *.
      destruct H2 as [->|H2]; [now left|]. apply Hin, elem_of_cons in H2 as [->|H2]; [done|now right].
    + apply Hback in E1, E2; try done. now apply (lists_apart _ _ HL h1 l1 h2 l2 a).
  - intros a nd Ha Hal Hc. assert (Hah : a <> h) by (intros ->; now rewrite lookup_insert_eq in Ha).
    rewrite lookup_insert_ne in Ha by congruence. pose proof (Hal h l' (lookup_insert_eq _ _ _)) as Hal'.
    destruct (decide (a = n)) as [->|Han]; [destruct Hnull as [Hnull|Hnull]; [done|congruence]|].
    rewrite (other_cells _ _ _ _ _ He) in Hc; [|rewrite !elem_of_cons; intros [?|[?|Hx]]; [done|done|now apply Hal', Hout]].
    apply (lists_loose _ _ HL a); [exact Ha| |exact Hc]. intros h2 l2 E2.
    destruct (decide (h2 = h)) as [->|Hne]; [|apply (Hal h2); now rewrite lookup_insert_ne by congruence].
    assert (l2 = l0) as -> by congruence. intros Hx. apply Hsub, elem_of_cons in Hx as [->|Hx]; [done|]. now apply Hal', Hout.
Qed.

Lemma lists_add hp L h l1 l2 n : lists hp L -> L !! h = Some (l1 ++ l2) -> loose L n -> is_Some (cells hp !! n) ->
  Z.of_nat (length (l1 ++ l2)) < 4294967295 ->
  exists hp', HlistAddAfter h (Some (final h l1)) n hp = Some hp' /\ lists hp' (<[h := l1 ++ n :: l2]> L) /\
    dom (cells hp') = dom (cells hp).
Proof.
  intros HL Hh [Hn1 Hn2] Hs Hlen. pose proof (lists_each _ _ HL _ _ Hh) as Hr.
  assert (Hnh : n <> h) by (intros ->; congruence).
  assert (Hn : n ∉ h :: l1 ++ l2) by (rewrite elem_of_cons; intros [?|Hx]; [done|now apply (Hn2 _ _ Hh)]).
  exists (added hp h n l1 l2). split; [now apply added_steps|]. split.
  - apply (lists_change hp _ L h n (l1 ++ l2)); [exact HL|now apply added_elsewhere|now apply added_repr| | | | | |exact Hnh].
    + exists (l1 ++ l2). split; [exact Hh|]. intros a Ha. now right.
    + intros a. rewrite !elem_of_cons, !elem_of_app, elem_of_cons. tauto.
    + intros a. rewrite !elem_of_app, elem_of_cons. tauto.
    + intros h2 l3 E2 Hne. split; [rewrite elem_of_cons; intros [->|Hx]; [congruence|now apply (Hn2 _ _ E2)]|].
      intros a Ha Ha'. apply Hne. now apply (lists_apart _ _ HL h2 l3 h (l1 ++ l2) a).
    + left. rewrite elem_of_app, elem_of_cons. auto.
  - unfold added. cbn. now rewrite !dom_alter_L.
Qed.

Lemma lists_delete hp L h l1 l2 n : lists hp L -> L !! h = Some (l1 ++ n :: l2) ->
  exists hp', HlistDelete h n hp = Some hp' /\ lists hp' (<[h := l1 ++ l2]> L) /\ dom (cells hp') = dom (cells hp).
Proof.
  intros HL Hh. pose proof (lists_each _ _ HL _ _ Hh) as Hr. destruct (parts _ _ _ _ (repr_nodup _ _ _ Hr)) as (Hnh & _ & _).
  destruct (removed_elsewhere _ _ _ _ _ Hr) as [He Hnull].
  exists (removed hp h n l1 l2). split; [now apply removed_steps|]. split.
  - apply (lists_change hp _ L h n (l1 ++ l2)); [exact HL|exact He|now apply removed_repr| | | | |now right|congruence].
    + exists (l1 ++ n :: l2). split; [exact Hh|]. intros a. rewrite !elem_of_cons, !elem_of_app, elem_of_cons. tauto.
    + intros a Ha. now right.
    + done.
    + intros h2 l3 E2 Hne. split; [|intros a Ha Ha'; apply Hne; apply (lists_apart _ _ HL h2 l3 h (l1 ++ n :: l2) a); try done].
      * intros Hx. apply Hne, (lists_apart _ _ HL h2 l3 h (l1 ++ n :: l2) n); try done.
        rewrite elem_of_cons, elem_of_app, elem_of_cons. auto.
      * rewrite elem_of_cons, elem_of_app in *. rewrite elem_of_cons. tauto.
  - unfold removed. cbn. now rewrite !dom_alter_L.
Qed.

Lemma lists_tail hp L h l n : lists hp L -> L !! h = Some l -> loose L n -> is_Some (cells hp !! n) ->
  Z.of_nat (length l) < 4294967295 ->
  exists hp', HlistAddTail h n hp = Some hp' /\ lists hp' (<[h := l ++ [n]]> L) /\ dom (cells hp') = dom (cells hp).
Proof.
  intros HL Hh Hn Hs Hlen. destruct (repr_head _ _ _ (lists_each _ _ HL _ _ Hh)) as [hl E].
  destruct (lists_add hp L h l [] n) as (hp' & E' & H'); rewrite ?app_nil_r in *; try done.
  exists hp'. split; [|exact H']. unfold HlistAddTail. rewrite load_some, E. exact E'.
Qed.

Lemma lists_head hp L h l n : lists hp L -> L !! h = Some l -> loose L n -> is_Some (cells hp !! n) ->
  Z.of_nat (length l) < 4294967295 ->
  exists hp', HlistAddHead h n hp = Some hp' /\ lists hp' (<[h := n :: l]> L) /\ dom (cells hp') = dom (cells hp).
Proof. intros HL Hh Hn Hs Hlen. exact (lists_add hp L h [] l n HL Hh Hn Hs Hlen). Qed.

Lemma lists_first hp L h l : lists hp L -> L !! h = Some l -> HLIST_FIRST h hp = Some (head l).
Proof.
  intros HL Hh. destruct (repr_head _ _ _ (lists_each _ _ HL _ _ Hh)) as [hl E].
  unfold HLIST_FIRST. rewrite load_some, E. now destruct l.
Qed.

Lemma lists_empty hp L h l : lists hp L -> L !! h = Some l -> HLIST_EMPTY h hp = Some (bool_decide (l = [])).
Proof.
  intros HL Hh. unfold HLIST_EMPTY. rewrite (repr_size _ _ _ (lists_each _ _ HL _ _ Hh)). cbn. now destruct l.
Qed.

(** The node of an element, and of one in no list. *)
Lemma lists_node hp L h l1 a l2 : lists hp L -> L !! h = Some (l1 ++ a :: l2) ->
  cells hp !! a = Some (mkHlistNode (head l2) (Some (final h l1)) (Some h)).
Proof.
  intros HL Hh. rewrite (Delete_node _ _ _ _ _ (lists_each _ _ HL _ _ Hh)). now destruct l2.
Qed.

Lemma lists_loose_node hp L a : lists hp L -> loose L a -> is_Some (cells hp !! a) -> cells hp !! a = Some NULLNODE.
Proof. intros HL [H1 H2] [n Hn]. now rewrite (lists_loose _ _ HL a n H1 H2 Hn) in Hn. Qed.

(** Whether a node is in a list. *)
Lemma lists_linked hp L a : lists hp L -> is_Some (cells hp !! a) -> L !! a = None ->
  (loose L a /\ HLISTNODE_LINKED a hp = Some false) \/
  (exists h l, L !! h = Some l /\ a ∈ l /\ HLISTNODE_LINKED a hp = Some true).
Proof.
  intros HL Hs Ha. destruct (decide (map_Exists (fun _ l => a ∈ l) L)) as [(h & l & E & Hin)|Hno].
  - right. exists h, l. split; [exact E|]. split; [exact Hin|]. apply list_elem_of_split in Hin as (l1 & l2 & ->).
    unfold HLISTNODE_LINKED. now rewrite load_some, (lists_node _ _ _ _ _ _ HL E).
  - left. assert (Hl : loose L a) by (split; [exact Ha|intros h l E Hin; apply Hno; now exists h, l]).
    split; [exact Hl|]. unfold HLISTNODE_LINKED. now rewrite load_some, (lists_loose_node _ _ _ HL Hl Hs).
Qed.



(** Memory that no list uses. *)
Lemma hrepr_agree hp hp' h l : (forall a, a ∈ h :: l -> cells hp' !! a = cells hp !! a) -> sizes hp' = sizes hp ->
  repr hp h l -> repr hp' h l.
Proof.
  intros Hc Hz [[hl Hh] Hs Hsz Hd]. constructor; [| |congruence|exact Hd].
  - exists hl. rewrite Hc; [exact Hh|left].
  - apply (seg_agree (cells hp)); [|exact Hs]. intros a Ha. apply Hc. now right.
Qed.

Lemma lists_in hp L h l a : lists hp L -> L !! h = Some l -> a ∈ h :: l -> is_Some (cells hp !! a).
Proof. intros HL Hh. apply repr_some, (lists_each _ _ HL _ _ Hh). Qed.

Lemma lists_alloc hp L a : lists hp L -> cells hp !! a = None ->
  lists (mkHeap (<[a := NULLNODE]> (cells hp)) (sizes hp)) L.
Proof.
  intros HL Ha. constructor.
  - intros h l E. apply (hrepr_agree hp); [|reflexivity|now apply (lists_each _ _ HL)]. intros b Hb. cbn.
    apply lookup_insert_ne. intros ->. destruct (lists_in _ _ _ _ _ HL E Hb). congruence.
  - exact (lists_apart _ _ HL).
  - intros b n Hb Hl. cbn. destruct (decide (a = b)) as [->|Hne]; [rewrite lookup_insert_eq; congruence|].
    rewrite lookup_insert_ne by done. now apply (lists_loose _ _ HL b).
Qed.

Lemma lists_free hp L a : lists hp L -> loose L a -> lists (mkHeap (delete a (cells hp)) (sizes hp)) L.
Proof.
  intros HL [Ha1 Ha2]. constructor.
  - intros h l E. apply (hrepr_agree hp); [|reflexivity|now apply (lists_each _ _ HL)]. intros b Hb. cbn.
    apply lookup_delete_ne. intros ->. apply elem_of_cons in Hb as [->|Hb]; [congruence|now apply (Ha2 h l)].
  - exact (lists_apart _ _ HL).
  - intros b n Hb Hl Hc. cbn in Hc. apply lookup_delete_Some in Hc as [_ Hc]. now apply (lists_loose _ _ HL b).
Qed.

Lemma lists_next hp L h l1 a l2 : lists hp L -> L !! h = Some (l1 ++ a :: l2) ->
  exists c, load (Some a) hp = Some c /\ next c = head l2.
Proof. intros HL Hh. rewrite load_some, (lists_node _ _ _ _ _ _ HL Hh). eauto. Qed.

(** Heads as [HLIST_INIT] leaves them. *)
Definition freshHeap (hs : gset A) : Heap :=
  mkHeap (set_to_map (fun h => (h, mkHlistNode None (Some h) None)) hs) (set_to_map (fun h => (h, 0)) hs).
Definition freshLists (hs : gset A) : gmap A (list A) := set_to_map (fun h => (h, [])) hs.

Lemma set_to_map_lookup {B} (f : A -> B) (hs : gset A) h y :
  (set_to_map (fun a => (a, f a)) hs : gmap A B) !! h = Some y <-> h ∈ hs /\ y = f h.
Proof.
  rewrite lookup_set_to_map by (intros a a' _ _; exact id). split.
  - intros (a & Ha & [= <- <-]). done.
  - intros [Hh ->]. eauto.
Qed.

Lemma lists_fresh hs : lists (freshHeap hs) (freshLists hs).
Proof.
  constructor.
  - intros h l [Hh ->]%set_to_map_lookup. constructor.
    + exists None. now apply (set_to_map_lookup (fun h => mkHlistNode None (Some h) None)).
    + constructor.
    + now apply (set_to_map_lookup (fun _ => 0)).
    + apply NoDup_singleton.
  - intros h1 l1 h2 l2 a [_ ->]%set_to_map_lookup [_ ->]%set_to_map_lookup ->%list_elem_of_singleton ?%list_elem_of_singleton. done.
  - intros a n Ha _ [Hh _]%set_to_map_lookup. unfold freshLists in Ha.
    rewrite (proj2 (set_to_map_lookup (fun _ => []) hs a []) (conj Hh eq_refl)) in Ha. discriminate.
Qed.

(** ** Sequences of operations *)

Inductive hop :=
| OpTail (h n : A)
| OpHead (h n : A)
| OpDelete (h n : A)
| OpDelNode (n : A)
| OpPop (h : A).

Definition exec (o : hop) (hp : Heap) : option (option A * Heap) :=
  match o with
  | OpTail h n => hp' ← HlistAddTail h n hp; Some (None, hp')
  | OpHead h n => hp' ← HlistAddHead h n hp; Some (None, hp')
  | OpDelete h n => hp' ← HlistDelete h n hp; Some (None, hp')
  | OpDelNode n => hp' ← HlistDelNode n hp; Some (None, hp')
  | OpPop h => HlistPopHead (Some h) hp
  end.

Fixpoint execs (os : list hop) (hp : Heap) : option (list (option A) * Heap) :=
  match os with
  | [] => Some ([], hp)
  | o :: os' => '(r, hp) ← exec o hp; '(rs, hp) ← execs os' hp; Some (r :: rs, hp)
  end.

(** What the operations mean for sequences.  [D]: the nodes there are. *)
Inductive hspec (D : gset A) (L : gmap A (list A)) : hop -> option A -> gmap A (list A) -> Prop :=
| spec_tail h l n : L !! h = Some l -> loose L n -> n ∈ D -> Z.of_nat (length l) < 4294967295 ->
    hspec D L (OpTail h n) None (<[h := l ++ [n]]> L)
| spec_head h l n : L !! h = Some l -> loose L n -> n ∈ D -> Z.of_nat (length l) < 4294967295 ->
    hspec D L (OpHead h n) None (<[h := n :: l]> L)
| spec_delete h l1 n l2 : L !! h = Some (l1 ++ n :: l2) -> hspec D L (OpDelete h n) None (<[h := l1 ++ l2]> L)
| spec_delnode h l1 n l2 : L !! h = Some (l1 ++ n :: l2) -> hspec D L (OpDelNode n) None (<[h := l1 ++ l2]> L)
| spec_delnode_loose n : loose L n -> n ∈ D -> hspec D L (OpDelNode n) None L
| spec_pop h n l : L !! h = Some (n :: l) -> hspec D L (OpPop h) (Some n) (<[h := l]> L)
| spec_pop_empty h : L !! h = Some [] -> hspec D L (OpPop h) None L.

Inductive hspecs (D : gset A) : gmap A (list A) -> list hop -> list (option A) -> gmap A (list A) -> Prop :=
| specs_nil L : hspecs D L [] [] L
| specs_cons L o r L1 os rs L2 : hspec D L o r L1 -> hspecs D L1 os rs L2 -> hspecs D L (o :: os) (r :: rs) L2.

Lemma exec_ok hp L o r L' : lists hp L -> hspec (dom (cells hp)) L o r L' ->
  exists hp', exec o hp = Some (r, hp') /\ lists hp' L' /\ dom (cells hp') = dom (cells hp).
Proof.
  intros HL [h l n Hh Hn Hd Hlen|h l n Hh Hn Hd Hlen|h l1 n l2 Hh|h l1 n l2 Hh|n Hn Hd|h n l Hh|h Hh]; cbn [exec].
  - apply elem_of_dom in Hd. destruct (lists_tail _ _ _ _ _ HL Hh Hn Hd Hlen) as (hp' & -> & H'). now exists hp'.
  - apply elem_of_dom in Hd. destruct (lists_head _ _ _ _ _ HL Hh Hn Hd Hlen) as (hp' & -> & H'). now exists hp'.
  - destruct (lists_delete _ _ _ _ _ _ HL Hh) as (hp' & -> & H'). now exists hp'.
  - destruct (lists_delete _ _ _ _ _ _ HL Hh) as (hp' & E & H'). exists hp'. split; [|exact H'].
    unfold HlistDelNode. rewrite load_some, (lists_node _ _ _ _ _ _ HL Hh). cbn. now rewrite E.
  - apply elem_of_dom in Hd. exists hp. split; [|done]. unfold HlistDelNode.
    now rewrite load_some, (lists_loose_node _ _ _ HL Hn Hd).
  - destruct (lists_delete _ _ _ [] _ _ HL Hh) as (hp' & E & H'). exists hp'. split; [|exact H'].
    unfold HlistPopHead. rewrite (lists_first _ _ _ _ HL Hh). cbn [mbind option_bind head]. now rewrite E.
  - exists hp. unfold HlistPopHead. now rewrite (lists_first _ _ _ _ HL Hh).
Qed.

Lemma execs_ok os : forall hp L rs L', lists hp L -> hspecs (dom (cells hp)) L os rs L' ->
  exists hp', execs os hp = Some (rs, hp') /\ lists hp' L'.
Proof.
  induction os as [|o os IH]; intros hp L rs L' HL Hsp; inversion Hsp as [|? ? r L1 ? rs' ? H1 H2]; subst; [now exists hp|].
  destruct (exec_ok _ _ _ _ _ HL H1) as (hp1 & E1 & HL1 & D1). rewrite <- D1 in H2.
  destruct (IH _ _ _ _ HL1 H2) as (hp2 & E2 & HL2). exists hp2. cbn [execs]. rewrite E1. cbn. now rewrite E2.
Qed.

End Model.

End Hlist.
