(* ===== verification/EpTree.v ===== *)
(** * The descriptors of an epoll instance

    The functions of components/nstackx/fillp/src/app_lib/src/epoll_app.c that
    search, extend and cut the red-black tree of an epoll instance: [EpFind],
    [EpRbtreeInsert], and the removal by [FillpRbErase].  The theorem
    [epoll_tree_refines_map] shows that they implement a finite map from
    descriptors to items, whatever the sequence of calls, over a balanced tree. *)

From S2P Require Import Prelude RbTree RbFrame.
From stdpp Require Import gmap list sorting.
#[local] Open Scope Z_scope.

Import RbTree RbFrame.

Module EpTree.

(** ** Model *)

Section Model.

(** [epi->fileDespcriptor] of an item. *)
Context (fdOf : nat -> option Z).

Fixpoint findLoop (loopLimit : nat) (fd : Z) (rbp : option nat) (st : Store) : option (option nat) :=
  match rbp, loopLimit with
  | None, _ => Some None
  | _, O => Some None
  | Some epi, S loopLimit' =>
    f ← fdOf epi;
    if fd >? f then r ← getRight rbp st; findLoop loopLimit' fd r st
    else if fd <? f then l ← getLeft rbp st; findLoop loopLimit' fd l st
    else Some (Some epi)
  end.

Definition EpFind (maxEpollItemNum fd : Z) (st : Store) : option (option nat) :=
  findLoop (Z.to_nat maxEpollItemNum) fd (rbNode st) st.

(** What [struct RbNode **p] points to. *)
Inductive place := AtRoot | AtLeft (a : nat) | AtRight (a : nat).

Definition readPlace (p : place) (st : Store) : option (option nat) :=
  match p with
  | AtRoot => Some (rbNode st)
  | AtLeft a => getLeft (Some a) st
  | AtRight a => getRight (Some a) st
  end.
Definition writePlace (p : place) (v : option nat) (st : Store) : option Store :=
  match p with
  | AtRoot => Some (setRoot v st)
  | AtLeft a => setLeft v (Some a) st
  | AtRight a => setRight v (Some a) st
  end.

Fixpoint insertPoint (loopLimit : nat) (fd : Z) (p : place) (parent : option nat) (st : Store)
  : option (place * option nat) :=
  x ← readPlace p st;
  match x, loopLimit with
  | None, _ => Some (p, parent)
  | _, O => Some (p, parent)
  | Some epic, S loopLimit' =>
    f ← fdOf epic;
    insertPoint loopLimit' fd (if fd >? f then AtRight epic else AtLeft epic) (Some epic) st
  end.

Definition EpRbtreeInsert (maxEpollItemNum : Z) (epi : nat) (st : Store) : option Store :=
  fd ← fdOf epi;
  '(p, parent) ← insertPoint (Z.to_nat maxEpollItemNum) fd AtRoot None st;
  st ← setRight None (Some epi) st;
  st ← setLeft None (Some epi) st;
  st ← setParent parent (Some epi) st;
  st ← setColor RB_RED (Some epi) st;
  st ← writePlace p (Some epi) st;
  FillpRbInsertColor (Some epi) st.

End Model.

(** ** Search *)

Section Search.

Context (fdOf : nat -> option Z).

Definition lower (a b : nat) : Prop := exists x y, fdOf a = Some x /\ fdOf b = Some y /\ x < y.

(** Live items in ascending order of their descriptors. *)
Definition ascending (l : list nat) : Prop := Forall (fun a => is_Some (fdOf a)) l /\ StronglySorted lower l.

Definition below (fd : Z) (a : nat) : Prop := exists x, fdOf a = Some x /\ x < fd.
Definition above (fd : Z) (a : nat) : Prop := exists x, fdOf a = Some x /\ fd < x.

Lemma ascending_app l1 l2 : ascending (l1 ++ l2) <->
  ascending l1 /\ ascending l2 /\ forall a b, a ∈ l1 -> b ∈ l2 -> lower a b.
Proof. unfold ascending. rewrite Forall_app, StronglySorted_app. naive_solver. Qed.

Lemma ascending_mid l1 a l2 fd : fdOf a = Some fd -> ascending (l1 ++ a :: l2) <->
  ascending l1 /\ ascending l2 /\ Forall (below fd) l1 /\ Forall (above fd) l2.
Proof.
  intros Ha. change (a :: l2) with ([a] ++ l2). rewrite !ascending_app, !Forall_forall. unfold below, above. split.
  - intros (H1 & (_ & H2 & H3) & H4). repeat split; try apply H1; try apply H2.
    + intros b Hb. destruct (H4 b a Hb) as (x & y & ? & ? & ?); [set_solver|]. exists x. split; [done|congruence].
    + intros b Hb. destruct (H3 a b) as (x & y & ? & ? & ?); [set_solver|done|]. exists y. split; [done|congruence].
  - intros (H1 & H2 & H3 & H4). repeat split; try apply H1; try apply H2.
    + repeat constructor. eauto.
    + repeat constructor.
    + intros b b' ->%list_elem_of_singleton Hb'. destruct (H4 b' Hb') as (y & ? & ?). now exists fd, y.
    + intros b b' Hb Hb'. destruct (H3 b Hb) as (x & ? & ?).
      apply elem_of_app in Hb' as [->%list_elem_of_singleton|Hb']; [now exists x, fd|].
      destruct (H4 b' Hb') as (y & ? & ?). exists x, y. repeat split; try done. lia.
Qed.

Lemma ascending_fd l a : ascending l -> a ∈ l -> exists x, fdOf a = Some x.
Proof. intros [H _] Ha. rewrite Forall_forall in H. exact (H a Ha). Qed.

(** A descriptor occurs once. *)
Lemma ascending_inj l a b fd : ascending l -> a ∈ l -> b ∈ l -> fdOf a = Some fd -> fdOf b = Some fd -> a = b.
Proof.
  intros H (l1 & l2 & ->)%list_elem_of_split Hb Ea Eb. apply (ascending_mid _ _ _ fd Ea) in H as (_ & _ & H1 & H2).
  rewrite Forall_forall in H1, H2. apply elem_of_app in Hb as [Hb|[->|Hb]%elem_of_cons]; [|done|].
  - destruct (H1 b Hb) as (x & E & ?). assert (x = fd) by congruence. lia.
  - destruct (H2 b Hb) as (x & E & ?). assert (x = fd) by congruence. lia.
Qed.

Lemma findLoop_ok fd st t : forall p limit, repr (mem st) t p -> ascending (inorder t) ->
  (length (inorder t) <= limit)%nat ->
  (exists a, a ∈ inorder t /\ fdOf a = Some fd /\ findLoop fdOf limit fd (root t) st = Some (Some a)) \/
  ((forall a, a ∈ inorder t -> fdOf a <> Some fd) /\ findLoop fdOf limit fd (root t) st = Some None).
Proof.
  induction t as [|b c l IHl r IHr]; intros p limit Ht Hs Hlen.
  - right. split; [now intros a ?%elem_of_nil|]. now destruct limit.
  - cbn [inorder repr root] in *. destruct Ht as (Hb & Hl & Hr).
    rewrite length_app in Hlen. cbn [length] in Hlen. destruct limit as [|limit]; [lia|].
    assert (Hin : b ∈ inorder l ++ b :: inorder r) by set_solver.
    destruct (ascending_fd _ _ Hs Hin) as [f Ef]. apply (ascending_mid _ _ _ f Ef) in Hs as (Hsl & Hsr & H1 & H2).
    rewrite Forall_forall in H1, H2. cbn [findLoop]. rewrite Ef. cbn [mbind option_bind].
    destruct (Z.gtb_spec fd f); [|destruct (Z.ltb_spec fd f)].
    + change (getRight (Some b)) with (getC false (Some b)). rewrite (getC_some _ _ _ _ Hb).
      cbn [mbind option_bind childOf rbRight].
      destruct (IHr _ limit Hr Hsr ltac:(lia)) as [(a & Ha & E)|(Ha & E)]; [left; exists a; split; [set_solver|done]|].
      right. split; [|exact E]. intros a [Hal|[->|Har]%elem_of_cons]%elem_of_app Efd;
        [|assert (f = fd) by congruence; lia|now apply (Ha a)].
      destruct (H1 a Hal) as (x & Ex & ?). assert (x = fd) by congruence. lia.
    + change (getLeft (Some b)) with (getC true (Some b)). rewrite (getC_some _ _ _ _ Hb).
      cbn [mbind option_bind childOf rbLeft].
      destruct (IHl _ limit Hl Hsl ltac:(lia)) as [(a & Ha & E)|(Ha & E)]; [left; exists a; split; [set_solver|done]|].
      right. split; [|exact E]. intros a [Hal|[->|Har]%elem_of_cons]%elem_of_app Efd;
        [now apply (Ha a)|assert (f = fd) by congruence; lia|].
      destruct (H2 a Har) as (x & Ex & ?). assert (x = fd) by congruence. lia.
    + left. exists b. split; [exact Hin|]. split; [|reflexivity]. rewrite Ef. f_equal. lia.
Qed.

(** ** Insertion *)

Definition placeOf (k : path) : place :=
  match k with [] => AtRoot | (true, a, _, _) :: _ => AtLeft a | (false, a, _, _) :: _ => AtRight a end.

Lemma readPlace_ok st k t : hold st k t -> readPlace (placeOf k) st = Some (root t).
Proof.
  intros [_ Hk Hr _]. destruct k as [|[[[d a] c] s] k]; cbn in *; [now rewrite Hr|]. destruct Hk as (Ha & _).
  destruct d; cbn.
  - exact (getC_some true a st _ Ha).
  - exact (getC_some false a st _ Ha).
Qed.

Lemma insertPoint_ok fd st t : forall k limit l1 l2, hold st k t ->
  (forall t', inorder (fill k t') = l1 ++ inorder t' ++ l2) -> Forall (below fd) l1 -> Forall (above fd) l2 ->
  ascending (inorder t) -> (forall a, a ∈ inorder t -> fdOf a <> Some fd) -> (length (inorder t) <= limit)%nat ->
  exists k' l1' l2', insertPoint fdOf limit fd (placeOf k) (parentOf k) st = Some (placeOf k', parentOf k') /\
    hold st k' Leaf /\ fill k' Leaf = fill k t /\ (forall t', inorder (fill k' t') = l1' ++ inorder t' ++ l2') /\
    Forall (below fd) l1' /\ Forall (above fd) l2'.
Proof.
  induction t as [|b c l IHl r IHr]; intros k limit l1 l2 H Hk H1 H2 Hs Hn Hlen.
  - exists k, l1, l2. split; [|done]. destruct limit; cbn [insertPoint]; now rewrite (readPlace_ok _ _ _ H).
  - cbn [inorder] in *. rewrite length_app in Hlen. cbn [length] in Hlen. destruct limit as [|limit]; [lia|].
    assert (Hin : b ∈ inorder l ++ b :: inorder r) by set_solver.
    destruct (ascending_fd _ _ Hs Hin) as [f Ef]. pose proof (Hn b Hin) as Hf.
    apply (ascending_mid _ _ _ f Ef) in Hs as (Hsl & Hsr & Hb1 & Hb2).
    cbn [insertPoint]. rewrite (readPlace_ok _ _ _ H). cbn [mbind option_bind root]. rewrite Ef. cbn [mbind option_bind].
    destruct (Z.gtb_spec fd f) as [Hg|Hg].
    + apply (IHr ((false, b, c, l) :: k) limit (l1 ++ inorder l ++ [b]) l2); try done.
      * now rewrite hold_up.
      * intros t'. cbn [fill fill1 mk]. rewrite Hk. cbn [inorder]. now rewrite <- !app_assoc.
      * rewrite !Forall_app. split; [done|]. split; [|repeat constructor; exists f; split; [done|lia]].
        eapply Forall_impl; [exact Hb1|]. intros a (x & Ex & Hx). exists x. split; [done|lia].
      * intros a Ha. apply Hn. set_solver.
      * lia.
    + assert (fd < f) by (assert (fd <> f) by congruence; lia).
      apply (IHl ((true, b, c, r) :: k) limit l1 (b :: inorder r ++ l2)); try done.
      * now rewrite hold_up.
      * intros t'. cbn [fill fill1 mk]. rewrite Hk. cbn [inorder]. now rewrite <- !app_assoc.
      * constructor; [exists f; split; [done|lia]|]. rewrite Forall_app. split; [|done].
        eapply Forall_impl; [exact Hb2|]. intros a (x & Ex & Hx). exists x. split; [done|lia].
      * intros a Ha. apply Hn. set_solver.
      * lia.
Qed.

(** A new red node below the path [k]. *)
Lemma insert_hold st k x : hold st k Leaf -> occK x k = 0%nat -> is_Some (mem st !! x) ->
  hold (linked k (Some x) (altS (fun _ => mkNode (parentOf k) None None RB_RED) x st)) k (Node x RB_RED Leaf Leaf).
Proof.
  intros [_ Hk Hr Ho] Hx [n Hn]. cbn [root] in *.
  assert (Hp : parentOf k <> Some x) by (intros E; pose proof (parent_occ _ _ E); lia). constructor.
  - cbn [repr root]. repeat split. rewrite lookup_linked, decide_False, lookup_altS, decide_True by done. now rewrite Hn.
  - apply (reprK_rechild (mem st) _ _ None); [| | |exact Hk].
    + intros a. specialize (Ho a). cbn in Ho. lia.
    + intros a Ha Hne. rewrite lookup_linked, lookup_altS, !decide_False; [done|intros ->; lia|exact Hne].
    + intros e q cq s k' ->. rewrite lookup_linked, lookup_altS, decide_True by reflexivity.
      rewrite decide_False; [reflexivity|]. intros <-. now apply Hp.
  - cbn [root]. now apply (rootK_linked _ _ _ None).
  - intros a. specialize (Ho a). cbn [occ] in *. unfold one in *. case_decide; [subst a; lia|lia].
Qed.

Lemma writePlace_ok st k v : (forall q, parentOf k = Some q -> is_Some (mem st !! q)) ->
  writePlace (placeOf k) v st = Some (linked k v st).
Proof.
  intros H. destruct k as [|[[[d q] c] s] k]; [reflexivity|]. destruct (H q eq_refl) as [n Hn].
  destruct d; cbn [placeOf writePlace linked].
  - exact (setC_some true v q st n Hn).
  - exact (setC_some false v q st n Hn).
Qed.

(** The tree of an instance. *)
Record treeOf (st : Store) (T : tree) : Prop := {
  tree_hold : hold st [] T;
  tree_wf : wf T;
  tree_ascending : ascending (inorder T)
}.

Lemma treeOf_unique st T T' : treeOf st T -> treeOf st T' -> T = T'.
Proof. intros H H'. exact (hold_unique _ _ _ (tree_hold _ _ H) (tree_hold _ _ H')). Qed.

Lemma occ_inorder a T : (1 <= occ a T)%nat <-> a ∈ inorder T.
Proof.
  induction T as [|b c l IHl r IHr]; cbn [occ inorder]; [rewrite elem_of_nil; lia|].
  rewrite elem_of_app, elem_of_cons, <- IHl, <- IHr. unfold one. case_decide; lia.
Qed.

(** The assignments to the new node. *)
Lemma new_node_steps st k x : hold st k Leaf -> occK x k = 0%nat -> is_Some (mem st !! x) ->
  exists st', (st ← setRight None (Some x) st;
    st ← setLeft None (Some x) st;
    st ← setParent (parentOf k) (Some x) st;
    st ← setColor RB_RED (Some x) st;
    writePlace (placeOf k) (Some x) st) = Some st' /\ nodes st' = nodes st /\ hold st' k (Node x RB_RED Leaf Leaf).
Proof.
  intros H Hx [n Hn]. change (setRight None) with (setC false None). change (setLeft None) with (setC true None).
  rewrite (setC_some _ _ _ _ _ Hn). cbn [mbind option_bind].
  erewrite setC_some by (apply altS_eq; exact Hn). cbn [mbind option_bind].
  erewrite setParent_some by (do 2 apply altS_eq; exact Hn). cbn [mbind option_bind].
  erewrite setColor_some by (do 3 apply altS_eq; exact Hn). cbn [mbind option_bind].
  rewrite writePlace_ok.
  - eexists. split; [reflexivity|]. split; [now rewrite nodes_linked, !nodes_altS|].
    apply (hold_agree _ _ _ _ (insert_hold st k x H Hx ltac:(eauto))).
    + now rewrite !rbNode_linked.
    + intros a _. rewrite !lookup_linked, !lookup_altS. repeat case_decide; try done; subst; now rewrite Hn.
  - intros q Eq. assert (x <> q) by (intros ->; pose proof (parent_occ _ _ Eq); lia).
    rewrite !altS_ne by done. destruct H as [_ Hk _ _]. apply (reprK_in _ _ _ _ Hk). now apply parent_occ.
Qed.

Lemma EpRbtreeInsert_ok st T x fd maxItems : treeOf st T -> fdOf x = Some fd -> x ∉ inorder T -> is_Some (mem st !! x) ->
  (forall a, a ∈ inorder T -> fdOf a <> Some fd) -> Z.of_nat (length (inorder T)) <= maxItems ->
  exists st' T', EpRbtreeInsert fdOf maxItems x st = Some st' /\ nodes st' = nodes st /\ treeOf st' T' /\
    inorder T' ≡ₚ x :: inorder T.
Proof.
  intros [H [Hb Hm] Hs] Efd Hx Hmem Hn Hlen. unfold EpRbtreeInsert. rewrite Efd. cbn [mbind option_bind].
  destruct (insertPoint_ok fd st T [] (Z.to_nat maxItems) [] []) as (k & l1 & l2 & E & Hk & Ek & Hin & H1 & H2);
    try done; [intros t'; cbn; now rewrite app_nil_r|lia|].
  cbn [placeOf parentOf fill] in E, Ek. rewrite E. cbn [mbind option_bind].
  assert (Hxk : occK x k = 0%nat).
  { rewrite <- occ_inorder, <- Ek, occ_fill in Hx. cbn [occ] in Hx. lia. }
  destruct (new_node_steps st k x Hk Hxk Hmem) as (st1 & E1 & N1 & H1').
  rewrite <- Ek in Hb, Hm. destruct (rb_unfill k Leaf Hb Hm) as (n & Hn0 & Hrk & _). inversion Hn0; subst n.
  destruct (FillpRbInsertColor_ok st1 k x H1' Hrk) as (st2 & T2 & E2 & N2 & HT2 & Hw2 & Ei).
  exists st2, T2. split; [|split; [congruence|split; [split; [done|done|]|]]].
  - destruct (setRight None (Some x) st) as [sa|]; [|discriminate]. cbn [mbind option_bind] in *.
    destruct (setLeft None (Some x) sa) as [sb|]; [|discriminate]. cbn [mbind option_bind] in *.
    destruct (setParent (parentOf k) (Some x) sb) as [sc|]; [|discriminate]. cbn [mbind option_bind] in *.
    destruct (setColor RB_RED (Some x) sc) as [sd|]; [|discriminate]. cbn [mbind option_bind] in *.
    rewrite E1. exact E2.
  - rewrite Ei, Hin. cbn [inorder app]. apply (ascending_mid _ _ _ fd Efd).
    rewrite <- Ek, Hin in Hs. cbn [inorder app] in Hs. apply ascending_app in Hs as (? & ? & _). done.
  - rewrite Ei, Hin, <- Ek, Hin. cbn [inorder app]. now rewrite Permutation_middle.
Qed.

Lemma EpFind_ok st T fd maxItems : treeOf st T -> Z.of_nat (length (inorder T)) <= maxItems ->
  (exists a, a ∈ inorder T /\ fdOf a = Some fd /\ EpFind fdOf maxItems fd st = Some (Some a)) \/
  ((forall a, a ∈ inorder T -> fdOf a <> Some fd) /\ EpFind fdOf maxItems fd st = Some None).
Proof.
  intros [H _ Hs] Hlen. unfold EpFind. rewrite (hold_root _ _ _ H). destruct H as [Ht _ _ _].
  apply (findLoop_ok fd st T None); [exact Ht|exact Hs|lia].
Qed.

Lemma FillpRbErase_tree st T x : treeOf st T -> x ∈ inorder T ->
  exists st' T', FillpRbErase (Some x) st = Some st' /\ nodes st' = nodes st /\ treeOf st' T' /\
    inorder T ≡ₚ x :: inorder T'.
Proof.
  intros [H Hw Hs] Hx. destruct (FillpRbErase_ok st T x H Hw) as (st' & T' & E & N & H' & Hw' & l1 & l2 & E1 & E2);
    [now apply occ_inorder|].
  exists st', T'. split; [exact E|]. split; [exact N|]. split; [split; [done|done|]|].
  - rewrite E1 in Hs. rewrite E2. change (x :: l2) with ([x] ++ l2) in Hs. rewrite !ascending_app in *.
    destruct Hs as (H1 & (_ & H2 & _) & H3). repeat split; try apply H1; try apply H2.
    intros a b Ha Hb. apply H3; [done|]. apply elem_of_app. now right.
  - rewrite E1, E2. now rewrite Permutation_middle.
Qed.

End Search.

(** ** Several trees in one memory *)

Lemma findLoop_frame F fdOf n : forall fd x st r, findLoop fdOf n fd x st = Some r -> findLoop fdOf n fd x (extend F st) = Some r.
Proof.
  induction n as [|n IH]; intros fd x st r; cbn [findLoop]; intros H; [exact H|]. destruct x as [a|]; [|exact H].
  destruct (fdOf a) as [f|]; [|discriminate]. cbn [mbind option_bind] in *. framed.
Qed.

Lemma readPlace_frame F p st r : readPlace p st = Some r -> readPlace p (extend F st) = Some r.
Proof. destruct p; cbn [readPlace]; eauto with frame. Qed.
Lemma writePlace_frame F p v st st' : writePlace p v st = Some st' -> writePlace p v (extend F st) = Some (extend F st').
Proof. destruct p; cbn [writePlace]; eauto with frame. now intros [= <-]. Qed.
#[export] Hint Resolve readPlace_frame writePlace_frame FillpRbInsertColor_frame : frame.

Lemma insertPoint_frame F fdOf n : forall fd p q st r, insertPoint fdOf n fd p q st = Some r ->
  insertPoint fdOf n fd p q (extend F st) = Some r.
Proof.
  induction n as [|n IH]; intros fd p q st r; cbn [insertPoint]; intros H.
  - destruct (readPlace p st) as [x|] eqn:E; [|discriminate]. now rewrite (readPlace_frame _ _ _ _ E).
  - destruct (readPlace p st) as [x|] eqn:E; [|discriminate]. rewrite (readPlace_frame _ _ _ _ E). cbn [mbind option_bind] in *.
    destruct x as [a|]; [|exact H]. destruct (fdOf a) as [f|]; [|discriminate]. cbn [mbind option_bind] in *. now apply IH.
Qed.
#[export] Hint Resolve insertPoint_frame : frame.

Lemma EpRbtreeInsert_frame F fdOf n x st st' : EpRbtreeInsert fdOf n x st = Some st' ->
  EpRbtreeInsert fdOf n x (extend F st) = Some (extend F st').
Proof.
  unfold EpRbtreeInsert. destruct (fdOf x) as [fd|]; [|discriminate]. cbn [mbind option_bind]. intros H. framed.
Qed.

Section Shared.

Context (fdOf : nat -> option Z) (M : gmap nat RbNode) (r : option nat) (T : tree) (l : list nat).
Context (HT : treeOf fdOf (mkStore M r) T) (Hl : forall a, a ∈ inorder T -> a ∈ l).

Definition inside : gmap nat RbNode := filter (fun kv => kv.1 ∈ l) M.
Definition outside : gmap nat RbNode := filter (fun kv => ~ kv.1 ∈ l) M.

Lemma split_memory : extend outside (mkStore inside r) = mkStore M r.
Proof using. unfold extend, inside, outside. cbn. f_equal. apply map_filter_union_complement. Qed.

Lemma inside_lookup a : a ∈ l -> inside !! a = M !! a.
Proof using.
  intros Ha. unfold inside. destruct (M !! a) as [n|] eqn:E.
  - now apply map_lookup_filter_Some.
  - apply map_lookup_filter_None. now left.
Qed.

Lemma inside_dom a : a ∈ dom inside -> a ∈ l.
Proof using. intros [n Hn]%elem_of_dom. now apply map_lookup_filter_Some in Hn as [_ Hn]. Qed.

Lemma inside_tree : treeOf fdOf (mkStore inside r) T.
Proof using HT Hl.
  destruct HT as [H Hw Ha]. split; [|exact Hw|exact Ha].
  apply (hold_agree _ _ _ _ H); [reflexivity|]. intros a Hoa. cbn in *. apply inside_lookup, Hl, occ_inorder. lia.
Qed.

(** What is true of a run with the nodes [l] is true of the run in [M]. *)
Lemma shared_result st' T' : nodes st' = dom inside -> treeOf fdOf st' T' -> (forall a, a ∈ inorder T' -> a ∈ l) ->
  treeOf fdOf (extend outside st') T' /\ (forall a, a ∉ l -> mem (extend outside st') !! a = M !! a) /\
  dom (mem (extend outside st')) = dom M.
Proof using.
  intros N [H Hw Ha] Hl'. unfold nodes in N. split; [|split].
  - split; [|exact Hw|exact Ha]. apply (hold_agree _ _ _ _ H); [reflexivity|]. intros a Hoa. cbn in *.
    destruct H as [Ht _ _ _]. destruct (repr_in _ _ _ a Ht) as [n Hn]; [lia|]. rewrite Hn. now apply lookup_union_Some_l.
  - intros a Hna. cbn. rewrite lookup_union_r.
    + unfold outside. destruct (M !! a) as [n|] eqn:E; [now apply map_lookup_filter_Some|apply map_lookup_filter_None; now left].
    + apply not_elem_of_dom. rewrite N. intros Hin. apply Hna, inside_dom, Hin.
  - cbn. rewrite dom_union_L, N, <- dom_union_L. unfold inside, outside. now rewrite map_filter_union_complement.
Qed.

End Shared.

Lemma insert_shared fdOf M r T x fd maxItems : treeOf fdOf (mkStore M r) T -> fdOf x = Some fd -> x ∉ inorder T ->
  is_Some (M !! x) -> (forall a, a ∈ inorder T -> fdOf a <> Some fd) -> Z.of_nat (length (inorder T)) <= maxItems ->
  exists st' T', EpRbtreeInsert fdOf maxItems x (mkStore M r) = Some st' /\ treeOf fdOf st' T' /\
    inorder T' ≡ₚ x :: inorder T /\ (forall a, a ∉ x :: inorder T -> mem st' !! a = M !! a) /\ dom (mem st') = dom M.
Proof.
  intros HT Efd Hx Hs Hno Hlen. set (l := x :: inorder T).
  assert (Hl : forall a, a ∈ inorder T -> a ∈ l) by (intros a Ha; now right).
  destruct (EpRbtreeInsert_ok fdOf (mkStore (inside M l) r) T x fd maxItems) as (st' & T' & E & N & HT' & HP); try done.
  - now apply inside_tree.
  - cbn. rewrite inside_lookup; [exact Hs|left].
  - apply (EpRbtreeInsert_frame (outside M l)) in E. rewrite split_memory in E.
    destruct (shared_result fdOf M l st' T') as (H1 & H2 & H3); [done|done|intros a; now rewrite HP|].
    eexists _, T'. split; [exact E|]. done.
Qed.

Lemma erase_shared fdOf M r T x : treeOf fdOf (mkStore M r) T -> x ∈ inorder T ->
  exists st' T', FillpRbErase (Some x) (mkStore M r) = Some st' /\ treeOf fdOf st' T' /\
    inorder T ≡ₚ x :: inorder T' /\ (forall a, a ∉ inorder T -> mem st' !! a = M !! a) /\ dom (mem st') = dom M.
Proof.
  intros HT Hx. destruct (FillpRbErase_tree fdOf (mkStore (inside M (inorder T)) r) T x) as (st' & T' & E & N & HT' & HP); try done.
  - now apply inside_tree.
  - apply (FillpRbErase_frame (outside M (inorder T))) in E. rewrite split_memory in E.
    destruct (shared_result fdOf M (inorder T) st' T') as (H1 & H2 & H3); [done|done|intros a Ha; rewrite HP; now right|].
    eexists _, T'. split; [exact E|]. done.
Qed.

(** A tree does not change when other nodes do. *)
Lemma treeOf_agree fdOf fdOf' M M' r T : treeOf fdOf (mkStore M r) T ->
  (forall a, a ∈ inorder T -> M' !! a = M !! a) -> (forall a, a ∈ inorder T -> fdOf' a = fdOf a) ->
  treeOf fdOf' (mkStore M' r) T.
Proof.
  intros [H Hw [Ha1 Ha2]] HM Hf. split; [|exact Hw|].
  - apply (hold_agree _ _ _ _ H); [reflexivity|]. intros a Hoa. cbn in *. apply HM, occ_inorder. lia.
  - split.
    + rewrite Forall_forall in *. intros a Ha. rewrite Hf by done. now apply Ha1.
    + clear - Ha2 Hf. induction Ha2 as [|a l Hs IH Hl]; constructor.
      * apply IH. intros b Hb. apply Hf. now right.
      * rewrite Forall_forall in *. intros b Hb. destruct (Hl b Hb) as (x & y & E1 & E2 & Hlt).
        exists x, y. rewrite !Hf by (now left || now right). done.
Qed.

(** ** Balance *)

Fixpoint height (t : tree) : nat := match t with Leaf => 0 | Node _ _ l r => S (Nat.max (height l) (height r)) end.

Lemma rb_height t n : rb t n -> (height t <= 2 * n + 1 /\ (isBlack t -> height t <= 2 * n))%nat.
Proof.
  induction 1 as [|a l r n Hl [_ IHl] Hr [_ IHr] Bl Br|a l r n Hl [IHl _] Hr [IHr _]]; cbn [height isBlack]; [lia| |lia].
  specialize (IHl Bl). specialize (IHr Br). split; [lia|discriminate].
Qed.

Lemma rb_size t n : rb t n -> (2 ^ n <= length (inorder t) + 1)%nat.
Proof.
  induction 1 as [|a l r n Hl IHl Hr IHr Bl Br|a l r n Hl IHl Hr IHr]; cbn [inorder];
    rewrite ?length_app; cbn [length Nat.pow]; lia.
Qed.

(** The height is at most twice the logarithm of the size. *)
Lemma wf_height T : wf T -> (2 ^ (Nat.div2 (height T)) <= length (inorder T) + 1)%nat.
Proof.
  intros [Hb [n Hn]]. destruct (rb_height _ _ Hn) as [_ Hh]. specialize (Hh Hb). etrans; [|exact (rb_size _ _ Hn)].
  apply Nat.pow_le_mono_r; [lia|]. rewrite Nat.div2_div. apply Nat.Div0.div_le_upper_bound. lia.
Qed.

(** ** The map of descriptors *)

Section Map.

Context (fdOf : nat -> option Z) (maxEpollItemNum : Z).

Inductive top := Find (fd : Z) | Insert (epi : nat) | Erase (epi : nat).

Definition texec (o : top) (st : Store) : option (option nat * Store) :=
  match o with
  | Find fd => r ← EpFind fdOf maxEpollItemNum fd st; Some (r, st)
  | Insert epi => st' ← EpRbtreeInsert fdOf maxEpollItemNum epi st; Some (None, st')
  | Erase epi => st' ← FillpRbErase (Some epi) st; Some (None, st')
  end.

Fixpoint texecs (os : list top) (st : Store) : option (list (option nat) * Store) :=
  match os with
  | [] => Some ([], st)
  | o :: os' => '(r, st) ← texec o st; '(rs, st) ← texecs os' st; Some (r :: rs, st)
  end.

(** The same for a map from descriptors to items; [D]: the nodes there are. *)
Definition mexec (D : gset nat) (o : top) (m : gmap Z nat) : option (option nat * gmap Z nat) :=
  match o with
  | Find fd => Some (m !! fd, m)
  | Insert epi => fd ← fdOf epi;
    if bool_decide (m !! fd = None /\ epi ∈ D /\ Z.of_nat (size m) < maxEpollItemNum) then Some (None, <[fd := epi]> m)
    else None
  | Erase epi => fd ← fdOf epi;
    if bool_decide (m !! fd = Some epi) then Some (None, delete fd m) else None
  end.

Fixpoint mexecs (D : gset nat) (os : list top) (m : gmap Z nat) : option (list (option nat) * gmap Z nat) :=
  match os with
  | [] => Some ([], m)
  | o :: os' => '(r, m) ← mexec D o m; '(rs, m) ← mexecs D os' m; Some (r :: rs, m)
  end.

(** The store holds a balanced tree with the items of [m]. *)
Record represents (st : Store) (m : gmap Z nat) : Prop := {
  rep_tree : exists T, treeOf fdOf st T /\ inorder T ≡ₚ (map_to_list m).*2;
  rep_fd : map_Forall (fun fd epi => fdOf epi = Some fd) m;
  rep_size : Z.of_nat (size m) <= maxEpollItemNum
}.

Lemma values_in (m : gmap Z nat) a : a ∈ (map_to_list m).*2 <-> exists fd, m !! fd = Some a.
Proof.
  rewrite list_elem_of_fmap. split.
  - intros ([fd b] & -> & Hin). exists fd. now apply elem_of_map_to_list in Hin.
  - intros [fd E]. exists (fd, a). split; [done|]. now apply elem_of_map_to_list.
Qed.

Lemma find_represents st m fd : represents st m -> EpFind fdOf maxEpollItemNum fd st = Some (m !! fd).
Proof.
  intros [(T & HT & HP) Hfd Hsz].
  assert (Hin : forall a, a ∈ inorder T <-> exists fd, m !! fd = Some a) by (intros a; rewrite HP; apply values_in).
  destruct (EpFind_ok fdOf st T fd maxEpollItemNum HT) as [(a & Ha & Ea & ->)|(Hno & ->)].
  - rewrite HP, length_fmap, length_map_to_list. exact Hsz.
  - apply Hin in Ha as [fd' Ha]. pose proof (Hfd _ _ Ha) as E'. cbn in E'. assert (fd' = fd) by congruence. subst. now rewrite Ha.
  - destruct (m !! fd) as [a|] eqn:E; [|done]. exfalso. apply (Hno a); [apply Hin; eauto|exact (Hfd _ _ E)].
Qed.

Lemma texec_ok st m o r m' : represents st m -> mexec (nodes st) o m = Some (r, m') ->
  exists st', texec o st = Some (r, st') /\ represents st' m' /\ nodes st' = nodes st.
Proof.
  intros H E. destruct o as [fd|x|x]; cbn [mexec texec] in *.
  - injection E as <- <-. exists st. now rewrite (find_represents _ _ _ H).
  - destruct (fdOf x) as [fd|] eqn:Efd; [|discriminate]. cbn [mbind option_bind] in E.
    case_bool_decide as Hc; [|discriminate]. injection E as <- <-. destruct Hc as (Hno & Hx & Hlt).
    destruct H as [(T & HT & HP) Hfd Hsz].
    assert (Hin : forall a, a ∈ inorder T -> exists fd', m !! fd' = Some a) by (intros a; rewrite HP; apply values_in).
    destruct (EpRbtreeInsert_ok fdOf st T x fd maxEpollItemNum HT Efd) as (st' & T' & -> & N & HT' & HP').
    + intros Ha. destruct (Hin x Ha) as [fd' E']. pose proof (Hfd _ _ E') as E''. cbn in E''. congruence.
    + now apply elem_of_dom.
    + intros a Ha Ea. destruct (Hin a Ha) as [fd' E']. pose proof (Hfd _ _ E') as E''. cbn in E''. congruence.
    + rewrite HP, length_fmap, length_map_to_list. exact Hsz.
    + exists st'. split; [done|]. split; [|done]. constructor.
      * exists T'. split; [done|]. rewrite HP', map_to_list_insert by done. cbn. now rewrite HP.
      * now apply map_Forall_insert_2.
      * rewrite map_size_insert_None by done. lia.
  - destruct (fdOf x) as [fd|] eqn:Efd; [|discriminate]. cbn [mbind option_bind] in E.
    case_bool_decide as Hc; [|discriminate]. injection E as <- <-. destruct H as [(T & HT & HP) Hfd Hsz].
    destruct (FillpRbErase_tree fdOf st T x HT) as (st' & T' & -> & N & HT' & HP').
    + rewrite HP. apply values_in. eauto.
    + exists st'. split; [done|]. split; [|done]. constructor.
      * exists T'. split; [done|]. apply (Permutation_cons_inv (a := x)). rewrite <- HP', HP.
        now rewrite <- (map_to_list_delete m fd x Hc).
      * now apply map_Forall_delete.
      * rewrite map_size_delete_Some by (now exists x). lia.
Qed.

Lemma texecs_ok os : forall st m rs m', represents st m -> mexecs (nodes st) os m = Some (rs, m') ->
  exists st', texecs os st = Some (rs, st') /\ represents st' m'.
Proof.
  induction os as [|o os IH]; intros st m rs m' H E; cbn [mexecs texecs] in *; [injection E as <- <-; eauto|].
  destruct (mexec (nodes st) o m) as [[r m1]|] eqn:E1; [|discriminate]. cbn [mbind option_bind] in E.
  destruct (mexecs (nodes st) os m1) as [[rs1 m2]|] eqn:E2; [|discriminate]. injection E as <- <-.
  destruct (texec_ok _ _ _ _ _ H E1) as (st1 & -> & H1 & N1). rewrite <- N1 in E2.
  destruct (IH _ _ _ _ H1 E2) as (st2 & E3 & H2). exists st2. cbn. now rewrite E3.
Qed.

End Map.

Lemma represents_empty fdOf maxItems h : 0 <= maxItems -> represents fdOf maxItems (mkStore h None) ∅.
Proof.
  intros Hm. constructor; [|apply map_Forall_empty|now rewrite map_size_empty].
  exists Leaf. split; [|now rewrite map_to_list_empty]. constructor.
  - constructor; [done|done|done|]. intros a. cbn. lia.
  - split; [done|]. exists 0%nat. constructor.
  - split; constructor.
Qed.

(** C18: whatever the calls, searching, inserting and erasing items in the
    red-black tree of an epoll instance has the results of a finite map from
    descriptors to items; the pointers form a tree with exactly the items of the
    map, ordered by descriptor, whose height is at most twice the logarithm of
    their number. *)
Theorem epoll_tree_refines_map fdOf maxItems h os rs m : 0 <= maxItems ->
  mexecs fdOf maxItems (dom h) os ∅ = Some (rs, m) ->
  exists st T, texecs fdOf maxItems os (mkStore h None) = Some (rs, st) /\ hold st [] T /\
    inorder T ≡ₚ (map_to_list m).*2 /\ ascending fdOf (inorder T) /\
    (2 ^ Nat.div2 (height T) <= size m + 1)%nat.
Proof.
  intros Hm E. destruct (texecs_ok fdOf maxItems os _ _ _ _ (represents_empty fdOf maxItems h Hm) E) as (st & E' & [(T & HT & HP) _ _]).
  exists st, T. split; [exact E'|]. destruct HT as [Hh Hw Ha]. repeat (split; [assumption|]).
  rewrite <- (length_map_to_list m), <- (length_fmap snd), <- HP. exact (wf_height T Hw).
Qed.

(** Five items with descriptors 10, 20, ...; the third is erased. *)
Definition sampleFd (a : nat) : option Z := Some (10 * Z.of_nat a).
Definition sampleNodes : gmap nat RbNode := list_to_map (map (fun a => (a, mkNode None None None 7)) [1; 2; 3; 4; 5]%nat).
Definition sampleOps : list top := 
  [Insert 1; Insert 2; Insert 3; Insert 4; Insert 5; Find 30; Erase 3; Find 30; Find 40].

Lemma epoll_tree_refines_map_witness : exists m st T,
  texecs sampleFd 8 sampleOps (mkStore sampleNodes None) =
    Some ([None; None; None; None; None; Some 3%nat; None; None; Some 4%nat], st) /\
  inorder T ≡ₚ (map_to_list (m : gmap Z nat)).*2 /\ (2 ^ Nat.div2 (height T) <= size m + 1)%nat.
Proof.
  destruct (epoll_tree_refines_map sampleFd 8 sampleNodes sampleOps
    [None; None; None; None; None; Some 3%nat; None; None; Some 4%nat]
    (list_to_map [(10, 1%nat); (20, 2%nat); (40, 4%nat); (50, 5%nat)])) as (st & T & E & _ & H1 & _ & H2); [lia|vm_compute; reflexivity|].
  eexists _, st, T. split; [exact E|]. split; [exact H1|exact H2].
Defined.

End EpTree.
