(* ===== verification/Epoll.v ===== *)
(** * Epoll instances of the fillp transport

    components/nstackx/fillp/src/app_lib/src/epoll_app.c with public/src/epoll.c and
    the epoll functions of public/src/socket_common.c and app_lib/src/spunge_app.c.
    An item ([struct EpItem]) registers a socket with an epoll instance.  Its
    [rbn] is in the red-black tree of the instance, its [sockWaitNode] in the list
    of its socket, and its [rdlNode] in the ready list of the instance while the
    socket has something to report.

    The model has the memory of all items: three maps by the address of the item,
    for [rbn], for [rdlNode] and [sockWaitNode] (with the heads of the lists), and
    for the other fields.  A freed item is in none of them, and an access to it
    gives [None].  A function takes what the locks answer as [ok], by the place of
    the call; [held] lists the locks taken.  The pool of items is represented by
    the address it hands out.

    The theorems show that for any sequence of calls, also concurrent ones that
    the locks order, no freed item is reachable and every access is to a live one. *)

From S2P Require Import Prelude RbTree RbFrame Hlist EpTree.
From stdpp Require Import gmap list.
#[local] Open Scope Z_scope.

Import RbTree.

Module Epoll.

(** ** Constants *)

Definition SPUNGE_EPOLL_CTL_ADD : Z := 1.
Definition SPUNGE_EPOLL_CTL_DEL : Z := 2.
Definition SPUNGE_EPOLL_CTL_MOD : Z := 3.

Definition SPUNGE_EPOLLIN : Z := 1.
Definition SPUNGE_EPOLLOUT : Z := 4.
Definition SPUNGE_EPOLLERR : Z := 8.
Definition SPUNGE_EPOLLHUP : Z := 16.
Definition SPUNGE_EPOLLET : Z := 2147483648.

Definition FILLP_OK : Z := 0.
Definition ERR_OK : Z := 0.
Definition ERR_NULLPTR : Z := -1.
Definition ERR_PARAM : Z := -4.
Definition ERR_FAILURE : Z := -7.
Definition ERR_NO_SOCK : Z := -200.
Definition ERR_COMM : Z := -1000.

Definition FILLP_ENOENT : Z := 2.
Definition FILLP_EBADF : Z := 9.
Definition FILLP_ENOMEM : Z := 12.
Definition FILLP_EFAULT : Z := 14.
Definition FILLP_EBUSY : Z := 16.
Definition FILLP_EEXIST : Z := 17.
Definition FILLP_EINVAL : Z := 22.
Definition FILLP_ENOTSOCK : Z := 88.

Definition SOCK_ALLOC_STATE_FREE : Z := 0.
Definition SOCK_ALLOC_STATE_WAIT_TO_CLOSE : Z := 2.
Definition SOCK_ALLOC_STATE_COMM : Z := 3.
Definition SOCK_ALLOC_STATE_EPOLL : Z := 4.

Definition FILLP_NUM_OF_EPOLL_INSTANCE_SUPPORTED : Z := 10.
Definition FILLP_INVALID_INT : Z := 2147483647.

(** ** State *)

(** [struct SpungeEpollEvent]; the user data as 64 bits. *)
Record SpungeEpollEvent := mkEvent { events : Z; data : Z }.

(** [struct EpItem] without the three nodes. *)
Record EpItem := mkItem {
  ep : option nat;
  event : SpungeEpollEvent;
  revents : Z;
  fileDespcriptor : Z
}.

(** [struct EventPoll] without the ready list and the locks. *)
Record EventPoll := mkEventPoll {
  rbr : option nat;
  semSignalled : Z;
  waitSem : Z
}.

(** The fields of [struct FtSocket] used here, without the list of items. *)
Record FtSocket := mkSocket {
  allocState : Z;
  errEvent : Z;
  eventEpoll : option nat;
  rcvEvent : Z;
  sendEvent : Z;
  sendEventCount : Z;
  epollWaiting : Z;
  associatedEpollInstanceArr : list Z;
  associatedEpollInstanceIdx : Z;
  offset : Z
}.

(** Nodes of lists: the head in an instance or a socket, the node in an item. *)
Abbreviation addr := (nat + nat)%type.

Inductive Lock := SockConnSem (sock : nat) | AppSem (ep : nat) | AppCoreSem (ep : nat) | EpollTaskListLock (sock : nat).
#[export] Instance Lock_eq_dec : EqDecision Lock.
Proof. solve_decision. Defined.

(** The calls that take a lock. *)
Inductive Site := InEpollAddToSockWaitList | InEpModify | InEpUnlink | InEpRemove | InGetApp | InGetCore | InEpInsert
  | InGetEpollSocketByFd | InCheckSockConn | InCheckAppSem | InHandleAdd | InHandleDel | InFindRemoveConn
  | InFindRemoveApp | InWait | InCallback | InCallbackCore (epi : nat).

Record World := mkWorld {
  hasInited : bool;
  maxEpollItemNum : Z;
  socks : list FtSocket;              (* sockTable->sockPool, [used] entries *)
  items : gmap nat EpItem;
  rbns : gmap nat RbNode;
  rdl : Hlist.Heap (A := addr);       (* rdList of instances, rdlNode of items *)
  waits : Hlist.Heap (A := addr);     (* epTaskList of sockets, sockWaitNode of items *)
  eps : gmap nat EventPoll;
  errno : Z;
  held : list Lock
}.

(** ** Effects *)

Definition M (X : Type) := World -> option (X * World).
#[export] Instance M_ret : MRet M := fun X x w => Some (x, w).
#[export] Instance M_bind : MBind M := fun X Y k m w => match m w with Some (x, w') => k x w' | None => None end.

Definition read {X} (f : World -> option X) : M X := fun w => x ← f w; Some (x, w).
Definition write (f : World -> option World) : M unit := fun w => w' ← f w; Some (tt, w').

Definition setItems f w := mkWorld (hasInited w) (maxEpollItemNum w) (socks w) (f (items w)) (rbns w) (rdl w) (waits w) (eps w) (errno w) (held w).
Definition setRbns r w := mkWorld (hasInited w) (maxEpollItemNum w) (socks w) (items w) r (rdl w) (waits w) (eps w) (errno w) (held w).
Definition setRdl r w := mkWorld (hasInited w) (maxEpollItemNum w) (socks w) (items w) (rbns w) r (waits w) (eps w) (errno w) (held w).
Definition setWaits r w := mkWorld (hasInited w) (maxEpollItemNum w) (socks w) (items w) (rbns w) (rdl w) r (eps w) (errno w) (held w).
Definition setEps f w := mkWorld (hasInited w) (maxEpollItemNum w) (socks w) (items w) (rbns w) (rdl w) (waits w) (f (eps w)) (errno w) (held w).
Definition setSocks f w := mkWorld (hasInited w) (maxEpollItemNum w) (f (socks w)) (items w) (rbns w) (rdl w) (waits w) (eps w) (errno w) (held w).
Definition setErrno e w := mkWorld (hasInited w) (maxEpollItemNum w) (socks w) (items w) (rbns w) (rdl w) (waits w) (eps w) e (held w).
Definition setHeld h w := mkWorld (hasInited w) (maxEpollItemNum w) (socks w) (items w) (rbns w) (rdl w) (waits w) (eps w) (errno w) h.

Definition SET_ERRNO (e : Z) : M unit := write (fun w => Some (setErrno e w)).
Definition getItem (a : nat) : M EpItem := read (fun w => items w !! a).
Definition putItem (a : nat) (i : EpItem) : M unit :=
  write (fun w => _ ← items w !! a; Some (setItems <[a := i]> w)).
Definition getEp (e : nat) : M EventPoll := read (fun w => eps w !! e).
Definition putEp (e : nat) (p : EventPoll) : M unit := write (fun w => _ ← eps w !! e; Some (setEps <[e := p]> w)).
Definition getSock (s : nat) : M FtSocket := read (fun w => socks w !! s).
Definition putSock (s : nat) (x : FtSocket) : M unit := write (fun w => _ ← socks w !! s; Some (setSocks <[s := x]> w)).

(** [SYS_ARCH_SEM_WAIT] and [SYS_ARCH_RWSEM_TRYRDWAIT]: [true] when the lock is taken. *)
Definition semWait (ok : Site -> bool) (at_ : Site) (l : Lock) : M bool :=
  if ok at_ then write (fun w => Some (setHeld (l :: held w) w)) ;; mret true else mret false.
Fixpoint removeLock (l : Lock) (h : list Lock) : list Lock :=
  match h with
  | [] => []
  | l' :: h' => if decide (l = l') then h' else l' :: removeLock l h'
  end.
Definition semPost (l : Lock) : M unit := write (fun w => Some (setHeld (removeLock l (held w)) w)).

Definition onRdl {X} (f : Hlist.Heap -> option (X * Hlist.Heap)) : M X :=
  fun w => '(x, h) ← f (rdl w); Some (x, setRdl h w).
Definition onWaits {X} (f : Hlist.Heap -> option (X * Hlist.Heap)) : M X :=
  fun w => '(x, h) ← f (waits w); Some (x, setWaits h w).
Definition effect {H} (f : H -> option H) (h : H) : option (unit * H) := h' ← f h; Some (tt, h').
Definition query {H X} (f : H -> option X) (h : H) : option (X * H) := x ← f h; Some (x, h).

(** The tree of an instance. *)
Definition onTree (e : nat) (f : Store -> option Store) : M unit := fun w =>
  p ← eps w !! e;
  st ← f (mkStore (rbns w) (rbr p));
  Some (tt, setEps <[e := mkEventPoll (rbNode st) (semSignalled p) (waitSem p)]> (setRbns (mem st) w)).
Definition fdOf (w : World) (a : nat) : option Z := fileDespcriptor <$> items w !! a.

(** ** Sockets and the pool of items *)

Definition SockGetSocket (sockIndex : Z) : M (option nat) := fun w =>
  Some (if negb (hasInited w) then None
        else if (sockIndex <? 0) || (sockIndex >=? Z.of_nat (length (socks w))) then None
        else Some (Z.to_nat sockIndex), w).

(** [pool]: the item the pool hands out, with what its memory holds. *)
Definition EpollMallocEpitem (pool : option (nat * (RbNode * SpungeEpollEvent))) : M (option nat) :=
  match pool with
  | None => mret None
  | Some (epi, (n, old)) =>
    write (fun w => Some (setRbns (<[epi := mkNode (Some epi) (rbRight n) (rbLeft n) (color n)]> (rbns w)) w));;
    write (fun w => Some (setItems <[epi := mkItem None old 0 (-1)]> w));;
    write (fun w => Some (setRdl (Hlist.mkHeap (<[inr epi := Hlist.NULLNODE]> (Hlist.cells (rdl w))) (Hlist.sizes (rdl w))) w));;
    write (fun w => Some (setWaits (Hlist.mkHeap (<[inr epi := Hlist.NULLNODE]> (Hlist.cells (waits w))) (Hlist.sizes (waits w))) w));;
    mret (Some epi)
  end.

(** The item goes back to the pool. *)
Definition DympFree (epi : nat) : M unit :=
  write (fun w => Some (setRbns (delete epi (rbns w)) w));;
  write (fun w => Some (setItems (delete epi) w));;
  write (fun w => Some (setRdl (Hlist.mkHeap (delete (inr epi) (Hlist.cells (rdl w))) (Hlist.sizes (rdl w))) w));;
  write (fun w => Some (setWaits (Hlist.mkHeap (delete (inr epi) (Hlist.cells (waits w))) (Hlist.sizes (waits w))) w)).

Fixpoint instIndex (n : nat) (i : Z) (arr : list Z) (epFd : Z) : Z :=
  match n with
  | O => i
  | S n' => if bool_decide (arr !! Z.to_nat i = Some epFd) then i else instIndex n' (i + 1) arr epFd
  end.
Fixpoint shiftInst (n : nat) (j : Z) (arr : list Z) : list Z :=
  match n with
  | O => arr
  | S n' =>
    if j >=? FILLP_NUM_OF_EPOLL_INSTANCE_SUPPORTED then arr
    else if j =? FILLP_NUM_OF_EPOLL_INSTANCE_SUPPORTED - 1 then <[Z.to_nat j := FILLP_INVALID_INT]> arr
    else shiftInst n' (j + 1) (<[Z.to_nat j := nth (Z.to_nat (j + 1)) arr 0]> arr)
  end.
Definition SpungeDelEpInstFromFtSocket (sock : nat) (epFd : Z) : M unit :=
  x ← getSock sock;
  let n := Z.to_nat FILLP_NUM_OF_EPOLL_INSTANCE_SUPPORTED in
  let i := instIndex n 0 (associatedEpollInstanceArr x) epFd in
  let arr := shiftInst n i (associatedEpollInstanceArr x) in
  let idx := associatedEpollInstanceIdx x in
  putSock sock (mkSocket (allocState x) (errEvent x) (eventEpoll x) (rcvEvent x) (sendEvent x) (sendEventCount x)
    (epollWaiting x) arr (if idx >? 0 then idx - 1 else idx) (offset x)).

Definition addEpollWaiting (sock : nat) (d : Z) : M unit :=
  x ← getSock sock;
  putSock sock (mkSocket (allocState x) (errEvent x) (eventEpoll x) (rcvEvent x) (sendEvent x) (sendEventCount x)
    (s32 (epollWaiting x + d)) (associatedEpollInstanceArr x) (associatedEpollInstanceIdx x) (offset x)).

(** ** The ready list *)

Definition EpDelRdlnode (e epi : nat) : M unit :=
  linked ← onRdl (query (Hlist.HLISTNODE_LINKED (inr epi)));
  if negb linked then mret tt else onRdl (effect (Hlist.HlistDelete (inl e) (inr epi))).

Definition EpSocketReady (scb epiItem : option nat) : M unit :=
  match scb, epiItem with
  | Some e, Some epi =>
    linked ← onRdl (query (Hlist.HLISTNODE_LINKED (inr epi)));
    (if negb linked then onRdl (effect (Hlist.HlistAddTail (inl e) (inr epi))) else mret tt);;
    p ← getEp e;
    if semSignalled p =? 0 then putEp e (mkEventPoll (rbr p) 1 (waitSem p + 1)) else mret tt
  | _, _ => mret tt
  end.

Definition setRevents (v : Z) (i : EpItem) : EpItem := mkItem (ep i) (event i) v (fileDespcriptor i).
Definition setEvent (v : SpungeEpollEvent) (i : EpItem) : EpItem := mkItem (ep i) v (revents i) (fileDespcriptor i).

(** The events of a socket that an item asks for: [EpollCtlTriggleEvent]. *)
Definition triggered (x : FtSocket) (mask : Z) : Z :=
  let r := if rcvEvent x >? 0 then SPUNGE_EPOLLIN else 0 in
  let r := if negb (sendEvent x =? 0) && (sendEventCount x >? 0) then Z.lor r SPUNGE_EPOLLOUT else r in
  Z.land (Z.lor r (errEvent x)) mask.

Definition EpollCtlTriggleEvent (e sock epi : nat) : M unit :=
  x ← getSock sock;
  i ← getItem epi;
  let r := triggered x (events (event i)) in
  putItem epi (setRevents r i);;
  if r >? 0 then EpSocketReady (Some e) (Some epi) else mret tt.

(** [EpollUpdateEpEvent]: the events to report now. *)
Definition current (x : FtSocket) (mask : Z) : Z :=
  let r := Z.land mask (errEvent x) in
  let r := if negb (Z.land mask SPUNGE_EPOLLIN =? 0) && ((rcvEvent x >? 0) || negb (offset x =? 0))
           then Z.lor r SPUNGE_EPOLLIN else Z.land r (Z.lxor SPUNGE_EPOLLIN UINT32_MAX) in
  if negb (Z.land mask SPUNGE_EPOLLOUT =? 0) && (sendEvent x >? 0) && (sendEventCount x >? 0)
  then Z.lor r SPUNGE_EPOLLOUT else Z.land r (Z.lxor SPUNGE_EPOLLOUT UINT32_MAX).

Definition EpollUpdateEpEvent (epi : nat) : M unit :=
  i ← getItem epi;
  sock ← SockGetSocket (fileDespcriptor i);
  match sock with
  | None => mret tt
  | Some s => x ← getSock s; putItem epi (setRevents (current x (events (event i))) i)
  end.

(** ** Items *)

Section Control.

(** What the locks answer. *)
Context (ok : Site -> bool).

Definition EpollAddToSockWaitList (sock epi : nat) : M unit :=
  got ← semWait ok InEpollAddToSockWaitList (EpollTaskListLock sock);
  if negb got then mret tt
  else onWaits (effect (Hlist.HlistAddTail (inl sock) (inr epi)));; semPost (EpollTaskListLock sock).

Definition EpModify (e sock epi : nat) (ev : SpungeEpollEvent) : M Z :=
  got ← semWait ok InEpModify (AppCoreSem e);
  if negb got then SET_ERRNO FILLP_EBUSY;; mret ERR_COMM
  else
    i ← getItem epi;
    putItem epi (setEvent ev i);;
    EpollCtlTriggleEvent e sock epi;;
    semPost (AppCoreSem e);;
    mret FILLP_OK.

Definition EpUnlink (e epi : nat) : M Z :=
  n ← read (fun w => rbns w !! epi);
  if same (rbParent n) (Some epi) then SET_ERRNO FILLP_EINVAL;; mret ERR_FAILURE
  else
    i ← getItem epi;
    putItem epi (setEvent (mkEvent 0 (data (event i))) i);;
    onTree e (FillpRbErase (Some epi));;
    got ← semWait ok InEpUnlink (AppCoreSem e);
    if negb got then SET_ERRNO FILLP_EBUSY;; mret ERR_COMM
    else
      i ← getItem epi;
      putItem epi (setRevents 0 i);;
      EpDelRdlnode e epi;;
      semPost (AppCoreSem e);;
      mret FILLP_OK.

(** The loop of [EpRemove] over the items of a socket. *)
Fixpoint unwaitLoop (fuel : nat) (sock epi : nat) (node : option addr) (h : Hlist.Heap) : option Hlist.Heap :=
  match fuel with
  | O => None
  | S fuel' =>
    match node with
    | None => Some h
    | Some nd =>
      if decide (nd = inr epi) then Hlist.HlistDelete (inl sock) nd h
      else c ← Hlist.load node h; unwaitLoop fuel' sock epi (Hlist.next c) h
    end
  end.
Definition unwait (sock epi : nat) (h : Hlist.Heap) : option Hlist.Heap :=
  first ← Hlist.HLIST_FIRST (inl sock) h;
  unwaitLoop (S (size (Hlist.cells h))) sock epi first h.

Definition EpRemove (e epi : option nat) : M Z :=
  match e, epi with
  | Some e, Some epi =>
    i ← getItem epi;
    sock ← SockGetSocket (fileDespcriptor i);
    match sock with
    | None => SET_ERRNO FILLP_EBADF;; mret ERR_COMM
    | Some s =>
      x ← getSock s;
      if allocState x =? SOCK_ALLOC_STATE_EPOLL then SET_ERRNO FILLP_EBADF;; mret ERR_COMM
      else
        got ← semWait ok InEpRemove (EpollTaskListLock s);
        if negb got then SET_ERRNO FILLP_EBUSY;; mret ERR_COMM
        else
          onWaits (effect (unwait s epi));;
          semPost (EpollTaskListLock s);;
          error ← EpUnlink e epi;
          if negb (error =? ERR_OK) then mret error
          else DympFree epi;; mret FILLP_OK
    end
  | _, _ => SET_ERRNO FILLP_EINVAL;; mret ERR_NULLPTR
  end.

Definition EpInsert (pool : option (nat * (RbNode * SpungeEpollEvent))) (e : nat) (ev : SpungeEpollEvent) (fd : Z) : M Z :=
  sock ← SockGetSocket fd;
  match sock with
  | None => SET_ERRNO FILLP_EBADF;; mret ERR_NO_SOCK
  | Some s =>
    x ← getSock s;
    if allocState x =? SOCK_ALLOC_STATE_EPOLL then SET_ERRNO FILLP_EBADF;; mret ERR_NO_SOCK
    else
      epi ← EpollMallocEpitem pool;
      match epi with
      | None => SET_ERRNO FILLP_ENOMEM;; mret ERR_NULLPTR
      | Some epi =>
        i ← getItem epi;
        putItem epi (mkItem (Some e) ev (revents i) fd);;
        w ← read Some;
        onTree e (EpTree.EpRbtreeInsert (fdOf w) (maxEpollItemNum w) epi);;
        EpollAddToSockWaitList s epi;;
        got ← semWait ok InEpInsert (AppCoreSem e);
        if negb got then SET_ERRNO FILLP_EBUSY;; mret ERR_COMM
        else
          EpollCtlTriggleEvent e s epi;;
          semPost (AppCoreSem e);;
          mret FILLP_OK
      end
  end.

(** ** [SpungeEpollCtl] *)

Definition SpungeGetEpollSocketByFd (epFd : Z) : M (option nat) :=
  epollSock ← SockGetSocket epFd;
  match epollSock with
  | None => SET_ERRNO FILLP_EBADF;; mret None
  | Some s =>
    got ← semWait ok InGetEpollSocketByFd (SockConnSem s);
    if negb got then SET_ERRNO FILLP_EBUSY;; mret None
    else
      x ← getSock s;
      if negb (allocState x =? SOCK_ALLOC_STATE_EPOLL) then
        semPost (SockConnSem s);; SET_ERRNO FILLP_ENOTSOCK;; mret None
      else match eventEpoll x with
           | None => semPost (SockConnSem s);; SET_ERRNO FILLP_EINVAL;; mret None
           | Some _ => mret (Some s)
           end
  end.

Definition SpungeEpollCtlCheckSockValid (epollSock sock : nat) : M Z :=
  got ← semWait ok InCheckSockConn (SockConnSem sock);
  if negb got then semPost (SockConnSem epollSock);; SET_ERRNO FILLP_EBUSY;; mret (-1)
  else
    x ← getSock sock;
    if negb (allocState x =? SOCK_ALLOC_STATE_COMM) && negb (allocState x =? SOCK_ALLOC_STATE_WAIT_TO_CLOSE) then
      semPost (SockConnSem sock);;
      semPost (SockConnSem epollSock);;
      SET_ERRNO (if allocState x =? SOCK_ALLOC_STATE_EPOLL then FILLP_EINVAL else FILLP_EBADF);;
      mret (-1)
    else
      y ← getSock epollSock;
      e ← read (fun _ => eventEpoll y);
      got ← semWait ok InCheckAppSem (AppSem e);
      if negb got then
        semPost (SockConnSem sock);;
        semPost (SockConnSem epollSock);;
        SET_ERRNO FILLP_EBUSY;;
        mret (-1)
      else mret ERR_OK.

(** The events asked for, with errors and hang-ups. *)
Definition withErr (ev : SpungeEpollEvent) : SpungeEpollEvent :=
  mkEvent (Z.lor (events ev) (Z.lor SPUNGE_EPOLLERR SPUNGE_EPOLLHUP)) (data ev).

Definition SpungeEpollCtlHandleAddEvent (pool : option (nat * (RbNode * SpungeEpollEvent))) (epollSock sock : nat)
    (epFd : Z) (epi : option nat) (ev : SpungeEpollEvent) : M Z :=
  match epi with
  | Some _ => SET_ERRNO FILLP_EEXIST;; mret (-1)
  | None =>
    x ← getSock sock;
    if associatedEpollInstanceIdx x >=? FILLP_NUM_OF_EPOLL_INSTANCE_SUPPORTED then SET_ERRNO FILLP_ENOMEM;; mret (-1)
    else
      y ← getSock epollSock;
      e ← read (fun _ => eventEpoll y);
      error ← EpInsert pool e (withErr ev) (Z.of_nat sock);
      if negb (error =? ERR_OK) then mret (-1)
      else
        addEpollWaiting sock 1;;
        got ← semWait ok InHandleAdd (EpollTaskListLock sock);
        if negb got then SET_ERRNO FILLP_EBUSY;; mret (-1)
        else
          x ← getSock sock;
          let idx := associatedEpollInstanceIdx x in
          _ ← read (fun _ => associatedEpollInstanceArr x !! Z.to_nat idx);
          putSock sock (mkSocket (allocState x) (errEvent x) (eventEpoll x) (rcvEvent x) (sendEvent x) (sendEventCount x)
            (epollWaiting x) (<[Z.to_nat idx := epFd]> (associatedEpollInstanceArr x)) (u32 (idx + 1)) (offset x));;
          semPost (EpollTaskListLock sock);;
          mret ERR_OK
  end.

Definition SpungeEpollCtlHandleDelEvent (epollSock sock : nat) (epFd : Z) (epi : option nat) : M Z :=
  match epi with
  | None => SET_ERRNO FILLP_ENOENT;; mret (-1)
  | Some epi =>
    y ← getSock epollSock;
    error ← EpRemove (eventEpoll y) (Some epi);
    if negb (error =? ERR_OK) then mret (-1)
    else
      addEpollWaiting sock (-1);;
      got ← semWait ok InHandleDel (EpollTaskListLock sock);
      if negb got then SET_ERRNO FILLP_EBUSY;; mret (-1)
      else
        SpungeDelEpInstFromFtSocket sock epFd;;
        semPost (EpollTaskListLock sock);;
        mret ERR_OK
  end.

Definition SpungeEpollCtlHandleModEvent (epollSock sock : nat) (epi : option nat) (ev : SpungeEpollEvent) : M Z :=
  match epi with
  | None => SET_ERRNO FILLP_ENOENT;; mret (-1)
  | Some epi =>
    y ← getSock epollSock;
    e ← read (fun _ => eventEpoll y);
    error ← EpModify e sock epi (withErr ev);
    if negb (error =? ERR_OK) then mret (-1) else mret ERR_OK
  end.

Definition SpungeEpollCtlParaChk (op : Z) (ev : option SpungeEpollEvent) : M Z :=
  match ev with
  | None =>
    if (op =? SPUNGE_EPOLL_CTL_ADD) || (op =? SPUNGE_EPOLL_CTL_MOD) then SET_ERRNO FILLP_EFAULT;; mret (-1)
    else mret 0
  | Some _ => mret 0
  end.

Definition SpungeEpollCtl (pool : option (nat * (RbNode * SpungeEpollEvent))) (epFd op fd : Z)
    (ev : option SpungeEpollEvent) : M Z :=
  chk ← SpungeEpollCtlParaChk op ev;
  if negb (chk =? 0) then mret (-1)
  else
    epollSock ← SpungeGetEpollSocketByFd epFd;
    match epollSock with
    | None => mret (-1)
    | Some es =>
      sock ← SockGetSocket fd;
      match sock with
      | None => semPost (SockConnSem es);; SET_ERRNO FILLP_EBADF;; mret (-1)
      | Some s =>
        error ← SpungeEpollCtlCheckSockValid es s;
        if negb (error =? ERR_OK) then mret (-1)
        else
          y ← getSock es;
          e ← read (fun _ => eventEpoll y);
          p ← getEp e;
          epi ← read (fun w => EpTree.EpFind (fdOf w) (maxEpollItemNum w) fd (mkStore (rbns w) (rbr p)));
          error ← (if op =? SPUNGE_EPOLL_CTL_ADD then
                     evt ← read (fun _ => ev); SpungeEpollCtlHandleAddEvent pool es s epFd epi evt
                   else if op =? SPUNGE_EPOLL_CTL_DEL then SpungeEpollCtlHandleDelEvent es s epFd epi
                   else if op =? SPUNGE_EPOLL_CTL_MOD then
                     evt ← read (fun _ => ev); SpungeEpollCtlHandleModEvent es s epi evt
                   else SET_ERRNO FILLP_EINVAL;; mret (-1));
          semPost (AppSem e);;
          semPost (SockConnSem s);;
          semPost (SockConnSem es);;
          mret error
      end
    end.

Definition SpungeEpollFindRemove (epFd fd : Z) : M Z :=
  epollSock ← SockGetSocket epFd;
  match epollSock with
  | None => SET_ERRNO FILLP_EBADF;; mret ERR_PARAM
  | Some es =>
    got ← semWait ok InFindRemoveConn (SockConnSem es);
    if negb got then SET_ERRNO FILLP_EBUSY;; mret ERR_COMM
    else
      y ← getSock es;
      if negb (allocState y =? SOCK_ALLOC_STATE_EPOLL) then semPost (SockConnSem es);; mret ERR_PARAM
      else match eventEpoll y with
        | None => semPost (SockConnSem es);; mret ERR_NULLPTR
        | Some e =>
          sock ← SockGetSocket fd;
          match sock with
          | None => semPost (SockConnSem es);; SET_ERRNO FILLP_EBADF;; mret ERR_PARAM
          | Some s =>
            got ← semWait ok InFindRemoveApp (AppSem e);
            if negb got then semPost (SockConnSem es);; mret ERR_COMM
            else
              p ← getEp e;
              epi ← read (fun w => EpTree.EpFind (fdOf w) (maxEpollItemNum w) fd (mkStore (rbns w) (rbr p)));
              (match epi with
               | None => mret tt
               | Some a =>
                 _ ← EpRemove (Some e) (Some a);
                 addEpollWaiting s (-1);;
                 SpungeDelEpInstFromFtSocket s epFd
               end);;
              semPost (AppSem e);;
              semPost (SockConnSem es);;
              mret ERR_OK
          end
        end
  end.

(** ** Reporting events *)

(** The loop of [EpGetEventsAndSignal]; [out]: the events written so far. *)
Fixpoint getLoop (fuel : nat) (e : nat) (node : option addr) (maxEvents : Z) (out : list SpungeEpollEvent)
  : M (list SpungeEpollEvent) :=
  match fuel with
  | O => fun _ => None
  | S fuel' =>
    match node with
    | None => mret out
    | Some nd =>
      if negb (Z.of_nat (length out) <? maxEvents) then mret out
      else
        epi ← read (fun _ => match nd with inr a => Some a | inl _ => None end);
        c ← read (fun w => Hlist.load node (rdl w));
        i ← getItem epi;
        putItem epi (setRevents (Z.land (revents i) (events (event i))) i);;
        EpollUpdateEpEvent epi;;
        i ← getItem epi;
        let out := if revents i >? 0 then out ++ [mkEvent (revents i) (data (event i))] else out in
        (if (revents i =? 0) || negb (Z.land (events (event i)) SPUNGE_EPOLLET =? 0) then EpDelRdlnode e epi else mret tt);;
        getLoop fuel' e (Hlist.next c) maxEvents out
    end
  end.

Definition EpGetEventsAndSignal (e : nat) (maxEvents timeout : Z) : M (Z * list SpungeEpollEvent) :=
  got ← semWait ok InGetApp (AppSem e);
  if negb got then mret (ERR_COMM, [])
  else
    got ← semWait ok InGetCore (AppCoreSem e);
    if negb got then semPost (AppSem e);; mret (ERR_COMM, [])
    else
      first ← onRdl (query (Hlist.HLIST_FIRST (inl e)));
      w ← read Some;
      out ← getLoop (S (size (Hlist.cells (rdl w)))) e first maxEvents [];
      (if negb (timeout =? 0) && (Z.of_nat (length out) =? 0) then
         p ← getEp e; putEp e (mkEventPoll (rbr p) 0 (waitSem p))
       else mret tt);;
      semPost (AppCoreSem e);;
      semPost (AppSem e);;
      mret (Z.of_nat (length out), out).

(** The loop of [EpollEventCallback] over the items of a socket. *)
Fixpoint callbackLoop (fuel : nat) (sock : nat) (node : option addr) (upEvent : Z) : M unit :=
  match fuel with
  | O => fun _ => None
  | S fuel' =>
    match node with
    | None => semPost (EpollTaskListLock sock)
    | Some nd =>
      epi ← read (fun _ => match nd with inr a => Some a | inl _ => None end);
      c ← read (fun w => Hlist.load node (waits w));
      i ← getItem epi;
      if Z.land (events (event i)) upEvent =? 0 then callbackLoop fuel' sock (Hlist.next c) upEvent
      else
        putItem epi (setRevents (Z.lor (revents i) (Z.land (events (event i)) upEvent)) i);;
        e ← read (fun _ => ep i);
        got ← semWait ok (InCallbackCore epi) (AppCoreSem e);
        if negb got then semPost (EpollTaskListLock sock)
        else
          EpSocketReady (ep i) (Some epi);;
          semPost (AppCoreSem e);;
          callbackLoop fuel' sock (Hlist.next c) upEvent
    end
  end.

Definition EpollEventCallback (sock : nat) (upEvent : Z) : M unit :=
  empty ← onWaits (query (Hlist.HLIST_EMPTY (inl sock)));
  if (empty : bool) then mret tt
  else
    got ← semWait ok InCallback (EpollTaskListLock sock);
    if negb got then mret tt
    else
      first ← onWaits (query (Hlist.HLIST_FIRST (inl sock)));
      w ← read Some;
      callbackLoop (S (size (Hlist.cells (waits w)))) sock first upEvent.

End Control.

(** ** Lists of items

    The lists of a heap have their heads in [P]; the list [n] has items for which
    [member n] holds. *)

Import Hlist.

Definition listsOf (h : Heap (A := addr)) (P : nat -> Prop) (member : nat -> nat -> Prop) : Prop :=
  exists L, lists h L /\ (forall x l, L !! x = Some l -> exists n, x = inl n) /\
    (forall n, P n -> is_Some (L !! inl n)) /\
    (forall n l y, L !! inl n = Some l -> y ∈ l -> exists a, y = inr a /\ member n a).

(** The item [a] is in the list [n]. *)
Definition linkedIn (h : Heap (A := addr)) (n a : nat) : Prop :=
  exists c, cells h !! inr a = Some c /\ inList c = Some (inl n).

(** An item that is in some list. *)
Definition isLinked (h : Heap (A := addr)) (a : nat) : Prop := HLISTNODE_LINKED (inr a) h = Some true.

Lemma linked_iff h L a : lists h L -> (forall x l, L !! x = Some l -> exists n, x = inl n) ->
  isLinked h a <-> exists x l, L !! x = Some l /\ inr a ∈ l.
Proof.
  intros HL H1. assert (Hn : L !! inr a = None) by (destruct (L !! inr a) eqn:E; [destruct (H1 _ _ E); discriminate|done]). split.
  - unfold isLinked. intros E. assert (Hs : is_Some (cells h !! inr a)).
    { unfold HLISTNODE_LINKED in E. rewrite load_some in E. destruct (cells h !! inr a); [eauto|discriminate]. }
    destruct (lists_linked h L (inr a) HL Hs Hn) as [[_ E']|(x & l & E1 & E2 & _)]; [congruence|eauto].
  - intros (x & l & E & Hin). apply list_elem_of_split in Hin as (l1 & l2 & ->).
    unfold isLinked, HLISTNODE_LINKED. now rewrite load_some, (lists_node h L _ _ _ _ HL E).
Qed.

Section Members.

Context (h : Heap (A := addr)) (P : nat -> Prop) (member : nat -> nat -> Prop).

Lemma listsOf_mono (P' : nat -> Prop) (member' : nat -> nat -> Prop) :
  listsOf h P member -> (forall n, P' n -> P n) -> (forall n a, member n a -> member' n a) -> listsOf h P' member'.
Proof.
  intros (L & HL & H1 & H2 & H3) HP Hm. exists L. split; [done|]. split; [done|]. split; [eauto|].
  intros n l y E Hy. destruct (H3 n l y E Hy) as (a & -> & Ha). eauto.
Qed.

(** Items of a list are distinct, so a list has at most as many as there are. *)
Lemma list_members_bound L n l (D : gset nat) : lists h L -> L !! inl n = Some l ->
  (forall y, y ∈ l -> exists a, y = inr a /\ a ∈ D) -> (length l <= size D)%nat.
Proof.
  intros HL E Hl. pose proof (repr_nodup _ _ _ (lists_each _ _ HL _ _ E)) as Hd. apply NoDup_cons in Hd as [_ Hd].
  set (f := fun y : addr => match y with inl n => n | inr a => a end).
  assert (Hinj : NoDup (f <$> l)).
  { clear E HL. induction Hd as [|y l Hy Hd IH]; [constructor|]. rewrite fmap_cons. constructor.
    - intros (z & Ez & Hz)%list_elem_of_fmap. destruct (Hl y) as (a & -> & _); [left|].
      destruct (Hl z) as (b & -> & _); [now right|]. cbn in Ez. subst. done.
    - apply IH. intros z Hz. apply Hl. now right. }
  rewrite <- (length_fmap f), <- (size_list_to_set (C := gset nat)) by exact Hinj. apply subseteq_size. intros a.
  rewrite elem_of_list_to_set, list_elem_of_fmap. intros (y & -> & Hy). destruct (Hl y Hy) as (b & -> & Hb). exact Hb.
Qed.

Lemma linked_cases a : listsOf h P member -> is_Some (cells h !! inr a) ->
  (HLISTNODE_LINKED (inr a) h = Some false /\ cells h !! inr a = Some NULLNODE) \/
  (HLISTNODE_LINKED (inr a) h = Some true /\ exists n, linkedIn h n a /\ member n a).
Proof.
  intros (L & HL & H1 & H2 & H3) Hs.
  assert (Hn : L !! inr a = None) by (destruct (L !! inr a) eqn:E; [destruct (H1 _ _ E); discriminate|done]).
  destruct (lists_linked h L (inr a) HL Hs Hn) as [[Hl E]|(x & l & E & Hin & E')].
  - left. split; [exact E|]. now apply (lists_loose_node h L).
  - right. split; [exact E'|]. destruct (H1 _ _ E) as [n ->]. exists n. split.
    + apply list_elem_of_split in Hin as (l1 & l2 & ->). eexists. split; [exact (lists_node h L _ _ _ _ HL E)|done].
    + destruct (H3 n l (inr a) E Hin) as (b & [= <-] & Hb). exact Hb.
Qed.

Lemma linkedIn_list L n a : lists h L -> (forall x l, L !! x = Some l -> exists n, x = inl n) -> linkedIn h n a ->
  exists l1 l2, L !! inl n = Some (l1 ++ inr a :: l2).
Proof.
  intros HL H1 (c & Hc & Hin).
  assert (Hn : L !! inr a = None) by (destruct (L !! inr a) eqn:E; [destruct (H1 _ _ E); discriminate|done]).
  destruct (lists_linked h L (inr a) HL ltac:(eauto) Hn) as [[Hl _]|(x & l & E & Hi & _)].
  - rewrite (lists_loose_node h L _ HL Hl ltac:(eauto)) in Hc. injection Hc as <-. discriminate.
  - apply list_elem_of_split in Hi as (l1 & l2 & ->). rewrite (lists_node h L _ _ _ _ HL E) in Hc. injection Hc as <-.
    cbn in Hin. injection Hin as ->. eauto.
Qed.

Lemma listsOf_add n a (D : gset nat) : listsOf h P member -> P n -> member n a -> is_Some (cells h !! inr a) ->
  HLISTNODE_LINKED (inr a) h = Some false -> (forall n a, member n a -> a ∈ D) -> Z.of_nat (size D) <= 4294967295 ->
  exists h', HlistAddTail (inl n) (inr a) h = Some h' /\ listsOf h' P member /\ dom (cells h') = dom (cells h) /\
    (forall b, isLinked h b \/ b = a -> isLinked h' b).
Proof.
  intros (L & HL & H1 & H2 & H3) Hn Ha Hs Hu HD Hsz. destruct (H2 n Hn) as [l El].
  assert (Hloose : loose L (inr a)).
  { destruct (lists_linked h L (inr a) HL Hs) as [[Hl _]|(x & l' & _ & _ & E)]; [|done|congruence].
    destruct (L !! inr a) eqn:E; [|done]. destruct (H1 _ _ E) as [? ?]. discriminate. }
  assert (Hlen : (length (inr a :: l) <= size D)%nat).
  { destruct Hloose as [_ Hl]. assert (Hna : inr a ∉ l) by now apply (Hl (inl n)).
    pose proof (repr_nodup _ _ _ (lists_each _ _ HL _ _ El)) as Hd. apply NoDup_cons in Hd as [_ Hd].
    pose proof (list_members_bound L n l (D ∖ {[a]}) HL El) as Hb. cbn [length].
    assert (HaD : a ∈ D) by eauto.
    rewrite (union_difference_singleton_L a D HaD), size_union, size_singleton by set_solver.
    apply le_n_S, Hb. intros y Hy. destruct (H3 n l y El Hy) as (b & -> & Hb'). exists b. split; [done|].
    apply elem_of_difference. split; [eauto|]. rewrite elem_of_singleton. intros ->. done. }
  cbn [length] in Hlen.
  destruct (lists_tail h L (inl n) l (inr a) HL El Hloose Hs ltac:(lia)) as (h' & E & HL' & Hdom).
  exists h'. split; [exact E|]. split; [|split; [exact Hdom|]].
  2: { assert (H1' : forall x l', <[inl n := l ++ [inr a]]> L !! x = Some l' -> exists m, x = inl m)
         by (intros x l' [[<- <-]|[_ E']]%lookup_insert_Some; eauto).
       intros b Hb. apply (linked_iff h' _ b HL' H1'). destruct Hb as [Hb| ->].
       - apply (linked_iff h L b HL H1) in Hb as (x & l' & Ex & Hin). destruct (decide (x = inl n)) as [->|Hne].
         + exists (inl n), (l ++ [inr a]). rewrite lookup_insert_eq. assert (l' = l) as -> by congruence. split; [done|]. apply elem_of_app. now left.
         + exists x, l'. now rewrite lookup_insert_ne by congruence.
       - exists (inl n), (l ++ [inr a]). rewrite lookup_insert_eq. split; [done|]. apply elem_of_app. right. left. }
  exists (<[inl n := l ++ [inr a]]> L). split; [exact HL'|]. split; [|split].
  - intros x l' [[<- <-]|[_ E']]%lookup_insert_Some; eauto.
  - intros m Hm. destruct (decide (m = n)) as [->|Hne]; [rewrite lookup_insert_eq; eauto|].
    rewrite lookup_insert_ne by congruence. eauto.
  - intros m l' y [[[= <-] <-]|[_ E']]%lookup_insert_Some Hy; [|eauto].
    apply elem_of_app in Hy as [Hy| ->%list_elem_of_singleton]; eauto.
Qed.

Lemma listsOf_delete n a : listsOf h P member -> linkedIn h n a ->
  exists h', HlistDelete (inl n) (inr a) h = Some h' /\ listsOf h' P member /\ dom (cells h') = dom (cells h) /\
    cells h' !! inr a = Some NULLNODE.
Proof.
  intros (L & HL & H1 & H2 & H3) Hin. destruct (linkedIn_list L n a HL H1 Hin) as (l1 & l2 & El).
  destruct (lists_delete h L (inl n) l1 l2 (inr a) HL El) as (h' & E & HL' & Hdom).
  exists h'. split; [exact E|]. split; [|split; [exact Hdom|]].
  - exists (<[inl n := l1 ++ l2]> L). split; [exact HL'|]. split; [|split].
    + intros x l' [[<- <-]|[_ E']]%lookup_insert_Some; eauto.
    + intros m Hm. destruct (decide (m = n)) as [->|Hne]; [rewrite lookup_insert_eq; eauto|].
      rewrite lookup_insert_ne by congruence. eauto.
    + intros m l' y [[[= <-] <-]|[_ E']]%lookup_insert_Some Hy; [|eauto]. apply (H3 n _ y El).
      rewrite elem_of_app, elem_of_cons in *. tauto.
  - pose proof (lists_each _ _ HL _ _ El) as Hr. rewrite (removed_steps _ _ _ _ _ Hr) in E. injection E as <-.
    apply (removed_elsewhere _ _ _ _ _ Hr).
Qed.

Lemma listsOf_alloc a : listsOf h P member -> cells h !! inr a = None ->
  listsOf (mkHeap (<[inr a := NULLNODE]> (cells h)) (sizes h)) P member.
Proof. intros (L & HL & H') Ha. exists L. split; [now apply lists_alloc|exact H']. Qed.

Lemma listsOf_free a (member' : nat -> nat -> Prop) : listsOf h P member -> cells h !! inr a = Some NULLNODE ->
  (forall n b, member n b -> b <> a -> member' n b) ->
  listsOf (mkHeap (delete (inr a) (cells h)) (sizes h)) P member'.
Proof.
  intros (L & HL & H1 & H2 & H3) Ha Hm.
  assert (Hl : loose L (inr a)).
  { split; [destruct (L !! inr a) eqn:E; [destruct (H1 _ _ E); discriminate|done]|].
    intros x l E Hin. apply list_elem_of_split in Hin as (l1 & l2 & ->). rewrite (lists_node h L _ _ _ _ HL E) in Ha. discriminate. }
  exists L. split; [now apply lists_free|]. split; [done|]. split; [done|].
  intros n l y E Hy. destruct (H3 n l y E Hy) as (b & -> & Hb). exists b. split; [done|]. apply Hm; [exact Hb|].
  intros ->. now apply (proj2 Hl (inl n) l).
Qed.

End Members.

(** ** The invariant *)

(** [a] is an item of the instance [e]; of the socket [s]. *)
Definition owned (its : gmap nat EpItem) (e a : nat) : Prop := exists i, its !! a = Some i /\ ep i = Some e.
Definition waiting (its : gmap nat EpItem) (s a : nat) : Prop :=
  exists i, its !! a = Some i /\ fileDespcriptor i = Z.of_nat s.
Definition fdIn (its : gmap nat EpItem) (a : nat) : option Z := fileDespcriptor <$> its !! a.

Definition sockOk (x : FtSocket) : Prop :=
  length (associatedEpollInstanceArr x) = 10%nat /\ 0 <= associatedEpollInstanceIdx x <= 10.

Record Inv (w : World) : Prop := {
  inv_trees : forall e p, eps w !! e = Some p -> exists T, EpTree.treeOf (fdIn (items w)) (mkStore (rbns w) (rbr p)) T /\
    forall a, a ∈ inorder T -> owned (items w) e a;
  inv_rdl : listsOf (rdl w) (fun e => is_Some (eps w !! e)) (owned (items w));
  inv_waits : listsOf (waits w) (fun s => (s < length (socks w))%nat) (waiting (items w));
  inv_cells : forall a, (is_Some (items w !! a) -> is_Some (rbns w !! a)) /\
    (is_Some (cells (rdl w) !! inr a) <-> is_Some (items w !! a)) /\
    (is_Some (cells (waits w) !! inr a) <-> is_Some (items w !! a));
  inv_items : forall a i, items w !! a = Some i -> exists e s, ep i = Some e /\ is_Some (eps w !! e) /\
    fileDespcriptor i = Z.of_nat s /\ (s < length (socks w))%nat;
  inv_size : Z.of_nat (size (items w)) <= maxEpollItemNum w <= 4294967295;
  inv_socks : forall s x, socks w !! s = Some x -> sockOk x /\ forall e, eventEpoll x = Some e -> is_Some (eps w !! e)
}.

(** What no call changes. *)
Definition sockKey (x : FtSocket) : Z * option nat := (allocState x, eventEpoll x).
Record keeps (w w' : World) : Prop := {
  keeps_held : held w' = held w;
  keeps_init : hasInited w' = hasInited w;
  keeps_max : maxEpollItemNum w' = maxEpollItemNum w;
  keeps_socks : sockKey <$> socks w' = sockKey <$> socks w;
  keeps_eps : forall e, is_Some (eps w' !! e) <-> is_Some (eps w !! e)
}.

#[export] Instance keeps_preorder : PreOrder keeps.
Proof.
  split.
  - intros w. now split.
  - intros w1 w2 w3 [] []. split; try congruence. intros e. etrans; eauto.
Qed.

Lemma keeps_length w w' : keeps w w' -> length (socks w') = length (socks w).
Proof. intros [_ _ _ H _]. apply (f_equal length) in H. now rewrite !length_fmap in H. Qed.

Lemma keeps_sock w w' s x : keeps w w' -> socks w !! s = Some x -> exists x', socks w' !! s = Some x' /\ sockKey x' = sockKey x.
Proof.
  intros [_ _ _ H _] E. assert (Hs : (sockKey <$> socks w') !! s = Some (sockKey x)) by (rewrite H, list_lookup_fmap, E; done).
  rewrite list_lookup_fmap in Hs. apply fmap_Some in Hs as (x' & E' & ->). eauto.
Qed.

(** ** Running *)

Definition wp {X} (m : M X) (w : World) (Q : X -> World -> Prop) : Prop := exists x w', m w = Some (x, w') /\ Q x w'.

Lemma wp_ret {X} (x : X) w (Q : X -> World -> Prop) : Q x w -> wp (mret x) w Q.
Proof. intros H. now exists x, w. Qed.

Lemma wp_bind {X Y} (m : M X) (k : X -> M Y) w (Q : Y -> World -> Prop) :
  wp m w (fun x w' => wp (k x) w' Q) -> wp (mbind k m) w Q.
Proof. intros (x & w1 & E & y & w2 & E' & H). exists y, w2. split; [|exact H]. unfold mbind, M_bind. now rewrite E. Qed.

Lemma wp_mono {X} (m : M X) w (Q Q' : X -> World -> Prop) : wp m w Q -> (forall x w', Q x w' -> Q' x w') -> wp m w Q'.
Proof. intros (x & w' & E & H) HQ. exists x, w'. auto. Qed.

Lemma wp_read {X} (f : World -> option X) w x (Q : X -> World -> Prop) : f w = Some x -> Q x w -> wp (read f) w Q.
Proof. intros E H. exists x, w. split; [|exact H]. unfold read. now rewrite E. Qed.

Lemma wp_write f w w' (Q : unit -> World -> Prop) : f w = Some w' -> Q tt w' -> wp (write f) w Q.
Proof. intros E H. exists tt, w'. split; [|exact H]. unfold write. now rewrite E. Qed.

(** A call keeps the invariant. *)
Definition safe {X} (m : M X) (w : World) (Q : X -> World -> Prop) : Prop :=
  wp m w (fun x w' => Inv w' /\ keeps w w' /\ Q x w').

Lemma safe_ret {X} (x : X) w (Q : X -> World -> Prop) : Inv w -> Q x w -> safe (mret x) w Q.
Proof. intros H HQ. apply wp_ret. split; [done|]. split; [reflexivity|done]. Qed.

Lemma safe_bind {X Y} (m : M X) (k : X -> M Y) w (Q : Y -> World -> Prop) (Q' : X -> World -> Prop) : safe m w Q' ->
  (forall x w', Inv w' -> keeps w w' -> Q' x w' -> safe (k x) w' Q) -> safe (mbind k m) w Q.
Proof.
  intros H Hk. apply wp_bind. apply (wp_mono _ _ _ _ H). intros x w' (HI & HK & HQ).
  apply (wp_mono _ _ _ _ (Hk x w' HI HK HQ)). intros y w2 (HI2 & HK2 & HQ2). split; [done|]. split; [etrans; eassumption|done].
Qed.

Lemma safe_mono {X} (m : M X) w (Q Q' : X -> World -> Prop) : safe m w Q -> (forall x w', Q x w' -> Q' x w') -> safe m w Q'.
Proof. intros H HQ. apply (wp_mono _ _ _ _ H). naive_solver. Qed.

Lemma safe_read {X} (f : World -> option X) w x (Q : X -> World -> Prop) : Inv w -> f w = Some x -> Q x w -> safe (read f) w Q.
Proof. intros H E HQ. apply (wp_read _ _ x); [exact E|]. split; [done|]. split; [reflexivity|done]. Qed.

Lemma safe_errno e w (Q : unit -> World -> Prop) : Inv w -> (forall w', Inv w' -> keeps w w' -> Q tt w') -> safe (SET_ERRNO e) w Q.
Proof.
  intros H HQ. assert (HI : Inv (setErrno e w)) by (destruct H; constructor; assumption).
  assert (HK : keeps w (setErrno e w)) by (constructor; reflexivity).
  eapply wp_write; [reflexivity|]. auto.
Qed.

Lemma safe_bind_read {X Y} (f : World -> option X) (k : X -> M Y) w x (Q : Y -> World -> Prop) :
  f w = Some x -> safe (k x) w Q -> safe (mbind k (read f)) w Q.
Proof. intros E H. apply wp_bind, (wp_read _ _ x); [exact E|exact H]. Qed.

Lemma safe_step {X Y} (m : M X) (k : X -> M Y) w x w' (Q : Y -> World -> Prop) : m w = Some (x, w') -> keeps w w' ->
  safe (k x) w' Q -> safe (mbind k m) w Q.
Proof.
  intros E HK H. apply wp_bind. exists x, w'. split; [exact E|]. apply (wp_mono _ _ _ _ H).
  intros y w2 (HI2 & HK2 & HQ2). split; [done|]. split; [etrans; eassumption|done].
Qed.

(** What the calls that report events leave: the owners of items and the trees. *)
Definition itemKey (i : EpItem) : option nat * Z := (ep i, fileDespcriptor i).
(** Everything but the events to report. *)
Definition core (i : EpItem) : option nat * SpungeEpollEvent * Z := (ep i, event i, fileDespcriptor i).
Record steady (w w' : World) : Prop := {
  steady_items : itemKey <$> items w' = itemKey <$> items w;
  steady_rbns : rbns w' = rbns w;
  steady_eps : rbr <$> eps w' = rbr <$> eps w
}.

#[export] Instance steady_preorder : PreOrder steady.
Proof. split; [now intros w|]. intros w1 w2 w3 [] []. split; congruence. Qed.

Lemma steady_item w w' a i : steady w w' -> items w !! a = Some i -> exists i', items w' !! a = Some i' /\ itemKey i' = itemKey i.
Proof.
  intros [H _ _] E. assert (Hs : (itemKey <$> items w') !! a = Some (itemKey i)) by (rewrite H, lookup_fmap, E; done).
  rewrite lookup_fmap in Hs. apply fmap_Some in Hs as (i' & E' & ->). eauto.
Qed.

Lemma key_owned its its' e a : itemKey <$> its' = itemKey <$> its -> owned its e a -> owned its' e a.
Proof.
  intros H (i & E & Ee). assert (Hs : (itemKey <$> its') !! a = Some (itemKey i)) by (rewrite H, lookup_fmap, E; done).
  rewrite lookup_fmap in Hs. apply fmap_Some in Hs as (i' & E' & Ek). exists i'. split; [done|]. now injection Ek as <- _.
Qed.

Lemma key_waiting its its' n a : itemKey <$> its' = itemKey <$> its -> waiting its n a -> waiting its' n a.
Proof.
  intros H (i & E & Ee). assert (Hs : (itemKey <$> its') !! a = Some (itemKey i)) by (rewrite H, lookup_fmap, E; done).
  rewrite lookup_fmap in Hs. apply fmap_Some in Hs as (i' & E' & Ek). exists i'. split; [done|]. now injection Ek as _ <-.
Qed.

Lemma key_fd (its its' : gmap nat EpItem) a : itemKey <$> its' = itemKey <$> its -> fdIn its' a = fdIn its a.
Proof.
  intros H. unfold fdIn. assert (Hs : (itemKey <$> its') !! a = (itemKey <$> its) !! a) by now rewrite H.
  rewrite !lookup_fmap in Hs. destruct (its !! a), (its' !! a); cbn in *; try discriminate; [|done]. now injection Hs as _ ->.
Qed.

Lemma key_dom (its its' : gmap nat EpItem) a : itemKey <$> its' = itemKey <$> its -> is_Some (its' !! a) <-> is_Some (its !! a).
Proof.
  intros H. rewrite <- (fmap_is_Some itemKey (its' !! a)), <- (fmap_is_Some itemKey (its !! a)), <- !lookup_fmap. now rewrite H.
Qed.

(** The invariant speaks of the keys of items only. *)
Lemma Inv_keys w its : Inv w -> itemKey <$> its = itemKey <$> items w -> Inv (setItems (fun _ => its) w).
Proof.
  intros [H1 H2 H3 H4 H5 H6 H7] K. constructor; cbn [setItems items rbns rdl waits eps socks maxEpollItemNum].
  - intros e p E. destruct (H1 e p E) as (T & HT & HO). exists T. split.
    + apply (EpTree.treeOf_agree _ _ _ _ _ _ HT); [done|]. intros a _. now apply key_fd.
    + intros a Ha. apply (key_owned _ _ _ _ K). auto.
  - apply (listsOf_mono _ _ _ _ _ H2); [done|]. intros n a. now apply key_owned.
  - apply (listsOf_mono _ _ _ _ _ H3); [done|]. intros n a. now apply key_waiting.
  - intros a. rewrite !(key_dom _ _ a K). apply H4.
  - intros a i E. assert (Hs : (itemKey <$> items w) !! a = Some (itemKey i)) by (rewrite <- K, lookup_fmap, E; done).
    rewrite lookup_fmap in Hs. apply fmap_Some in Hs as (i' & E' & Ek). injection Ek as -> ->. eauto.
  - rewrite <- (map_size_fmap itemKey its), K, map_size_fmap. exact H6.
  - exact H7.
Qed.

Lemma safe_putItem {Y} (k : unit -> M Y) w a i i' (Q : Y -> World -> Prop) : Inv w -> items w !! a = Some i -> itemKey i' = itemKey i ->
  (forall w', Inv w' -> keeps w w' -> steady w w' -> items w' !! a = Some i' -> socks w' = socks w -> rdl w' = rdl w ->
     waits w' = waits w -> eps w' = eps w -> items w' = <[a := i']> (items w) -> safe (k tt) w' Q) ->
  safe (mbind k (putItem a i')) w Q.
Proof.
  intros HI E Ek HQ. set (w' := setItems <[a := i']> w).
  assert (K : itemKey <$> <[a := i']> (items w) = itemKey <$> items w).
  { rewrite fmap_insert, Ek. apply insert_id. now rewrite lookup_fmap, E. }
  apply (safe_step _ _ _ tt w').
  - unfold putItem, write. cbn. now rewrite E.
  - now constructor.
  - apply HQ; [exact (Inv_keys w _ HI K)|now constructor|now constructor| |done..]. cbn. now rewrite lookup_insert_eq.
Qed.

(** ** The ready list and events *)

Lemma Inv_rdl w h : Inv w -> listsOf h (fun e => is_Some (eps w !! e)) (owned (items w)) -> dom (cells h) = dom (cells (rdl w)) ->
  Inv (setRdl h w).
Proof.
  intros [H1 H2 H3 H4 H5 H6 H7] Hh Hd. constructor; try assumption. intros a. specialize (H4 a).
  cbn [setRdl items rbns rdl waits] in *. rewrite <- (elem_of_dom (cells h)), Hd, elem_of_dom. exact H4.
Qed.

Lemma owned_inj its e e' a : owned its e a -> owned its e' a -> e = e'.
Proof. intros (i & E & Ee) (i' & E' & Ee'). congruence. Qed.

Lemma onRdl_effect f w h : f (rdl w) = Some h -> onRdl (effect f) w = Some (tt, setRdl h w).
Proof. intros E. unfold onRdl, effect. now rewrite E. Qed.
Lemma onRdl_query {X} (f : Heap -> option X) w x : f (rdl w) = Some x -> onRdl (query f) w = Some (x, w).
Proof. intros E. unfold onRdl, query. rewrite E. now destruct w. Qed.
Lemma onWaits_effect f w h : f (waits w) = Some h -> onWaits (effect f) w = Some (tt, setWaits h w).
Proof. intros E. unfold onWaits, effect. now rewrite E. Qed.
Lemma onWaits_query {X} (f : Heap -> option X) w x : f (waits w) = Some x -> onWaits (query f) w = Some (x, w).
Proof. intros E. unfold onWaits, query. rewrite E. now destruct w. Qed.

Lemma EpDelRdlnode_safe w e a : Inv w -> owned (items w) e a ->
  safe (EpDelRdlnode e a) w (fun _ w' => steady w w' /\ items w' = items w /\ waits w' = waits w /\ socks w' = socks w /\
    cells (rdl w') !! inr a = Some NULLNODE).
Proof.
  intros HI Ho. pose proof (inv_rdl _ HI) as Hr.
  assert (Hs : is_Some (cells (rdl w) !! inr a)).
  { apply (inv_cells _ HI). destruct Ho as (i & -> & _). eauto. }
  unfold EpDelRdlnode. destruct (linked_cases _ _ _ a Hr Hs) as [[E Hn]|[E (n & Hl & Hm)]].
  - apply (safe_step _ _ _ false w); [exact (onRdl_query _ _ _ E)|reflexivity|].
    apply safe_ret; [done|]. repeat split. exact Hn.
  - apply (safe_step _ _ _ true w); [exact (onRdl_query _ _ _ E)|reflexivity|].
    assert (n = e) as -> by exact (owned_inj _ _ _ _ Hm Ho).
    destruct (listsOf_delete _ _ _ e a Hr Hl) as (h' & Eh & Hh' & Hd & Hn).
    exists tt, (setRdl h' w). split; [exact (onRdl_effect _ _ _ Eh)|].
    split; [now apply Inv_rdl|]. split; [now constructor|]. repeat split. exact Hn.
Qed.

Lemma Inv_ep w e p v n : Inv w -> eps w !! e = Some p -> Inv (setEps <[e := mkEventPoll (rbr p) v n]> w).
Proof.
  intros [H1 H2 H3 H4 H5 H6 H7] E.
  assert (Hs : forall e', is_Some (<[e := mkEventPoll (rbr p) v n]> (eps w) !! e') <-> is_Some (eps w !! e')).
  { intros e'. destruct (decide (e = e')) as [<-|Hne]; [rewrite lookup_insert_eq, E; split; eauto|]. now rewrite lookup_insert_ne. }
  constructor; cbn [setEps items rbns rdl waits eps socks maxEpollItemNum]; try assumption.
  - intros e' p' [[<- <-]|[_ E']]%lookup_insert_Some; [exact (H1 e p E)|exact (H1 e' p' E')].
  - apply (listsOf_mono _ _ _ _ _ H2); [|done]. intros e'. apply Hs.
  - intros a i Ei. destruct (H5 a i Ei) as (e' & s & ? & ? & ?). exists e', s. rewrite Hs. done.
  - intros s x Ex. destruct (H7 s x Ex) as [? Hx]. split; [done|]. intros e' Ee. apply Hs. auto.
Qed.

(** The instance [e] has been signalled. *)
Definition alert (w : World) (e : nat) : Prop := exists p, eps w !! e = Some p /\ semSignalled p <> 0.

Lemma EpSocketReady_safe w e a : Inv w -> owned (items w) e a ->
  safe (EpSocketReady (Some e) (Some a)) w (fun _ w' => steady w w' /\ items w' = items w /\ waits w' = waits w /\ socks w' = socks w /\
    (forall b, isLinked (rdl w) b \/ b = a -> isLinked (rdl w') b) /\ (forall e', alert w e' \/ e' = e -> alert w' e')).
Proof.
  intros HI Ho. pose proof (inv_rdl _ HI) as Hr. destruct Ho as (i & Ei & Ee).
  destruct (inv_items _ HI a i Ei) as (e0 & s0 & E0 & He & _). assert (e0 = e) as -> by congruence.
  assert (Ho : owned (items w) e a) by (exists i; done).
  assert (Hs : is_Some (cells (rdl w) !! inr a)) by (apply (inv_cells _ HI); eauto).
  unfold EpSocketReady.
  assert (Hpost : forall w1, Inv w1 -> keeps w w1 -> steady w w1 -> items w1 = items w -> waits w1 = waits w -> socks w1 = socks w ->
    eps w1 = eps w -> (forall b, isLinked (rdl w) b \/ b = a -> isLinked (rdl w1) b) ->
    safe (p ← getEp e; if semSignalled p =? 0 then putEp e (mkEventPoll (rbr p) 1 (waitSem p + 1)) else mret tt) w1
      (fun _ w' => steady w w' /\ items w' = items w /\ waits w' = waits w /\ socks w' = socks w /\
         (forall b, isLinked (rdl w) b \/ b = a -> isLinked (rdl w') b) /\ (forall e', alert w e' \/ e' = e -> alert w' e'))).
  { intros w1 HI1 HK1 HS1 Hi Hw Hk Heps Hlk. destruct (proj2 (keeps_eps _ _ HK1 e) He) as [p Ep].
    apply (safe_bind_read _ _ _ p); [exact Ep|]. destruct (Z.eqb_spec (semSignalled p) 0) as [Hz|Hz].
    2: { apply safe_ret; [done|]. do 5 (split; [done|]). intros e' [(q & Eq & Hq)| ->]; [exists q; now rewrite Heps|now exists p]. }
    exists tt, (setEps <[e := mkEventPoll (rbr p) 1 (waitSem p + 1)]> w1).
    split; [unfold putEp, write; cbn; now rewrite Ep|]. split; [now apply Inv_ep|].
    assert (Heq : forall e', is_Some (<[e := mkEventPoll (rbr p) 1 (waitSem p + 1)]> (eps w1) !! e') <-> is_Some (eps w1 !! e')).
    { intros e'. destruct (decide (e = e')) as [<-|Hne]; [rewrite lookup_insert_eq, Ep; split; eauto|]. now rewrite lookup_insert_ne. }
    split; [now constructor|]. split; [|do 3 (split; [done|]); split; [done|]].
    - etrans; [exact HS1|]. constructor; [done|done|]. cbn. rewrite fmap_insert. apply insert_id. now rewrite lookup_fmap, Ep.
    - intros e' He'. unfold alert. cbn [eps setEps]. destruct (decide (e = e')) as [<-|Hne].
      + eexists. rewrite lookup_insert_eq. split; [done|]. cbn. lia.
      + destruct He' as [(q & Eq & Hq)| ->]; [|done]. exists q. now rewrite lookup_insert_ne, Heps. }
  destruct (linked_cases _ _ _ a Hr Hs) as [[E Hn]|[E (n & Hl & Hm)]].
  - apply (safe_step _ _ _ false w); [exact (onRdl_query _ _ _ E)|reflexivity|]. cbn [negb].
    destruct (listsOf_add _ _ _ e a (dom (items w)) Hr He Ho Hs E) as (h' & Eh & Hh' & Hd & Hlk).
    + intros n b (j & Ej & _). apply elem_of_dom. eauto.
    + rewrite size_dom. pose proof (inv_size _ HI). lia.
    + apply (safe_step _ _ _ tt (setRdl h' w)); [exact (onRdl_effect _ _ _ Eh)|now constructor|].
      apply Hpost; try done; [now apply Inv_rdl|now constructor..].
  - apply (safe_step _ _ _ true w); [exact (onRdl_query _ _ _ E)|reflexivity|]. cbn [negb].
    apply (safe_step _ _ _ tt w); [done|reflexivity|]. apply Hpost; try done. intros b [Hb| ->]; [exact Hb|exact E].
Qed.

Lemma EpollCtlTriggleEvent_safe w e s a : Inv w -> owned (items w) e a -> (s < length (socks w))%nat ->
  safe (EpollCtlTriggleEvent e s a) w (fun _ w' => steady w w' /\ waits w' = waits w /\ socks w' = socks w /\
    core <$> items w' = core <$> items w).
Proof.
  intros HI Ho Hs. apply lookup_lt_is_Some in Hs as [x Ex]. destruct Ho as (i & Ei & Ee). unfold EpollCtlTriggleEvent.
  apply (safe_bind_read _ _ _ x); [exact Ex|]. apply (safe_bind_read _ _ _ i); [exact Ei|].
  apply (safe_putItem _ _ _ i); [done|exact Ei|done|]. intros w1 HI1 HK1 HS1 Ei1 Es1 Er1 Ew1 _ Eq1.
  assert (Hc : core <$> items w1 = core <$> items w).
  { rewrite Eq1, fmap_insert. apply insert_id. rewrite lookup_fmap, Ei. done. }
  destruct (triggered x (events (event i)) >? 0).
  - apply (safe_mono _ _ _ _ (EpSocketReady_safe w1 e a HI1 ltac:(eexists; split; [exact Ei1|exact Ee]))).
    intros _ w' (HS & Hi & Hw & Hk & _). split; [etrans; eassumption|]. repeat split; congruence.
  - apply safe_ret; [done|]. split; [done|]. repeat split; congruence.
Qed.

Lemma SockGetSocket_cases w fd : SockGetSocket fd w = Some (None, w) \/
  (exists s, SockGetSocket fd w = Some (Some s, w) /\ fd = Z.of_nat s /\ (s < length (socks w))%nat).
Proof.
  unfold SockGetSocket. destruct (hasInited w); cbn [negb]; [|now left]. destruct (Z.ltb_spec fd 0); cbn [orb]; [now left|].
  rewrite Z.geb_leb. destruct (Z.leb_spec (Z.of_nat (length (socks w))) fd); [now left|]. right. exists (Z.to_nat fd). split; [done|]. lia.
Qed.

Lemma EpollUpdateEpEvent_safe w a i : Inv w -> items w !! a = Some i ->
  safe (EpollUpdateEpEvent a) w (fun _ w' => steady w w' /\ waits w' = waits w /\ socks w' = socks w /\ rdl w' = rdl w /\
    exists v, items w' = <[a := setRevents v i]> (items w)).
Proof.
  intros HI Ei. unfold EpollUpdateEpEvent. apply (safe_bind_read _ _ _ i); [exact Ei|].
  destruct (SockGetSocket_cases w (fileDespcriptor i)) as [E|(s & E & _ & Hs)].
  - apply (safe_step _ _ _ None w); [exact E|reflexivity|]. apply safe_ret; [done|]. do 4 (split; [done|]).
    exists (revents i). symmetry. apply insert_id. rewrite Ei. now destruct i.
  - apply (safe_step _ _ _ (Some s) w); [exact E|reflexivity|]. apply lookup_lt_is_Some in Hs as [x Ex].
    apply (safe_bind_read _ _ _ x); [exact Ex|].
    assert (H : safe (putItem a (setRevents (current x (events (event i))) i) ;; mret tt) w
      (fun _ w' => steady w w' /\ waits w' = waits w /\ socks w' = socks w /\ rdl w' = rdl w /\
         exists v, items w' = <[a := setRevents v i]> (items w))).
    { apply (safe_putItem _ _ _ i); [done|exact Ei|done|]. intros w1 HI1 HK1 HS1 Ei1 Es1 Er1 Ew1 _ Eq1. apply safe_ret; eauto 10. }
    destruct H as (u & w' & E' & H). exists u, w'. split; [|exact H]. unfold mbind, M_bind in E'.
    destruct (putItem a _ w) as [[[] w2]|]; [|discriminate]. destruct u. now injection E' as <-.
Qed.

(** ** Locks *)

(** A call that ends with the locks [h]. *)
Definition safeH {X} (m : M X) (w : World) (h : list Lock) (Q : X -> World -> Prop) : Prop :=
  wp m w (fun x w' => Inv w' /\ keeps (setHeld h w) w' /\ Q x w').

Lemma Inv_held w h : Inv w -> Inv (setHeld h w).
Proof. intros H. destruct H; constructor; assumption. Qed.

Lemma safeH_safe {X} (m : M X) w (Q : X -> World -> Prop) : safeH m w (held w) Q -> safe m w Q.
Proof. intros (x & w' & E & HI & HK & HQ). exists x, w'. split; [done|]. split; [done|]. split; [|done]. now destruct w. Qed.

Lemma safeH_ret {X} (x : X) w (Q : X -> World -> Prop) : Inv w -> Q x w -> safeH (mret x) w (held w) Q.
Proof. intros H HQ. apply wp_ret. split; [done|]. split; [now constructor|done]. Qed.

Lemma safeH_bind {X Y} (m : M X) (k : X -> M Y) w h (Q : Y -> World -> Prop) (Q' : X -> World -> Prop) : safe m w Q' ->
  (forall x w', Inv w' -> keeps w w' -> Q' x w' -> safeH (k x) w' h Q) -> safeH (mbind k m) w h Q.
Proof.
  intros H Hk. apply wp_bind. apply (wp_mono _ _ _ _ H). intros x w' (HI & HK & HQ).
  apply (wp_mono _ _ _ _ (Hk x w' HI HK HQ)). intros y w2 (HI2 & HK2 & HQ2). split; [done|]. split; [|done].
  destruct HK, HK2. constructor; cbn in *; try congruence. intros e. etrans; eauto.
Qed.

Lemma safeH_wait {Y} ok at_ l (k : bool -> M Y) w h (Q : Y -> World -> Prop) : Inv w ->
  (Inv (setHeld (l :: held w) w) -> safeH (k true) (setHeld (l :: held w) w) h Q) -> safeH (k false) w h Q ->
  safeH (mbind k (semWait ok at_ l)) w h Q.
Proof.
  intros HI Ht Hf. apply wp_bind. unfold semWait. destruct (ok at_); [|now apply wp_ret].
  apply wp_bind. eapply wp_write; [reflexivity|]. apply wp_ret. exact (Ht (Inv_held _ _ HI)).
Qed.

Lemma safeH_wait_ok {Y} ok at_ l (k : bool -> M Y) w h (Q : Y -> World -> Prop) : Inv w ->
  (ok at_ = true -> Inv (setHeld (l :: held w) w) -> safeH (k true) (setHeld (l :: held w) w) h Q) ->
  (ok at_ = false -> safeH (k false) w h Q) ->
  safeH (mbind k (semWait ok at_ l)) w h Q.
Proof.
  intros HI Ht Hf. apply wp_bind. unfold semWait. destruct (ok at_); [|apply wp_ret; now apply Hf].
  apply wp_bind. eapply wp_write; [reflexivity|]. apply wp_ret. exact (Ht eq_refl (Inv_held _ _ HI)).
Qed.

Lemma safeH_post {Y} l (k : unit -> M Y) w h (Q : Y -> World -> Prop) : Inv w ->
  (Inv (setHeld (removeLock l (held w)) w) -> safeH (k tt) (setHeld (removeLock l (held w)) w) h Q) ->
  safeH (mbind k (semPost l)) w h Q.
Proof. intros HI H. apply wp_bind. eapply wp_write; [reflexivity|]. exact (H (Inv_held _ _ HI)). Qed.

Lemma removeLock_cons l h : removeLock l (l :: h) = h.
Proof. cbn. now rewrite decide_True. Qed.

Lemma safeH_read {X Y} (f : World -> option X) (k : X -> M Y) w x h (Q : Y -> World -> Prop) :
  f w = Some x -> safeH (k x) w h Q -> safeH (mbind k (read f)) w h Q.
Proof. intros E H. apply wp_bind, (wp_read _ _ x); [exact E|exact H]. Qed.

Lemma safeH_get {X Y} (m : M X) (k : X -> M Y) w x h (Q : Y -> World -> Prop) :
  m w = Some (x, w) -> safeH (k x) w h Q -> safeH (mbind k m) w h Q.
Proof. intros E H. apply wp_bind. exists x, w. split; [exact E|exact H]. Qed.

Lemma safeH_errno {Y} e (k : unit -> M Y) w h (Q : Y -> World -> Prop) : Inv w ->
  (Inv (setErrno e w) -> safeH (k tt) (setErrno e w) h Q) -> safeH (mbind k (SET_ERRNO e)) w h Q.
Proof.
  intros HI H. apply wp_bind. eapply wp_write; [reflexivity|].
  assert (HI' : Inv (setErrno e w)) by (destruct HI; constructor; assumption).
  apply (wp_mono _ _ _ _ (H HI')). intros x w' (H1 & [] & H3). split; [done|]. split; [now constructor|done].
Qed.

Lemma putItem_safe w a i i' : Inv w -> items w !! a = Some i -> itemKey i' = itemKey i ->
  safe (putItem a i') w (fun _ w' => steady w w' /\ items w' !! a = Some i' /\ socks w' = socks w /\ rdl w' = rdl w /\
    waits w' = waits w /\ items w' = <[a := i']> (items w) /\ eps w' = eps w).
Proof.
  intros HI E Ek.
  assert (H : safe (putItem a i' ;; mret tt) w
    (fun _ w' => steady w w' /\ items w' !! a = Some i' /\ socks w' = socks w /\ rdl w' = rdl w /\ waits w' = waits w /\
       items w' = <[a := i']> (items w) /\ eps w' = eps w)).
  { apply (safe_putItem _ _ _ i); [done|exact E|exact Ek|]. intros w1 HI1 HK1 HS1 Ei1 Es1 Er1 Ew1 Ep1 Eq1. now apply safe_ret. }
  destruct H as (u & w' & E' & H). exists u, w'. split; [|exact H]. unfold mbind, M_bind in E'.
  destruct (putItem a _ w) as [[[] w2]|]; [|discriminate]. destruct u. now injection E' as <-.
Qed.

Lemma putSock_safe w s x x' : Inv w -> socks w !! s = Some x -> sockKey x' = sockKey x -> sockOk x' ->
  safe (putSock s x') w (fun _ w' => steady w w' /\ items w' = items w /\ rdl w' = rdl w /\ waits w' = waits w).
Proof.
  intros [H1 H2 H3 H4 H5 H6 H7] E Ek Hx. exists tt, (setSocks <[s := x']> w).
  split; [unfold putSock, write; now rewrite E|].
  assert (Hl : length (<[s := x']> (socks w)) = length (socks w)) by apply length_insert.
  split; [|split; [|done]].
  - constructor; cbn [setSocks items rbns rdl waits eps socks maxEpollItemNum]; try assumption.
    + rewrite Hl. exact H3.
    + intros a i Ei. rewrite Hl. eauto.
    + intros s' y Ey. apply list_lookup_insert_Some in Ey as [(<- & <- & _)|[_ Ey]]; [|eauto].
      split; [exact Hx|]. intros e Ee. injection Ek as _ Ek. apply (proj2 (H7 s x E)). congruence.
  - constructor; try done. cbn. rewrite list_fmap_insert, Ek. apply list_insert_id. now rewrite list_lookup_fmap, E.
Qed.

Lemma EpollAddToSockWaitList_safe ok w s a : Inv w -> waiting (items w) s a ->
  cells (waits w) !! inr a = Some NULLNODE ->
  safe (EpollAddToSockWaitList ok s a) w (fun _ w' => steady w w' /\ items w' = items w /\ socks w' = socks w).
Proof.
  intros HI Hw Hc. apply safeH_safe. unfold EpollAddToSockWaitList. apply safeH_wait; [done| |now apply safeH_ret].
  intros HI1. cbn [negb]. destruct Hw as (i & Ei & Ef). destruct (inv_items _ HI a i Ei) as (e & s0 & _ & _ & Ef' & Hlt).
  assert (s0 = s) as -> by lia.
  assert (Hw : waiting (items w) s a) by (exists i; done).
  destruct (listsOf_add (waits w) _ _ s a (dom (items w)) (inv_waits _ HI) Hlt Hw) as (h' & Eh & Hh' & Hd & _).
  - rewrite Hc. eauto.
  - unfold HLISTNODE_LINKED. now rewrite load_some, Hc.
  - intros n b (j & Ej & _). apply elem_of_dom. eauto.
  - rewrite size_dom. pose proof (inv_size _ HI). lia.
  - apply wp_bind. exists tt, (setWaits h' (setHeld (EpollTaskListLock s :: held w) w)).
    split; [apply onWaits_effect; exact Eh|].
    eapply wp_write; [reflexivity|]. cbn [held setWaits setHeld]. rewrite removeLock_cons. split; [|split].
    + destruct HI as [H1 H2 H3 H4 H5 H6 H7]. constructor; try assumption. intros b. specialize (H4 b).
      cbn [setWaits setHeld items rbns rdl waits] in *. rewrite <- (elem_of_dom (cells h')), Hd, elem_of_dom. exact H4.
    + now constructor.
    + split; [now constructor|done].
Qed.

Lemma EpModify_safe ok w e s a ev : Inv w -> owned (items w) e a -> (s < length (socks w))%nat ->
  safe (EpModify ok e s a ev) w (fun r w' => steady w w' /\ (ok InEpModify = true -> r = ERR_OK) /\
    (r = ERR_OK -> exists fd, core <$> items w' = <[a := (Some e, ev, fd)]> (core <$> items w) /\ fdIn (items w) a = Some fd)).
Proof.
  intros HI Ho Hs. apply safeH_safe. unfold EpModify. apply safeH_wait_ok; [done| |].
  - intros _ HI1. cbn [negb]. pose proof Ho as (i & Ei & Ee). apply (safeH_read _ _ _ i); [exact Ei|].
    eapply safeH_bind; [apply (putItem_safe _ a i); [done|exact Ei|done]|].
    intros _ w2 HI2 HK2 (HS2 & Ei2 & Es2 & _ & Ew2 & Eq2 & _). eapply safeH_bind.
    + apply (EpollCtlTriggleEvent_safe w2 e s a HI2); [eexists; split; [exact Ei2|exact Ee]|now rewrite Es2].
    + intros _ w3 HI3 HK3 (HS3 & Ew3 & Es3 & Ec3). apply safeH_post; [done|]. intros HI4.
      rewrite (keeps_held _ _ HK3), (keeps_held _ _ HK2). cbn [held setHeld]. rewrite removeLock_cons.
      apply (safeH_ret FILLP_OK (setHeld (held w) w3)); [now apply Inv_held|]. split.
      { destruct HS2, HS3. constructor; cbn in *; congruence. }
      split; [done|]. intros _. exists (fileDespcriptor i). split; [|unfold fdIn; now rewrite Ei].
      cbn. rewrite Ec3, Eq2, fmap_insert. f_equal. unfold core, setEvent. cbn. now rewrite Ee.
  - intros Hok. cbn [negb]. apply safeH_errno; [done|]. intros HI1. apply (safeH_ret ERR_COMM (setErrno FILLP_EBUSY w)); [done|].
    split; [done|]. split; [congruence|discriminate].
Qed.

(** ** Removal *)

(** [a] is in the tree of [e]. *)
Definition inTree (w : World) (e a : nat) : Prop := exists p T, eps w !! e = Some p /\
  EpTree.treeOf (fdIn (items w)) (mkStore (rbns w) (rbr p)) T /\ a ∈ inorder T.

Lemma inTree_owned w e a : Inv w -> inTree w e a -> owned (items w) e a.
Proof.
  intros HI (p & T & Ep & HT & Ha). destruct (inv_trees _ HI e p Ep) as (T' & HT' & HO).
  assert (T' = T) as -> by exact (EpTree.treeOf_unique _ _ _ _ HT' HT). auto.
Qed.

(** The tree of one instance changes. *)
Lemma onTree_safe w e p T f st' T' : Inv w -> eps w !! e = Some p ->
  EpTree.treeOf (fdIn (items w)) (mkStore (rbns w) (rbr p)) T ->
  f (mkStore (rbns w) (rbr p)) = Some st' -> EpTree.treeOf (fdIn (items w)) st' T' ->
  (forall a, a ∈ inorder T' -> owned (items w) e a) ->
  (forall a, ~ owned (items w) e a -> mem st' !! a = rbns w !! a) -> dom (mem st') = dom (rbns w) ->
  safe (onTree e f) w (fun _ w' => items w' = items w /\ rdl w' = rdl w /\ waits w' = waits w /\ socks w' = socks w /\
    (forall e' a, inTree w' e' a <-> if decide (e' = e) then a ∈ inorder T' else inTree w e' a)).
Proof.
  intros HI Ep HT Ef HT' HO Hout Hdom. set (p' := mkEventPoll (rbNode st') (semSignalled p) (waitSem p)).
  set (w' := setEps <[e := p']> (setRbns (mem st') w)).
  assert (Hst : mkStore (mem st') (rbr p') = st') by now destruct st'.
  assert (Hs : forall e', is_Some (<[e := p']> (eps w) !! e') <-> is_Some (eps w !! e')).
  { intros e'. destruct (decide (e = e')) as [<-|Hne]; [rewrite lookup_insert_eq, Ep; split; eauto|]. now rewrite lookup_insert_ne. }
  assert (Hother : forall e' q, eps w !! e' = Some q -> e' <> e -> exists T2,
    EpTree.treeOf (fdIn (items w)) (mkStore (mem st') (rbr q)) T2 /\ forall a, a ∈ inorder T2 -> owned (items w) e' a).
  { intros e' q Eq Hne. destruct (inv_trees _ HI e' q Eq) as (T2 & HT2 & HO2). exists T2. split; [|exact HO2].
    apply (EpTree.treeOf_agree _ _ _ _ _ _ HT2); [|done]. intros a Ha. apply Hout. intros Ho.
    apply Hne. exact (owned_inj _ _ _ _ (HO2 a Ha) Ho). }
  exists tt, w'. split; [unfold onTree; rewrite Ep; cbn [mbind option_bind]; now rewrite Ef|]. split; [|split].
  - destruct HI as [H1 H2 H3 H4 H5 H6 H7].
    constructor; cbn [w' setEps setRbns items rbns rdl waits eps socks maxEpollItemNum]; try assumption.
    + intros e' q [[<- <-]|[Hne Eq]]%lookup_insert_Some; [|now apply Hother]. exists T'. now rewrite Hst.
    + apply (listsOf_mono _ _ _ _ _ H2); [|done]. intros e'. apply Hs.
    + intros a. destruct (H4 a) as (Ha & Hb). split; [|exact Hb]. rewrite <- (elem_of_dom (mem st')), Hdom, elem_of_dom. exact Ha.
    + intros a i Ei. destruct (H5 a i Ei) as (e' & s & ? & ? & ?). exists e', s. rewrite Hs. done.
    + intros s x Ex. destruct (H7 s x Ex) as [? Hx]. split; [done|]. intros e' Ee. apply Hs. auto.
  - now constructor.
  - do 4 (split; [done|]). intros e' a. case_decide as He.
    + subst e'. split.
      * intros (q & T2 & Eq & HT2 & Ha). cbn [w' setEps setRbns items rbns eps] in *. rewrite lookup_insert_eq in Eq. injection Eq as <-.
        rewrite Hst in HT2. now rewrite (EpTree.treeOf_unique _ _ _ _ HT2 HT') in Ha.
      * intros Ha. exists p', T'. cbn [w' setEps setRbns items rbns eps]. rewrite lookup_insert_eq, Hst. done.
    + assert (Heq : eps w' !! e' = eps w !! e') by (cbn; now rewrite lookup_insert_ne).
      split; intros (q & T2 & Eq & HT2 & Ha); exists q.
      * rewrite Heq in Eq. destruct (inv_trees _ HI e' q Eq) as (T3 & HT3 & HO3). destruct (Hother e' q Eq He) as (T4 & HT4 & HO4).
        exists T2. split; [done|]. split; [|done].
        assert (T2 = T4) as -> by exact (EpTree.treeOf_unique _ _ _ _ HT2 HT4).
        apply (EpTree.treeOf_agree _ _ _ _ _ _ HT2); [|done]. intros b Hb. symmetry. apply Hout. intros Ho.
        apply He. exact (owned_inj _ _ _ _ (HO4 b Hb) Ho).
      * exists T2. rewrite Heq. split; [done|]. split; [|done]. apply (EpTree.treeOf_agree _ _ _ _ _ _ HT2); [|done].
        intros b Hb. apply Hout. intros Ho. apply He. apply (owned_inj (items w) e' e b); [|exact Ho].
        apply (inTree_owned w e' b HI). now exists q, T2.
Qed.

Lemma steady_inTree w w' e a : steady w w' -> inTree w e a -> inTree w' e a.
Proof.
  intros [K Er Ee] (p & T & Ep & HT & Ha).
  assert (Hp : (rbr <$> eps w') !! e = Some (rbr p)) by (rewrite Ee, lookup_fmap, Ep; done).
  rewrite lookup_fmap in Hp. apply fmap_Some in Hp as (p' & Ep' & Erb). exists p', T. split; [done|]. split; [|done].
  rewrite Er, <- Erb. apply (EpTree.treeOf_agree _ _ _ _ _ _ HT); [done|]. intros b _. now apply key_fd.
Qed.

Lemma steady_sym w w' : steady w w' -> steady w' w.
Proof. intros []. now constructor. Qed.

Lemma erase_safe w e a : Inv w -> inTree w e a ->
  safe (onTree e (FillpRbErase (Some a))) w (fun _ w' => items w' = items w /\ rdl w' = rdl w /\ waits w' = waits w /\
    socks w' = socks w /\ (forall e' b, inTree w' e' b <-> inTree w e' b /\ b <> a)).
Proof.
  intros HI Hin0. pose proof (inTree_owned _ _ _ HI Hin0) as Ho. pose proof Hin0 as (p & T & Ep & HT & Ha).
  destruct (inv_trees _ HI e p Ep) as (T0 & HT0 & HO).
  assert (T0 = T) as -> by exact (EpTree.treeOf_unique _ _ _ _ HT0 HT).
  destruct (EpTree.erase_shared _ _ _ _ a HT Ha) as (st' & T' & E & HT' & HP & Hout & Hdom).
  assert (Hnd : NoDup (a :: inorder T')).
  { rewrite <- HP. destruct HT as [[_ _ _ Hoc] _ _]. apply (inorder_NoDup T). intros b. specialize (Hoc b). cbn in Hoc. lia. }
  apply NoDup_cons in Hnd as [Hna _].
  apply (safe_mono _ _ _ _ (onTree_safe w e p T _ st' T' HI Ep HT E HT'
    ltac:(intros b Hb; apply HO; rewrite HP; now right) ltac:(intros b Hb; apply Hout; intros Hx; now apply Hb, HO) Hdom)).
  intros _ w' (E1 & E2 & E3 & E4 & H5). do 4 (split; [assumption|]). intros e' b. rewrite H5. case_decide as He.
  - subst e'. split.
    + intros Hb. split; [|intros ->; done]. exists p, T. split; [done|]. split; [done|]. rewrite HP. now right.
    + intros [(p' & T2 & Ep' & HT2 & Hb) Hne]. assert (p' = p) as -> by congruence.
      rewrite (EpTree.treeOf_unique _ _ _ _ HT2 HT), HP in Hb.
      apply elem_of_cons in Hb as [->|Hb]; done.
  - split; [|tauto]. intros Hb. split; [done|]. intros ->. apply He. exact (owned_inj _ _ _ _ (inTree_owned _ _ _ HI Hb) Ho).
Qed.

Lemma EpUnlink_safe ok w e a : Inv w -> inTree w e a ->
  safe (EpUnlink ok e a) w (fun r w' => itemKey <$> items w' = itemKey <$> items w /\ waits w' = waits w /\ socks w' = socks w /\
    (forall e' b, inTree w' e' b <-> inTree w e' b /\ b <> a) /\ (r = ERR_OK -> cells (rdl w') !! inr a = Some NULLNODE) /\
    (ok InEpUnlink = true -> r = ERR_OK) /\ (forall b, b <> a -> core <$> items w' !! b = core <$> items w !! b)).
Proof.
  intros HI Hin. pose proof (inTree_owned _ _ _ HI Hin) as Ho. pose proof Ho as (i & Ei & Ee). apply safeH_safe. unfold EpUnlink.
  destruct (proj1 (inv_cells _ HI a)) as [n En]; [eauto|]. apply (safeH_read _ _ _ n); [exact En|].
  rewrite bool_decide_false.
  2: { destruct Hin as (p & T & Ep & HT & Ha). destruct HT as [Hh _ _]. apply (own_parent _ T a n Hh); [|exact En].
       now apply EpTree.occ_inorder. }
  apply (safeH_read _ _ _ i); [exact Ei|].
  eapply safeH_bind; [apply (putItem_safe _ a i); [done|exact Ei|done]|].
  intros _ w1 HI1 HK1 (HS1 & Ei1 & Es1 & _ & Ew1 & Eq1 & _).
  eapply safeH_bind; [apply (erase_safe w1 e a HI1), (steady_inTree _ _ _ _ HS1 Hin)|].
  intros _ w2 HI2 HK2 (Ei2 & Er2 & Ew2 & Es2 & Hno2).
  assert (Ho2 : owned (items w2) e a) by (rewrite Ei2; eexists; split; [exact Ei1|exact Ee]).
  assert (Hh2 : held w2 = held w) by (rewrite (keeps_held _ _ HK2); apply (keeps_held _ _ HK1)).
  rewrite <- Hh2. assert (K2 : itemKey <$> items w2 = itemKey <$> items w) by (rewrite Ei2; apply HS1).
  assert (Hno : forall e' b, inTree w2 e' b <-> inTree w e' b /\ b <> a).
  { intros e' b. rewrite Hno2. split; intros [Hx ?]; (split; [|done]).
    - exact (steady_inTree _ _ _ _ (steady_sym _ _ HS1) Hx).
    - exact (steady_inTree _ _ _ _ HS1 Hx). }
  assert (Hc2 : forall b, b <> a -> core <$> items w2 !! b = core <$> items w !! b).
  { intros b Hb. now rewrite Ei2, Eq1, lookup_insert_ne by congruence. }
  apply safeH_wait_ok; [done| |].
  - intros _ HI3. cbn [negb]. destruct Ho2 as (i2 & Ei3 & Ee2). apply (safeH_read _ _ _ i2); [exact Ei3|].
    eapply safeH_bind; [apply (putItem_safe _ a i2); [done|exact Ei3|done]|].
    intros _ w3 HI3' HK3 (HS3 & Ei4 & Es3 & _ & Ew3 & Eq3 & _).
    eapply safeH_bind; [apply (EpDelRdlnode_safe w3 e a HI3'); eexists; split; [exact Ei4|exact Ee2]|].
    intros _ w4 HI4 HK4 (HS4 & Ei5 & Ew4 & Es4 & Hn4). apply safeH_post; [done|]. intros HI5.
    rewrite (keeps_held _ _ HK4), (keeps_held _ _ HK3). cbn [held setHeld]. rewrite removeLock_cons.
    apply (safeH_ret FILLP_OK (setHeld (held w2) w4)); [now apply Inv_held|].
    split; [|split; [|split; [|split; [|split; [|split]]]]].
    + cbn. rewrite Ei5, (steady_items _ _ HS3). exact K2.
    + cbn in *. congruence.
    + cbn in *. congruence.
    + intros e' b. rewrite <- Hno.
      assert (HS : steady w2 (setHeld (held w2) w4)) by (destruct HS3, HS4; constructor; cbn in *; congruence).
      split; intros Hx; [exact (steady_inTree _ _ _ _ (steady_sym _ _ HS) Hx)|exact (steady_inTree _ _ _ _ HS Hx)].
    + intros _. exact Hn4.
    + done.
    + intros b Hb. cbn. rewrite Ei5, Eq3, lookup_insert_ne by congruence. exact (Hc2 b Hb).
  - intros Hok. cbn [negb]. apply safeH_errno; [done|]. intros HI3.
    apply (safeH_ret ERR_COMM (setErrno FILLP_EBUSY w2)); [done|]. split; [exact K2|]. split; [cbn in *; congruence|].
    split; [cbn in *; congruence|]. split; [exact Hno|]. split; [discriminate|]. split; [congruence|exact Hc2].
Qed.

(** The walk over the items of a socket. *)
Lemma unwaitLoop_ok h L s a l2 : forall l1 fuel, lists h L -> L !! inl s = Some (l1 ++ l2) -> (length l2 < fuel)%nat ->
  unwaitLoop fuel s a (head l2) h = if decide (inr a ∈ l2) then HlistDelete (inl s) (inr a) h else Some h.
Proof.
  induction l2 as [|y l2 IH]; intros l1 fuel HL E Hf; destruct fuel as [|fuel]; try (cbn in Hf; lia); [reflexivity|].
  cbn [head unwaitLoop]. destruct (decide (y = inr a)) as [->|Hne].
  - rewrite decide_True by left. reflexivity.
  - destruct (lists_next h L (inl s) l1 y l2 HL E) as (c & Ec & En). rewrite Ec. cbn [mbind option_bind]. rewrite En.
    rewrite (IH (l1 ++ [y])); [|done|now rewrite <- app_assoc|cbn in Hf; lia].
    destruct (decide (inr a ∈ l2)); [rewrite decide_True by now right|rewrite decide_False]; [done|done|].
    rewrite elem_of_cons. intros [?|?]; congruence.
Qed.

Lemma list_fits (h : Heap (A := addr)) L x l : lists h L -> L !! x = Some l -> (length l <= size (cells h))%nat.
Proof.
  intros HL E. pose proof (repr_nodup _ _ _ (lists_each _ _ HL _ _ E)) as Hd. apply NoDup_cons in Hd as [_ Hd].
  rewrite <- size_dom, <- (size_list_to_set (C := gset addr)) by exact Hd. apply subseteq_size. intros y.
  rewrite elem_of_list_to_set, elem_of_dom. intros Hy. apply (lists_in _ _ _ _ _ HL E). now right.
Qed.

Lemma waiting_inj its s s' a : waiting its s a -> waiting its s' a -> s = s'.
Proof. intros (i & E & Ee) (i' & E' & Ee'). assert (i = i') as -> by congruence. lia. Qed.

Lemma unwait_ok h (P : nat -> Prop) its s a : listsOf h P (waiting its) -> P s -> waiting its s a -> is_Some (cells h !! inr a) ->
  exists h', unwait s a h = Some h' /\ listsOf h' P (waiting its) /\ dom (cells h') = dom (cells h) /\
    cells h' !! inr a = Some NULLNODE.
Proof.
  intros Hh Hs Hw Hc. pose proof Hh as (L & HL & H1 & H2 & H3). destruct (H2 s Hs) as [l El].
  unfold unwait. rewrite (lists_first _ _ _ _ HL El). cbn [mbind option_bind].
  rewrite (unwaitLoop_ok h L s a l [] _ HL El) by (pose proof (list_fits _ _ _ _ HL El); lia).
  case_decide as Hin.
  - apply listsOf_delete; [exact Hh|]. apply list_elem_of_split in Hin as (l1 & l2 & ->).
    eexists. split; [exact (lists_node _ _ _ _ _ _ HL El)|done].
  - exists h. split; [done|]. split; [done|]. split; [done|].
    destruct (linked_cases _ _ _ a Hh Hc) as [[_ E]|[_ (n & Hl & Hm)]]; [exact E|]. exfalso. apply Hin.
    assert (n = s) as -> by exact (waiting_inj _ _ _ _ Hm Hw).
    destruct (linkedIn_list h L s a HL H1 Hl) as (l1 & l2 & E). rewrite El in E. injection E as ->. apply elem_of_app. right. left.
Qed.

Lemma Inv_waits w h : Inv w -> listsOf h (fun s => (s < length (socks w))%nat) (waiting (items w)) ->
  dom (cells h) = dom (cells (waits w)) -> Inv (setWaits h w).
Proof.
  intros [H1 H2 H3 H4 H5 H6 H7] Hh Hd. constructor; try assumption. intros a. specialize (H4 a).
  cbn [setWaits items rbns rdl waits] in *. rewrite <- (elem_of_dom (cells h)), Hd, elem_of_dom. exact H4.
Qed.

(** ** Freeing an item that is linked nowhere *)

Lemma DympFree_safe w a : Inv w -> (forall e, ~ inTree w e a) -> cells (rdl w) !! inr a = Some NULLNODE ->
  cells (waits w) !! inr a = Some NULLNODE ->
  safe (DympFree a) w (fun _ w' => items w' = delete a (items w) /\ rbns w' = delete a (rbns w) /\ eps w' = eps w /\ socks w' = socks w).
Proof.
  intros HI Hno Hr Hw. pose proof HI as [H1 H2 H3 H4 H5 H6 H7].
  eexists tt, _. split; [reflexivity|]. cbn [items rbns rdl waits eps socks setRbns setItems setRdl setWaits].
  split; [|split; [|done]].
  2: { now constructor. }
  assert (Hfd : forall b, b <> a -> fdIn (delete a (items w)) b = fdIn (items w) b).
  { intros b Hne. unfold fdIn. now rewrite lookup_delete_ne. }
  assert (Hown : forall n b, owned (items w) n b -> b <> a -> owned (delete a (items w)) n b).
  { intros n b (i & E & Ee) Hne. exists i. now rewrite lookup_delete_ne. }
  constructor; cbn [items rbns rdl waits eps socks maxEpollItemNum setRbns setItems setRdl setWaits].
  - intros e p E. destruct (H1 e p E) as (T & HT & HO).
    assert (Hne : forall b, b ∈ inorder T -> b <> a) by (intros b Hb ->; apply (Hno e); now exists p, T).
    exists T. split; [|intros b Hb; apply Hown; auto].
    apply (EpTree.treeOf_agree _ _ _ _ _ _ HT); [|auto]. intros b Hb. apply lookup_delete_ne. intros ->. now apply (Hne b).
  - exact (listsOf_free _ _ _ a _ H2 Hr Hown).
  - apply (listsOf_free _ _ _ a _ H3 Hw). intros n b (i & E & Ee) Hne. exists i. now rewrite lookup_delete_ne.
  - intros b. cbn [cells]. destruct (decide (a = b)) as [<-|Hne].
    + rewrite !lookup_delete_eq. split; [done|]. split; done.
    + rewrite !lookup_delete_ne by congruence. apply H4.
  - intros b i [_ E]%lookup_delete_Some. eauto.
  - split; [|apply H6]. pose proof (map_size_delete a (items w)) as Hz. etrans; [|apply H6]. rewrite Hz. destruct (items w !! a); cbn; lia.
  - exact H7.
Qed.

Lemma SockGetSocket_ok w s : hasInited w = true -> (s < length (socks w))%nat -> SockGetSocket (Z.of_nat s) w = Some (Some s, w).
Proof.
  intros Hi Hs. unfold SockGetSocket. rewrite Hi. cbn [negb]. destruct (Z.ltb_spec (Z.of_nat s) 0); [lia|]. rewrite Z.geb_leb.
  destruct (Z.leb_spec (Z.of_nat (length (socks w))) (Z.of_nat s)); [lia|]. cbn [orb]. now rewrite Nat2Z.id.
Qed.

(** All locks are free, and the library is initialised. *)
Definition openFor (ok : Site -> bool) (w : World) : Prop := (forall at_, ok at_ = true) /\ hasInited w = true.
(** The descriptor is one of a connection, too. *)
Definition willing (ok : Site -> bool) (w : World) (fd : Z) : Prop := openFor ok w /\
  forall s x, fd = Z.of_nat s -> socks w !! s = Some x -> allocState x <> SOCK_ALLOC_STATE_EPOLL.

(** What is left when the item [a] is taken out. *)
Record itemOut (ok : Site -> bool) (w : World) (a : nat) (r : Z) (w' : World) : Prop := {
  out_freed : r = ERR_OK -> items w' !! a = None;
  out_core : forall b, b <> a -> core <$> items w' !! b = core <$> items w !! b;
  out_ok : forall fd, fdIn (items w) a = Some fd -> willing ok w fd -> r = ERR_OK;
  out_trees : r = ERR_OK -> forall e' b, inTree w' e' b <-> inTree w e' b /\ b <> a
}.

Lemma itemOut_fails ok w a w' r fd : items w' = items w -> r <> ERR_OK -> fdIn (items w) a = Some fd -> ~ willing ok w fd ->
  itemOut ok w a r w'.
Proof.
  intros Ei Hr Hf Hw. constructor; [done|intros b _; now rewrite Ei| |done].
  intros fd' Hf' Hw'. assert (fd' = fd) as -> by congruence. done.
Qed.

(** The last part of [EpRemove]. *)
Lemma unlink_free_safe ok w e a : Inv w -> inTree w e a -> cells (waits w) !! inr a = Some NULLNODE ->
  safe (error ← EpUnlink ok e a; if negb (error =? ERR_OK) then mret error else DympFree a ;; mret FILLP_OK) w
    (fun r w' => (r = ERR_OK -> items w' !! a = None) /\ (forall b, b <> a -> core <$> items w' !! b = core <$> items w !! b) /\
       (ok InEpUnlink = true -> r = ERR_OK) /\ (r = ERR_OK -> forall e' b, inTree w' e' b <-> inTree w e' b /\ b <> a)).
Proof.
  intros HI Hin Hn. eapply safe_bind; [exact (EpUnlink_safe ok w e a HI Hin)|].
  intros r w2 HI2 HK2 (K2 & Ew2 & Es2 & Ht2 & Hr2 & Hok2 & Hc2).
  destruct (Z.eqb_spec r ERR_OK) as [->|Hne]; cbn [negb]; [|apply safe_ret; [done|]; repeat split; try done; intros; exfalso; auto].
  assert (Hno : forall e', ~ inTree w2 e' a) by (intros e' Hx; apply Ht2 in Hx as [_ Hx]; done).
  eapply safe_bind; [apply (DympFree_safe w2 a HI2 Hno (Hr2 eq_refl)); rewrite Ew2; exact Hn|].
  intros _ w3 HI3 HK3 (Ei3 & Er3 & Ee3 & _). apply safe_ret; [done|]. rewrite Ei3. split; [|split; [|split; [done|]]].
  - intros _. apply lookup_delete_eq.
  - intros b Hb. rewrite lookup_delete_ne by congruence. auto.
  - intros _ e' b. rewrite <- Ht2.
    assert (Hagree : forall c, c <> a -> delete a (rbns w2) !! c = rbns w2 !! c /\ fdIn (delete a (items w2)) c = fdIn (items w2) c).
    { intros c Hc. unfold fdIn. now rewrite !lookup_delete_ne by congruence. }
    split; intros (p & T & Ep & HT & Hb); exists p, T.
    + rewrite Ee3 in Ep. rewrite Ei3, Er3 in HT. split; [done|]. split; [|done].
      destruct (inv_trees _ HI2 e' p Ep) as (T2 & HT2 & HO2).
      assert (HT3 : EpTree.treeOf (fdIn (delete a (items w2))) (mkStore (delete a (rbns w2)) (rbr p)) T2).
      { apply (EpTree.treeOf_agree _ _ _ _ _ _ HT2); intros c Hc; apply Hagree; intros ->; apply (Hno e'); now exists p, T2. }
      rewrite (EpTree.treeOf_unique _ _ _ _ HT HT3). exact HT2.
    + rewrite Ee3, Ei3, Er3. split; [done|]. split; [|done].
      apply (EpTree.treeOf_agree _ _ _ _ _ _ HT); intros c Hc; apply Hagree; intros ->; apply (Hno e'); now exists p, T.
Qed.

Lemma EpRemove_safe ok w e a : Inv w -> inTree w e a -> safe (EpRemove ok (Some e) (Some a)) w (itemOut ok w a).
Proof.
  intros HI Hin. pose proof (inTree_owned _ _ _ HI Hin) as Ho. pose proof Ho as (i & Ei & Ee). apply safeH_safe. unfold EpRemove.
  destruct (inv_items _ HI a i Ei) as (e0 & s0 & _ & _ & Ef & Hs0).
  assert (Hfd : fdIn (items w) a = Some (Z.of_nat s0)) by (unfold fdIn; rewrite Ei; cbn; now rewrite Ef).
  apply (safeH_read _ _ _ i); [exact Ei|]. rewrite Ef.
  destruct (SockGetSocket_cases w (Z.of_nat s0)) as [E|(s & E & Efs & Hs)]; apply (safeH_get _ _ _ _ _ _ E).
  { apply safeH_errno; [done|]. intros HI1. apply (safeH_ret ERR_COMM (setErrno FILLP_EBADF w)); [done|].
    apply (itemOut_fails _ _ _ _ _ (Z.of_nat s0)); try done. intros ((_ & Hi) & _). rewrite (SockGetSocket_ok w s0 Hi Hs0) in E. discriminate. }
  assert (s0 = s) as -> by lia. pose proof Hs as [x Ex]%lookup_lt_is_Some. apply (safeH_read _ _ _ x); [exact Ex|].
  destruct (Z.eqb_spec (allocState x) SOCK_ALLOC_STATE_EPOLL) as [Hst|Hst].
  { apply safeH_errno; [done|]. intros HI1. apply (safeH_ret ERR_COMM (setErrno FILLP_EBADF w)); [done|].
    apply (itemOut_fails _ _ _ _ _ (Z.of_nat s)); try done. intros (_ & Hx). now apply (Hx s x). }
  apply safeH_wait_ok; [done| |].
  2: { intros Hok. cbn [negb]. apply safeH_errno; [done|]. intros HI1. apply (safeH_ret ERR_COMM (setErrno FILLP_EBUSY w)); [done|].
       apply (itemOut_fails _ _ _ _ _ (Z.of_nat s)); try done. intros ((Hall & _) & _). rewrite Hall in Hok. discriminate. }
  intros _ HI1. cbn [negb].
  assert (Hwt : waiting (items w) s a) by (exists i; done).
  destruct (unwait_ok (waits w) _ (items w) s a (inv_waits _ HI) Hs Hwt) as (h' & Eh & Hh' & Hd & Hn).
  { apply (inv_cells _ HI). eauto. }
  apply wp_bind. exists tt, (setWaits h' (setHeld (EpollTaskListLock s :: held w) w)).
  split; [apply onWaits_effect; exact Eh|].
  apply wp_bind. eapply wp_write; [reflexivity|]. cbn [held setWaits setHeld]. rewrite removeLock_cons.
  set (w1 := setHeld (held w) (setWaits h' (setHeld (EpollTaskListLock s :: held w) w))).
  assert (HIw1 : Inv w1) by exact (Inv_held _ _ (Inv_waits _ _ HI Hh' Hd)).
  apply (wp_mono _ _ _ _ (unlink_free_safe ok w1 e a HIw1 Hin Hn)). intros r w' (HI' & HK' & H1 & H2 & H3 & H4).
  split; [done|]. split; [destruct HK'; now constructor|]. constructor; [exact H1|exact H2| |exact H4].
  intros fd _ ((Hall & _) & _). apply H3, Hall.
Qed.

(** ** Insertion *)

(** The memory with a new item that is linked nowhere. *)
Definition withItem (a : nat) (n : RbNode) (i : EpItem) (w : World) : World :=
  setItems (fun _ => <[a := i]> (items w))
    (setWaits (mkHeap (<[inr a := NULLNODE]> (cells (waits w))) (sizes (waits w)))
      (setRdl (mkHeap (<[inr a := NULLNODE]> (cells (rdl w))) (sizes (rdl w)))
        (setRbns (<[a := n]> (rbns w)) w))).

Lemma Inv_withItem w a n i e s : Inv w -> items w !! a = None -> ep i = Some e -> is_Some (eps w !! e) ->
  fileDespcriptor i = Z.of_nat s -> (s < length (socks w))%nat -> Z.of_nat (size (items w)) < maxEpollItemNum w ->
  Inv (withItem a n i w).
Proof.
  intros [H1 H2 H3 H4 H5 H6 H7] Ha Ee He Ef Hs Hz.
  assert (Hr : cells (rdl w) !! inr a = None).
  { destruct (cells (rdl w) !! inr a) eqn:E; [|done]. destruct (proj1 (proj1 (proj2 (H4 a)))); [eauto|congruence]. }
  assert (Hw : cells (waits w) !! inr a = None).
  { destruct (cells (waits w) !! inr a) eqn:E; [|done]. destruct (proj1 (proj2 (proj2 (H4 a)))); [eauto|congruence]. }
  assert (Hown : forall m b, owned (items w) m b -> b <> a /\ owned (<[a := i]> (items w)) m b).
  { intros m b (j & Ej & Ej'). assert (b <> a) by congruence. split; [done|]. exists j. now rewrite lookup_insert_ne. }
  constructor; cbn [withItem items rbns rdl waits eps socks maxEpollItemNum setRbns setItems setRdl setWaits].
  - intros e' p Ep. destruct (H1 e' p Ep) as (T & HT & HO). exists T. split; [|intros b Hb; now apply Hown, HO].
    apply (EpTree.treeOf_agree _ _ _ _ _ _ HT); intros b Hb; destruct (Hown _ _ (HO b Hb)) as [Hne _]; unfold fdIn;
      now rewrite lookup_insert_ne.
  - apply (listsOf_mono _ _ _ _ _ (listsOf_alloc _ _ _ a H2 Hr)); [done|]. intros m b Hb. now apply Hown.
  - apply (listsOf_mono _ _ _ _ _ (listsOf_alloc _ _ _ a H3 Hw)); [done|]. intros m b (j & Ej & Ej').
    exists j. rewrite lookup_insert_ne by congruence. done.
  - intros b. cbn [cells]. destruct (decide (a = b)) as [<-|Hne].
    + rewrite !lookup_insert_eq. split; [eauto|]. split; split; eauto.
    + rewrite !lookup_insert_ne by congruence. apply H4.
  - intros b j [[<- <-]|[_ Ej]]%lookup_insert_Some; eauto 10.
  - rewrite map_size_insert_None by done. split; [lia|apply H6].
  - exact H7.
Qed.

Lemma tree_fits w e a p T : Inv w -> eps w !! e = Some p -> EpTree.treeOf (fdIn (items w)) (mkStore (rbns w) (rbr p)) T ->
  items w !! a = None -> Z.of_nat (length (inorder T)) <= maxEpollItemNum w /\ a ∉ inorder T.
Proof.
  intros HI Ep HT Ha. destruct (inv_trees _ HI e p Ep) as (T' & HT' & HO).
  assert (T' = T) as -> by exact (EpTree.treeOf_unique _ _ _ _ HT' HT).
  split; [|intros Hin; destruct (HO a Hin) as (i & Ei & _); congruence].
  etrans; [|apply (inv_size _ HI)]. apply inj_le. rewrite <- size_dom, <- (size_list_to_set (C := gset nat)).
  - apply subseteq_size. intros b. rewrite elem_of_list_to_set, elem_of_dom. intros Hb. destruct (HO b Hb) as (i & Ei & _). eauto.
  - apply inorder_NoDup. intros b. pose proof (hold_once _ _ _ (EpTree.tree_hold _ _ _ HT) b) as Ho. cbn in Ho. lia.
Qed.

(** Storing the new item in the tree of its instance. *)
Lemma insert_safe w e s a n i : Inv w -> items w !! a = None -> ep i = Some e -> is_Some (eps w !! e) ->
  fileDespcriptor i = Z.of_nat s -> (s < length (socks w))%nat -> Z.of_nat (size (items w)) < maxEpollItemNum w ->
  (forall b, inTree w e b -> fdIn (items w) b <> Some (Z.of_nat s)) ->
  safe (onTree e (EpTree.EpRbtreeInsert (fdIn (<[a := i]> (items w))) (maxEpollItemNum w) a)) (withItem a n i w)
    (fun _ w' => items w' = <[a := i]> (items w) /\ waits w' = waits (withItem a n i w) /\ socks w' = socks w /\
       (forall e' b, inTree w' e' b <-> inTree w e' b \/ (e' = e /\ b = a))).
Proof.
  intros HI Ha Ee [p Ep] Ef Hs Hz Hno. set (w1 := withItem a n i w).
  assert (HI1 : Inv w1) by (apply (Inv_withItem w a n i e s); eauto).
  destruct (inv_trees _ HI e p Ep) as (T & HT & HO). destruct (tree_fits w e a p T HI Ep HT Ha) as [Hlen Hna].
  assert (HT1 : EpTree.treeOf (fdIn (items w1)) (mkStore (rbns w1) (rbr p)) T).
  { apply (EpTree.treeOf_agree _ _ _ _ _ _ HT); intros b Hb; destruct (HO b Hb) as (j & Ej & _); assert (a <> b) by congruence;
      cbn; unfold fdIn; now rewrite lookup_insert_ne. }
  destruct (EpTree.insert_shared (fdIn (items w1)) (rbns w1) (rbr p) T a (Z.of_nat s) (maxEpollItemNum w) HT1)
    as (st' & T' & E & HT' & HP & Hout & Hdom).
  - cbn. unfold fdIn. rewrite lookup_insert_eq. cbn. now rewrite Ef.
  - exact Hna.
  - cbn. rewrite lookup_insert_eq. eauto.
  - intros b Hb Eb. destruct (HO b Hb) as (j & Ej & _). apply (Hno b); [now exists p, T|].
    cbn in Eb. unfold fdIn in *. now rewrite lookup_insert_ne in Eb by congruence.
  - exact Hlen.
  - assert (Hoa : owned (items w1) e a) by (exists i; cbn; now rewrite lookup_insert_eq).
    assert (HO1 : forall b, b ∈ inorder T -> owned (items w1) e b).
    { intros b Hb. destruct (HO b Hb) as (j & Ej & Ej'). exists j. cbn. now rewrite lookup_insert_ne by congruence. }
    apply (safe_mono _ _ _ _ (onTree_safe w1 e p T _ st' T' HI1 Ep HT1 E HT'
      ltac:(intros b; rewrite HP, elem_of_cons; intros [->|Hb]; auto)
      ltac:(intros b Hb; apply Hout; rewrite elem_of_cons; intros [->|Hx]; auto) Hdom)).
    intros _ w' (E1 & _ & E3 & E4 & H5). do 3 (split; [done|]). intros e' b. rewrite H5. case_decide as He.
    + subst e'. rewrite HP, elem_of_cons. split.
      * intros [->|Hb]; [now right|]. left. now exists p, T.
      * intros [(p' & T2 & Ep' & HT2 & Hb)|[_ ->]]; [|now left]. right. assert (p' = p) as -> by congruence.
        now rewrite (EpTree.treeOf_unique _ _ _ _ HT2 HT) in Hb.
    + split; [intros Hb; left|intros [Hb|[? _]]; [|done]]; destruct Hb as (q & T2 & Eq & HT2 & Hb); exists q, T2; (split; [exact Eq|split; [|exact Hb]]).
      * destruct (inv_trees _ HI e' q Eq) as (T3 & HT3 & HO3).
        assert (HT4 : EpTree.treeOf (fdIn (items w1)) (mkStore (rbns w1) (rbr q)) T3).
        { apply (EpTree.treeOf_agree _ _ _ _ _ _ HT3); intros c Hc; destruct (HO3 c Hc) as (j & Ej & _); assert (a <> c) by congruence;
            cbn; unfold fdIn; now rewrite lookup_insert_ne. }
        now rewrite (EpTree.treeOf_unique _ _ _ _ HT2 HT4).
      * destruct (inv_trees _ HI e' q Eq) as (T3 & HT3 & HO3).
        rewrite (EpTree.treeOf_unique _ _ _ _ HT3 HT2) in HO3.
        apply (EpTree.treeOf_agree _ _ _ _ _ _ HT2); intros c Hc; destruct (HO3 c Hc) as (j & Ej & _); assert (a <> c) by congruence;
          cbn; unfold fdIn; now rewrite lookup_insert_ne.
Qed.

(** The pool hands out memory that is not in use. *)
Definition poolOk (w : World) (pool : option (nat * (RbNode * SpungeEpollEvent))) : Prop :=
  match pool with
  | None => True
  | Some (a, _) => items w !! a = None /\ Z.of_nat (size (items w)) < maxEpollItemNum w
  end.

Lemma malloc_step w a n old : exists n', EpollMallocEpitem (Some (a, (n, old))) w = Some (Some a, withItem a n' (mkItem None old 0 (-1)) w).
Proof. eexists. reflexivity. Qed.

Lemma withItem_put w a n i i' : putItem a i' (withItem a n i w) = Some (tt, withItem a n i' w).
Proof.
  unfold putItem, write, withItem. cbn [items setItems]. rewrite lookup_insert_eq. cbn [mbind option_bind].
  unfold setItems. cbn. now rewrite insert_insert_eq.
Qed.

(** What a successful insertion leaves. *)
Record itemIn (w : World) (e : nat) (ev : SpungeEpollEvent) (fd : Z) (w' : World) : Prop := {
  in_new : exists a, items w !! a = None /\ core <$> items w' = <[a := (Some e, ev, fd)]> (core <$> items w) /\
    (forall e' b, inTree w' e' b <-> inTree w e' b \/ (e' = e /\ b = a))
}.

Lemma EpInsert_safe ok pool w e ev fd : Inv w -> is_Some (eps w !! e) -> poolOk w pool ->
  (forall b, inTree w e b -> fdIn (items w) b <> Some fd) ->
  safe (EpInsert ok pool e ev fd) w (fun r w' => socks w' = socks w /\ (r = ERR_OK -> itemIn w e ev fd w') /\
    (willing ok w fd -> 0 <= fd < Z.of_nat (length (socks w)) -> pool <> None -> r = ERR_OK)).
Proof.
  intros HI He Hpool Hno. apply safeH_safe. unfold EpInsert.
  destruct (SockGetSocket_cases w fd) as [E|(s & E & -> & Hs)]; apply (safeH_get _ _ _ _ _ _ E).
  { apply safeH_errno; [done|]. intros HI1. apply (safeH_ret ERR_NO_SOCK (setErrno FILLP_EBADF w)); [done|]. split; [done|].
    split; [discriminate|]. intros ((_ & Hi) & _) Hr _. exfalso. rewrite <- (Z2Nat.id fd) in E by lia.
    rewrite SockGetSocket_ok in E; [discriminate|done|lia]. }
  pose proof Hs as [x Ex]%lookup_lt_is_Some. apply (safeH_read _ _ _ x); [exact Ex|].
  destruct (Z.eqb_spec (allocState x) SOCK_ALLOC_STATE_EPOLL) as [Hst|Hst].
  { apply safeH_errno; [done|]. intros HI1. apply (safeH_ret ERR_NO_SOCK (setErrno FILLP_EBADF w)); [done|]. split; [done|].
    split; [discriminate|]. intros (_ & Hw) _ _. exfalso. now apply (Hw s x). }
  destruct pool as [[a [n old]]|].
  2: { apply (safeH_get _ _ _ None); [done|]. apply safeH_errno; [done|]. intros HI1.
       apply (safeH_ret ERR_NULLPTR (setErrno FILLP_ENOMEM w)); [done|]. split; [done|]. split; [discriminate|done]. }
  destruct Hpool as [Ha Hz]. destruct (malloc_step w a n old) as [n' En].
  set (i := mkItem (Some e) ev 0 (Z.of_nat s)).
  apply wp_bind. eexists _, _. split; [exact En|]. apply wp_bind. eapply wp_read; [cbn; apply lookup_insert_eq|].
  apply wp_bind. eexists tt, (withItem a n' i w). split; [apply withItem_put|].
  assert (HI1 : Inv (withItem a n' i w)) by (apply (Inv_withItem w a n' i e s); eauto).
  assert (HK1 : keeps w (withItem a n' i w)) by now constructor.
  enough (Hrest : safeH (w0 ← read Some;
      onTree e (EpTree.EpRbtreeInsert (fdOf w0) (maxEpollItemNum w0) a);;
      EpollAddToSockWaitList ok s a;;
      got ← semWait ok InEpInsert (AppCoreSem e);
      if negb got then SET_ERRNO FILLP_EBUSY;; mret ERR_COMM
      else EpollCtlTriggleEvent e s a;; semPost (AppCoreSem e);; mret FILLP_OK) (withItem a n' i w) (held w)
    (fun r w' => socks w' = socks w /\ (r = ERR_OK -> itemIn w e ev (Z.of_nat s) w') /\ (ok InEpInsert = true -> r = ERR_OK))).
  { apply (wp_mono _ _ _ _ Hrest). intros r w' (HI' & HK' & Hq1 & Hq2 & Hq3). split; [done|]. split; [destruct HK'; now constructor|].
    split; [done|]. split; [done|]. intros ((Hall & _) & _) _ _. apply Hq3, Hall. }
  apply (safeH_read _ _ _ (withItem a n' i w)); [done|].
  eapply safeH_bind; [apply (insert_safe w e s a n' i HI Ha eq_refl He eq_refl Hs Hz Hno)|].
  intros _ w2 HI2 HK2 (Ei2 & Ew2 & Es2 & Ht2).
  eapply safeH_bind.
  { apply (EpollAddToSockWaitList_safe ok w2 s a HI2).
    - exists i. now rewrite Ei2, lookup_insert_eq.
    - rewrite Ew2. cbn. apply lookup_insert_eq. }
  intros _ w3 HI3 HK3 (HS3 & Ei3 & Es3).
  assert (Hin3 : forall w4, core <$> items w4 = core <$> items w3 -> steady w3 w4 -> itemIn w e ev (Z.of_nat s) w4).
  { intros w4 Hc Hst4. constructor. exists a. split; [done|]. split; [now rewrite Hc, Ei3, Ei2, fmap_insert|].
    intros e' b. rewrite <- Ht2. assert (HS : steady w2 w4) by (etrans; eassumption).
    split; intros Hx; [exact (steady_inTree _ _ _ _ (steady_sym _ _ HS) Hx)|exact (steady_inTree _ _ _ _ HS Hx)]. }
  assert (Hh3 : held w3 = held w) by (rewrite (keeps_held _ _ HK3), (keeps_held _ _ HK2); reflexivity). rewrite <- Hh3.
  apply safeH_wait_ok; [done| |].
  - intros _ HI4. cbn [negb]. eapply safeH_bind.
    + apply (EpollCtlTriggleEvent_safe (setHeld (AppCoreSem e :: held w3) w3) e s a HI4).
      * exists i. cbn. now rewrite Ei3, Ei2, lookup_insert_eq.
      * cbn. now rewrite Es3, Es2.
    + intros _ w5 HI5 HK5 (HS5 & _ & Es5 & Ec5). apply safeH_post; [done|]. intros HI6.
      rewrite (keeps_held _ _ HK5). cbn [held setHeld]. rewrite removeLock_cons.
      apply (safeH_ret FILLP_OK (setHeld (held w3) w5)); [now apply Inv_held|].
      split; [cbn in *; congruence|]. split; [|done]. intros _. apply Hin3; [exact Ec5|]. destruct HS5. constructor; assumption.
  - intros Hok. cbn [negb]. apply safeH_errno; [done|]. intros HI4. apply (safeH_ret ERR_COMM (setErrno FILLP_EBUSY w3)); [done|].
    split; [cbn; congruence|]. split; [discriminate|congruence].
Qed.

(** ** Control *)

Lemma tree_length w e p T : Inv w -> eps w !! e = Some p -> EpTree.treeOf (fdIn (items w)) (mkStore (rbns w) (rbr p)) T ->
  Z.of_nat (length (inorder T)) <= maxEpollItemNum w.
Proof. intros HI Ep HT. apply (tree_fits w e (fresh (dom (items w))) p T HI Ep HT). apply not_elem_of_dom, is_fresh. Qed.

Lemma find_cases w e p fd : Inv w -> eps w !! e = Some p ->
  (exists a, inTree w e a /\ fdIn (items w) a = Some fd /\
     EpTree.EpFind (fdOf w) (maxEpollItemNum w) fd (mkStore (rbns w) (rbr p)) = Some (Some a)) \/
  ((forall b, inTree w e b -> fdIn (items w) b <> Some fd) /\
     EpTree.EpFind (fdOf w) (maxEpollItemNum w) fd (mkStore (rbns w) (rbr p)) = Some None).
Proof.
  intros HI Ep. destruct (inv_trees _ HI e p Ep) as (T & HT & HO).
  destruct (EpTree.EpFind_ok (fdIn (items w)) (mkStore (rbns w) (rbr p)) T fd (maxEpollItemNum w) HT (tree_length _ _ _ _ HI Ep HT))
    as [(a & Ha & Ea & E)|(Hno & E)].
  - left. exists a. split; [now exists p, T|]. done.
  - right. split; [|exact E]. intros b (p' & T' & Ep' & HT' & Hb). assert (p' = p) as -> by congruence.
    rewrite (EpTree.treeOf_unique _ _ _ _ HT' HT) in Hb. auto.
Qed.

(** Items and trees are as before. *)
Record settled (w w' : World) : Prop := { settled_steady : steady w w'; settled_core : core <$> items w' = core <$> items w }.

#[export] Instance settled_preorder : PreOrder settled.
Proof. split; [now intros w|]. intros w1 w2 w3 [] []. split; [etrans; eassumption|congruence]. Qed.

Lemma settled_inTree w w' e a : settled w w' -> inTree w' e a <-> inTree w e a.
Proof. intros [H _]. split; [apply steady_inTree, steady_sym, H|apply steady_inTree, H]. Qed.

Lemma itemIn_settled w e ev fd w1 w2 : itemIn w e ev fd w1 -> settled w1 w2 -> itemIn w e ev fd w2.
Proof.
  intros [(a & Ha & Hc & Ht)] HS. constructor. exists a. split; [done|]. split; [rewrite (settled_core _ _ HS); exact Hc|].
  intros e' b. rewrite (settled_inTree _ _ _ _ HS). apply Ht.
Qed.

Lemma addEpollWaiting_safe w s d x : Inv w -> socks w !! s = Some x ->
  safe (addEpollWaiting s d) w (fun _ w' => settled w w' /\ exists x', socks w' = <[s := x']> (socks w) /\ sockKey x' = sockKey x /\
    associatedEpollInstanceArr x' = associatedEpollInstanceArr x /\ associatedEpollInstanceIdx x' = associatedEpollInstanceIdx x).
Proof.
  intros HI Ex. destruct (inv_socks _ HI s x Ex) as [Hok _]. unfold addEpollWaiting. apply (safe_bind_read _ _ _ x); [exact Ex|].
  match goal with |- safe (putSock s ?x1) _ _ => set (x' := x1) end.
  destruct (putSock_safe w s x x' HI Ex eq_refl Hok) as ([] & w' & E & HI' & HK' & HS & Ei & _).
  exists tt, w'. split; [exact E|]. split; [done|]. split; [done|]. split; [split; [done|now rewrite Ei]|].
  exists x'. split; [|done]. unfold putSock, write in E. rewrite Ex in E. now injection E as <-.
Qed.

Lemma shiftInst_length n : forall j arr, length (shiftInst n j arr) = length arr.
Proof.
  induction n as [|n IH]; intros j arr; cbn [shiftInst]; [done|]. destruct (j >=? _); [done|]. destruct (j =? _).
  - apply length_insert.
  - rewrite IH. apply length_insert.
Qed.

Lemma SpungeDelEpInst_safe w s epFd : Inv w -> (s < length (socks w))%nat ->
  safe (SpungeDelEpInstFromFtSocket s epFd) w (fun _ w' => settled w w').
Proof.
  intros HI [x Ex]%lookup_lt_is_Some. destruct (inv_socks _ HI s x Ex) as [[Hl Hidx] _]. unfold SpungeDelEpInstFromFtSocket.
  apply (safe_bind_read _ _ _ x); [exact Ex|]. eapply safe_mono.
  - apply (putSock_safe w s x); [done|exact Ex|done|]. split; cbn.
    + now rewrite shiftInst_length.
    + destruct (Z.gtb_spec (associatedEpollInstanceIdx x) 0); lia.
  - intros _ w' (HS & Ei & _). split; [done|now rewrite Ei].
Qed.

Section Handlers.

Context (ok : Site -> bool) (epFd : Z) (es e s : nat) (y : FtSocket).

Lemma HandleAdd_safe pool w x ev epi : Inv w -> socks w !! es = Some y -> eventEpoll y = Some e -> socks w !! s = Some x ->
  poolOk w pool -> (epi = None -> forall b, inTree w e b -> fdIn (items w) b <> Some (Z.of_nat s)) ->
  safe (SpungeEpollCtlHandleAddEvent ok pool es s epFd epi ev) w (fun r w' =>
    (r = ERR_OK -> epi = None /\ itemIn w e (withErr ev) (Z.of_nat s) w') /\
    (epi <> None -> r = -1 /\ settled w w' /\ errno w' = FILLP_EEXIST) /\
    (epi = None -> willing ok w (Z.of_nat s) -> pool <> None -> associatedEpollInstanceIdx x < 10 -> r = ERR_OK)).
Proof.
  intros HI Ey Ee Ex Hpool Hno. destruct (inv_socks _ HI s x Ex) as [[Hl Hidx] _]. destruct (inv_socks _ HI es y Ey) as [_ Hep].
  apply safeH_safe. unfold SpungeEpollCtlHandleAddEvent. destruct epi as [a|].
  { apply safeH_errno; [done|]. intros HI1. apply (safeH_ret (-1) (setErrno FILLP_EEXIST w)); [done|]. split; [discriminate|].
    split; [|done]. intros _. split; [done|]. split; [now split|done]. }
  apply (safeH_read _ _ _ x); [exact Ex|]. unfold FILLP_NUM_OF_EPOLL_INSTANCE_SUPPORTED. rewrite Z.geb_leb.
  destruct (Z.leb_spec 10 (associatedEpollInstanceIdx x)) as [Hfull|Hfree].
  { apply safeH_errno; [done|]. intros HI1. apply (safeH_ret (-1) (setErrno FILLP_ENOMEM w)); [done|]. split; [discriminate|].
    split; [done|]. intros _ _ _ ?. lia. }
  apply (safeH_read _ _ _ y); [exact Ey|]. apply (safeH_read _ _ _ e); [exact Ee|].
  eapply safeH_bind; [apply (EpInsert_safe ok pool w e (withErr ev) (Z.of_nat s) HI (Hep e Ee) Hpool (Hno eq_refl))|].
  intros r w1 HI1 HK1 (Es1 & Hin1 & Hok1). rewrite <- (keeps_held _ _ HK1).
  assert (Hlt : (s < length (socks w))%nat) by (apply lookup_lt_is_Some; eauto).
  destruct (Z.eqb_spec r ERR_OK) as [->|Hne]; cbn [negb].
  2: { apply safeH_ret; [done|]. split; [discriminate|]. split; [done|]. intros _ Hw Hp _. exfalso. apply Hne, Hok1; [done|lia|done]. }
  rewrite <- Es1 in Ex.
  eapply safeH_bind; [apply (addEpollWaiting_safe w1 s 1 x HI1 Ex)|].
  intros _ w2 HI2 HK2 (HS2 & x2 & Ex2 & _ & Earr & Eidx). rewrite <- (keeps_held _ _ HK2).
  assert (Hx2 : socks w2 !! s = Some x2).
  { rewrite Ex2. apply list_lookup_insert_eq. rewrite Es1. exact Hlt. }
  apply safeH_wait_ok; [done| |].
  - intros _ HI3. cbn [negb]. apply (safeH_read _ _ _ x2); [exact Hx2|]. rewrite Eidx, Earr.
    destruct (lookup_lt_is_Some_2 (associatedEpollInstanceArr x) (Z.to_nat (associatedEpollInstanceIdx x))) as [v Ev]; [lia|].
    apply (safeH_read _ _ _ v); [exact Ev|].
    eapply safeH_bind.
    + apply (putSock_safe (setHeld (EpollTaskListLock s :: held w2) w2) s x2); [done|exact Hx2|done|]. split; cbn.
      * now rewrite length_insert.
      * rewrite u32_small by (unfold in_u32; lia). lia.
    + intros _ w4 HI4 HK4 (HS4 & Ei4 & _). apply safeH_post; [done|]. intros HI5.
      rewrite (keeps_held _ _ HK4). cbn [held setHeld]. rewrite removeLock_cons.
      apply (safeH_ret ERR_OK (setHeld (held w2) w4)); [now apply Inv_held|]. split; [|split; done].
      intros _. split; [done|]. apply (itemIn_settled _ _ _ _ w1); [auto|]. etrans; [exact HS2|].
      destruct HS4. split; [constructor; assumption|]. cbn. now rewrite Ei4.
  - intros Hok. cbn [negb]. apply safeH_errno; [done|]. intros HI3. apply (safeH_ret (-1) (setErrno FILLP_EBUSY w2)); [done|].
    split; [discriminate|]. split; [done|]. intros _ ((Hall & _) & _) _ _. rewrite Hall in Hok. discriminate.
Qed.

(** The item [a] is gone. *)
Record itemGone (w : World) (a : nat) (w' : World) : Prop := {
  gone_freed : items w' !! a = None;
  gone_core : forall b, b <> a -> core <$> items w' !! b = core <$> items w !! b;
  gone_trees : forall e' b, inTree w' e' b <-> inTree w e' b /\ b <> a
}.

Lemma itemGone_settled w a w1 w2 : itemGone w a w1 -> settled w1 w2 -> itemGone w a w2.
Proof.
  intros [H1 H2 H3] HS. pose proof (settled_core _ _ HS) as Hc.
  assert (Hb : forall b, core <$> items w2 !! b = core <$> items w1 !! b) by (intros b; rewrite <- !lookup_fmap; now rewrite Hc).
  constructor.
  - specialize (Hb a). rewrite H1 in Hb. now destruct (items w2 !! a).
  - intros b Hne. rewrite Hb. auto.
  - intros e' b. rewrite (settled_inTree _ _ _ _ HS). apply H3.
Qed.

Lemma HandleDel_safe w epi : Inv w -> socks w !! es = Some y -> eventEpoll y = Some e -> (s < length (socks w))%nat ->
  (forall a, epi = Some a -> inTree w e a /\ fdIn (items w) a = Some (Z.of_nat s)) ->
  safe (SpungeEpollCtlHandleDelEvent ok es s epFd epi) w (fun r w' =>
    (r = ERR_OK -> exists a, epi = Some a /\ itemGone w a w') /\
    (epi = None -> r = -1 /\ settled w w' /\ errno w' = FILLP_ENOENT) /\
    (epi <> None -> willing ok w (Z.of_nat s) -> r = ERR_OK)).
Proof.
  intros HI Ey Ee Hs Hepi. apply safeH_safe. unfold SpungeEpollCtlHandleDelEvent. destruct epi as [a|].
  2: { apply safeH_errno; [done|]. intros HI1. apply (safeH_ret (-1) (setErrno FILLP_ENOENT w)); [done|]. split; [discriminate|].
       split; [|done]. intros _. split; [done|]. split; [now split|done]. }
  destruct (Hepi a eq_refl) as [Hin Hfd]. apply (safeH_read _ _ _ y); [exact Ey|]. rewrite Ee.
  eapply safeH_bind; [apply (EpRemove_safe ok w e a HI Hin)|].
  intros r w1 HI1 HK1 [Ho1 Ho2 Ho3 Ho4]. rewrite <- (keeps_held _ _ HK1).
  destruct (Z.eqb_spec r ERR_OK) as [->|Hne]; cbn [negb].
  2: { apply safeH_ret; [done|]. split; [discriminate|]. split; [done|]. intros _ Hw. exfalso. exact (Hne (Ho3 _ Hfd Hw)). }
  assert (Hgone : itemGone w a w1) by (constructor; auto).
  pose proof Hs as Hs1. rewrite <- (keeps_length _ _ HK1) in Hs1. pose proof Hs1 as [x Ex]%lookup_lt_is_Some.
  eapply safeH_bind; [apply (addEpollWaiting_safe w1 s (-1) x HI1 Ex)|].
  intros _ w2 HI2 HK2 (HS2 & _). rewrite <- (keeps_held _ _ HK2).
  apply safeH_wait_ok; [done| |].
  - intros _ HI3. cbn [negb]. eapply safeH_bind.
    + apply (SpungeDelEpInst_safe (setHeld (EpollTaskListLock s :: held w2) w2) s epFd HI3).
      cbn. now rewrite (keeps_length _ _ HK2).
    + intros u w4 HI4 HK4 HS4. cbn beta in HS4. clear u. apply safeH_post; [done|]. intros HI5.
      rewrite (keeps_held _ _ HK4). cbn [held setHeld]. rewrite removeLock_cons.
      apply (safeH_ret ERR_OK (setHeld (held w2) w4)); [now apply Inv_held|]. split; [|split; done].
      intros _. exists a. split; [done|]. apply (itemGone_settled _ _ w1); [done|]. etrans; [exact HS2|].
      destruct HS4 as [[] ?]. split; [constructor; assumption|assumption].
  - intros Hok. cbn [negb]. apply safeH_errno; [done|]. intros HI3. apply (safeH_ret (-1) (setErrno FILLP_EBUSY w2)); [done|].
    split; [discriminate|]. split; [done|]. intros _ ((Hall & _) & _). rewrite Hall in Hok. discriminate.
Qed.

(** The events of the item [a] are [ev] now. *)
Record itemMod (w : World) (e0 a : nat) (ev : SpungeEpollEvent) (fd : Z) (w' : World) : Prop := {
  mod_core : core <$> items w' = <[a := (Some e0, ev, fd)]> (core <$> items w);
  mod_steady : steady w w'
}.

Lemma HandleMod_safe w epi ev : Inv w -> socks w !! es = Some y -> eventEpoll y = Some e -> (s < length (socks w))%nat ->
  (forall a, epi = Some a -> inTree w e a /\ fdIn (items w) a = Some (Z.of_nat s)) ->
  safe (SpungeEpollCtlHandleModEvent ok es s epi ev) w (fun r w' =>
    (r = ERR_OK -> exists a, epi = Some a /\ itemMod w e a (withErr ev) (Z.of_nat s) w') /\
    (epi = None -> r = -1 /\ settled w w' /\ errno w' = FILLP_ENOENT) /\
    (epi <> None -> willing ok w (Z.of_nat s) -> r = ERR_OK)).
Proof.
  intros HI Ey Ee Hs Hepi. apply safeH_safe. unfold SpungeEpollCtlHandleModEvent. destruct epi as [a|].
  2: { apply safeH_errno; [done|]. intros HI1. apply (safeH_ret (-1) (setErrno FILLP_ENOENT w)); [done|]. split; [discriminate|].
       split; [|done]. intros _. split; [done|]. split; [now split|done]. }
  destruct (Hepi a eq_refl) as [Hin Hfd]. apply (safeH_read _ _ _ y); [exact Ey|]. apply (safeH_read _ _ _ e); [exact Ee|].
  eapply safeH_bind; [apply (EpModify_safe ok w e s a (withErr ev) HI (inTree_owned _ _ _ HI Hin) Hs)|].
  intros r w1 HI1 HK1 (HS1 & Hok1 & Hc1). rewrite <- (keeps_held _ _ HK1).
  destruct (Z.eqb_spec r ERR_OK) as [->|Hne]; cbn [negb]; (apply safeH_ret; [done|]).
  - split; [|split; done]. intros _. exists a. split; [done|]. destruct (Hc1 eq_refl) as (fd & Hc & Hf).
    assert (fd = Z.of_nat s) as -> by congruence. now constructor.
  - split; [discriminate|]. split; [done|]. intros _ ((Hall & _) & _). exfalso. apply Hne, Hok1, Hall.
Qed.

End Handlers.

(** ** [SpungeEpollCtl] *)

Lemma wp_get {X Y} (m : M X) (k : X -> M Y) w x (Q : Y -> World -> Prop) : m w = Some (x, w) -> wp (k x) w Q -> wp (mbind k m) w Q.
Proof. intros E H. apply wp_bind. now exists x, w. Qed.
Lemma wp_bread {X Y} (f : World -> option X) (k : X -> M Y) w x (Q : Y -> World -> Prop) :
  f w = Some x -> wp (k x) w Q -> wp (mbind k (read f)) w Q.
Proof. intros E H. apply wp_bind, (wp_read _ _ x); [exact E|exact H]. Qed.
Lemma wp_wait {Y} ok at_ l (k : bool -> M Y) w (Q : Y -> World -> Prop) :
  (ok at_ = true -> wp (k true) (setHeld (l :: held w) w) Q) -> (ok at_ = false -> wp (k false) w Q) ->
  wp (mbind k (semWait ok at_ l)) w Q.
Proof.
  intros Ht Hf. apply wp_bind. unfold semWait. destruct (ok at_); [|apply wp_ret; now apply Hf].
  apply wp_bind. eapply wp_write; [reflexivity|]. apply wp_ret. auto.
Qed.
Lemma wp_post {Y} l (k : unit -> M Y) w (Q : Y -> World -> Prop) :
  wp (k tt) (setHeld (removeLock l (held w)) w) Q -> wp (mbind k (semPost l)) w Q.
Proof. intros H. apply wp_bind. eapply wp_write; [reflexivity|]. exact H. Qed.
Lemma wp_errno {Y} e (k : unit -> M Y) w (Q : Y -> World -> Prop) : wp (k tt) (setErrno e w) Q -> wp (mbind k (SET_ERRNO e)) w Q.
Proof. intros H. apply wp_bind. eapply wp_write; [reflexivity|]. exact H. Qed.

(** Only the error code and the locks may differ. *)
Definition like (w w' : World) : Prop := exists en, w' = setErrno en (setHeld (held w') w).

Lemma like_refl w : like w w.
Proof. exists (errno w). now destruct w. Qed.
Lemma like_held w h : like w (setHeld h w).
Proof. exists (errno w). now destruct w. Qed.
Lemma like_errno w en : like w (setErrno en w).
Proof. exists en. now destruct w. Qed.
Lemma like_trans w1 w2 w3 : like w1 w2 -> like w2 w3 -> like w1 w3.
Proof. intros [e1 E1] [e2 E2]. exists e2. rewrite E1 in E2. exact E2. Qed.

Lemma like_Inv w w' : like w w' -> Inv w -> Inv w'.
Proof. intros [en ->] H. destruct H; constructor; assumption. Qed.
Lemma like_settled w w' : like w w' -> settled w w'.
Proof. intros [en ->]. now split. Qed.
Lemma like_keeps w w' : like w w' -> held w' = held w -> keeps w w'.
Proof. intros [en ->] Hh. cbn in Hh. rewrite Hh. now constructor. Qed.
Lemma like_socks w w' : like w w' -> socks w' = socks w.
Proof. now intros [en ->]. Qed.

#[local] Ltac like := repeat first [exact (like_refl _) | assumption | eapply like_trans; [|first [apply like_held|apply like_errno]]].

(** The epoll socket is found and locked, or nothing happens. *)
Lemma GetEpollSocket_wp ok w epFd : wp (SpungeGetEpollSocketByFd ok epFd) w (fun r w' => like w w' /\
  match r with
  | None => held w' = held w /\ ~ (openFor ok w /\ exists es y e, epFd = Z.of_nat es /\ socks w !! es = Some y /\
      allocState y = SOCK_ALLOC_STATE_EPOLL /\ eventEpoll y = Some e)
  | Some es => held w' = SockConnSem es :: held w /\ exists y e, epFd = Z.of_nat es /\ socks w !! es = Some y /\
      allocState y = SOCK_ALLOC_STATE_EPOLL /\ eventEpoll y = Some e
  end).
Proof.
  unfold SpungeGetEpollSocketByFd. destruct (SockGetSocket_cases w epFd) as [E|(s & E & -> & Hs)]; apply (wp_get _ _ _ _ _ E).
  { apply wp_errno, wp_ret. split; [like|]. split; [done|]. intros ((_ & Hi) & es & y & e & -> & Ey & _).
    rewrite SockGetSocket_ok in E; [discriminate|done|]. apply lookup_lt_is_Some. eauto. }
  pose proof Hs as [x Ex]%lookup_lt_is_Some. apply wp_wait.
  2: { intros Hok. cbn [negb]. apply wp_errno, wp_ret. split; [like|]. split; [done|]. intros ((Hall & _) & _).
       rewrite Hall in Hok. discriminate. }
  intros _. cbn [negb]. apply (wp_bread _ _ _ x); [exact Ex|]. destruct (Z.eqb_spec (allocState x) SOCK_ALLOC_STATE_EPOLL) as [Hst|Hst]; cbn [negb].
  2: { apply wp_post, wp_errno, wp_ret. split; [like|]. cbn [held setHeld setErrno]. rewrite removeLock_cons. split; [done|].
       intros (_ & es & y & e & Hes & Ey & Hy & _). assert (es = s) as -> by lia. congruence. }
  destruct (eventEpoll x) as [e|] eqn:Ee.
  - apply wp_ret. split; [like|]. split; [done|]. now exists x, e.
  - apply wp_post, wp_errno, wp_ret. split; [like|]. cbn [held setHeld setErrno]. rewrite removeLock_cons. split; [done|].
    intros (_ & es & y & e & Hes & Ey & _ & Hy). assert (es = s) as -> by lia. congruence.
Qed.

Lemma CheckSockValid_wp ok w es s y e h : socks w !! es = Some y -> eventEpoll y = Some e -> (s < length (socks w))%nat ->
  held w = SockConnSem es :: h ->
  wp (SpungeEpollCtlCheckSockValid ok es s) w (fun r w' => like w w' /\
    (r = ERR_OK /\ held w' = AppSem e :: SockConnSem s :: SockConnSem es :: h \/
     r = -1 /\ held w' = h /\ ~ (openFor ok w /\ exists x, socks w !! s = Some x /\ allocState x = SOCK_ALLOC_STATE_COMM))).
Proof.
  intros Ey Ee [x Ex]%lookup_lt_is_Some Hh. unfold SpungeEpollCtlCheckSockValid. apply wp_wait.
  2: { intros Hok. cbn [negb]. apply wp_post, wp_errno, wp_ret. split; [like|]. right. cbn [held setHeld setErrno]. rewrite Hh, removeLock_cons.
       split; [done|]. split; [done|]. intros ((Hall & _) & _). rewrite Hall in Hok. discriminate. }
  intros _. cbn [negb]. apply (wp_bread _ _ _ x); [exact Ex|].
  destruct (negb _ && negb _) eqn:Est.
  - apply wp_post, wp_post, wp_errno, wp_ret. split; [like|]. right. cbn [held setHeld setErrno]. rewrite removeLock_cons, Hh, removeLock_cons.
    split; [done|]. split; [done|]. intros (_ & x' & Ex' & Hx'). assert (x' = x) as -> by congruence. rewrite Hx' in Est. discriminate.
  - apply (wp_bread _ _ _ y); [exact Ey|]. apply (wp_bread _ _ _ e); [exact Ee|]. apply wp_wait.
    + intros _. cbn [negb]. apply wp_ret. split; [like|]. left. cbn [held setHeld]. now rewrite Hh.
    + intros Hok. cbn [negb]. apply wp_post, wp_post, wp_errno, wp_ret. split; [like|]. right. cbn [held setHeld setErrno].
      rewrite removeLock_cons, Hh, removeLock_cons. split; [done|]. split; [done|]. intros ((Hall & _) & _). rewrite Hall in Hok. discriminate.
Qed.

(** What the three operations do, for the item [epi] that was found. *)
Record ctlPost (ok : Site -> bool) (pool : option (nat * (RbNode * SpungeEpollEvent))) (w : World) (e s : nat) (x : FtSocket)
    (epi : option nat) (op : Z) (ev : option SpungeEpollEvent) (r : Z) (w' : World) : Prop := {
  ctl_add : op = SPUNGE_EPOLL_CTL_ADD -> forall evt, ev = Some evt ->
    (r = ERR_OK -> epi = None /\ itemIn w e (withErr evt) (Z.of_nat s) w') /\
    (epi <> None -> r = -1 /\ settled w w' /\ errno w' = FILLP_EEXIST) /\
    (epi = None -> willing ok w (Z.of_nat s) -> pool <> None -> associatedEpollInstanceIdx x < 10 -> r = ERR_OK);
  ctl_del : op = SPUNGE_EPOLL_CTL_DEL ->
    (r = ERR_OK -> exists a, epi = Some a /\ itemGone w a w') /\
    (epi = None -> r = -1 /\ settled w w' /\ errno w' = FILLP_ENOENT) /\
    (epi <> None -> willing ok w (Z.of_nat s) -> r = ERR_OK);
  ctl_mod : op = SPUNGE_EPOLL_CTL_MOD -> forall evt, ev = Some evt ->
    (r = ERR_OK -> exists a, epi = Some a /\ itemMod w e a (withErr evt) (Z.of_nat s) w') /\
    (epi = None -> r = -1 /\ settled w w' /\ errno w' = FILLP_ENOENT) /\
    (epi <> None -> willing ok w (Z.of_nat s) -> r = ERR_OK)
}.

Lemma itemIn_like w w' e ev fd w1 : like w w' -> itemIn w' e ev fd w1 -> itemIn w e ev fd w1.
Proof. intros [en ->] [H]. now constructor. Qed.
Lemma itemGone_like w w' a w1 : like w w' -> itemGone w' a w1 -> itemGone w a w1.
Proof. intros [en ->] [H1 H2 H3]. now constructor. Qed.
Lemma itemMod_like w w' e a ev fd w1 : like w w' -> itemMod w' e a ev fd w1 -> itemMod w e a ev fd w1.
Proof. intros [en ->] [H1 []]. now constructor. Qed.
Lemma itemMod_settled w e a ev fd w1 w2 : itemMod w e a ev fd w1 -> settled w1 w2 -> itemMod w e a ev fd w2.
Proof. intros [H1 H2] [H3 H4]. constructor; [congruence|etrans; eassumption]. Qed.
Lemma willing_like ok w w' fd : like w w' -> willing ok w fd -> willing ok w' fd.
Proof. intros [en ->] H. exact H. Qed.

Lemma ctlPost_like ok pool w e s x epi op ev r w1 w2 w3 : like w w1 -> like w2 w3 -> errno w3 = errno w2 ->
  ctlPost ok pool w1 e s x epi op ev r w2 -> ctlPost ok pool w e s x epi op ev r w3.
Proof.
  intros L1 L2 Hen [HA HD HM]. pose proof (like_settled _ _ L2) as S2. pose proof (like_settled _ _ L1) as S1.
  assert (Hset : settled w1 w2 -> settled w w3) by (intros Hx; etrans; [exact S1|]; etrans; [exact Hx|exact S2]). constructor.
  - intros Hop evt Hev. destruct (HA Hop evt Hev) as (H1 & H2 & H3). split; [|split].
    + intros Hr. destruct (H1 Hr) as [? Hi]. split; [done|]. exact (itemIn_settled _ _ _ _ _ _ (itemIn_like _ _ _ _ _ _ L1 Hi) S2).
    + intros Hne. destruct (H2 Hne) as (? & ? & ?). rewrite Hen. auto.
    + intros He Hw. apply H3; [done|]. exact (willing_like _ _ _ _ L1 Hw).
  - intros Hop. destruct (HD Hop) as (H1 & H2 & H3). split; [|split].
    + intros Hr. destruct (H1 Hr) as (a & ? & Hi). exists a. split; [done|]. exact (itemGone_settled _ _ _ _ (itemGone_like _ _ _ _ L1 Hi) S2).
    + intros He. destruct (H2 He) as (? & ? & ?). rewrite Hen. auto.
    + intros He Hw. apply H3; [done|]. exact (willing_like _ _ _ _ L1 Hw).
  - intros Hop evt Hev. destruct (HM Hop evt Hev) as (H1 & H2 & H3). split; [|split].
    + intros Hr. destruct (H1 Hr) as (a & ? & Hi). exists a. split; [done|]. exact (itemMod_settled _ _ _ _ _ _ _ (itemMod_like _ _ _ _ _ _ _ L1 Hi) S2).
    + intros He. destruct (H2 He) as (? & ? & ?). rewrite Hen. auto.
    + intros He Hw. apply H3; [done|]. exact (willing_like _ _ _ _ L1 Hw).
Qed.

(** The operation itself, both sockets locked. *)
Definition dispatch (ok : Site -> bool) (pool : option (nat * (RbNode * SpungeEpollEvent))) (es s : nat) (epFd : Z) (epi : option nat)
    (op : Z) (ev : option SpungeEpollEvent) : M Z :=
  if op =? SPUNGE_EPOLL_CTL_ADD then evt ← read (fun _ => ev); SpungeEpollCtlHandleAddEvent ok pool es s epFd epi evt
  else if op =? SPUNGE_EPOLL_CTL_DEL then SpungeEpollCtlHandleDelEvent ok es s epFd epi
  else if op =? SPUNGE_EPOLL_CTL_MOD then evt ← read (fun _ => ev); SpungeEpollCtlHandleModEvent ok es s epi evt
  else SET_ERRNO FILLP_EINVAL;; mret (-1).

Lemma dispatch_safe ok pool w es s epFd epi op ev y e x : Inv w -> poolOk w pool -> socks w !! es = Some y -> eventEpoll y = Some e ->
  socks w !! s = Some x -> (op = SPUNGE_EPOLL_CTL_ADD \/ op = SPUNGE_EPOLL_CTL_MOD -> ev <> None) ->
  (epi = None -> forall b, inTree w e b -> fdIn (items w) b <> Some (Z.of_nat s)) ->
  (forall a, epi = Some a -> inTree w e a /\ fdIn (items w) a = Some (Z.of_nat s)) ->
  safe (dispatch ok pool es s epFd epi op ev) w (ctlPost ok pool w e s x epi op ev).
Proof.
  intros HI Hpool Ey Ee Ex Hev Hnone Hsome. assert (Hs : (s < length (socks w))%nat) by (apply lookup_lt_is_Some; eauto).
  unfold dispatch. destruct (Z.eqb_spec op SPUNGE_EPOLL_CTL_ADD) as [->|Hna].
  { destruct ev as [evt|]; [|exfalso; apply Hev; auto]. apply (safe_bind_read _ _ _ evt); [done|].
    apply (safe_mono _ _ _ _ (HandleAdd_safe ok epFd es e s y pool w x evt epi HI Ey Ee Ex Hpool Hnone)). intros r w' HQ.
    constructor; try discriminate. intros _ evt' [= <-]. exact HQ. }
  destruct (Z.eqb_spec op SPUNGE_EPOLL_CTL_DEL) as [->|Hnd].
  { apply (safe_mono _ _ _ _ (HandleDel_safe ok epFd es e s y w epi HI Ey Ee Hs Hsome)). intros r w' HQ.
    constructor; try discriminate. intros _. exact HQ. }
  destruct (Z.eqb_spec op SPUNGE_EPOLL_CTL_MOD) as [->|Hnm].
  { destruct ev as [evt|]; [|exfalso; apply Hev; auto]. apply (safe_bind_read _ _ _ evt); [done|].
    apply (safe_mono _ _ _ _ (HandleMod_safe ok es e s y w epi evt HI Ey Ee Hs Hsome)). intros r w' HQ.
    constructor; try discriminate. intros _ evt' [= <-]. exact HQ. }
  apply safeH_safe, safeH_errno; [done|]. intros HI1. apply (safeH_ret (-1) (setErrno FILLP_EINVAL w)); [done|].
  constructor; done.
Qed.

(** The calls that reach the operation. *)
Record ctlReady (ok : Site -> bool) (w : World) (epFd fd : Z) (es s e : nat) (x : FtSocket) : Prop := {
  ready_open : openFor ok w;
  ready_ep : exists y, epFd = Z.of_nat es /\ socks w !! es = Some y /\ allocState y = SOCK_ALLOC_STATE_EPOLL /\ eventEpoll y = Some e;
  ready_sock : fd = Z.of_nat s /\ socks w !! s = Some x /\ allocState x = SOCK_ALLOC_STATE_COMM
}.

(** The item of a descriptor. *)
Definition found (w : World) (e : nat) (fd : Z) (epi : option nat) : Prop :=
  match epi with
  | Some a => inTree w e a /\ fdIn (items w) a = Some fd
  | None => forall b, inTree w e b -> fdIn (items w) b <> Some fd
  end.

Lemma like_pool w w' pool : like w w' -> poolOk w pool -> poolOk w' pool.
Proof. intros [en ->] H. exact H. Qed.
Lemma like_open ok w w' : like w w' -> openFor ok w -> openFor ok w'.
Proof. intros [en ->] H. exact H. Qed.
Lemma like_found w w' e fd epi : like w w' -> found w' e fd epi -> found w e fd epi.
Proof. intros [en ->] H. exact H. Qed.
Lemma like_keepsH w w' : like w w' -> keeps (setHeld (held w') w) w'.
Proof. intros [en E]. rewrite E. now constructor. Qed.

Lemma SpungeEpollCtl_safe ok pool w epFd op fd ev : Inv w -> poolOk w pool ->
  safe (SpungeEpollCtl ok pool epFd op fd ev) w (fun r w' =>
    forall es s e x, ctlReady ok w epFd fd es s e x -> (op = SPUNGE_EPOLL_CTL_ADD \/ op = SPUNGE_EPOLL_CTL_MOD -> ev <> None) ->
      exists epi, found w e fd epi /\ ctlPost ok pool w e s x epi op ev r w').
Proof.
  intros HI Hpool. unfold SpungeEpollCtl.
  assert (Hchk : wp (SpungeEpollCtlParaChk op ev) w (fun c w' => like w w' /\ held w' = held w /\
    (c = 0 /\ w' = w /\ (op = SPUNGE_EPOLL_CTL_ADD \/ op = SPUNGE_EPOLL_CTL_MOD -> ev <> None) \/
     c = -1 /\ ~ (op = SPUNGE_EPOLL_CTL_ADD \/ op = SPUNGE_EPOLL_CTL_MOD -> ev <> None)))).
  { unfold SpungeEpollCtlParaChk. destruct ev as [evt|]; [apply wp_ret; split; [like|]; auto|].
    destruct (Z.eqb_spec op SPUNGE_EPOLL_CTL_ADD); cbn [orb]; [apply wp_errno, wp_ret; split; [like|]; split; [done|]; right; split; [done|]; tauto|].
    destruct (Z.eqb_spec op SPUNGE_EPOLL_CTL_MOD); [apply wp_errno, wp_ret; split; [like|]; split; [done|]; right; split; [done|]; tauto|].
    apply wp_ret. split; [like|]. split; [done|]. left. split; [done|]. split; [done|]. tauto. }
  apply wp_bind. apply (wp_mono _ _ _ _ Hchk). clear Hchk. intros c w0 (L0 & H0 & [(-> & -> & Hev)|(-> & Hev)]).
  2: { cbn. apply wp_ret. split; [now apply (like_Inv w)|]. split; [now apply like_keeps|]. tauto. }
  cbn [negb Z.eqb]. apply wp_bind. apply (wp_mono _ _ _ _ (GetEpollSocket_wp ok w epFd)). clear L0 H0.
  intros [es|] w1 (L1 & H1).
  2: { apply wp_ret. destruct H1 as [H1 Hno]. split; [now apply (like_Inv w)|]. split; [now apply like_keeps|].
       intros es s e x [Ho (y & Hy) _] _. exfalso. apply Hno. split; [done|]. now exists es, y, e. }
  destruct H1 as (H1 & y & e & -> & Ey & Hy & Ee).
  destruct (SockGetSocket_cases w1 fd) as [E|(s & E & -> & Hs)]; apply (wp_get _ _ _ _ _ E).
  { apply wp_post, wp_errno, wp_ret. rewrite H1, removeLock_cons.
    assert (L2 : like w (setErrno FILLP_EBADF (setHeld (held w) w1))) by (eapply like_trans; [exact L1|]; like).
    split; [now apply (like_Inv w)|]. split; [now apply like_keeps|].
    intros es' s e' x [[Hall Hi] _ (-> & Ex & _)] _. exfalso. rewrite SockGetSocket_ok in E; [discriminate| |].
    - exact (proj2 (like_open ok _ _ L1 (conj Hall Hi))).
    - rewrite (like_socks _ _ L1). apply lookup_lt_is_Some. eauto. }
  rewrite (like_socks _ _ L1) in Hs. pose proof Hs as [x Ex]%lookup_lt_is_Some.
  apply wp_bind. assert (Ey1 : socks w1 !! es = Some y) by now rewrite (like_socks _ _ L1).
  apply (wp_mono _ _ _ _ (CheckSockValid_wp ok w1 es s y e (held w) Ey1 Ee ltac:(now rewrite (like_socks _ _ L1)) H1)).
  intros r2 w2 (L2 & [(-> & H2)|(-> & H2 & Hno)]); assert (L12 : like w w2) by (eapply like_trans; eassumption).
  2: { cbn. apply wp_ret. split; [now apply (like_Inv w)|]. split; [now apply like_keeps|].
       intros es' s' e' x' [Ho _ (Hs' & Ex' & Hx')] _. exfalso. apply Hno. split; [exact (like_open _ _ _ L1 Ho)|].
       exists x'. rewrite (like_socks _ _ L1). assert (s' = s) as -> by lia. done. }
  cbn [negb Z.eqb ERR_OK]. pose proof (like_Inv _ _ L12 HI) as HI2.
  assert (Ey2 : socks w2 !! es = Some y) by now rewrite (like_socks _ _ L12).
  assert (Ex2 : socks w2 !! s = Some x) by now rewrite (like_socks _ _ L12).
  apply (wp_bread _ _ _ y); [exact Ey2|]. apply (wp_bread _ _ _ e); [exact Ee|].
  destruct (proj2 (inv_socks _ HI2 es y Ey2) e Ee) as [p Ep]. apply (wp_bread _ _ _ p); [exact Ep|].
  assert (exists epi, found w2 e (Z.of_nat s) epi /\ EpTree.EpFind (fdOf w2) (maxEpollItemNum w2) (Z.of_nat s) (mkStore (rbns w2) (rbr p)) = Some epi)
    as (epi & Hf & Efind).
  { destruct (find_cases w2 e p (Z.of_nat s) HI2 Ep) as [(a & ? & ? & E')|(Hno & E')]; [exists (Some a)|exists None]; split; done. }
  apply (wp_bread _ _ _ epi); [exact Efind|].
  change (wp (error ← dispatch ok pool es s (Z.of_nat es) epi op ev; semPost (AppSem e);; semPost (SockConnSem s);; semPost (SockConnSem es);; mret error) w2
    (fun r w' => Inv w' /\ keeps w w' /\ forall es' s' e' x', ctlReady ok w (Z.of_nat es) (Z.of_nat s) es' s' e' x' ->
      (op = SPUNGE_EPOLL_CTL_ADD \/ op = SPUNGE_EPOLL_CTL_MOD -> ev <> None) ->
      exists epi0, found w e' (Z.of_nat s) epi0 /\ ctlPost ok pool w e' s' x' epi0 op ev r w')).
  apply wp_bind.
  assert (Hp2 : poolOk w2 pool) by exact (like_pool _ _ _ L12 Hpool).
  apply (wp_mono _ _ _ _ (dispatch_safe ok pool w2 es s (Z.of_nat es) epi op ev y e x HI2 Hp2 Ey2 Ee Ex2 Hev
    ltac:(intros ->; exact Hf) ltac:(intros a ->; exact Hf))).
  intros r w3 (HI3 & HK3 & HP3). apply wp_post, wp_post, wp_post, wp_ret. cbn [held setHeld].
  rewrite (keeps_held _ _ HK3), H2, !removeLock_cons.
  set (w4 := setHeld _ _). assert (L4 : like w3 w4) by (unfold w4; like).
  split; [now apply (like_Inv w3)|]. split; [|].
  - assert (HK12 : keeps (setHeld (held w2) w) w2) by exact (like_keepsH _ _ L12).
    destruct HK3, HK12. constructor; cbn in *; try congruence. intros e1. etrans; eauto.
  - intros es' s' e' x' [_ (y' & Hes & Ey' & _ & Ee') (Hs' & Ex' & _)] _. assert (es' = es) as -> by lia. assert (s' = s) as -> by lia.
    assert (y' = y) as -> by congruence. assert (e' = e) as -> by congruence. assert (x' = x) as -> by congruence.
    exists epi. split; [exact (like_found _ _ _ _ _ L12 Hf)|]. exact (ctlPost_like _ _ _ _ _ _ _ _ _ _ w2 w3 w4 L12 L4 eq_refl HP3).
Qed.

(** ** The other calls *)

Lemma SpungeEpollFindRemove_safe ok w epFd fd : Inv w -> safe (SpungeEpollFindRemove ok epFd fd) w (fun _ _ => True).
Proof.
  intros HI. apply safeH_safe. unfold SpungeEpollFindRemove.
  destruct (SockGetSocket_cases w epFd) as [E|(es & E & -> & Hes)]; apply (safeH_get _ _ _ _ _ _ E).
  { apply safeH_errno; [done|]. intros HI1. now apply (safeH_ret ERR_PARAM (setErrno FILLP_EBADF w)). }
  pose proof Hes as [y Ey]%lookup_lt_is_Some. apply safeH_wait; [done| |].
  2: { cbn [negb]. apply safeH_errno; [done|]. intros HI1. now apply (safeH_ret ERR_COMM (setErrno FILLP_EBUSY w)). }
  intros HI1. cbn [negb]. apply (safeH_read _ _ _ y); [exact Ey|].
  destruct (negb (allocState y =? SOCK_ALLOC_STATE_EPOLL)).
  { apply safeH_post; [done|]. cbn [held setHeld]. rewrite removeLock_cons. intros HI2. now apply (safeH_ret ERR_PARAM (setHeld (held w) _)). }
  destruct (eventEpoll y) as [e|] eqn:Ee.
  2: { apply safeH_post; [done|]. cbn [held setHeld]. rewrite removeLock_cons. intros HI2. now apply (safeH_ret ERR_NULLPTR (setHeld (held w) _)). }
  set (w1 := setHeld (SockConnSem es :: held w) w) in *.
  destruct (SockGetSocket_cases w1 fd) as [E1|(s & E1 & -> & Hs)]; apply (safeH_get _ _ _ _ _ _ E1).
  { apply safeH_post; [done|]. cbn [held setHeld w1]. rewrite removeLock_cons. intros HI2. apply safeH_errno; [done|]. intros HI3.
    now apply (safeH_ret ERR_PARAM (setErrno FILLP_EBADF (setHeld (held w) _))). }
  apply safeH_wait; [done| |].
  2: { cbn [negb]. apply safeH_post; [done|]. cbn [held setHeld w1]. rewrite removeLock_cons. intros HI2.
       now apply (safeH_ret ERR_COMM (setHeld (held w) _)). }
  intros HI2. cbn [negb]. set (w2 := setHeld (AppSem e :: held w1) w1) in *.
  destruct (proj2 (inv_socks _ HI es y Ey) e Ee) as [p Ep]. apply (safeH_read _ _ _ p); [exact Ep|].
  assert (exists epi, found w2 e (Z.of_nat s) epi /\ EpTree.EpFind (fdOf w2) (maxEpollItemNum w2) (Z.of_nat s) (mkStore (rbns w2) (rbr p)) = Some epi)
    as (epi & Hf & Efind).
  { destruct (find_cases w2 e p (Z.of_nat s) HI2 Ep) as [(a & ? & ? & E')|(Hno & E')]; [exists (Some a)|exists None]; split; done. }
  apply (safeH_read _ _ _ epi); [exact Efind|].
  eapply (safeH_bind _ _ _ _ _ (fun _ _ => True)).
  - destruct epi as [a|]; [|now apply safe_ret]. destruct Hf as [Hin _].
    eapply safe_bind; [apply (EpRemove_safe ok w2 e a HI2 Hin)|]. intros r w3 HI3 HK3 _. cbn beta.
    assert (Hs3 : (s < length (socks w3))%nat) by (rewrite (keeps_length _ _ HK3); exact Hs).
    pose proof Hs3 as [x Ex]%lookup_lt_is_Some.
    eapply safe_bind; [apply (addEpollWaiting_safe w3 s (-1) x HI3 Ex)|]. intros _ w4 HI4 HK4 _.
    apply (safe_mono _ _ _ _ (SpungeDelEpInst_safe w4 s _ HI4 ltac:(now rewrite (keeps_length _ _ HK4)))). done.
  - intros [] w3 HI3 HK3 _. apply safeH_post; [done|]. rewrite (keeps_held _ _ HK3). cbn [held setHeld w1 w2]. rewrite removeLock_cons.
    intros HI4. apply safeH_post; [done|]. cbn [held setHeld]. rewrite removeLock_cons. intros HI5.
    now apply (safeH_ret ERR_OK (setHeld (held w) _)).
Qed.

(** ** Reporting events *)

(** The events an item has to report now. *)
Definition now (w : World) (a : nat) : Z :=
  match items w !! a with
  | Some i => match socks w !! Z.to_nat (fileDespcriptor i) with Some x => current x (events (event i)) | None => 0 end
  | None => 0
  end.
Definition interest (w : World) (a : nat) : SpungeEpollEvent :=
  match items w !! a with Some i => event i | None => mkEvent 0 0 end.

(** The events reported for the ready items [l], and the items that stay ready. *)
Fixpoint report (w : World) (l : list nat) (maxEvents : Z) (out : list SpungeEpollEvent) : list SpungeEpollEvent * list nat :=
  match l with
  | [] => (out, [])
  | a :: l' =>
    if Z.of_nat (length out) <? maxEvents then
      let v := now w a in
      let '(o, k) := report w l' maxEvents (if v >? 0 then out ++ [mkEvent v (data (interest w a))] else out) in
      (o, if (v =? 0) || negb (Z.land (events (interest w a)) SPUNGE_EPOLLET =? 0) then k else a :: k)
    else (out, l)
  end.

Lemma settled_now w w' a : settled w w' -> socks w' = socks w -> now w' a = now w a /\ interest w' a = interest w a.
Proof.
  intros [_ Hc] Hs. assert (Ha : core <$> items w' !! a = core <$> items w !! a) by (rewrite <- !lookup_fmap; now rewrite Hc).
  unfold now, interest. rewrite Hs. destruct (items w' !! a) as [i'|], (items w !! a) as [i|]; cbn in Ha; try discriminate; [|done].
  injection Ha as _ -> ->. done.
Qed.

Lemma report_settled w w' l mx : settled w w' -> socks w' = socks w -> forall out, report w' l mx out = report w l mx out.
Proof.
  intros HS Hs. induction l as [|a l IH]; intros out; [done|]. cbn [report]. destruct (settled_now _ _ a HS Hs) as [-> ->]. now rewrite IH.
Qed.

(** Removing an item of the list from the ready list. *)
Lemma EpDelRdlnode_exact w L e a l1 l2 : lists (rdl w) L -> L !! inl e = Some (l1 ++ inr a :: l2) ->
  exists h', EpDelRdlnode e a w = Some (tt, setRdl h' w) /\ lists h' (<[inl e := l1 ++ l2]> L).
Proof.
  intros HL El. destruct (lists_delete _ _ _ _ _ _ HL El) as (h' & Eh & HL' & _). exists h'. split; [|exact HL'].
  unfold EpDelRdlnode. unfold mbind, M_bind.
  assert (El' : HLISTNODE_LINKED (inr a) (rdl w) = Some true).
  { unfold HLISTNODE_LINKED. now rewrite load_some, (lists_node _ _ _ _ _ _ HL El). }
  rewrite (onRdl_query _ _ _ El'). cbn [negb]. apply onRdl_effect. exact Eh.
Qed.

(** One round of the loop. *)
Definition getRound (e a : nat) (out : list SpungeEpollEvent) : M (list SpungeEpollEvent) :=
  i ← getItem a;
  putItem a (setRevents (Z.land (revents i) (events (event i))) i);;
  EpollUpdateEpEvent a;;
  i ← getItem a;
  let out := if revents i >? 0 then out ++ [mkEvent (revents i) (data (event i))] else out in
  (if (revents i =? 0) || negb (Z.land (events (event i)) SPUNGE_EPOLLET =? 0) then EpDelRdlnode e a else mret tt);;
  mret out.

Lemma bind_read {X Y} (f : World -> option X) (k : X -> M Y) w x : f w = Some x -> mbind k (read f) w = k x w.
Proof. intros E. unfold mbind, M_bind, read. now rewrite E. Qed.
Lemma M_bind_assoc {X Y Z} (m : M X) (k : X -> M Y) (k' : Y -> M Z) w : mbind k' (mbind k m) w = mbind (fun x => mbind k' (k x)) m w.
Proof. unfold mbind, M_bind. now destruct (m w) as [[x w']|]. Qed.
Lemma bind_ext {X Y} (m : M X) (k k' : X -> M Y) w : (forall x w', k x w' = k' x w') -> mbind k m w = mbind k' m w.
Proof. intros H. unfold mbind, M_bind. destruct (m w) as [[x w']|]; [apply H|done]. Qed.

Lemma getLoop_round fuel e a mx out w c : Hlist.load (Some (inr a)) (rdl w) = Some c -> Z.of_nat (length out) < mx ->
  getLoop (S fuel) e (Some (inr a)) mx out w = mbind (getLoop fuel e (Hlist.next c) mx) (getRound e a out) w.
Proof.
  intros Ec Hlt. cbn [getLoop]. destruct (Z.ltb_spec (Z.of_nat (length out)) mx); [|lia]. cbn [negb].
  rewrite (bind_read _ _ _ a) by done. rewrite (bind_read _ _ _ c) by exact Ec. unfold getRound.
  rewrite M_bind_assoc. apply bind_ext. intros i w1. rewrite M_bind_assoc. apply bind_ext. intros _ w2.
  rewrite M_bind_assoc. apply bind_ext. intros _ w3. rewrite M_bind_assoc. apply bind_ext. intros i4 w4.
  rewrite M_bind_assoc. apply bind_ext. intros _ w5. reflexivity.
Qed.

(** One ready item. *)
Lemma getRound_safe w L e a l1 l2 out : Inv w -> hasInited w = true -> lists (rdl w) L -> L !! inl e = Some (l1 ++ inr a :: l2) ->
  owned (items w) e a ->
  safe (getRound e a out) w
    (fun out' w' => settled w w' /\ socks w' = socks w /\ waits w' = waits w /\
       out' = (if now w a >? 0 then out ++ [mkEvent (now w a) (data (interest w a))] else out) /\
       lists (rdl w') (<[inl e := if (now w a =? 0) || negb (Z.land (events (interest w a)) SPUNGE_EPOLLET =? 0) then l1 ++ l2
                               else l1 ++ inr a :: l2]> L)).
Proof.
  intros HI Hinit HL El (i & Ei & Ee). destruct (inv_items _ HI a i Ei) as (e0 & s & _ & _ & Ef & Hs).
  pose proof Hs as [x Ex]%lookup_lt_is_Some. apply (safe_bind_read _ _ _ i); [exact Ei|].
  eapply safe_bind; [apply (putItem_safe w a i); [done|exact Ei|done]|].
  intros _ w1 HI1 HK1 (HS1 & Ei1 & Es1 & Er1 & Ew1 & Eq1 & _).
  set (i1 := setRevents (Z.land (revents i) (events (event i))) i) in *. set (v := current x (events (event i))).
  assert (Hnow : now w a = v) by (unfold now; rewrite Ei, Ef, Nat2Z.id, Ex; done).
  assert (Hint : interest w a = event i) by (unfold interest; now rewrite Ei).
  assert (Hupd : EpollUpdateEpEvent a w1 = Some (tt, setItems <[a := setRevents v i1]> w1)).
  { unfold EpollUpdateEpEvent, getItem, read, mbind, M_bind. rewrite Ei1. cbn [mbind option_bind i1 setRevents fileDespcriptor].
    rewrite Ef, SockGetSocket_ok; [|now rewrite (keeps_init _ _ HK1)|now rewrite Es1].
    unfold getSock, read. rewrite Es1, Ex. cbn [mbind option_bind]. unfold putItem, write. now rewrite Ei1. }
  destruct (EpollUpdateEpEvent_safe w1 a i1 HI1 Ei1) as (u & w2 & E2 & HI2 & HK2 & HS2 & Ew2 & Es2 & Er2 & _).
  rewrite Hupd in E2. injection E2 as <- <-. set (w2 := setItems <[a := setRevents v i1]> w1) in *.
  apply (safe_step _ _ _ tt w2); [exact Hupd|exact HK2|].
  assert (Ei2 : items w2 !! a = Some (setRevents v i1)) by (cbn; apply lookup_insert_eq).
  apply (safe_bind_read _ _ _ (setRevents v i1)); [exact Ei2|]. cbn [setRevents revents event i1].
  assert (HS : settled w w2).
  { split; [etrans; eassumption|]. cbn [w2 items setItems]. rewrite Eq1, insert_insert_eq, fmap_insert. apply insert_id.
    rewrite lookup_fmap, Ei. done. }
  rewrite Hnow, Hint. assert (HL2 : lists (rdl w2) L) by (rewrite Er2, Er1; exact HL).
  destruct ((v =? 0) || negb (Z.land (events (event i)) SPUNGE_EPOLLET =? 0)).
  - destruct (EpDelRdlnode_exact w2 L e a l1 l2 HL2 El) as (h' & Ed & HL').
    destruct (EpDelRdlnode_safe w2 e a HI2 ltac:(eexists; split; [exact Ei2|exact Ee])) as (u & w3 & E3 & HI3 & HK3 & HS3 & Ei3 & Ew3 & Es3 & _).
    rewrite Ed in E3. injection E3 as <- <-. apply (safe_step _ _ _ tt (setRdl h' w2)); [exact Ed|exact HK3|].
    apply safe_ret; [exact HI3|]. split; [etrans; [exact HS|]; split; [exact HS3|done]|]. split; [cbn; congruence|]. split; [cbn; congruence|]. done.
  - apply (safe_step _ _ _ tt w2); [done|reflexivity|]. apply safe_ret; [exact HI2|]. split; [exact HS|]. split; [cbn; congruence|].
    split; [cbn; congruence|]. split; [done|]. rewrite insert_id; [exact HL2|exact El].
Qed.

Lemma getLoop_safe e mx l2 : forall fuel w L l1 out, Inv w -> hasInited w = true -> lists (rdl w) L ->
  L !! inl e = Some (l1 ++ (inr <$> l2)) -> (forall a, a ∈ l2 -> owned (items w) e a) -> (length l2 < fuel)%nat ->
  safe (getLoop fuel e (head (inr <$> l2)) mx out) w (fun out' w' => settled w w' /\ socks w' = socks w /\ waits w' = waits w /\
    out' = (report w l2 mx out).1 /\ lists (rdl w') (<[inl e := l1 ++ (inr <$> (report w l2 mx out).2)]> L)).
Proof.
  induction l2 as [|a l2 IH]; intros fuel w L l1 out HI Hinit HL El Ho Hf; (destruct fuel as [|fuel]; [cbn in Hf; lia|]).
  - cbn [fmap list_fmap head getLoop]. apply safe_ret; [done|]. do 4 (split; [done|]). cbn [report snd fmap list_fmap].
    rewrite insert_id; [exact HL|exact El].
  - cbn [report]. destruct (Z.ltb_spec (Z.of_nat (length out)) mx) as [Hlt|Hge].
    2: { cbn [fmap list_fmap head getLoop]. destruct (Z.ltb_spec (Z.of_nat (length out)) mx); [lia|]. cbn [negb].
         apply safe_ret; [done|]. do 4 (split; [done|]). cbn [snd]. rewrite insert_id; [exact HL|exact El]. }
    rewrite fmap_cons in El. destruct (lists_next _ _ _ _ _ _ HL El) as (c & Ec & En).
    assert (Hbody : safe (mbind (getLoop fuel e (Hlist.next c) mx) (getRound e a out)) w (fun out' w' => settled w w' /\ socks w' = socks w /\
      waits w' = waits w /\ out' = (report w (a :: l2) mx out).1 /\ lists (rdl w') (<[inl e := l1 ++ (inr <$> (report w (a :: l2) mx out).2)]> L))).
    { eapply safe_bind; [apply (getRound_safe w L e a l1 (inr <$> l2) out HI Hinit HL El)|]; [apply Ho; left|].
      intros out1 w1 HI1 HK1 (HS1 & Es1 & Ew1 & Eo1 & HL1). rewrite En.
      set (del := (now w a =? 0) || negb (Z.land (events (interest w a)) SPUNGE_EPOLLET =? 0)) in *.
      set (l1' := if del then l1 else l1 ++ [inr a]).
      assert (El1 : <[inl e := if del then l1 ++ (inr <$> l2) else l1 ++ inr a :: (inr <$> l2)]> L !! inl e = Some (l1' ++ (inr <$> l2))).
      { rewrite lookup_insert_eq. unfold l1'. destruct del; [done|]. now rewrite <- app_assoc. }
      eapply safe_mono; [apply (IH fuel w1 (<[inl e := if del then l1 ++ (inr <$> l2) else l1 ++ inr a :: (inr <$> l2)]> L) l1' out1 HI1)|].
      - now rewrite (keeps_init _ _ HK1).
      - exact HL1.
      - exact El1.
      - intros b Hb. apply (key_owned (items w)); [apply HS1|]. apply Ho. now right.
      - cbn in Hf. lia.
      - intros out' w' (HS & Es & Ew & Eo & HL'). cbn beta in *.
        split; [etrans; eassumption|]. split; [congruence|]. split; [congruence|].
        rewrite (report_settled w w1) in Eo, HL' by done. cbn [report]. rewrite Eo1 in Eo, HL'.
        destruct (Z.ltb_spec (Z.of_nat (length out)) mx); [|lia].
        destruct (report w l2 mx _) as [o k]. cbn [fst snd] in *. split; [exact Eo|].
        rewrite insert_insert_eq in HL'. fold del. unfold l1' in HL'. destruct del; [exact HL'|].
        rewrite fmap_cons. now rewrite <- app_assoc in HL'. }
    destruct Hbody as (o & w' & E & H). exists o, w'. split; [|cbn [report] in H; destruct (Z.ltb_spec (Z.of_nat (length out)) mx); [exact H|lia]].
    cbn [fmap list_fmap head]. rewrite (getLoop_round _ _ _ _ _ _ c Ec Hlt). exact E.
Qed.

(** The items of the ready list of [e]. *)
Definition readyList (w : World) (e : nat) (l : list nat) : Prop :=
  exists L, lists (rdl w) L /\ L !! inl e = Some (inr <$> l).

Lemma listsOf_items h P member n : listsOf h P member -> P n -> exists L l, lists h L /\ L !! inl n = Some (inr <$> l) /\
  forall a, a ∈ l -> member n a.
Proof.
  intros (L & HL & H1 & H2 & H3) Hn. destruct (H2 n Hn) as [l0 El].
  assert (exists l, l0 = inr <$> l /\ forall a, a ∈ l -> member n a) as (l & -> & Hl).
  { assert (Hall : forall y, y ∈ l0 -> exists a, y = inr a /\ member n a) by (intros y Hy; exact (H3 n l0 y El Hy)).
    clear El. induction l0 as [|y l0 IH]; [exists []; split; [done|]; now intros a ?%elem_of_nil|].
    destruct (Hall y) as (a & -> & Ha); [left|]. destruct IH as (l & -> & Hl); [intros z Hz; apply Hall; now right|].
    exists (a :: l). split; [done|]. intros b [->|Hb]%elem_of_cons; auto. }
  now exists L, l.
Qed.

(** A heap has one sequence for each list. *)
Lemma lists_unique h L L' x l l' : lists (A := addr) h L -> lists h L' -> L !! x = Some l -> L' !! x = Some l' -> l = l'.
Proof.
  intros HL HL' E E'. pose proof (lists_first _ _ _ _ HL E) as F. pose proof (lists_first _ _ _ _ HL' E') as F'.
  assert (Hh : head l = head l') by congruence. clear F F'.
  assert (Hgen : forall (l2 l2' l1 l1' : list addr), L !! x = Some (l1 ++ l2) -> L' !! x = Some (l1' ++ l2') -> head l2 = head l2' -> l2 = l2').
  { induction l2 as [|y l2 IH]; intros l2' l1 l1' E1 E2 Hd; destruct l2' as [|y' l2']; try discriminate; [done|].
    injection Hd as ->. f_equal. apply (IH l2' (l1 ++ [y']) (l1' ++ [y'])); try now rewrite <- app_assoc.
    pose proof (lists_node _ _ _ _ _ _ HL E1) as N1. rewrite (lists_node _ _ _ _ _ _ HL' E2) in N1. congruence. }
  exact (Hgen l l' [] [] E E' Hh).
Qed.

Lemma readyList_unique w e l l' : readyList w e l -> readyList w e l' -> l = l'.
Proof.
  intros (L & HL & E) (L' & HL' & E'). pose proof (lists_unique _ _ _ _ _ _ HL HL' E E') as Hl.
  apply (list_fmap_eq_inj inr) in Hl; [done|]. intros a b. now injection 1.
Qed.

Lemma EpGetEventsAndSignal_safe ok w e mx timeout : Inv w -> hasInited w = true -> is_Some (eps w !! e) ->
  safe (EpGetEventsAndSignal ok e mx timeout) w (fun r w' => settled w w' /\
    forall l, readyList w e l -> (forall at_, ok at_ = true) ->
      r = (Z.of_nat (length (report w l mx []).1), (report w l mx []).1) /\ readyList w' e (report w l mx []).2).
Proof.
  intros HI Hinit He. apply safeH_safe. unfold EpGetEventsAndSignal. apply safeH_wait_ok; [done| |].
  2: { intros Hok. cbn [negb]. apply safeH_ret; [done|]. split; [done|]. intros l _ Hall. rewrite Hall in Hok. discriminate. }
  intros _ HI1. cbn [negb]. set (w1 := setHeld (AppSem e :: held w) w) in *. apply safeH_wait_ok; [done| |].
  2: { intros Hok. cbn [negb]. apply safeH_post; [done|]. cbn [held setHeld w1]. rewrite removeLock_cons. intros HI2.
       apply (safeH_ret (ERR_COMM, []) (setHeld (held w) w1)); [done|]. split; [now split|].
       intros l _ Hall. rewrite Hall in Hok. discriminate. }
  intros _ HI2. cbn [negb]. set (w2 := setHeld (AppCoreSem e :: held w1) w1) in *.
  destruct (listsOf_items _ _ _ e (inv_rdl _ HI) He) as (L & l & HL & El & Ho).
  apply (safeH_get _ _ _ (head (inr <$> l))); [apply onRdl_query; exact (lists_first _ _ _ _ HL El)|].
  apply (safeH_read _ _ _ w2); [done|].
  eapply safeH_bind.
  { apply (getLoop_safe e mx l (S (size (cells (rdl w2)))) w2 L [] [] HI2 Hinit HL El Ho).
    pose proof (list_fits _ _ _ _ HL El) as Hfit. rewrite length_fmap in Hfit. cbn in *. lia. }
  intros out w3 HI3 HK3 (HS3 & Es3 & Ew3 & Eo3 & HL3). cbn [app] in HL3.
  assert (Hrep : report w2 l mx [] = report w l mx []) by (apply report_settled; [now split|done]). rewrite Hrep in Eo3, HL3.
  assert (Hset : settled w w3) by (etrans; [|exact HS3]; now split).
  eapply (safeH_bind _ _ _ _ _ (fun _ w' => settled w3 w' /\ rdl w' = rdl w3)).
  - destruct (negb (timeout =? 0) && (Z.of_nat (length out) =? 0)); [|now apply safe_ret].
    destruct (proj2 (keeps_eps _ _ HK3 e) He) as [p Ep]. apply (safe_bind_read _ _ _ p); [exact Ep|].
    exists tt, (setEps <[e := mkEventPoll (rbr p) 0 (waitSem p)]> w3). split; [unfold putEp, write; cbn; now rewrite Ep|].
    split; [now apply Inv_ep|]. split; [|split; [|done]].
    + constructor; try done. intros e'. cbn. destruct (decide (e = e')) as [<-|Hne]; [rewrite lookup_insert_eq, Ep; split; eauto|].
      now rewrite lookup_insert_ne.
    + split; [|done]. constructor; [done|done|]. cbn. rewrite fmap_insert. apply insert_id. now rewrite lookup_fmap, Ep.
  - intros [] w4 HI4 HK4 [HS4 Er4]. apply safeH_post; [done|]. rewrite (keeps_held _ _ HK4), (keeps_held _ _ HK3). cbn [held setHeld w1 w2].
    rewrite removeLock_cons. intros HI5. apply safeH_post; [done|]. cbn [held setHeld]. rewrite removeLock_cons. intros HI6.
    apply (safeH_ret _ (setHeld (held w) (setHeld (AppSem e :: held w) w4))); [done|]. split.
    + etrans; [exact Hset|]. etrans; [exact HS4|]. now split.
    + intros l' Hl' _. assert (l' = l) as -> by (apply (readyList_unique w e l' l Hl'); now exists L).
      split; [now rewrite Eo3|]. eexists. cbn [rdl setHeld]. rewrite Er4. split; [exact HL3|]. apply lookup_insert_eq.
Qed.

(** The items of a socket that ask for an event are made ready. *)
Lemma callbackLoop_safe ok s up l2 : forall fuel w W l1 h, Inv w -> lists (waits w) W -> W !! inl s = Some (l1 ++ (inr <$> l2)) ->
  (forall a, a ∈ l2 -> waiting (items w) s a) -> (length l2 < fuel)%nat -> held w = EpollTaskListLock s :: h ->
  safeH (callbackLoop ok fuel s (head (inr <$> l2)) up) w h (fun _ w' => settled w w' /\ socks w' = socks w /\
    (forall b, isLinked (rdl w) b -> isLinked (rdl w') b) /\ (forall e, alert w e -> alert w' e) /\
    ((forall at_, ok at_ = true) -> forall a i e, a ∈ l2 -> items w !! a = Some i -> ep i = Some e -> Z.land (events (event i)) up <> 0 ->
       isLinked (rdl w') a /\ alert w' e)).
Proof.
  induction l2 as [|a l2 IH]; intros fuel w W l1 h HI HW El Hw Hf Hh; (destruct fuel as [|fuel]; [cbn in Hf; lia|]).
  { cbn [fmap list_fmap head callbackLoop]. eapply wp_write; [reflexivity|]. rewrite Hh, removeLock_cons.
    split; [now apply Inv_held|]. split; [now constructor|]. split; [now split|]. do 3 (split; [done|]). intros _ b i e ?%elem_of_nil. done. }
  rewrite fmap_cons in El. destruct (lists_next _ _ _ _ _ _ HW El) as (c & Ec & En).
  destruct (Hw a ltac:(left)) as (i & Ei & Ef). destruct (inv_items _ HI a i Ei) as (e & s0 & Ee & He & _).
  cbn [fmap list_fmap head callbackLoop]. apply (safeH_read _ _ _ a); [done|]. apply (safeH_read _ _ _ c); [exact Ec|].
  apply (safeH_read _ _ _ i); [exact Ei|]. rewrite En.
  assert (El' : W !! inl s = Some ((l1 ++ [inr a]) ++ (inr <$> l2))) by now rewrite <- app_assoc.
  destruct (Z.eqb_spec (Z.land (events (event i)) up) 0) as [Hz|Hz].
  { eapply wp_mono; [apply (IH fuel w W (l1 ++ [inr a]) h HI HW El'); [intros b Hb; apply Hw; now right|cbn in Hf; lia|exact Hh]|].
    intros [] w' (HI' & HK' & HS' & Es' & Hl' & Ha' & Hall'). split; [done|]. split; [done|]. do 4 (split; [done|]).
    intros Hok b j e' [->|Hb]%elem_of_cons Ej Ee' Hne; [|eauto]. assert (j = i) as -> by congruence. done. }
  eapply safeH_bind; [apply (putItem_safe w a i); [done|exact Ei|done]|].
  intros _ w1 HI1 HK1 (HS1 & Ei1 & Es1 & Er1 & Ew1 & Eq1 & Ep1). apply (safeH_read _ _ _ e); [exact Ee|].
  assert (Hh1 : held w1 = EpollTaskListLock s :: h) by (rewrite (keeps_held _ _ HK1); exact Hh).
  assert (Hset1 : settled w w1).
  { split; [done|]. rewrite Eq1, fmap_insert. apply insert_id. now rewrite lookup_fmap, Ei. }
  assert (Ha1 : forall e', alert w e' -> alert w1 e') by (intros e' (p & Ep & Hp); exists p; now rewrite Ep1).
  assert (Ht : forall b j, items w !! b = Some j -> exists j', items w1 !! b = Some j' /\ ep j' = ep j /\ event j' = event j /\
    fileDespcriptor j' = fileDespcriptor j).
  { intros b j Ej. rewrite Eq1. destruct (decide (b = a)) as [->|Hne]; [|rewrite lookup_insert_ne by congruence; eauto].
    rewrite lookup_insert_eq. assert (j = i) as -> by congruence. eauto. }
  apply safeH_wait_ok; [done| |].
  2: { intros Hok. cbn [negb]. eapply wp_write; [reflexivity|]. rewrite Hh1, removeLock_cons. split; [now apply Inv_held|].
       split; [destruct HK1; now constructor|]. split; [etrans; [exact Hset1|now split]|]. split; [exact Es1|]. split; [cbn; now rewrite Er1|].
       split; [exact Ha1|]. intros Hall. now rewrite Hall in Hok. }
  intros _ HI2. cbn [negb]. rewrite Ee. eapply safeH_bind; [apply (EpSocketReady_safe _ e a HI2)|].
  { destruct (Ht a i Ei) as (j & Ej & Hj & _). exists j. cbn. split; congruence. }
  intros [] w3 HI3 HK3 (HS3 & Ei3 & Ew3 & Es3 & Hl3 & Ha3). apply safeH_post; [done|].
  rewrite (keeps_held _ _ HK3). cbn [held setHeld]. rewrite removeLock_cons. intros HI4.
  set (w4 := setHeld (held w1) w3) in *.
  assert (Hset4 : settled w w4) by (etrans; [exact Hset1|]; split; [destruct HS3; now constructor|cbn; now rewrite Ei3]).
  eapply wp_mono; [apply (IH fuel w4 W (l1 ++ [inr a]) h HI4)|].
  - cbn. rewrite Ew3. cbn. now rewrite Ew1.
  - done.
  - intros b Hb. destruct (Hw b ltac:(now right)) as (j & Ej & Hj). destruct (Ht b j Ej) as (j' & Ej' & _ & _ & Hj').
    exists j'. cbn. rewrite Ei3. split; [done|congruence].
  - cbn in Hf. lia.
  - exact Hh1.
  - intros [] w' (HI' & HK' & HS' & Es' & Hl' & Ha' & Hall'). split; [done|].
    split; [exact HK'|].
    split; [etrans; [exact Hset4|exact HS']|]. split; [rewrite Es'; cbn; rewrite Es3; exact Es1|]. split; [intros b Hb; apply Hl', Hl3; left; cbn; now rewrite Er1|].
    split; [intros e' He'; apply Ha', Ha3; left; now apply Ha1|]. intros Hok b j e' [->|Hb]%elem_of_cons Ej Ee' Hne.
    + assert (j = i) as -> by congruence. assert (e' = e) as -> by congruence. split; [apply Hl', Hl3; now right|apply Ha', Ha3; now right].
    + destruct (Ht b j Ej) as (j' & Ej' & Hj1 & Hj2 & _). apply (Hall' Hok b j'); [done| |congruence|congruence]. cbn. now rewrite Ei3.
Qed.

(** The items that wait on the socket [s]. *)
Definition waitList (w : World) (s : nat) (l : list nat) : Prop :=
  exists W, lists (waits w) W /\ W !! inl s = Some (inr <$> l).

Lemma waitList_unique w s l l' : waitList w s l -> waitList w s l' -> l = l'.
Proof.
  intros (L & HL & E) (L' & HL' & E'). pose proof (lists_unique _ _ _ _ _ _ HL HL' E E') as Hl.
  apply (list_fmap_eq_inj inr) in Hl; [done|]. intros a b. now injection 1.
Qed.

Lemma waitList_head w s a : Inv w -> (s < length (socks w))%nat -> HLIST_FIRST (inl s) (waits w) = Some (Some (inr a)) ->
  exists l, waitList w s (a :: l).
Proof.
  intros HI Hs Hf. destruct (listsOf_items _ _ _ s (inv_waits _ HI) Hs) as (L & l & HL & El & _).
  rewrite (lists_first _ _ _ _ HL El) in Hf. destruct l as [|b l]; [discriminate|]. injection Hf as ->. exists l. now exists L.
Qed.

(** Every waiting item that asks for one of the events is ready, its instance signalled. *)
Definition notified (w : World) (s : nat) (up : Z) (w' : World) : Prop :=
  forall l a i e, waitList w s l -> a ∈ l -> items w !! a = Some i -> ep i = Some e -> Z.land (events (event i)) up <> 0 ->
    isLinked (rdl w') a /\ alert w' e.

Lemma EpollEventCallback_safe ok w s up : Inv w -> (s < length (socks w))%nat ->
  safe (EpollEventCallback ok s up) w (fun _ w' => settled w w' /\ socks w' = socks w /\ (forall b, isLinked (rdl w) b -> isLinked (rdl w') b) /\
    (forall e, alert w e -> alert w' e) /\ ((forall at_, ok at_ = true) -> notified w s up w')).
Proof.
  intros HI Hs. apply safeH_safe. unfold EpollEventCallback.
  destruct (listsOf_items _ _ _ s (inv_waits _ HI) Hs) as (W & l & HW & El & Hm).
  apply (safeH_get _ _ _ (bool_decide (l = []))).
  { apply onWaits_query. rewrite (lists_empty _ _ _ _ HW El). now destruct l. }
  destruct (bool_decide_reflect (l = [])) as [->|Hne].
  { apply safeH_ret; [done|]. do 4 (split; [done|]). intros _ l' a i e Hl' Ha.
    assert (l' = []) as -> by (apply (waitList_unique w s); [done|now exists W]). now apply elem_of_nil in Ha. }
  apply safeH_wait_ok; [done| |].
  2: { intros Hok. cbn [negb]. apply safeH_ret; [done|]. do 4 (split; [done|]). intros Hall. now rewrite Hall in Hok. }
  intros _ HI1. cbn [negb]. set (w1 := setHeld _ w) in *.
  apply (safeH_get _ _ _ (head (inr <$> l))); [apply onWaits_query; exact (lists_first _ _ _ _ HW El)|].
  apply (safeH_read _ _ _ w1); [done|].
  eapply wp_mono; [apply (callbackLoop_safe ok s up l _ w1 W [] (held w)); try done|].
  { pose proof (list_fits _ _ _ _ HW El) as Hfit. rewrite length_fmap in Hfit. cbn in *. lia. }
  intros [] w' (HI' & HK' & HS' & Es' & Hl' & Ha' & Hall'). split; [done|]. split; [exact HK'|].
  split; [etrans; [|exact HS']; now split|]. do 3 (split; [done|]). intros Hok l' a i e Hl2 Hin.
  assert (l' = l) as -> by (apply (waitList_unique w s); [done|now exists W]). exact (Hall' Hok a i e Hin).
Qed.

(** ** Sequences of calls *)

Inductive Call :=
| Ctl (ok : Site -> bool) (pool : option (nat * (RbNode * SpungeEpollEvent))) (epFd op fd : Z) (ev : option SpungeEpollEvent)
| FindRemove (ok : Site -> bool) (epFd fd : Z)
| GetEvents (ok : Site -> bool) (e : nat) (maxEvents timeout : Z)
| EventCallback (ok : Site -> bool) (sock : nat) (upEvent : Z).

Definition runCall (c : Call) : M (Z * list SpungeEpollEvent) :=
  match c with
  | Ctl ok pool epFd op fd ev => r ← SpungeEpollCtl ok pool epFd op fd ev; mret (r, [])
  | FindRemove ok epFd fd => r ← SpungeEpollFindRemove ok epFd fd; mret (r, [])
  | GetEvents ok e mx timeout => EpGetEventsAndSignal ok e mx timeout
  | EventCallback ok s up => EpollEventCallback ok s up;; mret (0, [])
  end.

(** The pool hands out free memory; instances and sockets are those there are. *)
Definition admissible (w : World) (c : Call) : Prop :=
  match c with
  | Ctl _ pool _ _ _ _ => poolOk w pool
  | FindRemove _ _ _ => True
  | GetEvents _ e _ _ => is_Some (eps w !! e)
  | EventCallback _ s _ => (s < length (socks w))%nat
  end.

Inductive runs (w : World) : list Call -> World -> Prop :=
| runs_nil : runs w [] w
| runs_snoc cs w1 c r w2 : runs w cs w1 -> admissible w1 c -> runCall c w1 = Some (r, w2) -> runs w (cs ++ [c]) w2.

Lemma runCall_safe w c : Inv w -> hasInited w = true -> admissible w c -> safe (runCall c) w (fun _ _ => True).
Proof.
  intros HI Hinit Ha. destruct c; cbn [runCall admissible] in *.
  - eapply safe_bind; [now apply SpungeEpollCtl_safe|]. intros. now apply safe_ret.
  - eapply safe_bind; [now apply SpungeEpollFindRemove_safe|]. intros. now apply safe_ret.
  - eapply safe_mono; [now apply EpGetEventsAndSignal_safe|done].
  - eapply safe_bind; [now apply EpollEventCallback_safe|]. intros. now apply safe_ret.
Qed.

Lemma runs_Inv w cs w' : Inv w -> hasInited w = true -> runs w cs w' -> Inv w' /\ keeps w w'.
Proof.
  intros HI Hinit. induction 1 as [|cs w1 c r w2 _ [HI1 HK1] Ha E]; [done|].
  rewrite <- (keeps_init _ _ HK1) in Hinit. destruct (runCall_safe w1 c HI1 Hinit Ha) as (r' & w2' & E' & HI2 & HK2 & _).
  rewrite E in E'. injection E' as _ <-. split; [done|]. etrans; eassumption.
Qed.

(** Instances and sockets with no items. *)
Definition freshWorld (maxItems : Z) (xs : list FtSocket) (ps : gset nat) : World :=
  mkWorld true maxItems xs ∅ ∅ (freshHeap (set_map inl ps)) (freshHeap (list_to_set (inl <$> seq 0 (length xs))))
    (gset_to_gmap (mkEventPoll None 0 0) ps) 0 [].

Lemma listsOf_fresh hs P member : (forall n, P n -> inl n ∈ hs) -> (forall x, x ∈ hs -> exists n, x = inl n) ->
  listsOf (freshHeap hs) P member.
Proof.
  intros HP Hh. exists (freshLists hs). split; [apply lists_fresh|]. split; [|split].
  - intros x l [Hx _]%set_to_map_lookup. auto.
  - intros n Hn. exists []. apply (set_to_map_lookup (fun _ => [])). auto.
  - intros n l y [_ ->]%set_to_map_lookup ?%elem_of_nil. done.
Qed.

Lemma fresh_none (hs : gset addr) a : (forall x, x ∈ hs -> exists n, x = inl n) -> cells (freshHeap hs) !! inr a = None.
Proof.
  intros Hh. destruct (cells (freshHeap hs) !! inr a) eqn:E; [|done]. apply set_to_map_lookup in E as [Hx _].
  destruct (Hh _ Hx). discriminate.
Qed.

Lemma Inv_fresh maxItems xs ps : 0 <= maxItems <= 4294967295 ->
  (forall x, x ∈ xs -> sockOk x /\ forall e, eventEpoll x = Some e -> e ∈ ps) -> Inv (freshWorld maxItems xs ps).
Proof.
  intros Hm Hx. assert (H1 : forall x, x ∈ (set_map inl ps : gset addr) -> exists n, x = inl n) by set_solver.
  assert (H2 : forall x, x ∈ (list_to_set (inl <$> seq 0 (length xs)) : gset addr) -> exists n, x = inl n).
  { intros x Hin%elem_of_list_to_set. apply list_elem_of_fmap in Hin as (n & -> & _). eauto. }
  constructor; cbn [freshWorld items rbns rdl waits eps socks maxEpollItemNum].
  - intros e p [_ <-]%lookup_gset_to_gmap_Some. destruct (EpTree.represents_empty (fdIn ∅) 0 ∅) as [(T & HT & HP) _ _]; [lia|].
    exists T. split; [exact HT|]. rewrite map_to_list_empty in HP. apply Permutation_nil_r in HP. rewrite HP. now intros a ?%elem_of_nil.
  - apply listsOf_fresh; [|exact H1]. intros e (p & [He _]%lookup_gset_to_gmap_Some). set_solver.
  - apply listsOf_fresh; [|exact H2]. intros s Hs. apply elem_of_list_to_set, list_elem_of_fmap. exists s. split; [done|]. apply elem_of_seq. lia.
  - intros a. rewrite !fresh_none by assumption. rewrite lookup_empty. done.
  - intros a i E. now rewrite lookup_empty in E.
  - rewrite map_size_empty. lia.
  - intros s x E. destruct (Hx x) as [Ho He]; [now apply list_elem_of_lookup_2 in E|]. split; [done|]. intros e Ee.
    exists (mkEventPoll None 0 0). apply lookup_gset_to_gmap_Some. auto.
Qed.

(** ** What is registered *)

(** The instance [e] reports the events [ev] of the descriptor [fd]. *)
Definition registered (w : World) (e : nat) (fd : Z) (ev : SpungeEpollEvent) : Prop :=
  exists a, inTree w e a /\ (core <$> items w) !! a = Some (Some e, ev, fd).

Lemma settled_registered w w' e fd ev : settled w w' -> registered w' e fd ev <-> registered w e fd ev.
Proof.
  intros HS. unfold registered. rewrite (settled_core _ _ HS). apply exist_proper. intros a. now rewrite (settled_inTree _ _ _ _ HS).
Qed.

Lemma registered_unique w e a b fd : Inv w -> inTree w e a -> inTree w e b -> fdIn (items w) a = Some fd -> fdIn (items w) b = Some fd -> a = b.
Proof.
  intros HI (p & T & Ep & HT & Ha) (p' & T' & Ep' & HT' & Hb). assert (p' = p) as -> by congruence.
  rewrite <- (EpTree.treeOf_unique _ _ _ _ HT HT') in Hb. exact (EpTree.ascending_inj _ _ _ _ _ (EpTree.tree_ascending _ _ _ HT) Ha Hb).
Qed.

Lemma report_bound w l mx : forall out, Z.of_nat (length out) <= mx -> Z.of_nat (length (report w l mx out).1) <= mx.
Proof.
  induction l as [|a l IH]; intros out Hout; cbn [report]; [done|]. destruct (Z.ltb_spec (Z.of_nat (length out)) mx); [|done].
  specialize (IH (if now w a >? 0 then out ++ [mkEvent (now w a) (data (interest w a))] else out)). destruct (report w l mx _) as [o k].
  apply IH. destruct (now w a >? 0); [rewrite length_app; cbn; lia|lia].
Qed.

Lemma report_grows w l mx ev : forall out, ev ∈ out -> ev ∈ (report w l mx out).1.
Proof.
  induction l as [|a l IH]; intros out Hout; cbn [report]; [done|]. destruct (Z.of_nat (length out) <? mx); [|done].
  specialize (IH (if now w a >? 0 then out ++ [mkEvent (now w a) (data (interest w a))] else out)). destruct (report w l mx _) as [o k].
  apply IH. destruct (now w a >? 0); [apply elem_of_app; now left|done].
Qed.

Lemma report_in w l mx a : a ∈ l -> 0 < now w a -> forall out, Z.of_nat (length out + length l) <= mx ->
  mkEvent (now w a) (data (interest w a)) ∈ (report w l mx out).1.
Proof.
  intros Ha Hn. induction l as [|b l IH]; [now apply elem_of_nil in Ha|]. intros out Hout. cbn [length] in Hout. cbn [report].
  destruct (Z.ltb_spec (Z.of_nat (length out)) mx); [|lia].
  set (out1 := if now w b >? 0 then out ++ [mkEvent (now w b) (data (interest w b))] else out).
  assert (Hin : mkEvent (now w a) (data (interest w a)) ∈ (report w l mx out1).1).
  { apply elem_of_cons in Ha as [->|Ha]; [|apply IH; [done|]; unfold out1; destruct (now w b >? 0); rewrite ?length_app; cbn; lia].
    apply report_grows. unfold out1. destruct (Z.gtb_spec (now w b) 0); [|lia]. apply elem_of_app. right. now apply list_elem_of_singleton. }
  destruct (report w l mx out1). exact Hin.
Qed.

Lemma linked_ready w e a : Inv w -> owned (items w) e a -> isLinked (rdl w) a -> exists l, readyList w e l /\ a ∈ l /\
  (length l <= size (items w))%nat.
Proof.
  intros HI Ho Hl. destruct (inv_rdl _ HI) as (L & HL & H1 & _ & H3). destruct (proj1 (linked_iff _ L a HL H1) Hl) as (x & l0 & El & Hin).
  destruct (H1 _ _ El) as [n ->]. destruct (H3 n l0 _ El Hin) as (a' & [= <-] & Hn). pose proof (owned_inj _ _ _ _ Hn Ho) as ->.
  assert (He : is_Some (eps w !! e)).
  { destruct Ho as (i & Ei & Ee). destruct (inv_items _ HI a i Ei) as (e0 & s & Ee' & He & _). assert (e0 = e) as -> by congruence. done. }
  destruct (listsOf_items _ _ _ e (inv_rdl _ HI) He) as (L' & l & HL' & El' & Hm).
  rewrite (lists_unique _ _ _ _ _ _ HL HL' El El') in Hin. apply list_elem_of_fmap in Hin as (a' & [= <-] & Hin).
  exists l. split; [now exists L'|]. split; [done|].
  pose proof (repr_nodup _ _ _ (lists_each _ _ HL' _ _ El')) as [_ Hnd]%NoDup_cons. apply NoDup_fmap_1 in Hnd.
  rewrite <- size_dom, <- (size_list_to_set (C := gset nat) l Hnd). apply subseteq_size. intros b Hb%elem_of_list_to_set.
  destruct (Hm b Hb) as (i & Ei & _). apply elem_of_dom. eauto.
Qed.

Lemma registered_owned w e a fd ev : Inv w -> inTree w e a -> (core <$> items w) !! a = Some (Some e, ev, fd) ->
  is_Some (items w !! a) /\ fdIn (items w) a = Some fd.
Proof.
  intros _ _ E. rewrite lookup_fmap in E. apply fmap_Some in E as (i & Ei & [= _ _ ->]). split; [eauto|]. unfold fdIn. now rewrite Ei.
Qed.

Lemma core_key its (a : nat) i e fd e' fd' ev : its !! a = Some i -> ep i = Some e -> fdIn its a = Some fd ->
  (core <$> its) !! a = Some (Some e', ev, fd') -> (e', fd') = (e, fd).
Proof. unfold fdIn, core. intros Ei Ee Hfd E. rewrite lookup_fmap, Ei in E. rewrite Ei in Hfd. cbn in *. congruence. Qed.

Lemma itemIn_registered w e ev fd w' : Inv w -> itemIn w e ev fd w' -> forall e' fd' ev',
  registered w' e' fd' ev' <-> registered w e' fd' ev' \/ (e' = e /\ fd' = fd /\ ev' = ev).
Proof.
  intros HI [(a & Ea & Hc & Ht)] e' fd' ev'. unfold registered. rewrite Hc. split.
  - intros (b & Hb%Ht & E). destruct (decide (b = a)) as [->|Hne]; [rewrite lookup_insert_eq in E; injection E as -> -> ->; auto|].
    rewrite lookup_insert_ne in E by congruence. left. exists b. split; [|done]. destruct Hb as [?|[_ ?]]; done.
  - intros [(b & Hb & E)|(-> & -> & ->)]; [|exists a; rewrite lookup_insert_eq, Ht; auto].
    exists b. rewrite Ht. split; [now left|]. rewrite lookup_insert_ne; [done|]. intros ->.
    destruct (registered_owned _ _ _ _ _ HI Hb E) as [[i Ei] _]. congruence.
Qed.

Lemma itemGone_registered w e a fd w' : Inv w -> inTree w e a -> fdIn (items w) a = Some fd -> itemGone w a w' ->
  forall e' fd' ev', registered w' e' fd' ev' <-> registered w e' fd' ev' /\ (e', fd') <> (e, fd).
Proof.
  intros HI Ha Hfd [Hg Hc Ht] e' fd' ev'. destruct (inTree_owned _ _ _ HI Ha) as (i & Ei & Ee). unfold registered. split.
  - intros (b & [Hb Hne]%Ht & E). rewrite lookup_fmap, Hc, <- lookup_fmap in E by done. split; [eauto|]. intros [= -> ->].
    apply Hne. apply (registered_unique w e b a fd); try done. apply (registered_owned _ _ _ _ _ HI Hb E).
  - intros [(b & Hb & E) Hne]. assert (b <> a).
    { intros ->. apply Hne. exact (core_key _ _ _ _ _ _ _ _ Ei Ee Hfd E). }
    exists b. rewrite Ht, lookup_fmap, Hc, <- lookup_fmap by done. auto.
Qed.

Lemma itemMod_registered w e a ev fd w' : Inv w -> inTree w e a -> fdIn (items w) a = Some fd -> itemMod w e a ev fd w' ->
  forall e' fd' ev', registered w' e' fd' ev' <->
    (e', fd') = (e, fd) /\ ev' = ev \/ registered w e' fd' ev' /\ (e', fd') <> (e, fd).
Proof.
  intros HI Ha Hfd [Hc HS] e' fd' ev'. destruct (inTree_owned _ _ _ HI Ha) as (i & Ei & Ee). unfold registered. rewrite Hc.
  assert (Ht : forall b, inTree w' e' b <-> inTree w e' b)
    by (intros b; split; [apply steady_inTree, steady_sym, HS|apply steady_inTree, HS]).
  split.
  - intros (b & Hb%Ht & E). destruct (decide (b = a)) as [->|Hne]; [rewrite lookup_insert_eq in E; injection E as <- <- <-; auto|].
    rewrite lookup_insert_ne in E by congruence. right. split; [eauto|]. intros [= -> ->]. apply Hne.
    apply (registered_unique w e b a fd); try done. apply (registered_owned _ _ _ _ _ HI Hb E).
  - intros [[[= -> ->] ->]|[(b & Hb & E) Hne]]; [exists a; rewrite lookup_insert_eq, Ht; auto|].
    exists b. rewrite Ht, lookup_insert_ne; [auto|]. intros <-. apply Hne.
    exact (core_key _ _ _ _ _ _ _ _ Ei Ee Hfd E).
Qed.

(** ** The map of interests *)

Abbreviation Interests := (gmap (nat * Z) SpungeEpollEvent).
Definition registers (w : World) (m : Interests) : Prop :=
  forall e fd ev, m !! (e, fd) = Some ev <-> registered w e fd ev.

(** The result, the error number and the interests after an operation. *)
Definition ctlSpec (m : Interests) (e : nat) (fd op : Z) (ev : SpungeEpollEvent) : Z * option Z * Interests :=
  match m !! (e, fd) with
  | Some _ =>
    if op =? SPUNGE_EPOLL_CTL_ADD then (-1, Some FILLP_EEXIST, m)
    else if op =? SPUNGE_EPOLL_CTL_DEL then (0, None, delete (e, fd) m)
    else (0, None, <[(e, fd) := withErr ev]> m)
  | None =>
    if op =? SPUNGE_EPOLL_CTL_ADD then (0, None, <[(e, fd) := withErr ev]> m)
    else (-1, Some FILLP_ENOENT, m)
  end.

Lemma registers_settled w w' m : settled w w' -> registers w m -> registers w' m.
Proof. intros HS H e fd ev. rewrite (settled_registered _ _ _ _ _ HS). apply H. Qed.

Lemma registers_insert w w' m e fd ev : registers w m ->
  (forall e' fd' ev', registered w' e' fd' ev' <-> (e', fd') = (e, fd) /\ ev' = ev \/ registered w e' fd' ev' /\ (e', fd') <> (e, fd)) ->
  registers w' (<[(e, fd) := ev]> m).
Proof.
  intros H H' e' fd' ev'. rewrite H', <- (H e' fd' ev'). destruct (decide ((e', fd') = (e, fd))) as [Heq|Hne].
  - rewrite Heq, lookup_insert_eq. split; [intros [= ->]; auto|intros [[_ ->]|[_ []]]; done].
  - rewrite lookup_insert_ne by congruence. naive_solver.
Qed.

Lemma registers_delete w w' m e fd : registers w m ->
  (forall e' fd' ev', registered w' e' fd' ev' <-> registered w e' fd' ev' /\ (e', fd') <> (e, fd)) ->
  registers w' (delete (e, fd) m).
Proof.
  intros H H' e' fd' ev'. rewrite H', <- (H e' fd' ev'). destruct (decide ((e', fd') = (e, fd))) as [Heq|Hne].
  - rewrite Heq, lookup_delete_eq. split; [done|intros [_ []]; done].
  - rewrite lookup_delete_ne by congruence. naive_solver.
Qed.

(** The item found is the one the map has. *)
Lemma found_registers w m e fd epi : Inv w -> registers w m -> found w e fd epi -> (epi = None <-> m !! (e, fd) = None).
Proof.
  intros HI Hm Hf. destruct epi as [a|]; cbn [found] in Hf; split; try done.
  - intros Hn. destruct Hf as [Ha Hfd]. destruct (inTree_owned _ _ _ HI Ha) as (i & Ei & Ee).
    assert (Hr : registered w e fd (event i)).
    { exists a. split; [done|]. rewrite lookup_fmap, Ei. unfold fdIn in Hfd. rewrite Ei in Hfd. cbn in *. unfold core. congruence. }
    apply Hm in Hr. congruence.
  - intros _. destruct (m !! (e, fd)) as [ev|] eqn:E; [|done]. apply Hm in E as (b & Hb & Eb).
    exfalso. apply (Hf b Hb). exact (proj2 (registered_owned _ _ _ _ _ HI Hb Eb)).
Qed.

(** C13: whatever the calls to [SpungeEpollCtl], [SpungeEpollFindRemove],
    [EpGetEventsAndSignal] and [EpollEventCallback], in any order and with any
    answers of the locks, no call touches an item that was freed or is outside
    the tree, list or array it belongs to; every loop ends; and each call
    returns with exactly the locks it was entered with. *)
Theorem epoll_memory_safe w cs w' c : Inv w -> hasInited w = true -> runs w cs w' -> admissible w' c ->
  exists r w2, runCall c w' = Some (r, w2) /\ Inv w2 /\ held w2 = held w.
Proof.
  intros HI Hinit Hr Ha. destruct (runs_Inv _ _ _ HI Hinit Hr) as [HI' HK']. rewrite <- (keeps_init _ _ HK') in Hinit.
  destruct (runCall_safe w' c HI' Hinit Ha) as (r & w2 & E & HI2 & HK2 & _). exists r, w2. split; [exact E|]. split; [done|].
  now rewrite (keeps_held _ _ HK2), (keeps_held _ _ HK').
Qed.

(** C14: the items of the epoll instances are a finite map from instances and
    descriptors to the events of interest.  With both sockets valid, the locks
    free and room for an item, [SpungeEpollCtl] adds, deletes or replaces the
    entry, and fails with [EEXIST] or [ENOENT], changing nothing, when the entry
    is there or is missing. *)
Theorem epoll_ctl_refines_map ok pool w epFd op fd ev es s e x m : Inv w -> poolOk w pool -> pool <> None ->
  ctlReady ok w epFd fd es s e x -> associatedEpollInstanceIdx x < 10 ->
  op = SPUNGE_EPOLL_CTL_ADD \/ op = SPUNGE_EPOLL_CTL_DEL \/ op = SPUNGE_EPOLL_CTL_MOD -> registers w m ->
  exists w', SpungeEpollCtl ok pool epFd op fd (Some ev) w = Some ((ctlSpec m e fd op ev).1.1, w') /\
    registers w' (ctlSpec m e fd op ev).2 /\ (forall en, (ctlSpec m e fd op ev).1.2 = Some en -> errno w' = en) /\
    Inv w' /\ held w' = held w.
Proof.
  intros HI Hpool Hp Hready Hidx Hop Hm.
  destruct (SpungeEpollCtl_safe ok pool w epFd op fd (Some ev) HI Hpool) as (r & w' & E & HI' & HK' & HQ).
  destruct (HQ es s e x Hready ltac:(done)) as (epi & Hf & [HA HD HM]). destruct Hready as [Hopen _ (-> & Ex & Hst)].
  assert (Hw : willing ok w (Z.of_nat s)).
  { split; [done|]. intros s' x' Hs' Ex'. assert (s' = s) as -> by lia. rewrite Ex in Ex'. injection Ex' as <-. rewrite Hst. done. }
  pose proof (found_registers _ _ _ _ _ HI Hm Hf) as Hnone. unfold ctlSpec. rewrite E. exists w'.
  destruct epi as [a|].
  - destruct Hf as [Ha Hfd]. destruct (m !! _) as [old|] eqn:Em; [|now destruct Hnone as [_ Hnone]; specialize (Hnone eq_refl)].
    destruct Hop as [-> | [-> | ->]]; cbn [Z.eqb].
    + destruct (HA eq_refl ev eq_refl) as (_ & H2 & _). destruct (H2 ltac:(done)) as (-> & HS & Hen).
      split; [done|]. split; [now apply (registers_settled w)|]. split; [now intros en [= <-]|]. split; [done|apply (keeps_held _ _ HK')].
    + destruct (HD eq_refl) as (H1 & _ & H3). specialize (H3 ltac:(done) Hw) as ->. destruct (H1 eq_refl) as (a' & [= <-] & Hg).
      split; [done|]. split; [|split; [done|]; split; [done|apply (keeps_held _ _ HK')]].
      exact (registers_delete w w' m e _ Hm (itemGone_registered _ _ _ _ _ HI Ha Hfd Hg)).
    + destruct (HM eq_refl ev eq_refl) as (H1 & _ & H3). specialize (H3 ltac:(done) Hw) as ->. destruct (H1 eq_refl) as (a' & [= <-] & Hg).
      split; [done|]. split; [|split; [done|]; split; [done|apply (keeps_held _ _ HK')]].
      exact (registers_insert w w' m e _ _ Hm (itemMod_registered _ _ _ _ _ _ HI Ha Hfd Hg)).
  - rewrite (proj1 Hnone eq_refl). destruct Hop as [-> | [-> | ->]]; cbn [Z.eqb].
    + destruct (HA eq_refl ev eq_refl) as (H1 & _ & H3). specialize (H3 eq_refl Hw Hp Hidx) as ->. destruct (H1 eq_refl) as (_ & Hg).
      split; [done|]. split; [|split; [done|]; split; [done|apply (keeps_held _ _ HK')]].
      apply (registers_insert w w' m e); [done|]. intros e' fd' ev'. rewrite (itemIn_registered _ _ _ _ _ HI Hg), <- (Hm e' fd' ev').
      destruct (decide ((e', fd') = (e, Z.of_nat s))) as [Heq|Hne]; [|naive_solver]. injection Heq as -> ->. rewrite (proj1 Hnone eq_refl). naive_solver.
    + destruct (HD eq_refl) as (_ & H2 & _). destruct (H2 eq_refl) as (-> & HS & Hen).
      split; [done|]. split; [now apply (registers_settled w)|]. split; [now intros en [= <-]|]. split; [done|apply (keeps_held _ _ HK')].
    + destruct (HM eq_refl ev eq_refl) as (_ & H2 & _). destruct (H2 eq_refl) as (-> & HS & Hen).
      split; [done|]. split; [now apply (registers_settled w)|]. split; [now intros en [= <-]|]. split; [done|apply (keeps_held _ _ HK')].
Qed.

(** C26: an event is not lost.  When a socket raises an event that an item on its
    list asks for, the callback signals the instance of the item, and the next
    collection of events with room for all items reports it with the user's data;
    no collection reports more events than there is room for. *)
Theorem epoll_event_delivered ok w s up l a i e mx timeout : Inv w -> openFor ok w -> (s < length (socks w))%nat -> waitList w s l ->
  a ∈ l -> items w !! a = Some i -> ep i = Some e -> Z.land (events (event i)) up <> 0 -> 0 < now w a ->
  Z.of_nat (size (items w)) <= mx ->
  exists w1 out w2, EpollEventCallback ok s up w = Some (tt, w1) /\ alert w1 e /\
    EpGetEventsAndSignal ok e mx timeout w1 = Some (Z.of_nat (length out), out, w2) /\
    mkEvent (now w a) (data (event i)) ∈ out /\ Z.of_nat (length out) <= mx /\ Inv w2 /\ held w2 = held w.
Proof.
  intros HI [Hok Hinit] Hs Hl Ha Ei Ee Hup Hnow Hmx.
  destruct (EpollEventCallback_safe ok w s up HI Hs) as ([] & w1 & E1 & HI1 & HK1 & HS1 & Es1 & _ & _ & HN).
  destruct (HN Hok l a i e Hl Ha Ei Ee Hup) as [Hlk Hal]. exists w1.
  assert (Hsz : size (items w1) = size (items w)).
  { rewrite <- (map_size_fmap core (items w1)), (settled_core _ _ HS1). apply map_size_fmap. }
  assert (Ho : owned (items w1) e a).
  { destruct (steady_item _ _ _ _ (settled_steady _ _ HS1) Ei) as (i' & Ei' & [= Hi' _]). exists i'. split; [done|congruence]. }
  destruct (linked_ready _ _ _ HI1 Ho Hlk) as (rl & Hrl & Hin & Hlen). destruct Hal as (p & Ep & Hp).
  destruct (EpGetEventsAndSignal_safe ok w1 e mx timeout HI1) as (r & w2 & E2 & HI2 & HK2 & _ & HR);
    [now rewrite (keeps_init _ _ HK1)|eauto|]. destruct (HR rl Hrl Hok) as [-> _].
  exists (report w1 rl mx []).1, w2. split; [exact E1|]. split; [now exists p|]. split; [exact E2|].
  destruct (settled_now _ _ a HS1 Es1) as [Hn Hi]. split; [|split; [apply report_bound; cbn; lia|]].
  - pose proof (report_in w1 rl mx a Hin ltac:(lia) [] ltac:(cbn; lia)) as H. rewrite Hn, Hi in H. unfold interest in H. now rewrite Ei in H.
  - split; [done|]. now rewrite (keeps_held _ _ HK2), (keeps_held _ _ HK1).
Qed.

(** ** A sample *)

(** An epoll socket and a connection with data to read. *)
Definition sampleArr : list Z := replicate 10 FILLP_INVALID_INT.
Definition sampleEpoll : FtSocket := mkSocket SOCK_ALLOC_STATE_EPOLL 0 (Some 0%nat) 0 0 0 0 sampleArr 0 0.
Definition sampleConn : FtSocket := mkSocket SOCK_ALLOC_STATE_COMM 0 None 1 0 0 0 sampleArr 0 0.
Definition sampleWorld : World := freshWorld 4 [sampleEpoll; sampleConn] {[0%nat]}.
Definition samplePool : option (nat * (RbNode * SpungeEpollEvent)) := Some (7%nat, (mkNode None None None 0, mkEvent 0 0)).
Definition sampleAsk : SpungeEpollEvent := mkEvent SPUNGE_EPOLLIN 99.
Definition free (at_ : Site) : bool := true.
Definition sampleAdded : World :=
  match SpungeEpollCtl free samplePool 0 SPUNGE_EPOLL_CTL_ADD 1 (Some sampleAsk) sampleWorld with
  | Some (_, w) => w
  | None => sampleWorld
  end.

Lemma sampleWorld_Inv : Inv sampleWorld.
Proof.
  apply Inv_fresh; [lia|]. intros x [->|[->|[]%elem_of_nil]%elem_of_cons]%elem_of_cons; (split; [split; cbn; lia|]); cbn; [|discriminate].
  intros e [= <-]. set_solver.
Qed.

Lemma sampleAdded_Inv : Inv sampleAdded /\ hasInited sampleAdded = true.
Proof.
  destruct (SpungeEpollCtl_safe free samplePool sampleWorld 0 SPUNGE_EPOLL_CTL_ADD 1 (Some sampleAsk)) as (r & w & E & HI & HK & _).
  - apply sampleWorld_Inv.
  - done.
  - unfold sampleAdded. rewrite E. split; [done|]. now rewrite (keeps_init _ _ HK).
Qed.

Lemma samplePool_ok : poolOk sampleWorld samplePool.
Proof. now split. Qed.

Lemma sampleReady : ctlReady free sampleWorld 0 1 0 1 0 sampleConn.
Proof. split; [now split|now exists sampleEpoll|done]. Qed.

Lemma sample_empty : registers sampleWorld ∅.
Proof.
  intros e fd ev. split; [done|]. intros (a & _ & E). cbn in E. rewrite fmap_empty in E. discriminate.
Qed.

Lemma epoll_memory_safe_witness : exists w1 r w2,
  runs sampleWorld [Ctl free samplePool 0 SPUNGE_EPOLL_CTL_ADD 1 (Some sampleAsk)] w1 /\
  runCall (GetEvents free 0 4 0) w1 = Some (r, w2) /\ Inv w2 /\ held w2 = [].
Proof.
  destruct (runCall_safe sampleWorld (Ctl free samplePool 0 SPUNGE_EPOLL_CTL_ADD 1 (Some sampleAsk)))
    as (r1 & w1 & E1 & HI1 & HK1 & _); [exact sampleWorld_Inv|reflexivity|exact samplePool_ok|].
  assert (Hr : runs sampleWorld [Ctl free samplePool 0 SPUNGE_EPOLL_CTL_ADD 1 (Some sampleAsk)] w1)
    by (apply (runs_snoc _ [] sampleWorld _ r1); [constructor|exact samplePool_ok|exact E1]).
  destruct (epoll_memory_safe sampleWorld _ w1 (GetEvents free 0 4 0) sampleWorld_Inv eq_refl Hr) as (r & w2 & E2 & HI2 & Hh).
  - apply (keeps_eps _ _ HK1). now exists (mkEventPoll None 0 0).
  - exists w1, r, w2. split; [exact Hr|]. split; [exact E2|]. split; [exact HI2|exact Hh].
Defined.

Lemma epoll_ctl_refines_map_witness : exists w',
  SpungeEpollCtl free samplePool 0 SPUNGE_EPOLL_CTL_ADD 1 (Some sampleAsk) sampleWorld = Some (0, w') /\
  registers w' {[(0%nat, 1) := mkEvent 25 99]}.
Proof.
  destruct (epoll_ctl_refines_map free samplePool sampleWorld 0 SPUNGE_EPOLL_CTL_ADD 1 sampleAsk 0 1 0 sampleConn ∅)
    as (w' & E & Hr & _); [exact sampleWorld_Inv|exact samplePool_ok|discriminate|exact sampleReady|reflexivity|now left|exact sample_empty|].
  exists w'. split; [exact E|exact Hr].
Defined.

Lemma epoll_event_delivered_witness : exists w1 out w2,
  EpollEventCallback free 1 SPUNGE_EPOLLIN sampleAdded = Some (tt, w1) /\
  EpGetEventsAndSignal free 0 4 0 w1 = Some (Z.of_nat (length out), out, w2) /\ mkEvent SPUNGE_EPOLLIN 99 ∈ out.
Proof.
  destruct sampleAdded_Inv as [HI Hinit]. assert (Hlen : length (socks sampleAdded) = 2%nat) by (vm_compute; reflexivity).
  destruct (waitList_head sampleAdded 1 7 HI) as [l Hl]; [rewrite Hlen; lia|vm_compute; reflexivity|].
  destruct (epoll_event_delivered free sampleAdded 1 SPUNGE_EPOLLIN (7%nat :: l) 7 (mkItem (Some 0%nat) (mkEvent 25 99) 1 1) 0 4 0)
    as (w1 & out & w2 & E1 & _ & E2 & Hin & _).
  - exact HI.
  - now split.
  - rewrite Hlen. lia.
  - exact Hl.
  - left.
  - vm_compute. reflexivity.
  - reflexivity.
  - vm_compute. discriminate.
  - vm_compute. reflexivity.
  - vm_compute. discriminate.
  - exists w1, out, w2. split; [exact E1|]. split; [exact E2|]. exact Hin.
Defined.

End Epoll.
