(* ===== verification/SkipList.v ===== *)
(** * Skip lists of the fillp transport

    components/nstackx/fillp/src/public/src/skiplist.c with
    public/include/skiplist.h.  The transport keeps its packets in skip lists,
    ordered by sequence number: those that wait to be sent again, those that were
    received out of order.  A node is a part of the packet; it is linked in both
    directions on as many levels as it has drawn from a table of random bits.

    The model has the memory of the nodes and the arrays of the list.  The
    theorems show that on every level the links form the list of the nodes of at
    least that level, and that the operations implement a sorted sequence. *)

From S2P Require Import Prelude.
From stdpp Require Import gmap list sorting.
#[local] Open Scope Z_scope.

Module SkipList.

Definition MAX_SKIPLIST_LEVEL : nat := 16.
Definition MAX_RANDOM_LEV : Z := 1024.
Definition ERR_OK : Z := 0.
Definition ERR_PARAM : Z := -4.
Definition ERR_COMM : Z := -1000.

Section Model.

(** [I]: the objects that are linked ([void *item]); [funcCmp] compares two. *)
Context {I : Type} (funcCmp : I -> I -> Z).

Record SkipListNode := mkNode {
  item : option I;
  forward : list (option nat);
  pre : list (option nat);
  level : Z
}.

Record List := mkList {
  head : option nat;
  tail : option nat;
  hnode : list (option nat);
  tnode : list (option nat);
  lLevel : Z;
  nodeNum : Z;
  randomLev : list Z;
  randomIndex : Z
}.

(** The nodes by their address, and the list. *)
Record Store := mkStore { nodes : gmap nat SkipListNode; lst : List }.

(** ** Access *)

Definition load (x : option nat) (st : Store) : option SkipListNode := a ← x; nodes st !! a.
Definition getForward (x : option nat) (i : nat) (st : Store) : option (option nat) := n ← load x st; forward n !! i.
Definition getPre (x : option nat) (i : nat) (st : Store) : option (option nat) := n ← load x st; pre n !! i.

Definition setAt {A} (i : nat) (v : A) (l : list A) : option (list A) :=
  _ ← l !! i; Some (<[i := v]> l).

Definition setForward (v x : option nat) (i : nat) (st : Store) : option Store :=
  a ← x;
  n ← nodes st !! a;
  f ← setAt i v (forward n);
  Some (mkStore (<[a := mkNode (item n) f (pre n) (level n)]> (nodes st)) (lst st)).
Definition setPre (v x : option nat) (i : nat) (st : Store) : option Store :=
  a ← x;
  n ← nodes st !! a;
  p ← setAt i v (pre n);
  Some (mkStore (<[a := mkNode (item n) (forward n) p (level n)]> (nodes st)) (lst st)).

Definition withList (f : List -> List) (st : Store) : Store := mkStore (nodes st) (f (lst st)).
Definition setHead (v : option nat) : Store -> Store :=
  withList (fun l => mkList v (tail l) (hnode l) (tnode l) (lLevel l) (nodeNum l) (randomLev l) (randomIndex l)).
Definition setTail (v : option nat) : Store -> Store :=
  withList (fun l => mkList (head l) v (hnode l) (tnode l) (lLevel l) (nodeNum l) (randomLev l) (randomIndex l)).
Definition setLevel (v : Z) : Store -> Store :=
  withList (fun l => mkList (head l) (tail l) (hnode l) (tnode l) v (nodeNum l) (randomLev l) (randomIndex l)).
Definition setNodeNum (v : Z) : Store -> Store :=
  withList (fun l => mkList (head l) (tail l) (hnode l) (tnode l) (lLevel l) v (randomLev l) (randomIndex l)).
Definition setHnode (v : option nat) (i : nat) (st : Store) : option Store :=
  h ← setAt i v (hnode (lst st));
  Some (withList (fun l => mkList (head l) (tail l) h (tnode l) (lLevel l) (nodeNum l) (randomLev l) (randomIndex l)) st).
Definition setTnode (v : option nat) (i : nat) (st : Store) : option Store :=
  t ← setAt i v (tnode (lst st));
  Some (withList (fun l => mkList (head l) (tail l) (hnode l) t (lLevel l) (nodeNum l) (randomLev l) (randomIndex l)) st).

#[local] Arguments getForward : simpl never.
#[local] Arguments getPre : simpl never.
#[local] Arguments setForward : simpl never.
#[local] Arguments setPre : simpl never.
#[local] Arguments setHnode : simpl never.
#[local] Arguments setTnode : simpl never.

(** ** Creation *)

Definition noNodes : list (option nat) := replicate MAX_SKIPLIST_LEVEL None.

(** [bits]: the results of FILLP_RAND. *)
Definition SkiplistInit (bits : list Z) (st : Store) : Z * Store :=
  (ERR_OK, mkStore (nodes st)
     (mkList None None noNodes noNodes 0 0 (map (fun b => Z.land b 1) bits) 0)).

Definition SkiplistDestroy (st : Store) : Store :=
  let l := lst st in
  mkStore (nodes st) (mkList None None noNodes noNodes (lLevel l) 0 (randomLev l) (randomIndex l)).

(** [k] is incremented while the next bit is set and [k] is below the maximum; the index moves
    with every look at the table. *)
Fixpoint randomLoop (fuel : nat) (k : Z) (l : List) : option (Z * List) :=
  match fuel with
  | O => None
  | S fuel' =>
      b ← randomLev l !! Z.to_nat (Z.land (randomIndex l) (MAX_RANDOM_LEV - 1));
      let l := mkList (head l) (tail l) (hnode l) (tnode l) (lLevel l) (nodeNum l) (randomLev l)
                 (u32 (randomIndex l + 1)) in
      if negb (b =? 0) && (k <? Z.of_nat MAX_SKIPLIST_LEVEL) then randomLoop fuel' (k + 1) l else Some (k, l)
  end.

Definition SkiplistRandomLevel (l : List) : option (Z * List) := randomLoop MAX_SKIPLIST_LEVEL 1 l.

(** ** Removal *)

Definition SkipListGetPop (st : Store) : option nat := head (lst st).
Definition SkipListGetTail (st : Store) : option nat := tail (lst st).
Definition SkiplistGetNodeNum (st : Store) : Z := nodeNum (lst st).

(** The loop from [n - 1] down to 0. *)
Fixpoint popLoop (h : option nat) (n : nat) (st : Store) : option Store :=
  match n with
  | O => Some st
  | S index =>
      f ← getForward h index st;
      st ← setHnode f index st;
      st ← (match f with
            | None => st ← setTnode None index st; Some (setLevel (lLevel (lst st) - 1) st)
            | Some _ => setPre None f index st
            end);
      popLoop h index st
  end.

Definition SkipListPopValue (st : Store) : option (option I * Store) :=
  match head (lst st) with
  | None => Some (None, st)
  | Some _ =>
      let h := head (lst st) in
      n ← load h st;
      st ← popLoop h (Z.to_nat (level n)) st;
      f ← getForward h 0 st;
      let st := setHead f st in
      let st := match f with None => setTail None st | Some _ => st end in
      let st := setNodeNum (u32 (nodeNum (lst st) - 1)) st in
      n ← load h st;
      Some (item n, st)
  end.

Fixpoint popTailLoop (t : option nat) (n : nat) (st : Store) : option Store :=
  match n with
  | O => Some st
  | S index =>
      p ← getPre t index st;
      st ← (match p with
            | Some _ => setForward None p index st
            | None => let st := setLevel (lLevel (lst st) - 1) st in setHnode None index st
            end);
      st ← setTnode p index st;
      popTailLoop t index st
  end.

Definition SkipListPopTail (st : Store) : option (option I * Store) :=
  match tail (lst st) with
  | None => Some (None, st)
  | Some _ =>
      let t := tail (lst st) in
      n ← load t st;
      st ← popTailLoop t (Z.to_nat (level n)) st;
      p ← getPre t 0 st;
      let st := setTail p st in
      let st := match p with None => setHead None st | Some _ => st end in
      let st := setNodeNum (u32 (nodeNum (lst st) - 1)) st in
      n ← load t st;
      Some (item n, st)
  end.

(** ** Insertion *)

(** [while (next && funcCmp(item, next->item) > 0)]; an item of a node is not NULL. *)
Fixpoint advance (fuel : nat) (x : I) (prev next : option nat) (index : nat) (st : Store) :
    option (option nat * option nat) :=
  match next with
  | None => Some (prev, None)
  | Some _ =>
      n ← load next st;
      y ← item n;
      if 0 <? funcCmp x y then
        match fuel with
        | O => None
        | S fuel' => f ← getForward next index st; advance fuel' x next f index st
        end
      else Some (prev, next)
  end.

(** The nodes before the place on each level, and the node after it on the lowest. *)
Fixpoint searchLoop (x : I) (n : nat) (prev next : option nat) (prevRecord : list (option nat)) (st : Store) :
    option (list (option nat) * option nat) :=
  match n with
  | O => Some (prevRecord, next)
  | S index =>
      next ← (match prev with None => hnode (lst st) !! index | Some _ => getForward prev index st end);
      '(prev, next) ← advance (size (nodes st)) x prev next index st;
      prevRecord ← setAt index prev prevRecord;
      searchLoop x index prev next prevRecord st
  end.

(** The node is linked behind the recorded nodes, level [index] and [n - 1] more. *)
Fixpoint linkLoop (node : nat) (prevRecord : list (option nat)) (index n : nat) (st : Store) : option Store :=
  match n with
  | O => Some st
  | S n' =>
      p ← prevRecord !! index;
      st ← (match p with
            | None =>
                h ← hnode (lst st) !! index;
                st ← setForward h (Some node) index st;
                h ← hnode (lst st) !! index;
                st ← setPre (Some node) h index st;
                setHnode (Some node) index st
            | Some _ =>
                f ← getForward p index st;
                st ← setForward f (Some node) index st;
                st ← setPre p (Some node) index st;
                f ← getForward (Some node) index st;
                st ← (match f with
                      | None => setTnode (Some node) index st
                      | Some _ => f ← getForward p index st; setPre (Some node) f index st
                      end);
                setForward (Some node) p index st
            end);
      linkLoop node prevRecord (S index) n' st
  end.

Definition SkiplistInsertAtMid (x : I) (node : nat) (errIfConflict : bool) (curMinLevel : Z) (st : Store) :
    option (Z * Store) :=
  '(prevRecord, next) ← searchLoop x (Z.to_nat (lLevel (lst st))) None None noNodes st;
  conflict ← (match next with
              | None => Some false
              | Some _ => n ← load next st; y ← item n; Some ((funcCmp y x =? 0) && errIfConflict)
              end);
  if (conflict : bool) then Some (ERR_COMM, st)
  else st ← linkLoop node prevRecord 0 (Z.to_nat curMinLevel) st; Some (ERR_OK, st).

Fixpoint bothLoop (node : nat) (index n : nat) (st : Store) : option Store :=
  match n with
  | O => Some st
  | S n' =>
      st ← setHnode (Some node) index st;
      st ← setTnode (Some node) index st;
      bothLoop node (S index) n' st
  end.

(** Each level is set once; the code goes from the highest to the lowest. *)
Definition SkipListInsertFirstNode (node : nat) (st : Store) : option Store :=
  n ← load (Some node) st;
  let st := setTail (Some node) (setHead (Some node) st) in
  st ← bothLoop node 0 (Z.to_nat (level n)) st;
  let st := setLevel (level n) st in
  Some (setNodeNum (u32 (nodeNum (lst st) + 1)) st).

Fixpoint tailLoop (node : nat) (index n : nat) (st : Store) : option Store :=
  match n with
  | O => Some st
  | S n' =>
      t ← tnode (lst st) !! index;
      st ← setPre t (Some node) index st;
      t ← tnode (lst st) !! index;
      st ← setForward (Some node) t index st;
      st ← setTnode (Some node) index st;
      tailLoop node (S index) n' st
  end.

Definition SkipListInsertAtTail (node : nat) (curMinLevel : Z) (st : Store) : option Store :=
  tailLoop node 0 (Z.to_nat curMinLevel) st.

Fixpoint headLoop (node : nat) (index n : nat) (st : Store) : option Store :=
  match n with
  | O => Some st
  | S n' =>
      h ← hnode (lst st) !! index;
      st ← setPre (Some node) h index st;
      h ← hnode (lst st) !! index;
      st ← setForward h (Some node) index st;
      st ← setHnode (Some node) index st;
      headLoop node (S index) n' st
  end.

Definition SkipListInsertAtHead (node : nat) (curMinLevel : Z) (st : Store) : option Store :=
  headLoop node 0 (Z.to_nat curMinLevel) st.

(** The end of an insertion: levels that are new, the count, both ends. *)
Definition insertDone (node : nat) (lev : Z) (st : Store) : option Store :=
  st ← (if lLevel (lst st) <? lev then
          st' ← bothLoop node (Z.to_nat (lLevel (lst st))) (Z.to_nat (lev - lLevel (lst st))) st;
          Some (setLevel lev st')
        else Some st);
  let st := setNodeNum (u32 (nodeNum (lst st) + 1)) st in
  h ← hnode (lst st) !! 0%nat;
  t ← tnode (lst st) !! 0%nat;
  Some (setTail t (setHead h st)).

(** The part of SkipListInsert after the node was prepared. *)
Definition insertNode (x : I) (node : nat) (lev : Z) (errIfConflict : bool) (st : Store) : option (Z * Store) :=
  match head (lst st) with
  | None => st ← SkipListInsertFirstNode node st; Some (ERR_OK, st)
  | Some _ =>
      let curMinLevel := if lLevel (lst st) >? lev then lev else lLevel (lst st) in
      t ← load (tail (lst st)) st; tx ← item t;
      h ← load (head (lst st)) st; hx ← item h;
      if 0 <? funcCmp x tx then
        st ← SkipListInsertAtTail node curMinLevel st; st ← insertDone node lev st; Some (ERR_OK, st)
      else if 0 <? funcCmp hx x then
        st ← SkipListInsertAtHead node curMinLevel st; st ← insertDone node lev st; Some (ERR_OK, st)
      else
        '(r, st) ← SkiplistInsertAtMid x node errIfConflict curMinLevel st;
        if negb (r =? 0) then Some (ERR_COMM, st)
        else st ← insertDone node lev st; Some (ERR_OK, st)
  end.

Definition SkipListInsert (x : option I) (node : nat) (errIfConflict : bool) (st : Store) : option (Z * Store) :=
  match x with
  | None => Some (ERR_PARAM, st)
  | Some x =>
      _ ← nodes st !! node;
      '(lev, l) ← SkiplistRandomLevel (lst st);
      insertNode x node lev errIfConflict (mkStore (<[node := mkNode (Some x) noNodes noNodes lev]> (nodes st)) l)
  end.

(** ** Links of one level *)

(** Arrays have their length. *)
Definition typed (st : Store) : Prop :=
  (forall a n, nodes st !! a = Some n -> length (forward n) = MAX_SKIPLIST_LEVEL /\ length (pre n) = MAX_SKIPLIST_LEVEL) /\
  length (hnode (lst st)) = MAX_SKIPLIST_LEVEL /\ length (tnode (lst st)) = MAX_SKIPLIST_LEVEL.

Definition keep (n : SkipListNode) : option I * Z := (item n, level n).
Definition rest (l : List) := (head l, tail l, nodeNum l, randomLev l, randomIndex l).

(** Only links changed. *)
Definition relinked (st st' : Store) : Prop :=
  (forall a, keep <$> nodes st' !! a = keep <$> nodes st !! a) /\ rest (lst st') = rest (lst st).

Definition levelOk (st : Store) (i : nat) (c : list nat) : Prop :=
  hnode (lst st) !! i = Some (c !! 0%nat) /\ tnode (lst st) !! i = Some (last c) /\
  forall p a s, c = p ++ a :: s -> getForward (Some a) i st = Some (s !! 0%nat) /\ getPre (Some a) i st = Some (last p).

Definition sameAt (j : nat) (st st' : Store) : Prop :=
  hnode (lst st') !! j = hnode (lst st) !! j /\ tnode (lst st') !! j = tnode (lst st) !! j /\
  (forall a, getForward (Some a) j st' = getForward (Some a) j st) /\ (forall a, getPre (Some a) j st' = getPre (Some a) j st).

Lemma levelOk_frame st st' j c : sameAt j st st' -> levelOk st j c -> levelOk st' j c.
Proof.
  intros (Hh & Ht & Hf & Hp) (H1 & H2 & H3). split; [congruence|]. split; [congruence|].
  intros p a s E. rewrite Hf, Hp. exact (H3 p a s E).
Qed.

Lemma relinked_refl st : relinked st st.
Proof. now split. Qed.
Lemma relinked_trans st1 st2 st3 : relinked st1 st2 -> relinked st2 st3 -> relinked st1 st3.
Proof. intros [H1 H2] [H3 H4]. split; [intros a; now rewrite H3|congruence]. Qed.
Lemma sameAt_refl j st : sameAt j st st.
Proof. now repeat split. Qed.
Lemma sameAt_trans j st1 st2 st3 : sameAt j st1 st2 -> sameAt j st2 st3 -> sameAt j st1 st3.
Proof. intros (A & B & C & D) (A' & B' & C' & D'). repeat split; intros; congruence. Qed.

Lemma setAt_ok {A} i (v : A) l : (i < length l)%nat -> setAt i v l = Some (<[i := v]> l).
Proof. intros H. unfold setAt. destruct (lookup_lt_is_Some_2 l i H) as [y ->]. reflexivity. Qed.

(** What an assignment to a link changes. *)
Record linkSet (st st' : Store) (F P : nat -> nat -> option (option nat)) : Prop := {
  ls_typed : typed st';
  ls_relinked : relinked st st';
  ls_lst : lst st' = lst st;
  ls_forward : forall b j, getForward (Some b) j st' = F b j;
  ls_pre : forall b j, getPre (Some b) j st' = P b j
}.

Lemma setForward_spec v a i st : typed st -> is_Some (nodes st !! a) -> (i < MAX_SKIPLIST_LEVEL)%nat ->
  exists st', setForward v (Some a) i st = Some st' /\
    linkSet st st' (fun b j => if decide (b = a /\ j = i) then Some v else getForward (Some b) j st)
                   (fun b j => getPre (Some b) j st).
Proof.
  intros Ht [n Hn] Hi. destruct (proj1 Ht a n Hn) as [Hf Hp]. unfold setForward. cbn. rewrite Hn. cbn.
  rewrite setAt_ok by lia. cbn. eexists. split; [reflexivity|]. split; cbn.
  - split; [|exact (proj2 Ht)]. intros b m. cbn. destruct (decide (b = a)) as [-> |Hb].
    + rewrite lookup_insert_eq. intros [= <-]. cbn. now rewrite length_insert.
    + rewrite lookup_insert_ne by done. apply (proj1 Ht).
  - split; [|reflexivity]. intros b. cbn. destruct (decide (b = a)) as [-> |Hb].
    + now rewrite lookup_insert_eq, Hn.
    + now rewrite lookup_insert_ne.
  - reflexivity.
  - intros b j. unfold getForward. cbn. destruct (decide (b = a)) as [-> |Hb].
    + rewrite lookup_insert_eq. cbn. rewrite Hn. cbn. destruct (decide (j = i)) as [-> |Hj].
      * rewrite decide_True by done. rewrite list_lookup_insert_eq by lia. reflexivity.
      * rewrite decide_False by tauto. now rewrite list_lookup_insert_ne.
    + rewrite lookup_insert_ne by done. now rewrite decide_False by tauto.
  - intros b j. unfold getPre. cbn. destruct (decide (b = a)) as [-> |Hb].
    + rewrite lookup_insert_eq. cbn. now rewrite Hn.
    + now rewrite lookup_insert_ne.
Qed.

Lemma setPre_spec v a i st : typed st -> is_Some (nodes st !! a) -> (i < MAX_SKIPLIST_LEVEL)%nat ->
  exists st', setPre v (Some a) i st = Some st' /\
    linkSet st st' (fun b j => getForward (Some b) j st)
                   (fun b j => if decide (b = a /\ j = i) then Some v else getPre (Some b) j st).
Proof.
  intros Ht [n Hn] Hi. destruct (proj1 Ht a n Hn) as [Hf Hp]. unfold setPre. cbn. rewrite Hn. cbn.
  rewrite setAt_ok by lia. cbn. eexists. split; [reflexivity|]. split; cbn.
  - split; [|exact (proj2 Ht)]. intros b m. cbn. destruct (decide (b = a)) as [-> |Hb].
    + rewrite lookup_insert_eq. intros [= <-]. cbn. now rewrite length_insert.
    + rewrite lookup_insert_ne by done. apply (proj1 Ht).
  - split; [|reflexivity]. intros b. cbn. destruct (decide (b = a)) as [-> |Hb].
    + now rewrite lookup_insert_eq, Hn.
    + now rewrite lookup_insert_ne.
  - reflexivity.
  - intros b j. unfold getForward. cbn. destruct (decide (b = a)) as [-> |Hb].
    + rewrite lookup_insert_eq. cbn. now rewrite Hn.
    + now rewrite lookup_insert_ne.
  - intros b j. unfold getPre. cbn. destruct (decide (b = a)) as [-> |Hb].
    + rewrite lookup_insert_eq. cbn. rewrite Hn. cbn. destruct (decide (j = i)) as [-> |Hj].
      * rewrite decide_True by done. rewrite list_lookup_insert_eq by lia. reflexivity.
      * rewrite decide_False by tauto. now rewrite list_lookup_insert_ne.
    + rewrite lookup_insert_ne by done. now rewrite decide_False by tauto.
Qed.

(** What an assignment to an end of a level changes. *)
Record endSet (st st' : Store) (H T : nat -> option (option nat)) : Prop := {
  es_typed : typed st';
  es_nodes : nodes st' = nodes st;
  es_rest : rest (lst st') = rest (lst st);
  es_level : lLevel (lst st') = lLevel (lst st);
  es_hnode : forall j, hnode (lst st') !! j = H j;
  es_tnode : forall j, tnode (lst st') !! j = T j
}.

Lemma setHnode_spec v i st : typed st -> (i < MAX_SKIPLIST_LEVEL)%nat ->
  exists st', setHnode v i st = Some st' /\
    endSet st st' (fun j => if decide (j = i) then Some v else hnode (lst st) !! j) (fun j => tnode (lst st) !! j).
Proof.
  intros (Hn & Hh & Ht) Hi. unfold setHnode. rewrite setAt_ok by lia. cbn. eexists. split; [reflexivity|]. split; cbn; try done.
  - split; [exact Hn|]. cbn. now rewrite length_insert.
  - intros j. destruct (decide (j = i)) as [-> |Hj]; [now rewrite list_lookup_insert_eq by lia|now rewrite list_lookup_insert_ne].
Qed.

Lemma setTnode_spec v i st : typed st -> (i < MAX_SKIPLIST_LEVEL)%nat ->
  exists st', setTnode v i st = Some st' /\
    endSet st st' (fun j => hnode (lst st) !! j) (fun j => if decide (j = i) then Some v else tnode (lst st) !! j).
Proof.
  intros (Hn & Hh & Ht) Hi. unfold setTnode. rewrite setAt_ok by lia. cbn. eexists. split; [reflexivity|]. split; cbn; try done.
  - split; [exact Hn|]. cbn. now rewrite length_insert.
  - intros j. destruct (decide (j = i)) as [-> |Hj]; [now rewrite list_lookup_insert_eq by lia|now rewrite list_lookup_insert_ne].
Qed.

Lemma endSet_links st st' H T : endSet st st' H T ->
  (forall x j, getForward x j st' = getForward x j st) /\ (forall x j, getPre x j st' = getPre x j st) /\ relinked st st'.
Proof.
  intros E. pose proof (es_nodes _ _ _ _ E) as En. unfold getForward, getPre, load. rewrite En. repeat split; [|apply (es_rest _ _ _ _ E)].
  intros a. now rewrite En.
Qed.

(** ** Lists cut at an element *)

Lemma split_cases {A} (p1 s1 p s : list A) a x : p1 ++ a :: s1 = p ++ x :: s ->
  (p1 = p /\ a = x /\ s1 = s) \/ (exists q, p = p1 ++ a :: q /\ s1 = q ++ x :: s) \/ (exists q, s = q ++ a :: s1 /\ p1 = p ++ x :: q).
Proof.
  revert p. induction p1 as [|b p1 IH]; intros [|c p] E; cbn in E.
  - injection E as -> ->. now left.
  - injection E as -> ->. right. left. now exists p.
  - injection E as -> <-. right. right. now exists p1.
  - injection E as -> E. destruct (IH p E) as [(-> & -> & ->)|[(q & -> & ->)|(q & -> & ->)]]; [now left|right; left; now exists q|right; right; now exists q].
Qed.

Lemma NoDup_last_split {A} (p : list A) a q : NoDup (p ++ a :: q) -> q <> [] -> last (p ++ a :: q) <> Some a.
Proof.
  intros Hd Hq. destruct (exists_last Hq) as (q' & z & ->). rewrite app_comm_cons, app_assoc, last_snoc. intros [= ->].
  rewrite app_comm_cons, app_assoc in Hd. apply NoDup_app in Hd as (_ & Hd & _). apply (Hd a); [|now apply elem_of_cons; left].
  apply elem_of_app. right. apply elem_of_cons. now left.
Qed.

Lemma levelOk_insert st st' i p x s : NoDup (p ++ x :: s) -> levelOk st i (p ++ s) ->
  hnode (lst st') !! i = Some ((p ++ x :: s) !! 0%nat) -> tnode (lst st') !! i = Some (last (p ++ x :: s)) ->
  (forall b, getForward (Some b) i st' =
     if decide (b = x) then Some (s !! 0%nat) else if decide (Some b = last p) then Some (Some x) else getForward (Some b) i st) ->
  (forall b, getPre (Some b) i st' =
     if decide (b = x) then Some (last p) else if decide (Some b = s !! 0%nat) then Some (Some x) else getPre (Some b) i st) ->
  levelOk st' i (p ++ x :: s).
Proof.
  intros Hd (_ & _ & Ho) Hh Ht Hf Hp. split; [exact Hh|]. split; [exact Ht|]. intros p1 a s1 E.
  rewrite Hf, Hp. symmetry in E. destruct (split_cases _ _ _ _ _ _ E) as [(-> & -> & ->)|[(q & -> & ->)|(q & -> & ->)]].
  - now rewrite !decide_True.
  - rewrite <- app_assoc in Hd, Ho. destruct (Ho p1 a (q ++ s) eq_refl) as [Ef Ep].
    assert (Hax : a <> x). { intros ->. apply NoDup_app in Hd as (_ & _ & Hd). apply NoDup_cons in Hd as [Hd _]. apply Hd. set_solver. }
    assert (Has : Some a <> s !! 0%nat).
    { destruct s as [|y s]; [done|]. intros [= ->]. apply NoDup_app in Hd as (_ & _ & Hd). apply NoDup_cons in Hd as [Hd _]. apply Hd. set_solver. }
    rewrite !(decide_False (P := a = x)), (decide_False (P := Some a = s !! 0%nat)), Ep by done. split; [|reflexivity].
    destruct q as [|y q].
    + rewrite decide_True by now rewrite last_snoc. reflexivity.
    + rewrite decide_False; [rewrite Ef; reflexivity|]. intros El. symmetry in El. apply NoDup_last_split in El; [done| |done].
      rewrite app_assoc in Hd. now apply NoDup_app in Hd as (Hd & _).
  - destruct (Ho (p ++ q) a s1) as [Ef Ep]; [now rewrite <- app_assoc|].
    assert (Hax : a <> x). { intros ->. apply NoDup_app in Hd as (_ & _ & Hd). apply NoDup_cons in Hd as [Hd _]. apply Hd. set_solver. }
    assert (Hal : Some a <> last p).
    { intros El. symmetry in El. apply last_Some_elem_of in El. apply NoDup_app in Hd as (_ & Hd & _). apply (Hd a El). set_solver. }
    rewrite !(decide_False (P := a = x)), (decide_False (P := Some a = last p)), Ef by done. split; [reflexivity|].
    destruct q as [|y q].
    + rewrite decide_True by done. now rewrite last_snoc.
    + rewrite decide_False.
      * rewrite Ep. f_equal. rewrite !last_app. cbn. destruct q; [done|]. reflexivity.
      * intros [= ->]. apply NoDup_app in Hd as (_ & _ & Hd). apply NoDup_cons in Hd as [_ Hd]. cbn in Hd. apply NoDup_cons in Hd as [Hd _]. apply Hd. set_solver.
Qed.

Lemma levelOk_popHead st st' i h c : NoDup (h :: c) -> levelOk st i (h :: c) ->
  hnode (lst st') !! i = Some (c !! 0%nat) -> tnode (lst st') !! i = Some (last c) ->
  (forall b, getForward (Some b) i st' = getForward (Some b) i st) ->
  (forall b, getPre (Some b) i st' = if decide (Some b = c !! 0%nat) then Some None else getPre (Some b) i st) ->
  levelOk st' i c.
Proof.
  intros Hd (_ & _ & Ho) Hh Ht Hf Hp. split; [exact Hh|]. split; [exact Ht|]. intros p a s ->.
  destruct (Ho (h :: p) a s eq_refl) as [Ef Ep]. rewrite Hf, Hp, Ef. split; [reflexivity|]. destruct p as [|y p].
  - now rewrite decide_True.
  - rewrite decide_False; [rewrite Ep; now destruct p|]. intros [= ->]. apply NoDup_cons in Hd as [_ Hd]. cbn in Hd.
    apply NoDup_cons in Hd as [Hd _]. apply Hd. set_solver.
Qed.

Lemma levelOk_popTail st st' i c t : NoDup (c ++ [t]) -> levelOk st i (c ++ [t]) ->
  hnode (lst st') !! i = Some (c !! 0%nat) -> tnode (lst st') !! i = Some (last c) ->
  (forall b, getForward (Some b) i st' = if decide (Some b = last c) then Some None else getForward (Some b) i st) ->
  (forall b, getPre (Some b) i st' = getPre (Some b) i st) ->
  levelOk st' i c.
Proof.
  intros Hd (_ & _ & Ho) Hh Ht Hf Hp. split; [exact Hh|]. split; [exact Ht|]. intros p a s ->.
  destruct (Ho p a (s ++ [t])) as [Ef Ep]; [now rewrite <- app_assoc|]. rewrite Hf, Hp, Ep. split; [|reflexivity]. destruct s as [|y s].
  - now rewrite decide_True by now rewrite last_snoc.
  - rewrite decide_False; [now rewrite Ef|]. intros El. symmetry in El. apply NoDup_last_split in El; [done| |done].
    now apply NoDup_app in Hd as (Hd & _).
Qed.

(** ** The list *)

Definition lv (st : Store) (a : nat) : nat := match nodes st !! a with Some n => Z.to_nat (level n) | None => 0 end.

(** The nodes of level [i], which have more than [i] levels. *)
Definition chain (f : nat -> nat) (i : nat) (l : list nat) : list nat := filter (fun a => (i < f a)%nat) l.
Definition maxlev (f : nat -> nat) (l : list nat) : nat := foldr (fun a m => Nat.max (f a) m) 0%nat l.

Record Rep (st : Store) (l : list nat) : Prop := {
  r_typed : typed st;
  r_nodup : NoDup l;
  r_nodes : forall a, a ∈ l -> exists n, nodes st !! a = Some n /\ 1 <= level n <= 16 /\ is_Some (item n);
  r_levels : forall i, (i < MAX_SKIPLIST_LEVEL)%nat -> levelOk st i (chain (lv st) i l);
  r_level : lLevel (lst st) = Z.of_nat (maxlev (lv st) l);
  r_head : head (lst st) = l !! 0%nat;
  r_tail : tail (lst st) = last l;
  r_num : nodeNum (lst st) = u32 (Z.of_nat (length l));
  r_random : length (randomLev (lst st)) = 1024%nat
}.

(** The objects of the nodes. *)
Definition itemAt (st : Store) (a : nat) : option I := n ← nodes st !! a; item n.
#[local] Arguments itemAt : simpl never.
Definition items (st : Store) (l : list nat) : list I := omap (itemAt st) l.

Lemma relinked_lv st st' : relinked st st' -> forall a, lv st' a = lv st a.
Proof.
  intros [H _] a. specialize (H a). unfold lv. destruct (nodes st' !! a), (nodes st !! a); cbn in H; try discriminate; [|reflexivity].
  injection H as _ E. now rewrite E.
Qed.
Lemma relinked_item st st' : relinked st st' -> forall a, itemAt st' a = itemAt st a.
Proof.
  intros [H _] a. specialize (H a). unfold itemAt. destruct (nodes st' !! a), (nodes st !! a); cbn in H; try discriminate; [|reflexivity].
  injection H as E _. cbn. now rewrite E.
Qed.
Lemma relinked_node st st' a : relinked st st' -> is_Some (nodes st' !! a) <-> is_Some (nodes st !! a).
Proof. intros [H _]. specialize (H a). rewrite <- (fmap_is_Some keep), H, fmap_is_Some. reflexivity. Qed.

Lemma chain_ext f g i l : (forall a, f a = g a) -> chain f i l = chain g i l.
Proof. intros H. apply list_filter_iff. intros a. now rewrite H. Qed.
Lemma chain_app f i l1 l2 : chain f i (l1 ++ l2) = chain f i l1 ++ chain f i l2.
Proof. apply filter_app. Qed.
Lemma chain_cons_in f i a l : (i < f a)%nat -> chain f i (a :: l) = a :: chain f i l.
Proof. intros H. unfold chain. now rewrite filter_cons_True. Qed.
Lemma chain_cons_out f i a l : ~ (i < f a)%nat -> chain f i (a :: l) = chain f i l.
Proof. intros H. unfold chain. now rewrite filter_cons_False. Qed.
Lemma chain_elem f i a l : a ∈ chain f i l <-> (i < f a)%nat /\ a ∈ l.
Proof. unfold chain. now rewrite list_elem_of_filter. Qed.
Lemma chain_nodup f i l : NoDup l -> NoDup (chain f i l).
Proof. apply NoDup_filter. Qed.

Lemma maxlev_cons f a l : maxlev f (a :: l) = Nat.max (f a) (maxlev f l).
Proof. reflexivity. Qed.
Lemma maxlev_ext f g l : (forall a, f a = g a) -> maxlev f l = maxlev g l.
Proof. intros H. induction l as [|a l IH]; [reflexivity|]. now rewrite !maxlev_cons, H, IH. Qed.
Lemma maxlev_app f l1 l2 : maxlev f (l1 ++ l2) = Nat.max (maxlev f l1) (maxlev f l2).
Proof. induction l1 as [|a l1 IH]; [reflexivity|]. rewrite <- app_comm_cons, !maxlev_cons, IH. lia. Qed.
Lemma chain_nil f i l : chain f i l = [] <-> (maxlev f l <= i)%nat.
Proof.
  induction l as [|a l IH]; [split; [cbn; lia|reflexivity]|]. rewrite maxlev_cons.
  destruct (decide (i < f a)%nat); [rewrite chain_cons_in by done|rewrite chain_cons_out by done; rewrite IH; lia].
  split; [discriminate|lia].
Qed.
Lemma chain_0 f l : (forall a, a ∈ l -> (1 <= f a)%nat) -> chain f 0 l = l.
Proof.
  induction l as [|a l IH]; intros H; [reflexivity|]. rewrite chain_cons_in by (pose proof (H a ltac:(set_solver)); lia).
  rewrite IH; [reflexivity|]. intros b Hb. apply H. set_solver.
Qed.

Lemma rep_lv st l a : Rep st l -> a ∈ l -> (1 <= lv st a <= 16)%nat.
Proof. intros H Ha. destruct (r_nodes _ _ H a Ha) as (n & E & Hl & _). unfold lv. rewrite E. lia. Qed.

Lemma omap_all {A B} (f : A -> option B) l : (forall a, a ∈ l -> is_Some (f a)) -> length (omap f l) = length l.
Proof.
  induction l as [|a l IH]; intros H; [reflexivity|]. cbn. destruct (H a ltac:(set_solver)) as [b ->]. cbn. rewrite IH; [reflexivity|].
  intros c Hc. apply H. set_solver.
Qed.

(** ** Removal *)

(** One level changed. *)
Definition stepped (i : nat) (st st' : Store) : Prop :=
  typed st' /\ relinked st st' /\ forall j, j <> i -> sameAt j st st'.

Lemma linkSet_stepped st st' F P i : linkSet st st' F P ->
  (forall b j, j <> i -> F b j = getForward (Some b) j st) -> (forall b j, j <> i -> P b j = getPre (Some b) j st) -> stepped i st st'.
Proof.
  intros [Ht Hr Hl Hf Hp] HF HP. split; [done|]. split; [done|]. intros j Hj. unfold sameAt. rewrite Hl. repeat split; intros a.
  - rewrite Hf. now apply HF.
  - rewrite Hp. now apply HP.
Qed.

Lemma endSet_stepped st st' H T i : endSet st st' H T ->
  (forall j, j <> i -> H j = hnode (lst st) !! j) -> (forall j, j <> i -> T j = tnode (lst st) !! j) -> stepped i st st'.
Proof.
  intros E HH HT. destruct (endSet_links _ _ _ _ E) as (Hf & Hp & Hr). split; [apply (es_typed _ _ _ _ E)|]. split; [done|].
  intros j Hj. unfold sameAt. rewrite (es_hnode _ _ _ _ E), (es_tnode _ _ _ _ E), HH, HT by done. repeat split; intros a; [apply Hf|apply Hp].
Qed.

Lemma stepped_trans i st1 st2 st3 : stepped i st1 st2 -> stepped i st2 st3 -> stepped i st1 st3.
Proof.
  intros (_ & R1 & S1) (T2 & R2 & S2). split; [done|]. split; [now apply relinked_trans with st2|].
  intros j Hj. apply sameAt_trans with st2; auto.
Qed.

Lemma stepped_level i st z : typed st -> stepped i st (setLevel z st).
Proof. intros H. split; [exact H|]. split; [split; reflexivity|]. intros j _. repeat split. Qed.

Definition popOne (h : option nat) (index : nat) (st : Store) : option Store :=
  f ← getForward h index st;
  st ← setHnode f index st;
  match f with
  | None => st ← setTnode None index st; Some (setLevel (lLevel (lst st) - 1) st)
  | Some _ => setPre None f index st
  end.

Lemma popLoop_S h n st : popLoop h (S n) st = st ← popOne h n st; popLoop h n st.
Proof.
  cbn [popLoop]. unfold popOne. destruct (getForward h n st) as [f|]; cbn; [|reflexivity].
  destruct (setHnode f n st) as [st1|]; cbn; [|reflexivity]. now destruct f.
Qed.

Lemma pop_one st i h c : typed st -> (i < MAX_SKIPLIST_LEVEL)%nat -> NoDup (h :: c) -> levelOk st i (h :: c) ->
  (forall b, b ∈ c -> is_Some (nodes st !! b)) ->
  exists st', popOne (Some h) i st = Some st' /\ stepped i st st' /\ levelOk st' i c /\
    (forall b j, getForward (Some b) j st' = getForward (Some b) j st) /\
    lLevel (lst st') = lLevel (lst st) - match c with [] => 1 | _ => 0 end.
Proof.
  intros Ht Hi Hd Ho Hn. pose proof Ho as (Hh & Htl & Hlk). destruct (Hlk [] h c eq_refl) as [Ef _]. unfold popOne. rewrite Ef. cbn.
  destruct (setHnode_spec (c !! 0%nat) i st Ht Hi) as (st1 & -> & E1). cbn.
  destruct (endSet_links _ _ _ _ E1) as (Hf1 & Hp1 & Hr1).
  assert (S1 : stepped i st st1) by (apply (endSet_stepped _ _ _ _ i E1); intros j Hj; [now rewrite decide_False|reflexivity]).
  destruct c as [|y c]; [change ([] !! 0%nat : option nat) with (@None nat)|change ((y :: c) !! 0%nat) with (Some y)]; cbv iota.
  - destruct (setTnode_spec None i st1 (proj1 S1) Hi) as (st2 & -> & E2). cbn. destruct (endSet_links _ _ _ _ E2) as (Hf2 & Hp2 & Hr2).
    eexists. split; [reflexivity|]. split; [|split; [|split]].
    + apply stepped_trans with st1; [done|]. apply stepped_trans with st2; [|apply stepped_level, (es_typed _ _ _ _ E2)].
      apply (endSet_stepped _ _ _ _ i E2); intros j Hj; [reflexivity|now rewrite decide_False].
    + apply (levelOk_popHead st _ i h []); cbn; try done.
      * rewrite (es_hnode _ _ _ _ E2), (es_hnode _ _ _ _ E1). now rewrite decide_True.
      * rewrite (es_tnode _ _ _ _ E2). now rewrite decide_True.
      * intros b. change (getForward (Some b) i st2 = getForward (Some b) i st). now rewrite Hf2, Hf1.
      * intros b. change (getPre (Some b) i st2 = getPre (Some b) i st). now rewrite Hp2, Hp1.
    + intros b j. change (getForward (Some b) j st2 = getForward (Some b) j st). now rewrite Hf2, Hf1.
    + cbn. now rewrite (es_level _ _ _ _ E2), (es_level _ _ _ _ E1).
  - destruct (setPre_spec None y i st1 (proj1 S1)) as (st2 & -> & E2); [rewrite (es_nodes _ _ _ _ E1); apply Hn, elem_of_cons; now left|done|].
    eexists. split; [reflexivity|]. pose proof E2 as [T2 R2 L2 F2 P2]. split; [|split; [|split]].
    + apply stepped_trans with st1; [done|]. eapply linkSet_stepped; [exact E2|intros; reflexivity|].
      intros b j Hj. cbn. now rewrite decide_False by tauto.
    + apply (levelOk_popHead st st2 i h (y :: c)); try done.
      * rewrite L2, (es_hnode _ _ _ _ E1). now rewrite decide_True.
      * rewrite L2, (es_tnode _ _ _ _ E1), Htl. now destruct c.
      * intros b. now rewrite F2, Hf1.
      * intros b. rewrite P2, Hp1. cbn. destruct (decide (b = y)) as [-> |Hb].
        -- now rewrite !decide_True.
        -- rewrite !decide_False; [reflexivity|congruence|tauto].
    + intros b j. now rewrite F2, Hf1.
    + rewrite L2, (es_level _ _ _ _ E1). lia.
Qed.

Lemma popLoop_ok f h r n : forall st, (n <= MAX_SKIPLIST_LEVEL)%nat -> typed st -> NoDup (h :: r) ->
  (forall b, b ∈ r -> is_Some (nodes st !! b)) -> (forall i, (i < n)%nat -> levelOk st i (h :: chain f i r)) ->
  exists st', popLoop (Some h) n st = Some st' /\ typed st' /\ relinked st st' /\
    (forall i, (i < n)%nat -> levelOk st' i (chain f i r)) /\ (forall j, (n <= j)%nat -> sameAt j st st') /\
    (forall b j, getForward (Some b) j st' = getForward (Some b) j st) /\
    lLevel (lst st') = lLevel (lst st) - Z.of_nat (n - maxlev f r).
Proof.
  induction n as [|n IH]; intros st Hn Ht Hd Hm Ho.
  - exists st. split; [reflexivity|]. split; [done|]. split; [apply relinked_refl|]. split; [lia|].
    split; [intros; apply sameAt_refl|]. split; [done|]. cbn. lia.
  - rewrite popLoop_S. apply NoDup_cons in Hd as [Hh Hd].
    destruct (pop_one st n h (chain f n r)) as (st1 & -> & (T1 & R1 & S1) & O1 & F1 & L1); [done|lia| |apply Ho; lia| |].
    { apply NoDup_cons. split; [rewrite chain_elem; tauto|now apply chain_nodup]. }
    { intros b Hb. apply Hm. now apply chain_elem in Hb. }
    cbn. destruct (IH st1) as (st2 & -> & T2 & R2 & O2 & S2 & F2 & L2); [lia|done|now apply NoDup_cons| | |].
    { intros b Hb. apply (relinked_node st st1); [done|now apply Hm]. }
    { intros i Hi. apply (levelOk_frame st); [apply S1; lia|apply Ho; lia]. }
    exists st2. split; [reflexivity|]. split; [done|]. split; [now apply relinked_trans with st1|]. split; [|split; [|split]].
    + intros i Hi. destruct (decide (i = n)) as [-> |Hne]; [|apply O2; lia]. apply (levelOk_frame st1); [apply S2; lia|done].
    + intros j Hj. apply sameAt_trans with st1; [apply S1; lia|apply S2; lia].
    + intros b j. now rewrite F2, F1.
    + rewrite L2, L1. pose proof (chain_nil f n r) as Hc. destruct (chain f n r) as [|y c].
      * assert (maxlev f r <= n)%nat by now apply Hc. lia.
      * assert (~ (maxlev f r <= n)%nat) by (intros H; now apply Hc in H). lia.
Qed.

Lemma items_ext st st' l : (forall a, a ∈ l -> itemAt st' a = itemAt st a) -> items st' l = items st l.
Proof.
  induction l as [|a l IH]; intros H; [reflexivity|]. unfold items in *. cbn. rewrite H by set_solver. rewrite IH; [reflexivity|].
  intros b Hb. apply H. set_solver.
Qed.

Lemma u32_pred_length {A} (x : A) l : u32 (u32 (Z.of_nat (length (x :: l))) - 1) = u32 (Z.of_nat (length l)).
Proof. unfold u32. rewrite Zminus_mod_idemp_l. f_equal. cbn. lia. Qed.

(** The list of a part of the nodes. *)
Lemma rep_part st st' l l' : Rep st l -> typed st' -> (forall a, keep <$> nodes st' !! a = keep <$> nodes st !! a) ->
  NoDup l' -> (forall a, a ∈ l' -> a ∈ l) ->
  (forall i, (i < MAX_SKIPLIST_LEVEL)%nat -> levelOk st' i (chain (lv st) i l')) ->
  lLevel (lst st') = Z.of_nat (maxlev (lv st) l') -> head (lst st') = l' !! 0%nat -> tail (lst st') = last l' ->
  nodeNum (lst st') = u32 (Z.of_nat (length l')) -> randomLev (lst st') = randomLev (lst st) -> Rep st' l'.
Proof.
  intros H Ht Hk Hd Hin Hlev Hl Hh Htl Hn Hr.
  assert (Elv : forall a, lv st' a = lv st a).
  { intros a. specialize (Hk a). unfold lv. destruct (nodes st' !! a), (nodes st !! a); cbn in Hk; try discriminate; [|reflexivity].
    injection Hk as _ E. now rewrite E. }
  split; try done.
  - intros a Ha. destruct (r_nodes _ _ H a (Hin a Ha)) as (m & Em & Hm & Hmi). specialize (Hk a). rewrite Em in Hk.
    destruct (nodes st' !! a) as [m1|]; [|discriminate]. injection Hk as E1 E2. exists m1. now rewrite E1, E2.
  - intros i Hi. rewrite (chain_ext _ (lv st)) by exact Elv. now apply Hlev.
  - now rewrite (maxlev_ext _ (lv st)) by exact Elv.
  - rewrite Hr. apply H.
Qed.

Lemma rep_domain st l a : Rep st l -> a ∈ l -> is_Some (nodes st !! a).
Proof. intros H Ha. destruct (r_nodes _ _ H a Ha) as (m & -> & _). now eexists. Qed.

Lemma rep_links_0 st l p a s : Rep st l -> l = p ++ a :: s ->
  getForward (Some a) 0 st = Some (s !! 0%nat) /\ getPre (Some a) 0 st = Some (last p).
Proof.
  intros H E. destruct (r_levels _ _ H 0%nat) as (_ & _ & Ho); [unfold MAX_SKIPLIST_LEVEL; lia|].
  rewrite chain_0 in Ho by (intros b Hb; now apply (rep_lv _ _ _ H)). exact (Ho p a s E).
Qed.

Lemma relinked_load st st' a n : relinked st st' -> nodes st !! a = Some n ->
  exists n', load (Some a) st' = Some n' /\ item n' = item n.
Proof.
  intros [Hk _] En. specialize (Hk a). rewrite En in Hk. unfold load. cbn. destruct (nodes st' !! a) as [n'|]; [|discriminate].
  injection Hk as E _. now exists n'.
Qed.

Lemma SkipListPopValue_ok st h r : Rep st (h :: r) ->
  exists st', SkipListPopValue st = Some (itemAt st h, st') /\ Rep st' r /\ (forall a, keep <$> nodes st' !! a = keep <$> nodes st !! a).
Proof.
  intros H. pose proof (r_head _ _ H) as Hh. cbn in Hh. unfold SkipListPopValue. rewrite Hh.
  destruct (r_nodes _ _ H h ltac:(set_solver)) as (n & En & Hl & Hi). unfold load at 1. cbn. rewrite En. cbn.
  assert (Elv : lv st h = Z.to_nat (level n)) by (unfold lv; now rewrite En).
  destruct (popLoop_ok (lv st) h r (Z.to_nat (level n)) st) as (st1 & -> & T1 & R1 & O1 & S1 & F1 & L1).
  { unfold MAX_SKIPLIST_LEVEL. lia. } { apply H. } { apply H. }
  { intros b Hb. apply (rep_domain _ _ _ H). set_solver. }
  { intros i Hi'. rewrite <- chain_cons_in by lia. apply (r_levels _ _ H). unfold MAX_SKIPLIST_LEVEL. lia. }
  cbn. rewrite F1, (proj1 (rep_links_0 st _ [] h r H eq_refl)). cbn. set (st2 := match r !! 0%nat with Some _ => _ | None => _ end).
  assert (Hls : nodes st2 = nodes st1 /\ hnode (lst st2) = hnode (lst st1) /\ tnode (lst st2) = tnode (lst st1) /\
    lLevel (lst st2) = lLevel (lst st1) /\ head (lst st2) = r !! 0%nat /\ nodeNum (lst st2) = nodeNum (lst st1) /\ randomLev (lst st2) = randomLev (lst st1)).
  { unfold st2. now destruct (r !! 0%nat). }
  destruct Hls as (En2 & Eh & Et & El & Ehd & Enum & Er). destruct (relinked_load st st1 h n R1 En) as (n1 & E1 & Ei).
  unfold load in E1. cbn in E1. rewrite En2, E1. cbn. eexists. split; [unfold itemAt; rewrite En; cbn; rewrite Ei; reflexivity|].
  destruct R1 as [K1 Rest1]. injection Rest1 as Rh Rt Rn Rr _. split; [|intros a; cbn; rewrite En2; apply K1].
  pose proof (r_nodup _ _ H) as Hd. apply NoDup_cons in Hd as [Hhr Hd]. apply (rep_part st _ (h :: r)); cbn; try done.
  - split; cbn; [rewrite En2; apply T1|]. rewrite Eh, Et. apply T1.
  - intros a. rewrite En2. apply K1.
  - set_solver.
  - intros i Hi16. apply (levelOk_frame st1); [repeat split; cbn; try (now rewrite ?Eh, ?Et); intros a; unfold getForward, getPre, load; cbn; now rewrite En2|].
    destruct (decide (i < Z.to_nat (level n))%nat) as [Hlt|Hge]; [now apply O1|]. apply (levelOk_frame st); [apply S1; lia|].
    rewrite <- (chain_cons_out (lv st) i h r) by lia. now apply (r_levels _ _ H).
  - rewrite El, L1, (r_level _ _ H), maxlev_cons. lia.
  - unfold st2. destruct r as [|y r']; [reflexivity|]. cbn. rewrite Rt, (r_tail _ _ H). reflexivity.
  - rewrite Enum, Rn, (r_num _ _ H). apply u32_pred_length.
  - congruence.
Qed.

Lemma last_none_nil {A} (l : list A) : last l = None -> l = [].
Proof. destruct l as [|x l] using rev_ind; [done|]. now rewrite last_snoc. Qed.

Definition popTailOne (t : option nat) (index : nat) (st : Store) : option Store :=
  p ← getPre t index st;
  st ← (match p with
        | Some _ => setForward None p index st
        | None => let st := setLevel (lLevel (lst st) - 1) st in setHnode None index st
        end);
  setTnode p index st.

Lemma popTailLoop_S t n st : popTailLoop t (S n) st = st ← popTailOne t n st; popTailLoop t n st.
Proof.
  cbn [popTailLoop]. unfold popTailOne. destruct (getPre t n st) as [p|]; cbn; [|reflexivity].
  destruct p as [y|]; [destruct (setForward None (Some y) n st)|destruct (setHnode None n _)]; reflexivity.
Qed.

Lemma popTail_one st i c t : typed st -> (i < MAX_SKIPLIST_LEVEL)%nat -> NoDup (c ++ [t]) -> levelOk st i (c ++ [t]) ->
  (forall b, b ∈ c -> is_Some (nodes st !! b)) ->
  exists st', popTailOne (Some t) i st = Some st' /\ stepped i st st' /\ levelOk st' i c /\
    (forall b j, getPre (Some b) j st' = getPre (Some b) j st) /\
    lLevel (lst st') = lLevel (lst st) - match c with [] => 1 | _ => 0 end.
Proof.
  intros Ht Hi Hd Ho Hn. pose proof Ho as (Hh & Htl & Hlk). destruct (Hlk c t [] eq_refl) as [_ Ep]. unfold popTailOne. rewrite Ep. cbn.
  destruct (last c) as [y|] eqn:Ec.
  - assert (Hc : c <> []) by now destruct c. destruct (setForward_spec None y i st Ht) as (st1 & -> & E1); [apply Hn; now apply last_Some_elem_of|done|].
    pose proof E1 as [T1 R1 L1 F1 P1]. cbn. destruct (setTnode_spec (Some y) i st1 T1 Hi) as (st2 & -> & E2).
    destruct (endSet_links _ _ _ _ E2) as (Hf2 & Hp2 & Hr2). eexists. split; [reflexivity|]. split; [|split; [|split]].
    + apply stepped_trans with st1.
      * eapply linkSet_stepped; [exact E1| |intros; reflexivity]. intros b j Hj. cbn. now rewrite decide_False by tauto.
      * apply (endSet_stepped _ _ _ _ i E2); intros j Hj; [reflexivity|now rewrite decide_False].
    + apply (levelOk_popTail st st2 i c t); try done.
      * rewrite (es_hnode _ _ _ _ E2), L1, Hh. now destruct c.
      * rewrite (es_tnode _ _ _ _ E2), decide_True by done. congruence.
      * intros b. rewrite Hf2, F1. destruct (decide (b = y)) as [-> |Hb].
        -- now rewrite !decide_True.
        -- rewrite !decide_False; [reflexivity|congruence|tauto].
      * intros b. now rewrite Hp2, P1.
    + intros b j. now rewrite Hp2, P1.
    + rewrite (es_level _ _ _ _ E2), L1. destruct c; [done|lia].
  - apply last_none_nil in Ec as ->. cbn.
    destruct (setHnode_spec None i (setLevel (lLevel (lst st) - 1) st) Ht Hi) as (st1 & -> & E1). cbn.
    destruct (endSet_links _ _ _ _ E1) as (Hf1 & Hp1 & Hr1).
    destruct (setTnode_spec None i st1 (es_typed _ _ _ _ E1) Hi) as (st2 & -> & E2). destruct (endSet_links _ _ _ _ E2) as (Hf2 & Hp2 & Hr2).
    eexists. split; [reflexivity|]. split; [|split; [|split]].
    + apply stepped_trans with (setLevel (lLevel (lst st) - 1) st); [now apply stepped_level|]. apply stepped_trans with st1.
      * apply (endSet_stepped _ _ _ _ i E1); intros j Hj; [now rewrite decide_False|reflexivity].
      * apply (endSet_stepped _ _ _ _ i E2); intros j Hj; [reflexivity|now rewrite decide_False].
    + apply (levelOk_popTail st st2 i [] t); try done.
      * rewrite (es_hnode _ _ _ _ E2), (es_hnode _ _ _ _ E1). now rewrite decide_True.
      * rewrite (es_tnode _ _ _ _ E2). now rewrite decide_True.
      * intros b. rewrite Hf2, Hf1. reflexivity.
      * intros b. now rewrite Hp2, Hp1.
    + intros b j. now rewrite Hp2, Hp1.
    + now rewrite (es_level _ _ _ _ E2), (es_level _ _ _ _ E1).
Qed.

Lemma popTailLoop_ok f t r n : forall st, (n <= MAX_SKIPLIST_LEVEL)%nat -> typed st -> NoDup (r ++ [t]) ->
  (forall b, b ∈ r -> is_Some (nodes st !! b)) -> (forall i, (i < n)%nat -> levelOk st i (chain f i r ++ [t])) ->
  exists st', popTailLoop (Some t) n st = Some st' /\ typed st' /\ relinked st st' /\
    (forall i, (i < n)%nat -> levelOk st' i (chain f i r)) /\ (forall j, (n <= j)%nat -> sameAt j st st') /\
    (forall b j, getPre (Some b) j st' = getPre (Some b) j st) /\
    lLevel (lst st') = lLevel (lst st) - Z.of_nat (n - maxlev f r).
Proof.
  induction n as [|n IH]; intros st Hn Ht Hd Hm Ho.
  - exists st. split; [reflexivity|]. split; [done|]. split; [apply relinked_refl|]. split; [lia|].
    split; [intros; apply sameAt_refl|]. split; [done|]. cbn. lia.
  - rewrite popTailLoop_S. pose proof Hd as (Hd1 & Hd2 & _)%NoDup_app.
    destruct (popTail_one st n (chain f n r) t) as (st1 & -> & (T1 & R1 & S1) & O1 & F1 & L1); [done|lia| |apply Ho; lia| |].
    { apply NoDup_app. split; [now apply chain_nodup|]. split; [|apply NoDup_singleton]. intros x Hx. apply Hd2. now apply chain_elem in Hx. }
    { intros b Hb. apply Hm. now apply chain_elem in Hb. }
    cbn. destruct (IH st1) as (st2 & -> & T2 & R2 & O2 & S2 & F2 & L2); [lia|done|done| | |].
    { intros b Hb. apply (relinked_node st st1); [done|now apply Hm]. }
    { intros i Hi. apply (levelOk_frame st); [apply S1; lia|apply Ho; lia]. }
    exists st2. split; [reflexivity|]. split; [done|]. split; [now apply relinked_trans with st1|]. split; [|split; [|split]].
    + intros i Hi. destruct (decide (i = n)) as [-> |Hne]; [|apply O2; lia]. apply (levelOk_frame st1); [apply S2; lia|done].
    + intros j Hj. apply sameAt_trans with st1; [apply S1; lia|apply S2; lia].
    + intros b j. now rewrite F2, F1.
    + rewrite L2, L1. pose proof (chain_nil f n r) as Hc. destruct (chain f n r) as [|y c].
      * assert (maxlev f r <= n)%nat by now apply Hc. lia.
      * assert (~ (maxlev f r <= n)%nat) by (intros H; now apply Hc in H). lia.
Qed.

Lemma SkipListPopTail_ok st r t : Rep st (r ++ [t]) ->
  exists st', SkipListPopTail st = Some (itemAt st t, st') /\ Rep st' r /\ (forall a, keep <$> nodes st' !! a = keep <$> nodes st !! a).
Proof.
  intros H. pose proof (r_tail _ _ H) as Hh. rewrite last_snoc in Hh. unfold SkipListPopTail. rewrite Hh.
  destruct (r_nodes _ _ H t ltac:(set_solver)) as (n & En & Hl & Hi). unfold load at 1. cbn. rewrite En. cbn.
  assert (Elv : lv st t = Z.to_nat (level n)) by (unfold lv; now rewrite En).
  destruct (popTailLoop_ok (lv st) t r (Z.to_nat (level n)) st) as (st1 & -> & T1 & R1 & O1 & S1 & F1 & L1).
  { unfold MAX_SKIPLIST_LEVEL. lia. } { apply H. } { apply H. }
  { intros b Hb. apply (rep_domain _ _ _ H). set_solver. }
  { intros i Hi'. replace (chain (lv st) i r ++ [t]) with (chain (lv st) i (r ++ [t])); [apply (r_levels _ _ H); unfold MAX_SKIPLIST_LEVEL; lia|].
    rewrite chain_app. f_equal. rewrite chain_cons_in by lia. reflexivity. }
  cbn. rewrite F1, (proj2 (rep_links_0 st _ r t [] H eq_refl)). cbn. set (st2 := match last r with Some _ => _ | None => _ end).
  assert (Hls : nodes st2 = nodes st1 /\ hnode (lst st2) = hnode (lst st1) /\ tnode (lst st2) = tnode (lst st1) /\
    lLevel (lst st2) = lLevel (lst st1) /\ tail (lst st2) = last r /\ nodeNum (lst st2) = nodeNum (lst st1) /\ randomLev (lst st2) = randomLev (lst st1)).
  { unfold st2. now destruct (last r). }
  destruct Hls as (En2 & Eh & Et & El & Ehd & Enum & Er). destruct (relinked_load st st1 t n R1 En) as (n1 & E1 & Ei).
  unfold load in E1. cbn in E1. rewrite En2, E1. cbn. eexists. split; [unfold itemAt; rewrite En; cbn; rewrite Ei; reflexivity|].
  destruct R1 as [K1 Rest1]. injection Rest1 as Rh Rt Rn Rr _. split; [|intros a; cbn; rewrite En2; apply K1].
  pose proof (r_nodup _ _ H) as (Hd & _)%NoDup_app. apply (rep_part st _ (r ++ [t])); cbn; try done.
  - split; cbn; [rewrite En2; apply T1|]. rewrite Eh, Et. apply T1.
  - intros a. rewrite En2. apply K1.
  - set_solver.
  - intros i Hi16. apply (levelOk_frame st1); [repeat split; cbn; try (now rewrite ?Eh, ?Et); intros a; unfold getForward, getPre, load; cbn; now rewrite En2|].
    destruct (decide (i < Z.to_nat (level n))%nat) as [Hlt|Hge]; [now apply O1|]. apply (levelOk_frame st); [apply S1; lia|].
    replace (chain (lv st) i r) with (chain (lv st) i (r ++ [t])); [now apply (r_levels _ _ H)|].
    rewrite chain_app, chain_cons_out by lia. apply app_nil_r.
  - rewrite El, L1, (r_level _ _ H), maxlev_app, maxlev_cons. cbn. lia.
  - unfold st2. destruct (last r) as [y|] eqn:Ey; cbn.
    + rewrite Rh, (r_head _ _ H). now destruct r.
    + apply last_none_nil in Ey as ->. reflexivity.
  - rewrite Enum, Rn, (r_num _ _ H), length_app, Nat.add_comm. exact (u32_pred_length t r).
  - congruence.
Qed.

(** ** Insertion *)

Fixpoint upLoop (one : nat -> Store -> option Store) (index n : nat) (st : Store) : option Store :=
  match n with
  | O => Some st
  | S n' => st ← one index st; upLoop one (S index) n' st
  end.

Lemma upLoop_ok (one : nat -> Store -> option Store) (Pre : nat -> Store -> Prop) (C : nat -> list nat) n : forall index st,
  (forall i st, (index <= i < index + n)%nat -> typed st -> Pre i st ->
     exists st', one i st = Some st' /\ stepped i st st' /\ levelOk st' i (C i) /\ lLevel (lst st') = lLevel (lst st)) ->
  (forall i st st', Pre i st -> sameAt i st st' -> relinked st st' -> Pre i st') ->
  typed st -> (forall i, (index <= i < index + n)%nat -> Pre i st) ->
  exists st', upLoop one index n st = Some st' /\ typed st' /\ relinked st st' /\
    (forall i, (index <= i < index + n)%nat -> levelOk st' i (C i)) /\
    (forall j, ~ (index <= j < index + n)%nat -> sameAt j st st') /\ lLevel (lst st') = lLevel (lst st).
Proof.
  induction n as [|n IH]; intros index st Hone Hst Ht Hp.
  - exists st. split; [reflexivity|]. split; [done|]. split; [apply relinked_refl|]. split; [lia|].
    split; [intros; apply sameAt_refl|reflexivity].
  - cbn. destruct (Hone index st ltac:(lia) Ht (Hp index ltac:(lia))) as (st1 & -> & (T1 & R1 & S1) & O1 & L1). cbn.
    destruct (IH (S index) st1) as (st2 & -> & T2 & R2 & O2 & S2 & L2); [intros; apply Hone; [lia|done|done]|done|done| |].
    { intros i Hi. apply (Hst i st st1); [apply Hp; lia|apply S1; lia|done]. }
    exists st2. split; [reflexivity|]. split; [done|]. split; [now apply relinked_trans with st1|]. split; [|split; [|congruence]].
    + intros i Hi. destruct (decide (i = index)) as [-> |Hne]; [|apply O2; lia]. apply (levelOk_frame st1); [apply S2; lia|done].
    + intros j Hj. apply sameAt_trans with st1; [apply S1; lia|apply S2; lia].
Qed.

(** The node [x] is prepared, and its place on level [i] is between [p] and [s]. *)
Record ready (x : nat) (p s : list nat) (i : nat) (st : Store) : Prop := {
  rd_level : levelOk st i (p ++ s);
  rd_forward : getForward (Some x) i st = Some None;
  rd_pre : getPre (Some x) i st = Some None;
  rd_nodup : NoDup (p ++ x :: s);
  rd_nodes : forall a, a ∈ p ++ x :: s -> is_Some (nodes st !! a)
}.

Lemma ready_frame x p s i st st' : ready x p s i st -> sameAt i st st' -> relinked st st' -> ready x p s i st'.
Proof.
  intros [Hl Hf Hp Hd Hn] Hs Hr. split; [now apply (levelOk_frame st)| | |done|].
  - rewrite <- Hf. apply Hs.
  - rewrite <- Hp. apply Hs.
  - intros a Ha. apply (relinked_node st); auto.
Qed.

Definition bothOne (node index : nat) (st : Store) : option Store :=
  st ← setHnode (Some node) index st; setTnode (Some node) index st.
Definition tailOne (node index : nat) (st : Store) : option Store :=
  t ← tnode (lst st) !! index;
  st ← setPre t (Some node) index st;
  t ← tnode (lst st) !! index;
  st ← setForward (Some node) t index st;
  setTnode (Some node) index st.
Definition headOne (node index : nat) (st : Store) : option Store :=
  h ← hnode (lst st) !! index;
  st ← setPre (Some node) h index st;
  h ← hnode (lst st) !! index;
  st ← setForward h (Some node) index st;
  setHnode (Some node) index st.
Definition linkOne (node : nat) (prevRecord : list (option nat)) (index : nat) (st : Store) : option Store :=
  p ← prevRecord !! index;
  match p with
  | None =>
      h ← hnode (lst st) !! index;
      st ← setForward h (Some node) index st;
      h ← hnode (lst st) !! index;
      st ← setPre (Some node) h index st;
      setHnode (Some node) index st
  | Some _ =>
      f ← getForward p index st;
      st ← setForward f (Some node) index st;
      st ← setPre p (Some node) index st;
      f ← getForward (Some node) index st;
      st ← (match f with
            | None => setTnode (Some node) index st
            | Some _ => f ← getForward p index st; setPre (Some node) f index st
            end);
      setForward (Some node) p index st
  end.

Lemma bothLoop_up node n : forall index st, bothLoop node index n st = upLoop (bothOne node) index n st.
Proof.
  induction n as [|n IH]; intros index st; [reflexivity|]. cbn [bothLoop upLoop]. unfold bothOne in *.
  destruct (setHnode (Some node) index st) as [st1|]; cbn; [|reflexivity]. destruct (setTnode (Some node) index st1); cbn; [apply IH|reflexivity].
Qed.
Lemma tailLoop_up node n : forall index st, tailLoop node index n st = upLoop (tailOne node) index n st.
Proof.
  induction n as [|n IH]; intros index st; [reflexivity|]. cbn [tailLoop upLoop]. unfold tailOne in *.
  destruct (tnode (lst st) !! index) as [t|]; cbn; [|reflexivity]. destruct (setPre t (Some node) index st) as [st1|]; cbn; [|reflexivity].
  destruct (tnode (lst st1) !! index) as [t1|]; cbn; [|reflexivity]. destruct (setForward (Some node) t1 index st1) as [st2|]; cbn; [|reflexivity].
  destruct (setTnode (Some node) index st2); cbn; [apply IH|reflexivity].
Qed.
Lemma headLoop_up node n : forall index st, headLoop node index n st = upLoop (headOne node) index n st.
Proof.
  induction n as [|n IH]; intros index st; [reflexivity|]. cbn [headLoop upLoop]. unfold headOne in *.
  destruct (hnode (lst st) !! index) as [t|]; cbn; [|reflexivity]. destruct (setPre (Some node) t index st) as [st1|]; cbn; [|reflexivity].
  destruct (hnode (lst st1) !! index) as [t1|]; cbn; [|reflexivity]. destruct (setForward t1 (Some node) index st1) as [st2|]; cbn; [|reflexivity].
  destruct (setHnode (Some node) index st2); cbn; [apply IH|reflexivity].
Qed.
Lemma linkLoop_up node r n : forall index st, linkLoop node r index n st = upLoop (linkOne node r) index n st.
Proof.
  induction n as [|n IH]; intros index st; [reflexivity|]. cbn [linkLoop upLoop]. unfold linkOne in *. destruct (r !! index) as [p|]; cbn; [|reflexivity].
  match goal with |- ?o ≫= _ = ?o' ≫= _ => change o' with o; destruct o; cbn; [apply IH|reflexivity] end.
Qed.

(** What one level is after the node was linked there. *)
Definition linkedAt (x : nat) (p s : list nat) (i : nat) (st : Store) (o : option Store) : Prop :=
  exists st', o = Some st' /\ stepped i st st' /\ levelOk st' i (p ++ x :: s) /\ lLevel (lst st') = lLevel (lst st).

Lemma both_one x i st : typed st -> (i < MAX_SKIPLIST_LEVEL)%nat -> ready x [] [] i st -> linkedAt x [] [] i st (bothOne x i st).
Proof.
  intros Ht Hi [Hl Hf Hp Hd Hn]. unfold linkedAt, bothOne. destruct (setHnode_spec (Some x) i st Ht Hi) as (st1 & -> & E1). cbn.
  destruct (setTnode_spec (Some x) i st1 (es_typed _ _ _ _ E1) Hi) as (st2 & -> & E2).
  destruct (endSet_links _ _ _ _ E1) as (Hf1 & Hp1 & _), (endSet_links _ _ _ _ E2) as (Hf2 & Hp2 & _).
  eexists. split; [reflexivity|]. split; [|split].
  - apply stepped_trans with st1.
    + apply (endSet_stepped _ _ _ _ i E1); intros j Hj; [now rewrite decide_False|reflexivity].
    + apply (endSet_stepped _ _ _ _ i E2); intros j Hj; [reflexivity|now rewrite decide_False].
  - split; [|split].
    + rewrite (es_hnode _ _ _ _ E2), (es_hnode _ _ _ _ E1). now rewrite decide_True.
    + rewrite (es_tnode _ _ _ _ E2). now rewrite decide_True.
    + intros p a s E. destruct p as [|y [|z p]]; try discriminate. injection E as <- <-. now rewrite Hf2, Hf1, Hp2, Hp1.
  - now rewrite (es_level _ _ _ _ E2), (es_level _ _ _ _ E1).
Qed.

Lemma tail_one x c i st : typed st -> (i < MAX_SKIPLIST_LEVEL)%nat -> c <> [] -> ready x c [] i st -> linkedAt x c [] i st (tailOne x i st).
Proof.
  intros Ht Hi Hc [Hl Hf Hp Hd Hn]. rewrite app_nil_r in Hl. pose proof Hl as (Hh & Htl & _).
  destruct (last c) as [y|] eqn:Ey; [|now apply last_none_nil in Ey]. pose proof (last_Some_elem_of _ _ Ey) as Hy.
  assert (Hxy : y <> x) by (intros ->; apply NoDup_app in Hd as (_ & Hd & _); apply (Hd x Hy); set_solver).
  unfold linkedAt, tailOne. rewrite Htl. cbn.
  destruct (setPre_spec (Some y) x i st Ht) as (st1 & -> & E1); [apply Hn; set_solver|done|]. pose proof E1 as [T1 R1 L1 F1 P1]. cbn.
  rewrite L1, Htl. cbn. destruct (setForward_spec (Some x) y i st1 T1) as (st2 & -> & E2); [apply (relinked_node st st1); [done|apply Hn; set_solver]|done|].
  pose proof E2 as [T2 R2 L2 F2 P2]. cbn. destruct (setTnode_spec (Some x) i st2 T2 Hi) as (st3 & -> & E3).
  destruct (endSet_links _ _ _ _ E3) as (Hf3 & Hp3 & _). eexists. split; [reflexivity|]. split; [|split].
  - apply stepped_trans with st1; [|apply stepped_trans with st2].
    + eapply linkSet_stepped; [exact E1|intros; reflexivity|]. intros b j Hj. cbn. now rewrite decide_False by tauto.
    + eapply linkSet_stepped; [exact E2| |intros; reflexivity]. intros b j Hj. cbn. now rewrite decide_False by tauto.
    + apply (endSet_stepped _ _ _ _ i E3); intros j Hj; [reflexivity|now rewrite decide_False].
  - apply (levelOk_insert st); [done|now rewrite app_nil_r| | | |].
    + rewrite (es_hnode _ _ _ _ E3), L2, L1, Hh. now destruct c.
    + rewrite (es_tnode _ _ _ _ E3), decide_True by done. now rewrite last_snoc.
    + intros b. rewrite Hf3, F2, F1, Ey. destruct (decide (b = x)) as [-> |Hbx].
      * rewrite decide_False by naive_solver. exact Hf.
      * destruct (decide (b = y)) as [-> |Hby]; [now rewrite !decide_True|]. rewrite !decide_False; [reflexivity|congruence|tauto].
    + intros b. rewrite Hp3, P2, P1, Ey. destruct (decide (b = x)) as [-> |Hbx]; [now rewrite decide_True|].
      rewrite decide_False by tauto. now rewrite decide_False.
  - rewrite (es_level _ _ _ _ E3), L2, L1. reflexivity.
Qed.

(** The node points to the first one, which points back. *)
Lemma front_linked x y c i st st2 : (i < MAX_SKIPLIST_LEVEL)%nat -> ready x [] (y :: c) i st -> stepped i st st2 -> lst st2 = lst st ->
  (forall b, getForward (Some b) i st2 = if decide (b = x) then Some (Some y) else getForward (Some b) i st) ->
  (forall b, getPre (Some b) i st2 = if decide (b = y) then Some (Some x) else getPre (Some b) i st) ->
  linkedAt x [] (y :: c) i st (setHnode (Some x) i st2).
Proof.
  intros Hi [Hl Hf Hp Hd Hn] S2 L2 F2 P2. pose proof Hl as (Hh & Htl & _). pose proof Hd as [Hx _]%NoDup_cons.
  assert (Hxy : y <> x) by (intros ->; apply Hx; set_solver). unfold linkedAt.
  destruct (setHnode_spec (Some x) i st2 (proj1 S2) Hi) as (st3 & -> & E3).
  destruct (endSet_links _ _ _ _ E3) as (Hf3 & Hp3 & _). eexists. split; [reflexivity|]. split; [|split].
  - apply stepped_trans with st2; [done|].
    apply (endSet_stepped _ _ _ _ i E3); intros j Hj; [now rewrite decide_False|reflexivity].
  - apply (levelOk_insert st st3 i [] x (y :: c)); [done|done| | | |].
    + rewrite (es_hnode _ _ _ _ E3). now rewrite decide_True.
    + rewrite (es_tnode _ _ _ _ E3), L2, Htl. reflexivity.
    + intros b. rewrite Hf3, F2. destruct (decide (b = x)) as [-> |Hbx]; [reflexivity|]. now rewrite decide_False.
    + intros b. rewrite Hp3, P2. cbn. destruct (decide (b = x)) as [-> |Hbx].
      * rewrite decide_False by naive_solver. exact Hp.
      * destruct (decide (b = y)) as [-> |Hby]; [now rewrite !decide_True|]. rewrite !decide_False; [reflexivity|congruence].
  - rewrite (es_level _ _ _ _ E3), L2. reflexivity.
Qed.

Lemma decide_pair {A} (b x : nat) (i : nat) (u v : A) : (if decide (b = x /\ i = i) then u else v) = if decide (b = x) then u else v.
Proof. destruct (decide (b = x)); [now rewrite decide_True|now rewrite decide_False by tauto]. Qed.

Lemma head_one x c i st : typed st -> (i < MAX_SKIPLIST_LEVEL)%nat -> c <> [] -> ready x [] c i st -> linkedAt x [] c i st (headOne x i st).
Proof.
  intros Ht Hi Hc Hr. pose proof Hr as [Hl Hf Hp Hd Hn]. destruct c as [|y c]; [done|]. pose proof Hl as (Hh & _). cbn in Hh.
  unfold headOne. rewrite Hh. cbn.
  destruct (setPre_spec (Some x) y i st Ht) as (st1 & -> & E1); [apply Hn; set_solver|done|]. pose proof E1 as [T1 R1 L1 F1 P1]. cbn.
  rewrite L1, Hh. cbn. destruct (setForward_spec (Some y) x i st1 T1) as (st2 & -> & E2); [apply (relinked_node st st1); [done|apply Hn; set_solver]|done|].
  pose proof E2 as [T2 R2 L2 F2 P2]. cbn. apply front_linked; [done|done| |congruence| |].
  - apply stepped_trans with st1.
    + eapply linkSet_stepped; [exact E1|intros; reflexivity|]. intros b j Hj. cbn. now rewrite decide_False by tauto.
    + eapply linkSet_stepped; [exact E2| |intros; reflexivity]. intros b j Hj. cbn. now rewrite decide_False by tauto.
  - intros b. now rewrite F2, F1, decide_pair.
  - intros b. now rewrite P2, P1, decide_pair.
Qed.

Lemma link_one_first x c i r st : typed st -> (i < MAX_SKIPLIST_LEVEL)%nat -> c <> [] -> r !! i = Some None -> ready x [] c i st ->
  linkedAt x [] c i st (linkOne x r i st).
Proof.
  intros Ht Hi Hc Er Hr. pose proof Hr as [Hl Hf Hp Hd Hn]. destruct c as [|y c]; [done|]. pose proof Hl as (Hh & _). cbn in Hh.
  unfold linkOne. rewrite Er. cbn. rewrite Hh. cbn.
  destruct (setForward_spec (Some y) x i st Ht) as (st1 & -> & E1); [apply Hn; set_solver|done|]. pose proof E1 as [T1 R1 L1 F1 P1]. cbn.
  rewrite L1, Hh. cbn. destruct (setPre_spec (Some x) y i st1 T1) as (st2 & -> & E2); [apply (relinked_node st st1); [done|apply Hn; set_solver]|done|].
  pose proof E2 as [T2 R2 L2 F2 P2]. cbn. apply front_linked; [done|done| |congruence| |].
  - apply stepped_trans with st1.
    + eapply linkSet_stepped; [exact E1| |intros; reflexivity]. intros b j Hj. cbn. now rewrite decide_False by tauto.
    + eapply linkSet_stepped; [exact E2|intros; reflexivity|]. intros b j Hj. cbn. now rewrite decide_False by tauto.
  - intros b. now rewrite F2, F1, decide_pair.
  - intros b. now rewrite P2, P1, decide_pair.
Qed.

(** Behind the node [z], the last one of [p]. *)
Lemma link_one_behind x p s z i r st : typed st -> (i < MAX_SKIPLIST_LEVEL)%nat -> last p = Some z -> r !! i = Some (Some z) ->
  ready x p s i st -> linkedAt x p s i st (linkOne x r i st).
Proof.
  intros Ht Hi Ez Er [Hl Hf Hp Hd Hn]. pose proof (last_Some_elem_of _ _ Ez) as Hz. pose proof Hl as (Hh & Htl & Hlk).
  assert (Hxz : z <> x) by (intros ->; apply NoDup_app in Hd as (_ & Hd & _); apply (Hd x Hz); set_solver).
  assert (Hzs : Some z <> s !! 0%nat).
  { intros E. apply NoDup_app in Hd as (_ & Hd & _). apply (Hd z Hz). destruct s; [done|]. injection E as ->. set_solver. }
  assert (Hxs : Some x <> s !! 0%nat).
  { intros E. apply NoDup_app in Hd as (_ & _ & Hd). apply NoDup_cons in Hd as [Hd _]. apply Hd. destruct s; [done|]. injection E as ->. set_solver. }
  destruct (last_Some p z) as [Hsp _]. destruct (Hsp Ez) as [p' ->]. clear Hsp.
  destruct (Hlk p' z s) as [Efz _]; [now rewrite <- app_assoc|].
  unfold linkedAt, linkOne. rewrite Er. cbn. rewrite Efz. cbn.
  destruct (setForward_spec (s !! 0%nat) x i st Ht) as (st1 & -> & E1); [apply Hn; set_solver|done|]. pose proof E1 as [T1 R1 L1 F1 P1]. cbn.
  destruct (setPre_spec (Some z) x i st1 T1) as (st2 & -> & E2); [apply (relinked_node st st1); [done|apply Hn; set_solver]|done|].
  pose proof E2 as [T2 R2 L2 F2 P2]. cbn. rewrite (F2 x i), (F1 x i), decide_pair.
  rewrite (decide_True (P := x = x)) by reflexivity. cbn.
  assert (S2 : stepped i st st2).
  { apply stepped_trans with st1.
    - eapply linkSet_stepped; [exact E1| |intros; reflexivity]. intros b j Hj. cbn. now rewrite decide_False by tauto.
    - eapply linkSet_stepped; [exact E2|intros; reflexivity|]. intros b j Hj. cbn. now rewrite decide_False by tauto. }
  assert (H3 : exists st3, (match s !! 0%nat with
      | Some _ => f ← getForward (Some z) i st2; setPre (Some x) f i st2
      | None => setTnode (Some x) i st2 end) = Some st3 /\ stepped i st2 st3 /\ lLevel (lst st3) = lLevel (lst st) /\
      hnode (lst st3) !! i = hnode (lst st) !! i /\ tnode (lst st3) !! i = Some (last ((p' ++ [z]) ++ x :: s)) /\
      (forall b, getForward (Some b) i st3 = getForward (Some b) i st2) /\
      (forall b, getPre (Some b) i st3 = if decide (Some b = s !! 0%nat) then Some (Some x) else getPre (Some b) i st2)).
  { destruct s as [|y s]; cbn [lookup list_lookup].
    - destruct (setTnode_spec (Some x) i st2 T2 Hi) as (st3 & -> & E3). destruct (endSet_links _ _ _ _ E3) as (Hf3 & Hp3 & _).
      eexists. split; [reflexivity|]. split; [apply (endSet_stepped _ _ _ _ i E3); intros j Hj; [reflexivity|now rewrite decide_False]|].
      rewrite (es_level _ _ _ _ E3), (es_hnode _ _ _ _ E3), (es_tnode _ _ _ _ E3), decide_True, L2, L1, last_snoc by done.
      repeat split; intros b; [apply Hf3|]. rewrite decide_False by done. apply Hp3.
    - rewrite F2, F1, decide_False by (intros [? _]; done). rewrite Efz. cbn.
      destruct (setPre_spec (Some x) y i st2 T2) as (st3 & -> & E3); [apply (relinked_node st st2); [apply S2|apply Hn; set_solver]|done|].
      pose proof E3 as [T3 R3 L3 F3 P3]. eexists. split; [reflexivity|]. split.
      { eapply linkSet_stepped; [exact E3|intros; reflexivity|]. intros b j Hj. cbn. now rewrite decide_False by tauto. }
      rewrite L3, L2, L1, Htl, !last_app. cbn. repeat split; intros b; [apply F3|]. rewrite P3, decide_pair.
      destruct (decide (b = y)) as [-> |Hb]; [now rewrite decide_True|now rewrite decide_False by congruence]. }
  destruct H3 as (st3 & -> & S3 & L3 & Hh3 & Ht3 & F3 & P3). cbn.
  destruct (setForward_spec (Some x) z i st3 (proj1 S3)) as (st4 & -> & E4);
    [apply (relinked_node st st3); [apply (relinked_trans _ st2); [apply S2|apply S3]|apply Hn; set_solver]|done|].
  pose proof E4 as [T4 R4 L4 F4 P4]. eexists. split; [reflexivity|]. split; [|split; [|congruence]].
  - apply stepped_trans with st2; [done|]. apply stepped_trans with st3; [done|].
    eapply linkSet_stepped; [exact E4| |intros; reflexivity]. intros b j Hj. cbn. now rewrite decide_False by tauto.
  - apply (levelOk_insert st); [done|done| | | |].
    + rewrite L4, Hh3, Hh. f_equal. now destruct p'.
    + now rewrite L4.
    + intros b. rewrite F4, decide_pair, F3, F2, F1, decide_pair, last_snoc. destruct (decide (b = x)) as [-> |Hbx].
      * now rewrite decide_False.
      * destruct (decide (b = z)) as [-> |Hbz]; [now rewrite decide_True|now rewrite decide_False by congruence].
    + intros b. rewrite P4, P3, P2, P1, decide_pair, last_snoc. destruct (decide (b = x)) as [-> |Hbx]; [now rewrite decide_False|reflexivity].
Qed.

(** ** The search *)

(** [x] belongs behind the node. *)
Definition before (x : I) (st : Store) (a : nat) : Prop := exists y, itemAt st a = Some y /\ 0 < funcCmp x y.
Definition notBefore (x : I) (st : Store) (a : nat) : Prop := exists y, itemAt st a = Some y /\ funcCmp x y <= 0.

Lemma advance_ok x i st c3 : (forall a, a ∈ c3 -> notBefore x st a) -> forall c2 c1 fuel, (length c2 <= fuel)%nat ->
  levelOk st i (c1 ++ c2 ++ c3) -> (forall a, a ∈ c2 -> before x st a) ->
  advance fuel x (last c1) ((c2 ++ c3) !! 0%nat) i st = Some (last (c1 ++ c2), c3 !! 0%nat).
Proof.
  intros H3. induction c2 as [|a c2 IH]; intros c1 fuel Hf Ho H2.
  - rewrite app_nil_r. cbn [app]. destruct c3 as [|b c3]; [now destruct fuel|]. cbn [lookup list_lookup].
    destruct (H3 b ltac:(set_solver)) as (y & Ey & Hy). unfold itemAt in Ey.
    destruct fuel; cbn; unfold load; cbn; destruct (nodes st !! b); cbn in *; try discriminate; rewrite Ey; cbn; now rewrite (proj2 (Z.ltb_ge _ _) Hy).
  - destruct fuel as [|fuel]; [cbn in Hf; lia|]. cbn [app lookup list_lookup].
    destruct (H2 a ltac:(set_solver)) as (y & Ey & Hy). unfold itemAt in Ey. cbn. unfold load. cbn. destruct (nodes st !! a) as [n|]; cbn in *; [|discriminate].
    rewrite Ey. cbn. rewrite (proj2 (Z.ltb_lt _ _) Hy). destruct (proj2 (proj2 Ho) c1 a (c2 ++ c3) eq_refl) as [-> _]. cbn.
    specialize (IH (c1 ++ [a]) fuel). rewrite last_snoc, <- app_assoc in IH. rewrite IH; [|cbn in Hf; lia|exact Ho|].
    + now rewrite <- app_assoc.
    + intros b Hb. apply H2. set_solver.
Qed.

Lemma NoDup_size (c : list nat) (st : Store) : NoDup c -> (forall a, a ∈ c -> is_Some (nodes st !! a)) -> (length c <= size (nodes st))%nat.
Proof.
  intros Hd Hn. rewrite <- size_dom. rewrite <- (size_list_to_set (C := gset nat) c) by done. apply subseteq_size.
  intros a Ha%elem_of_list_to_set. apply elem_of_dom. now apply Hn.
Qed.

Lemma last_chain_split f i p z : last (chain f (S i) p) = Some z -> exists c1 c2, chain f i p = (c1 ++ [z]) ++ c2.
Proof.
  intros E. apply last_Some_elem_of in E. apply chain_elem in E as [Hz Hp].
  assert (Hin : z ∈ chain f i p) by (apply chain_elem; split; [lia|done]).
  apply list_elem_of_split in Hin as (c1 & c2 & ->). exists c1, c2. now rewrite <- app_assoc.
Qed.

Lemma searchLoop_ok f x p s st : NoDup (p ++ s) -> (forall a, a ∈ p ++ s -> is_Some (nodes st !! a)) ->
  (forall a, a ∈ p -> before x st a) -> (forall a, a ∈ s -> notBefore x st a) ->
  forall n next r, (n <= MAX_SKIPLIST_LEVEL)%nat -> length r = MAX_SKIPLIST_LEVEL ->
  (forall i, (i < n)%nat -> levelOk st i (chain f i p ++ chain f i s)) ->
  exists r', searchLoop x n (last (chain f n p)) next r st =
      Some (r', match n with O => next | S _ => chain f 0 s !! 0%nat end) /\
    forall i, (i < n)%nat -> r' !! i = Some (last (chain f i p)).
Proof.
  intros Hd Hn Hp Hs. pose proof Hd as (Hdp & _ & _)%NoDup_app.
  assert (Hgen : forall n next r, (n <= MAX_SKIPLIST_LEVEL)%nat -> length r = MAX_SKIPLIST_LEVEL ->
    (forall i, (i < n)%nat -> levelOk st i (chain f i p ++ chain f i s)) ->
    exists r', searchLoop x n (last (chain f n p)) next r st =
      Some (r', match n with O => next | S _ => chain f 0 s !! 0%nat end) /\
    (forall i, (i < n)%nat -> r' !! i = Some (last (chain f i p))) /\ (forall i, (n <= i)%nat -> r' !! i = r !! i)).
  { induction n as [|n IH]; intros next r Hn16 Hr Ho; [exists r; cbn; repeat split; lia|]. cbn [searchLoop].
    pose proof (Ho n ltac:(lia)) as Hon. pose proof Hon as (Hh & _ & Hlk).
    assert (Hadv : exists next', (match last (chain f (S n) p) with None => hnode (lst st) !! n
        | Some _ => getForward (last (chain f (S n) p)) n st end) = Some next' /\
        advance (size (nodes st)) x (last (chain f (S n) p)) next' n st = Some (last (chain f n p), chain f n s !! 0%nat)).
    { assert (Hsz : forall c, (exists c', chain f n p = c' ++ c) -> (length c <= size (nodes st))%nat).
      { intros c [c' Ec]. etransitivity; [|apply (NoDup_size (chain f n p))]; [rewrite Ec, length_app; lia|now apply chain_nodup|].
        intros a [_ Ha]%chain_elem. apply Hn. set_solver. }
      assert (H3 : forall a, a ∈ chain f n s -> notBefore x st a) by (intros a [_ Ha]%chain_elem; auto).
      destruct (last (chain f (S n) p)) as [z|] eqn:Ez.
      - destruct (last_chain_split f n p z Ez) as (c1 & c2 & Ec). exists ((c2 ++ chain f n s) !! 0%nat). split.
        + apply (Hlk c1 z). rewrite Ec. now rewrite <- !app_assoc.
        + rewrite <- (last_snoc z c1). rewrite Ec. apply advance_ok; [done|apply Hsz; eauto|now rewrite app_assoc, <- Ec|].
          intros a Ha. apply Hp. assert (Hin : a ∈ chain f n p) by (rewrite Ec; set_solver). now apply chain_elem in Hin.
      - exists ((chain f n p ++ chain f n s) !! 0%nat). split; [exact Hh|].
        apply (advance_ok x n st _ H3 (chain f n p) []); [apply Hsz; now exists []|done|]. intros a [_ Ha]%chain_elem. auto. }
    destruct Hadv as (next' & -> & Eadv). cbn. rewrite Eadv. cbn. rewrite setAt_ok by lia. cbn.
    destruct (IH (chain f n s !! 0%nat) (<[n := last (chain f n p)]> r)) as (r' & -> & Hr1 & Hr2); [lia|now rewrite length_insert|intros; apply Ho; lia|].
    exists r'. split; [|split].
    - destruct n; reflexivity.
    - intros i Hi. destruct (decide (i = n)) as [-> |Hne]; [|apply Hr1; lia]. rewrite Hr2 by lia. apply list_lookup_insert_eq. lia.
    - intros i Hi. rewrite Hr2 by lia. now rewrite list_lookup_insert_ne by lia. }
  intros n next r Hn16 Hr Ho. destruct (Hgen n next r Hn16 Hr Ho) as (r' & E & Hr1 & _). now exists r'.
Qed.

(** ** The whole insertion *)

Lemma randomLoop_ok fuel : forall k l, k + Z.of_nat fuel = 17 -> 1 <= k <= 16 -> length (randomLev l) = 1024%nat ->
  exists k' idx, randomLoop fuel k l =
    Some (k', mkList (head l) (tail l) (hnode l) (tnode l) (lLevel l) (nodeNum l) (randomLev l) idx) /\ 1 <= k' <= 16.
Proof.
  induction fuel as [|fuel IH]; intros k l Hk Hr Hlen; [lia|]. cbn [randomLoop].
  assert (Hidx : (Z.to_nat (Z.land (randomIndex l) (MAX_RANDOM_LEV - 1)) < length (randomLev l))%nat).
  { rewrite Hlen. change (MAX_RANDOM_LEV - 1) with (Z.ones 10). rewrite Z.land_ones by lia.
    pose proof (Z.mod_pos_bound (randomIndex l) (2 ^ 10)). lia. }
  destruct (lookup_lt_is_Some_2 _ _ Hidx) as [b ->]. cbn [mbind option_bind].
  destruct (negb (b =? 0) && (k <? Z.of_nat MAX_SKIPLIST_LEVEL)) eqn:E; [|eexists k, _; split; [reflexivity|lia]].
  apply andb_true_iff in E as [_ E%Z.ltb_lt]. unfold MAX_SKIPLIST_LEVEL in E.
  destruct (IH (k + 1) (mkList (head l) (tail l) (hnode l) (tnode l) (lLevel l) (nodeNum l) (randomLev l) (u32 (randomIndex l + 1))))
    as (k' & idx & -> & Hk'); [lia|lia|exact Hlen|]. now exists k', idx.
Qed.

(** The node is prepared; it is not in the list yet. *)
Definition prepare (x : nat) (y : I) (lev idx : Z) (st : Store) : Store :=
  let l := lst st in
  mkStore (<[x := mkNode (Some y) noNodes noNodes lev]> (nodes st))
    (mkList (head l) (tail l) (hnode l) (tnode l) (lLevel l) (nodeNum l) (randomLev l) idx).

Lemma prepare_other x y lev idx st a : a <> x -> nodes (prepare x y lev idx st) !! a = nodes st !! a.
Proof. intros H. cbn. now rewrite lookup_insert_ne. Qed.

Lemma prepare_rep x y lev idx st l : Rep st l -> x ∉ l -> Rep (prepare x y lev idx st) l.
Proof.
  intros H Hx. assert (Ha : forall a, a ∈ l -> nodes (prepare x y lev idx st) !! a = nodes st !! a).
  { intros a Hal. apply prepare_other. now intros ->. }
  assert (Elv : forall a, a ∈ l -> lv (prepare x y lev idx st) a = lv st a) by (intros a Hal; unfold lv; now rewrite Ha).
  assert (Ech : forall i, chain (lv (prepare x y lev idx st)) i l = chain (lv st) i l).
  { intros i. clear H Hx. induction l as [|a l IH]; [reflexivity|]. pose proof (Elv a ltac:(set_solver)) as Ea.
    destruct (decide (i < lv st a)%nat).
    - rewrite !chain_cons_in by lia. f_equal. apply IH; intros b Hb; [apply Ha|apply Elv]; set_solver.
    - rewrite !chain_cons_out by lia. apply IH; intros b Hb; [apply Ha|apply Elv]; set_solver. }
  split; try apply H.
  - destruct (r_typed _ _ H) as (T1 & T2). split; [|exact T2]. intros a n. cbn. destruct (decide (a = x)) as [-> |Hne].
    + rewrite lookup_insert_eq. now intros [= <-].
    + rewrite lookup_insert_ne by done. apply T1.
  - intros a Hal. rewrite Ha by done. now apply (r_nodes _ _ H).
  - intros i Hi. rewrite Ech. destruct (r_levels _ _ H i Hi) as (Hh & Ht & Hlk). split; [exact Hh|]. split; [exact Ht|].
    intros p a s E. assert (Hal : a ∈ l) by (assert (Hin : a ∈ chain (lv st) i l) by (rewrite E; set_solver); now apply chain_elem in Hin).
    destruct (Hlk p a s E) as [E1 E2]. unfold getForward, getPre, load in *. cbn [mbind option_bind] in *. rewrite Ha by done. done.
  - cbn. rewrite (r_level _ _ H). f_equal. clear -Elv. induction l as [|a l IH]; [reflexivity|]. rewrite !maxlev_cons, Elv by set_solver.
    rewrite IH; [reflexivity|]. intros b Hb. apply Elv. set_solver.
Qed.

Lemma prepare_ready x y lev idx st p s i : Rep st (p ++ s) -> x ∉ p ++ s -> (i < MAX_SKIPLIST_LEVEL)%nat ->
  let st1 := prepare x y lev idx st in ready x (chain (lv st1) i p) (chain (lv st1) i s) i st1.
Proof.
  intros H Hx Hi st1. pose proof (prepare_rep x y lev idx st _ H Hx) as H1. fold st1 in H1.
  assert (Ex : nodes st1 !! x = Some (mkNode (Some y) noNodes noNodes lev)) by (cbn; now rewrite lookup_insert_eq).
  split.
  - rewrite <- chain_app. now apply (r_levels _ _ H1).
  - unfold getForward, load. cbn [mbind option_bind]. rewrite Ex. cbn [mbind option_bind forward pre]. unfold noNodes. now apply lookup_replicate_2.
  - unfold getPre, load. cbn [mbind option_bind]. rewrite Ex. cbn [mbind option_bind forward pre]. unfold noNodes. now apply lookup_replicate_2.
  - pose proof (chain_nodup (lv st1) i _ (r_nodup _ _ H1)) as Hd. rewrite chain_app in Hd. rewrite <- Permutation_middle. apply NoDup_cons. split; [|done].
    rewrite <- chain_app, chain_elem. tauto.
  - intros a Ha. destruct (decide (a = x)) as [-> |Hne]; [rewrite Ex; now eexists|]. apply (rep_domain _ _ _ H1).
    assert (Hin : a ∈ chain (lv st1) i (p ++ s)) by (rewrite chain_app; set_solver). now apply chain_elem in Hin.
Qed.

(** On every level that the node has, it is in its place. *)
Lemma rep_inserted x y lev idx st p s st' : Rep st (p ++ s) -> x ∉ p ++ s -> 1 <= lev <= 16 ->
  let st1 := prepare x y lev idx st in
  typed st' -> (forall a, keep <$> nodes st' !! a = keep <$> nodes st1 !! a) ->
  (forall i, (i < MAX_SKIPLIST_LEVEL)%nat -> (i < Z.to_nat lev)%nat -> levelOk st' i (chain (lv st1) i p ++ x :: chain (lv st1) i s)) ->
  (forall i, (i < MAX_SKIPLIST_LEVEL)%nat -> ~ (i < Z.to_nat lev)%nat -> sameAt i st1 st') ->
  lLevel (lst st') = Z.max lev (lLevel (lst st)) ->
  Some (head (lst st')) = hnode (lst st') !! 0%nat -> Some (tail (lst st')) = tnode (lst st') !! 0%nat ->
  nodeNum (lst st') = u32 (nodeNum (lst st) + 1) -> randomLev (lst st') = randomLev (lst st) -> Rep st' (p ++ x :: s).
Proof.
  intros H Hx Hlev st1 Ht Hk Hin Hout Hl Hh Htl Hn Hr. pose proof (prepare_rep x y lev idx st _ H Hx) as H1. fold st1 in H1.
  assert (Ex : nodes st1 !! x = Some (mkNode (Some y) noNodes noNodes lev)) by (cbn; now rewrite lookup_insert_eq).
  assert (Elv : forall a, lv st' a = lv st1 a).
  { intros a. specialize (Hk a). unfold lv. destruct (nodes st' !! a), (nodes st1 !! a); cbn in Hk; try discriminate; [|reflexivity].
    injection Hk as _ E. now rewrite E. }
  assert (Elx : lv st1 x = Z.to_nat lev) by (unfold lv; now rewrite Ex).
  assert (Hnodes : forall a, a ∈ p ++ x :: s -> exists n, nodes st' !! a = Some n /\ 1 <= level n <= 16 /\ is_Some (item n)).
  { intros a Ha. assert (Hn1 : exists n, nodes st1 !! a = Some n /\ 1 <= level n <= 16 /\ is_Some (item n)).
    { destruct (decide (a = x)) as [-> |Hne]; [rewrite Ex; eexists; repeat split; cbn; try lia; now eexists|]. apply (r_nodes _ _ H1). set_solver. }
    destruct Hn1 as (n & En & Hn1 & Hn2). specialize (Hk a). rewrite En in Hk. destruct (nodes st' !! a) as [n'|]; [|discriminate].
    injection Hk as E1 E2. exists n'. now rewrite E1, E2. }
  assert (Hlevs : forall i, (i < MAX_SKIPLIST_LEVEL)%nat -> levelOk st' i (chain (lv st') i (p ++ x :: s))).
  { intros i Hi. rewrite (chain_ext _ (lv st1)) by exact Elv. rewrite chain_app. destruct (decide (i < Z.to_nat lev)%nat) as [Hlt|Hge].
    - rewrite chain_cons_in by lia. now apply Hin.
    - rewrite chain_cons_out by lia. apply (levelOk_frame st1); [now apply Hout|]. rewrite <- chain_app. now apply (r_levels _ _ H1). }
  assert (H0 : chain (lv st') 0 (p ++ x :: s) = p ++ x :: s).
  { apply chain_0. intros a Ha. destruct (Hnodes a Ha) as (n & E & Hl1 & _). unfold lv. rewrite E. lia. }
  destruct (Hlevs 0%nat) as (Hh0 & Ht0 & _); [unfold MAX_SKIPLIST_LEVEL; lia|]. rewrite H0 in Hh0, Ht0. split; try done.
  - rewrite <- Permutation_middle. apply NoDup_cons. split; [exact Hx|apply H].
  - rewrite Hl. change (lLevel (lst st)) with (lLevel (lst st1)). rewrite (r_level _ _ H1), (maxlev_ext (lv st') (lv st1)) by exact Elv.
    rewrite !maxlev_app, maxlev_cons, Elx. lia.
  - congruence.
  - congruence.
  - rewrite Hn, (r_num _ _ H). unfold u32. rewrite Zplus_mod_idemp_l. f_equal. rewrite !length_app. cbn. lia.
  - rewrite Hr. apply H.
Qed.

Lemma bothLoop_ok x i n st : (i + n <= MAX_SKIPLIST_LEVEL)%nat -> typed st ->
  (forall j, (i <= j < i + n)%nat -> ready x [] [] j st) ->
  exists st', bothLoop x i n st = Some st' /\ typed st' /\ relinked st st' /\
    (forall j, (i <= j < i + n)%nat -> levelOk st' j [x]) /\ (forall j, ~ (i <= j < i + n)%nat -> sameAt j st st') /\
    lLevel (lst st') = lLevel (lst st).
Proof.
  intros Hi Ht Hr. rewrite bothLoop_up. apply (upLoop_ok _ (ready x [] []) (fun _ => [x])); [|apply ready_frame|done|done].
  intros j st0 Hj Ht0 Hr0. now apply both_one; [|lia|].
Qed.

(** The three places of the code. *)
Lemma linked_ok x p s f cur st (one : nat -> Store -> option Store) : (cur <= MAX_SKIPLIST_LEVEL)%nat -> typed st ->
  (forall i, (i < cur)%nat -> ready x (chain f i p) (chain f i s) i st) ->
  (forall i st0, (i < cur)%nat -> typed st0 -> ready x (chain f i p) (chain f i s) i st0 ->
     linkedAt x (chain f i p) (chain f i s) i st0 (one i st0)) ->
  exists st', upLoop one 0 cur st = Some st' /\ typed st' /\ relinked st st' /\
    (forall i, (i < cur)%nat -> levelOk st' i (chain f i p ++ x :: chain f i s)) /\
    (forall j, (cur <= j)%nat -> sameAt j st st') /\ lLevel (lst st') = lLevel (lst st).
Proof.
  intros Hc Ht Hr Hone.
  destruct (upLoop_ok one (fun i => ready x (chain f i p) (chain f i s) i) (fun i => chain f i p ++ x :: chain f i s) cur 0 st)
    as (st' & E & T & R & O & S & L).
  - intros i st0 Hi Ht0 Hr0. apply Hone; [lia|done|done].
  - intros i st0 st1. apply ready_frame.
  - done.
  - intros i Hi. apply Hr. lia.
  - exists st'. split; [exact E|]. split; [done|]. split; [done|]. split; [intros i Hi; apply O; lia|]. split; [intros j Hj; apply S; lia|done].
Qed.

Lemma insertDone_ok x y lev idx st p s st2 : Rep st (p ++ s) -> x ∉ p ++ s -> 1 <= lev <= 16 -> p ++ s <> [] ->
  let st1 := prepare x y lev idx st in let cur := Nat.min (Z.to_nat lev) (Z.to_nat (lLevel (lst st))) in
  typed st2 -> relinked st1 st2 ->
  (forall i, (i < cur)%nat -> levelOk st2 i (chain (lv st1) i p ++ x :: chain (lv st1) i s)) ->
  (forall j, (cur <= j)%nat -> sameAt j st1 st2) -> lLevel (lst st2) = lLevel (lst st1) ->
  exists st3, insertDone x lev st2 = Some st3 /\ Rep st3 (p ++ x :: s) /\ (forall a, keep <$> nodes st3 !! a = keep <$> nodes st1 !! a).
Proof.
  intros H Hx Hlev Hne st1 cur T2 R2 O2 S2 L2. pose proof (prepare_rep x y lev idx st _ H Hx) as H1. fold st1 in H1.
  assert (Ell : lLevel (lst st) = lLevel (lst st1)) by reflexivity. pose proof (r_level _ _ H1) as El1.
  assert (Hmid : exists st3, (if lLevel (lst st2) <? lev then
          st' ← bothLoop x (Z.to_nat (lLevel (lst st2))) (Z.to_nat (lev - lLevel (lst st2))) st2; Some (setLevel lev st')
        else Some st2) = Some st3 /\ typed st3 /\ relinked st2 st3 /\ lLevel (lst st3) = Z.max lev (lLevel (lst st)) /\
        (forall j, (cur <= j < Z.to_nat lev)%nat -> levelOk st3 j [x]) /\ (forall j, ~ (cur <= j < Z.to_nat lev)%nat -> sameAt j st2 st3)).
  { destruct (Z.ltb_spec (lLevel (lst st2)) lev) as [Hlt|Hge].
    - rewrite L2 in *. destruct (bothLoop_ok x (Z.to_nat (lLevel (lst st1))) (Z.to_nat (lev - lLevel (lst st1))) st2) as (st3 & -> & T3 & R3 & O3 & S3 & L3).
      + unfold MAX_SKIPLIST_LEVEL. lia.
      + done.
      + intros j Hj. apply (ready_frame x [] [] j st1); [|apply S2; lia|done].
        pose proof (prepare_ready x y lev idx st p s j H Hx) as Hr. cbn zeta in Hr. fold st1 in Hr.
        assert (Hch : chain (lv st1) j (p ++ s) = []) by (apply chain_nil; lia). rewrite chain_app in Hch. apply app_eq_nil in Hch as [Hc1 Hc2].
        rewrite Hc1, Hc2 in Hr. apply Hr. unfold MAX_SKIPLIST_LEVEL. lia.
      + cbn. exists (setLevel lev st3). split; [reflexivity|]. split; [exact T3|]. split; [exact R3|]. split; [cbn; lia|].
        split; [intros j Hj; apply O3; lia|intros j Hj; apply S3; lia].
    - exists st2. split; [reflexivity|]. split; [done|]. split; [apply relinked_refl|]. split; [rewrite L2; lia|].
      split; [lia|intros; apply sameAt_refl]. }
  destruct Hmid as (st3 & E3 & T3 & R3 & L3 & O3 & S3). unfold insertDone. rewrite E3. cbn.
  assert (H16 : (0 < length (hnode (lst st3)))%nat /\ (0 < length (tnode (lst st3)))%nat).
  { destruct T3 as (_ & -> & ->). unfold MAX_SKIPLIST_LEVEL. lia. }
  destruct (lookup_lt_is_Some_2 _ _ (proj1 H16)) as [h Eh], (lookup_lt_is_Some_2 _ _ (proj2 H16)) as [t Et]. rewrite Eh, Et. cbn.
  eexists. split; [reflexivity|]. destruct (relinked_trans _ _ _ R2 R3) as [K3 Rs3]. injection Rs3 as Rh Rt Rn Rr _. split; [|exact K3].
  apply (rep_inserted x y lev idx st p s); cbn; try done.
  - intros i Hi Hil. fold st1. destruct (decide (i < cur)%nat) as [Hc|Hc].
    + apply (levelOk_frame st2); [apply S3; lia|now apply O2].
    + assert (Hch : chain (lv st1) i (p ++ s) = []) by (apply chain_nil; lia). rewrite chain_app in Hch. apply app_eq_nil in Hch as [-> ->].
      apply O3. lia.
  - intros i Hi Hil. apply sameAt_trans with st2; [apply S2; lia|apply S3; lia].
  - now rewrite Rn.
Qed.

(** ** What insertion means *)

Fixpoint span {A} (f : A -> bool) (l : list A) : list A * list A :=
  match l with
  | [] => ([], [])
  | y :: r => if f y then let '(a, b) := span f r in (y :: a, b) else ([], l)
  end.

(** The place is behind all that are smaller. *)
Definition slInsert (x : I) (errIfConflict : bool) (l : list I) : Z * list I :=
  let '(p, s) := span (fun y => 0 <? funcCmp x y) l in
  match s with
  | y :: _ => if (funcCmp y x =? 0) && errIfConflict then (ERR_COMM, l) else (ERR_OK, p ++ x :: s)
  | [] => (ERR_OK, p ++ [x])
  end.

(** Behind that place nothing is smaller, and the first one is not both smaller and larger. *)
Definition splits (x : I) (l : list I) : Prop :=
  Forall (fun y => funcCmp x y <= 0) (snd (span (fun y => 0 <? funcCmp x y) l)) /\
  forall y, l !! 0%nat = Some y -> 0 < funcCmp y x -> funcCmp x y <= 0.

Lemma span_app {A} (f : A -> bool) l : fst (span f l) ++ snd (span f l) = l.
Proof. induction l as [|y l IH]; [reflexivity|]. cbn. destruct (f y); [|reflexivity]. destruct (span f l). cbn in *. now rewrite IH. Qed.
Lemma span_fst {A} (f : A -> bool) l : Forall (fun y => f y = true) (fst (span f l)).
Proof. induction l as [|y l IH]; [constructor|]. cbn. destruct (f y) eqn:E; [|constructor]. destruct (span f l). cbn in *. now constructor. Qed.
Lemma span_all {A} (f : A -> bool) l : Forall (fun y => f y = true) l -> span f l = (l, []).
Proof. induction l as [|y l IH]; intros H; [reflexivity|]. apply Forall_cons in H as [Hy Hl]. cbn. now rewrite Hy, IH. Qed.

Lemma items_app st p s : items st (p ++ s) = items st p ++ items st s.
Proof. apply omap_app. Qed.

Lemma items_split st l u v : (forall a, a ∈ l -> is_Some (itemAt st a)) -> items st l = u ++ v ->
  exists p s, l = p ++ s /\ items st p = u /\ items st s = v.
Proof.
  revert u. induction l as [|a l IH]; intros u Hl E.
  - cbn in E. symmetry in E. apply app_eq_nil in E as [-> ->]. now exists [], [].
  - destruct (Hl a ltac:(set_solver)) as [y Ey]. unfold items in *. cbn in E. rewrite Ey in E. destruct u as [|z u].
    + exists [], (a :: l). split; [reflexivity|]. split; [reflexivity|]. cbn. now rewrite Ey.
    + cbn in E. injection E as <- E. destruct (IH u) as (p & s & -> & Ep & Es); [intros b Hb; apply Hl; set_solver|exact E|].
      exists (a :: p), s. split; [reflexivity|]. cbn. rewrite Ey. split; [now rewrite Ep|done].
Qed.

Lemma items_elem st l a y : a ∈ l -> itemAt st a = Some y -> y ∈ items st l.
Proof. intros Ha Ey. apply list_elem_of_omap. now exists a. Qed.

Lemma rep_item st l a : Rep st l -> a ∈ l -> is_Some (itemAt st a).
Proof. intros H Ha. destruct (r_nodes _ _ H a Ha) as (n & E & _ & Hi). unfold itemAt. now rewrite E. Qed.

Lemma rep_items_ends st l : Rep st l -> items st l !! 0%nat = l !! 0%nat ≫= itemAt st /\ last (items st l) = last l ≫= itemAt st.
Proof.
  intros H. split.
  - destruct l as [|a l]; [reflexivity|]. destruct (rep_item _ _ a H ltac:(set_solver)) as [y Ey]. unfold items. cbn. now rewrite Ey.
  - destruct l as [|a l _] using rev_ind; [reflexivity|]. destruct (rep_item _ _ a H ltac:(set_solver)) as [y Ey]. rewrite items_app. unfold items at 2. cbn.
    rewrite Ey. cbn. rewrite !last_snoc. cbn. now rewrite Ey.
Qed.

(** The list after a node was linked between [p] and [s]. *)
Lemma inserted_items x y lev idx st p s st3 : x ∉ p ++ s -> (forall a, keep <$> nodes st3 !! a = keep <$> nodes (prepare x y lev idx st) !! a) ->
  items st3 (p ++ x :: s) = items st p ++ y :: items st s /\ (forall a, a <> x -> keep <$> nodes st3 !! a = keep <$> nodes st !! a).
Proof.
  intros Hx Hk. assert (Ho : forall a, a <> x -> keep <$> nodes st3 !! a = keep <$> nodes st !! a) by (intros a Ha; now rewrite Hk, prepare_other).
  split; [|exact Ho]. assert (Hi : forall a, a ∈ p ++ s -> itemAt st3 a = itemAt st a).
  { intros a Ha. specialize (Ho a ltac:(now intros ->)). unfold itemAt. destruct (nodes st3 !! a), (nodes st !! a); cbn in Ho; try discriminate; [|reflexivity].
    injection Ho as E _. cbn. now rewrite E. }
  assert (Ex : itemAt st3 x = Some y).
  { specialize (Hk x). unfold itemAt. cbn in Hk. rewrite lookup_insert_eq in Hk. destruct (nodes st3 !! x); [|discriminate]. cbn in *. now injection Hk as ->. }
  rewrite items_app. unfold items at 2. cbn. rewrite Ex. cbn. fold (items st3 s). rewrite !(items_ext st st3); [reflexivity| |]; intros a Ha; apply Hi; set_solver.
Qed.

(** Two places are known without a search. *)
Lemma place_tail x l err tx : splits x l -> last l = Some tx -> 0 < funcCmp x tx -> slInsert x err l = (ERR_OK, l ++ [x]).
Proof.
  intros [Hs _] Ht Hl. unfold slInsert. pose proof (span_app (fun y => 0 <? funcCmp x y) l) as Ea.
  destruct (span _ l) as [p s]. cbn in *. destruct s as [|y s] using rev_ind; [now rewrite app_nil_r in Ea; subst|].
  rewrite <- Ea, app_assoc, last_snoc in Ht. injection Ht as ->. apply Forall_app in Hs as [_ Hs]. apply Forall_cons in Hs as [Hs _]. lia.
Qed.
Lemma place_head x l err hx : splits x l -> l !! 0%nat = Some hx -> 0 < funcCmp hx x -> slInsert x err l = (ERR_OK, x :: l).
Proof.
  intros [_ Hf] Hh Hx. destruct l as [|y l]; [discriminate|]. injection Hh as ->. specialize (Hf hx eq_refl Hx). unfold slInsert. cbn.
  rewrite (proj2 (Z.ltb_ge _ _) Hf). cbn. now rewrite (proj2 (Z.eqb_neq _ _)) by lia.
Qed.

Definition curMin (lev : Z) (st : Store) : nat := Z.to_nat (if lLevel (lst st) >? lev then lev else lLevel (lst st)).

Lemma curMin_min lev st l : Rep st l -> 0 <= lev -> curMin lev st = Nat.min (Z.to_nat lev) (Z.to_nat (lLevel (lst st))).
Proof. intros H Hl. unfold curMin. pose proof (r_level _ _ H). destruct (Z.gtb_spec (lLevel (lst st)) lev); lia. Qed.

Lemma maxlev_le16 st l : Rep st l -> (maxlev (lv st) l <= 16)%nat.
Proof.
  intros H. pose proof (fun a => rep_lv st l a H) as Hl. clear H. induction l as [|a l IH]; [cbn; lia|]. rewrite maxlev_cons.
  pose proof (Hl a ltac:(set_solver)). assert (maxlev (lv st) l <= 16)%nat by (apply IH; intros b Hb; apply Hl; set_solver). lia.
Qed.

(** Every loop links the node on the levels it shares with the list, then the insertion is completed. *)
Lemma loop_inserted x y lev idx st p s one : Rep st (p ++ s) -> x ∉ p ++ s -> 1 <= lev <= 16 -> p ++ s <> [] ->
  let st1 := prepare x y lev idx st in
  (forall i st0, (i < curMin lev st)%nat -> typed st0 -> chain (lv st1) i p ++ chain (lv st1) i s <> [] ->
     ready x (chain (lv st1) i p) (chain (lv st1) i s) i st0 ->
     linkedAt x (chain (lv st1) i p) (chain (lv st1) i s) i st0 (one i st0)) ->
  exists st2 st3, upLoop one 0 (curMin lev st) st1 = Some st2 /\ insertDone x lev st2 = Some st3 /\ Rep st3 (p ++ x :: s) /\
    items st3 (p ++ x :: s) = items st p ++ y :: items st s /\ (forall a, a <> x -> keep <$> nodes st3 !! a = keep <$> nodes st !! a).
Proof.
  intros H Hx Hlev Hne st1 Hone. pose proof (prepare_rep x y lev idx st _ H Hx) as H1. fold st1 in H1.
  pose proof (curMin_min lev st _ H ltac:(lia)) as Ec. pose proof (maxlev_le16 _ _ H) as H16. pose proof (r_level _ _ H) as El.
  destruct (linked_ok x p s (lv st1) (curMin lev st) st1 one) as (st2 & E2 & T2 & R2 & O2 & S2 & L2).
  - unfold MAX_SKIPLIST_LEVEL. lia.
  - apply H1.
  - intros i Hi. apply prepare_ready; [done|done|]. unfold MAX_SKIPLIST_LEVEL. lia.
  - intros i st0 Hi Ht0 Hr. apply Hone; [done|done| |done]. rewrite <- chain_app. intros E%chain_nil.
    pose proof (r_level _ _ H1) as El1. cbn in El1. lia.
  - destruct (insertDone_ok x y lev idx st p s st2) as (st3 & E3 & H3 & K3); try done; [now rewrite <- Ec|now rewrite <- Ec|].
    exists st2, st3. split; [exact E2|]. split; [exact E3|]. split; [exact H3|]. now apply inserted_items with lev idx.
Qed.

Definition inserted (x : I) (node : nat) (err : bool) (st : Store) (l : list nat) (o : option (Z * Store)) : Prop :=
  exists st' l', o = Some (fst (slInsert x err (items st l)), st') /\ Rep st' l' /\ items st' l' = snd (slInsert x err (items st l)) /\
    (if fst (slInsert x err (items st l)) =? ERR_OK then Permutation l' (node :: l) else l' = l /\ is_Some (nodes st' !! node)) /\
    (forall a, a <> node -> keep <$> nodes st' !! a = keep <$> nodes st !! a).

Lemma insert_first x node lev idx err st : Rep st [] -> 1 <= lev <= 16 ->
  inserted x node err st [] (st' ← SkipListInsertFirstNode node (prepare node x lev idx st); Some (ERR_OK, st')).
Proof.
  intros H Hlev. set (st1 := prepare node x lev idx st). assert (Hx : node ∉ ([] : list nat)) by apply not_elem_of_nil.
  pose proof (prepare_rep node x lev idx st _ H Hx) as H1. fold st1 in H1. unfold SkipListInsertFirstNode, load.
  assert (Ex : nodes st1 !! node = Some (mkNode (Some x) noNodes noNodes lev)) by (cbn; now rewrite lookup_insert_eq).
  cbn [mbind option_bind]. rewrite Ex. cbn [mbind option_bind level].
  destruct (bothLoop_ok node 0 (Z.to_nat lev) (setTail (Some node) (setHead (Some node) st1))) as (st2 & E2 & T2 & R2 & O2 & S2 & L2).
  - unfold MAX_SKIPLIST_LEVEL. lia.
  - apply H1.
  - intros j Hj. destruct (prepare_ready node x lev idx st [] [] j H Hx) as [A B C D F]; [unfold MAX_SKIPLIST_LEVEL; lia|].
    split; [exact A|exact B|exact C|exact D|exact F].
  - rewrite E2. cbn [mbind option_bind]. set (st3 := setNodeNum _ _). destruct R2 as [K2 Rs2]. injection Rs2 as Rh Rt Rn Rr _.
    pose proof (O2 0%nat ltac:(lia)) as (Hh0 & Ht0 & _).
    assert (H3 : Rep st3 [node]).
    { apply (rep_inserted node x lev idx st [] []); try done; cbn.
      - intros i _ Hi. apply O2. lia.
      - intros i _ Hi. apply (sameAt_trans i st1 (setTail (Some node) (setHead (Some node) st1))); [now repeat split|apply S2; lia].
      - rewrite (r_level _ _ H). cbn. lia.
      - rewrite Rh. now rewrite Hh0.
      - rewrite Rt. now rewrite Ht0.
      - now rewrite Rn. }
    exists st3, [node]. split; [reflexivity|]. split; [exact H3|]. cbn.
    destruct (inserted_items node x lev idx st [] [] st3 Hx K2) as [Ei Eo]. split; [exact Ei|]. split; [reflexivity|exact Eo].
Qed.

Lemma items_span st l x : Rep st l -> exists p s, l = p ++ s /\ span (fun y => 0 <? funcCmp x y) (items st l) = (items st p, items st s).
Proof.
  intros H. pose proof (span_app (fun y => 0 <? funcCmp x y) (items st l)) as Ea. destruct (span _ (items st l)) as [u v] eqn:E. cbn in Ea.
  destruct (items_split st l u v) as (p & s & -> & <- & <-); [intros a Ha; now apply (rep_item _ _ _ H)|done|]. now exists p, s.
Qed.

Lemma items_prepare x y lev idx st l : x ∉ l -> items (prepare x y lev idx st) l = items st l.
Proof. intros Hx. apply items_ext. intros a Ha. unfold itemAt. now rewrite prepare_other by (now intros ->). Qed.

Lemma insert_mid x node lev idx err st l : Rep st l -> node ∉ l -> l <> [] -> 1 <= lev <= 16 -> splits x (items st l) ->
  inserted x node err st l
    ('(r, st') ← SkiplistInsertAtMid x node err (if lLevel (lst st) >? lev then lev else lLevel (lst st)) (prepare node x lev idx st);
     if negb (r =? 0) then Some (ERR_COMM, st') else st' ← insertDone node lev st'; Some (ERR_OK, st')).
Proof.
  intros H Hx Hne Hlev [Hs _]. destruct (items_span st l x H) as (p & s & -> & Esp). rewrite Esp in Hs. cbn in Hs.
  set (st1 := prepare node x lev idx st). pose proof (prepare_rep node x lev idx st _ H Hx) as H1. fold st1 in H1.
  pose proof (span_fst (fun y => 0 <? funcCmp x y) (items st (p ++ s))) as Hp. rewrite Esp in Hp. cbn in Hp.
  assert (Hno : forall a, a <> node -> nodes st1 !! a = nodes st !! a) by (intros; now apply prepare_other).
  assert (Hit : forall a, a ∈ p ++ s -> itemAt st1 a = itemAt st a) by (intros a Ha; unfold itemAt; rewrite Hno; [done|now intros ->]).
  unfold SkiplistInsertAtMid. pose proof (r_level _ _ H1) as El1. pose proof (maxlev_le16 _ _ H1) as H16.
  assert (Enone : None = last (chain (lv st1) (Z.to_nat (lLevel (lst st1))) p)).
  { rewrite El1, Nat2Z.id. rewrite (proj2 (chain_nil _ _ p)); [reflexivity|]. rewrite maxlev_app. lia. }
  assert (Hlp : (0 < maxlev (lv st1) (p ++ s))%nat).
  { destruct (p ++ s) as [|a l'] eqn:E; [done|]. rewrite maxlev_cons. pose proof (rep_lv _ _ a H1 ltac:(set_solver)). lia. }
  destruct (searchLoop_ok (lv st1) x p s st1) with (n := Z.to_nat (lLevel (lst st1))) (next := None (A := nat)) (r := noNodes) as (r' & Es & Hr').
  { apply H1. } { intros a Ha. now apply (rep_domain _ _ _ H1). }
  { intros a Ha. destruct (rep_item _ _ a H ltac:(set_solver)) as [y Ey]. exists y. rewrite Hit by set_solver. split; [done|].
    rewrite Forall_forall in Hp. apply Z.ltb_lt, Hp. now apply items_elem with a. }
  { intros a Ha. destruct (rep_item _ _ a H ltac:(set_solver)) as [y Ey]. exists y. rewrite Hit by set_solver. split; [done|].
    rewrite Forall_forall in Hs. apply Hs. now apply items_elem with a. }
  { unfold MAX_SKIPLIST_LEVEL. lia. } { reflexivity. }
  { intros i Hi. rewrite <- chain_app. apply (r_levels _ _ H1). unfold MAX_SKIPLIST_LEVEL. lia. }
  rewrite <- Enone in Es. rewrite Es. cbn [mbind option_bind].
  assert (Enext : match Z.to_nat (lLevel (lst st1)) with O => None | S _ => chain (lv st1) 0 s !! 0%nat end = s !! 0%nat).
  { destruct (Z.to_nat (lLevel (lst st1))) eqn:E; [lia|]. rewrite chain_0; [reflexivity|]. intros a Ha. apply (rep_lv _ _ _ H1). set_solver. }
  rewrite Enext.
  assert (Econf : (match s !! 0%nat with None => Some false
      | Some _ => n ← load (s !! 0%nat) st1; y ← item n; Some ((funcCmp y x =? 0) && err) end) =
      Some (match items st s with y :: _ => (funcCmp y x =? 0) && err | [] => false end)).
  { destruct s as [|a s]; [reflexivity|]. destruct (rep_item _ _ a H ltac:(set_solver)) as [y Ey]. cbn [lookup list_lookup].
    assert (Ei : items st (a :: s) = y :: items st s) by (unfold items; cbn; now rewrite Ey). rewrite Ei.
    specialize (Hit a ltac:(set_solver)). unfold itemAt at 1 in Hit. rewrite Ey in Hit. unfold load. cbn [mbind option_bind].
    destruct (nodes st1 !! a) as [n|]; cbn [mbind option_bind] in *; [|discriminate]. now rewrite Hit. }
  rewrite Econf. cbn [mbind option_bind]. unfold inserted, slInsert. rewrite Esp.
  destruct (match items st s with y :: _ => (funcCmp y x =? 0) && err | [] => false end) eqn:Ec; cbn [mbind option_bind].
  - cbn. assert (Ec' : (let '(p0, s0) := (items st p, items st s) in match s0 with
        | y :: _ => if (funcCmp y x =? 0) && err then (ERR_COMM, items st (p ++ s)) else (ERR_OK, p0 ++ x :: s0)
        | [] => (ERR_OK, p0 ++ [x]) end) = (ERR_COMM, items st (p ++ s))) by (destruct (items st s); [discriminate|now rewrite Ec]).
    rewrite Ec'. exists st1, (p ++ s). split; [reflexivity|]. split; [exact H1|]. split; [now apply items_prepare|].
    split; [split; [reflexivity|]; unfold st1, prepare; cbn; rewrite lookup_insert_eq; eauto|].
    intros a Ha. now rewrite Hno.
  - assert (Ec' : (let '(p0, s0) := (items st p, items st s) in match s0 with
        | y :: _ => if (funcCmp y x =? 0) && err then (ERR_COMM, items st (p ++ s)) else (ERR_OK, p0 ++ x :: s0)
        | [] => (ERR_OK, p0 ++ [x]) end) = (ERR_OK, items st p ++ x :: items st s)) by (destruct (items st s); [reflexivity|now rewrite Ec]).
    rewrite Ec'. fold (curMin lev st). rewrite linkLoop_up.
    destruct (loop_inserted node x lev idx st p s (linkOne node r') H Hx Hlev Hne) as (st2 & st3 & E2 & E3 & H3 & Ei & Eo).
    { fold st1. intros i st0 Hi Ht0 Hch Hr. pose proof (curMin_min lev st _ H ltac:(lia)) as Ecm.
      assert (Ell : lLevel (lst st) = lLevel (lst st1)) by reflexivity.
      pose proof (Hr' i ltac:(lia)) as Hri. destruct (last (chain (lv st1) i p)) as [z|] eqn:Ez.
      - apply link_one_behind with z; [done|unfold MAX_SKIPLIST_LEVEL; lia|done|done|done].
      - apply last_none_nil in Ez. rewrite Ez in *. apply link_one_first; [done|unfold MAX_SKIPLIST_LEVEL; lia|done|done|done]. }
    fold st1 in E2. rewrite E2. cbn [mbind option_bind]. cbn. rewrite E3. cbn.
    exists st3, (p ++ node :: s). split; [reflexivity|]. split; [exact H3|]. split; [exact Ei|]. split; [|exact Eo].
    symmetry. apply Permutation_middle.
Qed.

Lemma loop_result x node err st l p s (o : option Store) lev : l = p ++ s -> slInsert x err (items st l) = (ERR_OK, items st p ++ x :: items st s) ->
  (exists st2 st3, o = Some st2 /\ insertDone node lev st2 = Some st3 /\ Rep st3 (p ++ node :: s) /\
    items st3 (p ++ node :: s) = items st p ++ x :: items st s /\ (forall a, a <> node -> keep <$> nodes st3 !! a = keep <$> nodes st !! a)) ->
  inserted x node err st l (st2 ← o; st3 ← insertDone node lev st2; Some (ERR_OK, st3)).
Proof.
  intros -> E (st2 & st3 & -> & E3 & H3 & Ei & Eo). unfold inserted. rewrite E. cbn. rewrite E3. cbn. exists st3, (p ++ node :: s).
  split; [reflexivity|]. split; [exact H3|]. split; [exact Ei|]. split; [|exact Eo]. symmetry. apply Permutation_middle.
Qed.

Lemma insertNode_ok x node lev idx err st l : Rep st l -> node ∉ l -> 1 <= lev <= 16 -> splits x (items st l) ->
  inserted x node err st l (insertNode x node lev err (prepare node x lev idx st)).
Proof.
  intros H Hx Hlev Hs. unfold insertNode. set (st1 := prepare node x lev idx st).
  pose proof (r_head _ _ H) as Hh. pose proof (r_tail _ _ H) as Ht.
  assert (Eh1 : head (lst st1) = head (lst st)) by reflexivity. assert (Et1 : tail (lst st1) = tail (lst st)) by reflexivity.
  assert (El1 : lLevel (lst st1) = lLevel (lst st)) by reflexivity. rewrite Eh1, Et1, El1, Hh, Ht. destruct (decide (l = [])) as [-> |Hne]; [now apply insert_first|].
  destruct (last l) as [a|] eqn:Ea; [|now apply last_none_nil in Ea]. destruct l as [|b l']; [done|]. set (l := b :: l') in *.
  change (l !! 0%nat) with (Some b). cbv iota. assert (Hal : a ∈ l) by now apply last_Some_elem_of. assert (Hbl : b ∈ l) by (apply elem_of_cons; now left).
  assert (Hld : forall c, c ∈ l -> exists n y, load (Some c) st1 = Some n /\ item n = Some y /\ itemAt st c = Some y).
  { intros c Hc. destruct (rep_item _ _ c H Hc) as [y Ey]. pose proof Ey as Ey'. unfold itemAt in Ey'. unfold load. cbn [mbind option_bind].
    unfold st1. rewrite prepare_other by (now intros ->). destruct (nodes st !! c) as [n|]; [|discriminate]. now exists n, y. }
  destruct (Hld a Hal) as (na & ya & -> & Ena & Ia), (Hld b Hbl) as (nb & yb & -> & Enb & Ib). cbn [mbind option_bind]. rewrite Ena, Enb. cbn [mbind option_bind].
  destruct (rep_items_ends _ _ H) as [Efirst Elast]. rewrite Ea in Elast. 
  change (items st l !! 0%nat = itemAt st b) in Efirst. change (last (items st l) = itemAt st a) in Elast. rewrite Ib in Efirst. rewrite Ia in Elast.
  destruct (Z.ltb_spec 0 (funcCmp x ya)) as [Hl|Hl].
  - apply (loop_result x node err st l l []); [now rewrite app_nil_r|now apply place_tail with ya|].
    unfold SkipListInsertAtTail. fold (curMin lev st). rewrite tailLoop_up. apply loop_inserted; [now rewrite app_nil_r|now rewrite app_nil_r|done|now rewrite app_nil_r|].
    intros i st0 Hi Ht0 Hc Hr. rewrite app_nil_r in Hc. apply tail_one; [done| |done|done].
    pose proof (curMin_min lev st _ H ltac:(lia)). unfold MAX_SKIPLIST_LEVEL. lia.
  - destruct (Z.ltb_spec 0 (funcCmp yb x)) as [Hb|Hb].
    + apply (loop_result x node err st l [] l); [reflexivity|now apply place_head with yb|].
      unfold SkipListInsertAtHead. fold (curMin lev st). rewrite headLoop_up. apply loop_inserted; [done|done|done|done|].
      intros i st0 Hi Ht0 Hc Hr. apply head_one; [done| |done|done].
      pose proof (curMin_min lev st _ H ltac:(lia)). unfold MAX_SKIPLIST_LEVEL. lia.
    + now apply insert_mid.
Qed.

Lemma SkipListInsert_ok x node err st l : Rep st l -> node ∉ l -> is_Some (nodes st !! node) -> splits x (items st l) ->
  inserted x node err st l (SkipListInsert (Some x) node err st).
Proof.
  intros H Hx [n0 En0] Hs.
  destruct (randomLoop_ok MAX_SKIPLIST_LEVEL 1 (lst st)) as (lev & idx & E & Hlev); [reflexivity|lia|apply H|].
  assert (Ei : SkipListInsert (Some x) node err st = insertNode x node lev err (prepare node x lev idx st)).
  { unfold SkipListInsert, SkiplistRandomLevel. rewrite En0, E. reflexivity. }
  rewrite Ei. now apply insertNode_ok.
Qed.

(** ** A sequence of objects *)

Section Objects.

(** The node is a part of the object. *)
Context (nodeOf : I -> nat).

(** The list links the nodes of these objects, in this order. *)
Record Den (st : Store) (u : list I) : Prop := {
  d_rep : Rep st (map nodeOf u);
  d_items : forall y, y ∈ u -> itemAt st (nodeOf y) = Some y
}.

Lemma items_nodeOf st u : (forall y, y ∈ u -> itemAt st (nodeOf y) = Some y) -> items st (map nodeOf u) = u.
Proof.
  induction u as [|y u IH]; intros H; [reflexivity|]. unfold items in *. cbn. rewrite H by set_solver. f_equal. apply IH. intros z Hz. apply H. set_solver.
Qed.

(** Addresses are determined by the objects. *)
Lemma addresses_of st l u : (forall a, a ∈ l -> exists y, itemAt st a = Some y /\ nodeOf y = a) -> items st l = u ->
  l = map nodeOf u /\ forall y, y ∈ u -> itemAt st (nodeOf y) = Some y.
Proof.
  revert u. induction l as [|a l IH]; intros u H E.
  - cbn in E. subst u. split; [reflexivity|]. set_solver.
  - destruct (H a ltac:(set_solver)) as (y & Ey & Ea). unfold items in E. cbn in E. rewrite Ey in E. subst u.
    destruct (IH (items st l)) as [E1 E2]; [intros b Hb; apply H; set_solver|reflexivity|]. cbn. fold (items st l). rewrite <- E1, Ea.
    split; [reflexivity|]. intros z [-> |Hz]%elem_of_cons; [now rewrite Ea|now apply E2].
Qed.

Lemma perm_head {A} (x y : A) u : Permutation (y :: u) (x :: u) -> y = x.
Proof.
  intros H. remember (length u) as n eqn:En. revert u H En. induction n as [|n IH]; intros u H En.
  - destruct u; [|discriminate]. apply Permutation_length_1 in H. exact H.
  - assert (Hx : x ∈ y :: u) by (rewrite H; now left). apply elem_of_cons in Hx as [-> |Hx]; [reflexivity|].
    apply list_elem_of_split in Hx as (u1 & u2 & ->). apply (IH (u1 ++ u2)).
    + apply (Permutation_cons_app_inv (a := x) (x :: u1) u2). rewrite <- H. cbn. rewrite perm_swap. now rewrite Permutation_middle.
    + rewrite length_app in *. cbn in En. lia.
Qed.

Lemma kept_item st st' a : keep <$> nodes st' !! a = keep <$> nodes st !! a -> itemAt st' a = itemAt st a.
Proof.
  unfold itemAt. intros H. destruct (nodes st' !! a), (nodes st !! a); cbn in *; try discriminate; [|reflexivity]. now injection H as -> _.
Qed.

Lemma kept_domain st st' a : keep <$> nodes st' !! a = keep <$> nodes st !! a -> is_Some (nodes st !! a) -> is_Some (nodes st' !! a).
Proof. intros H [n E]. rewrite E in H. destruct (nodes st' !! a); [eauto|discriminate]. Qed.

Lemma den_items st u : Den st u -> items st (map nodeOf u) = u.
Proof. intros H. apply items_nodeOf, H. Qed.

(** A part of the list that keeps its nodes and their objects. *)
Lemma den_kept st st' u u' : Den st u -> Rep st' (map nodeOf u') -> (forall y, y ∈ u' -> y ∈ u) ->
  (forall a, keep <$> nodes st' !! a = keep <$> nodes st !! a) -> Den st' u'.
Proof. intros H H' Hin Hk. split; [exact H'|]. intros y Hy. rewrite (kept_item st) by apply Hk. apply H. auto. Qed.

Lemma slInsert_perm x err u : fst (slInsert x err u) = ERR_OK -> Permutation (snd (slInsert x err u)) (x :: u).
Proof.
  unfold slInsert. pose proof (span_app (fun y => 0 <? funcCmp x y) u) as Ea. destruct (span _ u) as [p s]. cbn in Ea. subst u.
  destruct s as [|y s]; [intros _; cbn; rewrite app_nil_r; symmetry; apply Permutation_cons_append|]. destruct (_ && err); [discriminate|].
  intros _. symmetry. apply Permutation_middle.
Qed.

Lemma slInsert_elem x err u y : y ∈ snd (slInsert x err u) -> y = x \/ y ∈ u.
Proof.
  intros H. destruct (Z.eq_dec (fst (slInsert x err u)) ERR_OK) as [E|E].
  - rewrite (slInsert_perm _ _ _ E) in H. now apply elem_of_cons.
  - right. unfold slInsert in *. destruct (span _ u) as [p [|z s]]; [done|]. destruct (_ && err); [exact H|done].
Qed.

Lemma insert_den x err st u : Den st u -> is_Some (nodes st !! nodeOf x) -> nodeOf x ∉ map nodeOf u -> splits x u ->
  exists st', SkipListInsert (Some x) (nodeOf x) err st = Some (fst (slInsert x err u), st') /\ Den st' (snd (slInsert x err u)) /\
    (forall a, is_Some (nodes st !! a) -> is_Some (nodes st' !! a)).
Proof.
  intros H Hn Hout Hs. pose proof (den_items _ _ H) as Eu.
  destruct (SkipListInsert_ok x (nodeOf x) err st _ (d_rep _ _ H) Hout Hn) as (st' & l' & E & H' & Ei & Hl & Hk); [now rewrite Eu|].
  rewrite Eu in *. exists st'. split; [exact E|]. split.
  2: { intros a Ha. destruct (decide (a = nodeOf x)) as [-> |Hne]; [|now apply (kept_domain st); [apply Hk|]].
    destruct (fst (slInsert x err u) =? ERR_OK); [|apply Hl]. apply (rep_domain _ _ _ H'). rewrite Hl. now left. }
  assert (Hold : forall a, a ∈ map nodeOf u -> exists y, itemAt st' a = Some y /\ nodeOf y = a).
  { intros a Ha. rewrite (kept_item st) by (apply Hk; now intros ->). apply list_elem_of_fmap in Ha as (y & -> & Hy). exists y.
    split; [now apply H|reflexivity]. }
  assert (Hall : forall a, a ∈ l' -> exists y, itemAt st' a = Some y /\ nodeOf y = a).
  { intros a Ha. destruct (fst (slInsert x err u) =? ERR_OK) eqn:Er; [|destruct Hl; subst l'; auto]. rewrite Hl in Ha.
    apply elem_of_cons in Ha as [-> |Ha]; [|auto]. exists x. split; [|reflexivity].
    destruct (rep_item _ _ (nodeOf x) H') as [y Ey]; [rewrite Hl; now left|]. rewrite Ey. f_equal. apply (perm_head x y u).
    transitivity (items st' l').
    - unfold items. rewrite Hl. cbn. rewrite Ey. constructor. rewrite <- (items_nodeOf st' u) at 1; [reflexivity|].
      intros z Hz. rewrite (kept_item st); [now apply H|]. apply Hk. intros E'. apply Hout. rewrite <- E'. now apply list_elem_of_fmap_2.
    - rewrite Ei. apply slInsert_perm. now apply Z.eqb_eq. }
  destruct (addresses_of st' l' _ Hall Ei) as [-> Hit]. split; [exact H'|exact Hit].
Qed.

Lemma pop_den st u : Den st u -> exists st', SkipListPopValue st = Some (u !! 0%nat, st') /\ Den st' (drop 1 u) /\
  (forall a, is_Some (nodes st !! a) -> is_Some (nodes st' !! a)).
Proof.
  intros H. destruct u as [|x u].
  - pose proof (r_head _ _ (d_rep _ _ H)) as Hh. exists st. split; [|split; [exact H|auto]]. unfold SkipListPopValue. cbn in Hh. rewrite Hh. reflexivity.
  - destruct (SkipListPopValue_ok st (nodeOf x) (map nodeOf u)) as (st' & E & H' & Hk); [apply H|].
    exists st'. rewrite E, (d_items _ _ H x) by now left. split; [reflexivity|]. split; [|intros a; now apply kept_domain]. cbn. rewrite drop_0.
    apply (den_kept st st' (x :: u)); [done|done|intros; now right|done].
Qed.

Lemma pop_tail_den st u : Den st u -> exists st', SkipListPopTail st = Some (last u, st') /\ Den st' (take (length u - 1) u) /\
  (forall a, is_Some (nodes st !! a) -> is_Some (nodes st' !! a)).
Proof.
  intros H. destruct u as [|x u _] using rev_ind.
  - pose proof (r_tail _ _ (d_rep _ _ H)) as Hh. exists st. split; [|split; [exact H|auto]]. unfold SkipListPopTail. cbn in Hh. rewrite Hh. reflexivity.
  - destruct (SkipListPopTail_ok st (map nodeOf u) (nodeOf x)) as (st' & E & H' & Hk); [pose proof (d_rep _ _ H) as Hr; now rewrite map_app in Hr|].
    assert (Hx : x ∈ u ++ [x]) by (apply elem_of_app; right; now left).
    exists st'. rewrite E, (d_items _ _ H x Hx), last_snoc. split; [reflexivity|]. split; [|intros a; now apply kept_domain].
    rewrite length_app. replace (length u + length [x] - 1)%nat with (length u) by (cbn; lia). rewrite take_app_length.
    apply (den_kept st st' (u ++ [x])); [done|done|intros; apply elem_of_app; now left|done].
Qed.

(** The objects along the links of the lowest level. *)
Fixpoint walk (fuel : nat) (a : option nat) (st : Store) : list I :=
  match fuel, a with
  | S fuel, Some x =>
      match itemAt st x with
      | Some y => y :: walk fuel (match getForward (Some x) 0 st with Some n => n | None => None end) st
      | None => []
      end
  | _, _ => []
  end.
Definition contents (st : Store) : list I := walk (size (nodes st)) (head (lst st)) st.

Lemma walk_ok st l : Rep st l -> forall fuel p s, l = p ++ s -> (length s <= fuel)%nat -> walk fuel (s !! 0%nat) st = items st s.
Proof.
  intros H. induction fuel as [|fuel IH]; intros p s E Hf; [destruct s; [reflexivity|cbn in Hf; lia]|].
  destruct s as [|a s]; [reflexivity|]. cbn [walk lookup list_lookup]. destruct (rep_item st l a H) as [y Ey]; [rewrite E; apply elem_of_app; right; now left|].
  rewrite Ey. destruct (rep_links_0 st l p a s H E) as [-> _]. unfold items. cbn. rewrite Ey. f_equal. apply (IH (p ++ [a])); [now rewrite <- app_assoc|cbn in Hf; lia].
Qed.

Lemma contents_den st u : Den st u -> contents st = u.
Proof.
  intros H. unfold contents. pose proof (d_rep _ _ H) as Hr. rewrite (r_head _ _ Hr), (walk_ok st _ Hr _ [] (map nodeOf u) eq_refl); [now apply den_items|].
  apply NoDup_size; [apply Hr|]. intros a Ha. now apply (rep_domain _ _ _ Hr).
Qed.

(** The object of a node that a query has returned. *)
Definition itemOf (a : option nat) (st : Store) : option (option I) :=
  match a with None => Some None | Some _ => n ← load a st; Some (item n) end.

Lemma itemOf_in st u o : Den st u -> (forall y, o = Some y -> y ∈ u) -> itemOf (nodeOf <$> o) st = Some o.
Proof.
  intros H Ho. destruct o as [y|]; [|reflexivity]. pose proof (d_items _ _ H y (Ho y eq_refl)) as E. unfold itemAt in E. cbn.
  destruct (nodes st !! nodeOf y) as [n|]; [|discriminate]. cbn in *. now rewrite E.
Qed.

Lemma first_den st u : Den st u -> itemOf (SkipListGetPop st) st = Some (u !! 0%nat).
Proof.
  intros H. unfold SkipListGetPop. rewrite (r_head _ _ (d_rep _ _ H)). replace (map nodeOf u !! 0%nat) with (nodeOf <$> u !! 0%nat) by now destruct u.
  apply (itemOf_in st u); [exact H|]. intros y. apply list_elem_of_lookup_2.
Qed.
Lemma last_den st u : Den st u -> itemOf (SkipListGetTail st) st = Some (last u).
Proof.
  intros H. unfold SkipListGetTail. rewrite (r_tail _ _ (d_rep _ _ H)). change (map nodeOf u) with (nodeOf <$> u). rewrite fmap_last.
  apply (itemOf_in st u); [exact H|]. intros y. apply last_Some_elem_of.
Qed.
Lemma num_den st u : Den st u -> SkiplistGetNodeNum st = u32 (Z.of_nat (length u)).
Proof. intros H. unfold SkiplistGetNodeNum. now rewrite (r_num _ _ (d_rep _ _ H)), length_map. Qed.

Lemma init_den bits st : length bits = 1024%nat ->
  (forall a n, nodes st !! a = Some n -> length (forward n) = MAX_SKIPLIST_LEVEL /\ length (pre n) = MAX_SKIPLIST_LEVEL) ->
  Den (snd (SkiplistInit bits st)) [].
Proof.
  intros Hb Ht. split; [|set_solver]. cbn. split; cbn; try done.
  - constructor.
  - intros a Ha. now apply not_elem_of_nil in Ha.
  - intros i Hi. split; [|split]; [exact (lookup_replicate_2 MAX_SKIPLIST_LEVEL None i Hi)..|]. intros p a s E. now destruct p.
  - now rewrite length_map.
Qed.
End Objects.

(** ** Refinement of a sorted sequence *)

Section Refinement.

(** Objects are compared by a key; [P]: the objects for
    which that is so (sequence numbers are compared within half their range).  A comparison may
    give 0 for a smaller key, as those of the transport do. *)
Context (nodeOf : I -> nat) (key : I -> Z) (P : I -> Prop).
Hypothesis cmp_key : forall x y, P x -> P y -> (0 < funcCmp x y <-> key y < key x) /\ (key x = key y -> funcCmp x y = 0).

Inductive Op := OpInsert (x : I) (errIfConflict : bool) | OpPop | OpPopTail | OpFirst | OpLast | OpCount.
Inductive Res := ResCode (r : Z) | ResItem (o : option I) | ResCount (n : Z).

Definition exec (op : Op) (st : Store) : option (Res * Store) :=
  match op with
  | OpInsert x err => '(r, st) ← SkipListInsert (Some x) (nodeOf x) err st; Some (ResCode r, st)
  | OpPop => '(o, st) ← SkipListPopValue st; Some (ResItem o, st)
  | OpPopTail => '(o, st) ← SkipListPopTail st; Some (ResItem o, st)
  | OpFirst => o ← itemOf (SkipListGetPop st) st; Some (ResItem o, st)
  | OpLast => o ← itemOf (SkipListGetTail st) st; Some (ResItem o, st)
  | OpCount => Some (ResCount (SkiplistGetNodeNum st), st)
  end.

Fixpoint execs (ops : list Op) (st : Store) : option (list Res * Store) :=
  match ops with
  | [] => Some ([], st)
  | op :: ops => '(r, st) ← exec op st; '(rs, st) ← execs ops st; Some (r :: rs, st)
  end.

Definition sortedInsert (x : I) (err : bool) (u : list I) : Z * list I :=
  let '(p, s) := span (fun y => key y <? key x) u in
  if existsb (fun y => key y =? key x) u && err then (ERR_COMM, u) else (ERR_OK, p ++ x :: s).

(** An object that is in the list is not inserted again. *)
Definition aexec (op : Op) (u : list I) : option (Res * list I) :=
  match op with
  | OpInsert x err =>
      if existsb (fun y => nodeOf y =? nodeOf x)%nat u then None
      else let '(r, u') := sortedInsert x err u in Some (ResCode r, u')
  | OpPop => Some (ResItem (u !! 0%nat), drop 1 u)
  | OpPopTail => Some (ResItem (last u), take (length u - 1) u)
  | OpFirst => Some (ResItem (u !! 0%nat), u)
  | OpLast => Some (ResItem (last u), u)
  | OpCount => Some (ResCount (u32 (Z.of_nat (length u))), u)
  end.

Fixpoint aexecs (ops : list Op) (u : list I) : option (list Res * list I) :=
  match ops with
  | [] => Some ([], u)
  | op :: ops => '(r, u) ← aexec op u; '(rs, u) ← aexecs ops u; Some (r :: rs, u)
  end.

Definition usable (st : Store) (op : Op) : Prop :=
  match op with OpInsert x _ => P x /\ is_Some (nodes st !! nodeOf x) | _ => True end.

Record Sim (st : Store) (u : list I) : Prop := {
  s_den : Den nodeOf st u;
  s_sorted : StronglySorted (fun y z => key y <= key z) u;
  s_P : Forall P u
}.

Lemma span_ext {A} (f g : A -> bool) l : Forall (fun y => f y = g y) l -> span f l = span g l.
Proof. induction l as [|y l IH]; intros H; [reflexivity|]. apply Forall_cons in H as [Hy Hl]. cbn. now rewrite Hy, IH. Qed.

Lemma span_sorted u k : StronglySorted (fun y z => key y <= key z) u ->
  Forall (fun y => k <= key y) (snd (span (fun y => key y <? k) u)).
Proof.
  induction 1 as [|y u Hs IH Hy]; [constructor|]. cbn. destruct (Z.ltb_spec (key y) k).
  - destruct (span _ u). exact IH.
  - constructor; [lia|]. eapply Forall_impl; [exact Hy|]. cbn. lia.
Qed.

Lemma span_key x u : P x -> Forall P u -> span (fun y => 0 <? funcCmp x y) u = span (fun y => key y <? key x) u.
Proof.
  intros Hx Hu. apply span_ext. eapply Forall_impl; [exact Hu|]. cbn. intros y Hy. destruct (cmp_key x y Hx Hy) as [Hc _].
  destruct (Z.ltb_spec 0 (funcCmp x y)), (Z.ltb_spec (key y) (key x)); try reflexivity; exfalso; [apply Hc in H; lia|apply Hc in H0; lia].
Qed.

Lemma sorted_splits x u : P x -> Forall P u -> StronglySorted (fun y z => key y <= key z) u -> splits x u.
Proof.
  intros Hx Hu Hs. unfold splits. rewrite span_key by done. split.
  - pose proof (span_sorted u (key x) Hs) as Hk. pose proof (span_app (fun y => key y <? key x) u) as Ea.
    destruct (span _ u) as [p s]. cbn in *. subst u. apply Forall_app in Hu as [_ Hu]. rewrite Forall_forall in *. intros y Hy.
    specialize (Hk y Hy). destruct (cmp_key x y Hx (Hu y Hy)) as [Hc _]. destruct (Z.le_gt_cases (funcCmp x y) 0) as [|Hgt]; [done|]. apply Hc in Hgt. lia.
  - intros y Ey Hgt. assert (Hy : P y) by (rewrite Forall_forall in Hu; apply Hu; now apply list_elem_of_lookup_2 in Ey).
    destruct (cmp_key y x Hy Hx) as [Hc _], (cmp_key x y Hx Hy) as [Hc' _]. apply Hc in Hgt.
    destruct (Z.le_gt_cases (funcCmp x y) 0) as [|Hgt']; [done|]. apply Hc' in Hgt'. lia.
Qed.

Lemma slInsert_sorted x err u : P x -> Forall P u -> StronglySorted (fun y z => key y <= key z) u -> slInsert x err u = sortedInsert x err u.
Proof.
  intros Hx Hu Hs. unfold slInsert, sortedInsert. rewrite span_key by done.
  pose proof (span_sorted u (key x) Hs) as Hk. pose proof (span_fst (fun y => key y <? key x) u) as Hf. pose proof (span_app (fun y => key y <? key x) u) as Ea.
  destruct (span _ u) as [p s]. cbn in *.
  assert (Hp : existsb (fun y => key y =? key x) p = false).
  { apply not_true_iff_false. rewrite existsb_exists. intros (y & Hy & E%Z.eqb_eq). rewrite Forall_forall in Hf. specialize (Hf y (proj2 (list_elem_of_In _ _) Hy)).
    apply Z.ltb_lt in Hf. lia. }
  assert (Hu' : existsb (fun y => key y =? key x) u = existsb (fun y => key y =? key x) s) by now rewrite <- Ea, existsb_app, Hp.
  rewrite Hu'. clear Hu'. destruct s as [|y s]; [reflexivity|].
  assert (Hy : P y) by (rewrite Forall_forall in Hu; apply Hu; rewrite <- Ea; set_solver). destruct (cmp_key y x Hy Hx) as [_ Hc].
  assert (Hss : StronglySorted (fun y z => key y <= key z) (y :: s)).
  { rewrite <- Ea in Hs. clear -Hs. induction p as [|z p IH]; [exact Hs|]. cbn in Hs. inversion Hs; subst. auto. }
  inversion Hss as [|? ? _ Hys]; subst. apply Forall_cons in Hk as [Hk _]. cbn.
  replace (funcCmp y x =? 0) with ((key y =? key x) || existsb (fun y0 => key y0 =? key x) s); [reflexivity|].
  destruct (Z.eqb_spec (key y) (key x)) as [E|E]; cbn.
  - symmetry. apply Z.eqb_eq. now apply Hc.
  - destruct (cmp_key y x Hy Hx) as [Hlt _]. assert (0 < funcCmp y x) by (apply Hlt; lia).
    replace (funcCmp y x =? 0) with false by (symmetry; apply Z.eqb_neq; lia).
    apply not_true_iff_false. rewrite existsb_exists. intros (z & Hz & Ez%Z.eqb_eq). rewrite Forall_forall in Hys.
    specialize (Hys z (proj2 (list_elem_of_In _ _) Hz)). cbn in Hys. lia.
Qed.

Lemma sortedInsert_sorted x err u : StronglySorted (fun y z => key y <= key z) u ->
  StronglySorted (fun y z => key y <= key z) (snd (sortedInsert x err u)).
Proof.
  intros Hs. unfold sortedInsert. pose proof (span_sorted u (key x) Hs) as Hk. pose proof (span_fst (fun y => key y <? key x) u) as Hf.
  pose proof (span_app (fun y => key y <? key x) u) as Ea. destruct (span _ u) as [p s]. cbn in *. destruct (_ && err); [exact Hs|]. cbn. subst u.
  induction p as [|z p IH]; cbn in *.
  - constructor; [exact Hs|]. eapply Forall_impl; [exact Hk|]. done.
  - inversion Hs as [|? ? Hs' Hz]; subst. apply Forall_cons in Hf as [Hzx%Z.ltb_lt Hf]. constructor; [now apply IH|].
    apply Forall_app in Hz as [Hz1 Hz2]. apply Forall_app. split; [done|]. constructor; [lia|done].
Qed.

Lemma sortedInsert_elem x err u y : y ∈ snd (sortedInsert x err u) -> y = x \/ y ∈ u.
Proof.
  unfold sortedInsert. pose proof (span_app (fun y => key y <? key x) u) as Ea. destruct (span _ u) as [p s]. cbn in *. destruct (_ && err); cbn; [tauto|].
  subst u. rewrite !elem_of_app, elem_of_cons. tauto.
Qed.

Lemma sorted_snoc u x : StronglySorted (fun y z => key y <= key z) (u ++ [x]) -> StronglySorted (fun y z => key y <= key z) u.
Proof.
  induction u as [|y u IH]; intros H; [constructor|]. cbn in H. inversion H as [|? ? H1 H2]; subst. constructor; [auto|].
  now apply Forall_app in H2 as [H2 _].
Qed.

Lemma sim_insert x err st u : Sim st u -> P x -> is_Some (nodes st !! nodeOf x) -> nodeOf x ∉ map nodeOf u ->
  exists st', SkipListInsert (Some x) (nodeOf x) err st = Some (fst (sortedInsert x err u), st') /\ Sim st' (snd (sortedInsert x err u)) /\
    (forall a, is_Some (nodes st !! a) -> is_Some (nodes st' !! a)).
Proof.
  intros H Hx Hn Hout. pose proof (s_sorted _ _ H) as Hs. pose proof (s_P _ _ H) as HP.
  destruct (insert_den nodeOf x err st u (s_den _ _ H) Hn Hout) as (st' & E & H' & Hd); [now apply sorted_splits|].
  rewrite slInsert_sorted in * by done. exists st'. split; [exact E|]. split; [|exact Hd]. split; [exact H'|now apply sortedInsert_sorted|].
  rewrite Forall_forall in *. intros y Hy. apply sortedInsert_elem in Hy as [-> |Hy]; auto.
Qed.

Lemma exec_sim op st u r u' : Sim st u -> usable st op -> aexec op u = Some (r, u') ->
  exists st', exec op st = Some (r, st') /\ Sim st' u' /\ (forall a, is_Some (nodes st !! a) -> is_Some (nodes st' !! a)).
Proof.
  intros H Hu E. pose proof (s_den _ _ H) as Hr. pose proof (s_sorted _ _ H) as Hs. pose proof (s_P _ _ H) as HP.
  destruct op as [x err| | | | |]; cbn [exec aexec usable] in *.
  - destruct Hu as [Hx Hn]. destruct (existsb _ u) eqn:Ex; [discriminate|]. destruct (sortedInsert x err u) as [z u1] eqn:Es.
    injection E as <- <-. destruct (sim_insert x err st u H Hx Hn) as (st' & Ei & H' & Hk).
    { intros Hin. apply list_elem_of_fmap in Hin as (y & Ey & Hy). apply not_true_iff_false in Ex. apply Ex, existsb_exists. exists y.
      split; [now apply list_elem_of_In|]. now apply Nat.eqb_eq. }
    rewrite Es in *. rewrite Ei. cbn [mbind option_bind fst snd] in *. exists st'. split; [reflexivity|]. split; [exact H'|exact Hk].
  - injection E as <- <-. destruct (pop_den nodeOf st u Hr) as (st' & -> & H' & Hk). exists st'. split; [reflexivity|]. split; [|exact Hk].
    destruct u as [|y u]; [now split|]. cbn in *. rewrite drop_0 in *. apply Forall_cons in HP as [_ HP]. inversion Hs; subst. now split.
  - injection E as <- <-. destruct (pop_tail_den nodeOf st u Hr) as (st' & -> & H' & Hk). exists st'. split; [reflexivity|]. split; [|exact Hk].
    split; [exact H'| |now apply Forall_take]. destruct u as [|y u _] using rev_ind; [exact Hs|]. rewrite length_app in *.
    replace (length u + length [y] - 1)%nat with (length u) in * by (cbn; lia). rewrite take_app_length in *. now apply (sorted_snoc u y).
  - injection E as <- <-. exists st. rewrite (first_den nodeOf st u Hr). split; [reflexivity|split; [exact H|auto]].
  - injection E as <- <-. exists st. rewrite (last_den nodeOf st u Hr). split; [reflexivity|split; [exact H|auto]].
  - injection E as <- <-. exists st. rewrite (num_den nodeOf st u Hr). split; [reflexivity|split; [exact H|auto]].
Qed.

Lemma usable_mono st st' op : (forall a, is_Some (nodes st !! a) -> is_Some (nodes st' !! a)) -> usable st op -> usable st' op.
Proof. intros H. destruct op; cbn; [|done..]. intros [? ?]. auto. Qed.

Lemma execs_sim ops : forall st u rs u', Sim st u -> Forall (usable st) ops -> aexecs ops u = Some (rs, u') ->
  exists st', execs ops st = Some (rs, st') /\ Sim st' u'.
Proof.
  induction ops as [|op ops IH]; intros st u rs u' H Hu E; cbn in *; [injection E as <- <-; eauto|].
  apply Forall_cons in Hu as [Hop Hops]. destruct (aexec op u) as [[r u1]|] eqn:E1; [|discriminate]. cbn in E.
  destruct (aexecs ops u1) as [[rs1 u2]|] eqn:E2; [|discriminate]. injection E as <- <-.
  destruct (exec_sim op st u r u1 H Hop E1) as (st1 & -> & H1 & Hd). cbn.
  destruct (IH st1 u1 rs1 u2 H1) as (st2 & -> & H2); [|done|cbn; eauto].
  eapply Forall_impl; [exact Hops|]. intros o. now apply usable_mono.
Qed.

Lemma init_sim bits st : length bits = 1024%nat -> (forall a n, nodes st !! a = Some n -> length (forward n) = MAX_SKIPLIST_LEVEL /\ length (pre n) = MAX_SKIPLIST_LEVEL) ->
  Sim (snd (SkiplistInit bits st)) [].
Proof. intros Hb Ht. split; [now apply init_den|constructor|constructor]. Qed.

(** C19: The skip list implements a sorted sequence.  A list is initialised with any 1024 random
    bits, over nodes with any contents; objects carry their node and are compared by a key.  Every
    sequence of insertions (of objects that are not in the list at that time), removals at both
    ends, looks at both ends and counts gives the results it has on a sequence of objects that is
    kept sorted by key: no access fails, an insertion goes before the objects of an equal or larger
    key and is refused only if it must not meet an equal key and does; the first object is always
    one of the smallest key, the last one of the largest, and the count is the length modulo 2^32. *)
Theorem skiplist_refines_sorted bits st ops rs u : length bits = 1024%nat ->
  (forall a n, nodes st !! a = Some n -> length (forward n) = MAX_SKIPLIST_LEVEL /\ length (pre n) = MAX_SKIPLIST_LEVEL) ->
  Forall (usable st) ops -> aexecs ops [] = Some (rs, u) ->
  exists st', execs ops (snd (SkiplistInit bits st)) = Some (rs, st') /\
    StronglySorted (fun y z => key y <= key z) u /\ Rep st' (map nodeOf u) /\ items st' (map nodeOf u) = u.
Proof.
  intros Hb Ht Hu E. destruct (execs_sim ops _ _ _ _ (init_sim bits st Hb Ht) Hu E) as (st' & E' & H').
  exists st'. split; [exact E'|]. split; [apply H'|]. split; [apply H'|]. apply den_items, H'.
Qed.

End Refinement.

End Model.

Module SkipListDemo.

(** Addresses with sequence numbers that are compared modulo 2^32, around the wrap. *)
Definition obj : Type := nat * Z.
Definition cmp (x y : obj) : Z := if snd x =? snd y then 0 else Z.b2z (0 <? s32 (snd x - snd y)).
Definition key (x : obj) : Z := (snd x + 1000) mod 4294967296.
Definition near (x : obj) : Prop := 0 <= snd x < 4294967296 /\ key x < 2147483648.

Lemma cmp_near x y : near x -> near y -> (0 < cmp x y <-> key y < key x) /\ (key x = key y -> cmp x y = 0).
Proof.
  destruct x as [a x], y as [b y]. unfold near, key, cmp. cbn [snd]. intros [Hx Hkx] [Hy Hky].
  pose proof (Z.div_mod (x + 1000) 4294967296 ltac:(lia)) as Dx. pose proof (Z.div_mod (y + 1000) 4294967296 ltac:(lia)) as Dy.
  pose proof (Z.mod_pos_bound (x + 1000) 4294967296 ltac:(lia)). pose proof (Z.mod_pos_bound (y + 1000) 4294967296 ltac:(lia)).
  set (kx := (x + 1000) mod 4294967296) in *. set (ky := (y + 1000) mod 4294967296) in *.
  assert (Es : s32 (x - y) = kx - ky).
  { apply (s32_congr _ _ ((x + 1000) / 4294967296 - (y + 1000) / 4294967296)); [unfold in_s32; lia|lia]. }
  rewrite Es. destruct (Z.eqb_spec x y) as [-> |Hne].
  - split; [lia|reflexivity].
  - destruct (Z.ltb_spec 0 (kx - ky)); cbn; lia.
Qed.

Definition blank : SkipListNode (I := obj) := mkNode None noNodes noNodes 0.
Definition memory : Store (I := obj) :=
  mkStore (list_to_map [(1, blank); (2, blank); (3, blank); (4, blank)]%nat) (mkList None None [] [] 0 0 [] 0).
(** Every second bit is set. *)
Definition bits : list Z := map (fun i => Z.of_nat i) (seq 0 1024).

(** Numbers on both sides of the wrap; one of them is refused the second time. *)
Definition ops : list (Op (I := obj)) :=
  [OpInsert (1%nat, 4294967290) true; OpInsert (2%nat, 20) true; OpInsert (3%nat, 4294967294) true; OpInsert (4%nat, 20) true;
   OpCount; OpFirst; OpPop; OpPopTail; OpInsert (4%nat, 4294966900) false; OpLast; OpPop].
End SkipListDemo.

Lemma skiplist_refines_sorted_witness : exists st',
  execs SkipListDemo.cmp fst SkipListDemo.ops (snd (SkiplistInit SkipListDemo.bits SkipListDemo.memory)) =
    Some ([ResCode 0; ResCode 0; ResCode 0; ResCode (-1000); ResCount 3; ResItem (Some (1%nat, 4294967290)); ResItem (Some (1%nat, 4294967290));
           ResItem (Some (2%nat, 20)); ResCode 0; ResItem (Some (3%nat, 4294967294)); ResItem (Some (4%nat, 4294966900))], st') /\
  StronglySorted (fun y z => SkipListDemo.key y <= SkipListDemo.key z) [(3%nat, 4294967294)] /\
  Rep st' [3%nat] /\ items st' [3%nat] = [(3%nat, 4294967294)].
Proof.
  apply (skiplist_refines_sorted SkipListDemo.cmp fst SkipListDemo.key SkipListDemo.near SkipListDemo.cmp_near
    SkipListDemo.bits SkipListDemo.memory SkipListDemo.ops _ [(3%nat, 4294967294)]).
  - vm_compute. reflexivity.
  - intros a n Hin. apply elem_of_list_to_map_2 in Hin. rewrite !elem_of_cons in Hin.
    destruct Hin as [E|[E|[E|[E|E]]]]; [injection E as -> ->; now split..|now apply not_elem_of_nil in E].
  - unfold SkipListDemo.ops, SkipListDemo.near, SkipListDemo.key. repeat constructor; cbn; try lia; vm_compute; try reflexivity; eexists; reflexivity.
  - vm_compute. reflexivity.
Defined.

End SkipList.
