(* ===== verification/FillpItem.v ===== *)
(** * Packets of the fillp transport

    The packet items, their comparison and the data packets on the wire, from
    components/nstackx/fillp/src/fillp_lib: fillp.h, fillp_pcb.h and fillp_pcb.c
    (items and the comparisons of the skip lists), fillp_output.c and fillp_frame.c
    (the head and the options of a data packet), fillp_input.c (their analysis).

    The head of a packet is in network order; the model has the bytes.  The last
    part is the interface between the transport and the lists of items it keeps:
    operations with the laws that the skip lists have. *)

From S2P Require Import Prelude ErrorCode Bytes SkipList.
From stdpp Require Import gmap list sorting.
#[local] Open Scope Z_scope.

Module FillpItem.

Definition FILLP_HLEN : Z := 12.
Definition FILLP_DATA_OFFSET_LEN : Z := 2.
Definition FILLP_DATA_OPT_HLEN : Z := 2.
Definition FILLP_OPT_TIMESTAMP : Z := 1.
Definition FILLP_OPT_FRAME_INFO : Z := 2.
Definition FILLP_OPT_TIMESTAMP_LEN : Z := 8.
(** sizeof(struct FillpFrameDataOption), packed. *)
Definition FILLP_OPT_FRAME_INFO_LEN : Z := 14.
Definition FILLP_OPT_FLAG_TIMESTAMP : Z := 1.
Definition FILLP_OPT_FLAG_FRAME_INFO : Z := 2.
Definition FILLP_PKT_TYPE_DATA : Z := 1.
Definition FILLP_PROTOCOL_VERSION_NUMBER : Z := 0.
Definition FILLP_EINVAL : Z := 22.
Definition FILLP_ITEM_FLAGS_FRAME_OPT_BITMAP_MASK : Z := 255.
Definition FILLP_ITEM_FLAGS_FIRST_PKT : Z := 512.
Definition FILLP_ITEM_FLAGS_LAST_PKT : Z := 1024.
Definition FILLP_ITEM_FLAGS_APP_LARGE_DATA : Z := 2048.
Definition FILLP_ITEM_FLAGS_FIRST_PKT_FOR_CAL_COST : Z := Z.lor FILLP_ITEM_FLAGS_APP_LARGE_DATA FILLP_ITEM_FLAGS_FIRST_PKT.
Definition FILLP_ITEM_FLAGS_LAST_PKT_FOR_CAL_COST : Z := Z.lor FILLP_ITEM_FLAGS_APP_LARGE_DATA FILLP_ITEM_FLAGS_LAST_PKT.
Definition ERR_OK : Z := SkipList.ERR_OK.

Definition UTILS_FLAGS_CHECK (flag f : Z) : bool := Z.land flag f =? f.

Record FrameInfo := mkFrame { frameType : Z; frSeqNum : Z; subSeqNum : Z; frLevel : Z; timestamp : Z }.
Record FillpFrameItem := mkFrameItem { info : FrameInfo; fragSize : Z }.

(** [body]: the bytes behind the head, [buf.len] of them. *)
Record FillpPcbItem := mkItem {
  skipListNode : nat;
  seqNum : Z;
  pktNum : Z;
  dataLen : Z;
  dataOptLen : Z;
  dataOptFlag : Z;
  flags : Z;
  frame : option FillpFrameItem;
  body : list byte
}.
#[export] Instance etaItem : Eta FillpPcbItem := mkEta _ (fun x =>
  mkItem (skipListNode x) (seqNum x) (pktNum x) (dataLen x) (dataOptLen x) (dataOptFlag x) (flags x) (frame x) (body x)).

Definition bufLen (item : FillpPcbItem) : Z := Z.of_nat (length (body item)).

(** What the application reads. *)
Definition payload (item : FillpPcbItem) : list byte := take (Z.to_nat (dataLen item)) (drop (Z.to_nat (dataOptLen item)) (body item)).

Record FillpPktHead := mkHead { flag : Z; hDataLen : Z; hPktNum : Z; hSeqNum : Z }.

(** ** Numbers *)

Definition FillpNumIsbigger (value1 value2 : Z) : bool := 0 <? s32 (value1 - value2).

Definition FillpSkiplistCmp (value1 value2 : FillpPcbItem) : Z :=
  if seqNum value1 =? seqNum value2 then ERR_OK else Z.b2z (0 <? s32 (seqNum value1 - seqNum value2)).

Definition FillpSkiplistRecvcmp (value1 value2 : FillpPcbItem) : Z :=
  if pktNum value1 =? pktNum value2 then ERR_OK else Z.b2z (0 <? s32 (seqNum value1 - seqNum value2)).

(** ** Data packets that are sent *)

Definition FILLP_HEADER_SET_PKT_TYPE (flag type : Z) : Z := Z.lor flag (Z.shiftl (Z.land type 15) 8).
Definition FILLP_HEADER_SET_PROTOCOL_VERSION (flag ver : Z) : Z := Z.lor flag (Z.shiftl (Z.land ver 15) 12).
Definition FILLP_HEADER_SET_DAT_WITH_OPTION (flag : Z) : Z := Z.lor flag 128.
Definition FILLP_HEADER_SET_DAT_WITH_LAST_FLAG (flag : Z) : Z := Z.lor flag 64.
Definition FILLP_HEADER_SET_DAT_WITH_FIRST_FLAG (flag : Z) : Z := Z.lor flag 32.
Definition FILLP_PKT_GET_TYPE (flag : Z) : Z := Z.shiftr (Z.land flag 3840) 8.
Definition FILLP_PKT_GET_DAT_WITH_OPTION (flag : Z) : bool := negb (Z.land flag 128 =? 0).

(** The bytes of the option; [curTime] is the clock. *)
Definition FillpBuildTimestamp (curTime : Z) : list byte :=
  [Zbyte FILLP_OPT_TIMESTAMP; Zbyte FILLP_OPT_TIMESTAMP_LEN] ++ be 8 curTime.

Definition FillpFrameBuildOption (item : FillpPcbItem) : option (list byte) :=
  f ← frame item;
  let i := info f in
  Some ([Zbyte FILLP_OPT_FRAME_INFO; Zbyte FILLP_OPT_FRAME_INFO_LEN] ++
        [Zbyte (frameType i); Zbyte (frLevel i)] ++ be 2 (frSeqNum i) ++ [Zbyte (subSeqNum i)] ++
        [Zbyte (Z.land (flags item) FILLP_ITEM_FLAGS_FRAME_OPT_BITMAP_MASK)] ++ be 4 (fragSize f) ++ be 4 (timestamp i)).

(** The options are written behind their total length, at the start of the body. *)
Definition FillpBuildPktDataOptions (curTime : Z) (item : FillpPcbItem) : option (list byte) :=
  let ts := if UTILS_FLAGS_CHECK (dataOptFlag item) FILLP_OPT_FLAG_TIMESTAMP then FillpBuildTimestamp curTime else [] in
  fr ← (if UTILS_FLAGS_CHECK (dataOptFlag item) FILLP_OPT_FLAG_FRAME_INFO then FillpFrameBuildOption item else Some []);
  b ← writeAt FILLP_DATA_OFFSET_LEN ts (body item);
  b ← writeAt (FILLP_DATA_OFFSET_LEN + Z.of_nat (length ts)) fr b;
  writeAt 0 (be 2 (Z.of_nat (length ts) + Z.of_nat (length fr))) b.

(** The packet number of the connection is incremented; the result is the number, the item and the
    bytes of the packet. *)
Definition FillpBuildDataPkt (curTime : Z) (num : Z) (item : FillpPcbItem) : option (Z * FillpPcbItem * list byte) :=
  let num := u32 (num + 1) in
  let item := item <| pktNum := num |> in
  let flag := FILLP_HEADER_SET_PROTOCOL_VERSION (FILLP_HEADER_SET_PKT_TYPE 0 FILLP_PKT_TYPE_DATA) FILLP_PROTOCOL_VERSION_NUMBER in
  '(flag, b) ← (if negb (dataOptFlag item =? 0) && negb (dataOptLen item =? 0) then
                  b ← FillpBuildPktDataOptions curTime item; Some (FILLP_HEADER_SET_DAT_WITH_OPTION flag, b)
                else Some (flag, body item));
  let flag := if UTILS_FLAGS_CHECK (flags item) FILLP_ITEM_FLAGS_LAST_PKT_FOR_CAL_COST then FILLP_HEADER_SET_DAT_WITH_LAST_FLAG flag
              else if UTILS_FLAGS_CHECK (flags item) FILLP_ITEM_FLAGS_FIRST_PKT_FOR_CAL_COST then FILLP_HEADER_SET_DAT_WITH_FIRST_FLAG flag
              else flag in
  Some (num, item <| body := b |>, be 2 flag ++ be 2 (dataLen item) ++ be 4 num ++ be 4 (seqNum item) ++ b).

(** ** Data packets that are received *)

(** The head in the order of the host. *)
Definition headOf (p : list byte) : option FillpPktHead :=
  f ← readAt 0 2 p; d ← readAt 2 2 p; k ← readAt 4 4 p; s ← readAt 8 4 p;
  Some (mkHead (unbe f) (unbe d) (unbe k) (unbe s)).

(** [alloc]: memory for a frame item was available. *)
Definition FillpFrameParseOption (alloc : bool) (item : FillpPcbItem) (opt : Z) (optLen : Z) : option (Z * FillpPcbItem) :=
  if optLen <? FILLP_OPT_FRAME_INFO_LEN then Some (FILLP_EINVAL, item)
  else
    o ← readAt opt FILLP_OPT_FRAME_INFO_LEN (body item);
    ty ← readAt 0 1 o; lv ← readAt 1 1 o; sq ← readAt 2 2 o; sub ← readAt 4 1 o; bm ← readAt 5 1 o; fs ← readAt 6 4 o; ts ← readAt 10 4 o;
    if negb alloc then Some (ERR_OK, item)
    else Some (ERR_OK, item <| frame := Some (mkFrameItem (mkFrame (unbe ty) (unbe sq) (unbe sub) (unbe lv) (unbe ts)) (unbe fs)) |>
                            <| flags := Z.lor (unbe bm) FILLP_ITEM_FLAGS_FIRST_PKT |>).

(** The jitter that is computed from a time stamp is a statistic. *)
Definition FillpProcessDataOptions (alloc : bool) (type len : Z) (value : Z) (item : FillpPcbItem) : option (Z * FillpPcbItem) :=
  if type =? FILLP_OPT_TIMESTAMP then
    if len =? FILLP_OPT_TIMESTAMP_LEN then _ ← readAt value 8 (body item); Some (ERR_OK, item)
    else Some (FILLP_EINVAL, item)
  else if type =? FILLP_OPT_FRAME_INFO then FillpFrameParseOption alloc item value len
  else Some (ERR_OK, item).

Fixpoint optionLoop (fuel : nat) (alloc : bool) (datOptAddr datOptLen : Z) (item : FillpPcbItem) : option (Z * FillpPcbItem) :=
  match fuel with
  | O => None
  | S fuel' =>
      if 1 <? datOptLen then
        ty ← readAt datOptAddr 1 (body item);
        ln ← readAt (datOptAddr + 1) 1 (body item);
        let curOptLen := u16 (unbe ln + FILLP_DATA_OPT_HLEN) in
        if datOptLen <? curOptLen then Some (FILLP_EINVAL, item)
        else
          '(err, item) ← FillpProcessDataOptions alloc (unbe ty) (unbe ln) (datOptAddr + FILLP_DATA_OPT_HLEN) item;
          if negb (err =? ERR_OK) then Some (err, item)
          else optionLoop fuel' alloc (datOptAddr + curOptLen) (u16 (datOptLen - curOptLen)) item
      else Some (ERR_OK, item)
  end.

(** The length of the options is stored back in the order of the host. *)
Definition FillpAnalysisDataOptions (alloc : bool) (item : FillpPcbItem) : option (Z * FillpPcbItem) :=
  if bufLen item <? FILLP_DATA_OFFSET_LEN then Some (FILLP_EINVAL, item)
  else
    l ← readAt 0 2 (body item);
    let datOptLen := unbe l in
    let item := item <| dataOptLen := u16 (datOptLen + FILLP_DATA_OFFSET_LEN) |> in
    b ← writeAt 0 (Bytes.le 2 datOptLen) (body item);
    let item := item <| body := b |> in
    if bufLen item <? datOptLen + FILLP_DATA_OFFSET_LEN then Some (FILLP_EINVAL, item)
    else optionLoop (S (Z.to_nat datOptLen)) alloc FILLP_DATA_OFFSET_LEN datOptLen item.

(** ** Analysis of any packet *)

(** The frame and the flags are all that an option changes. *)
Definition sameItem (a b : FillpPcbItem) : Prop :=
  skipListNode a = skipListNode b /\ seqNum a = seqNum b /\ pktNum a = pktNum b /\ dataLen a = dataLen b /\ dataOptLen a = dataOptLen b /\ body a = body b.

Lemma sameItem_refl a : sameItem a a.
Proof. now repeat split. Qed.
Lemma sameItem_trans a b c : sameItem a b -> sameItem b c -> sameItem a c.
Proof. unfold sameItem. intuition congruence. Qed.

Lemma unbe1_range l : length l = 1%nat -> 0 <= unbe l < 256.
Proof. intros E. pose proof (unle_range (reverse l)) as H. rewrite length_reverse, E in H. exact H. Qed.
Lemma unbe2_range l : length l = 2%nat -> 0 <= unbe l < 65536.
Proof. intros E. pose proof (unle_range (reverse l)) as H. rewrite length_reverse, E in H. exact H. Qed.

(** A read inside the buffer. *)
Ltac read l Hl := match goal with |- context [readAt ?o ?n ?b] =>
  let E := fresh "E" in destruct (readAt_ok o n b) as (l & E & Hl); [lia|lia|lia|]; rewrite E; cbn [mbind option_bind] end.

Lemma FillpFrameParseOption_spec alloc item opt len : 0 <= opt -> 0 <= len -> opt + len <= bufLen item ->
  exists item', FillpFrameParseOption alloc item opt len = Some (if len <? 14 then FILLP_EINVAL else ERR_OK, item') /\ sameItem item' item.
Proof.
  intros H1 H2 H3. unfold bufLen in H3. unfold FillpFrameParseOption, FILLP_OPT_FRAME_INFO_LEN. destruct (Z.ltb_spec len 14); [now eexists _|].
  read o Ho. do 7 (let r := fresh "r" in let h := fresh "Hr" in read r h; clear h). destruct alloc; now eexists _.
Qed.

Definition optionError (ty len : Z) : Z :=
  if ty =? FILLP_OPT_TIMESTAMP then if len =? FILLP_OPT_TIMESTAMP_LEN then ERR_OK else FILLP_EINVAL
  else if ty =? FILLP_OPT_FRAME_INFO then if len <? 14 then FILLP_EINVAL else ERR_OK
  else ERR_OK.

Lemma FillpProcessDataOptions_spec alloc ty len value item : 0 <= value -> 0 <= len -> value + len <= bufLen item ->
  exists item', FillpProcessDataOptions alloc ty len value item = Some (optionError ty len, item') /\ sameItem item' item.
Proof.
  intros H1 H2 H3. unfold FillpProcessDataOptions, optionError. destruct (ty =? _).
  - destruct (Z.eqb_spec len FILLP_OPT_TIMESTAMP_LEN) as [E|_]; [|now eexists _]. unfold bufLen, FILLP_OPT_TIMESTAMP_LEN in *. read l Hl. now eexists _.
  - destruct (ty =? _); [now apply FillpFrameParseOption_spec|now eexists _].
Qed.

Lemma optionLoop_spec alloc : forall fuel addr len item, 0 <= addr -> 0 <= len < 65536 -> addr + len <= bufLen item -> (Z.to_nat len < fuel)%nat ->
  exists err item', optionLoop fuel alloc addr len item = Some (err, item') /\ sameItem item' item.
Proof.
  induction fuel as [|fuel IH]; intros addr len item H1 H2 H3 Hf; [lia|]. cbn [optionLoop].
  destruct (Z.ltb_spec 1 len) as [Hl|]; [|now eexists _, _]. unfold bufLen in H3. read l Hlen. read t Ht.
  pose proof (unbe1_range l ltac:(lia)) as Hr. unfold FILLP_DATA_OPT_HLEN. assert (Eu : u16 (unbe l + 2) = unbe l + 2) by (unfold u16; rewrite Z.mod_small; lia).
  rewrite Eu. destruct (Z.ltb_spec len (unbe l + 2)) as [|Hc]; [now eexists _, _|].
  destruct (FillpProcessDataOptions_spec alloc (unbe t) (unbe l) (addr + 2) item) as (item1 & -> & Hs); [lia|lia|unfold bufLen; lia|]. cbn [mbind option_bind].
  destruct (negb (_ =? ERR_OK)); [now eexists _, _|].
  assert (Eu' : u16 (len - (unbe l + 2)) = len - (unbe l + 2)) by (unfold u16; rewrite Z.mod_small; lia). rewrite Eu'.
  destruct (IH (addr + (unbe l + 2)) (len - (unbe l + 2)) item1) as (err2 & item2 & -> & Hs2); [lia|lia| |lia|].
  - destruct Hs as (_ & _ & _ & _ & _ & Eb). unfold bufLen. rewrite Eb. lia.
  - eexists _, _. split; [reflexivity|]. now apply sameItem_trans with item1.
Qed.

(** No read is outside of the packet, whatever it contains; the numbers, the length and the bytes
    behind the length of the options stay. *)
Lemma FillpAnalysisDataOptions_spec alloc item : exists err item',
  FillpAnalysisDataOptions alloc item = Some (err, item') /\ skipListNode item' = skipListNode item /\ seqNum item' = seqNum item /\
  pktNum item' = pktNum item /\ dataLen item' = dataLen item /\ length (body item') = length (body item) /\ drop 2 (body item') = drop 2 (body item) /\
  (2 <= bufLen item -> dataOptLen item' = u16 (unbe (take 2 (body item)) + 2)).
Proof.
  unfold FillpAnalysisDataOptions, FILLP_DATA_OFFSET_LEN. destruct (Z.ltb_spec (bufLen item) 2) as [Hb|Hb].
  { eexists _, _. split; [reflexivity|]. repeat split. lia. }
  unfold bufLen in Hb. assert (Er : readAt 0 2 (body item) = Some (take 2 (body item))).
  { unfold readAt. cbn [Z.leb andb]. destruct (Z.leb_spec (0 + 2) (Z.of_nat (length (body item)))); [reflexivity|lia]. }
  rewrite Er. cbn [mbind option_bind]. set (n := unbe (take 2 (body item))).
  assert (Hn : 0 <= n < 65536) by (apply unbe2_range; rewrite length_take; lia).
  change (body (item <| dataOptLen := _ |>)) with (body item).
  assert (Hw : exists b, writeAt 0 (Bytes.le 2 n) (body item) = Some b /\ length b = length (body item) /\ drop 2 b = drop 2 (body item)).
  { rewrite writeAt_eq by (rewrite ?length_le; lia). eexists. split; [reflexivity|]. rewrite length_le. change (Z.to_nat 0) with 0%nat. rewrite take_0. cbn [app Nat.add]. split.
    - rewrite length_app, length_le, length_drop. lia.
    - rewrite drop_app_length' by now rewrite length_le. reflexivity. }
  destruct Hw as (b & -> & Hlb & Hdb). cbn [mbind option_bind].
  set (item1 := item <| dataOptLen := u16 (n + 2) |> <| body := b |>).
  destruct (Z.ltb_spec (bufLen item1) (n + 2)) as [|Hlen].
  - eexists _, _. split; [reflexivity|]. now repeat split.
  - destruct (optionLoop_spec alloc (S (Z.to_nat n)) 2 n item1) as (err & item2 & -> & Hs); [lia|lia|lia|lia|].
    eexists _, _. split; [reflexivity|]. destruct Hs as (-> & -> & -> & -> & -> & ->). now repeat split.
Qed.

(** ** Packets of the sender *)

(** One option of a packet. *)
Lemma opt_step alloc fuel a ty v c len item : body item = a ++ ([Zbyte ty; Zbyte (Z.of_nat (length v))] ++ v) ++ c -> (length v < 254)%nat -> 0 <= ty < 256 ->
  optionError ty (Z.of_nat (length v)) = ERR_OK -> 2 + Z.of_nat (length v) <= len < 65536 ->
  exists item', optionLoop (S fuel) alloc (Z.of_nat (length a)) len item =
    optionLoop fuel alloc (Z.of_nat (length (a ++ [Zbyte ty; Zbyte (Z.of_nat (length v))] ++ v))) (len - 2 - Z.of_nat (length v)) item' /\ sameItem item' item.
Proof.
  intros Eb Hv Hty He Hlen. cbn [optionLoop]. destruct (Z.ltb_spec 1 len); [|lia].
  assert (E1 : readAt (Z.of_nat (length a)) 1 (body item) = Some [Zbyte ty]).
  { rewrite Eb. apply (readAt_app _ _ a [Zbyte ty] (([Zbyte (Z.of_nat (length v))] ++ v) ++ c)); reflexivity. }
  assert (E2 : readAt (Z.of_nat (length a) + 1) 1 (body item) = Some [Zbyte (Z.of_nat (length v))]).
  { rewrite Eb. replace (a ++ ([Zbyte ty; Zbyte (Z.of_nat (length v))] ++ v) ++ c) with ((a ++ [Zbyte ty]) ++ [Zbyte (Z.of_nat (length v))] ++ (v ++ c))
      by now rewrite <- !app_assoc.
    apply readAt_app; [rewrite length_app; cbn; lia|reflexivity]. }
  assert (Eu : forall z, 0 <= z < 256 -> unbe [Zbyte z] = z).
  { intros z Hz. unfold unbe. cbn. rewrite byteZ_Zbyte. unfold u8. rewrite Z.mod_small; lia. }
  rewrite E1, E2. cbn [mbind option_bind]. rewrite !Eu by lia. unfold FILLP_DATA_OPT_HLEN, u16. rewrite (Z.mod_small (Z.of_nat (length v) + 2)) by lia.
  destruct (Z.ltb_spec len (Z.of_nat (length v) + 2)); [lia|].
  destruct (FillpProcessDataOptions_spec alloc ty (Z.of_nat (length v)) (Z.of_nat (length a) + 2) item) as (item1 & -> & Hs); [lia|lia| |].
  { unfold bufLen. rewrite Eb, !length_app. cbn. lia. }
  cbn [mbind option_bind]. rewrite He. cbn [negb Z.eqb ERR_OK SkipList.ERR_OK]. exists item1. split; [|exact Hs].
  rewrite !length_app. cbn [length]. f_equal; [lia|]. rewrite Z.mod_small; lia.
Qed.

Definition optionBytes (f : Z) : Z :=
  (if UTILS_FLAGS_CHECK f FILLP_OPT_FLAG_TIMESTAMP then 10 else 0) + (if UTILS_FLAGS_CHECK f FILLP_OPT_FLAG_FRAME_INFO then 16 else 0).

(** Items as the socket layer prepares them. *)
Record sendable (item : FillpPcbItem) : Prop := {
  sb_len : bufLen item = dataOptLen item + dataLen item;
  sb_data : 0 < dataLen item < 65536;
  sb_seq : in_u32 (seqNum item);
  sb_opt : dataOptLen item = if dataOptFlag item =? 0 then 0 else 2 + optionBytes (dataOptFlag item);
  sb_frame : UTILS_FLAGS_CHECK (dataOptFlag item) FILLP_OPT_FLAG_FRAME_INFO = true -> is_Some (frame item)
}.


Definition isOption (ty : Z) (n : nat) (l : list byte) : Prop :=
  l = [] \/ exists v, l = [Zbyte ty; Zbyte (Z.of_nat (length v))] ++ v /\ length v = n.

Lemma option_parsed alloc ty n l a c len item fuel : isOption ty n l -> (n < 254)%nat -> 0 <= ty < 256 -> optionError ty (Z.of_nat n) = ERR_OK ->
  body item = a ++ l ++ c -> Z.of_nat (length l) <= len < 65536 ->
  exists item' fuel', optionLoop (S fuel) alloc (Z.of_nat (length a)) len item =
    optionLoop fuel' alloc (Z.of_nat (length (a ++ l))) (len - Z.of_nat (length l)) item' /\ sameItem item' item /\ (fuel <= fuel')%nat.
Proof.
  intros [-> |(v & -> & En)] Hn Hty He Eb Hlen.
  - exists item, (S fuel). rewrite app_nil_r. cbn [length] in *. rewrite Z.sub_0_r. split; [reflexivity|]. split; [apply sameItem_refl|lia].
  - rewrite length_app in Hlen. cbn [length] in Hlen. subst n. destruct (opt_step alloc fuel a ty v c len item) as (item' & E & Hs); [exact Eb|done|done|done|lia|].
    exists item', fuel. rewrite E. split; [|split; [exact Hs|lia]]. f_equal. rewrite length_app. cbn [length]. lia.
Qed.

Lemma options_parsed alloc ts fr a c item fuel : isOption FILLP_OPT_TIMESTAMP 8 ts -> isOption FILLP_OPT_FRAME_INFO 14 fr -> body item = a ++ (ts ++ fr) ++ c ->
  Z.of_nat (length (ts ++ fr)) < 65536 -> (length (ts ++ fr) < fuel)%nat ->
  exists item', optionLoop fuel alloc (Z.of_nat (length a)) (Z.of_nat (length (ts ++ fr))) item = Some (ERR_OK, item') /\ sameItem item' item.
Proof.
  intros Ht Hf Eb Hlen Hfuel. assert (Hc : length (ts ++ fr) = 0%nat \/ (3 <= length (ts ++ fr))%nat).
  { destruct Ht as [-> |(v & -> & Ev)], Hf as [-> |(w & -> & Ew)]; cbn; rewrite ?length_app; cbn; lia. }
  destruct Hc as [E0|H3]; [rewrite E0; destruct fuel; [lia|]; exists item; split; [reflexivity|apply sameItem_refl]|].
  rewrite length_app in *. destruct fuel as [|fuel]; [lia|].
  destruct (option_parsed alloc FILLP_OPT_TIMESTAMP 8 ts a (fr ++ c) (Z.of_nat (length ts + length fr)) item fuel) as (it1 & f1 & -> & S1 & F1);
    [done|lia|unfold FILLP_OPT_TIMESTAMP; lia|reflexivity|now rewrite Eb, <- app_assoc|lia|].
  destruct f1 as [|f1]; [lia|]. replace (Z.of_nat (length ts + length fr) - Z.of_nat (length ts)) with (Z.of_nat (length fr)) by lia.
  destruct (option_parsed alloc FILLP_OPT_FRAME_INFO 14 fr (a ++ ts) c (Z.of_nat (length fr)) it1 f1) as (it2 & f2 & -> & S2 & F2);
    [done|lia|unfold FILLP_OPT_FRAME_INFO; lia|reflexivity| |lia|].
  { destruct S1 as (_ & _ & _ & _ & _ & ->). now rewrite Eb, <- !app_assoc. }
  rewrite Z.sub_diag. exists it2. split; [|now apply sameItem_trans with it1].
  destruct f2 as [|f2]; [lia|reflexivity].
Qed.

Lemma ts_option now f : isOption FILLP_OPT_TIMESTAMP 8 (if UTILS_FLAGS_CHECK f FILLP_OPT_FLAG_TIMESTAMP then FillpBuildTimestamp now else []) /\
  Z.of_nat (length (if UTILS_FLAGS_CHECK f FILLP_OPT_FLAG_TIMESTAMP then FillpBuildTimestamp now else [])) = if UTILS_FLAGS_CHECK f FILLP_OPT_FLAG_TIMESTAMP then 10 else 0.
Proof. destruct (UTILS_FLAGS_CHECK f FILLP_OPT_FLAG_TIMESTAMP); [|split; [now left|reflexivity]]. split; [right; now exists (be 8 now)|reflexivity]. Qed.

Lemma frame_option item : (UTILS_FLAGS_CHECK (dataOptFlag item) FILLP_OPT_FLAG_FRAME_INFO = true -> is_Some (frame item)) -> exists fr,
  (if UTILS_FLAGS_CHECK (dataOptFlag item) FILLP_OPT_FLAG_FRAME_INFO then FillpFrameBuildOption item else Some []) = Some fr /\
  isOption FILLP_OPT_FRAME_INFO 14 fr /\ Z.of_nat (length fr) = if UTILS_FLAGS_CHECK (dataOptFlag item) FILLP_OPT_FLAG_FRAME_INFO then 16 else 0.
Proof.
  intros H. destruct (UTILS_FLAGS_CHECK (dataOptFlag item) FILLP_OPT_FLAG_FRAME_INFO); [|exists []; split; [reflexivity|split; [now left|reflexivity]]].
  destruct (H eq_refl) as [[i fs] Ef]. unfold FillpFrameBuildOption. rewrite Ef. cbn [mbind option_bind]. eexists. split; [reflexivity|].
  split; [right|reflexivity]. eexists ([Zbyte _; Zbyte _] ++ be 2 _ ++ [Zbyte _] ++ [Zbyte _] ++ be 4 _ ++ be 4 _). split; reflexivity.
Qed.

Lemma options_written now item : sendable item -> dataOptFlag item <> 0 -> exists ts fr,
  FillpBuildPktDataOptions now item = Some (be 2 (Z.of_nat (length (ts ++ fr))) ++ (ts ++ fr) ++ drop (Z.to_nat (dataOptLen item)) (body item)) /\
  isOption FILLP_OPT_TIMESTAMP 8 ts /\ isOption FILLP_OPT_FRAME_INFO 14 fr /\ (2 + Z.of_nat (length (ts ++ fr)) = dataOptLen item /\ Z.of_nat (length (ts ++ fr)) < 65534) /\
  ts = (if UTILS_FLAGS_CHECK (dataOptFlag item) FILLP_OPT_FLAG_TIMESTAMP then FillpBuildTimestamp now else []) /\
  (if UTILS_FLAGS_CHECK (dataOptFlag item) FILLP_OPT_FLAG_FRAME_INFO then FillpFrameBuildOption item else Some []) = Some fr.
Proof.
  intros H Hf. pose proof (sb_opt _ H) as Ho. destruct (Z.eqb_spec (dataOptFlag item) 0) as [|_]; [done|].
  destruct (ts_option now (dataOptFlag item)) as [Ht Lt]. destruct (frame_option item (sb_frame _ H)) as (fr & Ef & Hfr & Lf).
  unfold FillpBuildPktDataOptions. rewrite Ef. cbn [mbind option_bind].
  set (ts := if UTILS_FLAGS_CHECK (dataOptFlag item) FILLP_OPT_FLAG_TIMESTAMP then _ else _) in *. exists ts, fr.
  assert (Hlen : 2 + Z.of_nat (length (ts ++ fr)) = dataOptLen item /\ Z.of_nat (length (ts ++ fr)) < 65534).
  { rewrite length_app, Nat2Z.inj_add, Lt, Lf, Ho. unfold optionBytes. do 2 destruct (UTILS_FLAGS_CHECK _ _); lia. }
  split; [|split; [exact Ht|split; [exact Hfr|split; [exact Hlen|now split]]]]. destruct Hlen as [Hlen _]. clearbody ts.
  pose proof (sb_len _ H) as Hb. pose proof (sb_data _ H) as Hd. unfold bufLen in Hb. rewrite length_app in Hlen.
  set (d := drop (Z.to_nat (dataOptLen item)) (body item)). set (area := take (Z.to_nat (dataOptLen item)) (body item)).
  assert (Eb : body item = take 2 area ++ take (length ts) (drop 2 area) ++ drop (length ts) (drop 2 area) ++ d).
  { rewrite app_assoc, (app_assoc _ _ d), <- (app_assoc _ _ (drop _ _)), take_drop, take_drop. unfold area, d. now rewrite take_drop. }
  assert (La : length area = (2 + length ts + length fr)%nat) by (unfold area; rewrite length_take; lia).
  assert (L1 : length (take 2 area) = 2%nat) by (rewrite length_take; lia).
  assert (L2 : length (take (length ts) (drop 2 area)) = length ts) by (rewrite length_take, length_drop; lia).
  assert (L3 : length (drop (length ts) (drop 2 area)) = length fr) by (rewrite !length_drop; lia).
  revert Eb L1 L2 L3. generalize (take 2 area) (take (length ts) (drop 2 area)) (drop (length ts) (drop 2 area)). intros a1 a2 a3 Eb L1 L2 L3.
  rewrite Eb. rewrite (writeAt_app FILLP_DATA_OFFSET_LEN ts a1 a2 (a3 ++ d)) by (unfold FILLP_DATA_OFFSET_LEN; lia). cbn [mbind option_bind].
  rewrite (app_assoc a1 ts). rewrite (writeAt_app _ fr (a1 ++ ts) a3 d) by (rewrite ?length_app; unfold FILLP_DATA_OFFSET_LEN; lia). cbn [mbind option_bind].
  rewrite <- app_assoc. rewrite (writeAt_app0 _ a1) by now rewrite length_be. rewrite length_app, <- app_assoc. repeat f_equal. lia.
Qed.

Lemma readAt_start n b c : n = Z.of_nat (length b) -> readAt 0 n (b ++ c) = Some b.
Proof. intros E. exact (readAt_app 0 n [] b c eq_refl E). Qed.

Lemma head_built f d k s b : headOf (be 2 f ++ be 2 d ++ be 4 k ++ be 4 s ++ b) = Some (mkHead (u16 f) (u16 d) (u32 k) (u32 s)).
Proof.
  unfold headOf. rewrite (readAt_start 2 (be 2 f)) by (rewrite ?length_be; reflexivity). cbn [mbind option_bind].
  rewrite (readAt_app 2 2 (be 2 f) (be 2 d)) by (rewrite ?length_be; reflexivity). cbn [mbind option_bind].
  rewrite (app_assoc (be 2 f)), (readAt_app 4 4 (be 2 f ++ be 2 d) (be 4 k)) by (rewrite ?length_app, ?length_be; reflexivity). cbn [mbind option_bind].
  rewrite (app_assoc (be 2 f ++ be 2 d)), (readAt_app 8 4 ((be 2 f ++ be 2 d) ++ be 4 k) (be 4 s)) by (rewrite ?length_app, ?length_be; reflexivity).
  cbn [mbind option_bind]. rewrite !unbe_be. reflexivity.
Qed.

Lemma head_length f d k s b : length (be 2 f ++ be 2 d ++ be 4 k ++ be 4 s ++ b) = (12 + length b)%nat.
Proof. rewrite !length_app, !length_be. lia. Qed.
Lemma head_dropped f d k s b : drop 12 (be 2 f ++ be 2 d ++ be 4 k ++ be 4 s ++ b) = b.
Proof. rewrite !app_assoc. apply drop_app_length'. rewrite !length_app, !length_be. reflexivity. Qed.

(** The flags of a data packet. *)
Lemma flag_cases (o l f : bool) (base := FILLP_HEADER_SET_PROTOCOL_VERSION (FILLP_HEADER_SET_PKT_TYPE 0 FILLP_PKT_TYPE_DATA) FILLP_PROTOCOL_VERSION_NUMBER)
  (fl := if o then FILLP_HEADER_SET_DAT_WITH_OPTION base else base)
  (fl' := if l then FILLP_HEADER_SET_DAT_WITH_LAST_FLAG fl else if f then FILLP_HEADER_SET_DAT_WITH_FIRST_FLAG fl else fl) :
  u16 fl' = fl' /\ FILLP_PKT_GET_TYPE fl' = FILLP_PKT_TYPE_DATA /\ FILLP_PKT_GET_DAT_WITH_OPTION fl' = o.
Proof. destruct o, l, f; vm_compute; auto. Qed.

(** The receiver's view of the options of a packet. *)
Definition optionsRead (item : FillpPcbItem) (b : list byte) : Prop := forall alloc it, body it = b ->
  exists it', FillpAnalysisDataOptions alloc it = Some (ERR_OK, it') /\ skipListNode it' = skipListNode it /\ seqNum it' = seqNum it /\
    pktNum it' = pktNum it /\ dataLen it' = dataLen it /\ dataOptLen it' = dataOptLen item /\ length (body it') = length (body item) /\
    drop (Z.to_nat (dataOptLen item)) (body it') = drop (Z.to_nat (dataOptLen item)) (body item).

Lemma options_roundtrip now item : sendable item -> dataOptFlag item <> 0 ->
  exists b, FillpBuildPktDataOptions now item = Some b /\ length b = length (body item) /\
    drop (Z.to_nat (dataOptLen item)) b = drop (Z.to_nat (dataOptLen item)) (body item) /\ optionsRead item b.
Proof.
  intros H Hf. destruct (options_written now item H Hf) as (ts & fr & -> & Ht & Hfr & (Hlen & Hmax) & _). eexists. split; [reflexivity|].
  set (o := ts ++ fr) in *. set (d := drop (Z.to_nat (dataOptLen item)) (body item)). set (n := Z.of_nat (length o)) in *.
  pose proof (sb_len _ H) as Hb. pose proof (sb_data _ H) as Hd. unfold bufLen in Hb.
  assert (Ld : length d = (length (body item) - Z.to_nat (dataOptLen item))%nat) by (unfold d; now rewrite length_drop).
  assert (Hdrop : forall h, length h = 2%nat -> drop (Z.to_nat (dataOptLen item)) (h ++ o ++ d) = d).
  { intros h Lh. rewrite app_assoc, drop_app_length'; [reflexivity|]. rewrite length_app, Lh. lia. }
  assert (Hl : forall h, length h = 2%nat -> length (h ++ o ++ d) = length (body item)) by (intros h Lh; rewrite !length_app, Lh; lia).
  split; [apply Hl; now rewrite length_be|]. split; [apply Hdrop; now rewrite length_be|].
  intros alloc it Eit. unfold FillpAnalysisDataOptions, bufLen. rewrite Eit, (Hl (be 2 n)) by now rewrite length_be.
  unfold FILLP_DATA_OFFSET_LEN. destruct (Z.ltb_spec (Z.of_nat (length (body item))) 2); [lia|].
  rewrite (readAt_start 2 (be 2 n)) by (rewrite ?length_be; reflexivity). cbn [mbind option_bind].
  assert (En : unbe (be 2 n) = n) by (rewrite unbe_be, Z.mod_small; [reflexivity|unfold n; cbn; lia]). rewrite En.
  change (body (it <| dataOptLen := _ |>)) with (body it). rewrite Eit, (writeAt_app0 (Bytes.le 2 n)) by now rewrite length_be, length_le.
  cbn [mbind option_bind]. set (it1 := it <| dataOptLen := u16 (n + 2) |> <| body := Bytes.le 2 n ++ o ++ d |>).
  change (body it1) with (Bytes.le 2 n ++ o ++ d). rewrite Hl by now rewrite length_le.
  destruct (Z.ltb_spec (Z.of_nat (length (body item))) (n + 2)); [lia|].
  destruct (options_parsed alloc ts fr (Bytes.le 2 n) d it1 (S (Z.to_nat n))) as (it' & E & Hs); [done|done|reflexivity|fold o; lia|fold o; unfold n; lia|].
  fold o in E. fold n in E. rewrite length_le in E. exists it'. split; [exact E|]. destruct Hs as (-> & -> & -> & -> & -> & ->).
  change (dataOptLen it1) with (u16 (n + 2)). change (body it1) with (Bytes.le 2 n ++ o ++ d).
  repeat (split; [reflexivity|]). split; [unfold u16; rewrite Z.mod_small; lia|]. split; [apply Hl|apply Hdrop]; now rewrite length_le.
Qed.

(** A packet is what its item says, and the receiver finds the options it has. *)
Lemma packet_roundtrip now num item : sendable item -> exists item' pkt fl,
  FillpBuildDataPkt now num item = Some (u32 (num + 1), item', pkt) /\ headOf pkt = Some (mkHead fl (dataLen item) (u32 (num + 1)) (seqNum item)) /\
  FILLP_PKT_GET_TYPE fl = FILLP_PKT_TYPE_DATA /\ length pkt = (12 + length (body item))%nat /\
  (if FILLP_PKT_GET_DAT_WITH_OPTION fl then optionsRead item (drop 12 pkt) else dataOptLen item = 0 /\ drop 12 pkt = body item).
Proof.
  intros H. pose proof (sb_data _ H) as Hd. pose proof (sb_seq _ H) as Hs. pose proof (sb_opt _ H) as Ho.
  unfold FillpBuildDataPkt. set (it := item <| pktNum := u32 (num + 1) |>).
  change (dataOptFlag it) with (dataOptFlag item). change (dataOptLen it) with (dataOptLen item). change (flags it) with (flags item).
  set (o := negb (dataOptFlag item =? 0) && negb (dataOptLen item =? 0)).
  assert (Hb : exists b, (if o then b ← FillpBuildPktDataOptions now it; Some (FILLP_HEADER_SET_DAT_WITH_OPTION
      (FILLP_HEADER_SET_PROTOCOL_VERSION (FILLP_HEADER_SET_PKT_TYPE 0 FILLP_PKT_TYPE_DATA) FILLP_PROTOCOL_VERSION_NUMBER), b)
    else Some (FILLP_HEADER_SET_PROTOCOL_VERSION (FILLP_HEADER_SET_PKT_TYPE 0 FILLP_PKT_TYPE_DATA) FILLP_PROTOCOL_VERSION_NUMBER, body it)) =
    Some (if o then FILLP_HEADER_SET_DAT_WITH_OPTION (FILLP_HEADER_SET_PROTOCOL_VERSION (FILLP_HEADER_SET_PKT_TYPE 0 FILLP_PKT_TYPE_DATA) FILLP_PROTOCOL_VERSION_NUMBER)
      else FILLP_HEADER_SET_PROTOCOL_VERSION (FILLP_HEADER_SET_PKT_TYPE 0 FILLP_PKT_TYPE_DATA) FILLP_PROTOCOL_VERSION_NUMBER, b) /\
    length b = length (body item) /\ if o then optionsRead item b else dataOptLen item = 0 /\ b = body item).
  { unfold o in *. destruct (Z.eqb_spec (dataOptFlag item) 0) as [Ef|Ef]; cbn [negb andb].
    - exists (body it). split; [reflexivity|]. split; [reflexivity|]. split; [exact Ho|reflexivity].
    - destruct (Z.eqb_spec (dataOptLen item) 0) as [E0|E0]; cbn [negb].
      + exfalso. unfold optionBytes in Ho. do 2 destruct (UTILS_FLAGS_CHECK _ _); lia.
      + destruct (options_roundtrip now item H Ef) as (b & E & Lb & _ & Hr). exists b. split; [|split; [exact Lb|exact Hr]].
        assert (E' : FillpBuildPktDataOptions now it = Some b) by exact E. now rewrite E'. }
  destruct Hb as (b & -> & Lb & Hopt). cbn [mbind option_bind].
  destruct (flag_cases o (UTILS_FLAGS_CHECK (flags item) FILLP_ITEM_FLAGS_LAST_PKT_FOR_CAL_COST) (UTILS_FLAGS_CHECK (flags item) FILLP_ITEM_FLAGS_FIRST_PKT_FOR_CAL_COST)) as (F1 & F2 & F3).
  eexists _, _, _. split; [reflexivity|]. rewrite head_built, F1, head_length, head_dropped, Lb, F2, F3. unfold u16, u32 in *.
  change (seqNum it) with (seqNum item). change (dataLen it) with (dataLen item).
  rewrite (Z.mod_small (dataLen item)) by lia. rewrite (Z.mod_small (seqNum item)) by exact Hs. rewrite Z.mod_mod by lia.
  split; [reflexivity|]. split; [reflexivity|]. split; [reflexivity|exact Hopt].
Qed.

(** ** Items that are sent again *)

(** The flags that change while an item is sent. *)
Definition FILLP_ITEM_FLAGS_CHANGING : Z := 4352.

(** [p] is item [x], perhaps after it was sent: the options were written and these flags changed. *)
Record sameData (x p : FillpPcbItem) : Prop := {
  sd_len : dataLen p = dataLen x;
  sd_optLen : dataOptLen p = dataOptLen x;
  sd_optFlag : dataOptFlag p = dataOptFlag x;
  sd_frame : frame p = frame x;
  sd_body : length (body p) = length (body x);
  sd_drop : drop (Z.to_nat (dataOptLen x)) (body p) = drop (Z.to_nat (dataOptLen x)) (body x);
  sd_plain : dataOptFlag x = 0 -> body p = body x;
  sd_flags : Z.ldiff (flags p) FILLP_ITEM_FLAGS_CHANGING = Z.ldiff (flags x) FILLP_ITEM_FLAGS_CHANGING
}.

#[export] Instance info_eq_dec : EqDecision FrameInfo.
Proof. solve_decision. Defined.
#[export] Instance frame_eq_dec : EqDecision FillpFrameItem.
Proof. solve_decision. Defined.
#[export] Instance sameData_dec x p : Decision (sameData x p).
Proof.
  refine (cast_if (decide ((dataLen p, dataOptLen p, dataOptFlag p, frame p) = (dataLen x, dataOptLen x, dataOptFlag x, frame x) /\ length (body p) = length (body x) /\
    drop (Z.to_nat (dataOptLen x)) (body p) = drop (Z.to_nat (dataOptLen x)) (body x) /\ (dataOptFlag x = 0 -> body p = body x) /\
    Z.ldiff (flags p) FILLP_ITEM_FLAGS_CHANGING = Z.ldiff (flags x) FILLP_ITEM_FLAGS_CHANGING))).
  - abstract (destruct_and!; simplify_eq; now split).
  - abstract (intros [D1 D2 D3 D4 D5 D6 D7 D8]; match goal with Hn : ~ _ |- _ => apply Hn end; rewrite D1, D2, D3, D4; now repeat split).
Defined.

Lemma sameData_refl x : sameData x x.
Proof. now split. Qed.

Lemma flags_checked c f f' : Z.land c FILLP_ITEM_FLAGS_CHANGING = 0 -> Z.ldiff f FILLP_ITEM_FLAGS_CHANGING = Z.ldiff f' FILLP_ITEM_FLAGS_CHANGING ->
  Z.land f c = Z.land f' c.
Proof.
  intros Hc E. apply Z.bits_inj'. intros n Hn. assert (Hb : Z.testbit (Z.ldiff f FILLP_ITEM_FLAGS_CHANGING) n = Z.testbit (Z.ldiff f' FILLP_ITEM_FLAGS_CHANGING) n) by now rewrite E.
  assert (Hz : Z.testbit (Z.land c FILLP_ITEM_FLAGS_CHANGING) n = false) by (rewrite Hc; apply Z.bits_0).
  rewrite !Z.ldiff_spec in Hb. rewrite !Z.land_spec in *. destruct (Z.testbit f n), (Z.testbit f' n), (Z.testbit c n), (Z.testbit FILLP_ITEM_FLAGS_CHANGING n); easy.
Qed.

Lemma sameData_sendable x p : sendable x -> sameData x p -> in_u32 (seqNum p) -> sendable p.
Proof.
  intros [S1 S2 S3 S4 S5] [D1 D2 D3 D4 D5 D6 D7 D8] Hq. split; rewrite ?D1, ?D2, ?D3, ?D4; try assumption. unfold bufLen in *. lia.
Qed.

Lemma options_same now x p : sendable x -> sameData x p -> in_u32 (seqNum p) -> dataOptFlag x <> 0 ->
  FillpBuildPktDataOptions now p = FillpBuildPktDataOptions now x.
Proof.
  intros Hs Hd Hq Hf. pose proof (sameData_sendable x p Hs Hd Hq) as Hp. destruct Hd as [D1 D2 D3 D4 D5 D6 D7 D8].
  destruct (options_written now x Hs Hf) as (ts & fr & -> & _ & _ & _ & Ets & Efr).
  destruct (options_written now p Hp ltac:(congruence)) as (ts' & fr' & -> & _ & _ & _ & Ets' & Efr'). rewrite D3 in *.
  assert (ts' = ts) as -> by congruence. assert (fr' = fr) as ->.
  { unfold FillpFrameBuildOption in *. rewrite D4, (flags_checked FILLP_ITEM_FLAGS_FRAME_OPT_BITMAP_MASK (flags p) (flags x) eq_refl D8) in Efr'. congruence. }
  now rewrite D2, D6.
Qed.

(** A packet that is built again differs in its number and its time stamp only. *)
Lemma packet_same now num x p : sendable x -> sameData x p -> seqNum p = seqNum x ->
  exists (x' p' : FillpPcbItem) (bytes : list byte), FillpBuildDataPkt now num x = Some (u32 (num + 1), x', bytes) /\ FillpBuildDataPkt now num p = Some (u32 (num + 1), p', bytes) /\
    sameData x p' /\ seqNum p' = seqNum p /\ pktNum p' = u32 (num + 1).
Proof.
  intros Hs Hd Eq. pose proof (sb_seq _ Hs) as Hq. pose proof Hd as [D1 D2 D3 D4 D5 D6 D7 D8].
  unfold FillpBuildDataPkt. set (x0 := x <| pktNum := u32 (num + 1) |>). set (p0 := p <| pktNum := u32 (num + 1) |>).
  change (dataOptFlag x0) with (dataOptFlag x). change (dataOptLen x0) with (dataOptLen x). change (flags x0) with (flags x).
  change (dataOptFlag p0) with (dataOptFlag p). change (dataOptLen p0) with (dataOptLen p). change (flags p0) with (flags p).
  change (body x0) with (body x). change (body p0) with (body p).
  assert (Hc : forall c, Z.land c FILLP_ITEM_FLAGS_CHANGING = 0 -> UTILS_FLAGS_CHECK (flags p) c = UTILS_FLAGS_CHECK (flags x) c).
  { intros c E. unfold UTILS_FLAGS_CHECK. now rewrite (flags_checked c _ _ E D8). }
  rewrite !Hc by reflexivity. rewrite D2, D3. change (dataLen x0) with (dataLen x). change (seqNum x0) with (seqNum x).
  change (dataLen p0) with (dataLen p). change (seqNum p0) with (seqNum p). rewrite D1, Eq.
  destruct (Z.eqb_spec (dataOptFlag x) 0) as [E0|E0]; cbn [negb andb].
  - cbn [mbind option_bind]. eexists _, _, _. split; [reflexivity|]. rewrite (D7 E0). split; [reflexivity|]. split; [|now split].
    split; cbn; assumption || reflexivity.
  - destruct (Z.eqb_spec (dataOptLen x) 0) as [E1|E1]; cbn [negb].
    { exfalso. pose proof (sb_opt _ Hs) as Ho. destruct (Z.eqb_spec (dataOptFlag x) 0); [done|]. unfold optionBytes in Ho. do 2 destruct (UTILS_FLAGS_CHECK _ _); lia. }
    change (FillpBuildPktDataOptions now x0) with (FillpBuildPktDataOptions now x). change (FillpBuildPktDataOptions now p0) with (FillpBuildPktDataOptions now p).
    rewrite (options_same now x p Hs Hd ltac:(congruence) E0). destruct (options_roundtrip now x Hs E0) as (b & -> & Lb & Db & _). cbn [mbind option_bind].
    eexists _, _, _. split; [reflexivity|]. split; [reflexivity|]. split; [|now split]. split; cbn; try assumption; done.
Qed.

(** ** Comparison of numbers *)

Lemma s32_u32_sub a b : in_s32 (a - b) -> s32 (u32 a - u32 b) = a - b.
Proof.
  intros H. apply (s32_congr _ _ (b / 4294967296 - a / 4294967296)); [exact H|]. unfold u32.
  pose proof (Z.div_mod a 4294967296 ltac:(lia)). pose proof (Z.div_mod b 4294967296 ltac:(lia)). lia.
Qed.

Lemma bigger_pos a b : in_s32 (a - b) -> FillpNumIsbigger (u32 a) (u32 b) = (b <? a).
Proof.
  intros H. unfold FillpNumIsbigger. rewrite s32_u32_sub by exact H. destruct (Z.ltb_spec 0 (a - b)), (Z.ltb_spec b a); lia || reflexivity.
Qed.

Lemma u32_inj a b : in_s32 (a - b) -> u32 a = u32 b -> a = b.
Proof. intros H E. pose proof (s32_u32_sub a b H) as Hs. rewrite E, Z.sub_diag in Hs. change (s32 0) with 0 in Hs. lia. Qed.

Lemma u32_sub_u32 a b : u32 (u32 a - b) = u32 (a - b).
Proof. unfold u32. now rewrite Zminus_mod_idemp_l. Qed.
Lemma u32_add_u32 a b : u32 (u32 a + b) = u32 (a + b).
Proof. unfold u32. now rewrite Zplus_mod_idemp_l. Qed.

(** ** Insertion by index *)

(** The place of packet [i] among packets with indices [il], in increasing order. *)
Lemma insert_by_index {I} (cmp : I -> I -> Z) x i il rl : StronglySorted lt il ->
  Forall2 (fun (j : nat) y => cmp x y = Z.b2z (j <? i)%nat /\ cmp y x = Z.b2z (i <? j)%nat) il rl ->
  SkipList.splits cmp x rl /\
  (i ∈ il -> SkipList.slInsert cmp x true rl = (SkipList.ERR_COMM, rl)) /\
  (i ∉ il -> exists ip iq p q, il = ip ++ iq /\ rl = p ++ q /\ length ip = length p /\
    SkipList.slInsert cmp x true rl = (SkipList.ERR_OK, p ++ x :: q) /\ StronglySorted lt (ip ++ i :: iq)).
Proof.
  intros Hs Hc. unfold SkipList.splits, SkipList.slInsert. induction Hc as [|j y il rl [Hxy Hyx] Hc IH].
  - split; [|split]; [split; [constructor|done]|intros Hi; now apply not_elem_of_nil in Hi|].
    intros _. exists [], [], [], []. repeat split. cbn. repeat constructor.
  - inversion Hs as [|? ? Hs' Hj]; subst. specialize (IH Hs'). cbn [SkipList.span]. rewrite Hxy. destruct (Nat.ltb_spec j i) as [Hlt|Hge]; cbn [Z.b2z Z.ltb Z.compare].
    + destruct (SkipList.span (fun z => 0 <? cmp x z) rl) as [p q]. destruct IH as ((IH1 & IH1') & IH2 & IH3). cbn [fst snd] in *. split; [|split].
      * split; [exact IH1|]. intros z Ez Hz. cbn in Ez. injection Ez as <-. rewrite Hyx in Hz. destruct (Nat.ltb_spec i j); [lia|cbn in Hz; lia].
      * intros [-> |Hi]%elem_of_cons; [lia|]. specialize (IH2 Hi). destruct q as [|z q]; [discriminate|]. destruct (_ && true); [reflexivity|discriminate].
      * intros Hi. destruct IH3 as (ip & iq & p' & q' & -> & -> & Hl & E & Hss); [intros ?; apply Hi; now right|].
        exists (j :: ip), iq, (y :: p'), q'. split; [reflexivity|]. split; [reflexivity|]. split; [cbn; lia|]. split.
        -- destruct q as [|z q]; [injection E as E; cbn; now rewrite E|]. destruct (_ && true); [discriminate|]. injection E as E. cbn. now rewrite E.
        -- cbn. constructor; [exact Hss|]. apply Forall_app in Hj as [Hj1 Hj2]. apply Forall_app. split; [exact Hj1|]. constructor; [exact Hlt|exact Hj2].
    + clear IH. cbn [fst snd]. split; [|split].
      * split; [|intros z Ez _; cbn in Ez; injection Ez as <-; rewrite Hxy; destruct (Nat.ltb_spec j i); [lia|cbn; lia]].
        constructor; [rewrite Hxy; destruct (Nat.ltb_spec j i); [lia|cbn; lia]|]. clear -Hc Hj Hge. induction Hc as [|j' y' il rl [H1 _] Hc IH]; [constructor|].
        apply Forall_cons in Hj as [Hj Hj']. constructor; [rewrite H1; destruct (Nat.ltb_spec j' i); [lia|cbn; lia]|auto].
      * intros Hi. assert (j = i) as -> .
        { apply elem_of_cons in Hi as [-> |Hi]; [reflexivity|]. rewrite Forall_forall in Hj. specialize (Hj i Hi). lia. }
        rewrite Hyx, Nat.ltb_irrefl. reflexivity.
      * intros Hi. assert (i <> j) by (intros ->; apply Hi; now left). rewrite Hyx. destruct (Nat.ltb_spec i j); [|lia]. cbn.
        exists [], (j :: il), [], (y :: rl). repeat split. cbn. constructor; [exact Hs|]. constructor; [done|]. eapply Forall_impl; [exact Hj|]. cbn. lia.
Qed.

(** ** Positions in a stream *)

Fixpoint total (l : list FillpPcbItem) : Z := match l with [] => 0 | x :: l => dataLen x + total l end.

Section Positions.

(** The items of the sender in the order of the application, and the number before the first. *)
Context (stream : list FillpPcbItem) (base : Z).

(** The end ofthe first [k] items. *)
Definition pos (k : nat) : Z := base + total (take k stream).

Definition sized : Prop := forall i x, stream !! i = Some x -> 0 < dataLen x < 65536.

Lemma total_app l l' : total (l ++ l') = total l + total l'.
Proof. induction l as [|x l IH]; cbn; lia. Qed.

Lemma pos_S i x : stream !! i = Some x -> pos (S i) = pos i + dataLen x.
Proof. intros E. unfold pos. rewrite (take_S_r _ _ x E), total_app. cbn. lia. Qed.

Hypothesis stream_sized : sized.

Lemma pos_step i : (i < length stream)%nat -> pos i < pos (S i) <= pos i + 65535.
Proof.
  intros Hi. destruct (lookup_lt_is_Some_2 stream i Hi) as [x E]. rewrite (pos_S _ _ E). pose proof (stream_sized i x E). lia.
Qed.

Lemma pos_lt i j : (i < j <= length stream)%nat -> pos i < pos j.
Proof.
  intros [Hij Hj]. induction j as [|j IH]; [lia|]. pose proof (pos_step j ltac:(lia)). destruct (Nat.eq_dec i j) as [-> |]; [lia|].
  specialize (IH ltac:(lia) ltac:(lia)). lia.
Qed.

Lemma pos_le i j : (i <= j <= length stream)%nat -> pos i <= pos j.
Proof. intros H1. destruct (Nat.eq_dec i j) as [-> |]; [lia|]. pose proof (pos_lt i j ltac:(lia)). lia. Qed.

Lemma pos_lt_inv i j : (i <= length stream)%nat -> (j <= length stream)%nat -> pos i < pos j -> (i < j)%nat.
Proof. intros Hi Hj Hp. destruct (Nat.lt_ge_cases i j); [done|]. pose proof (pos_le j i ltac:(lia)). lia. Qed.

End Positions.

(** ** Lists of items

    What the transport uses of its lists: a list holds a sequence of items; insertion finds the
    place by a comparison; the ends can be looked at and removed. *)

Class ItemList (I L : Type) := {
  ilInsert : (I -> I -> Z) -> I -> bool -> L -> option (Z * L);
  ilPop : L -> option (option I * L);
  ilPopTail : L -> option (option I * L);
  ilFirst : L -> option (option I);
  ilLast : L -> option (option I);
  ilNum : L -> Z;
  ilItems : L -> list I
}.

(** [ilItems] is not an operation of the code: it names the items of a list.
    [node x]: the address of the node of an item; [ilMemory l a]: there is a node at [a].  An item
    that is inserted must not be in the list, and the comparison must divide the list at its place. *)
Class ItemListLaws {I : Type} (node : I -> nat) (L : Type) `{ItemList I L} := {
  ilHolds : L -> list I -> Prop;
  ilMemory : L -> nat -> Prop;
  ilInsert_law : forall cmp l u x err, ilHolds l u -> ilMemory l (node x) -> node x ∉ map node u -> SkipList.splits cmp x u ->
    exists l', ilInsert cmp x err l = Some (fst (SkipList.slInsert cmp x err u), l') /\ ilHolds l' (snd (SkipList.slInsert cmp x err u)) /\
      (forall a, ilMemory l a -> ilMemory l' a);
  ilPop_law : forall l u, ilHolds l u -> exists l', ilPop l = Some (u !! 0%nat, l') /\ ilHolds l' (drop 1 u) /\ (forall a, ilMemory l a -> ilMemory l' a);
  ilPopTail_law : forall l u, ilHolds l u ->
    exists l', ilPopTail l = Some (last u, l') /\ ilHolds l' (take (length u - 1) u) /\ (forall a, ilMemory l a -> ilMemory l' a);
  ilFirst_law : forall l u, ilHolds l u -> ilFirst l = Some (u !! 0%nat);
  ilLast_law : forall l u, ilHolds l u -> ilLast l = Some (last u);
  ilNum_law : forall l u, ilHolds l u -> ilNum l = u32 (Z.of_nat (length u));
  ilItems_law : forall l u, ilHolds l u -> ilItems l = u
}.

(** The skip lists of the transport: of items, and of the addresses of items. *)
Section Skip.
Context {I : Type} (node : I -> nat).

Definition skipLists : ItemList I (SkipList.Store (I := I)) := {|
  ilInsert := fun cmp x err st => SkipList.SkipListInsert cmp (Some x) (node x) err st;
  ilPop := SkipList.SkipListPopValue;
  ilPopTail := SkipList.SkipListPopTail;
  ilFirst := fun st => SkipList.itemOf (SkipList.SkipListGetPop st) st;
  ilLast := fun st => SkipList.itemOf (SkipList.SkipListGetTail st) st;
  ilNum := SkipList.SkiplistGetNodeNum;
  ilItems := SkipList.contents
|}.

Definition skipListsLaws : ItemListLaws node (SkipList.Store (I := I)) (H := skipLists).
Proof.
  refine {| ilHolds := SkipList.Den node; ilMemory := fun st a => is_Some (SkipList.nodes st !! a) |}.
  - intros cmp l u x err H Hm Hout Hs. exact (SkipList.insert_den cmp node x err l u H Hm Hout Hs).
  - intros l u H. exact (SkipList.pop_den node l u H).
  - intros l u H. exact (SkipList.pop_tail_den node l u H).
  - intros l u H. exact (SkipList.first_den node l u H).
  - intros l u H. exact (SkipList.last_den node l u H).
  - intros l u H. exact (SkipList.num_den node l u H).
  - intros l u H. exact (SkipList.contents_den (fun _ _ => 0) node l u H).
Defined.
End Skip.

#[export] Instance skipItemList : ItemList FillpPcbItem (SkipList.Store (I := FillpPcbItem)) := skipLists skipListNode.
#[export] Instance skipItemListLaws : ItemListLaws skipListNode (SkipList.Store (I := FillpPcbItem)) := skipListsLaws skipListNode.
#[export] Instance skipAddressList : ItemList nat (SkipList.Store (I := nat)) := skipLists id.
#[export] Instance skipAddressListLaws : ItemListLaws id (SkipList.Store (I := nat)) := skipListsLaws id.

End FillpItem.
