(* ===== verification/FillpRecv.v ===== *)
(** * Receiving side of the fillp transport

    components/nstackx/fillp/src/fillp_lib/src: fillp/fillp_input.c (a data packet
    from the network), fillp/fillp_common.c (reordering, upload to the application,
    the list of missing packets), fillp/fillp_output.c (the acknowledgement packet),
    spunge_core.c (the timers that empty the reorder cache and report missing
    packets).

    A connection keeps the end of the data that was received without a gap
    ([rSeqNum]); packets beyond it wait in a list, ordered by sequence number.
    Packets are lost, repeated and reordered by the network.  The theorems show that
    the application gets the bytes of the sender in order, without a gap or a
    repetition, as far as packets without a gap have arrived.

    Statistics, the timing wheel and the notification of frames are not part of the
    model.  Answers of allocations, of the queue to the application and of the clock
    are parameters. *)

From S2P Require Import Prelude ErrorCode Bytes SkipList FillpItem.
From stdpp Require Import gmap list sorting.
#[local] Open Scope Z_scope.

Module FillpRecv.
Import FillpItem.

Definition FILLP_DEFAULT_RECVBOX_BRUST : nat := 1024.
Definition FILLP_PACKET_INTER : Z := 2.
Definition CONN_STATE_CONNECTED : Z := 3.
Definition CONN_STATE_CLOSING : Z := 4.

Record FillpNackNode := mkNackNode { startPktNum : Z; endPktNum : Z; nTimestamp : Z }.
#[export] Instance etaNackNode : Eta FillpNackNode := mkEta _ (fun x => mkNackNode (startPktNum x) (endPktNum x) (nTimestamp x)).

(** The packets that are sent back: the numbers between which packets are missing, and the end of
    the data received without a gap; the acknowledgement. *)
Record FillpPktNack := mkPktNack { nackPktNum : Z; lastPktNum : Z; nackSeqNum : Z }.
Record FillpPktPack := mkPktPack { packSeqNum : Z; packPktNum : Z; lostSeq : Z }.

Record Config := mkConfig {
  outOfOrderCacheEnable : bool;
  enableNackDelay : bool;
  recvCachePktNumBufferSize : Z;
  mpRecvSize : Z;
  pktSize : Z
}.

(** Memory for a frame item, a NACK packet, a node of the NACK list; the result of the queue to the
    application; the clock. *)
Record Answers := mkAnswers { frameMem : bool; nackMem : bool; nodeMem : bool; pushed : bool; curTime : Z }.

Section Model.

Context {L : Type} `{ItemList FillpPcbItem L} (cfg : Config).

(** [recvBox]: the items the application gets, from the first on; [nacks], [packs]: the packets
    that were sent back. *)
Record FillpRecvPcb := mkRecv {
  recvBoxPlaceInOrder : L;
  recvList : L;
  recvBox : list FillpPcbItem;
  nackList : list FillpNackNode;
  rSeqNum : Z;
  rPktNum : Z;
  lastPackSeqNum : Z;
  lastPackPktNum : Z;
  pktRecvCache : Z;
  recvBytes : Z;
  connState : Z;
  nacks : list FillpPktNack;
  packs : list FillpPktPack
}.
#[export] Instance etaRecv : Eta FillpRecvPcb := mkEta _ (fun x =>
  mkRecv (recvBoxPlaceInOrder x) (recvList x) (recvBox x) (nackList x) (rSeqNum x) (rPktNum x) (lastPackSeqNum x) (lastPackPktNum x)
    (pktRecvCache x) (recvBytes x) (connState x) (nacks x) (packs x)).

(** ** Missing packets *)

(** The packet is sent several times; none of the copies may arrive. *)
Definition FillpSendNack (ans : Answers) (startPktNum endPktNum : Z) (s : FillpRecvPcb) : FillpRecvPcb :=
  if nackMem ans then s <| nacks := nacks s ++ [mkPktNack startPktNum endPktNum (rSeqNum s)] |> else s.

Definition FillpAddNodeAtDelayNackListTail (ans : Answers) (startPktNum endPktNum : Z) (s : FillpRecvPcb) : FillpRecvPcb :=
  if nodeMem ans then s <| nackList := nackList s ++ [mkNackNode startPktNum endPktNum (curTime ans)] |> else s.

Fixpoint updateNackList (mem : bool) (full : bool) (curRecvPktNum : Z) (l : list FillpNackNode) : list FillpNackNode :=
  match l with
  | [] => []
  | n :: next =>
      if FillpNumIsbigger curRecvPktNum (endPktNum n) then n :: updateNackList mem full curRecvPktNum next
      else if negb (FillpNumIsbigger curRecvPktNum (startPktNum n)) then l
      else if curRecvPktNum =? endPktNum n then l
      else if startPktNum n =? u32 (curRecvPktNum - 1) then
        if startPktNum n =? u32 (endPktNum n - FILLP_PACKET_INTER) then next
        else (n <| startPktNum := curRecvPktNum |>) :: next
      else if curRecvPktNum =? u32 (endPktNum n - 1) then (n <| endPktNum := curRecvPktNum |>) :: next
      else if full then l
      else if negb mem then l
      else (n <| endPktNum := curRecvPktNum |>) :: mkNackNode curRecvPktNum (endPktNum n) (nTimestamp n) :: next
  end.

Definition FillpCheckAndUpdateDelayNackList (ans : Answers) (curRecvPktNum : Z) (s : FillpRecvPcb) : FillpRecvPcb :=
  s <| nackList := updateNackList (nodeMem ans) (mpRecvSize cfg <=? Z.of_nat (length (nackList s))) curRecvPktNum (nackList s) |>.

Definition FillBiggerItem (ans : Answers) (item : FillpPcbItem) (s : FillpRecvPcb) : FillpRecvPcb :=
  let s :=
    if negb (u32 (rPktNum s + 1) =? pktNum item) then
      if enableNackDelay cfg && (Z.of_nat (length (nackList s)) <? mpRecvSize cfg) then
        FillpAddNodeAtDelayNackListTail ans (rPktNum s) (pktNum item) s
      else if negb (enableNackDelay cfg) && negb (rSeqNum s =? u32 (seqNum item - dataLen item)) then
        FillpSendNack ans (rPktNum s) (pktNum item) s
      else s
    else s in
  s <| rPktNum := pktNum item |>.

(** ** Upload *)

(** The items that continue the received data, at most [n] more. *)
Fixpoint burst (n : nat) (itemPool : list FillpPcbItem) (s : FillpRecvPcb) : option (list FillpPcbItem * FillpRecvPcb) :=
  match n with
  | O => Some (itemPool, s)
  | S n' =>
      node ← ilFirst (recvList s);
      match node with
      | None => Some (itemPool, s)
      | Some item =>
          let start_seq := u32 (seqNum item - dataLen item) in
          if negb (start_seq =? rSeqNum s) then Some (itemPool, s)
          else
            '(_, l) ← ilPop (recvList s);
            burst n' (itemPool ++ [item])
              (s <| rSeqNum := seqNum item |> <| recvBytes := u64 (recvBytes s - dataLen item) |> <| recvList := l |>)
      end
  end.

(** SpungePcbRecv: the items go to the queue of the application, or are dropped when it is full. *)
Definition SpungePcbRecv (ans : Answers) (items : list FillpPcbItem) (s : FillpRecvPcb) : FillpRecvPcb :=
  if pushed ans then s <| recvBox := recvBox s ++ items |> else s.

Fixpoint uploadLoop (fuel : nat) (ans : Answers) (s : FillpRecvPcb) : option FillpRecvPcb :=
  match fuel with
  | O => None
  | S fuel' =>
      '(itemPool, s) ← burst FILLP_DEFAULT_RECVBOX_BRUST [] s;
      match itemPool with
      | [] => Some s
      | _ => uploadLoop fuel' ans (SpungePcbRecv ans itemPool s)
      end
  end.

Definition FillpUploadRecvBox (ans : Answers) (s : FillpRecvPcb) : option FillpRecvPcb :=
  uploadLoop (S (Z.to_nat (ilNum (recvList s)))) ans s.

(** The first part of FillpDataToStack looks at the packet number; an item that was received before
    may be dropped here. *)
Definition noteNumber (ans : Answers) (item : FillpPcbItem) (s : FillpRecvPcb) : bool * FillpRecvPcb :=
  if FillpNumIsbigger (pktNum item) (rPktNum s) then (false, FillBiggerItem ans item s)
  else if enableNackDelay cfg then
    if negb (FillpNumIsbigger (seqNum item) (rSeqNum s)) then (true, s)
    else if negb (Z.of_nat (length (nackList s)) =? 0) then (false, FillpCheckAndUpdateDelayNackList ans (pktNum item) s)
    else (false, s)
  else (false, s).

(** A dropped item goes back to its pool. *)
Definition FillpDataToStack (ans : Answers) (item : FillpPcbItem) (s : FillpRecvPcb) : option FillpRecvPcb :=
  let '(drop, s) := noteNumber ans item s in
  if (drop : bool) then Some s
  else if negb (FillpNumIsbigger (seqNum item) (rSeqNum s)) then Some s
  else
    '(r, l) ← ilInsert FillpSkiplistCmp item true (recvList s);
    let s := s <| recvList := l |> in
    if negb (r =? 0) then Some s
    else FillpUploadRecvBox ans (s <| recvBytes := u64 (recvBytes s + dataLen item) |>).

(** ** A data packet *)

Definition FillpProcessItemData (ans : Answers) (item : FillpPcbItem) (s : FillpRecvPcb) : option FillpRecvPcb :=
  if negb (dataLen item + dataOptLen item =? bufLen item) then Some s
  else if negb (FillpNumIsbigger (seqNum item) (rSeqNum s)) then Some s
  else if outOfOrderCacheEnable cfg && negb (enableNackDelay cfg) then
    '(r, l) ← ilInsert FillpSkiplistRecvcmp item true (recvBoxPlaceInOrder s);
    let s := s <| recvBoxPlaceInOrder := l |> in
    if negb (r =? 0) then Some s
    else if recvCachePktNumBufferSize cfg <=? ilNum (recvBoxPlaceInOrder s) then
      '(itemPre, l) ← ilPop (recvBoxPlaceInOrder s);
      let s := s <| recvBoxPlaceInOrder := l |> in
      match itemPre with
      | None => Some s
      | Some itemPre => FillpDataToStack ans itemPre s
      end
    else Some s
  else FillpDataToStack ans item s.

(** [item] has the bytes of the packet. *)
Definition FillpDataInput (ans : Answers) (pktHdr : FillpPktHead) (item : FillpPcbItem) (s : FillpRecvPcb) : option FillpRecvPcb :=
  let item := item <| pktNum := hPktNum pktHdr |> <| seqNum := hSeqNum pktHdr |> <| dataLen := hDataLen pktHdr |> in
  if FillpNumIsbigger (seqNum item) (u32 (rSeqNum s + pktRecvCache s)) then Some s
  else if FILLP_PKT_GET_DAT_WITH_OPTION (flag pktHdr) then
    '(err, item) ← FillpAnalysisDataOptions (frameMem ans) item;
    if negb (err =? ERR_OK) then Some s else FillpProcessItemData ans item s
  else FillpProcessItemData ans (item <| dataOptLen := 0 |>) s.

Definition ProcessPcbItem (ans : Answers) (pktHdr : FillpPktHead) (bytes : list byte) (pcbBuf : option FillpPcbItem) (s : FillpRecvPcb) : option FillpRecvPcb :=
  match pcbBuf with
  | Some pcbBuf =>
      let pcbBuf := pcbBuf <| frame := None |> <| flags := 0 |> in
      let len := Z.of_nat (length bytes) in
      if negb (memcpy_s (pktSize cfg + FILLP_HLEN) (len + FILLP_HLEN)) then Some s
      else FillpDataInput ans pktHdr (pcbBuf <| body := bytes |>) s
  | None => Some s
  end.

(** An item of the pool; its fields are written before they are read. *)
Definition poolItem (a : nat) : FillpPcbItem := mkItem a 0 0 0 0 0 0 None [].

(** [alloc], [more], [alloc']: the answers of FillpMallocBufItem, FillpAskMoreBufItem and
    FillpMallocBufItem again. *)
Definition FillpHdlDataInput (ans : Answers) (alloc : option nat) (more : Z) (alloc' : option nat) (pktHdr : FillpPktHead) (bytes : list byte)
    (s : FillpRecvPcb) : option FillpRecvPcb :=
  if negb (connState s =? CONN_STATE_CLOSING) && negb (connState s =? CONN_STATE_CONNECTED) then Some s
  else
    let pcbBuf := match alloc with None => if 0 <? more then alloc' else None | Some _ => alloc end in
    match pcbBuf with
    | Some a => ProcessPcbItem ans pktHdr bytes (Some (poolItem a)) s
    | None =>
        node ← ilLast (recvList s);
        match node with
        | Some item =>
            if FillpNumIsbigger (seqNum item) (hSeqNum pktHdr) && FillpNumIsbigger (hSeqNum pktHdr) (rSeqNum s) then
              '(item, l) ← ilPopTail (recvList s);
              item ← item;
              let s := FillpSendNack ans (u32 (pktNum item - 1)) (u32 (pktNum item + 1)) (s <| recvList := l |>) in
              ProcessPcbItem ans pktHdr bytes (Some item) s
            else ProcessPcbItem ans pktHdr bytes None s
        | None => ProcessPcbItem ans pktHdr bytes None s
        end
    end.

(** The bytes of a packet with its head.  Packets of the other types do not change this part of the
    connection. *)
Definition FillpDoInput (ans : Answers) (alloc : option nat) (more : Z) (alloc' : option nat) (p : list byte) (s : FillpRecvPcb) : option FillpRecvPcb :=
  head ← headOf p;
  let len := Z.of_nat (length p) - FILLP_HLEN in
  if pktSize cfg <? len then Some s
  else if len <? hDataLen head then Some s
  else if FILLP_PKT_GET_TYPE (flag head) =? FILLP_PKT_TYPE_DATA then FillpHdlDataInput ans alloc more alloc' head (drop 12 p) s
  else Some s.

(** ** Timers *)

Fixpoint pushLoop (fuel : nat) (ans : Answers) (s : FillpRecvPcb) : option FillpRecvPcb :=
  match fuel with
  | O => None
  | S fuel' =>
      '(item, l) ← ilPop (recvBoxPlaceInOrder s);
      let s := s <| recvBoxPlaceInOrder := l |> in
      match item with
      | None => Some s
      | Some item => s ← FillpDataToStack ans item s; pushLoop fuel' ans s
      end
  end.

(** The reorder cache is emptied. *)
Definition SpungePushRecvdDataToStack (ans : Answers) (s : FillpRecvPcb) : option FillpRecvPcb :=
  pushLoop (S (Z.to_nat (ilNum (recvBoxPlaceInOrder s)))) ans s.

(** The gaps that are old enough are reported. *)
Fixpoint sendNackList (ans : Answers) (l : list FillpNackNode) (s : FillpRecvPcb) : FillpRecvPcb :=
  match l with
  | [] => s
  | n :: next =>
      if nTimestamp n <? curTime ans then
        sendNackList ans next ((FillpSendNack ans (startPktNum n) (endPktNum n) s) <| nackList := next |>)
      else s
  end.
Definition FillpCheckPcbNackListToSend (ans : Answers) (s : FillpRecvPcb) : FillpRecvPcb := sendNackList ans (nackList s) s.

Definition FillpBuildAndSendPack (lost : Z) (s : FillpRecvPcb) : FillpRecvPcb :=
  s <| lastPackPktNum := rPktNum s |> <| lastPackSeqNum := rSeqNum s |> <| packs := packs s ++ [mkPktPack (rSeqNum s) (rPktNum s) lost] |>.

Definition FillpSendPack (s : FillpRecvPcb) : option FillpRecvPcb :=
  node ← ilFirst (recvList s);
  Some (FillpBuildAndSendPack (match node with Some item => u32 (seqNum item - dataLen item) | None => rSeqNum s end) s).

End Model.

(** ** The stream of the sender *)

Section Stream.

(** The items of the sender in the order of the application, the number before the first, the
    receive window in bytes, the addresses of the receiver's pool. *)
Context {L : Type} `{ItemListLaws FillpPcbItem skipListNode L} (cfg : Config) (stream : list FillpPcbItem) (base W : Z) (M : nat -> Prop).

#[local] Abbreviation pos := (FillpItem.pos stream base).

(** The items are as the socket layer prepares them, fit into a packet and are numbered. *)
Definition streamOk : Prop := forall i x, stream !! i = Some x -> sendable x /\ bufLen x <= pktSize cfg /\ seqNum x = u32 (pos (S i)).

Hypothesis stream_ok : streamOk.
Hypothesis window_ok : 0 < W < 1073741824.

(** The receiver's copy of an item: number, length and data. *)
Definition copyOf (x y : FillpPcbItem) : Prop := seqNum y = seqNum x /\ dataLen y = dataLen x /\ payload y = payload x.
Definition copy (i : nat) (y : FillpPcbItem) : Prop := exists x, stream !! i = Some x /\ copyOf x y.

Lemma stream_sized : sized stream.
Proof. intros i x E. destruct (stream_ok i x E) as (Hs & _). apply (sb_data _ Hs). Qed.

#[local] Abbreviation pos_step := (FillpItem.pos_step stream base stream_sized).
#[local] Abbreviation pos_lt := (FillpItem.pos_lt stream base stream_sized).
#[local] Abbreviation pos_le := (FillpItem.pos_le stream base stream_sized).
#[local] Abbreviation pos_lt_inv := (FillpItem.pos_lt_inv stream base stream_sized).

Lemma copy_facts i y : copy i y -> (i < length stream)%nat /\ seqNum y = u32 (pos (S i)) /\ pos (S i) = pos i + dataLen y /\ 0 < dataLen y < 65536.
Proof.
  intros (x & E & Hq & Hd & _). destruct (stream_ok i x E) as (Hs & _ & Hn). rewrite Hq, Hd. split; [now apply lookup_lt_Some in E|].
  split; [exact Hn|]. split; [now apply pos_S|]. apply Hs.
Qed.

Lemma compare_positions i j x y : copy i x -> copy j y -> in_s32 (pos (S i) - pos (S j)) ->
  (seqNum x =? seqNum y) = (i =? j)%nat /\ (0 <? s32 (seqNum x - seqNum y)) = (j <? i)%nat.
Proof.
  intros Hx Hy Hn. destruct (copy_facts i x Hx) as (Hi & -> & _), (copy_facts j y Hy) as (Hj & -> & _).
  assert (Heq : pos (S i) = pos (S j) -> i = j).
  { intros E. destruct (Nat.lt_trichotomy i j) as [Hl|[Hl|Hl]]; [|exact Hl|].
    - pose proof (pos_lt (S i) (S j) ltac:(lia)). lia.
    - pose proof (pos_lt (S j) (S i) ltac:(lia)). lia. }
  rewrite s32_u32_sub by exact Hn. split.
  - destruct (Nat.eqb_spec i j) as [-> |Hne]; [apply Z.eqb_refl|]. apply Z.eqb_neq. intros E. apply u32_inj in E; auto.
  - destruct (Nat.ltb_spec j i) as [Hl|Hl].
    + apply Z.ltb_lt. pose proof (pos_lt (S j) (S i) ltac:(lia)). lia.
    + apply Z.ltb_ge. pose proof (pos_le (S i) (S j) ltac:(lia)). lia.
Qed.

Lemma cmp_copies i j x y : copy i x -> copy j y -> in_s32 (pos (S i) - pos (S j)) -> FillpSkiplistCmp x y = Z.b2z (j <? i)%nat.
Proof.
  intros Hx Hy Hn. destruct (compare_positions i j x y Hx Hy Hn) as [E1 E2]. unfold FillpSkiplistCmp. rewrite E1, E2.
  destruct (Nat.eqb_spec i j) as [-> |]; [now rewrite Nat.ltb_irrefl|reflexivity].
Qed.

Lemma recvcmp_copies i j x y : copy i x -> copy j y -> in_s32 (pos (S i) - pos (S j)) -> (pktNum x = pktNum y -> i = j) ->
  FillpSkiplistRecvcmp x y = Z.b2z (j <? i)%nat.
Proof.
  intros Hx Hy Hn Hp. destruct (compare_positions i j x y Hx Hy Hn) as [_ E2]. unfold FillpSkiplistRecvcmp. rewrite E2.
  destruct (Z.eqb_spec (pktNum x) (pktNum y)) as [E|]; [rewrite (Hp E); now rewrite Nat.ltb_irrefl|reflexivity].
Qed.

(** ** The invariant *)

(** The packets that were sent back acknowledge what the application has. *)
Definition acked (k : nat) (q : Z) : Prop := exists j, (j <= k)%nat /\ q = u32 (pos j).
Definition backOk (k : nat) (s : FillpRecvPcb (L := L)) : Prop :=
  Forall (fun p => acked k (packSeqNum p)) (packs s) /\ Forall (fun p => acked k (nackSeqNum p)) (nacks s).

(** [d]: the items for the application; [k] of the sender's items are delivered; [il], [ib]: the
    indices of the items [rl], [bl] of the two lists. *)
Record Inv (s : FillpRecvPcb (L := L)) (d : list FillpPcbItem) (k : nat) (il ib : list nat) (rl bl : list FillpPcbItem) : Prop := {
  v_seq : rSeqNum s = u32 (pos k);
  v_cache : pktRecvCache s = W;
  v_len : (k <= length stream)%nat;
  v_done : Forall2 copyOf (take k stream) d;
  v_rl : ilHolds (recvList s) rl;
  v_bl : ilHolds (recvBoxPlaceInOrder s) bl;
  v_il : Forall2 copy il rl;
  v_ib : Forall2 copy ib bl;
  v_sl : StronglySorted lt il;
  v_sb : StronglySorted lt ib;
  v_wl : Forall (fun i => pos k < pos (S i) <= pos k + W) il;
  v_wb : Forall (fun i => pos k - W < pos (S i) <= pos k + W) ib;
  v_nodes : NoDup (map skipListNode rl ++ map skipListNode bl);
  v_mem : forall a, M a -> ilMemory (recvList s) a /\ ilMemory (recvBoxPlaceInOrder s) a;
  v_own : Forall (fun y => M (skipListNode y)) (rl ++ bl);
  v_back : backOk k s
}.

Lemma copies_index il rl : Forall2 copy il rl -> Forall (fun i => (i < length stream)%nat) il.
Proof. induction 1 as [|i y il rl Hc _ IH]; constructor; [|exact IH]. apply (copy_facts i y Hc). Qed.

(** A window holds no more items than bytes. *)
Lemma window_count il : StronglySorted lt il -> Forall (fun i => (i < length stream)%nat) il ->
  forall lo hi, lo <= hi -> Forall (fun i => lo < pos (S i) <= hi) il -> Z.of_nat (length il) <= hi - lo.
Proof.
  induction 1 as [|i il Hs IH Hi]; intros Hn lo hi Hle Hw; [cbn; lia|]. apply Forall_cons in Hn as [Hni Hn], Hw as [Hwi Hw].
  assert (Z.of_nat (length il) <= hi - pos (S i)).
  { apply IH; [exact Hn|lia|]. rewrite Forall_forall in *. intros j Hj. specialize (Hw j Hj). pose proof (pos_lt (S i) (S j)) as Hp.
    specialize (Hi j Hj). specialize (Hn j Hj). lia. }
  cbn [length]. lia.
Qed.

Lemma ahead i k : (i < length stream)%nat -> (k <= length stream)%nat -> pos k < pos (S i) -> (k <= i)%nat.
Proof. intros Hi Hk Hp. apply pos_lt_inv in Hp; lia. Qed.

(** What an operation on the list of the received items leaves alone. *)
Definition sameRest (s s' : FillpRecvPcb (L := L)) : Prop := connState s' = connState s /\ recvBoxPlaceInOrder s' = recvBoxPlaceInOrder s.

Lemma inv_first s d k i il ib y rl bl : Inv s d k (i :: il) ib (y :: rl) bl ->
  copy i y /\ (k <= i)%nat /\ (u32 (seqNum y - dataLen y) =? rSeqNum s) = (i =? k)%nat.
Proof.
  intros V. pose proof (v_il _ _ _ _ _ _ _ V) as Hc. apply Forall2_cons in Hc as [Hc _]. destruct (copy_facts i y Hc) as (Hi & Es & Ep & Hd).
  pose proof (v_wl _ _ _ _ _ _ _ V) as Hw. apply Forall_cons in Hw as [Hw _]. pose proof (v_len _ _ _ _ _ _ _ V) as Hk.
  split; [exact Hc|]. split; [now apply ahead|]. rewrite Es, u32_sub_u32, (v_seq _ _ _ _ _ _ _ V). replace (pos (S i) - dataLen y) with (pos i) by lia.
  destruct (Nat.eqb_spec i k) as [-> |Hne]; [apply Z.eqb_refl|]. apply Z.eqb_neq. intros E. apply u32_inj in E; [|unfold in_s32; lia].
  pose proof (pos_lt k i). pose proof (ahead i k Hi Hk ltac:(lia)). lia.
Qed.

Lemma backOk_mono k k' s : (k <= k')%nat -> backOk k s -> backOk k' s.
Proof.
  intros Hk [H1 H2]. split; (eapply Forall_impl; [eassumption|]); intros p (j & Hj & E); exists j; (split; [lia|exact E]).
Qed.

(** The next item goes to the application. *)
Lemma inv_take s d k il ib y rl bl l k0 : Inv s d k (k :: il) ib (y :: rl) bl -> (k0 <= k)%nat -> Forall (fun j => pos k0 < pos (S j)) ib -> pos (S k) <= pos k0 + W ->
  ilHolds l rl -> (forall a, ilMemory (recvList s) a -> ilMemory l a) ->
  Inv (s <| rSeqNum := seqNum y |> <| recvBytes := u64 (recvBytes s - dataLen y) |> <| recvList := l |>) (d ++ [y]) (S k) il ib rl bl.
Proof.
  intros V Hk0 Hib Htop Hl Hmem. pose proof (v_il _ _ _ _ _ _ _ V) as Hc. apply Forall2_cons in Hc as [(x & Ex & Hx) Hc].
  destruct (copy_facts k y ltac:(now exists x)) as (Hi & Es & Ep & Hd). pose proof (v_sl _ _ _ _ _ _ _ V) as Hs. inversion Hs as [|? ? Hs' Hgt]; subst.
  pose proof (v_nodes _ _ _ _ _ _ _ V) as Hn. cbn in Hn. apply NoDup_cons in Hn as [_ Hn]. pose proof (v_own _ _ _ _ _ _ _ V) as Ho. apply Forall_cons in Ho as [_ Ho].
  pose proof (copies_index _ _ Hc) as Hlen. split; try apply V; try assumption; cbn.
  - rewrite (take_S_r _ _ x Ex). apply Forall2_app; [apply V|]. constructor; [exact Hx|constructor].
  - pose proof (v_wl _ _ _ _ _ _ _ V) as Hw. apply Forall_cons in Hw as [_ Hw]. rewrite Forall_forall in *. intros j Hj.
    specialize (Hw j Hj). specialize (Hgt j Hj). specialize (Hlen j Hj). pose proof (pos_lt (S k) (S j) ltac:(lia)). pose proof (pos_step k Hi). lia.
  - pose proof (v_wb _ _ _ _ _ _ _ V) as Hw. rewrite Forall_forall in *. intros j Hj. specialize (Hw j Hj). specialize (Hib j Hj).
    pose proof (pos_step k Hi). lia.
  - intros a Ha. destruct (v_mem _ _ _ _ _ _ _ V a Ha). auto.
  - now apply (backOk_mono k), V; lia.
Qed.

Lemma burst_ok d ib bl k0 n : forall pool s k il rl, Inv s (d ++ pool) k il ib rl bl -> (k0 <= k)%nat ->
  Forall (fun j => pos k0 < pos (S j)) ib -> Forall (fun i => pos (S i) <= pos k0 + W) il ->
  exists m pool' s' rl', burst n pool s = Some (pool ++ pool', s') /\ length pool' = m /\ Inv s' (d ++ pool ++ pool') (k + m) (drop m il) ib rl' bl /\
    recvBox s' = recvBox s /\ sameRest s s' /\ Forall (fun j => (j < k + m)%nat) (take m il) /\ (m <= length il)%nat /\ ((m < n)%nat -> (k + m)%nat ∉ drop m il).
Proof.
  induction n as [|n IH]; intros pool s k il rl V Hk0 Hib Htop.
  { exists 0%nat, [], s, rl. rewrite !app_nil_r, Nat.add_0_r, take_0, drop_0. split; [reflexivity|]. split; [reflexivity|]. split; [exact V|].
    split; [reflexivity|]. split; [now split|]. split; [constructor|]. split; lia. }
  cbn [burst]. rewrite (ilFirst_law _ _ (v_rl _ _ _ _ _ _ _ V)). cbn [mbind option_bind].
  assert (Hstop : (k ∉ il)%nat -> exists m pool' s' rl', Some (pool, s) = Some (pool ++ pool', s') /\ length pool' = m /\ Inv s' (d ++ pool ++ pool') (k + m) (drop m il) ib rl' bl /\
    recvBox s' = recvBox s /\ sameRest s s' /\ Forall (fun j => (j < k + m)%nat) (take m il) /\ (m <= length il)%nat /\ ((m < S n)%nat -> (k + m)%nat ∉ drop m il)).
  { intros Hk. exists 0%nat, [], s, rl. rewrite !app_nil_r, Nat.add_0_r, take_0, drop_0. split; [reflexivity|]. split; [reflexivity|]. split; [exact V|].
    split; [reflexivity|]. split; [now split|]. split; [constructor|]. split; [lia|done]. }
  destruct rl as [|y rl]; destruct il as [|i il]; try (pose proof (v_il _ _ _ _ _ _ _ V) as Hc; inversion Hc; fail); [apply Hstop, not_elem_of_nil|].
  cbn [lookup list_lookup]. destruct (inv_first _ _ _ _ _ _ _ _ _ V) as (Hcy & Hki & ->). destruct (Nat.eqb_spec i k) as [-> |Hne]; cbn [negb].
  - destruct (ilPop_law _ _ (v_rl _ _ _ _ _ _ _ V)) as (l & -> & Hl & Hmem). cbn [mbind option_bind]. cbn in Hl. rewrite drop_0 in Hl.
    apply Forall_cons in Htop as [Htk Htop].
    pose proof (inv_take _ _ _ _ _ _ _ _ l k0 V Hk0 Hib Htk Hl Hmem) as V'. rewrite <- app_assoc in V'.
    destruct (IH _ _ _ _ _ V' ltac:(lia) Hib Htop) as (m & pool' & s' & rl' & E & Em & V2 & Eb & Er & Ht & Hml & Hnext).
    exists (S m), (y :: pool'), s', rl'. rewrite <- !app_assoc in *. cbn [app] in *. split; [exact E|]. split; [cbn; lia|].
    replace (k + S m)%nat with (S k + m)%nat by lia. split; [exact V2|]. split; [exact Eb|]. split; [exact Er|].
    split; [cbn; constructor; [lia|exact Ht]|]. split; [cbn; lia|]. intros Hm. apply Hnext. lia.
  - apply Hstop. intros [E|Hin]%elem_of_cons; [lia|]. pose proof (v_sl _ _ _ _ _ _ _ V) as Hs. inversion Hs as [|? ? _ Hgt]; subst.
    rewrite Forall_forall in Hgt. specialize (Hgt k Hin). lia.
Qed.

(** At most one NACK was sent. *)
Definition sentBack (s s' : FillpRecvPcb (L := L)) : Prop :=
  packs s' = packs s /\ (nacks s' = nacks s \/ exists a b, nacks s' = nacks s ++ [mkPktNack a b (rSeqNum s)]).

Lemma inv_ext s s' d k il ib rl bl : rSeqNum s' = rSeqNum s -> pktRecvCache s' = pktRecvCache s -> recvList s' = recvList s ->
  recvBoxPlaceInOrder s' = recvBoxPlaceInOrder s -> sentBack s s' -> Inv s d k il ib rl bl -> Inv s' d k il ib rl bl.
Proof.
  intros E1 E2 E3 E4 [E5 E6] V. split; rewrite ?E1, ?E2, ?E3, ?E4; try apply V. destruct (v_back _ _ _ _ _ _ _ V) as [B1 B2].
  split; [now rewrite E5|]. destruct E6 as [-> |(a & b & ->)]; [exact B2|]. apply Forall_app. split; [exact B2|]. constructor; [|constructor].
  exists k. split; [lia|apply V].
Qed.

Lemma sentBack_refl s s' : packs s' = packs s -> nacks s' = nacks s -> sentBack s s'.
Proof. intros E1 E2. split; [exact E1|now left]. Qed.

Lemma upload_ok ans ib bl k0 fuel : pushed ans = true -> forall s k il rl, Inv s (recvBox s) k il ib rl bl -> (k0 <= k)%nat ->
  Forall (fun j => pos k0 < pos (S j)) ib -> Forall (fun i => pos (S i) <= pos k0 + W) il -> (length il < fuel)%nat ->
  exists m s' k' rl', uploadLoop fuel ans s = Some s' /\ Inv s' (recvBox s') k' (drop m il) ib rl' bl /\ sameRest s s' /\ (k <= k')%nat /\
    k' ∉ drop m il /\ Forall (fun j => (j < k')%nat) (take m il).
Proof.
  intros Hp. induction fuel as [|fuel IH]; intros s k il rl V Hk0 Hib Htop Hf; [lia|]. cbn [uploadLoop].
  destruct (burst_ok (recvBox s) ib bl k0 FILLP_DEFAULT_RECVBOX_BRUST [] s k il rl) as (m & pool & s1 & rl1 & E & Em & V1 & Eb & Er & Ht & Hml & Hn);
    [now rewrite app_nil_r|done|done|done|].
  rewrite E. clear E. cbn [mbind option_bind app] in *. destruct pool as [|y pool].
  - cbn in Em. subst m. rewrite Nat.add_0_r, app_nil_r, drop_0, take_0 in *. exists 0%nat, s1, k, rl1. rewrite drop_0, take_0, Eb. split; [reflexivity|].
    split; [exact V1|]. split; [exact Er|]. split; [lia|]. split; [|constructor]. apply Hn. exact (Nat.lt_0_succ 1023).
  - set (s2 := SpungePcbRecv ans (y :: pool) s1). assert (Es2 : s2 = s1 <| recvBox := recvBox s1 ++ y :: pool |>) by (unfold s2, SpungePcbRecv; now rewrite Hp).
    assert (V2 : Inv s2 (recvBox s2) (k + m) (drop m il) ib rl1 bl).
    { rewrite Es2. cbn. rewrite Eb. apply (inv_ext s1); try reflexivity; [now apply sentBack_refl|exact V1]. }
    assert (Hlen : (length (drop m il) < fuel)%nat).
    { rewrite length_drop. cbn in Em. lia. }
    destruct (IH s2 (k + m)%nat (drop m il) rl1 V2) as (m' & s3 & k' & rl3 & E3 & V3 & R3 & Hk & Hk' & Ht'); [lia|done|now apply Forall_drop|exact Hlen|].
    exists (m + m')%nat, s3, k', rl3. rewrite drop_drop in *. split; [exact E3|]. split; [exact V3|].
    split; [destruct R3 as [R3 R3'], Er as [Er Er']; rewrite Es2 in *; cbn in *; split; congruence|]. split; [lia|]. split; [exact Hk'|].
    rewrite <- (take_drop m il) at 1. destruct (Nat.le_gt_cases (length il) m) as [Hle|Hgt].
    + rewrite drop_ge, app_nil_r by exact Hle. rewrite take_ge by (rewrite length_take; lia). eapply Forall_impl; [exact Ht|]. cbn. lia.
    + rewrite take_app_add' by (rewrite length_take; lia). apply Forall_app. split; [eapply Forall_impl; [exact Ht|]; cbn; lia|exact Ht'].
Qed.

Ltac same_fields H := repeat (split; [reflexivity|]); split; [now apply H|done].

Lemma noteNumber_same ans x s : exists b s1, noteNumber cfg ans x s = (b, s1) /\ rSeqNum s1 = rSeqNum s /\ pktRecvCache s1 = pktRecvCache s /\ recvList s1 = recvList s /\
  recvBoxPlaceInOrder s1 = recvBoxPlaceInOrder s /\ recvBox s1 = recvBox s /\ connState s1 = connState s /\ sentBack s s1 /\ (b = true -> FillpNumIsbigger (seqNum x) (rSeqNum s) = false).
Proof.
  assert (Hsame : forall s1 : FillpRecvPcb (L := L), packs s1 = packs s -> nacks s1 = nacks s -> sentBack s s1) by (intros; now apply sentBack_refl).
  unfold noteNumber, FillBiggerItem, FillpCheckAndUpdateDelayNackList, FillpAddNodeAtDelayNackListTail, FillpSendNack.
  destruct (FillpNumIsbigger (pktNum x) (rPktNum s)).
  - eexists false, _. split; [reflexivity|]. destruct (negb _); [|same_fields Hsame]. destruct (_ && _); [destruct (nodeMem ans); same_fields Hsame|].
    destruct (_ && _); [|same_fields Hsame]. destruct (nackMem ans); [|same_fields Hsame].
    repeat (split; [reflexivity|]). split; [|done]. split; [reflexivity|right]. eexists _, _. reflexivity.
  - destruct (enableNackDelay cfg); [|eexists _, _; split; [reflexivity|same_fields Hsame]].
    destruct (FillpNumIsbigger (seqNum x) (rSeqNum s)) eqn:Eb; cbn [negb].
    + destruct (negb _); eexists _, _; (split; [reflexivity|same_fields Hsame]).
    + eexists _, _. split; [reflexivity|]. same_fields Hsame.
Qed.

(** The list with another item. *)
Lemma inv_inserted s d k i x ip iq ib p q bl l : Inv s d k (ip ++ iq) ib (p ++ q) bl -> length ip = length p -> copy i x -> StronglySorted lt (ip ++ i :: iq) ->
  pos k < pos (S i) <= pos k + W -> skipListNode x ∉ map skipListNode (p ++ q) ++ map skipListNode bl -> M (skipListNode x) ->
  ilHolds l (p ++ x :: q) -> (forall a, ilMemory (recvList s) a -> ilMemory l a) ->
  Inv (s <| recvList := l |>) d k (ip ++ i :: iq) ib (p ++ x :: q) bl.
Proof.
  intros V Hl Hx Hs Hw Hout HM Hh Hmem.
  assert (Hperm : Permutation (p ++ x :: q) (x :: p ++ q)) by (symmetry; apply Permutation_middle).
  split; try apply V; try assumption.
  - pose proof (v_il _ _ _ _ _ _ _ V) as Hc. apply Forall2_app_inv in Hc as [H1 H2]; [|exact Hl]. apply Forall2_app; [exact H1|now constructor].
  - pose proof (v_wl _ _ _ _ _ _ _ V) as Hc. apply Forall_app in Hc as [H1 H2]. apply Forall_app. split; [exact H1|now constructor].
  - rewrite Hperm. cbn. constructor; [exact Hout|apply V].
  - intros a Ha. destruct (v_mem _ _ _ _ _ _ _ V a Ha). split; [cbn; auto|assumption].
  - rewrite Hperm. cbn. constructor; [exact HM|apply V].
Qed.

Lemma near_window k i j : pos k - W < pos (S i) <= pos k + W -> pos k - W < pos (S j) <= pos k + W -> in_s32 (pos (S i) - pos (S j)).
Proof. unfold in_s32. lia. Qed.

(** Comparisons with the items of a list. *)
Lemma list_compared k i x il rl : Forall2 copy il rl -> copy i x -> Forall (fun j => pos k - W < pos (S j) <= pos k + W) il -> pos k - W < pos (S i) <= pos k + W ->
  Forall2 (fun (j : nat) y => FillpSkiplistCmp x y = Z.b2z (j <? i)%nat /\ FillpSkiplistCmp y x = Z.b2z (i <? j)%nat) il rl.
Proof.
  intros Hc Hx Hw Hi. induction Hc as [|j y il rl Hy Hc IH]; [constructor|]. apply Forall_cons in Hw as [Hj Hw]. constructor; [|auto].
  split; apply cmp_copies; try assumption; now apply (near_window k).
Qed.

Lemma data_to_stack_ok ans x i s k il ib rl bl : Inv s (recvBox s) k il ib rl bl -> pushed ans = true -> copy i x -> M (skipListNode x) ->
  skipListNode x ∉ map skipListNode rl ++ map skipListNode bl -> pos k - W < pos (S i) <= pos k + W -> k ∉ il -> Forall (fun j => (i <= j)%nat) ib ->
  exists s' k' il' rl', FillpDataToStack cfg ans x s = Some s' /\ Inv s' (recvBox s') k' il' ib rl' bl /\ sameRest s s' /\ (k <= k')%nat /\ k' ∉ il' /\
    (forall j, j ∈ il -> (j < k')%nat \/ j ∈ il') /\ ((i < k')%nat \/ i ∈ il').
Proof.
  intros V Hp Hx HM Hout Hw Hk Hib. unfold FillpDataToStack. destruct (copy_facts i x Hx) as (Hi & Es & Ep & Hd). pose proof (v_len _ _ _ _ _ _ _ V) as Hkl.
  destruct (noteNumber_same ans x s) as (b & s1 & -> & E1 & E2 & E3 & E4 & E5 & E6 & E7 & Hb). rewrite E1, E3.
  assert (V1 : Inv s1 (recvBox s1) k il ib rl bl) by (rewrite E5; apply (inv_ext s); assumption).
  assert (Hbig : FillpNumIsbigger (seqNum x) (rSeqNum s) = (pos k <? pos (S i))) by (rewrite Es, (v_seq _ _ _ _ _ _ _ V); apply bigger_pos; unfold in_s32; lia).
  rewrite Hbig in *. destruct (Z.ltb_spec (pos k) (pos (S i))) as [Hgt|Hle].
  2: { exists s1, k, il, rl. assert (Hik : (i < k)%nat) by (destruct (Nat.lt_ge_cases i k); [done|]; pose proof (pos_lt k (S i) ltac:(lia)); lia).
    split; [destruct b; reflexivity|]. split; [exact V1|]. split; [now split|]. split; [lia|]. split; [exact Hk|]. split; [auto|now left]. }
  destruct b; [now specialize (Hb eq_refl)|]. cbn [negb].
  destruct (insert_by_index FillpSkiplistCmp x i il rl (v_sl _ _ _ _ _ _ _ V)) as (Hsp & Hin & Hnew).
  { apply (list_compared k); [apply V|exact Hx| |exact Hw]. eapply Forall_impl; [apply V|]. cbn. lia. }
  assert (Hout' : skipListNode x ∉ map skipListNode rl) by (intros ?; apply Hout; apply elem_of_app; now left).
  destruct (ilInsert_law FillpSkiplistCmp (recvList s) rl x true (v_rl _ _ _ _ _ _ _ V)) as (l & El & Hl & Hmem); [apply (v_mem _ _ _ _ _ _ _ V), HM|exact Hout'|exact Hsp|].
  rewrite El. cbn [mbind option_bind]. destruct (decide (i ∈ il)) as [Hi'|Hi'].
  - rewrite (Hin Hi') in *. cbn [fst snd] in *. cbn [negb Z.eqb SkipList.ERR_COMM]. eexists _, k, il, rl. split; [reflexivity|]. split.
    + cbn. split; try apply V1; try assumption. intros a Ha. destruct (v_mem _ _ _ _ _ _ _ V1 a Ha). split; [cbn; apply Hmem; now rewrite <- E3|assumption].
    + split; [now split|]. split; [lia|]. split; [exact Hk|]. split; [auto|now right].
  - destruct (Hnew Hi') as (ip & iq & p & q & -> & -> & Hlen & Esl & Hs'). rewrite Esl in *. cbn [fst snd] in *. cbn [negb Z.eqb SkipList.ERR_OK].
    pose proof (inv_inserted s1 _ k i x ip iq ib p q bl l V1 Hlen Hx Hs' ltac:(lia) Hout HM Hl ltac:(now rewrite E3)) as V2.
    set (s2 := s1 <| recvList := l |> <| recvBytes := u64 (recvBytes (s1 <| recvList := l |>) + dataLen x) |>).
    assert (V3 : Inv s2 (recvBox s2) k (ip ++ i :: iq) ib (p ++ x :: q) bl) by (unfold s2; apply (inv_ext (s1 <| recvList := l |>)); try reflexivity; [now apply sentBack_refl|exact V2]).
    assert (Hcnt : Z.of_nat (length (ip ++ i :: iq)) <= W).
    { pose proof (window_count (ip ++ i :: iq) Hs' (copies_index _ _ (v_il _ _ _ _ _ _ _ V3)) (pos k) (pos k + W) ltac:(lia) (v_wl _ _ _ _ _ _ _ V3)). lia. }
    unfold FillpUploadRecvBox. change (recvList s2) with l. rewrite (ilNum_law _ _ Hl), <- (Forall2_length _ _ _ (v_il _ _ _ _ _ _ _ V3)), u32_small by (unfold in_u32; lia).
    destruct (upload_ok ans ib bl k (S (Z.to_nat (Z.of_nat (length (ip ++ i :: iq))))) Hp s2 k _ _ V3 ltac:(lia)) as (m & s3 & k' & rl3 & E & V4 & R & Hkk & Hk' & Ht).
    { rewrite Forall_forall in *. intros j Hj. specialize (Hib j Hj). pose proof (pos_le (S i) (S j)) as Hpl.
      pose proof (copies_index _ _ (v_ib _ _ _ _ _ _ _ V)) as Hbi. rewrite Forall_forall in Hbi. specialize (Hbi j Hj). lia. }
    { eapply Forall_impl; [apply V3|]. cbn. lia. }
    { rewrite Nat2Z.id. lia. }
    exists s3, k', (drop m (ip ++ i :: iq)), rl3. split; [exact E|]. split; [exact V4|]. destruct R as [R1 R2]. split; [split; [now rewrite R1|now rewrite R2]|].
    split; [exact Hkk|]. split; [exact Hk'|].
    assert (Hall : forall j, j ∈ ip ++ i :: iq -> (j < k')%nat \/ j ∈ drop m (ip ++ i :: iq)).
    { intros j Hj. rewrite <- (take_drop m (ip ++ i :: iq)) in Hj. apply elem_of_app in Hj as [Hj|Hj]; [left|now right]. rewrite Forall_forall in Ht. auto. }
    split; [intros j Hj; apply Hall; rewrite elem_of_app, elem_of_cons; apply elem_of_app in Hj; tauto|]. apply Hall, elem_of_app. right. now left.
Qed.

(** ** The reorder cache *)

Definition cached : bool := outOfOrderCacheEnable cfg && negb (enableNackDelay cfg).

(** Packet [j] was received and is not lost. *)
Definition kept (k : nat) (il ib : list nat) (j : nat) : Prop := (j < k)%nat \/ j ∈ il \/ j ∈ ib.

Lemma kept_step k k' il il' ib j : kept k il ib j -> (k <= k')%nat -> (forall j, j ∈ il -> (j < k')%nat \/ j ∈ il') -> kept k' il' ib j.
Proof. intros [Hj|[Hj|Hj]] Hk Hil; unfold kept; [left; lia| |tauto]. destruct (Hil j Hj); tauto. Qed.

Lemma box_popped s d k i il ib y rl bl : Inv s d k il (i :: ib) rl (y :: bl) ->
  exists l, ilPop (recvBoxPlaceInOrder s) = Some (Some y, l) /\ Inv (s <| recvBoxPlaceInOrder := l |>) d k il ib rl bl /\
    copy i y /\ M (skipListNode y) /\ skipListNode y ∉ map skipListNode rl ++ map skipListNode bl /\
    pos k - W < pos (S i) <= pos k + W /\ Forall (fun j => (i <= j)%nat) ib.
Proof.
  intros V. destruct (ilPop_law _ _ (v_bl _ _ _ _ _ _ _ V)) as (l & E & Hl & Hmem). cbn in Hl. rewrite drop_0 in Hl. exists l. split; [exact E|].
  pose proof (v_ib _ _ _ _ _ _ _ V) as Hc. apply Forall2_cons in Hc as [Hc Hc']. pose proof (v_sb _ _ _ _ _ _ _ V) as Hs. inversion Hs as [|? ? Hs' Hgt]; subst.
  pose proof (v_wb _ _ _ _ _ _ _ V) as Hw. apply Forall_cons in Hw as [Hw Hw']. pose proof (v_nodes _ _ _ _ _ _ _ V) as Hn. cbn in Hn.
  assert (Hp : Permutation (map skipListNode rl ++ skipListNode y :: map skipListNode bl) (skipListNode y :: map skipListNode rl ++ map skipListNode bl))
    by (symmetry; apply Permutation_middle). rewrite Hp in Hn. apply NoDup_cons in Hn as [Hout Hn].
  pose proof (v_own _ _ _ _ _ _ _ V) as Ho. apply Forall_app in Ho as [Ho1 Ho2]. apply Forall_cons in Ho2 as [Ho2 Ho3].
  split; [|split; [exact Hc|split; [exact Ho2|split; [exact Hout|split; [exact Hw|eapply Forall_impl; [exact Hgt|]; cbn; lia]]]]].
  split; try apply V; try assumption.
  - intros a Ha. destruct (v_mem _ _ _ _ _ _ _ V a Ha). split; [assumption|cbn; auto].
  - apply Forall_app. now split.
Qed.

Lemma inv_box_inserted s d k i x il ip iq rl p q l : Inv s d k il (ip ++ iq) rl (p ++ q) -> length ip = length p -> copy i x -> StronglySorted lt (ip ++ i :: iq) ->
  pos k - W < pos (S i) <= pos k + W -> skipListNode x ∉ map skipListNode rl ++ map skipListNode (p ++ q) -> M (skipListNode x) ->
  ilHolds l (p ++ x :: q) -> (forall a, ilMemory (recvBoxPlaceInOrder s) a -> ilMemory l a) ->
  Inv (s <| recvBoxPlaceInOrder := l |>) d k il (ip ++ i :: iq) rl (p ++ x :: q).
Proof.
  intros V Hl Hx Hs Hw Hout HM Hh Hmem.
  assert (Hperm : Permutation (p ++ x :: q) (x :: p ++ q)) by (symmetry; apply Permutation_middle).
  split; try apply V; try assumption.
  - pose proof (v_ib _ _ _ _ _ _ _ V) as Hc. apply Forall2_app_inv in Hc as [H1 H2]; [|exact Hl]. apply Forall2_app; [exact H1|now constructor].
  - pose proof (v_wb _ _ _ _ _ _ _ V) as Hc. apply Forall_app in Hc as [H1 H2]. apply Forall_app. split; [exact H1|now constructor].
  - rewrite Hperm. cbn. rewrite <- Permutation_middle. constructor; [exact Hout|apply V].
  - intros a Ha. destruct (v_mem _ _ _ _ _ _ _ V a Ha). split; [assumption|cbn; auto].
  - rewrite Hperm, <- Permutation_middle. constructor; [exact HM|apply V].
Qed.

Lemma cache_compared k i x ib bl : Forall2 copy ib bl -> copy i x -> Forall (fun j => pos k - W < pos (S j) <= pos k + W) ib -> pos k - W < pos (S i) <= pos k + W ->
  Forall2 (fun j y => pktNum y = pktNum x -> j = i) ib bl ->
  Forall2 (fun (j : nat) y => FillpSkiplistRecvcmp x y = Z.b2z (j <? i)%nat /\ FillpSkiplistRecvcmp y x = Z.b2z (i <? j)%nat) ib bl.
Proof.
  intros Hc Hx Hw Hi Hn. induction Hc as [|j y ib bl Hy Hc IH]; [constructor|]. apply Forall_cons in Hw as [Hj Hw]. apply Forall2_cons in Hn as [Hn Hn']. constructor; [|auto].
  split; (apply recvcmp_copies; [assumption|assumption|now apply (near_window k)|]); [intros E; symmetry; now apply Hn|exact Hn].
Qed.

(** The outcome of an operation: what was received is kept. *)
Definition goesOn (s : FillpRecvPcb (L := L)) (k : nat) (il ib : list nat) (o : option (FillpRecvPcb (L := L))) (more : nat -> Prop) : Prop :=
  exists s' k' il' ib' rl' bl', o = Some s' /\ Inv s' (recvBox s') k' il' ib' rl' bl' /\ connState s' = connState s /\ (k <= k')%nat /\ k' ∉ il' /\
    (forall j, kept k il ib j \/ more j -> kept k' il' ib' j) /\ (cached = false -> ib = [] -> ib' = []).

Lemma goesOn_same s k il ib rl bl (more : nat -> Prop) : Inv s (recvBox s) k il ib rl bl -> k ∉ il -> (forall j, more j -> kept k il ib j) -> goesOn s k il ib (Some s) more.
Proof. intros V Hk Hm. exists s, k, il, ib, rl, bl. split; [reflexivity|]. split; [exact V|]. split; [reflexivity|]. split; [lia|]. split; [exact Hk|]. split; [intros j [?|?]; auto|auto]. Qed.

Lemma stack_goesOn ans x i s k il ib rl bl : Inv s (recvBox s) k il ib rl bl -> pushed ans = true -> copy i x -> M (skipListNode x) ->
  skipListNode x ∉ map skipListNode rl ++ map skipListNode bl -> pos k - W < pos (S i) <= pos k + W -> k ∉ il -> Forall (fun j => (i <= j)%nat) ib ->
  goesOn s k il ib (FillpDataToStack cfg ans x s) (fun j => j = i).
Proof.
  intros V Hp Hx HM Hout Hw Hk Hib. destruct (data_to_stack_ok ans x i s k il ib rl bl V Hp Hx HM Hout Hw Hk Hib) as (s' & k' & il' & rl' & E & V' & [R1 R2] & Hkk & Hk' & Hj & Hi).
  exists s', k', il', ib, rl', bl. split; [exact E|]. split; [exact V'|]. split; [exact R1|]. split; [exact Hkk|]. split; [exact Hk'|]. split; [|auto].
  intros j [Hkj| ->]; [now apply (kept_step k k' il il')|]. unfold kept. tauto.
Qed.

Lemma goesOn_trans s s1 k k1 il il1 ib ib1 rl1 bl1 o (more : nat -> Prop) : Inv s1 (recvBox s1) k1 il1 ib1 rl1 bl1 -> connState s1 = connState s -> (k <= k1)%nat ->
  (cached = false -> ib = [] -> ib1 = []) -> (exists more', goesOn s1 k1 il1 ib1 o more' /\ forall j, kept k il ib j \/ more j -> kept k1 il1 ib1 j \/ more' j) -> goesOn s k il ib o more.
Proof.
  intros V1 Ec Hk Hb (more' & (s' & k' & il' & ib' & rl' & bl' & E & V' & Ec' & Hk' & Hn & Hkept & Hb') & Hmore).
  exists s', k', il', ib', rl', bl'. split; [exact E|]. split; [exact V'|]. split; [congruence|]. split; [lia|]. split; [exact Hn|]. split; [auto|]. auto.
Qed.

Lemma process_ok ans x i s k il ib rl bl : Inv s (recvBox s) k il ib rl bl -> pushed ans = true -> copy i x -> dataLen x + dataOptLen x = bufLen x ->
  M (skipListNode x) -> skipListNode x ∉ map skipListNode rl ++ map skipListNode bl -> in_s32 (pos (S i) - pos k) -> pos (S i) <= pos k + W -> k ∉ il ->
  (cached = false -> ib = []) -> (cached = true -> Forall2 (fun j y => pktNum y = pktNum x -> j = i) ib bl) ->
  goesOn s k il ib (FillpProcessItemData cfg ans x s) (fun j => j = i).
Proof.
  intros V Hp Hx Hlen HM Hout Hnear Htop Hk Hb Hnum. destruct (copy_facts i x Hx) as (Hi & Es & Ep & Hd). pose proof (v_len _ _ _ _ _ _ _ V) as Hkl.
  unfold FillpProcessItemData. rewrite Hlen, Z.eqb_refl. cbn [negb].
  rewrite Es, (v_seq _ _ _ _ _ _ _ V), bigger_pos by exact Hnear. destruct (Z.ltb_spec (pos k) (pos (S i))) as [Hgt|Hle]; cbn [negb].
  2: { apply (goesOn_same s k il ib rl bl); [exact V|exact Hk|]. intros j ->. left. destruct (Nat.lt_ge_cases i k); [done|]. pose proof (pos_lt k (S i) ltac:(lia)). lia. }
  assert (Hw : pos k - W < pos (S i) <= pos k + W) by lia. fold cached. destruct cached eqn:Ec.
  2: { rewrite (Hb eq_refl) in *. apply (stack_goesOn ans x i s k il [] rl bl); try assumption. constructor. }
  destruct (insert_by_index FillpSkiplistRecvcmp x i ib bl (v_sb _ _ _ _ _ _ _ V)) as (Hsp & Hin & Hnew).
  { apply (cache_compared k); [apply V|exact Hx|apply V|exact Hw|now apply Hnum]. }
  assert (Hout' : skipListNode x ∉ map skipListNode bl) by (intros ?; apply Hout; apply elem_of_app; now right).
  destruct (ilInsert_law FillpSkiplistRecvcmp (recvBoxPlaceInOrder s) bl x true (v_bl _ _ _ _ _ _ _ V)) as (l & El & Hl & Hmem); [apply (v_mem _ _ _ _ _ _ _ V), HM|exact Hout'|exact Hsp|].
  rewrite El. cbn [mbind option_bind]. destruct (decide (i ∈ ib)) as [Hi'|Hi'].
  - rewrite (Hin Hi') in *. cbn [fst snd] in *. cbn [negb Z.eqb SkipList.ERR_COMM].
    assert (V1 : Inv (s <| recvBoxPlaceInOrder := l |>) (recvBox s) k il ib rl bl).
    { split; try apply V; try assumption. intros a Ha. destruct (v_mem _ _ _ _ _ _ _ V a Ha). split; [assumption|cbn; auto]. }
    apply (goesOn_trans s (s <| recvBoxPlaceInOrder := l |>) k k il il ib ib rl bl); [exact V1|reflexivity|lia|auto|]. exists (fun j => j = i).
    split; [|auto]. apply (goesOn_same _ k il ib rl bl); [exact V1|exact Hk|]. intros j ->. right. now right.
  - destruct (Hnew Hi') as (ip & iq & p & q & -> & -> & Hlp & Esl & Hs'). rewrite Esl in *. cbn [fst snd] in *. cbn [negb Z.eqb SkipList.ERR_OK].
    pose proof (inv_box_inserted s _ k i x il ip iq rl p q l V Hlp Hx Hs' Hw Hout HM Hl Hmem) as V1.
    assert (Hmore : forall j, kept k il (ip ++ iq) j \/ j = i -> kept k il (ip ++ i :: iq) j).
    { unfold kept. intros j Hj. rewrite elem_of_app, elem_of_cons. rewrite elem_of_app in Hj. tauto. }
    apply (goesOn_trans s _ k k il il (ip ++ iq) (ip ++ i :: iq) rl (p ++ x :: q) _ _ V1); [reflexivity|lia|congruence|].
    set (s1 := s <| recvBoxPlaceInOrder := l |>) in *. destruct (recvCachePktNumBufferSize cfg <=? ilNum (recvBoxPlaceInOrder s1)).
    2: { exists (fun j => False). split; [|intros j Hj; left; now apply Hmore]. apply (goesOn_same s1 k il _ _ _ _ V1 Hk). done. }
    assert (Hcons : exists i0 ib0 y0 bl0, ip ++ i :: iq = i0 :: ib0 /\ p ++ x :: q = y0 :: bl0).
    { destruct ip as [|i0 ip], p as [|y0 p]; try discriminate Hlp; eexists _, _, _, _; (split; reflexivity). }
    destruct Hcons as (i0 & ib0 & y0 & bl0 & Eib & Ebl). rewrite Eib, Ebl in *.
    destruct (box_popped s1 _ k i0 il ib0 y0 rl bl0 V1) as (l' & -> & V2 & Hc0 & HM0 & Hout0 & Hw0 & Hge). cbn [mbind option_bind].
    exists (fun j => j = i0). split; [|intros j Hj; apply Hmore in Hj; unfold kept in *; rewrite elem_of_cons in *; tauto].
    apply (goesOn_trans s1 _ k k il il (i0 :: ib0) ib0 rl bl0 _ _ V2); [reflexivity|lia|congruence|]. exists (fun j => j = i0).
    split; [now apply (stack_goesOn ans y0 i0 _ k il ib0 rl bl0)|]. intros j Hj. unfold kept in *. rewrite elem_of_cons in *. tauto.
Qed.

(** ** Packets from the network *)

(** The item that a packet of the sender becomes. *)
Lemma data_input_ok ans y fl x i num s k il ib rl bl : Inv s (recvBox s) k il ib rl bl -> pushed ans = true -> stream !! i = Some x ->
  (if FILLP_PKT_GET_DAT_WITH_OPTION fl then optionsRead x (body y) else dataOptLen x = 0 /\ body y = body x) ->
  M (skipListNode y) -> skipListNode y ∉ map skipListNode rl ++ map skipListNode bl -> Z.abs (pos (S i) - pos k) < 1073741824 -> k ∉ il ->
  (cached = false -> ib = []) -> (cached = true -> Forall2 (fun j y => pktNum y = num -> j = i) ib bl) ->
  goesOn s k il ib (FillpDataInput cfg ans (mkHead fl (dataLen x) num (seqNum x)) y s) (fun j => j = i /\ pos (S i) <= pos k + W).
Proof.
  intros V Hp Ex Hopt HM Hout Hnear Hk Hb Hnum. destruct (stream_ok i x Ex) as (Hs & _ & Eq). pose proof (sb_len _ Hs) as Hl. pose proof (sb_data _ Hs) as Hd. pose proof (sb_opt _ Hs) as Ho.
  unfold FillpDataInput. cbn [hPktNum hSeqNum hDataLen flag].
  set (it := y <| pktNum := num |> <| seqNum := seqNum x |> <| dataLen := dataLen x |>). change (seqNum it) with (seqNum x).
  rewrite Eq, (v_seq _ _ _ _ _ _ _ V), (v_cache _ _ _ _ _ _ _ V), u32_add_u32, bigger_pos by (unfold in_s32; lia).
  destruct (Z.ltb_spec (pos k + W) (pos (S i))) as [|Htop].
  { apply (goesOn_same s k il ib rl bl _ V Hk). intros j [_ ?]. lia. }
  assert (Hpay : forall it', seqNum it' = seqNum x -> dataLen it' = dataLen x -> dataOptLen it' = dataOptLen x -> length (body it') = length (body x) ->
      drop (Z.to_nat (dataOptLen x)) (body it') = drop (Z.to_nat (dataOptLen x)) (body x) -> skipListNode it' = skipListNode y -> pktNum it' = num ->
      goesOn s k il ib (FillpProcessItemData cfg ans it' s) (fun j => j = i /\ pos (S i) <= pos k + W)).
  { intros it' E1 E2 E3 E4 E5 E6 E7. assert (Hc : copy i it') by (exists x; split; [exact Ex|]; split; [exact E1|split; [exact E2|unfold payload; now rewrite E2, E3, E5]]).
    destruct (process_ok ans it' i s k il ib rl bl) as (s' & k' & il' & ib' & rl' & bl' & E & V' & Ec & Hkk & Hk' & Hj & Hb'); try assumption;
      [unfold bufLen in *; rewrite E2, E3, E4; lia|now rewrite E6|now rewrite E6|unfold in_s32; lia|now rewrite E7|].
    exists s', k', il', ib', rl', bl'. repeat (split; [assumption|]). split; [|assumption]. intros j [Hj'|[Hj' _]]; apply Hj; tauto. }
  destruct (FILLP_PKT_GET_DAT_WITH_OPTION fl).
  - destruct (Hopt (frameMem ans) it eq_refl) as (it' & -> & F1 & F2 & F3 & F4 & F5 & F6 & F7). cbn [mbind option_bind negb Z.eqb ERR_OK SkipList.ERR_OK].
    now apply Hpay.
  - destruct Hopt as [E0 Eb]. apply Hpay; try reflexivity; cbn; rewrite ?Eb, ?E0; reflexivity.
Qed.

Definition connected (s : FillpRecvPcb (L := L)) : Prop := connState s = CONN_STATE_CONNECTED \/ connState s = CONN_STATE_CLOSING.

Lemma pcb_item_ok ans y fl x i num s k il ib rl bl b : Inv s (recvBox s) k il ib rl bl -> pushed ans = true -> stream !! i = Some x -> length b = length (body x) ->
  (if FILLP_PKT_GET_DAT_WITH_OPTION fl then optionsRead x b else dataOptLen x = 0 /\ b = body x) ->
  M (skipListNode y) -> skipListNode y ∉ map skipListNode rl ++ map skipListNode bl -> Z.abs (pos (S i) - pos k) < 1073741824 -> k ∉ il ->
  (cached = false -> ib = []) -> (cached = true -> Forall2 (fun j y => pktNum y = num -> j = i) ib bl) ->
  goesOn s k il ib (ProcessPcbItem cfg ans (mkHead fl (dataLen x) num (seqNum x)) b (Some y) s) (fun j => j = i /\ pos (S i) <= pos k + W).
Proof.
  intros V Hp Ex Hb Hopt HM Hout Hnear Hk Hc Hnum. destruct (stream_ok i x Ex) as (_ & Hfit & _). unfold ProcessPcbItem. rewrite Hb. unfold bufLen in Hfit.
  assert (Em : memcpy_s (pktSize cfg + FILLP_HLEN) (Z.of_nat (length (body x)) + FILLP_HLEN) = true) by (apply memcpy_s_spec; unfold FILLP_HLEN; lia).
  rewrite Em. cbn [negb]. now apply (data_input_ok ans _ fl x i num s k il ib rl bl).
Qed.

(** The last item of the list makes room. *)
Lemma inv_tail_dropped s d k il ib rl bl y : Inv s d k il ib rl bl -> last rl = Some y ->
  exists l rl0 il0, ilPopTail (recvList s) = Some (Some y, l) /\ Inv (s <| recvList := l |>) d k il0 ib rl0 bl /\ M (skipListNode y) /\
    skipListNode y ∉ map skipListNode rl0 ++ map skipListNode bl /\ (k ∉ il -> k ∉ il0).
Proof.
  intros V Hlast. destruct (ilPopTail_law _ _ (v_rl _ _ _ _ _ _ _ V)) as (l & E & Hl & Hmem). rewrite Hlast in E.
  apply last_Some in Hlast as (rl0 & ->). rewrite length_app in Hl. replace (length rl0 + length [y] - 1)%nat with (length rl0) in Hl by (cbn; lia). rewrite take_app_length in Hl.
  pose proof (v_il _ _ _ _ _ _ _ V) as Hc. apply Forall2_app_inv_r in Hc as (il0 & il1 & Hc0 & Hc1 & ->).
  pose proof (v_nodes _ _ _ _ _ _ _ V) as Hn. rewrite map_app in Hn. cbn in Hn.
  assert (Hp : Permutation ((map skipListNode rl0 ++ [skipListNode y]) ++ map skipListNode bl) (skipListNode y :: map skipListNode rl0 ++ map skipListNode bl)).
  { rewrite <- app_assoc. cbn. symmetry. apply Permutation_middle. }
  rewrite Hp in Hn. apply NoDup_cons in Hn as [Hout Hn]. pose proof (v_own _ _ _ _ _ _ _ V) as Ho. rewrite !Forall_app in Ho. destruct Ho as [[Ho0 Ho1] Ho2].
  apply Forall_cons in Ho1 as [HM _].
  exists l, rl0, il0. split; [exact E|]. split; [|split; [exact HM|split; [exact Hout|intros Hk ?; apply Hk, elem_of_app; now left]]].
  split; try apply V; try assumption.
  - pose proof (v_sl _ _ _ _ _ _ _ V) as Hs. clear -Hs. induction il0 as [|i il0 IH]; [constructor|]. cbn in Hs. inversion Hs as [|? ? H1 H2]; subst. constructor; [auto|].
    now apply Forall_app in H2 as [H2 _].
  - pose proof (v_wl _ _ _ _ _ _ _ V) as Hw. now apply Forall_app in Hw as [Hw _].
  - intros a Ha. destruct (v_mem _ _ _ _ _ _ _ V a Ha). split; [cbn; auto|assumption].
  - apply Forall_app. now split.
Qed.

Lemma hdl_data_ok ans alloc more alloc' fl x i num s k il ib rl bl b (buf := match alloc with None => if 0 <? more then alloc' else None | Some _ => alloc end) :
  Inv s (recvBox s) k il ib rl bl -> pushed ans = true -> stream !! i = Some x -> length b = length (body x) ->
  (if FILLP_PKT_GET_DAT_WITH_OPTION fl then optionsRead x b else dataOptLen x = 0 /\ b = body x) ->
  (forall a, buf = Some a -> M a /\ a ∉ map skipListNode rl ++ map skipListNode bl) -> Z.abs (pos (S i) - pos k) < 1073741824 -> k ∉ il ->
  (cached = false -> ib = []) -> (cached = true -> Forall2 (fun j y => pktNum y = num -> j = i) ib bl) ->
  exists il0, (is_Some buf -> il0 = il) /\
    goesOn s k il0 ib (FillpHdlDataInput cfg ans alloc more alloc' (mkHead fl (dataLen x) num (seqNum x)) b s)
      (fun j => j = i /\ pos (S i) <= pos k + W /\ is_Some buf /\ connected s).
Proof.
  intros V Hp Ex Hb Hopt Hfresh Hnear Hk Hc Hnum. unfold FillpHdlDataInput. fold buf.
  destruct (negb (connState s =? CONN_STATE_CLOSING) && negb (connState s =? CONN_STATE_CONNECTED)) eqn:Econ.
  { exists il. split; [auto|]. apply (goesOn_same s k il ib rl bl _ V Hk). intros j (_ & _ & _ & [E|E]); rewrite E in Econ; discriminate. }
  assert (Hweak : forall s1 il0 o, goesOn s1 k il0 ib o (fun j => j = i /\ pos (S i) <= pos k + W) -> connState s1 = connState s ->
    goesOn s k il0 ib o (fun j => j = i /\ pos (S i) <= pos k + W /\ is_Some buf /\ connected s)).
  { intros s1 il0 o (s' & k' & il' & ib' & rl' & bl' & E & V' & Ec & Hkk & Hk' & Hj & Hb') Ec1. exists s', k', il', ib', rl', bl'.
    repeat (split; [first [assumption|congruence]|]). split; [intros j [?|(? & ? & _)]; apply Hj; tauto|assumption]. }
  destruct buf as [a|] eqn:Ebuf.
  - exists il. split; [auto|]. apply (Hweak s); [|reflexivity]. destruct (Hfresh a eq_refl). now apply (pcb_item_ok ans (poolItem a) fl x i num s k il ib rl bl b).
  - rewrite (ilLast_law _ _ (v_rl _ _ _ _ _ _ _ V)). cbn [mbind option_bind].
    assert (Hnone : exists il0, (is_Some (@None nat) -> il0 = il) /\ goesOn s k il0 ib (Some s) (fun j => j = i /\ pos (S i) <= pos k + W /\ is_Some (@None nat) /\ connected s)).
    { exists il. split; [auto|]. apply (goesOn_same s k il ib rl bl _ V Hk). intros j (_ & _ & [? ?] & _). discriminate. }
    destruct (last rl) as [y|] eqn:Elast; [|exact Hnone]. destruct (FillpNumIsbigger (seqNum y) _ && _); [|exact Hnone].
    destruct (inv_tail_dropped s _ k il ib rl bl y V Elast) as (l & rl0 & il0 & -> & V1 & HM & Hout & Hk0). cbn [mbind option_bind].
    exists il0. split; [intros [? ?]; discriminate|].
    set (s1 := FillpSendNack ans (u32 (pktNum y - 1)) (u32 (pktNum y + 1)) (s <| recvList := l |>)).
    assert (V2 : Inv s1 (recvBox s1) k il0 ib rl0 bl).
    { unfold s1, FillpSendNack. destruct (nackMem ans); [|exact V1]. apply (inv_ext (s <| recvList := l |>)); try reflexivity; [|exact V1].
      split; [reflexivity|right]. eexists _, _. reflexivity. }
    apply (Hweak s1); [|unfold s1, FillpSendNack; now destruct (nackMem ans)]. apply (pcb_item_ok ans y fl x i num s1 k il0 ib rl0 bl b); try assumption. now apply Hk0.
Qed.

(** A packet of the sender. *)
Lemma do_input_ok ans alloc more alloc' now num x i s k il ib rl bl (buf := match alloc with None => if 0 <? more then alloc' else None | Some _ => alloc end) :
  Inv s (recvBox s) k il ib rl bl -> pushed ans = true -> stream !! i = Some x ->
  (forall a, buf = Some a -> M a /\ a ∉ map skipListNode rl ++ map skipListNode bl) -> Z.abs (pos (S i) - pos k) < 1073741824 -> k ∉ il ->
  (cached = false -> ib = []) -> (cached = true -> Forall2 (fun j y => pktNum y = u32 (num + 1) -> j = i) ib bl) ->
  exists x' pkt il0, FillpBuildDataPkt now num x = Some (u32 (num + 1), x', pkt) /\ (is_Some buf -> il0 = il) /\
    goesOn s k il0 ib (FillpDoInput cfg ans alloc more alloc' pkt s) (fun j => j = i /\ pos (S i) <= pos k + W /\ is_Some buf /\ connected s).
Proof.
  intros V Hp Ex Hfresh Hnear Hk Hc Hnum. destruct (stream_ok i x Ex) as (Hs & Hfit & _). pose proof (sb_len _ Hs) as Hl. pose proof (sb_data _ Hs) as Hd. pose proof (sb_opt _ Hs) as Ho.
  destruct (packet_roundtrip now num x Hs) as (x' & pkt & fl & Eb & Eh & Et & Elen & Hopt).
  destruct (hdl_data_ok ans alloc more alloc' fl x i (u32 (num + 1)) s k il ib rl bl (drop 12 pkt)) as (il0 & Hil0 & Hgo); try assumption.
  { rewrite length_drop. lia. }
  exists x', pkt, il0. split; [exact Eb|]. split; [exact Hil0|]. unfold FillpDoInput. rewrite Eh. cbn [mbind option_bind hDataLen flag].
  unfold bufLen, FILLP_HLEN in *. rewrite Elen. destruct (Z.ltb_spec (pktSize cfg) (Z.of_nat (12 + length (body x)) - 12)); [lia|].
  assert (0 <= dataOptLen x) by (rewrite Ho; destruct (_ =? 0); [lia|]; unfold optionBytes; do 2 destruct (UTILS_FLAGS_CHECK _ _); lia).
  destruct (Z.ltb_spec (Z.of_nat (12 + length (body x)) - 12) (dataLen x)); [lia|]. rewrite Et, Z.eqb_refl. exact Hgo.
Qed.

(** ** Timers *)

Lemma push_loop_ok ans fuel : pushed ans = true -> forall s k il ib rl bl, Inv s (recvBox s) k il ib rl bl -> k ∉ il -> (length ib < fuel)%nat ->
  exists s' k' il' rl', pushLoop cfg fuel ans s = Some s' /\ Inv s' (recvBox s') k' il' [] rl' [] /\ connState s' = connState s /\ (k <= k')%nat /\ k' ∉ il' /\
    (forall j, kept k il ib j -> kept k' il' [] j).
Proof.
  intros Hp. induction fuel as [|fuel IH]; intros s k il ib rl bl V Hk Hf; [lia|]. cbn [pushLoop].
  destruct ib as [|i ib]; destruct bl as [|y bl]; try (pose proof (v_ib _ _ _ _ _ _ _ V) as Hc; inversion Hc; fail).
  - destruct (ilPop_law _ _ (v_bl _ _ _ _ _ _ _ V)) as (l & -> & Hl & Hmem). cbn [mbind option_bind lookup list_lookup] in *.
    exists (s <| recvBoxPlaceInOrder := l |>), k, il, rl. split; [reflexivity|]. split; [|split; [reflexivity|split; [lia|split; [exact Hk|auto]]]].
    split; try apply V; try assumption. intros a Ha. destruct (v_mem _ _ _ _ _ _ _ V a Ha). split; [assumption|cbn; auto].
  - destruct (box_popped s _ k i il ib y rl bl V) as (l & -> & V1 & Hc & HM & Hout & Hw & Hge). cbn [mbind option_bind].
    destruct (data_to_stack_ok ans y i _ k il ib rl bl V1 Hp Hc HM Hout Hw Hk Hge) as (s2 & k2 & il2 & rl2 & -> & V2 & [R1 _] & Hkk & Hk2 & Hj & Hi). cbn [mbind option_bind].
    destruct (IH s2 k2 il2 ib rl2 bl V2 Hk2) as (s3 & k3 & il3 & rl3 & E & V3 & Ec & Hkk3 & Hk3 & Hj3); [cbn in Hf; lia|].
    exists s3, k3, il3, rl3. split; [exact E|]. split; [exact V3|]. split; [rewrite Ec, R1; reflexivity|]. split; [lia|]. split; [exact Hk3|].
    intros j Hkj. apply Hj3. unfold kept in *. rewrite elem_of_cons in Hkj. destruct Hkj as [Hkj|[Hkj|[-> |Hkj]]]; [left; lia| |tauto|tauto]. destruct (Hj j Hkj); tauto.
Qed.

Lemma push_ok ans s k il ib rl bl : pushed ans = true -> Inv s (recvBox s) k il ib rl bl -> k ∉ il ->
  exists s' k' il' rl', SpungePushRecvdDataToStack cfg ans s = Some s' /\ Inv s' (recvBox s') k' il' [] rl' [] /\ connState s' = connState s /\ (k <= k')%nat /\ k' ∉ il' /\
    (forall j, kept k il ib j -> kept k' il' [] j).
Proof.
  intros Hp V Hk. unfold SpungePushRecvdDataToStack. pose proof (Forall2_length _ _ _ (v_ib _ _ _ _ _ _ _ V)) as El.
  pose proof (window_count ib (v_sb _ _ _ _ _ _ _ V) (copies_index _ _ (v_ib _ _ _ _ _ _ _ V)) (pos k - W) (pos k + W) ltac:(lia) (v_wb _ _ _ _ _ _ _ V)) as Hcnt.
  rewrite (ilNum_law _ _ (v_bl _ _ _ _ _ _ _ V)), <- El, u32_small by (unfold in_u32; lia). apply (push_loop_ok ans _ Hp s k il ib rl bl V Hk). rewrite Nat2Z.id. lia.
Qed.

Lemma sendNackList_ok ans l : forall s d k il ib rl bl, Inv s d k il ib rl bl -> Inv (sendNackList ans l s) d k il ib rl bl /\
  recvBox (sendNackList ans l s) = recvBox s /\ connState (sendNackList ans l s) = connState s.
Proof.
  induction l as [|n l IH]; intros s d k il ib rl bl V; cbn [sendNackList]; [split; [exact V|now split]|]. destruct (_ <? _); [|split; [exact V|now split]].
  set (s1 := (FillpSendNack ans (startPktNum n) (endPktNum n) s) <| nackList := l |>).
  assert (E : recvBox s1 = recvBox s /\ connState s1 = connState s) by (unfold s1, FillpSendNack; destruct (nackMem ans); now split). destruct E as [<- <-].
  apply IH. apply (inv_ext s); unfold s1, FillpSendNack; destruct (nackMem ans); try reflexivity; try exact V; [|now apply sentBack_refl].
  split; [reflexivity|right]. eexists _, _. reflexivity.
Qed.

(** ** Runs of a connection *)

(** A packet of item [i], built at [now] as packet [num + 1], with the answers of the pool; the
    timers; an acknowledgement. *)
Inductive Event :=
  | EvData (i : nat) (now num : Z) (alloc : option nat) (more : Z) (alloc' : option nat) (ans : Answers)
  | EvBurst (ans : Answers)
  | EvNacks (ans : Answers)
  | EvPack.

Definition exec (ev : Event) (s : FillpRecvPcb (L := L)) : option (FillpRecvPcb (L := L)) :=
  match ev with
  | EvData i now num alloc more alloc' ans =>
      x ← stream !! i; '(_, _, pkt) ← FillpBuildDataPkt now num x; FillpDoInput cfg ans alloc more alloc' pkt s
  | EvBurst ans => SpungePushRecvdDataToStack cfg ans s
  | EvNacks ans => Some (FillpCheckPcbNackListToSend ans s)
  | EvPack => FillpSendPack s
  end.

Fixpoint execs (evs : list Event) (s : FillpRecvPcb (L := L)) : option (FillpRecvPcb (L := L)) :=
  match evs with [] => Some s | ev :: evs => s ← exec ev s; execs evs s end.

Definition buffer (alloc : option nat) (more : Z) (alloc' : option nat) : option nat :=
  match alloc with None => if 0 <? more then alloc' else None | Some _ => alloc end.

Definition heldNodes (s : FillpRecvPcb (L := L)) : list nat :=
  map skipListNode (ilItems (recvList s)) ++ map skipListNode (ilItems (recvBoxPlaceInOrder s)).

(** The network loses, repeats and reorders packets; a packet that arrives is not half the range of
    the numbers away from the data delivered.  The pool hands out items that are not in use, and
    the queue to the application has room for the items of the pool.  Packets with one number in
    the reorder cache are copies of one packet. *)
Definition legal (s : FillpRecvPcb (L := L)) (ev : Event) : Prop :=
  match ev with
  | EvData i now num alloc more alloc' ans =>
      (i < length stream)%nat /\ Z.abs (pos (S i) - pos (length (recvBox s))) < 1073741824 /\ pushed ans = true /\
      from_option (fun a => M a /\ a ∉ heldNodes s) True (buffer alloc more alloc') /\
      Forall (fun y => pktNum y = u32 (num + 1) -> Some (seqNum y) = seqNum <$> stream !! i) (ilItems (recvBoxPlaceInOrder s))
  | EvBurst ans => pushed ans = true
  | EvNacks _ | EvPack => True
  end.

(** A connection before the first packet. *)
Record started (s : FillpRecvPcb (L := L)) : Prop := {
  st_seq : rSeqNum s = u32 base;
  st_cache : pktRecvCache s = W;
  st_box : recvBox s = [];
  st_rl : ilHolds (recvList s) [];
  st_bl : ilHolds (recvBoxPlaceInOrder s) [];
  st_mem : forall a, M a -> ilMemory (recvList s) a /\ ilMemory (recvBoxPlaceInOrder s) a;
  st_back : packs s = [] /\ nacks s = []
}.

Inductive reachable : FillpRecvPcb (L := L) -> Prop :=
  | reach_start s : started s -> reachable s
  | reach_step s ev s' : reachable s -> legal s ev -> exec ev s = Some s' -> reachable s'.

(** The connection between two events. *)
Definition Rest (s : FillpRecvPcb (L := L)) (k : nat) (il ib : list nat) : Prop :=
  k ∉ il /\ (cached = false -> ib = []) /\ exists rl bl, Inv s (recvBox s) k il ib rl bl.

Lemma delivered_count s d k il ib rl bl : Inv s d k il ib rl bl -> length d = k.
Proof. intros V. rewrite <- (Forall2_length _ _ _ (v_done _ _ _ _ _ _ _ V)), length_take. pose proof (v_len _ _ _ _ _ _ _ V). lia. Qed.

Lemma started_rest s : started s -> Rest s 0 [] [].
Proof.
  intros S. split; [apply not_elem_of_nil|]. split; [done|]. exists [], []. destruct (st_back s S) as [E1 E2].
  assert (Ep : rSeqNum s = u32 (pos 0)) by (rewrite (st_seq s S); unfold pos; cbn; now rewrite Z.add_0_r).
  rewrite (st_box s S). split; try apply S; try (now constructor); [exact Ep|lia|]. split; [rewrite E1|rewrite E2]; constructor.
Qed.

(** The event is a packet that is not refused. *)
Definition brings (s : FillpRecvPcb (L := L)) (ev : Event) (j : nat) : Prop :=
  match ev with EvData i _ _ _ _ _ _ => j = i /\ pos (S i) <= pos (length (recvBox s)) + W /\ connected s | _ => False end.
Definition withMemory (ev : Event) : Prop :=
  match ev with EvData _ _ _ alloc more alloc' _ => is_Some (buffer alloc more alloc') | _ => True end.
Definition isBurst (ev : Event) : bool := match ev with EvBurst _ => true | _ => false end.

Lemma network_event_ok s k il ib ev : Rest s k il ib -> legal s ev -> exists s' k' il' ib', exec ev s = Some s' /\ Rest s' k' il' ib' /\ connState s' = connState s /\ (k <= k')%nat /\
  (withMemory ev -> forall j, kept k il ib j \/ brings s ev j -> kept k' il' ib' j) /\ (isBurst ev = true -> ib' = []).
Proof.
  intros (Hk & Hc & rl & bl & V) Hl. pose proof (delivered_count _ _ _ _ _ _ _ V) as Ek. destruct ev as [i now num alloc more alloc' ans|ans|ans|]; cbn [exec legal brings withMemory isBurst] in *.
  - destruct Hl as (Hi & Hnear & Hp & Hfresh & Hnum). destruct (lookup_lt_is_Some_2 stream i Hi) as [x Ex]. rewrite Ek in *.
    unfold heldNodes in Hfresh. rewrite (ilItems_law _ _ (v_rl _ _ _ _ _ _ _ V)), (ilItems_law _ _ (v_bl _ _ _ _ _ _ _ V)) in Hfresh. fold (buffer alloc more alloc') in *.
    rewrite (ilItems_law _ _ (v_bl _ _ _ _ _ _ _ V)), Ex in Hnum. cbn in Hnum.
    destruct (do_input_ok ans alloc more alloc' now num x i s k il ib rl bl) as (x' & pkt & il0 & Eb & Hil & s' & k' & il' & ib' & rl' & bl' & E & V' & Ec & Hkk & Hk' & Hj & Hb');
      try assumption.
    { intros a Ea. fold (buffer alloc more alloc') in Ea. rewrite Ea in Hfresh. exact Hfresh. }
    { intros _. pose proof (v_wb _ _ _ _ _ _ _ V) as Hw. pose proof (v_ib _ _ _ _ _ _ _ V) as Hcp. clear -Hcp Hnum Hw Hnear Ex stream_ok window_ok.
      induction Hcp as [|j y ib bl Hy Hcp IH]; [constructor|]. apply Forall_cons in Hnum as [Hn Hnum], Hw as [Hw Hw']. constructor; [|auto].
      intros E. specialize (Hn E). injection Hn as Hn. assert (Hx : copy i x) by (exists x; split; [exact Ex|]; now repeat split).
      destruct (compare_positions j i y x Hy Hx) as [Heq _]; [unfold in_s32; lia|]. rewrite Hn, Z.eqb_refl in Heq. symmetry in Heq. now apply Nat.eqb_eq. }
    rewrite Ex. cbn [mbind option_bind]. rewrite Eb. cbn [mbind option_bind]. exists s', k', il', ib'. split; [exact E|].
    split; [split; [exact Hk'|split; [intros C; now apply Hb', Hc|now exists rl', bl']]|]. split; [exact Ec|]. split; [exact Hkk|]. split; [|done].
    intros Hm j Hj'. rewrite (Hil Hm) in Hj. apply Hj. tauto.
  - destruct (push_ok ans s k il ib rl bl Hl V Hk) as (s' & k' & il' & rl' & E & V' & Ec & Hkk & Hk' & Hj). exists s', k', il', []. split; [exact E|].
    split; [split; [exact Hk'|split; [done|now exists rl', []]]|]. split; [exact Ec|]. split; [exact Hkk|]. split; [|done]. intros _ j [?|[]]. auto.
  - destruct (sendNackList_ok ans (nackList s) s _ k il ib rl bl V) as (V' & Eb & Ec). eexists _, k, il, ib. split; [reflexivity|]. unfold FillpCheckPcbNackListToSend.
    split; [split; [exact Hk|split; [exact Hc|exists rl, bl; now rewrite Eb]]|]. split; [exact Ec|]. split; [lia|]. split; [|done]. intros _ j [?|[]]. assumption.
  - unfold FillpSendPack. rewrite (ilFirst_law _ _ (v_rl _ _ _ _ _ _ _ V)). cbn [mbind option_bind]. eexists _, k, il, ib. split; [reflexivity|].
    split; [split; [exact Hk|split; [exact Hc|exists rl, bl]]|].
    + destruct (v_back _ _ _ _ _ _ _ V) as [B1 B2]. split; try apply V. split; [|exact B2]. cbn. apply Forall_app. split; [exact B1|].
      constructor; [|constructor]. exists k. split; [lia|apply V].
    + split; [reflexivity|]. split; [lia|]. split; [|done]. intros _ j [?|[]]. assumption.
Qed.

Lemma reachable_rest s : reachable s -> exists k il ib, Rest s k il ib.
Proof.
  induction 1 as [s S|s ev s' _ (k & il & ib & R) Hl E]; [exists 0%nat, [], []; now apply started_rest|].
  destruct (network_event_ok s k il ib ev R Hl) as (s1 & k' & il' & ib' & E1 & R' & _). rewrite E in E1. injection E1 as <-. eauto.
Qed.

Lemma copies_payload l d : Forall2 copyOf l d -> map payload d = map payload l.
Proof. induction 1 as [|x y l d (_ & _ & E) _ IH]; [reflexivity|]. cbn. now rewrite E, IH. Qed.

(** C4: Data arrives in order.  Whatever packets of the sender's stream the network delivers, in
    which order and how often, and whether or not the receiver has memory for them, the application
    gets exactly the payloads of the first [k] items of the stream, for some [k]; the number up to
    which data was received is the end of these items; every acknowledgement and every report of
    missing packets that was sent names the end of items the application has got; and the next
    event is handled without an access outside of a packet or a list. *)
Theorem fillp_stream_in_order s : reachable s -> exists k, (k <= length stream)%nat /\ map payload (recvBox s) = map payload (take k stream) /\ rSeqNum s = u32 (pos k) /\
  Forall (fun p => acked k (packSeqNum p)) (packs s) /\ Forall (fun p => acked k (nackSeqNum p)) (nacks s) /\
  forall ev, legal s ev -> exists s', exec ev s = Some s' /\ reachable s'.
Proof.
  intros Hr. destruct (reachable_rest s Hr) as (k & il & ib & R). pose proof R as (_ & _ & rl & bl & V). exists k. split; [apply V|].
  split; [apply copies_payload, V|]. split; [apply V|]. destruct (v_back _ _ _ _ _ _ _ V) as [B1 B2]. split; [exact B1|]. split; [exact B2|].
  intros ev Hl. destruct (network_event_ok s k il ib ev R Hl) as (s' & _ & _ & _ & E & _). exists s'. split; [exact E|]. now apply (reach_step s ev).
Qed.

(** ** Completeness *)

Fixpoint legalRun (evs : list Event) (s : FillpRecvPcb (L := L)) : Prop :=
  match evs with [] => True | ev :: evs => legal s ev /\ match exec ev s with Some s' => legalRun evs s' | None => True end end.

(** Packet [j] is brought by one of the events. *)
Fixpoint broughtIn (evs : list Event) (s : FillpRecvPcb (L := L)) (j : nat) : Prop :=
  match evs with [] => False | ev :: evs => brings s ev j \/ match exec ev s with Some s' => broughtIn evs s' j | None => False end end.

Lemma network_events_ok evs : forall s k il ib, Rest s k il ib -> legalRun evs s -> Forall withMemory evs ->
  exists s' k' il' ib', execs evs s = Some s' /\ Rest s' k' il' ib' /\ (forall j, kept k il ib j \/ broughtIn evs s j -> kept k' il' ib' j).
Proof.
  induction evs as [|ev evs IH]; intros s k il ib R Hl Hm; cbn [execs legalRun broughtIn] in *; [exists s, k, il, ib; split; [reflexivity|]; split; [exact R|]; intros j [?|[]]; assumption|].
  destruct Hl as [Hl Hls]. apply Forall_cons in Hm as [Hm Hms]. destruct (network_event_ok s k il ib ev R Hl) as (s1 & k1 & il1 & ib1 & E & R1 & _ & _ & Hj & _).
  rewrite E in *. cbn [mbind option_bind]. destruct (IH s1 k1 il1 ib1 R1 Hls Hms) as (s2 & k2 & il2 & ib2 & E2 & R2 & Hj2).
  exists s2, k2, il2, ib2. split; [exact E2|]. split; [exact R2|]. intros j [Hkj|[Hkj|Hkj]]; apply Hj2; [left; apply Hj; tauto|left; apply Hj; tauto|now right].
Qed.

Lemma run_reachable evs : forall s s', reachable s -> legalRun evs s -> execs evs s = Some s' -> reachable s'.
Proof.
  induction evs as [|ev evs IH]; intros s s' Hr Hl E; cbn [execs legalRun] in *; [now injection E as <-|]. destruct Hl as [Hl Hls].
  destruct (exec ev s) as [s1|] eqn:E1; [|discriminate]. apply (IH s1 s'); [now apply (reach_step s ev)|exact Hls|exact E].
Qed.

(** These conditions can be computed. *)
Section Decide.
Context `{forall a, Decision (M a)}.

#[export] Instance legal_dec s ev : Decision (legal s ev).
Proof.
  destruct ev as [i now num alloc more alloc' ans|ans|ans|]; cbn [legal]; try apply _.
  apply and_dec; [apply _|]. apply and_dec; [apply _|]. apply and_dec; [apply _|]. apply and_dec; [|apply _].
  destruct (buffer alloc more alloc'); cbn; apply _.
Defined.

#[export] Instance legalRun_dec evs : forall s, Decision (legalRun evs s).
Proof. induction evs as [|ev evs IH]; intros s; cbn; [apply _|]. apply and_dec; [apply _|]. destruct (exec ev s); [apply IH|apply _]. Defined.

#[export] Instance brings_dec s ev j : Decision (brings s ev j).
Proof. destruct ev; cbn; unfold connected; apply _. Defined.

#[export] Instance broughtIn_dec evs : forall s j, Decision (broughtIn evs s j).
Proof. induction evs as [|ev evs IH]; intros s j; cbn; [apply _|]. apply or_dec; [apply _|]. destruct (exec ev s); [apply IH|apply _]. Defined.
End Decide.

(** C10: Data that arrives is delivered.  From any state of the connection, if the packets of the
    first [n] items that are missing arrive, in any order and among any other packets and timer
    events, each inside the window and with memory for it, then after the reorder cache has been
    emptied the application has got at least the first [n] items. *)
Theorem fillp_stream_complete s evs ans n : reachable s -> legalRun evs s -> Forall withMemory evs -> pushed ans = true -> (n <= length stream)%nat ->
  (forall j, (length (recvBox s) <= j < n)%nat -> broughtIn evs s j) ->
  exists s' k, execs (evs ++ [EvBurst ans]) s = Some s' /\ (n <= k)%nat /\ map payload (recvBox s') = map payload (take k stream).
Proof.
  intros Hr Hl Hm Hp Hn Hall. destruct (reachable_rest s Hr) as (k & il & ib & R). pose proof R as (_ & _ & rl0 & bl0 & V0). rewrite (delivered_count _ _ _ _ _ _ _ V0) in Hall.
  destruct (network_events_ok evs s k il ib R Hl Hm) as (s1 & k1 & il1 & ib1 & E1 & R1 & Hj1).
  destruct (network_event_ok s1 k1 il1 ib1 (EvBurst ans) R1 Hp) as (s2 & k2 & il2 & ib2 & E2 & (Hk2 & _ & rl & bl & V) & _ & _ & Hj2 & Hb). rewrite (Hb eq_refl) in *.
  exists s2, k2. split; [clear -E1 E2; revert s E1; induction evs as [|ev evs IH]; intros s E1; cbn [execs app] in *; [injection E1 as ->; now rewrite E2|]; destruct (exec ev s); [|discriminate]; cbn [mbind option_bind] in *; auto|].
  split; [|apply copies_payload, V]. destruct (Nat.le_gt_cases n k2) as [|Hlt]; [done|exfalso].
  assert (Hkept : kept k2 il2 [] k2).
  { apply Hj2; [exact Logic.I|]. left. apply Hj1. destruct (Nat.lt_ge_cases k2 k); [left; now left|]. right. apply Hall. lia. }
  destruct Hkept as [?|[?|Hno]]; [lia|done|now apply not_elem_of_nil in Hno].
Qed.

End Stream.

(** ** A run *)

Module RecvDemo.

Definition list_ := SkipList.Store (I := FillpPcbItem).
Definition pool : list nat := [1; 2; 3; 4; 5; 6]%nat.
Definition M (a : nat) : Prop := a ∈ pool.
Definition base : Z := 4294967290.
Definition W : Z := 1000.

(** An item with a time stamp, one with a time stamp and a frame, one without options. *)
Definition bytes (n : nat) (z : Z) : list byte := replicate n (Zbyte z).
Definition item0 : FillpPcbItem := mkItem 11 4294967293 0 3 12 1 0 None (bytes 12 0 ++ bytes 3 65).
Definition item1 : FillpPcbItem := mkItem 12 2 0 5 28 3 0 (Some (mkFrameItem (mkFrame 1 7 0 2 99) 5)) (bytes 28 0 ++ bytes 5 66).
Definition item2 : FillpPcbItem := mkItem 13 4 0 2 0 0 0 None (bytes 2 67).
Definition stream : list FillpPcbItem := [item0; item1; item2].

Definition cfg (cache : bool) : Config := mkConfig cache (negb cache) 2 100 64.
Definition ans : Answers := mkAnswers true true true true 50.

Definition blank : SkipList.SkipListNode (I := FillpPcbItem) := SkipList.mkNode None SkipList.noNodes SkipList.noNodes 0.
Definition memory : list_ := SkipList.mkStore (list_to_map (map (fun a => (a, blank)) pool)) (SkipList.mkList None None [] [] 0 0 [] 0).
Definition bits : list Z := map Z.of_nat (seq 0 1024).
Definition empty : list_ := snd (SkipList.SkiplistInit bits memory).
Definition init : FillpRecvPcb (L := list_) := mkRecv empty empty [] [] base 0 base 0 W 0 CONN_STATE_CONNECTED [] [].

(** The last item arrives first, the first one twice, then the one between. *)
Definition evs : list Event :=
  [EvData 2 10 2 (Some 1%nat) 0 None ans; EvData 0 11 0 (Some 2%nat) 0 None ans; EvPack; EvData 0 12 0 (Some 3%nat) 0 None ans;
   EvData 1 13 1 None 3 (Some 4%nat) ans].

Lemma memory_node a n : SkipList.nodes memory !! a = Some n -> n = blank.
Proof.
  intros H. apply elem_of_list_to_map_2 in H. apply list_elem_of_fmap in H as (b & E & _). now injection E as -> ->.
Qed.

Lemma init_started : started base W M init.
Proof.
  assert (Hh : ilHolds empty []).
  { apply SkipList.init_den; [reflexivity|]. intros a n ->%memory_node. now split. }
  assert (Hm : forall a, M a -> ilMemory empty a).
  { intros a Ha. unfold M, pool in Ha. rewrite !elem_of_cons in Ha.
    destruct Ha as [-> |[-> |[-> |[-> |[-> |[-> |Ha]]]]]]; [vm_compute; eexists; reflexivity..|now apply not_elem_of_nil in Ha]. }
  split; try reflexivity; try exact Hh; [|now split]. intros a Ha. split; now apply Hm.
Qed.

Lemma stream_ok cache : streamOk (cfg cache) stream base.
Proof.
  intros i x E. destruct i as [|[|[|i]]]; cbn in E; [injection E as <-..|discriminate]; (split; [split; [reflexivity|cbn; lia|cbn; unfold in_u32; lia|reflexivity|try discriminate; now eexists]|split; [vm_compute; discriminate|reflexivity]]).
Qed.

End RecvDemo.

Lemma fillp_stream_in_order_witness : exists s, execs (RecvDemo.cfg true) RecvDemo.stream RecvDemo.evs RecvDemo.init = Some s /\ exists k, (k <= 3)%nat /\
  map payload (recvBox s) = map payload (take k RecvDemo.stream) /\ rSeqNum s = u32 (pos RecvDemo.stream RecvDemo.base k) /\
  Forall (fun p => acked RecvDemo.stream RecvDemo.base k (packSeqNum p)) (packs s) /\ Forall (fun p => acked RecvDemo.stream RecvDemo.base k (nackSeqNum p)) (nacks s) /\
  forall ev, legal RecvDemo.stream RecvDemo.base RecvDemo.M s ev ->
    exists s', exec (RecvDemo.cfg true) RecvDemo.stream ev s = Some s' /\ reachable (RecvDemo.cfg true) RecvDemo.stream RecvDemo.base RecvDemo.W RecvDemo.M s'.
Proof.
  destruct (execs (RecvDemo.cfg true) RecvDemo.stream RecvDemo.evs RecvDemo.init) as [s|] eqn:E; [|vm_compute in E; discriminate].
  exists s. split; [reflexivity|]. apply (fillp_stream_in_order (RecvDemo.cfg true) RecvDemo.stream RecvDemo.base RecvDemo.W RecvDemo.M).
  - apply RecvDemo.stream_ok.
  - unfold RecvDemo.W. lia.
  - apply (run_reachable (RecvDemo.cfg true) RecvDemo.stream RecvDemo.base RecvDemo.W RecvDemo.M RecvDemo.evs RecvDemo.init s); [apply reach_start, RecvDemo.init_started| |exact E].
    apply (bool_decide_unpack _). vm_compute. reflexivity.
Defined.

Lemma fillp_stream_complete_witness : exists s' k,
  execs (RecvDemo.cfg false) RecvDemo.stream (RecvDemo.evs ++ [EvBurst RecvDemo.ans]) RecvDemo.init = Some s' /\ (3 <= k)%nat /\
  map payload (recvBox s') = map payload (take k RecvDemo.stream).
Proof.
  apply (fillp_stream_complete (RecvDemo.cfg false) RecvDemo.stream RecvDemo.base RecvDemo.W RecvDemo.M).
  - apply RecvDemo.stream_ok.
  - unfold RecvDemo.W. lia.
  - apply reach_start, RecvDemo.init_started.
  - apply (bool_decide_unpack _). vm_compute. reflexivity.
  - repeat constructor; vm_compute; eexists; reflexivity.
  - reflexivity.
  - vm_compute. lia.
  - intros j Hj. assert (Hj' : j = 0%nat \/ j = 1%nat \/ j = 2%nat) by (cbn in Hj; lia).
    destruct Hj' as [-> |[-> | ->]]; apply (bool_decide_unpack _); vm_compute; reflexivity.
Defined.

(** ** Behaviour outside of the theorems *)

(** An item that makes room for another one is not taken off the count of waiting bytes. *)
Lemma replaced_item_counted : exists s, execs (RecvDemo.cfg false) RecvDemo.stream
    [EvData 2 10 2 (Some 1%nat) 0 None RecvDemo.ans; EvData 1 11 1 None 0 None RecvDemo.ans] RecvDemo.init = Some s /\
  map seqNum (ilItems (recvList s)) = [2] /\ map dataLen (ilItems (recvList s)) = [5] /\ recvBytes s = 7.
Proof. eexists. split; [vm_compute; reflexivity|]. vm_compute. auto. Qed.

(** Items for which the queue to the application has no room are lost, but acknowledged. *)
Lemma full_queue_loses_data : exists s, execs (RecvDemo.cfg false) RecvDemo.stream
    [EvData 0 10 0 (Some 1%nat) 0 None (mkAnswers true true true false 50); EvPack] RecvDemo.init = Some s /\
  recvBox s = [] /\ map packSeqNum (packs s) = [seqNum RecvDemo.item0].
Proof. eexists. split; [vm_compute; reflexivity|]. vm_compute. auto. Qed.

End FillpRecv.
