(* ===== verification/FillpNack.v ===== *)
(** * The list of missing packets of the fillp transport

    With delayed reports the receiver keeps the gaps between the packet numbers it
    has seen (FillBiggerItem, FillpCheckAndUpdateDelayNackList and
    FillpCheckPcbNackListToSend in FillpRecv.v).  The theorem says that the list
    always describes exactly the packets that are missing. *)

From S2P Require Import Prelude ErrorCode Bytes SkipList FillpItem FillpRecv.
From stdpp Require Import gmap list sorting.
#[local] Open Scope Z_scope.

Module FillpNack.
Import FillpItem FillpRecv.

(** A gap, by packet numbers without wrap-around: the packets strictly between. *)
Definition Gap : Type := Z * Z.
Definition inGap (q : Z) (g : Gap) : Prop := fst g < q < snd g.
Definition missing (gs : list Gap) (q : Z) : Prop := Exists (inGap q) gs.

Definition describes (g : Gap) (n : FillpNackNode) : Prop := startPktNum n = u32 (fst g) /\ endPktNum n = u32 (snd g).

(** Gaps in increasing order, from [lo] to [hi], none of them empty. *)
Fixpoint ordered (lo hi : Z) (gs : list Gap) : Prop :=
  match gs with [] => lo <= hi | (a, b) :: gs => lo <= a /\ a + 1 < b /\ ordered b hi gs end.

Lemma ordered_le lo hi gs : ordered lo hi gs -> lo <= hi.
Proof. revert lo. induction gs as [|[a b] gs IH]; intros lo; cbn; [done|]. intros (H1 & H2 & H3). apply IH in H3. lia. Qed.

Lemma ordered_weaken lo lo' hi gs : lo' <= lo -> ordered lo hi gs -> ordered lo' hi gs.
Proof. destruct gs as [|[a b] gs]; cbn; [lia|]. intros H (H1 & H2 & H3). split; [lia|]. now split. Qed.

Lemma not_missing_below lo hi gs q : ordered lo hi gs -> q <= lo -> ~ missing gs q.
Proof.
  revert lo. induction gs as [|[a b] gs IH]; intros lo H Hq; [intros Hm; inversion Hm|]. cbn in H. destruct H as (H1 & H2 & H3).
  intros Hm. apply Exists_cons in Hm as [Hm|Hm]; [unfold inGap in Hm; cbn in Hm; lia|]. revert Hm. apply (IH b); [exact H3|lia].
Qed.

Lemma not_missing_above lo hi gs q : ordered lo hi gs -> hi <= q -> ~ missing gs q.
Proof.
  revert lo. induction gs as [|[a b] gs IH]; intros lo H Hq; [intros Hm; inversion Hm|]. cbn in H. destruct H as (H1 & H2 & H3).
  intros Hm. apply Exists_cons in Hm as [Hm|Hm]; [unfold inGap in Hm; cbn in Hm; apply ordered_le in H3; lia|]. now apply (IH b H3 Hq).
Qed.

Lemma missing_cons g gs q : missing (g :: gs) q <-> inGap q g \/ missing gs q.
Proof. apply Exists_cons. Qed.

(** Equality of numbers, and of a number with its neighbours. *)
Lemma u32_eqb a b : in_s32 (a - b) -> (u32 a =? u32 b) = (a =? b).
Proof. intros H. destruct (Z.eqb_spec a b) as [-> |Hne]; [apply Z.eqb_refl|]. apply Z.eqb_neq. intros E. apply u32_inj in E; auto. Qed.
Lemma u32_eqb_sub a b c : in_s32 (a - (b - c)) -> (u32 a =? u32 (u32 b - c)) = (a =? b - c).
Proof. intros H. rewrite u32_sub_u32. now apply u32_eqb. Qed.

(** A packet of one gap. *)
Lemma split_gap a b p n (l : list FillpNackNode) gs hi : a < p < b -> describes (a, b) n -> Forall2 describes gs l -> ordered b hi gs -> b - a < 2147483648 ->
  exists gs', Forall2 describes gs' (if startPktNum n =? u32 (u32 p - 1) then
      if startPktNum n =? u32 (endPktNum n - FILLP_PACKET_INTER) then l else (n <| startPktNum := u32 p |>) :: l
    else if u32 p =? u32 (endPktNum n - 1) then (n <| endPktNum := u32 p |>) :: l
    else (n <| endPktNum := u32 p |>) :: mkNackNode (u32 p) (endPktNum n) (nTimestamp n) :: l) /\
    ordered a hi gs' /\ (forall q, missing gs' q <-> missing ((a, b) :: gs) q /\ q <> p) /\ (length gs' <= S (S (length gs)))%nat.
Proof.
  intros Hp [E1 E2] Hl Ho Hr. cbn in E1, E2. rewrite E1, E2. unfold FILLP_PACKET_INTER. rewrite !u32_eqb_sub by (unfold in_s32; lia).
  assert (Hg : forall q, missing gs q -> b < q).
  { intros q Hq. destruct (Z.lt_ge_cases b q); [done|]. now apply (not_missing_below b hi gs q Ho) in Hq. }
  destruct (Z.eqb_spec a (p - 1)) as [Ea|Ea]; [destruct (Z.eqb_spec a (b - 2)) as [Eb|Eb]|destruct (Z.eqb_spec p (b - 1)) as [Eb|Eb]].
  - exists gs. split; [exact Hl|]. split; [apply (ordered_weaken b); [lia|exact Ho]|]. split; [|lia]. intros q. rewrite missing_cons. unfold inGap. cbn.
    split; [intros Hm; split; [now right|specialize (Hg q Hm); lia]|]. intros [[Hm|Hm] Hne]; [lia|exact Hm].
  - exists ((p, b) :: gs). split; [constructor; [now split|exact Hl]|]. split; [cbn; split; [lia|split; [lia|exact Ho]]|]. split; [|cbn; lia].
    intros q. rewrite !missing_cons. unfold inGap. cbn. split; [intros [Hm|Hm]; [lia|specialize (Hg q Hm); split; [tauto|lia]]|]. intros [[Hm|Hm] Hne]; [left; lia|tauto].
  - exists ((a, p) :: gs). split; [constructor; [now split|exact Hl]|]. split; [cbn; split; [lia|split; [lia|apply (ordered_weaken b); [lia|exact Ho]]]|]. split; [|cbn; lia].
    intros q. rewrite !missing_cons. unfold inGap. cbn. split; [intros [Hm|Hm]; [lia|specialize (Hg q Hm); split; [tauto|lia]]|]. intros [[Hm|Hm] Hne]; [left; lia|tauto].
  - exists ((a, p) :: (p, b) :: gs). split; [constructor; [now split|constructor; [now split|exact Hl]]|].
    split; [cbn; split; [lia|split; [lia|split; [lia|split; [lia|exact Ho]]]]|]. split; [|cbn; lia].
    intros q. rewrite !missing_cons. unfold inGap. cbn. split; [intros [Hm|[Hm|Hm]]; [lia|lia|specialize (Hg q Hm); split; [tauto|lia]]|]. intros [[Hm|Hm] Hne]; [lia|tauto].
Qed.

(** FillpCheckAndUpdateDelayNackList takes the packet out of its gap. *)
Lemma update_ok p hi : forall l gs lo, Forall2 describes gs l -> ordered lo hi gs -> lo < p <= hi -> hi - lo < 2147483648 ->
  exists gs', Forall2 describes gs' (updateNackList true false (u32 p) l) /\ ordered lo hi gs' /\ (forall q, missing gs' q <-> missing gs q /\ q <> p) /\
    (length gs' <= S (length gs))%nat.
Proof.
  induction l as [|n l IH]; intros gs lo Hl Ho Hp Hr; inversion Hl as [|[a b] ? gs0 ? Hd Hl0]; subst.
  { exists []. split; [constructor|]. split; [exact Ho|]. split; [|cbn; lia]. intros q. split; [intros Hm; inversion Hm|tauto]. }
  cbn in Ho. destruct Ho as (H1 & H2 & H3). pose proof (ordered_le _ _ _ H3) as Hb. pose proof Hd as [Es Ee]. cbn in Es, Ee. cbn [updateNackList].
  assert (Hsame : ~ inGap p (a, b) -> ~ missing gs0 p -> exists gs', Forall2 describes gs' (n :: l) /\ ordered lo hi gs' /\
      (forall q, missing gs' q <-> missing ((a, b) :: gs0) q /\ q <> p) /\ (length gs' <= S (length ((a, b) :: gs0)))%nat).
  { intros N1 N2. exists ((a, b) :: gs0). split; [exact Hl|]. split; [now cbn|]. split; [|apply Nat.le_succ_diag_r]. intros q. rewrite missing_cons.
    split; [|tauto]. intros Hm. split; [exact Hm|]. intros ->. tauto. }
  unfold inGap in Hsame. cbn in Hsame. rewrite Es, Ee, !bigger_pos by (unfold in_s32; lia).
  destruct (Z.ltb_spec b p) as [Hbp|Hbp].
  - destruct (IH gs0 b Hl0 H3 ltac:(lia) ltac:(lia)) as (gs' & Hl' & Ho' & Hm' & Hlen). exists ((a, b) :: gs'). split; [now constructor|]. split; [now cbn|]. split; [|cbn; lia].
    intros q. rewrite !missing_cons, Hm'. unfold inGap. cbn. split; [intros [Hm|[Hm Hne]]; [split; [now left|lia]|tauto]|tauto].
  - destruct (Z.ltb_spec a p) as [Hap|Hap]; cbn [negb]; [|apply Hsame; [lia|apply (not_missing_below b hi); [exact H3|lia]]].
    rewrite u32_eqb by (unfold in_s32; lia). destruct (Z.eqb_spec p b) as [-> |Hpb]; [apply Hsame; [lia|apply (not_missing_below b hi); [exact H3|lia]]|].
    destruct (split_gap a b p n l gs0 hi) as (gs' & Hl' & Ho' & Hm' & Hlen); [lia|exact Hd|exact Hl0|exact H3|lia|].
    rewrite Es, Ee in Hl'. exists gs'. split; [exact Hl'|]. split; [now apply (ordered_weaken a)|]. split; [exact Hm'|cbn; lia].
Qed.

Lemma update_stamps mem full p t l : Forall (fun n => nTimestamp n = t) l -> Forall (fun n => nTimestamp n = t) (updateNackList mem full p l).
Proof.
  induction l as [|n l IH]; intros H; [exact H|]. pose proof H as H'. apply Forall_cons in H' as [Hn Hl]. cbn [updateNackList].
  destruct (FillpNumIsbigger p (endPktNum n)); [constructor; auto|]. destruct (negb _); [exact H|]. destruct (_ =? _); [exact H|].
  destruct (_ =? _); [destruct (_ =? _); [exact Hl|now constructor]|]. destruct (_ =? _); [now constructor|]. destruct full; [exact H|]. destruct (negb mem); [exact H|].
  now repeat constructor.
Qed.

Lemma missing_app gs g q : missing (gs ++ [g]) q <-> missing gs q \/ inGap q g.
Proof. unfold missing. rewrite Exists_app, Exists_cons, Exists_nil. tauto. Qed.

Lemma ordered_snoc lo hi gs p : ordered lo hi gs -> hi + 1 < p -> ordered lo p (gs ++ [(hi, p)]).
Proof.
  revert lo. induction gs as [|[a b] gs IH]; intros lo H Hp; cbn in *; [lia|]. destruct H as (H1 & H2 & H3). split; [lia|]. split; [lia|]. auto.
Qed.
Lemma ordered_higher lo hi hi' gs : ordered lo hi gs -> hi <= hi' -> ordered lo hi' gs.
Proof. revert lo. induction gs as [|[a b] gs IH]; intros lo H Hp; cbn in *; [lia|]. destruct H as (H1 & H2 & H3). split; [lia|]. split; [lia|]. eauto. Qed.

Section Exact.

Context {L : Type} `{ItemList FillpPcbItem L} (cfg : Config) (ans : Answers).
Hypothesis delayed : enableNackDelay cfg = true.
Hypothesis has_memory : nodeMem ans = true.

(** The packet numbers of several items are noted: the part of [FillpDataToStack] that
    keeps the numbers, at one reading of the clock. *)
Fixpoint noteAll (xs : list FillpPcbItem) (s : FillpRecvPcb (L := L)) : FillpRecvPcb (L := L) :=
  match xs with [] => s | x :: xs => noteAll xs (snd (noteNumber cfg ans x s)) end.

(** Between [P0] and the highest number [P] these gaps are open. *)
Record Noted (s : FillpRecvPcb (L := L)) (P0 P : Z) (gs : list Gap) : Prop := {
  n_high : rPktNum s = u32 P;
  n_gaps : Forall2 describes gs (nackList s);
  n_ordered : ordered P0 P gs;
  n_stamps : Forall (fun n => nTimestamp n = curTime ans) (nackList s)
}.

Lemma note_ok x p s P0 P gs : Noted s P0 P gs -> pktNum x = u32 p -> P0 < p < P0 + 1073741824 -> P < P0 + 1073741824 ->
  FillpNumIsbigger (seqNum x) (rSeqNum s) = true -> Z.of_nat (length gs) < mpRecvSize cfg ->
  exists gs' s', snd (noteNumber cfg ans x s) = s' /\ Noted s' P0 (Z.max P p) gs' /\ rSeqNum s' = rSeqNum s /\ nacks s' = nacks s /\ (length gs' <= S (length gs))%nat /\
    forall q, missing gs' q <-> (missing gs q \/ P < q < p) /\ q <> p.
Proof.
  intros N Ex Hp HP Hseq Hroom. pose proof (ordered_le _ _ _ (n_ordered _ _ _ _ N)) as HP0. pose proof (Forall2_length _ _ _ (n_gaps _ _ _ _ N)) as El.
  unfold noteNumber. rewrite Ex, (n_high _ _ _ _ N), bigger_pos by (unfold in_s32; lia). destruct (Z.ltb_spec P p) as [Hlt|Hge]; cbn [snd].
  - unfold FillBiggerItem. rewrite Ex, (n_high _ _ _ _ N), u32_add_u32, u32_eqb by (unfold in_s32; lia). rewrite Z.max_r by lia.
    assert (Hab : forall q, missing gs q -> q < P).
    { intros q Hq. destruct (Z.lt_ge_cases q P); [done|]. now apply (not_missing_above P0 P gs q (n_ordered _ _ _ _ N)) in Hq. }
    destruct (Z.eqb_spec (P + 1) p) as [E|E]; cbn [negb].
    + eexists gs, _. split; [reflexivity|]. split; [split; cbn; [reflexivity|apply N|apply (ordered_higher P0 P); [apply N|lia]|apply N]|].
      split; [reflexivity|]. split; [reflexivity|]. split; [lia|]. intros q. split; [intros Hq; specialize (Hab q Hq); split; [tauto|lia]|]. intros [[Hq|Hq] _]; [exact Hq|lia].
    + rewrite delayed, <- El. destruct (Z.ltb_spec (Z.of_nat (length gs)) (mpRecvSize cfg)); [|lia]. cbn [andb]. unfold FillpAddNodeAtDelayNackListTail. rewrite has_memory.
      eexists (gs ++ [(P, p)]), _. split; [reflexivity|]. split.
      * split; cbn; [reflexivity| | |].
        -- apply Forall2_app; [apply N|]. constructor; [now split|constructor].
        -- apply ordered_snoc; [apply N|lia].
        -- apply Forall_app. split; [apply N|]. now repeat constructor.
      * split; [reflexivity|]. split; [reflexivity|]. split; [rewrite length_app; cbn; lia|]. intros q. rewrite missing_app. unfold inGap. cbn.
        split; [intros [Hq|Hq]; [specialize (Hab q Hq); split; [tauto|lia]|split; [tauto|lia]]|]. tauto.
  - rewrite delayed, Hseq, Z.max_l by lia. cbn [negb snd]. rewrite <- El. destruct (Z.eqb_spec (Z.of_nat (length gs)) 0) as [E0|E0]; cbn [negb snd].
    + assert (gs = []) as -> by (destruct gs; [reflexivity|cbn in E0; lia]). exists [], s. split; [reflexivity|]. split; [exact N|]. split; [reflexivity|]. split; [reflexivity|].
      split; [cbn; lia|]. intros q. split; [intros Hq; inversion Hq|]. intros [[Hq|Hq] _]; [exact Hq|lia].
    + unfold FillpCheckAndUpdateDelayNackList. rewrite has_memory, <- El. destruct (Z.leb_spec (mpRecvSize cfg) (Z.of_nat (length gs))); [lia|].
      destruct (update_ok p P (nackList s) gs P0 (n_gaps _ _ _ _ N) (n_ordered _ _ _ _ N)) as (gs' & Hd & Ho & Hm & Hlen); [lia|lia|].
      eexists gs', _. split; [reflexivity|]. split; [split; cbn; [apply N|exact Hd|exact Ho|apply update_stamps, N]|].
      split; [reflexivity|]. split; [reflexivity|]. split; [exact Hlen|]. intros q. rewrite Hm. split; [tauto|]. intros [[Hq|Hq] Hne]; [tauto|lia].
Qed.

Definition highest (P : Z) (ps : list Z) : Z := fold_left Z.max ps P.

Lemma highest_bounds ps : forall P B, P < B -> Forall (fun p => p < B) ps -> P <= highest P ps < B /\ Forall (fun p => p <= highest P ps) ps.
Proof.
  induction ps as [|p ps IH]; intros P B HP HB; cbn; [split; [lia|constructor]|]. apply Forall_cons in HB as [Hp HB].
  destruct (IH (Z.max P p) B ltac:(lia) HB) as [H1 H2]. unfold highest in *. split; [lia|]. constructor; [lia|exact H2].
Qed.

Lemma noteAll_ok xs : forall ps s P0 P gs, Noted s P0 P gs ->
  Forall2 (fun p x => pktNum x = u32 p /\ P0 < p < P0 + 1073741824 /\ FillpNumIsbigger (seqNum x) (rSeqNum s) = true) ps xs -> P < P0 + 1073741824 ->
  Z.of_nat (length gs + length xs) < mpRecvSize cfg ->
  exists gs', Noted (noteAll xs s) P0 (highest P ps) gs' /\ rSeqNum (noteAll xs s) = rSeqNum s /\ nacks (noteAll xs s) = nacks s /\
    forall q, missing gs' q <-> (missing gs q \/ P < q < highest P ps) /\ q ∉ ps.
Proof.
  induction xs as [|x xs IH]; intros ps s P0 P gs N Hx HP Hroom; inversion Hx as [|p ? ps' ? (E1 & E2 & E3) Hx']; subst; cbn [noteAll].
  { exists gs. cbn. split; [exact N|]. split; [reflexivity|]. split; [reflexivity|]. intros q. split; [intros Hq; split; [now left|apply not_elem_of_nil]|]. intros [[Hq|Hq] _]; [exact Hq|lia]. }
  cbn [length] in Hroom. destruct (note_ok x p s P0 P gs N E1 E2 HP E3 ltac:(lia)) as (gs1 & s1 & -> & N1 & Es & En & Hlen & Hm).
  destruct (IH ps' s1 P0 (Z.max P p) gs1 N1) as (gs2 & N2 & Es2 & En2 & Hm2); [now rewrite Es|lia|lia|].
  exists gs2. cbn [highest fold_left]. change (fold_left Z.max ps' (Z.max P p)) with (highest (Z.max P p) ps'). split; [exact N2|]. split; [congruence|]. split; [congruence|].
  intros q. rewrite Hm2, Hm, not_elem_of_cons.
  assert (Hh : Z.max P p <= highest (Z.max P p) ps').
  { destruct (highest_bounds ps' (Z.max P p) (P0 + 1073741824)) as [H1 _]; [lia| |lia]. clear -Hx'. induction Hx' as [|p x ps xs (_ & Hp & _) _ IH]; constructor; [lia|exact IH]. }
  split; [intros ([[Hq Hne]|Hq] & Hin); [split; [|tauto]; destruct Hq; [tauto|right; lia]|]|].
  - destruct (Z.lt_ge_cases p q); [split; [right; lia|split; [lia|exact Hin]]|lia].
  - intros ([Hq|Hq] & Hne & Hin); split; try exact Hin; [left; tauto|]. destruct (Z.lt_ge_cases (Z.max P p) q); [right; lia|left; split; [right; lia|exact Hne]].
Qed.

Lemma sendNackList_all ans' l : forall s, nackMem ans' = true -> Forall (fun n => nTimestamp n = curTime ans) l -> curTime ans < curTime ans' ->
  nacks (sendNackList ans' l s) = nacks s ++ map (fun n => mkPktNack (startPktNum n) (endPktNum n) (rSeqNum s)) l /\ (l <> [] -> nackList (sendNackList (L := L) ans' l s) = []).
Proof.
  induction l as [|n l IH]; intros s Hm Hl Ht; cbn [sendNackList map]; [split; [now rewrite app_nil_r|done]|]. apply Forall_cons in Hl as [Hn Hl]. rewrite Hn.
  destruct (Z.ltb_spec (curTime ans) (curTime ans')); [|lia]. set (s1 := (FillpSendNack ans' (startPktNum n) (endPktNum n) s) <| nackList := l |>).
  assert (E1 : nacks s1 = nacks s ++ [mkPktNack (startPktNum n) (endPktNum n) (rSeqNum s)] /\ rSeqNum s1 = rSeqNum s) by (unfold s1, FillpSendNack; rewrite Hm; now split).
  destruct (IH s1 Hm Hl Ht) as [E2 E3]. destruct E1 as [E1 E1']. rewrite E2, E1, E1', <- app_assoc. split; [reflexivity|]. intros _.
  destruct l as [|n' l]; [reflexivity|]. now apply E3.
Qed.

(** C24: The list of missing packets is exact.  Packets arrive in any order and with repetitions,
    each with new data, at one reading of the clock, while there is memory and room for a gap per
    packet, and their numbers are noted as [FillpDataToStack] does first; numbers wrap around.
    Then the gaps of the list, read without wrap-around, are increasing and contain exactly the
    packet numbers between the first and the highest number that did not arrive, and when the timer
    expires exactly these gaps are reported and the list is empty. *)
Theorem nack_list_exact xs ps s P0 ans' : Z.of_nat (length xs) < mpRecvSize cfg -> rPktNum s = u32 P0 -> nackList s = [] ->
  Forall2 (fun p x => pktNum x = u32 p /\ P0 < p < P0 + 1073741824 /\ FillpNumIsbigger (seqNum x) (rSeqNum s) = true) ps xs ->
  nackMem ans' = true -> curTime ans < curTime ans' ->
  exists gs, Forall2 describes gs (nackList (noteAll xs s)) /\ ordered P0 (highest P0 ps) gs /\ rPktNum (noteAll xs s) = u32 (highest P0 ps) /\
    (forall q, missing gs q <-> P0 < q < highest P0 ps /\ q ∉ ps) /\
    nacks (FillpCheckPcbNackListToSend ans' (noteAll xs s)) = nacks s ++ map (fun g => mkPktNack (u32 (fst g)) (u32 (snd g)) (rSeqNum s)) gs /\
    nackList (FillpCheckPcbNackListToSend ans' (noteAll xs s)) = [].
Proof.
  intros Hroom Ehigh Eempty Hx Hm Ht.
  assert (N : Noted s P0 P0 []) by (split; [exact Ehigh|rewrite Eempty; constructor|cbn; lia|rewrite Eempty; constructor]).
  destruct (noteAll_ok xs ps s P0 P0 [] N Hx ltac:(lia) ltac:(cbn; lia)) as (gs & N' & Es & En & Hg). exists gs.
  split; [apply N'|]. split; [apply N'|]. split; [apply N'|]. split.
  { intros q. rewrite Hg. split; [intros [[Hq|Hq] Hin]; [inversion Hq|tauto]|tauto]. }
  unfold FillpCheckPcbNackListToSend. destruct (sendNackList_all ans' (nackList (noteAll xs s)) (noteAll xs s) Hm (n_stamps _ _ _ _ N') Ht) as [E1 E2].
  split.
  - rewrite E1, En, Es. f_equal. pose proof (n_gaps _ _ _ _ N') as Hd. clear -Hd. induction Hd as [|g n gs l [H1 H2] _ IH]; [reflexivity|]. cbn. now rewrite H1, H2, IH.
  - destruct (nackList (noteAll xs s)) eqn:El; [cbn; exact El|]. now apply E2.
Qed.

End Exact.

Module NackDemo.
Definition P0 : Z := 4294967294.
Definition numbers : list Z := [P0 + 3; P0 + 1; P0 + 6; P0 + 3].
Definition item (p : Z) : FillpPcbItem := mkItem 1 (RecvDemo.base + 1) (u32 p) 1 0 0 0 None [].
Definition s : FillpRecvPcb (L := RecvDemo.list_) := RecvDemo.init <| rPktNum := P0 |>.
Definition later : Answers := mkAnswers true true true true 60.
End NackDemo.

Lemma nack_list_exact_witness (s' := noteAll (RecvDemo.cfg false) RecvDemo.ans (map NackDemo.item NackDemo.numbers) NackDemo.s) :
  nackList s' = [mkNackNode 4294967295 1 50; mkNackNode 1 4 50] /\ exists gs, Forall2 describes gs (nackList s') /\ ordered NackDemo.P0 (NackDemo.P0 + 6) gs /\
    rPktNum s' = u32 (NackDemo.P0 + 6) /\ (forall q, missing gs q <-> NackDemo.P0 < q < NackDemo.P0 + 6 /\ q ∉ NackDemo.numbers) /\
    nacks (FillpCheckPcbNackListToSend NackDemo.later s') = [] ++ map (fun g => mkPktNack (u32 (fst g)) (u32 (snd g)) RecvDemo.base) gs /\
    nackList (FillpCheckPcbNackListToSend NackDemo.later s') = [].
Proof.
  split; [vm_compute; reflexivity|].
  apply (nack_list_exact (RecvDemo.cfg false) RecvDemo.ans eq_refl eq_refl (map NackDemo.item NackDemo.numbers) NackDemo.numbers NackDemo.s NackDemo.P0 NackDemo.later).
  - vm_compute. reflexivity.
  - reflexivity.
  - reflexivity.
  - unfold NackDemo.P0. repeat constructor; vm_compute; reflexivity.
  - reflexivity.
  - vm_compute. reflexivity.
Defined.

End FillpNack.
