(* ===== verification/FillpSend.v ===== *)
(** * Sending side of the fillp transport

    components/nstackx/fillp/src/fillp_lib/src: fillp/fillp_output.c (sending of items),
    fillp/fillp_common.c (acknowledged and lost items), fillp/fillp_input.c (packets that
    acknowledge or report losses), fillp/fillp_flow_control.c (the protection of the tail),
    fillp/fillp_pcb.c and fillp/fillp_timer.c (submission and the send timer), spunge_core.c
    (the send cycle and the token bucket).

    An item waits in [unSendList] until it gets its number.  From then on it is in one of four
    places until it is acknowledged: in the hash map of the items that were sent ([unackMap], by
    sequence number; these are in [pktSeqMap] too, by packet number), in [unrecvList] when it is
    to be sent again, in [itemWaitTokenLists] when the rate of the instance is exhausted, or in
    [redunList].  Items are objects of a pool; the lists have their addresses.

    The lists of the hash maps are sequences ([Hlist] has their pointers); adding a node that is
    in a list already is an error of the model ([None]), as is any access to an item that was
    freed.  The three skip lists use one node of an item; each has a copy of it here, which is
    the same as long as an item is in one of them only.

    The counters of statistics and the timing wheel are not part of the model; of the timers it
    has whether they are set. *)

From S2P Require Import Prelude ErrorCode Bytes SkipList FillpItem.
From stdpp Require Import gmap list sorting.
#[local] Open Scope Z_scope.

Module FillpSend.
Import FillpItem.

Definition FILLP_UNACK_HASH_SIZE : Z := 512.
Definition FILLP_UNACK_HASH_MOD : Z := 1024.
Definition FILLP_MAX_PKTSEQ_HASH_SIZE : Z := 512.
Definition FILLP_MAXIMAL_ACK_NUM_LIMITATION : Z := 2000.
Definition FILLP_SEND_ONE_ACK_NUM : Z := 100.
Definition FILLP_MAX_LOST_NUM_FOR_REDUN : Z := 8.
Definition FILLP_ITEM_RESEND_TRIGGER_PACK : Z := 2.
Definition FILLP_ITEM_RESEND_TRIGGER_TP : Z := 3.
Definition FILLP_ITEM_RESEND_TRIGGER_HNACK : Z := 4.
Definition FILLP_ITEM_FLAGS_APP_LIMITED : Z := 256.
Definition FILLP_ITEM_FLAGS_REDUNDANT : Z := 4096.
Definition FILLP_PACK_FLAG_REQURE_RTT : Z := 2.
Definition FILLP_PACK_FLAG_ADHOC : Z := 16.
Definition SPUNGE_TOKEN_TIMER_MAX_INTERVAL : Z := 1000.
Definition SPUNGE_TOKEN_TIMER_MAX_INTERVAL_RATE_ZERO : Z := SPUNGE_TOKEN_TIMER_MAX_INTERVAL.
Definition FILLP_FC_IN_KBPS : Z := 8000.
Definition FILLP_BPS_TO_KBPS : Z := 1000.
Definition FILLP_ONE_SECOND : Z := 1000.
Definition FILLP_TIME_PRECISION : Z := 3.
Definition CONN_STATE_CONNECTED : Z := 3.
Definition CONN_STATE_CLOSING : Z := 4.
Definition ERR_COMM : Z := SkipList.ERR_COMM.
Definition ERR_NOBUFS : Z := -2.

Definition UTILS_FLAGS_SET (flag f : Z) : Z := Z.lor flag f.
Definition UTILS_FLAGS_CLEAN (flag f : Z) : Z := Z.ldiff flag f.

(** The fields of an item that belong to sending; [pkt] has the others. *)
Record SendItem := mkSendItem {
  pkt : FillpPcbItem;
  sendCount : Z;
  resendTrigger : Z;
  infCount : Z;
  firstSendTimestamp : Z;
  lastSendTimestamp : Z
}.
#[export] Instance etaSendItem : Eta SendItem := mkEta _ (fun x =>
  mkSendItem (pkt x) (sendCount x) (resendTrigger x) (infCount x) (firstSendTimestamp x) (lastSendTimestamp x)).

Record SpungeTokenBucke := mkStb {
  lastTime : Z;
  rate : Z;
  tokenCount : Z;
  maxPktSize : Z;
  waitPktCount : Z;
  interval : Z;
  tokenTimer : bool
}.
#[export] Instance etaStb : Eta SpungeTokenBucke := mkEta _ (fun x =>
  mkStb (lastTime x) (rate x) (tokenCount x) (maxPktSize x) (waitPktCount x) (interval x) (tokenTimer x)).

Record Config := mkConfig {
  mpSendSize : Z;
  pktSize : Z;
  retransmitCmpTime : bool;
  packMoveToUnrecvThreshold : Z
}.

(** What an operation finds around it.  [curTime]: the time of the instance; [sysTime n]: the clock
    when packet [n] is built; [sendFunc p]: the result of sending packet [p]; [more]: the size of the
    pool and the answer when it is asked to grow, one for each time; [limitRate]: the rate that is
    configured for the instance; the values of the flow control, and what the protection of the tail
    looks at. *)
Record Env := mkEnv {
  curTime : Z;
  sysTime : Z -> Z;
  sendFunc : list byte -> Z;
  more : list (Z * Z);
  limitRate : Z;
  sendRate : Z;
  sendInterval : Z;
  txBurst : Z;
  retramistRto : Z;
  minJudgeThreshold : Z;
  maxJudgeThreshold : Z;
  packIntervalBackup : Z;
  curPackDeltaUs : Z;
  unsendBoxEmpty : bool
}.

(** A received acknowledgement and a received report of missing packets, in the order of the host. *)
Record Pack := mkPack { pFlag : Z; pSeqNum : Z; pPktNum : Z; pRate : Z; pLostSeq : Z }.
Record Nack := mkNack { nSeqNum : Z; nPktNum : Z; nLastPktNum : Z }.

(** ** Lists of a hash map *)

Definition linked (a : nat) (m : list (list nat)) : bool := existsb (fun l => bool_decide (a ∈ l)) m.

Definition HlistDelete (l : list nat) (a : nat) : list nat := filter (fun b => b <> a) l.

(** From the list that a node is in, if any. *)
Definition HlistDelNode (a : nat) (m : list (list nat)) : list (list nat) := map (fun l => HlistDelete l a) m.

Section Model.

Context {L : Type} `{ItemList nat L} (cfg : Config).

(** [wire]: the packets that were sent; [connState] is the state of the connection. *)
Record FillpSendPcb := mkSend {
  items : gmap nat SendItem;
  unSendList : list nat;
  unrecvList : L;
  redunList : L;
  itemWaitTokenLists : L;
  unackMap : list (list nat);
  unackCount : Z;
  pktSeqMap : list (list nat);
  preItem : option nat;
  sSeqNum : Z;
  sPktNum : Z;
  ackSeqNum : Z;
  maxAckNumFromReceiver : Z;
  pktSendCache : Z;
  nackPktStartNum : Z;
  nackPktEndNum : Z;
  appLimited : bool;
  packSameAckNum : Z;
  lastPackAckSeq : Z;
  lastPackSeq : Z;
  samePackCount : Z;
  judgeThreshold : Z;
  inSendBytes : Z;
  unrecvRedunListBytes : Z;
  lastSendTs : Z;
  sendTime : Z;
  remainBytes : Z;
  sendOneNoData : bool;
  lastCycleNoEnoughData : bool;
  isLast : bool;
  sendTimer : bool;
  sendEventCount : Z;
  connState : Z;
  stb : SpungeTokenBucke;
  wire : list (list byte)
}.
#[export] Instance etaSend : Eta FillpSendPcb := mkEta _ (fun x =>
  mkSend (items x) (unSendList x) (unrecvList x) (redunList x) (itemWaitTokenLists x) (unackMap x) (unackCount x) (pktSeqMap x) (preItem x)
    (sSeqNum x) (sPktNum x) (ackSeqNum x) (maxAckNumFromReceiver x) (pktSendCache x) (nackPktStartNum x) (nackPktEndNum x) (appLimited x)
    (packSameAckNum x) (lastPackAckSeq x) (lastPackSeq x) (samePackCount x) (judgeThreshold x) (inSendBytes x) (unrecvRedunListBytes x)
    (lastSendTs x) (sendTime x) (remainBytes x) (sendOneNoData x) (lastCycleNoEnoughData x) (isLast x) (sendTimer x) (sendEventCount x)
    (connState x) (stb x) (wire x)).

Definition setItem (a : nat) (x : SendItem) (s : FillpSendPcb) : FillpSendPcb := s <| items := <[a := x]> (items s) |>.
Definition setPkt (f : FillpPcbItem -> FillpPcbItem) (x : SendItem) : SendItem := x <| pkt := f (pkt x) |>.

(** The comparison of the skip lists reads the items. *)
Definition cmpAt (s : FillpSendPcb) (a b : nat) : Z :=
  match items s !! a, items s !! b with
  | Some x, Some y => FillpSkiplistCmp (pkt x) (pkt y)
  | _, _ => 0
  end.

(** ** Items that are given back *)

(** An item that is free already cannot be freed. *)
Definition FillpFreeBufItem (a : nat) (s : FillpSendPcb) : option FillpSendPcb :=
  _ ← items s !! a;
  let s := if bool_decide (preItem s = Some a) then s <| preItem := None |> else s in
  Some (s <| items := delete a (items s) |>).

Definition FillpFreeItemAndEvent (a : nat) (s : FillpSendPcb) : option FillpSendPcb :=
  s ← FillpFreeBufItem a s;
  Some (s <| sendEventCount := u32 (sendEventCount s + 1) |>).

Definition InsertUnrecvListFail (a : nat) (s : FillpSendPcb) : option FillpSendPcb := FillpFreeItemAndEvent a s.

Definition insertUnrecv (a : nat) (s : FillpSendPcb) : option (Z * FillpSendPcb) :=
  '(r, l) ← ilInsert (cmpAt s) a true (unrecvList s);
  Some (r, s <| unrecvList := l |>).

(** ** The send timer *)

Definition FillpEnableSendTimer (env : Env) (s : FillpSendPcb) : FillpSendPcb :=
  if sendTimer s then s
  else
    let s := if sendTime s =? 0 then s <| remainBytes := 0 |> <| sendTime := curTime env |> else s in
    s <| sendTimer := true |>.

Definition FillpDisableSendTimer (s : FillpSendPcb) : FillpSendPcb := s <| sendTimer := false |>.

(** ** Sending of one item *)

(** The place of number [q] in a list that is walked from its end, as the number of items before it;
    [None] inside: there is an item with this number. *)
Fixpoint placeOf (s : FillpSendPcb) (q : Z) (rl : list nat) : option (option nat) :=
  match rl with
  | [] => Some (Some 0%nat)
  | p :: rl' =>
      posItem ← items s !! p;
      if seqNum (pkt posItem) =? q then Some None
      else if FillpNumIsbigger (seqNum (pkt posItem)) q then placeOf s q rl'
      else Some (Some (length rl))
  end.

Definition FillpAddtoListBySeqNum (s : FillpSendPcb) (i : nat) (a : nat) : option (Z * list (list nat)) :=
  x ← items s !! a;
  l ← unackMap s !! i;
  place ← placeOf s (seqNum (pkt x)) (reverse l);
  match place with
  | None => Some (ERR_COMM, unackMap s)
  | Some n =>
      if linked a (unackMap s) then None
      else Some (ERR_OK, <[i := take n l ++ a :: drop n l]> (unackMap s))
  end.

Definition FILLP_UNACKLIST_HASHINDEX (seq : Z) (s : FillpSendPcb) : nat :=
  Z.to_nat (Z.land (seq / FILLP_UNACK_HASH_MOD) (Z.of_nat (length (unackMap s)) - 1)).

Definition FillpAddToUnackList (env : Env) (a : nat) (s : FillpSendPcb) : option (Z * FillpSendPcb) :=
  x ← items s !! a;
  '(r, m) ← FillpAddtoListBySeqNum s (FILLP_UNACKLIST_HASHINDEX (seqNum (pkt x)) s) a;
  if negb (r =? ERR_OK) then
    '(r, s) ← insertUnrecv a s;
    if negb (r =? ERR_OK) then Some (ERR_NOBUFS, s)
    else
      let s := if 0 <? sendCount x then s <| unrecvRedunListBytes := u64 (unrecvRedunListBytes s + dataLen (pkt x)) |> else s in
      Some (ERR_OK, FillpEnableSendTimer env s)
  else Some (ERR_OK, s <| unackMap := m |> <| unackCount := u32 (unackCount s + 1) |>).

Definition pktIndex (num : Z) (s : FillpSendPcb) : nat := Z.to_nat (Z.land num (Z.of_nat (length (pktSeqMap s)) - 1)).

Definition FillpAddToPktSeqHash (a : nat) (s : FillpSendPcb) : option FillpSendPcb :=
  x ← items s !! a;
  let i := pktIndex (pktNum (pkt x)) s in
  l ← pktSeqMap s !! i;
  if linked a (pktSeqMap s) then None
  else Some (s <| pktSeqMap := <[i := l ++ [a]]> (pktSeqMap s) |>).

Definition FillpItemRetrans (env : Env) (a : nat) (s : FillpSendPcb) : option (Z * FillpSendPcb) :=
  x ← items s !! a;
  let s := s <| lastSendTs := curTime env |> in
  let s := setItem a (x <| infCount := u32 (infCount x + 1) |>) s in
  let s := s <| inSendBytes := u64 (inSendBytes s + dataLen (pkt x)) |> in
  '(r, s) ← FillpAddToUnackList env a s;
  if negb (r =? ERR_OK) then s ← FillpFreeItemAndEvent a s; Some (ERR_OK, s)
  else s ← FillpAddToPktSeqHash a (s <| preItem := Some a |>); Some (ERR_OK, s).

(** A packet that was not sent keeps its number for the next one. *)
Definition FillpSendItem (env : Env) (a : nat) (s : FillpSendPcb) : option (Z * FillpSendPcb) :=
  x ← items s !! a;
  let x := if sendCount x =? 0 then x <| firstSendTimestamp := curTime env |> <| lastSendTimestamp := curTime env |>
           else x <| lastSendTimestamp := curTime env |> in
  '(num, p, bytes) ← FillpBuildDataPkt (sysTime env (sPktNum s)) (sPktNum s) (pkt x);
  let s := setItem a (x <| pkt := p |>) (s <| sPktNum := num |>) in
  if sendFunc env bytes <=? 0 then
    '(r, s) ← insertUnrecv a s;
    s ← (if negb (r =? ERR_OK) then InsertUnrecvListFail a s
         else Some (if 0 <? sendCount x then s <| unrecvRedunListBytes := u64 (unrecvRedunListBytes s + dataLen p) |> else s));
    Some (-1, FillpEnableSendTimer env (s <| sPktNum := u32 (sPktNum s - 1) |>))
  else FillpItemRetrans env a (s <| wire := wire s ++ [bytes] |>).

(** ** The token bucket *)

Definition SpungeEnableTokenTimer (b : SpungeTokenBucke) : SpungeTokenBucke := b <| tokenTimer := true |>.

Definition SpungeTokenTimerCb (env : Env) (b : SpungeTokenBucke) : SpungeTokenBucke :=
  let b :=
    if negb (rate b =? limitRate env) then
      let b := b <| rate := limitRate env |> <| tokenCount := 0 |> in
      if negb (rate b =? 0) then
        let i := u32 (maxPktSize b * FILLP_FC_IN_KBPS / rate b) in
        b <| interval := if SPUNGE_TOKEN_TIMER_MAX_INTERVAL <? i then SPUNGE_TOKEN_TIMER_MAX_INTERVAL else i |>
      else b <| interval := SPUNGE_TOKEN_TIMER_MAX_INTERVAL_RATE_ZERO |>
    else b in
  let bitAdded := u64 (u64 (curTime env - lastTime b) * rate b) in
  let b := b <| lastTime := curTime env |> in
  let tokens := u32 (Z.shiftr (bitAdded / FILLP_BPS_TO_KBPS) 3) in
  let b := if (tokens <? maxPktSize b) || (tokenCount b <? maxPktSize b) then b <| tokenCount := u32 (tokenCount b + tokens) |>
           else b <| tokenCount := tokens |> in
  if negb (interval b =? SPUNGE_TOKEN_TIMER_MAX_INTERVAL_RATE_ZERO) then SpungeEnableTokenTimer b else b.

Definition SpungeItemRouteByToken (env : Env) (a : nat) (s : FillpSendPcb) : option (Z * FillpSendPcb) :=
  let s := if interval (stb s) =? SPUNGE_TOKEN_TIMER_MAX_INTERVAL_RATE_ZERO then s <| stb := SpungeTokenTimerCb env (stb s) |> else s in
  x ← items s !! a;
  if (rate (stb s) =? 0) && (ilNum (itemWaitTokenLists s) =? 0) then FillpSendItem env a s
  else if (dataLen (pkt x) <=? tokenCount (stb s)) && (ilNum (itemWaitTokenLists s) =? 0) then
    '(ret, s) ← FillpSendItem env a s;
    if ret =? ERR_OK then
      x ← items s !! a;
      Some (ret, s <| stb := (stb s) <| tokenCount := u32 (tokenCount (stb s) - dataLen (pkt x)) |> |>)
    else Some (ret, s)
  else
    '(r, l) ← ilInsert (cmpAt s) a true (itemWaitTokenLists s);
    let s := s <| itemWaitTokenLists := l |> in
    if negb (r =? ERR_OK) then s ← FillpFreeItemAndEvent a s; Some (ERR_OK, s)
    else Some (ERR_OK, s <| stb := (stb s) <| waitPktCount := u64 (waitPktCount (stb s) + 1) |> |>).

(** The turn of the connection in the loop of SpungeCheckItemWaitTokenList; the result says whether the
    loop goes on. *)
Definition waitTurn (env : Env) (s : FillpSendPcb) : option (bool * FillpSendPcb) :=
  node ← ilFirst (itemWaitTokenLists s);
  match node with
  | None => Some (true, s)
  | Some a =>
      x ← items s !! a;
      if tokenCount (stb s) <? dataLen (pkt x) then Some (false, s)
      else
        '(_, l) ← ilPop (itemWaitTokenLists s);
        let s := s <| stb := (stb s) <| waitPktCount := u64 (waitPktCount (stb s) - 1) |> |> <| itemWaitTokenLists := l |> in
        '(err, s) ← FillpSendItem env a s;
        if err =? ERR_OK then
          x ← items s !! a;
          Some (true, s <| stb := (stb s) <| tokenCount := u32 (tokenCount (stb s) - dataLen (pkt x)) |> |>)
        else Some (true, s)
  end.

(** What SpungeClearItemWaitTokenList does with the items of one connection. *)
Fixpoint clearWaiting (fuel : nat) (s : FillpSendPcb) : option FillpSendPcb :=
  match fuel with
  | O => None
  | S fuel' =>
      '(node, l) ← ilPop (itemWaitTokenLists s);
      let s := s <| itemWaitTokenLists := l |> in
      match node with
      | None => Some s
      | Some a =>
          let s := s <| stb := (stb s) <| waitPktCount := u64 (waitPktCount (stb s) - 1) |> |> in
          '(r, s) ← insertUnrecv a s;
          x ← items s !! a;
          s ← (if negb (r =? ERR_OK) then FillpFreeItemAndEvent a s
               else Some (if 0 <? sendCount x then s <| unrecvRedunListBytes := u64 (unrecvRedunListBytes s + dataLen (pkt x)) |> else s));
          clearWaiting fuel' s
      end
  end.

Definition SpungeClearItemWaitTokenList (env : Env) (s : FillpSendPcb) : option FillpSendPcb :=
  s ← clearWaiting (S (Z.to_nat (ilNum (itemWaitTokenLists s)))) s;
  Some (if negb (ilNum (unrecvList s) =? 0) then FillpEnableSendTimer env s else s).

(** ** Lost items *)

(** The item with packet number [num] in a list of [pktSeqMap], which is in the order of the numbers. *)
Fixpoint findPkt (s : FillpSendPcb) (num : Z) (l : list nat) : option (option nat) :=
  match l with
  | [] => Some None
  | a :: l' =>
      item ← items s !! a;
      if pktNum (pkt item) =? num then Some (Some a)
      else if FillpNumIsbigger (pktNum (pkt item)) num then Some None
      else findPkt s num l'
  end.

Definition FillpGetSeqFromPktSeqHash (num : Z) (s : FillpSendPcb) : option (option nat) :=
  l ← pktSeqMap s !! pktIndex num s; findPkt s num l.

Definition FillpDelPktSeqHashItem (num : Z) (s : FillpSendPcb) : option FillpSendPcb :=
  l ← pktSeqMap s !! pktIndex num s;
  pos ← findPkt s num l;
  match pos with
  | Some a => Some (s <| pktSeqMap := <[pktIndex num s := HlistDelete l a]> (pktSeqMap s) |>)
  | None => Some s
  end.

Definition lowerCount (s : FillpSendPcb) : FillpSendPcb :=
  if 0 <? unackCount s then s <| unackCount := u32 (unackCount s - 1) |> else s.

(** The items of list [i] up to number [lostSeq] are to be sent again.  The result says whether one was
    found, when [onePktOnly]. *)
Fixpoint moveLoop (fuel : nat) (env : Env) (i : nat) (lostSeq : Z) (isFromPack onePktOnly : bool) (s : FillpSendPcb) : option (bool * FillpSendPcb) :=
  let cmpGap := if retransmitCmpTime cfg then retramistRto env else 0 in
  match fuel with
  | O => None
  | S fuel' =>
      l ← unackMap s !! i;
      match l with
      | [] => Some (false, s)
      | a :: l' =>
          x ← items s !! a;
          if FillpNumIsbigger (seqNum (pkt x)) lostSeq then Some (false, s)
          else if s64 (curTime env - lastSendTimestamp x) <? cmpGap then Some (false, s)
          else
            let s := lowerCount (s <| unackMap := <[i := l']> (unackMap s) |>) in
            let s := if isFromPack then setItem a (x <| infCount := u32 (infCount x - 1) |>) (s <| inSendBytes := u64 (inSendBytes s - dataLen (pkt x)) |>) else s in
            s ← FillpDelPktSeqHashItem (pktNum (pkt x)) s;
            '(r, s) ← insertUnrecv a s;
            if negb (r =? ERR_OK) then s ← InsertUnrecvListFail a s; Some (false, s)
            else
              x ← items s !! a;
              let s := s <| unrecvRedunListBytes := u64 (unrecvRedunListBytes s + dataLen (pkt x)) |> in
              let s := setItem a (x <| sendCount := u8 (sendCount x + 1) |>
                <| resendTrigger := if isFromPack then FILLP_ITEM_RESEND_TRIGGER_PACK else FILLP_ITEM_RESEND_TRIGGER_TP |>) s in
              if onePktOnly then Some (true, s) else moveLoop fuel' env i lostSeq isFromPack onePktOnly s
      end
  end.

Definition FillpMoveOneNode (env : Env) (i : nat) (lostSeq : Z) (isFromPack onePktOnly : bool) (s : FillpSendPcb) : option (bool * FillpSendPcb) :=
  l ← unackMap s !! i;
  moveLoop (S (length l)) env i lostSeq isFromPack onePktOnly s.

(** The lists from [i] on, [n] of them. *)
Fixpoint moveLists (n : nat) (env : Env) (i ackSeqIndex lostSeq : Z) (isFromPack onePktOnly : bool) (s : FillpSendPcb) : option FillpSendPcb :=
  match n with
  | O => Some s
  | S n' =>
      let hashIndex := Z.land (i + ackSeqIndex) (Z.of_nat (length (unackMap s)) - 1) in
      '(pktFound, s) ← FillpMoveOneNode env (Z.to_nat hashIndex) lostSeq isFromPack onePktOnly s;
      if (pktFound : bool) then Some s else moveLists n' env (i + 1) ackSeqIndex lostSeq isFromPack onePktOnly s
  end.

Definition FillpMoveUnackToUnrecvAll (env : Env) (ackSeq lostSeq : Z) (isFromPack onePktOnly : bool) (s : FillpSendPcb) : option FillpSendPcb :=
  if lostSeq =? ackSeq then Some s
  else
    let size := Z.of_nat (length (unackMap s)) in
    let ackSeqIndex := Z.of_nat (FILLP_UNACKLIST_HASHINDEX ackSeq s) in
    let lostSeqIndex := Z.of_nat (FILLP_UNACKLIST_HASHINDEX lostSeq s) in
    let loopCount := if size <=? u32 (lostSeq - ackSeq) / FILLP_UNACK_HASH_MOD then size
                     else Z.land (lostSeqIndex + size - ackSeqIndex) (size - 1) in
    s ← moveLists (S (Z.to_nat loopCount)) env 0 ackSeqIndex lostSeq isFromPack onePktOnly s;
    Some (if 0 <? ilNum (unrecvList s) then FillpEnableSendTimer env s else s).

Definition FillpMoveUnackToUnrecv (env : Env) (ackSeq lostSeq : Z) (isFromPack : bool) (s : FillpSendPcb) : option FillpSendPcb :=
  FillpMoveUnackToUnrecvAll env ackSeq lostSeq isFromPack false s.

(** ** Acknowledged items *)

(** An item leaves the account of the bytes on their way. *)
Definition settle (x : SendItem) (s : FillpSendPcb) : FillpSendPcb :=
  s <| inSendBytes := u64 (inSendBytes s - u64 (dataLen (pkt x) * infCount x)) |>.
Definition leaveUnrecv (x : SendItem) (s : FillpSendPcb) : FillpSendPcb :=
  s <| unrecvRedunListBytes := u64 (unrecvRedunListBytes s - dataLen (pkt x)) |>.

(** The loop that FillpAckItemWaitTklist, FillpAckUnrecvList and FillpAckRedunlist have in common: the
    items of a skip list up to number [num] are freed, and counted. *)
Fixpoint ackLoop (fuel : nat) (get : FillpSendPcb -> L) (put : L -> FillpSendPcb -> FillpSendPcb) (note : SendItem -> FillpSendPcb -> FillpSendPcb)
    (num count : Z) (s : FillpSendPcb) : option (Z * FillpSendPcb) :=
  match fuel with
  | O => None
  | S fuel' =>
      node ← ilFirst (get s);
      match node with
      | None => Some (count, s)
      | Some a =>
          x ← items s !! a;
          if FillpNumIsbigger (seqNum (pkt x)) num then Some (count, s)
          else
            '(_, l) ← ilPop (get s);
            s ← FillpFreeItemAndEvent a (settle x (note x (put l s)));
            ackLoop fuel' get put note num (count + 1) s
      end
  end.

Definition ackAll (get : FillpSendPcb -> L) (put : L -> FillpSendPcb -> FillpSendPcb) (note : SendItem -> FillpSendPcb -> FillpSendPcb)
    (num : Z) (s : FillpSendPcb) : option (Z * FillpSendPcb) :=
  if negb (FillpNumIsbigger num (ackSeqNum s)) then Some (0, s)
  else ackLoop (S (Z.to_nat (ilNum (get s)))) get put note num 0 s.

Definition FillpAckItemWaitTklist (num : Z) (s : FillpSendPcb) : option FillpSendPcb :=
  '(_, s) ← ackAll itemWaitTokenLists (fun l s => s <| itemWaitTokenLists := l |>)
              (fun _ s => s <| stb := (stb s) <| waitPktCount := u64 (waitPktCount (stb s) - 1) |> |>) num s;
  Some s.

Definition FillpAckUnrecvList (num : Z) (s : FillpSendPcb) : option (Z * FillpSendPcb) :=
  ackAll unrecvList (fun l s => s <| unrecvList := l |>) leaveUnrecv num s.

Definition FillpAckRedunlist (num : Z) (s : FillpSendPcb) : option FillpSendPcb :=
  '(_, s) ← ackAll redunList (fun l s => s <| redunList := l |>) leaveUnrecv num s;
  Some s.

Definition FreeUnackList (a : nat) (i : nat) (s : FillpSendPcb) : option FillpSendPcb :=
  x ← items s !! a;
  l ← unackMap s !! i;
  let s := s <| pktSeqMap := HlistDelNode a (pktSeqMap s) |> <| unackMap := <[i := tail l]> (unackMap s) |> in
  FillpFreeItemAndEvent a (settle x (lowerCount s)).

(** The first result: the limit is reached. *)
Fixpoint ackList (fuel : nat) (i : nat) (curSeq cntLimit count : Z) (s : FillpSendPcb) : option (bool * Z * FillpSendPcb) :=
  match fuel with
  | O => None
  | S fuel' =>
      l ← unackMap s !! i;
      match l with
      | [] => Some (false, count, s)
      | a :: _ =>
          x ← items s !! a;
          if FillpNumIsbigger (seqNum (pkt x)) curSeq then Some (false, count, s)
          else
            s ← FreeUnackList a i s;
            let count := count + 1 in
            if (0 <? cntLimit) && (cntLimit <=? count) then Some (true, count, s)
            else ackList fuel' i curSeq cntLimit count s
      end
  end.

Fixpoint ackLists (n : nat) (i lastSeqIndex curSeq cntLimit count : Z) (s : FillpSendPcb) : option (Z * FillpSendPcb) :=
  match n with
  | O => Some (count, s)
  | S n' =>
      let index := Z.to_nat (Z.land (i + lastSeqIndex) (Z.of_nat (length (unackMap s)) - 1)) in
      l ← unackMap s !! index;
      '(full, count, s) ← ackList (S (length l)) index curSeq cntLimit count s;
      if (full : bool) then Some (count, s) else ackLists n' (i + 1) lastSeqIndex curSeq cntLimit count s
  end.

(** The sockets of the application are told about the room; see [Epoll]. *)
Definition FillpAckUnackList (curSeq cntLimit : Z) (s : FillpSendPcb) : option FillpSendPcb :=
  if negb (FillpNumIsbigger curSeq (ackSeqNum s)) then Some s
  else
    s ← FillpAckRedunlist curSeq s;
    s ← FillpAckItemWaitTklist curSeq s;
    '(count, s) ← FillpAckUnrecvList curSeq s;
    '(count, s) ←
      (if (0 <? cntLimit) && (cntLimit <=? count) then Some (count, s)
       else
         let size := Z.of_nat (length (unackMap s)) in
         let lastSeqIndex := Z.land (ackSeqNum s / FILLP_UNACK_HASH_MOD) (size - 1) in
         let curSeqIndex := Z.land (curSeq / FILLP_UNACK_HASH_MOD) (size - 1) in
         let loopCount := if size <=? u32 (curSeq / FILLP_UNACK_HASH_MOD - ackSeqNum s / FILLP_UNACK_HASH_MOD) then size
                          else Z.min (Z.land (curSeqIndex + size - lastSeqIndex) (size - 1)) size in
         ackLists (S (Z.to_nat loopCount)) 0 lastSeqIndex curSeq cntLimit count s);
    Some (if (count =? 0) || negb (FillpNumIsbigger (pktSendCache s) (u32 (curSeq - ackSeqNum s))) then s <| ackSeqNum := curSeq |> else s).

Definition FillpAckSendPcb (cntLimit : Z) (s : FillpSendPcb) : option FillpSendPcb :=
  s ← FillpAckUnackList (maxAckNumFromReceiver s) cntLimit s;
  let pktSendCnt := u32 (unackCount s + ilNum (unrecvList s) + ilNum (itemWaitTokenLists s) + ilNum (redunList s)) in
  Some (if (pktSendCnt =? 0) && negb (inSendBytes s =? 0) then s <| inSendBytes := 0 |> else s).

(** ** Received acknowledgements *)

Definition FillpCheckPackNumber (pack : Pack) (s : FillpSendPcb) : bool :=
  if FillpNumIsbigger (pSeqNum pack) (sSeqNum s) || FillpNumIsbigger (sSeqNum s) (u32 (pSeqNum pack + pktSendCache s)) then false
  else if FillpNumIsbigger (pPktNum pack) (sPktNum s) then false
  else negb (FillpNumIsbigger (pSeqNum pack) (pLostSeq pack)).

Definition FillpTryAckSendPcbByPackInfo (ack : Z) (s : FillpSendPcb) : option FillpSendPcb :=
  if FillpNumIsbigger ack (ackSeqNum s) then
    let s := if FillpNumIsbigger ack (maxAckNumFromReceiver s) then s <| maxAckNumFromReceiver := ack |> else s in
    FillpAckSendPcb FILLP_MAXIMAL_ACK_NUM_LIMITATION s
  else Some s.

Definition MoveUnackToUnrecvByPackInfo (env : Env) (ack lost : Z) (s : FillpSendPcb) : option FillpSendPcb :=
  if retransmitCmpTime cfg then FillpMoveUnackToUnrecv env ack lost true s
  else if ack =? lastPackAckSeq s then
    let s := s <| packSameAckNum := u8 (packSameAckNum s + 1) |> in
    if packMoveToUnrecvThreshold cfg <=? packSameAckNum s then
      s ← FillpMoveUnackToUnrecv env ack lost true s;
      Some (s <| packSameAckNum := 0 |>)
    else Some s
  else Some (s <| lastPackAckSeq := ack |> <| packSameAckNum := 0 |>).

Definition FillpFcTailProtected (env : Env) (pack : Pack) (s : FillpSendPcb) : option FillpSendPcb :=
  let unsendSize := u32 (ilNum (unrecvList s) + ilNum (itemWaitTokenLists s) + ilNum (redunList s) + Z.of_nat (length (unSendList s))) in
  let isDataWaitedEmpty := (unsendSize =? 0) && unsendBoxEmpty env in
  let deltaUs := s64 (curTime env - lastSendTs s) in
  if (pSeqNum pack =? pLostSeq pack) && (pSeqNum pack =? lastPackSeq s) && negb (unackCount s =? 0) && (pRate pack =? 0) && isDataWaitedEmpty &&
     negb (curPackDeltaUs env =? 0) && (packIntervalBackup env <=? deltaUs) then
    let s := s <| samePackCount := u8 (samePackCount s + 1) |> in
    if judgeThreshold s <=? samePackCount s then
      s ← FillpMoveUnackToUnrecv env (pSeqNum pack) (sSeqNum s) false s;
      Some (s <| judgeThreshold := maxJudgeThreshold env |> <| samePackCount := 0 |>)
    else Some s
  else Some (s <| judgeThreshold := minJudgeThreshold env |> <| samePackCount := 0 |> <| lastPackSeq := pSeqNum pack |>).

(** The algorithm of the flow control sees the packet too; it sets the rate. *)
Definition FillpFcPackInput (env : Env) (pack : Pack) (s : FillpSendPcb) : option FillpSendPcb :=
  if Z.land (pFlag pack) FILLP_PACK_FLAG_REQURE_RTT =? 0 then FillpFcTailProtected env pack s else Some s.

Definition connOpen (s : FillpSendPcb) : bool := (connState s =? CONN_STATE_CLOSING) || (connState s =? CONN_STATE_CONNECTED).

(** The packet has at least the length that FillpCheckPackInput asks for. *)
Definition FillpPackInput (env : Env) (pack : Pack) (s : FillpSendPcb) : option FillpSendPcb :=
  if negb (connOpen s) then Some s
  else if negb (FillpCheckPackNumber pack s) then Some s
  else if negb (Z.land (pFlag pack) FILLP_PACK_FLAG_ADHOC =? 0) then FillpTryAckSendPcbByPackInfo (pSeqNum pack) s
  else
    s ← FillpTryAckSendPcbByPackInfo (pSeqNum pack) s;
    s ← MoveUnackToUnrecvByPackInfo env (pSeqNum pack) (pLostSeq pack) s;
    FillpFcPackInput env pack s.

(** ** Received reports of missing packets *)

Definition FillpCheckNackSeq (nack : Nack) (s : FillpSendPcb) : bool :=
  if FillpNumIsbigger (nSeqNum nack) (sSeqNum s) || FillpNumIsbigger (sSeqNum s) (u32 (nSeqNum nack + pktSendCache s)) then false
  else negb ((nackPktStartNum s =? nPktNum nack) && (nackPktEndNum s =? nLastPktNum nack)).

(** The packets from [num] on, at most [n] of them. *)
Fixpoint nackLoop (n : nat) (num endPktNum beginSeqNum identifyGap : Z) (s : FillpSendPcb) : option FillpSendPcb :=
  match n with
  | O => Some s
  | S n' =>
      if negb (FillpNumIsbigger endPktNum num) then Some s
      else
        let next := u32 (num + 1) in
        unackItem ← FillpGetSeqFromPktSeqHash num s;
        match unackItem with
        | None => nackLoop n' next endPktNum beginSeqNum identifyGap s
        | Some a =>
            x ← items s !! a;
            if seqNum (pkt x) <=? beginSeqNum then nackLoop n' next endPktNum beginSeqNum identifyGap s
            else
              let s := lowerCount (s <| pktSeqMap := HlistDelNode a (pktSeqMap s) |> <| unackMap := HlistDelNode a (unackMap s) |>) in
              let s := s <| inSendBytes := u64 (inSendBytes s - dataLen (pkt x)) |> in
              let x := x <| infCount := u32 (infCount x - 1) |> in
              let x := if FILLP_MAX_LOST_NUM_FOR_REDUN <? identifyGap then setPkt (fun p => p <| flags := UTILS_FLAGS_CLEAN (flags p) FILLP_ITEM_FLAGS_REDUNDANT |>) x else x in
              '(r, s) ← insertUnrecv a (setItem a x s);
              if negb (r =? ERR_OK) then
                s ← InsertUnrecvListFail a s;
                nackLoop n' next endPktNum beginSeqNum identifyGap s
              else
                let s := s <| unrecvRedunListBytes := u64 (unrecvRedunListBytes s + dataLen (pkt x)) |> in
                let s := setItem a (x <| sendCount := u8 (sendCount x + 1) |> <| resendTrigger := FILLP_ITEM_RESEND_TRIGGER_HNACK |>) s in
                nackLoop n' next endPktNum beginSeqNum identifyGap s
        end
  end.

(** At most [identifyGap + 1] packets are looked at. *)
Definition ProtectLongLoopRun (identifyGap : Z) (nack : Nack) (s : FillpSendPcb) : option FillpSendPcb :=
  nackLoop (S (Z.to_nat identifyGap)) (u32 (nPktNum nack + 1)) (nLastPktNum nack) (nSeqNum nack) identifyGap s.

(** The packet has the length that FillpCheckNackPacket asks for. *)
Definition FillpNackInput (env : Env) (nack : Nack) (s : FillpSendPcb) : option FillpSendPcb :=
  if negb (connOpen s) then Some s
  else if negb (FillpCheckNackSeq nack s) then Some s
  else
    let s := s <| nackPktStartNum := nPktNum nack |> <| nackPktEndNum := nLastPktNum nack |> in
    let startLoop := u32 (nPktNum nack + 1) in
    if negb (FillpNumIsbigger (nLastPktNum nack) startLoop) then Some s
    else
      let identifyGap := u32 (nLastPktNum nack - startLoop) in
      let identifyGap := if mpSendSize cfg <=? identifyGap then mpSendSize cfg else identifyGap in
      s ← ProtectLongLoopRun identifyGap nack s;
      let s := if negb (ilNum (unrecvList s) =? 0) then FillpEnableSendTimer env s else s in
      Some (if FillpNumIsbigger (nSeqNum nack) (maxAckNumFromReceiver s) then s <| maxAckNumFromReceiver := nSeqNum nack |> else s).

(** ** The send cycle *)

Fixpoint moveRedundant (fuel : nat) (s : FillpSendPcb) : option FillpSendPcb :=
  match fuel with
  | O => None
  | S fuel' =>
      '(item, l) ← ilPop (redunList s);
      let s := s <| redunList := l |> in
      match item with
      | None => Some s
      | Some a =>
          '(r, s) ← insertUnrecv a s;
          if negb (r =? ERR_OK) then
            x ← items s !! a;
            FillpFreeItemAndEvent a (leaveUnrecv x s)
          else moveRedundant fuel' s
      end
  end.

Definition FillpMoveRedundantItemToUnrecvList (s : FillpSendPcb) : option FillpSendPcb :=
  moveRedundant (S (Z.to_nat (ilNum (redunList s)))) s.

(** An item that has waited gets the next number. *)
Definition FillpGetSendItem (s : FillpSendPcb) : option (option nat * FillpSendPcb) :=
  '(item, l) ← ilPop (unrecvList s);
  let s := s <| unrecvList := l |> in
  match item with
  | Some a => Some (Some a, s)
  | None =>
      match unSendList s with
      | [] => Some (None, s)
      | a :: l' =>
          x ← items s !! a;
          let s := s <| unSendList := l' |> <| sSeqNum := u32 (sSeqNum s + dataLen (pkt x)) |> in
          let x := (setPkt (fun p => p <| seqNum := sSeqNum s |>) x) <| sendCount := 0 |> <| infCount := 0 |> <| resendTrigger := 0 |> in
          Some (Some a, setItem a x s)
      end
  end.

(** [curSize], [askMoreRet]: the size of the pool and its answer. *)
Definition FillpIsAskMoreBuf (curSize askMoreRet : Z) (s : FillpSendPcb) : bool * FillpSendPcb :=
  if unackCount s <? curSize then (false, s)
  else if askMoreRet <=? 0 then (false, s)
  else (true, s <| sendEventCount := u32 (sendEventCount s + askMoreRet) |>).

Definition FillpDoneSendAllData (s : FillpSendPcb) : option FillpSendPcb :=
  s ← (match preItem s with
       | Some a => x ← items s !! a; Some (setItem a (setPkt (fun p => p <| flags := UTILS_FLAGS_SET (flags p) FILLP_ITEM_FLAGS_APP_LIMITED |>) x) s)
       | None => Some s
       end);
  Some (s <| appLimited := true |> <| lastCycleNoEnoughData := true |> <| remainBytes := 0 |> <| sendOneNoData := true |>).

Definition FillpBeforeSendItem (a : nat) (sentBytes totalBytes : Z) (s : FillpSendPcb) : option (Z * FillpSendPcb) :=
  x ← items s !! a;
  let s := if 0 <? sendCount x then leaveUnrecv x s else s in
  let sentBytes := u32 (sentBytes + dataLen (pkt x)) in
  let x := setPkt (fun p => p <| flags := (if appLimited s then UTILS_FLAGS_SET else UTILS_FLAGS_CLEAN) (flags p) FILLP_ITEM_FLAGS_APP_LIMITED |>) x in
  let last := (totalBytes <=? sentBytes) || (resendTrigger x =? FILLP_ITEM_RESEND_TRIGGER_HNACK) || UTILS_FLAGS_CHECK (flags (pkt x)) FILLP_ITEM_FLAGS_LAST_PKT in
  Some (sentBytes, setItem a x (s <| appLimited := false |> <| isLast := last |>)).

Fixpoint sendLoop (fuel : nat) (env : Env) (answers : list (Z * Z)) (sentBytes totalBytes : Z) (s : FillpSendPcb) : option (Z * FillpSendPcb) :=
  match fuel with
  | O => None
  | S fuel' =>
      if sentBytes <=? totalBytes then
        '(item, s) ← FillpGetSendItem s;
        match item with
        | None =>
            let '(curSize, askMoreRet) := default (0, 0) (head answers) in
            let '(again, s) := FillpIsAskMoreBuf curSize askMoreRet s in
            if (again : bool) then sendLoop fuel' env (tail answers) sentBytes totalBytes s
            else s ← FillpDoneSendAllData s; Some (sentBytes, s)
        | Some a =>
            let s := s <| sendOneNoData := false |> in
            '(sentBytes, s) ← FillpBeforeSendItem a sentBytes totalBytes s;
            '(ret, s) ← SpungeItemRouteByToken env a s;
            if negb (ret =? ERR_OK) then Some (sentBytes, s) else sendLoop fuel' env answers sentBytes totalBytes s
        end
      else Some (sentBytes, s)
  end.

(** A turn for every item that waits, for every growth of the pool, and one more. *)
Definition FillpSendOne (env : Env) (totalBytes sendPktNum : Z) (s : FillpSendPcb) : option (Z * FillpSendPcb) :=
  s ← FillpMoveRedundantItemToUnrecvList s;
  s ← (if FILLP_MAXIMAL_ACK_NUM_LIMITATION <? mpSendSize cfg then FillpAckSendPcb (s32 (Z.max (u32 (2 * sendPktNum)) FILLP_SEND_ONE_ACK_NUM)) s else Some s);
  sendLoop (S (Z.to_nat (ilNum (unrecvList s)) + length (unSendList s) + length (more env))) env (more env) 0 totalBytes s.

(** The bytes that may be sent now, and the number of packets. *)
Definition SpungeCalExpectedBytes (env : Env) (detaTime : Z) (s : FillpSendPcb) : Z * Z :=
  let pktNum := if sendInterval env =? 0 then txBurst env else u32 (detaTime ÷ sendInterval env) in
  if pktNum <=? txBurst env then
    let bitsExpected := Z.shiftr (u64 (s64 (detaTime * sendRate env) ÷ FILLP_ONE_SECOND)) FILLP_TIME_PRECISION in
    (u32 (u32 (Z.shiftr bitsExpected 3) + remainBytes s), pktNum)
  else (u32 (txBurst env * pktSize cfg), txBurst env).

Definition SpungeDoSendUpdate (sendBytes bytesExpected : Z) (s : FillpSendPcb) : FillpSendPcb :=
  s <| remainBytes := if (0 <? sendBytes) && (sendBytes <=? bytesExpected) then bytesExpected - sendBytes else 0 |>.

Definition SpungeDoSendCycle (env : Env) (detaTime : Z) (s : FillpSendPcb) : option FillpSendPcb :=
  let s := s <| sendTime := curTime env |> in
  let '(bytesExpected, sendPktNum) := SpungeCalExpectedBytes env detaTime s in
  s ← (if pktSize cfg <=? bytesExpected then
         '(sendBytes, s) ← FillpSendOne env (bytesExpected - pktSize cfg) sendPktNum s;
         Some (SpungeDoSendUpdate sendBytes bytesExpected s)
       else Some (s <| remainBytes := bytesExpected |>));
  Some (if negb (remainBytes s =? 0) || negb (bool_decide (unSendList s = [])) || negb (ilNum (redunList s) =? 0) || negb (ilNum (unrecvList s) =? 0)
        then FillpEnableSendTimer env s else FillpDisableSendTimer s).

Definition realDetaTime (env : Env) (s : FillpSendPcb) : Z := s64 (shl64 (u64 (curTime env - sendTime s)) FILLP_TIME_PRECISION).

Definition FillpPcbSendFc (env : Env) (s : FillpSendPcb) : option FillpSendPcb :=
  if sendTimer s then Some s
  else if (sendTime s =? 0) || (sendInterval env <=? realDetaTime env s) then SpungeDoSendCycle env (realDetaTime env s) s
  else Some (FillpEnableSendTimer env s).

(** The node of an item that is submitted must be in no list. *)
Definition submit (a : nat) (x : FillpPcbItem) (s : FillpSendPcb) : option FillpSendPcb :=
  if bool_decide (a ∈ unSendList s) then None
  else Some (setItem a (mkSendItem x 0 0 0 0 0) (s <| unSendList := unSendList s ++ [a] |>)).

Fixpoint submitAll (l : list (nat * FillpPcbItem)) (s : FillpSendPcb) : option FillpSendPcb :=
  match l with
  | [] => Some s
  | (a, x) :: l => s ← submit a x s; submitAll l s
  end.

(** [sem]: the thread got the lock of the instance. *)
Definition FillpPcbSend (env : Env) (sem : bool) (l : list (nat * FillpPcbItem)) (s : FillpSendPcb) : option FillpSendPcb :=
  if negb sem then Some s
  else s ← submitAll l s; FillpPcbSendFc env s.

(** The timer is not set any more when its callback runs. *)
Definition FillpSendTimerCb (env : Env) (s : FillpSendPcb) : option FillpSendPcb :=
  let s := s <| sendTimer := false |> in
  if sendInterval env <=? realDetaTime env s then SpungeDoSendCycle env (realDetaTime env s) s
  else Some (FillpEnableSendTimer env s).

(** ** The start of a connection *)

(** The number of lists of [pktSeqMap]: a power of two. *)
Fixpoint doubled (n : nat) (size mpSendSize : Z) : Z :=
  match n with
  | O => size
  | S n' => if size <=? mpSendSize then doubled n' (Z.shiftl size 1) mpSendSize else size
  end.

(** Ten doublings are enough for sizes up to the largest. *)
Definition pktSeqMapSize (mpSendSize : Z) : Z :=
  if FILLP_MAX_PKTSEQ_HASH_SIZE <? mpSendSize then FILLP_MAX_PKTSEQ_HASH_SIZE
  else if Z.land mpSendSize (mpSendSize - 1) =? 0 then mpSendSize
  else doubled 10 1 mpSendSize.

(** The state after FillpInitSendpcb when every allocation succeeds, with the numbers that the
    handshake sets ([start] and [num]); [lists]: a skip list as SkiplistInit leaves it. *)
Definition newPcb (lists : L) (start num cache : Z) (bucket : SpungeTokenBucke) : FillpSendPcb :=
  mkSend ∅ [] lists lists lists (replicate (Z.to_nat FILLP_UNACK_HASH_SIZE) []) 0 (replicate (Z.to_nat (pktSeqMapSize (mpSendSize cfg))) []) None
    start num start start cache 0 0 false 0 0 0 0 0 0 0 0 0 0 false false false false 0 CONN_STATE_CONNECTED bucket [].

(** ** The end of a connection *)

Fixpoint freeSkip (n : nat) (get : FillpSendPcb -> L) (put : L -> FillpSendPcb -> FillpSendPcb) (s : FillpSendPcb) : option FillpSendPcb :=
  match n with
  | O => Some s
  | S n' =>
      '(item, l) ← ilPop (get s);
      s ← (match item with Some a => FillpFreeBufItem a (put l s) | None => Some (put l s) end);
      freeSkip n' get put s
  end.

Fixpoint freeAll (l : list nat) (s : FillpSendPcb) : option FillpSendPcb :=
  match l with
  | [] => Some s
  | a :: l => s ← FillpFreeBufItem a s; freeAll l s
  end.

Definition FillpPcbFreeSendItemArray (s : FillpSendPcb) : option FillpSendPcb :=
  s ← freeSkip (Z.to_nat (ilNum (itemWaitTokenLists s))) itemWaitTokenLists (fun l s => s <| itemWaitTokenLists := l |>) s;
  s ← freeAll (unSendList s) s;
  let s := s <| unSendList := [] |> in
  s ← freeAll (concat (unackMap s)) s;
  let s := s <| unackMap := map (fun _ => []) (unackMap s) |> in
  s ← freeSkip (Z.to_nat (ilNum (unrecvList s))) unrecvList (fun l s => s <| unrecvList := l |>) s;
  freeSkip (Z.to_nat (ilNum (redunList s))) redunList (fun l s => s <| redunList := l |>) s.

End Model.

End FillpSend.
