(* ===== verification/FillpKept.v ===== *)
(** * Items of the sender are kept until they are acknowledged

    The invariant of the sending side ([FillpSend]) and what it shows: an item that the application
    has submitted is in exactly one list until the receiver has acknowledged it; no item is freed
    twice or used after it was freed; the lists and hash maps stay well formed; and whenever there
    is something to send, the send timer is set. *)

From S2P Require Import Prelude ErrorCode Bytes SkipList FillpItem FillpSend.
From stdpp Require Import gmap list sorting.
#[local] Open Scope Z_scope.

Module FillpKept.
Import FillpItem FillpSend.

(** ** Lists of a hash map *)

Lemma elem_delete l a b : b ∈ HlistDelete l a <-> b <> a /\ b ∈ l.
Proof. unfold HlistDelete. rewrite list_elem_of_filter. tauto. Qed.

Lemma delete_not_in l a : a ∉ l -> HlistDelete l a = l.
Proof.
  intros Ha. unfold HlistDelete. induction l as [|b l IH]; [reflexivity|]. rewrite not_elem_of_cons in Ha. destruct Ha as [Hb Ha].
  rewrite filter_cons_True by congruence. now rewrite IH.
Qed.

Lemma delete_head a l : NoDup (a :: l) -> HlistDelete (a :: l) a = l.
Proof. intros [Ha _]%NoDup_cons. unfold HlistDelete. rewrite filter_cons_False by (intros C; now apply C). now apply delete_not_in. Qed.

Lemma delete_perm a l : NoDup l -> a ∈ l -> Permutation l (a :: HlistDelete l a).
Proof.
  intros Hd Ha. apply list_elem_of_split in Ha as (l1 & l2 & ->). apply NoDup_app in Hd as (_ & Hd & Hd2). apply NoDup_cons in Hd2 as [Ha2 _].
  assert (Ha1 : a ∉ l1) by (intros C; apply (Hd a C); left). unfold HlistDelete. rewrite filter_app, filter_cons_False by (intros C; now apply C).
  fold (HlistDelete l1 a) (HlistDelete l2 a). rewrite !delete_not_in by assumption. symmetry. apply Permutation_middle.
Qed.

Lemma concat_del a m : concat (HlistDelNode a m) = HlistDelete (concat m) a.
Proof. unfold HlistDelNode, HlistDelete. induction m as [|l m IH]; [reflexivity|]. cbn. now rewrite filter_app, IH. Qed.

Lemma elem_concat (m : list (list nat)) a : a ∈ concat m <-> exists j l, m !! j = Some l /\ a ∈ l.
Proof.
  rewrite list_elem_of_In, in_concat. split.
  - intros (l & Hl & Ha). apply list_elem_of_In in Hl, Ha. apply list_elem_of_lookup in Hl as [j Hj]. eauto.
  - intros (j & l & Hj & Ha). exists l. split; apply list_elem_of_In; [|exact Ha]. apply list_elem_of_lookup. eauto.
Qed.

Lemma linked_spec a m : linked a m = bool_decide (a ∈ concat m).
Proof.
  unfold linked. apply eq_true_iff_eq. rewrite existsb_exists, bool_decide_eq_true, list_elem_of_In, in_concat. split.
  - intros (l & Hl & Ha). apply bool_decide_eq_true, list_elem_of_In in Ha. eauto.
  - intros (l & Hl & Ha). exists l. split; [exact Hl|]. now apply bool_decide_eq_true, list_elem_of_In.
Qed.

(** A list of the map is changed. *)
Lemma concat_set (m : list (list nat)) j l l' : m !! j = Some l -> exists p q, concat m = p ++ l ++ q /\ concat (<[j := l']> m) = p ++ l' ++ q.
Proof.
  intros Hj. exists (concat (take j m)), (concat (drop (S j) m)). split.
  - rewrite <- (take_drop_middle m j l Hj) at 1. now rewrite concat_app.
  - rewrite insert_take_drop by (now apply lookup_lt_Some in Hj). now rewrite concat_app.
Qed.

Lemma concat_added (m : list (list nat)) j p q a : m !! j = Some (p ++ q) -> Permutation (concat (<[j := p ++ a :: q]> m)) (a :: concat m).
Proof.
  intros Hj. destruct (concat_set m j (p ++ q) (p ++ a :: q) Hj) as (u & v & -> & ->). rewrite <- !app_assoc. cbn.
  rewrite app_assoc, (app_assoc u p). symmetry. apply Permutation_middle.
Qed.

Lemma delete_in_list m j l a : NoDup (concat m) -> m !! j = Some l -> a ∈ l -> <[j := HlistDelete l a]> m = HlistDelNode a m.
Proof.
  revert j. induction m as [|l0 m IH]; intros j Hd Hj Ha; [discriminate|]. cbn in Hd. apply NoDup_app in Hd as (_ & Hd & Hd2).
  destruct j as [|j]; cbn in Hj |- *.
  - injection Hj as ->. f_equal. unfold HlistDelNode. rewrite <- (map_id m) at 1. apply map_ext_in. intros l' Hl'. symmetry. apply delete_not_in.
    intros C. apply (Hd a Ha). rewrite list_elem_of_In, in_concat. exists l'. split; [exact Hl'|]. now apply list_elem_of_In.
  - change (l0 :: <[j := HlistDelete l a]> m = HlistDelete l0 a :: HlistDelNode a m). rewrite (IH j Hd2 Hj Ha). f_equal. symmetry. apply delete_not_in. intros C. apply (Hd a C). apply elem_concat. eauto.
Qed.

Lemma lookup_del a m j : HlistDelNode a m !! j = (fun l => HlistDelete l a) <$> m !! j.
Proof. unfold HlistDelNode. apply list_lookup_fmap. Qed.

Lemma sorted_delete {A} (R : A -> A -> Prop) (f : nat -> A) l a : StronglySorted R (map f l) -> StronglySorted R (map f (HlistDelete l a)).
Proof.
  induction l as [|b l IH]; [easy|]. intros Hs. inversion Hs as [|? ? Hs' Hb]; subst. unfold HlistDelete. destruct (decide (b = a)) as [-> |Hne].
  - rewrite filter_cons_False by (intros C; now apply C). auto.
  - rewrite filter_cons_True by exact Hne. cbn [map]. constructor; [auto|]. rewrite Forall_forall in *. intros x Hx. apply list_elem_of_fmap in Hx as (c & -> & Hc).
    apply elem_delete in Hc as [_ Hc]. apply Hb. apply list_elem_of_fmap. eauto.
Qed.

(** ** The invariant *)

Section Kept.

(** The items of the application in their order and the number before the first; the addresses of
    the pool. *)
Context {L : Type} `{ItemListLaws nat id L} (cfg : Config) (stream : list FillpPcbItem) (base : Z) (M : nat -> Prop).
#[local] Abbreviation pos := (FillpItem.pos stream base).
#[local] Abbreviation Pcb := (FillpSendPcb (L := L)).

Definition numbered : Prop := forall i x, stream !! i = Some x -> sendable x /\ seqNum x = u32 (pos (S i)).

Hypothesis stream_ok : numbered.

Lemma stream_sizes : sized stream.
Proof. intros i x E. destruct (stream_ok i x E) as (Hs & _). apply (sb_data _ Hs). Qed.

#[local] Abbreviation pos_step := (FillpItem.pos_step stream base stream_sizes).
#[local] Abbreviation pos_lt := (FillpItem.pos_lt stream base stream_sizes).
#[local] Abbreviation pos_le := (FillpItem.pos_le stream base stream_sizes).

(** Numbers that are compared are closer than this. *)
Definition WINDOW : Z := 1073741824.

(** What is not in the state: how many items are numbered and submitted; the item of an address, the
    full packet number it was sent with; the full packet number of the connection and a bound of it;
    the full numbers behind [maxAckNumFromReceiver] and [ackSeqNum]; the addresses in the three skip
    lists, and the item that is being moved. *)
Record Ghost := mkGhost {
  gk : nat; gm : nat; gidx : nat -> nat; gpn : nat -> Z; gN : Z; gT : Z; gA : Z; gB : Z;
  gu : list nat; gr : list nat; gw : list nat; gc : list nat
}.
#[export] Instance etaGhost : Eta Ghost := mkEta _ (fun x =>
  mkGhost (gk x) (gm x) (gidx x) (gpn x) (gN x) (gT x) (gA x) (gB x) (gu x) (gr x) (gw x) (gc x)).

Record Nums (s : Pcb) (g : Ghost) : Prop := {
  n_k : (gk g <= gm g <= length stream)%nat;
  n_seq : sSeqNum s = u32 (pos (gk g));
  n_ack : ackSeqNum s = u32 (gB g);
  n_max : maxAckNumFromReceiver s = u32 (gA g);
  n_order : gB g <= gA g <= pos (gk g);
  n_win : pos (gm g) - gB g < WINDOW;
  n_num : sPktNum s = u32 (gN g)
}.

(** [P]: the addresses of the numbered items. *)
Record Held (it : gmap nat SendItem) (un : list nat) (pre : option nat) (g : Ghost) (P : list nat) : Prop := {
  h_dom : forall a, is_Some (it !! a) <-> a ∈ P ++ un;
  h_nodup : NoDup (P ++ un);
  h_item : forall a, a ∈ P -> (gidx g a < gk g)%nat;
  h_seq : forall a x, it !! a = Some x -> a ∈ P -> seqNum (pkt x) = u32 (pos (S (gidx g a)));
  h_data : forall a x, it !! a = Some x -> exists y, stream !! gidx g a = Some y /\ sameData y (pkt x);
  h_unsent : map (gidx g) un = seq (gk g) (gm g - gk g);
  h_idx : NoDup (map (gidx g) P);
  h_kept : forall i, (i < gk g)%nat -> gA g < pos (S i) -> exists a, a ∈ P /\ gidx g a = i;
  h_win : forall a, a ∈ P -> pos (gm g) - pos (S (gidx g a)) < WINDOW;
  h_own : forall a, a ∈ P ++ un -> M a;
  h_pre : forall a, pre = Some a -> is_Some (it !! a)
}.

Definition inOrder (g : Ghost) (l : list nat) : Prop := StronglySorted lt (map (gidx g) l).

Record Skips (s : Pcb) (g : Ghost) : Prop := {
  k_u : ilHolds (unrecvList s) (gu g);
  k_r : ilHolds (redunList s) (gr g);
  k_w : ilHolds (itemWaitTokenLists s) (gw g);
  k_su : inOrder g (gu g);
  k_sr : inOrder g (gr g);
  k_sw : inOrder g (gw g);
  k_mem : forall a, M a -> ilMemory (unrecvList s) a /\ ilMemory (redunList s) a /\ ilMemory (itemWaitTokenLists s) a
}.

Definition hashOf (z : Z) (n : nat) : nat := Z.to_nat (Z.land z (Z.of_nat n - 1)).

Record Maps (it : gmap nat SendItem) (un pk : list (list nat)) (cnt : Z) (g : Ghost) : Prop := {
  m_len : length un = Z.to_nat FILLP_UNACK_HASH_SIZE;
  m_sorted : forall j l, un !! j = Some l -> inOrder g l;
  m_hash : forall j l a, un !! j = Some l -> a ∈ l -> hashOf (u32 (pos (S (gidx g a))) / FILLP_UNACK_HASH_MOD) (length un) = j;
  m_count : cnt = Z.of_nat (length (concat un));
  m_plen : (0 < length pk)%nat;
  m_perm : Permutation (concat pk) (concat un);
  m_psorted : forall j l, pk !! j = Some l -> StronglySorted Z.lt (map (gpn g) l);
  m_phash : forall j l a, pk !! j = Some l -> a ∈ l -> hashOf (u32 (gpn g a)) (length pk) = j;
  m_pnum : forall a x, a ∈ concat pk -> it !! a = Some x -> pktNum (pkt x) = u32 (gpn g a);
  m_pwin : forall a, a ∈ concat pk -> gpn g a <= gN g /\ gT g - gpn g a < WINDOW;
  m_top : gN g <= gT g
}.

Definition fromStream (k : nat) (p : list byte) : Prop :=
  exists i y now num n y', (i < k)%nat /\ stream !! i = Some y /\ FillpBuildDataPkt now num y = Some (n, y', p).

Definition places (s : Pcb) (g : Ghost) : list nat := gc g ++ gu g ++ gr g ++ gw g ++ concat (unackMap s).

Record Inv (s : Pcb) (g : Ghost) : Prop := {
  i_nums : Nums s g;
  i_held : Held (items s) (unSendList s) (preItem s) g (places s g);
  i_skips : Skips s g;
  i_maps : Maps (items s) (unackMap s) (pktSeqMap s) (unackCount s) g;
  i_wire : Forall (fromStream (gk g)) (wire s)
}.

(** ** Moves *)

Lemma held_perm it un pre g P P' : Permutation P P' -> Held it un pre g P -> Held it un pre g P'.
Proof.
  intros Hp [H1 H2 H3 H4 H5 H6 H7 H8 H9 H10 H11]. assert (He : forall a, a ∈ P' <-> a ∈ P) by (intros a; now rewrite Hp).
  assert (Hpu : Permutation (P ++ un) (P' ++ un)) by now apply Permutation_app_tail.
  split; try assumption.
  - intros a. now rewrite H1, Hpu.
  - now rewrite <- Hpu.
  - intros a. rewrite He. apply H3.
  - intros a x. rewrite He. apply H4.
  - now rewrite <- Hp.
  - intros i Hi HA. destruct (H8 i Hi HA) as (a & Ha & E). exists a. now rewrite He.
  - intros a. rewrite He. apply H9.
  - intros a. rewrite <- Hpu. apply H10.
Qed.

(** An item is changed in what is not data. *)
Lemma held_item it un pre g P a x x' : Held it un pre g P -> it !! a = Some x -> seqNum (pkt x') = seqNum (pkt x) ->
  (forall y, sameData y (pkt x) -> sameData y (pkt x')) -> Held (<[a := x']> it) un pre g P.
Proof.
  intros V Hx Hq Hd. assert (Hs : forall b, is_Some (<[a := x']> it !! b) <-> is_Some (it !! b)).
  { intros b. destruct (decide (a = b)) as [<- |Hne]; [rewrite lookup_insert_eq, Hx; split; eauto|now rewrite lookup_insert_ne]. }
  split; try apply V.
  - intros b. rewrite Hs. apply V.
  - intros b z Hb Hp. destruct (decide (a = b)) as [<- |Hne]; [|rewrite lookup_insert_ne in Hb by done; eapply h_seq; eassumption].
    rewrite lookup_insert_eq in Hb. injection Hb as <-. rewrite Hq. eapply h_seq; eassumption.
  - intros b z Hb. destruct (decide (a = b)) as [<- |Hne]; [|rewrite lookup_insert_ne in Hb by done; eapply h_data; eassumption].
    rewrite lookup_insert_eq in Hb. injection Hb as <-. destruct (h_data _ _ _ _ _ V a x Hx) as (y & Ey & Hy). eauto.
  - intros b Hb. rewrite Hs. exact (h_pre _ _ _ _ _ V b Hb).
Qed.

(** The items that are compared are close to each other. *)
Lemma held_close it un pre g P a b : Held it un pre g P -> (gk g <= gm g <= length stream)%nat -> a ∈ P -> b ∈ P -> in_s32 (pos (S (gidx g a)) - pos (S (gidx g b))).
Proof.
  intros V Hk Ha Hb. pose proof (h_win _ _ _ _ _ V a Ha). pose proof (h_win _ _ _ _ _ V b Hb). pose proof (h_item _ _ _ _ _ V a Ha). pose proof (h_item _ _ _ _ _ V b Hb).
  pose proof (pos_le (S (gidx g a)) (gm g) ltac:(lia)). pose proof (pos_le (S (gidx g b)) (gm g) ltac:(lia)). unfold in_s32, WINDOW in *. lia.
Qed.

Lemma pos_cmp i j : (i < length stream)%nat -> (j < length stream)%nat -> (pos (S i) <? pos (S j)) = (i <? j)%nat.
Proof.
  intros Hi Hj. destruct (Nat.ltb_spec i j) as [Hl|Hl].
  - apply Z.ltb_lt. apply pos_lt. lia.
  - apply Z.ltb_ge. apply pos_le. lia.
Qed.

Lemma item_bigger it un pre g P a b x y : Held it un pre g P -> (gk g <= gm g <= length stream)%nat -> a ∈ P -> b ∈ P -> it !! a = Some x -> it !! b = Some y ->
  FillpNumIsbigger (seqNum (pkt x)) (seqNum (pkt y)) = (gidx g b <? gidx g a)%nat /\ (seqNum (pkt x) =? seqNum (pkt y)) = (gidx g a =? gidx g b)%nat.
Proof.
  intros V Hk Ha Hb Hx Hy. rewrite (h_seq _ _ _ _ _ V a x Hx Ha), (h_seq _ _ _ _ _ V b y Hy Hb). pose proof (held_close _ _ _ _ _ a b V Hk Ha Hb) as Hc.
  pose proof (h_item _ _ _ _ _ V a Ha). pose proof (h_item _ _ _ _ _ V b Hb). rewrite bigger_pos by exact Hc. rewrite pos_cmp by lia. split; [reflexivity|].
  destruct (Nat.eqb_spec (gidx g a) (gidx g b)) as [-> |Hne]; [apply Z.eqb_refl|]. apply Z.eqb_neq. intros E. apply u32_inj in E; [|exact Hc].
  destruct (Nat.lt_gt_cases (gidx g a) (gidx g b)) as [Hlt _]. destruct (Hlt Hne) as [Hl|Hl]; [pose proof (pos_lt (S (gidx g a)) (S (gidx g b)) ltac:(lia))|pose proof (pos_lt (S (gidx g b)) (S (gidx g a)) ltac:(lia))]; lia.
Qed.

Lemma cmp_held (s : Pcb) g P a b : Held (items s) (unSendList s) (preItem s) g P -> (gk g <= gm g <= length stream)%nat -> a ∈ P -> b ∈ P ->
  cmpAt s a b = Z.b2z (gidx g b <? gidx g a)%nat.
Proof.
  intros V Hk Ha Hb. unfold cmpAt. assert (Hin : forall c, c ∈ P -> is_Some (items s !! c)) by (intros c Hc; apply (h_dom _ _ _ _ _ V), elem_of_app; now left).
  destruct (Hin a Ha) as [x Hx], (Hin b Hb) as [y Hy]. rewrite Hx, Hy. destruct (item_bigger _ _ _ _ _ a b x y V Hk Ha Hb Hx Hy) as [E1 E2].
  unfold FillpSkiplistCmp. rewrite E2. unfold FillpNumIsbigger in E1. rewrite E1. destruct (Nat.eqb_spec (gidx g a) (gidx g b)) as [-> |]; [now rewrite Nat.ltb_irrefl|reflexivity].
Qed.

(** An item goes into a skip list in the order of the numbers. *)
Lemma skip_insert (s : Pcb) g P (l : L) u a : Held (items s) (unSendList s) (preItem s) g P -> (gk g <= gm g <= length stream)%nat -> a ∈ P -> (forall b, b ∈ u -> b ∈ P) -> a ∉ u ->
  ilHolds l u -> inOrder g u -> ilMemory l a ->
  exists l' u', ilInsert (cmpAt s) a true l = Some (ERR_OK, l') /\ ilHolds l' u' /\ inOrder g u' /\ Permutation u' (a :: u) /\ (forall b, ilMemory l b -> ilMemory l' b).
Proof.
  intros V Hk Ha Hu Hau Hl Hs Hm. assert (Hi : gidx g a ∉ map (gidx g) u).
  { intros (b & Eb & Hb)%list_elem_of_fmap. assert (a <> b) by (intros <-; contradiction). pose proof (h_idx _ _ _ _ _ V) as Hd. specialize (Hu b Hb).
    apply list_elem_of_split in Ha as (p & q & ->). rewrite map_app in Hd. cbn in Hd. apply NoDup_app in Hd as (_ & Hd1 & Hd2). apply NoDup_cons in Hd2 as [Hd2 _].
    rewrite elem_of_app, elem_of_cons in Hu. destruct Hu as [Hp|[?|Hq]]; [|congruence|].
    - apply (Hd1 (gidx g b)); [apply list_elem_of_fmap; eauto|rewrite Eb; left].
    - apply Hd2. rewrite Eb. apply list_elem_of_fmap. eauto. }
  destruct (insert_by_index (cmpAt s) a (gidx g a) (map (gidx g) u) u Hs) as (Hsp & _ & Hins).
  { apply Forall2_fmap_l, Forall_Forall2_diag. apply Forall_forall. intros b Hb. split; apply (cmp_held s g P); auto. }
  destruct (Hins Hi) as (ip & iq & p & q & E1 & E2 & E3 & E4 & E5).
  destruct (ilInsert_law (cmpAt s) l u a true Hl Hm) as (l' & El & Hl' & Hm'); [cbn; now rewrite map_id|exact Hsp|]. rewrite E4 in El, Hl'. cbn in El, Hl'.
  exists l', (p ++ a :: q). split; [exact El|]. split; [exact Hl'|]. split.
  - unfold inOrder. rewrite map_app. cbn. rewrite E2, map_app in E1. apply app_inj_1 in E1 as [-> ->]; [exact E5|]. now rewrite length_fmap.
  - split; [rewrite E2; symmetry; apply Permutation_middle|exact Hm'].
Qed.

(** What the invariant reads. *)
Definition core (s : Pcb) :=
  (items s, unSendList s, (unrecvList s, redunList s, itemWaitTokenLists s), (unackMap s, unackCount s, pktSeqMap s), preItem s,
   (sSeqNum s, sPktNum s, ackSeqNum s, maxAckNumFromReceiver s), wire s).

Lemma inv_core (s s' : Pcb) g : core s' = core s -> Inv s g -> Inv s' g.
Proof.
  unfold core. intros E [[N1 N2 N3 N4 N5 N6 N7] Hh [K1 K2 K3 K4 K5 K6 K7] Hm Hw]. injection E as E1 E2 E3 E4 E5 E6 E7 E8 E9 E10 E11 E12 E13 E14.
  split; [split; congruence| |split; rewrite ?E3, ?E4, ?E5; assumption|congruence|congruence]. unfold places in *. congruence.
Qed.

Lemma perm_put {A} (a : A) x w w' y : Permutation w' (a :: w) -> Permutation (a :: x ++ w ++ y) (x ++ w' ++ y).
Proof. intros ->. cbn. apply Permutation_middle. Qed.

Lemma places_in (s : Pcb) g a : a ∈ places s g <-> a ∈ gc g \/ a ∈ gu g \/ a ∈ gr g \/ a ∈ gw g \/ a ∈ concat (unackMap s).
Proof. unfold places. rewrite !elem_of_app. tauto. Qed.

Lemma places_nodup (s : Pcb) g : Inv s g -> NoDup (places s g).
Proof. intros V. pose proof (h_nodup _ _ _ _ _ (i_held _ _ V)) as Hd. now apply NoDup_app in Hd as [Hd _]. Qed.

(** The item in hand is in no other place. *)
Lemma hand_apart (s : Pcb) g a c : Inv s g -> gc g = a :: c -> a ∉ c ++ gu g ++ gr g ++ gw g ++ concat (unackMap s).
Proof. intros V Ec. pose proof (places_nodup s g V) as Hd. unfold places in Hd. rewrite Ec in Hd. now apply NoDup_cons in Hd as [Hd _]. Qed.

Lemma hand_own (s : Pcb) g a : Inv s g -> a ∈ places s g -> M a /\ is_Some (items s !! a).
Proof. intros V Ha. pose proof (i_held _ _ V) as Hh. split; [apply (h_own _ _ _ _ _ Hh)|apply (h_dom _ _ _ _ _ Hh)]; apply elem_of_app; now left. Qed.

Lemma insertUnrecv_ok (s : Pcb) g a c : Inv s g -> gc g = a :: c -> exists l u, insertUnrecv a s = Some (ERR_OK, s <| unrecvList := l |>) /\
  Permutation u (a :: gu g) /\ Inv (s <| unrecvList := l |>) (g <| gu := u |> <| gc := c |>).
Proof.
  intros V Ec. pose proof (hand_apart s g a c V Ec) as Hap. rewrite !elem_of_app in Hap. assert (Ha : a ∈ places s g) by (apply places_in; left; rewrite Ec; left).
  destruct (hand_own s g a V Ha) as [Hm _]. destruct V as [Hn Hh [K1 K2 K3 K4 K5 K6 K7] Hmap Hw].
  destruct (skip_insert s g (places s g) (unrecvList s) (gu g) a Hh (n_k _ _ Hn) Ha) as (l & u & E & Hl & Hs & Hp & Hmem);
    [intros b Hb; apply places_in; tauto|tauto|exact K1|exact K4|now apply K7|].
  exists l, u. unfold insertUnrecv. rewrite E. cbn [mbind option_bind]. split; [reflexivity|]. split; [exact Hp|].
  split; [destruct Hn; now split| |split; cbn; try assumption; intros b Hb; destruct (K7 b Hb) as (? & ? & ?); auto|destruct Hmap; now split|exact Hw].
  apply (held_perm _ _ _ _ (places s g)); [|destruct Hh; now split]. unfold places. cbn. rewrite Ec. cbn. rewrite (app_assoc c). rewrite (app_assoc c u).
  rewrite <- !(app_assoc c). now apply perm_put.
Qed.

Lemma insertWait_ok (s : Pcb) g a c : Inv s g -> gc g = a :: c -> exists l w, ilInsert (cmpAt s) a true (itemWaitTokenLists s) = Some (ERR_OK, l) /\
  Permutation w (a :: gw g) /\ Inv (s <| itemWaitTokenLists := l |>) (g <| gw := w |> <| gc := c |>).
Proof.
  intros V Ec. pose proof (hand_apart s g a c V Ec) as Hap. rewrite !elem_of_app in Hap. assert (Ha : a ∈ places s g) by (apply places_in; left; rewrite Ec; left).
  destruct (hand_own s g a V Ha) as [Hm _]. destruct V as [Hn Hh [K1 K2 K3 K4 K5 K6 K7] Hmap Hw].
  destruct (skip_insert s g (places s g) (itemWaitTokenLists s) (gw g) a Hh (n_k _ _ Hn) Ha) as (l & w & E & Hl & Hs & Hp & Hmem);
    [intros b Hb; apply places_in; tauto|tauto|exact K3|exact K6|now apply K7|].
  exists l, w. split; [exact E|]. split; [exact Hp|].
  split; [destruct Hn; now split| |split; cbn; try assumption; intros b Hb; destruct (K7 b Hb) as (? & ? & ?); auto|destruct Hmap; now split|exact Hw].
  apply (held_perm _ _ _ _ (places s g)); [|destruct Hh; now split]. unfold places. cbn. rewrite Ec. cbn. rewrite !(app_assoc _ _ (_ ++ concat _)).
  rewrite <- !(app_assoc _ _ (_ ++ concat _)). rewrite (app_assoc (gu g)), (app_assoc (gu g) (gr g) (w ++ _)), (app_assoc c), (app_assoc c _ (w ++ _)). now apply perm_put.
Qed.

(** The first item of a list is taken out. *)
Lemma popUnrecv_ok (s : Pcb) g : Inv s g -> exists l, ilPop (unrecvList s) = Some (gu g !! 0%nat, l) /\
  Inv (s <| unrecvList := l |>) (g <| gc := take 1 (gu g) ++ gc g |> <| gu := drop 1 (gu g) |>).
Proof.
  intros [Hn Hh [K1 K2 K3 K4 K5 K6 K7] Hmap Hw]. destruct (ilPop_law _ _ K1) as (l & E & Hl & Hmem). exists l. split; [exact E|].
  split; [destruct Hn; now split| | |destruct Hmap; now split|exact Hw].
  - apply (held_perm _ _ _ _ (places s g)); [|destruct Hh; now split]. unfold places. cbn. destruct (gu g) as [|a u]; [reflexivity|]. cbn. rewrite drop_0. symmetry. apply Permutation_middle.
  - split; cbn; try assumption; [|intros b Hb; destruct (K7 b Hb) as (? & ? & ?); auto]. unfold inOrder in *. destruct (gu g); [exact K4|]. cbn. rewrite drop_0. now inversion K4.
Qed.

Lemma popRedun_ok (s : Pcb) g : Inv s g -> exists l, ilPop (redunList s) = Some (gr g !! 0%nat, l) /\
  Inv (s <| redunList := l |>) (g <| gc := take 1 (gr g) ++ gc g |> <| gr := drop 1 (gr g) |>).
Proof.
  intros [Hn Hh [K1 K2 K3 K4 K5 K6 K7] Hmap Hw]. destruct (ilPop_law _ _ K2) as (l & E & Hl & Hmem). exists l. split; [exact E|].
  split; [destruct Hn; now split| | |destruct Hmap; now split|exact Hw].
  - apply (held_perm _ _ _ _ (places s g)); [|destruct Hh; now split]. unfold places. cbn. destruct (gr g) as [|a u]; [reflexivity|]. cbn. rewrite drop_0.
    rewrite !(app_assoc (gc g)). symmetry. apply Permutation_middle.
  - split; cbn; try assumption; [|intros b Hb; destruct (K7 b Hb) as (? & ? & ?); auto]. unfold inOrder in *. destruct (gr g); [exact K5|]. cbn. rewrite drop_0. now inversion K5.
Qed.

Lemma popWait_ok (s : Pcb) g : Inv s g -> exists l, ilPop (itemWaitTokenLists s) = Some (gw g !! 0%nat, l) /\
  Inv (s <| itemWaitTokenLists := l |>) (g <| gc := take 1 (gw g) ++ gc g |> <| gw := drop 1 (gw g) |>).
Proof.
  intros [Hn Hh [K1 K2 K3 K4 K5 K6 K7] Hmap Hw]. destruct (ilPop_law _ _ K3) as (l & E & Hl & Hmem). exists l. split; [exact E|].
  split; [destruct Hn; now split| | |destruct Hmap; now split|exact Hw].
  - apply (held_perm _ _ _ _ (places s g)); [|destruct Hh; now split]. unfold places. cbn. destruct (gw g) as [|a u]; [reflexivity|]. cbn. rewrite drop_0.
    rewrite (app_assoc (gu g)), (app_assoc (gc g)), (app_assoc (gu g) (gr g) (u ++ _)), (app_assoc (gc g) _ (u ++ _)). symmetry. apply Permutation_middle.
  - split; cbn; try assumption; [|intros b Hb; destruct (K7 b Hb) as (? & ? & ?); auto]. unfold inOrder in *. destruct (gw g); [exact K6|]. cbn. rewrite drop_0. now inversion K6.
Qed.

Lemma held_free it un pre g a P : Held it un pre g (a :: P) -> pos (S (gidx g a)) <= gA g ->
  Held (delete a it) un (if bool_decide (pre = Some a) then None else pre) g P.
Proof.
  intros V HA. pose proof (h_nodup _ _ _ _ _ V) as Hd. cbn in Hd. apply NoDup_cons in Hd as [Ha Hd].
  assert (Hne : forall b, b ∈ P ++ un -> b <> a) by (intros b Hb ->; contradiction). assert (Hin : forall b, b ∈ P -> b ∈ P ++ un) by (intros; apply elem_of_app; now left).
  split; try exact Hd.
  - intros b. rewrite lookup_delete_is_Some, (h_dom _ _ _ _ _ V). cbn. rewrite elem_of_cons. split; [intros [Hb [->|Hc]]; [congruence|exact Hc]|].
    intros Hb. split; [intros ->; contradiction|now right].
  - intros b Hb. apply (h_item _ _ _ _ _ V). now right.
  - intros b x Hb Hp. rewrite lookup_delete_Some in Hb. destruct Hb as [_ Hb]. apply (h_seq _ _ _ _ _ V b x Hb). now right.
  - intros b x Hb. rewrite lookup_delete_Some in Hb. apply (h_data _ _ _ _ _ V b x), Hb.
  - apply V.
  - pose proof (h_idx _ _ _ _ _ V) as Hi. cbn in Hi. now apply NoDup_cons in Hi as [_ Hi].
  - intros i Hi HAi. destruct (h_kept _ _ _ _ _ V i Hi HAi) as (b & Hb & Eb). exists b. apply elem_of_cons in Hb as [-> |Hb]; [subst i; lia|now split].
  - intros b Hb. apply (h_win _ _ _ _ _ V). now right.
  - intros b Hb. apply (h_own _ _ _ _ _ V). now right.
  - intros b Hb. case_bool_decide as Hpre; [discriminate|]. rewrite lookup_delete_is_Some. split; [congruence|]. now apply (h_pre _ _ _ _ _ V).
Qed.

Lemma maps_less it it' un pk cnt g : (forall a x, it' !! a = Some x -> it !! a = Some x) -> Maps it un pk cnt g -> Maps it' un pk cnt g.
Proof. intros Hi Hm. split; try apply Hm. intros a x Ha Hx. apply (m_pnum _ _ _ _ _ Hm a x Ha). now apply Hi. Qed.

(** An item that is acknowledged is freed. *)
Lemma free_ok (s : Pcb) g a c : Inv s g -> gc g = a :: c -> pos (S (gidx g a)) <= gA g ->
  exists s', FillpFreeBufItem a s = Some s' /\ Inv s' (g <| gc := c |>) /\ sendTimer s' = sendTimer s /\ unSendList s' = unSendList s.
Proof.
  intros V Ec HA. destruct (hand_own s g a V) as [_ [x Hx]]; [apply places_in; left; rewrite Ec; left|]. unfold FillpFreeBufItem. rewrite Hx. cbn [mbind option_bind].
  eexists. split; [reflexivity|]. destruct V as [Hn Hh Hk Hmap Hw]. unfold places in Hh. rewrite Ec in Hh. cbn in Hh. apply held_free in Hh; [|exact HA].
  assert (Hl : forall b y, delete a (items s) !! b = Some y -> items s !! b = Some y) by (intros b y Hb; now rewrite lookup_delete_Some in Hb).
  apply (maps_less _ _ _ _ _ _ Hl) in Hmap.
  case_bool_decide as Hp; (split; [|now split]); (split; [destruct Hn; now split|destruct Hh; now split|destruct Hk; now split|destruct Hmap; now split|exact Hw]).
Qed.

Lemma freeEvent_ok (s : Pcb) g a c : Inv s g -> gc g = a :: c -> pos (S (gidx g a)) <= gA g ->
  exists s', FillpFreeItemAndEvent a s = Some s' /\ Inv s' (g <| gc := c |>) /\ sendTimer s' = sendTimer s /\ unSendList s' = unSendList s.
Proof.
  intros V Ec HA. destruct (free_ok s g a c V Ec HA) as (s' & E & V' & Et & Eu). unfold FillpFreeItemAndEvent. rewrite E. cbn [mbind option_bind].
  eexists. split; [reflexivity|]. split; [|now split]. now apply (inv_core s').
Qed.

(** An item leaves the hash maps. *)
Lemma unlink_ok (s : Pcb) g a : Inv s g -> a ∈ concat (unackMap s) ->
  Inv (s <| unackMap := HlistDelNode a (unackMap s) |> <| pktSeqMap := HlistDelNode a (pktSeqMap s) |> <| unackCount := unackCount s - 1 |>) (g <| gc := a :: gc g |>).
Proof.
  intros V Ha. pose proof (places_nodup s g V) as Hd. unfold places in Hd. rewrite !app_assoc in Hd. apply NoDup_app in Hd as (_ & _ & Hd).
  pose proof (delete_perm a (concat (unackMap s)) Hd Ha) as Hp. destruct V as [Hn Hh Hk Hm Hw].
  split; [destruct Hn; now split| |destruct Hk; now split| |exact Hw]; cbn.
  - apply (held_perm _ _ _ _ (places s g)); [|destruct Hh; now split]. unfold places. cbn. rewrite concat_del. rewrite Hp at 1. cbn.
    rewrite !app_assoc. symmetry. apply Permutation_middle.
  - split; cbn; rewrite ?concat_del; try apply Hm.
    + unfold HlistDelNode. rewrite length_fmap. apply Hm.
    + intros j l Hj. rewrite lookup_del in Hj. apply fmap_Some in Hj as (l0 & Hj & ->). apply sorted_delete, (m_sorted _ _ _ _ _ Hm j l0 Hj).
    + intros j l b Hj Hb. rewrite lookup_del in Hj. apply fmap_Some in Hj as (l0 & Hj & ->). apply elem_delete in Hb as [_ Hb].
      unfold HlistDelNode. rewrite length_fmap. exact (m_hash _ _ _ _ _ Hm j l0 b Hj Hb).
    + rewrite (m_count _ _ _ _ _ Hm). apply Permutation_length in Hp. rewrite Hp. cbn. lia.
    + unfold HlistDelNode. rewrite length_fmap. apply Hm.
    + unfold HlistDelete. now rewrite (m_perm _ _ _ _ _ Hm).
    + intros j l Hj. rewrite lookup_del in Hj. apply fmap_Some in Hj as (l0 & Hj & ->). apply sorted_delete, (m_psorted _ _ _ _ _ Hm j l0 Hj).
    + intros j l b Hj Hb. rewrite lookup_del in Hj. apply fmap_Some in Hj as (l0 & Hj & ->). apply elem_delete in Hb as [_ Hb].
      unfold HlistDelNode. rewrite length_fmap. exact (m_phash _ _ _ _ _ Hm j l0 b Hj Hb).
    + intros b x Hb Hx. apply elem_delete in Hb as [_ Hb]. exact (m_pnum _ _ _ _ _ Hm b x Hb Hx).
    + intros b Hb. apply elem_delete in Hb as [_ Hb]. exact (m_pwin _ _ _ _ _ Hm b Hb).
Qed.

(** The item in hand is changed in what is not data. *)
Lemma setItem_ok (s : Pcb) g a c x x' : Inv s g -> gc g = a :: c -> items s !! a = Some x -> seqNum (pkt x') = seqNum (pkt x) ->
  (forall y, sameData y (pkt x) -> sameData y (pkt x')) -> Inv (setItem a x' s) g.
Proof.
  intros V Ec Hx Hq Hd. pose proof (hand_apart s g a c V Ec) as Hap. rewrite !elem_of_app in Hap. destruct V as [Hn Hh Hk Hm Hw].
  split; [destruct Hn; now split| |destruct Hk; now split| |exact Hw].
  - now apply (held_item _ _ _ _ _ a x).
  - destruct Hm. split; try assumption. cbn. intros b y Hb Hy. destruct (decide (a = b)) as [<- |Hne]; [|rewrite lookup_insert_ne in Hy by done; eauto].
    rewrite m_perm0 in Hb. tauto.
Qed.

(** Any item may change in what is neither data nor a number. *)
Lemma touchItem_ok (s : Pcb) g a x x' : Inv s g -> items s !! a = Some x -> seqNum (pkt x') = seqNum (pkt x) -> pktNum (pkt x') = pktNum (pkt x) ->
  (forall y, sameData y (pkt x) -> sameData y (pkt x')) -> Inv (setItem a x' s) g.
Proof.
  intros [Hn Hh Hk Hm Hw] Hx Hq Hp Hd. split; [destruct Hn; now split| |destruct Hk; now split| |exact Hw].
  - now apply (held_item _ _ _ _ _ a x).
  - destruct Hm. split; try assumption. cbn. intros b y Hb Hy. destruct (decide (a = b)) as [<- |Hne]; [|rewrite lookup_insert_ne in Hy by done; eauto].
    rewrite lookup_insert_eq in Hy. injection Hy as <-. rewrite Hp. eauto.
Qed.

Lemma placeOf_bound (s : Pcb) q rl n : placeOf s q rl = Some (Some n) -> (n <= length rl)%nat.
Proof.
  induction rl as [|p rl IH]; cbn [placeOf]; [intros [= <-]; cbn; lia|]. destruct (items s !! p) as [z|]; [|discriminate]. cbn [mbind option_bind].
  destruct (_ =? _); [discriminate|]. destruct (FillpNumIsbigger _ _); [intros Em; apply IH in Em; cbn; lia|intros [= <-]; cbn; lia].
Qed.

(** Sorted lists with another element inside and at the end. *)
Lemma sorted_inside (p q : list nat) i j : StronglySorted lt ((p ++ q) ++ [j]) -> StronglySorted lt (p ++ i :: q) -> (i < j)%nat -> StronglySorted lt (p ++ i :: q ++ [j]).
Proof.
  induction p as [|z p IHp]; cbn; intros Hs Hs' Hlt.
  - inversion Hs' as [|? ? Hq Haq]; subst. constructor; [exact Hs|]. apply Forall_app. split; [exact Haq|]. now constructor.
  - inversion Hs as [|? ? H1 H2]; subst. inversion Hs' as [|? ? H3 H4]; subst. constructor; [now apply IHp|]. rewrite Forall_forall in *. intros w Hw.
    rewrite elem_of_app, elem_of_cons, elem_of_app in Hw. specialize (H2 w). specialize (H4 w). rewrite !elem_of_app in *. rewrite elem_of_cons in H4. tauto.
Qed.

Lemma sorted_end (p : list nat) i j : StronglySorted lt (p ++ [j]) -> (j < i)%nat -> StronglySorted lt ((p ++ [j]) ++ [i]).
Proof.
  induction p as [|z p IHp]; cbn; intros Hs Hlt; [repeat constructor; exact Hlt|]. inversion Hs as [|? ? H1 H2]; subst. constructor; [now apply IHp|].
  apply Forall_app. split; [exact H2|]. constructor; [|constructor]. apply Forall_app in H2 as [_ H2]. apply Forall_cons in H2 as [H2 _]. lia.
Qed.

(** The place of a number in a list that is in order. *)
Lemma placeOf_ok (s : Pcb) g P a x l : Held (items s) (unSendList s) (preItem s) g P -> (gk g <= gm g <= length stream)%nat -> a ∈ P -> items s !! a = Some x ->
  (forall b, b ∈ l -> b ∈ P /\ gidx g b <> gidx g a) -> inOrder g l ->
  exists n, placeOf s (seqNum (pkt x)) (reverse l) = Some (Some n) /\ inOrder g (take n l ++ a :: drop n l).
Proof.
  intros V Hk Ha Hx. induction l as [|b l IH] using rev_ind; intros Hl Hs; [exists 0%nat; split; [reflexivity|]; repeat constructor|].
  rewrite reverse_snoc. cbn [placeOf]. destruct (Hl b) as [Hb Hne]; [apply elem_of_app; right; left|].
  assert (Hsome : is_Some (items s !! b)) by (apply (h_dom _ _ _ _ _ V), elem_of_app; now left). destruct Hsome as [y Hy]. rewrite Hy. cbn [mbind option_bind].
  destruct (item_bigger _ _ _ _ _ b a y x V Hk Hb Ha Hy Hx) as [E1 E2]. rewrite E1, E2. destruct (Nat.eqb_spec (gidx g b) (gidx g a)) as [|_]; [contradiction|].
  unfold inOrder in *. destruct (Nat.ltb_spec (gidx g a) (gidx g b)) as [Hlt|Hge].
  - destruct IH as (n & E & Hs'); [intros d Hd; apply Hl, elem_of_app; now left|rewrite map_app in Hs; now apply StronglySorted_app_1_l in Hs|].
    exists n. split; [exact E|]. apply placeOf_bound in E. rewrite length_reverse in E. rewrite take_app_le, drop_app_le by exact E.
    rewrite !map_app in *. cbn [map] in *. rewrite map_app. apply sorted_inside; [|exact Hs'|exact Hlt]. now rewrite <- map_app, take_drop.
  - exists (length l + 1)%nat. split; [cbn [length]; rewrite length_reverse; f_equal; f_equal; lia|]. rewrite take_ge by (rewrite length_app; cbn; lia).
    rewrite drop_ge by (rewrite length_app; cbn; lia). rewrite !map_app in *. cbn [map] in *. apply sorted_end; [exact Hs|lia].
Qed.

Lemma pos_gap i j : (i <= j <= length stream)%nat -> Z.of_nat (j - i) <= pos j - pos i.
Proof.
  intros [Hij Hj]. induction j as [|j IH]; [replace i with 0%nat by lia; lia|]. destruct (Nat.eq_dec i (S j)) as [-> |]; [rewrite Nat.sub_diag; lia|].
  specialize (IH ltac:(lia) ltac:(lia)). pose proof (pos_step j ltac:(lia)). lia.
Qed.

(** There are fewer items than numbers in the window. *)
Lemma held_count it un pre g P : Held it un pre g P -> (gk g <= gm g <= length stream)%nat -> Z.of_nat (length P) <= WINDOW.
Proof.
  intros V Hk. set (n := Z.to_nat WINDOW).
  assert (Hsub : map (gidx g) P ⊆+ seq (gm g - n) (n `min` gm g)).
  { apply NoDup_submseteq; [apply V|]. intros i (a & -> & Ha)%list_elem_of_fmap. pose proof (h_item _ _ _ _ _ V a Ha). pose proof (h_win _ _ _ _ _ V a Ha).
    pose proof (pos_gap (S (gidx g a)) (gm g) ltac:(lia)). apply elem_of_seq. unfold n, WINDOW in *. lia. }
  apply submseteq_length in Hsub. rewrite length_seq, length_fmap in Hsub. clear -Hsub. unfold n, WINDOW in *. lia.
Qed.

Lemma inv_count (s : Pcb) g : Inv s g -> Z.of_nat (length (places s g)) <= WINDOW.
Proof. intros V. apply (held_count _ _ _ _ _ (i_held _ _ V)), V. Qed.

Lemma inv_counts (s : Pcb) g : Inv s g -> Z.of_nat (length (gu g)) <= WINDOW /\ Z.of_nat (length (gr g)) <= WINDOW /\ Z.of_nat (length (gw g)) <= WINDOW /\
  Z.of_nat (length (concat (unackMap s))) <= WINDOW.
Proof. intros V. pose proof (inv_count s g V) as Hc. unfold places in Hc. rewrite !length_app in Hc. lia. Qed.

Lemma inv_nums (s : Pcb) g : Inv s g -> ilNum (unrecvList s) = Z.of_nat (length (gu g)) /\ ilNum (redunList s) = Z.of_nat (length (gr g)) /\
  ilNum (itemWaitTokenLists s) = Z.of_nat (length (gw g)).
Proof.
  intros V. destruct (inv_counts s g V) as (H1 & H2 & H3 & _). destruct (i_skips _ _ V) as [K1 K2 K3 _ _ _ _]. unfold WINDOW in *.
  rewrite (ilNum_law _ _ K1), (ilNum_law _ _ K2), (ilNum_law _ _ K3), !u32_small by (unfold in_u32; lia). now repeat split.
Qed.

Definition fnSet {A} (f : nat -> A) (a : nat) (v : A) : nat -> A := fun b => if decide (b = a) then v else f b.

Lemma fnSet_eq {A} (f : nat -> A) a v : fnSet f a v a = v.
Proof. unfold fnSet. now destruct (decide (a = a)). Qed.
Lemma fnSet_ne {A} (f : nat -> A) a v b : b <> a -> fnSet f a v b = f b.
Proof. intros Hb. unfold fnSet. now destruct (decide (b = a)). Qed.
Lemma fnSet_map {A} (f : nat -> A) a v l : a ∉ l -> map (fnSet f a v) l = map f l.
Proof. intros Ha. apply map_ext_in. intros b Hb. apply fnSet_ne. intros ->. apply Ha. now apply list_elem_of_In. Qed.

Lemma sorted_last (R : Z -> Z -> Prop) l z : StronglySorted R l -> Forall (fun y => R y z) l -> StronglySorted R (l ++ [z]).
Proof.
  induction 1 as [|y l Hs IH Hy]; intros Hf; cbn; [repeat constructor|]. apply Forall_cons in Hf as [Hyz Hf]. constructor; [auto|].
  apply Forall_app. split; [exact Hy|now constructor].
Qed.

Lemma land_at_most z m : 0 <= m -> 0 <= Z.land z m <= m.
Proof.
  intros Hm. split; [apply Z.land_nonneg; now right|]. assert (E : m - Z.land z m = Z.ldiff m (Z.land z m)).
  { apply Z.sub_nocarry_ldiff. apply Z.bits_inj'. intros n Hn. rewrite Z.ldiff_spec, Z.land_spec, Z.bits_0. now destruct (Z.testbit z n), (Z.testbit m n). }
  assert (0 <= Z.ldiff m (Z.land z m)) by (apply Z.ldiff_nonneg; now left). lia.
Qed.

Lemma hash_in_range z n : (0 < n)%nat -> (hashOf z n < n)%nat.
Proof. intros Hn. unfold hashOf. pose proof (land_at_most z (Z.of_nat n - 1) ltac:(lia)). lia. Qed.

(** The item in hand, which was sent as packet [gN g], goes into the hash maps. *)
Lemma maps_linked it un pk cnt g a i n l j lp x : Maps it un pk cnt g -> it !! a = Some x -> pktNum (pkt x) = u32 (gN g) -> a ∉ concat un ->
  (forall b, b ∈ concat pk -> gpn g b < gN g) -> gT g - gN g < WINDOW ->
  un !! i = Some l -> i = hashOf (u32 (pos (S (gidx g a))) / FILLP_UNACK_HASH_MOD) (length un) -> inOrder g (take n l ++ a :: drop n l) ->
  pk !! j = Some lp -> j = hashOf (u32 (gN g)) (length pk) ->
  Maps it (<[i := take n l ++ a :: drop n l]> un) (<[j := lp ++ [a]]> pk) (cnt + 1) (g <| gpn := fnSet (gpn g) a (gN g) |>).
Proof.
  intros Hm Hx Hp Ha Hnew Ht Hl Hi Hs Hlp Hj.
  assert (Eu : Permutation (concat (<[i := take n l ++ a :: drop n l]> un)) (a :: concat un)) by (apply concat_added; now rewrite take_drop).
  assert (Ep : Permutation (concat (<[j := lp ++ [a]]> pk)) (a :: concat pk)) by (apply (concat_added pk j lp [] a); now rewrite app_nil_r).
  assert (Hap : a ∉ concat pk) by now rewrite (m_perm _ _ _ _ _ Hm).
  assert (Hlpa : forall j' l', pk !! j' = Some l' -> a ∉ l') by (intros j' l' Hj' C; apply Hap, elem_concat; eauto).
  split; cbn; rewrite ?length_insert; try apply Hm.
  - intros i' l' Hi'. apply list_lookup_insert_Some in Hi' as [(<- & <- & _)|(_ & Hi')]; [exact Hs|exact (m_sorted _ _ _ _ _ Hm i' l' Hi')].
  - intros i' l' b Hi' Hb. apply list_lookup_insert_Some in Hi' as [(<- & <- & _)|(_ & Hi')]; [|exact (m_hash _ _ _ _ _ Hm i' l' b Hi' Hb)].
    rewrite elem_of_app, elem_of_cons in Hb. assert (Hbl : b = a \/ b ∈ l) by (rewrite <- (take_drop n l), elem_of_app; tauto).
    destruct Hbl as [-> |Hbl]; [now symmetry|exact (m_hash _ _ _ _ _ Hm i l b Hl Hbl)].
  - rewrite (m_count _ _ _ _ _ Hm). apply Permutation_length in Eu. rewrite Eu. cbn. lia.
  - rewrite Ep, Eu. constructor. apply Hm.
  - intros j' l' Hj'. apply list_lookup_insert_Some in Hj' as [(<- & <- & _)|(_ & Hj')].
    + rewrite map_app. cbn. rewrite fnSet_eq, fnSet_map by now apply (Hlpa j). apply sorted_last; [exact (m_psorted _ _ _ _ _ Hm j lp Hlp)|].
      apply Forall_forall. intros z (b & -> & Hb)%list_elem_of_fmap. apply Hnew, elem_concat. eauto.
    + rewrite fnSet_map by now apply (Hlpa j'). exact (m_psorted _ _ _ _ _ Hm j' l' Hj').
  - intros j' l' b Hj' Hb. apply list_lookup_insert_Some in Hj' as [(<- & <- & _)|(_ & Hj')].
    + apply elem_of_app in Hb as [Hb|Hb%list_elem_of_singleton]; [|subst b; rewrite fnSet_eq; now symmetry].
      rewrite fnSet_ne by (intros ->; now apply (Hlpa j lp)). exact (m_phash _ _ _ _ _ Hm j lp b Hlp Hb).
    + rewrite fnSet_ne by (intros ->; now apply (Hlpa j' l')). exact (m_phash _ _ _ _ _ Hm j' l' b Hj' Hb).
  - intros b y Hb Hy. rewrite Ep in Hb. apply elem_of_cons in Hb as [-> |Hb]; [rewrite fnSet_eq; congruence|].
    rewrite fnSet_ne by (intros ->; contradiction). exact (m_pnum _ _ _ _ _ Hm b y Hb Hy).
  - intros b Hb. rewrite Ep in Hb. pose proof (m_top _ _ _ _ _ Hm). apply elem_of_cons in Hb as [-> |Hb]; [rewrite fnSet_eq; lia|].
    rewrite fnSet_ne by (intros ->; contradiction). exact (m_pwin _ _ _ _ _ Hm b Hb).
Qed.

Lemma inv_renum (s : Pcb) g N : Inv s g -> N <= gT g -> (forall b, b ∈ concat (pktSeqMap s) -> gpn g b <= N) -> Inv (s <| sPktNum := u32 N |>) (g <| gN := N |>).
Proof.
  intros [Hn Hh Hk Hm Hw] HT Hall. split; [destruct Hn; now split|destruct Hh; now split|destruct Hk; now split| |exact Hw].
  destruct Hm. split; try assumption. intros b Hb. destruct (m_pwin0 b Hb). cbn. auto.
Qed.

Lemma item_facts (s : Pcb) g a : Inv s g -> a ∈ places s g -> exists x y, items s !! a = Some x /\ stream !! gidx g a = Some y /\ sameData y (pkt x) /\ seqNum (pkt x) = seqNum y /\
  sendable y /\ seqNum y = u32 (pos (S (gidx g a))) /\ (gidx g a < gk g)%nat.
Proof.
  intros V Ha. destruct (hand_own s g a V Ha) as [_ [x Hx]]. pose proof (i_held _ _ V) as Hh. destruct (h_data _ _ _ _ _ Hh a x Hx) as (y & Hy & Hd).
  destruct (stream_ok _ y Hy) as [Hs Hq]. exists x, y. split; [exact Hx|]. split; [exact Hy|]. split; [exact Hd|]. split; [rewrite Hq; exact (h_seq _ _ _ _ _ Hh a x Hx Ha)|].
  split; [exact Hs|]. split; [exact Hq|]. exact (h_item _ _ _ _ _ Hh a Ha).
Qed.

(** What sending of an item leaves alone. *)
Definition sameNums (g g' : Ghost) : Prop :=
  gk g' = gk g /\ gm g' = gm g /\ gidx g' = gidx g /\ gT g' = gT g /\ gA g' = gA g /\ gB g' = gB g.

Lemma sameNums_refl g : sameNums g g.
Proof. now repeat split. Qed.
Lemma sameNums_trans g1 g2 g3 : sameNums g1 g2 -> sameNums g2 g3 -> sameNums g1 g3.
Proof. unfold sameNums. intuition congruence. Qed.

Lemma addHash_eq (s : Pcb) a x lp : items s !! a = Some x -> pktSeqMap s !! pktIndex (pktNum (pkt x)) s = Some lp -> a ∉ concat (pktSeqMap s) ->
  FillpAddToPktSeqHash a s = Some (s <| pktSeqMap := <[pktIndex (pktNum (pkt x)) s := lp ++ [a]]> (pktSeqMap s) |>).
Proof. intros Hx Hl Ha. unfold FillpAddToPktSeqHash. rewrite Hx. cbn [mbind option_bind]. rewrite Hl. cbn [mbind option_bind]. now rewrite linked_spec, bool_decide_false. Qed.

(** The numbers of other items differ. *)
Lemma hand_number (s : Pcb) g a c b : Inv s g -> gc g = a :: c -> b ∈ c ++ gu g ++ gr g ++ gw g ++ concat (unackMap s) -> gidx g b <> gidx g a.
Proof.
  intros V Ec Hb E. pose proof (h_idx _ _ _ _ _ (i_held _ _ V)) as Hd. unfold places in Hd. rewrite Ec in Hd. cbn in Hd. apply NoDup_cons in Hd as [Hd _]. apply Hd.
  rewrite <- E. apply list_elem_of_fmap. eauto.
Qed.

Lemma addUnack_ok env (s : Pcb) g a c x : Inv s g -> gc g = a :: c -> items s !! a = Some x -> exists i n l,
  FillpAddToUnackList env a s = Some (ERR_OK, s <| unackMap := <[i := take n l ++ a :: drop n l]> (unackMap s) |> <| unackCount := unackCount s + 1 |>) /\
  unackMap s !! i = Some l /\ i = hashOf (u32 (pos (S (gidx g a))) / FILLP_UNACK_HASH_MOD) (length (unackMap s)) /\ inOrder g (take n l ++ a :: drop n l).
Proof.
  intros V Ec Hx. assert (Ha : a ∈ places s g) by (apply places_in; left; rewrite Ec; left).
  destruct (item_facts s g a V Ha) as (x' & y & Ex & _ & _ & Eq & _ & Hq & _). rewrite Hx in Ex. injection Ex as <-.
  pose proof (hand_apart s g a c V Ec) as Hap. rewrite !elem_of_app in Hap. pose proof (i_maps _ _ V) as Hm.
  unfold FillpAddToUnackList, FillpAddtoListBySeqNum. rewrite Hx. cbn [mbind option_bind].
  set (i := FILLP_UNACKLIST_HASHINDEX (seqNum (pkt x)) s). assert (Ei : i = hashOf (u32 (pos (S (gidx g a))) / FILLP_UNACK_HASH_MOD) (length (unackMap s))).
  { unfold i, FILLP_UNACKLIST_HASHINDEX, hashOf. now rewrite Eq, Hq. }
  destruct (lookup_lt_is_Some_2 (unackMap s) i) as [l Hl]; [rewrite Ei; apply hash_in_range; rewrite (m_len _ _ _ _ _ Hm); unfold FILLP_UNACK_HASH_SIZE; lia|].
  destruct (placeOf_ok s g (places s g) a x l (i_held _ _ V) (n_k _ _ (i_nums _ _ V)) Ha Hx) as (n & En & Hin); [|exact (m_sorted _ _ _ _ _ Hm i l Hl)|].
  { intros b Hb. assert (Hbc : b ∈ concat (unackMap s)) by (apply elem_concat; eauto). split; [apply places_in; tauto|]. apply (hand_number s g a c b V Ec).
    rewrite !elem_of_app. tauto. }
  exists i, n, l. rewrite Hl. cbn [mbind option_bind]. rewrite En. cbn [mbind option_bind]. rewrite linked_spec, bool_decide_false by tauto. cbn [negb Z.eqb ERR_OK SkipList.ERR_OK mbind option_bind].
  split; [|now repeat split]. assert (Hcnt : u32 (unackCount s + 1) = unackCount s + 1); [|now rewrite Hcnt].
  pose proof (inv_counts s g V) as (_ & _ & _ & Hc). rewrite (m_count _ _ _ _ _ Hm). unfold WINDOW in Hc. apply u32_small. unfold in_u32. lia.
Qed.

Lemma retrans_ok env (s : Pcb) g a c x : Inv s g -> gc g = a :: c -> items s !! a = Some x -> pktNum (pkt x) = u32 (gN g) ->
  (forall b, b ∈ concat (pktSeqMap s) -> gpn g b < gN g) -> gT g - gN g < WINDOW ->
  exists s', FillpItemRetrans env a s = Some (ERR_OK, s') /\ Inv s' (g <| gpn := fnSet (gpn g) a (gN g) |> <| gc := c |>) /\
    sendTimer s' = sendTimer s /\ unSendList s' = unSendList s /\ is_Some (items s' !! a).
Proof.
  intros V Ec Hx Hp Hnew Ht. unfold FillpItemRetrans. rewrite Hx. cbn [mbind option_bind].
  set (x1 := x <| infCount := u32 (infCount x + 1) |>).
  match goal with |- context [FillpAddToUnackList env a ?z] => set (s1 := z) end.
  assert (V1 : Inv s1 g) by (apply (inv_core (setItem a x1 s)); [reflexivity|]; now apply (setItem_ok s g a c x)).
  assert (Hx1 : items s1 !! a = Some x1) by apply lookup_insert_eq.
  destruct (addUnack_ok env s1 g a c x1 V1 Ec Hx1) as (i & n & l & -> & Hl & Ei & Hin). cbn [negb Z.eqb ERR_OK SkipList.ERR_OK mbind option_bind].
  match goal with |- context [FillpAddToPktSeqHash a ?z] => set (s2 := z) end.
  pose proof (hand_apart s1 g a c V1 Ec) as Hap. rewrite !elem_of_app in Hap. pose proof (i_maps _ _ V1) as Hm.
  set (j := pktIndex (pktNum (pkt x1)) s2). assert (Ej : j = hashOf (u32 (gN g)) (length (pktSeqMap s1))) by (unfold j, hashOf; rewrite <- Hp; reflexivity).
  destruct (lookup_lt_is_Some_2 (pktSeqMap s1) j) as [lp Hlp]; [rewrite Ej; apply hash_in_range, Hm|].
  rewrite (addHash_eq s2 a x1 lp Hx1 Hlp) by (change (pktSeqMap s2) with (pktSeqMap s1); rewrite (m_perm _ _ _ _ _ Hm); tauto). cbn [mbind option_bind].
  eexists. split; [reflexivity|]. split; [|split; [reflexivity|split; [reflexivity|eexists; exact Hx1]]].
  pose proof (maps_linked _ _ _ _ g a i n l j lp x1 Hm Hx1 Hp ltac:(tauto) Hnew Ht Hl Ei Hin Hlp Ej) as Hm'. destruct V1 as [Hn Hh Hk _ Hw].
  split; [destruct Hn; now split| |destruct Hk; now split|destruct Hm'; now split|exact Hw].
  apply (held_perm _ _ _ _ (places s1 g)).
  - unfold places. cbn. rewrite Ec. rewrite (concat_added (unackMap s) i (take n l) (drop n l) a) by now rewrite take_drop. cbn. rewrite !app_assoc. apply Permutation_middle.
  - destruct Hh. split; try assumption. intros b [= <-]. eexists. exact Hx1.
Qed.

Lemma timer_core env (s : Pcb) : core (FillpEnableSendTimer env s) = core s.
Proof. unfold FillpEnableSendTimer. destruct (sendTimer s); [reflexivity|]. now destruct (sendTime s =? 0). Qed.
Lemma timer_on env (s : Pcb) : sendTimer (FillpEnableSendTimer env s) = true.
Proof. unfold FillpEnableSendTimer. destruct (sendTimer s) eqn:E; [exact E|]. now destruct (sendTime s =? 0). Qed.
Lemma core_unsent (s s' : Pcb) : core s' = core s -> unSendList s' = unSendList s.
Proof. unfold core. congruence. Qed.
Lemma core_items (s s' : Pcb) : core s' = core s -> items s' = items s.
Proof. unfold core. congruence. Qed.

Lemma inv_wire (s : Pcb) g p : Inv s g -> fromStream (gk g) p -> Inv (s <| wire := wire s ++ [p] |>) g.
Proof.
  intros [Hn Hh Hk Hm Hw] Hp. split; [destruct Hn; now split|destruct Hh; now split|destruct Hk; now split|destruct Hm; now split|].
  apply Forall_app. split; [exact Hw|]. now constructor.
Qed.

Lemma minus_one_not_ok : negb (-1 =? ERR_OK) = true.
Proof. reflexivity. Qed.

(** The item in hand is sent, or goes back to the list of the items to send. *)
Lemma sendItem_ok env (s : Pcb) g a c : Inv s g -> gc g = a :: c -> gN g + 1 <= gT g -> gT g - gN g < WINDOW -> exists ret s' g', FillpSendItem env a s = Some (ret, s') /\ Inv s' g' /\
  sameNums g g' /\ gc g' = c /\ gr g' = gr g /\ gw g' = gw g /\ unSendList s' = unSendList s /\ is_Some (items s' !! a) /\
  ((ret = ERR_OK /\ gN g' = gN g + 1 /\ gu g' = gu g /\ sendTimer s' = sendTimer s) \/ (ret = -1 /\ gN g' = gN g /\ Permutation (gu g') (a :: gu g) /\ sendTimer s' = true)).
Proof.
  intros V Ec HT HW. assert (Ha : a ∈ places s g) by (apply places_in; left; rewrite Ec; left).
  destruct (item_facts s g a V Ha) as (x & y & Hx & Hy & Hd & Eq & Hs & Hq & Hi). unfold FillpSendItem. rewrite Hx. cbn [mbind option_bind].
  set (x1 := if sendCount x =? 0 then _ else _). assert (Ex1 : pkt x1 = pkt x) by (unfold x1; now destruct (sendCount x =? 0)). rewrite Ex1.
  destruct (packet_same (sysTime env (sPktNum s)) (sPktNum s) y (pkt x) Hs Hd Eq) as (y' & p & bytes & Eby & -> & Hd' & Eq' & Epn). cbn [mbind option_bind].
  assert (En : u32 (sPktNum s + 1) = u32 (gN g + 1)) by (rewrite (n_num _ _ (i_nums _ _ V)); apply u32_add_u32). rewrite En in *.
  set (s1 := setItem a (x1 <| pkt := p |>) (s <| sPktNum := u32 (gN g + 1) |>)). set (g1 := g <| gN := gN g + 1 |>).
  assert (Hlow : forall b, b ∈ concat (pktSeqMap s) -> gpn g b <= gN g) by (intros b Hb; apply (m_pwin _ _ _ _ _ (i_maps _ _ V) b Hb)).
  assert (V1 : Inv s1 g1).
  { apply (setItem_ok _ g1 a c x); [apply inv_renum; [exact V|exact HT|intros b Hb; specialize (Hlow b Hb); lia]|exact Ec|exact Hx|exact Eq'|].
    intros z Hz. destruct Hd as [A1 A2 A3 A4 A5 A6 A7 A8], Hd' as [B1 B2 B3 B4 B5 B6 B7 B8], Hz as [C1 C2 C3 C4 C5 C6 C7 C8].
    split; cbn; try congruence. intros Hz0. rewrite B7 by congruence. rewrite <- A7 by congruence. auto. }
  assert (Hx1 : items s1 !! a = Some (x1 <| pkt := p |>)) by apply lookup_insert_eq.
  destruct (sendFunc env bytes <=? 0).
  - destruct (insertUnrecv_ok s1 g1 a c V1 Ec) as (l & u & -> & Hu & V2). cbn [negb Z.eqb ERR_OK SkipList.ERR_OK mbind option_bind].
    match goal with |- context [FillpEnableSendTimer env ?z] => set (s2 := z) end.
    assert (Hcore : core s2 = core (s1 <| unrecvList := l |> <| sPktNum := u32 (gN g) |>)).
    { assert (E0 : u32 (u32 (gN g + 1) - 1) = u32 (gN g)) by (rewrite u32_sub_u32; f_equal; lia). unfold s2. destruct (0 <? sendCount x1); unfold core; cbn; now rewrite E0. }
    eexists (-1), _, (g1 <| gu := u |> <| gc := c |> <| gN := gN g |>). split; [reflexivity|]. split; [|split; [now repeat split|do 3 (split; [reflexivity|])]].
    + apply (inv_core (s1 <| unrecvList := l |> <| sPktNum := u32 (gN g) |>)); [rewrite timer_core; exact Hcore|].
      apply inv_renum; [exact V2|cbn; lia|exact Hlow].
    + split; [rewrite (core_unsent _ _ (timer_core env s2)), (core_unsent _ _ Hcore); reflexivity|]. split.
      * rewrite (core_items _ _ (timer_core env s2)), (core_items _ _ Hcore). eexists. exact Hx1.
      * right. split; [reflexivity|]. split; [reflexivity|]. split; [exact Hu|]. apply timer_on.
  - assert (V2 : Inv (s1 <| wire := wire s1 ++ [bytes] |>) g1) by (apply inv_wire; [exact V1|]; exists (gidx g a), y; eexists _, _, _, _; split; [exact Hi|]; split; [exact Hy|exact Eby]).
    destruct (retrans_ok env _ g1 a c (x1 <| pkt := p |>) V2 Ec Hx1 Epn) as (s' & E & V' & Et & Eu & Hs'); [intros b Hb; specialize (Hlow b Hb); cbn; lia|cbn; lia|].
    eexists _, s', _. split; [exact E|]. split; [exact V'|]. split; [now repeat split|]. do 3 (split; [reflexivity|]). split; [exact Eu|]. split; [exact Hs'|]. left. now repeat split.
Qed.

Lemma route_ok env (s : Pcb) g a c : Inv s g -> gc g = a :: c -> gN g + 1 <= gT g -> gT g - gN g < WINDOW -> exists ret s' g', SpungeItemRouteByToken env a s = Some (ret, s') /\ Inv s' g' /\
  sameNums g g' /\ gc g' = c /\ gr g' = gr g /\ unSendList s' = unSendList s /\ gN g <= gN g' <= gN g + 1 /\
  ((ret = ERR_OK /\ gu g' = gu g /\ sendTimer s' = sendTimer s) \/ (ret = -1 /\ Permutation (gu g') (a :: gu g) /\ sendTimer s' = true)).
Proof.
  intros V Ec HT HW. unfold SpungeItemRouteByToken. match goal with |- context [stb (if ?b then _ else _)] => set (cond := b) end.
  set (s0 := if cond then _ else _). assert (Hc0 : core s0 = core s /\ sendTimer s0 = sendTimer s) by (unfold s0; now destruct cond). destruct Hc0 as [Hc0 Ht0]. clearbody s0. clear cond.
  pose proof (inv_core s s0 g Hc0 V) as V0. rewrite <- Ht0, <- (core_unsent _ _ Hc0). clear V s Hc0 Ht0. rename s0 into s, V0 into V.
  destruct (hand_own s g a V) as [_ [x Hx]]; [apply places_in; left; rewrite Ec; left|]. rewrite Hx. cbn [mbind option_bind].
  destruct (sendItem_ok env s g a c V Ec HT HW) as (ret & s1 & g1 & E & V1 & Hn & Ec1 & Er & Ew & Eu & [x1 Hx1] & Hres).
  assert (Hplain : exists ret s' g', FillpSendItem env a s = Some (ret, s') /\ Inv s' g' /\ sameNums g g' /\ gc g' = c /\ gr g' = gr g /\ unSendList s' = unSendList s /\ gN g <= gN g' <= gN g + 1 /\
    ((ret = ERR_OK /\ gu g' = gu g /\ sendTimer s' = sendTimer s) \/ (ret = -1 /\ Permutation (gu g') (a :: gu g) /\ sendTimer s' = true))).
  { exists ret, s1, g1. split; [exact E|]. split; [exact V1|]. split; [exact Hn|]. split; [exact Ec1|]. split; [exact Er|]. split; [exact Eu|]. destruct Hres as [(-> & -> & ? & ?)|(-> & -> & ? & ?)]; (split; [lia|]); tauto. }
  destruct ((rate (stb s) =? 0) && _); [exact Hplain|]. destruct ((dataLen (pkt x) <=? tokenCount (stb s)) && _).
  - rewrite E. cbn [mbind option_bind]. destruct Hres as [(-> & En & Egu & Et)|(-> & En & Egu & Et)].
    + rewrite Z.eqb_refl, Hx1. cbn [mbind option_bind]. eexists _, _, g1. split; [reflexivity|]. split; [now apply (inv_core s1)|]. repeat (split; [assumption|]). split; [lia|]. left. now repeat split.
    + eexists _, _, g1. split; [reflexivity|]. split; [exact V1|]. repeat (split; [assumption|]). split; [lia|]. right. now repeat split.
  - destruct (insertWait_ok s g a c V Ec) as (l & w & -> & Hw & V2). cbn [negb Z.eqb ERR_OK SkipList.ERR_OK mbind option_bind].
    eexists _, _, _. split; [reflexivity|]. split; [apply (inv_core (s <| itemWaitTokenLists := l |>)); [reflexivity|exact V2]|]. split; [now repeat split|]. do 3 (split; [reflexivity|]). cbn. split; [lia|]. left. now repeat split.
Qed.

(** ** The send cycle *)

(** More items may be numbered. *)
Definition later (g g' : Ghost) : Prop := gm g' = gm g /\ gidx g' = gidx g /\ gT g' = gT g /\ gA g' = gA g /\ (gk g <= gk g')%nat.

Lemma later_refl g : later g g.
Proof. now repeat split. Qed.
Lemma later_trans g1 g2 g3 : later g1 g2 -> later g2 g3 -> later g1 g3.
Proof. unfold later. intros (? & ? & ? & ? & ?) (? & ? & ? & ? & ?). repeat split; [congruence..|lia]. Qed.
Lemma sameNums_later g g' : sameNums g g' -> later g g'.
Proof. unfold sameNums, later. intros (-> & ? & ? & ? & ? & ?). now repeat split. Qed.

Lemma maps_set it un pk cnt g a x : a ∉ concat pk -> Maps it un pk cnt g -> Maps (<[a := x]> it) un pk cnt g.
Proof.
  intros Ha [M1 M2 M3 M4 M5 M6 M7 M8 M9 M10 M11]. split; try assumption. intros b y Hb Hy. rewrite lookup_insert_ne in Hy by (intros ->; contradiction). eauto.
Qed.

Lemma fromStream_more k k' p : (k <= k')%nat -> fromStream k p -> fromStream k' p.
Proof. intros Hk (i & y & now & num & n & y' & Hi & Hy & E). exists i, y, now, num, n, y'. split; [lia|]. now split. Qed.

(** The first item that waits gets its number. *)
Lemma held_number it a un pre g P x x' : Held it (a :: un) pre g P -> it !! a = Some x -> (gk g <= gm g <= length stream)%nat -> gB g <= gA g <= pos (gk g) -> pos (gm g) - gB g < WINDOW ->
  sameData (pkt x) (pkt x') -> seqNum (pkt x') = u32 (pos (S (gk g))) ->
  gidx g a = gk g /\ (gk g < gm g)%nat /\ Held (<[a := x']> it) un pre (g <| gk := S (gk g) |>) (a :: P).
Proof.
  intros V Hx Hk Ho Hw Hd Hq. pose proof (h_unsent _ _ _ _ _ V) as Hu. destruct (gm g - gk g)%nat as [|n] eqn:En; [discriminate|]. cbn in Hu. injection Hu as Hia Hu.
  split; [exact Hia|]. split; [lia|]. assert (Hp : Permutation (P ++ a :: un) ((a :: P) ++ un)) by (cbn; symmetry; apply Permutation_middle).
  assert (Hs : forall b, is_Some (<[a := x']> it !! b) <-> is_Some (it !! b)).
  { intros b. destruct (decide (a = b)) as [<- |Hne]; [rewrite lookup_insert_eq, Hx; split; eauto|now rewrite lookup_insert_ne]. }
  assert (HaP : a ∉ P) by (pose proof (h_nodup _ _ _ _ _ V) as Hn; rewrite Hp in Hn; cbn in Hn; apply NoDup_cons in Hn as [Hn _]; rewrite elem_of_app in Hn; tauto).
  split; cbn.
  - intros b. rewrite Hs, (h_dom _ _ _ _ _ V b), Hp. reflexivity.
  - pose proof (h_nodup _ _ _ _ _ V) as Hn. now rewrite Hp in Hn.
  - intros b [-> |Hb]%elem_of_cons; [lia|]. pose proof (h_item _ _ _ _ _ V b Hb). lia.
  - intros b z Hb [-> |HbP]%elem_of_cons; [rewrite lookup_insert_eq in Hb; injection Hb as <-; now rewrite Hia|].
    rewrite lookup_insert_ne in Hb by (intros ->; contradiction). exact (h_seq _ _ _ _ _ V b z Hb HbP).
  - intros b z Hb. destruct (decide (a = b)) as [<- |Hne]; [|rewrite lookup_insert_ne in Hb by done; exact (h_data _ _ _ _ _ V b z Hb)].
    rewrite lookup_insert_eq in Hb. injection Hb as <-. destruct (h_data _ _ _ _ _ V a x Hx) as (y & Hy & Hyx). exists y. split; [exact Hy|].
    destruct Hd as [A1 A2 A3 A4 A5 A6 A7 A8], Hyx as [C1 C2 C3 C4 C5 C6 C7 C8]. split; try congruence. intros E0. rewrite A7 by congruence. auto.
  - replace (gm g - S (gk g))%nat with n by lia. exact Hu.
  - constructor; [|apply V]. rewrite Hia. intros (b & Eb & Hb)%list_elem_of_fmap. pose proof (h_item _ _ _ _ _ V b Hb). lia.
  - intros i Hi HA. destruct (Nat.eq_dec i (gk g)) as [-> |Hne]; [exists a; split; [left|exact Hia]|].
    destruct (h_kept _ _ _ _ _ V i ltac:(lia) HA) as (b & Hb & Eb). exists b. split; [now right|exact Eb].
  - intros b [-> |Hb]%elem_of_cons; [|exact (h_win _ _ _ _ _ V b Hb)]. rewrite Hia. pose proof (pos_step (gk g) ltac:(lia)). lia.
  - intros b Hb. apply (h_own _ _ _ _ _ V). now rewrite Hp.
  - intros b Hb. rewrite Hs. exact (h_pre _ _ _ _ _ V b Hb).
Qed.

Lemma getSend_ok (s : Pcb) g : Inv s g -> gc g = [] -> exists o s' g', FillpGetSendItem s = Some (o, s') /\ Inv s' g' /\ later g g' /\ sendTimer s' = sendTimer s /\ gN g' = gN g /\ gr g' = gr g /\
  match o with
  | None => gc g' = [] /\ gu g' = [] /\ unSendList s' = [] /\ gu g = [] /\ unSendList s = []
  | Some a => gc g' = [a] /\ (length (gu g') + length (unSendList s') + 1 = length (gu g) + length (unSendList s))%nat
  end.
Proof.
  intros V Ec. unfold FillpGetSendItem. destruct (popUnrecv_ok s g V) as (l & -> & V1). cbn [mbind option_bind]. rewrite Ec in V1. destruct (gu g) as [|a u] eqn:Eg; cbn [lookup list_lookup].
  - cbn [take drop app] in V1. set (s1 := s <| unrecvList := l |>) in *. set (g1 := g <| gc := [] |> <| gu := [] |>) in *. change (unSendList s1) with (unSendList s). destruct (unSendList s) as [|a un] eqn:Eu.
    + exists None, s1, g1. split; [reflexivity|]. split; [exact V1|]. split; [now repeat split|]. repeat (split; [reflexivity|]). split; [exact Eu|now split].
    + destruct V1 as [Hn Hh Hk Hm Hw]. change (unSendList s1) with (unSendList s) in Hh. rewrite Eu in Hh.
      assert (Hin : a ∈ places s1 g1 ++ a :: un) by (apply elem_of_app; right; left). apply (h_dom _ _ _ _ _ Hh) in Hin as [x Hx]. rewrite Hx. cbn [mbind option_bind].
      set (q := u32 (sSeqNum s1 + dataLen (pkt x))). change (sSeqNum (s1 <| unSendList := un |> <| sSeqNum := q |>)) with q.
      match goal with |- context [setItem a ?z _] => set (x' := z) end.
      destruct (h_data _ _ _ _ _ Hh a x Hx) as (y & Hy & Hyx).
      assert (Hia : gidx g a = gk g) by (pose proof (h_unsent _ _ _ _ _ Hh) as Hu; cbn in Hu; destruct (gm g - gk g)%nat; [discriminate|]; now injection Hu).
      assert (Eq : q = u32 (pos (S (gk g)))).
      { unfold q. rewrite (n_seq _ _ Hn), u32_add_u32. cbn in Hy. rewrite Hia in Hy. rewrite (pos_S stream base (gk g) y Hy), (sd_len _ _ Hyx). reflexivity. }
      destruct (held_number _ a un _ g1 (places s1 g1) x x' Hh Hx (n_k _ _ Hn) (n_order _ _ Hn) (n_win _ _ Hn)) as (_ & Hlt & Hh'); [now split|exact Eq|].
      assert (HaP : a ∉ concat (pktSeqMap s1)).
      { rewrite (m_perm _ _ _ _ _ Hm). intros C. pose proof (h_nodup _ _ _ _ _ Hh) as Hd. apply NoDup_app in Hd as (_ & Hd & _). apply (Hd a); [apply places_in; tauto|left]. }
      eexists (Some a), _, (g1 <| gk := S (gk g) |> <| gc := [a] |>). split; [reflexivity|]. split; [|split; [repeat split; cbn; lia|]].
      * split; [|destruct Hh'; now split|destruct Hk; now split| |].
        -- pose proof (n_k _ _ Hn) as Hkm. pose proof (n_order _ _ Hn) as Ho. cbn in Hkm, Ho, Hlt. split; try apply Hn; [cbn; lia|exact Eq|]. cbn. pose proof (pos_step (gk g) ltac:(lia)). lia.
        -- apply (maps_set _ _ _ _ _ a x' HaP) in Hm. destruct Hm. now split.
        -- eapply Forall_impl; [exact Hw|]. intros p. apply fromStream_more. cbn. lia.
      * repeat (split; [reflexivity|]). cbn. lia.
  - cbn [take drop app] in V1. rewrite drop_0 in V1. eexists (Some a), _, _. split; [reflexivity|]. split; [exact V1|]. split; [now repeat split|]. repeat (split; [reflexivity|]). cbn. lia.
Qed.

Lemma flags_kept f c m : Z.ldiff c m = 0 -> Z.ldiff (UTILS_FLAGS_SET f c) m = Z.ldiff f m /\ Z.ldiff (UTILS_FLAGS_CLEAN f c) m = Z.ldiff f m.
Proof.
  intros E. unfold UTILS_FLAGS_SET, UTILS_FLAGS_CLEAN. split; apply Z.bits_inj'; intros n Hn;
    (assert (Hb : Z.testbit (Z.ldiff c m) n = false) by (rewrite E; apply Z.bits_0)); rewrite Z.ldiff_spec in Hb; rewrite !Z.ldiff_spec, ?Z.lor_spec, ?Z.ldiff_spec;
    destruct (Z.testbit f n), (Z.testbit c n), (Z.testbit m n); easy.
Qed.

Lemma sameData_flags y p f : sameData y p -> Z.ldiff f FILLP_ITEM_FLAGS_CHANGING = Z.ldiff (flags p) FILLP_ITEM_FLAGS_CHANGING -> sameData y (p <| flags := f |>).
Proof. intros [D1 D2 D3 D4 D5 D6 D7 D8] E. split; try assumption. cbn. congruence. Qed.

Lemma beforeSend_ok (s : Pcb) g a c sent tot : Inv s g -> gc g = a :: c -> exists n s', FillpBeforeSendItem a sent tot s = Some (n, s') /\ Inv s' g /\
  sendTimer s' = sendTimer s /\ unSendList s' = unSendList s.
Proof.
  intros V Ec. destruct (hand_own s g a V) as [_ [x Hx]]; [apply places_in; left; rewrite Ec; left|]. unfold FillpBeforeSendItem. rewrite Hx. cbn [mbind option_bind].
  set (s0 := if 0 <? sendCount x then leaveUnrecv x s else s). assert (Hc : core s0 = core s /\ sendTimer s0 = sendTimer s) by (unfold s0; now destruct (0 <? sendCount x)).
  destruct Hc as [Hc Ht]. match goal with |- context [setItem a ?z ?w] => set (x' := z); set (s1 := w) end. eexists _, (setItem a x' s1). split; [reflexivity|].
  split; [|split; [exact Ht|exact (core_unsent _ _ Hc)]]. apply (setItem_ok s1 g a c x); [apply (inv_core s); [exact Hc|exact V]|exact Ec|rewrite <- Hx; exact (f_equal (lookup a) (core_items _ _ Hc))|reflexivity|].
  intros y Hy. apply sameData_flags; [exact Hy|]. destruct (appLimited s0); apply flags_kept; reflexivity.
Qed.

Lemma moveRedundant_ok fuel : forall (s : Pcb) g, Inv s g -> gc g = [] -> (length (gr g) < fuel)%nat -> exists s' g', moveRedundant fuel s = Some s' /\ Inv s' g' /\ sameNums g g' /\
  gc g' = [] /\ gr g' = [] /\ gN g' = gN g /\ (length (gu g') = length (gu g) + length (gr g))%nat /\ sendTimer s' = sendTimer s /\ unSendList s' = unSendList s.
Proof.
  induction fuel as [|fuel IH]; intros s g V Ec Hf; [lia|]. cbn [moveRedundant]. destruct (popRedun_ok s g V) as (l & -> & V1). cbn [mbind option_bind]. rewrite Ec in V1.
  destruct (gr g) as [|a r] eqn:Er; cbn [lookup list_lookup].
  - eexists _, _. split; [reflexivity|]. split; [exact V1|]. split; [now repeat split|]. repeat (split; [reflexivity|]). split; [cbn; lia|now split].
  - cbn [take drop app] in V1. rewrite drop_0 in V1. destruct (insertUnrecv_ok _ _ a [] V1 eq_refl) as (l' & u & -> & Hu & V2). cbn [negb Z.eqb ERR_OK SkipList.ERR_OK mbind option_bind].
    destruct (IH _ _ V2 eq_refl) as (s' & g' & E & V' & Hn & Ec' & Er' & En & Hl & Ht & Hun); [cbn in *; lia|]. exists s', g'. split; [exact E|]. split; [exact V'|].
    split; [exact (sameNums_trans _ _ _ (sameNums_refl g) Hn)|]. split; [exact Ec'|]. split; [exact Er'|]. split; [exact En|]. split; [|split; [exact Ht|exact Hun]].
    cbn in Hl. apply Permutation_length in Hu. cbn in Hu. rewrite Hl, Hu. cbn. lia.
Qed.

Lemma done_ok (s : Pcb) g : Inv s g -> exists s', FillpDoneSendAllData s = Some s' /\ Inv s' g /\ sendTimer s' = sendTimer s /\ unSendList s' = unSendList s.
Proof.
  intros V. unfold FillpDoneSendAllData. destruct (preItem s) as [a|] eqn:Ep.
  - destruct (h_pre _ _ _ _ _ (i_held _ _ V) a Ep) as [x Hx]. rewrite Hx. cbn [mbind option_bind]. eexists. split; [reflexivity|]. split; [|now split].
    match goal with |- context [setItem a ?z s] => apply (inv_core (setItem a z s)); [reflexivity|]; apply (touchItem_ok s g a x) end; try assumption; try reflexivity.
    intros y Hy. apply sameData_flags; [exact Hy|]. now apply flags_kept.
  - cbn [mbind option_bind]. eexists. split; [reflexivity|]. split; [now apply (inv_core s)|now split].
Qed.

Lemma sendLoop_ok env tot : forall fuel answers sent (s : Pcb) g, Inv s g -> gc g = [] -> (length (gu g) + length (unSendList s) + length answers < fuel)%nat ->
  gN g + Z.of_nat (length (gu g) + length (unSendList s)) <= gT g -> gT g - gN g < WINDOW ->
  exists n s' g', sendLoop fuel env answers sent tot s = Some (n, s') /\ Inv s' g' /\ later g g' /\ gc g' = [] /\ gr g' = gr g /\ gN g <= gN g' /\ (sendTimer s = true -> sendTimer s' = true).
Proof.
  induction fuel as [|fuel IH]; intros answers sent s g V Ec Hf HT HW; [lia|]. cbn [sendLoop].
  destruct (sent <=? tot); [|exists sent, s, g; split; [reflexivity|]; split; [exact V|]; split; [apply later_refl|]; split; [exact Ec|]; split; [reflexivity|]; split; [lia|done]].
  destruct (getSend_ok s g V Ec) as (o & s1 & g1 & -> & V1 & Hl1 & Ht1 & En1 & Er1 & Ho). cbn [mbind option_bind]. destruct o as [a|].
  - destruct Ho as [Ec1 Hm]. set (s2 := s1 <| sendOneNoData := false |>). assert (V2 : Inv s2 g1) by now apply (inv_core s1).
    destruct (beforeSend_ok s2 g1 a [] sent tot V2 Ec1) as (n & s3 & -> & V3 & Ht3 & Hu3). cbn [mbind option_bind].
    pose proof Hl1 as (_ & _ & ET & _). destruct (route_ok env s3 g1 a [] V3 Ec1) as (ret & s4 & g4 & -> & V4 & Hn4 & Ec4 & Er4 & Hu4 & HN4 & Hres); [lia|lia|]. cbn [mbind option_bind].
    change (unSendList s2) with (unSendList s1) in Hu3. change (sendTimer s2) with (sendTimer s1) in Ht3. pose proof Hn4 as (_ & _ & _ & ET4 & _).
    pose proof (later_trans _ _ _ Hl1 (sameNums_later _ _ Hn4)) as Hl4.
    destruct Hres as [(-> & Eu & Ht4)|(-> & Eu & Ht4)].
    + rewrite Z.eqb_refl. cbn [negb]. destruct (IH answers n s4 g4 V4 Ec4) as (n' & s' & g' & E & V' & Hl' & Ec' & Er' & HN' & Ht'); rewrite ?Eu, ?Hu4, ?Hu3; [lia|lia|lia|].
      exists n', s', g'. split; [exact E|]. split; [exact V'|]. split; [exact (later_trans _ _ _ Hl4 Hl')|]. split; [exact Ec'|]. split; [congruence|]. split; [lia|].
      intros Ht. apply Ht'. congruence.
    + rewrite minus_one_not_ok. exists n, s4, g4. split; [reflexivity|]. split; [exact V4|]. split; [exact Hl4|]. split; [exact Ec4|]. split; [congruence|]. split; [lia|done].
  - destruct Ho as (Ec1 & Eu1 & Eun1 & Eu & Eun). destruct (default (0, 0) (head answers)) as [curSize ret] eqn:Ea. unfold FillpIsAskMoreBuf.
    assert (Hdone : exists n s' g', (s0 ← FillpDoneSendAllData s1; Some (sent, s0)) = Some (n, s') /\ Inv s' g' /\ later g g' /\ gc g' = [] /\ gr g' = gr g /\ gN g <= gN g' /\ (sendTimer s = true -> sendTimer s' = true)).
    { destruct (done_ok s1 g1 V1) as (s2 & -> & V2 & Ht2 & Hu2). cbn [mbind option_bind]. exists sent, s2, g1. split; [reflexivity|]. split; [exact V2|]. split; [exact Hl1|].
      split; [exact Ec1|]. split; [exact Er1|]. split; [lia|congruence]. }
    destruct (unackCount s1 <? curSize); [exact Hdone|]. destruct (Z.leb_spec ret 0) as [_|Hret]; [exact Hdone|].
    assert (Hne : (length answers = S (length (tail answers)))%nat) by (destruct answers; [cbn in Ea; injection Ea as <- <-; lia|reflexivity]).
    match goal with |- context [sendLoop fuel env (tail answers) sent tot ?z] => set (s2 := z) end.
    assert (V2 : Inv s2 g1) by now apply (inv_core s1). pose proof Hl1 as (_ & _ & ET & _).
    destruct (IH (tail answers) sent s2 g1 V2 Ec1) as (n' & s' & g' & E & V' & Hl' & Ec' & Er' & HN' & Ht'); [change (unSendList s2) with (unSendList s1); rewrite Eu1, Eun1; cbn; lia|change (unSendList s2) with (unSendList s1); rewrite Eu1, Eun1; cbn; lia|lia|].
    exists n', s', g'. split; [exact E|]. split; [exact V'|]. split; [exact (later_trans _ _ _ Hl1 Hl')|]. split; [exact Ec'|]. split; [congruence|]. split; [lia|]. intros Ht. apply Ht'. cbn. congruence.
Qed.

(** ** Acknowledgements *)

(** Items may be freed. *)
Definition fewer (g g' : Ghost) : Prop :=
  gk g' = gk g /\ gm g' = gm g /\ gidx g' = gidx g /\ gT g' = gT g /\ gA g' = gA g /\ gN g' = gN g /\ gpn g' = gpn g /\
  (length (gu g') <= length (gu g))%nat /\ (length (gr g') <= length (gr g))%nat.

Lemma fewer_refl g : fewer g g.
Proof. repeat split; lia. Qed.
Lemma fewer_trans g1 g2 g3 : fewer g1 g2 -> fewer g2 g3 -> fewer g1 g3.
Proof. unfold fewer. intros (? & ? & ? & ? & ? & ? & ? & ? & ?) (? & ? & ? & ? & ? & ? & ? & ? & ?). repeat split; try congruence; lia. Qed.

(** The timer and the items that wait stay. *)
Definition calm (s s' : Pcb) : Prop := sendTimer s' = sendTimer s /\ unSendList s' = unSendList s.

Lemma calm_trans (s1 s2 s3 : Pcb) : calm s1 s2 -> calm s2 s3 -> calm s1 s3.
Proof. unfold calm. intuition congruence. Qed.

Lemma ack_test (s : Pcb) g a x : Inv s g -> a ∈ places s g -> items s !! a = Some x -> FillpNumIsbigger (seqNum (pkt x)) (u32 (gA g)) = (gA g <? pos (S (gidx g a))).
Proof.
  intros [Hn Hh _ _ _] Ha Hx. rewrite (h_seq _ _ _ _ _ Hh a x Hx Ha). apply bigger_pos. pose proof (h_win _ _ _ _ _ Hh a Ha). pose proof (h_item _ _ _ _ _ Hh a Ha).
  pose proof (n_k _ _ Hn). pose proof (n_order _ _ Hn). pose proof (n_win _ _ Hn). pose proof (pos_le (S (gidx g a)) (gm g) ltac:(lia)). pose proof (pos_le (gk g) (gm g) ltac:(lia)).
  unfold in_s32, WINDOW in *. lia.
Qed.

Lemma ackLoop_ok get put note (gl : Ghost -> list nat) (pop : Ghost -> Ghost) :
  (forall s g, Inv s g -> ilFirst (get s) = Some (gl g !! 0%nat)) ->
  (forall s g, Inv s g -> exists l, ilPop (get s) = Some (gl g !! 0%nat, l) /\ Inv (put l s) (pop g) /\ calm s (put l s) /\ items (put l s) = items s) ->
  (forall g, gc (pop g) = take 1 (gl g) ++ gc g /\ fewer g ((pop g) <| gc := [] |>) /\ gl ((pop g) <| gc := [] |>) = drop 1 (gl g)) ->
  (forall s g a, Inv s g -> a ∈ gl g -> a ∈ places s g) ->
  (forall x s, core (note x s) = core s /\ sendTimer (note x s) = sendTimer s) ->
  forall fuel count (s : Pcb) g, Inv s g -> gc g = [] -> (length (gl g) < fuel)%nat ->
  exists n s' g', ackLoop fuel get put note (u32 (gA g)) count s = Some (n, s') /\ Inv s' g' /\ fewer g g' /\ gc g' = [] /\ calm s s'.
Proof.
  intros Hfirst Hpop Hg Hin Hnote fuel. induction fuel as [|fuel IH]; intros count s g V Ec Hf; [lia|]. cbn [ackLoop]. rewrite (Hfirst s g V). cbn [mbind option_bind].
  assert (Hstop : exists n s' g', Some (count, s) = Some (n, s') /\ Inv s' g' /\ fewer g g' /\ gc g' = [] /\ calm s s').
  { exists count, s, g. split; [reflexivity|]. split; [exact V|]. split; [apply fewer_refl|]. split; [exact Ec|now split]. }
  destruct (gl g) as [|a gl'] eqn:Eg; cbn [lookup list_lookup]; [exact Hstop|].
  assert (Ha : a ∈ places s g) by (apply Hin; [exact V|rewrite Eg; left]). destruct (hand_own s g a V Ha) as [_ [x Hx]]. rewrite Hx. cbn [mbind option_bind].
  rewrite (ack_test s g a x V Ha Hx). destruct (Z.ltb_spec (gA g) (pos (S (gidx g a)))) as [|HA]; [exact Hstop|].
  destruct (Hpop s g V) as (l & -> & V1 & Hc1 & Hi1). cbn [mbind option_bind]. destruct (Hg g) as (Egc & Hfw & Egl). rewrite Eg, Ec in Egc. cbn in Egc.
  set (s1 := settle x (note x (put l s))). destruct (Hnote x (put l s)) as [Hco Hti].
  assert (V1' : Inv s1 (pop g)) by (apply (inv_core (put l s)); [exact Hco|exact V1]).
  pose proof Hfw as (_ & _ & Eix & _ & EA & _). cbn in Eix, EA.
  destruct (freeEvent_ok s1 (pop g) a [] V1' Egc) as (s2 & E2 & V2 & Ht2 & Hu2); [rewrite Eix, EA; exact HA|]. rewrite E2. cbn [mbind option_bind].
  assert (EA2 : u32 (gA g) = u32 (gA ((pop g) <| gc := [] |>))) by (cbn; now rewrite EA). rewrite EA2.
  destruct (IH (count + 1) s2 ((pop g) <| gc := [] |>) V2 eq_refl) as (n & s' & g' & E & V' & Hf' & Ec' & Hc'); [rewrite Egl, Eg; cbn in *; rewrite drop_0; lia|].
  exists n, s', g'. split; [exact E|]. split; [exact V'|]. split; [exact (fewer_trans _ _ _ Hfw Hf')|]. split; [exact Ec'|]. apply (calm_trans s s2); [|exact Hc'].
  destruct Hc1 as [Hc1 Hc1']. split; [rewrite Ht2; change (sendTimer s1) with (sendTimer (note x (put l s))); congruence|].
  rewrite Hu2. change (unSendList s1) with (unSendList (note x (put l s))). rewrite (core_unsent _ _ Hco). exact Hc1'.
Qed.

Lemma ackAll_skip get put note num (s : Pcb) : FillpNumIsbigger num (ackSeqNum s) = false -> ackAll get put note num s = Some (0, s).
Proof. intros E. unfold ackAll. now rewrite E. Qed.

(** The three skip lists. *)
Lemma ackUnrecv_ok (s : Pcb) g : Inv s g -> gc g = [] -> exists n s' g', FillpAckUnrecvList (u32 (gA g)) s = Some (n, s') /\ Inv s' g' /\ fewer g g' /\ gc g' = [] /\ calm s s'.
Proof.
  intros V Ec. unfold FillpAckUnrecvList, ackAll. destruct (negb _); [exists 0, s, g; split; [reflexivity|]; split; [exact V|]; split; [apply fewer_refl|]; split; [exact Ec|now split]|].
  destruct (inv_nums s g V) as (-> & _ & _). rewrite Nat2Z.id.
  apply (ackLoop_ok unrecvList _ _ gu (fun g => g <| gc := take 1 (gu g) ++ gc g |> <| gu := drop 1 (gu g) |>)); try assumption; try lia.
  - intros s0 g0 V0. apply ilFirst_law, V0.
  - intros s0 g0 V0. destruct (popUnrecv_ok s0 g0 V0) as (l & E & V'). exists l. split; [exact E|]. split; [exact V'|]. now repeat split.
  - intros g0. split; [reflexivity|]. split; [|reflexivity]. repeat split; cbn; rewrite ?length_drop; lia.
  - intros s0 g0 a _ Ha. apply places_in. tauto.
  - intros x s0. now split.
Qed.

Lemma ackRedun_ok (s : Pcb) g : Inv s g -> gc g = [] -> exists s' g', FillpAckRedunlist (u32 (gA g)) s = Some s' /\ Inv s' g' /\ fewer g g' /\ gc g' = [] /\ calm s s'.
Proof.
  intros V Ec. unfold FillpAckRedunlist, ackAll. destruct (negb _); [exists s, g; split; [reflexivity|]; split; [exact V|]; split; [apply fewer_refl|]; split; [exact Ec|now split]|].
  destruct (inv_nums s g V) as (_ & -> & _). rewrite Nat2Z.id.
  destruct (fun A B C D E => ackLoop_ok redunList (fun l s => s <| redunList := l |>) leaveUnrecv gr (fun g => g <| gc := take 1 (gr g) ++ gc g |> <| gr := drop 1 (gr g) |>) A B C D E (S (length (gr g))) 0 s g V Ec)
    as (n & s' & g' & -> & V' & Hf & Ec' & Hc); try lia; [..|exists s', g'; split; [reflexivity|]; split; [exact V'|]; split; [exact Hf|]; split; [exact Ec'|exact Hc]].
  - intros s0 g0 V0. apply ilFirst_law, V0.
  - intros s0 g0 V0. destruct (popRedun_ok s0 g0 V0) as (l & E & V'). exists l. split; [exact E|]. split; [exact V'|]. now repeat split.
  - intros g0. split; [reflexivity|]. split; [|reflexivity]. repeat split; cbn; rewrite ?length_drop; lia.
  - intros s0 g0 a _ Ha. apply places_in. tauto.
  - intros x s0. now split.
Qed.

Lemma ackWait_ok (s : Pcb) g : Inv s g -> gc g = [] -> exists s' g', FillpAckItemWaitTklist (u32 (gA g)) s = Some s' /\ Inv s' g' /\ fewer g g' /\ gc g' = [] /\ calm s s'.
Proof.
  intros V Ec. unfold FillpAckItemWaitTklist, ackAll. destruct (negb _); [exists s, g; split; [reflexivity|]; split; [exact V|]; split; [apply fewer_refl|]; split; [exact Ec|now split]|].
  destruct (inv_nums s g V) as (_ & _ & ->). rewrite Nat2Z.id.
  destruct (fun A B C D E => ackLoop_ok itemWaitTokenLists (fun l s => s <| itemWaitTokenLists := l |>) (fun _ s => s <| stb := (stb s) <| waitPktCount := u64 (waitPktCount (stb s) - 1) |> |>)
    gw (fun g => g <| gc := take 1 (gw g) ++ gc g |> <| gw := drop 1 (gw g) |>) A B C D E (S (length (gw g))) 0 s g V Ec)
    as (n & s' & g' & -> & V' & Hf & Ec' & Hc); try lia; [..|exists s', g'; split; [reflexivity|]; split; [exact V'|]; split; [exact Hf|]; split; [exact Ec'|exact Hc]].
  - intros s0 g0 V0. apply ilFirst_law, V0.
  - intros s0 g0 V0. destruct (popWait_ok s0 g0 V0) as (l & E & V'). exists l. split; [exact E|]. split; [exact V'|]. now repeat split.
  - intros g0. split; [reflexivity|]. split; [|reflexivity]. repeat split; cbn; lia.
  - intros s0 g0 a _ Ha. apply places_in. tauto.
  - intros x s0. now split.
Qed.

(** The count of the items in the hash map. *)
Lemma lowerCount_eq (s : Pcb) g a : Inv s g -> a ∈ concat (unackMap s) -> (0 <? unackCount s) = true /\ u32 (unackCount s - 1) = unackCount s - 1.
Proof.
  intros V Ha. destruct (inv_counts s g V) as (_ & _ & _ & Hc). rewrite (m_count _ _ _ _ _ (i_maps _ _ V)). unfold WINDOW in Hc.
  assert (0 < length (concat (unackMap s)))%nat by (destruct (concat (unackMap s)); [now apply not_elem_of_nil in Ha|cbn; lia]).
  split; [apply Z.ltb_lt; lia|]. apply u32_small. unfold in_u32. lia.
Qed.

Lemma maps_nodup (s : Pcb) g : Inv s g -> NoDup (concat (unackMap s)) /\ NoDup (concat (pktSeqMap s)).
Proof.
  intros V. pose proof (places_nodup s g V) as Hd. unfold places in Hd. rewrite !app_assoc in Hd. apply NoDup_app in Hd as (_ & _ & Hd).
  split; [exact Hd|]. now rewrite (m_perm _ _ _ _ _ (i_maps _ _ V)).
Qed.

Lemma first_of_list (s : Pcb) g i a l : Inv s g -> unackMap s !! i = Some (a :: l) -> a ∈ concat (unackMap s) /\ <[i := l]> (unackMap s) = HlistDelNode a (unackMap s).
Proof.
  intros V Hi. destruct (maps_nodup s g V) as [Hd _]. split; [apply elem_concat; exists i, (a :: l); split; [exact Hi|left]|].
  rewrite <- (delete_in_list _ i (a :: l) a Hd Hi ltac:(left)). rewrite delete_head; [reflexivity|].
  destruct (concat_set (unackMap s) i (a :: l) [] Hi) as (p & q & E & _). rewrite E in Hd. apply NoDup_app in Hd as (_ & _ & Hd). now apply NoDup_app in Hd as [Hd _].
Qed.

Lemma freeUnack_ok (s : Pcb) g i a l : Inv s g -> gc g = [] -> unackMap s !! i = Some (a :: l) -> pos (S (gidx g a)) <= gA g ->
  exists s', FreeUnackList a i s = Some s' /\ Inv s' (g <| gc := [] |>) /\ calm s s' /\ unackMap s' = <[i := l]> (unackMap s).
Proof.
  intros V Ec Hi HA. destruct (first_of_list s g i a l V Hi) as [Ha Ed]. destruct (lowerCount_eq s g a V Ha) as [Ec1 Ec2].
  destruct (hand_own s g a V) as [_ [x Hx]]; [apply places_in; tauto|]. unfold FreeUnackList. rewrite Hx, Hi. cbn [mbind option_bind tail]. rewrite Ed.
  pose proof (unlink_ok s g a V Ha) as V1. match goal with |- context [settle x ?z] => set (s1 := z) end.
  set (s2 := s <| unackMap := HlistDelNode a (unackMap s) |> <| pktSeqMap := HlistDelNode a (pktSeqMap s) |> <| unackCount := unackCount s - 1 |>) in *.
  assert (Hs : core s1 = core s2 /\ calm s s1).
  { assert (Es : s1 = s <| pktSeqMap := HlistDelNode a (pktSeqMap s) |> <| unackMap := HlistDelNode a (unackMap s) |> <| unackCount := u32 (unackCount s - 1) |>).
    { unfold s1, lowerCount. change (unackCount (_ <| unackMap := _ |>)) with (unackCount s). now rewrite Ec1. }
    rewrite Es, Ec2. now repeat split. }
  destruct Hs as [Hs Hcalm]. rewrite Ec in V1. destruct (freeEvent_ok (settle x s1) _ a [] (inv_core s2 (settle x s1) _ Hs V1) eq_refl HA) as (s' & E & V' & Ht & Hu).
  exists s'. split; [exact E|]. split; [exact V'|]. split; [destruct Hcalm; split; [rewrite Ht|rewrite Hu]; assumption|].
  unfold FillpFreeItemAndEvent, FillpFreeBufItem in E. destruct (items (settle x s1) !! a); [|discriminate]. cbn [mbind option_bind] in E. injection E as <-.
  assert (Eu : unackMap s1 = HlistDelNode a (unackMap s)) by (unfold core in Hs; injection Hs; intros; assumption). now destruct (bool_decide _).
Qed.

Lemma same_hand g : gc g = [] -> g <| gc := [] |> = g.
Proof. destruct g. cbn. now intros ->. Qed.

Lemma ackList_ok i lim : forall fuel count (s : Pcb) g l, Inv s g -> gc g = [] -> unackMap s !! i = Some l -> (length l < fuel)%nat ->
  exists b n s', ackList fuel i (u32 (gA g)) lim count s = Some (b, n, s') /\ Inv s' g /\ calm s s' /\ length (unackMap s') = length (unackMap s).
Proof.
  induction fuel as [|fuel IH]; intros count s g l V Ec Hi Hf; [lia|]. cbn [ackList]. rewrite Hi. cbn [mbind option_bind].
  destruct l as [|a l]; [exists false, count, s; split; [reflexivity|]; split; [exact V|now repeat split]|].
  destruct (first_of_list s g i a l V Hi) as [Ha _]. assert (Hp : a ∈ places s g) by (apply places_in; tauto). destruct (hand_own s g a V Hp) as [_ [x Hx]]. rewrite Hx. cbn [mbind option_bind].
  rewrite (ack_test s g a x V Hp Hx). destruct (Z.ltb_spec (gA g) (pos (S (gidx g a)))) as [|HA]; [exists false, count, s; split; [reflexivity|]; split; [exact V|now repeat split]|].
  destruct (freeUnack_ok s g i a l V Ec Hi HA) as (s1 & -> & V1 & Hc1 & Eu). cbn [mbind option_bind]. rewrite (same_hand g Ec) in V1.
  destruct ((0 <? lim) && _); [exists true, (count + 1), s1; split; [reflexivity|]; split; [exact V1|]; split; [exact Hc1|]; now rewrite Eu, length_insert|].
  destruct (IH (count + 1) s1 g l V1 Ec) as (b & n & s' & E & V' & Hc' & El); [rewrite Eu; apply list_lookup_insert_eq; now apply lookup_lt_Some in Hi|cbn in Hf; lia|].
  exists b, n, s'. split; [exact E|]. split; [exact V'|]. split; [exact (calm_trans _ _ _ Hc1 Hc')|]. rewrite El, Eu. apply length_insert.
Qed.

Lemma index_in_range (s : Pcb) g z : Inv s g -> exists l, unackMap s !! Z.to_nat (Z.land z (Z.of_nat (length (unackMap s)) - 1)) = Some l.
Proof.
  intros V. apply lookup_lt_is_Some_2. apply (hash_in_range z). rewrite (m_len _ _ _ _ _ (i_maps _ _ V)). unfold FILLP_UNACK_HASH_SIZE. lia.
Qed.

Lemma ackLists_ok last lim : forall n i count (s : Pcb) g, Inv s g -> gc g = [] ->
  exists c s', ackLists n i last (u32 (gA g)) lim count s = Some (c, s') /\ Inv s' g /\ calm s s'.
Proof.
  induction n as [|n IH]; intros i count s g V Ec; cbn [ackLists]; [exists count, s; split; [reflexivity|]; split; [exact V|now split]|].
  destruct (index_in_range s g (i + last) V) as [l Hl]. rewrite Hl. cbn [mbind option_bind].
  destruct (ackList_ok _ lim (S (length l)) count s g l V Ec Hl) as (b & c & s1 & -> & V1 & Hc1 & _); [lia|]. cbn [mbind option_bind].
  destruct b; [exists c, s1; split; [reflexivity|]; split; [exact V1|exact Hc1]|]. destruct (IH (i + 1) c s1 g V1 Ec) as (c' & s' & E & V' & Hc').
  exists c', s'. split; [exact E|]. split; [exact V'|]. exact (calm_trans _ _ _ Hc1 Hc').
Qed.

Lemma inv_acked (s : Pcb) g : Inv s g -> Inv (s <| ackSeqNum := u32 (gA g) |>) (g <| gB := gA g |>).
Proof.
  intros [Hn Hh Hk Hm Hw]. split; [|destruct Hh; now split|destruct Hk; now split|destruct Hm; now split|exact Hw].
  pose proof (n_order _ _ Hn). pose proof (n_win _ _ Hn). split; try apply Hn; cbn; [reflexivity|lia|lia].
Qed.

Lemma ackUnack_ok lim (s : Pcb) g : Inv s g -> gc g = [] -> exists s' g', FillpAckUnackList (u32 (gA g)) lim s = Some s' /\ Inv s' g' /\ fewer g g' /\ gc g' = [] /\ calm s s'.
Proof.
  intros V Ec. unfold FillpAckUnackList. destruct (negb _); [exists s, g; split; [reflexivity|]; split; [exact V|]; split; [apply fewer_refl|]; split; [exact Ec|now split]|].
  destruct (ackRedun_ok s g V Ec) as (s1 & g1 & -> & V1 & F1 & Ec1 & C1). cbn [mbind option_bind]. pose proof F1 as (_ & _ & _ & _ & EA1 & _). rewrite <- EA1.
  destruct (ackWait_ok s1 g1 V1 Ec1) as (s2 & g2 & -> & V2 & F2 & Ec2 & C2). cbn [mbind option_bind]. pose proof F2 as (_ & _ & _ & _ & EA2 & _). rewrite <- EA2.
  destruct (ackUnrecv_ok s2 g2 V2 Ec2) as (n & s3 & g3 & -> & V3 & F3 & Ec3 & C3). cbn [mbind option_bind]. pose proof F3 as (_ & _ & _ & _ & EA3 & _). rewrite <- EA3.
  pose proof (fewer_trans _ _ _ (fewer_trans _ _ _ F1 F2) F3) as F. pose proof (calm_trans _ _ _ (calm_trans _ _ _ C1 C2) C3) as C.
  match goal with |- context [mbind _ ?o] => assert (Hs : exists c s4, o = Some (c, s4) /\ Inv s4 g3 /\ calm s3 s4) end.
  { destruct ((0 <? lim) && _); [exists n, s3; split; [reflexivity|]; split; [exact V3|now split]|]. now apply ackLists_ok. }
  destruct Hs as (c & s4 & -> & V4 & C4). cbn [mbind option_bind]. pose proof (calm_trans _ _ _ C C4) as C'.
  destruct (_ || _).
  - exists (s4 <| ackSeqNum := u32 (gA g3) |>), (g3 <| gB := gA g3 |>). split; [reflexivity|]. split; [now apply inv_acked|]. split; [exact F|]. split; [exact Ec3|exact C'].
  - exists s4, g3. split; [reflexivity|]. split; [exact V4|]. split; [exact F|]. split; [exact Ec3|exact C'].
Qed.

Lemma ackSend_ok lim (s : Pcb) g : Inv s g -> gc g = [] -> exists s' g', FillpAckSendPcb lim s = Some s' /\ Inv s' g' /\ fewer g g' /\ gc g' = [] /\ calm s s'.
Proof.
  intros V Ec. unfold FillpAckSendPcb. rewrite (n_max _ _ (i_nums _ _ V)). destruct (ackUnack_ok lim s g V Ec) as (s1 & g1 & -> & V1 & F & Ec1 & C). cbn [mbind option_bind].
  eexists _, g1. split; [reflexivity|]. split; [|split; [exact F|split; [exact Ec1|]]].
  - destruct (_ && _); [now apply (inv_core s1)|exact V1].
  - now destruct (_ && _).
Qed.

(** ** Lost items *)

Lemma findPkt_some (s : Pcb) num l : (forall b, b ∈ l -> is_Some (items s !! b)) -> exists o, findPkt s num l = Some o /\ forall a, o = Some a -> a ∈ l.
Proof.
  induction l as [|b l IH]; intros Hl; cbn [findPkt]; [exists None; split; [reflexivity|discriminate]|].
  destruct (Hl b) as [y Hy]; [left|]. rewrite Hy. cbn [mbind option_bind]. destruct (_ =? _); [exists (Some b); split; [reflexivity|]; intros a [= <-]; left|].
  destruct (FillpNumIsbigger _ _); [exists None; split; [reflexivity|discriminate]|]. destruct IH as (o & E & Ho); [intros d Hd; apply Hl; now right|].
  exists o. split; [exact E|]. intros a Ha. right. now apply Ho.
Qed.

Lemma findPkt_ok (s : Pcb) (pn : nat -> Z) top a l : (forall b, b ∈ l -> exists y, items s !! b = Some y /\ pktNum (pkt y) = u32 (pn b) /\ pn b <= top /\ top - pn b < WINDOW) ->
  StronglySorted Z.lt (map pn l) -> a ∈ l -> findPkt s (u32 (pn a)) l = Some (Some a).
Proof.
  induction l as [|b l IH]; intros Hl Hs Ha; [now apply not_elem_of_nil in Ha|]. cbn [findPkt map] in *. destruct (Hl b) as (y & Hy & Ey & H1 & H2); [left|]. rewrite Hy. cbn [mbind option_bind]. rewrite Ey.
  inversion Hs as [|? ? Hs' Hb]; subst. apply elem_of_cons in Ha as [-> |Ha]; [now rewrite Z.eqb_refl|].
  destruct (Hl a) as (z & _ & _ & H3 & H4); [now right|]. rewrite Forall_forall in Hb. assert (Hlt : pn b < pn a) by (apply Hb, list_elem_of_fmap; eauto).
  assert (Hc : in_s32 (pn b - pn a)) by (unfold in_s32, WINDOW in *; lia). destruct (Z.eqb_spec (u32 (pn b)) (u32 (pn a))) as [E|_]; [apply u32_inj in E; [lia|exact Hc]|].
  rewrite bigger_pos by exact Hc. destruct (Z.ltb_spec (pn a) (pn b)); [lia|]. apply IH; [intros d Hd; apply Hl; now right|exact Hs'|exact Ha].
Qed.

(** The packet number of an item leads to it. *)
Lemma delPkt_eq (s s1 : Pcb) g a x : Inv s g -> a ∈ concat (unackMap s) -> items s !! a = Some x -> pktSeqMap s1 = pktSeqMap s ->
  (forall b y, items s !! b = Some y -> exists y', items s1 !! b = Some y' /\ pktNum (pkt y') = pktNum (pkt y)) ->
  FillpDelPktSeqHashItem (pktNum (pkt x)) s1 = Some (s1 <| pktSeqMap := HlistDelNode a (pktSeqMap s) |>).
Proof.
  intros V Ha Hx Ep Hi. pose proof (i_maps _ _ V) as Hm. destruct (maps_nodup s g V) as [_ Hd]. rewrite <- (m_perm _ _ _ _ _ Hm) in Ha. apply elem_concat in Ha as (j & l & Hj & Ha).
  assert (Hc : forall b, b ∈ l -> b ∈ concat (pktSeqMap s)) by (intros b Hb; apply elem_concat; eauto).
  pose proof (m_pnum _ _ _ _ _ Hm a x (Hc a Ha) Hx) as En. unfold FillpDelPktSeqHashItem, pktIndex. rewrite Ep, En. fold (hashOf (u32 (gpn g a)) (length (pktSeqMap s))).
  rewrite (m_phash _ _ _ _ _ Hm j l a Hj Ha), Hj. cbn [mbind option_bind]. rewrite (findPkt_ok s1 (gpn g) (gN g) a l); [|clear -V Hm Hc Hi; intros b Hb|exact (m_psorted _ _ _ _ _ Hm j l Hj)|exact Ha].
  - cbn [mbind option_bind]. now rewrite (delete_in_list _ j l a Hd Hj Ha).
  - destruct (hand_own s g b V) as [_ [y Hy]]; [apply places_in; do 4 right; rewrite <- (m_perm _ _ _ _ _ Hm); now apply Hc|]. destruct (Hi b y Hy) as (y' & Hy' & Ey). exists y'. split; [exact Hy'|].
    split; [rewrite Ey; exact (m_pnum _ _ _ _ _ Hm b y (Hc b Hb) Hy)|]. pose proof (m_pwin _ _ _ _ _ Hm b (Hc b Hb)). pose proof (m_top _ _ _ _ _ Hm). lia.
Qed.

(** Items may be moved to the list of the items to send. *)
Definition moved (g g' : Ghost) : Prop := sameNums g g' /\ gN g' = gN g /\ gpn g' = gpn g /\ gr g' = gr g /\ gw g' = gw g.

Lemma moved_refl g : moved g g.
Proof. now repeat split. Qed.
Lemma moved_trans g1 g2 g3 : moved g1 g2 -> moved g2 g3 -> moved g1 g3.
Proof. intros (A1 & A2 & A3 & A4 & A5) (B1 & B2 & B3 & B4 & B5). split; [exact (sameNums_trans _ _ _ A1 B1)|]. repeat split; congruence. Qed.

(** An item that is in the hash maps goes to the list of the items to send. *)
Lemma unlink_insert_ok (s s1 : Pcb) g a : Inv s g -> gc g = [] -> a ∈ concat (unackMap s) -> Inv s1 (g <| gc := [a] |>) -> calm s s1 ->
  exists l u, insertUnrecv a s1 = Some (ERR_OK, s1 <| unrecvList := l |>) /\ Inv (s1 <| unrecvList := l |>) (g <| gu := u |>) /\ moved g (g <| gu := u |>).
Proof.
  intros V Ec Ha V1 C. destruct (insertUnrecv_ok s1 _ a [] V1 eq_refl) as (l & u & E & Hu & V2). exists l, u. split; [exact E|]. split; [|now repeat split].
  replace (g <| gu := u |>) with (g <| gc := [a] |> <| gu := u |> <| gc := [] |>); [exact V2|]. destruct g. cbn in *. now subst.
Qed.

Lemma moveLoop_ok env i lost fp one : forall fuel (s : Pcb) g l, Inv s g -> gc g = [] -> unackMap s !! i = Some l -> (length l < fuel)%nat ->
  exists b s' g', moveLoop cfg fuel env i lost fp one s = Some (b, s') /\ Inv s' g' /\ moved g g' /\ gc g' = [] /\ calm s s'.
Proof.
  induction fuel as [|fuel IH]; intros s g l V Ec Hi Hf; [lia|]. cbn [moveLoop]. rewrite Hi. cbn [mbind option_bind].
  assert (Hstop : exists b s' g', Some (false, s) = Some (b, s') /\ Inv s' g' /\ moved g g' /\ gc g' = [] /\ calm s s').
  { exists false, s, g. split; [reflexivity|]. split; [exact V|]. split; [apply moved_refl|]. split; [exact Ec|now split]. }
  destruct l as [|a l]; [exact Hstop|]. destruct (first_of_list s g i a l V Hi) as [Ha Ed]. destruct (hand_own s g a V) as [_ [x Hx]]; [apply places_in; tauto|]. rewrite Hx. cbn [mbind option_bind].
  destruct (FillpNumIsbigger _ lost); [exact Hstop|]. destruct (s64 _ <? _); [exact Hstop|]. clear Hstop.
  destruct (lowerCount_eq s g a V Ha) as [Ec1 Ec2]. set (s0 := lowerCount _).
  assert (Es0 : s0 = s <| unackMap := HlistDelNode a (unackMap s) |> <| unackCount := unackCount s - 1 |>).
  { unfold s0, lowerCount. change (unackCount (_ <| unackMap := _ |>)) with (unackCount s). now rewrite Ec1, Ec2, Ed. }
  set (s1 := if fp then _ else s0). assert (Hs1 : pktSeqMap s1 = pktSeqMap s /\ calm s s1 /\ forall b y, items s !! b = Some y -> exists y', items s1 !! b = Some y' /\ pktNum (pkt y') = pktNum (pkt y)).
  { unfold s1. rewrite Es0. destruct fp; (split; [reflexivity|]; split; [now split|]); [|eauto]. intros b y Hy. cbn. destruct (decide (a = b)) as [<- |Hne]; [|rewrite lookup_insert_ne by done; eauto].
    rewrite lookup_insert_eq. rewrite Hx in Hy. injection Hy as <-. eauto. }
  destruct Hs1 as (Ep & C1 & Hi1). rewrite (delPkt_eq s s1 g a x V Ha Hx Ep Hi1). cbn [mbind option_bind]. set (s2 := s1 <| pktSeqMap := _ |>).
  pose proof (unlink_ok s g a V Ha) as Vu. rewrite Ec in Vu.
  assert (V2 : Inv s2 (g <| gc := [a] |>)).
  { unfold s2, s1. rewrite Es0. destruct fp; [|exact Vu]. match goal with |- context [setItem a ?z ?w] => pose proof (setItem_ok _ _ a [] x z Vu eq_refl Hx eq_refl (fun _ h => h)) as Vs end.
    eapply inv_core; [|exact Vs]. reflexivity. }
  destruct (unlink_insert_ok s s2 g a V Ec Ha V2 C1) as (l' & u & -> & V3 & Hmv). cbn [negb Z.eqb ERR_OK SkipList.ERR_OK mbind option_bind].
  destruct (hand_own _ _ a V2) as [_ [x2 Hx2]]; [apply places_in; left; left|]. change (items (s2 <| unrecvList := l' |>)) with (items s2). rewrite Hx2. cbn [mbind option_bind].
  match goal with |- context [if one then Some (true, setItem a ?z ?w) else _] => set (x4 := z); set (s4 := setItem a x4 w) end.
  assert (V4 : Inv s4 (g <| gu := u |>)) by (apply (inv_core (setItem a x4 (s2 <| unrecvList := l' |>))); [reflexivity|]; now apply (touchItem_ok _ _ a x2)).
  destruct one; [exists true, s4, (g <| gu := u |>); split; [reflexivity|]; split; [exact V4|]; split; [exact Hmv|]; split; [exact Ec|exact C1]|].
  destruct (IH s4 (g <| gu := u |>) l V4 Ec) as (b & s' & g' & E & V' & Hmv' & Ec' & C').
  - assert (Eu : unackMap s4 = <[i := l]> (unackMap s)) by (rewrite Ed; change (unackMap s4) with (unackMap s1); unfold s1; rewrite Es0; now destruct fp).
    rewrite Eu. apply list_lookup_insert_eq. now apply lookup_lt_Some in Hi.
  - cbn in Hf. lia.
  - exists b, s', g'. split; [exact E|]. split; [exact V'|]. split; [exact (moved_trans _ _ _ Hmv Hmv')|]. split; [exact Ec'|]. exact (calm_trans s s4 s' C1 C').
Qed.

Lemma moveLists_ok env ai lost fp one : forall n i (s : Pcb) g, Inv s g -> gc g = [] ->
  exists s' g', moveLists cfg n env i ai lost fp one s = Some s' /\ Inv s' g' /\ moved g g' /\ gc g' = [] /\ calm s s'.
Proof.
  induction n as [|n IH]; intros i s g V Ec; cbn [moveLists]; [exists s, g; split; [reflexivity|]; split; [exact V|]; split; [apply moved_refl|]; split; [exact Ec|now split]|].
  destruct (index_in_range s g (i + ai) V) as [l Hl]. unfold FillpMoveOneNode. rewrite Hl. cbn [mbind option_bind].
  destruct (moveLoop_ok env _ lost fp one (S (length l)) s g l V Ec Hl) as (b & s1 & g1 & -> & V1 & M1 & Ec1 & C1); [lia|]. cbn [mbind option_bind].
  destruct b; [exists s1, g1; split; [reflexivity|]; split; [exact V1|]; split; [exact M1|]; split; [exact Ec1|exact C1]|].
  destruct (IH (i + 1) s1 g1 V1 Ec1) as (s' & g' & E & V' & M' & Ec' & C'). exists s', g'. split; [exact E|]. split; [exact V'|].
  split; [exact (moved_trans _ _ _ M1 M')|]. split; [exact Ec'|]. exact (calm_trans _ _ _ C1 C').
Qed.

(** Whenever there is something to send, the timer is set. *)
Definition ready (s : Pcb) (g : Ghost) : Prop := (gu g = [] /\ gr g = [] /\ unSendList s = []) \/ sendTimer s = true.
Definition Rest (s : Pcb) (g : Ghost) : Prop := Inv s g /\ gc g = [] /\ ready s g.

Lemma ready_fewer (s s' : Pcb) g g' : fewer g g' -> calm s s' -> ready s g -> ready s' g'.
Proof.
  intros (_ & _ & _ & _ & _ & _ & _ & H1 & H2) [C1 C2] [(E1 & E2 & E3)|Ht]; [left|right; congruence]. rewrite E1 in H1. rewrite E2 in H2. rewrite C2.
  split; [destruct (gu g'); [reflexivity|cbn in H1; lia]|]. split; [destruct (gr g'); [reflexivity|cbn in H2; lia]|exact E3].
Qed.

(** The timer is set when the list is not empty. *)
Lemma enable_rest env (s s0 : Pcb) g0 g (b : bool) : Inv s g -> gc g = [] -> moved g0 g -> calm s0 s -> ready s0 g0 -> (b = false -> gu g = []) ->
  Rest (if b then FillpEnableSendTimer env s else s) g.
Proof.
  intros V Ec Hm [C1 C2] Hr Hb. destruct b.
  - split; [apply (inv_core s); [apply timer_core|exact V]|]. split; [exact Ec|]. right. apply timer_on.
  - split; [exact V|]. split; [exact Ec|]. destruct Hr as [(E1 & E2 & E3)|Ht]; [left|right; congruence]. destruct Hm as (_ & _ & _ & Er & _). rewrite Er, C2. now split; [apply Hb|].
Qed.

Lemma moveAll_ok env ack lost fp one (s : Pcb) g : Rest s g -> exists s' g', FillpMoveUnackToUnrecvAll cfg env ack lost fp one s = Some s' /\ Rest s' g' /\ moved g g'.
Proof.
  intros (V & Ec & Hr). unfold FillpMoveUnackToUnrecvAll. destruct (lost =? ack); [exists s, g; split; [reflexivity|]; split; [now split|apply moved_refl]|].
  match goal with |- context [moveLists cfg ?n env 0 ?i lost fp one s] => destruct (moveLists_ok env i lost fp one n 0 s g V Ec) as (s1 & g1 & -> & V1 & M1 & Ec1 & C1) end. cbn [mbind option_bind].
  eexists _, g1. split; [reflexivity|]. split; [|exact M1]. apply (enable_rest env s1 s g g1); try assumption. destruct (inv_nums s1 g1 V1) as (-> & _). intros Hb.
  apply Z.ltb_ge in Hb. destruct (gu g1); [reflexivity|cbn in Hb; lia].
Qed.

(** ** Received packets *)

(** The full number that a received number stands for. *)
Definition fullNum (g : Ghost) (n : Z) : Z := pos (gk g) - u32 (pos (gk g) - n).

Lemma fullNum_ok g n : in_u32 n -> FillpNumIsbigger n (u32 (pos (gk g))) = false -> n = u32 (fullNum g n) /\ pos (gk g) - 2147483648 <= fullNum g n <= pos (gk g).
Proof.
  intros Hn Hb. unfold fullNum. set (p := pos (gk g)) in *. assert (Hd : 0 <= u32 (p - n) < 4294967296) by (apply Z.mod_pos_bound; lia).
  assert (En : u32 (p - u32 (p - n)) = n).
  { transitivity (u32 n); [|now apply u32_small]. unfold u32. rewrite Zminus_mod_idemp_r. f_equal. lia. }
  split; [now symmetry|]. split; [|lia]. destruct (Z_le_gt_dec (u32 (p - n)) 2147483648) as [|Hgt]; [lia|]. exfalso.
  unfold FillpNumIsbigger in Hb. apply Z.ltb_ge in Hb. assert (Es : s32 (n - u32 p) = 4294967296 - u32 (p - n)); [|lia].
  apply (s32_congr _ _ (p / 4294967296 + (p - n) / 4294967296 * -1 - 1 + 0)); [unfold in_s32; lia|]. unfold u32.
  pose proof (Z.div_mod p 4294967296 ltac:(lia)). pose proof (Z.div_mod (p - n) 4294967296 ltac:(lia)). lia.
Qed.

Lemma inv_raise (s : Pcb) g A : Inv s g -> gA g <= A <= pos (gk g) -> Inv (s <| maxAckNumFromReceiver := u32 A |>) (g <| gA := A |>).
Proof.
  intros [Hn Hh Hk Hm Hw] HA. split; [|destruct Hh; split; try assumption|destruct Hk; now split|destruct Hm; now split|exact Hw].
  - pose proof (n_order _ _ Hn). destruct Hn. split; try assumption; cbn; [reflexivity|lia].
  - intros i Hi Hp. apply h_kept0; [exact Hi|]. cbn in Hp. lia.
Qed.

(** The acknowledged number is raised, or not. *)
Lemma raise_ok (s : Pcb) g n : Inv s g -> in_u32 n -> FillpNumIsbigger n (sSeqNum s) = false ->
  exists A, (A = gA g \/ A = fullNum g n /\ gA g < A) /\ Inv (if FillpNumIsbigger n (maxAckNumFromReceiver s) then s <| maxAckNumFromReceiver := n |> else s) (g <| gA := A |>).
Proof.
  intros V Hn Hb. rewrite (n_seq _ _ (i_nums _ _ V)) in Hb. destruct (fullNum_ok g n Hn Hb) as [En Hr]. rewrite (n_max _ _ (i_nums _ _ V)).
  pose proof (n_order _ _ (i_nums _ _ V)) as Ho. pose proof (n_win _ _ (i_nums _ _ V)) as Hw. pose proof (n_k _ _ (i_nums _ _ V)) as Hk.
  pose proof (pos_le (gk g) (gm g) ltac:(lia)) as Hl.
  assert (Eb : FillpNumIsbigger n (u32 (gA g)) = (gA g <? fullNum g n)).
  { transitivity (FillpNumIsbigger (u32 (fullNum g n)) (u32 (gA g))); [now f_equal|]. apply bigger_pos. unfold in_s32, WINDOW in *. lia. }
  rewrite Eb. destruct (Z.ltb_spec (gA g) (fullNum g n)) as [Hlt|Hge].
  - exists (fullNum g n). split; [right; split; [reflexivity|exact Hlt]|].
    replace (s <| maxAckNumFromReceiver := n |>) with (s <| maxAckNumFromReceiver := u32 (fullNum g n) |>) by now rewrite <- En. apply inv_raise; [exact V|lia].
  - exists (gA g). split; [now left|]. destruct g; exact V.
Qed.

(** What a received packet with number [n] changes. *)
Definition answered (n : Z) (g g' : Ghost) : Prop :=
  gk g' = gk g /\ gm g' = gm g /\ gidx g' = gidx g /\ (gA g' = gA g \/ gA g' = fullNum g n /\ gA g < gA g').

Lemma answered_refl n g : answered n g g.
Proof. repeat split. now left. Qed.
Lemma answered_moved n g1 g2 g3 : answered n g1 g2 -> moved g2 g3 -> answered n g1 g3.
Proof. intros (A1 & A2 & A3 & A4) ((B1 & B2 & B3 & _ & B4 & _) & _). unfold answered. rewrite B1, B2, B3, B4. now repeat split. Qed.

Lemma raised_ready (s : Pcb) g n A : ready s g -> ready (if FillpNumIsbigger n (maxAckNumFromReceiver s) then s <| maxAckNumFromReceiver := n |> else s) (g <| gA := A |>).
Proof. intros Hr. now destruct (FillpNumIsbigger _ _). Qed.

Lemma tryAck_ok (s : Pcb) g n : Rest s g -> in_u32 n -> FillpNumIsbigger n (sSeqNum s) = false ->
  exists s' g', FillpTryAckSendPcbByPackInfo n s = Some s' /\ Rest s' g' /\ answered n g g' /\ sSeqNum s' = sSeqNum s.
Proof.
  intros (V & Ec & Hr) Hn Hb. unfold FillpTryAckSendPcbByPackInfo.
  destruct (FillpNumIsbigger n (ackSeqNum s)); [|exists s, g; split; [reflexivity|]; split; [now split|]; split; [apply answered_refl|reflexivity]].
  destruct (raise_ok s g n V Hn Hb) as (A & HA & V1). pose proof (raised_ready s g n A Hr) as Hr1. set (s1 := if FillpNumIsbigger _ _ then _ else s) in *.
  destruct (ackSend_ok FILLP_MAXIMAL_ACK_NUM_LIMITATION s1 _ V1 Ec) as (s2 & g2 & E & V2 & F & Ec2 & C2). exists s2, g2. split; [exact E|].
  split; [split; [exact V2|]; split; [exact Ec2|]; exact (ready_fewer _ _ _ _ F C2 Hr1)|]. destruct F as (F1 & F2 & F3 & _ & F5 & _). cbn in F1, F2, F3, F5. split.
  - unfold answered. rewrite F1, F2, F3, F5. repeat split. tauto.
  - rewrite (n_seq _ _ (i_nums _ _ V2)), F1, (n_seq _ _ (i_nums _ _ V)). reflexivity.
Qed.

Lemma rest_core (s s' : Pcb) g : core s' = core s -> sendTimer s' = sendTimer s -> Rest s g -> Rest s' g.
Proof.
  intros Hc Ht (V & Ec & Hr). split; [exact (inv_core s s' g Hc V)|]. split; [exact Ec|]. unfold ready. rewrite Ht, (core_unsent _ _ Hc). exact Hr.
Qed.

Lemma moveByPack_ok env ack lost (s : Pcb) g : Rest s g -> exists s' g', MoveUnackToUnrecvByPackInfo cfg env ack lost s = Some s' /\ Rest s' g' /\ moved g g'.
Proof.
  intros R. unfold MoveUnackToUnrecvByPackInfo, FillpMoveUnackToUnrecv. destruct (retransmitCmpTime cfg); [now apply moveAll_ok|]. destruct (ack =? lastPackAckSeq s).
  - set (s1 := s <| packSameAckNum := _ |>). assert (R1 : Rest s1 g) by now apply (rest_core s). destruct (_ <=? _); [|exists s1, g; split; [reflexivity|]; split; [exact R1|apply moved_refl]].
    destruct (moveAll_ok env ack lost true false s1 g R1) as (s2 & g2 & -> & R2 & M2). cbn [mbind option_bind]. eexists _, g2. split; [reflexivity|]. split; [now apply (rest_core s2)|exact M2].
  - eexists _, g. split; [reflexivity|]. split; [now apply (rest_core s)|apply moved_refl].
Qed.

Lemma tail_ok env pack (s : Pcb) g : Rest s g -> exists s' g', FillpFcTailProtected cfg env pack s = Some s' /\ Rest s' g' /\ moved g g'.
Proof.
  intros R. unfold FillpFcTailProtected, FillpMoveUnackToUnrecv. destruct (_ && _); [|eexists _, g; split; [reflexivity|]; split; [now apply (rest_core s)|apply moved_refl]].
  set (s1 := s <| samePackCount := _ |>). assert (R1 : Rest s1 g) by now apply (rest_core s). destruct (_ <=? _); [|exists s1, g; split; [reflexivity|]; split; [exact R1|apply moved_refl]].
  destruct (moveAll_ok env (pSeqNum pack) (sSeqNum s1) false false s1 g R1) as (s2 & g2 & -> & R2 & M2). cbn [mbind option_bind]. eexists _, g2. split; [reflexivity|]. split; [now apply (rest_core s2)|exact M2].
Qed.

Lemma packInput_ok env pack (s : Pcb) g : Rest s g -> in_u32 (pSeqNum pack) -> exists s' g', FillpPackInput cfg env pack s = Some s' /\ Rest s' g' /\ answered (pSeqNum pack) g g'.
Proof.
  intros R Hn. assert (Hstop : exists s' g', Some s = Some s' /\ Rest s' g' /\ answered (pSeqNum pack) g g') by (exists s, g; split; [reflexivity|]; split; [exact R|apply answered_refl]).
  unfold FillpPackInput. destruct (connOpen s); [|exact Hstop]. cbn [negb]. destruct (FillpCheckPackNumber pack s) eqn:Ek; [|exact Hstop]. cbn [negb].
  assert (Hb : FillpNumIsbigger (pSeqNum pack) (sSeqNum s) = false).
  { unfold FillpCheckPackNumber in Ek. now destruct (FillpNumIsbigger (pSeqNum pack) (sSeqNum s)). }
  destruct (tryAck_ok s g (pSeqNum pack) R Hn Hb) as (s1 & g1 & -> & R1 & A1 & _). cbn [mbind option_bind].
  destruct (negb _); [exists s1, g1; split; [reflexivity|]; split; [exact R1|exact A1]|].
  destruct (moveByPack_ok env (pSeqNum pack) (pLostSeq pack) s1 g1 R1) as (s2 & g2 & -> & R2 & M2). cbn [mbind option_bind]. unfold FillpFcPackInput.
  pose proof (answered_moved _ _ _ _ A1 M2) as A2. destruct (_ =? 0); [|exists s2, g2; split; [reflexivity|]; split; [exact R2|exact A2]].
  destruct (tail_ok env pack s2 g2 R2) as (s3 & g3 & E & R3 & M3). exists s3, g3. split; [exact E|]. split; [exact R3|]. exact (answered_moved _ _ _ _ A2 M3).
Qed.

Lemma getPkt_ok num (s : Pcb) g : Inv s g -> exists o, FillpGetSeqFromPktSeqHash num s = Some o /\ forall a, o = Some a -> a ∈ concat (unackMap s).
Proof.
  intros V. pose proof (i_maps _ _ V) as Hm. unfold FillpGetSeqFromPktSeqHash. destruct (lookup_lt_is_Some_2 (pktSeqMap s) (pktIndex num s)) as [l Hl]; [apply (hash_in_range num), Hm|].
  rewrite Hl. cbn [mbind option_bind]. assert (Hin : forall b, b ∈ l -> b ∈ concat (unackMap s)) by (intros b Hb; rewrite <- (m_perm _ _ _ _ _ Hm); apply elem_concat; eauto).
  destruct (findPkt_some s num l) as (o & E & Ho); [intros b Hb; apply (hand_own s g b V), places_in; do 4 right; now apply Hin|]. exists o. split; [exact E|]. intros a Ha. apply Hin. now apply Ho.
Qed.

Lemma nackLoop_ok last sq gap : forall n num (s : Pcb) g, Inv s g -> gc g = [] -> exists s' g', nackLoop n num last sq gap s = Some s' /\ Inv s' g' /\ moved g g' /\ gc g' = [] /\ calm s s'.
Proof.
  induction n as [|n IH]; intros num s g V Ec; cbn [nackLoop]; [exists s, g; split; [reflexivity|]; split; [exact V|]; split; [apply moved_refl|]; split; [exact Ec|now split]|].
  destruct (negb _); [exists s, g; split; [reflexivity|]; split; [exact V|]; split; [apply moved_refl|]; split; [exact Ec|now split]|].
  destruct (getPkt_ok num s g V) as (o & -> & Ho). cbn [mbind option_bind]. destruct o as [a|]; [|now apply IH]. specialize (Ho a eq_refl).
  destruct (hand_own s g a V) as [_ [x Hx]]; [apply places_in; tauto|]. rewrite Hx. cbn [mbind option_bind]. destruct (_ <=? sq); [now apply IH|].
  destruct (lowerCount_eq s g a V Ho) as [Ec1 Ec2]. set (s0 := lowerCount _).
  assert (Es0 : s0 = s <| unackMap := HlistDelNode a (unackMap s) |> <| pktSeqMap := HlistDelNode a (pktSeqMap s) |> <| unackCount := unackCount s - 1 |>).
  { unfold s0, lowerCount. match goal with |- context [0 <? unackCount ?z] => change (unackCount z) with (unackCount s) end. now rewrite Ec1, Ec2. }
  pose proof (unlink_ok s g a V Ho) as Vu. rewrite Ec, <- Es0 in Vu. clearbody s0. subst s0.
  match goal with |- context [insertUnrecv a (setItem a ?z ?w)] => set (x1 := z); set (s1 := w) end. assert (Vs : Inv s1 (g <| gc := [a] |>)) by (eapply inv_core; [|exact Vu]; reflexivity).
  assert (V2 : Inv (setItem a x1 s1) (g <| gc := [a] |>)).
  { apply (setItem_ok s1 _ a [] x); [exact Vs|reflexivity|exact Hx|unfold x1; now destruct (_ <? gap)|]. intros y Hy. unfold x1. destruct (_ <? gap); [|exact Hy].
    apply sameData_flags; [exact Hy|]. now apply flags_kept. }
  destruct (unlink_insert_ok s (setItem a x1 s1) g a V Ec Ho V2) as (l & u & -> & V3 & M3); [now split|]. cbn [negb Z.eqb ERR_OK SkipList.ERR_OK mbind option_bind].
  match goal with |- context [nackLoop n _ last sq gap (setItem a ?z ?w)] => set (x4 := z); set (s4 := setItem a x4 w) end.
  assert (V4 : Inv s4 (g <| gu := u |>)).
  { apply (inv_core (setItem a x4 ((setItem a x1 s1) <| unrecvList := l |>))); [reflexivity|]. apply (touchItem_ok _ _ a x1); try assumption; try reflexivity; [apply lookup_insert_eq|done]. }
  destruct (IH (u32 (num + 1)) s4 (g <| gu := u |>) V4 Ec) as (s' & g' & E & V' & M' & Ec' & C'). exists s', g'. split; [exact E|]. split; [exact V'|].
  split; [exact (moved_trans _ _ _ M3 M')|]. split; [exact Ec'|exact C'].
Qed.

Lemma nackInput_ok env nack (s : Pcb) g : Rest s g -> in_u32 (nSeqNum nack) -> exists s' g', FillpNackInput cfg env nack s = Some s' /\ Rest s' g' /\ answered (nSeqNum nack) g g'.
Proof.
  intros R Hn. assert (Hstop : forall s1, core s1 = core s -> sendTimer s1 = sendTimer s -> exists s' g', Some s1 = Some s' /\ Rest s' g' /\ answered (nSeqNum nack) g g').
  { intros s1 Hc Ht. exists s1, g. split; [reflexivity|]. split; [now apply (rest_core s)|apply answered_refl]. }
  unfold FillpNackInput. destruct (connOpen s); [|now apply Hstop]. cbn [negb]. destruct (FillpCheckNackSeq nack s) eqn:Ek; [|now apply Hstop]. cbn [negb].
  assert (Hb : FillpNumIsbigger (nSeqNum nack) (sSeqNum s) = false).
  { unfold FillpCheckNackSeq in Ek. now destruct (FillpNumIsbigger (nSeqNum nack) (sSeqNum s)). }
  destruct (negb _); [now apply Hstop|]. clear Hstop Ek. set (s0 := s <| nackPktStartNum := _ |> <| nackPktEndNum := _ |>). assert (R0 : Rest s0 g) by now apply (rest_core s).
  destruct R0 as (V0 & Ec & Hr). unfold ProtectLongLoopRun.
  match goal with |- context [nackLoop ?n ?num ?l ?q ?gap s0] => destruct (nackLoop_ok l q gap n num s0 g V0 Ec) as (s1 & g1 & -> & V1 & M1 & Ec1 & C1) end. cbn [mbind option_bind].
  destruct (inv_nums s1 g1 V1) as (Eu & _).
  assert (R2 : Rest (if negb (ilNum (unrecvList s1) =? 0) then FillpEnableSendTimer env s1 else s1) g1).
  { apply (enable_rest env s1 s0 g g1); try assumption. rewrite Eu. intros Hz. apply negb_false_iff, Z.eqb_eq in Hz. destruct (gu g1); [reflexivity|cbn in Hz; lia]. }
  set (s2 := if negb _ then FillpEnableSendTimer env s1 else s1) in *. destruct R2 as (V2 & _ & Hr2).
  assert (Hb2 : FillpNumIsbigger (nSeqNum nack) (sSeqNum s2) = false).
  { destruct M1 as ((Ek1 & _) & _). rewrite (n_seq _ _ (i_nums _ _ V2)), Ek1. rewrite <- (n_seq _ _ (i_nums _ _ V0)). exact Hb. }
  destruct (raise_ok s2 g1 (nSeqNum nack) V2 Hn Hb2) as (A & HA & V3). eexists _, (g1 <| gA := A |>). split; [reflexivity|].
  split; [split; [exact V3|]; split; [exact Ec1|]; now apply raised_ready|]. destruct M1 as ((B1 & B2 & B3 & _ & B4 & _) & _). unfold answered, fullNum in *. rewrite B1 in *.
  cbn. rewrite B4 in *. repeat split; try assumption.
Qed.

(** ** Events that send *)

(** Items may be numbered and sent. *)
Definition onward (g g' : Ghost) : Prop := gm g' = gm g /\ gidx g' = gidx g /\ gA g' = gA g /\ (gk g <= gk g')%nat.

Lemma later_onward g1 g2 : later g1 g2 -> onward g1 g2.
Proof. unfold later, onward. tauto. Qed.
Lemma onward_trans g1 g2 g3 : onward g1 g2 -> onward g2 g3 -> onward g1 g3.
Proof. unfold onward. intros (? & ? & ? & ?) (? & ? & ? & ?). repeat split; [congruence..|lia]. Qed.
Lemma moved_onward g1 g2 : moved g1 g2 -> onward g1 g2.
Proof. unfold onward. intros ((-> & ? & ? & _ & ? & _) & _). now repeat split. Qed.
Lemma fewer_onward g1 g2 : fewer g1 g2 -> onward g1 g2.
Proof. unfold fewer, onward. intros (-> & ? & ? & _ & ? & _). now repeat split. Qed.

(** There are packet numbers for [n] more items. *)
Definition room (n : nat) (s : Pcb) : Prop :=
  let k := Z.of_nat (size (items s) + n) in
  k < WINDOW /\ map_Forall (fun a x => a ∈ concat (pktSeqMap s) -> u32 (sPktNum s - pktNum (pkt x)) + k < WINDOW) (items s).

(** ... as the ghost state has it. *)
Definition budget (s : Pcb) (g : Ghost) (n : nat) : Prop :=
  gN g + Z.of_nat (length (gu g) + length (gr g) + length (gw g) + length (unSendList s) + n) <= gT g /\ gT g - gN g < WINDOW.

Lemma held_size it un pre g P : Held it un pre g P -> size it = (length P + length un)%nat.
Proof.
  intros V. rewrite <- size_dom. assert (E : dom it = list_to_set (P ++ un)) by (apply set_eq; intros a; rewrite elem_of_dom, elem_of_list_to_set; apply V).
  rewrite E, size_list_to_set by apply V. now rewrite length_app.
Qed.

Lemma room_ok (s : Pcb) g n : Inv s g -> room n s -> exists T, Inv s (g <| gT := T |>) /\ budget s (g <| gT := T |>) n.
Proof.
  intros [Hn Hh Hk Hm Hw] [R1 R2]. pose proof (held_size _ _ _ _ _ Hh) as Hs. unfold places in Hs. rewrite !length_app in Hs.
  exists (gN g + Z.of_nat (size (items s) + n)). split; [|unfold budget; cbn; lia].
  split; [destruct Hn; now split|destruct Hh; now split|destruct Hk; now split| |exact Hw]. pose proof (m_top _ _ _ _ _ Hm) as Ht. split; try apply Hm; cbn; [|lia].
  intros a Ha. pose proof (m_pwin _ _ _ _ _ Hm a Ha) as [H1 H2]. split; [exact H1|].
  assert (Hp : a ∈ places s g) by (apply places_in; do 4 right; now rewrite <- (m_perm _ _ _ _ _ Hm)).
  assert (Hx : is_Some (items s !! a)) by (apply (h_dom _ _ _ _ _ Hh), elem_of_app; now left). destruct Hx as [x Hx]. specialize (R2 a x Hx Ha).
  rewrite (n_num _ _ Hn), (m_pnum _ _ _ _ _ Hm a x Ha Hx), u32_sub_u32 in R2. assert (E : u32 (gN g - u32 (gpn g a)) = gN g - gpn g a); [|lia].
  unfold u32. rewrite Zminus_mod_idemp_r. apply Z.mod_small. unfold WINDOW in *. lia.
Qed.

Lemma sendOnce_ok env tot num (s : Pcb) g : Inv s g -> gc g = [] -> budget s g 0 ->
  exists n s' g', FillpSendOne cfg env tot num s = Some (n, s') /\ Inv s' g' /\ gc g' = [] /\ onward g g'.
Proof.
  intros V Ec [B1 B2]. unfold FillpSendOne, FillpMoveRedundantItemToUnrecvList. destruct (inv_nums s g V) as (_ & Er & _). rewrite Er, Nat2Z.id.
  destruct (moveRedundant_ok (S (length (gr g))) s g V Ec) as (s1 & g1 & -> & V1 & N1 & Ec1 & Er1 & En1 & El1 & _ & Eu1); [lia|]. cbn [mbind option_bind].
  match goal with |- context [mbind _ (if ?b then FillpAckSendPcb ?c s1 else Some s1)] =>
    assert (H2 : exists s2 g2, (if b then FillpAckSendPcb c s1 else Some s1) = Some s2 /\ Inv s2 g2 /\ fewer g1 g2 /\ gc g2 = [] /\ calm s1 s2) end.
  { destruct (_ <? mpSendSize cfg); [now apply ackSend_ok|]. exists s1, g1. split; [reflexivity|]. split; [exact V1|]. split; [apply fewer_refl|]. split; [exact Ec1|now split]. }
  destruct H2 as (s2 & g2 & -> & V2 & F2 & Ec2 & [_ C2]). cbn [mbind option_bind]. destruct (inv_nums s2 g2 V2) as (Eu & _). rewrite Eu, Nat2Z.id.
  pose proof (onward_trans _ _ _ (later_onward _ _ (sameNums_later _ _ N1)) (fewer_onward _ _ F2)) as O2.
  destruct F2 as (_ & _ & _ & ET2 & _ & EN2 & _ & Hl & _). destruct N1 as (_ & _ & _ & ET1 & _).
  destruct (sendLoop_ok env tot (S (length (gu g2) + length (unSendList s2) + length (more env))) (more env) 0 s2 g2 V2 Ec2) as (n & s3 & g3 & E & V3 & L3 & Ec3 & _);
    [lia|rewrite C2, Eu1; lia|lia|].
  exists n, s3, g3. split; [exact E|]. split; [exact V3|]. split; [exact Ec3|]. exact (onward_trans _ _ _ O2 (later_onward _ _ L3)).
Qed.

Lemma enabled_rest env (s : Pcb) g : Inv s g -> gc g = [] -> Rest (FillpEnableSendTimer env s) g.
Proof. intros V Ec. split; [apply (inv_core s); [apply timer_core|exact V]|]. split; [exact Ec|]. right. apply timer_on. Qed.

Lemma onward_refl g : onward g g.
Proof. now repeat split. Qed.

Lemma cycle_ok env dt (s : Pcb) g : Inv s g -> gc g = [] -> budget s g 0 -> exists s' g', SpungeDoSendCycle cfg env dt s = Some s' /\ Rest s' g' /\ onward g g'.
Proof.
  intros V Ec B. unfold SpungeDoSendCycle. set (s0 := s <| sendTime := curTime env |>). assert (V0 : Inv s0 g) by now apply (inv_core s).
  destruct (SpungeCalExpectedBytes cfg env dt s0) as [bytes num].
  match goal with |- context [mbind _ ?o] => assert (H1 : exists s1 g1, o = Some s1 /\ Inv s1 g1 /\ gc g1 = [] /\ onward g g1) end.
  { destruct (_ <=? bytes).
    - destruct (sendOnce_ok env (bytes - pktSize cfg) num s0 g V0 Ec B) as (n & s1 & g1 & -> & V1 & Ec1 & O1). cbn [mbind option_bind]. eexists _, g1. split; [reflexivity|].
      split; [now apply (inv_core s1)|now split].
    - eexists _, g. split; [reflexivity|]. split; [now apply (inv_core s0)|]. split; [exact Ec|apply onward_refl]. }
  destruct H1 as (s1 & g1 & -> & V1 & Ec1 & O1). cbn [mbind option_bind]. eexists _, g1. split; [reflexivity|]. split; [|exact O1].
  match goal with |- context [if ?c then _ else _] => destruct c eqn:Eb end; [now apply enabled_rest|].
  split; [now apply (inv_core s1)|]. split; [exact Ec1|]. left. apply orb_false_iff in Eb as [Eb E3]. apply orb_false_iff in Eb as [Eb E2]. apply orb_false_iff in Eb as [_ E1].
  destruct (inv_nums s1 g1 V1) as (Nu & Nr & _). rewrite Nu in E3. rewrite Nr in E2. apply negb_false_iff in E1, E2, E3. apply bool_decide_eq_true in E1. apply Z.eqb_eq in E2, E3.
  split; [destruct (gu g1); [reflexivity|cbn in E3; lia]|]. split; [destruct (gr g1); [reflexivity|cbn in E2; lia]|exact E1].
Qed.

Lemma sendFc_ok env (s : Pcb) g : Inv s g -> gc g = [] -> budget s g 0 -> exists s' g', FillpPcbSendFc cfg env s = Some s' /\ Rest s' g' /\ onward g g'.
Proof.
  intros V Ec B. unfold FillpPcbSendFc. destruct (sendTimer s) eqn:Et; [exists s, g; split; [reflexivity|]; split; [|apply onward_refl]; split; [exact V|]; split; [exact Ec|now right]|].
  destruct (_ || _); [now apply cycle_ok|]. eexists _, g. split; [reflexivity|]. split; [now apply enabled_rest|apply onward_refl].
Qed.

Lemma timerCb_ok env (s : Pcb) g : Inv s g -> gc g = [] -> budget s g 0 -> exists s' g', FillpSendTimerCb cfg env s = Some s' /\ Rest s' g' /\ onward g g'.
Proof.
  intros V Ec B. unfold FillpSendTimerCb. set (s0 := s <| sendTimer := false |>). assert (V0 : Inv s0 g) by now apply (inv_core s).
  destruct (_ <=? _); [now apply cycle_ok|]. eexists _, g. split; [reflexivity|]. split; [now apply enabled_rest|apply onward_refl].
Qed.

Lemma waitTurn_ok env (s : Pcb) g : Rest s g -> budget s g 0 -> exists b s' g', waitTurn env s = Some (b, s') /\ Rest s' g' /\ onward g g'.
Proof.
  intros R B. pose proof R as (V & Ec & Hr). unfold waitTurn. rewrite (ilFirst_law _ _ (k_w _ _ (i_skips _ _ V))). cbn [mbind option_bind].
  destruct (popWait_ok s g V) as (l & El & V1). destruct (gw g) as [|a w] eqn:Ew; cbn [lookup list_lookup] in *; [exists true, s, g; split; [reflexivity|]; split; [exact R|apply onward_refl]|].
  destruct (hand_own s g a V) as [_ [x Hx]]; [apply places_in; rewrite Ew; do 3 right; left; left|]. rewrite Hx. cbn [mbind option_bind].
  destruct (_ <? _); [exists false, s, g; split; [reflexivity|]; split; [exact R|apply onward_refl]|]. rewrite El. cbn [mbind option_bind].
  match goal with |- context [FillpSendItem env a ?z] => set (s1 := z) end. cbn [take drop app] in V1. rewrite Ec, drop_0 in V1. set (g1 := g <| gc := [a] |> <| gw := w |>) in *.
  assert (V1' : Inv s1 g1) by (apply (inv_core (s <| itemWaitTokenLists := l |>)); [reflexivity|exact V1]). destruct B as [B1 B2]. rewrite Ew in B1. cbn [length] in B1.
  destruct (sendItem_ok env s1 g1 a [] V1' eq_refl) as (ret & s2 & g2 & -> & V2 & N2 & Ec2 & Er2 & Ew2 & Eu2 & [x2 Hx2] & Hres); [cbn; lia|cbn; lia|]. cbn [mbind option_bind].
  pose proof (later_onward _ _ (sameNums_later _ _ N2)) as O2. assert (Hr2 : ready s2 g2).
  { destruct Hres as [(_ & _ & Eg & Et)|(_ & _ & _ & Et)]; [|now right]. destruct Hr as [(H1 & H2 & H3)|Ht]; [left|right; rewrite Et; exact Ht]. rewrite Eg, Er2, Eu2. now split. }
  destruct (ret =? ERR_OK).
  - rewrite Hx2. cbn [mbind option_bind]. eexists _, _, g2. split; [reflexivity|]. split; [apply (rest_core s2); [reflexivity|reflexivity|now split]|exact O2].
  - eexists _, s2, g2. split; [reflexivity|]. split; [now split|exact O2].
Qed.

Lemma clearWaiting_ok fuel : forall (s : Pcb) g, Inv s g -> gc g = [] -> (length (gw g) < fuel)%nat -> exists s' g', clearWaiting fuel s = Some s' /\ Inv s' g' /\ sameNums g g' /\
  gc g' = [] /\ gr g' = gr g /\ calm s s'.
Proof.
  induction fuel as [|fuel IH]; intros s g V Ec Hf; [lia|]. cbn [clearWaiting]. destruct (popWait_ok s g V) as (l & -> & V1). cbn [mbind option_bind]. rewrite Ec in V1.
  destruct (gw g) as [|a w] eqn:Ew; cbn [lookup list_lookup].
  - eexists _, _. split; [reflexivity|]. split; [exact V1|]. split; [now repeat split|]. split; [reflexivity|]. split; [reflexivity|now split].
  - cbn [take drop app] in V1. rewrite drop_0 in V1. match goal with |- context [insertUnrecv a ?z] => set (s1 := z) end. set (g1 := g <| gc := [a] |> <| gw := w |>) in *.
    assert (V1' : Inv s1 g1) by (apply (inv_core (s <| itemWaitTokenLists := l |>)); [reflexivity|exact V1]).
    destruct (insertUnrecv_ok s1 g1 a [] V1' eq_refl) as (l' & u & -> & Hu & V2). cbn [mbind option_bind]. destruct (hand_own s1 g1 a V1') as [_ [x Hx]]; [apply places_in; left; left|].
    match goal with |- context [items ?z !! a] => change (items z) with (items s1) end. rewrite Hx. cbn [negb Z.eqb ERR_OK SkipList.ERR_OK mbind option_bind].
    match goal with |- context [clearWaiting fuel ?z] => set (s2 := z) end. assert (C2 : core s2 = core (s1 <| unrecvList := l' |>) /\ calm s s2) by (unfold s2; now destruct (0 <? sendCount x)).
    destruct C2 as [C2 Cl2]. destruct (IH s2 _ (inv_core _ _ _ C2 V2) eq_refl) as (s' & g' & E & V' & N' & Ec' & Er' & Cl'); [cbn in *; lia|].
    exists s', g'. split; [exact E|]. split; [exact V'|]. split; [exact N'|]. split; [exact Ec'|]. split; [exact Er'|]. exact (calm_trans _ _ _ Cl2 Cl').
Qed.

Lemma clear_ok env (s : Pcb) g : Rest s g -> exists s' g', SpungeClearItemWaitTokenList env s = Some s' /\ Rest s' g' /\ onward g g'.
Proof.
  intros (V & Ec & Hr). unfold SpungeClearItemWaitTokenList. destruct (inv_nums s g V) as (_ & _ & Nw). rewrite Nw, Nat2Z.id.
  destruct (clearWaiting_ok (S (length (gw g))) s g V Ec) as (s1 & g1 & -> & V1 & N1 & Ec1 & Er1 & [Ct Cu]); [lia|]. cbn [mbind option_bind]. eexists _, g1. split; [reflexivity|].
  split; [|exact (later_onward _ _ (sameNums_later _ _ N1))]. destruct (negb _) eqn:Eb; [now apply enabled_rest|]. split; [exact V1|]. split; [exact Ec1|].
  destruct (inv_nums s1 g1 V1) as (Nu & _). rewrite Nu in Eb. apply negb_false_iff, Z.eqb_eq in Eb.
  destruct Hr as [(_ & H2 & H3)|Ht]; [left|right; congruence]. rewrite Er1, Cu. split; [destruct (gu g1); [reflexivity|cbn in Eb; lia]|now split].
Qed.

(** ** Submission *)

Lemma order_set g a v m l : a ∉ l -> inOrder (g <| gm := m |> <| gidx := fnSet (gidx g) a v |>) l <-> inOrder g l.
Proof. intros Ha. unfold inOrder. cbn. now rewrite fnSet_map. Qed.

Lemma held_submit it un pre g P a x y : Held it un pre g P -> (gk g <= gm g <= length stream)%nat -> M a -> it !! a = None -> stream !! gm g = Some y -> sameData y (pkt x) ->
  (forall b, b ∈ P -> pos (S (gm g)) - pos (S (gidx g b)) < WINDOW) ->
  Held (<[a := x]> it) (un ++ [a]) pre (g <| gm := S (gm g) |> <| gidx := fnSet (gidx g) a (gm g) |>) P.
Proof.
  intros V Hk HM Ha Hy Hd HW. assert (Hn : a ∉ P ++ un) by (intros C; apply (h_dom _ _ _ _ _ V) in C as [z Hz]; congruence).
  assert (Hne : forall b, b ∈ P ++ un -> b <> a) by (intros b Hb ->; contradiction). rewrite not_elem_of_app in Hn. destruct Hn as [HnP Hnu].
  assert (Hin : forall b, b ∈ P -> b ∈ P ++ un) by (intros; apply elem_of_app; now left).
  assert (Hs : forall b, is_Some (<[a := x]> it !! b) <-> b = a \/ is_Some (it !! b)).
  { intros b. rewrite lookup_insert_is_Some. destruct (decide (a = b)) as [<- |Hab]; [tauto|]. split; [intros [?|[_ ?]]; [congruence|tauto]|intros [?|?]; [congruence|tauto]]. }
  split; cbn.
  - intros b. rewrite Hs, (h_dom _ _ _ _ _ V), !elem_of_app, list_elem_of_singleton. tauto.
  - rewrite app_assoc. apply NoDup_app. split; [apply V|]. split; [intros b Hb ->%list_elem_of_singleton; now apply (Hne a)|apply NoDup_singleton].
  - intros b Hb. rewrite fnSet_ne by auto. now apply (h_item _ _ _ _ _ V).
  - intros b z Hz Hb. rewrite fnSet_ne by auto. rewrite lookup_insert_ne in Hz by (symmetry; auto). exact (h_seq _ _ _ _ _ V b z Hz Hb).
  - intros b z Hz. destruct (decide (a = b)) as [<- |Hab].
    + rewrite lookup_insert_eq in Hz. injection Hz as <-. rewrite fnSet_eq. eauto.
    + rewrite lookup_insert_ne in Hz by done. rewrite fnSet_ne by congruence. exact (h_data _ _ _ _ _ V b z Hz).
  - rewrite map_app. cbn. rewrite fnSet_eq, fnSet_map by exact Hnu. rewrite (h_unsent _ _ _ _ _ V). replace (S (gm g) - gk g)%nat with (S (gm g - gk g)) by lia.
    rewrite seq_S. do 3 f_equal. lia.
  - rewrite fnSet_map by exact HnP. apply V.
  - intros i Hi HA. destruct (h_kept _ _ _ _ _ V i Hi HA) as (b & Hb & Eb). exists b. split; [exact Hb|]. rewrite fnSet_ne by auto. exact Eb.
  - intros b Hb. rewrite fnSet_ne by auto. now apply HW.
  - intros b Hb. rewrite app_assoc, elem_of_app, list_elem_of_singleton in Hb. destruct Hb as [Hb| ->]; [now apply (h_own _ _ _ _ _ V)|exact HM].
  - intros b Hb. apply Hs. right. now apply (h_pre _ _ _ _ _ V).
Qed.

Lemma submit_ok (s : Pcb) g a x y : Inv s g -> M a -> items s !! a = None -> stream !! gm g = Some y -> sameData y x ->
  pos (S (gm g)) - gB g < WINDOW -> (forall b, b ∈ places s g -> pos (S (gm g)) - pos (S (gidx g b)) < WINDOW) ->
  exists s', submit a x s = Some s' /\ Inv s' (g <| gm := S (gm g) |> <| gidx := fnSet (gidx g) a (gm g) |>) /\ unSendList s' = unSendList s ++ [a] /\ items s' = <[a := mkSendItem x 0 0 0 0 0]> (items s) /\ unackMap s' = unackMap s.
Proof.
  intros [Hn Hh Hk Hm Hw] HM Ha Hy Hd HB HW.
  assert (Hout : a ∉ places s g ++ unSendList s) by (intros C; apply (h_dom _ _ _ _ _ Hh) in C as [z Hz]; congruence). rewrite elem_of_app in Hout.
  unfold submit. rewrite bool_decide_false by tauto. eexists. split; [reflexivity|]. split; [|now split].
  assert (Hap : (a ∉ gu g) /\ (a ∉ gr g) /\ (a ∉ gw g) /\ (a ∉ concat (unackMap s))) by (rewrite (places_in s g a) in Hout; tauto). destruct Hap as (Hu & Hr & Hwt & Hc).
  split; [| | | |exact Hw].
  - pose proof (lookup_lt_Some _ _ _ Hy). pose proof (n_k _ _ Hn). destruct Hn. split; try assumption; cbn; lia.
  - exact (held_submit _ _ _ g (places s g) a (mkSendItem x 0 0 0 0 0) y Hh (n_k _ _ Hn) HM Ha Hy Hd HW).
  - destruct Hk. split; try assumption; cbn; now apply order_set.
  - assert (Hl : forall j l, unackMap s !! j = Some l -> a ∉ l) by (intros j l Hj C; apply Hc, elem_concat; eauto).
    assert (Hp : a ∉ concat (pktSeqMap s)) by now rewrite (m_perm _ _ _ _ _ Hm). destruct Hm. split; try assumption; cbn.
    + intros j l Hj. apply order_set; [eauto|eauto].
    + intros j l b Hj Hb. rewrite fnSet_ne by (intros ->; now apply (Hl j l)). eauto.
    + intros b z Hb Hz. rewrite lookup_insert_ne in Hz by (intros ->; contradiction). eauto.
Qed.

(** The items of [l] are the next ones of the stream. *)
Definition nextItems (g : Ghost) (l : list (nat * FillpPcbItem)) : Prop :=
  forall i a x, l !! i = Some (a, x) -> exists y, stream !! (gm g + i)%nat = Some y /\ sameData y x.

(** What submission changes. *)
Definition given (n : nat) (g g' : Ghost) : Prop :=
  gm g' = (gm g + n)%nat /\ gk g' = gk g /\ gA g' = gA g /\ gN g' = gN g /\ gT g' = gT g /\ gu g' = gu g /\ gr g' = gr g /\ gw g' = gw g /\ gc g' = gc g.

Lemma submitAll_ok l : forall (s : Pcb) g, Inv s g -> NoDup (map fst l) -> (forall a x, (a, x) ∈ l -> M a /\ items s !! a = None) -> nextItems g l ->
  pos (gm g + length l) - gB g < WINDOW -> (forall b, b ∈ places s g -> pos (gm g + length l) - pos (S (gidx g b)) < WINDOW) ->
  exists s' g', submitAll l s = Some s' /\ Inv s' g' /\ given (length l) g g' /\ (length (unSendList s') = length (unSendList s) + length l)%nat.
Proof.
  induction l as [|[a x] l IH]; intros s g V Hd Hf Hn HB HW; cbn [submitAll].
  - exists s, g. split; [reflexivity|]. split; [exact V|]. split; [|cbn; lia]. repeat split. cbn. lia.
  - destruct (Hf a x) as [HM Ha]; [left|]. destruct (Hn 0%nat a x eq_refl) as (y & Hy & Hs). rewrite Nat.add_0_r in Hy.
    assert (Hlen : (gm g + length ((a, x) :: l) <= length stream)%nat).
    { destruct (last ((a, x) :: l)) as [[b z]|] eqn:El; [|now apply last_None in El]. rewrite last_lookup in El. destruct (Hn _ b z El) as (y' & Hy' & _). apply lookup_lt_Some in Hy'. cbn in *. lia. }
    pose proof (pos_le (S (gm g)) (gm g + length ((a, x) :: l)) ltac:(cbn in *; lia)) as Hp.
    destruct (submit_ok s g a x y V HM Ha Hy Hs) as (s1 & -> & V1 & Eu & Ei & Em); [lia|intros b Hb; specialize (HW b Hb); lia|]. cbn [mbind option_bind].
    cbn in Hd. apply NoDup_cons in Hd as [Hna Hd]. cbn [length] in *. replace (gm g + S (length l))%nat with (S (gm g) + length l)%nat in * by lia.
    destruct (IH s1 _ V1 Hd) as (s' & g' & E & V' & G' & El).
    + intros b z Hb. destruct (Hf b z) as [HMb Hbn]; [now right|]. split; [exact HMb|]. rewrite Ei, lookup_insert_ne; [exact Hbn|]. intros <-. apply Hna. apply list_elem_of_fmap. now exists (a, z).
    + intros i b z Hi. destruct (Hn (S i) b z Hi) as (y' & Hy' & Hs'). exists y'. split; [|exact Hs']. cbn. now rewrite <- Nat.add_succ_r.
    + exact HB.
    + intros b Hb. assert (Hb' : b ∈ places s g) by (rewrite places_in in *; now rewrite Em in Hb). cbn. rewrite fnSet_ne; [now apply HW|].
      intros ->. destruct (hand_own s g a V Hb') as [_ [z Hz]]. congruence.
    + exists s', g'. split; [exact E|]. split; [exact V'|]. split; [|rewrite El, Eu, length_app; cbn; lia]. destruct G' as (G1 & G2). cbn in *. split; [lia|exact G2].
Qed.

(** The bytes of the items of [l]. *)
Definition bytesOf (s : Pcb) (l : list nat) : Z := foldr (fun a n => from_option (fun x => dataLen (pkt x)) 0 (items s !! a) + n) 0 l.

Lemma unsent_bytes (s : Pcb) l k : (forall a x, items s !! a = Some x -> exists y, stream !! k a = Some y /\ sameData y (pkt x)) -> (forall a, a ∈ l -> is_Some (items s !! a)) ->
  forall j, map k l = seq j (length l) -> pos (j + length l) = pos j + bytesOf s l.
Proof.
  intros Hd. induction l as [|a l IH]; intros Hl j Hk; cbn [length bytesOf foldr map seq] in *; [rewrite Nat.add_0_r; lia|]. injection Hk as Hka Hk.
  destruct (Hl a) as [x Hx]; [left|]. destruct (Hd a x Hx) as (y & Hy & Hs). rewrite Hka in Hy. rewrite Hx. cbn [from_option].
  replace (j + S (length l))%nat with (S j + length l)%nat by lia. rewrite (IH ltac:(intros b Hb; apply Hl; now right) (S j) Hk), (pos_S stream base j y Hy), (sd_len _ _ Hs). unfold bytesOf. lia.
Qed.

(** The bytes from the oldest number in use on stay inside the window when [n] bytes are added. *)
Definition space (n : Z) (s : Pcb) : Prop :=
  let b := bytesOf s (unSendList s) + n in
  u32 (sSeqNum s - ackSeqNum s) + b < WINDOW /\
  map_Forall (fun a x => a ∉ unSendList s -> u32 (sSeqNum s - seqNum (pkt x)) + b < WINDOW) (items s).

Lemma behind k z : z <= pos k -> pos k - z < WINDOW -> u32 (u32 (pos k) - u32 z) = pos k - z.
Proof. intros H1 H2. unfold u32. rewrite <- Zminus_mod. apply Z.mod_small. unfold WINDOW in *. lia. Qed.

Lemma space_ok (s : Pcb) g n : Inv s g -> space n s -> pos (gm g) + n - gB g < WINDOW /\ forall b, b ∈ places s g -> pos (gm g) + n - pos (S (gidx g b)) < WINDOW.
Proof.
  intros [Hn Hh _ _ _] [S1 S2]. pose proof (n_k _ _ Hn) as Hk. pose proof (n_order _ _ Hn) as Ho. pose proof (n_win _ _ Hn) as Hw. pose proof (pos_le (gk g) (gm g) ltac:(lia)) as Hkm.
  assert (Hlen : (gm g = gk g + length (unSendList s))%nat).
  { pose proof (f_equal length (h_unsent _ _ _ _ _ Hh)) as Hl. rewrite length_fmap, length_seq in Hl. lia. }
  assert (Hin : forall a, a ∈ unSendList s -> is_Some (items s !! a)) by (intros a Ha; apply (h_dom _ _ _ _ _ Hh), elem_of_app; now right).
  assert (Eb : pos (gm g) = pos (gk g) + bytesOf s (unSendList s)).
  { rewrite Hlen. apply (unsent_bytes s _ (gidx g)); [exact (h_data _ _ _ _ _ Hh)|exact Hin|]. rewrite (h_unsent _ _ _ _ _ Hh). f_equal. lia. }
  split.
  - rewrite (n_seq _ _ Hn), (n_ack _ _ Hn), behind in S1 by lia. lia.
  - intros b Hb. pose proof (h_item _ _ _ _ _ Hh b Hb) as Hi. pose proof (h_win _ _ _ _ _ Hh b Hb) as Hwb. pose proof (pos_le (S (gidx g b)) (gk g) ltac:(lia)) as Hbk.
    assert (Hx : is_Some (items s !! b)) by (apply (h_dom _ _ _ _ _ Hh), elem_of_app; now left). destruct Hx as [x Hx].
    assert (Hnu : b ∉ unSendList s) by (pose proof (h_nodup _ _ _ _ _ Hh) as Hd; apply NoDup_app in Hd as (_ & Hd & _); now apply Hd).
    specialize (S2 b x Hx Hnu). rewrite (n_seq _ _ Hn), (h_seq _ _ _ _ _ Hh b x Hx Hb), behind in S2 by lia. lia.
Qed.

(** The bytes of the items that are submitted. *)
Definition newBytes (l : list (nat * FillpPcbItem)) : Z := foldr (fun p n => dataLen (snd p) + n) 0 l.

Lemma new_pos l : forall j, (forall i a x, l !! i = Some (a, x) -> exists y, stream !! (j + i)%nat = Some y /\ sameData y x) -> pos (j + length l) = pos j + newBytes l.
Proof.
  induction l as [|[a x] l IH]; intros j Hl; cbn [length newBytes foldr snd]; [rewrite Nat.add_0_r; lia|]. destruct (Hl 0%nat a x eq_refl) as (y & Hy & Hs). rewrite Nat.add_0_r in Hy.
  replace (j + S (length l))%nat with (S j + length l)%nat by lia. rewrite IH.
  - rewrite (pos_S stream base j y Hy), (sd_len _ _ Hs). unfold newBytes. lia.
  - intros i b z Hi. destruct (Hl (S i) b z Hi) as (y' & Hy' & Hs'). exists y'. split; [|exact Hs']. now replace (S j + i)%nat with (j + S i)%nat by lia.
Qed.

Lemma pcbSend_ok env l (s : Pcb) g : Rest s g -> NoDup (map fst l) -> (forall a x, (a, x) ∈ l -> M a /\ items s !! a = None) -> nextItems g l -> space (newBytes l) s -> room (length l) s ->
  exists s' g', FillpPcbSend cfg env true l s = Some s' /\ Rest s' g' /\ gm g' = (gm g + length l)%nat /\ gA g' = gA g /\ (gk g <= gk g')%nat.
Proof.
  intros (V & Ec & _) Hd Hf Hn Hs Hr. unfold FillpPcbSend. cbn [negb]. destruct (room_ok s g _ V Hr) as (T & V0 & [B1 B2]). destruct (space_ok s g _ V Hs) as [S1 S2].
  destruct (submitAll_ok l s _ V0 Hd Hf Hn) as (s1 & g1 & -> & V1 & G1 & El); [cbn; rewrite new_pos by exact Hn; lia|intros b Hb; cbn; rewrite new_pos by exact Hn; now apply S2|].
  cbn [mbind option_bind]. destruct G1 as (G1 & G2 & G3 & G4 & G5 & G6 & G7 & G8 & G9). cbn in *.
  destruct (sendFc_ok env s1 g1 V1) as (s2 & g2 & E & R2 & (O1 & _ & O3 & O4)); [congruence|unfold budget; rewrite G4, G5, G6, G7, G8, El; lia|].
  exists s2, g2. split; [exact E|]. split; [exact R2|]. split; [congruence|]. split; [congruence|lia].
Qed.

(** ** The end of a connection *)

(** Every item is in its place once: freeing what the lists hold frees all. *)
Lemma freeItem_eq (s : Pcb) a : is_Some (items s !! a) -> exists s', FillpFreeBufItem a s = Some s' /\ items s' = delete a (items s) /\
  (unSendList s', unackMap s', unrecvList s', redunList s', itemWaitTokenLists s') = (unSendList s, unackMap s, unrecvList s, redunList s, itemWaitTokenLists s).
Proof. intros [x Hx]. unfold FillpFreeBufItem. rewrite Hx. cbn [mbind option_bind]. eexists. split; [reflexivity|]. now destruct (bool_decide _). Qed.

Definition listsOf (s : Pcb) := (unSendList s, unackMap s, unrecvList s, redunList s, itemWaitTokenLists s).

Lemma freeAll_ok l : forall (s : Pcb) R, NoDup (l ++ R) -> (forall a, is_Some (items s !! a) <-> a ∈ l ++ R) ->
  exists s', freeAll l s = Some s' /\ (forall a, is_Some (items s' !! a) <-> a ∈ R) /\ listsOf s' = listsOf s.
Proof.
  induction l as [|a l IH]; intros s R Hd Hi; cbn [freeAll app] in *; [exists s; now split|]. apply NoDup_cons in Hd as [Ha Hd].
  destruct (freeItem_eq s a) as (s1 & -> & E1 & E2); [apply Hi; left|]. cbn [mbind option_bind]. destruct (IH s1 R Hd) as (s' & E & Hi' & E').
  - intros b. rewrite E1, lookup_delete_is_Some, Hi, elem_of_cons. split; [intros [? [?|?]]; [congruence|assumption]|intros Hb; split; [intros ->; contradiction|now right]].
  - exists s'. split; [exact E|]. split; [exact Hi'|]. rewrite E'. exact E2.
Qed.

(** One of the skip lists, as [get] and [put] access it; [other]: the other lists. *)
Record skipAccess {X} (get : Pcb -> L) (put : L -> Pcb -> Pcb) (other : Pcb -> X) : Prop := {
  sa_get : forall l s, get (put l s) = l;
  sa_items : forall l s, items (put l s) = items s;
  sa_other : forall l s, other (put l s) = other s;
  sa_free : forall s s', listsOf s' = listsOf s -> get s' = get s /\ other s' = other s
}.

Lemma freeSkip_ok {X} get put (other : Pcb -> X) : skipAccess get put other -> forall l (s : Pcb) R, ilHolds (get s) l -> NoDup (l ++ R) -> (forall a, is_Some (items s !! a) <-> a ∈ l ++ R) ->
  exists s', freeSkip (length l) get put s = Some s' /\ (forall a, is_Some (items s' !! a) <-> a ∈ R) /\ other s' = other s.
Proof.
  intros SA. induction l as [|a l IH]; intros s R Hl Hd Hi; cbn [freeSkip length app] in *; [exists s; now split|]. apply NoDup_cons in Hd as [Ha Hd].
  destruct (ilPop_law _ _ Hl) as (l1 & -> & Hl1 & _). cbn [lookup list_lookup mbind option_bind drop] in *. rewrite drop_0 in Hl1.
  destruct (freeItem_eq (put l1 s) a) as (s1 & -> & E1 & E2); [rewrite (sa_items _ _ _ SA); apply Hi; left|]. cbn [mbind option_bind]. destruct (sa_free _ _ _ SA (put l1 s) s1 E2) as [Eg Eo].
  destruct (IH s1 R) as (s' & E & Hi' & E').
  - rewrite Eg, (sa_get _ _ _ SA). exact Hl1.
  - exact Hd.
  - intros b. rewrite E1, (sa_items _ _ _ SA), lookup_delete_is_Some, Hi, elem_of_cons. split; [intros [? [?|?]]; [congruence|assumption]|intros Hb; split; [intros ->; contradiction|now right]].
  - exists s'. split; [exact E|]. split; [exact Hi'|]. rewrite E', Eo. apply (sa_other _ _ _ SA).
Qed.

Lemma access_wait : skipAccess itemWaitTokenLists (fun l s => s <| itemWaitTokenLists := l |>) (fun s => (unSendList s, unackMap s, unrecvList s, redunList s)).
Proof. split; try reflexivity. unfold listsOf. intros s s' [= -> -> -> -> ->]. now split. Qed.
Lemma access_unrecv : skipAccess unrecvList (fun l s => s <| unrecvList := l |>) redunList.
Proof. split; try reflexivity. unfold listsOf. intros s s' [= _ _ -> -> _]. now split. Qed.
Lemma access_redun : skipAccess redunList (fun l s => s <| redunList := l |>) (fun _ => tt).
Proof. split; try reflexivity. unfold listsOf. intros s s' [= _ _ _ -> _]. now split. Qed.

(** Every item is freed, and none twice. *)
Lemma freeItems_ok (s : Pcb) g : Inv s g -> gc g = [] -> exists s', FillpPcbFreeSendItemArray s = Some s' /\ items s' = ∅.
Proof.
  intros V Ec. destruct (inv_nums s g V) as (Nu & Nr & Nw). pose proof (i_skips _ _ V) as K. pose proof (i_held _ _ V) as Hh. unfold places in Hh. rewrite Ec in Hh. cbn [app] in Hh.
  set (c := concat (unackMap s)) in *. assert (Hp : Permutation ((gu g ++ gr g ++ gw g ++ c) ++ unSendList s) (gw g ++ unSendList s ++ c ++ gu g ++ gr g)) by (rewrite <- !app_assoc; solve_Permutation).
  unfold FillpPcbFreeSendItemArray. rewrite Nw, Nat2Z.id. 
  destruct (freeSkip_ok _ _ _ access_wait (gw g) s (unSendList s ++ c ++ gu g ++ gr g) (k_w _ _ K)) as (s1 & -> & I1 & O1);
    [rewrite <- Hp; apply Hh|intros a; rewrite <- Hp; apply (h_dom _ _ _ _ _ Hh)|]. cbn [mbind option_bind]. injection O1 as U1 C1 R1 D1.
  pose proof (h_nodup _ _ _ _ _ Hh) as Hd. rewrite Hp in Hd. apply NoDup_app in Hd as (_ & _ & Hd).
  destruct (freeAll_ok (unSendList s) s1 (c ++ gu g ++ gr g) Hd I1) as (s2 & E2 & I2 & O2). rewrite U1, E2. cbn [mbind option_bind]. apply NoDup_app in Hd as (_ & _ & Hd).
  injection O2 as U2 C2 R2 D2 _. set (s2' := s2 <| unSendList := [] |>). destruct (freeAll_ok c s2' (gu g ++ gr g) Hd I2) as (s3 & E3 & I3 & O3).
  change (unackMap s2') with (unackMap s2). rewrite C2, C1. fold c. rewrite E3. cbn [mbind option_bind]. apply NoDup_app in Hd as (_ & _ & Hd). injection O3 as _ _ R3 D3 _.
  set (s3' := s3 <| unackMap := _ |>). change (unrecvList s3') with (unrecvList s3). rewrite R3. change (unrecvList s2') with (unrecvList s2). rewrite R2, R1, Nu, Nat2Z.id.
  assert (Hu : ilHolds (unrecvList s3') (gu g)) by (change (unrecvList s3') with (unrecvList s3); rewrite R3; change (unrecvList s2') with (unrecvList s2); rewrite R2, R1; apply K).
  destruct (freeSkip_ok _ _ _ access_unrecv (gu g) s3' (gr g) Hu Hd I3) as (s4 & -> & I4 & O4). cbn [mbind option_bind]. apply NoDup_app in Hd as (_ & _ & Hd).
  assert (Er : redunList s4 = redunList s) by (rewrite O4; change (redunList s3') with (redunList s3); rewrite D3; change (redunList s2') with (redunList s2); now rewrite D2, D1).
  rewrite <- (app_nil_r (gr g)) in Hd, I4. rewrite Er, Nr, Nat2Z.id.
  destruct (freeSkip_ok _ _ _ access_redun (gr g) s4 [] ltac:(rewrite Er; apply K) Hd I4) as (s5 & E5 & I5 & _). exists s5. split; [exact E5|].
  apply map_empty. intros a. destruct (items s5 !! a) as [x|] eqn:Ea; [|reflexivity]. exfalso. apply (not_elem_of_nil a), I5. eauto.
Qed.

End Kept.

End FillpKept.
