(* ===== verification/FillpSender.v ===== *)
(** * Runs of a sender

    The events of the sending side of a connection ([FillpSend]) in any order, and the property that
    makes it a reliable transport: what is submitted is kept until it is acknowledged.  The proofs
    are those of [FillpKept], step by step. *)

From S2P Require Import Prelude ErrorCode Bytes SkipList FillpItem FillpRecv FillpSend FillpKept.
From stdpp Require Import gmap list sorting.
#[local] Open Scope Z_scope.

Module FillpSender.
Import FillpItem FillpSend FillpKept.

(** The masks of the hash map select a list. *)
Lemma pktSeqMap_power mp : 0 < mp -> exists n, (n <= 9)%nat /\ pktSeqMapSize mp = 2 ^ Z.of_nat n.
Proof.
  intros Hmp. unfold pktSeqMapSize, FILLP_MAX_PKTSEQ_HASH_SIZE. destruct (Z.ltb_spec 512 mp) as [|Hle]; [now exists 9%nat|].
  set (f := fun z => if Z.land z (z - 1) =? 0 then z else doubled 10 1 z).
  assert (Hall : Forall (fun z => Exists (fun n => f (Z.of_nat z) = 2 ^ Z.of_nat n) (seq 0 10)) (seq 1 512)) by (apply (bool_decide_unpack _); vm_compute; reflexivity).
  rewrite Forall_forall in Hall. specialize (Hall (Z.to_nat mp)). rewrite Z2Nat.id in Hall by lia. destruct (proj1 (Exists_exists _ _) (Hall ltac:(apply elem_of_seq; lia))) as (n & Hn & E).
  exists n. split; [apply elem_of_seq in Hn; lia|exact E].
Qed.

(** Submission of items, with the result of the wait for the lock; the timers; received packets; the
    turn of the connection when items wait for tokens; the end of the limit. *)
Inductive Event :=
  | EvSubmit (env : Env) (sem : bool) (l : list (nat * FillpPcbItem))
  | EvTimer (env : Env)
  | EvPack (env : Env) (pack : Pack)
  | EvNack (env : Env) (nack : Nack)
  | EvWaiting (env : Env)
  | EvClear (env : Env)
  | EvToken (env : Env).

(** The items an event adds. *)
Definition submitted (ev : Event) : nat := match ev with EvSubmit _ true l => length l | _ => 0%nat end.

Section Runs.

Context {L : Type} `{ItemListLaws nat id L} (cfg : Config) (stream : list FillpPcbItem) (base : Z) (M : nat -> Prop).
#[local] Abbreviation pos := (FillpItem.pos stream base).
#[local] Abbreviation Pcb := (FillpSendPcb (L := L)).

Definition exec (ev : Event) (s : Pcb) : option Pcb :=
  match ev with
  | EvSubmit env sem l => FillpPcbSend cfg env sem l s
  | EvTimer env => FillpSendTimerCb cfg env s
  | EvPack env pack => FillpPackInput cfg env pack s
  | EvNack env nack => FillpNackInput cfg env nack s
  | EvWaiting env => '(_, s) ← waitTurn env s; Some s
  | EvClear env => SpungeClearItemWaitTokenList env s
  | EvToken env => Some (s <| stb := SpungeTokenTimerCb env (stb s) |>)
  end.

Fixpoint execs (evs : list Event) (s : Pcb) : option Pcb :=
  match evs with [] => Some s | ev :: evs => s ← exec ev s; execs evs s end.

(** [m] items are submitted.  The application submits the items of its stream in their order, in
    buffers of the pool that are not in use, as long as the numbers in use are less than a quarter
    of the range apart; the same holds for the packet numbers when packets are sent.  Numbers in
    packets have 32 bits. *)
Definition legal (m : nat) (s : Pcb) (ev : Event) : Prop :=
  match ev with
  | EvSubmit _ sem l => sem = true ->
      Forall2 sameData (take (length l) (drop m stream)) (map snd l) /\ NoDup (map fst l) /\ Forall (fun a => M a /\ items s !! a = None) (map fst l) /\
      space (newBytes l) s /\ room (length l) s
  | EvTimer _ => sendTimer s = true /\ room 0 s
  | EvPack _ pack => in_u32 (pSeqNum pack)
  | EvNack _ nack => in_u32 (nSeqNum nack)
  | EvWaiting _ => room 0 s
  | EvClear _ | EvToken _ => True
  end.

(** A connection before the first event. *)
Record started (s : Pcb) : Prop := {
  st_init : exists l num cache bucket, s = newPcb cfg l (u32 base) (u32 num) cache bucket /\ ilHolds l [] /\ forall a, M a -> ilMemory l a;
  st_pool : 0 < mpSendSize cfg
}.

Inductive reachable : nat -> Pcb -> Prop :=
  | reach_start s : started s -> reachable 0 s
  | reach_step m s ev s' : reachable m s -> legal m s ev -> exec ev s = Some s' -> reachable (m + submitted ev) s'.

Hypothesis stream_ok : numbered stream base.
#[local] Abbreviation Rest := (FillpKept.Rest stream base M).

Lemma sender_started s : started s -> exists g, Rest s g /\ gm g = 0%nat /\ gk g = 0%nat /\ gA g = base.
Proof.
  intros [(l & num & cache & bucket & -> & Hl & Hmem) Hmp]. exists (mkGhost 0 0 (fun _ => 0%nat) (fun _ => 0) num num base base [] [] [] []). split; [|now repeat split].
  split; [|split; [reflexivity|left; now repeat split]].
  assert (Hrep : forall n j (l : list nat), replicate n [] !! j = Some l -> l = []) by (intros n j l0 Hj; now apply lookup_replicate in Hj as [-> _]).
  assert (Hcat : forall n, concat (replicate n ([] : list nat)) = []) by (induction n; [reflexivity|assumption]).
  split; cbn.
  - split; unfold FillpItem.pos, WINDOW; cbn; rewrite ?Z.add_0_r; reflexivity || lia.
  - unfold places. cbn. rewrite Hcat. cbn. split; cbn; try (now constructor); try (intros a Ha; now apply not_elem_of_nil in Ha); try (intros; lia); try discriminate.
    intros a. rewrite lookup_empty. split; [intros [? ?]; discriminate|intros Ha; now apply not_elem_of_nil in Ha].
  - split; cbn; try assumption; try (now constructor). intros a Ha. now repeat split; apply Hmem.
  - destruct (pktSeqMap_power (mpSendSize cfg) Hmp) as (n & _ & Hn). assert (Hp : 0 < 2 ^ Z.of_nat n) by (apply Z.pow_pos_nonneg; lia). rewrite <- Hn in Hp.
    split; cbn; rewrite ?Hcat, ?length_replicate; try reflexivity; try lia.
    + intros j l0 Hj. apply Hrep in Hj as ->. constructor.
    + intros j l0 a Hj Ha. apply Hrep in Hj as ->. now apply not_elem_of_nil in Ha.
    + intros j l0 Hj. apply Hrep in Hj as ->. constructor.
    + intros j l0 a Hj Ha. apply Hrep in Hj as ->. now apply not_elem_of_nil in Ha.
    + intros a x Ha. now apply not_elem_of_nil in Ha.
    + intros a Ha. now apply not_elem_of_nil in Ha.
  - constructor.
Qed.

(** The number that a received packet acknowledges. *)
Definition ackOf (ev : Event) : option Z := match ev with EvPack _ pack => Some (pSeqNum pack) | EvNack _ nack => Some (nSeqNum nack) | _ => None end.

Lemma sender_event_ok m s ev g : Rest s g -> gm g = m -> legal m s ev -> exists s' g', exec ev s = Some s' /\ Rest s' g' /\ gm g' = (m + submitted ev)%nat /\ (gk g <= gk g')%nat /\
  (gA g' = gA g \/ exists n, ackOf ev = Some n /\ gA g' = fullNum stream base g n).
Proof.
  intros R Em Hl. assert (Hsend : forall (o : option Pcb), (exists s' g', o = Some s' /\ Rest s' g' /\ onward g g') ->
    exists s' g', o = Some s' /\ Rest s' g' /\ gm g' = (m + 0)%nat /\ (gk g <= gk g')%nat /\ (gA g' = gA g \/ exists n, ackOf ev = Some n /\ gA g' = fullNum stream base g n)).
  { intros o (s' & g' & E & R' & (O1 & _ & O3 & O4)). exists s', g'. split; [exact E|]. split; [exact R'|]. split; [lia|]. split; [lia|now left]. }
  assert (Hroom : room 0 s -> exists T, FillpKept.Inv stream base M s (g <| gT := T |>) /\ gc (g <| gT := T |>) = [] /\ budget s (g <| gT := T |>) 0).
  { intros Hr. destruct R as (V & Ec & _). destruct (room_ok stream base M s g 0 V Hr) as (T & V' & B). exists T. now split. }
  destruct ev as [env sem l|env|env pack|env nack|env|env|env]; cbn [exec legal submitted ackOf] in *.
  - destruct sem; [|apply Hsend; exists s, g; split; [reflexivity|]; split; [exact R|apply onward_refl]]. destruct (Hl eq_refl) as (H1 & H2 & H3 & H4 & H5). rewrite Forall_forall in H3.
    destruct (pcbSend_ok cfg stream base M stream_ok env l s g R H2) as (s' & g' & E & R' & G1 & G2 & G3); [| |exact H4|exact H5|].
    + intros a x Ha. apply H3. apply list_elem_of_fmap. now exists (a, x).
    + intros i a x Hi. assert (Hx : map snd l !! i = Some x) by (rewrite list_lookup_fmap, Hi; reflexivity). destruct (Forall2_lookup_r _ _ _ _ _ H1 Hx) as (y & Hy & Hs). exists y. split; [|exact Hs].
      rewrite lookup_take_lt in Hy by (now apply lookup_lt_Some in Hi). now rewrite lookup_drop, <- Em in Hy.
    + exists s', g'. split; [exact E|]. split; [exact R'|]. split; [lia|]. split; [exact G3|now left].
  - apply Hsend. destruct Hl as [_ Hr]. destruct (Hroom Hr) as (T & V & Ec & B). destruct (timerCb_ok cfg stream base M stream_ok env s _ V Ec B) as (s' & g' & E & R' & O). now exists s', g'.
  - destruct (packInput_ok cfg stream base M stream_ok env pack s g R Hl) as (s' & g' & E & R' & (A1 & A2 & _ & A4)). exists s', g'. split; [exact E|]. split; [exact R'|].
    split; [lia|]. split; [lia|]. destruct A4 as [->|[-> _]]; [now left|right]. eauto.
  - destruct (nackInput_ok cfg stream base M stream_ok env nack s g R Hl) as (s' & g' & E & R' & (A1 & A2 & _ & A4)). exists s', g'. split; [exact E|]. split; [exact R'|].
    split; [lia|]. split; [lia|]. destruct A4 as [->|[-> _]]; [now left|right]. eauto.
  - apply Hsend. destruct (Hroom Hl) as (T & V & Ec & B). destruct (waitTurn_ok stream base M stream_ok env s (g <| gT := T |>)) as (b & s' & g' & -> & R' & O); [split; [exact V|split; [exact Ec|apply R]]|exact B|].
    exists s', g'. now split.
  - apply Hsend. destruct (clear_ok stream base M stream_ok env s g R) as (s' & g' & E & R' & O). now exists s', g'.
  - apply Hsend. eexists _, g. split; [reflexivity|]. split; [now apply (rest_core stream base M s)|apply onward_refl].
Qed.

Lemma sender_rest m s : reachable m s -> exists g, Rest s g /\ gm g = m.
Proof.
  induction 1 as [s S|m s ev s' _ (g & R & Em) Hl E]; [destruct (sender_started s S) as (g & R & Em & _); eauto|].
  destruct (sender_event_ok m s ev g R Em Hl) as (s1 & g' & E1 & R' & Em' & _). rewrite E in E1. injection E1 as <-. eauto.
Qed.

(** Item [i] of the stream is held; it has its number when it is one of the first [k]. *)
Definition held (s : Pcb) (k i : nat) : Prop := exists a x y, items s !! a = Some x /\ stream !! i = Some y /\ sameData y (pkt x) /\
  if (i <? k)%nat then seqNum (pkt x) = u32 (pos (S i)) /\ a ∉ unSendList s else a ∈ unSendList s.

Lemma rest_held s g i : Rest s g -> (i < gm g)%nat -> gA g < pos (S i) -> held s (gk g) i.
Proof.
  intros ([Hn Hh _ _ _] & _) Hi HA. assert (Hget : forall a, a ∈ places s g ++ unSendList s -> gidx g a = i -> exists x y, items s !! a = Some x /\ stream !! i = Some y /\ sameData y (pkt x)).
  { intros a Ha Eg. apply (h_dom _ _ _ _ _ _ _ _ Hh) in Ha as [x Hx]. destruct (h_data _ _ _ _ _ _ _ _ Hh a x Hx) as (y & Hy & Hs). rewrite Eg in Hy. eauto. }
  pose proof (h_nodup _ _ _ _ _ _ _ _ Hh) as Hd. apply NoDup_app in Hd as (_ & Hd & _). destruct (Nat.ltb_spec i (gk g)) as [Hlt|Hge].
  - destruct (h_kept _ _ _ _ _ _ _ _ Hh i Hlt HA) as (a & Ha & Eg). destruct (Hget a) as (x & y & Hx & Hy & Hs); [apply elem_of_app; now left|exact Eg|].
    exists a, x, y. split; [exact Hx|]. split; [exact Hy|]. split; [exact Hs|]. apply Nat.ltb_lt in Hlt as ->. split; [|now apply Hd].
    rewrite <- Eg. exact (h_seq _ _ _ _ _ _ _ _ Hh a x Hx Ha).
  - assert (Hin : i ∈ map (gidx g) (unSendList s)) by (rewrite (h_unsent _ _ _ _ _ _ _ _ Hh); apply elem_of_seq; lia). apply list_elem_of_fmap in Hin as (a & Eg & Ha).
    destruct (Hget a) as (x & y & Hx & Hy & Hs); [apply elem_of_app; now right|now symmetry|]. exists a, x, y. split; [exact Hx|]. split; [exact Hy|]. split; [exact Hs|].
    apply Nat.ltb_ge in Hge as ->. exact Ha.
Qed.

(** C3: No data is lost.  After any sequence of submissions, timer events, acknowledgements, reports
    of missing packets and failures of the network to take a packet, every submitted item whose last
    number [A] does not cover, where [A] is the highest number acknowledged, is in the sender's hands
    with its data: with its number when it is one of the [k] items that have one, waiting for it
    otherwise.  Every item of the pool that is in use is in exactly one of the sender's lists.  When
    there is something to send, the send timer is set.  The next event is handled without an access
    to an item that was freed, and so is the end of the connection, which frees every item once. *)
Theorem unacked_items_kept m s : reachable m s -> exists k A u r w,
  (k <= m <= length stream)%nat /\ sSeqNum s = u32 (pos k) /\ maxAckNumFromReceiver s = u32 A /\ pos k - WINDOW < A <= pos k /\
  ilHolds (unrecvList s) u /\ ilHolds (redunList s) r /\ ilHolds (itemWaitTokenLists s) w /\
  (forall i, (i < m)%nat -> A < pos (S i) -> held s k i) /\
  NoDup (u ++ r ++ w ++ concat (unackMap s) ++ unSendList s) /\ (forall a, is_Some (items s !! a) <-> a ∈ u ++ r ++ w ++ concat (unackMap s) ++ unSendList s) /\
  (u ++ r ++ unSendList s = [] \/ sendTimer s = true) /\
  (forall ev, legal m s ev -> exists s', exec ev s = Some s' /\ reachable (m + submitted ev) s') /\
  exists s', FillpPcbFreeSendItemArray s = Some s' /\ items s' = ∅.
Proof.
  intros Hr. destruct (sender_rest m s Hr) as (g & R & Em). pose proof R as (V & Ec & Hy). pose proof (i_nums _ _ _ _ _ V) as Hn. pose proof (i_held _ _ _ _ _ V) as Hh.
  pose proof (i_skips _ _ _ _ _ V) as Hk. exists (gk g), (gA g), (gu g), (gr g), (gw g). split; [rewrite <- Em; apply Hn|]. split; [apply Hn|]. split; [apply Hn|].
  split.
  { pose proof (n_order _ _ _ _ Hn). pose proof (n_win _ _ _ _ Hn). pose proof (n_k _ _ _ _ Hn).
    pose proof (pos_le stream base (stream_sizes stream base stream_ok) (gk g) (gm g) ltac:(lia)). lia. }
  do 3 (split; [apply Hk|]). split; [intros i Hi HA; apply (rest_held s g i R); [lia|exact HA]|].
  unfold places in Hh. rewrite Ec in Hh. cbn [app] in Hh. split; [pose proof (h_nodup _ _ _ _ _ _ _ _ Hh) as Hd; now rewrite <- !app_assoc in Hd|].
  split; [intros a; rewrite (h_dom _ _ _ _ _ _ _ _ Hh a), <- !app_assoc; reflexivity|].
  split; [destruct Hy as [(-> & -> & ->)|Ht]; [now left|now right]|]. split.
  - intros ev Hl. destruct (sender_event_ok m s ev g R Em Hl) as (s' & _ & E & _). exists s'. split; [exact E|]. now apply (reach_step m s).
  - now apply (freeItems_ok stream base M stream_ok s g).
Qed.

(** ** Sequences of events *)

Fixpoint legalRun (evs : list Event) (m : nat) (s : Pcb) : Prop :=
  match evs with [] => True | ev :: evs => legal m s ev /\ match exec ev s with Some s' => legalRun evs (m + submitted ev) s' | None => True end end.

Definition allSubmitted (evs : list Event) : nat := sum_list_with submitted evs.

Lemma sender_run evs : forall m s s', reachable m s -> legalRun evs m s -> execs evs s = Some s' -> reachable (m + allSubmitted evs) s'.
Proof.
  induction evs as [|ev evs IH]; intros m s s' Hr Hl E; cbn [execs legalRun allSubmitted sum_list_with] in *; [injection E as <-; now rewrite Nat.add_0_r|]. destruct Hl as [Hl Hls].
  destruct (exec ev s) as [s1|] eqn:E1; [|discriminate]. rewrite Nat.add_assoc. apply (IH (m + submitted ev)%nat s1 s'); [now apply (reach_step m s ev)|exact Hls|exact E].
Qed.

Section Decide.
Context `{forall a, Decision (M a)}.

#[export] Instance room_dec n s : Decision (room (L := L) n s).
Proof. unfold room. apply _. Defined.
#[export] Instance space_dec n s : Decision (space (L := L) n s).
Proof. unfold space. apply _. Defined.
#[export] Instance legal_dec m s ev : Decision (legal m s ev).
Proof. destruct ev; cbn [legal]; unfold in_u32; apply _. Defined.
#[export] Instance legalRun_dec evs : forall m s, Decision (legalRun evs m s).
Proof. induction evs as [|ev evs IH]; intros m s; cbn; [apply _|]. apply and_dec; [apply _|]. destruct (exec ev s); [apply IH|apply _]. Defined.
End Decide.

End Runs.

(** ** A run *)

Module SendDemo.

Definition list_ := SkipList.Store (I := nat).
Definition pool : list nat := [1; 2; 3]%nat.
Definition M (a : nat) : Prop := a ∈ pool.
Definition base : Z := FillpRecv.RecvDemo.base.
Definition stream : list FillpPcbItem := FillpRecv.RecvDemo.stream.
Definition cfg : Config := mkConfig 100 64 true 2.

(** Before it is numbered, an item has no number. *)
Definition fresh (x : FillpPcbItem) : FillpPcbItem := x <| seqNum := 0 |>.
Definition item0 : FillpPcbItem := fresh FillpRecv.RecvDemo.item0.
Definition item1 : FillpPcbItem := fresh FillpRecv.RecvDemo.item1.
Definition item2 : FillpPcbItem := fresh FillpRecv.RecvDemo.item2.

(** The network takes packets, or not. *)
Definition env (now : Z) (up : bool) : Env := mkEnv now (fun _ => now) (fun _ => if up then 1 else 0) [] 0 8 1 10 0 1 3 5 0 true.

Definition blank : SkipList.SkipListNode (I := nat) := SkipList.mkNode None SkipList.noNodes SkipList.noNodes 0.
Definition memory : list_ := SkipList.mkStore (list_to_map (map (fun a => (a, blank)) pool)) (SkipList.mkList None None [] [] 0 0 [] 0).
Definition empty : list_ := snd (SkipList.SkiplistInit FillpRecv.RecvDemo.bits memory).
Definition bucket : SpungeTokenBucke := mkStb 0 0 0 64 0 SPUNGE_TOKEN_TIMER_MAX_INTERVAL_RATE_ZERO false.
Definition init : FillpSendPcb (L := list_) := newPcb cfg empty (u32 base) (u32 0) 1000 bucket.

(** Two items are sent; the first one is acknowledged and the second one reported as lost; it is sent
    again while the network is down, then while it is up; the buffer of the first item is used again. *)
Definition evs : list Event :=
  [EvSubmit (env 1000 true) true [(1%nat, item0); (2%nat, item1)]; EvPack (env 1400 true) (mkPack 0 4294967293 2 0 2); EvTimer (env 1500 false); EvTimer (env 1600 true);
   EvSubmit (env 1700 true) true [(1%nat, item2)]].

Lemma send_memory_node a n : SkipList.nodes memory !! a = Some n -> n = blank.
Proof. intros Ha. apply elem_of_list_to_map_2 in Ha. apply list_elem_of_fmap in Ha as (b & E & _). now injection E as -> ->. Qed.

Lemma send_started : started cfg base M init.
Proof.
  split; [|reflexivity]. exists empty, 0, 1000, bucket. split; [reflexivity|]. split; [apply SkipList.init_den; [reflexivity|]; intros a n ->%send_memory_node; now split|].
  intros a Ha. unfold M, pool in Ha. rewrite !elem_of_cons in Ha. destruct Ha as [-> |[-> |[-> |Ha]]]; [vm_compute; eexists; reflexivity..|now apply not_elem_of_nil in Ha].
Qed.

Lemma send_stream_ok : numbered stream base.
Proof. intros i x E. destruct (FillpRecv.RecvDemo.stream_ok true i x E) as (Hs & _ & Hq). now split. Qed.

End SendDemo.

Lemma unacked_items_kept_witness : exists s k A, execs SendDemo.cfg SendDemo.evs SendDemo.init = Some s /\
  sSeqNum s = u32 (pos SendDemo.stream SendDemo.base k) /\ maxAckNumFromReceiver s = u32 A /\
  (forall i, (i < 3)%nat -> A < pos SendDemo.stream SendDemo.base (S i) -> held SendDemo.stream SendDemo.base s k i) /\
  exists s', FillpPcbFreeSendItemArray s = Some s' /\ items s' = ∅.
Proof.
  destruct (execs SendDemo.cfg SendDemo.evs SendDemo.init) as [s|] eqn:E; [|vm_compute in E; discriminate].
  destruct (unacked_items_kept SendDemo.cfg SendDemo.stream SendDemo.base SendDemo.M SendDemo.send_stream_ok 3 s) as (k & A & u & r & w & _ & E1 & E2 & _ & _ & _ & _ & Hk & _ & _ & _ & _ & Hf).
  - apply (sender_run SendDemo.cfg SendDemo.stream SendDemo.base SendDemo.M SendDemo.evs 0 SendDemo.init s); [apply reach_start, SendDemo.send_started| |exact E].
    apply (bool_decide_unpack _). vm_compute. reflexivity.
  - exists s, k, A. split; [reflexivity|]. split; [exact E1|]. split; [exact E2|]. split; [exact Hk|exact Hf].
Defined.

(** ** Behaviour outside of the theorems *)

(** A report of missing packets compares the number of an item with the acknowledged number without
    regard for the end of the range: when the numbers pass it, the packet that is missing stays where
    it is, although the same report with smaller numbers moves it to the items to send. *)
Lemma nack_ignored_at_wrap :
  let sent start := execs SendDemo.cfg [EvSubmit (SendDemo.env 1000 true) true [(1%nat, SendDemo.item0); (2%nat, SendDemo.item1)]]
                      (newPcb SendDemo.cfg SendDemo.empty (u32 start) 0 1000 SendDemo.bucket) in
  let reported start := s ← sent start; s ← FillpNackInput SendDemo.cfg (SendDemo.env 1100 true) (mkNack (u32 (start + 3)) 1 3) s;
                        Some (ilItems (unrecvList s), concat (unackMap s)) in
  reported 100 = Some ([2%nat], [1%nat]) /\ reported SendDemo.base = Some ([], [2%nat; 1%nat]).
Proof. split; vm_compute; reflexivity. Qed.

(** The interval of a low rate is the value that stands for no limit: the callback does not set the
    token timer again. *)
Lemma low_rate_stops_tokens env b : rate b <> limitRate env -> 0 < limitRate env -> 1001 * limitRate env <= maxPktSize b * FILLP_FC_IN_KBPS < 4294967296 ->
  tokenTimer (SpungeTokenTimerCb env b) = tokenTimer b /\ rate (SpungeTokenTimerCb env b) = limitRate env.
Proof.
  intros Hr H0 Hi. assert (Hq : 1001 <= maxPktSize b * FILLP_FC_IN_KBPS / limitRate env < 4294967296).
  { split; [apply Z.div_le_lower_bound; lia|]. apply Z.div_lt_upper_bound; nia. }
  unfold SpungeTokenTimerCb. rewrite (proj2 (Z.eqb_neq _ _) Hr). cbn -[Z.mul Z.div u32 u64 Z.ltb Z.eqb Z.shiftr Z.sub Z.add].
  rewrite (proj2 (Z.eqb_neq (limitRate env) 0)) by lia. cbn -[Z.mul Z.div u32 u64 Z.ltb Z.eqb Z.shiftr Z.sub Z.add]. rewrite (u32_small (_ / _)) by (unfold in_u32; lia).
  rewrite (proj2 (Z.ltb_lt SPUNGE_TOKEN_TIMER_MAX_INTERVAL (_ / _))) by (unfold SPUNGE_TOKEN_TIMER_MAX_INTERVAL; lia).
  match goal with |- context [if ?c || ?d then _ else _] => destruct (c || d) end; now split.
Qed.

End FillpSender.
