(* ===== verification/FillpLink.v ===== *)
(** * The fillp transport end to end

    A sender ([FillpSender]), a receiver ([FillpRecv]) and a network between them that may lose,
    repeat and reorder packets in both directions.  The sender is proved against its own invariant,
    the receiver against that part of the stream that has numbers; what joins them is that the number
    the sender takes as acknowledged is never beyond what the application of the receiver has got. *)

From S2P Require Import Prelude ErrorCode Bytes SkipList FillpItem FillpRecv FillpSend FillpKept FillpSender.
From stdpp Require Import gmap list sorting.
#[local] Open Scope Z_scope.

Module FillpLink.
Import FillpItem.

(** Events of the two sides by themselves; packet [p], which is item [i] sent at [now] as packet
    [num + 1], arrives; an acknowledgement or a report of missing packets arrives, with the fields
    that the receiver's model leaves out. *)
Inductive Event :=
  | LSender (ev : FillpSender.Event)
  | LReceiver (ev : FillpRecv.Event)
  | LData (p : list byte) (i : nat) (now num : Z) (alloc : option nat) (more : Z) (alloc' : option nat) (ans : FillpRecv.Answers)
  | LPack (env : FillpSend.Env) (flag rate : Z) (q : FillpRecv.FillpPktPack)
  | LNack (env : FillpSend.Env) (q : FillpRecv.FillpPktNack).

(** The packet as the sender reads it. *)
Definition packOf (flag rate : Z) (q : FillpRecv.FillpPktPack) : FillpSend.Pack :=
  FillpSend.mkPack flag (FillpRecv.packSeqNum q) (FillpRecv.packPktNum q) rate (FillpRecv.lostSeq q).
Definition nackOf (q : FillpRecv.FillpPktNack) : FillpSend.Nack :=
  FillpSend.mkNack (FillpRecv.nackSeqNum q) (FillpRecv.nackPktNum q) (FillpRecv.lastPktNum q).

Section Link.

Context {LS LR : Type} `{ItemListLaws nat id LS} `{ItemListLaws FillpPcbItem skipListNode LR}.
Context (scfg : FillpSend.Config) (rcfg : FillpRecv.Config) (stream : list FillpPcbItem) (base W : Z) (MS MR : nat -> Prop).
#[local] Abbreviation pos := (FillpItem.pos stream base).

(** [count]: the items that were submitted. *)
Record World := mkWorld {
  count : nat;
  sender : FillpSend.FillpSendPcb (L := LS);
  receiver : FillpRecv.FillpRecvPcb (L := LR)
}.

(** The items that have numbers. *)
Definition withNumber (w : World) : nat := count w - length (FillpSend.unSendList (sender w)).

Definition packetOf (i : nat) (now num : Z) : option (list byte) := x ← stream !! i; '(_, _, p) ← FillpBuildDataPkt now num x; Some p.

Definition exec (ev : Event) (w : World) : option World :=
  match ev with
  | LSender e => s ← FillpSender.exec scfg e (sender w); Some (mkWorld (count w + FillpSender.submitted e) s (receiver w))
  | LReceiver e => r ← FillpRecv.exec rcfg stream e (receiver w); Some (mkWorld (count w) (sender w) r)
  | LData p _ _ _ alloc more alloc' ans => r ← FillpRecv.FillpDoInput rcfg ans alloc more alloc' p (receiver w); Some (mkWorld (count w) (sender w) r)
  | LPack env flag rate q => s ← FillpSend.FillpPackInput scfg env (packOf flag rate q) (sender w); Some (mkWorld (count w) s (receiver w))
  | LNack env q => s ← FillpSend.FillpNackInput scfg env (nackOf q) (sender w); Some (mkWorld (count w) s (receiver w))
  end.

Fixpoint execs (evs : list Event) (w : World) : option World :=
  match evs with [] => Some w | ev :: evs => w ← exec ev w; execs evs w end.

(** A number that arrives is one that the receiver has reached, and not older than the range. *)
Definition recent (w : World) (n : Z) : Prop :=
  Exists (fun j => n = u32 (pos j) /\ pos (withNumber w) - pos j < 4294967296) (seq 0 (S (length (FillpRecv.recvBox (receiver w))))).

(** Packets that arrive were sent; apart from that, as the two sides ask. *)
Definition legal (w : World) (ev : Event) : Prop :=
  match ev with
  | LSender e => match e with FillpSender.EvPack _ _ | FillpSender.EvNack _ _ => False | _ => FillpSender.legal stream MS (count w) (sender w) e end
  | LReceiver e => match e with FillpRecv.EvData _ _ _ _ _ _ _ => False | _ => FillpRecv.legal stream base MR (receiver w) e end
  | LData p i now num alloc more alloc' ans =>
      p ∈ FillpSend.wire (sender w) /\ packetOf i now num = Some p /\ (i < withNumber w)%nat /\
      FillpRecv.legal stream base MR (receiver w) (FillpRecv.EvData i now num alloc more alloc' ans)
  | LPack _ _ _ q => (q ∈ FillpRecv.packs (receiver w)) /\ recent w (FillpRecv.packSeqNum q)
  | LNack _ q => (q ∈ FillpRecv.nacks (receiver w)) /\ recent w (FillpRecv.nackSeqNum q)
  end.

Definition started (w : World) : Prop := count w = 0%nat /\ FillpSender.started scfg base MS (sender w) /\ FillpRecv.started base W MR (receiver w).

Inductive reachable : World -> Prop :=
  | reach_start w : started w -> reachable w
  | reach_step w ev w' : reachable w -> legal w ev -> exec ev w = Some w' -> reachable w'.

Hypothesis stream_ok : FillpRecv.streamOk rcfg stream base.
Hypothesis window_ok : 0 < W < 1073741824.

Lemma stream_numbered : FillpKept.numbered stream base.
Proof. intros i x E. destruct (stream_ok i x E) as (Hs & _ & Hq). now split. Qed.

(** ** The receiver and a part of the stream *)

Lemma pos_part n k : (k <= n)%nat -> FillpItem.pos (take n stream) base k = pos k.
Proof. intros Hk. unfold FillpItem.pos. now rewrite take_take, Nat.min_l. Qed.

Lemma part_ok n : FillpRecv.streamOk rcfg (take n stream) base.
Proof.
  intros i x E. apply lookup_take_Some in E as [E Hi]. destruct (stream_ok i x E) as (H1' & H2' & H3'). split; [exact H1'|]. split; [exact H2'|]. now rewrite pos_part.
Qed.

#[local] Abbreviation RRest n := (FillpRecv.Rest rcfg (take n stream) base W MR).

Lemma copy_more n n' i y : (n <= n')%nat -> FillpRecv.copy (take n stream) i y -> FillpRecv.copy (take n' stream) i y.
Proof. intros Hn (x & E & Hc). apply lookup_take_Some in E as [E Hi]. exists x. split; [|exact Hc]. rewrite lookup_take_lt by lia. exact E. Qed.

(** More of the stream has numbers. *)
Lemma rest_more n n' r k il ib : (n <= n' <= length stream)%nat -> RRest n r k il ib -> RRest n' r k il ib.
Proof.
  intros Hn (Hk & Hc & rl & bl & V). split; [exact Hk|]. split; [exact Hc|]. exists rl, bl.
  pose proof (FillpRecv.copies_index rcfg _ base (part_ok n) _ _ (FillpRecv.v_il _ _ _ _ _ _ _ _ _ _ _ V)) as Hil.
  pose proof (FillpRecv.copies_index rcfg _ base (part_ok n) _ _ (FillpRecv.v_ib _ _ _ _ _ _ _ _ _ _ _ V)) as Hib. rewrite length_take, Nat.min_l in Hil, Hib by lia.
  destruct V as [V1 V2 V3 V4 V5 V6 V7 V8 V9 V10 V11 V12 V13 V14 V15 [V16 V17]]. rewrite length_take, Nat.min_l in V3 by lia.
  assert (Hpos : forall j, (j <= n)%nat -> FillpItem.pos (take n' stream) base j = FillpItem.pos (take n stream) base j) by (intros j Hj; rewrite !pos_part by lia; reflexivity).
  assert (Hcopy : forall a b, Forall2 (FillpRecv.copy (take n stream)) a b -> Forall2 (FillpRecv.copy (take n' stream)) a b) by (intros a b Hab; eapply Forall2_impl; [exact Hab|]; intros i y; apply copy_more; lia).
  assert (Hack : forall q, FillpRecv.acked (take n stream) base k q -> FillpRecv.acked (take n' stream) base k q).
  { intros q (j & Hj & ->). exists j. split; [exact Hj|]. rewrite Hpos by lia. reflexivity. }
  split; try assumption; rewrite ?Hpos by lia; auto.
  - rewrite length_take. lia.
  - rewrite take_take, Nat.min_l in * by lia. exact V4.
  - rewrite Forall_forall in *. intros j Hj. rewrite Hpos by (specialize (Hil j Hj); lia). now apply V11.
  - rewrite Forall_forall in *. intros j Hj. rewrite Hpos by (specialize (Hib j Hj); lia). now apply V12.
  - split; eapply Forall_impl; eauto.
Qed.

Lemma rest_count n r k il ib : RRest n r k il ib -> length (FillpRecv.recvBox r) = k /\ (k <= n)%nat /\ map payload (FillpRecv.recvBox r) = map payload (take k stream).
Proof.
  intros (_ & _ & rl & bl & V). split; [exact (FillpRecv.delivered_count _ _ _ _ _ _ _ _ _ _ _ V)|]. pose proof (FillpRecv.v_len _ _ _ _ _ _ _ _ _ _ _ V) as Hl.
  rewrite length_take in Hl. split; [lia|]. pose proof (FillpRecv.copies_payload _ _ (FillpRecv.v_done _ _ _ _ _ _ _ _ _ _ _ V)) as E. rewrite take_take, Nat.min_l in E by lia. exact E.
Qed.

(** ** The two sides *)

Definition Joint (w : World) (g : FillpKept.Ghost) (k : nat) : Prop :=
  FillpKept.Rest stream base MS (sender w) g /\ FillpKept.gm g = count w /\ (exists il ib, RRest (FillpKept.gk g) (receiver w) k il ib) /\ FillpKept.gA g <= pos k.

Lemma joint_number w g k : Joint w g k -> withNumber w = FillpKept.gk g /\ (FillpKept.gk g <= length stream)%nat.
Proof.
  intros ((V & _) & Em & _). pose proof (FillpKept.n_k _ _ _ _ (FillpKept.i_nums _ _ _ _ _ V)) as Hk. split; [|lia].
  pose proof (f_equal length (FillpKept.h_unsent _ _ _ _ _ _ _ _ (FillpKept.i_held _ _ _ _ _ V))) as Hl. rewrite length_fmap, length_seq in Hl. unfold withNumber. lia.
Qed.

Lemma recv_step w g k ev : Joint w g k -> (match ev with FillpRecv.EvData i _ _ _ _ _ _ => (i < FillpKept.gk g)%nat | _ => True end) -> FillpRecv.legal stream base MR (receiver w) ev ->
  exists r k', FillpRecv.exec rcfg stream ev (receiver w) = Some r /\ Joint (mkWorld (count w) (sender w) r) g k'.
Proof.
  intros J Hi Hl. pose proof (joint_number w g k J) as [_ Hg]. destruct J as (R & Em & (il & ib & RR) & HA). destruct (rest_count _ _ _ _ _ RR) as (Ek & Hk & _).
  assert (Hl' : FillpRecv.legal (take (FillpKept.gk g) stream) base MR (receiver w) ev).
  { destruct ev as [i now num alloc more alloc' ans|ans|ans|]; cbn in *; try exact Hl. destruct Hl as (_ & L2 & L3 & L4 & L5).
    rewrite !pos_part by lia. rewrite length_take, lookup_take_lt by exact Hi. split; [lia|]. now repeat split. }
  destruct (FillpRecv.network_event_ok rcfg _ base W MR (part_ok _) window_ok (receiver w) k il ib ev RR Hl') as (r & k' & il' & ib' & E & RR' & _ & Hkk & _).
  exists r, k'. split.
  - destruct ev as [i now num alloc more alloc' ans|ans|ans|]; cbn in *; try exact E. now rewrite lookup_take_lt in E by exact Hi.
  - split; [exact R|]. split; [exact Em|]. split; [eauto|]. destruct (rest_count _ _ _ _ _ RR') as (_ & Hk' & _).
    pose proof (pos_le stream base (FillpRecv.stream_sized rcfg stream base stream_ok) k k' ltac:(lia)). cbn. lia.
Qed.

(** A recent number stands for a number that the receiver has reached. *)
Lemma recent_ok w g k n : Joint w g k -> recent w n -> in_u32 n /\ FillpKept.fullNum stream base g n <= pos k.
Proof.
  intros J Hr. pose proof (joint_number w g k J) as [Ew Hg]. destruct J as (_ & _ & (il & ib & RR) & _). destruct (rest_count _ _ _ _ _ RR) as (Ek & Hk & _).
  unfold recent in Hr. apply Exists_exists in Hr as (j & Hj & -> & Hold). apply elem_of_seq in Hj. rewrite Ew in Hold. rewrite Ek in Hj. split; [apply Z.mod_pos_bound; lia|].
  pose proof (FillpRecv.stream_sized rcfg stream base stream_ok) as Hs. pose proof (pos_le stream base Hs j k ltac:(lia)) as H3'. pose proof (pos_le stream base Hs j (FillpKept.gk g) ltac:(lia)) as H4'.
  unfold FillpKept.fullNum, u32. rewrite Zminus_mod_idemp_r, Z.mod_small by lia. lia.
Qed.

Lemma send_step w g k ev : Joint w g k -> FillpSender.legal stream MS (count w) (sender w) ev -> (forall n, FillpSender.ackOf ev = Some n -> recent w n) ->
  exists s g', FillpSender.exec scfg ev (sender w) = Some s /\ Joint (mkWorld (count w + FillpSender.submitted ev) s (receiver w)) g' k.
Proof.
  intros J Hl Hack. pose proof J as (R & Em & (il & ib & RR) & HA). destruct (FillpSender.sender_event_ok scfg stream base MS stream_numbered _ _ ev g R Em Hl) as (s & g' & E & R' & Em' & Hk & HA').
  exists s, g'. split; [exact E|]. split; [exact R'|]. split; [exact Em'|]. split.
  - exists il, ib. apply (rest_more (FillpKept.gk g)); [|exact RR]. split; [exact Hk|]. destruct R' as (V & _). pose proof (FillpKept.n_k _ _ _ _ (FillpKept.i_nums _ _ _ _ _ V)). lia.
  - destruct HA' as [-> |(n & En & ->)]; [exact HA|]. now apply (recent_ok w g k n J), Hack.
Qed.

Lemma step_ok w g k ev : Joint w g k -> legal w ev -> exists w' g' k', exec ev w = Some w' /\ Joint w' g' k'.
Proof.
  intros J Hl. pose proof (joint_number w g k J) as [Ew _]. destruct ev as [e|e|p i now num alloc more alloc' ans|env flag rate q|env q]; cbn [exec legal] in *.
  - destruct (send_step w g k e J) as (s & g' & E & J'); [now destruct e|now destruct e|]. rewrite E. cbn [mbind option_bind]. eauto.
  - destruct (recv_step w g k e J) as (r & k' & E & J'); [now destruct e|now destruct e|]. rewrite E. cbn [mbind option_bind]. eauto.
  - destruct Hl as (_ & Hp & Hi & Hl). destruct (recv_step w g k (FillpRecv.EvData i now num alloc more alloc' ans) J) as (r & k' & E & J'); [lia|exact Hl|].
    unfold packetOf in Hp. cbn [FillpRecv.exec] in E. destruct (stream !! i) as [x|]; [|discriminate]. cbn [mbind option_bind] in *.
    destruct (FillpBuildDataPkt now num x) as [[[n y] p']|]; [|discriminate]. cbn [mbind option_bind] in *. injection Hp as ->. rewrite E. cbn [mbind option_bind]. eauto.
  - destruct Hl as [_ Hr]. destruct (recent_ok w g k _ J Hr) as [Hn _]. destruct (send_step w g k (FillpSender.EvPack env (packOf flag rate q)) J) as (s & g' & E & J'); [exact Hn|intros n [= <-]; exact Hr|].
    cbn [FillpSender.exec] in E. rewrite E. cbn [mbind option_bind]. rewrite Nat.add_0_r in J'. eauto.
  - destruct Hl as [_ Hr]. destruct (recent_ok w g k _ J Hr) as [Hn _]. destruct (send_step w g k (FillpSender.EvNack env (nackOf q)) J) as (s & g' & E & J'); [exact Hn|intros n [= <-]; exact Hr|].
    cbn [FillpSender.exec] in E. rewrite E. cbn [mbind option_bind]. rewrite Nat.add_0_r in J'. eauto.
Qed.

Lemma reachable_joint w : reachable w -> exists g k, Joint w g k.
Proof.
  induction 1 as [w (Ec & Hs & Hr)|w ev w' _ (g & k & J) Hl E].
  - destruct (FillpSender.sender_started scfg stream base MS _ Hs) as (g & R & Em & Ek & EA). exists g, 0%nat. split; [exact R|]. split; [congruence|].
    split; [exists [], []; apply FillpRecv.started_rest; exact Hr|]. assert (E0 : pos 0 = base) by (unfold FillpItem.pos; rewrite take_0; apply Z.add_0_r). lia.
  - destruct (step_ok w g k ev J Hl) as (w1 & g' & k' & E1 & J'). rewrite E in E1. injection E1 as <-. eauto.
Qed.

(** C1: The transport loses nothing.  Whatever the network does with the packets of both directions,
    the application of the receiver has got exactly the payloads of the first [n] submitted items, in
    their order; every submitted item that it has not got is still held by the sender with its data;
    so when the sender holds no items, everything that was submitted has arrived.  And the next event
    of either side, or packet that arrives, is handled without a fault. *)
Theorem fillp_nothing_lost w : reachable w -> exists n, (n <= count w)%nat /\
  map payload (FillpRecv.recvBox (receiver w)) = map payload (take n stream) /\
  (forall i, (n <= i < count w)%nat -> FillpSender.held stream base (sender w) (withNumber w) i) /\
  (FillpSend.items (sender w) = ∅ -> n = count w) /\
  forall ev, legal w ev -> exists w', exec ev w = Some w' /\ reachable w'.
Proof.
  intros Hr. destruct (reachable_joint w Hr) as (g & k & J). pose proof (joint_number w g k J) as [Ew Hg]. pose proof J as (R & Em & (il & ib & RR) & HA).
  destruct (rest_count _ _ _ _ _ RR) as (Ek & Hk & Ep). pose proof R as (V & _). pose proof (FillpKept.n_k _ _ _ _ (FillpKept.i_nums _ _ _ _ _ V)) as Hkm.
  assert (Hheld : forall i, (k <= i < count w)%nat -> FillpSender.held stream base (sender w) (withNumber w) i).
  { intros i Hi. rewrite Ew. apply (FillpSender.rest_held stream base MS); [exact R|lia|].
    pose proof (pos_lt stream base (FillpRecv.stream_sized rcfg stream base stream_ok) k (S i) ltac:(lia)). lia. }
  exists k. split; [lia|]. split; [exact Ep|]. split; [exact Hheld|]. split.
  - intros He. destruct (Nat.eq_dec k (count w)) as [|Hne]; [assumption|]. destruct (Hheld k) as (a & x & _ & Hx & _); [lia|]. rewrite He in Hx. now rewrite lookup_empty in Hx.
  - intros ev Hl. destruct (step_ok w g k ev J Hl) as (w' & _ & _ & E & _). exists w'. split; [exact E|]. now apply (reach_step w ev).
Qed.

(** ** Sequences of events *)

Fixpoint legalRun (evs : list Event) (w : World) : Prop :=
  match evs with [] => True | ev :: evs => legal w ev /\ match exec ev w with Some w' => legalRun evs w' | None => True end end.

Lemma link_run evs : forall w w', reachable w -> legalRun evs w -> execs evs w = Some w' -> reachable w'.
Proof.
  induction evs as [|ev evs IH]; intros w w' Hr Hl E; cbn [execs legalRun] in *; [now injection E as <-|]. destruct Hl as [Hl Hls].
  destruct (exec ev w) as [w1|] eqn:E1; [|discriminate]. apply (IH w1 w'); [now apply (reach_step w ev)|exact Hls|exact E].
Qed.

Section Decide.
Context `{forall a, Decision (MS a)} `{forall a, Decision (MR a)}.

#[local] Existing Instances FillpRecv.legal_dec FillpSender.legal_dec.
#[export] Instance pack_eq_dec : EqDecision FillpRecv.FillpPktPack.
Proof. solve_decision. Defined.
#[export] Instance nack_eq_dec : EqDecision FillpRecv.FillpPktNack.
Proof. solve_decision. Defined.
#[export] Instance recent_dec w n : Decision (recent w n).
Proof. unfold recent. apply _. Defined.
#[export] Instance legal_dec w ev : Decision (legal w ev).
Proof. destruct ev as [[]|[]| | |]; cbn [legal]; apply _. Defined.
#[export] Instance legalRun_dec evs : forall w, Decision (legalRun evs w).
Proof. induction evs as [|ev evs IH]; intros w; cbn; [apply _|]. apply and_dec; [apply _|]. destruct (exec ev w); [apply IH|apply _]. Defined.
End Decide.

End Link.

(** ** A run *)

Module LinkDemo.
Import FillpRecv.RecvDemo FillpSender.SendDemo.

Definition stream : list FillpPcbItem := FillpRecv.RecvDemo.stream.
Definition rcfg : FillpRecv.Config := FillpRecv.RecvDemo.cfg true.
Definition scfg : FillpSend.Config := FillpSender.SendDemo.cfg.
Definition init : World := mkWorld 0 FillpSender.SendDemo.init FillpRecv.RecvDemo.init.

Definition arrives (i : nat) (now num : Z) (a : nat) : Event := LData (default [] (packetOf stream i now num)) i now num (Some a) 0 None ans.

(** Three items are sent; the third arrives first, then the first; the second is lost.  The
    acknowledgement of the first item reports the loss; the item is sent again and arrives. *)
Definition evs : list Event :=
  [LSender (FillpSender.EvSubmit (env 1000 true) true [(1%nat, item0); (2%nat, item1); (3%nat, item2)]);
   arrives 2 1000 2 1; arrives 0 1000 0 2; LReceiver (FillpRecv.EvBurst ans); LReceiver FillpRecv.EvPack;
   LPack (env 1400 true) 0 0 (FillpRecv.mkPktPack 4294967293 3 2); LSender (FillpSender.EvTimer (env 1600 true));
   arrives 1 1600 3 3; LReceiver (FillpRecv.EvBurst ans); LReceiver FillpRecv.EvPack; LPack (env 1700 true) 0 0 (FillpRecv.mkPktPack 4 4 4)].

End LinkDemo.

(** At the end of the run the sender holds nothing, and the application has got all three items. *)
Lemma fillp_nothing_lost_witness : exists w, execs LinkDemo.scfg LinkDemo.rcfg LinkDemo.stream LinkDemo.evs LinkDemo.init = Some w /\
  FillpSend.items (sender w) = ∅ /\ map payload (FillpRecv.recvBox (receiver w)) = map payload LinkDemo.stream.
Proof.
  destruct (execs LinkDemo.scfg LinkDemo.rcfg LinkDemo.stream LinkDemo.evs LinkDemo.init) as [w|] eqn:E; [|vm_compute in E; discriminate].
  exists w. split; [reflexivity|]. assert (Hend : FillpSend.items (sender w) = ∅ /\ count w = 3%nat) by (vm_compute in E; injection E as <-; split; reflexivity).
  destruct Hend as [He Hc]. split; [exact He|].
  destruct (fillp_nothing_lost LinkDemo.scfg LinkDemo.rcfg LinkDemo.stream FillpRecv.RecvDemo.base FillpRecv.RecvDemo.W FillpSender.SendDemo.M FillpRecv.RecvDemo.M
    (FillpRecv.RecvDemo.stream_ok true) ltac:(unfold FillpRecv.RecvDemo.W; lia) w) as (n & _ & Ep & _ & Hn & _).
  - apply (link_run _ _ _ _ _ _ _ LinkDemo.evs LinkDemo.init w); [|apply (bool_decide_unpack _); vm_compute; reflexivity|exact E].
    apply reach_start. split; [reflexivity|]. split; [apply FillpSender.SendDemo.send_started|apply FillpRecv.RecvDemo.init_started].
  - rewrite Ep, (Hn He), Hc. reflexivity.
Defined.

End FillpLink.
