(* ===== verification/ChannelId.v ===== *)
(** * Channel numbers

    core/transmission/trans_channel/manager/src/trans_channel_manager.c: the
    numbers of proxy channels come from a bitmap of 1024 bits that is searched
    from the last number handed out, those of TCP direct channels from a counter.

    The theorems show that the bitmap is a set of numbers: a number in use is
    never handed out, one is found unless the set is full or the last number is
    the only free one, and the search ends as long as only numbers in use are
    given back.  When others are given back too, the counter may be too low, and
    the search does not end once every number is in use. *)

From S2P Require Import Prelude ErrorCode.
From stdpp Require Import gmap list sets.
#[local] Open Scope Z_scope.

Module ChannelId.

Definition MAX_PROXY_CHANNEL_ID : Z := 2048.
Definition MAX_TDC_CHANNEL_ID : Z := 2147483647.
Definition MIN_FD_ID : Z := 1025.
Definition MAX_FD_ID : Z := 2048.
Definition MAX_PROXY_CHANNEL_ID_COUNT : Z := 1024.
Definition ID_NOT_USED : Z := 0.
Definition ID_USED : Z := 1.
Definition INVALID_CHANNEL_ID : Z := -1.

(** The static variables. *)
Record Ids := mkIds {
  g_allocTdcChannelId : Z;
  g_proxyChanIdBits : list Z;
  g_proxyIdMark : Z;
  g_channelIdCount : Z
}.

Definition freshIds : Ids := mkIds MAX_PROXY_CHANNEL_ID (replicate 16 0) 0 0.

Definition word (bits : list Z) (index : Z) : Z := nth (Z.to_nat index) bits 0.

Definition GenerateTdcChannelId (lock : bool) (s : Ids) : Z * Ids :=
  if negb lock then (SOFTBUS_LOCK_ERR, s)
  else
    let channelId := g_allocTdcChannelId s in
    let next := s32 (channelId + 1) in
    (channelId, mkIds (if next >=? MAX_TDC_CHANNEL_ID then MAX_PROXY_CHANNEL_ID else next)
                  (g_proxyChanIdBits s) (g_proxyIdMark s) (g_channelIdCount s)).

(** The loop from [id]; [None]: it is still running after [fuel] rounds. *)
Fixpoint idLoop (fuel : nat) (id : Z) (s : Ids) : option (Z * Ids) :=
  match fuel with
  | O => None
  | S fuel' =>
    if id =? g_proxyIdMark s then Some (INVALID_CHANNEL_ID, s)
    else
      let id := id mod MAX_PROXY_CHANNEL_ID_COUNT in
      let index := id / 64 in
      let bit := id mod 64 in
      let w := word (g_proxyChanIdBits s) index in
      if Z.land w (u64 (Z.shiftl ID_USED bit)) =? ID_NOT_USED then
        Some (s32 (id + MIN_FD_ID),
          mkIds (g_allocTdcChannelId s)
            (<[Z.to_nat index := Z.lor w (u64 (Z.shiftl ID_USED bit))]> (g_proxyChanIdBits s)) id
            (u32 (g_channelIdCount s + 1)))
      else idLoop fuel' (u32 (id + 1)) s
  end.

(** The search looks at every number once and at the first one again. *)
Definition searchFuel : nat := 1025.

Definition GenerateProxyChannelId (lock : bool) (s : Ids) : option (Z * Ids) :=
  if negb lock then Some (SOFTBUS_LOCK_ERR, s)
  else if g_channelIdCount s >=? MAX_PROXY_CHANNEL_ID_COUNT then Some (INVALID_CHANNEL_ID, s)
  else idLoop searchFuel (u32 (g_proxyIdMark s + 1)) s.

Definition GenerateChannelId (isTdcChannel lock : bool) (s : Ids) : option (Z * Ids) :=
  if isTdcChannel then Some (GenerateTdcChannelId lock s) else GenerateProxyChannelId lock s.

Definition ReleaseProxyChannelId (lock : bool) (channelId : Z) (s : Ids) : Ids :=
  if (channelId <? MIN_FD_ID) || (channelId >? MAX_FD_ID) then s
  else if negb lock then s
  else
    let count := if g_channelIdCount s >=? ID_USED then g_channelIdCount s - 1 else g_channelIdCount s in
    let id := channelId - MIN_FD_ID in
    let dex := id / 64 in
    let bit := id mod 64 in
    let w := word (g_proxyChanIdBits s) dex in
    mkIds (g_allocTdcChannelId s)
      (<[Z.to_nat dex := Z.land w (Z.lxor (u64 (Z.shiftl ID_USED bit)) 18446744073709551615)]> (g_proxyChanIdBits s))
      (g_proxyIdMark s) count.

(** ** The set of numbers in use *)

Definition bitAt (bits : list Z) (id : Z) : bool := Z.testbit (word bits (id / 64)) (id mod 64).
Definition isId (id : Z) : Prop := 0 <= id < 1024.

(** The bits are those of the numbers [U], and the counter does not exceed their
    number; [exact]: it is their number. *)
Record bitsOf (exact : bool) (s : Ids) (U : gset Z) : Prop := {
  h_len : length (g_proxyChanIdBits s) = 16%nat;
  h_bits : forall id, isId id -> bitAt (g_proxyChanIdBits s) id = bool_decide (id ∈ U);
  h_range : forall id, id ∈ U -> isId id;
  h_mark : isId (g_proxyIdMark s);
  h_bound : 0 <= g_channelIdCount s <= Z.of_nat (size U);
  h_exact : exact = true -> g_channelIdCount s = Z.of_nat (size U)
}.

Arguments h_len {exact} s U _.
Arguments h_bits {exact} s U _ id _.
Arguments h_range {exact} s U _ id _.
Arguments h_mark {exact} s U _.
Arguments h_bound {exact} s U _.
Arguments h_exact {exact} s U _ _.

Abbreviation holds := (bitsOf true).

Lemma word_replicate n i : word (replicate n 0) i = 0.
Proof.
  unfold word. generalize (Z.to_nat i). induction n as [|n IH]; intros [|m]; cbn; auto.
Qed.

Lemma holds_fresh exact : bitsOf exact freshIds ∅.
Proof.
  constructor; try done; try (cbn; lia).
  intros id Hid. rewrite bool_decide_false by set_solver. unfold bitAt, freshIds. cbn [g_proxyChanIdBits].
  rewrite word_replicate. apply Z.testbit_0_l.
Qed.

(** ** Bits *)

Lemma one_bit b : 0 <= b < 64 -> u64 (Z.shiftl ID_USED b) = 2 ^ b.
Proof.
  intros Hb. unfold ID_USED. rewrite Z.shiftl_1_l. apply u64_small. split; [lia|].
  apply (Z.lt_le_trans _ (2 ^ 64)); [apply Z.pow_lt_mono_r; lia|]. done.
Qed.

Lemma land_bit w b : 0 <= b -> (Z.land w (2 ^ b) =? 0) = negb (Z.testbit w b).
Proof.
  intros Hb. destruct (Z.testbit w b) eqn:E; cbn.
  - apply Z.eqb_neq. intros H. apply (f_equal (fun z => Z.testbit z b)) in H.
    rewrite Z.land_spec, E, Z.pow2_bits_true, Z.testbit_0_l in H by lia. discriminate.
  - apply Z.eqb_eq. apply Z.bits_inj'. intros n Hn. rewrite Z.land_spec, Z.testbit_0_l, Z.pow2_bits_eqb by lia.
    destruct (Z.eqb_spec b n) as [->|]; [now rewrite E|apply andb_false_r].
Qed.

Lemma word_insert bits i v j : length bits = 16%nat -> 0 <= i < 16 -> 0 <= j < 16 ->
  word (<[Z.to_nat i := v]> bits) j = if Z.eqb i j then v else word bits j.
Proof.
  intros Hl Hi Hj. unfold word. rewrite !nth_lookup. destruct (Z.eqb_spec i j) as [->|Hne].
  - rewrite list_lookup_insert_eq by lia. done.
  - rewrite list_lookup_insert_ne by lia. done.
Qed.

Lemma id_parts id : isId id -> 0 <= id / 64 < 16 /\ 0 <= id mod 64 < 64.
Proof. unfold isId. intros. split; [|apply Z.mod_pos_bound; lia]. split; [apply Z.div_pos; lia|apply Z.div_lt_upper_bound; lia]. Qed.

Lemma id_same x y : x / 64 = y / 64 -> x mod 64 = y mod 64 -> x = y.
Proof. intros H1 H2. rewrite (Z.div_mod x 64), (Z.div_mod y 64) by lia. congruence. Qed.

Lemma idBit_set bits id id' : length bits = 16%nat -> isId id -> isId id' ->
  bitAt (<[Z.to_nat (id / 64) := Z.lor (word bits (id / 64)) (2 ^ (id mod 64))]> bits) id' = bitAt bits id' || (id =? id').
Proof.
  intros Hl H H'. destruct (id_parts _ H) as [Hi Hb], (id_parts _ H') as [Hi' Hb']. unfold bitAt.
  rewrite word_insert by done. destruct (Z.eqb_spec (id / 64) (id' / 64)) as [E|Hne].
  - rewrite Z.lor_spec, Z.pow2_bits_eqb, E by lia. f_equal. apply eq_true_iff_eq. rewrite !Z.eqb_eq.
    split; [|now intros ->]. intros Hm. now apply id_same.
  - destruct (Z.eqb_spec id id') as [->|]; [done|]. now rewrite orb_false_r.
Qed.

Lemma bitAt_clear bits id id' : length bits = 16%nat -> isId id -> isId id' ->
  bitAt (<[Z.to_nat (id / 64) := Z.land (word bits (id / 64)) (Z.lxor (2 ^ (id mod 64)) 18446744073709551615)]> bits) id' =
  bitAt bits id' && negb (id =? id').
Proof.
  intros Hl H H'. destruct (id_parts _ H) as [Hi Hb], (id_parts _ H') as [Hi' Hb']. unfold bitAt.
  rewrite word_insert by done. destruct (Z.eqb_spec (id / 64) (id' / 64)) as [E|Hne].
  - change 18446744073709551615 with (Z.ones 64). rewrite Z.land_spec, Z.lxor_spec, Z.pow2_bits_eqb, Z.ones_spec_low, xorb_true_r, E by lia.
    do 2 f_equal. apply eq_true_iff_eq. rewrite !Z.eqb_eq. split; [|now intros ->]. intros Hm. now apply id_same.
  - destruct (Z.eqb_spec id id') as [->|]; [done|]. now rewrite andb_true_r.
Qed.

(** ** The search *)

(** The value of the variable after [k] rounds, and the round that looks at [t]. *)
Definition idAt (mark k : Z) : Z := if mark + 1 + k <=? 1024 then mark + 1 + k else mark + 1 + k - 1024.
Definition roundOf (mark t : Z) : Z := if mark <? t then t - mark - 1 else t - mark + 1023.

Lemma mod_1024 x : 1 <= x <= 1024 -> x mod 1024 = if x =? 1024 then 0 else x.
Proof. intros H. destruct (Z.eqb_spec x 1024) as [->|]; [done|]. apply Z.mod_small. lia. Qed.

Lemma idAt_range mark k : isId mark -> 0 <= k < 1024 -> 1 <= idAt mark k <= 1024.
Proof. unfold isId, idAt. intros Hm Hk. destruct (Z.leb_spec (mark + 1 + k) 1024); lia. Qed.

#[local] Ltac eqb1024 := match goal with |- context [?x =? 1024] => destruct (Z.eqb_spec x 1024) end.

Lemma idAt_round mark k : isId mark -> 0 <= k < 1024 -> isId (idAt mark k mod 1024) /\ roundOf mark (idAt mark k mod 1024) = k.
Proof.
  intros Hm Hk. rewrite mod_1024 by now apply idAt_range. unfold isId, idAt, roundOf in *.
  destruct (Z.leb_spec (mark + 1 + k) 1024); eqb1024;
    match goal with |- context [mark <? ?x] => destruct (Z.ltb_spec mark x) end; lia.
Qed.

Lemma roundOf_inj mark t t' : isId mark -> isId t -> isId t' -> roundOf mark t = roundOf mark t' -> t = t'.
Proof. unfold isId, roundOf. intros. destruct (Z.ltb_spec mark t), (Z.ltb_spec mark t'); lia. Qed.

Lemma roundOf_range mark t : isId mark -> isId t -> 0 <= roundOf mark t < 1024.
Proof. unfold isId, roundOf. intros. destruct (Z.ltb_spec mark t); lia. Qed.

Lemma idAt_next mark k : isId mark -> 0 <= k < 1023 -> u32 (idAt mark k mod 1024 + 1) = idAt mark (k + 1).
Proof.
  intros Hm Hk. rewrite mod_1024 by (apply idAt_range; [done|lia]). unfold isId, idAt in *.
  destruct (Z.leb_spec (mark + 1 + k) 1024), (Z.leb_spec (mark + 1 + (k + 1)) 1024); eqb1024;
    rewrite u32_small by (unfold in_u32; lia); lia.
Qed.

(** The loop stops at the mark only in the last round, and not when the mark is 0. *)
Lemma idAt_mark mark k : isId mark -> 0 <= k < 1024 -> idAt mark k = mark <-> k = 1023 /\ mark <> 0.
Proof. unfold isId, idAt. intros Hm Hk. destruct (Z.leb_spec (mark + 1 + k) 1024); lia. Qed.

Section Search.

Context {exact : bool} (s : Ids) (U : gset Z) (H : bitsOf exact s U).
Abbreviation mark := (g_proxyIdMark s).

Lemma used_bit id : isId id -> (Z.land (word (g_proxyChanIdBits s) (id / 64)) (2 ^ (id mod 64)) =? 0) = bool_decide (id ∉ U).
Proof using H.
  intros Hid. destruct (id_parts _ Hid). rewrite land_bit by lia. fold (bitAt (g_proxyChanIdBits s) id).
  rewrite (h_bits _ _ H id Hid). rewrite <- bool_decide_not. done.
Qed.

(** The state when [id] has been taken. *)
Definition taken (id : Z) : Ids :=
  mkIds (g_allocTdcChannelId s) (<[Z.to_nat (id / 64) := Z.lor (word (g_proxyChanIdBits s) (id / 64)) (2 ^ (id mod 64))]> (g_proxyChanIdBits s))
    id (u32 (g_channelIdCount s + 1)).

Lemma size_ids (V : gset Z) : (forall id, id ∈ V -> isId id) -> (size V <= 1024)%nat.
Proof.
  intros HV. transitivity (size (list_to_set (seqZ 0 1024) : gset Z)).
  - apply subseteq_size. intros id Hid. apply elem_of_list_to_set, elem_of_seqZ. specialize (HV id Hid). unfold isId in HV. lia.
  - rewrite size_list_to_set by apply NoDup_seqZ. rewrite length_seqZ. lia.
Qed.

Lemma taken_holds id : isId id -> id ∉ U -> bitsOf exact (taken id) ({[id]} ∪ U).
Proof using H.
  intros Hid Hn. destruct (id_parts _ Hid). assert (Hr : forall x, x ∈ ({[id]} ∪ U : gset Z) -> isId x).
  { intros x [->%elem_of_singleton|Hx]%elem_of_union; [done|exact (h_range _ _ H x Hx)]. }
  pose proof (size_ids _ Hr) as Hs. rewrite size_union, size_singleton in Hs by set_solver.
  constructor; cbn [taken g_proxyChanIdBits g_proxyIdMark g_channelIdCount].
  - rewrite length_insert. apply (h_len _ _ H).
  - intros x Hx. rewrite idBit_set by (done || apply (h_len _ _ H)). rewrite (h_bits _ _ H x Hx).
    destruct (Z.eqb_spec id x) as [<-|Hne]; [rewrite orb_true_r; symmetry; apply bool_decide_true; set_solver|].
    rewrite orb_false_r. apply bool_decide_ext. set_solver.
  - exact Hr.
  - exact Hid.
  - rewrite size_union, size_singleton by set_solver. pose proof (h_bound _ _ H).
    rewrite u32_small by (unfold in_u32; lia). lia.
  - intros He. rewrite (h_exact _ _ H He), size_union, size_singleton by set_solver.
    rewrite u32_small by (unfold in_u32; lia). lia.
Qed.

Lemma idLoop_step fuel k : 0 <= k < 1024 -> idLoop (S fuel) (idAt mark k) s =
  let id := idAt mark k mod 1024 in
  if idAt mark k =? mark then Some (INVALID_CHANNEL_ID, s)
  else if bool_decide (id ∉ U) then Some (id + 1025, taken id) else idLoop fuel (u32 (id + 1)) s.
Proof using H.
  intros Hk. pose proof (h_mark _ _ H) as Hm. destruct (idAt_round _ k Hm Hk) as [Hid _]. destruct (id_parts _ Hid).
  cbn [idLoop]. cbv zeta. unfold MAX_PROXY_CHANNEL_ID_COUNT, ID_NOT_USED, MIN_FD_ID in *. rewrite one_bit by lia. rewrite used_bit by done.
  unfold isId in Hid. rewrite s32_small by (unfold in_s32; lia). reflexivity.
Qed.

(** From round [k] on, the first free number is found. *)
Lemma idLoop_finds t : isId t -> t ∉ U -> (t <> mark \/ mark = 0) -> forall n k fuel, 0 <= k -> roundOf mark t = k + Z.of_nat n -> (n < fuel)%nat ->
  exists id, idLoop fuel (idAt mark k) s = Some (id + 1025, taken id) /\ isId id /\ id ∉ U /\ k <= roundOf mark id <= roundOf mark t /\
    forall u, isId u -> k <= roundOf mark u < roundOf mark id -> u ∈ U.
Proof using H.
  intros Ht Hf Hmt. pose proof (h_mark _ _ H) as Hm. pose proof (roundOf_range _ _ Hm Ht) as Hrt.
  induction n as [|n IH]; intros k fuel Hk Er Hn; (destruct fuel as [|fuel]; [lia|]); rewrite idLoop_step by lia; cbv zeta;
    (destruct (idAt_round _ k Hm ltac:(lia)) as [Hid Hro]).
  - assert (idAt mark k mod 1024 = t) as Et by (apply (roundOf_inj mark); [done|done|done|lia]).
    destruct (Z.eqb_spec (idAt mark k) mark) as [Em|_].
    { exfalso. apply idAt_mark in Em as [Hk' Hm0]; [|done|lia]. destruct Hmt as [Hmt|]; [|done]. apply Hmt.
      unfold isId, roundOf in *. destruct (Z.ltb_spec mark t); lia. }
    rewrite Et, bool_decide_true by done. exists t. split; [done|]. split; [done|]. split; [done|]. split; [lia|]. intros u Hu Hr. lia.
  - destruct (Z.eqb_spec (idAt mark k) mark) as [Em|_]; [apply idAt_mark in Em as [Hk' _]; [lia|done|lia]|].
    destruct (bool_decide_reflect (idAt mark k mod 1024 ∉ U)) as [Hfree|Hused].
    + exists (idAt mark k mod 1024). split; [done|]. split; [done|]. split; [done|]. split; [lia|]. intros u Hu Hr. lia.
    + rewrite idAt_next by (done || lia). destruct (IH (k + 1) fuel) as (id & E & H1 & H2 & H3 & H4); [lia|lia|lia|].
      exists id. split; [exact E|]. split; [done|]. split; [done|]. split; [lia|]. intros u Hu Hr.
      destruct (Z.eq_dec (roundOf mark u) k) as [Eu|Hne]; [|apply H4; [done|lia]].
      assert (u = idAt mark k mod 1024) as -> by (apply (roundOf_inj mark); [done|done|done|lia]). destruct (decide (idAt mark k mod 1024 ∈ U)); [done|contradiction].
Qed.

(** Nothing is found when only the mark itself may be free. *)
Lemma idLoop_misses : mark <> 0 -> (forall t, isId t -> t <> mark -> t ∈ U) -> forall n k fuel, 0 <= k -> k + Z.of_nat n = 1023 -> (n < fuel)%nat ->
  idLoop fuel (idAt mark k) s = Some (INVALID_CHANNEL_ID, s).
Proof using H.
  intros Hm0 Hall. pose proof (h_mark _ _ H) as Hm.
  induction n as [|n IH]; intros k fuel Hk Er Hn; (destruct fuel as [|fuel]; [lia|]); rewrite idLoop_step by lia; cbv zeta.
  - assert (idAt mark k = mark) as -> by (apply idAt_mark; [done|lia|split; [lia|done]]). now rewrite Z.eqb_refl.
  - destruct (Z.eqb_spec (idAt mark k) mark) as [Em|_]; [done|]. destruct (idAt_round _ k Hm ltac:(lia)) as [Hid Hro].
    rewrite bool_decide_false.
    + rewrite idAt_next by (done || lia). apply IH; lia.
    + intros Hnot. apply Hnot, Hall; [done|]. intros Em. rewrite Em in Hro. unfold roundOf in Hro. rewrite Z.ltb_irrefl in Hro. lia.
Qed.

End Search.

(** ** Releasing *)

(** Giving back any number of the range, in use or not. *)
Lemma Release_bits exact exact' s U id : bitsOf exact s U -> isId id ->
  (exact' = true -> exact = true /\ id ∈ U) ->
  bitsOf exact' (ReleaseProxyChannelId true (id + 1025) s) (U ∖ {[id]}).
Proof.
  intros H Hid He. destruct (id_parts _ Hid). unfold isId in Hid. unfold ReleaseProxyChannelId, MIN_FD_ID, MAX_FD_ID.
  destruct (Z.ltb_spec (id + 1025) 1025); [lia|]. destruct (Z.gtb_spec (id + 1025) 2048); [lia|]. cbn [orb negb].
  replace (id + 1025 - 1025) with id by lia. rewrite one_bit by lia. pose proof (h_bound _ _ H) as Hb.
  assert (Hin : id ∈ U -> (size U = S (size (U ∖ {[id]})))%nat).
  { intros Hin. rewrite (union_difference_L {[id]} U) at 1 by set_solver. rewrite size_union by set_solver. now rewrite size_singleton. }
  assert (Hout : id ∉ U -> U ∖ {[id]} = U) by set_solver.
  constructor; cbn [g_proxyChanIdBits g_proxyIdMark g_channelIdCount].
  - rewrite length_insert. apply (h_len _ _ H).
  - intros x Hx. rewrite bitAt_clear by (done || apply (h_len _ _ H)). rewrite (h_bits _ _ H x Hx).
    destruct (Z.eqb_spec id x) as [<-|Hne]; [rewrite andb_false_r; symmetry; apply bool_decide_false; set_solver|].
    rewrite andb_true_r. apply bool_decide_ext. set_solver.
  - intros x Hx. apply (h_range _ _ H). set_solver.
  - apply (h_mark _ _ H).
  - unfold ID_USED. destruct (decide (id ∈ U)) as [Hi|Hn]; [specialize (Hin Hi)|rewrite (Hout Hn)];
      destruct (Z.geb_spec (g_channelIdCount s) 1); lia.
  - intros Ht. destruct (He Ht) as [Hx Hi]. specialize (Hin Hi). pose proof (h_exact _ _ H Hx).
    unfold ID_USED. destruct (Z.geb_spec (g_channelIdCount s) 1); lia.
Qed.

Lemma Release_holds s U id : holds s U -> id ∈ U -> holds (ReleaseProxyChannelId true (id + 1025) s) (U ∖ {[id]}).
Proof. intros H Hin. apply (Release_bits true true); auto. exact (h_range _ _ H id Hin). Qed.

(** Numbers outside the range are ignored. *)
Lemma Release_outside lock s n : n < 1025 \/ 2048 < n -> ReleaseProxyChannelId lock n s = s.
Proof.
  unfold ReleaseProxyChannelId, MIN_FD_ID, MAX_FD_ID. intros Hn. destruct (Z.ltb_spec n 1025), (Z.gtb_spec n 2048); cbn [orb]; auto; lia.
Qed.

(** ** Handing out *)

Definition allIds : gset Z := list_to_set (seqZ 0 1024).
Lemma elem_allIds id : id ∈ allIds <-> isId id.
Proof. unfold allIds, isId. rewrite elem_of_list_to_set, elem_of_seqZ. lia. Qed.
Lemma size_allIds : size allIds = 1024%nat.
Proof. unfold allIds. rewrite size_list_to_set by apply NoDup_seqZ. now rewrite length_seqZ. Qed.

Lemma mark_next mark : isId mark -> u32 (mark + 1) = idAt mark 0.
Proof.
  unfold isId, idAt. intros Hm. destruct (Z.leb_spec (mark + 1 + 0) 1024); rewrite u32_small by (unfold in_u32; lia); lia.
Qed.

(** What the search does in a state that holds [U]. *)
Inductive generated (s : Ids) (U : gset Z) : Z -> Ids -> Prop :=
| gen_taken id : isId id -> id ∉ U -> (forall u, isId u -> roundOf (g_proxyIdMark s) u < roundOf (g_proxyIdMark s) id -> u ∈ U) ->
    generated s U (id + 1025) (taken s id)
| gen_full : U = allIds -> generated s U INVALID_CHANNEL_ID s
| gen_missed : g_proxyIdMark s <> 0 -> (forall t, isId t -> t <> g_proxyIdMark s -> t ∈ U) -> generated s U INVALID_CHANNEL_ID s.

(** When every number is in use and the mark is 0, the search does not end; it is
    started only when the counter is too low, as after giving back a number twice. *)
Lemma search_never_ends s : g_proxyIdMark s = 0 -> (forall id, isId id -> bitAt (g_proxyChanIdBits s) id = true) ->
  forall fuel, idLoop fuel (u32 (g_proxyIdMark s + 1)) s = None.
Proof.
  intros Hm Hall. assert (Hgen : forall fuel id, 1 <= id <= 1024 -> idLoop fuel id s = None).
  { induction fuel as [|fuel IH]; intros id Hid; [done|]. cbn [idLoop]. rewrite Hm. destruct (Z.eqb_spec id 0); [lia|]. cbv zeta.
    assert (Hmod : isId (id mod 1024)) by (apply Z.mod_pos_bound; lia). destruct (id_parts _ Hmod).
    unfold MAX_PROXY_CHANNEL_ID_COUNT, ID_NOT_USED. rewrite one_bit, land_bit by lia. fold (bitAt (g_proxyChanIdBits s) (id mod 1024)).
    rewrite Hall by done. cbn [negb]. apply IH. unfold isId in Hmod. rewrite u32_small by (unfold in_u32; lia). lia. }
  intros fuel. rewrite Hm. apply Hgen. vm_compute. split; discriminate.
Qed.

(** The search hands out a free number, or finds none, or does not end. *)
Lemma Generate_bits exact s U : bitsOf exact s U ->
  (exists n s', GenerateProxyChannelId true s = Some (n, s') /\ generated s U n s') \/
  (exact = false /\ U = allIds /\ GenerateProxyChannelId true s = None /\
   forall fuel, idLoop fuel (u32 (g_proxyIdMark s + 1)) s = None).
Proof.
  intros H. pose proof (h_mark _ _ H) as Hm. set (mark := g_proxyIdMark s) in *. unfold GenerateProxyChannelId. cbn [negb].
  destruct (Z.geb_spec (g_channelIdCount s) MAX_PROXY_CHANNEL_ID_COUNT) as [Hc|Hc]; unfold MAX_PROXY_CHANNEL_ID_COUNT in Hc.
  { left. exists INVALID_CHANNEL_ID, s. split; [done|]. apply gen_full. apply set_eq. intros id. rewrite elem_allIds.
    split; [apply (h_range _ _ H)|]. intros Hid. pose proof (h_bound _ _ H). destruct (decide (id ∈ U)) as [|Hn]; [done|]. exfalso.
    assert (Hs : (size ({[id]} ∪ U) <= 1024)%nat).
    { apply size_ids. intros x [->%elem_of_singleton|Hx]%elem_of_union; [done|exact (h_range _ _ H x Hx)]. }
    rewrite size_union, size_singleton in Hs by set_solver. lia. }
  fold mark. rewrite mark_next by done. assert (Hgot : forall t, isId t -> t ∉ U -> t <> mark \/ mark = 0 -> exists n s', idLoop searchFuel (idAt mark 0) s = Some (n, s') /\ generated s U n s').
  { intros t Ht Hf Hmt. pose proof (roundOf_range _ _ Hm Ht) as Hrt.
    destruct (idLoop_finds s U H t Ht Hf Hmt (Z.to_nat (roundOf mark t)) 0 searchFuel) as (id & E & Hid & Hfree & _ & Hfirst);
      [lia|fold mark; lia|unfold searchFuel; lia|].
    exists (id + 1025), (taken s id). split; [exact E|]. apply gen_taken; [done|done|]. intros u Hu Hr. apply Hfirst; [done|].
    pose proof (roundOf_range _ _ Hm Hu). fold mark. fold mark in Hr. lia. }
  destruct (decide (Exists (fun t => t <> mark \/ mark = 0) (elements (allIds ∖ U)))) as [(t & Ht & Hmt)%Exists_exists|Hno].
  - apply elem_of_elements, elem_of_difference in Ht as [Ht%elem_allIds Hf]. left. exact (Hgot t Ht Hf Hmt).
  - assert (Hall : forall t, isId t -> t <> mark -> t ∈ U).
    { intros t Ht Hne. destruct (decide (t ∈ U)) as [|Hn]; [done|]. exfalso. apply Hno, Exists_exists. exists t. split; [|now left].
      apply elem_of_elements, elem_of_difference. now rewrite elem_allIds. }
    destruct (Z.eq_dec mark 0) as [Hm0|Hm0].
    + right. assert (Hsub : allIds ⊆ U).
      { intros id Hid%elem_allIds. destruct (decide (id ∈ U)) as [|Hn]; [done|]. exfalso. apply Hno, Exists_exists. exists id. split; [|now right].
        apply elem_of_elements, elem_of_difference. now rewrite elem_allIds. }
      assert (HU : U = allIds).
      { apply set_eq. intros id. split; [intros Hid; apply elem_allIds, (h_range _ _ H id Hid)|apply Hsub]. }
      assert (Hnever : forall fuel, idLoop fuel (u32 (mark + 1)) s = None).
      { apply search_never_ends; [exact Hm0|]. intros id Hid. rewrite (h_bits _ _ H id Hid).
        apply bool_decide_eq_true, Hsub, elem_allIds, Hid. }
      rewrite (mark_next mark Hm) in Hnever. split; [|split; [exact HU|split; [|exact Hnever]]].
      * destruct exact; [|done]. exfalso. rewrite (h_exact _ _ H eq_refl), HU, size_allIds in Hc. lia.
      * apply Hnever.
    + left. exists INVALID_CHANNEL_ID, s. split; [|now apply gen_missed].
      apply (idLoop_misses s U H Hm0 Hall 1023 0 searchFuel); unfold searchFuel; lia.
Qed.

Lemma GenerateProxyChannelId_ok s U : holds s U -> exists n s', GenerateProxyChannelId true s = Some (n, s') /\ generated s U n s'.
Proof. intros H. destruct (Generate_bits true s U H) as [Hg|[? _]]; [exact Hg|discriminate]. Qed.

(** ** Numbers in use *)

(** Numbers are handed out and given back; [U] are the numbers in use, those whose
    bit is set.  Any number may be given back, also one that is not in use, unless
    [exact] forbids it. *)
Inductive step (exact : bool) : Ids * gset Z -> Ids * gset Z -> Prop :=
| step_generate s U n s' : GenerateProxyChannelId true s = Some (n, s') -> n <> INVALID_CHANNEL_ID ->
    step exact (s, U) (s', {[n]} ∪ U)
| step_none s U s' : GenerateProxyChannelId true s = Some (INVALID_CHANNEL_ID, s') -> step exact (s, U) (s', U)
| step_release s U n : (exact = true -> n ∈ U) -> step exact (s, U) (ReleaseProxyChannelId true n s, U ∖ {[n]}).

Definition idsOf (U : gset Z) : gset Z := set_map (fun n => n - 1025) U.

Lemma elem_idsOf U id : id ∈ idsOf U <-> id + 1025 ∈ U.
Proof.
  unfold idsOf. rewrite elem_of_map. split.
  - intros (n & -> & Hn). now replace (n - 1025 + 1025) with n by lia.
  - intros Hid. exists (id + 1025). split; [lia|done].
Qed.

Lemma idsOf_size U : size (idsOf U) = size U.
Proof.
  unfold idsOf, set_map. rewrite size_list_to_set; [now rewrite length_fmap|]. apply NoDup_fmap_2; [|apply NoDup_elements].
  intros x y Hxy. lia.
Qed.

Lemma idsOf_release U n : idsOf (U ∖ {[n]}) = idsOf U ∖ {[n - 1025]}.
Proof. apply set_eq. intros x. rewrite elem_of_difference, !elem_idsOf, elem_of_difference, !elem_of_singleton. intuition lia. Qed.

Lemma step_holds exact s U s' U' : bitsOf exact s (idsOf U) -> step exact (s, U) (s', U') -> bitsOf exact s' (idsOf U').
Proof.
  intros H Hs. inversion Hs as [? ? n ? E Hn|? ? ? E|? ? n Hn]; subst.
  - destruct (Generate_bits exact s _ H) as [(n' & s2 & E' & G)|(_ & _ & E' & _)]; rewrite E in E'; [|discriminate].
    injection E' as <- <-.
    destruct G as [id Hid Hf _|Hall|]; [|done|done]. replace (idsOf ({[id + 1025]} ∪ U)) with ({[id]} ∪ idsOf U).
    + now apply taken_holds.
    + apply set_eq. intros x. rewrite elem_idsOf, !elem_of_union, elem_idsOf, !elem_of_singleton. intuition lia.
  - destruct (Generate_bits exact s _ H) as [(n' & s2 & E' & G)|(_ & _ & E' & _)]; rewrite E in E'; [|discriminate].
    injection E' as <- <-.
    inversion G as [id Hid Hf _ En| |]; subst; [unfold isId, INVALID_CHANNEL_ID in *; lia|done|done].
  - rewrite idsOf_release. assert (Hu : n ∈ U -> n - 1025 ∈ idsOf U).
    { intros Hi. apply elem_idsOf. now replace (n - 1025 + 1025) with n by lia. }
    destruct (decide (1025 <= n <= 2048)) as [Hr|Hr].
    + replace n with (n - 1025 + 1025) at 1 by lia. apply (Release_bits exact); [exact H|unfold isId; lia|auto].
    + rewrite Release_outside by lia. replace (idsOf U ∖ {[n - 1025]}) with (idsOf U); [exact H|].
      assert (n - 1025 ∉ idsOf U); [|set_solver]. intros Hi%(h_range _ _ H). unfold isId in Hi. lia.
Qed.

Lemma reachable_holds exact s U : rtc (step exact) (freshIds, ∅) (s, U) -> bitsOf exact s (idsOf U).
Proof.
  intros Hr. change (bitsOf exact (s, U).1 (idsOf (s, U).2)). revert Hr. generalize (s, U). clear s U.
  apply rtc_ind_r; [exact (holds_fresh exact)|]. intros [s U] [s' U'] _ Hs H. exact (step_holds _ _ _ _ _ H Hs).
Qed.

Lemma generated_fresh exact s U n s' : bitsOf exact s (idsOf U) -> generated s (idsOf U) n s' ->
  (1025 <= n <= 2048 /\ n ∉ U) \/ (n = INVALID_CHANNEL_ID /\ (1023 <= size U)%nat).
Proof.
  intros H G. rewrite <- idsOf_size. destruct G as [id Hid Hf _|Hall|Hm Hall].
  - left. rewrite elem_idsOf in Hf. unfold isId in Hid. split; [lia|done].
  - right. rewrite Hall, size_allIds. split; [done|lia].
  - right. split; [done|]. assert (Hsub : allIds ∖ {[g_proxyIdMark s]} ⊆ idsOf U).
    { intros t [Ht%elem_allIds Hne]%elem_of_difference. apply Hall; [done|]. set_solver. }
    apply subseteq_size in Hsub. rewrite size_difference, size_allIds, size_singleton in Hsub; [lia|].
    intros t ->%elem_of_singleton. apply elem_allIds, (h_mark _ _ H).
Qed.

(** C29: channel numbers are unique.  However numbers are taken and given back, a
    number that is handed out is between 1025 and 2048 and not in use, and the
    answer is -1 only when at least 1023 of the 1024 numbers are in use.  When
    every number that is given back is in use ([exact]), the search always ends.
    When numbers that are not in use are given back too, which lowers the counter,
    it ends as well, except possibly when all 1024 numbers are in use, where it may
    go on for ever; the lock is available throughout. *)
Theorem channel_ids_unique exact s U : rtc (step exact) (freshIds, ∅) (s, U) ->
  (exists n s', GenerateProxyChannelId true s = Some (n, s') /\
    ((1025 <= n <= 2048 /\ n ∉ U) \/ (n = INVALID_CHANNEL_ID /\ (1023 <= size U)%nat))) \/
  (exact = false /\ size U = 1024%nat /\ GenerateProxyChannelId true s = None /\
   forall fuel, idLoop fuel (u32 (g_proxyIdMark s + 1)) s = None).
Proof.
  intros Hr. pose proof (reachable_holds exact s U Hr) as H.
  destruct (Generate_bits exact s _ H) as [(n & s' & E & G)|(He & HU & Hn)].
  - left. exists n, s'. split; [exact E|]. exact (generated_fresh exact s U n s' H G).
  - right. split; [exact He|]. split; [|exact Hn]. now rewrite <- idsOf_size, HU, size_allIds.
Qed.

(** Two numbers are in use, the first was given back. *)
Lemma channel_ids_unique_witness : exists s n s', rtc (step true) (freshIds, ∅) (s, {[1027]}) /\
  GenerateProxyChannelId true s = Some (n, s') /\ n <> 1027.
Proof.
  assert (Hr : exists s, rtc (step true) (freshIds, ∅) (s, {[1027]})).
  { eexists. eapply rtc_l; [eapply step_generate; [vm_compute; reflexivity|discriminate]|].
    eapply rtc_l; [eapply step_generate; [vm_compute; reflexivity|discriminate]|].
    eapply rtc_l; [apply (step_release _ _ _ 1026); set_solver|].
    replace ({[1027]} : gset Z) with ({[1027]} ∪ ({[1026]} ∪ ∅) ∖ {[1026]} : gset Z); [apply rtc_refl|]. set_solver. }
  destruct Hr as [s Hr]. destruct (channel_ids_unique true s _ Hr) as [(n & s' & E & Hn)|[? _]]; [|discriminate].
  exists s, n, s'. split; [exact Hr|]. split; [exact E|].
  destruct Hn as [[_ Hn]|[-> _]]; [set_solver|discriminate].
Defined.

(** ** Deviations *)

(** The last number handed out is not considered: with every other number in use
    none is found although that one is free. *)
Theorem free_number_missed s U : holds s U -> g_proxyIdMark s <> 0 -> U = allIds ∖ {[g_proxyIdMark s]} ->
  GenerateProxyChannelId true s = Some (INVALID_CHANNEL_ID, s).
Proof.
  intros H Hm HU. unfold GenerateProxyChannelId. cbn [negb]. destruct (_ >=? _); [done|]. rewrite mark_next by apply (h_mark _ _ H).
  apply (idLoop_misses s U H Hm) with (n := 1023%nat); [|lia|lia|unfold searchFuel; lia].
  intros t Ht Hne. rewrite HU. apply elem_of_difference. rewrite elem_allIds, elem_of_singleton. done.
Qed.

End ChannelId.
