(* ===== verification/ProxyState.v ===== *)
(** * Proxy channels: state

    The data of core/transmission/trans_channel/proxy/src/softbus_proxychannel_manager.c
    and softbus_proxychannel_transceiver.c: channels, the connections they share,
    the messages the module posts to its looper, and the monad in which
    [ProxyTable] and [ProxyChannel] write its functions.

    The state has the two lists in the order of the code, the channel numbers in
    use ([ChannelId]), the posted messages, and a trace of the calls to other
    components ([Note]).  What the surroundings answer is a part of it: [locks]
    and [mems] are the answers of the mutexes and of the allocator in the order
    of the calls (an exhausted list answers yes), [answers] are the results of
    the calls to other components (an exhausted list answers SOFTBUS_OK).  Data
    that other components deliver comes from [Env].  A copy between records of
    the same type succeeds.  The model starts after the initialisation of the
    module. *)

From S2P Require Import Prelude ErrorCode Bytes ChannelId.
From stdpp Require Import list.
#[local] Open Scope Z_scope.

Import ChannelId.

Module ProxyState.

(** ** Constants *)

Definition SOFTBUS_TRANS_NODE_NOT_FOUND : Z := SOFTBUS_TRANS_ERR_BASE + 173.
Definition SOFTBUS_TRANS_NOT_MATCH : Z := SOFTBUS_TRANS_ERR_BASE + 166.
Definition SOFTBUS_TRANS_SESSION_INFO_NOT_FOUND : Z := SOFTBUS_TRANS_ERR_BASE + 37.
Definition SOFTBUS_TRANS_PROXY_CONN_ADD_REF_FAILED : Z := SOFTBUS_TRANS_ERR_BASE + 69.
Definition SOFTBUS_TRANS_PROXY_CONN_REPEAT : Z := SOFTBUS_TRANS_ERR_BASE + 68.
Definition SOFTBUS_TRANS_PROXY_CREATE_CHANNEL_FAILED : Z := SOFTBUS_TRANS_ERR_BASE + 74.
Definition SOFTBUS_TRANS_INVALID_CHANNEL_ID : Z := SOFTBUS_TRANS_ERR_BASE + 73.
Definition SOFTBUS_TRANS_PROXY_INVALID_CHANNEL_ID : Z := SOFTBUS_TRANS_ERR_BASE + 118.
Definition SOFTBUS_TRANS_PROXY_DISCONNECTED : Z := SOFTBUS_TRANS_ERR_BASE + 65.
Definition SOFTBUS_TRANS_HANDSHAKE_TIMEOUT : Z := SOFTBUS_TRANS_ERR_BASE + 62.
Definition SOFTBUS_TRANS_PEER_SESSION_NOT_CREATED : Z := SOFTBUS_TRANS_ERR_BASE + 64.
Definition SOFTBUS_TRANS_CHECK_ACL_FAILED : Z := SOFTBUS_TRANS_ERR_BASE + 16.
Definition SOFTBUS_TRANS_PROXY_ERROR_APP_TYPE : Z := SOFTBUS_TRANS_ERR_BASE + 67.
Definition SOFTBUS_TRANS_AUTH_NOTALLOW_OPENED : Z := SOFTBUS_TRANS_ERR_BASE + 66.
Definition SOFTBUS_TRANS_BAD_KEY : Z := SOFTBUS_TRANS_ERR_BASE + 105.
Definition SOFTBUS_TRANS_HANDSHAKE_ERROR : Z := SOFTBUS_TRANS_ERR_BASE + 63.
Definition SOFTBUS_TRANS_CHECK_PID_ERROR : Z := SOFTBUS_TRANS_ERR_BASE + 106.
Definition SOFTBUS_TRANS_OPEN_CHANNEL_NEGTIATE_TIMEOUT : Z := SOFTBUS_TRANS_ERR_BASE + 258.
Definition SOFTBUS_TRANS_PROXY_CHANNEL_NOT_FOUND : Z := SOFTBUS_TRANS_ERR_BASE + 52.
Definition SOFTBUS_TRANS_PROXY_CHANNLE_STATUS_INVALID : Z := SOFTBUS_TRANS_ERR_BASE + 19.
Definition SOFTBUS_TRANS_NOT_NEED_CHECK_RELATION : Z := SOFTBUS_TRANS_ERR_BASE + 261.
Definition SOFTBUS_TRANS_BLOCK_MODE_REJECTED : Z := SOFTBUS_TRANS_ERR_BASE + 306.
Definition SOFTBUS_TRANS_GEN_USER_KEY : Z := SOFTBUS_TRANS_ERR_BASE + 272.
Definition SOFTBUS_PERMISSION_SERVER_DENIED : Z := SOFTBUS_PUBLIC_ERR_BASE + 77.
Definition SOFTBUS_CONN_MANAGER_TYPE_NOT_SUPPORT : Z := SOFTBUS_CONN_ERR_BASE + 2.
Definition SOFTBUS_TRANS_INVALID_CONNECT_TYPE : Z := SOFTBUS_TRANS_ERR_BASE + 248.
Definition SOFTBUS_GET_CONFIG_VAL_ERR : Z := SOFTBUS_PUBLIC_ERR_BASE + 26.
Definition AUTH_SUB_MODULE_CODE : Z := 3.
Definition SOFTBUS_AUTH_ACL_NOT_FOUND : Z := Eval vm_compute in SOFTBUS_ERRNO AUTH_SUB_MODULE_CODE + 133.

Definition PROXY_CHANNEL_STATUS_PYH_CONNECTED : Z := 0.
Definition PROXY_CHANNEL_STATUS_PYH_CONNECTING : Z := 1.
Definition PROXY_CHANNEL_STATUS_HANDSHAKEING : Z := 2.
Definition PROXY_CHANNEL_STATUS_KEEPLIVEING : Z := 3.
Definition PROXY_CHANNEL_STATUS_TIMEOUT : Z := 4.
Definition PROXY_CHANNEL_STATUS_HANDSHAKE_TIMEOUT : Z := 5.
Definition PROXY_CHANNEL_STATUS_CONNECTING_TIMEOUT : Z := 6.
Definition PROXY_CHANNEL_STATUS_COMPLETED : Z := 7.

Definition PROXYCHANNEL_MSG_TYPE_NORMAL : Z := 0.
Definition PROXYCHANNEL_MSG_TYPE_HANDSHAKE : Z := 1.
Definition PROXYCHANNEL_MSG_TYPE_HANDSHAKE_ACK : Z := 2.
Definition PROXYCHANNEL_MSG_TYPE_RESET : Z := 3.
Definition PROXYCHANNEL_MSG_TYPE_KEEPALIVE : Z := 4.
Definition PROXYCHANNEL_MSG_TYPE_KEEPALIVE_ACK : Z := 5.
Definition PROXYCHANNEL_MSG_TYPE_HANDSHAKE_AUTH : Z := 6.

Definition APP_TYPE_NORMAL : Z := 1.
Definition APP_TYPE_AUTH : Z := 2.
Definition APP_TYPE_INNER : Z := 3.

Definition CONNECT_TCP : Z := 1.
Definition CONNECT_BR : Z := 2.
Definition CONNECT_BLE : Z := 3.
Definition CONNECT_BLE_DIRECT : Z := 6.
Definition CONNECT_SLE : Z := 9.
Definition CONNECT_SLE_DIRECT : Z := 10.
Definition CONNECT_RAW_BLE_DIRECT : Z := 15.
Definition CONNECT_TYPE_MAX : Z := 16.

Definition D2D_CHANNEL_CONTROL_TIMEOUT : Z := 60.
Definition PROXY_CHANNEL_CONTROL_TIMEOUT : Z := 19.
Definition ENCRYPTED : Z := 1.
Definition BAD_CIPHER : Z := 8.
Definition CS_MODE : Z := 16.
Definition AUTH_SINGLE_CIPHER : Z := 40.

Definition CHANNEL_OPEN_SUCCESS : Z := 100.
Definition LOOPER_REPLY_CNT_MAX : Z := 38.
Definition LOOPER_SEPARATE_CNT : Z := 10.
Definition FAST_INTERVAL_MILLISECOND : Z := 100.
Definition SLOW_INTERVAL_MILLISECOND : Z := 500.

Definition PROXY_CHANNEL_CLIENT : Z := 0.
Definition PROXY_CHANNEL_SERVER : Z := 1.
Definition IDENTITY_LEN : Z := 32.
Definition BUSINESS_TYPE_MESSAGE : Z := 1.
Definition BUSINESS_TYPE_BYTE : Z := 2.
Definition WIFI_STA : Z := 1.
Definition BT_BR : Z := 3.
Definition BT_BLE : Z := 4.
Definition BT_SLE : Z := 8.
Definition KEY_TYPE_DEFAULT : Z := 0.
Definition KEY_TYPE_NORMAL : Z := 1.
Definition KEY_TYPE_META : Z := 2.
Definition ACEESS_TOKEN_TYPE_INVALID : Z := -1.
Definition ACCESS_TOKEN_TYPE_HAP : Z := 0.
Definition TOKENID_NOT_SET : Z := 0.
Definition INVALID_USER_ID : Z := -1.
Definition OH_OS_TYPE : Z := 10.
Definition TRANS_FLAG_HAS_CHANNEL_AUTH : Z := 2.
Definition TRANS_CHANNEL_SINK_GENERATE_KEY_OFFSET : Z := 2.
Definition TRANS_CHANNEL_SINK_KEY_ENCRYPT_OFFSET : Z := 3.
Definition TRANS_CHANNEL_ACL_CHECK_OFFSET : Z := 4.
Definition BLE_PRIORITY_DEFAULT : Z := 0.
Definition BLE_PRIORITY_BALANCED : Z := 1.
Definition BLE_PRIORITY_HIGH : Z := 2.
Definition BLE_PRIORITY_LOW_POWER : Z := 3.
Definition BLE_PRIORITY_MAX : Z := 4.
Definition CONN_BLE_PRIORITY_BALANCED : Z := 0.
Definition CONN_BLE_PRIORITY_HIGH : Z := 1.
Definition CONN_BLE_PRIORITY_LOW_POWER : Z := 2.
Definition LANE_BR : Z := 0.
Definition SESSION_KEY_LENGTH : nat := 32.

(** Bits of a capability word. *)
Definition EnableCapabilityBit (value offSet : Z) : Z := Z.lor value (u32 (Z.shiftl 1 offSet)).
Definition DisableCapabilityBit (value offSet : Z) : Z := Z.land value (u32 (Z.lnot (Z.shiftl 1 offSet))).
Definition GetCapabilityBit (value offSet : Z) : bool := negb (Z.land (Z.shiftr value offSet) 1 =? 0).

(** ** Data *)

(** [appInfo.peerData]. *)
Record PeerData := mkPeerData {
  pdChannelId : Z;
  pdDeviceId : list Byte.byte;
  pdDataConfig : Z;
  pdSessionName : list Byte.byte;
  pdPkgName : list Byte.byte
}.
#[export] Instance eta_PeerData : Eta PeerData := mkEta _ (fun x => mkPeerData (pdChannelId x) (pdDeviceId x)
  (pdDataConfig x) (pdSessionName x) (pdPkgName x)).

(** The fields of [AppInfo] that the functions use; those of its member [myData] stand
    from [uid] to [userKeyId].  [fastTransData]: the pointer is not NULL. *)
Record AppInfo := mkAppInfo {
  appType : Z;
  businessType : Z;
  routeType : Z;
  linkType : Z;
  encrypt : Z;
  algorithm : Z;
  crc : Z;
  peerHandleId : Z;
  myHandleId : Z;
  channelCapability : Z;
  sessionKey : list Byte.byte;
  sinkSessionKey : list Byte.byte;
  fastTransData : bool;
  fastTransDataSize : Z;
  waitOpenReplyCnt : Z;
  blePriority : Z;
  keyType : Z;
  callingTokenId : Z;
  transFlag : Z;
  authSeq : Z;
  peerNetWorkId : list Byte.byte;
  uid : Z;
  pid : Z;
  pkgName : list Byte.byte;
  sessionName : list Byte.byte;
  deviceId : list Byte.byte;
  dataConfig : Z;
  tokenType : Z;
  userId : Z;
  tokenId : Z;
  accountId : list Byte.byte;
  userKeyId : Z;
  peerData : PeerData
}.
#[export] Instance eta_AppInfo : Eta AppInfo := mkEta _ (fun x => mkAppInfo (appType x) (businessType x)
  (routeType x) (linkType x) (encrypt x) (algorithm x) (crc x) (peerHandleId x) (myHandleId x)
  (channelCapability x) (sessionKey x) (sinkSessionKey x) (fastTransData x) (fastTransDataSize x)
  (waitOpenReplyCnt x) (blePriority x) (keyType x) (callingTokenId x) (transFlag x) (authSeq x) (peerNetWorkId
  x) (uid x) (pid x) (pkgName x) (sessionName x) (deviceId x) (dataConfig x) (tokenType x) (userId x) (tokenId
  x) (accountId x) (userKeyId x) (peerData x)).

Record ProxyChannelInfo := mkChan {
  deviceTypeIsWinpc : bool;
  identity : list Byte.byte;
  isServer : Z;
  isD2D : bool;
  isFork : bool;
  status : Z;
  timeout : Z;
  myId : Z;
  peerId : Z;
  type : Z;
  bleProtocolType : Z;
  sleProtocolType : Z;
  connId : Z;
  channelId : Z;
  reqId : Z;
  authReqId : Z;
  authHandle : Z * Z;
  appInfo : AppInfo
}.
#[export] Instance eta_ProxyChannelInfo : Eta ProxyChannelInfo := mkEta _ (fun x => mkChan (deviceTypeIsWinpc
  x) (identity x) (isServer x) (isD2D x) (isFork x) (status x) (timeout x) (myId x) (peerId x) (type x)
  (bleProtocolType x) (sleProtocolType x) (connId x) (channelId x) (reqId x) (authReqId x) (authHandle x)
  (appInfo x)).

(** The union as one field for each of its members; the code reads the member that
    [coType] selects. *)
Record ConnectOption := mkOption {
  coType : Z;
  addr : list Byte.byte;
  port : Z;
  protocol : Z;
  moduleId : Z;
  brMac : list Byte.byte;
  bleMac : list Byte.byte;
  bleProtocol : Z;
  psm : Z;
  deviceIdHash : list Byte.byte;
  bleNetworkId : list Byte.byte;
  bleProtoType : Z;
  sleNetworkId : list Byte.byte;
  sleProtoType : Z;
  sleAddress : list Byte.byte;
  sleOptNetworkId : list Byte.byte
}.
#[export] Instance eta_ConnectOption : Eta ConnectOption := mkEta _ (fun x => mkOption (coType x) (addr x)
  (port x) (protocol x) (moduleId x) (brMac x) (bleMac x) (bleProtocol x) (psm x) (deviceIdHash x)
  (bleNetworkId x) (bleProtoType x) (sleNetworkId x) (sleProtoType x) (sleAddress x) (sleOptNetworkId x)).

Record ConnectionInfo := mkConnInfo {
  ciType : Z;
  ciBrMac : list Byte.byte;
  ciBleMac : list Byte.byte;
  ciDeviceIdHash : list Byte.byte;
  ciBleProtocol : Z;
  ciSleAddress : list Byte.byte;
  ciSleNetworkId : list Byte.byte;
  ciSleProtocol : Z;
  ciAddr : list Byte.byte;
  ciProtocol : Z;
  ciPort : Z;
  ciModuleId : Z
}.
#[export] Instance eta_ConnectionInfo : Eta ConnectionInfo := mkEta _ (fun x => mkConnInfo (ciType x) (ciBrMac
  x) (ciBleMac x) (ciDeviceIdHash x) (ciBleProtocol x) (ciSleAddress x) (ciSleNetworkId x) (ciSleProtocol x)
  (ciAddr x) (ciProtocol x) (ciPort x) (ciModuleId x)).

Record ProxyConnInfo := mkConn {
  requestId : Z;
  pcConnId : Z;
  ref : Z;
  state : Z;
  isServerSide : bool;
  connInfo : ConnectOption
}.
#[export] Instance eta_ProxyConnInfo : Eta ProxyConnInfo := mkEta _ (fun x => mkConn (requestId x) (pcConnId
  x) (ref x) (state x) (isServerSide x) (connInfo x)).

(** [ProxyMessage] with its head. *)
Record ProxyMessage := mkMsg {
  msgType : Z;
  cipher : Z;
  msgMyId : Z;
  msgPeerId : Z;
  msgConnId : Z;
  keyIndex : Z;
  msgAuthHandle : Z * Z;
  data : list Byte.byte
}.

Record AccessInfo := mkAccess { accUserId : Z; localTokenId : Z }.

Definition NO_PEER : PeerData := mkPeerData 0 [] 0 [] [].
Definition NO_APP : AppInfo :=
  mkAppInfo 0 0 0 0 0 0 0 0 0 0 [] [] false 0 0 0 0 0 0 0 [] 0 0 [] [] [] 0 0 0 0 [] 0 NO_PEER.
(** A record of zeros, as [SoftBusCalloc] gives it. *)
Definition NO_CHAN : ProxyChannelInfo :=
  mkChan false [] 0 false false 0 0 0 0 0 0 0 0 0 0 0 (0, 0) NO_APP.
Definition NO_OPTION : ConnectOption := mkOption 0 [] 0 0 0 [] [] 0 0 [] [] 0 [] 0 [] [].

(** [memset_s] over both session keys. *)
Definition wipeKeys (a : AppInfo) : AppInfo :=
  a <| sessionKey := replicate SESSION_KEY_LENGTH Byte.x00 |>
    <| sinkSessionKey := replicate SESSION_KEY_LENGTH Byte.x00 |>.

(** The messages of the looper. *)
Inductive LoopMsg :=
| LOOP_HANDSHAKE_MSG (channelId : Z)
| LOOP_DISCONNECT_MSG (isServer : bool) (connId : Z) (chan : ProxyChannelInfo)
| LOOP_OPENFAIL_MSG (errCode : Z) (chan : ProxyChannelInfo)
| LOOP_OPENCLOSE_MSG (chan : ProxyChannelInfo)
| LOOP_KEEPALIVE_MSG (chan : ProxyChannelInfo)
| LOOP_RESETPEER_MSG (chan : ProxyChannelInfo).

(** Calls to other components. *)
Inductive Note :=
| OnProxyChannelOpened (channelId : Z) (appInfo : AppInfo) (isServer : Z)
| OnProxyChannelOpenFailed (channelId : Z) (appInfo : AppInfo) (errCode : Z)
| OnProxyChannelClosed (channelId : Z) (appInfo : AppInfo)
| OnProxyChannelBind (channelId : Z) (appInfo : AppInfo)
| OnProxyChannelMsgReceived (channelId : Z) (appInfo : AppInfo) (data : list Byte.byte)
| NotifyClientMsgReceived (pkgName : list Byte.byte) (pid channelId : Z)
| ConnDisconnectDevice (connId : Z)
| ConnConnectDevice (connInfo : ConnectOption) (requestId : Z)
| ConnUpdateConnection (connId priority : Z)
| TransProxyAckHandshake (connId : Z) (chan : ProxyChannelInfo) (retCode : Z)
| TransPagingAckHandshake (chan : ProxyChannelInfo) (retCode : Z)
| TransProxyHandshake (chan : ProxyChannelInfo)
| TransProxyResetPeer (chan : ProxyChannelInfo)
| TransProxyKeepalive (connId : Z) (chan : ProxyChannelInfo)
| TransProxyAckKeepalive (chan : ProxyChannelInfo)
| TransNegotiateSessionKey (channelId : Z) (peerNetworkId : list Byte.byte)
| TransReNegotiateSessionKey (channelId : Z)
| TransD2dQosUnregister (channelId : Z) (address : list Byte.byte)
| RemoveAuthSessionKeyByIndex (authId keyIndex linkType : Z)
| AuthSessionProcessAuthData (authSeq : Z) (data : list Byte.byte)
| TransAddTimestampToList (mySession peerSession peerNetWorkId : list Byte.byte)
| CheckCollabRelation (appInfo : AppInfo) (channelId : Z)
| TransCheckChannelOpenToLooperDelay (channelId delayTime : Z)
| TransCheckChannelOpenRemoveFromLooper (channelId : Z)
| GetUserkeyIdByAClInfo (appInfo : AppInfo) (channelId : Z)
| GenerateKey.

(** [chans], [cnt]: g_proxyChannelList; [conns], [connCnt]: g_proxyConnectionList. *)
Record World := mkWorld {
  ids : Ids;
  chans : list ProxyChannelInfo;
  cnt : Z;
  conns : list ProxyConnInfo;
  connCnt : Z;
  posted : list LoopMsg;
  notes : list Note;
  locks : list bool;
  mems : list bool;
  answers : list Z
}.
#[export] Instance eta_World : Eta World := mkEta _ (fun x => mkWorld (ids x) (chans x) (cnt x) (conns x)
  (connCnt x) (posted x) (notes x) (locks x) (mems x) (answers x)).

(** The keys of SoftbusGetConfig. *)
Inductive ConfigType :=
| SOFTBUS_INT_AUTH_MAX_BYTES_LENGTH
| SOFTBUS_INT_AUTH_MAX_MESSAGE_LENGTH
| SOFTBUS_INT_MAX_BYTES_NEW_LENGTH
| SOFTBUS_INT_MAX_MESSAGE_NEW_LENGTH
| SOFTBUS_INT_D2D_MAX_VOICE_LENGTH
| SOFTBUS_INT_D2D_MAX_MESSAGE_LENGTH
| SOFTBUS_INT_PROXY_MAX_BYTES_LENGTH
| SOFTBUS_INT_PROXY_MAX_MESSAGE_LENGTH.

(** What other components deliver: a result code with data, or [None] for a failure
    whose code is not used.  Packed messages are taken apart by
    softbus_proxychannel_message.c, which sets the identity and the [AppInfo]. *)
Record Env := mkEnv {
  ConnGetConnectionInfo : Z -> Z * ConnectionInfo;
  ConnGetTypeByConnectionId : Z -> option Z;
  GetAuthConnInfoByConnId : Z -> Z;
  ConnGetNewRequestId : Z;
  TransProxyUnpackHandshakeMsg : list Byte.byte -> Z * (list Byte.byte * AppInfo);
  TransProxyUnpackHandshakeAckMsg : list Byte.byte -> ProxyChannelInfo -> Z * (list Byte.byte * AppInfo);
  TransProxyUnPackHandshakeErrMsg : list Byte.byte -> option Z;
  TransProxyUnPackRestErrMsg : list Byte.byte -> option Z;
  TransProxyUnpackIdentity : list Byte.byte -> option (list Byte.byte);
  LnnGetNetworkIdByUuid : list Byte.byte -> option (list Byte.byte);
  GetOsTypeByNetworkId : list Byte.byte -> Z;
  LnnGetLocalStrInfo : bool -> Z * list Byte.byte;
  TransProxyGetPkgName : list Byte.byte -> option (list Byte.byte);
  TransProxyGetUidAndPidBySessionName : list Byte.byte -> option (Z * Z);
  GetTokenTypeBySessionName : list Byte.byte -> Z * Z;
  FillHapSinkAclInfoToAppInfo : AppInfo -> AppInfo;
  CheckSessionNameValidOnAuthChannel : list Byte.byte -> bool;
  TransCheckServerAccessControl : AppInfo -> Z;
  TransCheckServerPermission : list Byte.byte -> list Byte.byte -> Z;
  SoftbusGetConfig : ConfigType -> option Z;
  GetAuthManagerType : Z -> option bool;
  GetLocalAccountUidByUserId : Z -> list Byte.byte;
  LnnIsOsAccountConstraint : bool;
  SoftBusSaCanUseDeviceKey : Z -> bool;
  aclUserKeyId : Z;
  dmsPid : Z;
  randomIdentity : list Byte.byte;
  randomKey : list Byte.byte
}.

(** ** The monad

    [None] is a search for a channel number that does not end. *)

Definition M (A : Type) : Type := World -> option (A * World).

#[export] Instance M_ret : MRet M := fun _ x w => Some (x, w).
#[export] Instance M_bind : MBind M := fun _ _ k m w => match m w with Some (x, w') => k x w' | None => None end.

Definition get {A} (f : World -> A) : M A := fun w => Some (f w, w).
Definition modify (f : World -> World) : M unit := fun w => Some (tt, f w).

(** SoftBusMutexLock; the lock is given back at the end of the critical section. *)
Definition lock : M bool := fun w =>
  match locks w with [] => Some (true, w) | b :: r => Some (b, w <| locks := r |>) end.

Definition calloc : M bool := fun w =>
  match mems w with [] => Some (true, w) | b :: r => Some (b, w <| mems := r |>) end.

(** A call to another component, and its result. *)
Definition tell (n : Note) : M unit := modify (fun w => w <| notes := notes w ++ [n] |>).
Definition result : M Z := fun w =>
  match answers w with [] => Some (SOFTBUS_OK, w) | z :: r => Some (z, w <| answers := r |>) end.
Definition call (n : Note) : M Z := tell n;; result.

(** The body of a function that starts by taking the lock and answers [fail] when that
    is not possible. *)
Definition locked {A} (fail : A) (body : M A) : M A := l ← lock; if (l : bool) then body else mret fail.

(** GenerateChannelId(false) and ReleaseProxyChannelId on the channel numbers. *)
Definition newChannelId : M Z :=
  l ← lock;
  (fun w => match GenerateChannelId false l (ids w) with
            | Some (n, s) => Some (n, w <| ids := s |>)
            | None => None
            end) : M Z.

Definition releaseChannelId (n : Z) : M unit :=
  if (n <? MIN_FD_ID) || (n >? MAX_FD_ID) then mret tt
  else l ← lock; modify (fun w => w <| ids := ReleaseProxyChannelId l n (ids w) |>).

(** ** Lists *)

(** The first element that satisfies [p] is changed, or removed. *)
Fixpoint updFirst {A} (p : A -> bool) (f : A -> A) (l : list A) : list A :=
  match l with [] => [] | x :: r => if p x then f x :: r else x :: updFirst p f r end.
Fixpoint delFirst {A} (p : A -> bool) (l : list A) : list A :=
  match l with [] => [] | x :: r => if p x then r else x :: delFirst p r end.

Definition findChan (p : ProxyChannelInfo -> bool) : M (option ProxyChannelInfo) :=
  get (fun w => find p (chans w)).
Definition updChan (p : ProxyChannelInfo -> bool) (f : ProxyChannelInfo -> ProxyChannelInfo) : M unit :=
  modify (fun w => w <| chans := updFirst p f (chans w) |>).

(** One round of a loop for each element. *)
Fixpoint forEach {A} (f : A -> M unit) (l : list A) : M unit :=
  match l with [] => mret tt | x :: r => f x;; forEach f r end.

(** Strings are without the terminating zero; equal strings are equal lists. *)
Definition sameBytes (a b : list Byte.byte) : bool := bool_decide (a = b).

End ProxyState.
