(* ===== verification/ProxyTable.v ===== *)
(** * Proxy channels: the tables

    The functions of softbus_proxychannel_manager.c and
    softbus_proxychannel_transceiver.c (core/transmission/trans_channel/proxy/src)
    that read and change the table of channels and the table of connections under
    their locks, and the functions that post messages to the looper.

    An output parameter is a part of the result, [None] where it is not written. *)

From S2P Require Import Prelude ErrorCode Bytes ChannelId ProxyState.
From stdpp Require Import list.
#[local] Open Scope Z_scope.

Import ChannelId ProxyState.

Module ProxyTable.

(** ** Helpers of the loops *)

Definition chanIs (n : Z) (c : ProxyChannelInfo) : bool := channelId c =? n.

(** All elements that satisfy [p] leave the list; they are in the order of the list. *)
Definition takeChans (p : ProxyChannelInfo -> bool) : M (list ProxyChannelInfo) :=
  l ← get chans;
  let out := List.filter p l in
  modify (fun w => w <| chans := List.filter (fun c => negb (p c)) l |>
                     <| cnt := u32 (cnt w - Z.of_nat (length out)) |>);;
  mret out.

(** The first one leaves. *)
Definition takeChan (p : ProxyChannelInfo -> bool) : M (option ProxyChannelInfo) :=
  o ← findChan p;
  match o with
  | Some c =>
      modify (fun w => w <| chans := delFirst p (chans w) |> <| cnt := u32 (cnt w - 1) |>);;
      mret (Some c)
  | None => mret None
  end.

(** ** Messages to the looper *)

Definition PostMessage (m : LoopMsg) : M unit := modify (fun w => w <| posted := posted w ++ [m] |>).

Definition TransProxyCreateLoopMsg (m : LoopMsg) : M unit :=
  ok ← calloc; if (ok : bool) then PostMessage m else mret tt.

Definition TransProxyPostResetPeerMsgToLoop (chan : ProxyChannelInfo) : M unit :=
  TransProxyCreateLoopMsg (LOOP_RESETPEER_MSG chan).
Definition TransProxyPostHandshakeMsgToLoop (id : Z) : M unit :=
  ok ← calloc; if (ok : bool) then TransProxyCreateLoopMsg (LOOP_HANDSHAKE_MSG id) else mret tt.
Definition TransProxyPostDisConnectMsgToLoop (conn : Z) (server : bool) (chan : ProxyChannelInfo) : M unit :=
  TransProxyCreateLoopMsg (LOOP_DISCONNECT_MSG server conn chan).
Definition TransProxyPostKeepAliveMsgToLoop (chan : ProxyChannelInfo) : M unit :=
  TransProxyCreateLoopMsg (LOOP_KEEPALIVE_MSG chan).
Definition TransProxyPostOpenFailMsgToLoop (chan : ProxyChannelInfo) (errCode : Z) : M unit :=
  TransProxyCreateLoopMsg (LOOP_OPENFAIL_MSG errCode chan).
Definition TransProxyPostOpenClosedMsgToLoop (chan : ProxyChannelInfo) : M unit :=
  TransProxyCreateLoopMsg (LOOP_OPENCLOSE_MSG chan).

(** ** The table of connections *)

(** [strcasecmp] is zero. *)
Definition lower (b : Byte.byte) : Byte.byte :=
  let n := Byte.to_N b in
  if (65 <=? n)%N && (n <=? 90)%N then match Byte.of_N (n + 32) with Some c => c | None => b end else b.
Definition sameNoCase (a b : list Byte.byte) : bool := sameBytes (map lower a) (map lower b).

Definition CompareConnectOption (item conn : ConnectOption) : bool :=
  if coType conn =? CONNECT_TCP then
    (protocol conn =? protocol item) && sameNoCase (addr conn) (addr item) && (port conn =? port item)
  else if coType conn =? CONNECT_BR then sameNoCase (brMac conn) (brMac item)
  else if coType conn =? CONNECT_BLE then
    sameNoCase (bleMac conn) (bleMac item) && (bleProtocol conn =? bleProtocol item) && (psm conn =? psm item)
  else if coType conn =? CONNECT_BLE_DIRECT then
    sameBytes (bleNetworkId conn) (bleNetworkId item) && (bleProtoType conn =? bleProtoType item)
  else if coType conn =? CONNECT_SLE_DIRECT then
    sameBytes (sleNetworkId conn) (sleNetworkId item) && (sleProtoType conn =? sleProtoType item)
  else false.

Definition connecting (request : Z) (c : ProxyConnInfo) : bool :=
  (requestId c =? request) && (state c =? PROXY_CHANNEL_STATUS_PYH_CONNECTING).
Definition ofConn (conn : Z) (server : bool) (c : ProxyConnInfo) : bool :=
  (pcConnId c =? conn) && Bool.eqb (isServerSide c) server.

Definition delConn (p : ProxyConnInfo -> bool) : M unit :=
  modify (fun w => w <| conns := delFirst p (conns w) |> <| connCnt := u32 (connCnt w - 1) |>).
Definition addConn (c : ProxyConnInfo) : M unit :=
  modify (fun w => w <| conns := c :: conns w |> <| connCnt := u32 (connCnt w + 1) |>).
Definition updConn (p : ProxyConnInfo -> bool) (f : ProxyConnInfo -> ProxyConnInfo) : M unit :=
  modify (fun w => w <| conns := updFirst p f (conns w) |>).

Definition TransDelConnByReqId (request : Z) : M Z :=
  locked SOFTBUS_LOCK_ERR (
    l ← get conns;
    (if existsb (connecting request) l then delConn (connecting request) else mret tt);;
    mret SOFTBUS_OK).

Definition TransDelConnByConnId (conn : Z) : M unit :=
  if conn =? 0 then mret tt
  else locked tt (
    modify (fun w =>
      let p := fun c => pcConnId c =? conn in
      w <| conns := List.filter (fun c => negb (p c)) (conns w) |>
        <| connCnt := u32 (connCnt w - Z.of_nat (length (List.filter p (conns w)))) |>)).

Definition TransDecConnRefByConnId (conn : Z) (server d2d : bool) : M Z :=
  if conn =? 0 then mret SOFTBUS_NO_INIT
  else locked SOFTBUS_LOCK_ERR (
    let p := fun c => (pcConnId c =? conn) && (d2d || Bool.eqb (isServerSide c) server) in
    l ← get conns;
    match find p l with
    | Some c =>
        if s32 (ref c - 1) <=? 0 then delConn p;; mret SOFTBUS_OK
        else updConn p (fun c => c <| ref := s32 (ref c - 1) |>);; mret SOFTBUS_TRANS_NOT_MATCH
    | None => mret SOFTBUS_OK
    end).

Definition TransAddConnRefByConnId (conn : Z) (server : bool) : M Z :=
  locked SOFTBUS_LOCK_ERR (
    l ← get conns;
    if existsb (ofConn conn server) l then
      updConn (ofConn conn server) (fun c => c <| ref := s32 (ref c + 1) |>);; mret SOFTBUS_OK
    else mret SOFTBUS_TRANS_PROXY_CONN_ADD_REF_FAILED).

Definition TransAddConnItem (conn : ProxyConnInfo) : M Z :=
  locked SOFTBUS_LOCK_ERR (
    l ← get conns;
    if existsb (fun item => Bool.eqb (isServerSide item) (isServerSide conn) &&
                            (coType (connInfo item) =? coType (connInfo conn)) &&
                            CompareConnectOption (connInfo item) (connInfo conn)) l
    then mret SOFTBUS_TRANS_NOT_MATCH
    else addConn conn;; mret SOFTBUS_OK).

Definition TransConnInfoToConnOpt (info : ConnectionInfo) (o : ConnectOption) : ConnectOption :=
  let o := o <| coType := ciType info |> in
  if coType o =? CONNECT_BR then o <| brMac := ciBrMac info |>
  else if coType o =? CONNECT_BLE then o <| bleMac := ciBleMac info |> <| deviceIdHash := ciDeviceIdHash info |>
  else if coType o =? CONNECT_SLE then
    o <| sleAddress := ciSleAddress info |> <| sleOptNetworkId := ciSleNetworkId info |>
  else o <| addr := ciAddr info |> <| protocol := ciProtocol info |> <| port := ciPort info |>
         <| moduleId := ciModuleId info |>.

Definition TransCreateConnByConnId (env : Env) (conn : Z) (server : bool) : M unit :=
  let '(ret, info) := ConnGetConnectionInfo env conn in
  if negb (ret =? SOFTBUS_OK) then mret tt
  else locked tt (
    l ← get conns;
    if existsb (ofConn conn server) l then
      updConn (ofConn conn server) (fun c => c <| ref := s32 (ref c + 1) |>)
    else
      ok ← calloc;
      if negb ok then mret tt
      else addConn (mkConn 0 conn 1 PROXY_CHANNEL_STATUS_PYH_CONNECTED server
                      (TransConnInfoToConnOpt info NO_OPTION))).

Definition TransGetConn (info : ConnectOption) (server : bool) : M (Z * option ProxyConnInfo) :=
  locked (SOFTBUS_LOCK_ERR, None) (
    l ← get conns;
    match find (fun item => (coType (connInfo item) =? coType info) && Bool.eqb (isServerSide item) server &&
                            CompareConnectOption (connInfo item) info) l with
    | Some c => mret (SOFTBUS_OK, Some c)
    | None => mret (SOFTBUS_TRANS_NOT_MATCH, None)
    end).

Definition TransSetConnStateByReqId (request conn st : Z) : M Z :=
  locked SOFTBUS_LOCK_ERR (
    l ← get conns;
    if existsb (connecting request) l then
      updConn (connecting request)
        (fun c => c <| state := st |> <| pcConnId := conn |> <| requestId := 0 |>);;
      mret SOFTBUS_OK
    else
      call (ConnDisconnectDevice conn);;
      mret SOFTBUS_TRANS_SESSION_INFO_NOT_FOUND).

Definition TransProxyGetConnInfoByConnId (conn : Z) : M (Z * option ConnectOption) :=
  locked (SOFTBUS_LOCK_ERR, None) (
    l ← get conns;
    match find (fun item => pcConnId item =? conn) l with
    | Some c => mret (SOFTBUS_OK, Some (connInfo c))
    | None => mret (SOFTBUS_TRANS_SESSION_INFO_NOT_FOUND, None)
    end).

Definition TransProxyCloseConnChannel (conn : Z) (server d2d : bool) : M Z :=
  r ← TransDecConnRefByConnId conn server d2d;
  (if r =? SOFTBUS_OK then call (ConnDisconnectDevice conn);; mret tt else mret tt);;
  mret SOFTBUS_OK.

Definition TransProxyCloseConnChannelReset (conn : Z) (disconnect server winpc d2d : bool) : M Z :=
  r ← TransDecConnRefByConnId conn server d2d;
  (if (r =? SOFTBUS_OK) && (disconnect && negb winpc) then call (ConnDisconnectDevice conn);; mret tt
   else mret tt);;
  mret SOFTBUS_OK.

(** ** The table of channels *)

(** [strncmp] over the whole array. *)
Definition ChanIsEqual (a b : ProxyChannelInfo) : bool :=
  (myId a =? myId b) && (peerId a =? peerId b) && sameBytes (identity a) (identity b).

Definition ResetChanIsEqual (st : Z) (a b : ProxyChannelInfo) : bool :=
  if (st =? PROXY_CHANNEL_STATUS_HANDSHAKEING) && ((myId a =? myId b) && sameBytes (identity a) (identity b))
  then true
  else (myId a =? myId b) && (peerId a =? peerId b) && sameBytes (identity a) (identity b).

Definition TransProxyGetAppInfoType (id : Z) (ident : list Byte.byte) : M (Z * option Z) :=
  locked (SOFTBUS_LOCK_ERR, None) (
    o ← findChan (fun item => (myId item =? id) && sameBytes (identity item) ident);
    match o with
    | Some item => mret (SOFTBUS_OK, Some (appType (appInfo item)))
    | None => mret (SOFTBUS_TRANS_PROXY_ERROR_APP_TYPE, None)
    end).

(** What the acknowledgement [info] changes in the channel. *)
Definition ackItem (info item : ProxyChannelInfo) : ProxyChannelInfo :=
  let a := appInfo info in
  item <| peerId := peerId info |> <| status := PROXY_CHANNEL_STATUS_COMPLETED |> <| timeout := 0 |>
       <| appInfo := (appInfo item) <| encrypt := encrypt a |> <| algorithm := algorithm a |> <| crc := crc a |>
                       <| dataConfig := dataConfig a |> <| peerHandleId := peerHandleId a |>
                       <| channelCapability := channelCapability a |> <| sinkSessionKey := sinkSessionKey a |>
                       <| peerData := peerData a |> |>.

Definition TransProxyUpdateAckInfo (info : ProxyChannelInfo) : M (Z * ProxyChannelInfo) :=
  locked (SOFTBUS_LOCK_ERR, info) (
    let p := fun item => (myId item =? myId info) && sameBytes (identity item) (identity info) in
    o ← findChan p;
    match o with
    | Some item => updChan p (ackItem info);; mret (SOFTBUS_OK, ackItem info item)
    | None => mret (SOFTBUS_TRANS_NODE_NOT_FOUND, info)
    end).

Definition TransProxyAddChanItem (chan : ProxyChannelInfo) : M Z :=
  locked SOFTBUS_LOCK_ERR (
    modify (fun w => w <| chans := chan :: chans w |> <| cnt := u32 (cnt w + 1) |>);;
    mret SOFTBUS_OK).

Definition specialUpdate (info item : ProxyChannelInfo) : ProxyChannelInfo :=
  let item := if negb (reqId info =? -1) then item <| reqId := reqId info |> else item in
  let item := if negb (isServer info =? -1) then item <| isServer := isServer info |> else item in
  let item := if negb (type info =? CONNECT_TYPE_MAX) then item <| type := type info |> else item in
  let item := if negb (status info =? -1) then item <| status := status info |> else item in
  if status info =? PROXY_CHANNEL_STATUS_HANDSHAKEING then item <| connId := connId info |> else item.

(** The loop for one channel that is found by its number. *)
Definition updById (id : Z) (notFound : Z) (f : ProxyChannelInfo -> ProxyChannelInfo) : M Z :=
  locked SOFTBUS_LOCK_ERR (
    o ← findChan (chanIs id);
    match o with
    | Some _ => updChan (chanIs id) f;; mret SOFTBUS_OK
    | None => mret notFound
    end).

Definition readChan {A} (p : ProxyChannelInfo -> bool) (notFound : Z) (f : ProxyChannelInfo -> A) : M (Z * option A) :=
  locked (SOFTBUS_LOCK_ERR, None) (
    o ← findChan p;
    match o with
    | Some item => mret (SOFTBUS_OK, Some (f item))
    | None => mret (notFound, None)
    end).

Definition TransProxySpecialUpdateChanInfo (info : ProxyChannelInfo) : M Z :=
  updById (channelId info) SOFTBUS_TRANS_NODE_NOT_FOUND (specialUpdate info).

Definition TransProxyGetChanByChanId (id : Z) : M (Z * option ProxyChannelInfo) :=
  readChan (chanIs id) SOFTBUS_TRANS_NODE_NOT_FOUND (fun item => item).

Definition waiting (req : Z) (c : ProxyChannelInfo) : bool :=
  (reqId c =? req) && (status c =? PROXY_CHANNEL_STATUS_PYH_CONNECTING).

Definition TransProxyGetChanByReqId (req : Z) : M (Z * option ProxyChannelInfo) :=
  locked (SOFTBUS_LOCK_ERR, None) (o ← findChan (waiting req); mret (SOFTBUS_OK, o)).

(** [memcpy_s] of [src] to the start of the array [dst]. *)
Definition copyInto (src dst : list Byte.byte) : list Byte.byte := src ++ drop (length src) dst.

Definition TransProxyUpdateSinkAccessInfo (env : Env) (id : Z) (access : option AccessInfo) : M Z :=
  match access with
  | None => mret SOFTBUS_INVALID_PARAM
  | Some acc =>
      if localTokenId acc =? 0 then mret SOFTBUS_INVALID_PARAM
      else locked SOFTBUS_LOCK_ERR (
        let account := GetLocalAccountUidByUserId env (accUserId acc) in
        let p := fun item => (channelId item =? id) && (tokenType (appInfo item) >? ACCESS_TOKEN_TYPE_HAP) in
        o ← findChan p;
        match o with
        | Some _ =>
            updChan p (fun item => item <| appInfo := (appInfo item) <| userId := accUserId acc |>
                                             <| tokenId := localTokenId acc |> <| accountId := copyInto account (accountId (appInfo item)) |> |>);;
            mret SOFTBUS_OK
        | None => mret SOFTBUS_TRANS_NODE_NOT_FOUND
        end)
  end.

Definition noFastData (c : ProxyChannelInfo) : ProxyChannelInfo :=
  c <| appInfo := (appInfo c) <| fastTransData := false |> |>.

Definition TransProxyDelChanByReqId (req errCode : Z) : M unit :=
  locked tt (
    out ← takeChans (waiting req);
    forEach (fun item => releaseChannelId (channelId item);;
                         TransProxyPostOpenFailMsgToLoop (noFastData item) errCode) out).

Definition TransProxyDelChanByChanId (id : Z) : M unit :=
  locked tt (
    o ← takeChan (chanIs id);
    match o with Some item => releaseChannelId (channelId item) | None => mret tt end).

Definition TransProxyChanProcessByReqId (req conn errCode : Z) : M unit :=
  l ← lock;
  if negb l then mret tt
  else
    all ← get chans;
    let users := List.filter (waiting req) all in
    modify (fun w => w <| chans := map (fun c => if waiting req c
                                               then c <| status := PROXY_CHANNEL_STATUS_HANDSHAKEING |> <| connId := conn |>
                                               else c) (chans w) |>);;
    forEach (fun item => TransAddConnRefByConnId conn (negb (isServer item =? 0));;
                         TransProxyPostHandshakeMsgToLoop (channelId item)) users;;
    match users with
    | [] => if negb (errCode =? SOFTBUS_TRANS_SESSION_INFO_NOT_FOUND)
            then TransProxyCloseConnChannel conn false false;; mret tt
            else mret tt
    | _ => mret tt
    end.

Definition TransProxyUnRegQosInfo (conn id : Z) (d2d : bool) : M unit :=
  if negb d2d then mret tt
  else
    '(r, o) ← TransProxyGetConnInfoByConnId conn;
    match o with
    | Some opt => if negb (coType opt =? CONNECT_SLE) then mret tt else tell (TransD2dQosUnregister id (sleAddress opt))
    | None => mret tt
    end.

Definition TransProxyDelByChannelId (id : Z) : M (Z * option ProxyChannelInfo) :=
  locked (SOFTBUS_LOCK_ERR, None) (
    o ← takeChan (chanIs id);
    match o with
    | Some c =>
        releaseChannelId (channelId c);;
        TransProxyUnRegQosInfo (connId c) (channelId c) (isD2D c);;
        mret (SOFTBUS_OK, Some c)
    | None => mret (SOFTBUS_TRANS_NODE_NOT_FOUND, None)
    end).

(** [info] becomes the channel that was removed. *)
Definition TransProxyResetChan (info : ProxyChannelInfo) : M (Z * ProxyChannelInfo) :=
  locked (SOFTBUS_LOCK_ERR, info) (
    o ← takeChan (fun c => ResetChanIsEqual (status c) c info);
    match o with
    | Some c => releaseChannelId (channelId c);; mret (SOFTBUS_OK, c)
    | None => mret (SOFTBUS_TRANS_NODE_NOT_FOUND, info)
    end).

Definition used (item : ProxyChannelInfo) : ProxyChannelInfo :=
  if status item =? PROXY_CHANNEL_STATUS_COMPLETED then item <| timeout := 0 |> else item.

(** A channel that is used is looked up, and does not time out. *)
Definition useChan {A} (p : ProxyChannelInfo -> bool) (notFound : Z) (f : ProxyChannelInfo -> ProxyChannelInfo)
    (out : ProxyChannelInfo -> Z * option A) : M (Z * option A) :=
  locked (SOFTBUS_LOCK_ERR, None) (
    o ← findChan p;
    match o with
    | Some item => updChan p f;; mret (out (f item))
    | None => mret (notFound, None)
    end).

Definition ok {A} (f : ProxyChannelInfo -> A) (c : ProxyChannelInfo) : Z * option A := (SOFTBUS_OK, Some (f c)).

Definition TransProxyGetRecvMsgChanInfo (my peer : Z) : M (Z * option ProxyChannelInfo) :=
  useChan (fun item => (myId item =? my) && (peerId item =? peer)) SOFTBUS_TRANS_NODE_NOT_FOUND used (ok (fun c => c)).

Definition keptAlive (item : ProxyChannelInfo) : ProxyChannelInfo :=
  if (status item =? PROXY_CHANNEL_STATUS_KEEPLIVEING) || (status item =? PROXY_CHANNEL_STATUS_COMPLETED)
  then item <| timeout := 0 |> <| status := PROXY_CHANNEL_STATUS_COMPLETED |> else item.

Definition TransProxyKeepAliveChan (info : ProxyChannelInfo) : M (Z * option ProxyChannelInfo) :=
  useChan (fun item => ChanIsEqual item info) SOFTBUS_TRANS_NODE_NOT_FOUND keptAlive (ok (fun c => c)).

Definition TransProxyGetSendMsgChanInfo (id : Z) : M (Z * option ProxyChannelInfo) :=
  useChan (chanIs id) SOFTBUS_TRANS_NODE_NOT_FOUND used (ok (fun c => c)).

Definition TransProxyGetAuthId (id : Z) : M (Z * option (Z * Z)) :=
  readChan (chanIs id) SOFTBUS_TRANS_NODE_NOT_FOUND authHandle.

Definition TransProxyGetChannelCapaByChanId (id : Z) : M (Z * option Z) :=
  useChan (chanIs id) SOFTBUS_TRANS_SESSION_INFO_NOT_FOUND used (ok (fun c => channelCapability (appInfo c))).

Definition TransProxyGetSessionKeyByChanId (id sessionKeySize : Z) : M (Z * option (list Byte.byte)) :=
  useChan (chanIs id) SOFTBUS_TRANS_SESSION_INFO_NOT_FOUND used
    (fun c => if sessionKeySize <? Z.of_nat SESSION_KEY_LENGTH then (SOFTBUS_MEM_ERR, None)
              else (SOFTBUS_OK, Some (sessionKey (appInfo c)))).

Definition TransProxyGetAppInfoById (id : Z) : M (Z * option AppInfo) :=
  readChan (fun item => myId item =? id) SOFTBUS_TRANS_NODE_NOT_FOUND appInfo.

Definition TransProxyGetReqIdAndStatus (id : Z) : M (Z * option (Z * Z)) :=
  readChan (fun item => myId item =? id) SOFTBUS_TRANS_PROXY_CHANNEL_NOT_FOUND (fun item => (reqId item, status item)).

Definition TransProxyUpdateReplyCnt (id : Z) : M Z :=
  updById id SOFTBUS_TRANS_NODE_NOT_FOUND
    (fun item => item <| appInfo := (appInfo item) <| waitOpenReplyCnt := CHANNEL_OPEN_SUCCESS |> |>).

Definition TransProxyResetReplyCnt (id : Z) : M Z :=
  updById id SOFTBUS_TRANS_PROXY_CHANNEL_NOT_FOUND
    (fun item => item <| appInfo := (appInfo item) <| waitOpenReplyCnt := 0 |> |>).

Definition countReply (item : ProxyChannelInfo) : ProxyChannelInfo :=
  let a := appInfo item in
  if negb (waitOpenReplyCnt a =? CHANNEL_OPEN_SUCCESS)
  then item <| appInfo := a <| waitOpenReplyCnt := s32 (waitOpenReplyCnt a + 1) |> |> else item.

Definition TransCheckProxyChannelOpenStatus (id : Z) : M (Z * option Z) :=
  useChan (chanIs id) SOFTBUS_TRANS_NODE_NOT_FOUND countReply (ok (fun c => waitOpenReplyCnt (appInfo c))).

Definition TransGetRemoteDeviceIdByReqId (req : Z) : M (Z * option (list Byte.byte)) :=
  readChan (fun item => reqId item =? req) SOFTBUS_TRANS_PROXY_CHANNEL_NOT_FOUND (fun item => peerNetWorkId (appInfo item)).

Definition TransProxyGetAppInfoByChanId (id : Z) : M (Z * option AppInfo) :=
  readChan (chanIs id) SOFTBUS_TRANS_NODE_NOT_FOUND appInfo.

Definition established (item : ProxyChannelInfo) : bool :=
  (status item =? PROXY_CHANNEL_STATUS_COMPLETED) || (status item =? PROXY_CHANNEL_STATUS_KEEPLIVEING).

Definition TransProxyGetConnIdByChanId (id : Z) : M (Z * option Z) :=
  useChan (chanIs id) SOFTBUS_TRANS_NODE_NOT_FOUND (fun c => c)
    (fun item => if established item then (SOFTBUS_OK, Some (s32 (connId item)))
                 else (SOFTBUS_TRANS_PROXY_CHANNLE_STATUS_INVALID, None)).

Definition TransProxyGetProxyChannelInfoByChannelId (id : Z) : M (Z * option ProxyChannelInfo) :=
  useChan (chanIs id) SOFTBUS_TRANS_NODE_NOT_FOUND (fun c => c)
    (fun item => if negb (established item) then (SOFTBUS_TRANS_PROXY_CHANNLE_STATUS_INVALID, None)
                 else (SOFTBUS_OK, Some item)).

Definition TransProxyGetProxyChannelIdByAuthReq (req : Z) : M (Z * option Z) :=
  readChan (fun item => authReqId item =? req) SOFTBUS_TRANS_PROXY_CHANNEL_NOT_FOUND channelId.

Definition TransProxySetAuthHandleByChanId (id : Z) (handle : Z * Z) : M Z :=
  updById id SOFTBUS_TRANS_PROXY_CHANNEL_NOT_FOUND (fun item => item <| authHandle := handle |>).

Definition TransProxySetKeyTypeByChanId (id kt : Z) : M unit :=
  locked tt (updChan (chanIs id) (fun item => item <| appInfo := (appInfo item) <| keyType := kt |> |>)).

Definition TransProxyD2dGetSleMac (id p : Z) (macLen : Z) : M (Z * option (list Byte.byte)) :=
  if negb ((0 <? macLen) && (macLen <=? 18)) then mret (SOFTBUS_INVALID_PARAM, None)
  else
    l ← lock;
    if negb l then mret (SOFTBUS_LOCK_ERR, None)
    else
      o ← findChan (fun item => (channelId item =? id) && (pid (appInfo item) =? p));
      let conn := match o with Some item => connId item | None => 0 end in
      if conn =? 0 then mret (SOFTBUS_TRANS_NODE_NOT_FOUND, None)
      else
        '(r, opt) ← TransProxyGetConnInfoByConnId conn;
        match opt with
        | None => mret (SOFTBUS_TRANS_NODE_NOT_FOUND, None)
        | Some opt =>
            if negb (coType opt =? CONNECT_SLE) then mret (SOFTBUS_TRANS_INVALID_CONNECT_TYPE, None)
            else if macLen <? 18 then mret (SOFTBUS_MEM_ERR, None)
            else mret (SOFTBUS_OK, Some (sleAddress opt))
        end.

End ProxyTable.
