(* ===== verification/ProxyChannel.v ===== *)
(** * Proxy channels: the handlers

    The functions of softbus_proxychannel_manager.c and
    softbus_proxychannel_transceiver.c (core/transmission/trans_channel/proxy/src)
    that open and close channels, handle the messages of the peer and of the
    looper, the results of connection attempts, the loss of a connection, the
    timer and the death of a client.

    [ProxyIds] and [ProxyTimer] have the theorems, [ProxyFaults] deviations.  Channels that
    are opened by paging (softbus_proxychannel_message.c) are not created here;
    the branches for them are. *)

From S2P Require Import Prelude ErrorCode Bytes ChannelId ProxyState ProxyTable.
From stdpp Require Import list.
#[local] Open Scope Z_scope.

Import ChannelId ProxyState ProxyTable.

Module ProxyChannel.

(** [(bool)] of an int8_t. *)
Definition asBool (z : Z) : bool := negb (z =? 0).

Definition ignore {A} (m : M A) : M unit := m;; mret tt.

(** ** Closing *)

Definition TransProxyOpenProxyChannelFail (id : Z) (a : AppInfo) (errCode : Z) : M unit :=
  (if errCode =? SOFTBUS_TRANS_PEER_SESSION_NOT_CREATED
   then tell (TransAddTimestampToList (sessionName a) (pdSessionName (peerData a)) (peerNetWorkId a))
   else mret tt);;
  ignore (call (OnProxyChannelOpenFailed id a errCode)).

Definition TransProxyUpdateBlePriority (conn priority : Z) : M unit :=
  if (priority <=? BLE_PRIORITY_DEFAULT) || (priority >=? BLE_PRIORITY_MAX) then mret tt
  else if priority =? BLE_PRIORITY_BALANCED then ignore (call (ConnUpdateConnection conn CONN_BLE_PRIORITY_BALANCED))
  else if priority =? BLE_PRIORITY_HIGH then ignore (call (ConnUpdateConnection conn CONN_BLE_PRIORITY_HIGH))
  else if priority =? BLE_PRIORITY_LOW_POWER then ignore (call (ConnUpdateConnection conn CONN_BLE_PRIORITY_LOW_POWER))
  else mret tt.

Definition wipeChan (c : ProxyChannelInfo) : ProxyChannelInfo := c <| appInfo := wipeKeys (appInfo c) |>.

Definition TransProxyCloseProxyChannel (id : Z) : M Z :=
  ok ← calloc;
  if negb ok then mret SOFTBUS_MALLOC_ERR
  else
    '(r, o) ← TransProxyDelByChannelId id;
    match o with
    | None => mret SOFTBUS_TRANS_PROXY_INVALID_CHANNEL_ID
    | Some info =>
        (if (type info =? CONNECT_BLE) && (blePriority (appInfo info) >? BLE_PRIORITY_BALANCED) &&
            (blePriority (appInfo info) <? BLE_PRIORITY_MAX)
         then TransProxyUpdateBlePriority (connId info) BLE_PRIORITY_BALANCED else mret tt);;
        TransProxyPostResetPeerMsgToLoop (wipeChan info);;
        mret SOFTBUS_OK
    end.

Definition TransProxyResetAndCloseConn (chan : ProxyChannelInfo) : M Z :=
  ret ← call (TransProxyResetPeer chan);
  r ← TransDecConnRefByConnId (connId chan) (asBool (isServer chan)) (isD2D chan);
  (if r =? SOFTBUS_OK then
     if (isD2D chan || negb (asBool (isServer chan)) || negb (ret =? SOFTBUS_OK)) && negb (deviceTypeIsWinpc chan)
     then ignore (call (ConnDisconnectDevice (connId chan))) else mret tt
   else mret tt);;
  mret SOFTBUS_OK.

(** One round of the loop of TransProxyReleaseChannelList. *)
Definition releaseOne (errCode : Z) (c : ProxyChannelInfo) : M unit :=
  (if (status c =? PROXY_CHANNEL_STATUS_HANDSHAKEING) || (status c =? PROXY_CHANNEL_STATUS_PYH_CONNECTING)
   then TransProxyOpenProxyChannelFail (channelId c) (appInfo c) errCode
   else ignore (call (OnProxyChannelClosed (channelId c) (appInfo c))));;
  TransProxyUnRegQosInfo (connId c) (channelId c) (isD2D c);;
  releaseChannelId (channelId c).

Definition TransProxyReleaseChannelList (l : list ProxyChannelInfo) (errCode : Z) : M unit :=
  forEach (releaseOne errCode) l.

(** ListAdd puts each channel at the head of the list of those to release. *)
Definition TransProxyDelByConnId (conn : Z) : M unit :=
  l ← lock;
  if negb l then mret tt
  else
    out ← takeChans (fun c => connId c =? conn);
    TransProxyReleaseChannelList (rev out) SOFTBUS_TRANS_PROXY_DISCONNECTED.

Definition TransProxyOnDisConnect (conn : Z) : M unit :=
  TransProxyDelByConnId conn;; TransDelConnByConnId conn.

Definition destroyOne (c : ProxyChannelInfo) : M unit :=
  call (TransProxyResetPeer c);;
  TransProxyUnRegQosInfo (connId c) (channelId c) (isD2D c);;
  ignore (TransProxyCloseConnChannel (connId c) (asBool (isServer c)) (isD2D c)).

Definition TransProxyDestroyChannelList (l : list ProxyChannelInfo) : M unit := forEach destroyOne l.

(** The channels that satisfy [p] leave the table and are destroyed. *)
Definition destroyChans (p : ProxyChannelInfo -> bool) : M unit :=
  l ← lock;
  if negb l then mret tt
  else
    out ← takeChans p;
    forEach (fun c => releaseChannelId (channelId c)) out;;
    TransProxyDestroyChannelList (rev out).

Definition TransProxyDeathCallback (pkg : list Byte.byte) (p : Z) : M unit :=
  destroyChans (fun c => sameBytes (pkgName (appInfo c)) pkg && (pid (appInfo c) =? p)).

Definition TransProxyCloseChannelByRequestId (request : Z) : M unit :=
  destroyChans (fun c => (reqId c =? s32 request) && negb (status c =? PROXY_CHANNEL_STATUS_COMPLETED) && negb (isFork c)).

(** ** Opening *)

Definition TransProxyNegoSessionKeyFail (id errCode : Z) : M unit :=
  ok ← calloc;
  if negb ok then mret tt
  else
    '(r, o) ← TransProxyGetChanByChanId id;
    match o with
    | None => mret tt
    | Some c =>
        TransProxyCloseConnChannel (connId c) (asBool (isServer c)) (isD2D c);;
        call (OnProxyChannelOpenFailed id (appInfo c) errCode);;
        TransProxyDelChanByChanId id
    end.

Definition TransProxyNegoSessionKeySucc (id : Z) : M unit :=
  ok ← calloc;
  if negb ok then mret tt
  else
    '(r, o) ← TransProxyGetChanByChanId id;
    match o with
    | None => mret tt
    | Some c =>
        ret ← call (TransProxyHandshake c);
        if negb (ret =? SOFTBUS_OK) then
          TransProxyCloseConnChannel (connId c) (asBool (isServer c)) (isD2D c);;
          TransProxyOpenProxyChannelFail (channelId c) (appInfo c) ret;;
          TransProxyDelChanByChanId id
        else mret tt
    end.

Definition TransProxyOpenProxyChannelSuccess (env : Env) (id : Z) : M unit :=
  ok ← calloc;
  if negb ok then mret tt
  else
    '(r, o) ← TransProxyGetChanByChanId id;
    match o with
    | None => mret tt
    | Some c =>
        (if type c =? CONNECT_BLE then TransProxyUpdateBlePriority (connId c) (blePriority (appInfo c)) else mret tt);;
        if negb (GetAuthConnInfoByConnId env (connId c) =? SOFTBUS_OK) then mret tt
        else
          '(r, o) ← TransGetRemoteDeviceIdByReqId (reqId c);
          match o with
          | None => mret tt
          | Some peer =>
              ret ← call (TransNegotiateSessionKey id peer);
              if negb (ret =? SOFTBUS_OK) then TransProxyNegoSessionKeyFail id ret else mret tt
          end
    end.

(** The messages of the authentication and of paging are left out. *)
Definition TransProxyLoopMsgHandler (env : Env) (m : LoopMsg) : M unit :=
  match m with
  | LOOP_HANDSHAKE_MSG id => TransProxyOpenProxyChannelSuccess env id
  | LOOP_DISCONNECT_MSG server conn chan =>
      ignore (TransProxyCloseConnChannelReset conn (negb server) server (deviceTypeIsWinpc chan) (isD2D chan))
  | LOOP_OPENFAIL_MSG err chan => TransProxyOpenProxyChannelFail (channelId chan) (appInfo chan) err
  | LOOP_OPENCLOSE_MSG chan => ignore (call (OnProxyChannelClosed (channelId chan) (appInfo chan)))
  | LOOP_KEEPALIVE_MSG chan => tell (TransProxyKeepalive (connId chan) chan)
  | LOOP_RESETPEER_MSG chan => ignore (TransProxyResetAndCloseConn chan)
  end.

Definition TransOnConnectSucceed (request conn : Z) : M unit :=
  ret ← TransSetConnStateByReqId request conn PROXY_CHANNEL_STATUS_PYH_CONNECTED;
  TransProxyChanProcessByReqId (s32 request) conn ret.

Definition TransOnConnectFailed (request reason : Z) : M unit :=
  TransDelConnByReqId request;;
  TransProxyDelChanByReqId (s32 request) reason.

Definition SelectRouteType (t route : Z) : Z :=
  if t =? CONNECT_TCP then WIFI_STA
  else if t =? CONNECT_BR then BT_BR
  else if t =? CONNECT_BLE then BT_BLE
  else if t =? CONNECT_SLE then BT_SLE
  else if t =? CONNECT_BLE_DIRECT then BT_BLE
  else if t =? CONNECT_RAW_BLE_DIRECT then BT_BLE
  else route.

Definition TransProxyCreateChanInfo (env : Env) (chan : ProxyChannelInfo) (id : Z) (a : AppInfo) : M Z :=
  let chan := chan <| myId := s16 id |> <| channelId := id |> in
  ret ← result;
  if negb (ret =? SOFTBUS_OK) then mret ret
  else
    let chan := chan <| identity := randomIdentity env |> in
    ret ← (if negb (appType a =? APP_TYPE_AUTH) then call GenerateKey else mret SOFTBUS_OK);
    if negb (ret =? SOFTBUS_OK) then mret ret
    else
      let a := if negb (appType a =? APP_TYPE_AUTH) then a <| sessionKey := randomKey env |> else a in
      let chan := chan <| appInfo := a <| fastTransData := false |> <| fastTransDataSize := 0 |> |> in
      TransProxyAddChanItem chan.

(** The record that TransProxySpecialUpdateChanInfo gets. *)
Definition special (id req server t st conn : Z) : ProxyChannelInfo :=
  NO_CHAN <| channelId := id |> <| reqId := req |> <| isServer := server |> <| type := t |> <| status := st |> <| connId := conn |>.

Definition TransProxyConnExistProc (server : bool) (id : Z) (info : ConnectOption) : M Z :=
  l ← lock;
  if negb l then mret SOFTBUS_LOCK_ERR
  else
    '(r, o) ← TransGetConn info false;
    match o with
    | None => mret SOFTBUS_TRANS_PROXY_CONN_ADD_REF_FAILED
    | Some conn =>
        if state conn =? PROXY_CHANNEL_STATUS_PYH_CONNECTING then
          TransProxySpecialUpdateChanInfo
            (special id (s32 (requestId conn)) (-1) (coType (connInfo conn)) PROXY_CHANNEL_STATUS_PYH_CONNECTING 0);;
          mret SOFTBUS_OK
        else
          r ← TransAddConnRefByConnId (pcConnId conn) server;
          if negb (r =? SOFTBUS_OK) then mret SOFTBUS_TRANS_PROXY_CONN_ADD_REF_FAILED
          else
            TransProxySpecialUpdateChanInfo
              (special id (-1) (-1) (coType (connInfo conn)) PROXY_CHANNEL_STATUS_HANDSHAKEING (pcConnId conn));;
            TransProxyPostHandshakeMsgToLoop id;;
            mret SOFTBUS_OK
    end.

Definition PROXY : Z := 0.

Definition TransProxyOpenNewConnChannel (env : Env) (module : Z) (info : ConnectOption) (id : Z) : M Z :=
  let request := ConnGetNewRequestId env in
  TransProxySpecialUpdateChanInfo
    (special id (s32 request) 0 CONNECT_TYPE_MAX PROXY_CHANNEL_STATUS_PYH_CONNECTING 0);;
  ok ← calloc;
  if negb ok then TransProxyDelChanByChanId id;; mret SOFTBUS_MALLOC_ERR
  else
    let opt := if coType info =? CONNECT_TCP then info <| moduleId := module |> else info in
    r ← TransAddConnItem (mkConn request 0 0 PROXY_CHANNEL_STATUS_PYH_CONNECTING false opt);
    if negb (r =? SOFTBUS_OK) then mret SOFTBUS_TRANS_PROXY_CONN_REPEAT
    else
      ret ← call (ConnConnectDevice opt request);
      (if negb (ret =? SOFTBUS_OK) then TransDelConnByReqId request;; TransProxyDelChanByChanId id else mret tt);;
      mret ret.

(** The connection is looked for again when another thread has just added it. *)
Definition openConn (env : Env) (id : Z) (info : ConnectOption) : M Z :=
  '(r, _) ← TransGetConn info false;
  if r =? SOFTBUS_OK then
    ret ← TransProxyConnExistProc false id info;
    if ret =? SOFTBUS_TRANS_PROXY_CONN_ADD_REF_FAILED then TransProxyOpenNewConnChannel env PROXY info id
    else mret ret
  else
    ret ← TransProxyOpenNewConnChannel env PROXY info id;
    if ret =? SOFTBUS_TRANS_PROXY_CONN_REPEAT then
      '(r, _) ← TransGetConn info false;
      if r =? SOFTBUS_OK then TransProxyConnExistProc false id info else mret ret
    else mret ret.

(** The result and the number of the channel. *)
Definition TransProxyOpenConnChannel (env : Env) (a : AppInfo) (info : ConnectOption) (given : Z) : M (Z * Z) :=
  id ← (if negb (given =? INVALID_CHANNEL_ID) then mret given else newChannelId);
  if id <=? INVALID_CHANNEL_ID then mret (SOFTBUS_TRANS_INVALID_CHANNEL_ID, given)
  else
    ok ← calloc;
    if negb ok then releaseChannelId id;; mret (SOFTBUS_MALLOC_ERR, given)
    else
      r ← TransProxyCreateChanInfo env (NO_CHAN <| type := coType info |>) id a;
      if negb (r =? SOFTBUS_OK) then releaseChannelId id;; mret (SOFTBUS_TRANS_PROXY_CREATE_CHANNEL_FAILED, given)
      else
        ret ← openConn env id info;
        if ret =? SOFTBUS_OK then mret (ret, id)
        else
          (if (ret =? SOFTBUS_TRANS_PROXY_CONN_ADD_REF_FAILED) || (ret =? SOFTBUS_TRANS_PROXY_CONN_REPEAT)
           then TransProxyDelChanByChanId id else mret tt);;
          mret (ret, given).

Definition TransProxyOpenProxyChannel (env : Env) (a : AppInfo) (info : ConnectOption) (given : Z) : M (Z * Z) :=
  TransProxyOpenConnChannel env (a <| routeType := SelectRouteType (coType info) (routeType a) |>) info given.

(** ** Handshake: the side that opened the channel *)

Definition TransProxyProcessErrMsg (info : ProxyChannelInfo) (errCode : Z) : M unit :=
  '(r, o) ← TransProxyGetChanByChanId (myId info);
  match o with
  | None => mret tt
  | Some info =>
      if (appType (appInfo info) =? APP_TYPE_NORMAL) || (appType (appInfo info) =? APP_TYPE_AUTH) then
        TransProxyCloseProxyChannel (channelId info);;
        TransProxyOpenProxyChannelFail (channelId info) (appInfo info) errCode
      else mret tt
  end.

Definition TransProxyProcessDataConfig (env : Env) (a : AppInfo) : Z * AppInfo :=
  if negb (businessType a =? BUSINESS_TYPE_MESSAGE) && negb (businessType a =? BUSINESS_TYPE_BYTE) then (SOFTBUS_OK, a)
  else if negb (pdDataConfig (peerData a) =? 0) then
    (SOFTBUS_OK, a <| dataConfig := Z.min (dataConfig a) (pdDataConfig (peerData a)) |>)
  else
    match SoftbusGetConfig env (if businessType a =? BUSINESS_TYPE_BYTE then SOFTBUS_INT_PROXY_MAX_BYTES_LENGTH
                                else SOFTBUS_INT_PROXY_MAX_MESSAGE_LENGTH) with
    | Some v => (SOFTBUS_OK, a <| dataConfig := v |>)
    | None => (SOFTBUS_GET_CONFIG_VAL_ERR, a)
    end.

(** The channel that could not be opened is closed and the failure is reported. *)
Definition failAck (info : ProxyChannelInfo) (errCode : Z) : M unit :=
  TransProxyCloseProxyChannel (channelId info);;
  TransProxyOpenProxyChannelFail (channelId info) (appInfo info) errCode.

Definition TransProxyProcessHandshakeAckMsg (env : Env) (msg : ProxyMessage) : M unit :=
  '(r, o) ← TransProxyGetAppInfoById (msgMyId msg);
  match o with
  | None => mret tt
  | Some a =>
      let info := NO_CHAN <| myId := msgMyId msg |> <| peerId := msgPeerId msg |> <| appInfo := a |> in
      match TransProxyUnPackHandshakeErrMsg env (data msg) with
      | Some errCode => TransProxyProcessErrMsg info errCode
      | None =>
          let errCode := SOFTBUS_OK in
          let '(r, (ident, a)) := TransProxyUnpackHandshakeAckMsg env (data msg) info in
          let info := info <| identity := ident |> <| appInfo := a |> in
          if negb (r =? SOFTBUS_OK) then failAck info errCode
          else
            let '(r, a) := TransProxyProcessDataConfig env (appInfo info) in
            let info := info <| appInfo := a |> in
            if negb (r =? SOFTBUS_OK) then failAck info errCode
            else
              '(r, info) ← TransProxyUpdateAckInfo info;
              if negb (r =? SOFTBUS_OK) then failAck info errCode
              else
                let a := (appInfo info) <| peerData := (peerData (appInfo info)) <| pdChannelId := msgPeerId msg |> |> in
                ignore (call (OnProxyChannelOpened (channelId info) a PROXY_CHANNEL_CLIENT))
      end
  end.

(** ** Handshake: the side that is asked *)

Definition TransProxyGetLocalInfo (env : Env) (c : ProxyChannelInfo) : Z * ProxyChannelInfo :=
  let a := appInfo c in
  let '(r, a) :=
    if appType a =? APP_TYPE_INNER then (SOFTBUS_OK, a)
    else match TransProxyGetPkgName env (sessionName a) with
         | None => (SOFTBUS_TRANS_PEER_SESSION_NOT_CREATED, a)
         | Some pkg =>
             let a := a <| pkgName := pkg |> in
             match TransProxyGetUidAndPidBySessionName env (sessionName a) with
             | None => (SOFTBUS_TRANS_PEER_SESSION_NOT_CREATED, a)
             | Some (u, p) => (SOFTBUS_OK, a <| uid := u |> <| pid := p |>)
             end
         end in
  if negb (r =? SOFTBUS_OK) then (r, c <| appInfo := a |>)
  else
    let '(r, dev) := LnnGetLocalStrInfo env (appType a =? APP_TYPE_AUTH) in
    if negb (r =? SOFTBUS_OK) then (r, c <| appInfo := a |>)
    else
      let a := a <| deviceId := dev |> <| tokenType := ACEESS_TOKEN_TYPE_INVALID |> in
      let '(r, a) :=
        if negb (appType a =? APP_TYPE_INNER) then
          let '(r, t) := GetTokenTypeBySessionName env (sessionName a) in (r, a <| tokenType := t |>)
        else (SOFTBUS_OK, a) in
      if negb (r =? SOFTBUS_OK) then (r, c <| appInfo := a |>)
      else (SOFTBUS_OK, c <| appInfo := FillHapSinkAclInfoToAppInfo env a |>).

Definition CheckAppTypeAndMsgHead (msg : ProxyMessage) (a : AppInfo) : Z :=
  if (Z.land (cipher msg) ENCRYPTED =? 0) && negb (appType a =? APP_TYPE_AUTH) then SOFTBUS_TRANS_PROXY_ERROR_APP_TYPE
  else SOFTBUS_OK.

Definition ConstructProxyChannelInfo (c : ProxyChannelInfo) (msg : ProxyMessage) (id : Z) (info : ConnectionInfo) :
    ProxyChannelInfo :=
  let server := if Z.land (cipher msg) CS_MODE =? 0 then 0 else 1 in
  let c := c <| isServer := server |> in
  let c := if negb (asBool (isServer c)) then c <| deviceTypeIsWinpc := true |> else c in
  let c := c <| status := PROXY_CHANNEL_STATUS_COMPLETED |> <| connId := msgConnId msg |> <| myId := id |>
             <| channelId := id |> <| peerId := msgPeerId msg |> <| authHandle := msgAuthHandle msg |>
             <| type := ciType info |> in
  let c := if (type c =? CONNECT_BLE) || (type c =? CONNECT_BLE_DIRECT) then c <| bleProtocolType := ciBleProtocol info |>
           else if (type c =? CONNECT_SLE) || (type c =? CONNECT_SLE_DIRECT) then c <| sleProtocolType := ciSleProtocol info |>
           else c in
  c <| appInfo := (appInfo c) <| routeType := SelectRouteType (ciType info) (routeType (appInfo c)) |> |>.

(** TransGetLocalConfig for a proxy channel; both business types are in the table. *)
Definition TransGetLocalConfig (env : Env) (business : Z) : option Z :=
  SoftbusGetConfig env (if business =? BUSINESS_TYPE_BYTE then SOFTBUS_INT_MAX_BYTES_NEW_LENGTH
                        else SOFTBUS_INT_MAX_MESSAGE_NEW_LENGTH).

Definition TransProxyFillDataConfig (env : Env) (a : AppInfo) : Z * AppInfo :=
  let a := if appType a =? APP_TYPE_AUTH then a <| businessType := BUSINESS_TYPE_BYTE |> else a in
  if negb (businessType a =? BUSINESS_TYPE_MESSAGE) && negb (businessType a =? BUSINESS_TYPE_BYTE) then (SOFTBUS_OK, a)
  else if negb (pdDataConfig (peerData a) =? 0) then
    match TransGetLocalConfig env (businessType a) with
    | Some v => (SOFTBUS_OK, a <| dataConfig := Z.min v (pdDataConfig (peerData a)) |>)
    | None => (SOFTBUS_GET_CONFIG_VAL_ERR, a)
    end
  else
    match SoftbusGetConfig env (if businessType a =? BUSINESS_TYPE_BYTE then SOFTBUS_INT_PROXY_MAX_BYTES_LENGTH
                                else SOFTBUS_INT_PROXY_MAX_MESSAGE_LENGTH) with
    | Some v => (SOFTBUS_OK, a <| dataConfig := v |>)
    | None => (SOFTBUS_GET_CONFIG_VAL_ERR, a)
    end.

Definition withNetworkId (env : Env) (a : AppInfo) : AppInfo :=
  match LnnGetNetworkIdByUuid env (pdDeviceId (peerData a)) with
  | Some n => a <| peerNetWorkId := n |>
  | None => a
  end.

Definition CheckAndGenerateSinkSessionKey (env : Env) (c : ProxyChannelInfo) : M (Z * ProxyChannelInfo) :=
  let a := withNetworkId env (appInfo c) in
  let a := if negb (GetOsTypeByNetworkId env (peerNetWorkId a) =? OH_OS_TYPE)
           then a <| channelCapability := DisableCapabilityBit (channelCapability a) TRANS_CHANNEL_SINK_GENERATE_KEY_OFFSET |>
           else a in
  if GetCapabilityBit (channelCapability a) TRANS_CHANNEL_SINK_GENERATE_KEY_OFFSET then
    let a := a <| channelCapability := EnableCapabilityBit (channelCapability a) TRANS_CHANNEL_SINK_KEY_ENCRYPT_OFFSET |> in
    ret ← call GenerateKey;
    mret (ret, c <| appInfo := a <| sinkSessionKey := randomKey env |> |>)
  else mret (SOFTBUS_OK, c <| appInfo := a |>).

(** The checks after the channel has got its number. *)
Definition checkIncoming (env : Env) (msg : ProxyMessage) (c : ProxyChannelInfo) : Z * ProxyChannelInfo :=
  let '(r, c) := TransProxyGetLocalInfo env c in
  if negb (r =? SOFTBUS_OK) then (r, c)
  else if (appType (appInfo c) =? APP_TYPE_AUTH) && negb (CheckSessionNameValidOnAuthChannel env (sessionName (appInfo c)))
  then (SOFTBUS_TRANS_AUTH_NOTALLOW_OPENED, c)
  else if negb (CheckAppTypeAndMsgHead msg (appInfo c) =? SOFTBUS_OK) then (SOFTBUS_TRANS_PROXY_ERROR_APP_TYPE, c)
  else
    let '(r, c) :=
      if (appType (appInfo c) =? APP_TYPE_NORMAL) && negb (callingTokenId (appInfo c) =? TOKENID_NOT_SET) then
        let c := c <| appInfo := withNetworkId env (appInfo c) |> in
        if negb (GetOsTypeByNetworkId env (peerNetWorkId (appInfo c)) =? OH_OS_TYPE) then (SOFTBUS_OK, c)
        else if GetCapabilityBit (channelCapability (appInfo c)) TRANS_CHANNEL_ACL_CHECK_OFFSET
        then (TransCheckServerAccessControl env (appInfo c), c)
        else (SOFTBUS_OK, c)
      else (SOFTBUS_OK, c) in
    if negb (r =? SOFTBUS_OK) then (r, c)
    else if negb (TransCheckServerPermission env (sessionName (appInfo c)) (pdSessionName (peerData (appInfo c))) =? SOFTBUS_OK)
    then (SOFTBUS_PERMISSION_SERVER_DENIED, c)
    else let '(r, a) := TransProxyFillDataConfig env (appInfo c) in (r, c <| appInfo := a |>).

Definition TransProxyFillChannelInfo (env : Env) (msg : ProxyMessage) (c : ProxyChannelInfo) : M (Z * ProxyChannelInfo) :=
  let '(r, (ident, a)) := TransProxyUnpackHandshakeMsg env (data msg) in
  let c := c <| identity := ident |> <| appInfo := a |> in
  if negb (r =? SOFTBUS_OK) then mret (r, c)
  else
    '(r, c) ← CheckAndGenerateSinkSessionKey env c;
    if negb (r =? SOFTBUS_OK) then mret (r, c)
    else
      let '(r, info) := ConnGetConnectionInfo env (msgConnId msg) in
      if negb (r =? SOFTBUS_OK) then mret (r, c)
      else
        match ConnGetTypeByConnectionId env (msgConnId msg) with
        | None => mret (SOFTBUS_CONN_MANAGER_TYPE_NOT_SUPPORT, c)
        | Some t =>
            let c := c <| appInfo := (appInfo c) <| routeType := SelectRouteType t (routeType (appInfo c)) |> |> in
            n ← newChannelId;
            mret (checkIncoming env msg (ConstructProxyChannelInfo c msg (s16 n) info))
        end.

Definition TransProxyProcessHandshakeAuthMsg (msg : ProxyMessage) : M unit :=
  '(r, o) ← TransProxyGetAppInfoByChanId (msgMyId msg);
  match o with
  | None => mret tt
  | Some a =>
      if Z.land (u32 (transFlag a)) TRANS_FLAG_HAS_CHANNEL_AUTH =? 0 then mret tt
      else tell (AuthSessionProcessAuthData (authSeq a) (data msg))
  end.

Definition TransProxyFastDataRecv (c : ProxyChannelInfo) : M ProxyChannelInfo :=
  r ← call (NotifyClientMsgReceived (pkgName (appInfo c)) (pid (appInfo c)) (channelId c));
  mret (if negb (r =? SOFTBUS_OK) then c <| appInfo := (appInfo c) <| fastTransDataSize := 0 |> |> else c).

Definition TransProxySendHandShakeMsgWhenInner (conn : Z) (c : ProxyChannelInfo) : M Z :=
  if negb (appType (appInfo c) =? APP_TYPE_INNER) then mret SOFTBUS_OK
  else
    let c := c <| appInfo := (appInfo c) <| myHandleId := 0 |> |> in
    ret ← call (TransProxyAckHandshake conn c SOFTBUS_OK);
    if negb (ret =? SOFTBUS_OK) then
      call (OnProxyChannelClosed (channelId c) (appInfo c));;
      TransProxyDelChanByChanId (channelId c);;
      mret ret
    else mret SOFTBUS_OK.

Definition TransServerProxyChannelOpened (c : ProxyChannelInfo) (id : Z) : M Z :=
  ret ← call (OnProxyChannelOpened id (appInfo c) PROXY_CHANNEL_SERVER);
  if negb (ret =? SOFTBUS_OK) then
    call (TransProxyAckHandshake (connId c) c ret);;
    TransProxyDelChanByChanId id;;
    mret ret
  else TransProxySendHandShakeMsgWhenInner (connId c) c.

Definition TransProxySaveAndOnOpen (env : Env) (chan : ProxyChannelInfo) (id : Z) : M Z :=
  TransCreateConnByConnId env (connId chan) (asBool (isServer chan));;
  let tmp := chan <| appInfo := (appInfo chan) <| fastTransData := false |> <| fastTransDataSize := 0 |> |> in
  ret ← TransProxyAddChanItem chan;
  if negb (ret =? SOFTBUS_OK) then releaseChannelId id;; mret ret
  else if appType (appInfo tmp) =? APP_TYPE_NORMAL then
    ret ← call (CheckCollabRelation (appInfo tmp) (channelId tmp));
    if ret =? SOFTBUS_OK then mret SOFTBUS_OK
    else if negb (ret =? SOFTBUS_TRANS_NOT_NEED_CHECK_RELATION) then
      call (TransProxyAckHandshake (connId tmp) tmp ret);;
      TransProxyDelChanByChanId id;;
      mret ret
    else TransServerProxyChannelOpened tmp id
  else TransServerProxyChannelOpened tmp id.

Definition TransProxyProcessHandshakeMsg (env : Env) (msg : ProxyMessage) : M unit :=
  ok ← calloc;
  if negb ok then mret tt
  else
    '(ret, c) ← TransProxyFillChannelInfo env msg NO_CHAN;
    (if (ret =? SOFTBUS_TRANS_PEER_SESSION_NOT_CREATED) || (ret =? SOFTBUS_TRANS_CHECK_ACL_FAILED) ||
        (ret =? SOFTBUS_PERMISSION_SERVER_DENIED)
     then ignore (call (TransProxyAckHandshake (msgConnId msg) c ret)) else mret tt);;
    let c := c <| connId := msgConnId msg |> in
    let id := channelId c in
    if negb (ret =? SOFTBUS_OK) then releaseChannelId id
    else
      let kt := match GetAuthManagerType env (fst (msgAuthHandle msg)) with
                | None => KEY_TYPE_DEFAULT
                | Some isMeta => if isMeta then KEY_TYPE_META else KEY_TYPE_NORMAL
                end in
      ignore (TransProxySaveAndOnOpen env (c <| appInfo := (appInfo c) <| keyType := kt |> |>) id).

(** ** The answer of the client that was asked *)

Definition HandleProxyChanelOpened (c : ProxyChannelInfo) (id : Z) : M Z :=
  ret ← call (TransProxyAckHandshake (connId c) c SOFTBUS_OK);
  if negb (ret =? SOFTBUS_OK) then
    call (OnProxyChannelClosed id (appInfo c));;
    TransProxyDelChanByChanId id;;
    mret ret
  else
    ret ← call (OnProxyChannelBind id (appInfo c));
    if negb (ret =? SOFTBUS_OK) then TransProxyDelChanByChanId id;; mret ret
    else mret SOFTBUS_OK.

(** The peer is told [err] and the channel is removed. *)
Definition refuse (c : ProxyChannelInfo) (id err : Z) : M unit :=
  call (TransProxyAckHandshake (connId c) c err);;
  call (OnProxyChannelClosed id (appInfo c));;
  TransProxyDelChanByChanId id.

(** [request]: the channel that TransUkRequestGetRequestInfoByRequestId finds. *)
Definition HandleProxyGenUkResult (request : option Z) (ukId reason : Z) : M unit :=
  match request with
  | None => mret tt
  | Some id =>
      '(r, o) ← TransProxyGetChanByChanId id;
      match o with
      | None => mret tt
      | Some c =>
          if negb (reason =? SOFTBUS_OK) then refuse c id reason
          else ignore (HandleProxyChanelOpened (c <| appInfo := (appInfo c) <| userKeyId := ukId |> |>) id)
      end
  end.

Definition noSinkEncrypt (c : ProxyChannelInfo) : ProxyChannelInfo :=
  let a := appInfo c in
  c <| appInfo := a <| channelCapability := DisableCapabilityBit (channelCapability a) TRANS_CHANNEL_SINK_KEY_ENCRYPT_OFFSET |> |>.

Definition TransHandleProxyChannelOpened (env : Env) (id : Z) (c : ProxyChannelInfo) (access : option AccessInfo) : M Z :=
  if LnnIsOsAccountConstraint env then
    refuse c id SOFTBUS_TRANS_BLOCK_MODE_REJECTED;; mret SOFTBUS_TRANS_BLOCK_MODE_REJECTED
  else if GetCapabilityBit (channelCapability (appInfo c)) TRANS_CHANNEL_SINK_GENERATE_KEY_OFFSET then
    if match access with
       | Some acc => (accUserId acc =? INVALID_USER_ID) && (tokenType (appInfo c) >? ACCESS_TOKEN_TYPE_HAP)
       | None => false
       end
    then HandleProxyChanelOpened (noSinkEncrypt c) id
    else
      ret ← call (GetUserkeyIdByAClInfo (appInfo c) id);
      let c := c <| appInfo := (appInfo c) <| userKeyId := aclUserKeyId env |> |> in
      if ret =? SOFTBUS_TRANS_GEN_USER_KEY then mret SOFTBUS_OK
      else if (ret =? SOFTBUS_AUTH_ACL_NOT_FOUND) && SoftBusSaCanUseDeviceKey env (tokenId (appInfo c))
      then HandleProxyChanelOpened (noSinkEncrypt c) id
      else if negb (ret =? SOFTBUS_OK) then refuse c id ret;; mret SOFTBUS_OK
      else HandleProxyChanelOpened c id
  else HandleProxyChanelOpened c id.

Definition TransHandleD2DProxyChannelOpened (env : Env) (id openResult : Z) (c : ProxyChannelInfo) : M Z :=
  let gone := call (OnProxyChannelClosed (channelId c) (appInfo c));; TransProxyDelChanByChanId (channelId c) in
  if LnnIsOsAccountConstraint env then
    call (TransPagingAckHandshake c SOFTBUS_TRANS_BLOCK_MODE_REJECTED);; gone;; mret SOFTBUS_TRANS_BLOCK_MODE_REJECTED
  else
    ret ← TransProxyUpdateReplyCnt id;
    if negb (ret =? SOFTBUS_OK) then gone;; mret ret
    else
      ret ← call (TransPagingAckHandshake c openResult);
      if negb (ret =? SOFTBUS_OK) then gone;; mret ret
      else call (OnProxyChannelBind (channelId c) (appInfo c)).

Definition TransDealProxyChannelOpenResult (env : Env) (id openResult : Z) (access : option AccessInfo) (callingPid : Z) : M Z :=
  '(ret, o) ← TransProxyGetChanByChanId id;
  match o with
  | None => mret ret
  | Some c =>
      if negb (callingPid =? 0) && negb (pid (appInfo c) =? callingPid) then mret SOFTBUS_TRANS_CHECK_PID_ERROR
      else if isD2D c then TransHandleD2DProxyChannelOpened env id openResult c
      else
        TransProxyUpdateSinkAccessInfo env id access;;
        '(ret, o) ← TransProxyGetChanByChanId id;
        match o with
        | None => mret ret
        | Some c =>
            ret ← TransProxyUpdateReplyCnt id;
            if negb (ret =? SOFTBUS_OK) then mret ret
            else if negb (openResult =? SOFTBUS_OK) then
              call (TransProxyAckHandshake (connId c) c openResult);;
              TransProxyDelChanByChanId id;;
              mret SOFTBUS_OK
            else
              c ← (if fastTransData (appInfo c) && (0 <? fastTransDataSize (appInfo c))
                   then TransProxyFastDataRecv c else mret c);
              TransHandleProxyChannelOpened env id (c <| appInfo := (appInfo c) <| myHandleId := 0 |> |>) access
        end
  end.

Definition TransAsyncProxyChannelTask (id : Z) : M unit :=
  '(ret, o) ← TransCheckProxyChannelOpenStatus id;
  match o with
  | None => mret tt
  | Some curCount =>
      if curCount =? CHANNEL_OPEN_SUCCESS then mret tt
      else
        '(ret, o) ← TransProxyGetChanByChanId id;
        match o with
        | None => mret tt
        | Some c =>
            if curCount >=? LOOPER_REPLY_CNT_MAX then
              (if isD2D c then ignore (call (TransPagingAckHandshake c SOFTBUS_TRANS_OPEN_CHANNEL_NEGTIATE_TIMEOUT))
               else ignore (call (TransProxyAckHandshake (connId c) c SOFTBUS_TRANS_OPEN_CHANNEL_NEGTIATE_TIMEOUT)));;
              call (OnProxyChannelClosed id (appInfo c));;
              TransProxyDelChanByChanId id
            else
              tell (TransCheckChannelOpenToLooperDelay id
                      (if curCount <=? LOOPER_SEPARATE_CNT then FAST_INTERVAL_MILLISECOND else SLOW_INTERVAL_MILLISECOND))
        end
  end.

Definition TransDealProxyCheckCollabResult (env : Env) (id checkResult callingPid : Z) : M Z :=
  if negb (callingPid =? 0) && negb (dmsPid env =? callingPid) then mret SOFTBUS_TRANS_CHECK_PID_ERROR
  else
    '(ret, o) ← TransProxyGetChanByChanId id;
    match o with
    | None => mret ret
    | Some c =>
        let fail err := call (TransProxyAckHandshake (connId c) c err);; TransProxyDelChanByChanId id;; mret err in
        ret ← TransProxyUpdateReplyCnt id;
        if negb (ret =? SOFTBUS_OK) then fail ret
        else
          tell (TransCheckChannelOpenRemoveFromLooper id);;
          if negb (checkResult =? SOFTBUS_OK) then fail checkResult
          else
            ret ← TransProxyResetReplyCnt id;
            if negb (ret =? SOFTBUS_OK) then fail ret
            else
              ret ← call (OnProxyChannelOpened id (appInfo c) PROXY_CHANNEL_SERVER);
              if negb (ret =? SOFTBUS_OK) then fail ret else mret SOFTBUS_OK
    end.

(** ** Other messages of the peer *)

Definition TransProxyProcessReNegotiateMsg (env : Env) (msg : ProxyMessage) (info : ProxyChannelInfo) : M Z :=
  let ret := GetAuthConnInfoByConnId env (msgConnId msg) in
  if negb (ret =? SOFTBUS_OK) then mret ret
  else
    ret ← call (TransReNegotiateSessionKey (myId info));
    if negb (ret =? SOFTBUS_OK) then TransProxyNegoSessionKeyFail (myId info) ret;; mret ret
    else mret SOFTBUS_OK.

Definition badCipher (msg : ProxyMessage) : bool := Z.land (cipher msg) BAD_CIPHER =? BAD_CIPHER.

Definition TransProxyProcessResetMsgHelper (env : Env) (info : ProxyChannelInfo) (msg : ProxyMessage) : M unit :=
  (if status info =? PROXY_CHANNEL_STATUS_HANDSHAKEING then
     let errCode := if badCipher msg then SOFTBUS_TRANS_BAD_KEY else SOFTBUS_TRANS_HANDSHAKE_ERROR in
     let errCode := match TransProxyUnPackRestErrMsg env (data msg) with Some e => e | None => errCode end in
     TransProxyOpenProxyChannelFail (channelId info) (appInfo info) errCode
   else if status info =? PROXY_CHANNEL_STATUS_COMPLETED then
     ignore (call (OnProxyChannelClosed (channelId info) (appInfo info)))
   else mret tt);;
  TransProxyCloseConnChannelReset (msgConnId msg) (isServer info =? 0) (asBool (isServer info))
    (deviceTypeIsWinpc info) (isD2D info);;
  if badCipher msg
  then tell (RemoveAuthSessionKeyByIndex (fst (msgAuthHandle msg)) (keyIndex msg) (snd (msgAuthHandle msg)))
  else mret tt.

Definition TransProxyProcessResetMsg (env : Env) (msg : ProxyMessage) : M unit :=
  ok ← calloc;
  if negb ok then mret tt
  else
    match TransProxyUnpackIdentity env (data msg) with
    | None => mret tt
    | Some ident =>
        let info := NO_CHAN <| identity := ident |> <| peerId := msgPeerId msg |> <| myId := msgMyId msg |> in
        '(r, o) ← TransProxyGetAppInfoById (myId info);
        match o with
        | None => mret tt
        | Some a =>
            let info := info <| appInfo := a |> in
            '(r, o) ← TransProxyGetReqIdAndStatus (myId info);
            match o with
            | None => mret tt
            | Some (req, st) =>
                let info := info <| reqId := req |> <| status := st |> in
                if negb (CheckAppTypeAndMsgHead msg (appInfo info) =? SOFTBUS_OK) then mret tt
                else
                  again ← (if (status info =? PROXY_CHANNEL_STATUS_HANDSHAKEING) &&
                              (Z.land (cipher msg) AUTH_SINGLE_CIPHER =? AUTH_SINGLE_CIPHER)
                           then ret ← TransProxyProcessReNegotiateMsg env msg info; mret (ret =? SOFTBUS_OK)
                           else mret false);
                  if (again : bool) then mret tt
                  else
                    '(r, info) ← TransProxyResetChan info;
                    if negb (r =? SOFTBUS_OK) then mret tt
                    else TransProxyProcessResetMsgHelper env info msg
            end
        end
    end.

(** [ack]: the message is answered. *)
Definition keepAlive (ack : bool) (env : Env) (msg : ProxyMessage) : M unit :=
  ok ← calloc;
  if negb ok then mret tt
  else
    match TransProxyUnpackIdentity env (data msg) with
    | None => mret tt
    | Some ident =>
        '(r, o) ← TransProxyKeepAliveChan
                    (NO_CHAN <| identity := ident |> <| peerId := msgPeerId msg |> <| myId := msgMyId msg |>);
        match o with
        | None => mret tt
        | Some info => if ack then ignore (call (TransProxyAckKeepalive info)) else mret tt
        end
    end.

Definition TransProxyProcessKeepAlive : Env -> ProxyMessage -> M unit := keepAlive true.
Definition TransProxyProcessKeepAliveAck : Env -> ProxyMessage -> M unit := keepAlive false.

Definition TransProxyProcessDataRecv (msg : ProxyMessage) : M unit :=
  ok ← calloc;
  if negb ok then mret tt
  else
    '(r, o) ← TransProxyGetRecvMsgChanInfo (msgMyId msg) (msgPeerId msg);
    match o with
    | None => mret tt
    | Some info => ignore (call (OnProxyChannelMsgReceived (channelId info) (appInfo info) (data msg)))
    end.

Definition TransProxyOnMessageReceived (env : Env) (msg : ProxyMessage) : M unit :=
  if msgType msg =? PROXYCHANNEL_MSG_TYPE_HANDSHAKE then TransProxyProcessHandshakeMsg env msg
  else if msgType msg =? PROXYCHANNEL_MSG_TYPE_HANDSHAKE_ACK then TransProxyProcessHandshakeAckMsg env msg
  else if msgType msg =? PROXYCHANNEL_MSG_TYPE_RESET then TransProxyProcessResetMsg env msg
  else if msgType msg =? PROXYCHANNEL_MSG_TYPE_KEEPALIVE then TransProxyProcessKeepAlive env msg
  else if msgType msg =? PROXYCHANNEL_MSG_TYPE_KEEPALIVE_ACK then TransProxyProcessKeepAliveAck env msg
  else if msgType msg =? PROXYCHANNEL_MSG_TYPE_NORMAL then TransProxyProcessDataRecv msg
  else if msgType msg =? PROXYCHANNEL_MSG_TYPE_HANDSHAKE_AUTH then TransProxyProcessHandshakeAuthMsg msg
  else mret tt.

(** ** The timer *)

(** A channel after one second, and whether it leaves the table. *)
Definition timerItem (c : ProxyChannelInfo) : ProxyChannelInfo * bool :=
  let c := c <| timeout := u16 (timeout c + 1) |> in
  let limit := if isD2D c then D2D_CHANNEL_CONTROL_TIMEOUT else PROXY_CHANNEL_CONTROL_TIMEOUT in
  if ((status c =? PROXY_CHANNEL_STATUS_HANDSHAKEING) || (status c =? PROXY_CHANNEL_STATUS_PYH_CONNECTING)) &&
     (timeout c >=? limit)
  then (c <| status := if status c =? PROXY_CHANNEL_STATUS_HANDSHAKEING then PROXY_CHANNEL_STATUS_HANDSHAKE_TIMEOUT
                       else PROXY_CHANNEL_STATUS_CONNECTING_TIMEOUT |>, true)
  else if (status c =? PROXY_CHANNEL_STATUS_KEEPLIVEING) && (timeout c >=? PROXY_CHANNEL_CONTROL_TIMEOUT)
  then (c <| status := PROXY_CHANNEL_STATUS_TIMEOUT |>, true)
  else (c, false).

Definition timerOne (c : ProxyChannelInfo) : M unit :=
  let c := wipeChan (noFastData c) in
  if status c =? PROXY_CHANNEL_STATUS_HANDSHAKE_TIMEOUT then
    ok ← calloc;
    if negb ok then mret tt
    else
      TransProxyPostOpenFailMsgToLoop c SOFTBUS_TRANS_HANDSHAKE_TIMEOUT;;
      TransProxyPostDisConnectMsgToLoop (connId c) (asBool (isServer c)) c
  else if status c =? PROXY_CHANNEL_STATUS_CONNECTING_TIMEOUT then
    TransDelConnByReqId (u32 (reqId c));;
    TransProxyPostOpenFailMsgToLoop c SOFTBUS_TRANS_HANDSHAKE_TIMEOUT
  else if status c =? PROXY_CHANNEL_STATUS_TIMEOUT then TransProxyPostKeepAliveMsgToLoop c
  else mret tt.

Definition TransProxyTimerItemProc (l : list ProxyChannelInfo) : M unit := forEach timerOne l.

Definition TransProxyTimerProc : M unit :=
  l ← lock;
  if negb l then mret tt
  else
    n ← get cnt;
    if n <=? 0 then mret tt
    else
      all ← get chans;
      let items := map timerItem all in
      let out := map fst (List.filter snd items) in
      modify (fun w => w <| chans := map fst (List.filter (fun x => negb (snd x)) items) |>
                         <| cnt := u32 (cnt w - Z.of_nat (length out)) |>);;
      forEach (fun c => releaseChannelId (channelId c)) out;;
      TransProxyTimerItemProc (rev out).

End ProxyChannel.
