(* ===== verification/ProxyLogic.v ===== *)
(** * Proxy channels: specifications

    Total-correctness triples for the monad of [ProxyState], the operations that
    change nothing of a given part of the state, and facts about the lists. *)

From S2P Require Import Prelude ErrorCode Bytes ChannelId ProxyState ProxyTable ProxyChannel.
From stdpp Require Import list.
#[local] Open Scope Z_scope.

Import ChannelId ProxyState ProxyTable ProxyChannel.

Module ProxyLogic.

(** From every state with [P] the operation ends, with [Q]. *)
Definition spec {A} (P : World -> Prop) (m : M A) (Q : A -> World -> Prop) : Prop :=
  forall w, P w -> exists a w', m w = Some (a, w') /\ Q a w'.

Lemma spec_ret {A} (P : World -> Prop) (a : A) (Q : A -> World -> Prop) : (forall w, P w -> Q a w) -> spec P (mret a) Q.
Proof. intros H w Hw. exists a, w. split; [reflexivity|now apply H]. Qed.

Lemma spec_bind {A B} P (m : M A) (k : A -> M B) R Q :
  spec P m R -> (forall a, spec (R a) (k a) Q) -> spec P (m ≫= k) Q.
Proof.
  intros Hm Hk w Hw. destruct (Hm w Hw) as (a & w1 & E & H1). destruct (Hk a w1 H1) as (b & w2 & E2 & H2).
  exists b, w2. split; [|exact H2]. unfold mbind, M_bind. now rewrite E.
Qed.

Lemma spec_weaken {A} (P P' : World -> Prop) (m : M A) (Q Q' : A -> World -> Prop) :
  spec P m Q -> (forall w, P' w -> P w) -> (forall a w, Q a w -> Q' a w) -> spec P' m Q'.
Proof. intros H HP HQ w Hw. destruct (H w (HP w Hw)) as (a & w' & E & HQ'). exists a, w'. split; [exact E|now apply HQ]. Qed.

Lemma spec_get {A} (P : World -> Prop) (f : World -> A) Q : (forall w, P w -> Q (f w) w) -> spec P (get f) Q.
Proof. intros H w Hw. exists (f w), w. split; [reflexivity|now apply H]. Qed.

Lemma spec_modify (P : World -> Prop) f (Q : unit -> World -> Prop) : (forall w, P w -> Q tt (f w)) -> spec P (modify f) Q.
Proof. intros H w Hw. exists tt, (f w). split; [reflexivity|now apply H]. Qed.

Lemma spec_pure {A} (P : World -> Prop) (H : Prop) (m : M A) Q : (H -> spec P m Q) -> spec (fun w => P w /\ H) m Q.
Proof. intros Hm w [Hw HH]. exact (Hm HH w Hw). Qed.

(** ** Operations that keep a part of the state *)

Section Quiet.
Context {T : Type} (part : World -> T).

Definition quiet {A} (m : M A) : Prop := forall w, exists a w', m w = Some (a, w') /\ part w' = part w.

Lemma quiet_spec {A} (P : T -> Prop) (m : M A) : quiet m -> spec (fun w => P (part w)) m (fun _ w => P (part w)).
Proof. intros H w Hw. destruct (H w) as (a & w' & E & Hp). exists a, w'. split; [exact E|now rewrite Hp]. Qed.

Lemma quiet_ret {A} (a : A) : quiet (mret a).
Proof. intros w. now exists a, w. Qed.

Lemma quiet_bind {A B} (m : M A) (k : A -> M B) : quiet m -> (forall a, quiet (k a)) -> quiet (m ≫= k).
Proof.
  intros Hm Hk w. destruct (Hm w) as (a & w1 & E & H1), (Hk a w1) as (b & w2 & E2 & H2). exists b, w2.
  split; [|congruence]. unfold mbind, M_bind. now rewrite E.
Qed.

Lemma quiet_get {A} (f : World -> A) : quiet (get f).
Proof. intros w. now exists (f w), w. Qed.

Lemma quiet_modify f : (forall w, part (f w) = part w) -> quiet (modify f).
Proof. intros H w. exists tt, (f w). split; [reflexivity|apply H]. Qed.

Lemma quiet_forEach {A} (f : A -> M unit) l : (forall x, quiet (f x)) -> quiet (forEach f l).
Proof. intros H. induction l as [|x l IH]; [apply quiet_ret|]. apply quiet_bind; [apply H|intros _; exact IH]. Qed.

End Quiet.

(** ** Lists *)

Lemma find_delFirst {A} (p : A -> bool) l x : find p l = Some x -> Permutation l (x :: delFirst p l).
Proof.
  induction l as [|y l IH]; cbn; [discriminate|]. destruct (p y) eqn:E; [intros [= ->]; reflexivity|].
  intros H. rewrite (IH H) at 1. apply Permutation_swap.
Qed.

Lemma filter_parts {A} (p : A -> bool) l : Permutation l (List.filter p l ++ List.filter (fun x => negb (p x)) l).
Proof.
  induction l as [|x l IH]; [reflexivity|]. cbn. destruct (p x); cbn [negb app]; [now rewrite <- IH|].
  rewrite <- Permutation_middle. now rewrite <- IH.
Qed.

Lemma map_updFirst {A B} (p : A -> bool) (f : A -> A) (g : A -> B) l : (forall x, g (f x) = g x) -> map g (updFirst p f l) = map g l.
Proof. intros H. induction l as [|x l IH]; [reflexivity|]. cbn. destruct (p x); cbn; [now rewrite H|now rewrite IH]. Qed.

Lemma length_updFirst {A} (p : A -> bool) (f : A -> A) l : length (updFirst p f l) = length l.
Proof. induction l as [|x l IH]; [reflexivity|]. cbn. destruct (p x); cbn; [done|now rewrite IH]. Qed.

Lemma existsb_find {A} (p : A -> bool) l : existsb p l = match find p l with Some _ => true | None => false end.
Proof. induction l as [|x l IH]; [reflexivity|]. cbn. destruct (p x); [reflexivity|exact IH]. Qed.

(** ** Events

    What reaches the module from outside: requests of clients and of other
    components, messages of peers, results of the connection layer, the timer, and
    the looper, which handles the message that was posted first. *)

Inductive Event :=
| EvOpen (env : Env) (a : AppInfo) (info : ConnectOption)
| EvClose (id : Z)
| EvMessage (env : Env) (msg : ProxyMessage)
| EvLoop (env : Env)
| EvTimer
| EvConnected (request conn : Z)
| EvConnectFailed (request reason : Z)
| EvDisconnected (conn : Z)
| EvDeath (pkg : list Byte.byte) (pid : Z)
| EvCloseRequest (request : Z)
| EvOpenResult (env : Env) (id openResult : Z) (access : option AccessInfo) (callingPid : Z)
| EvCollab (env : Env) (id checkResult callingPid : Z)
| EvCheckOpen (id : Z)
| EvKeySucc (id : Z)
| EvKeyFail (id errCode : Z)
| EvUserKey (request : option Z) (ukId reason : Z)
| EvSend (id : Z)
| EvAuthHandle (id : Z) (handle : Z * Z)
| EvKeyType (id keyType : Z).

Definition nextMessage (env : Env) : M unit := fun w =>
  match posted w with
  | [] => Some (tt, w)
  | m :: r => TransProxyLoopMsgHandler env m (w <| posted := r |>)
  end.

Definition runEvent (e : Event) : M unit :=
  match e with
  | EvOpen env a info => ignore (TransProxyOpenProxyChannel env a info INVALID_CHANNEL_ID)
  | EvClose id => ignore (TransProxyCloseProxyChannel id)
  | EvMessage env msg => TransProxyOnMessageReceived env msg
  | EvLoop env => nextMessage env
  | EvTimer => TransProxyTimerProc
  | EvConnected request conn => TransOnConnectSucceed request conn
  | EvConnectFailed request reason => TransOnConnectFailed request reason
  | EvDisconnected conn => TransProxyOnDisConnect conn
  | EvDeath pkg p => TransProxyDeathCallback pkg p
  | EvCloseRequest request => TransProxyCloseChannelByRequestId request
  | EvOpenResult env id r access p => ignore (TransDealProxyChannelOpenResult env id r access p)
  | EvCollab env id r p => ignore (TransDealProxyCheckCollabResult env id r p)
  | EvCheckOpen id => TransAsyncProxyChannelTask id
  | EvKeySucc id => TransProxyNegoSessionKeySucc id
  | EvKeyFail id err => TransProxyNegoSessionKeyFail id err
  | EvUserKey request uk reason => HandleProxyGenUkResult request uk reason
  | EvSend id => ignore (TransProxyGetSendMsgChanInfo id)
  | EvAuthHandle id handle => ignore (TransProxySetAuthHandleByChanId id handle)
  | EvKeyType id kt => TransProxySetKeyTypeByChanId id kt
  end.

(** Before an event the surroundings decide what they will answer. *)
Definition surround (ls ms : list bool) (an : list Z) (w : World) : World :=
  w <| locks := ls |> <| mems := ms |> <| answers := an |>.

Definition start : World := mkWorld freshIds [] 0 [] 0 [] [] [] [] [].

(** ** A setting for examples *)

Definition sampleInfo : ConnectionInfo := mkConnInfo CONNECT_BR [Byte.x41] [] [] 0 [] [] 0 [] 0 0 0.
Definition sampleOption : ConnectOption := NO_OPTION <| coType := CONNECT_BR |> <| brMac := [Byte.x41] |>.
Definition sampleApp : AppInfo := NO_APP <| appType := APP_TYPE_NORMAL |> <| pid := 7 |>.

(** Everything succeeds; [request] is the number of the next connection attempt, and a
    handshake or its acknowledgement has [ident]. *)
Definition sampleEnv (request : Z) (ident : list Byte.byte) : Env :=
  mkEnv (fun _ => (SOFTBUS_OK, sampleInfo)) (fun _ => Some CONNECT_BR) (fun _ => SOFTBUS_OK) request
    (fun _ => (SOFTBUS_OK, (ident, sampleApp))) (fun _ c => (SOFTBUS_OK, (ident, appInfo c))) (fun _ => None) (fun _ => None)
    (fun _ => Some ident) (fun _ => None) (fun _ => OH_OS_TYPE) (fun _ => (SOFTBUS_OK, [])) (fun _ => Some [])
    (fun _ => Some (0, 7)) (fun _ => (SOFTBUS_OK, 0)) (fun a => a) (fun _ => true) (fun _ => SOFTBUS_OK) (fun _ _ => SOFTBUS_OK)
    (fun _ => Some 1024) (fun _ => Some false) (fun _ => []) false (fun _ => true) 0 0 ident [].

End ProxyLogic.
