(* ===== verification/ProxyIds.v ===== *)
(** * Proxy channels: numbers

    Every handler of [ProxyChannel] ends and keeps the table of channels well
    formed: the numbers its channels got from [ChannelId] are different and marked
    as used there, the other channels carry the code of the failed allocation in
    place of a number, and the counter is the length of the list. *)

From S2P Require Import Prelude ErrorCode Bytes ChannelId ProxyState ProxyTable ProxyChannel ProxyLogic.
From stdpp Require Import gmap list.
#[local] Open Scope Z_scope.

Import ChannelId ProxyState ProxyTable ProxyChannel ProxyLogic.

Module ProxyIds.

(** ** Numbers in use *)

Definition proxyId (n : Z) : bool := (1025 <=? n) && (n <=? 2048).

Lemma proxyId_spec n : proxyId n = true <-> 1025 <= n <= 2048.
Proof. unfold proxyId. rewrite andb_true_iff, !Z.leb_le. reflexivity. Qed.

(** What stands in place of a number when none could be had: -1 when the search
    found none, the error code when the lock failed, also cut to an int16_t. *)
Definition noNumber (n : Z) : bool :=
  (n =? INVALID_CHANNEL_ID) || (n =? SOFTBUS_LOCK_ERR) || (n =? s16 SOFTBUS_LOCK_ERR).

(** The numbers of [l] that were allocated are different and marked, the others
    are failures. *)
Definition idsOk (s : Ids) (l : list Z) : Prop :=
  exists U, holds s U /\ NoDup (List.filter proxyId l) /\
    (forall n, n ∈ List.filter proxyId l -> n - 1025 ∈ U) /\
    (forall n, n ∈ l -> proxyId n = true \/ noNumber n = true).

#[global] Instance filter_perm {A} (p : A -> bool) : Proper (Permutation ==> Permutation) (List.filter p).
Proof.
  intros l l' H. induction H as [|x l l' _ IH|x y l|l l' l'' _ IH1 _ IH2]; cbn.
  - reflexivity.
  - destruct (p x); [now rewrite IH|exact IH].
  - destruct (p x), (p y); try reflexivity. apply Permutation_swap.
  - now rewrite IH1.
Qed.

#[global] Instance idsOk_perm s : Proper (Permutation ==> iff) (idsOk s).
Proof.
  assert (H : forall l l', Permutation l l' -> idsOk s l -> idsOk s l').
  { intros l l' HP (U & HU & Hd & Hin & Hk). exists U. split; [exact HU|]. rewrite <- HP. split; [exact Hd|].
    split; intros n Hn; [apply Hin|apply Hk]; now rewrite HP. }
  intros l l' HP. split; apply H; [exact HP|now symmetry].
Qed.

Lemma idsOk_drop s n l : idsOk s (n :: l) -> idsOk s l.
Proof.
  intros (U & HU & Hd & Hin & Hk). exists U. split; [exact HU|].
  assert (Hk' : forall m, m ∈ l -> proxyId m = true \/ noNumber m = true) by (intros m Hm; apply Hk; now right).
  cbn in Hd, Hin. destruct (proxyId n); [|now split_and!].
  apply NoDup_cons in Hd as [_ Hd]. split; [exact Hd|]. split; [|exact Hk']. intros m Hm. apply Hin. now apply elem_of_cons; right.
Qed.

Lemma noNumber_spec n : noNumber n = true ->
  n = INVALID_CHANNEL_ID \/ n = SOFTBUS_LOCK_ERR \/ n = s16 SOFTBUS_LOCK_ERR.
Proof. unfold noNumber. rewrite !orb_true_iff, !Z.eqb_eq. tauto. Qed.

Lemma noNumber_outside n : noNumber n = true -> proxyId n = false.
Proof. intros [-> | [-> | ->]]%noNumber_spec; reflexivity. Qed.

Lemma idsOk_outside s n l : noNumber n = true -> idsOk s l -> idsOk s (n :: l).
Proof.
  intros Hn (U & HU & Hd & Hin & Hk). exists U. cbn. rewrite (noNumber_outside n Hn). split_and!; auto.
  intros m [->|Hm]%elem_of_cons; auto.
Qed.

(** A number that is handed out is not in use. *)
Lemma idsOk_generate s l b : idsOk s l -> exists n s', GenerateChannelId false b s = Some (n, s') /\ idsOk s' (n :: l) /\
  (proxyId n = true \/ n = INVALID_CHANNEL_ID \/ n = SOFTBUS_LOCK_ERR).
Proof.
  intros (U & HU & Hd & Hin & Hk). unfold GenerateChannelId. destruct b.
  2:{ exists SOFTBUS_LOCK_ERR, s. split; [reflexivity|]. split; [|now right; right]. apply idsOk_outside; [reflexivity|now exists U]. }
  destruct (GenerateProxyChannelId_ok s U HU) as (n & s' & E & G). exists n, s'. split; [exact E|]. destruct G as [id Hid Hf _| |].
  - assert (Hp : proxyId (id + 1025) = true) by (apply proxyId_spec; unfold isId in Hid; lia). split; [|now left].
    exists ({[id]} ∪ U). split; [now apply taken_holds|]. cbn [List.filter]. rewrite Hp. split_and!.
    + apply NoDup_cons. split; [|exact Hd]. intros Hn%Hin. apply Hf. now replace (id + 1025 - 1025) with id in Hn by lia.
    + intros m [->|Hm%Hin]%elem_of_cons; apply elem_of_union; [left|now right]. apply elem_of_singleton. lia.
    + intros m [->|Hm]%elem_of_cons; [now left|auto].
  - split; [|now right; left]. apply idsOk_outside; [reflexivity|now exists U].
  - split; [|now right; left]. apply idsOk_outside; [reflexivity|now exists U].
Qed.

(** A number that is given back may be handed out again. *)
Lemma idsOk_release s n l b : idsOk s (n :: l) -> idsOk (ReleaseProxyChannelId b n s) l.
Proof.
  intros H. destruct (proxyId n) eqn:Hp.
  2:{ rewrite Release_outside; [now apply (idsOk_drop s n)|]. unfold proxyId in Hp. apply andb_false_iff in Hp as [Hp|Hp]; apply Z.leb_gt in Hp; lia. }
  destruct b; [|unfold ReleaseProxyChannelId; destruct (_ || _); now apply (idsOk_drop s n)].
  destruct H as (U & HU & Hd & Hin & Hk). cbn in Hd, Hin. rewrite Hp in Hd, Hin. apply NoDup_cons in Hd as [Hn Hd].
  exists (U ∖ {[n - 1025]}). split; [|split; [exact Hd|split; [|intros m Hm; apply Hk; now right]]].
  - replace n with (n - 1025 + 1025) at 1 by lia. apply Release_holds; [exact HU|]. apply Hin. now apply elem_of_cons; left.
  - intros m Hm. apply elem_of_difference. split; [apply Hin; now apply elem_of_cons; right|].
    rewrite elem_of_singleton. intros E. apply Hn. now replace n with m by lia.
Qed.

Lemma idsOk_app_drop s l R : idsOk s (l ++ R) -> idsOk s R.
Proof. induction l as [|x l IH]; [done|]. intros H. apply IH. exact (idsOk_drop s x _ H). Qed.

(** ** The table *)

(** What the table has of the numbers. *)
Definition idView (w : World) : Ids * list Z * Z := (ids w, map channelId (chans w), cnt w).

(** [R]: numbers that are reserved and not yet, or no longer, in the table.  Only
    allocated numbers are unique; a channel without one is in the table too. *)
Definition tableOk (R : list Z) (v : Ids * list Z * Z) : Prop :=
  idsOk (fst (fst v)) (snd (fst v) ++ R) /\ snd v = u32 (Z.of_nat (length (snd (fst v)))).

(** The operation ends, and turns the reserved numbers [R] into [R' a]. *)
Definition keeps {A} (R : list Z) (m : M A) (R' : A -> list Z) : Prop :=
  spec (fun w => tableOk R (idView w)) m (fun a w => tableOk (R' a) (idView w)).

Lemma tableOk_perm R R' v : Permutation R R' -> tableOk R v -> tableOk R' v.
Proof. intros HP [H Hc]. split; [now rewrite <- HP|exact Hc]. Qed.

Lemma tableOk_drop n R v : tableOk (n :: R) v -> tableOk R v.
Proof. intros [H Hc]. split; [|exact Hc]. rewrite <- Permutation_middle in H. exact (idsOk_drop _ n _ H). Qed.

Lemma tableOk_app_drop l R v : tableOk (l ++ R) v -> tableOk R v.
Proof. induction l as [|n l IH]; [done|]. intros H. exact (IH (tableOk_drop n _ _ H)). Qed.

Lemma keeps_quiet {A} R (m : M A) : quiet idView m -> keeps R m (fun _ => R).
Proof. exact (quiet_spec idView (tableOk R) m). Qed.

Lemma keeps_bind {A B} R (m : M A) (k : A -> M B) R1 R' : keeps R m R1 -> (forall a, keeps (R1 a) (k a) R') -> keeps R (m ≫= k) R'.
Proof. apply spec_bind. Qed.

Lemma keeps_ret {A} R (a : A) (R' : A -> list Z) : R' a = R -> keeps R (mret a) R'.
Proof. intros E. apply spec_ret. intros w. now rewrite E. Qed.

Lemma keeps_drop {A} R n (m : M A) R' : keeps R m R' -> keeps (n :: R) m R'.
Proof. intros H. apply (spec_weaken _ _ _ _ _ H); [intros w; apply tableOk_drop|done]. Qed.

(** ** Operations that do not change the numbers *)

Create HintDb qids.

Lemma q_lock : quiet idView lock.
Proof. intros w. unfold lock. destruct (locks w); eexists _, _; (split; [reflexivity|reflexivity]). Qed.
Lemma q_calloc : quiet idView calloc.
Proof. intros w. unfold calloc. destruct (mems w); eexists _, _; (split; [reflexivity|reflexivity]). Qed.
Lemma q_result : quiet idView result.
Proof. intros w. unfold result. destruct (answers w); eexists _, _; (split; [reflexivity|reflexivity]). Qed.
Lemma q_tell n : quiet idView (tell n).
Proof. now apply quiet_modify. Qed.
Lemma q_post m : quiet idView (PostMessage m).
Proof. now apply quiet_modify. Qed.
#[local] Hint Resolve quiet_ret quiet_get q_lock q_calloc q_result q_tell q_post : qids.

Ltac quiet_step :=
  match goal with
  | |- quiet _ (?m ≫= ?k) => apply quiet_bind; [|intros ?]
  | |- quiet _ (let x := _ in _) => cbv zeta
  | |- quiet _ (match ?x with _ => _ end) => destruct x
  | |- quiet _ (forEach _ _) => apply quiet_forEach; intros ?
  | |- quiet _ (modify _) => apply quiet_modify; reflexivity
  | |- quiet _ _ => solve [eauto with qids]
  | |- forall _, _ => intros ?
  end.
Ltac quiet_tac := repeat quiet_step.

Lemma q_locked {A} (x : A) m : quiet idView m -> quiet idView (locked x m).
Proof. intros H. unfold locked. quiet_tac; assumption. Qed.
Lemma q_call n : quiet idView (call n).
Proof. unfold call. quiet_tac. Qed.
#[local] Hint Resolve q_locked q_call : qids.
Lemma q_ignore {A} (m : M A) : quiet idView m -> quiet idView (ignore m).
Proof. intros H. unfold ignore. quiet_tac; assumption. Qed.
#[local] Hint Resolve q_ignore : qids.
Lemma q_findChan p : quiet idView (findChan p).
Proof. unfold findChan. quiet_tac. Qed.
Lemma q_updChan p f : (forall c, channelId (f c) = channelId c) -> quiet idView (updChan p f).
Proof. intros H. apply quiet_modify. intros w. unfold idView. cbn. now rewrite map_updFirst. Qed.
#[local] Hint Resolve q_findChan q_updChan : qids.

Lemma q_post_msg m : quiet idView (TransProxyCreateLoopMsg m).
Proof. unfold TransProxyCreateLoopMsg. quiet_tac. Qed.
#[local] Hint Resolve q_post_msg : qids.
Lemma q_post_handshake n : quiet idView (TransProxyPostHandshakeMsgToLoop n).
Proof. unfold TransProxyPostHandshakeMsgToLoop. quiet_tac. Qed.
#[local] Hint Resolve q_post_handshake : qids.

Lemma q_updById n e f : (forall c, channelId (f c) = channelId c) -> quiet idView (updById n e f).
Proof. intros H. unfold updById. apply q_locked. quiet_tac. Qed.
Lemma q_readChan {A} p e (f : _ -> A) : quiet idView (readChan p e f).
Proof. unfold readChan. apply q_locked. quiet_tac. Qed.
Lemma q_useChan {A} p e f (out : _ -> Z * option A) : (forall c, channelId (f c) = channelId c) -> quiet idView (useChan p e f out).
Proof. intros H. unfold useChan. apply q_locked. quiet_tac. Qed.
#[local] Hint Resolve q_updById q_readChan q_useChan : qids.

(** The table of connections. *)
Lemma q_delConn p : quiet idView (delConn p). Proof. unfold delConn. quiet_tac. Qed.
Lemma q_addConn c : quiet idView (addConn c). Proof. unfold addConn. quiet_tac. Qed.
Lemma q_updConn p f : quiet idView (updConn p f). Proof. unfold updConn. quiet_tac. Qed.
#[local] Hint Resolve q_delConn q_addConn q_updConn : qids.
Lemma q_TransDelConnByReqId r : quiet idView (TransDelConnByReqId r).
Proof. apply q_locked. quiet_tac. Qed.
Lemma q_TransDelConnByConnId c : quiet idView (TransDelConnByConnId c).
Proof. unfold TransDelConnByConnId. destruct (_ =? _); [quiet_tac|]. apply q_locked. quiet_tac. Qed.
Lemma q_TransDecConnRefByConnId c s d : quiet idView (TransDecConnRefByConnId c s d).
Proof. unfold TransDecConnRefByConnId. destruct (_ =? _); [quiet_tac|]. apply q_locked. quiet_tac. Qed.
Lemma q_TransAddConnRefByConnId c s : quiet idView (TransAddConnRefByConnId c s).
Proof. apply q_locked. quiet_tac. Qed.
Lemma q_TransAddConnItem c : quiet idView (TransAddConnItem c).
Proof. apply q_locked. quiet_tac. Qed.
Lemma q_TransCreateConnByConnId env c s : quiet idView (TransCreateConnByConnId env c s).
Proof. unfold TransCreateConnByConnId. destruct (ConnGetConnectionInfo env c) as [r i]. destruct (negb _); [quiet_tac|]. apply q_locked. quiet_tac. Qed.
Lemma q_TransGetConn o s : quiet idView (TransGetConn o s).
Proof. apply q_locked. quiet_tac. Qed.
Lemma q_TransSetConnStateByReqId r c st : quiet idView (TransSetConnStateByReqId r c st).
Proof. apply q_locked. quiet_tac. Qed.
Lemma q_TransProxyGetConnInfoByConnId c : quiet idView (TransProxyGetConnInfoByConnId c).
Proof. apply q_locked. quiet_tac. Qed.
#[local] Hint Resolve q_TransDelConnByReqId q_TransDelConnByConnId q_TransDecConnRefByConnId q_TransAddConnRefByConnId
  q_TransAddConnItem q_TransCreateConnByConnId q_TransGetConn q_TransSetConnStateByReqId q_TransProxyGetConnInfoByConnId : qids.
Lemma q_TransProxyCloseConnChannel c s d : quiet idView (TransProxyCloseConnChannel c s d).
Proof. unfold TransProxyCloseConnChannel. quiet_tac. Qed.
Lemma q_TransProxyCloseConnChannelReset c x s t d : quiet idView (TransProxyCloseConnChannelReset c x s t d).
Proof. unfold TransProxyCloseConnChannelReset. quiet_tac. Qed.
Lemma q_TransProxyUnRegQosInfo c n d : quiet idView (TransProxyUnRegQosInfo c n d).
Proof. unfold TransProxyUnRegQosInfo. quiet_tac. Qed.
#[local] Hint Resolve q_TransProxyCloseConnChannel q_TransProxyCloseConnChannelReset q_TransProxyUnRegQosInfo : qids.

(** Channels that are read or changed. *)
Lemma id_specialUpdate i c : channelId (specialUpdate i c) = channelId c.
Proof. unfold specialUpdate. cbv zeta. repeat destruct (negb _); destruct (_ =? _); reflexivity. Qed.
Lemma id_used c : channelId (used c) = channelId c.
Proof. unfold used. now destruct (_ =? _). Qed.
Lemma id_keptAlive c : channelId (keptAlive c) = channelId c.
Proof. unfold keptAlive. now destruct (_ || _). Qed.
Lemma id_countReply c : channelId (countReply c) = channelId c.
Proof. unfold countReply. cbv zeta. now destruct (negb _). Qed.
#[local] Hint Resolve id_specialUpdate id_used id_keptAlive id_countReply : qids.

Lemma q_TransProxySpecialUpdateChanInfo i : quiet idView (TransProxySpecialUpdateChanInfo i).
Proof. unfold TransProxySpecialUpdateChanInfo. auto with qids. Qed.
Lemma q_TransProxyGetChanByChanId n : quiet idView (TransProxyGetChanByChanId n).
Proof. unfold TransProxyGetChanByChanId. auto with qids. Qed.
Lemma q_TransProxyUpdateAckInfo i : quiet idView (TransProxyUpdateAckInfo i).
Proof. apply q_locked. quiet_tac. Qed.
Lemma q_TransProxyUpdateSinkAccessInfo env n a : quiet idView (TransProxyUpdateSinkAccessInfo env n a).
Proof. unfold TransProxyUpdateSinkAccessInfo. destruct a as [a|]; [|quiet_tac]. destruct (_ =? _); [quiet_tac|]. apply q_locked. quiet_tac. Qed.
Lemma q_TransProxyGetRecvMsgChanInfo m p : quiet idView (TransProxyGetRecvMsgChanInfo m p).
Proof. unfold TransProxyGetRecvMsgChanInfo. auto with qids. Qed.
Lemma q_TransProxyKeepAliveChan i : quiet idView (TransProxyKeepAliveChan i).
Proof. unfold TransProxyKeepAliveChan. auto with qids. Qed.
Lemma q_TransProxyGetAppInfoById n : quiet idView (TransProxyGetAppInfoById n).
Proof. unfold TransProxyGetAppInfoById. auto with qids. Qed.
Lemma q_TransProxyGetAppInfoByChanId n : quiet idView (TransProxyGetAppInfoByChanId n).
Proof. unfold TransProxyGetAppInfoByChanId. auto with qids. Qed.
Lemma q_TransProxyGetReqIdAndStatus n : quiet idView (TransProxyGetReqIdAndStatus n).
Proof. unfold TransProxyGetReqIdAndStatus. auto with qids. Qed.
Lemma q_TransProxyUpdateReplyCnt n : quiet idView (TransProxyUpdateReplyCnt n).
Proof. unfold TransProxyUpdateReplyCnt. auto with qids. Qed.
Lemma q_TransProxyResetReplyCnt n : quiet idView (TransProxyResetReplyCnt n).
Proof. unfold TransProxyResetReplyCnt. auto with qids. Qed.
Lemma q_TransCheckProxyChannelOpenStatus n : quiet idView (TransCheckProxyChannelOpenStatus n).
Proof. unfold TransCheckProxyChannelOpenStatus. auto with qids. Qed.
Lemma q_TransGetRemoteDeviceIdByReqId n : quiet idView (TransGetRemoteDeviceIdByReqId n).
Proof. unfold TransGetRemoteDeviceIdByReqId. auto with qids. Qed.
#[local] Hint Resolve q_TransProxySpecialUpdateChanInfo q_TransProxyGetChanByChanId q_TransProxyUpdateAckInfo
  q_TransProxyUpdateSinkAccessInfo q_TransProxyGetRecvMsgChanInfo q_TransProxyKeepAliveChan q_TransProxyGetAppInfoById
  q_TransProxyGetAppInfoByChanId q_TransProxyGetReqIdAndStatus q_TransProxyUpdateReplyCnt q_TransProxyResetReplyCnt
  q_TransCheckProxyChannelOpenStatus q_TransGetRemoteDeviceIdByReqId : qids.

Lemma q_TransProxyChanProcessByReqId r c e : quiet idView (TransProxyChanProcessByReqId r c e).
Proof.
  unfold TransProxyChanProcessByReqId. quiet_tac. apply quiet_modify. intros w. unfold idView. cbn. rewrite map_map.
  f_equal. f_equal. apply map_ext. intros c'. now destruct (waiting r c').
Qed.
#[local] Hint Resolve q_TransProxyChanProcessByReqId : qids.

(** ** Numbers that come and go *)

Lemma u32_minus n k : u32 (u32 n - k) = u32 (n - k).
Proof. unfold u32. now rewrite Zminus_mod_idemp_l. Qed.
Lemma u32_plus n k : u32 (u32 n + k) = u32 (n + k).
Proof. unfold u32. now rewrite Zplus_mod_idemp_l. Qed.

Lemma keeps_release n R : keeps (n :: R) (releaseChannelId n) (fun _ => R).
Proof.
  unfold releaseChannelId. destruct (_ || _).
  - apply spec_ret. intros w. apply tableOk_drop.
  - eapply keeps_bind; [apply keeps_quiet, q_lock|]. intros b. apply spec_modify. intros w [H Hc]. split; [|exact Hc].
    unfold idView in *. cbn in *. apply idsOk_release. now rewrite Permutation_middle.
Qed.

Lemma keeps_new R : keeps R newChannelId (fun n => n :: R).
Proof.
  unfold newChannelId. eapply keeps_bind; [apply keeps_quiet, q_lock|]. intros b w [H Hc]. unfold idView in H. cbn [fst snd] in H.
  destruct (idsOk_generate _ _ b H) as (n & s & E & H' & _). exists n, (w <| ids := s |>). split; [now rewrite E|].
  split; [|exact Hc]. cbn. now rewrite <- Permutation_middle.
Qed.

(** The number as int16_t. *)
Lemma keeps_new16 R : keeps R newChannelId (fun n => s16 n :: R).
Proof.
  unfold newChannelId. eapply keeps_bind; [apply keeps_quiet, q_lock|]. intros b w [H Hc]. unfold idView in H. cbn [fst snd] in H.
  destruct (idsOk_generate _ _ b H) as (n & s & E & H' & Hn). exists n, (w <| ids := s |>). split; [now rewrite E|].
  split; [|exact Hc]. cbn. rewrite <- Permutation_middle. destruct Hn as [Hn|[-> | ->]].
  - apply proxyId_spec in Hn. unfold s16. rewrite Z.mod_small by lia. now replace (n + 32768 - 32768) with n by lia.
  - exact H'.
  - apply idsOk_outside; [reflexivity|]. exact (idsOk_drop _ _ _ H').
Qed.

Lemma keeps_takeChan p R : keeps R (takeChan p) (fun o => match o with Some c => channelId c :: R | None => R end).
Proof.
  intros w [H Hc]. unfold takeChan, findChan, get, mbind, M_bind. destruct (find p (chans w)) as [c|] eqn:E.
  - eexists _, _. split; [reflexivity|]. apply find_delFirst in E. unfold idView in *. cbn in *. split; cbn.
    + rewrite <- Permutation_middle. rewrite (Permutation_map channelId E) in H. exact H.
    + rewrite Hc, u32_minus. do 2 f_equal. rewrite !length_map, (Permutation_length E). cbn [length]. lia.
  - now exists None, w.
Qed.

Lemma keeps_takeChans p R : keeps R (takeChans p) (fun l => map channelId l ++ R).
Proof.
  intros w [H Hc]. unfold takeChans, get, modify, mbind, M_bind. eexists _, _. split; [reflexivity|].
  pose proof (filter_parts p (chans w)) as E. unfold idView in *. cbn in *. split; cbn.
  - rewrite (Permutation_map channelId E), map_app in H. rewrite <- app_assoc in H. rewrite app_assoc, (Permutation_app_comm (map _ _) (map _ _)), <- app_assoc. exact H.
  - rewrite Hc, u32_minus. do 2 f_equal. rewrite !length_map. pose proof (Permutation_length E) as El. rewrite length_app in El. lia.
Qed.

Lemma keeps_add c R : keeps (channelId c :: R) (TransProxyAddChanItem c) (fun r => if r =? SOFTBUS_OK then R else channelId c :: R).
Proof.
  unfold TransProxyAddChanItem, locked. eapply keeps_bind; [apply keeps_quiet, q_lock|]. intros [|].
  - intros w [H Hc]. exists SOFTBUS_OK. eexists. split; [reflexivity|]. cbn. unfold idView in *. cbn in *. split; cbn.
    + now rewrite <- Permutation_middle in H.
    + rewrite Hc, u32_plus. do 2 f_equal. lia.
  - now apply keeps_ret.
Qed.

Lemma keeps_forEach (f : ProxyChannelInfo -> M unit) l R :
  (forall c R, keeps (channelId c :: R) (f c) (fun _ => R)) -> keeps (map channelId l ++ R) (forEach f l) (fun _ => R).
Proof.
  intros H. induction l as [|c l IH]; [now apply keeps_ret|]. cbn [forEach map app]. eapply keeps_bind; [apply H|]. intros ?. exact IH.
Qed.

Lemma keeps_rev {A} l R (m : M A) R' : keeps (map channelId l ++ R) m R' -> keeps (map channelId (rev l) ++ R) m R'.
Proof.
  intros H. apply (spec_weaken _ _ _ _ _ H); [|done]. intros w. apply tableOk_perm. now rewrite <- Permutation_rev.
Qed.

Lemma keeps_none {A} l R (m : M A) R' : keeps R m R' -> keeps (map channelId l ++ R) m R'.
Proof. intros H. apply (spec_weaken _ _ _ _ _ H); [intros w; apply tableOk_app_drop|done]. Qed.

(** ** Handlers that keep the reserved numbers *)

Definition stable {A} (m : M A) : Prop := forall R, keeps R m (fun _ => R).

Lemma stable_quiet {A} (m : M A) : quiet idView m -> stable m.
Proof. intros H R. now apply keeps_quiet. Qed.
Lemma stable_bind {A B} (m : M A) (k : A -> M B) : stable m -> (forall a, stable (k a)) -> stable (m ≫= k).
Proof. intros Hm Hk R. eapply keeps_bind; [apply Hm|]. intros a. apply Hk. Qed.
Lemma stable_forEach {A} (f : A -> M unit) l : (forall x, stable (f x)) -> stable (forEach f l).
Proof. intros H. induction l as [|x l IH]; [apply stable_quiet, quiet_ret|]. cbn. apply stable_bind; [apply H|]. intros ?. exact IH. Qed.

Create HintDb sids.
Ltac stable_step :=
  match goal with
  | |- stable (?m ≫= ?k) => apply stable_bind; [|intros ?]
  | |- stable (let x := _ in _) => cbv zeta
  | |- stable (match ?x with _ => _ end) => destruct x
  | |- stable _ => first [solve [auto with sids] | solve [apply stable_quiet; quiet_tac]]
  end.
Ltac stable_tac := repeat stable_step.

Lemma s_locked {A} (x : A) m : stable m -> stable (locked x m).
Proof. intros H. unfold locked. apply stable_bind; [stable_tac|]. intros [|]; [exact H|stable_tac]. Qed.
Lemma s_ignore {A} (m : M A) : stable m -> stable (ignore m).
Proof. intros H. unfold ignore. stable_tac; assumption. Qed.
#[local] Hint Resolve s_ignore : sids.

Lemma s_TransProxyDelChanByReqId r e : stable (TransProxyDelChanByReqId r e).
Proof.
  apply s_locked. intros R. eapply keeps_bind; [apply keeps_takeChans|]. intros l. apply keeps_forEach. intros c R'.
  eapply keeps_bind; [apply keeps_release|]. intros ?. apply keeps_quiet. unfold TransProxyPostOpenFailMsgToLoop. quiet_tac.
Qed.
Lemma s_TransProxyDelChanByChanId n : stable (TransProxyDelChanByChanId n).
Proof.
  apply s_locked. intros R. eapply keeps_bind; [apply keeps_takeChan|]. intros [c|]; [apply keeps_release|now apply keeps_ret].
Qed.
Lemma s_TransProxyDelByChannelId n : stable (TransProxyDelByChannelId n).
Proof.
  apply s_locked. intros R. eapply keeps_bind; [apply keeps_takeChan|]. intros [c|]; [|now apply keeps_ret].
  eapply keeps_bind; [apply keeps_release|]. intros ?. apply keeps_quiet. quiet_tac.
Qed.
Lemma s_TransProxyResetChan i : stable (TransProxyResetChan i).
Proof.
  apply s_locked. intros R. eapply keeps_bind; [apply keeps_takeChan|]. intros [c|]; [|now apply keeps_ret].
  eapply keeps_bind; [apply keeps_release|]. intros ?. now apply keeps_ret.
Qed.
#[local] Hint Resolve s_TransProxyDelChanByReqId s_TransProxyDelChanByChanId s_TransProxyDelByChannelId s_TransProxyResetChan : sids.

Lemma q_TransProxyOpenProxyChannelFail n a e : quiet idView (TransProxyOpenProxyChannelFail n a e).
Proof. unfold TransProxyOpenProxyChannelFail. quiet_tac. Qed.
Lemma q_TransProxyUpdateBlePriority c p : quiet idView (TransProxyUpdateBlePriority c p).
Proof. unfold TransProxyUpdateBlePriority. quiet_tac. Qed.
#[local] Hint Resolve q_TransProxyOpenProxyChannelFail q_TransProxyUpdateBlePriority : qids.

Lemma s_TransProxyCloseProxyChannel n : stable (TransProxyCloseProxyChannel n).
Proof. unfold TransProxyCloseProxyChannel, TransProxyPostResetPeerMsgToLoop. stable_tac. Qed.
#[local] Hint Resolve s_TransProxyCloseProxyChannel : sids.
Lemma q_TransProxyResetAndCloseConn c : quiet idView (TransProxyResetAndCloseConn c).
Proof. unfold TransProxyResetAndCloseConn. quiet_tac. Qed.
#[local] Hint Resolve q_TransProxyResetAndCloseConn : qids.

Lemma keeps_releaseOne e c R : keeps (channelId c :: R) (releaseOne e c) (fun _ => R).
Proof.
  unfold releaseOne. eapply keeps_bind; [apply keeps_quiet; quiet_tac|]. intros ?.
  eapply keeps_bind; [apply keeps_quiet; quiet_tac|]. intros ?. apply keeps_release.
Qed.

Lemma s_TransProxyDelByConnId c : stable (TransProxyDelByConnId c).
Proof.
  intros R. unfold TransProxyDelByConnId. eapply keeps_bind; [apply keeps_quiet, q_lock|]. intros [|]; [|now apply keeps_ret].
  eapply keeps_bind; [apply keeps_takeChans|]. intros l. apply (spec_weaken (fun w => tableOk (map channelId (rev l) ++ R) (idView w)) _ _ (fun _ w => tableOk R (idView w))).
  - apply keeps_forEach. intros c'. apply keeps_releaseOne.
  - intros w. apply tableOk_perm. now rewrite <- Permutation_rev.
  - done.
Qed.
#[local] Hint Resolve s_TransProxyDelByConnId : sids.

Lemma s_destroyChans p : stable (destroyChans p).
Proof.
  intros R. unfold destroyChans. eapply keeps_bind; [apply keeps_quiet, q_lock|]. intros [|]; [|now apply keeps_ret].
  eapply keeps_bind; [apply keeps_takeChans|]. intros l. eapply keeps_bind; [apply keeps_forEach; intros c R'; apply keeps_release|].
  intros ?. apply keeps_quiet. unfold TransProxyDestroyChannelList, destroyOne. quiet_tac.
Qed.


Lemma s_TransProxyOnDisConnect c : stable (TransProxyOnDisConnect c).
Proof. unfold TransProxyOnDisConnect. stable_tac. Qed.
Lemma s_TransProxyNegoSessionKeyFail n e : stable (TransProxyNegoSessionKeyFail n e).
Proof. unfold TransProxyNegoSessionKeyFail. stable_tac. Qed.
#[local] Hint Resolve s_TransProxyOnDisConnect s_TransProxyNegoSessionKeyFail : sids.
Lemma s_TransProxyNegoSessionKeySucc n : stable (TransProxyNegoSessionKeySucc n).
Proof. unfold TransProxyNegoSessionKeySucc. stable_tac. Qed.
Lemma s_TransProxyOpenProxyChannelSuccess env n : stable (TransProxyOpenProxyChannelSuccess env n).
Proof. unfold TransProxyOpenProxyChannelSuccess. stable_tac. Qed.
#[local] Hint Resolve s_TransProxyOpenProxyChannelSuccess : sids.
Lemma s_TransProxyLoopMsgHandler env m : stable (TransProxyLoopMsgHandler env m).
Proof. destruct m; cbn [TransProxyLoopMsgHandler]; stable_tac. Qed.
Lemma s_TransOnConnectSucceed r c : stable (TransOnConnectSucceed r c).
Proof. unfold TransOnConnectSucceed. stable_tac. Qed.
Lemma s_TransOnConnectFailed r e : stable (TransOnConnectFailed r e).
Proof. unfold TransOnConnectFailed. stable_tac. Qed.

(** ** Opening *)

Lemma q_TransProxyConnExistProc s n o : quiet idView (TransProxyConnExistProc s n o).
Proof. unfold TransProxyConnExistProc. quiet_tac. Qed.
#[local] Hint Resolve q_TransProxyConnExistProc : qids.
Lemma s_TransProxyOpenNewConnChannel env m o n : stable (TransProxyOpenNewConnChannel env m o n).
Proof. unfold TransProxyOpenNewConnChannel. stable_tac. Qed.
#[local] Hint Resolve s_TransProxyOpenNewConnChannel : sids.
Lemma s_openConn env n o : stable (openConn env n o).
Proof. unfold openConn. stable_tac. Qed.

Lemma keeps_TransProxyCreateChanInfo env c n a R :
  keeps (n :: R) (TransProxyCreateChanInfo env c n a) (fun r => if r =? SOFTBUS_OK then R else n :: R).
Proof.
  unfold TransProxyCreateChanInfo. cbv zeta. eapply keeps_bind; [apply keeps_quiet; quiet_tac|]. intros r.
  destruct (r =? SOFTBUS_OK) eqn:Er; cbn [negb]; [|apply keeps_ret; now rewrite Er].
  eapply keeps_bind; [apply keeps_quiet; quiet_tac|]. intros r'.
  destruct (r' =? SOFTBUS_OK) eqn:Er'; cbn [negb]; [|apply keeps_ret; now rewrite Er'].
  match goal with |- keeps _ (TransProxyAddChanItem ?x) _ => exact (keeps_add x R) end.
Qed.

(** The body of TransProxyOpenConnChannel once the number is known. *)
Lemma keeps_open env a o n given R :
  keeps (n :: R)
    (if n <=? INVALID_CHANNEL_ID then mret (SOFTBUS_TRANS_INVALID_CHANNEL_ID, given)
     else
       ok ← calloc;
       if negb ok then releaseChannelId n;; mret (SOFTBUS_MALLOC_ERR, given)
       else
         r ← TransProxyCreateChanInfo env (NO_CHAN <| type := coType o |>) n a;
         if negb (r =? SOFTBUS_OK) then releaseChannelId n;; mret (SOFTBUS_TRANS_PROXY_CREATE_CHANNEL_FAILED, given)
         else
           ret ← openConn env n o;
           if ret =? SOFTBUS_OK then mret (ret, n)
           else
             (if (ret =? SOFTBUS_TRANS_PROXY_CONN_ADD_REF_FAILED) || (ret =? SOFTBUS_TRANS_PROXY_CONN_REPEAT)
              then TransProxyDelChanByChanId n else mret tt);;
             mret (ret, given))
    (fun _ => R).
Proof.
  destruct (n <=? INVALID_CHANNEL_ID); [apply keeps_drop; now apply keeps_ret|].
  eapply keeps_bind; [apply keeps_quiet, q_calloc|]. intros [|]; cbn [negb].
  - eapply keeps_bind; [apply keeps_TransProxyCreateChanInfo|]. intros r. cbv beta. destruct (r =? SOFTBUS_OK); cbn [negb].
    + apply stable_bind; [apply s_openConn|]. intros r'. stable_tac.
    + eapply keeps_bind; [apply keeps_release|]. intros ?. now apply keeps_ret.
  - eapply keeps_bind; [apply keeps_release|]. intros ?. now apply keeps_ret.
Qed.

Lemma keeps_TransProxyOpenConnChannel_new env a o R : keeps R (TransProxyOpenConnChannel env a o INVALID_CHANNEL_ID) (fun _ => R).
Proof. unfold TransProxyOpenConnChannel. cbn [negb Z.eqb]. eapply keeps_bind; [apply keeps_new|]. intros n. apply keeps_open. Qed.

Lemma keeps_TransProxyOpenConnChannel env a o n R : n <> INVALID_CHANNEL_ID ->
  keeps (n :: R) (TransProxyOpenConnChannel env a o n) (fun _ => R).
Proof.
  intros Hn. unfold TransProxyOpenConnChannel. destruct (Z.eqb_spec n INVALID_CHANNEL_ID); [done|]. cbn [negb].
  exact (keeps_open env a o n n R).
Qed.

Lemma s_TransProxyProcessErrMsg i e : stable (TransProxyProcessErrMsg i e).
Proof. unfold TransProxyProcessErrMsg. stable_tac. Qed.
Lemma s_failAck i e : stable (failAck i e).
Proof. unfold failAck. stable_tac. Qed.
#[local] Hint Resolve s_TransProxyProcessErrMsg s_failAck : sids.
Lemma s_TransProxyProcessHandshakeAckMsg env m : stable (TransProxyProcessHandshakeAckMsg env m).
Proof. unfold TransProxyProcessHandshakeAckMsg. stable_tac. Qed.

(** ** The other side *)

Lemma id_GetLocalInfo env c : channelId (snd (TransProxyGetLocalInfo env c)) = channelId c.
Proof. unfold TransProxyGetLocalInfo. cbv zeta. repeat case_match; reflexivity. Qed.

Lemma id_checkIncoming env m c : channelId (snd (checkIncoming env m c)) = channelId c.
Proof.
  unfold checkIncoming. pose proof (id_GetLocalInfo env c) as H. destruct (TransProxyGetLocalInfo env c) as [r c1]. cbn [snd] in H.
  rewrite <- H. repeat case_match; cbn; simplify_eq; reflexivity.
Qed.

Lemma id_Construct c m n i : channelId (ConstructProxyChannelInfo c m n i) = n.
Proof. unfold ConstructProxyChannelInfo. cbv zeta. repeat case_match; reflexivity. Qed.

Lemma keeps_CheckAndGenerate env c R : spec (fun w => tableOk R (idView w)) (CheckAndGenerateSinkSessionKey env c)
  (fun rc w => tableOk R (idView w) /\ channelId (snd rc) = channelId c).
Proof.
  unfold CheckAndGenerateSinkSessionKey. cbv zeta. destruct (GetCapabilityBit _ _).
  - eapply spec_bind; [apply (keeps_quiet R), q_call|]. intros r. apply spec_ret. intros w Hw. now split.
  - apply spec_ret. intros w Hw. now split.
Qed.

(** A reserved number is not 0. *)
Lemma tableOk_nonzero n R v : tableOk (n :: R) v -> n <> 0.
Proof.
  intros [(U & _ & _ & _ & Hk) _] ->. destruct (Hk 0) as [H|H]; [|discriminate H|discriminate H].
  apply elem_of_app. right. now left.
Qed.

(** The number of the channel that is filled in is reserved, unless it is the 0 of a
    message that is refused before a number is taken. *)
Definition withNumber (n : Z) (R : list Z) : list Z := if n =? 0 then R else n :: R.

Lemma spec_TransProxyFillChannelInfo env m R :
  spec (fun w => tableOk R (idView w)) (TransProxyFillChannelInfo env m NO_CHAN)
    (fun rc w => tableOk (withNumber (channelId (snd rc)) R) (idView w) /\ (fst rc = SOFTBUS_OK -> channelId (snd rc) <> 0)).
Proof.
  assert (Hrefuse : forall r c, r <> SOFTBUS_OK -> channelId c = 0 -> spec (fun w => tableOk R (idView w)) (mret (r, c))
    (fun rc w => tableOk (withNumber (channelId (snd rc)) R) (idView w) /\ (fst rc = SOFTBUS_OK -> channelId (snd rc) <> 0))).
  { intros r c Hr Hc. apply spec_ret. intros w Hw. cbn [fst snd]. rewrite Hc. split; [exact Hw|contradiction]. }
  unfold TransProxyFillChannelInfo. destruct (TransProxyUnpackHandshakeMsg env (data m)) as [r [ident a]]. cbv zeta.
  destruct (Z.eqb_spec r SOFTBUS_OK); cbn [negb]; [|now apply Hrefuse].
  eapply spec_bind; [apply keeps_CheckAndGenerate|]. intros [r1 c1]. apply spec_pure. cbn [snd]. intros Hid. change (channelId c1 = 0) in Hid.
  destruct (Z.eqb_spec r1 SOFTBUS_OK); cbn [negb]; [|now apply Hrefuse].
  destruct (ConnGetConnectionInfo env (msgConnId m)) as [r2 info].
  destruct (Z.eqb_spec r2 SOFTBUS_OK); cbn [negb]; [|now apply Hrefuse].
  destruct (ConnGetTypeByConnectionId env (msgConnId m)) as [t|]; [|now apply Hrefuse].
  eapply spec_bind; [apply (keeps_new16 R)|]. intros n. apply spec_ret. intros w Hw. rewrite id_checkIncoming, id_Construct.
  pose proof (tableOk_nonzero _ _ _ Hw) as Hn. unfold withNumber. apply Z.eqb_neq in Hn. rewrite Hn.
  split; [exact Hw|]. intros _. now apply Z.eqb_neq.
Qed.

Lemma keeps_release_withNumber n R : keeps (withNumber n R) (releaseChannelId n) (fun _ => R).
Proof.
  unfold withNumber. destruct (Z.eqb_spec n 0) as [->|]; [|apply keeps_release].
  apply (keeps_ret R tt (fun _ => R)). reflexivity.
Qed.

Lemma s_TransProxySendHandShakeMsgWhenInner n c : stable (TransProxySendHandShakeMsgWhenInner n c).
Proof. unfold TransProxySendHandShakeMsgWhenInner. stable_tac. Qed.
#[local] Hint Resolve s_TransProxySendHandShakeMsgWhenInner : sids.
Lemma s_TransServerProxyChannelOpened c n : stable (TransServerProxyChannelOpened c n).
Proof. unfold TransServerProxyChannelOpened. stable_tac. Qed.
#[local] Hint Resolve s_TransServerProxyChannelOpened : sids.

Lemma keeps_TransProxySaveAndOnOpen env c R : keeps (channelId c :: R) (TransProxySaveAndOnOpen env c (channelId c)) (fun _ => R).
Proof.
  unfold TransProxySaveAndOnOpen. eapply keeps_bind; [apply keeps_quiet; quiet_tac|]. intros ?. cbv zeta.
  eapply keeps_bind; [apply keeps_add|]. intros r. cbv beta. destruct (r =? SOFTBUS_OK); cbn [negb].
  - destruct (_ =? _); [|apply s_TransServerProxyChannelOpened]. apply stable_bind; [stable_tac|]. intros r'. stable_tac.
  - eapply keeps_bind; [apply keeps_release|]. intros ?. now apply keeps_ret.
Qed.

Lemma s_TransProxyProcessHandshakeMsg env m : stable (TransProxyProcessHandshakeMsg env m).
Proof.
  intros R. unfold TransProxyProcessHandshakeMsg. eapply keeps_bind; [apply keeps_quiet, q_calloc|]. intros [|]; [|now apply keeps_ret].
  cbn [negb]. eapply spec_bind; [apply spec_TransProxyFillChannelInfo|]. intros [r c]. apply spec_pure. cbn [fst snd]. intros Hnz.
  apply (keeps_bind _ _ _ (fun _ => withNumber (channelId c) R)); [apply keeps_quiet; quiet_tac|]. intros ?. cbv zeta.
  change (channelId (c <| connId := msgConnId m |>)) with (channelId c).
  destruct (Z.eqb_spec r SOFTBUS_OK) as [Er|]; cbn [negb]; [|apply keeps_release_withNumber].
  unfold withNumber. rewrite (proj2 (Z.eqb_neq _ _) (Hnz Er)). unfold ignore. eapply keeps_bind; [|intros ?; now apply keeps_ret].
  match goal with |- keeps _ (TransProxySaveAndOnOpen _ ?x _) _ => exact (keeps_TransProxySaveAndOnOpen env x R) end.
Qed.

(** ** Answers, other messages *)

Lemma s_HandleProxyChanelOpened c n : stable (HandleProxyChanelOpened c n).
Proof. unfold HandleProxyChanelOpened. stable_tac. Qed.
Lemma s_refuse c n e : stable (refuse c n e).
Proof. unfold refuse. stable_tac. Qed.
#[local] Hint Resolve s_HandleProxyChanelOpened s_refuse : sids.
Lemma s_HandleProxyGenUkResult q u e : stable (HandleProxyGenUkResult q u e).
Proof. unfold HandleProxyGenUkResult. stable_tac. Qed.
Lemma s_TransHandleProxyChannelOpened env n c a : stable (TransHandleProxyChannelOpened env n c a).
Proof. unfold TransHandleProxyChannelOpened. stable_tac. Qed.
Lemma s_TransHandleD2DProxyChannelOpened env n e c : stable (TransHandleD2DProxyChannelOpened env n e c).
Proof. unfold TransHandleD2DProxyChannelOpened. stable_tac. Qed.
#[local] Hint Resolve s_TransHandleProxyChannelOpened s_TransHandleD2DProxyChannelOpened : sids.
Lemma q_TransProxyFastDataRecv c : quiet idView (TransProxyFastDataRecv c).
Proof. unfold TransProxyFastDataRecv. quiet_tac. Qed.
#[local] Hint Resolve q_TransProxyFastDataRecv : qids.
Lemma s_TransDealProxyChannelOpenResult env n e a p : stable (TransDealProxyChannelOpenResult env n e a p).
Proof. unfold TransDealProxyChannelOpenResult. stable_tac. Qed.
Lemma s_TransAsyncProxyChannelTask n : stable (TransAsyncProxyChannelTask n).
Proof. unfold TransAsyncProxyChannelTask. stable_tac. Qed.
Lemma s_TransDealProxyCheckCollabResult env n e p : stable (TransDealProxyCheckCollabResult env n e p).
Proof. unfold TransDealProxyCheckCollabResult. stable_tac. Qed.

Lemma s_TransProxyProcessReNegotiateMsg env m i : stable (TransProxyProcessReNegotiateMsg env m i).
Proof. unfold TransProxyProcessReNegotiateMsg. stable_tac. Qed.
Lemma q_TransProxyProcessResetMsgHelper env i m : quiet idView (TransProxyProcessResetMsgHelper env i m).
Proof. unfold TransProxyProcessResetMsgHelper. quiet_tac. Qed.
#[local] Hint Resolve q_TransProxyProcessResetMsgHelper : qids.
#[local] Hint Resolve s_TransProxyProcessReNegotiateMsg : sids.
Lemma s_TransProxyProcessResetMsg env m : stable (TransProxyProcessResetMsg env m).
Proof. unfold TransProxyProcessResetMsg. stable_tac. Qed.
Lemma q_keepAlive b env m : quiet idView (keepAlive b env m).
Proof. unfold keepAlive. quiet_tac. Qed.
Lemma q_TransProxyProcessDataRecv m : quiet idView (TransProxyProcessDataRecv m).
Proof. unfold TransProxyProcessDataRecv. quiet_tac. Qed.
Lemma q_TransProxyProcessHandshakeAuthMsg m : quiet idView (TransProxyProcessHandshakeAuthMsg m).
Proof. unfold TransProxyProcessHandshakeAuthMsg. quiet_tac. Qed.
#[local] Hint Resolve q_keepAlive q_TransProxyProcessDataRecv q_TransProxyProcessHandshakeAuthMsg : qids.
#[local] Hint Resolve s_TransProxyProcessHandshakeMsg s_TransProxyProcessHandshakeAckMsg s_TransProxyProcessResetMsg : sids.
Lemma s_TransProxyOnMessageReceived env m : stable (TransProxyOnMessageReceived env m).
Proof. unfold TransProxyOnMessageReceived, TransProxyProcessKeepAlive, TransProxyProcessKeepAliveAck. stable_tac. Qed.

(** ** The timer *)

Lemma id_timerItem c : channelId (fst (timerItem c)) = channelId c.
Proof. unfold timerItem. cbv zeta. repeat destruct (_ && _); reflexivity. Qed.

Lemma keeps_timerSplit R all : spec (fun w => tableOk R (idView w) /\ chans w = all)
  (modify (fun w => w <| chans := map fst (List.filter (fun x => negb (snd x)) (map timerItem all)) |>
                      <| cnt := u32 (cnt w - Z.of_nat (length (map fst (List.filter snd (map timerItem all))))) |>))
  (fun _ w => tableOk (map channelId (map fst (List.filter snd (map timerItem all))) ++ R) (idView w)).
Proof.
  apply spec_modify. intros w [[H Hc] Hall]. pose proof (filter_parts snd (map timerItem all)) as E.
  assert (Hm : map channelId all = map channelId (map fst (map timerItem all))).
  { rewrite !map_map. apply map_ext. intros c. symmetry. apply id_timerItem. }
  unfold idView in *. cbn in *. rewrite Hall in H, Hc. split; cbn.
  - rewrite Hm, E, !map_app in H. rewrite app_assoc, (Permutation_app_comm (map _ _) (map _ _)). exact H.
  - rewrite Hc, u32_minus. do 2 f_equal. rewrite !length_map. pose proof (Permutation_length E) as El. rewrite length_app, length_map in El. lia.
Qed.

Lemma s_TransProxyTimerProc : stable TransProxyTimerProc.
Proof.
  intros R. unfold TransProxyTimerProc. eapply keeps_bind; [apply keeps_quiet, q_lock|]. intros [|]; [|now apply keeps_ret]. cbn [negb].
  eapply keeps_bind; [apply keeps_quiet; quiet_tac|]. intros n. destruct (n <=? 0); [now apply keeps_ret|].
  eapply spec_bind; [apply (spec_get _ _ (fun all w => tableOk R (idView w) /\ chans w = all)); now split|]. intros all. cbv zeta.
  eapply spec_bind; [apply keeps_timerSplit|]. intros ?.
  eapply keeps_bind; [apply keeps_forEach; intros c R'; apply keeps_release|]. intros ?. apply keeps_quiet.
  unfold TransProxyTimerItemProc, timerOne, TransProxyPostOpenFailMsgToLoop, TransProxyPostDisConnectMsgToLoop, TransProxyPostKeepAliveMsgToLoop.
  quiet_tac.
Qed.

(** ** Sequences of events *)

Lemma s_nextMessage env : stable (nextMessage env).
Proof.
  intros R w Hw. unfold nextMessage. destruct (posted w) as [|m r]; [now exists tt, w|].
  apply (s_TransProxyLoopMsgHandler env m R). exact Hw.
Qed.

Lemma s_runEvent e : stable (runEvent e).
Proof.
  destruct e; cbn [runEvent].
  - apply s_ignore. intros R. apply keeps_TransProxyOpenConnChannel_new.
  - stable_tac.
  - apply s_TransProxyOnMessageReceived.
  - apply s_nextMessage.
  - apply s_TransProxyTimerProc.
  - apply s_TransOnConnectSucceed.
  - apply s_TransOnConnectFailed.
  - apply s_TransProxyOnDisConnect.
  - apply s_destroyChans.
  - apply s_destroyChans.
  - apply s_ignore, s_TransDealProxyChannelOpenResult.
  - apply s_ignore, s_TransDealProxyCheckCollabResult.
  - apply s_TransAsyncProxyChannelTask.
  - apply s_TransProxyNegoSessionKeySucc.
  - apply s_TransProxyNegoSessionKeyFail.
  - apply s_HandleProxyGenUkResult.
  - unfold TransProxyGetSendMsgChanInfo. stable_tac.
  - unfold TransProxySetAuthHandleByChanId. stable_tac.
  - unfold TransProxySetKeyTypeByChanId. apply s_locked. stable_tac.
Qed.

(** A world and the numbers that other components have reserved for channels of theirs:
    TransOpenNetWorkingChannel takes a number, and opens the channel or gives it back later. *)
Inductive step : list Z * World -> list Z * World -> Prop :=
| step_event R w e ls ms an w' : runEvent e (surround ls ms an w) = Some (tt, w') -> step (R, w) (R, w')
| step_reserve R w ls ms an n w' : newChannelId (surround ls ms an w) = Some (n, w') -> step (R, w) (n :: R, w')
| step_giveBack R n R' w ls ms an w' : Permutation R (n :: R') ->
    releaseChannelId n (surround ls ms an w) = Some (tt, w') -> step (R, w) (R', w')
| step_open R n R' w ls ms an env a info x w' : Permutation R (n :: R') -> n <> INVALID_CHANNEL_ID ->
    TransProxyOpenProxyChannel env a info n (surround ls ms an w) = Some (x, w') -> step (R, w) (R', w').

Lemma keeps_result {A} R (m : M A) R' w a w' : keeps R m R' -> tableOk R (idView w) -> m w = Some (a, w') -> tableOk (R' a) (idView w').
Proof. intros H Hw E. destruct (H w Hw) as (a' & w2 & E' & H'). rewrite E in E'. now injection E' as <- <-. Qed.

Lemma step_tableOk s s' : step s s' -> tableOk (fst s) (idView (snd s)) -> tableOk (fst s') (idView (snd s')).
Proof.
  intros [R w e ls ms an w' E|R w ls ms an n w' E|R n R' w ls ms an w' HP E|R n R' w ls ms an env a info x w' HP Hn E] Hw; cbn [fst snd] in *;
    change (idView w) with (idView (surround ls ms an w)) in Hw.
  - exact (keeps_result R _ _ _ _ _ (s_runEvent e R) Hw E).
  - exact (keeps_result R _ _ _ _ _ (keeps_new R) Hw E).
  - apply (tableOk_perm _ _ _ HP) in Hw. exact (keeps_result _ _ _ _ _ _ (keeps_release n R') Hw E).
  - apply (tableOk_perm _ _ _ HP) in Hw. exact (keeps_result _ _ _ _ _ _ (keeps_TransProxyOpenConnChannel env _ info n R' Hn) Hw E).
Qed.

Lemma start_tableOk : tableOk [] (idView start).
Proof. split; [|reflexivity]. exists ∅. split; [apply holds_fresh|]. split; [constructor|]. split; intros n Hn; now apply elem_of_nil in Hn. Qed.

Lemma reachable_tableOk R w : rtc step ([], start) (R, w) -> tableOk R (idView w).
Proof.
  intros Hr. change (tableOk (fst (R, w)) (idView (snd (R, w)))). revert Hr. generalize (R, w). clear R w.
  apply rtc_ind_r; [apply start_tableOk|]. intros s s' _ Hs H. exact (step_tableOk s s' Hs H).
Qed.

Lemma new_fresh R w n w' : tableOk R (idView w) -> newChannelId w = Some (n, w') -> INVALID_CHANNEL_ID < n ->
  n ∉ map channelId (chans w) ++ R.
Proof.
  intros [H _] E Hn Hel. unfold newChannelId, mbind, M_bind in E. destruct (q_lock w) as (b & w1 & El & Hv). rewrite El in E.
  assert (Ei : ids w1 = ids w) by now injection Hv. rewrite Ei in E. unfold idView in H. cbn [fst snd] in H.
  destruct (idsOk_generate _ _ b H) as (n' & s & Eg & (U & _ & Hd & _) & Hp). rewrite Eg in E. injection E as -> _.
  destruct Hp as [Hp|[-> | ->]]; [|lia|now vm_compute in Hn]. cbn [List.filter] in Hd. rewrite Hp in Hd.
  apply NoDup_cons in Hd as [Hd _]. apply Hd. apply list_elem_of_In, filter_In. split; [now apply list_elem_of_In|exact Hp].
Qed.

(** C12: the table of proxy channels stays well formed, whatever messages arrive, whatever
    fails, and in whatever order (paging channels, which may give back a number twice, are not
    among the events).  A channel whose number was allocated has one between 1025
    and 2048, and these are different from one another and from those reserved elsewhere.  A
    channel for which no number could be allocated is listed all the same, under -1 or under
    the error code of the lock, and such channels may share it (numberless_channels); there is
    no third kind.  A number that is handed out is none of those in the table or reserved, the
    counter is the length of the list, and every handler ends. *)
Theorem proxy_table_sound R w : rtc step ([], start) (R, w) ->
  NoDup (List.filter proxyId (map channelId (chans w) ++ R)) /\
  (forall n, n ∈ map channelId (chans w) ++ R -> 1025 <= n <= 2048 \/ noNumber n = true) /\
  cnt w = u32 (Z.of_nat (length (chans w))) /\
  (forall ls ms an n w', newChannelId (surround ls ms an w) = Some (n, w') -> INVALID_CHANNEL_ID < n -> n ∉ map channelId (chans w) ++ R) /\
  (forall e ls ms an, exists w', runEvent e (surround ls ms an w) = Some (tt, w')).
Proof.
  intros Hr. pose proof (reachable_tableOk R w Hr) as Hw. pose proof Hw as [(U & HU & Hd & _ & Hk) Hc]. unfold idView in Hd, Hk, Hc.
  cbn [fst snd] in *. split; [exact Hd|]. split; [intros n Hn; rewrite <- proxyId_spec; now apply Hk|].
  split; [now rewrite length_map in Hc|]. split.
  - intros ls ms an n w' E Hn. exact (new_fresh R (surround ls ms an w) n w' Hw E Hn).
  - intros e ls ms an. destruct (s_runEvent e R (surround ls ms an w) Hw) as ([] & w' & E & _). now exists w'.
Qed.

(** A number is reserved, a channel is opened, then the channel of the reserved number. *)
Lemma proxy_table_sound_witness : exists w, rtc step ([], start) ([], w) /\
  map channelId (chans w) = [1026; 1027] /\ NoDup (List.filter proxyId (map channelId (chans w) ++ [])).
Proof.
  pose (env := sampleEnv 5 [Byte.x61]).
  assert (Hr : exists w, rtc step ([], start) ([], w) /\ map channelId (chans w) = [1026; 1027]).
  { eexists. split.
    - eapply rtc_l; [apply (step_reserve [] start [] [] [] 1026); vm_compute; reflexivity|].
      eapply rtc_l; [eapply (step_event [1026] _ (EvOpen env sampleApp sampleOption) [] [] []); vm_compute; reflexivity|].
      eapply rtc_l; [eapply (step_open [1026] 1026 [] _ [] [] [] env sampleApp sampleOption (0, 1026)); [reflexivity|discriminate|vm_compute; reflexivity]|].
      apply rtc_refl.
    - reflexivity. }
  destruct Hr as (w & Hr & Em). exists w. split; [exact Hr|]. split; [exact Em|]. exact (proj1 (proxy_table_sound [] w Hr)).
Defined.

End ProxyIds.
