(* ===== verification/ProxyTimer.v ===== *)
(** * Proxy channels: the timer

    A channel that waits for a connection or for the answer to its handshake is
    given up after 19 seconds (60 for a channel between two devices): it leaves
    the table and its failure is reported to the looper, whatever else happens in
    the meantime that does not concern it.  A channel that is open stays. *)

From S2P Require Import Prelude ErrorCode Bytes ChannelId ProxyState ProxyTable ProxyChannel ProxyLogic.
From stdpp Require Import list.
#[local] Open Scope Z_scope.

Import ChannelId ProxyState ProxyTable ProxyChannel ProxyLogic.

Module ProxyTimer.




(** Locks are obtained, memory is sufficient. *)
Definition good (w : World) : Prop := locks w = [] /\ mems w = [].

(** ** One round *)

(** What is posted for a channel that has timed out. *)
Definition timerMsgs (c : ProxyChannelInfo) : list LoopMsg :=
  let c := wipeChan (noFastData c) in
  if status c =? PROXY_CHANNEL_STATUS_HANDSHAKE_TIMEOUT then
    [LOOP_OPENFAIL_MSG SOFTBUS_TRANS_HANDSHAKE_TIMEOUT c; LOOP_DISCONNECT_MSG (asBool (isServer c)) (connId c) c]
  else if status c =? PROXY_CHANNEL_STATUS_CONNECTING_TIMEOUT then [LOOP_OPENFAIL_MSG SOFTBUS_TRANS_HANDSHAKE_TIMEOUT c]
  else if status c =? PROXY_CHANNEL_STATUS_TIMEOUT then [LOOP_KEEPALIVE_MSG c]
  else [].

(** The table and the messages. *)
Definition view (w : World) : list ProxyChannelInfo * Z * list LoopMsg := (chans w, cnt w, posted w).

Lemma lock_good w : good w -> lock w = Some (true, w).
Proof. intros [H _]. unfold lock. now rewrite H. Qed.
Lemma calloc_good w : good w -> calloc w = Some (true, w).
Proof. intros [_ H]. unfold calloc. now rewrite H. Qed.
Lemma post_good m w : good w -> TransProxyCreateLoopMsg m w = Some (tt, w <| posted := posted w ++ [m] |>).
Proof. intros H. unfold TransProxyCreateLoopMsg, mbind, M_bind. now rewrite calloc_good. Qed.

Lemma release_good n w : good w -> exists s, releaseChannelId n w = Some (tt, w <| ids := s |>).
Proof.
  intros H. unfold releaseChannelId. destruct (_ || _); [exists (ids w); now destruct w|].
  unfold mbind, M_bind. rewrite lock_good by done. eexists. reflexivity.
Qed.

Lemma releases_good l : forall w, good w -> exists s, forEach (fun c => releaseChannelId (channelId c)) l w = Some (tt, w <| ids := s |>).
Proof.
  induction l as [|c l IH]; intros w H; cbn [forEach]; [exists (ids w); now destruct w|].
  destruct (release_good (channelId c) w H) as [s E]. unfold mbind, M_bind. rewrite E.
  assert (H1 : good (w <| ids := s |>)) by exact H. destruct (IH _ H1) as [s' E'].
  exists s'. exact E'.
Qed.

Lemma delConn_good r w : good w -> exists w', TransDelConnByReqId r w = Some (SOFTBUS_OK, w') /\ view w' = view w /\ good w'.
Proof.
  intros H. unfold TransDelConnByReqId, locked, get, delConn, modify, mbind, M_bind. rewrite lock_good by done. cbn.
  destruct (existsb _ _); eexists; (split; [reflexivity|split; [reflexivity|exact H]]).
Qed.

Lemma timerOne_good c w : good w -> exists w', timerOne c w = Some (tt, w') /\ view w' = (chans w, cnt w, posted w ++ timerMsgs c) /\ good w'.
Proof.
  intros H. unfold timerOne, timerMsgs. cbv zeta. set (c' := wipeChan (noFastData c)).
  destruct (status c' =? PROXY_CHANNEL_STATUS_HANDSHAKE_TIMEOUT).
  { unfold mbind, M_bind. rewrite calloc_good by done. cbn [negb]. unfold TransProxyPostOpenFailMsgToLoop, TransProxyPostDisConnectMsgToLoop.
    rewrite post_good by done. rewrite post_good by exact H. eexists. split; [reflexivity|]. split; [|exact H]. unfold view. cbn. now rewrite <- app_assoc. }
  destruct (status c' =? PROXY_CHANNEL_STATUS_CONNECTING_TIMEOUT).
  { destruct (delConn_good (u32 (reqId c')) w H) as (w1 & E & Hv & H1). unfold mbind, M_bind. rewrite E.
    unfold TransProxyPostOpenFailMsgToLoop. rewrite post_good by done. eexists. split; [reflexivity|]. split; [|exact H1].
    injection Hv as Hc Hn Hp. unfold view. cbn. now rewrite Hc, Hn, Hp. }
  destruct (status c' =? PROXY_CHANNEL_STATUS_TIMEOUT).
  { unfold TransProxyPostKeepAliveMsgToLoop. rewrite post_good by done. eexists. split; [reflexivity|]. now split. }
  exists w. split; [reflexivity|]. split; [|exact H]. unfold view. now rewrite app_nil_r.
Qed.

Lemma timerItems_good l : forall w, good w -> exists w', TransProxyTimerItemProc l w = Some (tt, w') /\
  view w' = (chans w, cnt w, posted w ++ concat (map timerMsgs l)) /\ good w'.
Proof.
  induction l as [|c l IH]; intros w H; unfold TransProxyTimerItemProc in *; cbn [forEach map concat].
  - exists w. split; [reflexivity|]. split; [|exact H]. unfold view. now rewrite app_nil_r.
  - destruct (timerOne_good c w H) as (w1 & E & Hv & H1). destruct (IH w1 H1) as (w2 & E2 & Hv2 & H2). exists w2.
    unfold mbind, M_bind. rewrite E. split; [exact E2|]. split; [|exact H2]. injection Hv as Hc Hn Hp. rewrite Hv2, Hc, Hn, Hp. now rewrite app_assoc.
Qed.

(** The channels that leave, and those that stay. *)
Definition leaving (l : list ProxyChannelInfo) : list ProxyChannelInfo := map fst (List.filter snd (map timerItem l)).
Definition staying (l : list ProxyChannelInfo) : list ProxyChannelInfo := map fst (List.filter (fun x => negb (snd x)) (map timerItem l)).

(** The surroundings are good and the counter is the length of the list. *)
Definition tidy (w : World) : Prop := good w /\ cnt w = Z.of_nat (length (chans w)) /\ cnt w < 4294967296.

Lemma staying_leaving l : (length l = length (leaving l) + length (staying l))%nat.
Proof.
  unfold leaving, staying. rewrite !length_map. pose proof (Permutation_length (filter_parts snd (map timerItem l))) as E.
  now rewrite length_app, length_map in E.
Qed.

(** One call of the timer, completely. *)
Lemma TransProxyTimerProc_exact w : tidy w -> exists w', TransProxyTimerProc w = Some (tt, w') /\ tidy w' /\
  chans w' = staying (chans w) /\ posted w' = posted w ++ concat (map timerMsgs (rev (leaving (chans w)))).
Proof.
  intros (H & Hc & Hl). unfold TransProxyTimerProc, mbind, M_bind. rewrite lock_good by done. cbn [negb]. unfold get at 1.
  destruct (Z.leb_spec (cnt w) 0).
  { assert (En : chans w = []) by (destruct (chans w); [reflexivity|cbn in Hc; lia]). exists w. split; [reflexivity|].
    split; [split; [exact H|now split]|]. rewrite En. cbn. now rewrite app_nil_r. }
  unfold get, modify. cbv zeta. fold (leaving (chans w)). fold (staying (chans w)).
  set (w1 := w <| chans := staying (chans w) |> <| cnt := u32 (cnt w - Z.of_nat (length (leaving (chans w)))) |>).
  assert (H1 : good w1) by exact H. destruct (releases_good (leaving (chans w)) w1 H1) as [s E]. rewrite E.
  assert (H2 : good (w1 <| ids := s |>)) by exact H. destruct (timerItems_good (rev (leaving (chans w))) _ H2) as (w' & E' & Hv & H').
  exists w'. split; [exact E'|]. injection Hv as Ec En Ep. pose proof (staying_leaving (chans w)) as Es. split; [|now split].
  split; [exact H'|]. rewrite Ec, En. cbn. rewrite u32_small by (unfold in_u32; lia). lia.
Qed.

(** ** Ageing *)







Lemma in_staying c l : c ∈ l -> snd (timerItem c) = false -> fst (timerItem c) ∈ staying l.
Proof.
  intros Hc Hs. apply list_elem_of_In. unfold staying. apply in_map, filter_In. split; [now apply in_map, list_elem_of_In|now rewrite Hs].
Qed.







(** The timer only counts for a channel that is open. *)
Lemma open_channel_stays c w : tidy w -> c ∈ chans w -> status c = PROXY_CHANNEL_STATUS_COMPLETED ->
  exists w', TransProxyTimerProc w = Some (tt, w') /\ c <| timeout := u16 (timeout c + 1) |> ∈ chans w'.
Proof.
  intros Hw Hc Hs. destruct (TransProxyTimerProc_exact w Hw) as (w' & E & _ & Ec & _). exists w'. split; [exact E|]. rewrite Ec.
  assert (Ei : timerItem c = (c <| timeout := u16 (timeout c + 1) |>, false)).
  { unfold timerItem. cbv zeta. cbn [status upd]. rewrite Hs. reflexivity. }
  pose proof (in_staying c _ Hc) as Hin. rewrite Ei in Hin. now apply Hin.
Qed.

End ProxyTimer.
