(* ===== verification/ProxyFaults.v ===== *)
(** * Proxy channels: deviations

    Histories in which the handlers of [ProxyChannel] do something other than what
    they are meant to do, computed. *)

From S2P Require Import Prelude ErrorCode Bytes ChannelId ProxyState ProxyTable ProxyChannel ProxyLogic.
From stdpp Require Import list.
#[local] Open Scope Z_scope.

Import ChannelId ProxyState ProxyTable ProxyChannel ProxyLogic.

Module ProxyFaults.

Fixpoint runEvents (es : list Event) : M unit :=
  match es with [] => mret tt | e :: es => runEvent e;; runEvents es end.

Definition ident : list Byte.byte := [Byte.x61].
Definition env : Env := sampleEnv 5 ident.
Definition open : Event := EvOpen env sampleApp sampleOption.

(** Two channels to one device wait for the same connection attempt, the second for ten
    seconds less.  When the first is given up the record of the attempt is deleted; the
    connection that comes up then is disconnected at once, although the second channel starts
    its handshake on it. *)
Theorem shared_request_lost : exists w,
  runEvents (open :: replicate 10 EvTimer ++ open :: replicate 9 EvTimer ++ [EvConnected 5 3]) start = Some (tt, w) /\
  map (fun c => (channelId c, status c, connId c)) (chans w) = [(1027, PROXY_CHANNEL_STATUS_HANDSHAKEING, 3)] /\
  conns w = [] /\ ConnDisconnectDevice 3 ∈ notes w.
Proof.
  eexists. split; [vm_compute; reflexivity|]. split; [reflexivity|]. split; [reflexivity|].
  cbn [notes]. repeat (apply elem_of_cons; first [left; reflexivity|right]).
Qed.

(** The acknowledgement of a handshake cannot be unpacked: channel 0 is closed and its
    failure is reported with the code of success; the channel in question stays. *)
Definition badAck : Event :=
  EvMessage (mkEnv (fun _ => (SOFTBUS_OK, sampleInfo)) (fun _ => Some CONNECT_BR) (fun _ => SOFTBUS_OK) 5
    (TransProxyUnpackHandshakeMsg env) (fun _ _ => (SOFTBUS_PARSE_JSON_ERR, ([], NO_APP))) (fun _ => None) (fun _ => None)
    (fun _ => Some ident) (fun _ => None) (fun _ => OH_OS_TYPE) (fun _ => (SOFTBUS_OK, [])) (fun _ => Some [])
    (fun _ => Some (0, 7)) (fun _ => (SOFTBUS_OK, 0)) (fun a => a) (fun _ => true) (fun _ => SOFTBUS_OK) (fun _ _ => SOFTBUS_OK)
    (fun _ => Some 1024) (fun _ => Some false) (fun _ => []) false (fun _ => true) 0 0 ident [])
    (mkMsg PROXYCHANNEL_MSG_TYPE_HANDSHAKE_ACK ENCRYPTED 1026 9 3 0 (0, 0) []).

Theorem failed_ack_keeps_channel : exists w a,
  runEvents [open; EvConnected 5 3; badAck] start = Some (tt, w) /\
  map (fun c => (channelId c, status c)) (chans w) = [(1026, PROXY_CHANNEL_STATUS_HANDSHAKEING)] /\
  OnProxyChannelOpenFailed 0 a SOFTBUS_OK ∈ notes w.
Proof.
  eexists _, _. split; [vm_compute; reflexivity|]. split; [reflexivity|].
  cbn [notes]. repeat (apply elem_of_cons; first [left; reflexivity|right]).
Qed.

(** When no number is left, incoming channels all get the number -1. *)
Definition handshake : Event :=
  EvMessage env (mkMsg PROXYCHANNEL_MSG_TYPE_HANDSHAKE (Z.lor ENCRYPTED CS_MODE) 0 9 3 0 (0, 0) []).

Theorem numberless_channels : exists w,
  runEvents [handshake; handshake] (start <| ids := mkIds 0 [] 0 MAX_PROXY_CHANNEL_ID_COUNT |>) = Some (tt, w) /\
  map channelId (chans w) = [-1; -1].
Proof. eexists. split; [vm_compute; reflexivity|reflexivity]. Qed.

End ProxyFaults.
