(* ===== verification/InnerSession.v ===== *)
(** * Inner sessions over a proxy channel

    Model of core/transmission/trans_channel/common/src/trans_inner.c: the
    table of sessions the service keeps for itself, sending on a proxy channel
    ([ProxySendData]) and receiving from one ([ProxyDataRecvHandler]), on top of
    the packets and slices of [ProxySlice]. A handler returns its code, the new
    state and the messages it handed to the session's listener. *)

From S2P Require Import Prelude ErrorCode Bytes ProxySlice.
From stdpp Require Import list.
#[local] Open Scope Z_scope.

Module InnerSession.
Import ProxySlice.

Definition DATA_BUF_MAX : Z := 4194304.
Definition sizeof_ChannelSliceProcessor : Z := 144.
Definition SOFTBUS_INVALID_NUM : Z := SOFTBUS_PUBLIC_ERR_BASE + 14.
Definition SOFTBUS_TRANS_PROXY_INVALID_SLICE_HEAD : Z := SOFTBUS_TRANS_ERR_BASE + 21.
Definition SOFTBUS_TRANS_GET_CLIENT_PROXY_NULL : Z := SOFTBUS_TRANS_ERR_BASE + 140.

(** [CHANNEL_TYPE_TCP_DIRECT], [CHANNEL_TYPE_PROXY] and the other types. *)
Inductive ChannelType := CHANNEL_TYPE_TCP_DIRECT | CHANNEL_TYPE_PROXY | CHANNEL_TYPE_OTHER.

#[export] Instance ChannelType_eq_dec : EqDecision ChannelType.
Proof. solve_decision. Defined.

Section Inner.
Context {Key : Type}.
(** Decryption with a key and a sequence number: code and plaintext. *)
Context (dec : Key -> Z -> list byte -> Z * list byte).
(** The proxy manager's answer for a channel: code, descriptor, key. *)
Context (TransProxyGetAppInfoByChanId : Z -> Z * (Z * Key)).

Record TransInnerSessionInfo := mkSession {
  supportTlv : bool;
  isSessionKeyInit : bool;
  sessionKey : Key;
  channelId : Z;
  fd : Z;
  channelType : ChannelType;
  hasListener : bool   (* listener.func != NULL *)
}.

Record ChannelSliceProcessor := mkChan {
  chanId : Z;
  processor : list SliceProcessor
}.

(** [None] for a list that is not initialised. *)
Record Inner := mkInner {
  g_sessionList : option (list TransInnerSessionInfo);
  g_innerChannelSliceProcessorList : option (list ChannelSliceProcessor);
  seqNo : Z  (* the static [seq] of [TransInnerProxyPackBytes] *)
}.

Definition setSessions (st : Inner) l := mkInner l (g_innerChannelSliceProcessorList st) (seqNo st).
Definition setSlices (st : Inner) l := mkInner (g_sessionList st) l (seqNo st).

(** What the environment answers while one packet is handled: the lock of the
    session list at its n-th use, the lock of the slice list, the allocator at
    its n-th use, what the uninitialised [pktHead] holds, and what the listener
    does to the tables when it is called. *)
Record Env := mkEnv {
  sessionLock : nat -> bool;
  sliceLock : bool;
  libc : nat -> Z -> bool;
  junk : DataHeadTlvPacketHead;
  onBytes : Z -> list byte -> Inner -> Inner
}.

(** ** Sessions *)

(** New entries are put in front. *)
Definition InnerAddSession (lock : bool) (alloc : bool) (st : Inner) (info : TransInnerSessionInfo)
  : Z * Inner :=
  match g_sessionList st with
  | None => (SOFTBUS_NO_INIT, st)
  | Some l =>
    if negb alloc then (SOFTBUS_MALLOC_ERR, st)
    else
      let keyInit := match channelType info with
                     | CHANNEL_TYPE_TCP_DIRECT => true
                     | _ => false
                     end in
      let node := mkSession (supportTlv info) keyInit (sessionKey info) (channelId info) (fd info)
                    (channelType info) (hasListener info) in
      if negb lock then (SOFTBUS_LOCK_ERR, st)
      else (SOFTBUS_OK, setSessions st (Some (node :: l)))
  end.

(** Removes the first entry that has both numbers. *)
Fixpoint removeSession (f c : Z) (l : list TransInnerSessionInfo)
  : option (list TransInnerSessionInfo) :=
  match l with
  | [] => None
  | s :: l' => if negb (fd s =? f) || negb (channelId s =? c)
               then (fun r => s :: r) <$> removeSession f c l' else Some l'
  end.

Definition DeleteSession (lock : bool) (st : Inner) (f c : Z) : Z * Inner :=
  match g_sessionList st with
  | None => (SOFTBUS_NO_INIT, st)
  | Some l =>
    if negb lock then (SOFTBUS_LOCK_ERR, st)
    else match removeSession f c l with
         | None => (SOFTBUS_NOT_FIND, st)
         | Some l' => (SOFTBUS_OK, setSessions st (Some l'))
         end
  end.

Definition GetSessionInfoByFd (lock : bool) (st : Inner) (f : Z) : Z * option TransInnerSessionInfo :=
  match g_sessionList st with
  | None => (SOFTBUS_NO_INIT, None)
  | Some l =>
    if negb lock then (SOFTBUS_LOCK_ERR, None)
    else match list_find (fun s => fd s = f) l with
         | None => (SOFTBUS_NOT_FIND, None)
         | Some (_, s) => (SOFTBUS_OK, Some s)
         end
  end.

(** A proxy session gets its key on the first use, in place. *)
Fixpoint lookupSession (c : Z) (l : list TransInnerSessionInfo)
  : Z * option TransInnerSessionInfo * list TransInnerSessionInfo :=
  match l with
  | [] => (SOFTBUS_NOT_FIND, None, [])
  | pos :: l' =>
    if negb (channelId pos =? c) then
      let '(r, i, l'') := lookupSession c l' in (r, i, pos :: l'')
    else if bool_decide (channelType pos = CHANNEL_TYPE_PROXY) && negb (isSessionKeyInit pos) then
      let '(ret, (f, k)) := TransProxyGetAppInfoByChanId c in
      if negb (ret =? SOFTBUS_OK) then (ret, None, pos :: l')
      else
        let pos' := mkSession (supportTlv pos) true k (channelId pos) f (channelType pos) (hasListener pos) in
        (SOFTBUS_OK, Some pos', pos' :: l')
    else (SOFTBUS_OK, Some pos, pos :: l')
  end.

Definition GetSessionInfoByChanId (lock : bool) (st : Inner) (c : Z)
  : Z * option TransInnerSessionInfo * Inner :=
  match g_sessionList st with
  | None => (SOFTBUS_NO_INIT, None, st)
  | Some l =>
    if negb lock then (SOFTBUS_LOCK_ERR, None, st)
    else let '(r, i, l') := lookupSession c l in (r, i, setSessions st (Some l'))
  end.

(** ** Receiving *)

Context (cfg : Config).

(** The end of the two packet handlers: output block, decryption, length limit,
    listener. [proc] is the head's check and the ciphertext. *)
Definition deliver (env : Env) (st : Inner) (c : Z) (proc : Z * option (list byte)) (sq flag : Z)
  : Z * Inner * list (Z * list byte) :=
  let '(ret, info, st) := GetSessionInfoByChanId (sessionLock env 1) st c in
  match info with
  | None => (ret, st, [])
  | Some info =>
    if negb (hasListener info) then (SOFTBUS_NO_INIT, st, [])
    else
      match proc with
      | (ret, None) => (ret, st, [])
      | (_, Some inData) =>
        let '(ret, plain) := TransProxyDecryptPacketData dec sq inData (Some (sessionKey info)) in
        if negb (ret =? SOFTBUS_OK) then (SOFTBUS_DECRYPT_ERR, st, [])
        else if negb (TransProxySessionDataLenCheck cfg (Z.of_nat (length plain)) flag =? SOFTBUS_OK)
        then (SOFTBUS_TRANS_INVALID_DATA_LENGTH, st, [])
        else (SOFTBUS_OK, onBytes env c plain st, [(c, plain)])
      end
  end.

Definition ClientTransInnerProxyProcData (env : Env) (st : Inner) (c : Z) (dataHead : TlvHeadValues)
    (data : list byte) :=
  deliver env st c (TransProxyProcData (libc env 2) dataHead data) (vSeq dataHead) (vFlags dataHead).

Definition ClientTransProxyInnerNoSubPacketTlvProc (env : Env) (st : Inner) (c : Z)
    (data : list byte) : Z * Inner * list (Z * list byte) :=
  let '(ret, pktHead, newPktHeadSize) := TransProxyParseTlv data (junk env) 0 in
  if negb (ret =? SOFTBUS_OK) then (ret, st, [])
  else
    let '(ret, head) := TransProxyNoSubPacketTlvProc (Z.of_nat (length data)) pktHead newPktHeadSize in
    if negb (ret =? SOFTBUS_OK) then (ret, st, [])
    else ClientTransInnerProxyProcData env st c head (drop (Z.to_nat newPktHeadSize) data).

Definition ClientTransInnerProxyProcessSessionData (env : Env) (st : Inner) (c : Z)
    (dataHead : PacketHead) (data : list byte) :=
  deliver env st c (TransProxyProcessSessionData (libc env 2) (dataLen dataHead) data)
    (seq dataHead) (flags dataHead).

Definition ClientTransInnerProxyNoSubPacketProc (env : Env) (st : Inner) (c : Z) (data : list byte)
  : Z * Inner * list (Z * list byte) :=
  let '(ret, info, st) := GetSessionInfoByChanId (sessionLock env 0) st c in
  match info with
  | None => (ret, st, [])
  | Some info =>
    if supportTlv info then ClientTransProxyInnerNoSubPacketTlvProc env st c data
    else
      match TransProxyNoSubPacketProc data with
      | (ret, None) => (ret, st, [])
      | (_, Some head) =>
        ClientTransInnerProxyProcessSessionData env st c head
          (drop (Z.to_nat sizeof_PacketHead) data)
      end
  end.

(** The zeroed block of a new node. *)
Definition freshProc : SliceProcessor := mkProc false 0 0 0 0 0 None.
Definition freshChan (c : Z) : ChannelSliceProcessor := mkChan c (replicate 3 freshProc).

Fixpoint findChan (c : Z) (l : list ChannelSliceProcessor) : option ChannelSliceProcessor :=
  match l with
  | [] => None
  | n :: l' => if chanId n =? c then Some n else findChan c l'
  end.

(** Finds the channel's node or puts a new one in front. *)
Definition ClientTransProxyGetChannelSlice (alloc : Z -> bool) (l : list ChannelSliceProcessor) (c : Z)
  : option (ChannelSliceProcessor * list ChannelSliceProcessor) :=
  match findChan c l with
  | Some n => Some (n, l)
  | None => if negb (SoftBusCalloc alloc sizeof_ChannelSliceProcessor) then None
            else Some (freshChan c, freshChan c :: l)
  end.

(** Writing the processor [index] of the channel's node. *)
Fixpoint setProc (c : Z) (index : nat) (p : SliceProcessor) (l : list ChannelSliceProcessor)
  : list ChannelSliceProcessor :=
  match l with
  | [] => []
  | n :: l' => if chanId n =? c then mkChan c (<[index := p]> (processor n)) :: l'
               else n :: setProc c index p l'
  end.

Definition updateProc (st : Inner) (c : Z) (index : nat) (p : SliceProcessor) : Inner :=
  setSlices st (setProc c index p <$> g_innerChannelSliceProcessorList st).

Definition ClientTransInnerProxyFirstSliceProcess (env : Env) (st : Inner) (p : SliceProcessor)
    (head : SliceHead) (data : list byte) (c : Z) : Z * Inner * SliceProcessor :=
  let p := TransProxyClearProcessor p in
  let '(ret, info, st) := GetSessionInfoByChanId (sessionLock env 0) st c in
  match info with
  | None => (ret, st, p)
  | Some info =>
    let '(ret, _) := TransGetActualDataLen cfg head in
    if negb (ret =? SOFTBUS_OK) then (ret, st, p)
    else
      let '(ret, p) := TransProxyFirstSliceProcess cfg (libc env 1) p head data (supportTlv info) in
      (ret, st, p)
  end.

Definition IsValidCheckoutSliceProcess (st : Inner) (c : Z) : bool :=
  match g_innerChannelSliceProcessorList st with
  | None => false
  | Some l => match findChan c l with Some _ => true | None => false end
  end.

(** The processor is written back before the packet is handled, since the
    listener may delete it. *)
Definition ClientTransProxyLastSliceProcess (env : Env) (st : Inner) (index : nat) (p : SliceProcessor)
    (head : SliceHead) (data : list byte) (c : Z) : Z * Inner * list (Z * list byte) :=
  let len := Z.of_nat (length data) in
  let ret := TransProxySliceProcessChkPkgIsValid p head data in
  if negb (ret =? SOFTBUS_OK) then (ret, st, [])
  else if negb (memcpy_s (u32 (bufLen p - pDataLen p)) len) then (SOFTBUS_MEM_ERR, st, [])
  else
    let p := mkProc (active p) (timeout p) (sliceNumber p) (s32 (expectedSeq p + 1))
               (s32 (pDataLen p + s32 len)) (bufLen p) ((fun d => d ++ data) <$> pdata p) in
    let '(ret, st, out) := ClientTransInnerProxyNoSubPacketProc env (updateProc st c index p) c
                             (take (Z.to_nat (u32 (pDataLen p))) (default [] (pdata p))) in
    if negb (ret =? SOFTBUS_OK) then (ret, st, out)
    else if IsValidCheckoutSliceProcess st c
    then (ret, updateProc st c index (TransProxyClearProcessor p), out)
    else (ret, st, out).

(** Removes the first node of the channel. *)
Fixpoint removeChan (c : Z) (l : list ChannelSliceProcessor) : list ChannelSliceProcessor :=
  match l with
  | [] => []
  | n :: l' => if chanId n =? c then l' else n :: removeChan c l'
  end.

Definition TransProxyDelSliceProcessorByChannelId (lock : bool) (st : Inner) (c : Z) : Z * Inner :=
  match g_innerChannelSliceProcessorList st with
  | None => (SOFTBUS_NO_INIT, st)
  | Some l => if negb lock then (SOFTBUS_LOCK_ERR, st)
              else (SOFTBUS_OK, setSlices st (Some (removeChan c l)))
  end.

(** After an error the processor is cleared. *)
Definition ClientTransProxySubPacketProc (env : Env) (st : Inner) (c : Z) (head : SliceHead)
    (data : list byte) : Z * Inner * list (Z * list byte) :=
  match g_innerChannelSliceProcessorList st with
  | None => (SOFTBUS_NO_INIT, st, [])
  | Some l =>
    if negb (sliceLock env) then (SOFTBUS_LOCK_ERR, st, [])
    else
      match ClientTransProxyGetChannelSlice (libc env 0) l c with
      | None => (SOFTBUS_TRANS_GET_CLIENT_PROXY_NULL, st, [])
      | Some (chan, l) =>
        let st := setSlices st (Some l) in
        let index := Z.to_nat (priority head) in
        let p := default freshProc (processor chan !! index) in
        let '(ret, st, out) :=
          if sliceSeq head =? 0 then
            let '(ret, st, p) := ClientTransInnerProxyFirstSliceProcess env st p head data c in
            (ret, updateProc st c index p, [])
          else if sliceNum head =? s32 (sliceSeq head + 1) then
            ClientTransProxyLastSliceProcess env st index p head data c
          else
            let '(ret, p) := TransProxyNormalSliceProcess p head data in
            (ret, updateProc st c index p, []) in
        if negb (ret =? SOFTBUS_OK)
        then (ret, updateProc st c index (TransProxyClearProcessor p), out)
        else (ret, st, out)
      end
  end.

Definition ProxyDataRecvHandler (env : Env) (st : Inner) (c : Z) (data : list byte)
  : Z * Inner * list (Z * list byte) :=
  if Z.of_nat (length data) <=? sizeof_SliceHead then (SOFTBUS_INVALID_PARAM, st, [])
  else
    let headSlice := TransUnPackSliceHead data in
    if negb (TransProxyCheckSliceHead (Some headSlice) =? SOFTBUS_OK)
    then (SOFTBUS_TRANS_PROXY_INVALID_SLICE_HEAD, st, [])
    else
      let rest := drop (Z.to_nat sizeof_SliceHead) data in
      if sliceNum headSlice =? 1 then ClientTransInnerProxyNoSubPacketProc env st c rest
      else ClientTransProxySubPacketProc env st c headSlice rest.

(** ** Sending *)

Section Sending.
Context (enc : Key -> Z -> list byte -> Z * list byte).

(** Code, packet, new counter; the allocator of the packing functions. *)
Definition TransInnerProxyPackBytes (alloc : nat -> Z -> bool) (st : Inner) (data : list byte)
    (info : TransInnerSessionInfo) : Z * option (list byte) * Inner :=
  let st' := mkInner (g_sessionList st) (g_innerChannelSliceProcessorList st) (s32 (seqNo st + 1)) in
  if supportTlv info then
    let '(r, out, _) := TransProxyPackTlvBytes enc alloc data (Some (sessionKey info))
                          TRANS_SESSION_BYTES (seqNo st) false 0 in (r, out, st')
  else
    let '(r, out) := TransProxyPackBytes enc (alloc 0%nat) data (Some (sessionKey info))
                       TRANS_SESSION_BYTES (seqNo st) in (r, out, st').

(** The loop from slice [cnt] on; [TransSendMsg n] is the channel's answer for
    slice n. Returns the slices handed to it. *)
Fixpoint sendSlices (alloc : nat -> Z -> bool) (TransSendMsg : nat -> Z) (outData : list byte) (num : Z)
    (todo cnt : nat) : Z * list (list byte) :=
  match todo with
  | O => (SOFTBUS_OK, [])
  | S todo' =>
    match TransProxyPackData (alloc (7 + cnt)%nat) outData num TRANS_SESSION_BYTES (Z.of_nat cnt) with
    | None => (SOFTBUS_MALLOC_ERR, [])
    | Some (sliceData, _) =>
      let ret := TransSendMsg cnt in
      if negb (ret =? SOFTBUS_OK) then (ret, [sliceData])
      else let '(r, l) := sendSlices alloc TransSendMsg outData num todo' (S cnt) in (r, sliceData :: l)
    end
  end.

(** A NULL packet leaves [outLen] at the length of the data, and no byte can be
    copied from it. *)
Definition ProxySendData (alloc : nat -> Z -> bool) (TransSendMsg : nat -> Z) (st : Inner)
    (data : option (list byte)) (info : option TransInnerSessionInfo)
  : Z * Inner * list (list byte) :=
  match data, info with
  | Some data, Some info =>
    if DATA_BUF_MAX <? Z.of_nat (length data) then (SOFTBUS_INVALID_PARAM, st, [])
    else
      let '(ret, out, st) := TransInnerProxyPackBytes alloc st data info in
      if negb (ret =? SOFTBUS_OK) then (ret, st, [])
      else
        let outLen := Z.of_nat (length (default data out)) in
        let num := u32 (outLen + (SLICE_LEN - 1)) / SLICE_LEN in
        if INT32_MAX <? num then (SOFTBUS_INVALID_NUM, st, [])
        else
          match out with
          | None => (if num =? 0 then SOFTBUS_OK else SOFTBUS_MALLOC_ERR, st, [])
          | Some out =>
            let '(r, l) := sendSlices alloc TransSendMsg out num (Z.to_nat num) 0 in (r, st, l)
          end
  | _, _ => (SOFTBUS_INVALID_PARAM, st, [])
  end.

End Sending.

(** ** Lookup *)

Lemma lookupSession_idem c l i l' :
  lookupSession c l = (SOFTBUS_OK, Some i, l') -> lookupSession c l' = (SOFTBUS_OK, Some i, l').
Proof.
  revert l'. induction l as [|s l IH]; intros l'; [discriminate|]. cbn [lookupSession].
  destruct (Z.eqb_spec (channelId s) c) as [E|E]; cbn [negb].
  - destruct (bool_decide _ && _) eqn:Hb.
    + destruct (TransProxyGetAppInfoByChanId c) as [r [f k]].
      destruct (Z.eqb_spec r SOFTBUS_OK); [|discriminate]. intros [= <- <-]. cbn [lookupSession channelId].
      rewrite (proj2 (Z.eqb_eq _ _) E). cbn. now rewrite andb_false_r.
    + intros [= <- <-]. cbn [lookupSession]. rewrite (proj2 (Z.eqb_eq _ _) E), Hb. reflexivity.
  - destruct (lookupSession c l) as [[r i'] l''] eqn:Hl. intros [= -> -> <-].
    cbn [lookupSession]. rewrite (proj2 (Z.eqb_neq _ _) E). cbn [negb].
    now rewrite (IH _ eq_refl).
Qed.

(** The session is in the table, with its key. *)
Definition ready (st : Inner) (c : Z) (i : TransInnerSessionInfo) : Prop :=
  exists l, g_sessionList st = Some l /\ lookupSession c l = (SOFTBUS_OK, Some i, l).

Lemma GetSession_ready st c i st' :
  GetSessionInfoByChanId true st c = (SOFTBUS_OK, Some i, st') -> ready st' c i.
Proof.
  unfold GetSessionInfoByChanId. destruct (g_sessionList st) as [l|]; [|discriminate]. cbn [negb].
  destruct (lookupSession c l) as [[r i'] l'] eqn:Hl. intros [= -> -> <-].
  exists l'. split; [reflexivity|]. eapply lookupSession_idem; eassumption.
Qed.

Lemma ready_Get st c i : ready st c i -> GetSessionInfoByChanId true st c = (SOFTBUS_OK, Some i, st).
Proof.
  intros (l & El & Hl). unfold GetSessionInfoByChanId. rewrite El. cbn [negb]. rewrite Hl.
  unfold setSessions. rewrite <- El. now destruct st.
Qed.

Lemma findChan_setProc c i p l n :
  findChan c l = Some n -> findChan c (setProc c i p l) = Some (mkChan c (<[i := p]> (processor n))).
Proof.
  induction l as [|x l IH]; [discriminate|]. cbn [findChan setProc].
  destruct (Z.eqb_spec (chanId x) c) as [E|E]; cbn [findChan chanId].
  - intros [= ->]. now rewrite Z.eqb_refl.
  - intros H. rewrite (proj2 (Z.eqb_neq _ _) E). now apply IH.
Qed.

Lemma findChan_setProc_ne c c' i p l : c <> c' -> findChan c' (setProc c i p l) = findChan c' l.
Proof.
  intros Hn. induction l as [|x l IH]; [reflexivity|]. cbn [findChan setProc].
  destruct (Z.eqb_spec (chanId x) c) as [E|E]; cbn [findChan chanId].
  - rewrite E. destruct (Z.eqb_spec c c'); [contradiction|reflexivity].
  - now rewrite IH.
Qed.

(** ** Delivering one packet *)

Definition envOK (env : Env) : Prop :=
  (forall n, sessionLock env n = true) /\ sliceLock env = true /\
  (forall n z, libc env n z = true) /\ tlvHeadOK (junk env).

(** The packet of a ciphertext. *)
Definition packet (tlv : bool) (sq : Z) (cipher : list byte) : list byte :=
  let n := Z.of_nat (length cipher) in
  if tlv then tlvHead sq TRANS_SESSION_BYTES n false 0 ++ cipher
  else TransPackPacketHead (mkPacketHead MAGIC_NUMBER sq TRANS_SESSION_BYTES n) ++ cipher.

(** The ciphertext is one that decrypts to [m] under the session's key. *)
Definition ciphers (k : Key) (sq : Z) (m cipher : list byte) : Prop :=
  dec k sq cipher = (SOFTBUS_OK, m) /\
  Z.of_nat (length cipher) = Z.of_nat (length m) + OVERHEAD_LEN /\
  (0 < length m)%nat /\ Z.of_nat (length m) <= DATA_BUF_MAX.

Lemma deliver_ok env st c i m sq cipher :
  envOK env -> ready st c i -> hasListener i = true -> ciphers (sessionKey i) sq m cipher ->
  Z.of_nat (length m) <= g_proxyMaxByteBufSize cfg ->
  deliver env st c (TransProxyProcessSessionData (libc env 2) (Z.of_nat (length cipher)) cipher) sq
    TRANS_SESSION_BYTES = (SOFTBUS_OK, onBytes env c m st, [(c, m)]).
Proof.
  intros (Hlk & _ & Hlibc & _) Hr Hl (Hd & Hlen & Hpos & Hmax) Hlim.
  unfold deliver. rewrite Hlk, (ready_Get _ _ _ Hr), Hl. cbn [negb].
  unfold TransProxyProcessSessionData. change OVERHEAD_LEN with 28 in *. unfold DATA_BUF_MAX in *.
  destruct (Z.leb_spec (Z.of_nat (length cipher)) 28); [lia|].
  rewrite u32_small by (unfold in_u32; lia).
  rewrite SoftBusCalloc_true by (auto; unfold MAX_MALLOC_SIZE; lia). cbn [negb].
  rewrite Nat2Z.id, firstn_all. unfold TransProxyDecryptPacketData. rewrite Hd.
  cbn [negb Z.eqb SOFTBUS_OK]. unfold TransProxySessionDataLenCheck. cbn [Z.eqb orb TRANS_SESSION_BYTES].
  change (0 =? TRANS_SESSION_MESSAGE) with false. change (0 =? TRANS_SESSION_ASYNC_MESSAGE) with false.
  cbn [orb]. destruct (Z.ltb_spec (g_proxyMaxByteBufSize cfg) (Z.of_nat (length m))); [lia|]. reflexivity.
Qed.

Lemma packet_delivered env st c i m sq cipher :
  envOK env -> ready st c i -> hasListener i = true -> ciphers (sessionKey i) sq m cipher ->
  Z.of_nat (length m) <= g_proxyMaxByteBufSize cfg -> in_s32 sq ->
  ClientTransInnerProxyNoSubPacketProc env st c (packet (supportTlv i) sq cipher) =
  (SOFTBUS_OK, onBytes env c m st, [(c, m)]).
Proof.
  intros He Hr Hl Hc Hlim Hsq. pose proof (deliver_ok _ _ _ _ _ _ _ He Hr Hl Hc Hlim) as Hdel.
  destruct Hc as (Hd & Hlen & Hpos & Hmax). destruct He as (Hlk & _ & Hlibc & Hj).
  change OVERHEAD_LEN with 28 in *. unfold DATA_BUF_MAX in *.
  unfold ClientTransInnerProxyNoSubPacketProc. rewrite Hlk, (ready_Get _ _ _ Hr).
  unfold packet. destruct (supportTlv i).
  - unfold ClientTransProxyInnerNoSubPacketTlvProc.
    rewrite TransProxyParseTlv_head by (auto; unfold MAX_MALLOC_SIZE; lia).
    cbn [negb Z.eqb SOFTBUS_OK]. unfold TransProxyNoSubPacketTlvProc, TransUnPackTlvPackHead.
    cbn [tMagic tSeq tDataSeq tFlags tDataLen vMagic vDataLen].
    rewrite !unle_le_u32, s32_u32, (s32_small sq), length_app, length_tlvHead by assumption.
    rewrite !u32_small by (unfold in_u32, MAGIC_NUMBER, TRANS_SESSION_BYTES; lia). rewrite Z.eqb_refl. cbn [negb].
    destruct (Z.eqb_spec (Z.of_nat (length cipher)) 0); [lia|].
    destruct (Z.leb_spec (Z.of_nat (32 + length cipher)) 32); [lia|].
    replace (Z.of_nat (32 + length cipher) - 32) with (Z.of_nat (length cipher)) by lia.
    rewrite Z.eqb_refl. cbn [negb orb Z.eqb SOFTBUS_OK].
    unfold ClientTransInnerProxyProcData, TransProxyProcData. cbn [vSeq vFlags vDataLen].
    change (drop (Z.to_nat 32) (tlvHead sq TRANS_SESSION_BYTES (Z.of_nat (length cipher)) false 0 ++ cipher))
      with cipher. exact Hdel.
  - unfold TransProxyNoSubPacketProc. rewrite length_app, length_TransPackPacketHead.
    unfold sizeof_PacketHead. destruct (Z.leb_spec (Z.of_nat (16 + length cipher)) 16); [lia|].
    rewrite TransUnPackPacketHead_pack by (try assumption; unfold in_s32, TRANS_SESSION_BYTES; lia).
    cbn [magicNumber dataLen]. change (u32 (s32 MAGIC_NUMBER) =? MAGIC_NUMBER) with true. cbn [negb].
    destruct (Z.leb_spec (Z.of_nat (length cipher)) 0); [lia|].
    rewrite s32_small by (unfold in_s32; lia).
    replace (Z.of_nat (16 + length cipher) - 16) with (Z.of_nat (length cipher)) by lia.
    rewrite Z.eqb_refl. cbn [negb]. unfold ClientTransInnerProxyProcessSessionData.
    cbn [dataLen seq flags].
    change (drop (Z.to_nat 16) (TransPackPacketHead
      (mkPacketHead MAGIC_NUMBER sq TRANS_SESSION_BYTES (Z.of_nat (length cipher))) ++ cipher)) with cipher.
    exact Hdel.
Qed.

(** ** Collecting the slices of a packet *)

(** The message that carries slice [k]. *)
Definition frame (out : list byte) (k : nat) : list byte :=
  TransPackSliceHead (mkSliceHead PROXY_CHANNEL_PRIORITY_BYTES (slicesOf out) (Z.of_nat k) 0)
  ++ sliceOf out k.

Lemma recv_frame env st c out k :
  Z.of_nat (length out) <= 268435456 -> Z.of_nat k < slicesOf out ->
  ProxyDataRecvHandler env st c (frame out k) =
  if slicesOf out =? 1 then ClientTransInnerProxyNoSubPacketProc env st c (sliceOf out k)
  else ClientTransProxySubPacketProc env st c
         (mkSliceHead PROXY_CHANNEL_PRIORITY_BYTES (slicesOf out) (Z.of_nat k) 0) (sliceOf out k).
Proof.
  intros Hmax Hk. pose proof (slicesOf_spec out) as Hs. pose proof (length_sliceOf out k) as Hlen.
  assert (HL : SLICE_LEN = 4096) by reflexivity. rewrite HL in *.
  unfold ProxyDataRecvHandler, frame. rewrite length_app, length_TransPackSliceHead.
  unfold sizeof_SliceHead. destruct (Z.leb_spec (Z.of_nat (16 + length (sliceOf out k))) 16); [lia|].
  rewrite TransUnPackSliceHead_pack
    by (cbn [priority sliceNum sliceSeq reserved]; unfold in_s32, PROXY_CHANNEL_PRIORITY_BYTES; lia).
  unfold TransProxyCheckSliceHead. cbn [priority sliceNum sliceSeq].
  change ((PROXY_CHANNEL_PRIORITY_BYTES <? 0)
          || (PROXY_CHANNEL_PRIORITY_BUTT <=? PROXY_CHANNEL_PRIORITY_BYTES)) with false.
  destruct (Z.leb_spec (slicesOf out) (Z.of_nat k)); [lia|]. rewrite andb_false_r. cbn [Z.eqb SOFTBUS_OK negb].
  set (h := mkSliceHead _ _ _ _).
  replace (Z.to_nat 16) with (length (TransPackSliceHead h)) by apply length_TransPackSliceHead.
  now rewrite drop_app_length.
Qed.

(** Every node has its three processors. *)
Definition chansOK (st : Inner) : Prop :=
  exists l, g_innerChannelSliceProcessorList st = Some l /\
            forall c n, findChan c l = Some n -> length (processor n) = 3%nat.

(** The channel's BYTES processor. *)
Definition procIs (st : Inner) (c : Z) (p : SliceProcessor) : Prop :=
  exists l n, g_innerChannelSliceProcessorList st = Some l /\ findChan c l = Some n /\
              length (processor n) = 3%nat /\ processor n !! 1%nat = Some p.

Lemma procIs_update st c p q : procIs st c p -> procIs (updateProc st c 1 q) c q.
Proof.
  intros (l & n & El & Hf & Hlen & _). 
  exists (setProc c 1 q l), (mkChan c (<[1%nat := q]> (processor n))).
  split; [cbn; now rewrite El|]. split; [now apply findChan_setProc|]. cbn [processor].
  rewrite length_insert. split; [exact Hlen|]. apply list_lookup_insert_eq. lia.
Qed.

Lemma ready_update st c i c' idx p : ready st c i -> ready (updateProc st c' idx p) c i.
Proof. intros H. exact H. Qed.

Lemma GetChannelSlice_ok env st c :
  envOK env -> chansOK st ->
  exists l l' n p, g_innerChannelSliceProcessorList st = Some l /\
    ClientTransProxyGetChannelSlice (libc env 0) l c = Some (n, l') /\
    processor n !! 1%nat = Some p /\ procIs (setSlices st (Some l')) c p.
Proof.
  intros (_ & _ & Hlibc & _) (l & El & Hl). unfold ClientTransProxyGetChannelSlice.
  destruct (findChan c l) as [n|] eqn:Hf.
  - destruct (lookup_lt_is_Some_2 (processor n) 1) as [p Hp]; [rewrite (Hl _ _ Hf); lia|].
    exists l, l, n, p. rewrite Hf. repeat (split; [auto; fail|]). pose proof (Hl _ _ Hf). exists l, n. auto.
  - exists l, (freshChan c :: l), (freshChan c), freshProc. rewrite Hf.
    rewrite SoftBusCalloc_true by (auto; vm_compute; split; congruence).
    repeat (split; [auto; fail|]). eexists _, _. split; [reflexivity|]. cbn [findChan chanId freshChan].
    rewrite Z.eqb_refl. auto.
Qed.

Lemma procIs_slice env st c p :
  procIs st c p ->
  exists l n, g_innerChannelSliceProcessorList st = Some l /\
    ClientTransProxyGetChannelSlice (libc env 0) l c = Some (n, l) /\
    processor n !! 1%nat = Some p /\ setSlices st (Some l) = st.
Proof.
  intros (l & n & El & Hf & Hlen & Hp). exists l, n. unfold ClientTransProxyGetChannelSlice.
  rewrite Hf. repeat (split; [auto; fail|]). unfold setSlices. rewrite <- El. now destruct st.
Qed.

(** Feeding messages in order; message [n] is handled under [env n]. *)
Fixpoint recvAll (env : nat -> Env) (n : nat) (st : Inner) (c : Z) (msgs : list (list byte))
  : list Z * Inner * list (Z * list byte) :=
  match msgs with
  | [] => ([], st, [])
  | d :: msgs' =>
    let '(r, st, o) := ProxyDataRecvHandler (env n) st c d in
    let '(rs, st, os) := recvAll env (S n) st c msgs' in
    (r :: rs, st, o ++ os)
  end.

Lemma recvAll_cons env n st c d msgs st1 rs st2 out :
  ProxyDataRecvHandler (env n) st c d = (SOFTBUS_OK, st1, []) ->
  recvAll env (S n) st1 c msgs = (rs, st2, out) ->
  recvAll env n st c (d :: msgs) = (SOFTBUS_OK :: rs, st2, out).
Proof. intros E1 E2. cbn [recvAll]. now rewrite E1, E2. Qed.

(** A chain of messages that keeps an invariant [P k] until the last one. *)
Lemma recv_chain env c (fr : nat -> list byte) (P : nat -> Inner -> Prop) m N :
  (forall k st, (0 < k)%nat -> (k + 1 < N)%nat -> P k st ->
     exists st', ProxyDataRecvHandler (env k) st c (fr k) = (SOFTBUS_OK, st', []) /\ P (S k) st') ->
  (forall k st, (0 < k)%nat -> (k + 1 = N)%nat -> P k st ->
     exists st', ProxyDataRecvHandler (env k) st c (fr k) = (SOFTBUS_OK, st', [(c, m)])) ->
  forall todo k st, P k st -> (0 < k)%nat -> (k + S todo = N)%nat ->
  exists st', recvAll env k st c (fr <$> List.seq k (S todo)) =
    (replicate (S todo) SOFTBUS_OK, st', [(c, m)]).
Proof.
  intros Hnorm Hlast. induction todo as [|todo IH]; intros k st HP Hk HN.
  - destruct (Hlast k st) as (st' & E); [lia|lia|assumption|].
    exists st'. cbn [List.seq fmap list_fmap recvAll]. now rewrite E.
  - destruct (Hnorm k st) as (st1 & E & HP1); [lia|lia|assumption|].
    destruct (IH (S k) st1) as (st' & E'); [assumption|lia|lia|].
    exists st'. rewrite <- cons_seq, fmap_cons. eapply recvAll_cons; eassumption.
Qed.

(** What is fixed while one packet travels: channel, session, message,
    ciphertext, and the limits that let it pass. *)
Section Packet.
Context (c : Z) (i : TransInnerSessionInfo) (m cipher : list byte) (sq : Z).
Context (Hlisten : hasListener i = true) (Hcipher : ciphers (sessionKey i) sq m cipher)
        (Hsq : in_s32 sq).
Context (Hcfg : 0 <= g_proxyMaxByteBufSize cfg /\ g_proxyMaxByteBufSize cfg + SLICE_LEN <= UINT32_MAX /\
                g_proxyMaxByteBufSize cfg mod SLICE_LEN <= SLICE_LEN - 60)
        (Hlim : Z.of_nat (length m) <= g_proxyMaxByteBufSize cfg).

#[local] Abbreviation out := (packet (supportTlv i) sq cipher).
#[local] Abbreviation extra := ((if supportTlv i then PROXY_TLV_PKT_HEAD else sizeof_PacketHead) + OVERHEAD_LEN).
#[local] Abbreviation bl := (slicesOf out * SLICE_LEN + extra).

Lemma packet_length :
  Z.of_nat (length m) + 44 <= Z.of_nat (length out) <= Z.of_nat (length m) + 60 /\
  (0 < length m)%nat /\ Z.of_nat (length m) <= 4194304.
Proof.
  destruct Hcipher as (_ & Hl & Hp & Hm). unfold DATA_BUF_MAX in Hm. change OVERHEAD_LEN with 28 in Hl.
  unfold packet. destruct (supportTlv i); rewrite length_app, ?length_tlvHead, ?length_TransPackPacketHead; lia.
Qed.

Lemma packet_slices : 0 < slicesOf out <= 1025 /\ roomFor (g_proxyMaxByteBufSize cfg) (slicesOf out).
Proof.
  pose proof packet_length as (Hl & Hp & Hm). split.
  - unfold slicesOf. change SLICE_LEN with 4096. Z.to_euclidean_division_equations. lia.
  - apply slicesOf_room; lia.
Qed.

Lemma first_slice env st :
  envOK env -> ready st c i -> chansOK st -> 1 < slicesOf out ->
  exists st', ProxyDataRecvHandler env st c (frame out 0) = (SOFTBUS_OK, st', []) /\
    ready st' c i /\ procIs st' c (collected 0 bl out 1).
Proof.
  intros He Hr Hch HN. pose proof packet_length as (Hl & Hp & Hm). pose proof packet_slices as (Hs & Hroom).
  rewrite recv_frame by lia. destruct (Z.eqb_spec (slicesOf out) 1) as [E1|E1]; [lia|clear E1].
  destruct (GetChannelSlice_ok env st c He Hch) as (l & l' & n & p & El & Eg & Hpn & Hpi).
  destruct He as (Hlk & Hsl & Hlibc & _).
  unfold ClientTransProxySubPacketProc. rewrite El, Hsl. cbn [negb]. rewrite Eg.
  cbn [priority sliceSeq]. change (Z.of_nat 0 =? 0) with true. cbv iota.
  change (Z.to_nat PROXY_CHANNEL_PRIORITY_BYTES) with 1%nat. rewrite Hpn. cbn [from_option id].
  unfold ClientTransInnerProxyFirstSliceProcess. rewrite Hlk.
  rewrite (ready_Get (setSlices st (Some l')) c i) by exact Hr.
  unfold TransGetActualDataLen. cbn [priority sliceNum].
  change (PROXY_CHANNEL_PRIORITY_BYTES =? PROXY_CHANNEL_PRIORITY_MESSAGE) with false. cbv iota.
  unfold roomFor in Hroom. rewrite u32_small by (unfold in_u32, SLICE_LEN in *; lia).
  destruct (Z.ltb_spec (slicesOf out) 0); [lia|].
  destruct (Z.ltb_spec ((g_proxyMaxByteBufSize cfg + SLICE_LEN) / SLICE_LEN) (slicesOf out)); [lia|].
  cbn [orb]. cbn [negb Z.eqb SOFTBUS_OK].
  unfold TransProxyFirstSliceProcess. cbn [priority].
  change (PROXY_CHANNEL_PRIORITY_BYTES =? PROXY_CHANNEL_PRIORITY_MESSAGE) with false. cbv iota.
  pose proof (length_sliceOf out 0) as Hlen.
  rewrite firstSlice_ok; cbn [sliceNum];
    [|auto|lia|lia|exact Hroom|lia|destruct (supportTlv i); vm_compute; split; congruence|lia
     |unfold SLICE_LEN in *; lia].
  cbn [negb Z.eqb SOFTBUS_OK]. eexists. split; [reflexivity|].
  split; [apply ready_update; exact Hr|].
  replace (mkProc _ _ _ _ _ _ _) with (collected 0 bl out 1); [eapply procIs_update; exact Hpi|].
  pose proof (slicesOf_spec out). unfold collected.
  f_equal; unfold SLICE_LEN in *; lia.
Qed.

Lemma normal_slice env st k :
  envOK env -> ready st c i -> procIs st c (collected 0 bl out k) ->
  (0 < k)%nat -> Z.of_nat k + 1 < slicesOf out ->
  exists st', ProxyDataRecvHandler env st c (frame out k) = (SOFTBUS_OK, st', []) /\
    ready st' c i /\ procIs st' c (collected 0 bl out (S k)).
Proof.
  intros He Hr Hpi Hk HN. pose proof packet_length as (Hl & Hp & Hm). pose proof packet_slices as (Hs & _).
  rewrite recv_frame by lia. destruct (Z.eqb_spec (slicesOf out) 1) as [E1|E1]; [lia|clear E1].
  destruct (procIs_slice env st c _ Hpi) as (l & n & El & Eg & Hpn & Est).
  destruct He as (Hlk & Hsl & Hlibc & _).
  unfold ClientTransProxySubPacketProc. rewrite El, Hsl. cbn [negb]. rewrite Eg, Est.
  cbn [priority sliceSeq sliceNum]. destruct (Z.eqb_spec (Z.of_nat k) 0); [lia|].
  rewrite s32_small by (unfold in_s32; lia).
  destruct (Z.eqb_spec (slicesOf out) (Z.of_nat k + 1)); [lia|].
  change (Z.to_nat PROXY_CHANNEL_PRIORITY_BYTES) with 1%nat. rewrite Hpn. cbn [from_option id].
  rewrite TransProxyNormalSliceProcess_ok
    by (try (destruct (supportTlv i); unfold PROXY_TLV_PKT_HEAD, sizeof_PacketHead, OVERHEAD_LEN,
             GCM_IV_LEN, TAG_LEN, SLICE_LEN in *); lia).
  cbn [negb Z.eqb SOFTBUS_OK]. eexists. split; [reflexivity|].
  split; [apply ready_update; exact Hr|]. eapply procIs_update; exact Hpi.
Qed.

Lemma last_slice env st k :
  envOK env -> ready st c i -> procIs st c (collected 0 bl out k) ->
  (0 < k)%nat -> Z.of_nat k + 1 = slicesOf out ->
  exists st', ProxyDataRecvHandler env st c (frame out k) = (SOFTBUS_OK, st', [(c, m)]).
Proof.
  intros He Hr Hpi Hk HN. pose proof packet_length as (Hl & Hp & Hm). pose proof packet_slices as (Hs & _).
  rewrite recv_frame by lia. destruct (Z.eqb_spec (slicesOf out) 1) as [E1|E1]; [lia|clear E1].
  destruct (procIs_slice env st c _ Hpi) as (l & n & El & Eg & Hpn & Est).
  pose proof He as (Hlk & Hsl & Hlibc & _).
  unfold ClientTransProxySubPacketProc. rewrite El, Hsl. cbn [negb]. rewrite Eg, Est.
  cbn [priority sliceSeq sliceNum]. destruct (Z.eqb_spec (Z.of_nat k) 0); [lia|].
  rewrite s32_small by (unfold in_s32; lia). rewrite HN, Z.eqb_refl.
  change (Z.to_nat PROXY_CHANNEL_PRIORITY_BYTES) with 1%nat. rewrite Hpn. cbn [from_option id].
  destruct (collected_valid bl out k PROXY_CHANNEL_PRIORITY_BYTES) as [H1 H2];
    [lia|destruct (supportTlv i); unfold PROXY_TLV_PKT_HEAD, sizeof_PacketHead, OVERHEAD_LEN,
             GCM_IV_LEN, TAG_LEN, SLICE_LEN in *; lia|lia|].
  unfold ClientTransProxyLastSliceProcess. rewrite H1. cbn [negb Z.eqb SOFTBUS_OK].
  set (p' := mkProc _ _ _ _ _ _ _).
  replace (memcpy_s _ _) with true by (symmetry; exact H2). cbn [negb].
  pose proof (slicesOf_spec out) as Hspec. pose proof (length_sliceOf out k) as Hlen.
  assert (Ed : pdata p' = Some out /\ pDataLen p' = Z.of_nat (length out)).
  { subst p'. cbn [pdata pDataLen collected fmap option_fmap option_map]. rewrite sliceOf_extends.
    change SLICE_LEN with 4096 in *. split; [f_equal; apply take_ge; lia|].
    rewrite !s32_small by (unfold in_s32; rewrite ?s32_small by (unfold in_s32; lia); lia). lia. }
  clearbody p'. destruct Ed as [Ed El']. rewrite Ed, El'. cbn [from_option id].
  rewrite u32_small, Nat2Z.id, firstn_all by (unfold in_u32; lia).
  rewrite (packet_delivered env _ c i m sq cipher) by (auto; now apply ready_update).
  cbn [negb Z.eqb SOFTBUS_OK]. destruct (IsValidCheckoutSliceProcess _ _);
    cbn [negb Z.eqb SOFTBUS_OK]; eexists; reflexivity.
Qed.

Lemma recv_all env st :
  (forall n, envOK (env n)) -> ready st c i -> chansOK st -> 1 < slicesOf out ->
  exists st', recvAll env 0 st c (frame out <$> List.seq 0 (Z.to_nat (slicesOf out))) =
    (replicate (Z.to_nat (slicesOf out)) SOFTBUS_OK, st', [(c, m)]).
Proof.
  intros He Hr Hch HN.
  destruct (first_slice (env 0%nat) st (He 0%nat) Hr Hch HN) as (s1 & E & Hr1 & Hp1).
  destruct (recv_chain env c (frame out) (fun k st => ready st c i /\ procIs st c (collected 0 bl out k)) m
              (Z.to_nat (slicesOf out))) with (todo := (Z.to_nat (slicesOf out) - 2)%nat) (k := 1%nat) (st := s1)
    as (st' & E');
    [intros k s ? ? (? & ?); apply normal_slice; auto; lia
    |intros k s ? ? (? & ?); apply last_slice; auto; lia
    |auto|lia|lia|].
  exists st'.
  assert (EN : Z.to_nat (slicesOf out) = S (S (Z.to_nat (slicesOf out) - 2))) by lia.
  rewrite EN, <- cons_seq, fmap_cons. exact (recvAll_cons _ _ _ _ _ _ _ _ _ _ E E').
Qed.

End Packet.

(** ** A whole transfer *)

Section Transfer.
Context (enc : Key -> Z -> list byte -> Z * list byte).

Lemma sendSlices_ok alloc send out :
  (forall n z, alloc n z = true) -> (forall n, send n = SOFTBUS_OK) ->
  Z.of_nat (length out) <= 268435456 ->
  forall todo cnt, Z.of_nat (cnt + todo) <= slicesOf out ->
  sendSlices alloc send out (slicesOf out) todo cnt = (SOFTBUS_OK, frame out <$> List.seq cnt todo).
Proof.
  intros Ha Hs Hmax. induction todo as [|todo IH]; intros cnt Hle; [reflexivity|].
  cbn [sendSlices].
  destruct (TransProxyPackData_ok (alloc (7 + cnt)%nat) out TRANS_SESSION_BYTES cnt) as [len ->];
    [auto|assumption|lia|].
  rewrite Hs. cbn [negb Z.eqb SOFTBUS_OK]. rewrite IH by lia. reflexivity.
Qed.

(** What the library's callers rely on of authenticated encryption with the
    session key: 28 bytes longer, and decryption under the same key and sequence
    number gives the plaintext back. *)
Class SessionCipher : Prop := session_cipher : forall k sq m, (0 < length m)%nat ->
  exists cipher, enc k sq m = (SOFTBUS_OK, cipher) /\ dec k sq cipher = (SOFTBUS_OK, m) /\
    Z.of_nat (length cipher) = Z.of_nat (length m) + OVERHEAD_LEN.

Lemma ProxySendData_ok alloc send st m info cipher :
  (forall n z, alloc n z = true) -> (forall n, send n = SOFTBUS_OK) ->
  enc (sessionKey info) (seqNo st) m = (SOFTBUS_OK, cipher) ->
  ciphers (sessionKey info) (seqNo st) m cipher ->
  let out := packet (supportTlv info) (seqNo st) cipher in
  exists st', ProxySendData enc alloc send st (Some m) (Some info) =
    (SOFTBUS_OK, st', frame out <$> List.seq 0 (Z.to_nat (slicesOf out))) /\
    g_sessionList st' = g_sessionList st /\ seqNo st' = s32 (seqNo st + 1).
Proof.
  intros Ha Hs He Hc out. pose proof (packet_length info m cipher (seqNo st) Hc) as (Hl & _ & Hm).
  fold out in Hl. pose proof (slicesOf_spec out) as Hspec.
  destruct Hc as (_ & Hlen & _ & Hmax). unfold ProxySendData.
  destruct (Z.ltb_spec DATA_BUF_MAX (Z.of_nat (length m))); [lia|].
  assert (Hp : exists st', TransInnerProxyPackBytes enc alloc st m info = (SOFTBUS_OK, Some out, st') /\
             g_sessionList st' = g_sessionList st /\ seqNo st' = s32 (seqNo st + 1)).
  { unfold TransInnerProxyPackBytes, out, packet. rewrite Hlen. destruct (supportTlv info).
    - rewrite (TransProxyPackTlvBytes_ok enc alloc m _ _ _ _ _ cipher) by assumption.
      eexists. split; [reflexivity|]. auto.
    - rewrite (TransProxyPackBytes_ok enc (alloc 0%nat) m _ _ _ cipher) by auto.
      eexists. split; [reflexivity|]. auto. }
  destruct Hp as (st' & -> & Hst). cbn [negb Z.eqb SOFTBUS_OK from_option id].
  change SLICE_LEN with 4096 in *.
  rewrite u32_small by (unfold in_u32; lia).
  change ((Z.of_nat (length out) + (4096 - 1)) / 4096) with (slicesOf out).
  destruct (Z.ltb_spec INT32_MAX (slicesOf out)); [lia|].
  rewrite sendSlices_ok by (auto; lia). exists st'. auto.
Qed.

(** C5. A message sent on a proxy channel arrives: when the two ends hold the
    same session (key and head format), packing, encrypting and slicing with
    [ProxySendData] and handing the slices in order to [ProxyDataRecvHandler]
    makes every slice succeed and calls the listener exactly once, with exactly
    the message. It holds for messages up to the receiver's limit, provided the
    limit leaves 60 bytes of its last slice to heads and tag; whatever slices the
    channel had collected before, and whatever the listener does. *)
Theorem proxy_transfer {HC : SessionCipher} alloc send snd info rcv rcv' c env m :
  (forall n z, alloc n z = true) -> (forall n, send n = SOFTBUS_OK) -> (forall n, envOK (env n)) ->
  in_s32 (seqNo snd) -> (0 < length m)%nat ->
  Z.of_nat (length m) <= DATA_BUF_MAX -> Z.of_nat (length m) <= g_proxyMaxByteBufSize cfg ->
  g_proxyMaxByteBufSize cfg + SLICE_LEN <= UINT32_MAX ->
  g_proxyMaxByteBufSize cfg mod SLICE_LEN <= SLICE_LEN - 60 ->
  GetSessionInfoByChanId true rcv c = (SOFTBUS_OK, Some info, rcv') ->
  hasListener info = true -> chansOK rcv' ->
  exists snd' slices rcv'',
    ProxySendData enc alloc send snd (Some m) (Some info) = (SOFTBUS_OK, snd', slices) /\
    recvAll env 0 rcv' c slices = (replicate (length slices) SOFTBUS_OK, rcv'', [(c, m)]).
Proof.
  intros Ha Hs He Hsq Hm Hmax Hlim Hcfg Hmod Hget Hli Hch.
  destruct (HC (sessionKey info) (seqNo snd) m Hm) as (cipher & Henc & Hdec & Hlen).
  assert (Hc : ciphers (sessionKey info) (seqNo snd) m cipher) by (repeat split; assumption).
  assert (Hcf : 0 <= g_proxyMaxByteBufSize cfg /\ g_proxyMaxByteBufSize cfg + SLICE_LEN <= UINT32_MAX /\
    g_proxyMaxByteBufSize cfg mod SLICE_LEN <= SLICE_LEN - 60) by lia.
  apply GetSession_ready in Hget.
  destruct (ProxySendData_ok alloc send snd m info cipher Ha Hs Henc Hc) as (snd' & Es & _).
  set (out := packet (supportTlv info) (seqNo snd) cipher) in *.
  destruct (packet_slices info m cipher (seqNo snd) Hc Hcf Hlim) as [HN _].
  pose proof (packet_length info m cipher (seqNo snd) Hc) as (Hl & _ & Hmm).
  pose proof (slicesOf_spec out) as Hspec. fold out in HN, Hl.
  exists snd', (frame out <$> List.seq 0 (Z.to_nat (slicesOf out))).
  destruct (Z.eq_dec (slicesOf out) 1) as [E1|E1].
  - exists (onBytes (env 0%nat) c m rcv'). split; [exact Es|]. rewrite E1. change (Z.to_nat 1) with 1%nat.
    cbn [List.seq fmap list_fmap recvAll]. rewrite recv_frame by lia. rewrite E1. cbn [Z.eqb Pos.eqb].
    replace (sliceOf out 0) with out.
    2: { unfold sliceOf. rewrite Nat.mul_0_l, drop_0, take_ge; [reflexivity|]. unfold SLICE_LEN in *. lia. }
    unfold out. rewrite (packet_delivered (env 0%nat) rcv' c info m) by auto. reflexivity.
  - destruct (recv_all c info m cipher (seqNo snd) Hli Hc Hsq Hcf Hlim env rcv' He Hget Hch) as (r2 & E2);
      [fold out; lia|].
    exists r2. split; [exact Es|]. now rewrite length_fmap, length_seq.
Qed.

End Transfer.

(** ** What arbitrary traffic can do *)

(** Processor [idx] of the channel's node. *)
Definition procAt (st : Inner) (c : Z) (idx : nat) : option SliceProcessor :=
  l ← g_innerChannelSliceProcessorList st; n ← findChan c l; processor n !! idx.

(** A listener may close sessions and channels: nodes disappear, none changes. *)
Definition removesOnly (st st' : Inner) : Prop :=
  forall c idx p, procAt st' c idx = Some p -> procAt st c idx = Some p.

Definition listenerOK (env : Env) : Prop := forall c m st, removesOnly st (onBytes env c m st).

(** The bytes collected fit the block, and the number of slices is in range. *)
Definition procOK (p : SliceProcessor) : Prop :=
  match pdata p with
  | None => True
  | Some d => Z.of_nat (length d) = pDataLen p /\ pDataLen p <= bufLen p <= MAX_MALLOC_SIZE /\
              1 <= expectedSeq p < sliceNumber p
  end.

(** A slice as it was accepted: channel, head, payload. *)
Definition Event : Type := Z * SliceHead * list byte.

(** The accepted slices of one processor. *)
Definition accepted (c : Z) (idx : nat) (evs : list Event) : list (SliceHead * list byte) :=
  omap (fun e => if (e.1.1 =? c) && (priority e.1.2 =? Z.of_nat idx) then Some (e.1.2, e.2) else None) evs.

(** Slices 0, 1, 2, ... of a packet of [N] slices. *)
Definition consecutive (N : Z) (fs : list (SliceHead * list byte)) : Prop :=
  forall j x, fs !! j = Some x -> sliceNum x.1 = N /\ sliceSeq x.1 = Z.of_nat j.

(** The processor holds the payloads of the last slices accepted for it, which
    are numbered from 0 on. *)
Definition assembled (h : list (SliceHead * list byte)) (p : SliceProcessor) : Prop :=
  match pdata p with
  | None => True
  | Some d => exists h1 fs, h = h1 ++ fs /\ consecutive (sliceNumber p) fs /\
                Z.of_nat (length fs) = expectedSeq p /\ d = concat (snd <$> fs)
  end.

Lemma procAt_update_ne st c idx p c' idx' :
  (c <> c' \/ idx <> idx') -> procAt (updateProc st c idx p) c' idx' = procAt st c' idx'.
Proof.
  intros Hn. unfold procAt, updateProc, setSlices. cbn [g_innerChannelSliceProcessorList].
  destruct (g_innerChannelSliceProcessorList st) as [l|]; [|reflexivity]. cbn.
  destruct (Z.eq_dec c c') as [<-|Hc]; [|now rewrite findChan_setProc_ne].
  destruct (findChan c l) as [n|] eqn:Hf.
  - rewrite (findChan_setProc _ _ _ _ _ Hf). cbn. apply list_lookup_insert_ne. intuition congruence.
  - enough (E : findChan c (setProc c idx p l) = None) by now rewrite E.
    clear -Hf. induction l as [|x l IH]; [reflexivity|]. cbn in *.
    destruct (Z.eqb_spec (chanId x) c); [discriminate|]. cbn.
    destruct (Z.eqb_spec (chanId x) c); [contradiction|auto].
Qed.

Lemma procAt_update_eq st c idx p q : procAt (updateProc st c idx p) c idx = Some q -> q = p.
Proof.
  unfold procAt, updateProc, setSlices. cbn [g_innerChannelSliceProcessorList].
  destruct (g_innerChannelSliceProcessorList st) as [l|]; [|discriminate]. cbn.
  induction l as [|x l IH]; [discriminate|]. cbn [setProc findChan].
  destruct (Z.eqb_spec (chanId x) c) as [E|E]; cbn [findChan chanId].
  - rewrite Z.eqb_refl. cbn. intros H. apply list_lookup_insert_Some in H as [(_ & <- & _)|(Hc & _)]; congruence.
  - rewrite (proj2 (Z.eqb_neq _ _) E). exact IH.
Qed.

Lemma procAt_sessions st l c idx : procAt (setSessions st l) c idx = procAt st c idx.
Proof. reflexivity. Qed.

Lemma GetSession_procs lock st c r i st' :
  GetSessionInfoByChanId lock st c = (r, i, st') ->
  g_innerChannelSliceProcessorList st' = g_innerChannelSliceProcessorList st.
Proof.
  unfold GetSessionInfoByChanId. destruct (g_sessionList st) as [l|]; [|now intros [= _ _ <-]].
  destruct lock; cbn [negb]; [|now intros [= _ _ <-]].
  destruct (lookupSession c l) as [[? ?] ?]. now intros [= _ _ <-].
Qed.

Lemma lookupSession_some c l r i l' : lookupSession c l = (r, Some i, l') -> r = SOFTBUS_OK.
Proof.
  revert l'. induction l as [|s l IH]; intros l'; [discriminate|]. cbn [lookupSession].
  destruct (negb (channelId s =? c)).
  - destruct (lookupSession c l) as [[r' i'] l''] eqn:E. intros [= -> -> <-]. eapply IH; reflexivity.
  - destruct (bool_decide _ && _); [|congruence].
    destruct (TransProxyGetAppInfoByChanId c) as [r' [f k]].
    destruct (negb (r' =? SOFTBUS_OK)); congruence.
Qed.

Lemma GetSession_some lock st c r i st' :
  GetSessionInfoByChanId lock st c = (r, Some i, st') ->
  r = SOFTBUS_OK /\ GetSessionInfoByChanId true st c = (SOFTBUS_OK, Some i, st') /\ ready st' c i.
Proof.
  intros H. assert (lock = true /\ r = SOFTBUS_OK) as [-> ->].
  { unfold GetSessionInfoByChanId in H. destruct (g_sessionList st) as [l|]; [|discriminate].
    destruct lock; [|discriminate]. cbn [negb] in H. destruct (lookupSession c l) as [[r' i'] l'] eqn:E.
    injection H as -> -> _. apply lookupSession_some in E. auto. }
  eauto using GetSession_ready.
Qed.

Lemma GetSession_ready_again lock st c i r j st' :
  ready st c i -> GetSessionInfoByChanId lock st c = (r, Some j, st') -> j = i.
Proof. intros Hr H. apply GetSession_some in H as (_ & H & _). rewrite (ready_Get _ _ _ Hr) in H. congruence. Qed.

(** The message comes out of a packet: it is the plaintext of what follows the
    head, under the key of the channel's session. *)
Definition opens (st : Inner) (c : Z) (pkt plain : list byte) : Prop :=
  exists i st1 sq off, GetSessionInfoByChanId true st c = (SOFTBUS_OK, Some i, st1) /\
    hasListener i = true /\ 0 < off < Z.of_nat (length pkt) /\
    dec (sessionKey i) sq (drop (Z.to_nat off) pkt) = (SOFTBUS_OK, plain).

Lemma removesOnly_same st st' :
  g_innerChannelSliceProcessorList st' = g_innerChannelSliceProcessorList st -> removesOnly st st'.
Proof. intros E c idx p. unfold procAt. now rewrite E. Qed.

Lemma deliver_effect env st c i proc sq flag r st' out :
  listenerOK env -> ready st c i -> deliver env st c proc sq flag = (r, st', out) ->
  removesOnly st st' /\
  (out = [] \/ exists plain ct, out = [(c, plain)] /\ r = SOFTBUS_OK /\ proc.2 = Some ct /\
     hasListener i = true /\ dec (sessionKey i) sq ct = (SOFTBUS_OK, plain)).
Proof.
  intros Hlis Hr. unfold deliver.
  destruct (GetSessionInfoByChanId (sessionLock env 1) st c) as [[r1 [j|]] st1] eqn:Eg;
    pose proof (GetSession_procs _ _ _ _ _ _ Eg) as Ep;
    [|intros [= _ <- <-]; split; [now apply removesOnly_same|auto]].
  pose proof (GetSession_ready_again _ _ _ _ _ _ _ Hr Eg) as ->.
  destruct (hasListener i) eqn:Hl; cbn [negb];
    [|intros [= _ <- <-]; split; [now apply removesOnly_same|auto]].
  destruct proc as [pr [ct|]];
    [|intros [= _ <- <-]; split; [now apply removesOnly_same|auto]].
  unfold TransProxyDecryptPacketData. destruct (dec (sessionKey i) sq ct) as [dr plain] eqn:Ed.
  destruct (Z.eqb_spec dr SOFTBUS_OK) as [->|]; cbn [negb Z.eqb SOFTBUS_OK].
  2: { change (negb (SOFTBUS_DECRYPT_ERR =? 0)) with true. cbv iota.
       intros [= _ <- <-]; split; [now apply removesOnly_same|auto]. }
  destruct (negb _); intros [= <- <- <-]; split.
  - now apply removesOnly_same.
  - auto.
  - intros c' idx p H. apply Hlis in H. unfold procAt in *. now rewrite Ep in H.
  - right. exists plain, ct. auto.
Qed.

Lemma NoSub_effect env st c data r st' out :
  listenerOK env -> Z.of_nat (length data) <= INT32_MAX ->
  ClientTransInnerProxyNoSubPacketProc env st c data = (r, st', out) ->
  removesOnly st st' /\
  (out = [] \/ exists plain, out = [(c, plain)] /\ r = SOFTBUS_OK /\ opens st c data plain).
Proof.
  intros Hlis Hmax. unfold ClientTransInnerProxyNoSubPacketProc.
  destruct (GetSessionInfoByChanId (sessionLock env 0) st c) as [[r1 [i|]] st1] eqn:Eg;
    pose proof (GetSession_procs _ _ _ _ _ _ Eg) as Ep;
    [|intros [= _ <- <-]; split; [now apply removesOnly_same|auto]].
  apply GetSession_some in Eg as (-> & Eg & Hr).
  assert (Htrans : forall x, removesOnly st1 x -> removesOnly st x).
  { intros x H c' idx p Hp. apply H in Hp. unfold procAt in *. now rewrite Ep in Hp. }
  assert (Hfail : removesOnly st st1) by now apply removesOnly_same.
  destruct (supportTlv i).
  - unfold ClientTransProxyInnerNoSubPacketTlvProc.
    destruct (TransProxyParseTlv data (junk env) 0) as [[pr h] hs] eqn:Epr.
    destruct (Z.eqb_spec pr SOFTBUS_OK) as [->|]; cbn [negb]; [|intros [= _ <- <-]; auto].
    unfold TransProxyNoSubPacketTlvProc. destruct (negb _); [intros [= _ <- <-]; auto|].
    destruct (vDataLen _ =? 0); [intros [= _ <- <-]; auto|].
    destruct (Z.leb_spec (Z.of_nat (length data)) hs); [intros [= _ <- <-]; auto|]. cbn [orb].
    destruct (Z.eqb_spec (vDataLen (TransUnPackTlvPackHead h)) (u32 (Z.of_nat (length data) - hs)))
      as [Ev|]; cbn [negb Z.eqb SOFTBUS_OK]; [|intros [= _ <- <-]; auto].
    assert (Hhs : 5 <= hs) by (eapply TransProxyParseTlv_size; eassumption).
    rewrite u32_small in Ev by (unfold in_u32; lia). intros Hd.
    apply (deliver_effect _ _ _ i) in Hd as [Hrm [->|(plain & ct & -> & -> & Hct & Hl & Hdec)]];
      [auto| |assumption|assumption].
    split; [auto|]. right. exists plain. split; [reflexivity|]. split; [reflexivity|].
    apply TransProxyProcessSessionData_ct in Hct. rewrite Ev, take_ge in Hct by (rewrite length_drop; lia).
    exists i, st1, (vSeq (TransUnPackTlvPackHead h)), hs. rewrite <- Hct. repeat split; auto; lia.
  - destruct (TransProxyNoSubPacketProc data) as [r2 [h|]] eqn:En; [|intros [= _ <- <-]; auto].
    apply TransProxyNoSubPacketProc_len in En as [Eh Hlen]; [|assumption]. intros Hd.
    apply (deliver_effect _ _ _ i) in Hd as [Hrm [->|(plain & ct & -> & -> & Hct & Hl & Hdec)]];
      [auto| |assumption|assumption].
    split; [auto|]. right. exists plain. split; [reflexivity|]. split; [reflexivity|].
    apply TransProxyProcessSessionData_ct in Hct.
    rewrite Eh, take_ge in Hct by (rewrite length_drop; unfold sizeof_PacketHead in *; lia).
    exists i, st1, (seq h), sizeof_PacketHead. rewrite <- Hct. unfold sizeof_PacketHead in *.
    repeat split; auto; lia.
Qed.

(** *** The invariant of the processors *)

Definition Inv (evs : list Event) (st : Inner) : Prop :=
  forall c idx p, procAt st c idx = Some p -> procOK p /\ assembled (accepted c idx evs) p.

Lemma empty_good h p : pdata p = None -> procOK p /\ assembled h p.
Proof. intros E. unfold procOK, assembled. now rewrite E. Qed.

Lemma accepted_app c idx evs evs' : accepted c idx (evs ++ evs') = accepted c idx evs ++ accepted c idx evs'.
Proof. apply omap_app. Qed.

Lemma accepted_own c idx head data :
  priority head = Z.of_nat idx -> accepted c idx [(c, head, data)] = [(head, data)].
Proof. intros E. unfold accepted. cbn. now rewrite Z.eqb_refl, E, Z.eqb_refl. Qed.

Lemma accepted_other c idx c' idx' head data :
  priority head = Z.of_nat idx -> (c' <> c \/ idx' <> idx) -> accepted c' idx' [(c, head, data)] = [].
Proof.
  intros E Hn. unfold accepted. cbn. destruct (Z.eqb_spec c c') as [->|]; [|reflexivity]. cbn.
  destruct (Z.eqb_spec (priority head) (Z.of_nat idx')); [|reflexivity].
  exfalso. destruct Hn as [Hn|Hn]; [now apply Hn|apply Hn; lia].
Qed.

(** Only processor [idx] of channel [c] changes; new nodes are empty. *)
Definition touches (c : Z) (idx : nat) (st st' : Inner) : Prop :=
  forall c' idx' p, (c' <> c \/ idx' <> idx) -> procAt st' c' idx' = Some p ->
  procAt st c' idx' = Some p \/ pdata p = None.

Lemma Inv_step evs c head data ok st st' :
  Inv evs st -> 0 <= priority head -> touches c (Z.to_nat (priority head)) st st' ->
  (forall p, procAt st' c (Z.to_nat (priority head)) = Some p -> procOK p /\
     assembled (accepted c (Z.to_nat (priority head)) evs ++ if ok : bool then [(head, data)] else []) p) ->
  Inv (evs ++ if ok then [(c, head, data)] else []) st'.
Proof.
  intros HI Hp Ht Hown c' idx' p H. rewrite accepted_app.
  destruct (decide (c' = c /\ idx' = Z.to_nat (priority head))) as [[-> ->]|Hne].
  - destruct ok; [rewrite accepted_own by lia|]; exact (Hown p H).
  - assert (Hn : c' <> c \/ idx' <> Z.to_nat (priority head))
      by (destruct (decide (c' = c)); [right; intros ->|left]; intuition).
    destruct (Ht c' idx' p Hn H) as [Hold|E]; [|now apply empty_good].
    destruct ok; [rewrite (accepted_other c (Z.to_nat (priority head))) by (lia || assumption)|cbn];
      rewrite app_nil_r; now apply HI.
Qed.

Lemma touches_update c idx st st' p : touches c idx st st' -> touches c idx st (updateProc st' c idx p).
Proof.
  intros H c' idx' q Hn Hq. rewrite procAt_update_ne in Hq by (intuition congruence). eauto.
Qed.

Lemma touches_removes c idx st st1 st2 : touches c idx st st1 -> removesOnly st1 st2 -> touches c idx st st2.
Proof. intros H1 H2 c' idx' p Hn Hp. eauto. Qed.

Lemma GetChannelSlice_effect alloc st l c n l' idx :
  g_innerChannelSliceProcessorList st = Some l ->
  ClientTransProxyGetChannelSlice alloc l c = Some (n, l') ->
  touches c idx st (setSlices st (Some l')) /\
  (procAt st c idx = Some (default freshProc (processor n !! idx)) \/
   pdata (default freshProc (processor n !! idx)) = None).
Proof.
  intros El. unfold ClientTransProxyGetChannelSlice. destruct (findChan c l) as [n0|] eqn:Hf.
  - intros [= <- <-]. split.
    + intros c' idx' p _ H. left. unfold procAt in *. cbn in H. now rewrite El.
    + unfold procAt. rewrite El. cbn. rewrite Hf. cbn.
      destruct (processor n0 !! idx); auto.
  - destruct (negb _); [discriminate|]. intros [= <- <-]. split.
    + intros c' idx' p _ H. unfold procAt in *. cbn [g_innerChannelSliceProcessorList setSlices] in H.
      rewrite El. cbn in *. destruct (Z.eqb_spec c c').
      * right. change (replicate 3 freshProc !! idx' = Some p) in H.
        apply lookup_replicate in H as [-> _]. reflexivity.
      * left. exact H.
    + right. unfold freshChan. cbn [processor].
      destruct (replicate 3 freshProc !! idx) as [q|] eqn:E; [|reflexivity].
      apply lookup_replicate in E as [-> _]. reflexivity.
Qed.

(** *** One slice *)

Lemma firstSlice_effect cfg' alloc p head data tlv p' :
  TransProxyFirstSliceProcess cfg' alloc p head data tlv = (SOFTBUS_OK, p') ->
  1 < sliceNum head -> sliceSeq head = 0 ->
  procOK p' /\ assembled [(head, data)] p'.
Proof.
  unfold TransProxyFirstSliceProcess, firstSlice. destruct (_ || _); [discriminate|].
  set (maxLen := u32 (u32 _ + _)). destruct (SoftBusCalloc alloc maxLen) eqn:Ea; [|discriminate].
  destruct (memcpy_s maxLen _) eqn:Ec; [|discriminate]. cbn [negb]. intros [= <-] HN HS.
  apply SoftBusCalloc_size in Ea. apply memcpy_s_spec in Ec.
  assert (Hm : u32 maxLen = maxLen) by (apply u32_small, u32_range). rewrite Hm in Ea.
  clearbody maxLen. unfold MAX_MALLOC_SIZE in *. unfold procOK, assembled.
  cbn [pdata pDataLen bufLen expectedSeq sliceNumber]. rewrite !s32_small by (unfold in_s32; lia).
  split; [unfold MAX_MALLOC_SIZE; lia|].
  exists [], [(head, data)]. split; [reflexivity|]. split; [|split; [reflexivity|]].
  - intros j x Hx. apply list_lookup_singleton_Some in Hx as [-> <-]. auto.
  - cbn. now rewrite app_nil_r.
Qed.

(** The checks of a following slice, and what is collected with it. *)
Lemma extend_effect h p head data :
  procOK p -> assembled h p -> Z.of_nat (length data) <= INT32_MAX ->
  TransProxySliceProcessChkPkgIsValid p head data = SOFTBUS_OK ->
  memcpy_s (u32 (bufLen p - pDataLen p)) (Z.of_nat (length data)) = true ->
  exists d h1 fs, pdata p = Some d /\
    sliceNumber p = sliceNum head /\ expectedSeq p = sliceSeq head /\ 1 <= sliceSeq head /\
    s32 (pDataLen p + s32 (Z.of_nat (length data))) = Z.of_nat (length (d ++ data)) /\
    Z.of_nat (length (d ++ data)) <= bufLen p <= MAX_MALLOC_SIZE /\
    h ++ [(head, data)] = h1 ++ fs /\ consecutive (sliceNum head) fs /\
    Z.of_nat (length fs) = sliceSeq head + 1 /\ d ++ data = concat (snd <$> fs).
Proof.
  unfold TransProxySliceProcessChkPkgIsValid, procOK, assembled. intros Hok Has Hmax.
  destruct (_ <=? 0); [discriminate|]. destruct (_ || _) eqn:Eh; [discriminate|].
  apply orb_false_elim in Eh as [E1 E2]. apply negb_false_iff, Z.eqb_eq in E1, E2.
  destruct (_ || _); [discriminate|]. destruct (pdata p) as [d|]; [|discriminate]. intros _ Hc.
  destruct Hok as (Hl & Hb & Hs). destruct Has as (h1 & fs & -> & Hcons & Hlen & ->).
  apply memcpy_s_spec in Hc. unfold MAX_MALLOC_SIZE in *.
  rewrite u32_small in Hc by (unfold in_u32; lia).
  exists (concat (snd <$> fs)), h1, (fs ++ [(head, data)]).
  rewrite (s32_small (Z.of_nat _)), length_app by (unfold in_s32; lia).
  rewrite s32_small by (unfold in_s32; lia).
  repeat (split; [congruence || lia|]). split; [now rewrite app_assoc|]. split; [|split].
  - intros j x Hx. apply lookup_app_Some in Hx as [Hx|[Hj Hx]].
    + rewrite E1. eauto.
    + apply list_lookup_singleton_Some in Hx as [Hj' <-]. cbn. split; [reflexivity|lia].
  - rewrite length_app. cbn [length]. lia.
  - rewrite fmap_app, concat_app. cbn. now rewrite app_nil_r.
Qed.

Lemma normal_effect h p head data r p' :
  procOK p -> assembled h p -> Z.of_nat (length data) <= INT32_MAX ->
  sliceSeq head < sliceNum head -> sliceNum head <> s32 (sliceSeq head + 1) -> in_s32 (sliceNum head) ->
  TransProxyNormalSliceProcess p head data = (r, p') -> r = SOFTBUS_OK ->
  procOK p' /\ assembled (h ++ [(head, data)]) p'.
Proof.
  intros Hok Has Hmax Hlt Hne Hr. unfold TransProxyNormalSliceProcess.
  destruct (Z.eqb_spec (TransProxySliceProcessChkPkgIsValid p head data) SOFTBUS_OK) as [Ev|Ev]; cbn [negb];
    [|congruence].
  destruct (memcpy_s _ _) eqn:Ec; cbn [negb]; [|now intros [= <- _]]. intros [= <- <-] _.
  destruct (extend_effect h p head data Hok Has Hmax Ev Ec)
    as (d & h1 & fs & Ed & En & Es & Hs & El & Hb & Eh & Hc & Hf & Econ).
  unfold in_s32 in Hr. rewrite s32_small in Hne by (unfold in_s32; lia).
  unfold procOK, assembled. cbn [pdata pDataLen bufLen expectedSeq sliceNumber]. rewrite Ed, El.
  cbn [fmap option_fmap option_map]. rewrite s32_small by (unfold in_s32; lia).
  rewrite En. split; [repeat split; lia|]. exists h1, fs. rewrite Es. auto.
Qed.

(** A complete packet: slices 0 .. N-1, the last ones accepted. *)
Definition completes (h : list (SliceHead * list byte)) (N : Z) (pkt : list byte) : Prop :=
  exists h1 fs, h = h1 ++ fs /\ consecutive N fs /\ Z.of_nat (length fs) = N /\ pkt = concat (snd <$> fs).

Lemma opens_sessions st st' c pkt plain :
  g_sessionList st = g_sessionList st' -> opens st c pkt plain -> opens st' c pkt plain.
Proof.
  intros E (i & st1 & sq & off & Hg & Hl & Ho & Hd).
  exists i, (setSessions st' (g_sessionList st1)), sq, off. split; [|auto].
  unfold GetSessionInfoByChanId in *. rewrite E in Hg. destruct (g_sessionList st') as [l|]; [|discriminate].
  cbn [negb] in *. destruct (lookupSession c l) as [[r j] l']. now injection Hg as -> -> <-.
Qed.

Lemma last_effect env st idx p head data c h r st' out :
  listenerOK env -> procOK p -> assembled h p -> Z.of_nat (length data) <= INT32_MAX ->
  in_s32 (sliceNum head) -> sliceSeq head < sliceNum head -> sliceNum head = s32 (sliceSeq head + 1) ->
  ClientTransProxyLastSliceProcess env st idx p head data c = (r, st', out) ->
  (forall st0, touches c idx st0 st -> touches c idx st0 st') /\
  (r = SOFTBUS_OK -> forall q, procAt st' c idx = Some q -> pdata q = None) /\
  (out = [] \/ exists plain pkt, out = [(c, plain)] /\ r = SOFTBUS_OK /\
     completes (h ++ [(head, data)]) (sliceNum head) pkt /\ opens st c pkt plain).
Proof.
  intros Hlis Hok Has Hmax Hin Hlt Hnum. unfold ClientTransProxyLastSliceProcess.
  destruct (Z.eqb_spec (TransProxySliceProcessChkPkgIsValid p head data) SOFTBUS_OK) as [Ev|Ev]; cbn [negb].
  2: { intros [= <- <- <-]. split; [auto|]. split; [contradiction|auto]. }
  destruct (memcpy_s _ _) eqn:Ec; cbn [negb]; [|intros [= <- <- <-]; split; [auto|split; [discriminate|auto]]].
  destruct (extend_effect h p head data Hok Has Hmax Ev Ec)
    as (d & h1 & fs & Ed & En & Es & Hs & El & Hb & Eh & Hc & Hf & Econ).
  cbn [pDataLen pdata]. rewrite El, Ed. cbn [fmap option_fmap option_map from_option id].
  unfold MAX_MALLOC_SIZE in Hb. rewrite u32_small, Nat2Z.id, firstn_all by (unfold in_u32; lia).
  set (p' := mkProc _ _ _ _ _ _ _). clearbody p'.
  destruct (ClientTransInnerProxyNoSubPacketProc _ _ _ _) as [[r1 st1] o1] eqn:En1.
  apply NoSub_effect in En1 as [Hrm Hout]; [|assumption|lia].
  assert (Hout' : o1 = [] \/ exists plain pkt, o1 = [(c, plain)] /\ r1 = SOFTBUS_OK /\
     completes (h ++ [(head, data)]) (sliceNum head) pkt /\ opens st c pkt plain).
  { destruct Hout as [->|(plain & -> & -> & Hop)]; [auto|right].
    exists plain, (d ++ data). split; [reflexivity|]. split; [reflexivity|].
    unfold in_s32 in Hin. rewrite s32_small in Hnum by (unfold in_s32; lia).
    split; [exists h1, fs; rewrite Hf; auto|]. eapply opens_sessions; [|exact Hop]. reflexivity. }
  assert (Ht : forall st0, touches c idx st0 st -> touches c idx st0 st1).
  { intros st0 H0. eapply touches_removes; [|exact Hrm]. now apply touches_update. }
  destruct (Z.eqb_spec r1 SOFTBUS_OK) as [->|Hr1]; cbn [negb]; [|intros [= <- <- <-]; easy].
  unfold IsValidCheckoutSliceProcess. destruct (g_innerChannelSliceProcessorList st1) as [l1|] eqn:El1.
  - destruct (findChan c l1) as [n1|] eqn:Hf1; intros [= <- <- <-].
    + split; [auto using touches_update|]. split; [|exact Hout'].
      intros _ q Hq. apply procAt_update_eq in Hq as ->. reflexivity.
    + split; [exact Ht|]. split; [|exact Hout']. intros _ q Hq. unfold procAt in Hq. rewrite El1 in Hq.
      cbn in Hq. now rewrite Hf1 in Hq.
  - intros [= <- <- <-]. split; [exact Ht|]. split; [|exact Hout'].
    intros _ q Hq. unfold procAt in Hq. now rewrite El1 in Hq.
Qed.

Lemma first_effect env st p head data c r st' p' :
  ClientTransInnerProxyFirstSliceProcess env st p head data c = (r, st', p') ->
  1 < sliceNum head -> sliceSeq head = 0 ->
  g_innerChannelSliceProcessorList st' = g_innerChannelSliceProcessorList st /\
  (r = SOFTBUS_OK -> (procOK p' /\ assembled [(head, data)] p') \/ pdata p' = None).
Proof.
  unfold ClientTransInnerProxyFirstSliceProcess. intros H HN HS.
  destruct (GetSessionInfoByChanId (sessionLock env 0) st c) as [[r1 [i|]] st1] eqn:Eg;
    pose proof (GetSession_procs _ _ _ _ _ _ Eg) as Ep.
  - destruct (TransGetActualDataLen cfg head) as [r2 n]. destruct (negb (r2 =? SOFTBUS_OK)).
    + injection H as <- <- <-. split; [exact Ep|]. right. reflexivity.
    + destruct (TransProxyFirstSliceProcess _ _ _ _ _ _) as [r3 p3] eqn:Ef. injection H as <- <- <-.
      split; [exact Ep|]. intros ->. left. eapply firstSlice_effect; eassumption.
  - injection H as <- <- <-. split; [exact Ep|]. right. reflexivity.
Qed.

(** A head that passed [TransProxyCheckSliceHead], of a packet in several slices. *)
Definition sliceOK (head : SliceHead) : Prop :=
  0 <= priority head /\ in_s32 (sliceNum head) /\ sliceNum head <> 1 /\ sliceSeq head < sliceNum head.

Lemma SubPacket_effect env evs st c head data r st' out :
  listenerOK env -> Inv evs st -> Z.of_nat (length data) <= INT32_MAX -> sliceOK head ->
  ClientTransProxySubPacketProc env st c head data = (r, st', out) ->
  Inv (evs ++ if r =? SOFTBUS_OK then [(c, head, data)] else []) st' /\
  (out = [] \/ exists plain pkt, out = [(c, plain)] /\ r = SOFTBUS_OK /\
     completes (accepted c (Z.to_nat (priority head)) (evs ++ [(c, head, data)])) (sliceNum head) pkt /\
     opens st c pkt plain).
Proof.
  intros Hlis HI Hmax (Hp & Hin & Hn1 & Hlt). unfold ClientTransProxySubPacketProc.
  assert (Hsame : forall r, r <> SOFTBUS_OK -> Inv (evs ++ if r =? SOFTBUS_OK then [(c, head, data)] else []) st).
  { intros r0 Hr0. rewrite (proj2 (Z.eqb_neq _ _) Hr0), app_nil_r. exact HI. }
  destruct (g_innerChannelSliceProcessorList st) as [l|] eqn:El; [|intros [= <- <- <-]; split; [now apply Hsame|auto]].
  destruct (sliceLock env); cbn [negb]; [|intros [= <- <- <-]; split; [now apply Hsame|auto]].
  destruct (ClientTransProxyGetChannelSlice (libc env 0) l c) as [[n l']|] eqn:Eg;
    [|intros [= <- <- <-]; split; [now apply Hsame|auto]].
  clear Hsame. destruct (GetChannelSlice_effect _ st l c n l' (Z.to_nat (priority head)) El Eg) as [Ht Hold].
  set (st0 := setSlices st (Some l')) in *. set (idx := Z.to_nat (priority head)) in *.
  set (p := default freshProc (processor n !! idx)) in *.
  assert (Hgood : procOK p /\ assembled (accepted c idx evs) p)
    by (destruct Hold as [Hold|E]; [exact (HI _ _ _ Hold)|now apply empty_good]).
  assert (Hsess : g_sessionList st = g_sessionList st0) by reflexivity.
  clearbody st0 p. destruct Hgood as [Hok Has].
  destruct (if sliceSeq head =? 0 then _ else _) as [[ret st1] o] eqn:Ex.
  assert (Hstep : touches c idx st st1 /\
    (ret = SOFTBUS_OK -> forall q, procAt st1 c idx = Some q ->
       procOK q /\ assembled (accepted c idx evs ++ [(head, data)]) q) /\
    (o = [] \/ exists plain pkt, o = [(c, plain)] /\ ret = SOFTBUS_OK /\
       completes (accepted c idx evs ++ [(head, data)]) (sliceNum head) pkt /\ opens st c pkt plain)).
  { destruct (Z.eqb_spec (sliceSeq head) 0) as [E0|E0]; [|destruct (Z.eqb_spec (sliceNum head) (s32 (sliceSeq head + 1)))].
    - destruct (ClientTransInnerProxyFirstSliceProcess env st0 p head data c) as [[r1 s1] p1] eqn:Ef.
      injection Ex as <- <- <-. apply first_effect in Ef as [Es Hr]; [|lia|assumption].
      split; [|split; [|auto]].
      + apply touches_update. intros c' idx' q Hn Hq. apply (Ht c' idx' q Hn). unfold procAt in *. now rewrite Es in Hq.
      + intros -> q Hq. apply procAt_update_eq in Hq as ->.
        destruct (Hr eq_refl) as [[H1 H2]|H1]; [|now apply empty_good]. split; [exact H1|].
        unfold assembled in *. destruct (pdata p1); [|exact H2]. destruct H2 as (h1 & fs & E & Hrest).
        exists (accepted c idx evs ++ h1), fs. rewrite E, app_assoc. auto.
    - apply (last_effect env st0 idx p head data c (accepted c idx evs)) in Ex as (H1 & H2 & H3); try assumption.
      split; [now apply H1|]. split; [intros Hr q Hq; apply empty_good; now apply (H2 Hr)|].
      destruct H3 as [->|(plain & pkt & -> & -> & Hc & Ho)]; [auto|right].
      exists plain, pkt. repeat (split; [auto; fail|]). eapply opens_sessions; [|exact Ho]. now symmetry.
    - destruct (TransProxyNormalSliceProcess p head data) as [r1 p1] eqn:En. injection Ex as <- <- <-.
      split; [now apply touches_update|]. split; [|auto].
      intros Hr q Hq. apply procAt_update_eq in Hq as ->. eapply normal_effect; eassumption. }
  clear Ex. destruct Hstep as (Ht1 & Hq1 & Ho1).
  destruct (Z.eqb_spec ret SOFTBUS_OK) as [->|Hr]; cbn [negb]; intros [= <- <- <-].
  - split; [|destruct Ho1 as [->|(plain & pkt & -> & _ & Hc & Ho)]; [auto|right]].
    + rewrite Z.eqb_refl. apply (Inv_step evs c head data true st); auto.
    + exists plain, pkt. rewrite accepted_app, accepted_own by lia. auto.
  - rewrite (proj2 (Z.eqb_neq _ _) Hr).
    split; [|destruct Ho1 as [->|(plain & pkt & _ & Hc & _)]; [auto|contradiction]].
    apply (Inv_step evs c head data false st); [assumption|assumption|now apply touches_update|].
    intros q Hq. apply procAt_update_eq in Hq as ->. now apply empty_good.
Qed.

(** The slice a message carries, when it is one of several. *)
Definition eventOf (r c : Z) (data : list byte) : list Event :=
  let head := TransUnPackSliceHead data in
  if (r =? SOFTBUS_OK) && negb (sliceNum head =? 1)
  then [(c, head, drop (Z.to_nat sizeof_SliceHead) data)] else [].

Lemma ProxyDataRecvHandler_effect env evs st c data r st' out :
  listenerOK env -> Inv evs st -> Z.of_nat (length data) <= INT32_MAX ->
  ProxyDataRecvHandler env st c data = (r, st', out) ->
  let head := TransUnPackSliceHead data in
  let rest := drop (Z.to_nat sizeof_SliceHead) data in
  Inv (evs ++ eventOf r c data) st' /\
  (out = [] \/ exists plain pkt, out = [(c, plain)] /\ r = SOFTBUS_OK /\ opens st c pkt plain /\
     ((sliceNum head = 1 /\ pkt = rest) \/
      completes (accepted c (Z.to_nat (priority head)) (evs ++ [(c, head, rest)])) (sliceNum head) pkt)).
Proof.
  intros Hlis HI Hmax H head rest. unfold ProxyDataRecvHandler in H. fold head rest in H.
  assert (Hsame : forall r, r <> SOFTBUS_OK -> Inv (evs ++ eventOf r c data) st).
  { intros r0 Hr0. unfold eventOf. rewrite (proj2 (Z.eqb_neq _ _) Hr0). cbn. now rewrite app_nil_r. }
  assert (Hrest : Z.of_nat (length rest) <= INT32_MAX) by (unfold rest; rewrite length_drop; lia).
  destruct (_ <=? _); [injection H as <- <- <-; split; [now apply Hsame|auto]|].
  destruct (Z.eqb_spec (TransProxyCheckSliceHead (Some head)) SOFTBUS_OK) as [Ec|Ec]; cbn [negb] in H;
    [|injection H as <- <- <-; split; [now apply Hsame|auto]].
  unfold eventOf. fold head rest. destruct (Z.eqb_spec (sliceNum head) 1) as [E1|E1].
  - apply NoSub_effect in H as [Hrm Ho]; [|assumption|assumption].
    split; [|destruct Ho as [->|(plain & -> & -> & Ho)]; [auto|right; exists plain, rest; auto 10]].
    rewrite andb_false_r, app_nil_r. intros c' idx' p Hp. apply Hrm in Hp. now apply HI.
  - cbn [negb]. rewrite andb_true_r. unfold TransProxyCheckSliceHead in Ec.
    destruct (Z.ltb_spec (priority head) 0); [discriminate|]. destruct (_ <=? priority head); [discriminate|].
    cbn [orb] in Ec. rewrite (proj2 (Z.eqb_neq _ _) E1) in Ec. cbn [negb andb] in Ec.
    destruct (Z.leb_spec (sliceNum head) (sliceSeq head)); [discriminate|].
    apply (SubPacket_effect env evs) in H as [HI' Ho]; try assumption.
    2: { repeat split; try assumption; unfold head; cbn; apply s32_range. }
    split; [exact HI'|].
    destruct Ho as [->|(plain & pkt & -> & -> & Hc & Ho)]; [auto|right; exists plain, pkt; auto 10].
Qed.

(** States reached by traffic, and by steps that change no processor but may
    drop some (sessions come and go, channels close), with the slices accepted
    so far. The tables start without a channel. *)
Inductive Reach : list Event -> Inner -> Prop :=
| reach_init ses sq : Reach [] (mkInner ses (Some []) sq)
| reach_recv evs st env c data r st' out :
    Reach evs st -> listenerOK env -> Z.of_nat (length data) <= INT32_MAX ->
    ProxyDataRecvHandler env st c data = (r, st', out) -> Reach (evs ++ eventOf r c data) st'
| reach_other evs st st' : Reach evs st -> removesOnly st st' -> Reach evs st'.

(** Such steps: adding and deleting sessions, and closing a channel. *)
Lemma InnerAddSession_removes lock alloc st i : removesOnly st (InnerAddSession lock alloc st i).2.
Proof.
  unfold InnerAddSession. destruct (g_sessionList st); [|easy]. destruct alloc, lock; easy.
Qed.

Lemma DeleteSession_removes lock st f c : removesOnly st (DeleteSession lock st f c).2.
Proof.
  unfold DeleteSession. destruct (g_sessionList st); [|easy]. destruct lock; [|easy]. cbn [negb].
  now destruct (removeSession f c l).
Qed.

Lemma findChan_in c l n : findChan c l = Some n -> c ∈ (chanId <$> l).
Proof.
  induction l as [|x l IH]; [discriminate|]. cbn.
  destruct (Z.eqb_spec (chanId x) c) as [<-|]; intros H; apply elem_of_cons; auto.
Qed.

Lemma removeChan_removes c l c' n :
  NoDup (chanId <$> l) -> findChan c' (removeChan c l) = Some n -> findChan c' l = Some n.
Proof.
  induction l as [|x l IH]; intros Hnd; [discriminate|]. apply NoDup_cons in Hnd as [Hx Hnd].
  cbn [removeChan findChan]. destruct (Z.eqb_spec (chanId x) c) as [E|E].
  - intros H. destruct (Z.eqb_spec (chanId x) c') as [E'|E']; [|exact H].
    apply findChan_in in H. now rewrite <- E' in H.
  - cbn [findChan]. destruct (chanId x =? c'); auto.
Qed.

Lemma DelSliceProcessor_removes lock st l c :
  g_innerChannelSliceProcessorList st = Some l -> NoDup (chanId <$> l) ->
  removesOnly st (TransProxyDelSliceProcessorByChannelId lock st c).2.
Proof.
  intros El Hnd. unfold TransProxyDelSliceProcessorByChannelId. rewrite El. destruct lock; [|easy].
  intros c' idx p. unfold procAt. cbn. rewrite El. cbn.
  destruct (findChan c' (removeChan c l)) as [n|] eqn:Hf; [|discriminate].
  now rewrite (removeChan_removes _ _ _ _ Hnd Hf).
Qed.

Lemma Reach_Inv evs st : Reach evs st -> Inv evs st.
Proof.
  induction 1 as [ses sq|evs st env c data r st' out _ IH Hl Hm Hh|evs st st' _ IH Hrm].
  - intros c idx p. discriminate.
  - eapply ProxyDataRecvHandler_effect; eassumption.
  - intros c idx p Hp. apply Hrm in Hp. now apply IH.
Qed.

(** Whatever messages arrive, with whatever heads and payloads, on however
    many channels: a processor never holds more bytes than its block, the block
    is at most the allocator's limit, its byte count is the number of bytes
    written, and it waits for a slice number between 1 and the packet's last. *)
Theorem processors_bounded evs st c idx p d :
  Reach evs st -> procAt st c idx = Some p -> pdata p = Some d ->
  Z.of_nat (length d) = pDataLen p /\ pDataLen p <= bufLen p <= MAX_MALLOC_SIZE /\
  1 <= expectedSeq p < sliceNumber p.
Proof.
  intros HR Hp Hd. destruct (Reach_Inv _ _ HR _ _ _ Hp) as [Hok _].
  unfold procOK in Hok. now rewrite Hd in Hok.
Qed.

(** The listener is called only for a whole packet: after arbitrary traffic,
    a message that [ProxyDataRecvHandler] hands over is the plaintext, under the
    session's key, of a packet that came in one slice or is the concatenation of
    the last slices accepted for that channel and priority, numbered 0 to N-1
    without a gap, a repetition or a slice of another packet in between. *)
Theorem delivered_packets_complete evs st env c data r st' out :
  Reach evs st -> listenerOK env -> Z.of_nat (length data) <= INT32_MAX ->
  ProxyDataRecvHandler env st c data = (r, st', out) -> out <> [] ->
  let head := TransUnPackSliceHead data in
  let rest := drop (Z.to_nat sizeof_SliceHead) data in
  r = SOFTBUS_OK /\ exists plain pkt, out = [(c, plain)] /\ opens st c pkt plain /\
    ((sliceNum head = 1 /\ pkt = rest) \/
     completes (accepted c (Z.to_nat (priority head)) (evs ++ [(c, head, rest)])) (sliceNum head) pkt).
Proof.
  intros HR Hl Hm Hh Hne head rest.
  destruct (ProxyDataRecvHandler_effect _ _ _ _ _ _ _ _ Hl (Reach_Inv _ _ HR) Hm Hh)
    as [_ [->|(plain & pkt & -> & -> & Ho & Hc)]]; [contradiction|].
  split; [reflexivity|]. exists plain, pkt. auto.
Qed.

End Inner.

(** ** Concrete runs *)

Module Demo.

(** A stand-in cipher: 28 bytes in front of the plaintext. *)
Definition enc (_ : unit) (_ : Z) (m : list byte) : Z * list byte :=
  (SOFTBUS_OK, replicate 28 Byte.x00 ++ m).
Definition dec (_ : unit) (_ : Z) (ct : list byte) : Z * list byte := (SOFTBUS_OK, drop 28 ct).
Definition app (_ : Z) : Z * (Z * unit) := (SOFTBUS_OK, (7, tt)).

#[export] Instance demo_cipher : SessionCipher dec enc.
Proof.
  intros k sq m Hm. exists (replicate 28 Byte.x00 ++ m). split; [reflexivity|]. split; [reflexivity|].
  rewrite length_app, length_replicate. unfold OVERHEAD_LEN, GCM_IV_LEN, TAG_LEN. lia.
Qed.

Definition cfg : Config := mkConfig 4194304 4096 65535 4096.
Definition session : TransInnerSessionInfo := mkSession true false tt 9 (-1) CHANNEL_TYPE_PROXY true.
Definition keyed (tlv : bool) : @TransInnerSessionInfo unit :=
  mkSession tlv true tt 9 7 CHANNEL_TYPE_PROXY true.
Definition zeroHead : DataHeadTlvPacketHead :=
  mkTlvHead (Bytes.le 4 0) 0 (Bytes.le 4 0) (Bytes.le 4 0) (Bytes.le 4 0) (Bytes.le 4 0) (Bytes.le 1 0).
Definition env : @Env unit := mkEnv (fun _ => true) true (fun _ _ => true) zeroHead (fun _ _ st => st).

Lemma env_ok : envOK env.
Proof. repeat split. Qed.

Lemma env_listener : listenerOK env.
Proof. intros c m st c' idx p H. exact H. Qed.

(** A message of three bytes as a packet cut after ten bytes. *)
Definition pkt : list byte := packet false 1 (replicate 28 Byte.x00 ++ [Byte.x41; Byte.x42; Byte.x43]).
Definition piece (n : Z) (l : list byte) : list byte := TransPackSliceHead (mkSliceHead 1 2 n 0) ++ l.
Definition st0 : @Inner unit := mkInner (Some [keyed false]) (Some []) 1.
Definition recv := ProxyDataRecvHandler dec app cfg env.
Definition st1 : @Inner unit := (recv st0 9 (piece 0 (take 10 pkt))).1.2.

Lemma st1_reached :
  Reach dec app cfg (eventOf SOFTBUS_OK 9 (piece 0 (take 10 pkt))) st1.
Proof.
  apply (reach_recv dec app cfg [] st0 env 9 (piece 0 (take 10 pkt)) SOFTBUS_OK st1 []);
    [apply reach_init|exact env_listener|vm_compute; congruence|vm_compute; reflexivity].
Qed.

End Demo.

Lemma proxy_transfer_witness :
  exists snd' slices rcv'',
    ProxySendData Demo.enc (fun _ _ => true) (fun _ => SOFTBUS_OK) (mkInner None None 5)
      (Some (replicate 5000 Byte.x41)) (Some (Demo.keyed true)) = (SOFTBUS_OK, snd', slices) /\
    recvAll Demo.dec Demo.app Demo.cfg (fun _ => Demo.env) 0
      (mkInner (Some [Demo.keyed true]) (Some []) 1) 9 slices =
    (replicate (length slices) SOFTBUS_OK, rcv'', [(9, replicate 5000 Byte.x41)]).
Proof.
  apply (proxy_transfer Demo.dec Demo.app Demo.cfg Demo.enc (HC := Demo.demo_cipher)
           (fun _ _ => true) (fun _ => SOFTBUS_OK)
           (mkInner None None 5) (Demo.keyed true) (mkInner (Some [Demo.session]) (Some []) 1)).
  - reflexivity.
  - reflexivity.
  - intros _. exact Demo.env_ok.
  - unfold in_s32. cbn. lia.
  - rewrite length_replicate. lia.
  - rewrite length_replicate. unfold DATA_BUF_MAX. lia.
  - rewrite length_replicate. cbn [g_proxyMaxByteBufSize Demo.cfg]. lia.
  - vm_compute. congruence.
  - vm_compute. congruence.
  - reflexivity.
  - reflexivity.
  - exists []. split; [reflexivity|]. intros c n. discriminate.
Defined.

Lemma processors_bounded_witness :
  exists p d, procAt Demo.st1 9 1 = Some p /\ pdata p = Some d /\
    Z.of_nat (length d) = pDataLen p /\ pDataLen p <= bufLen p <= MAX_MALLOC_SIZE /\
    1 <= expectedSeq p < sliceNumber p.
Proof.
  exists (mkProc true 0 2 1 10 8236 (Some (take 10 Demo.pkt))), (take 10 Demo.pkt).
  split; [vm_compute; reflexivity|]. split; [reflexivity|].
  apply (processors_bounded Demo.dec Demo.app Demo.cfg _ Demo.st1 9 1 _ (take 10 Demo.pkt) Demo.st1_reached);
    vm_compute; reflexivity.
Defined.

Lemma delivered_packets_complete_witness :
  let data := Demo.piece 1 (drop 10 Demo.pkt) in
  let evs := eventOf SOFTBUS_OK 9 (Demo.piece 0 (take 10 Demo.pkt)) in
  SOFTBUS_OK = SOFTBUS_OK /\ exists plain pkt, [(9, [Byte.x41; Byte.x42; Byte.x43])] = [(9, plain)] /\
    opens Demo.dec Demo.app Demo.st1 9 pkt plain /\
    ((sliceNum (TransUnPackSliceHead data) = 1 /\ pkt = drop (Z.to_nat sizeof_SliceHead) data) \/
     completes (accepted 9 (Z.to_nat (priority (TransUnPackSliceHead data)))
       (evs ++ [(9, TransUnPackSliceHead data, drop (Z.to_nat sizeof_SliceHead) data)]))
       (sliceNum (TransUnPackSliceHead data)) pkt).
Proof.
  intros data evs.
  apply (delivered_packets_complete Demo.dec Demo.app Demo.cfg evs Demo.st1 Demo.env 9 data SOFTBUS_OK
           (Demo.recv Demo.st1 9 data).1.2).
  - exact Demo.st1_reached.
  - exact Demo.env_listener.
  - vm_compute. congruence.
  - vm_compute. reflexivity.
  - discriminate.
Defined.

End InnerSession.
