(* ===== verification/LnnMap.v ===== *)
(** * The LNN hash map

    Model of core/bus_center/utils/src/lnn_map.c, the chained hash map behind
    the device ledgers: BKDR hash, buckets that are enlarged by a factor of four
    when there are as many nodes as buckets, values of fixed size per key, and an
    iterator. A key is a C string, hence without the character 0. [charSigned]
    tells whether the host's [char] is signed. *)

From S2P Require Import Prelude ErrorCode Bytes.
From stdpp Require Import list strings gmap.
#[local] Open Scope Z_scope.

Module LnnMap.

Definition HDF_MIN_MAP_SIZE : Z := 8.
Definition HDF_ENLARGE_FACTOR : Z := 2.
Definition HDF_MAP_KEY_MAX_SIZE : Z := 1000.
Definition HDF_MAP_VALUE_MAX_SIZE : Z := 4000.
Definition SHIFT_ALIGN_BYTE : Z := 4.
Definition sizeof_MapNode : Z := 32.
Definition sizeof_pointer : Z := 8.
Definition sizeof_MapIterator : Z := 24.

(** [valueSize] is the length of [nvalue]; the chain is the list of its nodes. *)
Record MapNode := mkNode {
  nhash : Z;
  nkey : string;
  nvalue : list byte
}.

Record Map := mkMap {
  nodes : option (list (list MapNode));
  nodeSize : Z;
  bucketSize : Z
}.

Section Host.
Context (charSigned : bool).

(** A [char] promoted to [int]. *)
Definition charZ (c : Ascii.ascii) : Z :=
  let v := Z.of_N (Ascii.N_of_ascii c) in
  if charSigned && (128 <=? v) then v - 256 else v.

Fixpoint hashLoop (hash : Z) (key : string) : Z :=
  match key with
  | EmptyString => hash
  | String c key' => hashLoop (u32 (u32 (hash * 131) + charZ c)) key'
  end.

Definition MapHash (key : string) : Z := Z.land (hashLoop 0 key) 2147483647.

Definition MapHashIdx (map : Map) (hash : Z) : Z :=
  if bucketSize map <? 1 then -1 else s32 (Z.land hash (bucketSize map - 1)).

Definition MapAddNode (map : Map) (node : MapNode) : Map :=
  let idx := MapHashIdx map (nhash node) in
  if idx <? 0 then map
  else
    mkMap ((fun bs => <[Z.to_nat idx := node :: default [] (bs !! Z.to_nat idx)]> bs) <$> nodes map)
      (nodeSize map) (bucketSize map).

(** All nodes are added again, bucket by bucket. *)
Definition MapResize (libc : Z -> bool) (map : Map) (size : Z) : Z * Map :=
  if negb (SoftBusCalloc libc (size * sizeof_pointer)) then (SOFTBUS_MEM_ERR, map)
  else
    let new := mkMap (Some (replicate (Z.to_nat size) [])) (nodeSize map) size in
    match nodes map with
    | None => (SOFTBUS_OK, new)
    | Some tmp => (SOFTBUS_OK, foldl MapAddNode new (concat (take (Z.to_nat (bucketSize map)) tmp)))
    end.

Definition strlen (s : string) : Z := Z.of_nat (String.length s).

Definition MapCreateNode (libc : Z -> bool) (key : string) (hash : Z) (value : list byte)
  : option MapNode :=
  let keySize := strlen key + 1 in
  let keySize := keySize + (SHIFT_ALIGN_BYTE - keySize mod SHIFT_ALIGN_BYTE) in
  let valueSize := Z.of_nat (length value) in
  if negb (SoftBusCalloc libc (sizeof_MapNode + keySize + valueSize)) then None
  else if negb (memcpy_s keySize (strlen key + 1)) then None
  else if negb (memcpy_s valueSize valueSize) then None
  else Some (mkNode hash key value).

Definition hit (hash : Z) (key : string) (node : MapNode) : bool :=
  (nhash node =? hash) && bool_decide (nkey node = key).

(** The search of [LnnMapSet] along a chain: [None] when it falls off the end. *)
Fixpoint updateChain (hash : Z) (key : string) (value : list byte) (chain : list MapNode)
  : option (Z * list MapNode) :=
  match chain with
  | [] => None
  | node :: next =>
    if negb (hit hash key node) then
      (fun '(r, l) => (r, node :: l)) <$> updateChain hash key value next
    else if negb (Z.of_nat (length (nvalue node)) =? Z.of_nat (length value))
    then Some (SOFTBUS_INVALID_PARAM, chain)
    else if negb (memcpy_s (Z.of_nat (length (nvalue node))) (Z.of_nat (length value)))
    then Some (SOFTBUS_MEM_ERR, chain)
    else Some (SOFTBUS_OK, mkNode (nhash node) (nkey node) value :: next)
  end.

(** The part of [LnnMapSet] after the search: enlarge, create, add. The first
    allocation is the bucket array's. *)
Definition addNew (libc : nat -> Z -> bool) (map : Map) (key : string) (hash : Z) (value : list byte)
  : Z * Map :=
  let map :=
    if bucketSize map <=? nodeSize map then
      let size := if bucketSize map <? HDF_MIN_MAP_SIZE then HDF_MIN_MAP_SIZE
                  else u32 (Z.shiftl (bucketSize map) HDF_ENLARGE_FACTOR) in
      (MapResize (libc 0%nat) map size).2
    else map in
  match nodes map with
  | None => (SOFTBUS_INVALID_PARAM, map)
  | Some _ =>
    match MapCreateNode (libc 1%nat) key hash value with
    | None => (SOFTBUS_INVALID_PARAM, map)
    | Some node =>
      let map := MapAddNode map node in
      (SOFTBUS_OK, mkMap (nodes map) (u32 (nodeSize map + 1)) (bucketSize map))
    end
  end.

Definition LnnMapSet (libc : nat -> Z -> bool) (map : option Map) (key : option string)
    (value : option (list byte)) : Z * option Map :=
  match map, key, value with
  | Some map, Some key, Some value =>
    if Z.of_nat (length value) =? 0 then (SOFTBUS_INVALID_PARAM, Some map)
    else if (HDF_MAP_VALUE_MAX_SIZE <? Z.of_nat (length value)) || (HDF_MAP_KEY_MAX_SIZE <? strlen key)
    then (SOFTBUS_INVALID_PARAM, Some map)
    else
      let hash := MapHash key in
      let new := let '(r, m) := addNew libc map key hash value in (r, Some m) in
      match nodes map with
      | Some bs =>
        if 0 <? nodeSize map then
          let idx := MapHashIdx map hash in
          if idx <? 0 then (SOFTBUS_INVALID_PARAM, Some map)
          else
            match updateChain hash key value (default [] (bs !! Z.to_nat idx)) with
            | Some (r, chain) =>
              (r, Some (mkMap (Some (<[Z.to_nat idx := chain]> bs)) (nodeSize map) (bucketSize map)))
            | None => new
            end
        else new
      | None => new
      end
  | _, _, _ => (SOFTBUS_INVALID_PARAM, map)
  end.

Definition LnnMapGet (map : option Map) (key : option string) : option (list byte) :=
  match map, key with
  | Some map, Some key =>
    match nodes map with
    | None => None
    | Some bs =>
      if nodeSize map =? 0 then None
      else
        let hash := MapHash key in
        let idx := MapHashIdx map hash in
        if idx <? 0 then None
        else nvalue <$> List.find (hit hash key) (default [] (bs !! Z.to_nat idx))
    end
  | _, _ => None
  end.

(** Unlinks the first hit. *)
Fixpoint eraseChain (hash : Z) (key : string) (chain : list MapNode) : option (list MapNode) :=
  match chain with
  | [] => None
  | node :: next => if hit hash key node then Some next
                    else (cons node) <$> eraseChain hash key next
  end.

Definition LnnMapErase (map : option Map) (key : option string) : Z * option Map :=
  match map, key with
  | Some map, Some key =>
    match nodes map with
    | None => (SOFTBUS_INVALID_PARAM, Some map)
    | Some bs =>
      if nodeSize map =? 0 then (SOFTBUS_INVALID_PARAM, Some map)
      else
        let hash := MapHash key in
        let idx := MapHashIdx map hash in
        if idx <? 0 then (SOFTBUS_INVALID_PARAM, Some map)
        else
          match eraseChain hash key (default [] (bs !! Z.to_nat idx)) with
          | Some chain =>
            (SOFTBUS_OK, Some (mkMap (Some (<[Z.to_nat idx := chain]> bs)) (u32 (nodeSize map - 1))
                                 (bucketSize map)))
          | None => (SOFTBUS_INVALID_PARAM, Some map)
          end
    end
  | _, _ => (SOFTBUS_INVALID_PARAM, map)
  end.

Definition MapGetSize (map : option Map) : Z :=
  match map with None => 0 | Some m => nodeSize m end.

Definition LnnMapInit : Map := mkMap None 0 0.

Definition LnnMapDelete (map : Map) : Map :=
  match nodes map with
  | None => map
  | Some _ => mkMap None 0 0
  end.

(** ** The iterator

    [itNode] is the chain from the current node on. *)
Record MapIterator := mkIt {
  itNode : option (MapNode * list MapNode);
  nodeNum : Z;
  bucketNum : Z
}.

Definition LnnMapInitIterator (libc : Z -> bool) (map : option Map) : option MapIterator :=
  match map with
  | None => None
  | Some _ => if negb (SoftBusCalloc libc sizeof_MapIterator) then None else Some (mkIt None 0 0)
  end.

Definition LnnMapHasNext (map : Map) (it : MapIterator) : bool := nodeNum it <? nodeSize map.

(** The loop over the buckets from [bucketNum] on; [fuel] is how many are left. *)
Fixpoint nextBucket (fuel : nat) (bs : list (list MapNode)) (it : MapIterator) : MapIterator :=
  match fuel with
  | O => it
  | S fuel' =>
    let node := default [] (bs !! Z.to_nat (bucketNum it)) in
    match node with
    | x :: next => mkIt (Some (x, next)) (u32 (nodeNum it + 1)) (u32 (bucketNum it + 1))
    | [] => nextBucket fuel' bs (mkIt (itNode it) (nodeNum it) (u32 (bucketNum it + 1)))
    end
  end.

Definition LnnMapNext (map : Map) (it : MapIterator) : MapIterator :=
  if LnnMapHasNext map it then
    match itNode it with
    | Some (_, x :: next) => mkIt (Some (x, next)) (u32 (nodeNum it + 1)) (bucketNum it)
    | _ => nextBucket (Z.to_nat (bucketSize map - bucketNum it)) (default [] (nodes map)) it
    end
  else it.

(** The idiom of the callers: [while (LnnMapHasNext(it)) { it = LnnMapNext(it);
    visit(it->node); }]. [None] when the fuel runs out. *)
Fixpoint forEach (fuel : nat) (map : Map) (it : MapIterator) : option (list MapNode) :=
  if negb (LnnMapHasNext map it) then Some []
  else
    match fuel with
    | O => None
    | S fuel' =>
      let it := LnnMapNext map it in
      match itNode it with
      | None => None
      | Some (x, _) => (cons x) <$> forEach fuel' map it
      end
    end.

(** ** Hashing *)

Lemma MapHash_range key : 0 <= MapHash key < 2147483648.
Proof.
  unfold MapHash. change 2147483647 with (2 ^ 31 - 1). rewrite land_pow2_mask by lia.
  change (2 ^ 31) with 2147483648. apply Z.mod_pos_bound. lia.
Qed.

(** A bucket count is a power of two, so the index is the hash modulo it. *)
Definition sizeOK (n : Z) : Prop := exists k, 3 <= k <= 26 /\ n = 2 ^ k.

Lemma sizeOK_bounds n : sizeOK n -> 8 <= n <= 67108864.
Proof.
  intros (k & Hk & ->). split; [apply (Z.pow_le_mono_r 2 3)|apply (Z.pow_le_mono_r 2 k 26)]; lia.
Qed.

Lemma MapHashIdx_ok map h :
  sizeOK (bucketSize map) -> MapHashIdx map h = h mod bucketSize map /\
  0 <= h mod bucketSize map < bucketSize map.
Proof.
  intros Hs. pose proof (sizeOK_bounds _ Hs). destruct Hs as (k & Hk & Ek). unfold MapHashIdx.
  destruct (Z.ltb_spec (bucketSize map) 1); [lia|]. rewrite Ek, land_pow2_mask, <- Ek by lia.
  pose proof (Z.mod_pos_bound h (bucketSize map)). rewrite s32_small by (unfold in_s32; lia). lia.
Qed.

Lemma hit_spec hash key nd : hit hash key nd = true <-> nhash nd = hash /\ nkey nd = key.
Proof. unfold hit. rewrite andb_true_iff, Z.eqb_eq, bool_decide_eq_true. reflexivity. Qed.

(** ** Buckets as a multiset of nodes *)

Definition restOf (i : nat) (bs : list (list MapNode)) : list MapNode :=
  concat (take i bs) ++ concat (drop (S i) bs).

Lemma concat_bucket i bs b : bs !! i = Some b -> concat bs ≡ₚ b ++ restOf i bs.
Proof.
  intros H. unfold restOf. rewrite <- (take_drop_middle bs i b H) at 1.
  rewrite concat_app. cbn [concat]. rewrite !app_assoc. apply Permutation_app_tail, Permutation_app_comm.
Qed.

Lemma concat_insert i bs b b' : bs !! i = Some b -> concat (<[i := b']> bs) ≡ₚ b' ++ restOf i bs.
Proof.
  intros H. pose proof (lookup_lt_Some _ _ _ H) as Hlt.
  rewrite (concat_bucket i (<[i := b']> bs) b') by now apply list_lookup_insert_eq.
  unfold restOf. rewrite take_insert_ge, drop_insert_lt by lia. reflexivity.
Qed.

(** Every node is in the bucket its hash selects, and has its key's hash. *)
Definition placed (n : Z) (bs : list (list MapNode)) : Prop :=
  Z.of_nat (length bs) = n /\
  forall i b nd, bs !! i = Some b -> nd ∈ b -> nhash nd = MapHash (nkey nd) /\ Z.of_nat i = nhash nd mod n.

Definition entry (nd : MapNode) : string * list byte := (nkey nd, nvalue nd).

(** The map stands for the finite map [m]. *)
Record repr (map : Map) (m : gmap string (list byte)) : Prop := {
  repr_count : nodeSize map = Z.of_nat (size m);
  repr_nodes :
    match nodes map with
    | None => bucketSize map = 0 /\ m = ∅
    | Some bs => sizeOK (bucketSize map) /\ placed (bucketSize map) bs /\
                 NoDup (nkey <$> concat bs) /\ m = list_to_map (entry <$> concat bs)
    end
}.

Lemma keys_entries (l : list MapNode) : (entry <$> l).*1 = nkey <$> l.
Proof. rewrite <- list_fmap_compose. reflexivity. Qed.

Lemma size_entries (l : list MapNode) :
  NoDup (nkey <$> l) -> size (list_to_map (M := gmap string (list byte)) (entry <$> l)) = length l.
Proof.
  intros H. rewrite <- length_map_to_list, map_to_list_to_map by now rewrite keys_entries. apply length_fmap.
Qed.

Lemma bucket_exists n bs h : placed n bs -> 0 < n -> exists b, bs !! Z.to_nat (h mod n) = Some b.
Proof.
  intros [Hl _] Hn. apply lookup_lt_is_Some_2. pose proof (Z.mod_pos_bound h n Hn). lia.
Qed.

(** A key is in the whole map only if it is in its own bucket. *)
Lemma key_in_bucket n bs key b nd :
  placed n bs -> bs !! Z.to_nat (MapHash key mod n) = Some b -> nd ∈ concat bs -> nkey nd = key -> nd ∈ b.
Proof.
  intros [Hl Hp] Hb Hin <-. apply list_elem_of_In, in_concat in Hin as (b' & Hb' & Hin).
  apply list_elem_of_In, list_elem_of_lookup in Hb' as (i & Hi). apply list_elem_of_In in Hin.
  destruct (Hp i b' nd Hi Hin) as [Eh Ei]. rewrite <- Eh, <- Ei, Nat2Z.id in Hb. congruence.
Qed.

(** Taking one node out of the multiset. *)
Lemma entries_split (l r : list MapNode) nd :
  NoDup (nkey <$> l) -> l ≡ₚ nd :: r ->
  NoDup (nkey <$> r) /\ (nkey nd ∉ (nkey <$> r)) /\
  list_to_map (M := gmap string (list byte)) (entry <$> l) =
  <[nkey nd := nvalue nd]> (list_to_map (entry <$> r)).
Proof.
  intros Hnd Hp. assert (Hnd' : NoDup (nkey <$> (nd :: r))) by now rewrite <- Hp.
  apply NoDup_cons in Hnd' as [Hx Hr]. split; [exact Hr|]. split; [exact Hx|].
  rewrite (list_to_map_proper (entry <$> l) (entry <$> (nd :: r))); [reflexivity| |].
  - now rewrite keys_entries.
  - now rewrite Hp.
Qed.

Lemma entries_fresh (r : list MapNode) key :
  key ∉ (nkey <$> r) -> list_to_map (M := gmap string (list byte)) (entry <$> r) !! key = None.
Proof. intros H. apply not_elem_of_list_to_map_1. now rewrite keys_entries. Qed.

(** ** Get *)

Lemma LnnMapGet_spec map m key : repr map m -> LnnMapGet (Some map) (Some key) = m !! key.
Proof.
  intros [Hc Hn]. unfold LnnMapGet. destruct (nodes map) as [bs|].
  2: { destruct Hn as [_ ->]. reflexivity. }
  destruct Hn as (Hs & Hp & Hnd & Em).
  destruct (Z.eqb_spec (nodeSize map) 0) as [E0|E0].
  { assert (E : m = ∅) by (apply map_size_empty_iff; lia). now rewrite E. }
  destruct (MapHashIdx_ok map (MapHash key) Hs) as [-> Hi].
  destruct (Z.ltb_spec (MapHash key mod bucketSize map) 0); [lia|].
  destruct (bucket_exists _ _ (MapHash key) Hp) as [b Hb]; [lia|]. rewrite Hb. cbn [from_option id].
  destruct (List.find (hit (MapHash key) key) b) as [nd|] eqn:Hf.
  - apply find_some in Hf as [Hin Hh]. apply hit_spec in Hh as [_ <-].
    cbn. subst m. symmetry. apply elem_of_list_to_map_1; [now rewrite keys_entries|].
    apply list_elem_of_fmap. exists nd. split; [reflexivity|].
    apply list_elem_of_In, in_concat. exists b. split; [|exact Hin].
    apply list_elem_of_In. eapply list_elem_of_lookup_2; exact Hb.
  - cbn. subst m. symmetry. apply entries_fresh. intros Hin.
    apply list_elem_of_fmap in Hin as (nd & -> & Hin).
    assert (Hb2 : nd ∈ b) by (eapply key_in_bucket; eauto).
    pose proof (find_none _ _ Hf nd (proj1 (list_elem_of_In _ _) Hb2)) as Hno.
    assert (Hyes : hit (MapHash (nkey nd)) (nkey nd) nd = true)
      by (apply hit_spec; split; [apply (proj2 Hp _ _ _ Hb Hb2)|reflexivity]).
    congruence.
Qed.

(** ** Chains *)

Lemma updateChain_None hash key value b :
  (forall nd, nd ∈ b -> nkey nd = key -> nhash nd = hash) ->
  updateChain hash key value b = None -> key ∉ (nkey <$> b).
Proof.
  induction b as [|nd b IH]; intros Hh; [intros _ H; now apply elem_of_nil in H|]. cbn [updateChain].
  destruct (hit hash key nd) eqn:Eh; cbn [negb].
  - destruct (negb _); [discriminate|]. destruct (negb _); discriminate.
  - intros H. destruct (updateChain hash key value b) as [[? ?]|] eqn:E; [discriminate|].
    cbn. apply not_elem_of_cons. split.
    + intros ->. assert (hit hash (nkey nd) nd = true); [|congruence].
      apply hit_spec. split; [apply Hh; [now left|reflexivity]|reflexivity].
    + apply IH; [|reflexivity]. intros x Hx. apply Hh. now right.
Qed.

Lemma updateChain_Some hash key value b r b' :
  (0 < length value)%nat -> updateChain hash key value b = Some (r, b') ->
  exists l1 nd l2, b = l1 ++ nd :: l2 /\ nkey nd = key /\ nhash nd = hash /\
    ((length (nvalue nd) <> length value /\ r = SOFTBUS_INVALID_PARAM /\ b' = b) \/
     (length (nvalue nd) = length value /\ r = SOFTBUS_OK /\ b' = l1 ++ mkNode hash key value :: l2)).
Proof.
  intros Hv. revert b'. induction b as [|nd b IH]; intros b'; [discriminate|]. cbn [updateChain].
  destruct (hit hash key nd) eqn:Eh; cbn [negb].
  - apply hit_spec in Eh as [Eh Ek].
    destruct (Z.eqb_spec (Z.of_nat (length (nvalue nd))) (Z.of_nat (length value))) as [El|El]; cbn [negb].
    + assert (Hc : memcpy_s (Z.of_nat (length (nvalue nd))) (Z.of_nat (length value)) = true)
        by (apply memcpy_s_spec; lia). rewrite Hc. cbn [negb]. intros [= <- <-].
      exists [], nd, b. subst. repeat (split; [reflexivity|]). right. split; [lia|]. auto.
    + intros [= <- <-]. exists [], nd, b. subst. repeat (split; [reflexivity|]). left. split; [lia|auto].
  - destruct (updateChain hash key value b) as [[r0 b0]|]; [|discriminate]. intros [= -> <-].
    destruct (IH _ eq_refl) as (l1 & x & l2 & -> & Ek & Eh' & Hor).
    exists (nd :: l1), x, l2. repeat (split; [auto; fail|]).
    destruct Hor as [(?&?&->)|(?&?&->)]; [left|right]; auto.
Qed.

Lemma eraseChain_spec hash key b :
  match eraseChain hash key b with
  | Some b' => exists l1 nd l2, b = l1 ++ nd :: l2 /\ nkey nd = key /\ b' = l1 ++ l2
  | None => forall nd, nd ∈ b -> hit hash key nd = false
  end.
Proof.
  induction b as [|nd b IH]; cbn [eraseChain]; [intros nd H; now apply elem_of_nil in H|].
  destruct (hit hash key nd) eqn:Eh.
  - apply hit_spec in Eh as [_ Ek]. exists [], nd, b. auto.
  - destruct (eraseChain hash key b) as [b'|]; cbn.
    + destruct IH as (l1 & x & l2 & -> & Ek & ->). exists (nd :: l1), x, l2. auto.
    + intros x Hx. apply elem_of_cons in Hx as [->|Hx]; auto.
Qed.

(** ** Adding and moving nodes *)

Lemma placed_insert n bs i b b' :
  placed n bs -> bs !! i = Some b ->
  (forall nd, nd ∈ b' -> nhash nd = MapHash (nkey nd) /\ Z.of_nat i = nhash nd mod n) ->
  placed n (<[i := b']> bs).
Proof.
  intros [Hl Hp] Hb Hb'. split; [now rewrite length_insert|]. intros j c nd Hj Hin.
  apply list_lookup_insert_Some in Hj as [(-> & -> & _)|(_ & Hj)]; eauto.
Qed.

Lemma MapAddNode_ok map bs nd :
  nodes map = Some bs -> sizeOK (bucketSize map) -> placed (bucketSize map) bs ->
  nhash nd = MapHash (nkey nd) ->
  exists bs', MapAddNode map nd = mkMap (Some bs') (nodeSize map) (bucketSize map) /\
    placed (bucketSize map) bs' /\ concat bs' ≡ₚ nd :: concat bs.
Proof.
  intros En Hs Hp Hh. destruct (MapHashIdx_ok map (nhash nd) Hs) as [Ei Hi].
  destruct (bucket_exists _ _ (nhash nd) Hp) as [b Hb]; [pose proof (sizeOK_bounds _ Hs); lia|].
  unfold MapAddNode. rewrite Ei. destruct (Z.ltb_spec (nhash nd mod bucketSize map) 0); [lia|].
  rewrite En. cbn [fmap option_fmap option_map]. rewrite Hb. cbn [from_option id].
  eexists. split; [reflexivity|]. split.
  - eapply placed_insert; [exact Hp|exact Hb|]. intros x Hx. apply elem_of_cons in Hx as [->|Hx].
    + split; [exact Hh|lia].
    + exact (proj2 Hp _ _ _ Hb Hx).
  - rewrite (concat_insert _ _ _ _ Hb), (concat_bucket _ _ _ Hb). reflexivity.
Qed.

Lemma addAll_ok l : forall map bs,
  nodes map = Some bs -> sizeOK (bucketSize map) -> placed (bucketSize map) bs ->
  Forall (fun nd => nhash nd = MapHash (nkey nd)) l ->
  exists bs', foldl MapAddNode map l = mkMap (Some bs') (nodeSize map) (bucketSize map) /\
    placed (bucketSize map) bs' /\ concat bs' ≡ₚ l ++ concat bs.
Proof.
  induction l as [|nd l IH]; intros map bs En Hs Hp Hl.
  - exists bs. destruct map. cbn in *. subst. auto.
  - apply Forall_cons in Hl as [Hh Hl].
    destruct (MapAddNode_ok map bs nd En Hs Hp Hh) as (bs1 & E1 & Hp1 & Hc1). cbn [foldl]. rewrite E1.
    destruct (IH (mkMap (Some bs1) (nodeSize map) (bucketSize map)) bs1) as (bs' & E' & Hp' & Hc'); auto.
    exists bs'. split; [exact E'|]. split; [exact Hp'|]. rewrite Hc', Hc1. symmetry. apply Permutation_middle.
Qed.

Lemma concat_replicate_nil {A} n : concat (replicate n []) = [] :> list A.
Proof. induction n; [reflexivity|assumption]. Qed.

Lemma placed_empty n : 0 <= n -> placed n (replicate (Z.to_nat n) []).
Proof.
  intros Hn. split; [rewrite length_replicate; lia|]. intros i b nd Hi Hin.
  apply lookup_replicate in Hi as [-> _]. now apply elem_of_nil in Hin.
Qed.

(** What the map holds, whatever the buckets. *)
Definition holds (map : Map) (l : list MapNode) : Prop :=
  exists bs, nodes map = Some bs /\ sizeOK (bucketSize map) /\ placed (bucketSize map) bs /\ concat bs ≡ₚ l.

Lemma placed_hashes n bs : placed n bs -> Forall (fun nd => nhash nd = MapHash (nkey nd)) (concat bs).
Proof.
  intros [_ Hp]. apply Forall_forall. intros nd Hin. apply list_elem_of_In, in_concat in Hin as (b & Hb & Hin).
  apply list_elem_of_In, list_elem_of_lookup in Hb as [i Hi]. apply list_elem_of_In in Hin. now apply (Hp i b).
Qed.

Lemma MapResize_ok libc map size :
  sizeOK size ->
  (nodes map = None -> SoftBusCalloc libc (size * sizeof_pointer) = true ->
     holds (MapResize libc map size).2 []) /\
  (forall l, holds map l -> holds (MapResize libc map size).2 l) /\
  nodeSize (MapResize libc map size).2 = nodeSize map /\
  (SoftBusCalloc libc (size * sizeof_pointer) = false -> (MapResize libc map size).2 = map).
Proof.
  intros Hs. pose proof (sizeOK_bounds _ Hs) as Hb. unfold MapResize.
  destruct (SoftBusCalloc libc (size * sizeof_pointer)); cbn [negb];
    [|repeat split; [discriminate|auto]].
  set (new := mkMap (Some (replicate (Z.to_nat size) [])) (nodeSize map) size).
  assert (Hnew : placed size (replicate (Z.to_nat size) [])) by (apply placed_empty; lia).
  assert (Hsz : forall l m0, nodeSize (foldl MapAddNode m0 l) = nodeSize m0).
  { induction l as [|x l IH]; intros m0; [reflexivity|]. cbn. rewrite IH. unfold MapAddNode.
    now destruct (_ <? 0). }
  split; [|split; [|split; [|discriminate]]].
  - intros En _. rewrite En. exists (replicate (Z.to_nat size) []). cbn. rewrite concat_replicate_nil. auto.
  - intros l (bs & En & Hso & Hp & Hc). rewrite En. cbn [snd].
    rewrite take_ge by (destruct Hp; lia).
    destruct (addAll_ok (concat bs) new (replicate (Z.to_nat size) []) eq_refl Hs Hnew (placed_hashes _ _ Hp))
      as (bs' & -> & Hp' & Hc'). exists bs'. rewrite concat_replicate_nil, app_nil_r in Hc'.
    split; [reflexivity|]. split; [exact Hs|]. split; [exact Hp'|]. now rewrite Hc', Hc.
  - destruct (nodes map); cbn [snd]; [now rewrite Hsz|reflexivity].
Qed.

(** ** Set and erase *)

Lemma repr_holds map m l :
  holds map l -> NoDup (nkey <$> l) -> m = list_to_map (entry <$> l) -> nodeSize map = Z.of_nat (size m) ->
  repr map m.
Proof.
  intros (bs & En & Hs & Hp & Hc) Hnd -> Hsz. split; [exact Hsz|]. rewrite En.
  assert (Hnd' : NoDup (nkey <$> concat bs)) by now rewrite Hc.
  repeat (split; [assumption|]). apply list_to_map_proper; [now rewrite keys_entries|now rewrite Hc].
Qed.

Lemma holds_repr map m bs :
  repr map m -> nodes map = Some bs ->
  holds map (concat bs) /\ NoDup (nkey <$> concat bs) /\ m = list_to_map (entry <$> concat bs) /\
  sizeOK (bucketSize map) /\ placed (bucketSize map) bs.
Proof.
  intros [_ H] En. rewrite En in H. destruct H as (Hs & Hp & Hnd & Em).
  split; [exists bs; auto|]. auto.
Qed.

(** Writing back a bucket in which one node was replaced or dropped. *)
Lemma bucket_split map bs i l1 nd l2 :
  nodes map = Some bs -> placed (bucketSize map) bs -> bs !! i = Some (l1 ++ nd :: l2) ->
  concat bs ≡ₚ nd :: (l1 ++ l2) ++ restOf i bs /\
  (forall x, x ∈ l1 ++ l2 -> nhash x = MapHash (nkey x) /\ Z.of_nat i = nhash x mod bucketSize map) /\
  nhash nd = MapHash (nkey nd) /\ Z.of_nat i = nhash nd mod bucketSize map.
Proof.
  intros En Hp Hb. split; [|split].
  - rewrite (concat_bucket _ _ _ Hb), <- app_assoc. cbn. rewrite <- !app_assoc. symmetry. apply Permutation_middle.
  - intros x Hx. apply (proj2 Hp i (l1 ++ nd :: l2)); [exact Hb|]. apply elem_of_app in Hx. apply elem_of_app.
    destruct Hx as [Hx|Hx]; [left; exact Hx|right; now right].
  - apply (proj2 Hp i (l1 ++ nd :: l2)); [exact Hb|]. apply elem_of_app. right. now left.
Qed.

Lemma set_existing map m bs i l1 nd l2 value :
  repr map m -> nodes map = Some bs -> bs !! i = Some (l1 ++ nd :: l2) ->
  m !! nkey nd = Some (nvalue nd) /\
  repr (mkMap (Some (<[i := l1 ++ mkNode (nhash nd) (nkey nd) value :: l2]> bs)) (nodeSize map) (bucketSize map))
       (<[nkey nd := value]> m).
Proof.
  intros Hr En Hb. destruct (holds_repr _ _ _ Hr En) as (Hh & Hnd & Em & Hs & Hp).
  destruct (bucket_split _ _ _ _ _ _ En Hp Hb) as (Hc & Hl & Hx & Hi).
  destruct (entries_split _ _ _ Hnd Hc) as (Hnd' & Hk & E). rewrite E in Em.
  split; [subst m; apply lookup_insert_eq|].
  set (nd' := mkNode (nhash nd) (nkey nd) value).
  apply (repr_holds _ _ (nd' :: (l1 ++ l2) ++ restOf i bs)).
  - exists (<[i := l1 ++ nd' :: l2]> bs). split; [reflexivity|]. split; [exact Hs|]. split.
    + eapply placed_insert; [exact Hp|exact Hb|]. intros x Hin. apply elem_of_app in Hin.
      rewrite elem_of_cons in Hin. destruct Hin as [Hin|[->|Hin]];
        [apply Hl, elem_of_app; auto|exact (conj Hx Hi)|apply Hl, elem_of_app; auto].
    + rewrite (concat_insert _ _ _ _ Hb), <- app_assoc. cbn. rewrite <- app_assoc. symmetry. apply Permutation_middle.
  - cbn. apply NoDup_cons. auto.
  - subst m. rewrite insert_insert_eq. reflexivity.
  - cbn [nodeSize]. rewrite (repr_count _ _ Hr). f_equal. rewrite map_size_insert_Some; [reflexivity|].
    exists (nvalue nd). subst m. apply lookup_insert_eq.
Qed.

Lemma erase_existing map m bs i l1 nd l2 :
  repr map m -> nodes map = Some bs -> bs !! i = Some (l1 ++ nd :: l2) -> nodeSize map <= UINT32_MAX ->
  m !! nkey nd = Some (nvalue nd) /\
  repr (mkMap (Some (<[i := l1 ++ l2]> bs)) (u32 (nodeSize map - 1)) (bucketSize map)) (delete (nkey nd) m).
Proof.
  intros Hr En Hb Hmax. destruct (holds_repr _ _ _ Hr En) as (Hh & Hnd & Em & Hs & Hp).
  destruct (bucket_split _ _ _ _ _ _ En Hp Hb) as (Hc & Hl & Hx & Hi).
  destruct (entries_split _ _ _ Hnd Hc) as (Hnd' & Hk & E). rewrite E in Em.
  assert (Hlk : m !! nkey nd = Some (nvalue nd)) by (subst m; apply lookup_insert_eq).
  split; [exact Hlk|]. apply (repr_holds _ _ ((l1 ++ l2) ++ restOf i bs)).
  - exists (<[i := l1 ++ l2]> bs). split; [reflexivity|]. split; [exact Hs|]. split.
    + eapply placed_insert; [exact Hp|exact Hb|exact Hl].
    + now rewrite (concat_insert _ _ _ _ Hb).
  - exact Hnd'.
  - subst m. apply delete_insert_id. now apply entries_fresh.
  - cbn [nodeSize]. rewrite (repr_count _ _ Hr) in *. rewrite map_size_delete_Some by eauto.
    assert (size m <> 0%nat) by (intros H0; apply map_size_empty_inv in H0; subst m; rewrite H0 in Hlk; discriminate).
    rewrite u32_small by (unfold in_u32; lia). lia.
Qed.

(** Enlarging keeps the contents; it only fails to make room for a first node. *)
Definition enlarged (libc : Z -> bool) (map : Map) : Map :=
  if bucketSize map <=? nodeSize map then
    let size := if bucketSize map <? HDF_MIN_MAP_SIZE then HDF_MIN_MAP_SIZE
                else u32 (Z.shiftl (bucketSize map) HDF_ENLARGE_FACTOR) in
    (MapResize libc map size).2
  else map.

Lemma enlarged_holds libc map l :
  holds map l -> holds (enlarged libc map) l /\ nodeSize (enlarged libc map) = nodeSize map.
Proof.
  intros Hh. unfold enlarged. destruct (_ <=? _); [|auto].
  pose proof Hh as (bs & En & Hs & Hp & Hc). pose proof (sizeOK_bounds _ Hs) as Hb.
  unfold HDF_MIN_MAP_SIZE. destruct (Z.ltb_spec (bucketSize map) 8); [lia|].
  destruct Hs as (k & Hk & Ek).
  assert (E4 : u32 (Z.shiftl (bucketSize map) HDF_ENLARGE_FACTOR) = 2 ^ (k + 2)).
  { rewrite Z.shiftl_mul_pow2 by (unfold HDF_ENLARGE_FACTOR; lia). unfold HDF_ENLARGE_FACTOR.
    rewrite Ek, <- Z.pow_add_r by lia. apply u32_small. split; [lia|].
    apply (Z.le_lt_trans _ (2 ^ 28)); [apply Z.pow_le_mono_r; lia|reflexivity]. }
  rewrite E4. destruct (Z_le_gt_dec (k + 2) 26) as [Hle|Hgt].
  - destruct (MapResize_ok libc map (2 ^ (k + 2))) as (_ & H1 & H2 & _);
      [exists (k + 2); split; [lia|reflexivity]|]. auto.
  - assert (Ef : SoftBusCalloc libc (2 ^ (k + 2) * sizeof_pointer) = false).
    { destruct (SoftBusCalloc libc (2 ^ (k + 2) * sizeof_pointer)) eqn:E; [|reflexivity].
      apply SoftBusCalloc_size in E. unfold MAX_MALLOC_SIZE, sizeof_pointer in E.
      assert (Hk' : k = 25 \/ k = 26) by lia. destruct Hk' as [-> | ->]; vm_compute in E; destruct E as [_ E]; now contradiction E. }
    unfold MapResize. rewrite Ef. auto.
Qed.

Lemma enlarged_first libc map :
  nodes map = None -> bucketSize map = 0 -> nodeSize map = 0 ->
  nodeSize (enlarged libc map) = 0 /\
  if SoftBusCalloc libc 64 then holds (enlarged libc map) [] else enlarged libc map = map.
Proof.
  intros En Eb Ez. unfold enlarged. rewrite Eb, Ez.
  assert (H8 : sizeOK 8) by (exists 3; split; [lia|reflexivity]).
  destruct (MapResize_ok libc map 8 H8) as (H1 & _ & H2 & H3).
  change (HDF_MIN_MAP_SIZE) with 8. cbn [Z.leb Z.ltb Z.compare]. split; [now rewrite H2|].
  change (8 * sizeof_pointer) with 64 in *. destruct (SoftBusCalloc libc 64); auto.
Qed.

Lemma MapCreateNode_ok libc key hash value :
  (0 < length value)%nat ->
  MapCreateNode libc key hash value = None \/ MapCreateNode libc key hash value = Some (mkNode hash key value).
Proof. intros _. unfold MapCreateNode. repeat (destruct (negb _); [auto|]). auto. Qed.

Lemma MapCreateNode_alloc libc key hash value :
  (forall z, libc z = true) -> (0 < length value)%nat -> Z.of_nat (length value) <= 4000 -> strlen key <= 1000 ->
  MapCreateNode libc key hash value = Some (mkNode hash key value).
Proof.
  intros Hl Hv Hmax Hk. unfold MapCreateNode, SHIFT_ALIGN_BYTE, sizeof_MapNode.
  assert (H0 : 0 <= strlen key) by (unfold strlen; lia).
  pose proof (Z.mod_pos_bound (strlen key + 1) 4 ltac:(lia)) as Hm.
  rewrite SoftBusCalloc_true by (auto; unfold MAX_MALLOC_SIZE; lia). cbn [negb].
  assert (H1 : forall a b, 0 < a -> b <= a -> memcpy_s a b = true) by (intros; apply memcpy_s_spec; lia).
  rewrite !H1 by lia. reflexivity.
Qed.

Lemma addNew_spec libc map m key value :
  repr map m -> m !! key = None -> (0 < length value)%nat -> Z.of_nat (size m) < UINT32_MAX ->
  let '(r, map') := addNew libc map key (MapHash key) value in
  ((r = SOFTBUS_OK /\ repr map' (<[key := value]> m)) \/ (r = SOFTBUS_INVALID_PARAM /\ repr map' m)) /\
  ((forall n z, libc n z = true) -> Z.of_nat (length value) <= 4000 -> strlen key <= 1000 -> r = SOFTBUS_OK).
Proof.
  intros Hr Hfresh Hv Hmax. unfold addNew. fold (enlarged (libc 0%nat) map).
  assert (Hstep : (exists l, holds (enlarged (libc 0%nat) map) l /\ NoDup (nkey <$> l) /\
                     m = list_to_map (entry <$> l) /\ nodeSize (enlarged (libc 0%nat) map) = Z.of_nat (size m)) \/
                  (nodes (enlarged (libc 0%nat) map) = None /\ repr (enlarged (libc 0%nat) map) m /\
                   SoftBusCalloc (libc 0%nat) 64 = false)).
  { destruct (nodes map) as [bs|] eqn:En.
    - destruct (holds_repr _ _ _ Hr En) as (Hh & Hnd & Em & _). left.
      destruct (enlarged_holds (libc 0%nat) map _ Hh) as [H1 H2]. exists (concat bs). rewrite H2.
      repeat (split; [assumption|]). apply repr_count, Hr.
    - pose proof Hr as [Hc Hn]. rewrite En in Hn. destruct Hn as [Eb Em].
      destruct (enlarged_first (libc 0%nat) map En Eb) as [H1 H2]; [rewrite Hc, Em; reflexivity|].
      destruct (SoftBusCalloc (libc 0%nat) 64).
      + left. exists []. rewrite H1, Em. repeat split; [exact H2|constructor].
      + right. rewrite H2. auto. }
  destruct Hstep as [(l & (bs & En & Hs & Hp & Hc) & Hnd & Em & Hsz)|(En & Hr' & Ef)].
  2: { rewrite En. split; [auto|]. intros Hl. rewrite SoftBusCalloc_true in Ef; [discriminate|vm_compute; split; congruence|auto]. }
  rewrite En. destruct (MapCreateNode_ok (libc 1%nat) key (MapHash key) value Hv) as [E|E].
  { rewrite E. split; [right; split; [reflexivity|]|].
    - apply (repr_holds _ _ l); [exists bs; auto|assumption..].
    - intros Hl H1 H2. rewrite MapCreateNode_alloc in E; [discriminate|auto|assumption..]. }
  rewrite E. split; [left; split; [reflexivity|]|reflexivity].
  destruct (MapAddNode_ok (enlarged (libc 0%nat) map) bs (mkNode (MapHash key) key value) En Hs Hp eq_refl)
    as (bs' & -> & Hp' & Hc').
  cbn [nodes nodeSize bucketSize].
  assert (Hk : key ∉ (nkey <$> l)).
  { intros Hin. subst m. apply list_elem_of_fmap in Hin as (nd & -> & Hin).
    assert (Hlk : list_to_map (M := gmap string (list byte)) (entry <$> l) !! nkey nd = Some (nvalue nd)).
    { apply elem_of_list_to_map_1; [now rewrite keys_entries|]. apply list_elem_of_fmap. eauto. }
    congruence. }
  apply (repr_holds _ _ (mkNode (MapHash key) key value :: l)).
  - exists bs'. split; [reflexivity|]. split; [exact Hs|]. split; [exact Hp'|]. now rewrite Hc', Hc.
  - cbn. apply NoDup_cons. auto.
  - now rewrite Em.
  - cbn [nodeSize]. rewrite Hsz, map_size_insert_None by exact Hfresh. rewrite u32_small by (unfold in_u32; lia). lia.
Qed.

Definition validArgs (key : string) (value : list byte) : bool :=
  negb (Z.of_nat (length value) =? 0) && (Z.of_nat (length value) <=? HDF_MAP_VALUE_MAX_SIZE)
  && (strlen key <=? HDF_MAP_KEY_MAX_SIZE).

(** What a value may replace: nothing, or one of the same size. *)
Definition replaceable (m : gmap string (list byte)) (key : string) (value : list byte) : bool :=
  match m !! key with None => true | Some old => Z.of_nat (length old) =? Z.of_nat (length value) end.

Lemma LnnMapSet_spec libc map m key value :
  repr map m -> Z.of_nat (size m) < UINT32_MAX ->
  exists r map', LnnMapSet libc (Some map) (Some key) (Some value) = (r, Some map') /\
    ((r = SOFTBUS_OK /\ validArgs key value = true /\ replaceable m key value = true /\
      repr map' (<[key := value]> m)) \/ (r = SOFTBUS_INVALID_PARAM /\ repr map' m)) /\
    ((forall n z, libc n z = true) -> validArgs key value = true -> replaceable m key value = true ->
     r = SOFTBUS_OK).
Proof.
  intros Hr Hmax. unfold LnnMapSet, validArgs.
  assert (Hbad : forall b, b = false ->
    exists r map', (SOFTBUS_INVALID_PARAM, Some map) = (r, Some map') /\
    ((r = SOFTBUS_OK /\ b = true /\ replaceable m key value = true /\ repr map' (<[key := value]> m)) \/
     (r = SOFTBUS_INVALID_PARAM /\ repr map' m)) /\
    ((forall n z, libc n z = true) -> b = true -> replaceable m key value = true -> r = SOFTBUS_OK)).
  { intros b ->. eexists _, _. split; [reflexivity|]. split; [auto|]. discriminate. }
  destruct (Z.eqb_spec (Z.of_nat (length value)) 0) as [E0|E0]; [now apply Hbad|].
  destruct (Z.ltb_spec HDF_MAP_VALUE_MAX_SIZE (Z.of_nat (length value))) as [E1|E1];
    [apply Hbad; rewrite (proj2 (Z.leb_gt _ _) E1); reflexivity|].
  destruct (Z.ltb_spec HDF_MAP_KEY_MAX_SIZE (strlen key)) as [E2|E2];
    [apply Hbad; rewrite (proj2 (Z.leb_gt _ _) E2), andb_false_r; reflexivity|].
  clear Hbad. cbn [orb]. rewrite (proj2 (Z.leb_le _ _) E1), (proj2 (Z.leb_le _ _) E2). cbn [negb andb].
  assert (Hnew : m !! key = None ->
    exists r map', (let '(r, m0) := addNew libc map key (MapHash key) value in (r, Some m0)) = (r, Some map') /\
      ((r = SOFTBUS_OK /\ true = true /\ replaceable m key value = true /\ repr map' (<[key := value]> m)) \/
       (r = SOFTBUS_INVALID_PARAM /\ repr map' m)) /\
      ((forall n z, libc n z = true) -> true = true -> replaceable m key value = true -> r = SOFTBUS_OK)).
  { intros Hf. pose proof (addNew_spec libc map m key value Hr Hf ltac:(lia) Hmax) as Hs.
    destruct (addNew libc map key (MapHash key) value) as [r map'] eqn:Ea. destruct Hs as [H1 H2].
    exists r, map'. split; [reflexivity|]. unfold replaceable. rewrite Hf.
    split; [destruct H1 as [[? ?]|[? ?]]; auto|]. unfold HDF_MAP_VALUE_MAX_SIZE, HDF_MAP_KEY_MAX_SIZE in *. auto. }
  pose proof (repr_count _ _ Hr) as Hc. pose proof (repr_nodes _ _ Hr) as Hn. destruct (nodes map) as [bs|] eqn:En.
  2: { destruct Hn as [_ ->]. apply Hnew. reflexivity. }
  destruct Hn as (Hs & Hp & Hnd & Em).
  destruct (Z.ltb_spec 0 (nodeSize map)) as [Hpos|Hpos].
  2: { apply Hnew. assert (E : m = ∅) by (apply map_size_empty_iff; lia). now rewrite E. }
  destruct (MapHashIdx_ok map (MapHash key) Hs) as [-> Hi].
  destruct (Z.ltb_spec (MapHash key mod bucketSize map) 0); [lia|].
  destruct (bucket_exists _ _ (MapHash key) Hp) as [b Hb]; [lia|]. rewrite Hb. cbn [from_option id].
  destruct (updateChain (MapHash key) key value b) as [[r b']|] eqn:Eu.
  - apply updateChain_Some in Eu as (l1 & nd & l2 & -> & Ek & Eh & Hor); [|lia].
    destruct (set_existing map m bs _ l1 nd l2 value Hr En Hb) as [Hlk Hrep]. rewrite Ek in Hlk, Hrep.
    unfold replaceable. rewrite Hlk. eexists _, _. split; [reflexivity|].
    destruct Hor as [(Hl & -> & ->)|(Hl & -> & ->)].
    + rewrite list_insert_id by exact Hb. rewrite (proj2 (Z.eqb_neq _ _)) by lia.
      split; [right; split; [reflexivity|]|discriminate]. rewrite <- En. now destruct map.
    + rewrite Hl, Z.eqb_refl. split; [left|auto]. repeat (split; [reflexivity|]). now rewrite Eh in Hrep.
  - apply Hnew. subst m. apply entries_fresh. intros Hin. apply list_elem_of_fmap in Hin as (nd & -> & Hin).
    apply updateChain_None in Eu; [|intros x Hx <-; apply (proj2 Hp _ _ _ Hb Hx)].
    apply Eu, list_elem_of_fmap. exists nd. split; [reflexivity|]. eapply key_in_bucket; eauto.
Qed.

Lemma LnnMapErase_spec map m key :
  repr map m -> Z.of_nat (size m) <= UINT32_MAX ->
  exists map', LnnMapErase (Some map) (Some key) =
    (if decide (is_Some (m !! key)) then SOFTBUS_OK else SOFTBUS_INVALID_PARAM, Some map') /\
    repr map' (delete key m).
Proof.
  intros Hr Hmax. unfold LnnMapErase.
  assert (Hbad : m !! key = None -> exists map', (SOFTBUS_INVALID_PARAM, Some map) =
    (if decide (is_Some (m !! key)) then SOFTBUS_OK else SOFTBUS_INVALID_PARAM, Some map') /\
    repr map' (delete key m)).
  { intros Hf. exists map. rewrite Hf. rewrite decide_False by (intros [? ?]; discriminate).
    split; [reflexivity|]. now rewrite delete_id. }
  pose proof (repr_count _ _ Hr) as Hc. pose proof (repr_nodes _ _ Hr) as Hn. destruct (nodes map) as [bs|] eqn:En.
  2: { destruct Hn as [_ ->]. apply Hbad. reflexivity. }
  destruct Hn as (Hs & Hp & Hnd & Em).
  destruct (Z.eqb_spec (nodeSize map) 0) as [E0|E0].
  { apply Hbad. assert (E : m = ∅) by (apply map_size_empty_iff; lia). now rewrite E. }
  destruct (MapHashIdx_ok map (MapHash key) Hs) as [-> Hi].
  destruct (Z.ltb_spec (MapHash key mod bucketSize map) 0); [lia|].
  destruct (bucket_exists _ _ (MapHash key) Hp) as [b Hb]; [lia|]. rewrite Hb. cbn [from_option id].
  pose proof (eraseChain_spec (MapHash key) key b) as He. destruct (eraseChain _ _ b) as [b'|].
  - destruct He as (l1 & nd & l2 & -> & <- & ->).
    destruct (erase_existing map m bs _ l1 nd l2 Hr En Hb) as [Hlk Hrep]; [lia|].
    eexists. rewrite decide_True by eauto. split; [reflexivity|exact Hrep].
  - apply Hbad. subst m. apply entries_fresh. intros Hin. apply list_elem_of_fmap in Hin as (nd & -> & Hin).
    assert (Hb2 : nd ∈ b) by (eapply key_in_bucket; eauto). specialize (He nd Hb2).
    assert (Hyes : hit (MapHash (nkey nd)) (nkey nd) nd = true)
      by (apply hit_spec; split; [apply (proj2 Hp _ _ _ Hb Hb2)|reflexivity]). congruence.
Qed.

(** ** Whole executions *)

Inductive op :=
| OSet (key : string) (value : list byte)
| OGet (key : string)
| OErase (key : string)
| OSize
| OReset.  (* LnnMapDelete *)

Definition out : Type := Z * option (list byte).

Definition implStep (libc : nat -> Z -> bool) (map : Map) (o : op) : out * Map :=
  match o with
  | OSet k v => let '(r, m) := LnnMapSet libc (Some map) (Some k) (Some v) in ((r, None), default map m)
  | OGet k => ((0, LnnMapGet (Some map) (Some k)), map)
  | OErase k => let '(r, m) := LnnMapErase (Some map) (Some k) in ((r, None), default map m)
  | OSize => ((MapGetSize (Some map), None), map)
  | OReset => ((0, None), LnnMapDelete map)
  end.

(** The promise: a finite map whose values keep their size. *)
Definition specStep (m : gmap string (list byte)) (o : op) : out * gmap string (list byte) :=
  match o with
  | OSet k v => if validArgs k v && replaceable m k v then ((SOFTBUS_OK, None), <[k := v]> m)
                else ((SOFTBUS_INVALID_PARAM, None), m)
  | OGet k => ((0, m !! k), m)
  | OErase k => ((if decide (is_Some (m !! k)) then SOFTBUS_OK else SOFTBUS_INVALID_PARAM, None), delete k m)
  | OSize => ((Z.of_nat (size m), None), m)
  | OReset => ((0, None), ∅)
  end.

Fixpoint trace {S : Type} (step : S -> op -> out * S) (s : S) (l : list op) : list out :=
  match l with
  | [] => []
  | o :: l' => let '(r, s') := step s o in r :: trace step s' l'
  end.

Lemma repr_empty : repr LnnMapInit ∅.
Proof. split; [reflexivity|]. split; reflexivity. Qed.

Lemma repr_delete map m : repr map m -> repr (LnnMapDelete map) ∅.
Proof.
  intros [Hc Hn]. unfold LnnMapDelete. destruct (nodes map) eqn:En; [apply repr_empty|].
  destruct Hn as [Hb Em]. split; [rewrite Hc, Em; reflexivity|]. rewrite En. auto.
Qed.

Lemma step_refines libc map m o :
  (forall n z, libc n z = true) -> repr map m -> Z.of_nat (size m) < UINT32_MAX ->
  (implStep libc map o).1 = (specStep m o).1 /\ repr (implStep libc map o).2 (specStep m o).2 /\
  (size (specStep m o).2 <= S (size m))%nat.
Proof.
  intros Hl Hr Hmax. destruct o as [k v|k|k| |]; cbn [implStep specStep].
  - destruct (LnnMapSet_spec libc map m k v Hr Hmax) as (r & map' & -> & Hor & Hok). cbn [from_option id].
    destruct (validArgs k v && replaceable m k v) eqn:Ev.
    + apply andb_true_iff in Ev as [E1 E2]. rewrite (Hok Hl E1 E2) in *.
      destruct Hor as [(_ & _ & _ & Hr')|[? _]]; [|discriminate]. split; [reflexivity|]. split; [exact Hr'|].
      cbn. rewrite map_size_insert. destruct (m !! k); unfold id; lia.
    + destruct Hor as [(_ & E1 & E2 & _)|[-> Hr']]; [now rewrite E1, E2 in Ev|]. cbn. auto.
  - rewrite (LnnMapGet_spec map m k Hr). cbn. auto.
  - destruct (LnnMapErase_spec map m k Hr) as (map' & -> & Hr'); [lia|]. cbn.
    split; [reflexivity|]. split; [exact Hr'|]. rewrite map_size_delete. destruct (m !! k); unfold id; lia.
  - cbn. rewrite (repr_count _ _ Hr). auto.
  - cbn. rewrite map_size_empty. split; [reflexivity|]. split; [eapply repr_delete; exact Hr|lia].
Qed.

(** C17: From [LnnMapInit], every sequence of sets, gets, erases, size queries
    and deletions answers exactly as a finite map from keys to values in which a
    key's value keeps its size: through every hash collision and every
    enlargement of the bucket array, memory permitting. *)
Theorem lnn_map_refines_finite_map libc ops :
  (forall n z, libc n z = true) -> Z.of_nat (length ops) <= UINT32_MAX ->
  trace (implStep libc) LnnMapInit ops = trace specStep ∅ ops.
Proof.
  intros Hl. assert (H : forall ops map m, repr map m -> Z.of_nat (size m + length ops) <= UINT32_MAX ->
    trace (implStep libc) map ops = trace specStep m ops).
  { clear ops. induction ops as [|o ops IH]; intros map m Hr Hmax; [reflexivity|]. cbn [trace length] in *.
    destruct (step_refines libc map m o Hl Hr) as (E & Hr' & Hs); [lia|].
    destruct (implStep libc map o) as [r1 map1], (specStep m o) as [r2 m2]. cbn [fst snd] in *.
    subst r2. f_equal. apply IH; [exact Hr'|lia]. }
  intros Hlen. apply H; [exact repr_empty|]. rewrite map_size_empty. exact Hlen.
Qed.

(** When allocations fail, [LnnMapSet] is all or nothing: the map either
    holds the new value and the call reports success, or reports an invalid
    parameter and still holds exactly what it held, and is well-formed. *)
Theorem LnnMapSet_atomic libc map m key value :
  repr map m -> Z.of_nat (size m) < UINT32_MAX ->
  exists r map', LnnMapSet libc (Some map) (Some key) (Some value) = (r, Some map') /\
    ((r = SOFTBUS_OK /\ repr map' (<[key := value]> m)) \/
     (r = SOFTBUS_INVALID_PARAM /\ repr map' m)).
Proof.
  intros Hr Hmax. destruct (LnnMapSet_spec libc map m key value Hr Hmax) as (r & map' & E & Hor & _).
  exists r, map'. split; [exact E|]. destruct Hor as [(-> & _ & _ & H)|H]; auto.
Qed.

(** ** Iteration *)

(** What the iterator has still to visit. *)
Definition remaining (bs : list (list MapNode)) (it : MapIterator) : list MapNode :=
  match itNode it with None => [] | Some (_, next) => next end ++ concat (drop (Z.to_nat (bucketNum it)) bs).

Lemma nextBucket_ok bs : forall fuel it x rest,
  Z.of_nat (length bs) < UINT32_MAX -> 0 <= bucketNum it -> in_u32 (nodeNum it + 1) ->
  Z.of_nat fuel = Z.of_nat (length bs) - bucketNum it ->
  concat (drop (Z.to_nat (bucketNum it)) bs) = x :: rest ->
  exists next j, nextBucket fuel bs it = mkIt (Some (x, next)) (nodeNum it + 1) j /\
    bucketNum it <= j <= Z.of_nat (length bs) /\ next ++ concat (drop (Z.to_nat j) bs) = rest.
Proof.
  induction fuel as [|fuel IH]; intros it x rest Hlen H0 Hn Hf Hc.
  - rewrite drop_ge in Hc by lia. discriminate.
  - assert (Hlt : (Z.to_nat (bucketNum it) < length bs)%nat) by lia.
    destruct (lookup_lt_is_Some_2 _ _ Hlt) as [b Hb]. cbn [nextBucket]. rewrite Hb. cbn [from_option id].
    rewrite (drop_S _ _ _ Hb) in Hc. cbn [concat] in Hc.
    rewrite (u32_small (bucketNum it + 1)) by (unfold in_u32; lia).
    replace (S (Z.to_nat (bucketNum it))) with (Z.to_nat (bucketNum it + 1)) in Hc by lia.
    destruct b as [|y next].
    + destruct (IH (mkIt (itNode it) (nodeNum it) (bucketNum it + 1)) x rest) as (nx & j & E & Hj & Er);
        cbn [bucketNum nodeNum]; [lia|lia|exact Hn|lia|exact Hc|].
      exists nx, j. split; [exact E|]. cbn [bucketNum] in Hj. split; [lia|exact Er].
    + cbn in Hc. injection Hc as -> <-. exists next, (bucketNum it + 1).
      rewrite u32_small by exact Hn. split; [reflexivity|]. split; [lia|reflexivity].
Qed.

Lemma forEach_ok map bs : nodes map = Some bs -> Z.of_nat (length bs) = bucketSize map ->
  bucketSize map < UINT32_MAX -> nodeSize map <= UINT32_MAX ->
  forall fuel it, 0 <= bucketNum it <= bucketSize map -> 0 <= nodeNum it ->
  nodeNum it + Z.of_nat (length (remaining bs it)) = nodeSize map ->
  (length (remaining bs it) <= fuel)%nat ->
  forEach fuel map it = Some (remaining bs it).
Proof.
  intros En Hlen Hb32 Hn32. induction fuel as [|fuel IH]; intros it Hb Hn Hcnt Hfuel.
  - assert (E : remaining bs it = []) by (apply nil_length_inv; lia). rewrite E in *. cbn [length] in Hcnt.
    cbn [forEach]. unfold LnnMapHasNext. destruct (Z.ltb_spec (nodeNum it) (nodeSize map)); [lia|reflexivity].
  - destruct (remaining bs it) as [|x rest] eqn:Er; cbn [length] in *.
    { cbn [forEach]. unfold LnnMapHasNext. destruct (Z.ltb_spec (nodeNum it) (nodeSize map)); [lia|reflexivity]. }
    assert (Hstep : exists next j, LnnMapNext map it = mkIt (Some (x, next)) (nodeNum it + 1) j /\
              0 <= j <= bucketSize map /\ next ++ concat (drop (Z.to_nat j) bs) = rest).
    { unfold LnnMapNext, LnnMapHasNext. destruct (Z.ltb_spec (nodeNum it) (nodeSize map)); [|lia].
      unfold remaining in Er. rewrite En. cbn [from_option id].
      assert (Hnext : concat (drop (Z.to_nat (bucketNum it)) bs) = x :: rest -> exists next j,
        nextBucket (Z.to_nat (bucketSize map - bucketNum it)) bs it = mkIt (Some (x, next)) (nodeNum it + 1) j /\
        0 <= j <= bucketSize map /\ next ++ concat (drop (Z.to_nat j) bs) = rest).
      { intros Hc. destruct (nextBucket_ok bs (Z.to_nat (bucketSize map - bucketNum it)) it x rest)
          as (nx & j & E & Hj & Hr); [lia|lia|unfold in_u32; lia|lia|exact Hc|].
        exists nx, j. split; [exact E|]. split; [lia|exact Hr]. }
      destruct (itNode it) as [[y [|z next]]|]; cbn in Er; auto.
      injection Er as -> <-. exists next, (bucketNum it). rewrite u32_small by (unfold in_u32; lia).
      split; [reflexivity|]. split; [lia|reflexivity]. }
    destruct Hstep as (next & j & E & Hj & <-). cbn [forEach]. unfold LnnMapHasNext at 1.
    destruct (Z.ltb_spec (nodeNum it) (nodeSize map)); [|lia]. cbn [negb]. rewrite E. cbn [itNode].
    rewrite IH; cbn [bucketNum nodeNum]; [reflexivity|lia|lia|unfold remaining; cbn [itNode bucketNum]; lia|].
    unfold remaining. cbn [itNode bucketNum]. lia.
Qed.

(** Iterating visits every entry exactly once and stops: the loop of the
    callers, from a fresh iterator, takes [MapGetSize] rounds and yields nodes
    with distinct keys whose entries are the whole map. *)
Theorem iteration_visits_all map m it :
  repr map m -> Z.of_nat (size m) <= UINT32_MAX ->
  LnnMapInitIterator (fun _ => true) (Some map) = Some it ->
  exists l, forEach (Z.to_nat (MapGetSize (Some map))) map it = Some l /\
    NoDup (nkey <$> l) /\ list_to_map (entry <$> l) = m /\ length l = size m.
Proof.
  intros Hr Hmax [= <-]. pose proof (repr_count _ _ Hr) as Hc. cbn [MapGetSize].
  destruct (nodes map) as [bs|] eqn:En.
  - destruct (holds_repr _ _ _ Hr En) as (_ & Hnd & Em & Hs & Hp). exists (concat bs).
    assert (Hlen : length (concat bs) = size m) by (rewrite Em, size_entries; auto).
    pose proof (sizeOK_bounds _ Hs). split; [|auto].
    apply (forEach_ok map bs En (proj1 Hp)); [lia|lia|cbn; lia|cbn; lia| |];
      unfold remaining; cbn [itNode bucketNum nodeNum Z.to_nat drop app]; rewrite ?drop_0; lia.
  - pose proof (repr_nodes _ _ Hr) as Hn. rewrite En in Hn. destruct Hn as [_ ->]. exists [].
    split; [|repeat split; constructor]. rewrite Hc, map_size_empty.
    change (Z.to_nat (Z.of_nat 0)) with 0%nat. cbn [forEach]. unfold LnnMapHasNext. now rewrite Hc, map_size_empty.
Qed.

End Host.

(** Ten keys force one enlargement; two of them collide modulo 8. *)
Definition sampleOps : list op :=
  [OSet "aa" [Byte.x01]; OSet "ab" [Byte.x02]; OSet "ac" [Byte.x03]; OSet "ad" [Byte.x04];
   OSet "ae" [Byte.x05]; OSet "af" [Byte.x06]; OSet "ag" [Byte.x07]; OSet "ah" [Byte.x08];
   OSet "ai" [Byte.x09]; OSet "aj" [Byte.x0a]; OErase "ac"; OGet "ac"; OGet "ai"; OSet "ai" [Byte.x00; Byte.x01];
   OSet "aa" [Byte.xff]; OGet "aa"; OSize].

Lemma lnn_map_refines_finite_map_witness :
  trace (implStep true (fun _ _ => true)) LnnMapInit sampleOps = trace specStep ∅ sampleOps.
Proof. apply lnn_map_refines_finite_map; [reflexivity|vm_compute; congruence]. Defined.

Definition sampleMap : Map :=
  default LnnMapInit (LnnMapSet true (fun _ _ => true) (Some LnnMapInit) (Some "k"%string) (Some [Byte.x01])).2.

Definition sampleContents : gmap string (list byte) := {[ "k"%string := [Byte.x01] ]}.

Lemma sampleMap_repr : repr true sampleMap sampleContents.
Proof.
  destruct (LnnMapSet_spec true (fun _ _ => true) LnnMapInit ∅ "k" [Byte.x01] (repr_empty true))
    as (r & map' & E & [(_ & _ & _ & H)|[Hr _]] & Hok); [reflexivity| |].
  - unfold sampleMap. rewrite E. exact H.
  - rewrite Hok in Hr; [discriminate|reflexivity..].
Qed.

Lemma LnnMapSet_atomic_witness :
  exists r map', LnnMapSet true (fun _ _ => false) (Some sampleMap) (Some "l"%string) (Some [Byte.x02])
                 = (r, Some map') /\
    ((r = SOFTBUS_OK /\ repr true map' (<["l"%string := [Byte.x02]]> sampleContents)) \/
     (r = SOFTBUS_INVALID_PARAM /\ repr true map' sampleContents)).
Proof.
  apply (LnnMapSet_atomic true (fun _ _ => false) sampleMap sampleContents "l" [Byte.x02]).
  - exact sampleMap_repr.
  - reflexivity.
Defined.

Lemma iteration_visits_all_witness :
  exists l, forEach (Z.to_nat (MapGetSize (Some sampleMap))) sampleMap (mkIt None 0 0) = Some l /\
    NoDup (nkey <$> l) /\ list_to_map (entry <$> l) = sampleContents /\ length l = size sampleContents.
Proof.
  apply (iteration_visits_all true sampleMap sampleContents (mkIt None 0 0)).
  - exact sampleMap_repr.
  - vm_compute. congruence.
  - reflexivity.
Defined.

End LnnMap.
