(* ===== verification/TdcPacket.v ===== *)
(** * TCP direct channel: packets in a byte stream

    Model of core/transmission/common/src/trans_tcp_process_data.c: the packet
    of a message on a TCP direct channel (fixed or TLV head, ciphertext), and the
    receive buffer of a channel, which grows to the size of the packet it waits
    for. The host is little-endian, so the in-place conversions of a received
    head change nothing. Encryption with a key and a sequence number and
    decryption with a key are parameters. *)

From S2P Require Import Prelude ErrorCode Bytes ProxySlice.

Module TdcPacket.
Import ProxySlice.

Definition DC_DATA_HEAD_SIZE : Z := 16.
Definition SLICE_HEAD_LEN : Z := 16.
Definition DATA_EXTEND_LEN : Z := DC_DATA_HEAD_SIZE + OVERHEAD_LEN.
Definition MIN_BUF_LEN : Z := 1024 + DATA_EXTEND_LEN.
Definition FLAG_BYTES : Z := 0.
Definition FLAG_ACK : Z := 1.
Definition SOFTBUS_ENCRYPT_ERR : Z := SOFTBUS_PUBLIC_ERR_BASE + 12.
Definition SOFTBUS_TRANS_SEND_LEN_BEYOND_LIMIT : Z := SOFTBUS_TRANS_ERR_BASE + 53.
Definition SOFTBUS_TRANS_TCP_GET_SRV_DATA_FAILED : Z := SOFTBUS_TRANS_ERR_BASE + 91.

Definition TransGetDataBufSize : Z := MIN_BUF_LEN.

(** The new [g_dataBufferMaxLen], from the configured length. *)
Definition TransGetTdcDataBufMaxSize (config : Z * Z) (old : Z) : Z * Z :=
  let '(ret, maxLen) := config in
  if negb (ret =? SOFTBUS_OK) then (ret, old)
  else (SOFTBUS_OK, u32 (maxLen + DATA_EXTEND_LEN + SLICE_HEAD_LEN)).

(** [data] holds the bytes between [data] and [w]. *)
Record DataBuf := mkBuf {
  bChannelId : Z;
  bFd : Z;
  bSize : Z;
  bData : list byte
}.

Record TcpDataPacketHead := mkTcpHead {
  tcpMagic : Z;
  tcpSeq : Z;
  tcpFlags : Z;
  tcpDataLen : Z
}.

(** The head at the front of the buffer. *)
Definition UnPackTcpDataPacketHead (d : list byte) : TcpDataPacketHead :=
  mkTcpHead (unle (take 4 d)) (field d 4) (unle (take 4 (drop 8 d))) (unle (take 4 (drop 12 d))).

Definition TransResizeDataBuffer (libc : Z -> bool) (b : DataBuf) (pkgLen : Z) : Z * DataBuf :=
  if negb (SoftBusCalloc libc pkgLen) then (SOFTBUS_MALLOC_ERR, b)
  else if negb (memcpy_s pkgLen (Z.of_nat (length (bData b)))) then (SOFTBUS_MEM_ERR, b)
  else (SOFTBUS_OK, mkBuf (bChannelId b) (bFd b) pkgLen (bData b)).

(** A negative count is a huge [size_t]. *)
Definition MoveNode (b : DataBuf) (dataLen pkgHeadSize : Z) : Z * DataBuf :=
  let count := Z.of_nat (length (bData b)) - (pkgHeadSize + dataLen) in
  if (count <? 0) || negb (memcpy_s (bSize b) count) then (SOFTBUS_MEM_ERR, b)
  else (SOFTBUS_OK, mkBuf (bChannelId b) (bFd b) (bSize b) (drop (Z.to_nat (pkgHeadSize + dataLen)) (bData b))).

Definition GetErrCodeBySocketErr (sockErr transErrCode : Z) : Z :=
  if sockErr =? SOFTBUS_OK then transErrCode else sockErr.

(** [recv len] is the answer of the socket: a count and the bytes. *)
Definition TransTdcRecvFirstData (maxLen : Z) (recv : Z -> Z * list byte) (sockErr len : Z)
  : Z * list byte :=
  if (len =? 0) || (maxLen <? len) then (SOFTBUS_TRANS_INVALID_DATA_LENGTH, [])
  else
    let '(recvLen, d) := recv len in
    if recvLen <? 0 then (GetErrCodeBySocketErr sockErr SOFTBUS_TRANS_TCP_GET_SRV_DATA_FAILED, [])
    else if recvLen =? 0 then (SOFTBUS_DATA_NOT_ENOUGH, [])
    else (SOFTBUS_OK, d).

(** Code, flag, buffer. *)
Definition TransTdcUnPackAllData (maxLen : Z) (libc : Z -> bool) (b : DataBuf) : Z * bool * DataBuf :=
  let bufLen := Z.of_nat (length (bData b)) in
  if bufLen =? 0 then (SOFTBUS_OK, true, b)
  else if bufLen <? DC_DATA_HEAD_SIZE then (SOFTBUS_DATA_NOT_ENOUGH, false, b)
  else
    let h := UnPackTcpDataPacketHead (bData b) in
    if negb (tcpMagic h =? MAGIC_NUMBER) then (SOFTBUS_INVALID_DATA_HEAD, false, b)
    else if (maxLen <=? DC_DATA_HEAD_SIZE) || (maxLen - DC_DATA_HEAD_SIZE <? tcpDataLen h)
            || (tcpDataLen h <=? OVERHEAD_LEN)
    then (SOFTBUS_TRANS_INVALID_DATA_LENGTH, false, b)
    else
      let pkgLen := u32 (tcpDataLen h + DC_DATA_HEAD_SIZE) in
      if (bSize b <? pkgLen) && (pkgLen <=? maxLen) then
        let '(ret, b') := TransResizeDataBuffer libc b pkgLen in (ret, true, b')
      else if bufLen <? pkgLen then (SOFTBUS_DATA_NOT_ENOUGH, false, b)
      else (SOFTBUS_OK, false, b).

(** The loop over the elements has the text of the proxy channel's. *)
Definition TransTdcParseTlv := TransProxyParseTlv.

Definition TransTcpDataTlvUnpack := TransUnPackTlvPackHead.

(** Code, flag, head, head size, buffer; [junk] is what the struct held. *)
Definition TransTdcUnPackAllTlvData (maxLen : Z) (libc : Z -> bool) (junk : DataHeadTlvPacketHead)
    (b : DataBuf) : Z * bool * TlvHeadValues * Z * DataBuf :=
  let bufLen := Z.of_nat (length (bData b)) in
  if bufLen =? 0 then (SOFTBUS_OK, true, TransTcpDataTlvUnpack junk, 0, b)
  else
    let '(ret, h, headSize) := TransTdcParseTlv (bData b) junk 0 in
    let v := TransTcpDataTlvUnpack h in
    if negb (ret =? SOFTBUS_OK) then (ret, false, v, headSize, b)
    else if bufLen <? headSize then (SOFTBUS_DATA_NOT_ENOUGH, false, v, headSize, b)
    else if negb (vMagic v =? MAGIC_NUMBER) then (SOFTBUS_INVALID_DATA_HEAD, false, v, headSize, b)
    else if (maxLen <=? headSize) || (maxLen - headSize <? vDataLen v) || (vDataLen v <=? OVERHEAD_LEN)
    then (SOFTBUS_TRANS_INVALID_DATA_LENGTH, false, v, headSize, b)
    else
      let pkgLen := u32 (vDataLen v + headSize) in
      if (bSize b <? pkgLen) && (pkgLen <=? maxLen) then
        let '(ret, b') := TransResizeDataBuffer libc b pkgLen in (ret, true, v, headSize, b')
      else if bufLen <? pkgLen then (SOFTBUS_DATA_NOT_ENOUGH, false, v, headSize, b)
      else (SOFTBUS_OK, false, v, headSize, b).

Section Crypto.
Context {Key : Type}.
Context (enc : Key -> Z -> list byte -> Z * list byte) (dec : Key -> list byte -> Z * list byte).

Definition TransTdcDecrypt (sessionKey : Key) (inData : list byte) : Z * list byte :=
  let '(ret, plain) := dec sessionKey inData in
  if negb (ret =? SOFTBUS_OK) then (SOFTBUS_DECRYPT_ERR, []) else (SOFTBUS_OK, plain).

Definition TransTdcUnPackData (sessionKey : Key) (b : DataBuf) : Z * list byte * DataBuf :=
  let dataLen := tcpDataLen (UnPackTcpDataPacketHead (bData b)) in
  let '(ret, plain) := TransTdcDecrypt sessionKey
    (take (Z.to_nat dataLen) (drop (Z.to_nat DC_DATA_HEAD_SIZE) (bData b))) in
  if negb (ret =? SOFTBUS_OK) then (SOFTBUS_DECRYPT_ERR, [], b)
  else
    let '(ret, b') := MoveNode b dataLen DC_DATA_HEAD_SIZE in
    if negb (ret =? SOFTBUS_OK) then (ret, [], b') else (SOFTBUS_OK, plain, b').

(** ** Sending *)

Definition TransTdcPackTlvData := TransProxyPackTlvData.
Definition BuildNeedAckTlvData := ProxyBuildNeedAckTlvData.
Definition BuildDataHead := ProxyBuildTlvDataHead.

Definition TransTdcEncryptWithSeq (sessionKey : Key) (seqNum : Z) (inData : list byte) : Z * list byte :=
  let '(ret, out) := enc sessionKey seqNum inData in
  if negb (ret =? SOFTBUS_OK)
     || negb (Z.of_nat (length out) =? u32 (Z.of_nat (length inData) + OVERHEAD_LEN))
  then (SOFTBUS_ENCRYPT_ERR, []) else (SOFTBUS_OK, out).

(** The head; the rest of the block is zero. *)
Definition TransPackData (libc : Z -> bool) (dataLen finalSeq flags : Z) : option (list byte) :=
  if negb (SoftBusCalloc libc (u32 (dataLen + DC_DATA_HEAD_SIZE))) then None
  else Some (le 4 MAGIC_NUMBER ++ le 4 finalSeq ++ le 4 flags ++ le 4 dataLen).

Record TransTdcPackDataInfo := mkPackInfo {
  piNeedAck : bool;
  piSupportTlv : bool;
  piSeq : Z
}.

(** [info->len] is the length of [data]; an acknowledgement has the four bytes
    of its sequence number as data. Returns the block and [lenInfo->outLen]. *)
Definition TransTdcPackAllData (libc : nat -> Z -> bool) (info : TransTdcPackDataInfo)
    (sessionKey : Key) (data : list byte) (flags : Z) : option (list byte * Z) :=
  let len := Z.of_nat (length data) in
  let dataLen := u32 (len + OVERHEAD_LEN) in
  let finalSeq := if flags =? FLAG_ACK then field data 0 else piSeq info in
  let finalData := if flags =? FLAG_ACK then be 4 finalSeq else data in
  let seal (head : list byte) :=
    let '(ret, out) := TransTdcEncryptWithSeq sessionKey finalSeq finalData in
    if negb (ret =? SOFTBUS_OK) then None else Some (head ++ out, Z.of_nat (length out)) in
  if piSupportTlv info then
    match BuildDataHead libc finalSeq flags dataLen with
    | (_, None) => None
    | (_, Some (h, s)) =>
      match BuildNeedAckTlvData libc h (piNeedAck info) 0 s with
      | (_, None) => None
      | (_, Some (h2, tlvBufferSize)) =>
        match TransTdcPackTlvData (libc 6%nat) h2 tlvBufferSize dataLen with
        | (None, _) => None
        | (Some buf, _) =>
          seal (take (Z.to_nat (u32 (MAGICNUM_SIZE + TLVCOUNT_SIZE + tlvBufferSize))) buf)
        end
      end
    end
  else
    match TransPackData (libc 0%nat) dataLen finalSeq flags with
    | None => None
    | Some buf => seal buf
    end.

(** [send buf] is how many bytes the socket took. *)
Definition TransTdcSendData (outLen len : Z) (send : list byte -> Z) (sockErr : Z) (buf : list byte) : Z :=
  if negb (outLen =? u32 (len + OVERHEAD_LEN)) then SOFTBUS_ENCRYPT_ERR
  else if negb (send buf =? Z.of_nat (length buf))
  then GetErrCodeBySocketErr sockErr SOFTBUS_TRANS_SEND_LEN_BEYOND_LIMIT
  else SOFTBUS_OK.

End Crypto.
End TdcPacket.
