(* ===== verification/InnerTdc.v ===== *)
(** * Inner sessions over a TCP direct channel

    Model of the TCP half of core/transmission/trans_channel/common/src/
    trans_inner.c: the receive buffers of the channels, the handler of a readable
    socket ([TdcDataReceived], which drains all complete packets of the buffer)
    and sending ([TdcSendData]). Sessions are those of [InnerSession]. *)

From S2P Require Import Prelude ErrorCode Bytes ProxySlice InnerSession TdcPacket.
From stdpp Require Import list.
#[local] Open Scope Z_scope.

Module InnerTdc.
Import ProxySlice InnerSession TdcPacket.

Definition MAX_DATA_BUF : Z := 4096.
Definition sizeof_DataBuf : Z := 48.
Definition SOFTBUS_TRANS_TDC_CHANNEL_NOT_FOUND : Z := SOFTBUS_TRANS_ERR_BASE + 57.
Definition SOFTBUS_TRANS_NODE_NOT_FOUND : Z := SOFTBUS_TRANS_ERR_BASE + 173.

Section Tdc.
Context {Key : Type}.
Context (dec : Key -> list byte -> Z * list byte).
Context (appInfo : Z -> Z * (Z * Key)).

(** The session table, the buffers ([None] when not initialised) and the static
    [seq] of [TdcSendData]. *)
Record Tdc := mkTdc {
  inner : @Inner Key;
  g_innerChannelDataBufList : option (list DataBuf);
  tdcSeq : Z
}.

Definition setBufs (st : Tdc) l := mkTdc (inner st) l (tdcSeq st).

(** The world during one event: the locks of the buffer list and the allocator
    at their n-th use, the lock of the session list, the socket, what the
    uninitialised head holds, the listener (its code and what it does). *)
Record TdcEnv := mkTdcEnv {
  bufLock : nat -> bool;
  sesLock : bool;
  tlibc : nat -> Z -> bool;
  recv : Z -> Z * list byte;
  sockErr : Z;
  tjunk : DataHeadTlvPacketHead;
  onData : Z -> list byte -> Tdc -> Z * Tdc
}.

(** ** Buffers *)

Definition TransInnerAddDataBufNode (libc1 libc2 : Z -> bool) (lock : bool) (st : Tdc) (c f : Z)
    (ty : ChannelType) : Z * Tdc :=
  if negb (bool_decide (ty = CHANNEL_TYPE_TCP_DIRECT)) then (SOFTBUS_OK, st)
  else if negb (SoftBusCalloc libc1 sizeof_DataBuf) then (SOFTBUS_MALLOC_ERR, st)
  else if negb (SoftBusCalloc libc2 MAX_DATA_BUF) then (SOFTBUS_MALLOC_ERR, st)
  else if negb lock then (SOFTBUS_LOCK_ERR, st)
  else (SOFTBUS_OK,
        setBufs st ((fun l => l ++ [mkBuf c f MAX_DATA_BUF []]) <$> g_innerChannelDataBufList st)).

(** Removes the first buffer of the channel. *)
Fixpoint removeBuf (c : Z) (l : list DataBuf) : list DataBuf :=
  match l with
  | [] => []
  | b :: l' => if bChannelId b =? c then l' else b :: removeBuf c l'
  end.

Definition TransSrvDelInnerDataBufNode (lock : bool) (st : Tdc) (c : Z) : Tdc :=
  match g_innerChannelDataBufList st with
  | None => st
  | Some l => if negb lock then st else setBufs st (Some (removeBuf c l))
  end.

Fixpoint findBuf (c : Z) (l : list DataBuf) : option DataBuf :=
  match l with
  | [] => None
  | b :: l' => if bChannelId b =? c then Some b else findBuf c l'
  end.

(** Writing the channel's buffer. *)
Fixpoint putBuf (c : Z) (n : DataBuf) (l : list DataBuf) : list DataBuf :=
  match l with
  | [] => []
  | b :: l' => if bChannelId b =? c then n :: l' else b :: putBuf c n l'
  end.

Definition updateBuf (st : Tdc) (c : Z) (b : DataBuf) : Tdc :=
  setBufs st (putBuf c b <$> g_innerChannelDataBufList st).

(** The free space of the channel's buffer. *)
Definition TransInnerGetTdcDataBufById (lock : bool) (st : Tdc) (c f : Z) : Z * Z :=
  match g_innerChannelDataBufList st with
  | None => (SOFTBUS_NO_INIT, 0)
  | Some l =>
    if negb lock then (SOFTBUS_LOCK_ERR, 0)
    else match list_find (fun b => bChannelId b = c /\ bFd b = f) l with
         | None => (SOFTBUS_TRANS_TDC_CHANNEL_NOT_FOUND, 0)
         | Some (_, b) => (SOFTBUS_OK, bSize b - Z.of_nat (length (bData b)))
         end
  end.

Definition TransInnerUpdateTdcDataBufWInfo (lock : bool) (st : Tdc) (c : Z) (recvBuf : list byte)
  : Z * Tdc :=
  match g_innerChannelDataBufList st with
  | None => (SOFTBUS_NO_INIT, st)
  | Some l =>
    if negb lock then (SOFTBUS_LOCK_ERR, st)
    else match findBuf c l with
         | None => (SOFTBUS_TRANS_TDC_CHANNEL_NOT_FOUND, st)
         | Some b =>
           let recvLen := Z.of_nat (length recvBuf) in
           let freeLen := s32 (bSize b - Z.of_nat (length (bData b))) in
           if freeLen <? recvLen then (SOFTBUS_TRANS_INVALID_DATA_LENGTH, st)
           else if negb (memcpy_s recvLen recvLen) then (SOFTBUS_MEM_ERR, st)
           else (SOFTBUS_OK,
                 updateBuf st c (mkBuf (bChannelId b) (bFd b) (bSize b) (bData b ++ recvBuf)))
         end
  end.

Definition TransGetInnerDataBufNodeById (st : Tdc) (c : Z) : option DataBuf :=
  l ← g_innerChannelDataBufList st; findBuf c l.

(** ** Draining a buffer *)

Section Event.
Context (maxLen : Z) (env : TdcEnv).

(** After the lock is released the listener runs, and its code is the result. *)
Definition toListener (st : Tdc) (c : Z) (plain : list byte) : Z * Tdc * list (Z * list byte) :=
  let '(ret, st) := onData env c plain st in (ret, st, [(c, plain)]).

Definition TransTdcProcessInnerTlvData (n : nat) (st : Tdc) (info : @TransInnerSessionInfo Key)
    (pktHead : TlvHeadValues) (pkgHeadSize : Z) : Z * Tdc * list (Z * list byte) :=
  if negb (hasListener info) then (SOFTBUS_NO_INIT, st, [])
  else if negb (bufLock env (3 + 2 * n)) then (SOFTBUS_LOCK_ERR, st, [])
  else
    match TransGetInnerDataBufNodeById st (channelId info) with
    | None => (SOFTBUS_TRANS_NODE_NOT_FOUND, st, [])
    | Some node =>
      let dataLen := vDataLen pktHead in
      if negb (SoftBusCalloc (tlibc env (2 + 2 * n)) (u32 (dataLen - OVERHEAD_LEN)))
      then (SOFTBUS_MALLOC_ERR, st, [])
      else
        let '(ret, plain) := TransTdcDecrypt dec (sessionKey info)
          (take (Z.to_nat dataLen) (drop (Z.to_nat pkgHeadSize) (bData node))) in
        if negb (ret =? SOFTBUS_OK) then (SOFTBUS_DECRYPT_ERR, st, [])
        else
          let '(ret, node) := MoveNode node dataLen pkgHeadSize in
          let st := updateBuf st (channelId info) node in
          if negb (ret =? SOFTBUS_OK) then (ret, st, [])
          else toListener st (channelId info) plain
    end.

Definition TransTdcProcessInnerData (n : nat) (st : Tdc) (info : @TransInnerSessionInfo Key)
  : Z * Tdc * list (Z * list byte) :=
  if negb (hasListener info) then (SOFTBUS_NO_INIT, st, [])
  else if negb (bufLock env (3 + 2 * n)) then (SOFTBUS_LOCK_ERR, st, [])
  else
    match TransGetInnerDataBufNodeById st (channelId info) with
    | None => (SOFTBUS_TRANS_NODE_NOT_FOUND, st, [])
    | Some node =>
      let dataLen := tcpDataLen (UnPackTcpDataPacketHead (bData node)) in
      if negb (SoftBusCalloc (tlibc env (2 + 2 * n)) (u32 (dataLen - OVERHEAD_LEN)))
      then (SOFTBUS_MALLOC_ERR, st, [])
      else
        let '(ret, plain, node) := TransTdcUnPackData dec (sessionKey info) node in
        let st := updateBuf st (channelId info) node in
        if negb (ret =? SOFTBUS_OK) then (ret, st, [])
        else toListener st (channelId info) plain
    end.

(** One round of the loop, and whether another one follows. The two formats differ in the
    functions they call. *)
Definition drainRound (tlv : bool) (n : nat) (st : Tdc) (info : @TransInnerSessionInfo Key)
  : Z * Tdc * list (Z * list byte) * bool :=
  if negb (bufLock env (2 + 2 * n)) then (SOFTBUS_LOCK_ERR, st, [], false)
  else
    match TransGetInnerDataBufNodeById st (channelId info) with
    | None => (SOFTBUS_TRANS_NODE_NOT_FOUND, st, [], false)
    | Some node =>
      if tlv then
        let '(ret, flag, head, headSize, node) :=
          TransTdcUnPackAllTlvData maxLen (tlibc env (1 + 2 * n)) (tjunk env) node in
        let st := updateBuf st (channelId info) node in
        if negb (ret =? SOFTBUS_OK) || flag then (ret, st, [], false)
        else
          let '(ret, st, out) := TransTdcProcessInnerTlvData n st info head headSize in
          (ret, st, out, ret =? SOFTBUS_OK)
      else
        let '(ret, flag, node) := TransTdcUnPackAllData maxLen (tlibc env (1 + 2 * n)) node in
        let st := updateBuf st (channelId info) node in
        if negb (ret =? SOFTBUS_OK) || flag then (ret, st, [], false)
        else
          let '(ret, st, out) := TransTdcProcessInnerData n st info in
          (ret, st, out, ret =? SOFTBUS_OK)
    end.

(** [None] when the fuel runs out. *)
Fixpoint drain (tlv : bool) (fuel n : nat) (st : Tdc) (info : @TransInnerSessionInfo Key)
  : option (Z * Tdc * list (Z * list byte)) :=
  match fuel with
  | O => None
  | S fuel' =>
    let '(ret, st, out, more) := drainRound tlv n st info in
    if more then
      match drain tlv fuel' (S n) st info with
      | None => None
      | Some (ret, st, out') => Some (ret, st, out ++ out')
      end
    else Some (ret, st, out)
  end.

Definition TransInnerTdcProcAllTlvData := drain true.
Definition TransInnerTdcProcAllData := drain false.

(** One round consumes at least a byte of the buffer, so its length and one more
    rounds are enough. *)
Definition TdcDataReceived (st : Tdc) (f : Z) : option (Z * Tdc * list (Z * list byte)) :=
  match GetSessionInfoByFd (sesLock env) (inner st) f with
  | (ret, None) => Some (ret, st, [])
  | (_, Some info) =>
    let '(ret, len) := TransInnerGetTdcDataBufById (bufLock env 0) st (channelId info) f in
    if negb (ret =? SOFTBUS_OK) then Some (ret, st, [])
    else if negb (SoftBusCalloc (tlibc env 0) len) then Some (SOFTBUS_MEM_ERR, st, [])
    else
      let '(ret, recvBuf) := TransTdcRecvFirstData maxLen (recv env) (sockErr env) len in
      if negb (ret =? SOFTBUS_OK) then Some (ret, st, [])
      else
        let '(ret, st) := TransInnerUpdateTdcDataBufWInfo (bufLock env 1) st (channelId info) recvBuf in
        if negb (ret =? SOFTBUS_OK) then Some (ret, st, [])
        else
          let fuel := S (length (default [] (bData <$> TransGetInnerDataBufNodeById st (channelId info)))) in
          if supportTlv info then TransInnerTdcProcAllTlvData fuel 0 st info
          else TransInnerTdcProcAllData fuel 0 st info
  end.

End Event.

(** ** Sending *)

(** Code, state, and what was handed to the socket. *)
Definition TdcSendData (enc : Key -> Z -> list byte -> Z * list byte) (lock : bool)
    (libc : nat -> Z -> bool) (send : list byte -> Z) (sockErr : Z) (st : Tdc) (c : Z)
    (data : option (list byte)) : Z * Tdc * list byte :=
  match data with
  | None => (SOFTBUS_INVALID_PARAM, st, [])
  | Some data =>
    let len := Z.of_nat (length data) in
    if (len =? 0) || (DATA_BUF_MAX <? len) then (SOFTBUS_INVALID_PARAM, st, [])
    else
      match GetSessionInfoByChanId appInfo lock (inner st) c with
      | (ret, None, inn) => (ret, mkTdc inn (g_innerChannelDataBufList st) (tdcSeq st), [])
      | (_, Some info, inn) =>
        let dataInfo := mkPackInfo false (supportTlv info) (s32 (tdcSeq st)) in
        let st := mkTdc inn (g_innerChannelDataBufList st) (u32 (tdcSeq st + 1)) in
        match TransTdcPackAllData enc libc dataInfo (sessionKey info) data FLAG_BYTES with
        | None => (SOFTBUS_ENCRYPT_ERR, st, [])
        | Some (buf, outLen) => (TransTdcSendData outLen len send sockErr buf, st, buf)
        end
      end
  end.

(** ** One packet at the front of the buffer *)

Definition headLen (tlv : bool) : nat := if tlv then 32%nat else 16%nat.

Definition headOf (tlv : bool) (sq L : Z) : list byte :=
  if tlv then tlvHead sq TRANS_SESSION_BYTES L false 0
  else TransPackPacketHead (mkPacketHead MAGIC_NUMBER sq TRANS_SESSION_BYTES L).

Lemma packet_headOf tlv sq cipher : packet tlv sq cipher = headOf tlv sq (Z.of_nat (length cipher)) ++ cipher.
Proof. now destruct tlv. Qed.

Lemma length_headOf tlv sq L : length (headOf tlv sq L) = headLen tlv.
Proof. destruct tlv; [apply length_tlvHead|apply length_TransPackPacketHead]. Qed.

Lemma prefix_head {A} (l r h t : list A) : l ++ r = h ++ t -> (length h <= length l)%nat -> exists x, l = h ++ x.
Proof.
  intros E Hl. exists (drop (length h) l).
  assert (E1 : take (length h) (l ++ r) = h) by (rewrite E; apply take_app_length).
  rewrite take_app_le in E1 by assumption. rewrite <- E1 at 1. now rewrite take_drop.
Qed.

Lemma prefix_take {A} (l r h t : list A) : l ++ r = h ++ t -> (length l <= length h)%nat -> l = take (length l) h.
Proof.
  intros E Hl. rewrite <- (take_app_le h t) by assumption. rewrite <- E. symmetry. apply take_app_length.
Qed.

(** What either unpacking function does with the first bytes of a packet. *)
Inductive verdict := Incomplete | Grow | Complete.

Definition judge (tlv : bool) (b : DataBuf) (total : nat) : verdict :=
  if (length (bData b) <? headLen tlv)%nat then Incomplete
  else if bSize b <? Z.of_nat total then Grow
  else if (length (bData b) <? total)%nat then Incomplete else Complete.

(** Sizes that the receiver accepts. *)
Definition fits (maxLen : Z) (tlv : bool) (cipher : list byte) : Prop :=
  28 < Z.of_nat (length cipher) /\ Z.of_nat (headLen tlv + length cipher) <= maxLen.

Definition grown (b : DataBuf) (total : nat) : DataBuf :=
  mkBuf (bChannelId b) (bFd b) (Z.of_nat total) (bData b).

Lemma Resize_ok libc b total :
  (forall z, libc z = true) -> Z.of_nat (length (bData b)) <= bSize b < Z.of_nat total ->
  Z.of_nat total <= MAX_MALLOC_SIZE ->
  TransResizeDataBuffer libc b (Z.of_nat total) = (SOFTBUS_OK, grown b total).
Proof.
  intros Hl Hs Hm. unfold TransResizeDataBuffer. rewrite SoftBusCalloc_true by (auto; lia). cbn [negb].
  assert (Hc : memcpy_s (Z.of_nat total) (Z.of_nat (length (bData b))) = true) by (apply memcpy_s_spec; lia).
  now rewrite Hc.
Qed.

Lemma UnPackTcp_head sq L x :
  in_u32 L -> in_s32 sq ->
  let h := UnPackTcpDataPacketHead (headOf false sq L ++ x) in tcpMagic h = MAGIC_NUMBER /\ tcpDataLen h = L.
Proof.
  intros HL Hsq. unfold UnPackTcpDataPacketHead. cbn [tcpMagic tcpDataLen headOf]. split.
  - change (take 4 (TransPackPacketHead _ ++ x)) with (Bytes.le 4 MAGIC_NUMBER). now rewrite unle_le_u32.
  - change (take 4 (drop 12 (TransPackPacketHead _ ++ x))) with (Bytes.le 4 L). rewrite unle_le_u32. now apply u32_small.
Qed.

Lemma UnPackAll_judge maxLen libc b fut sq cipher more :
  (forall z, libc z = true) -> fits maxLen false cipher -> maxLen <= MAX_MALLOC_SIZE -> in_s32 sq ->
  bData b ++ fut = packet false sq cipher ++ more -> (0 < length (bData b))%nat ->
  Z.of_nat (length (bData b)) <= bSize b ->
  let total := (16 + length cipher)%nat in
  TransTdcUnPackAllData maxLen libc b =
  match judge false b total with
  | Incomplete => (SOFTBUS_DATA_NOT_ENOUGH, false, b)
  | Grow => (SOFTBUS_OK, true, grown b total)
  | Complete => (SOFTBUS_OK, false, b)
  end.
Proof.
  intros Hl [Hc Hmax] Hmm Hsq E Hpos Hsize total. unfold TransTdcUnPackAllData, judge. cbn [headLen] in *.
  unfold MAX_MALLOC_SIZE in *. assert (Ht : Z.of_nat total = Z.of_nat (length cipher) + 16) by (unfold total; lia).
  clearbody total. destruct (Z.eqb_spec (Z.of_nat (length (bData b))) 0); [lia|]. unfold DC_DATA_HEAD_SIZE.
  destruct (Nat.ltb_spec (length (bData b)) 16) as [Hlt|Hge].
  { destruct (Z.ltb_spec (Z.of_nat (length (bData b))) 16); [reflexivity|lia]. }
  destruct (Z.ltb_spec (Z.of_nat (length (bData b))) 16); [lia|].
  rewrite packet_headOf, <- app_assoc in E. set (L := Z.of_nat (length cipher)) in *.
  destruct (prefix_head _ _ _ _ E) as [x Ex]; [rewrite length_headOf; exact Hge|].
  destruct (UnPackTcp_head sq L x) as [Em Ed]; [unfold in_u32; lia|exact Hsq|]. rewrite <- Ex in Em, Ed.
  rewrite Em, Ed, Z.eqb_refl. cbn [negb]. change OVERHEAD_LEN with 28.
  destruct (Z.leb_spec maxLen 16); [lia|]. destruct (Z.ltb_spec (maxLen - 16) L); [lia|].
  destruct (Z.leb_spec L 28); [lia|]. cbn [orb]. rewrite u32_small by (unfold in_u32; lia).
  replace (L + 16) with (Z.of_nat total) by lia.
  destruct (Z.leb_spec (Z.of_nat total) maxLen); [|lia]. rewrite andb_true_r.
  destruct (Z.ltb_spec (bSize b) (Z.of_nat total)).
  - rewrite Resize_ok by (auto; unfold MAX_MALLOC_SIZE; lia). reflexivity.
  - destruct (Nat.ltb_spec (length (bData b)) total), (Z.ltb_spec (Z.of_nat (length (bData b))) (Z.of_nat total));
      lia || reflexivity.
Qed.

Lemma UnPackAllTlv_judge maxLen libc junk b fut sq cipher more :
  (forall z, libc z = true) -> tlvHeadOK junk -> fits maxLen true cipher -> maxLen <= MAX_MALLOC_SIZE ->
  bData b ++ fut = packet true sq cipher ++ more -> (0 < length (bData b))%nat ->
  Z.of_nat (length (bData b)) <= bSize b <= MAX_MALLOC_SIZE ->
  let total := (32 + length cipher)%nat in
  exists v hs,
  TransTdcUnPackAllTlvData maxLen libc junk b =
  match judge true b total with
  | Incomplete => (SOFTBUS_DATA_NOT_ENOUGH, false, v, hs, b)
  | Grow => (SOFTBUS_OK, true, v, hs, grown b total)
  | Complete => (SOFTBUS_OK, false, v, hs, b)
  end /\
  ((32 <= length (bData b))%nat -> hs = 32 /\ vDataLen v = Z.of_nat (length cipher)).
Proof.
  intros Hl Hj [Hc Hmax] Hmm E Hpos Hsize total. unfold TransTdcUnPackAllTlvData, judge. cbn [headLen] in *.
  unfold MAX_MALLOC_SIZE in *. assert (Ht : Z.of_nat total = Z.of_nat (length cipher) + 32) by (unfold total; lia).
  clearbody total. destruct (Z.eqb_spec (Z.of_nat (length (bData b))) 0); [lia|].
  rewrite packet_headOf, <- app_assoc in E. set (L := Z.of_nat (length cipher)) in *.
  destruct (Nat.ltb_spec (length (bData b)) 32) as [Hlt|Hge].
  - pose proof (prefix_take _ _ _ _ E ltac:(rewrite length_headOf; cbn; lia)) as Ep. unfold TransTdcParseTlv.
    destruct (TransProxyParseTlv_short sq TRANS_SESSION_BYTES L false 0 junk (length (bData b)) Hj) as (h' & hs & Eh);
      [lia|]. cbn [headOf] in Ep. rewrite <- Ep in Eh. rewrite Eh. eexists _, _. split; [reflexivity|]. lia.
  - destruct (prefix_head _ _ _ _ E) as [x Ex]; [rewrite length_headOf; exact Hge|]. cbn [headOf] in Ex.
    unfold TransTdcParseTlv.
    replace (TransProxyParseTlv (bData b) junk 0) with
      (TransProxyParseTlv (tlvHead sq TRANS_SESSION_BYTES L false 0 ++ x) junk 0) by now rewrite <- Ex.
    assert (Hlen : length (bData b) = (32 + length x)%nat) by (rewrite Ex, length_app; reflexivity).
    rewrite TransProxyParseTlv_head by (auto; unfold MAX_MALLOC_SIZE; lia).
    cbn [negb Z.eqb SOFTBUS_OK]. destruct (Z.ltb_spec (Z.of_nat (length (bData b))) 32); [lia|].
    unfold TransTcpDataTlvUnpack, TransUnPackTlvPackHead. cbn [tMagic tSeq tDataSeq tFlags tDataLen vMagic vDataLen].
    rewrite !unle_le_u32. rewrite (u32_small MAGIC_NUMBER) by (unfold in_u32, MAGIC_NUMBER; lia).
    rewrite (u32_small L) by (unfold in_u32; lia). rewrite Z.eqb_refl. cbn [negb]. change OVERHEAD_LEN with 28.
    destruct (Z.leb_spec maxLen 32); [lia|]. destruct (Z.ltb_spec (maxLen - 32) L); [lia|].
    destruct (Z.leb_spec L 28); [lia|]. cbn [orb]. rewrite (u32_small (L + 32)) by (unfold in_u32; lia).
    replace (L + 32) with (Z.of_nat total) by lia.
    destruct (Z.leb_spec (Z.of_nat total) maxLen); [|lia]. rewrite andb_true_r.
    exists (mkTlvValues MAGIC_NUMBER (s32 (u32 sq)) (u32 0) (u32 TRANS_SESSION_BYTES) L), 32.
    split; [|intros _; split; reflexivity].
    destruct (Z.ltb_spec (bSize b) (Z.of_nat total)).
    + rewrite Resize_ok by (auto; unfold MAX_MALLOC_SIZE; lia). reflexivity.
    + destruct (Nat.ltb_spec (length (bData b)) total), (Z.ltb_spec (Z.of_nat (length (bData b))) (Z.of_nat total));
        lia || reflexivity.
Qed.

(** ** Draining *)

Definition bufIs (st : Tdc) (c : Z) (b : DataBuf) : Prop := TransGetInnerDataBufNodeById st c = Some b.

Lemma findBuf_chan c l b : findBuf c l = Some b -> bChannelId b = c.
Proof.
  induction l as [|x l IH]; [discriminate|]. cbn. destruct (Z.eqb_spec (bChannelId x) c); [now intros [= <-]|exact IH].
Qed.

Lemma findBuf_put c l b n : findBuf c l = Some b -> bChannelId n = c -> findBuf c (putBuf c n l) = Some n.
Proof.
  intros H Hn. induction l as [|x l IH]; [discriminate|]. cbn in *.
  destruct (Z.eqb_spec (bChannelId x) c) as [E|E]; cbn.
  - now rewrite (proj2 (Z.eqb_eq _ _) Hn).
  - rewrite (proj2 (Z.eqb_neq _ _) E). auto.
Qed.

Lemma bufIs_update st c b n : bufIs st c b -> bChannelId n = c -> bufIs (updateBuf st c n) c n.
Proof.
  unfold bufIs, TransGetInnerDataBufNodeById, updateBuf, setBufs. cbn [g_innerChannelDataBufList].
  destruct (g_innerChannelDataBufList st) as [l|]; [|discriminate]. cbn. intros H Hn. eapply findBuf_put; eassumption.
Qed.

Lemma bufIs_chan st ch b : bufIs st ch b -> bChannelId b = ch.
Proof.
  unfold bufIs, TransGetInnerDataBufNodeById. destruct (g_innerChannelDataBufList st); [|discriminate]. apply findBuf_chan.
Qed.

(** Everything works: locks, allocator; the listener takes the data and leaves
    the tables alone. *)
Definition tdcEnvOK (env : TdcEnv) : Prop :=
  (forall n, bufLock env n = true) /\ sesLock env = true /\ (forall n z, tlibc env n z = true) /\
  tlvHeadOK (tjunk env) /\
  (forall c m st, exists st', onData env c m st = (SOFTBUS_OK, st') /\
     g_innerChannelDataBufList st' = g_innerChannelDataBufList st /\
     g_sessionList (inner st') = g_sessionList (inner st)).

(** A buffer that starts with a complete packet. *)
Definition front (tl : bool) (sq : Z) (cipher rest : list byte) (b : DataBuf) : Prop :=
  bData b = packet tl sq cipher ++ rest /\ Z.of_nat (length (bData b)) <= bSize b.

Lemma length_front tl sq cipher rest b : front tl sq cipher rest b ->
  length (bData b) = (headLen tl + length cipher + length rest)%nat.
Proof. intros [E _]. rewrite E, packet_headOf, !length_app, length_headOf. reflexivity. Qed.

Lemma judge_complete tl sq cipher rest b : front tl sq cipher rest b ->
  judge tl b (headLen tl + length cipher) = Complete.
Proof.
  intros H. pose proof (length_front _ _ _ _ _ H) as Hl. destruct H as [_ Hs]. unfold judge.
  destruct (Nat.ltb_spec (length (bData b)) (headLen tl)); [lia|].
  destruct (Z.ltb_spec (bSize b) (Z.of_nat (headLen tl + length cipher))); [lia|].
  destruct (Nat.ltb_spec (length (bData b)) (headLen tl + length cipher)); [lia|reflexivity].
Qed.

Lemma move_packet tl sq cipher rest b : front tl sq cipher rest b -> 0 < bSize b <= MAX_MALLOC_SIZE ->
  MoveNode b (Z.of_nat (length cipher)) (Z.of_nat (headLen tl)) =
  (SOFTBUS_OK, mkBuf (bChannelId b) (bFd b) (bSize b) rest).
Proof.
  intros H Hs. pose proof (length_front _ _ _ _ _ H) as Hl. destruct H as [E Hs']. unfold MoveNode, MAX_MALLOC_SIZE in *.
  replace (Z.of_nat (length (bData b)) - (Z.of_nat (headLen tl) + Z.of_nat (length cipher)))
    with (Z.of_nat (length rest)) by lia.
  destruct (Z.ltb_spec (Z.of_nat (length rest)) 0); [lia|]. cbn [orb].
  assert (Hm : memcpy_s (bSize b) (Z.of_nat (length rest)) = true) by (apply memcpy_s_spec; lia).
  rewrite Hm, E. cbn [negb].
  replace (Z.to_nat (Z.of_nat (headLen tl) + Z.of_nat (length cipher))) with (length (packet tl sq cipher))
    by (rewrite packet_headOf, length_app, length_headOf; lia).
  now rewrite drop_app_length.
Qed.

Lemma cipher_inside tl sq cipher rest b : front tl sq cipher rest b ->
  take (length cipher) (drop (headLen tl) (bData b)) = cipher.
Proof.
  intros [E _].
  rewrite E, packet_headOf, <- app_assoc, <- (length_headOf tl sq (Z.of_nat (length cipher))), drop_app_length.
  apply take_app_length.
Qed.

(** A message as it travels: sequence number, ciphertext, plaintext. *)
Definition Msg : Type := Z * list byte * list byte.
Definition plainOf (x : Msg) : list byte := x.2.
Definition packetOf (tlv : bool) (x : Msg) : list byte := packet tlv x.1.1 x.1.2.

Section Stream.
Context (maxLen : Z) (info : @TransInnerSessionInfo Key).
#[local] Abbreviation tlv := (supportTlv info).
#[local] Abbreviation c := (channelId info).

Definition msgOK (x : Msg) : Prop :=
  in_s32 x.1.1 /\ dec (sessionKey info) x.1.2 = (SOFTBUS_OK, plainOf x) /\ fits maxLen tlv x.1.2.

Context (Hlisten : hasListener info = true) (Hmax : maxLen <= MAX_MALLOC_SIZE).

Lemma length_packetOf x : length (packetOf tlv x) = (headLen tlv + length x.1.2)%nat.
Proof. unfold packetOf. rewrite packet_headOf, length_app, length_headOf. reflexivity. Qed.

Lemma listener_after env st st1 b rest m :
  (forall c m st, exists st', onData env c m st = (SOFTBUS_OK, st') /\
     g_innerChannelDataBufList st' = g_innerChannelDataBufList st /\
     g_sessionList (inner st') = g_sessionList (inner st)) ->
  inner st1 = inner st -> bufIs st1 c b ->
  let b' := mkBuf (bChannelId b) (bFd b) (bSize b) rest in
  exists st', toListener env (updateBuf st1 c b') c m = (SOFTBUS_OK, st', [(c, m)]) /\
    bufIs st' c b' /\ g_sessionList (inner st') = g_sessionList (inner st).
Proof.
  intros Hon Ei Hb b'. unfold toListener. destruct (Hon c m (updateBuf st1 c b')) as (st' & -> & Eb & Es).
  exists st'. split; [reflexivity|]. split; [|rewrite Es; cbn; now rewrite Ei].
  pose proof (bufIs_update st1 c b b' Hb (bufIs_chan _ _ _ Hb)) as H2.
  unfold bufIs, TransGetInnerDataBufNodeById in *. now rewrite Eb.
Qed.

(** The complete packet at the front is handed over and removed. *)
Lemma round_complete env n st b x rest :
  tdcEnvOK env -> msgOK x -> bufIs st c b -> bData b = packetOf tlv x ++ rest ->
  Z.of_nat (length (bData b)) <= bSize b <= MAX_MALLOC_SIZE ->
  exists st', drainRound maxLen env tlv n st info = (SOFTBUS_OK, st', [(c, plainOf x)], true) /\
    bufIs st' c (mkBuf (bChannelId b) (bFd b) (bSize b) rest) /\
    g_sessionList (inner st') = g_sessionList (inner st).
Proof.
  intros (Hlk & _ & Hlibc & Hj & Hon) (Hsq & Hdec & Hfit) Hb Ed Hsize. destruct x as [[sq cipher] m].
  cbn [fst snd plainOf] in *. unfold packetOf in Ed. cbn [fst snd] in Ed.
  pose proof (length_packetOf (sq, cipher, m)) as Hlen. unfold packetOf in Hlen. cbn [fst snd] in Hlen.
  assert (Hl : length (bData b) = (headLen tlv + length cipher + length rest)%nat)
    by (rewrite Ed, length_app; lia).
  pose proof (bufIs_chan _ _ _ Hb) as Hch.
  pose proof Hfit as [Hc28 Hcm]. unfold MAX_MALLOC_SIZE in *.
  assert (Hfr : front tlv sq cipher rest b) by (split; [exact Ed|lia]).
  pose proof (judge_complete _ _ _ _ _ Hfr) as Hj1. pose proof (move_packet _ _ _ _ _ Hfr ltac:(unfold MAX_MALLOC_SIZE; lia)) as Hmove.
  pose proof (cipher_inside _ _ _ _ _ Hfr) as Hct.
  set (st1 := updateBuf st c b).
  assert (Hb1 : bufIs st1 c b) by (eapply bufIs_update; eassumption).
  pose proof (listener_after env st st1 b rest m Hon eq_refl Hb1) as Hfin.
  unfold drainRound. rewrite Hlk. cbn [negb]. unfold bufIs in Hb. rewrite Hb.
  destruct (supportTlv info) eqn:Etlv.
  - destruct (UnPackAllTlv_judge maxLen (tlibc env (1 + 2 * n)) (tjunk env) b [] sq cipher rest)
      as (v & hs & Eu & Hv); auto; [now rewrite app_nil_r|lia|].
    cbn [headLen] in *. rewrite Hj1 in Eu. rewrite Eu. destruct Hv as [-> Hv]; [lia|].
    cbn [negb orb Z.eqb SOFTBUS_OK]. fold st1. unfold TransTdcProcessInnerTlvData.
    rewrite Hlisten, Hlk. cbn [negb]. unfold bufIs in Hb1. rewrite Hb1, Hv.
    change OVERHEAD_LEN with 28. rewrite u32_small by (unfold in_u32; lia).
    rewrite SoftBusCalloc_true by (auto; unfold MAX_MALLOC_SIZE; lia). cbn [negb].
    unfold TransTdcDecrypt. rewrite Nat2Z.id. change (Z.to_nat 32) with 32%nat. rewrite Hct, Hdec.
    cbn [negb Z.eqb SOFTBUS_OK]. change 32 with (Z.of_nat 32). rewrite Hmove. cbn [negb Z.eqb SOFTBUS_OK].
    destruct Hfin as (st' & -> & H1 & H2). eauto.
  - pose proof (UnPackAll_judge maxLen (tlibc env (1 + 2 * n)) b [] sq cipher rest) as Eu.
    cbn [headLen] in *. rewrite Hj1 in Eu. rewrite Eu; auto; [|now rewrite app_nil_r|lia|lia].
    cbn [negb orb Z.eqb SOFTBUS_OK]. fold st1. unfold TransTdcProcessInnerData.
    rewrite Hlisten, Hlk. cbn [negb]. unfold bufIs in Hb1. rewrite Hb1.
    assert (Hdl : tcpDataLen (UnPackTcpDataPacketHead (bData b)) = Z.of_nat (length cipher)).
    { rewrite Ed, packet_headOf, <- app_assoc. apply UnPackTcp_head; [unfold in_u32; lia|exact Hsq]. }
    rewrite Hdl. change OVERHEAD_LEN with 28. rewrite u32_small by (unfold in_u32; lia).
    rewrite SoftBusCalloc_true by (auto; unfold MAX_MALLOC_SIZE; lia). cbn [negb].
    unfold TransTdcUnPackData. rewrite Hdl, Nat2Z.id. unfold TransTdcDecrypt.
    change (Z.to_nat DC_DATA_HEAD_SIZE) with 16%nat. rewrite Hct, Hdec. cbn [negb Z.eqb SOFTBUS_OK].
    change DC_DATA_HEAD_SIZE with (Z.of_nat 16). rewrite Hmove. cbn [negb Z.eqb SOFTBUS_OK].
    destruct Hfin as (st' & -> & H1 & H2). eauto.
Qed.

(** The buffer is large enough for any head. *)
Definition roomy (b : DataBuf) : Prop := 64 <= bSize b <= maxLen.

(** An incomplete packet: the buffer keeps its bytes and has room afterwards. *)
Lemma judge_stop tl b total M :
  64 <= bSize b <= M -> Z.of_nat (length (bData b)) <= bSize b -> (length (bData b) < total)%nat ->
  Z.of_nat total <= M ->
  exists r b' fl, (r = SOFTBUS_OK \/ r = SOFTBUS_DATA_NOT_ENOUGH) /\ negb (r =? SOFTBUS_OK) || fl = true /\
    (r, fl, b') = match judge tl b total with
                  | Incomplete => (SOFTBUS_DATA_NOT_ENOUGH, false, b)
                  | Grow => (SOFTBUS_OK, true, grown b total)
                  | Complete => (SOFTBUS_OK, false, b) end /\
    bData b' = bData b /\ bFd b' = bFd b /\ bChannelId b' = bChannelId b /\ 64 <= bSize b' <= M /\
    Z.of_nat (length (bData b')) < bSize b'.
Proof.
  intros Hroom Hsize Hlt Htot. unfold judge.
  assert (Hinc : Z.of_nat (length (bData b)) < bSize b -> exists r b' fl,
    (r = SOFTBUS_OK \/ r = SOFTBUS_DATA_NOT_ENOUGH) /\ negb (r =? SOFTBUS_OK) || fl = true /\
    (r, fl, b') = (SOFTBUS_DATA_NOT_ENOUGH, false, b) /\
    bData b' = bData b /\ bFd b' = bFd b /\ bChannelId b' = bChannelId b /\ 64 <= bSize b' <= M /\
    Z.of_nat (length (bData b')) < bSize b').
  { intros H. exists SOFTBUS_DATA_NOT_ENOUGH, b, false. auto 12. }
  destruct (Nat.ltb_spec (length (bData b)) (headLen tl)) as [H1|H1].
  { apply Hinc. unfold headLen in H1. destruct tl; lia. }
  destruct (Z.ltb_spec (bSize b) (Z.of_nat total)) as [H2|H2].
  - exists SOFTBUS_OK, (grown b total), true. cbn. repeat (split; [auto; fail|]). split; lia.
  - destruct (Nat.ltb_spec (length (bData b)) total); [|lia]. apply Hinc. lia.
Qed.

Lemma round_stop env n st b rest fut :
  tdcEnvOK env -> bufIs st c b -> roomy b -> Z.of_nat (length (bData b)) <= bSize b ->
  Forall msgOK rest -> bData b ++ fut = concat (packetOf tlv <$> rest) ->
  (bData b <> [] -> exists x rest', rest = x :: rest' /\ (length (bData b) < length (packetOf tlv x))%nat) ->
  exists r st' b', drainRound maxLen env tlv n st info = (r, st', [], false) /\
    (r = SOFTBUS_OK \/ r = SOFTBUS_DATA_NOT_ENOUGH) /\ bufIs st' c b' /\ bData b' = bData b /\ bFd b' = bFd b /\
    roomy b' /\ Z.of_nat (length (bData b')) < bSize b' /\ inner st' = inner st.
Proof.
  intros (Hlk & _ & Hlibc & Hj & _) Hb Hroom Hsize Hok E Hshort.
  pose proof (bufIs_chan _ _ _ Hb) as Hch.
  unfold roomy, MAX_MALLOC_SIZE in *. unfold drainRound. rewrite Hlk. cbn [negb].
  pose proof Hb as Hb0. unfold bufIs in Hb0. rewrite Hb0. clear Hb0.
  destruct (decide (bData b = [])) as [Ee|Ne].
  - assert (E0 : (Z.of_nat (length (bData b)) =? 0) = true) by now rewrite Ee.
    assert (Hlt : Z.of_nat (length (bData b)) < bSize b) by (rewrite Ee; cbn; lia).
    destruct tlv; [unfold TransTdcUnPackAllTlvData|unfold TransTdcUnPackAllData]; rewrite E0;
      cbn [negb orb Z.eqb SOFTBUS_OK]; eexists _, _, b; (split; [reflexivity|]); (split; [auto|]);
      (split; [eapply bufIs_update; eassumption|]); auto 10.
  - destruct (Hshort Ne) as (x & rest' & -> & Hlt). clear Hshort.
    assert (Hpos : (0 < length (bData b))%nat) by (destruct (bData b); [contradiction|cbn; lia]).
    apply Forall_cons_1 in Hok as [(Hsq & _ & Hfit) _]. rewrite fmap_cons in E. cbn [concat] in E.
    rewrite length_packetOf in Hlt. destruct x as [[sq cipher] m]. unfold packetOf at 1 in E. cbn [fst snd] in *.
    pose proof Hfit as [_ Hcm].
    set (total := (headLen tlv + length cipher)%nat) in *.
    pose proof (judge_stop tlv b total maxLen Hroom Hsize Hlt ltac:(lia)) as Hout.
    destruct Hout as (r & b' & fl & Hr & Hfl & Ej & Ed & Ef & Ec & Hsz & Hl').
    destruct (supportTlv info) eqn:Etlv; cbn [headLen] in *.
    + destruct (UnPackAllTlv_judge maxLen (tlibc env (1 + 2 * n)) (tjunk env) b fut sq cipher
                  (concat (packetOf true <$> rest'))) as (v & hs & Eu & _); auto; [unfold MAX_MALLOC_SIZE; lia|].
      fold total in Eu. rewrite Eu.
      destruct (judge true b total); injection Ej as -> -> ->; rewrite ?Hfl;
        [..|now cbn in Hfl]; cbn [negb orb Z.eqb SOFTBUS_OK];
        (eexists _, _, _; split; [reflexivity|]; split; [exact Hr|];
         split; [eapply bufIs_update; [eassumption|congruence]|]; auto 10).
    + rewrite (UnPackAll_judge maxLen (tlibc env (1 + 2 * n)) b fut sq cipher (concat (packetOf false <$> rest')))
        by auto. fold total.
      destruct (judge false b total); injection Ej as -> -> ->; rewrite ?Hfl;
        [..|now cbn in Hfl]; cbn [negb orb Z.eqb SOFTBUS_OK];
        (eexists _, _, _; split; [reflexivity|]; split; [exact Hr|];
         split; [eapply bufIs_update; [eassumption|congruence]|]; auto 10).
Qed.

#[local] Abbreviation bytes l := (concat (packetOf tlv <$> l)).
#[local] Abbreviation calls l := ((fun x => (c, plainOf x)) <$> l).

(** Between events: less than a packet in the buffer, and room for more. *)
Definition settled (st : Tdc) (b : DataBuf) (fut : list byte) (rest : list Msg) : Prop :=
  bufIs st c b /\ bData b ++ fut = bytes rest /\ roomy b /\ Z.of_nat (length (bData b)) < bSize b /\
  match rest with [] => bData b = [] | x :: _ => (length (bData b) < length (packetOf tlv x))%nat end.

Lemma drain_ok env : tdcEnvOK env ->
  forall rest fuel n st b fut, bufIs st c b -> roomy b -> Z.of_nat (length (bData b)) <= bSize b ->
  Forall msgOK rest -> bData b ++ fut = bytes rest -> (length (bData b) < fuel)%nat ->
  exists r st' b' done rest', rest = done ++ rest' /\
    drain maxLen env tlv fuel n st info = Some (r, st', calls done) /\
    (r = SOFTBUS_OK \/ r = SOFTBUS_DATA_NOT_ENOUGH) /\ settled st' b' fut rest' /\ bFd b' = bFd b /\
    g_sessionList (inner st') = g_sessionList (inner st).
Proof.
  intros He. induction rest as [|x rest IH]; intros fuel n st b fut Hb Hroom Hsize Hok E Hfuel;
    (destruct fuel as [|fuel]; [lia|]).
  - cbn in E. apply app_eq_nil in E as [E1 E2].
    destruct (round_stop env n st b [] fut He Hb Hroom Hsize Hok) as (r & st' & b' & Er & Hr & Hb' & Ed & Ef & Hro & Hlt & Ei);
      [now rewrite E1, E2|now intros ?|].
    exists r, st', b', [], []. split; [reflexivity|]. cbn [drain]. rewrite Er. split; [reflexivity|].
    split; [exact Hr|]. split; [|split; [exact Ef|now rewrite Ei]].
    unfold settled. rewrite Ed, E1, E2 in *. auto 10.
  - destruct (Nat.lt_ge_cases (length (bData b)) (length (packetOf tlv x))) as [Hlt|Hge].
    + destruct (round_stop env n st b (x :: rest) fut He Hb Hroom Hsize Hok E)
        as (r & st' & b' & Er & Hr & Hb' & Ed & Ef & Hro & Hl' & Ei); [eauto|].
      exists r, st', b', [], (x :: rest). split; [reflexivity|]. cbn [drain]. rewrite Er. split; [reflexivity|].
      split; [exact Hr|]. split; [|split; [exact Ef|now rewrite Ei]].
      unfold settled. rewrite Ed in *. auto 10.
    + rewrite fmap_cons in E. cbn [concat] in E. destruct (prefix_head _ _ _ _ E Hge) as [y Ey].
      apply Forall_cons_1 in Hok as [Hx Hok].
      destruct (round_complete env n st b x y He Hx Hb Ey) as (st1 & Er & Hb1 & Es1);
        [unfold roomy in Hroom; lia|].
      rewrite Ey, <- app_assoc in E. apply app_inv_head in E.
      pose proof (length_packetOf x) as Hlx.
      assert (Hly : length (bData b) = (length (packetOf tlv x) + length y)%nat) by (rewrite Ey; apply length_app).
      assert (Hpos : (0 < headLen tlv)%nat) by (destruct tlv; cbn; lia).
      destruct (IH fuel (S n) st1 (mkBuf (bChannelId b) (bFd b) (bSize b) y) fut Hb1) as
        (r & st' & b' & done & rest' & -> & Ed & Hr & Hset & Ef & Es); auto; [cbn [bData bSize]; lia|cbn [bData]; lia|].
      exists r, st', b', (x :: done), rest'. split; [reflexivity|]. cbn [drain]. rewrite Er, Ed.
      split; [reflexivity|]. split; [exact Hr|]. split; [exact Hset|]. split; [exact Ef|congruence].
Qed.

(** ** Readable sockets *)

Lemma find_both l b f : findBuf c l = Some b -> bFd b = f ->
  exists i, list_find (fun x => bChannelId x = c /\ bFd x = f) l = Some (i, b).
Proof.
  intros H Hf. induction l as [|x l IH]; [discriminate|]. cbn [findBuf] in H. cbn [list_find].
  destruct (Z.eqb_spec (bChannelId x) c) as [E|E].
  - injection H as ->. exists 0%nat. now rewrite decide_True.
  - destruct (IH H) as [i Ei]. exists (S i). rewrite decide_False by (intros [? _]; contradiction). now rewrite Ei.
Qed.

(** A socket that has [stream] to deliver and hands out at most [k] bytes. *)
Definition onSocket (env : TdcEnv) (k : nat) (stream : list byte) : TdcEnv :=
  mkTdcEnv (bufLock env) (sesLock env) (tlibc env)
    (fun len => let d := take (Nat.min k (Z.to_nat len)) stream in (Z.of_nat (length d), d))
    (sockErr env) (tjunk env) (onData env).

(** How many bytes the handler asks for. *)
Definition asked (st : Tdc) (f : Z) : nat := Z.to_nat (TransInnerGetTdcDataBufById true st c f).2.

Lemma event_ok env k st b stream rest f :
  tdcEnvOK env -> (0 < k)%nat -> stream <> [] -> Forall msgOK rest ->
  GetSessionInfoByFd true (inner st) f = (SOFTBUS_OK, Some info) ->
  settled st b stream rest -> bFd b = f ->
  exists r st' b' done rest', rest = done ++ rest' /\
    TdcDataReceived maxLen (onSocket env k stream) st f = Some (r, st', calls done) /\
    (r = SOFTBUS_OK \/ r = SOFTBUS_DATA_NOT_ENOUGH) /\
    settled st' b' (drop (Nat.min k (asked st f)) stream) rest' /\ bFd b' = f /\
    GetSessionInfoByFd true (inner st') f = (SOFTBUS_OK, Some info) /\ (0 < Nat.min k (asked st f))%nat.
Proof.
  intros He Hk Hne Hok Hses (Hb & E & Hroom & Hlt & Hshort) Hf.
  pose proof He as (Hlk & Hsl & Hlibc & Hj & Hon).
  assert (He' : tdcEnvOK (onSocket env k stream)) by exact He.
  unfold bufIs, TransGetInnerDataBufNodeById in Hb.
  destruct (g_innerChannelDataBufList st) as [l|] eqn:El; [|discriminate]. cbn in Hb.
  destruct (find_both l b f Hb Hf) as [ix Efind].
  assert (Hfree : TransInnerGetTdcDataBufById true st c f = (SOFTBUS_OK, bSize b - Z.of_nat (length (bData b))))
    by (unfold TransInnerGetTdcDataBufById; rewrite El; cbn [negb]; now rewrite Efind).
  assert (Hask : asked st f = Z.to_nat (bSize b - Z.of_nat (length (bData b)))) by (unfold asked; now rewrite Hfree).
  unfold TdcDataReceived. cbn [sesLock onSocket bufLock tlibc]. rewrite Hsl, Hses, Hlk, Hfree.
  cbn [negb Z.eqb SOFTBUS_OK]. unfold roomy, MAX_MALLOC_SIZE in *.
  rewrite SoftBusCalloc_true by (auto; unfold MAX_MALLOC_SIZE; lia). cbn [negb].
  unfold TransTdcRecvFirstData. cbn [recv sockErr onSocket]. rewrite <- Hask.
  destruct (Z.eqb_spec (bSize b - Z.of_nat (length (bData b))) 0); [lia|].
  destruct (Z.ltb_spec maxLen (bSize b - Z.of_nat (length (bData b)))); [lia|]. cbn [orb].
  set (j := Nat.min k (asked st f)). assert (Hjp : (0 < j)%nat) by lia.
  assert (Hd : (0 < length (take j stream))%nat)
    by (rewrite length_take; destruct stream; [contradiction|cbn; lia]).
  assert (Hdl : (length (take j stream) <= asked st f)%nat) by (rewrite length_take; lia).
  set (d := take j stream) in *.
  destruct (Z.ltb_spec (Z.of_nat (length d)) 0); [lia|]. destruct (Z.eqb_spec (Z.of_nat (length d)) 0); [lia|].
  cbn [negb Z.eqb SOFTBUS_OK]. unfold TransInnerUpdateTdcDataBufWInfo. rewrite El. cbn [negb]. rewrite Hb.
  rewrite s32_small by (unfold in_s32; lia).
  destruct (Z.ltb_spec (bSize b - Z.of_nat (length (bData b))) (Z.of_nat (length d))); [lia|].
  assert (Hcp : memcpy_s (Z.of_nat (length d)) (Z.of_nat (length d)) = true) by (apply memcpy_s_spec; lia).
  rewrite Hcp. cbn [negb Z.eqb SOFTBUS_OK].
  set (b1 := mkBuf (bChannelId b) (bFd b) (bSize b) (bData b ++ d)). set (st1 := updateBuf st c b1).
  assert (Hb1 : bufIs st1 c b1).
  { apply (bufIs_update st c b); [|exact (findBuf_chan _ _ _ Hb)].
    unfold bufIs, TransGetInnerDataBufNodeById. now rewrite El. }
  destruct (drain_ok (onSocket env k stream) He' rest (S (length (bData b1))) 0 st1 b1 (drop j stream)) as
    (r & st' & b' & done & rest' & -> & Ed & Hr & Hset & Ef & Es); auto;
    [cbn; rewrite length_app; lia|cbn; unfold d; rewrite <- app_assoc, take_drop; exact E|].
  exists r, st', b', done, rest'. split; [reflexivity|].
  rewrite Hlk. cbn [negb Z.eqb SOFTBUS_OK].
  pose proof Hb1 as Hb2. unfold bufIs in Hb2. rewrite Hb2. cbn [fmap option_fmap option_map from_option id].
  unfold TransInnerTdcProcAllTlvData, TransInnerTdcProcAllData.
  assert (Ed' : (if tlv then drain maxLen (onSocket env k stream) true (S (length (bData b1))) 0 st1 info
                 else drain maxLen (onSocket env k stream) false (S (length (bData b1))) 0 st1 info) =
                Some (r, st', calls done)) by (rewrite <- Ed; now destruct tlv).
  rewrite Ed'. split; [reflexivity|]. split; [exact Hr|]. split; [exact Hset|]. split; [now rewrite Ef|].
  split; [|exact Hjp]. unfold GetSessionInfoByFd in *. rewrite Es. exact Hses.
Qed.

(** The events of a socket on which [stream] arrives; the n-th event finds at
    most [ks n] bytes. Result codes, state, calls of the listener, what is left. *)
Fixpoint serve (envs : nat -> TdcEnv) (n : nat) (ks : list nat) (st : Tdc) (f : Z) (stream : list byte)
  : option (list Z * Tdc * list (Z * list byte) * list byte) :=
  match ks, stream with
  | [], _ | _, [] => Some ([], st, [], stream)
  | k :: ks', _ =>
    match TdcDataReceived maxLen (onSocket (envs n) k stream) st f with
    | None => None
    | Some (r, st', out) =>
      match serve envs (S n) ks' st' f (drop (Nat.min k (asked st f)) stream) with
      | None => None
      | Some (rs, st', out', remain) => Some (r :: rs, st', out ++ out', remain)
      end
    end
  end.

Definition fine (r : Z) : Prop := r = SOFTBUS_OK \/ r = SOFTBUS_DATA_NOT_ENOUGH.

Lemma settled_end st b rest : settled st b [] rest -> rest = [].
Proof.
  intros (_ & E & _ & _ & Hs). destruct rest as [|x rest]; [reflexivity|]. exfalso.
  rewrite app_nil_r, fmap_cons in E. cbn [concat] in E. rewrite E, length_app in Hs. lia.
Qed.

Lemma serve_ok envs f : (forall n, tdcEnvOK (envs n)) ->
  forall ks n st b stream rest, Forall (lt 0) ks -> (length stream <= length ks)%nat -> Forall msgOK rest ->
  GetSessionInfoByFd true (inner st) f = (SOFTBUS_OK, Some info) -> settled st b stream rest -> bFd b = f ->
  exists rs st', serve envs n ks st f stream = Some (rs, st', calls rest, []) /\ Forall fine rs.
Proof.
  intros He. induction ks as [|k ks IH]; intros n st b stream rest Hks Hl Hok Hses Hset Hf.
  - destruct stream; [|cbn in Hl; lia]. rewrite (settled_end _ _ _ Hset). exists [], st. auto.
  - destruct (decide (stream = [])) as [->|Hne].
    { rewrite (settled_end _ _ _ Hset). exists [], st. auto. }
    apply Forall_cons_1 in Hks as [Hk Hks].
    destruct (event_ok (envs n) k st b stream rest f (He n) Hk Hne Hok Hses Hset Hf)
      as (r & st1 & b1 & done & rest' & -> & Ev & Hr & Hset1 & Hf1 & Hses1 & Hj).
    destruct (IH (S n) st1 b1 (drop (Nat.min k (asked st f)) stream) rest') as (rs & st' & Es & Hrs); auto.
    + rewrite length_drop. destruct stream; [contradiction|]. cbn [length] in *. lia.
    + exact (proj2 (proj1 (Forall_app _ _ _) Hok)).
    + exists (r :: rs), st'. cbn [serve]. rewrite Ev, Es, fmap_app. destruct stream; [contradiction|]. auto.
Qed.

End Stream.

(** ** Sending messages *)

(** Authenticated encryption of the session: 28 bytes longer, and decryption
    under the same key gives the plaintext back. *)
Class TdcCipher (enc : Key -> Z -> list byte -> Z * list byte) : Prop :=
  tdc_cipher : forall k sq m, (0 < length m)%nat ->
  exists cipher, enc k sq m = (SOFTBUS_OK, cipher) /\ dec k cipher = (SOFTBUS_OK, m) /\
    Z.of_nat (length cipher) = Z.of_nat (length m) + OVERHEAD_LEN.

Section Sender.
Context (enc : Key -> Z -> list byte -> Z * list byte) (libc : nat -> Z -> bool).
Context (Hlibc : forall n z, libc n z = true).

Lemma TransTdcPackAllData_ok tl sq key m cipher :
  Z.of_nat (length m) <= 4194304 -> enc key sq m = (SOFTBUS_OK, cipher) ->
  Z.of_nat (length cipher) = Z.of_nat (length m) + OVERHEAD_LEN ->
  TransTdcPackAllData enc libc (mkPackInfo false tl sq) key m FLAG_BYTES =
  Some (packet tl sq cipher, Z.of_nat (length cipher)).
Proof.
  intros Hm He Hc. unfold TransTdcPackAllData, TransTdcEncryptWithSeq.
  change (FLAG_BYTES =? FLAG_ACK) with false. cbn [piSupportTlv piSeq piNeedAck]. rewrite He, <- Hc.
  change OVERHEAD_LEN with 28 in *. rewrite (u32_small (Z.of_nat (length cipher))) by (unfold in_u32; lia).
  rewrite Z.eqb_refl. cbn [negb orb Z.eqb SOFTBUS_OK]. destruct tl.
  - unfold BuildDataHead, BuildNeedAckTlvData, TransTdcPackTlvData.
    destruct (TransProxyBuildTlv_ok libc sq FLAG_BYTES (Z.of_nat (length cipher)) false 0 Hlibc)
      as (h & s & -> & ->).
    unfold TransProxyPackTlvData. change (u32 (MAGICNUM_SIZE + TLVCOUNT_SIZE + 27)) with 32.
    rewrite (s32_small (Z.of_nat (length cipher) + 32)) by (unfold in_s32; lia).
    rewrite SoftBusCalloc_true by (auto; unfold MAX_MALLOC_SIZE; lia).
    assert (Hcp : forall a b, b <= 8 -> 8 <= a -> memcpy_s a b = true) by (intros; apply memcpy_s_spec; lia).
    rewrite !Hcp by (unfold MAGICNUM_SIZE, TLVCOUNT_SIZE; lia). cbn [negb count cursor elements].
    rewrite packElements_ok; [rewrite Z.eqb_refl; reflexivity| |unfold MAGICNUM_SIZE, TLVCOUNT_SIZE; lia].
    apply Forall_take, Forall_drop. repeat (constructor; [cbn [eValue]; rewrite length_le; lia|]). constructor.
  - unfold TransPackData, DC_DATA_HEAD_SIZE. rewrite (u32_small (Z.of_nat (length cipher) + 16)) by (unfold in_u32; lia).
    rewrite SoftBusCalloc_true by (auto; unfold MAX_MALLOC_SIZE; lia). cbn [negb]. rewrite Z.eqb_refl. reflexivity.
Qed.

(** Several messages, one after the other: codes, state, bytes on the socket. *)
Fixpoint sendAll (send : list byte -> Z) (sockErr : Z) (st : Tdc) (ch : Z) (msgs : list (list byte))
  : list Z * Tdc * list byte :=
  match msgs with
  | [] => ([], st, [])
  | m :: msgs' =>
    let '(r, st, out) := TdcSendData enc true libc send sockErr st ch (Some m) in
    let '(rs, st, out') := sendAll send sockErr st ch msgs' in
    (r :: rs, st, out ++ out')
  end.

Definition accepts (send : list byte -> Z) : Prop := forall l, send l = Z.of_nat (length l).

(** Lengths that a session over TCP may send. *)
Definition sendable (m : list byte) : Prop := (0 < length m)%nat /\ Z.of_nat (length m) <= DATA_BUF_MAX.

Lemma TdcSendData_ok send sockErr st ch m info cipher :
  accepts send -> sendable m -> ready appInfo (inner st) ch info ->
  enc (sessionKey info) (s32 (tdcSeq st)) m = (SOFTBUS_OK, cipher) ->
  Z.of_nat (length cipher) = Z.of_nat (length m) + OVERHEAD_LEN ->
  TdcSendData enc true libc send sockErr st ch (Some m) =
  (SOFTBUS_OK, mkTdc (inner st) (g_innerChannelDataBufList st) (u32 (tdcSeq st + 1)),
   packet (supportTlv info) (s32 (tdcSeq st)) cipher).
Proof.
  intros Ha [Hm1 Hm2] Hrd He Hc. unfold TdcSendData, DATA_BUF_MAX in *.
  destruct (Z.eqb_spec (Z.of_nat (length m)) 0); [lia|].
  match goal with |- context [?x <? Z.of_nat (length m)] => destruct (Z.ltb_spec x (Z.of_nat (length m))) end; [lia|].
  cbn [orb]. rewrite (ready_Get _ _ _ _ Hrd).
  rewrite (TransTdcPackAllData_ok _ _ _ _ cipher) by assumption.
  unfold TransTdcSendData. rewrite Hc. change OVERHEAD_LEN with 28.
  rewrite u32_small by (unfold in_u32; lia). rewrite Z.eqb_refl, (Ha _), Z.eqb_refl. reflexivity.
Qed.

Lemma sendAll_ok {HC : TdcCipher enc} send sockErr ch info maxLen : accepts send ->
  forall msgs st, ready appInfo (inner st) ch info ->
  Forall (fun m => sendable m /\ Z.of_nat (length m) + 60 <= maxLen) msgs ->
  exists st' l, sendAll send sockErr st ch msgs =
    (replicate (length msgs) SOFTBUS_OK, st', concat (packetOf (supportTlv info) <$> l)) /\
    (plainOf <$> l) = msgs /\
    Forall (fun x => in_s32 x.1.1 /\ dec (sessionKey info) x.1.2 = (SOFTBUS_OK, plainOf x) /\
                     fits maxLen (supportTlv info) x.1.2) l.
Proof.
  intros Ha. induction msgs as [|m msgs IH]; intros st Hrd Hm; [now exists st, []|].
  apply Forall_cons_1 in Hm as [[Hs Hlen] Hm]. pose proof Hs as [Hpos _].
  destruct (tdc_cipher (sessionKey info) (s32 (tdcSeq st)) m Hpos) as (cipher & He & Hd & Hc).
  destruct (IH (mkTdc (inner st) (g_innerChannelDataBufList st) (u32 (tdcSeq st + 1))) Hrd Hm) as (st' & l & El & Ep & Hl).
  exists st', ((s32 (tdcSeq st), cipher, m) :: l). cbn [sendAll].
  rewrite (TdcSendData_ok _ _ _ _ _ info cipher) by assumption. rewrite El.
  split; [reflexivity|]. split; [rewrite fmap_cons; cbn; now rewrite Ep|]. constructor; [|exact Hl].
  cbn [fst snd plainOf]. split; [apply s32_range|]. split; [exact Hd|].
  unfold fits. change OVERHEAD_LEN with 28 in Hc. destruct (supportTlv info); cbn [headLen]; lia.
Qed.

End Sender.

(** ** From sender to receiver *)

Lemma findBuf_app ch l b : findBuf ch l = None -> bChannelId b = ch -> findBuf ch (l ++ [b]) = Some b.
Proof.
  intros H Hb. induction l as [|x l IH]; cbn in *; [now rewrite (proj2 (Z.eqb_eq _ _) Hb)|].
  destruct (bChannelId x =? ch); [discriminate|auto].
Qed.

Lemma fresh_buffer_settled maxLen l1 l2 st l f info msgs :
  (forall z, l1 z = true) -> (forall z, l2 z = true) -> g_innerChannelDataBufList st = Some l ->
  findBuf (channelId info) l = None -> 4096 <= maxLen ->
  exists st', TransInnerAddDataBufNode l1 l2 true st (channelId info) f CHANNEL_TYPE_TCP_DIRECT = (SOFTBUS_OK, st') /\
    inner st' = inner st /\
    settled maxLen info st' (mkBuf (channelId info) f MAX_DATA_BUF [])
      (concat (packetOf (supportTlv info) <$> msgs)) msgs.
Proof.
  intros H1 H2 El Hn Hmax. unfold TransInnerAddDataBufNode. rewrite bool_decide_true by reflexivity. cbn [negb].
  rewrite !SoftBusCalloc_true by (auto; unfold MAX_MALLOC_SIZE, sizeof_DataBuf, MAX_DATA_BUF; lia). cbn [negb].
  eexists. split; [reflexivity|]. split; [reflexivity|]. rewrite El.
  unfold settled, bufIs, TransGetInnerDataBufNodeById, roomy, MAX_DATA_BUF. cbn [setBufs g_innerChannelDataBufList].
  split; [now apply findBuf_app|]. split; [reflexivity|]. cbn [bSize bData length]. split; [lia|]. split; [lia|].
  destruct msgs as [|x msgs]; [reflexivity|]. rewrite length_packetOf. destruct (supportTlv info); cbn; lia.
Qed.

(** C6: over a TCP direct channel, in the TLV as in the plain format, the
    messages that [TdcSendData] accepts arrive. A sender puts messages on its
    socket one after the other; the receiver has made a buffer for the channel
    with [TransInnerAddDataBufNode], and its socket becomes readable again and
    again with arbitrary (positive) amounts of the stream. Then [TdcDataReceived]
    always returns, with success or with "data not enough", and calls the
    listener with exactly the sent messages, in order, whatever the cuts: packets
    split over events, several packets in one event, packets larger than the
    buffer, which is enlarged up to [maxLen]. The cipher is a parameter. *)
Theorem tdc_stream_transfer enc {HC : TdcCipher enc} maxLen libc send err snd ch sinfo
    (envs : nat -> TdcEnv) l1 l2 rcv l f info msgs :
  (forall n z, libc n z = true) -> accepts send -> ready appInfo (inner snd) ch sinfo ->
  supportTlv sinfo = supportTlv info -> sessionKey sinfo = sessionKey info ->
  (forall n, tdcEnvOK (envs n)) -> (forall z, l1 z = true) -> (forall z, l2 z = true) ->
  hasListener info = true -> GetSessionInfoByFd true (inner rcv) f = (SOFTBUS_OK, Some info) ->
  g_innerChannelDataBufList rcv = Some l -> findBuf (channelId info) l = None ->
  4096 <= maxLen <= MAX_MALLOC_SIZE ->
  Forall (fun m => sendable m /\ Z.of_nat (length m) + 60 <= maxLen) msgs ->
  exists snd' stream rcv1,
    sendAll enc libc send err snd ch msgs = (replicate (length msgs) SOFTBUS_OK, snd', stream) /\
    TransInnerAddDataBufNode l1 l2 true rcv (channelId info) f CHANNEL_TYPE_TCP_DIRECT = (SOFTBUS_OK, rcv1) /\
    (forall ks, Forall (lt 0) ks -> (length stream <= length ks)%nat ->
     exists rs rcv', serve maxLen info envs 0 ks rcv1 f stream =
       Some (rs, rcv', (fun m => (channelId info, m)) <$> msgs, []) /\ Forall fine rs).
Proof.
  intros Hlibc Ha Hrd Et Ek He H1 H2 Hlis Hses El Hn Hmax Hm.
  destruct (sendAll_ok enc libc Hlibc send err ch sinfo maxLen Ha msgs snd Hrd Hm) as (snd' & ms & Es & Ep & Hms).
  rewrite Et, Ek in *.
  destruct (fresh_buffer_settled maxLen l1 l2 rcv l f info ms H1 H2 El Hn ltac:(lia)) as (rcv1 & Er & Ei & Hset).
  exists snd', (concat (packetOf (supportTlv info) <$> ms)), rcv1. split; [exact Es|]. split; [exact Er|].
  intros ks Hks Hlen.
  destruct (serve_ok maxLen info Hlis ltac:(lia) envs f He ks 0%nat rcv1 _ _ ms Hks Hlen Hms ltac:(rewrite Ei; exact Hses) Hset eq_refl)
    as (rs & rcv' & Ev & Hrs).
  exists rs, rcv'. split; [|exact Hrs]. rewrite Ev, <- Ep, <- list_fmap_compose. reflexivity.
Qed.

(** ** Arbitrary bytes *)

Section Safety.
Context (maxLen : Z) (Hmax : maxLen <= MAX_MALLOC_SIZE).

(** The bytes of a buffer are inside its allocation, and the allocation is bounded. *)
Definition bufOK (b : DataBuf) : Prop :=
  Z.of_nat (length (bData b)) <= bSize b <= Z.max MAX_DATA_BUF maxLen.

Definition bufsOK (st : Tdc) : Prop := forall l, g_innerChannelDataBufList st = Some l -> Forall bufOK l.

(** A listener may do anything but use the receive buffers. *)
Definition quiet (env : TdcEnv) : Prop := forall ch m st,
  g_innerChannelDataBufList (onData env ch m st).2 = g_innerChannelDataBufList st.

Lemma findBuf_OK ch st b : bufsOK st -> bufIs st ch b -> bufOK b.
Proof.
  unfold bufsOK, bufIs, TransGetInnerDataBufNodeById. destruct (g_innerChannelDataBufList st) as [l|]; [|discriminate].
  cbn. intros H Hf. specialize (H l eq_refl). induction H as [|x l Hx Hl IH]; [discriminate|]. cbn in Hf.
  destruct (bChannelId x =? ch); [now injection Hf as <-|auto].
Qed.

Lemma putBuf_OK ch b st : bufOK b -> bufsOK st -> bufsOK (updateBuf st ch b).
Proof.
  unfold bufsOK, updateBuf, setBufs. cbn. intros Hb H l' E. destruct (g_innerChannelDataBufList st) as [l|]; [|discriminate].
  injection E as <-. specialize (H l eq_refl). induction H as [|x l Hx Hl IH]; [constructor|]. cbn.
  destruct (bChannelId x =? ch); now constructor.
Qed.

(** What unpacking leaves: the same bytes in a buffer that is in order; when it
    reports a complete packet, that packet is there. *)
Definition unpacked (b b' : DataBuf) (complete : bool) (headSize dataLen : Z) : Prop :=
  bufOK b' /\ bData b' = bData b /\ bChannelId b' = bChannelId b /\
  (complete = true -> 0 <= headSize /\ 28 < dataLen /\ headSize + dataLen <= Z.of_nat (length (bData b))).

Lemma Resize_safe libc b n : bufOK b -> n <= maxLen -> bSize b < n ->
  bufOK (TransResizeDataBuffer libc b n).2 /\ bData (TransResizeDataBuffer libc b n).2 = bData b /\
  bChannelId (TransResizeDataBuffer libc b n).2 = bChannelId b.
Proof.
  intros Hb Hn Hs. unfold TransResizeDataBuffer. do 2 (destruct (negb _); [auto|]). unfold bufOK in *. cbn. split; [lia|auto].
Qed.

Lemma UnPackAllData_safe libc b r fl b' : bufOK b -> TransTdcUnPackAllData maxLen libc b = (r, fl, b') ->
  unpacked b b' (negb (negb (r =? SOFTBUS_OK) || fl)) 16 (tcpDataLen (UnPackTcpDataPacketHead (bData b))).
Proof.
  intros Hb. unfold TransTdcUnPackAllData, DC_DATA_HEAD_SIZE. change OVERHEAD_LEN with 28.
  set (L := tcpDataLen (UnPackTcpDataPacketHead (bData b))). unfold MAX_MALLOC_SIZE in *.
  assert (Hstop : forall r fl b', (r, fl, b) = (r, fl, b') -> negb (negb (r =? SOFTBUS_OK) || fl) = false ->
    unpacked b b' (negb (negb (r =? SOFTBUS_OK) || fl)) 16 L)
    by (intros ? ? ? [= <-] ->; split; [exact Hb|]; repeat split; discriminate).
  destruct (_ =? 0); [intros [= <- <- <-]; now apply Hstop|].
  destruct (_ <? 16); [intros [= <- <- <-]; now apply Hstop|].
  destruct (negb (_ =? MAGIC_NUMBER)); [intros [= <- <- <-]; now apply Hstop|].
  destruct (Z.leb_spec maxLen 16); [intros [= <- <- <-]; now apply Hstop|].
  destruct (Z.ltb_spec (maxLen - 16) L); [intros [= <- <- <-]; now apply Hstop|].
  destruct (Z.leb_spec L 28); [intros [= <- <- <-]; now apply Hstop|]. cbn [orb].
  rewrite u32_small by (unfold in_u32; lia).
  destruct (Z.ltb_spec (bSize b) (L + 16)); cbn [andb].
  - destruct (Z.leb_spec (L + 16) maxLen); [|lia].
    pose proof (Resize_safe libc b (L + 16) Hb ltac:(lia) ltac:(lia)) as (H6 & H7 & H8).
    destruct (TransResizeDataBuffer libc b (L + 16)) as [r1 b1]. intros [= <- <- <-].
    rewrite orb_true_r. now split.
  - destruct (Z.ltb_spec (Z.of_nat (length (bData b))) (L + 16)); intros [= <- <- <-]; [now apply Hstop|].
    split; [exact Hb|]. repeat split; lia.
Qed.

Lemma UnPackAllTlvData_safe libc junk b r fl v hs b' : bufOK b ->
  TransTdcUnPackAllTlvData maxLen libc junk b = (r, fl, v, hs, b') ->
  unpacked b b' (negb (negb (r =? SOFTBUS_OK) || fl)) hs (vDataLen v).
Proof.
  intros Hb. unfold TransTdcUnPackAllTlvData, TransTdcParseTlv. change OVERHEAD_LEN with 28.
  pose proof Hb as Hb0. unfold bufOK, MAX_DATA_BUF, MAX_MALLOC_SIZE in *.
  assert (Hstop : forall r fl v hs b', (r, fl, b) = (r, fl, b') -> negb (negb (r =? SOFTBUS_OK) || fl) = false ->
    unpacked b b' (negb (negb (r =? SOFTBUS_OK) || fl)) hs (vDataLen v))
    by (intros ? ? ? ? ? [= <-] ->; split; [exact Hb|]; repeat split; discriminate).
  destruct (_ =? 0); [intros [= <- <- <- <- <-]; now apply Hstop|].
  destruct (TransProxyParseTlv (bData b) junk 0) as [[r0 h] hs0] eqn:Ep.
  destruct (Z.eqb_spec r0 SOFTBUS_OK) as [->|Hr]; cbn [negb].
  2: { intros [= <- <- <- <- <-]. apply Hstop; [reflexivity|]. now rewrite (proj2 (Z.eqb_neq _ _) Hr). }
  assert (H5 : 5 <= hs0) by (eapply TransProxyParseTlv_size; [|exact Ep]; lia).
  set (L := vDataLen (TransTcpDataTlvUnpack h)).
  destruct (_ <? hs0); [intros [= <- <- <- <- <-]; now apply Hstop|].
  destruct (negb (_ =? MAGIC_NUMBER)); [intros [= <- <- <- <- <-]; now apply Hstop|].
  destruct (Z.leb_spec maxLen hs0); [intros [= <- <- <- <- <-]; now apply Hstop|].
  destruct (Z.ltb_spec (maxLen - hs0) L); [intros [= <- <- <- <- <-]; now apply Hstop|].
  destruct (Z.leb_spec L 28); [intros [= <- <- <- <- <-]; now apply Hstop|]. cbn [orb].
  rewrite u32_small by (unfold in_u32; lia).
  destruct (Z.ltb_spec (bSize b) (L + hs0)); cbn [andb].
  - destruct (Z.leb_spec (L + hs0) maxLen); [|lia].
    pose proof (Resize_safe libc b (L + hs0) Hb ltac:(lia) ltac:(lia)) as (H6 & H7 & H8).
    destruct (TransResizeDataBuffer libc b (L + hs0)) as [r1 b1]. intros [= <- <- <- <- <-].
    rewrite orb_true_r. now split.
  - destruct (Z.ltb_spec (Z.of_nat (length (bData b))) (L + hs0)); intros [= <- <- <- <- <-]; [now apply Hstop|].
    split; [exact Hb|]. fold L. repeat split; lia.
Qed.

(** The plaintexts handed out were decrypted with the session's key. *)
Definition authentic (info : @TransInnerSessionInfo Key) (out : list (Z * list byte)) : Prop :=
  Forall (fun x => x.1 = channelId info /\ exists ct, dec (sessionKey info) ct = (SOFTBUS_OK, x.2)) out.

(** How many bytes wait in the channel's buffer. *)
Definition pending (st : Tdc) (ch : Z) : nat :=
  length (default [] (bData <$> TransGetInnerDataBufNodeById st ch)).

Lemma pending_bufIs st ch b : bufIs st ch b -> pending st ch = length (bData b).
Proof. unfold pending, bufIs. now intros ->. Qed.

Lemma toListener_safe env st ch plain r st' out : quiet env -> bufsOK st ->
  toListener env st ch plain = (r, st', out) ->
  bufsOK st' /\ pending st' ch = pending st ch /\ out = [(ch, plain)].
Proof.
  unfold toListener. intros Hq Hst. specialize (Hq ch plain st). destruct (onData env ch plain st) as [r0 st0].
  cbn in Hq. intros [= _ <- <-]. unfold bufsOK, pending, TransGetInnerDataBufNodeById in *. now rewrite Hq.
Qed.

(** After the packet is removed. *)
Lemma MoveNode_safe b dl hs : bufOK b -> 0 <= hs -> 28 < dl ->
  let '(r, b') := MoveNode b dl hs in
  bufOK b' /\ bChannelId b' = bChannelId b /\ (r = SOFTBUS_OK -> (length (bData b') < length (bData b))%nat).
Proof.
  intros Hb Hh Hd. unfold MoveNode.
  destruct (Z.ltb_spec (Z.of_nat (length (bData b)) - (hs + dl)) 0); cbn [orb]; [now split|].
  destruct (negb _); [now split|]. unfold bufOK in *. cbn. rewrite length_drop. split; [lia|]. split; [reflexivity|lia].
Qed.

Definition roundSafe (info : @TransInnerSessionInfo Key) (st st' : Tdc) (out : list (Z * list byte)) (more : bool) : Prop :=
  bufsOK st' /\ authentic info out /\
  (more = true -> (pending st' (channelId info) < pending st (channelId info))%nat).

Lemma nothing_out info st st' r : bufsOK st' -> r <> SOFTBUS_OK -> roundSafe info st st' [] (r =? SOFTBUS_OK).
Proof. intros H Hr. rewrite (proj2 (Z.eqb_neq _ _) Hr). split; [exact H|]. split; [constructor|discriminate]. Qed.

(** The end of both functions: the packet is removed, the listener called. *)
Lemma handOver_safe env st info b dl hs ct plain r1 b1 r st' out :
  quiet env -> bufsOK st -> bufIs st (channelId info) b -> 0 <= hs -> 28 < dl ->
  dec (sessionKey info) ct = (SOFTBUS_OK, plain) -> MoveNode b dl hs = (r1, b1) ->
  (if negb (r1 =? SOFTBUS_OK) then (r1, updateBuf st (channelId info) b1, [])
   else toListener env (updateBuf st (channelId info) b1) (channelId info) plain) = (r, st', out) ->
  roundSafe info st st' out (r =? SOFTBUS_OK).
Proof.
  intros Hq Hst Hb Hhs Hdl Hd Em. pose proof (MoveNode_safe b dl hs (findBuf_OK _ _ _ Hst Hb) Hhs Hdl) as Hmv.
  rewrite Em in Hmv. destruct Hmv as (Hb1 & Hch & Hshort).
  destruct (Z.eqb_spec r1 SOFTBUS_OK) as [->|]; cbn [negb].
  2: { intros [= <- <- <-]. apply nothing_out; [now apply putBuf_OK|assumption]. }
  intros Hl. apply toListener_safe in Hl as (H1 & H2 & ->); [|exact Hq|now apply putBuf_OK].
  split; [exact H1|]. split; [repeat constructor; eauto|]. intros _. rewrite H2, (pending_bufIs _ _ _ Hb).
  rewrite (pending_bufIs _ _ b1); [auto|]. eapply bufIs_update; [exact Hb|]. rewrite Hch. exact (bufIs_chan _ _ _ Hb).
Qed.

Lemma processTlv_safe env n st info v hs b r st' out : quiet env -> bufsOK st -> bufIs st (channelId info) b ->
  0 <= hs -> 28 < vDataLen v ->
  TransTdcProcessInnerTlvData env n st info v hs = (r, st', out) -> roundSafe info st st' out (r =? SOFTBUS_OK).
Proof.
  intros Hq Hst Hb Hhs Hdl. unfold TransTdcProcessInnerTlvData.
  destruct (negb (hasListener info)); [intros [= <- <- <-]; now apply nothing_out|].
  destruct (negb (bufLock env _)); [intros [= <- <- <-]; now apply nothing_out|].
  pose proof Hb as Hb0. unfold bufIs in Hb0. rewrite Hb0.
  destruct (negb (SoftBusCalloc _ _)); [intros [= <- <- <-]; now apply nothing_out|].
  unfold TransTdcDecrypt. destruct (dec (sessionKey info) _) as [r0 plain] eqn:Ed.
  destruct (Z.eqb_spec r0 SOFTBUS_OK) as [->|]; cbn [negb Z.eqb SOFTBUS_OK];
    [|intros [= <- <- <-]; now apply nothing_out].
  destruct (MoveNode b (vDataLen v) hs) as [r1 b1] eqn:Em. eapply handOver_safe; eassumption.
Qed.

Lemma process_safe env n st info b r st' out : quiet env -> bufsOK st -> bufIs st (channelId info) b ->
  28 < tcpDataLen (UnPackTcpDataPacketHead (bData b)) ->
  TransTdcProcessInnerData env n st info = (r, st', out) -> roundSafe info st st' out (r =? SOFTBUS_OK).
Proof.
  intros Hq Hst Hb Hdl. unfold TransTdcProcessInnerData.
  destruct (negb (hasListener info)); [intros [= <- <- <-]; now apply nothing_out|].
  destruct (negb (bufLock env _)); [intros [= <- <- <-]; now apply nothing_out|].
  pose proof Hb as Hb0. unfold bufIs in Hb0. rewrite Hb0.
  destruct (negb (SoftBusCalloc _ _)); [intros [= <- <- <-]; now apply nothing_out|].
  unfold TransTdcUnPackData, TransTdcDecrypt. destruct (dec (sessionKey info) _) as [r0 plain] eqn:Ed.
  destruct (Z.eqb_spec r0 SOFTBUS_OK) as [->|]; cbn [negb Z.eqb SOFTBUS_OK].
  2: { intros [= <- <- <-]. apply nothing_out; [|easy]. apply putBuf_OK; [exact (findBuf_OK _ _ _ Hst Hb)|exact Hst]. }
  destruct (MoveNode b _ _) as [r1 b1] eqn:Em. intros E.
  eapply (handOver_safe env st info b _ _ _ plain); [..|exact Em|]; try eassumption; [easy|].
  destruct (Z.eqb_spec r1 SOFTBUS_OK) as [->|]; cbn [negb Z.eqb SOFTBUS_OK] in *; [exact E|].
  now rewrite (proj2 (Z.eqb_neq _ _) n0) in E.
Qed.

Lemma drainRound_safe env tl n st info r st' out more : quiet env -> bufsOK st ->
  drainRound maxLen env tl n st info = (r, st', out, more) -> roundSafe info st st' out more.
Proof.
  intros Hq Hst. unfold drainRound.
  assert (Hstop : forall s, bufsOK s -> roundSafe info st s [] false) by (intros s Hs; split; [exact Hs|]; split; [constructor|discriminate]).
  destruct (negb (bufLock env _)); [intros [= _ <- <- <-]; auto|].
  destruct (TransGetInnerDataBufNodeById st (channelId info)) as [b|] eqn:Hb; [|intros [= _ <- <- <-]; auto].
  pose proof (findBuf_OK _ _ _ Hst Hb) as Hbok. pose proof (bufIs_chan _ _ _ Hb) as Hch.
  assert (Hsame : forall b', bChannelId b' = bChannelId b -> bData b' = bData b ->
    bufIs (updateBuf st (channelId info) b') (channelId info) b' /\
    pending (updateBuf st (channelId info) b') (channelId info) = pending st (channelId info)).
  { intros b' Hc Hd. assert (H : bufIs (updateBuf st (channelId info) b') (channelId info) b')
      by (eapply bufIs_update; [exact Hb|congruence]).
    split; [exact H|]. now rewrite (pending_bufIs _ _ _ H), (pending_bufIs _ _ _ Hb), Hd. }
  destruct tl.
  - destruct (TransTdcUnPackAllTlvData maxLen _ _ b) as [[[[r0 fl] v] hs] b'] eqn:Eu.
    apply UnPackAllTlvData_safe in Eu as (H1 & H2 & H3 & H4); [|exact Hbok].
    destruct (negb (r0 =? SOFTBUS_OK) || fl); [intros [= _ <- <- <-]; apply Hstop; now apply putBuf_OK|].
    destruct (H4 eq_refl) as (Hh & Hd & _). destruct (Hsame b' H3 H2) as [Hb' Hp].
    destruct (TransTdcProcessInnerTlvData env n _ info v hs) as [[r1 st1] o1] eqn:Ep.
    intros [= <- <- <- <-]. eapply processTlv_safe in Ep as (G1 & G2 & G3); eauto; [|now apply putBuf_OK].
    rewrite Hp in G3. now split.
  - destruct (TransTdcUnPackAllData maxLen _ b) as [[r0 fl] b'] eqn:Eu.
    apply UnPackAllData_safe in Eu as (H1 & H2 & H3 & H4); [|exact Hbok].
    destruct (negb (r0 =? SOFTBUS_OK) || fl); [intros [= _ <- <- <-]; apply Hstop; now apply putBuf_OK|].
    destruct (H4 eq_refl) as (Hh & Hd & _). destruct (Hsame b' H3 H2) as [Hb' Hp]. rewrite <- H2 in Hd.
    destruct (TransTdcProcessInnerData env n _ info) as [[r1 st1] o1] eqn:Ep.
    intros [= <- <- <- <-]. eapply process_safe in Ep as (G1 & G2 & G3); eauto; [|now apply putBuf_OK].
    rewrite Hp in G3. now split.
Qed.

Lemma drain_total env tl info : quiet env -> forall fuel n st, bufsOK st -> (pending st (channelId info) < fuel)%nat ->
  exists r st' out, drain maxLen env tl fuel n st info = Some (r, st', out) /\ bufsOK st' /\ authentic info out.
Proof.
  intros Hq. induction fuel as [|fuel IH]; intros n st Hst Hf; [lia|]. cbn [drain].
  destruct (drainRound maxLen env tl n st info) as [[[r st1] out] more] eqn:Er.
  apply drainRound_safe in Er as (H1 & H2 & H3); [|exact Hq|exact Hst].
  destruct more; [|eauto 10]. specialize (H3 eq_refl).
  destruct (IH (S n) st1 H1 ltac:(lia)) as (r' & st' & out' & -> & H4 & H5).
  eexists _, _, _. split; [reflexivity|]. split; [exact H4|]. now apply Forall_app.
Qed.

Lemma update_OK lock st ch d r st' :
  bufsOK st -> TransInnerUpdateTdcDataBufWInfo lock st ch d = (r, st') -> bufsOK st'.
Proof.
  intros Hst. unfold TransInnerUpdateTdcDataBufWInfo.
  destruct (g_innerChannelDataBufList st) as [l|] eqn:El; [|now intros [= _ <-]].
  destruct (negb lock); [now intros [= _ <-]|]. destruct (findBuf ch l) as [b|] eqn:Ef; [|now intros [= _ <-]].
  assert (Hb : bufOK b)
    by (eapply (findBuf_OK ch st); [exact Hst|]; unfold bufIs, TransGetInnerDataBufNodeById; now rewrite El).
  destruct (Z.ltb_spec (s32 (bSize b - Z.of_nat (length (bData b)))) (Z.of_nat (length d))) as [|Hle];
    [now intros [= _ <-]|].
  destruct (negb (memcpy_s _ _)); intros [= _ <-]; [exact Hst|]. apply putBuf_OK; [|exact Hst].
  unfold bufOK, MAX_DATA_BUF, MAX_MALLOC_SIZE in *. cbn. rewrite length_app.
  rewrite s32_small in Hle by (unfold in_s32; lia). lia.
Qed.

(** C36: whatever bytes the peer sends, and whatever the locks, the allocator and
    the socket answer, the handler of a readable socket returns; it never puts
    more bytes into a receive buffer than the buffer has, never enlarges one
    beyond the configured maximum, and hands the listener of a session nothing
    that was not decrypted with that session's key. The listener may do anything
    but use the receive buffers. *)
Theorem TdcDataReceived_safe env st f :
  quiet env -> bufsOK st ->
  exists r st' out, TdcDataReceived maxLen env st f = Some (r, st', out) /\ bufsOK st' /\
    (out = [] \/ exists info, GetSessionInfoByFd true (inner st) f = (SOFTBUS_OK, Some info) /\ authentic info out).
Proof.
  intros Hq Hst. unfold TdcDataReceived.
  destruct (GetSessionInfoByFd (sesLock env) (inner st) f) as [r [info|]] eqn:Es; [|eauto 10].
  assert (Hses : GetSessionInfoByFd true (inner st) f = (SOFTBUS_OK, Some info)).
  { unfold GetSessionInfoByFd in *. destruct (g_sessionList (inner st)); [|discriminate].
    destruct (sesLock env); [|discriminate]. cbn [negb] in *. destruct (list_find _ _) as [[? ?]|]; [|discriminate].
    now injection Es as <- <-. }
  destruct (TransInnerGetTdcDataBufById _ st (channelId info) f) as [r1 len].
  destruct (negb (r1 =? SOFTBUS_OK)); [eauto 10|]. destruct (negb (SoftBusCalloc _ _)); [eauto 10|].
  destruct (TransTdcRecvFirstData maxLen _ _ len) as [r2 d]. destruct (negb (r2 =? SOFTBUS_OK)); [eauto 10|].
  destruct (TransInnerUpdateTdcDataBufWInfo (bufLock env 1) st (channelId info) d) as [r3 st1] eqn:Eu.
  pose proof (update_OK _ _ _ _ _ _ Hst Eu) as Hst1.
  destruct (negb (r3 =? SOFTBUS_OK)); [eauto 10|].
  assert (Hd : forall tl, exists r st' out, drain maxLen env tl (S (pending st1 (channelId info))) 0 st1 info = Some (r, st', out) /\
    bufsOK st' /\ authentic info out) by (intros tl; apply drain_total; auto).
  unfold TransInnerTdcProcAllTlvData, TransInnerTdcProcAllData, pending in *.
  destruct (Hd (supportTlv info)) as (r' & st' & out & Ed & H1 & H2). exists r', st', out.
  split; [|eauto]. rewrite <- Ed. now destruct (supportTlv info).
Qed.

End Safety.

End Tdc.

(** ** A concrete channel *)

Module TdcDemo.

Definition dec (_ : unit) (ct : list byte) : Z * list byte := (SOFTBUS_OK, drop 28 ct).

#[export] Instance demo_cipher : TdcCipher dec Demo.enc.
Proof.
  intros k sq m Hm. exists (replicate 28 Byte.x00 ++ m). split; [reflexivity|]. split; [reflexivity|].
  rewrite length_app, length_replicate. unfold OVERHEAD_LEN, GCM_IV_LEN, TAG_LEN. lia.
Qed.

Definition session (c f : Z) : @TransInnerSessionInfo unit :=
  mkSession true true tt c f CHANNEL_TYPE_TCP_DIRECT true.
Definition sender : @Tdc unit := mkTdc (mkInner (Some [session 3 8]) (Some []) 0) (Some []) 0.
Definition receiver : @Tdc unit := mkTdc (mkInner (Some [session 5 9]) (Some []) 0) (Some []) 0.
Definition env : @TdcEnv unit :=
  mkTdcEnv (fun _ => true) true (fun _ _ => true) (fun _ => (0, [])) 0 Demo.zeroHead
    (fun _ _ st => (SOFTBUS_OK, st)).
Definition msgs : list (list byte) := [replicate 5000 Byte.x41; [Byte.x42]; replicate 70 Byte.x43].

Lemma tdc_env_ok : tdcEnvOK env.
Proof. unfold tdcEnvOK. repeat split. intros c m st. exists st. auto. Qed.

(** Bytes that are no packet. *)
Definition garbage (tail : list byte) : @TdcEnv unit :=
  mkTdcEnv (fun _ => true) true (fun _ _ => true) (fun _ => (8 + Z.of_nat (length tail), replicate 8 Byte.xff ++ tail)) 0 Demo.zeroHead
    (fun _ _ st => (SOFTBUS_OK, st)).
Definition waiting : @Tdc unit :=
  mkTdc (mkInner (Some [session 5 9]) (Some []) 0) (Some [mkBuf 5 9 4096 []]) 0.

End TdcDemo.

Lemma tdc_stream_transfer_witness :
  exists snd' stream rcv1,
    sendAll Demo.app Demo.enc (fun _ _ => true) (fun l => Z.of_nat (length l)) 0 TdcDemo.sender 3 TdcDemo.msgs =
      ([SOFTBUS_OK; SOFTBUS_OK; SOFTBUS_OK], snd', stream) /\
    TransInnerAddDataBufNode (fun _ => true) (fun _ => true) true TdcDemo.receiver 5 9 CHANNEL_TYPE_TCP_DIRECT =
      (SOFTBUS_OK, rcv1) /\
    (forall ks, Forall (lt 0) ks -> (length stream <= length ks)%nat ->
     exists rs rcv', serve TdcDemo.dec 65536 (TdcDemo.session 5 9) (fun _ => TdcDemo.env) 0 ks rcv1 9 stream =
       Some (rs, rcv', (fun m => (5, m)) <$> TdcDemo.msgs, []) /\ Forall fine rs).
Proof.
  apply (tdc_stream_transfer TdcDemo.dec Demo.app Demo.enc (HC := TdcDemo.demo_cipher) 65536 (fun _ _ => true)
           (fun l => Z.of_nat (length l)) 0 TdcDemo.sender 3 (TdcDemo.session 3 8) (fun _ => TdcDemo.env)
           (fun _ => true) (fun _ => true) TdcDemo.receiver [] 9 (TdcDemo.session 5 9)); try reflexivity.
  - intros ?. reflexivity.
  - exists [TdcDemo.session 3 8]. split; reflexivity.
  - intros _. exact TdcDemo.tdc_env_ok.
  - unfold MAX_MALLOC_SIZE. lia.
  - unfold TdcDemo.msgs, sendable, DATA_BUF_MAX.
    repeat (constructor; [rewrite ?length_replicate; cbn [length]; lia|]). constructor.
Defined.

Lemma TdcDataReceived_safe_witness :
  exists r st' out, TdcDataReceived TdcDemo.dec 65536 (TdcDemo.garbage []) TdcDemo.waiting 9 = Some (r, st', out) /\
    bufsOK 65536 st' /\
    (out = [] \/ exists info, GetSessionInfoByFd true (inner TdcDemo.waiting) 9 = (SOFTBUS_OK, Some info) /\
                              authentic TdcDemo.dec info out).
Proof.
  apply (TdcDataReceived_safe TdcDemo.dec 65536 ltac:(unfold MAX_MALLOC_SIZE; lia) (TdcDemo.garbage [])).
  - intros ch m st. reflexivity.
  - intros l [= <-]. repeat constructor; cbn; unfold MAX_DATA_BUF; lia.
Defined.

End InnerTdc.
