(* ===== verification/CommonList.v ===== *)
(** * Intrusive lists

    Model of core/common/include/common_list.h, the doubly linked lists that the
    whole program uses: a node is embedded in its element, an empty list is a
    node that points to itself.  Memory is a finite map from addresses to nodes;
    address 0 is NULL, and an operation that follows a pointer to an address
    outside the map has no result.  [CommonList.list_ops_refine_sequences] is the
    reason why the other files use sequences for such lists. *)

From S2P Require Import Prelude ErrorCode.
From stdpp Require Import list gmap.
#[local] Open Scope nat_scope.

Module CommonList.

Record ListNode := mkListNode {
  prev : nat;
  next : nat
}.

Abbreviation Heap := (gmap nat ListNode).

(** [p->next = v] and [p->prev = v]. *)
Definition setNext (h : Heap) (p v : nat) : option Heap :=
  n ← h !! p; Some (<[p := mkListNode (prev n) v]> h).
Definition setPrev (h : Heap) (p v : nat) : option Heap :=
  n ← h !! p; Some (<[p := mkListNode v (next n)]> h).

(** ** Operations *)

Definition ListInit (h : Heap) (list : nat) : option Heap :=
  h ← setNext h list list; setPrev h list list.

Definition ListAdd (h : Heap) (list node : nat) : option Heap :=
  l ← h !! list;
  h ← setNext h node (next l);
  h ← setPrev h node list;
  l ← h !! list;
  h ← setPrev h (next l) node;
  setNext h list node.

Definition ListTailInsert (h : Heap) (list node : nat) : option Heap :=
  l ← h !! list; ListAdd h (prev l) node.

Definition ListNodeInsert (h : Heap) (list node : nat) : option Heap := ListAdd h list node.

Definition ListDelete (h : Heap) (node : nat) : option Heap :=
  n ← h !! node;
  h ← (if negb (next n =? 0) && negb (prev n =? 0) then
         h ← setPrev h (next n) (prev n);
         n ← h !! node;
         setNext h (prev n) (next n)
       else Some h);
  h ← setNext h node node;
  setPrev h node node.

Definition IsListEmpty (h : Heap) (node : nat) : option bool :=
  n ← h !! node; Some (next n =? node).

Definition ListDel (h : Heap) (prevNode nextNode : nat) : option Heap :=
  h ← setPrev h nextNode prevNode; setNext h prevNode nextNode.

Definition ListDelInit (h : Heap) (list : nat) : option Heap :=
  l ← h !! list; h ← ListDel h (prev l) (next l); ListInit h list.

(** LIST_FOR_EACH: the nodes that the loop visits; [None] without fuel. *)
Fixpoint forEachFrom (fuel : nat) (h : Heap) (head item : nat) : option (list nat) :=
  match fuel with
  | O => None
  | S fuel' =>
    if item =? head then Some []
    else n ← h !! item; l ← forEachFrom fuel' h head (next n); Some (item :: l)
  end.

Definition LIST_FOR_EACH (fuel : nat) (h : Heap) (head : nat) : option (list nat) :=
  l ← h !! head; forEachFrom fuel h head (next l).

(** ** The pointers after an operation *)

Definition nxt (h : Heap) (p : nat) : option nat := next <$> h !! p.
Definition prv (h : Heap) (p : nat) : option nat := prev <$> h !! p.

(** The addresses stay allocated, the pointers are the given ones. *)
Definition links (h : Heap) (f g : nat -> option nat) : Prop := forall p, nxt h p = f p /\ prv h p = g p.

Definition upd (f : nat -> option nat) (p v : nat) : nat -> option nat :=
  fun q => if q =? p then Some v else f q.

Lemma nxt_prv_Some h p : is_Some (nxt h p) <-> is_Some (prv h p).
Proof. unfold nxt, prv. destruct (h !! p); cbn; split; intros [? ?]; eauto; discriminate. Qed.

Lemma setNext_links h f g p v : links h f g -> is_Some (f p) -> exists h', setNext h p v = Some h' /\ links h' (upd f p v) g.
Proof.
  intros H [w Hw]. destruct (H p) as [Hn _]. unfold nxt in Hn. unfold setNext.
  destruct (h !! p) as [n|] eqn:E; [|cbn in Hn; congruence]. eexists. split; [reflexivity|]. intros q.
  destruct (H q) as [Hq1 Hq2]. unfold nxt, prv, upd in *. destruct (Nat.eqb_spec q p) as [->|Hne].
  - rewrite lookup_insert_eq. rewrite E in Hq2. now split.
  - now rewrite lookup_insert_ne by congruence.
Qed.

Lemma setPrev_links h f g p v : links h f g -> is_Some (g p) -> exists h', setPrev h p v = Some h' /\ links h' f (upd g p v).
Proof.
  intros H [w Hw]. destruct (H p) as [_ Hn]. unfold prv in Hn. unfold setPrev.
  destruct (h !! p) as [n|] eqn:E; [|cbn in Hn; congruence]. eexists. split; [reflexivity|]. intros q.
  destruct (H q) as [Hq1 Hq2]. unfold nxt, prv, upd in *. destruct (Nat.eqb_spec q p) as [->|Hne].
  - rewrite lookup_insert_eq. rewrite E in Hq1. now split.
  - now rewrite lookup_insert_ne by congruence.
Qed.

Lemma links_self h : links h (nxt h) (prv h).
Proof. now split. Qed.

Lemma lookup_links h f g p : links h f g -> forall x y, f p = Some x -> g p = Some y -> h !! p = Some (mkListNode y x).
Proof.
  intros H x y Hx Hy. destruct (H p) as [H1 H2]. unfold nxt, prv in *. destruct (h !! p) as [[a b]|]; cbn in *; congruence.
Qed.

Lemma upd_eq f p v : upd f p v p = Some v.
Proof. unfold upd. now rewrite Nat.eqb_refl. Qed.

Lemma upd_ne f p v q : q <> p -> upd f p v q = f q.
Proof. unfold upd. destruct (Nat.eqb_spec q p); [contradiction|reflexivity]. Qed.

(** Evaluates updates at addresses that are known to be equal or different. *)
Ltac upd := repeat first [rewrite upd_eq | rewrite upd_ne by congruence].

Lemma upd_Some f p v q : is_Some (f q) -> is_Some (upd f p v q).
Proof. unfold upd. destruct (q =? p); eauto. Qed.

Lemma ListAdd_links h lst node nx : nxt h lst = Some nx -> is_Some (h !! node) -> is_Some (h !! nx) -> node <> lst ->
  exists h', ListAdd h lst node = Some h' /\
    links h' (upd (upd (nxt h) node nx) lst node) (upd (upd (prv h) node lst) nx node).
Proof.
  intros Hn [nd Hnode] [nn Hnx] Hne. unfold ListAdd.
  assert (Hl : exists ln, h !! lst = Some ln /\ next ln = nx)
    by (unfold nxt in Hn; destruct (h !! lst) as [ln|]; [injection Hn; eauto|discriminate]).
  destruct Hl as (ln & Hlst & Hnext). rewrite Hlst. cbn. rewrite Hnext.
  destruct (setNext_links h _ _ node nx (links_self h)) as (h1 & -> & L1); [unfold nxt; rewrite Hnode; eauto|]. cbn.
  destruct (setPrev_links h1 _ _ node lst L1) as (h2 & -> & L2); [unfold prv; rewrite Hnode; eauto|]. cbn.
  rewrite (lookup_links h2 _ _ lst L2 nx (prev ln)); [|now rewrite upd_ne by congruence|].
  2: { rewrite upd_ne by congruence. unfold prv. now rewrite Hlst. }
  cbn. destruct (setPrev_links h2 _ _ nx node L2) as (h3 & -> & L3); [apply upd_Some; unfold prv; rewrite Hnx; eauto|].
  cbn. destruct (setNext_links h3 _ _ lst node L3) as (h4 & -> & L4); [apply upd_Some; unfold nxt; rewrite Hlst; eauto|].
  eauto.
Qed.

Lemma ListDelete_links h node nx pv : nxt h node = Some nx -> prv h node = Some pv -> nx <> 0 -> pv <> 0 ->
  is_Some (h !! nx) -> is_Some (h !! pv) ->
  exists h', ListDelete h node = Some h' /\
    links h' (upd (upd (nxt h) pv nx) node node) (upd (upd (prv h) nx pv) node node).
Proof.
  intros Hn Hp Hnz Hpz [nn Hnx] [np Hpv]. unfold ListDelete.
  rewrite (lookup_links h _ _ node (links_self h) nx pv Hn Hp). cbn.
  destruct (Nat.eqb_spec nx 0); [contradiction|]. destruct (Nat.eqb_spec pv 0); [contradiction|]. cbn.
  destruct (setPrev_links h _ _ nx pv (links_self h)) as (h1 & -> & L1); [unfold prv; rewrite Hnx; eauto|]. cbn.
  assert (Hn1 : h1 !! node = Some (mkListNode pv nx)).
  { apply (lookup_links h1 _ _ node L1); [exact Hn|]. unfold upd. now destruct (node =? nx). }
  rewrite Hn1. cbn.
  destruct (setNext_links h1 _ _ pv nx L1) as (h2 & -> & L2); [unfold nxt; rewrite Hpv; eauto|]. cbn.
  destruct (setNext_links h2 _ _ node node L2) as (h3 & -> & L3); [apply upd_Some; eauto|]. cbn.
  destruct (setPrev_links h3 _ _ node node L3) as (h4 & -> & L4); [apply upd_Some; eauto|]. eauto.
Qed.

(** ** Rings *)

(** From [x] through [l] to [z], with the pointers back. *)
Fixpoint linked (h : Heap) (x : nat) (l : list nat) (z : nat) : Prop :=
  match l with
  | [] => nxt h x = Some z /\ prv h z = Some x
  | y :: l' => nxt h x = Some y /\ prv h y = Some x /\ linked h y l' z
  end.

Lemma linked_app h x l1 y l2 z : linked h x (l1 ++ y :: l2) z <-> linked h x l1 y /\ linked h y l2 z.
Proof.
  revert x. induction l1 as [|a l1 IH]; intros x; cbn; [tauto|]. rewrite IH. tauto.
Qed.

Lemma linked_rotate h x l1 y l2 : linked h x (l1 ++ y :: l2) x <-> linked h y (l2 ++ x :: l1) y.
Proof. rewrite !linked_app. tauto. Qed.

(** Only the pointers on the way matter. *)
Lemma linked_frame h h' x l z : (forall p, p ∈ x :: l -> nxt h' p = nxt h p) ->
  (forall p, p ∈ l ++ [z] -> prv h' p = prv h p) -> linked h x l z -> linked h' x l z.
Proof.
  revert x. induction l as [|y l IH]; intros x Hn Hp; cbn.
  - rewrite Hn, Hp by (constructor); auto.
  - intros (H1 & H2 & H3). rewrite Hn, Hp by (constructor). split; [exact H1|]. split; [exact H2|].
    apply IH; [|..]; [intros p Hx; apply Hn; now right|intros p Hx; apply Hp; now right|exact H3].
Qed.

Lemma linked_alloc h x l z : linked h x l z -> forall p, p ∈ x :: l ++ [z] -> is_Some (h !! p).
Proof.
  revert x. induction l as [|y l IH]; intros x; cbn.
  - intros [H1 H2] p Hp. unfold nxt, prv in *. apply elem_of_cons in Hp as [->|Hp];
      [|apply elem_of_cons in Hp as [->|Hp]; [|now apply elem_of_nil in Hp]].
    + destruct (h !! x); [eauto|discriminate].
    + destruct (h !! z); [eauto|discriminate].
  - intros (H1 & H2 & H3) p [->|Hp]%elem_of_cons; [|eapply IH; eauto].
    unfold nxt in H1. destruct (h !! x); [eauto|discriminate].
Qed.

(** The pointers outside [ns] are as before. *)
Definition outside (h h' : Heap) (ns : list nat) : Prop :=
  forall q, q ∉ ns -> nxt h' q = nxt h q /\ prv h' q = prv h q.

Lemma add_after h p l node : NoDup (p :: l) -> linked h p l p -> node ∉ p :: l -> is_Some (h !! node) ->
  exists h', ListAdd h p node = Some h' /\ linked h' p (node :: l) p /\ outside h h' (node :: p :: l).
Proof.
  intros Hd Hl Hnode Hal. apply NoDup_cons in Hd as [Hp Hd]. apply not_elem_of_cons in Hnode as [Hnp Hnl].
  pose proof (linked_alloc h p l p Hl) as Ha. destruct l as [|y l]; cbn in Hl.
  - destruct Hl as [Hn _]. destruct (ListAdd_links h p node p) as (h' & E & L); auto; [apply Ha; now left|].
    exists h'. split; [exact E|]. split.
    + cbn. destruct (L p) as [-> ->], (L node) as [-> ->]. upd. auto.
    + intros q Hq. apply not_elem_of_cons in Hq as [H1 Hq]. apply not_elem_of_cons in Hq as [H2 _].
      destruct (L q) as [-> ->]. now upd.
  - destruct Hl as (Hn & _ & Hrest). apply not_elem_of_cons in Hp as [Hpy Hpl]. apply not_elem_of_cons in Hnl as [Hny Hnl].
    apply NoDup_cons in Hd as [Hy Hd].
    destruct (ListAdd_links h p node y) as (h' & E & L); auto; [apply Ha; right; now left|].
    exists h'. split; [exact E|]. split.
    + cbn. destruct (L p) as [-> _], (L node) as [-> ->], (L y) as [_ ->].
      upd. repeat (split; [reflexivity|]).
      apply (linked_frame h); [| |exact Hrest].
      * intros q Hq. destruct (L q) as [-> _]. apply elem_of_cons in Hq as [->|Hq]; now upd.
      * intros q Hq. destruct (L q) as [_ ->].
        apply elem_of_app in Hq as [Hq|Hq%list_elem_of_singleton]; now upd.
    + intros q Hq. repeat (apply not_elem_of_cons in Hq as [? Hq]). destruct (L q) as [-> ->].
      now upd.
Qed.

Lemma delete_after h p x l : NoDup (p :: x :: l) -> 0 ∉ p :: x :: l -> linked h p (x :: l) p ->
  exists h', ListDelete h x = Some h' /\ linked h' p l p /\ linked h' x [] x /\ outside h h' (p :: x :: l).
Proof.
  intros Hd H0 Hl. pose proof (linked_alloc h p (x :: l) p Hl) as Ha.
  apply NoDup_cons in Hd as [Hp Hd]. apply not_elem_of_cons in Hp as [Hpx Hpl]. apply NoDup_cons in Hd as [Hx Hd].
  apply not_elem_of_cons in H0 as [Hp0 H0]. apply not_elem_of_cons in H0 as [_ H0].
  destruct Hl as (Hn & Hpr & Hl). destruct l as [|y l].
  - destruct Hl as [Hnx _]. destruct (ListDelete_links h x p p) as (h' & E & L); auto; [apply Ha; now left..|].
    exists h'. split; [exact E|]. cbn. destruct (L p) as [-> ->], (L x) as [-> ->].
    upd. repeat (split; [now auto|]).
    intros q Hq. repeat (apply not_elem_of_cons in Hq as [? Hq]). destruct (L q) as [-> ->].
    now upd.
  - destruct Hl as (Hnx & _ & Hl). apply not_elem_of_cons in Hpl as [Hpy Hpl]. apply not_elem_of_cons in Hx as [Hxy Hx].
    apply NoDup_cons in Hd as [Hy Hd]. apply not_elem_of_cons in H0 as [Hy0 _].
    destruct (ListDelete_links h x y p) as (h' & E & L); auto; [apply Ha; right; right; now left|apply Ha; now left|].
    exists h'. split; [exact E|]. split; [|split].
    + cbn. destruct (L p) as [-> _], (L y) as [_ ->]. upd.
      repeat (split; [reflexivity|]). apply (linked_frame h); [| |exact Hl].
      * intros q Hq. destruct (L q) as [-> _]. apply elem_of_cons in Hq as [->|Hq]; now upd.
      * intros q Hq. destruct (L q) as [_ ->].
        apply elem_of_app in Hq as [Hq|Hq%list_elem_of_singleton]; now upd.
    + cbn. destruct (L x) as [-> ->]. now upd.
    + intros q Hq. repeat (apply not_elem_of_cons in Hq as [? Hq]). destruct (L q) as [-> ->].
      now upd.
Qed.

(** ** Memory with several lists *)

(** The lists, each as its head and its elements. *)
Definition Lists : Type := list (nat * list nat).

Definition nodesOf (ls : Lists) : list nat := concat ((fun e => e.1 :: e.2) <$> ls).

Record repr (h : Heap) (ls : Lists) : Prop := {
  repr_disjoint : NoDup (nodesOf ls);
  repr_nonnull : 0 ∉ nodesOf ls;
  repr_linked : Forall (fun e => linked h e.1 e.2 e.1) ls
}.

(** A node that exists and is in no list. *)
Definition free (h : Heap) (ls : Lists) (node : nat) : Prop :=
  is_Some (h !! node) /\ node <> 0 /\ node ∉ nodesOf ls.

Lemma nodesOf_cons head l ls : nodesOf ((head, l) :: ls) = (head :: l) ++ nodesOf ls.
Proof. reflexivity. Qed.

Lemma elem_of_nodesOf e ls q : e ∈ ls -> q ∈ e.1 :: e.2 -> q ∈ nodesOf ls.
Proof.
  intros He Hq. unfold nodesOf. apply list_elem_of_In, in_concat. exists (e.1 :: e.2).
  split; [|now apply list_elem_of_In]. apply list_elem_of_In, list_elem_of_fmap. eauto.
Qed.

(** An operation on the first list keeps the others. *)
Lemma repr_first h h' head l l' ls ns :
  repr h ((head, l) :: ls) -> linked h' head l' head -> NoDup (head :: l') -> 0 ∉ head :: l' ->
  (forall q, q ∈ head :: l' \/ q ∈ ns -> q ∉ nodesOf ls) -> outside h h' ns -> repr h' ((head, l') :: ls).
Proof.
  intros [H1 H2 H3] Hl Hd H0 Hdis Ho. rewrite nodesOf_cons in *. apply NoDup_app in H1 as (_ & _ & H1).
  apply Forall_cons_1 in H3 as [_ H3]. split.
  - rewrite nodesOf_cons. apply NoDup_app. eauto.
  - rewrite nodesOf_cons, elem_of_app in *. tauto.
  - constructor; [exact Hl|]. rewrite Forall_forall in *. intros e He.
    assert (Hsame : forall q, q ∈ e.1 :: e.2 -> nxt h' q = nxt h q /\ prv h' q = prv h q).
    { intros q Hq. apply Ho. intros Hn. exact (Hdis q (or_intror Hn) (elem_of_nodesOf e ls q He Hq)). }
    apply (linked_frame h); [intros q Hq; now apply Hsame| |now apply H3].
    intros q Hq. apply Hsame. rewrite elem_of_app, list_elem_of_singleton in Hq. rewrite elem_of_cons. tauto.
Qed.

(** Inserting [node] somewhere in the first list. *)
Lemma repr_insert h h' head l l1 l2 ls node ns : repr h ((head, l) :: ls) -> free h ((head, l) :: ls) node ->
  l = l1 ++ l2 -> linked h' head (l1 ++ node :: l2) head -> ns ≡ₚ node :: head :: l -> outside h h' ns ->
  repr h' ((head, l1 ++ node :: l2) :: ls).
Proof.
  intros Hr (_ & Hn0 & Hnode) -> Hl Hns Ho. pose proof Hr as [H1 H2 _]. rewrite nodesOf_cons in *.
  rewrite elem_of_app in H2, Hnode. apply NoDup_app in H1 as (H1 & Hdis & _).
  assert (Hp : head :: l1 ++ node :: l2 ≡ₚ node :: head :: l1 ++ l2) by solve_Permutation.
  apply (repr_first h h' head (l1 ++ l2) _ ls ns Hr Hl); [rewrite Hp; constructor; tauto| | |exact Ho].
  - rewrite Hp, elem_of_cons. intuition.
  - intros q Hq. rewrite Hp, Hns in Hq. assert (Hq' : q ∈ node :: head :: l1 ++ l2) by tauto.
    apply elem_of_cons in Hq' as [->|Hq']; [tauto|]. now apply Hdis.
Qed.

(** The predecessor of the end. *)
Lemma linked_prv h x l z : linked h x l z -> exists p l', x :: l = l' ++ [p] /\ prv h z = Some p.
Proof.
  revert x. induction l as [|y l IH]; intros x; cbn.
  - intros [_ H]. now exists x, [].
  - intros (_ & _ & H). destruct (IH y H) as (p & l' & E & Hp). exists p, (x :: l'). cbn. now rewrite E.
Qed.

Lemma tail_insert h x l node : NoDup (x :: l) -> linked h x l x -> node ∉ x :: l -> is_Some (h !! node) ->
  exists h', ListTailInsert h x node = Some h' /\ linked h' x (l ++ [node]) x /\ outside h h' (node :: x :: l).
Proof.
  intros Hd Hl Hnode Hal. destruct (linked_prv h x l x Hl) as (p & l' & E & Hp). unfold ListTailInsert.
  destruct (linked_alloc h x l x Hl x ltac:(now left)) as [n Hn]. unfold prv in Hp. rewrite Hn in Hp |- *.
  cbn in Hp |- *. injection Hp as ->. destruct l' as [|x' l'].
  - injection E as <- ->. now apply add_after.
  - injection E as <- ->. assert (Hperm : p :: x :: l' ≡ₚ x :: l' ++ [p]) by solve_Permutation.
    destruct (add_after h p (x :: l') node) as (h' & Ea & Hl' & Ho); [now rewrite Hperm| |now rewrite Hperm|exact Hal|].
    { apply (linked_rotate h x l' p []) in Hl. exact Hl. }
    exists h'. split; [exact Ea|]. split; [rewrite <- app_assoc; now apply (linked_rotate h' x l' p [node])|].
    intros q Hq. apply Ho. now rewrite Hperm.
Qed.

(** Before an element: the ring seen from there. *)
Lemma insert_before h head l1 x l2 node : NoDup (head :: l1 ++ x :: l2) -> linked h head (l1 ++ x :: l2) head ->
  node ∉ head :: l1 ++ x :: l2 -> is_Some (h !! node) ->
  exists h', ListTailInsert h x node = Some h' /\ linked h' head (l1 ++ node :: x :: l2) head /\
    outside h h' (node :: head :: l1 ++ x :: l2).
Proof.
  intros Hd Hl Hnode Hal. assert (Hp : x :: l2 ++ head :: l1 ≡ₚ head :: l1 ++ x :: l2) by solve_Permutation.
  destruct (tail_insert h x (l2 ++ head :: l1) node) as (h' & E & Hl' & Ho);
    [now rewrite Hp|now apply linked_rotate|now rewrite Hp|exact Hal|].
  exists h'. split; [exact E|]. split; [|intros q Hq; apply Ho; now rewrite Hp].
  rewrite <- app_assoc in Hl'. cbn in Hl'. apply linked_rotate in Hl'. now rewrite <- app_assoc in Hl'.
Qed.

Lemma delete_anywhere h head l1 x l2 : NoDup (head :: l1 ++ x :: l2) -> 0 ∉ head :: l1 ++ x :: l2 ->
  linked h head (l1 ++ x :: l2) head ->
  exists h', ListDelete h x = Some h' /\ linked h' head (l1 ++ l2) head /\ linked h' x [] x /\
    outside h h' (head :: l1 ++ x :: l2).
Proof.
  intros Hd H0 Hl. destruct (decide (l1 = [])) as [->|Hne]; [now apply delete_after|].
  destruct (exists_last Hne) as (l1' & p & ->). rewrite <- !app_assoc in *. cbn [app] in *.
  assert (Hp : p :: x :: l2 ++ head :: l1' ≡ₚ head :: l1' ++ p :: x :: l2) by solve_Permutation.
  destruct (delete_after h p x (l2 ++ head :: l1')) as (h' & E & Hl' & Hx & Ho);
    [now rewrite Hp|now rewrite Hp|now apply (linked_rotate h head l1' p (x :: l2))|].
  exists h'. split; [exact E|]. split; [now apply linked_rotate|]. split; [exact Hx|].
  intros q Hq. apply Ho. now rewrite Hp.
Qed.

Lemma forEach_linked h head l x fuel : linked h x l head -> head ∉ l -> (length l < fuel)%nat ->
  (n ← h !! x; forEachFrom fuel h head (next n)) = Some l.
Proof.
  revert x fuel. induction l as [|y l IH]; intros x fuel Hl Hh Hf; (destruct fuel as [|fuel]; [cbn in Hf; lia|]).
  - destruct Hl as [Hn _]. unfold nxt in Hn. destruct (h !! x) as [n|]; [|discriminate]. injection Hn as Hn.
    cbn. now rewrite Hn, Nat.eqb_refl.
  - destruct Hl as (Hn & _ & Hl). unfold nxt in Hn. destruct (h !! x) as [n|]; [|discriminate]. injection Hn as Hn.
    cbn -[lookup]. rewrite Hn. apply not_elem_of_cons in Hh as [Hy Hh]. destruct (Nat.eqb_spec y head); [congruence|].
    cbn in Hf. specialize (IH y fuel Hl Hh ltac:(lia)). destruct (h !! y) as [m|]; [|discriminate]. cbn in IH |- *.
    now rewrite IH.
Qed.

(** C22: intrusive lists are sequences.  In memory that holds any number of
    disjoint lists, every operation of common_list.h on one of them does to its
    sequence what its name says and leaves the others as they are: adding at the
    front, at the end and before an element, deleting, which leaves the removed
    node ready to be inserted again, the test for emptiness, and the loop over the
    list, which ends after visiting each element once, in order. *)
Theorem list_ops_refine_sequences h head l ls :
  repr h ((head, l) :: ls) ->
  (forall node, free h ((head, l) :: ls) node ->
     (exists h', ListAdd h head node = Some h' /\ repr h' ((head, node :: l) :: ls)) /\
     (exists h', ListTailInsert h head node = Some h' /\ repr h' ((head, l ++ [node]) :: ls)) /\
     (forall l1 x l2, l = l1 ++ x :: l2 ->
        exists h', ListTailInsert h x node = Some h' /\ repr h' ((head, l1 ++ node :: x :: l2) :: ls))) /\
  (forall l1 x l2, l = l1 ++ x :: l2 ->
     exists h', ListDelete h x = Some h' /\ repr h' ((head, l1 ++ l2) :: ls) /\
       free h' ((head, l1 ++ l2) :: ls) x /\ IsListEmpty h' x = Some true) /\
  IsListEmpty h head = Some (bool_decide (l = [])) /\
  (forall fuel, (length l < fuel)%nat -> LIST_FOR_EACH fuel h head = Some l).
Proof.
  intros Hr. pose proof Hr as [Hd H0 Hl]. rewrite nodesOf_cons in Hd, H0. rewrite elem_of_app in H0.
  apply NoDup_app in Hd as (Hd & Hdis & _). apply Forall_cons_1 in Hl as [Hl _]. cbn [fst snd] in Hl.
  split; [|split; [|split]].
  - intros node Hf. pose proof Hf as (Hal & Hn0 & Hnode). rewrite nodesOf_cons, elem_of_app in Hnode.
    split; [|split].
    + destruct (add_after h head l node) as (h' & E & Hl' & Ho); auto. exists h'. split; [exact E|].
      eapply (repr_insert h h' head l [] l); eauto.
    + destruct (tail_insert h head l node) as (h' & E & Hl' & Ho); auto. exists h'. split; [exact E|].
      eapply (repr_insert h h' head l l []); eauto. now rewrite app_nil_r.
    + intros l1 x l2 ->. destruct (insert_before h head l1 x l2 node) as (h' & E & Hl' & Ho); auto.
      exists h'. split; [exact E|]. eapply (repr_insert h h' head _ l1 (x :: l2)); eauto.
  - intros l1 x l2 ->. destruct (delete_anywhere h head l1 x l2) as (h' & E & Hl' & Hx & Ho); auto.
    exists h'. split; [exact E|].
    assert (Hp : head :: l1 ++ x :: l2 ≡ₚ x :: head :: l1 ++ l2) by solve_Permutation.
    rewrite Hp in Hd, H0. apply NoDup_cons in Hd as [Hxn Hd]. rewrite elem_of_cons in H0.
    assert (Hr' : repr h' ((head, l1 ++ l2) :: ls)).
    { apply (repr_first h h' head _ _ ls (head :: l1 ++ x :: l2) Hr Hl' Hd); [tauto| |exact Ho].
      intros q Hq. apply Hdis. destruct Hq as [Hq|Hq]; [rewrite Hp; now right|exact Hq]. }
    split; [exact Hr'|]. destruct Hx as [Hx1 Hx2]. unfold nxt in Hx1. split.
    + split; [destruct (h' !! x); [eauto|discriminate]|]. split; [intros ->; tauto|].
      rewrite nodesOf_cons, elem_of_app. intros [?|Hin]; [contradiction|]. apply (Hdis x); [rewrite Hp; now left|exact Hin].
    + unfold IsListEmpty. destruct (h' !! x) as [n|]; [|discriminate]. injection Hx1 as Hx1. cbn. now rewrite Hx1, Nat.eqb_refl.
  - unfold IsListEmpty. destruct l as [|y l]; cbn in Hl; destruct Hl as [Hn _]; unfold nxt in Hn;
      (destruct (h !! head) as [n|]; [|discriminate]); injection Hn as Hn; cbn; rewrite Hn.
    + now rewrite Nat.eqb_refl.
    + apply NoDup_cons in Hd as [Hh _].
      destruct (Nat.eqb_spec y head) as [->|]; [|reflexivity]. exfalso. apply Hh. now left.
  - intros fuel Hf. apply NoDup_cons in Hd as [Hh _]. now apply forEach_linked.
Qed.

(** Two lists, [2; 3] with head 1 and an empty one with head 10, and a node 4. *)
Definition sampleHeap : Heap :=
  list_to_map [(1, mkListNode 3 2); (2, mkListNode 1 3); (3, mkListNode 2 1); (4, mkListNode 0 0);
               (10, mkListNode 10 10)].

Lemma list_ops_refine_sequences_witness :
  (exists h', ListTailInsert sampleHeap 3 4 = Some h' /\ repr h' [(1, [2; 4; 3]); (10, [])]) /\
  (exists h', ListDelete sampleHeap 2 = Some h' /\ repr h' [(1, [3]); (10, [])]) /\
  LIST_FOR_EACH 5 sampleHeap 1 = Some [2; 3].
Proof.
  assert (Hr : repr sampleHeap [(1, [2; 3]); (10, [])]).
  { split; [apply (bool_decide_unpack _); vm_compute; exact I|apply (bool_decide_unpack _); vm_compute; exact I|].
    repeat constructor. }
  assert (Hf : free sampleHeap [(1, [2; 3]); (10, [])] 4).
  { split; [eexists; reflexivity|]. split; [discriminate|]. apply (bool_decide_unpack _). vm_compute. exact I. }
  destruct (list_ops_refine_sequences sampleHeap 1 [2; 3] [(10, [])] Hr) as (Hins & Hdel & _ & Hall).
  split; [exact (proj2 (proj2 (Hins 4 Hf)) [2] 3 [] eq_refl)|].
  split; [destruct (Hdel [] 2 [3] eq_refl) as (h' & E & Hr' & _); exists h'; auto|].
  apply Hall. cbn. lia.
Defined.

End CommonList.
