(* ===== verification/Looper.v ===== *)
(** * Loopers

    Model of core/common/message_handler/message_handler.c: a looper is a thread
    that handles the messages of a queue ordered by their due times.  Its
    functions run on several threads; one critical section of the context's lock
    is one step of [exec], and between the steps anything else may happen.
    A message has an identity [addr] (its address), so that it can be seen when
    the code frees it.  [Obj] is what a message carries. *)

From S2P Require Import Prelude ErrorCode Bytes.
From stdpp Require Import list sets sorting.
#[local] Open Scope Z_scope.

Module Looper.

Definition LOOP_NAME_LEN : Z := 16.
Definition TIME_THOUSANDS_MULTIPLIER : Z := 1000.
Definition MAX_LOOPER_CNT : Z := 30.
Definition sizeof_SoftBusMessageNode : Z := 24.
Definition sizeof_SoftBusLooper : Z := 56.
Definition sizeof_SoftBusLooperContext : Z := 96.

Section Messages.
Context {Obj : Type}.

Record SoftBusMessage := mkMessage {
  what : Z;
  arg1 : Z;
  arg2 : Z;
  time : Z;
  obj : Obj;
  handler : option nat;
  addr : nat
}.

Definition setTime (m : SoftBusMessage) (t : Z) : SoftBusMessage :=
  mkMessage (what m) (arg1 m) (arg2 m) t (obj m) (handler m) (addr m).

Record SoftBusLooperContext := mkContext {
  stop : bool;
  running : bool;
  currentMsg : option SoftBusMessage;
  msgSize : Z;
  msgHead : list SoftBusMessage
}.

Record SoftBusLooper := mkLooper {
  context : option SoftBusLooperContext;
  dumpable : bool
}.

Definition UptimeMicros (sec usec : Z) : Z :=
  s64 (sec * TIME_THOUSANDS_MULTIPLIER * TIME_THOUSANDS_MULTIPLIER + usec).

(** ** Posting *)

Definition PostMessageAtTimeParamVerify (lock : bool) (looper : option SoftBusLooper)
    (msgPost : SoftBusMessage) : Z :=
  match handler msgPost, looper ≫= context with
  | None, _ => SOFTBUS_INVALID_PARAM
  | _, None => SOFTBUS_INVALID_PARAM
  | Some _, Some _ => if negb lock then SOFTBUS_LOCK_ERR else SOFTBUS_OK
  end.

(** In front of the first message that is due later. *)
Fixpoint insertMessage (m : SoftBusMessage) (l : list SoftBusMessage) : list SoftBusMessage :=
  match l with
  | [] => [m]
  | x :: l' => if time m <? time x then m :: x :: l' else x :: insertMessage m l'
  end.

(** The second critical section. *)
Definition postLocked (c : SoftBusLooperContext) (m : SoftBusMessage)
  : SoftBusLooperContext * list SoftBusMessage :=
  if stop c then (c, [m])
  else (mkContext (stop c) (running c) (currentMsg c) (u32 (msgSize c + 1)) (insertMessage m (msgHead c)), []).

(** The looper, and the messages that were freed. *)
Definition PostMessageAtTime (libc : Z -> bool) (lock1 lock2 : bool) (looper : option SoftBusLooper)
    (msgPost : SoftBusMessage) : option SoftBusLooper * list SoftBusMessage :=
  if negb (PostMessageAtTimeParamVerify lock1 looper msgPost =? SOFTBUS_OK) then (looper, [msgPost])
  else if negb (SoftBusCalloc libc sizeof_SoftBusMessageNode) then (looper, [msgPost])
  else
    match looper with
    | Some (mkLooper (Some c) d) =>
      if negb lock2 then (looper, [msgPost])
      else let '(c', fr) := postLocked c msgPost in (Some (mkLooper (Some c') d), fr)
    | _ => (looper, [])
    end.

(** A message for a NULL looper is not freed. *)
Definition LooperPostMessage (now : Z) (libc : Z -> bool) (lock1 lock2 : bool)
    (looper : option SoftBusLooper) (msg : option SoftBusMessage)
  : option SoftBusLooper * list SoftBusMessage :=
  match msg, looper with
  | Some m, Some _ => PostMessageAtTime libc lock1 lock2 looper (setTime m now)
  | _, _ => (looper, [])
  end.

Definition LooperPostMessageDelay (now delayMillis : Z) (libc : Z -> bool) (lock1 lock2 : bool)
    (looper : option SoftBusLooper) (msg : option SoftBusMessage)
  : option SoftBusLooper * list SoftBusMessage :=
  match msg, looper with
  | Some m, Some _ =>
    PostMessageAtTime libc lock1 lock2 looper
      (setTime m (s64 (now + s64 (s64 delayMillis * TIME_THOUSANDS_MULTIPLIER))))
  | _, _ => (looper, [])
  end.

(** ** Removing *)

Definition WhatRemoveFunc (w : Z) (msg : SoftBusMessage) : Z := if what msg =? w then 0 else 1.

Definition removable (h : option nat) (customFunc : SoftBusMessage -> Z) (m : SoftBusMessage) : bool :=
  bool_decide (handler m = h) && (customFunc m =? 0).

Definition LoopRemoveMessageCustom (lock : bool) (c : SoftBusLooperContext) (h : option nat)
    (customFunc : SoftBusMessage -> Z) : SoftBusLooperContext * list SoftBusMessage :=
  if negb lock then (c, [])
  else if negb (running c) || stop c then (c, [])
  else
    let gone := base.filter (fun m => removable h customFunc m = true) (msgHead c) in
    (mkContext (stop c) (running c) (currentMsg c) (u32 (msgSize c - Z.of_nat (length gone)))
       (base.filter (fun m => removable h customFunc m = false) (msgHead c)), gone).

Definition LooperRemoveMessage (lock : bool) (c : SoftBusLooperContext) (h : option nat) (w : Z) :=
  LoopRemoveMessageCustom lock c h (WhatRemoveFunc w).

Definition SetLooperDumpable (lock : bool) (looper : option SoftBusLooper) (d : bool) : option SoftBusLooper :=
  match looper with
  | Some (mkLooper (Some c) d0) => Some (mkLooper (Some c) (if lock then d else d0))
  | _ => looper
  end.

(** ** The thread *)

(** [LoopTask] up to its loop; [None] when it returns. *)
Definition taskStart (lock : bool) (c : SoftBusLooperContext) : option SoftBusLooperContext :=
  if negb lock then None
  else Some (mkContext (stop c) true (currentMsg c) (msgSize c) (msgHead c)).

(** One pass through the loop of [LoopTask], to the unlock before the handler is
    called: the thread returns, leaves the loop, has waited, or has a message. *)
Inductive Turn := TurnReturn | TurnBreak | TurnWait | TurnMessage (m : SoftBusMessage).

Definition loopTurn (lock needDestroy : bool) (now : Z) (c : SoftBusLooperContext)
  : Turn * SoftBusLooperContext :=
  if negb lock then (TurnReturn, c)
  else if stop c then (TurnBreak, c)
  else if needDestroy then (TurnBreak, c)
  else
    match msgHead c with
    | [] => (TurnWait, c)
    | m :: l =>
      if time m <=? now
      then (TurnMessage m, mkContext (stop c) (running c) (Some m) (u32 (msgSize c - 1)) l)
      else (TurnWait, c)
    end.

(** After the handler: the message is freed. *)
Definition taskHandled (c : SoftBusLooperContext) : SoftBusLooperContext * list SoftBusMessage :=
  (mkContext (stop c) (running c) None (msgSize c) (msgHead c), option_list (currentMsg c)).

(** After the loop. *)
Definition taskEnd (c : SoftBusLooperContext) : SoftBusLooperContext :=
  mkContext (stop c) false (currentMsg c) (msgSize c) (msgHead c).

(** ** Creating and destroying *)

(** The looper and [g_looperCnt]; [thread] tells whether the thread was created. *)
Definition CreateNewLooper (libc1 libc2 : Z -> bool) (strlen : Z) (thread : bool) (g_looperCnt : Z)
  : option SoftBusLooper * Z :=
  if MAX_LOOPER_CNT <=? g_looperCnt then (None, g_looperCnt)
  else if negb (SoftBusCalloc libc1 sizeof_SoftBusLooper) then (None, g_looperCnt)
  else if negb (SoftBusCalloc libc2 sizeof_SoftBusLooperContext) then (None, g_looperCnt)
  else if negb (memcpy_s LOOP_NAME_LEN strlen) then (None, g_looperCnt)
  else if negb thread then (None, g_looperCnt)
  else (Some (mkLooper (Some (mkContext false false None 0 [])) true), u32 (g_looperCnt + 1)).

(** [DestroyLooper] asks the thread to stop, waits until it does not run, and
    releases the queue and the context. *)
Definition destroyStop (c : SoftBusLooperContext) : SoftBusLooperContext :=
  mkContext true (running c) (currentMsg c) (msgSize c) (msgHead c).

Definition destroyPoll (c : SoftBusLooperContext) : bool := negb (running c).

Definition destroyRelease (c : SoftBusLooperContext) : list SoftBusMessage := msgHead c.

(** ** The table of loopers *)

Definition LoopConfig : Type := list (Z * option nat).

Definition g_loopConfig : LoopConfig := [(1, None); (2, None); (3, None); (4, None); (5, None)].

Fixpoint GetLooper (cfg : LoopConfig) (type : Z) : option nat :=
  match cfg with
  | [] => None
  | (t, l) :: cfg' => if t =? type then l else GetLooper cfg' type
  end.

Definition SetLooper (cfg : LoopConfig) (type : Z) (looper : option nat) : LoopConfig :=
  (fun e => if e.1 =? type then (e.1, looper) else e) <$> cfg.

Fixpoint ReleaseLooper (cfg : LoopConfig) (looper : nat) : LoopConfig :=
  match cfg with
  | [] => []
  | (t, l) :: cfg' => if bool_decide (l = Some looper) then (t, None) :: cfg' else (t, l) :: ReleaseLooper cfg' looper
  end.

(** ** Everything that happens to one looper *)

Inductive TaskPc := TaskNew | TaskLoop | TaskHandling | TaskEnding | TaskGone.
Inductive DestroyPc := DestroyIdle | DestroyPolling | DestroyDone.

(** [ctx] is [None] after the release. [fresh] numbers the messages; [freed] and
    [handled] list them as they are freed and given to their handlers. [fault]
    records an access to the released context. *)
Record Sys := mkSys {
  ctx : option SoftBusLooperContext;
  pc : TaskPc;
  dpc : DestroyPc;
  fresh : nat;
  freed : list SoftBusMessage;
  handled : list SoftBusMessage;
  fault : bool
}.

(** The state right after [CreateNewLooper]. *)
Definition created : Sys := mkSys (Some (mkContext false false None 0 [])) TaskNew DestroyIdle 0 [] [] false.

Inductive Event :=
  | EvStart (lock : bool)
  | EvTurn (lock needDestroy : bool) (now : Z)
  | EvHandled
  | EvEnd
  | EvPost (libc : Z -> bool) (lock1 lock2 : bool) (m : SoftBusMessage)
  | EvRemove (lock : bool) (h : option nat) (f : SoftBusMessage -> Z)
  | EvDestroyStop
  | EvDestroyPoll.

Definition faulty (s : Sys) : Sys := mkSys (ctx s) (pc s) (dpc s) (fresh s) (freed s) (handled s) true.

(** What the thread does next. *)
Definition taskStep (s : Sys) (c : SoftBusLooperContext) (e : Event) : option Sys :=
  match e, pc s with
  | EvStart lock, TaskNew =>
    Some (match taskStart lock c with
          | None => mkSys (Some c) TaskGone (dpc s) (fresh s) (freed s) (handled s) (fault s)
          | Some c' => mkSys (Some c') TaskLoop (dpc s) (fresh s) (freed s) (handled s) (fault s)
          end)
  | EvTurn lock nd now, TaskLoop =>
    Some (match loopTurn lock nd now c with
          | (TurnReturn, c') => mkSys (Some c') TaskGone (dpc s) (fresh s) (freed s) (handled s) (fault s)
          | (TurnBreak, c') => mkSys (Some c') TaskEnding (dpc s) (fresh s) (freed s) (handled s) (fault s)
          | (TurnWait, c') => mkSys (Some c') TaskLoop (dpc s) (fresh s) (freed s) (handled s) (fault s)
          | (TurnMessage m, c') =>
            mkSys (Some c') TaskHandling (dpc s) (fresh s) (freed s) (handled s ++ [m]) (fault s)
          end)
  | EvHandled, TaskHandling =>
    let '(c', fr) := taskHandled c in
    Some (mkSys (Some c') TaskLoop (dpc s) (fresh s) (freed s ++ fr) (handled s) (fault s))
  | EvEnd, TaskEnding => Some (mkSys (Some (taskEnd c)) TaskGone (dpc s) (fresh s) (freed s) (handled s) (fault s))
  | _, _ => None
  end.

(** Is the event one that the thread does next? *)
Definition taskEnabled (s : Sys) (e : Event) : bool :=
  match e, pc s with
  | EvStart _, TaskNew | EvTurn _ _ _, TaskLoop | EvHandled, TaskHandling | EvEnd, TaskEnding => true
  | _, _ => false
  end.

(** [None] when the event cannot happen. Callers do not use a looper that they
    have destroyed. *)
Definition exec (s : Sys) (e : Event) : option Sys :=
  match ctx s with
  | None => if taskEnabled s e then Some (faulty s) else None
  | Some c =>
    match e with
    | EvPost libc lock1 lock2 m =>
      if negb (addr m =? fresh s)%nat then None
      else
        match PostMessageAtTime libc lock1 lock2 (Some (mkLooper (Some c) true)) m with
        | (Some (mkLooper c' _), fr) =>
          Some (mkSys c' (pc s) (dpc s) (S (fresh s)) (freed s ++ fr) (handled s) (fault s))
        | _ => None
        end
    | EvRemove lock h f =>
      let '(c', fr) := LoopRemoveMessageCustom lock c h f in
      Some (mkSys (Some c') (pc s) (dpc s) (fresh s) (freed s ++ fr) (handled s) (fault s))
    | EvDestroyStop =>
      match dpc s with
      | DestroyIdle =>
        Some (mkSys (Some (destroyStop c)) (pc s) DestroyPolling (fresh s) (freed s) (handled s) (fault s))
      | _ => None
      end
    | EvDestroyPoll =>
      match dpc s with
      | DestroyPolling =>
        Some (if destroyPoll c
              then mkSys None (pc s) DestroyDone (fresh s) (freed s ++ destroyRelease c) (handled s) (fault s)
              else s)
      | _ => None
      end
    | _ => taskStep s c e
    end
  end.

Fixpoint run (s : Sys) (es : list Event) : option Sys :=
  match es with
  | [] => Some s
  | e :: es' => match exec s e with None => None | Some s' => run s' es' end
  end.

(** ** The order of the queue *)

(** Due earlier, or at the same time and posted earlier. *)
Definition before (x y : SoftBusMessage) : Prop := time x < time y \/ time x = time y /\ (addr x < addr y)%nat.

Lemma before_trans x y z : before x y -> before y z -> before x z.
Proof. unfold before. lia. Qed.

Lemma elem_of_insertMessage m l x : x ∈ insertMessage m l <-> x = m \/ x ∈ l.
Proof.
  induction l as [|y l IH]; cbn; [|destruct (_ <? _)]; rewrite !elem_of_cons, ?IH; tauto.
Qed.

Lemma insertMessage_perm m l : insertMessage m l ≡ₚ m :: l.
Proof.
  induction l as [|y l IH]; [reflexivity|]. cbn. destruct (_ <? _); [reflexivity|]. rewrite IH. apply Permutation_swap.
Qed.

Lemma insertMessage_sorted m l : Forall (fun x => (addr x < addr m)%nat) l ->
  StronglySorted before l -> StronglySorted before (insertMessage m l).
Proof.
  intros Hf Hs. induction Hs as [|x l Hs IH Hx]; [repeat constructor|]. apply Forall_cons_1 in Hf as [Hlt Hf].
  cbn. destruct (Z.ltb_spec (time m) (time x)) as [Ht|Ht].
  - assert (Hmx : before m x) by (left; exact Ht). constructor; [now constructor|]. constructor; [exact Hmx|].
    eapply Forall_impl; [exact Hx|]. intros y Hy. exact (before_trans _ _ _ Hmx Hy).
  - constructor; [auto|]. apply Forall_forall. intros y [->|Hy]%elem_of_insertMessage.
    + unfold before. lia.
    + rewrite Forall_forall in Hx. auto.
Qed.

Lemma filter_sorted (P : SoftBusMessage -> Prop) `{!forall x, Decision (P x)} l :
  StronglySorted before l -> StronglySorted before (base.filter P l).
Proof.
  induction 1 as [|x l Hs IH Hx]; [constructor|]. rewrite filter_cons. destruct (decide (P x)); [|exact IH].
  constructor; [exact IH|]. rewrite Forall_forall in *. intros y [_ Hy]%list_elem_of_filter. auto.
Qed.

(** A queue is split by what is removed from it. *)
Lemma filter_split (f : SoftBusMessage -> bool) l :
  base.filter (fun m => f m = true) l ++ base.filter (fun m => f m = false) l ≡ₚ l.
Proof.
  induction l as [|x l IH]; [reflexivity|]. rewrite !filter_cons. destruct (f x) eqn:E.
  - rewrite decide_True, decide_False by congruence. cbn. now rewrite IH.
  - rewrite decide_False, decide_True by congruence. rewrite <- Permutation_middle. now rewrite IH.
Qed.

(** ** The invariant *)

Definition queueOf (s : Sys) : list SoftBusMessage := default [] (msgHead <$> ctx s).

(** Messages that exist: being handled, or queued. *)
Definition alive (s : Sys) : list SoftBusMessage :=
  option_list (ctx s ≫= currentMsg) ++ queueOf s.

Definition runs (p : TaskPc) : Prop := p = TaskLoop \/ p = TaskHandling \/ p = TaskEnding.

(** What the fields of a context say, given where the thread is. *)
Record ctxOK (p : TaskPc) (d : DestroyPc) (c : SoftBusLooperContext) : Prop := {
  ok_sorted : StronglySorted before (msgHead c);
  ok_size : msgSize c = u32 (Z.of_nat (length (msgHead c)));
  ok_current : p <> TaskHandling -> currentMsg c = None;
  ok_handling : p = TaskHandling -> is_Some (currentMsg c);
  ok_new : p = TaskNew -> running c = false;
  ok_runs : runs p -> running c = true;
  ok_destroy : d <> DestroyDone
}.

Record Inv (s : Sys) : Prop := {
  inv_ctx : forall c, ctx s = Some c -> ctxOK (pc s) (dpc s) c;
  inv_gone : ctx s = None -> pc s = TaskNew \/ pc s = TaskGone;
  inv_once : addr <$> (freed s ++ alive s) ≡ₚ List.seq 0 (fresh s)
}.

Lemma created_Inv : Inv created.
Proof.
  split; [|discriminate|reflexivity]. intros c [= <-].
  split; [constructor|reflexivity..|discriminate|reflexivity| |discriminate]. now intros [H|[H|H]].
Qed.

Lemma queue_fresh s c : Inv s -> ctx s = Some c -> Forall (fun x => (addr x < fresh s)%nat) (msgHead c).
Proof.
  intros H Ec. apply Forall_forall. intros x Hx.
  assert (Hin : addr x ∈ addr <$> (freed s ++ alive s)).
  { apply list_elem_of_fmap. exists x. split; [reflexivity|]. unfold alive, queueOf. rewrite Ec. cbn. set_solver. }
  rewrite (inv_once s H) in Hin. apply elem_of_seq in Hin. lia.
Qed.

(** Steps that leave the places of the messages alone. *)
Lemma Inv_move s c' p d h f :
  Inv s -> (exists c, ctx s = Some c /\ msgHead c' = msgHead c /\ currentMsg c' = currentMsg c) -> ctxOK p d c' ->
  Inv (mkSys (Some c') p d (fresh s) (freed s) h f).
Proof.
  intros H (c & Ec & Eh & Em) Hc. split; [now intros ? [= <-]|discriminate|].
  pose proof (inv_once s H) as Ho. unfold alive, queueOf in *. rewrite Ec in Ho. cbn in *. now rewrite Eh, Em.
Qed.

Lemma u32_pred l : u32 (u32 (Z.of_nat (S l)) - 1) = u32 (Z.of_nat l).
Proof. unfold u32. rewrite Zminus_mod_idemp_l. f_equal. lia. Qed.

Lemma taskStep_Inv s c e s' : Inv s -> ctx s = Some c -> taskStep s c e = Some s' -> Inv s'.
Proof.
  intros H Ec E. pose proof (inv_ctx s H c Ec) as [H1 H2 H3 H4 H5 H6 H7].
  assert (Hsame : exists c0, ctx s = Some c0 /\ msgHead c = msgHead c0 /\ currentMsg c = currentMsg c0) by eauto.
  unfold taskStep in E.
  destruct e as [lock|lock nd now| | |libc l1 l2 m|lock hd f| |]; try (now destruct (pc s)); destruct (pc s) eqn:Ep;
    try discriminate; injection E as <-.
  - unfold taskStart. destruct lock; cbn [negb]; (apply (Inv_move s); [exact H|eauto|]); split; cbn; auto;
      try discriminate; try (now intros [?|[?|?]]).
  - assert (Hr : running c = true) by (apply H6; now left).
    unfold loopTurn. destruct lock; cbn [negb].
    2: { apply (Inv_move s); [exact H|exact Hsame|]. split; auto; try discriminate; try (now intros [?|[?|?]]). }
    assert (Hb : ctxOK TaskEnding (dpc s) c) by (split; auto; discriminate).
    destruct (stop c); [now apply (Inv_move s)|]. destruct nd; [now apply (Inv_move s)|].
    assert (Hw : ctxOK TaskLoop (dpc s) c) by (split; auto; discriminate).
    destruct (msgHead c) as [|m l] eqn:Eq; [apply (Inv_move s); [exact H|rewrite Eq; exact Hsame|exact Hw]|].
    destruct (time m <=? now); [|apply (Inv_move s); [exact H|rewrite Eq; exact Hsame|exact Hw]].
    inversion H1; subst. split; [|discriminate|].
    + intros ? [= <-]. split; cbn; auto; try congruence. rewrite H2. apply u32_pred.
    + pose proof (inv_once s H) as Ho. unfold alive, queueOf in *. rewrite Ec in Ho. cbn in *.
      now rewrite (H3 ltac:(discriminate)), Eq in Ho.
  - destruct (H4 eq_refl) as [m Em]. assert (Hr : running c = true) by (apply H6; right; now left).
    split; [|discriminate|].
    + intros ? [= <-]. split; cbn; auto; discriminate.
    + pose proof (inv_once s H) as Ho. unfold alive, queueOf in *. rewrite Ec in Ho. cbn in *.
      rewrite Em in *. cbn in *. now rewrite <- app_assoc.
  - apply (Inv_move s); [exact H|eauto|]. split; cbn; auto; try discriminate; try (now intros [?|[?|?]]).
Qed.

Lemma ctxOK_queue p d c l z : ctxOK p d c -> StronglySorted before l -> z = u32 (Z.of_nat (length l)) ->
  ctxOK p d (mkContext (stop c) (running c) (currentMsg c) z l).
Proof. intros [H1 H2 H3 H4 H5 H6 H7] Hl Hz. now split. Qed.

(** A message that is freed instead of queued. *)
Lemma Inv_refused s m : Inv s -> addr m = fresh s -> is_Some (ctx s) ->
  Inv (mkSys (ctx s) (pc s) (dpc s) (S (fresh s)) (freed s ++ [m]) (handled s) (fault s)).
Proof.
  intros [H1 H2 H3] Hm [c Ec]. split; [exact H1|now rewrite Ec|].
  unfold alive, queueOf in *. cbn [ctx fresh freed] in *. rewrite seq_S, <- H3, !fmap_app. cbn. rewrite Hm.
  solve_Permutation.
Qed.

Lemma post_Inv s c libc l1 l2 m s' : Inv s -> ctx s = Some c -> exec s (EvPost libc l1 l2 m) = Some s' -> Inv s'.
Proof.
  intros H Ec. unfold exec. rewrite Ec. destruct (Nat.eqb_spec (addr m) (fresh s)) as [Hm|]; [cbn [negb]|discriminate].
  pose proof (Inv_refused s m H Hm ltac:(eauto)) as Hr. rewrite Ec in Hr. unfold PostMessageAtTime.
  destruct (negb (_ =? SOFTBUS_OK)); [now intros [= <-]|]. destruct (negb (SoftBusCalloc _ _)); [now intros [= <-]|].
  destruct l2; cbn [negb]; [|now intros [= <-]]. unfold postLocked. destruct (stop c) eqn:Es; [now intros [= <-]|].
  intros [= <-]. pose proof (inv_ctx s H c Ec) as Hc. rewrite app_nil_r. split; [|discriminate|].
  - intros ? [= <-]. rewrite <- Es. apply ctxOK_queue; [exact Hc| |].
    + apply insertMessage_sorted; [|apply Hc]. rewrite Hm. now apply queue_fresh.
    + rewrite (ok_size _ _ _ Hc), insertMessage_perm. cbn [length]. unfold u32. rewrite Zplus_mod_idemp_l. f_equal. lia.
  - pose proof (inv_once s H) as Ho. unfold alive, queueOf in *. rewrite Ec in Ho. cbn -[List.seq] in *.
    rewrite seq_S, <- Ho, insertMessage_perm, !fmap_app. cbn. rewrite Hm. solve_Permutation.
Qed.

Lemma remove_Inv s c lock h f s' : Inv s -> ctx s = Some c -> exec s (EvRemove lock h f) = Some s' -> Inv s'.
Proof.
  intros H Ec. unfold exec. rewrite Ec. unfold LoopRemoveMessageCustom.
  assert (Hid : Inv (mkSys (Some c) (pc s) (dpc s) (fresh s) (freed s ++ []) (handled s) (fault s))).
  { rewrite app_nil_r. apply (Inv_move s); [exact H|eauto|]. exact (inv_ctx s H c Ec). }
  destruct (negb lock); [now intros [= <-]|]. destruct (negb (running c) || stop c); [now intros [= <-]|].
  intros [= <-]. pose proof (inv_ctx s H c Ec) as Hc. pose proof (filter_split (removable h f) (msgHead c)) as Hsp.
  split; [|discriminate|].
  - intros ? [= <-]. apply ctxOK_queue; [exact Hc|apply filter_sorted, Hc|]. rewrite (ok_size _ _ _ Hc).
    apply Permutation_length in Hsp. rewrite length_app in Hsp. rewrite <- Hsp.
    unfold u32. rewrite Zminus_mod_idemp_l. f_equal. lia.
  - pose proof (inv_once s H) as Ho. unfold alive, queueOf in *. rewrite Ec in Ho. cbn in *.
    rewrite <- Ho. rewrite <- Hsp at 3. rewrite !fmap_app. solve_Permutation.
Qed.

Lemma destroy_Inv s c e s' : Inv s -> ctx s = Some c -> e = EvDestroyStop \/ e = EvDestroyPoll ->
  exec s e = Some s' -> Inv s'.
Proof.
  intros H Ec He. pose proof (inv_ctx s H c Ec) as Hc. unfold exec. rewrite Ec. destruct He as [->| ->].
  - destruct (dpc s) eqn:Ed; try discriminate. intros [= <-]. apply (Inv_move s); [exact H|eauto|].
    destruct Hc as [H1 H2 H3 H4 H5 H6 H7]. split; auto; discriminate.
  - destruct (dpc s) eqn:Ed; try discriminate. intros [= <-]. unfold destroyPoll.
    destruct (running c) eqn:Er; cbn [negb]; [exact H|].
    assert (Hpc : pc s = TaskNew \/ pc s = TaskGone).
    { destruct (pc s) eqn:Ep; auto; exfalso; (rewrite (ok_runs _ _ _ Hc) in Er; [discriminate|]); unfold runs; auto. }
    split; [discriminate|auto|]. pose proof (inv_once s H) as Ho. unfold alive, queueOf, destroyRelease in *.
    rewrite Ec in Ho. cbn in *. rewrite (ok_current _ _ _ Hc) in Ho by (destruct Hpc; congruence). cbn in Ho.
    now rewrite app_nil_r.
Qed.

Lemma exec_Inv s e s' : Inv s -> exec s e = Some s' -> Inv s'.
Proof.
  intros H E. destruct (ctx s) as [c|] eqn:Ec.
  - destruct e as [lock|lock nd now| | |libc l1 l2 m|lock hd f| |]; eauto using post_Inv, remove_Inv, destroy_Inv;
      unfold exec in E; rewrite Ec in E; eauto using taskStep_Inv.
  - unfold exec in E. rewrite Ec in E. destruct (taskEnabled s e); [|discriminate]. injection E as <-.
    destruct H as [H1 H2 H3]. now split.
Qed.

Lemma run_Inv s es s' : Inv s -> run s es = Some s' -> Inv s'.
Proof.
  revert s. induction es as [|e es IH]; intros s H; [now intros [= <-]|]. cbn.
  destruct (exec s e) as [s1|] eqn:E; [|discriminate]. apply IH. eapply exec_Inv; eassumption.
Qed.

(** A faulting thread had not started when its context was released. *)
Lemma fault_not_started es s : run created es = Some s -> fault s = true -> pc s = TaskNew /\ ctx s = None.
Proof.
  intros E. cut (forall s0, Inv s0 -> (fault s0 = true -> pc s0 = TaskNew /\ ctx s0 = None) ->
    run s0 es = Some s -> fault s = true -> pc s = TaskNew /\ ctx s = None).
  { intros Hc. apply (Hc created); [apply created_Inv|discriminate|exact E]. }
  clear E. induction es as [|e es IH]; intros s0 H Hf; cbn; [now intros [= <-]|].
  destruct (exec s0 e) as [s1|] eqn:E; [|discriminate]. apply IH; [eapply exec_Inv; eassumption|].
  destruct (ctx s0) as [c|] eqn:Ec.
  - assert (Hfalse : fault s0 = false) by (destruct (fault s0); [now destruct (Hf eq_refl)|reflexivity]).
    intros Ht. exfalso. unfold exec in E. rewrite Ec in E.
    destruct e; unfold taskStep in E; repeat case_match; try discriminate; simplify_eq; cbn in *; congruence.
  - unfold exec in E. rewrite Ec in E. destruct (taskEnabled s0 e) eqn:Ee; [|discriminate]. injection E as <-.
    intros _. destruct (inv_gone s0 H Ec) as [Hp|Hp]; cbn; auto. unfold taskEnabled in Ee. rewrite Hp in Ee.
    now destruct e.
Qed.

(** ** Properties *)

(** C39: in every history of a looper (messages posted and removed by any
    threads, with allocation and lock failures, the thread at any point), when
    the thread takes a message at time [now], the message is due, it was the first
    of the queue, and every message that stays in the queue is due later, or at
    the same time and was posted later. *)
Theorem dispatch_in_order es s lock nd now s' :
  run created es = Some s -> exec s (EvTurn lock nd now) = Some s' -> pc s' = TaskHandling ->
  exists m, queueOf s = m :: queueOf s' /\ handled s' = handled s ++ [m] /\ time m <= now /\
    forall x, x ∈ queueOf s' -> before m x.
Proof.
  intros Hrun E Hp. pose proof (run_Inv _ _ _ created_Inv Hrun) as H. unfold exec in E.
  destruct (ctx s) as [c|] eqn:Ec.
  2: { destruct (taskEnabled s (EvTurn lock nd now)); [|discriminate]. injection E as <-. cbn in Hp.
       destruct (inv_gone s H Ec); congruence. }
  unfold taskStep in E. destruct (pc s) eqn:Epc; try discriminate. injection E as <-.
  pose proof (inv_ctx s H c Ec) as Hc. unfold loopTurn in *. destruct (negb lock); [discriminate|].
  destruct (stop c); [discriminate|]. destruct nd; [discriminate|].
  destruct (msgHead c) as [|m l] eqn:Eq; [discriminate|]. destruct (Z.leb_spec (time m) now); [|discriminate].
  exists m. unfold queueOf. rewrite Ec. cbn. rewrite Eq. split; [reflexivity|]. split; [reflexivity|]. split; [lia|].
  pose proof (ok_sorted _ _ _ Hc) as Hs. rewrite Eq in Hs. inversion Hs as [|? ? ? Hm]; subst.
  intros x Hx. rewrite Forall_forall in Hm. auto.
Qed.

(** C23: no message is lost, freed twice or used after it was freed.  At every
    moment the posted messages are, each exactly once, the ones freed so far, the
    one being handled and the queued ones; the message being handled and the
    queued ones are not freed; and when [DestroyLooper] has released the looper,
    all of them are freed. *)
Theorem messages_freed_once es s :
  run created es = Some s ->
  addr <$> (freed s ++ alive s) ≡ₚ List.seq 0 (fresh s) /\
  NoDup (addr <$> (freed s ++ alive s)) /\
  (ctx s = None -> addr <$> freed s ≡ₚ List.seq 0 (fresh s)) /\
  (forall c, ctx s = Some c -> msgSize c = u32 (Z.of_nat (length (msgHead c)))).
Proof.
  intros Hrun. pose proof (run_Inv _ _ _ created_Inv Hrun) as H. pose proof (inv_once s H) as Ho.
  split; [exact Ho|]. split; [rewrite Ho; apply NoDup_ListNoDup, List.seq_NoDup|]. split.
  - intros Ec. unfold alive, queueOf in Ho. rewrite Ec in Ho. cbn in Ho. now rewrite app_nil_r in Ho.
  - intros c Ec. exact (ok_size _ _ _ (inv_ctx s H c Ec)).
Qed.

(** Turns of the thread at the same time, each followed by the handler. *)
Definition turns (n : nat) (now : Z) : list Event := concat (replicate n [EvTurn true false now; EvHandled]).

Definition due (now : Z) (m : SoftBusMessage) : Prop := time m <= now.
#[global] Instance due_dec now m : Decision (due now m) := decide (time m <= now).

(** The head decides: when it is not due, nothing is. *)

(** The head decides: when it is not due, nothing is. *)
Lemma sorted_not_due now l : (forall m, m ∈ l -> now < time m) ->
  base.filter (due now) l = [] /\ base.filter (fun m => ~ due now m) l = l.
Proof.
  induction l as [|m l IH]; intros H; [easy|]. destruct IH as [I1 I2]; [intros x Hx; apply H; now right|].
  assert (Hm : ~ due now m) by (unfold due; specialize (H m ltac:(now left)); lia).
  rewrite !filter_cons, (decide_False (P := due now m)), (decide_True (P := ~ due now m)) by assumption.
  now rewrite I1, I2.
Qed.

Lemma wait_turn s c now : ctx s = Some c -> pc s = TaskLoop -> stop c = false ->
  (forall m, m ∈ msgHead c -> now < time m) -> exec s (EvTurn true false now) = Some s.
Proof.
  intros Ec Ep Es Hq. unfold exec, taskStep. rewrite Ec, Ep. unfold loopTurn. rewrite Es. cbn [negb].
  destruct s as [? ? d fr fd hd ft]. cbn in *. subst. destruct (msgHead c) as [|m l]; [reflexivity|].
  destruct (Z.leb_spec (time m) now); [|reflexivity]. specialize (Hq m ltac:(now left)). lia.
Qed.

Lemma drain_due now : forall l s c, ctx s = Some c -> msgHead c = l -> StronglySorted before l ->
  pc s = TaskLoop -> stop c = false ->
  exists s', run s (turns (length (base.filter (due now) l)) now) = Some s' /\
    handled s' = handled s ++ base.filter (due now) l /\ queueOf s' = base.filter (fun m => ~ due now m) l /\
    pc s' = TaskLoop /\ exec s' (EvTurn true false now) = Some s'.
Proof.
  induction l as [|m l IH]; intros s c Ec Eq Hs Ep Est.
  { exists s. split; [reflexivity|]. split; [now rewrite app_nil_r|]. split; [unfold queueOf; rewrite Ec; cbn; now rewrite Eq|].
    split; [exact Ep|]. eapply wait_turn; eauto. rewrite Eq. now intros ? ?%elem_of_nil. }
  inversion Hs as [|? ? Hl Hb]; subst. destruct (decide (due now m)) as [Hd|Hd].
  - set (c2 := mkContext (stop c) (running c) None (u32 (msgSize c - 1)) l).
    set (s2 := mkSys (Some c2) TaskLoop (dpc s) (fresh s) (freed s ++ [m]) (handled s ++ [m]) (fault s)).
    destruct (IH s2 c2 eq_refl eq_refl Hl eq_refl Est) as (s' & Er & Eh & Equ & Ep' & Ew).
    exists s'. rewrite !filter_cons, decide_True, decide_False by tauto.
    split; [|split; [rewrite Eh; cbn; now rewrite <- app_assoc|auto]].
    cbn [length turns replicate concat app run]. unfold exec at 1. rewrite Ec. unfold taskStep. rewrite Ep.
    unfold loopTurn. rewrite Est, Eq. cbn [negb]. unfold due in Hd. rewrite (proj2 (Z.leb_le _ _) Hd).
    unfold exec at 1. cbn [ctx pc taskStep taskHandled stop running currentMsg msgSize msgHead option_list dpc fresh freed
      handled fault]. subst c2 s2. rewrite Est in Er. exact Er.
  - assert (Hnow : forall x, x ∈ m :: l -> now < time x).
    { rewrite Forall_forall in Hb. unfold due, before in *. intros x [->|Hx]%elem_of_cons; [lia|].
      specialize (Hb x Hx). lia. }
    destruct (sorted_not_due now (m :: l) Hnow) as [-> ->]. exists s. split; [reflexivity|].
    split; [now rewrite app_nil_r|]. split; [unfold queueOf; rewrite Ec; cbn; exact Eq|]. split; [exact Ep|].
    eapply wait_turn; eauto. now rewrite Eq.
Qed.

(** due messages are handled.  From every reachable state with a running
    looper that was not asked to stop, as many turns of the thread as there are
    due messages handle exactly the due messages, in the order of the queue, and
    leave exactly the others; then the thread waits. *)
Theorem due_messages_handled es s c now :
  run created es = Some s -> ctx s = Some c -> pc s = TaskLoop -> stop c = false ->
  let q := queueOf s in
  exists s', run s (turns (length (base.filter (due now) q)) now) = Some s' /\
    handled s' = handled s ++ base.filter (due now) q /\ queueOf s' = base.filter (fun m => ~ due now m) q /\
    pc s' = TaskLoop /\ exec s' (EvTurn true false now) = Some s'.
Proof.
  intros Hrun Ec Ep Est q. pose proof (run_Inv _ _ _ created_Inv Hrun) as H.
  assert (Eq : msgHead c = q) by (unfold q, queueOf; now rewrite Ec).
  apply (drain_due now q s c); auto. rewrite <- Eq. exact (ok_sorted _ _ _ (inv_ctx s H c Ec)).
Qed.

Lemma run_app s es1 es2 : run s (es1 ++ es2) = run s es1 ≫= fun s' => run s' es2.
Proof. revert s. induction es1 as [|e es1 IH]; intros s; [reflexivity|]. cbn. destruct (exec s e); [apply IH|reflexivity]. Qed.

Lemma never_new_again s es s' : run s es = Some s' -> pc s' = TaskNew -> pc s = TaskNew.
Proof.
  revert s. induction es as [|e es IH]; intros s; [now intros [= <-]|]. cbn.
  destruct (exec s e) as [s1|] eqn:E; [|discriminate]. intros Hr Hp. specialize (IH s1 Hr Hp).
  unfold exec, taskStep in E. repeat case_match; try discriminate; simplify_eq; cbn in *; congruence.
Qed.

Lemma released_was_destroyed s es s' : run s es = Some s' -> is_Some (ctx s) -> dpc s = DestroyIdle ->
  ctx s' = None -> EvDestroyStop ∈ es.
Proof.
  revert s. induction es as [|e es IH]; intros s; [intros [= <-] [? ?] _ ?; congruence|]. cbn.
  destruct (exec s e) as [s1|] eqn:E; [|discriminate]. intros Hr [c Ec] Hd Hn.
  destruct e as [lock|lock nd now| | |libc l1 l2 m|lock hd f| |]; try (now left); right; apply (IH s1); auto;
    unfold exec, taskStep, PostMessageAtTime, postLocked in E; rewrite Ec in E; repeat case_match; try discriminate;
    simplify_eq; cbn in *; eauto; try congruence.
Qed.

(** When the thread of a looper has started before [DestroyLooper] is
    called, it never touches the looper's context after it was released. *)
Theorem destroy_after_start_safe es s :
  run created es = Some s ->
  (forall es1 es2 s1, es = es1 ++ EvDestroyStop :: es2 -> run created es1 = Some s1 -> pc s1 <> TaskNew) ->
  fault s = false.
Proof.
  intros Hrun Hst. destruct (fault s) eqn:Ef; [exfalso|reflexivity].
  destruct (fault_not_started es s Hrun Ef) as [Hp Hc].
  pose proof (released_was_destroyed _ _ _ Hrun ltac:(cbn; eauto) eq_refl Hc) as Hin.
  apply list_elem_of_split in Hin as (es1 & es2 & ->). rewrite run_app in Hrun.
  destruct (run created es1) as [s1|] eqn:E1; [|discriminate]. cbn in Hrun.
  apply (Hst es1 es2 s1 eq_refl E1). apply (never_new_again _ (EvDestroyStop :: es2) _ Hrun Hp).
Qed.

(** [CreateNewLooper] does not wait for its thread: destroyed at once, the looper
    is released before the thread starts, and the thread uses the released
    context. *)
Theorem destroy_before_start_faults lock : exists s,
  run created [EvDestroyStop; EvDestroyPoll; EvStart lock] = Some s /\ fault s = true.
Proof. eexists. split; reflexivity. Qed.

End Messages.

(** ** A concrete looper *)

Module LooperDemo.

Definition msg (t : Z) (a : nat) : @SoftBusMessage unit := mkMessage 7 0 0 t tt (Some 1%nat) a.
Definition post (t : Z) (a : nat) : @Event unit := EvPost (fun _ => true) true true (msg t a).

(** Three messages, two of them due at the same time. *)
Definition history : list Event := [EvStart true; post 20 0; post 10 1; post 20 2].
Definition state : Sys :=
  mkSys (Some (mkContext false true None 3 [msg 10 1; msg 20 0; msg 20 2])) TaskLoop DestroyIdle 3 [] [] false.

Lemma history_runs : run created history = Some state.
Proof. reflexivity. Qed.

Definition after : Sys :=
  mkSys (Some (mkContext false true (Some (msg 10 1)) 2 [msg 20 0; msg 20 2])) TaskHandling DestroyIdle 3 [] [msg 10 1] false.

End LooperDemo.

Lemma dispatch_in_order_witness :
  exists m, queueOf LooperDemo.state = m :: queueOf LooperDemo.after /\
    handled LooperDemo.after = handled LooperDemo.state ++ [m] /\ time m <= 15 /\
    forall x, x ∈ queueOf LooperDemo.after -> before m x.
Proof.
  apply (dispatch_in_order LooperDemo.history LooperDemo.state true false 15); reflexivity.
Defined.

Lemma messages_freed_once_witness :
  addr <$> (freed LooperDemo.state ++ alive LooperDemo.state) ≡ₚ List.seq 0 3 /\
  NoDup (addr <$> (freed LooperDemo.state ++ alive LooperDemo.state)) /\
  (ctx LooperDemo.state = None -> addr <$> freed LooperDemo.state ≡ₚ List.seq 0 3) /\
  (forall c, ctx LooperDemo.state = Some c -> msgSize c = u32 (Z.of_nat (length (msgHead c)))).
Proof. apply (messages_freed_once LooperDemo.history LooperDemo.state). reflexivity. Defined.

Lemma due_messages_handled_witness :
  exists s', run LooperDemo.state (turns 1 15) = Some s' /\
    handled s' = handled LooperDemo.state ++ [LooperDemo.msg 10 1] /\
    queueOf s' = [LooperDemo.msg 20 0; LooperDemo.msg 20 2] /\
    pc s' = TaskLoop /\ exec s' (EvTurn true false 15) = Some s'.
Proof.
  apply (due_messages_handled LooperDemo.history LooperDemo.state
           (mkContext false true None 3 [LooperDemo.msg 10 1; LooperDemo.msg 20 0; LooperDemo.msg 20 2]) 15);
    reflexivity.
Defined.

Lemma destroy_after_start_safe_witness :
  fault (mkSys None TaskGone DestroyDone 1 [LooperDemo.msg 20 0] [] false) = false.
Proof.
  apply (destroy_after_start_safe
    [EvStart true; LooperDemo.post 20 0; EvDestroyStop; EvTurn true false 5; EvEnd; EvDestroyPoll]); [reflexivity|].
  intros es1 es2 s1 E Hr.
  destruct es1 as [|e1 es1]; [discriminate|]. injection E as <- E.
  destruct es1 as [|e2 es1]; [discriminate|]. injection E as <- E.
  destruct es1 as [|e3 es1]; [injection Hr as <-; discriminate|]. injection E as <- E.
  do 3 (destruct es1 as [|? es1]; [discriminate|]; injection E as <- E); destruct es1; discriminate.
Defined.

End Looper.
