(* ===== verification/LnnFsm.v ===== *)
(** * The LNN state machine

    Model of core/bus_center/utils/src/lnn_state_machine.c: a state machine whose
    messages are handled by a looper.  A state is identified by the address of its
    list node, which is its first member; the states of a machine form an
    intrusive list ([CommonList]).  The callbacks of the states belong to the
    clients and are parameters: they get the world and may call
    [LnnFsmTransactState] again.  [None] is a call that never returns.

    Clients keep one set of states and add it to every machine they make, so that
    only the last machine has a list of its own and the earlier ones run into it;
    the theorem on the callbacks is about such shared states too. *)

From S2P Require Import Prelude ErrorCode Bytes CommonList Looper.
From stdpp Require Import list gmap.
#[local] Open Scope Z_scope.

Module LnnFsm.
Import CommonList Looper.

Definition FSM_FLAG_RUNNING : Z := 1.
Definition FSM_CTRL_MSG_START : Z := 0.
Definition FSM_CTRL_MSG_DATA : Z := 1.
Definition FSM_CTRL_MSG_STOP : Z := 2.
Definition FSM_CTRL_MSG_DEINIT : Z := 3.
Definition SOFTBUS_LOOPER_ERR : Z := SOFTBUS_PUBLIC_ERR_BASE + 53.
Definition sizeof_SoftBusMessage : Z := 56.
Definition sizeof_FsmCtrlMsgObj : Z := 16.

(** What a message of a state machine carries: the machine (its handler) and a pointer. *)
Record FsmCtrlMsgObj := mkCtrl {
  cFsm : nat;
  cObj : option nat
}.

#[local] Abbreviation Message := (@SoftBusMessage FsmCtrlMsgObj).
#[local] Abbreviation Context := (@SoftBusLooperContext FsmCtrlMsgObj).
#[local] Abbreviation FsmLooper := (@SoftBusLooper FsmCtrlMsgObj).

(** [stateList] is the address of the list head. *)
Record FsmStateMachine := mkFsm {
  curState : option nat;
  flag : Z;
  stateList : nat
}.

(** What happened to the states, in order: the callbacks that were called, and
    [Stopped] where a state was taken away by a stop message, which calls none. *)
Inductive FsmEvent := Enter (s : nat) | Exit (s : nat) | Process (s : nat) (msgType : Z) | Stopped (s : nat).

Section Fsm.
Context {C : Type}.

Record World := mkWorld {
  heap : gmap nat ListNode;
  fsm : FsmStateMachine;
  looperCtx : Context;
  client : C;
  log : list FsmEvent
}.

(** The callbacks of a state; NULL is [None]. *)
Record FsmState := mkState {
  enter : option (World -> option World);
  process : option (World -> Z -> option nat -> option World);
  exit : option (World -> option World)
}.

Context (cb : nat -> FsmState) (deinitCallback : option (World -> option World)).

Definition setFsm (w : World) (m : FsmStateMachine) : World := mkWorld (heap w) m (looperCtx w) (client w) (log w).
Definition setCur (w : World) (s : option nat) : World := setFsm w (mkFsm s (flag (fsm w)) (stateList (fsm w))).
Definition setFlag (w : World) (f : Z) : World := setFsm w (mkFsm (curState (fsm w)) f (stateList (fsm w))).
Definition note (w : World) (e : FsmEvent) : World :=
  mkWorld (heap w) (fsm w) (looperCtx w) (client w) (log w ++ [e]).

Definition call (f : option (World -> option World)) (w : World) : option World :=
  match f with None => Some w | Some f => f w end.

(** ** The states of a machine *)

Fixpoint findState (fuel : nat) (h : gmap nat ListNode) (head item state : nat) : option bool :=
  match fuel with
  | O => None
  | S fuel' =>
    if (item =? head)%nat then Some false
    else if (item =? state)%nat then Some true
    else n ← h !! item; findState fuel' h head (next n) state
  end.

(** A loop that has visited more nodes than exist goes round for ever. *)
Definition IsDuplicateState (h : gmap nat ListNode) (head state : nat) : option bool :=
  n ← h !! head; findState (S (S (size h))) h head (next n) state.

Definition LnnFsmAddState (looper : bool) (h : gmap nat ListNode) (head : nat) (state : option nat)
  : option (Z * gmap nat ListNode) :=
  match looper, state with
  | true, Some state =>
    dup ← IsDuplicateState h head state;
    if dup : bool then Some (SOFTBUS_ALREADY_EXISTED, h)
    else
      h ← ListInit h state;
      h ← ListAdd h head state;
      Some (SOFTBUS_OK, h)
  | _, _ => Some (SOFTBUS_INVALID_PARAM, h)
  end.

(** ** Messages *)

Definition isRunning (m : FsmStateMachine) : bool := negb (Z.land (flag m) FSM_FLAG_RUNNING =? 0).

Definition known (w : World) (state : nat) : option bool := IsDuplicateState (heap w) (stateList (fsm w)) state.

Definition ProcessStartMessage (w : World) (state : option nat) : option World :=
  match state with
  | None => Some w
  | Some state =>
    if bool_decide (curState (fsm w) <> None) || isRunning (fsm w) then Some w
    else
      dup ← known w state;
      if dup : bool then
        w ← call (enter (cb state)) (note (setCur w (Some state)) (Enter state));
        Some (setFlag w (Z.lor (flag (fsm w)) FSM_FLAG_RUNNING))
      else Some w
  end.

Definition ProcessDataMessage (w : World) (a1 : Z) (obj : option nat) : option World :=
  match curState (fsm w) with
  | None => Some w
  | Some s =>
    if negb (isRunning (fsm w)) then Some w
    else
      match process (cb s) with
      | None => Some w
      | Some f => f (note w (Process s (s32 a1))) (s32 a1) obj
      end
  end.

(** No callback is called here: [Stopped] only records that the state is gone. *)
Definition ProcessStopMessage (w : World) : World :=
  match curState (fsm w) with
  | None => w
  | Some s =>
    if negb (isRunning (fsm w)) then w
    else note (setFsm w (mkFsm None (Z.land (flag (fsm w)) (Z.lnot FSM_FLAG_RUNNING)) (stateList (fsm w)))) (Stopped s)
  end.

Definition RemoveAllMessageFunc (_ : Message) : Z := 0.

Definition ProcessDeinitMessage (lock : bool) (w : World) (h : option nat) : option World :=
  call deinitCallback
    (mkWorld (heap w) (fsm w) (LoopRemoveMessageCustom lock (looperCtx w) h RemoveAllMessageFunc).1 (client w) (log w)).

Definition FsmStateMsgHandler (lock : bool) (w : World) (msg : Message) : option World :=
  if what msg =? FSM_CTRL_MSG_START then ProcessStartMessage w (cObj (obj msg))
  else if what msg =? FSM_CTRL_MSG_DATA then ProcessDataMessage w (arg1 msg) (cObj (obj msg))
  else if what msg =? FSM_CTRL_MSG_STOP then Some (ProcessStopMessage w)
  else if what msg =? FSM_CTRL_MSG_DEINIT then ProcessDeinitMessage lock w (handler msg)
  else Some w.

(** Changing the state, until the new state's enter callback is called. *)
Definition leaveFor (w : World) (s state : nat) : option World :=
  w ← call (exit (cb s)) (note w (Exit s));
  Some (note (setCur w (Some state)) (Enter state)).

Definition LnnFsmTransactState (w : World) (state : option nat) : option (Z * World) :=
  match state with
  | None => Some (SOFTBUS_INVALID_PARAM, w)
  | Some state =>
    match curState (fsm w) with
    | None => Some (SOFTBUS_INVALID_PARAM, w)
    | Some s =>
      if negb (isRunning (fsm w)) then Some (SOFTBUS_INVALID_PARAM, w)
      else
        dup ← known w state;
        if dup : bool then
          w ← leaveFor w s state;
          w ← call (enter (cb state)) w;
          Some (SOFTBUS_OK, w)
        else Some (SOFTBUS_OK, w)
    end
  end.

End Fsm.

(** ** The client's side *)

(** The message for the machine with handler [m]. *)
Definition CreateFsmHandleMsg (libc1 libc2 : Z -> bool) (m : nat) (w a1 a2 : Z) (o : option nat) (address : nat)
  : option Message :=
  if negb (SoftBusCalloc libc1 sizeof_SoftBusMessage) then None
  else if negb (SoftBusMalloc libc2 sizeof_FsmCtrlMsgObj) then None
  else Some (mkMessage w a1 a2 0 (mkCtrl m o) (Some m) address).

(** How a post goes: the clock, the allocator and the locks. *)
Record PostEnv := mkPostEnv {
  pNow : Z;
  pLibc1 : Z -> bool;
  pLibc2 : Z -> bool;
  pLibc3 : Z -> bool;
  pLock1 : bool;
  pLock2 : bool;
  pAddress : nat
}.

Definition PostMessageToFsm (e : PostEnv) (looper : FsmLooper) (m : nat) (w a1 a2 : Z) (o : option nat)
  : Z * option FsmLooper * list Message :=
  match CreateFsmHandleMsg (pLibc1 e) (pLibc2 e) m w a1 a2 o (pAddress e) with
  | None => (SOFTBUS_MALLOC_ERR, Some looper, [])
  | Some msg =>
    let '(l, fr) := LooperPostMessage (pNow e) (pLibc3 e) (pLock1 e) (pLock2 e) (Some looper) (Some msg) in
    (SOFTBUS_OK, l, fr)
  end.

(** The looper is [None] before [LnnFsmInit] found one. *)
Definition toFsm (e : PostEnv) (looper : option FsmLooper) (m : nat) (w a1 : Z) (o : option nat)
  : Z * option FsmLooper * list Message :=
  match looper with
  | None => (SOFTBUS_INVALID_PARAM, None, [])
  | Some l => PostMessageToFsm e l m w a1 0 o
  end.

Definition LnnFsmDeinit e looper m := toFsm e looper m FSM_CTRL_MSG_DEINIT 0 None.
Definition LnnFsmStart e looper m (initialState : option nat) :=
  match initialState with
  | None => (SOFTBUS_INVALID_PARAM, looper, [])
  | Some _ => toFsm e looper m FSM_CTRL_MSG_START 0 initialState
  end.
Definition LnnFsmStop e looper m := toFsm e looper m FSM_CTRL_MSG_STOP 0 None.
Definition LnnFsmPostMessage e looper m (msgType : Z) (data : option nat) :=
  toFsm e looper m FSM_CTRL_MSG_DATA msgType data.

Definition LnnFsmPostMessageDelay (e : PostEnv) (looper : option FsmLooper) (m : nat) (msgType : Z)
    (data : option nat) (delayMillis : Z) : Z * option FsmLooper * list Message :=
  match looper with
  | None => (SOFTBUS_INVALID_PARAM, None, [])
  | Some lp =>
    match CreateFsmHandleMsg (pLibc1 e) (pLibc2 e) m FSM_CTRL_MSG_DATA msgType 0 data (pAddress e) with
    | None => (SOFTBUS_MALLOC_ERR, looper, [])
    | Some msg =>
      let '(l, fr) := LooperPostMessageDelay (pNow e) delayMillis (pLibc3 e) (pLock1 e) (pLock2 e) looper (Some msg) in
      (SOFTBUS_OK, l, fr)
    end
  end.

(** [para] is the message type as a pointer, NULL when it is 0. *)
Definition RemoveMessageFunc (msgType : Z) (msg : Message) : Z :=
  if msgType =? 0 then 1
  else if (what msg =? FSM_CTRL_MSG_DATA) && (s32 (arg1 msg) =? msgType) then 0 else 1.

Definition LnnFsmRemoveMessage (lock : bool) (c : Context) (m : nat) (msgType : Z) : Context * list Message :=
  LoopRemoveMessageCustom lock c (Some m) (RemoveMessageFunc msgType).

Definition LnnFsmRemoveMessageByType (lock : bool) (c : Context) (m : nat) (w : Z) : Context * list Message :=
  LooperRemoveMessage lock c (Some m) w.

Definition LnnFsmRemoveMessageSpecific (lock : bool) (c : Context) (m : nat) (customFunc : option (Message -> Z))
    (args : Z) : Context * list Message :=
  LoopRemoveMessageCustom lock c (Some m) (default (RemoveMessageFunc args) customFunc).

(** The head of the machine's list is initialised; the machine has no state. *)
Definition LnnFsmInit (h : gmap nat ListNode) (head : nat) (looper defaultLooper : bool)
  : option (Z * gmap nat ListNode * FsmStateMachine) :=
  h ← ListInit h head;
  Some (if looper || defaultLooper then (SOFTBUS_OK, h, mkFsm None 0 head) else (SOFTBUS_LOOPER_ERR, h, mkFsm None 0 head)).

(** ** Searching the states *)

Lemma findState_linked h head l x st fuel : linked h x l head -> head ∉ l -> (length l < fuel)%nat ->
  (n ← h !! x; findState fuel h head (next n) st) = Some (bool_decide (st ∈ l)).
Proof.
  revert x fuel. induction l as [|y l IH]; intros x fuel Hl Hh Hf; (destruct fuel as [|fuel]; [cbn in Hf; lia|]).
  - destruct Hl as [Hn _]. unfold nxt in Hn. destruct (h !! x) as [n|]; [|discriminate]. injection Hn as Hn.
    cbn -[lookup]. rewrite Hn, Nat.eqb_refl. reflexivity.
  - destruct Hl as (Hn & _ & Hl). unfold nxt in Hn. destruct (h !! x) as [n|]; [|discriminate]. injection Hn as Hn.
    cbn -[lookup bool_decide]. rewrite Hn. apply not_elem_of_cons in Hh as [Hy Hh].
    destruct (Nat.eqb_spec y head); [congruence|]. destruct (Nat.eqb_spec y st) as [->|Hne].
    + rewrite bool_decide_true; [reflexivity|now left].
    + cbn in Hf. specialize (IH y fuel Hl Hh ltac:(lia)). destruct (h !! y) as [m|]; [|discriminate]. cbn in IH |- *.
      rewrite IH. f_equal. apply bool_decide_ext. rewrite elem_of_cons. intuition congruence.
Qed.

Lemma length_allocated (h : gmap nat ListNode) l : NoDup l -> (forall x, x ∈ l -> is_Some (h !! x)) -> (length l <= size h)%nat.
Proof.
  intros Hd Ha. rewrite <- (size_list_to_set (C := gset nat) l Hd), <- size_dom. apply subseteq_size.
  intros x Hx. apply elem_of_dom, Ha. now apply elem_of_list_to_set in Hx.
Qed.

Lemma IsDuplicateState_spec h head l st : repr h [(head, l)] -> IsDuplicateState h head st = Some (bool_decide (st ∈ l)).
Proof.
  intros [Hd _ Hl]. rewrite nodesOf_cons in Hd. cbn in Hd. rewrite app_nil_r in Hd. apply Forall_cons_1 in Hl as [Hl _].
  cbn [fst snd] in Hl. unfold IsDuplicateState.
  assert (Hsize : (length (head :: l) <= size h)%nat).
  { apply length_allocated; [exact Hd|]. intros x Hx. apply (linked_alloc h head l head Hl).
    rewrite elem_of_cons, elem_of_app. apply elem_of_cons in Hx. tauto. }
  apply findState_linked; [exact Hl|now apply NoDup_cons in Hd as [? _]|]. cbn in Hsize. lia.
Qed.

(** ** Building a machine *)

Fixpoint addStates (h : gmap nat ListNode) (head : nat) (states : list nat) : option (list Z * gmap nat ListNode) :=
  match states with
  | [] => Some ([], h)
  | s :: states' =>
    r ← LnnFsmAddState true h head (Some s);
    r' ← addStates r.2 head states';
    Some (r.1 :: r'.1, r'.2)
  end.

Lemma ListInit_links h p : is_Some (h !! p) ->
  exists h', ListInit h p = Some h' /\ links h' (upd (nxt h) p p) (upd (prv h) p p).
Proof.
  intros [n Hn]. unfold ListInit.
  destruct (setNext_links h _ _ p p (links_self h)) as (h1 & -> & L1); [unfold nxt; rewrite Hn; eauto|]. cbn.
  destruct (setPrev_links h1 _ _ p p L1) as (h2 & -> & L2); [unfold prv; rewrite Hn; eauto|]. eauto.
Qed.

Lemma links_alloc h f g : links h f g -> forall p, is_Some (f p) -> is_Some (h !! p).
Proof. intros H p [v Hv]. destruct (H p) as [Hn _]. unfold nxt in Hn. destruct (h !! p); [eauto|cbn in Hn; congruence]. Qed.

Lemma upd_alloc h p v q : is_Some (h !! q) -> is_Some (upd (nxt h) p v q).
Proof. intros [n Hn]. unfold upd, nxt. destruct (q =? p)%nat; [eauto|rewrite Hn; eauto]. Qed.

Lemma addState_ok h head l st : repr h [(head, l)] -> free h [(head, l)] st ->
  exists h', LnnFsmAddState true h head (Some st) = Some (SOFTBUS_OK, h') /\ repr h' [(head, st :: l)] /\
    (forall q, is_Some (h !! q) -> is_Some (h' !! q)) /\
    (forall q, q ∉ st :: head :: l -> nxt h' q = nxt h q).
Proof.
  intros Hr (Hal & Hn0 & Hnew). pose proof Hr as [Hd H0 Hl]. rewrite nodesOf_cons in *. cbn [nodesOf fmap list_fmap concat] in *.
  rewrite app_nil_r in *. apply Forall_cons_1 in Hl as [Hl _]. cbn [fst snd] in Hl.
  unfold LnnFsmAddState. rewrite (IsDuplicateState_spec h head l st Hr). cbn.
  rewrite bool_decide_false by (intros Hin; apply Hnew; now right).
  destruct (ListInit_links h st Hal) as (h1 & -> & L1). cbn.
  assert (Hl1 : linked h1 head l head).
  { apply (linked_frame h); [| |exact Hl]; intros q Hq; destruct (L1 q) as [E1 E2].
    - rewrite E1. apply upd_ne. intros ->. contradiction.
    - rewrite E2. apply upd_ne. intros ->. apply Hnew. rewrite elem_of_app, list_elem_of_singleton in Hq.
      rewrite elem_of_cons. tauto. }
  assert (Ha1 : forall q, is_Some (h !! q) -> is_Some (h1 !! q)) by (intros q Hq; eapply links_alloc, upd_alloc; eauto).
  assert (Hr1 : repr h1 [(head, l)]).
  { split; [now rewrite nodesOf_cons, app_nil_r|now rewrite nodesOf_cons, app_nil_r|]. constructor; [exact Hl1|constructor]. }
  destruct (add_after h1 head l st Hd Hl1 Hnew (Ha1 st Hal)) as (h2 & E2 & Hl2 & Ho). rewrite E2. cbn.
  exists h2. split; [reflexivity|]. split_and!.
  - eapply (repr_insert h1 h2 head l [] l); eauto. split; [now apply Ha1|]. split; [exact Hn0|].
    now rewrite nodesOf_cons, app_nil_r.
  - intros q Hq. apply Ha1 in Hq as Hq1. destruct (decide (q ∈ st :: head :: l)) as [Hin|Hout].
    + apply (linked_alloc h2 head (st :: l) head Hl2). rewrite !elem_of_cons in *. cbn. rewrite !elem_of_cons, elem_of_app. tauto.
    + destruct (Ho q Hout) as [En _]. unfold nxt in En. destruct Hq1 as [n Hn]. rewrite Hn in En.
      destruct (h2 !! q); [eauto|discriminate].
  - intros q Hq. rewrite (proj1 (Ho q Hq)), (proj1 (L1 q)). apply upd_ne. apply not_elem_of_cons in Hq as [Hq _]. congruence.
Qed.

Lemma addStates_ok states : forall h head l, repr h [(head, l)] -> NoDup (head :: l ++ states) -> 0%nat ∉ states ->
  (forall q, q ∈ states -> is_Some (h !! q)) ->
  exists h', addStates h head states = Some (replicate (length states) SOFTBUS_OK, h') /\ repr h' [(head, rev states ++ l)].
Proof.
  induction states as [|s states IH]; intros h head l Hr Hd H0 Ha; [now exists h|]. cbn [addStates].
  apply not_elem_of_cons in H0 as [Hs0 H0].
  assert (Hp : head :: l ++ s :: states ≡ₚ head :: (s :: l) ++ states) by solve_Permutation.
  assert (Hfree : free h [(head, l)] s).
  { split; [apply Ha; now left|]. split; [congruence|]. rewrite nodesOf_cons. cbn. rewrite app_nil_r. intros Hin.
    apply (NoDup_app (head :: l) (s :: states)) in Hd as (_ & Hx & _). apply (Hx s Hin). now left. }
  destruct (addState_ok h head l s Hr Hfree) as (h1 & E1 & Hr1 & Ha1 & _). rewrite E1. cbn.
  destruct (IH h1 head (s :: l) Hr1) as (h2 & E2 & Hr2); [now rewrite <- Hp|exact H0|intros q Hq; apply Ha1, Ha; now right|].
  rewrite E2. exists h2. split; [reflexivity|]. now rewrite <- app_assoc.
Qed.

Lemma init_ok h head : is_Some (h !! head) -> head <> 0%nat ->
  exists h', LnnFsmInit h head true true = Some (SOFTBUS_OK, h', mkFsm None 0 head) /\ repr h' [(head, [])] /\
    (forall q, is_Some (h !! q) -> is_Some (h' !! q)) /\ (forall q, q <> head -> nxt h' q = nxt h q).
Proof.
  intros Hh H0. unfold LnnFsmInit. destruct (ListInit_links h head Hh) as (h' & -> & L). cbn. exists h'.
  split; [reflexivity|]. split; [|split; [intros q Hq; eapply links_alloc, upd_alloc; eauto|]].
  - split; cbn; [apply NoDup_singleton|now rewrite list_elem_of_singleton|].
    constructor; [|constructor]. cbn. destruct (L head) as [-> ->]. now rewrite !upd_eq.
  - intros q Hq. rewrite (proj1 (L q)). now apply upd_ne.
Qed.

(** ** States shared between machines *)

(** From [x] the next pointers lead through [l]; they may go on anywhere. *)
Fixpoint chain (h : gmap nat ListNode) (x : nat) (l : list nat) : Prop :=
  match l with
  | [] => True
  | y :: l' => nxt h x = Some y /\ chain h y l'
  end.

Lemma nextChain_app h x l1 y l2 : chain h x (l1 ++ y :: l2) <-> chain h x (l1 ++ [y]) /\ chain h y l2.
Proof.
  revert x. induction l1 as [|z l1 IH]; intros x; cbn; [tauto|]. rewrite IH. tauto.
Qed.

Lemma chain_frame h h' l : forall x, (forall q, q ∈ x :: l -> nxt h' q = nxt h q) -> chain h x l -> chain h' x l.
Proof.
  induction l as [|y l IH]; intros x Hf; [done|]. cbn. intros [Hn Hc]. split.
  - rewrite Hf; [exact Hn|now left].
  - apply IH; [|exact Hc]. intros q Hq. apply Hf. now right.
Qed.

(** The last next pointer is not part of the chain. *)
Lemma chain_frame_last h h' l : forall x y, (forall q, q ∈ x :: l -> nxt h' q = nxt h q) ->
  chain h x (l ++ [y]) -> chain h' x (l ++ [y]).
Proof.
  induction l as [|z l IH]; intros x y Hf; cbn.
  - intros [Hn _]. split; [|done]. rewrite Hf; [exact Hn|now left].
  - intros [Hn Hc]. split; [rewrite Hf; [exact Hn|now left]|]. apply IH; [|exact Hc]. intros q Hq. apply Hf. now right.
Qed.

Lemma linked_chain h e l : forall x, linked h x l e -> chain h x l.
Proof. induction l as [|y l IH]; intros x; [done|]. cbn. intros (Hn & _ & Hl). split; [exact Hn|now apply IH]. Qed.

(** The states [l] of the machine with this head, whose list may run into that of
    another machine. *)
Record chained (h : gmap nat ListNode) (head : nat) (l : list nat) : Prop := {
  ch_nodup : NoDup (head :: l);
  ch_null : 0%nat ∉ head :: l;
  ch_alloc : forall q, q ∈ head :: l -> is_Some (h !! q);
  ch_chain : chain h head l
}.

Lemma repr_chained h head l : repr h [(head, l)] -> chained h head l.
Proof.
  intros [Hd H0 Hl]. rewrite nodesOf_cons in *. cbn [nodesOf fmap list_fmap concat] in *. rewrite app_nil_r in *.
  apply Forall_cons_1 in Hl as [Hl _]. cbn [fst snd] in Hl. split; auto.
  - intros q Hq. apply (linked_alloc h head l head Hl). rewrite elem_of_cons, elem_of_app. apply elem_of_cons in Hq. tauto.
  - exact (linked_chain _ _ _ _ Hl).
Qed.

Lemma findState_chain h head l st : forall x fuel, chain h x l -> head ∉ l -> st ∈ l -> (length l <= fuel)%nat ->
  (n ← h !! x; findState fuel h head (next n) st) = Some true.
Proof.
  induction l as [|y l IH]; intros x fuel Hc Hh Hst Hf; [now apply not_elem_of_nil in Hst|].
  destruct fuel as [|fuel]; [cbn in Hf; lia|]. destruct Hc as [Hn Hc].
  unfold nxt in Hn. destruct (h !! x) as [n|]; [|discriminate]. injection Hn as Hn.
  cbn -[lookup]. rewrite Hn. apply not_elem_of_cons in Hh as [Hy Hh].
  destruct (Nat.eqb_spec y head); [congruence|]. destruct (Nat.eqb_spec y st) as [->|Hne]; [reflexivity|].
  apply elem_of_cons in Hst as [->|Hst]; [congruence|]. cbn in Hf. apply (IH y fuel Hc Hh Hst). lia.
Qed.

(** A state of the machine is found, also when the list goes on elsewhere. *)
Lemma chained_found h head l st : chained h head l -> st ∈ l -> IsDuplicateState h head st = Some true.
Proof.
  intros [Hd _ Ha Hc] Hst. apply findState_chain with (l := l); auto.
  - now apply NoDup_cons in Hd as [? _].
  - pose proof (length_allocated h _ Hd Ha). cbn in *. lia.
Qed.

(** The states [adds] are added to another machine [q], in the same order. *)
Lemma addStates_chain adds : forall h q l head, repr h [(q, l)] -> NoDup (q :: head :: rev adds ++ l) ->
  0%nat ∉ adds -> (forall x, x ∈ adds -> is_Some (h !! x)) -> chain h head (rev adds ++ l) ->
  exists h', addStates h q adds = Some (replicate (length adds) SOFTBUS_OK, h') /\ chain h' head (rev adds ++ l) /\
    (forall x, is_Some (h !! x) -> is_Some (h' !! x)).
Proof.
  induction adds as [|s adds IH]; intros h q l head Hr Hd H0 Ha Hc; [now exists h|]. cbn [addStates].
  apply not_elem_of_cons in H0 as [Hs0 H0]. cbn [rev] in Hd, Hc. rewrite <- app_assoc in Hd, Hc. cbn [app] in Hd, Hc.
  assert (Hp : q :: head :: rev adds ++ s :: l ≡ₚ (s :: q :: l) ++ head :: rev adds) by solve_Permutation.
  pose proof Hd as Hd2. rewrite Hp in Hd2. apply NoDup_app in Hd2 as (Hdl & Hdis & _).
  assert (Hfree : free h [(q, l)] s).
  { split; [apply Ha; now left|]. split; [congruence|]. rewrite nodesOf_cons. cbn. rewrite app_nil_r.
    now apply NoDup_cons in Hdl as [? _]. }
  destruct (addState_ok h q l s Hr Hfree) as (h1 & E1 & Hr1 & Ha1 & Hf1). rewrite E1. cbn.
  assert (Hc1 : chain h1 head (rev adds ++ s :: l)).
  { apply nextChain_app in Hc as [Hc _]. apply nextChain_app. split.
    - apply (chain_frame_last h); [|exact Hc]. intros x Hx. apply Hf1. intros Hin. exact (Hdis x Hin Hx).
    - exact (proj2 (ch_chain _ _ _ (repr_chained _ _ _ Hr1))). }
  destruct (IH h1 q (s :: l) head Hr1 Hd H0) as (h2 & E2 & Hc2 & Ha2); [intros x Hx; apply Ha1, Ha; now right|exact Hc1|].
  rewrite E2. exists h2. split; [reflexivity|]. cbn [rev]. rewrite <- app_assoc. split; [exact Hc2|auto].
Qed.

(** What goes on elsewhere: another machine is made of the same states, or the
    memory of another machine is released. *)
Inductive elsewhere (head : nat) (l : list nat) : gmap nat ListNode -> gmap nat ListNode -> Prop :=
| else_make h q h1 m rs h2 : q ∉ 0%nat :: head :: l -> is_Some (h !! q) ->
    LnnFsmInit h q true true = Some (SOFTBUS_OK, h1, m) -> addStates h1 q (rev l) = Some (rs, h2) -> elsewhere head l h h2
| else_free h q : q ∉ head :: l -> elsewhere head l h (delete q h).

Lemma elsewhere_chained head l h h' : elsewhere head l h h' -> chained h head l -> chained h' head l.
Proof.
  intros [h0 q h1 m rs h2 Hq Hal Ei Ea|h0 q Hq] [Hd H0 Ha Hc].
  - apply not_elem_of_cons in Hq as [Hq0 Hq]. destruct (init_ok h0 q Hal Hq0) as (h1' & Ei' & Hr & Ha1 & Hf).
    rewrite Ei in Ei'. injection Ei' as <- ->.
    assert (Hfr : forall x, x ∈ head :: l -> nxt h1 x = nxt h0 x) by (intros x Hx; apply Hf; congruence).
    destruct (addStates_chain (rev l) h1 q [] head Hr) as (h2' & Ea' & Hc' & Ha').
    + rewrite rev_involutive, app_nil_r. now apply NoDup_cons.
    + intros Hin. apply H0. right. now apply list_elem_of_In, in_rev, list_elem_of_In.
    + intros x Hx. apply Ha1, Ha. right. now apply list_elem_of_In, in_rev, list_elem_of_In.
    + rewrite rev_involutive, app_nil_r. now apply (chain_frame h0).
    + rewrite rev_involutive, app_nil_r in Hc'. rewrite Ea in Ea'. injection Ea' as -> <-.
      split; auto.
  - split; auto.
    + intros x Hx. rewrite lookup_delete_ne by congruence. auto.
    + apply (chain_frame h0); [|exact Hc]. intros x Hx. unfold nxt. rewrite lookup_delete_ne by congruence. reflexivity.
Qed.

(** ** Discipline of the callbacks *)

(** The state a log leads to; [None] when the log is out of order: a state is
    entered when there is none, and processed, left or stopped when it is the
    current one. *)
Definition replayStep (cur : option nat) (e : FsmEvent) : option (option nat) :=
  match cur, e with
  | None, Enter s => Some (Some s)
  | Some s, Exit s' | Some s, Stopped s' => if (s =? s')%nat then Some None else None
  | Some s, Process s' _ => if (s =? s')%nat then Some (Some s) else None
  | _, _ => None
  end.

Fixpoint replay (cur : option nat) (l : list FsmEvent) : option (option nat) :=
  match l with
  | [] => Some cur
  | e :: l' => cur' ← replayStep cur e; replay cur' l'
  end.

Lemma replay_app cur l1 l2 : replay cur (l1 ++ l2) = replay cur l1 ≫= fun c => replay c l2.
Proof. revert cur. induction l1 as [|e l1 IH]; intros cur; [reflexivity|]. cbn. destruct (replayStep cur e); [apply IH|reflexivity]. Qed.

Lemma isRunning_bit m : isRunning m = Z.testbit (flag m) 0.
Proof.
  unfold isRunning, FSM_FLAG_RUNNING. change 1 with (Z.ones 1). rewrite Z.land_ones by lia. change (2 ^ 1) with 2.
  rewrite <- Z.bit0_mod. now destruct (Z.testbit (flag m) 0).
Qed.

Section Discipline.
Context {C : Type} (cb : nat -> @FsmState C) (deinitCallback : option (@World C -> option (@World C))).
Context (shared : bool) (states : list nat).
#[local] Abbreviation W := (@World C).

(** The client's own data changes, and messages may be posted or removed.  When
    states are [shared], other machines come and go. *)
Definition own (w w' : W) : Prop :=
  (heap w' = heap w \/ shared = true /\ rtc (elsewhere (stateList (fsm w)) states) (heap w) (heap w')) /\
  fsm w' = fsm w /\ log w' = log w.

(** What a callback may do: its own things, and calls of [LnnFsmTransactState] for a
    state of the machine, whose enter callback again does such things. *)
Inductive acts : W -> W -> Prop :=
  | acts_own w w' : own w w' -> acts w w'
  | acts_trans w1 w2 w3 : acts w1 w2 -> acts w2 w3 -> acts w1 w3
  | acts_transact w s st w1 r w2 :
      curState (fsm w) = Some s -> isRunning (fsm w) = true -> st ∈ states ->
      leaveFor cb w s st = Some w1 -> LnnFsmTransactState cb w (Some st) = Some (r, w2) -> acts w1 w2 -> acts w w2.

(** The machine between and during its callbacks. *)
Record Good (w : W) : Prop := {
  good_log : replay None (log w) = Some (curState (fsm w));
  good_list : chained (heap w) (stateList (fsm w)) states;
  good_private : shared = false -> repr (heap w) [(stateList (fsm w), states)];
  good_cur : forall s, curState (fsm w) = Some s -> s ∈ states;
  good_running : isRunning (fsm w) = true -> is_Some (curState (fsm w))
}.

(** What the machine relies on of its clients: callbacks return, and change the
    machine only through its interface, to states it has; leaving a state changes
    nothing of it.  The deinit callback frees the machine and is not part of this. *)
Class FsmClient : Prop := {
  client_enter : forall s f w, enter (cb s) = Some f -> Good w -> exists w', f w = Some w' /\ acts w w';
  client_process : forall s f w ty o, process (cb s) = Some f -> Good w -> exists w', f w ty o = Some w' /\ acts w w';
  client_exit : forall s f w, exit (cb s) = Some f -> exists w', f w = Some w' /\ own w w'
}.
Context {HC : FsmClient}.

Lemma elsewhere_star head h h' : rtc (elsewhere head states) h h' -> chained h head states -> chained h' head states.
Proof. induction 1 as [h|h1 h2 h3 Hs _ IH]; [done|]. intros Hc. now apply IH, (elsewhere_chained _ _ h1). Qed.

Lemma own_Good w w' : own w w' -> Good w -> Good w'.
Proof.
  intros (E1 & E2 & E3) [H1 H2 Hp H3 H4]. split; rewrite ?E2, ?E3; try assumption.
  - destruct E1 as [->|[_ Hs]]; [exact H2|]. exact (elsewhere_star _ _ _ Hs H2).
  - intros Hsh. destruct E1 as [->|[? _]]; [auto|congruence].
Qed.

Lemma own_refl w : own w w.
Proof. split; [now left|split; reflexivity]. Qed.

Lemma leaveFor_ok w s st : Good w -> curState (fsm w) = Some s -> st ∈ states ->
  exists w1, leaveFor cb w s st = Some w1 /\ Good w1 /\ flag (fsm w1) = flag (fsm w) /\ curState (fsm w1) = Some st.
Proof.
  intros [H1 H2 Hp H3 H4] Hs Hst. unfold leaveFor.
  assert (Hx : exists w0, call (exit (cb s)) (note w (Exit s)) = Some w0 /\ own (note w (Exit s)) w0).
  { unfold call. destruct (exit (cb s)) as [f|] eqn:E; [eapply client_exit; eassumption|]. eexists. split; [reflexivity|apply own_refl]. }
  destruct Hx as (w0 & -> & E1 & E2 & E3). cbn in E1, E2, E3 |- *. eexists. split; [reflexivity|].
  split; [|cbn; now rewrite E2]. split; cbn; rewrite ?E2, ?E3.
  - rewrite !replay_app, H1, Hs. cbn. now rewrite Nat.eqb_refl.
  - destruct E1 as [->|[_ Hel]]; [exact H2|]. exact (elsewhere_star _ _ _ Hel H2).
  - intros Hsh. destruct E1 as [->|[? _]]; [auto|congruence].
  - now intros ? [= <-].
  - eauto.
Qed.

Lemma acts_Good w w' : acts w w' -> Good w -> Good w' /\ flag (fsm w') = flag (fsm w) /\
  (is_Some (curState (fsm w)) -> is_Some (curState (fsm w'))).
Proof.
  induction 1 as [w w' Ho|w1 w2 w3 _ IH1 _ IH2|w s st w1 r w2 Hs Hr Hk Hl Hc _ IH]; intros Hg.
  - split; [eapply own_Good; eassumption|]. destruct Ho as (_ & -> & _). auto.
  - destruct (IH1 Hg) as (G1 & E1 & C1). destruct (IH2 G1) as (G2 & E2 & C2). split; [exact G2|]. split; [congruence|auto].
  - destruct (leaveFor_ok w s st Hg Hs Hk) as (w1' & E & G1 & Ef & Ec). rewrite E in Hl. injection Hl as ->.
    destruct (IH G1) as (G2 & E2 & C2). split; [exact G2|]. split; [congruence|]. intros _. apply C2. rewrite Ec. eauto.
Qed.

(** Between messages: there is a state exactly when the machine runs. *)
Definition quiescent (w : W) : Prop := is_Some (curState (fsm w)) -> isRunning (fsm w) = true.

(** A start names a state of the machine, or none, when states are shared. *)
Definition startKnown (st : option nat) : Prop := shared = true -> forall q, st = Some q -> q ∈ states.

Lemma known_spec w st : Good w -> startKnown (Some st) -> known w st = Some (bool_decide (st ∈ states)).
Proof.
  intros Hg Hk. unfold known, startKnown in *. destruct shared eqn:Es.
  - specialize (Hk eq_refl st eq_refl). rewrite bool_decide_eq_true_2 by exact Hk.
    apply chained_found with (l := states); [apply Hg|exact Hk].
  - apply IsDuplicateState_spec, (good_private _ Hg). exact Es.
Qed.

Lemma start_ok w st : Good w -> quiescent w -> startKnown st ->
  exists w', ProcessStartMessage cb w st = Some w' /\ Good w' /\ quiescent w'.
Proof.
  intros Hg Hq Hk. unfold ProcessStartMessage. destruct st as [st|]; [|eauto].
  destruct (curState (fsm w)) as [s|] eqn:Ec; cbn; [eauto|]. destruct (isRunning (fsm w)) eqn:Er; [eauto|].
  rewrite (known_spec w st Hg Hk). cbn -[bool_decide].
  destruct (bool_decide_reflect (st ∈ states)) as [Hin|]; [|eauto].
  set (w1 := note (setCur w (Some st)) (Enter st)).
  assert (G1 : Good w1).
  { destruct Hg as [H1 H2 Hp H3 H4]. split; cbn; [|exact H2|exact Hp|now intros ? [= <-]|eauto].
    rewrite replay_app, H1, Ec. reflexivity. }
  assert (He : exists w2, call (enter (cb st)) w1 = Some w2 /\ acts w1 w2).
  { unfold call. destruct (enter (cb st)) as [f|] eqn:E; [exact (client_enter st f w1 E G1)|]. exists w1. split; [reflexivity|]. apply acts_own, own_refl. }
  destruct He as (w2 & -> & Ha). cbn. destruct (acts_Good _ _ Ha G1) as (G2 & _ & C2).
  assert (Hc2 : is_Some (curState (fsm w2))) by (apply C2; cbn; eauto).
  eexists. split; [reflexivity|]. split.
  - destruct G2 as [K1 K2 Kp K3 K4]. split; auto.
  - intros _. rewrite isRunning_bit. cbn [setFlag setFsm fsm flag]. rewrite Z.lor_spec. apply orb_true_r.
Qed.

Lemma data_ok w a1 o : Good w -> quiescent w ->
  exists w', ProcessDataMessage cb w a1 o = Some w' /\ Good w' /\ quiescent w'.
Proof.
  intros Hg Hq. unfold ProcessDataMessage. destruct (curState (fsm w)) as [s|] eqn:Ec; [|eauto].
  destruct (isRunning (fsm w)) eqn:Er; cbn [negb]; [|eauto]. destruct (process (cb s)) as [f|] eqn:Ep; [|eauto].
  assert (G1 : Good (note w (Process s (s32 a1)))).
  { destruct Hg as [H1 H2 Hp H3 H4]. split; cbn; auto. rewrite replay_app, H1, Ec. cbn. now rewrite Nat.eqb_refl. }
  destruct (client_process s f _ (s32 a1) o Ep G1) as (w' & -> & Ha). exists w'. split; [reflexivity|].
  destruct (acts_Good _ _ Ha G1) as (G2 & Ef & _). split; [exact G2|]. intros _.
  unfold isRunning in *. now rewrite Ef.
Qed.

Lemma stop_ok w : Good w -> quiescent w -> Good (ProcessStopMessage w) /\ quiescent (ProcessStopMessage w).
Proof.
  intros Hg Hq. unfold ProcessStopMessage. destruct (curState (fsm w)) as [s|] eqn:Ec; [|auto].
  destruct (isRunning (fsm w)) eqn:Er; cbn [negb]; [|auto]. split; [|intros [? [=]]].
  destruct Hg as [H1 H2 Hp H3 H4]. split; cbn; [|exact H2|exact Hp|discriminate|].
  - rewrite replay_app, H1, Ec. cbn. now rewrite Nat.eqb_refl.
  - rewrite isRunning_bit. cbn [flag]. rewrite Z.land_spec. change (Z.testbit (Z.lnot FSM_FLAG_RUNNING) 0) with false.
    now rewrite andb_false_r.
Qed.

(** What happens to a machine: its looper hands it a message, or other machines
    come and go meanwhile. *)
Inductive input :=
| Deliver (m : @SoftBusMessage FsmCtrlMsgObj)
| Elsewhere (h : gmap nat ListNode).

Definition takeInput (lock : bool) (w : W) (i : input) : option W :=
  match i with
  | Deliver m => FsmStateMsgHandler cb deinitCallback lock w m
  | Elsewhere h => Some (mkWorld h (fsm w) (looperCtx w) (client w) (log w))
  end.

Fixpoint takeAll (lock : bool) (w : W) (l : list input) : option W :=
  match l with
  | [] => Some w
  | i :: l' => w' ← takeInput lock w i; takeAll lock w' l'
  end.

(** The messages before the deinit message. *)
Definition ordinary (m : @SoftBusMessage FsmCtrlMsgObj) : Prop :=
  what m <> FSM_CTRL_MSG_DEINIT /\ (what m = FSM_CTRL_MSG_START -> startKnown (cObj (obj m))).

(** Each input is in order in the world in which it arrives. *)
Fixpoint inOrder (lock : bool) (w : W) (l : list input) : Prop :=
  match l with
  | [] => True
  | i :: l' =>
    match i with
    | Deliver m => ordinary m
    | Elsewhere h => shared = true /\ elsewhere (stateList (fsm w)) states (heap w) h
    end /\ forall w', takeInput lock w i = Some w' -> inOrder lock w' l'
  end.

Lemma handler_ok lock w m : Good w -> quiescent w -> ordinary m ->
  exists w', FsmStateMsgHandler cb deinitCallback lock w m = Some w' /\ Good w' /\ quiescent w'.
Proof.
  intros Hg Hq [Hd Hk]. unfold FsmStateMsgHandler.
  destruct (Z.eqb_spec (what m) FSM_CTRL_MSG_START) as [E|_]; [apply start_ok; auto|].
  destruct (_ =? FSM_CTRL_MSG_DATA); [now apply data_ok|].
  destruct (_ =? FSM_CTRL_MSG_STOP); [eexists; split; [reflexivity|]; now apply stop_ok|].
  destruct (Z.eqb_spec (what m) FSM_CTRL_MSG_DEINIT); [contradiction|eauto].
Qed.

Lemma takeAll_ok lock l : forall w, Good w -> quiescent w -> inOrder lock w l ->
  exists w', takeAll lock w l = Some w' /\ Good w' /\ quiescent w'.
Proof.
  induction l as [|i l IH]; intros w Hg Hq Ho; [now exists w|]. cbn [takeAll inOrder] in *. destruct Ho as [Hi Ho].
  assert (Hs : exists w1, takeInput lock w i = Some w1 /\ Good w1 /\ quiescent w1).
  { destruct i as [m|h]; [now apply handler_ok|]. destruct Hi as [Hsh Hel]. eexists. split; [reflexivity|]. split; [|exact Hq].
    apply (own_Good w); [|exact Hg]. split; [|split; reflexivity]. right. split; [exact Hsh|]. now apply rtc_once. }
  destruct Hs as (w1 & E1 & G1 & Q1). rewrite E1. cbn. apply IH; auto.
Qed.

End Discipline.

(** ** Properties *)

(** C28: the callbacks of a state machine are called in an orderly way.  A machine is made by
    [LnnFsmInit] and [LnnFsmAddState] from distinct states, and until it is deinitialised its
    looper hands it any sequence of messages.  Its states may be in other machines before, and
    when [shared] is set other machines are made from the same states, in the same order, and
    released while this one runs, as the clients do; a start then names a state of the machine
    (a search for another one may not end, shared_states_detach_first_machine), while a start
    of an unknown state is harmless when the states are not shared.  Enter and process
    callbacks return and may change the state again, to one of the states; the exit callback
    leaves the machine alone.  Then every message is handled to its end, and the record is in
    order: a state is entered only when there is none, processes messages only while it is the
    current one, and is gone before the next one is entered, either left once through its exit
    callback or taken away by a stop message, which calls no callback; the record ends in the
    current state, which is one of the added states, and there is one exactly when the running
    flag is set. *)
Theorem fsm_discipline {C : Type} (cb : nat -> @FsmState C) deinit shared states
    `{HC : !FsmClient cb shared (rev states)} h head ctx (c : C) :
  NoDup (head :: states) -> 0%nat ∉ head :: states -> (forall q, q ∈ head :: states -> is_Some (h !! q)) ->
  exists h0 m h1,
    LnnFsmInit h head true true = Some (SOFTBUS_OK, h0, m) /\
    addStates h0 head states = Some (replicate (length states) SOFTBUS_OK, h1) /\
    forall lock inputs, inOrder cb deinit shared (rev states) lock (mkWorld h1 m ctx c []) inputs ->
    exists w, takeAll cb deinit lock (mkWorld h1 m ctx c []) inputs = Some w /\
      replay None (log w) = Some (curState (fsm w)) /\
      (forall s, curState (fsm w) = Some s -> s ∈ states) /\
      (isRunning (fsm w) = true <-> is_Some (curState (fsm w))).
Proof.
  intros Hd H0 Ha. apply not_elem_of_cons in H0 as [Hh0 H0].
  destruct (init_ok h head (Ha head ltac:(now left)) ltac:(congruence)) as (h0 & E0 & Hr0 & Ha0 & _).
  destruct (addStates_ok states h0 head [] Hr0) as (h1 & E1 & Hr1);
    [exact Hd|exact H0|intros q Hq; apply Ha0, Ha; now right|]. rewrite app_nil_r in Hr1.
  exists h0, (mkFsm None 0 head), h1. split; [exact E0|]. split; [exact E1|]. intros lock inputs Ho.
  set (w0 := mkWorld h1 (mkFsm None 0 head) ctx c []) in *.
  assert (G0 : Good shared (rev states) w0).
  { split; cbn; [reflexivity|now apply repr_chained|auto|discriminate|discriminate]. }
  destruct (takeAll_ok cb deinit shared (rev states) lock inputs w0 G0) as (w & Ew & [K1 K2 Kp K3 K4] & Q);
    [now intros [? [=]]|exact Ho|].
  exists w. split; [exact Ew|]. split; [exact K1|].
  split; [|split; [exact K4|exact Q]]. intros s Hs. apply K3, list_elem_of_In, in_rev in Hs. now apply list_elem_of_In.
Qed.

(** A change to a state that the machine does not have does nothing, and reports
    success. *)
Theorem transact_unknown_reports_ok {C : Type} (cb : nat -> @FsmState C) states w s st :
  repr (heap w) [(stateList (fsm w), states)] -> curState (fsm w) = Some s -> isRunning (fsm w) = true ->
  st ∉ states -> LnnFsmTransactState cb w (Some st) = Some (SOFTBUS_OK, w).
Proof.
  intros Hr Hs Hrun Hst. unfold LnnFsmTransactState. rewrite Hs, Hrun. cbn [negb]. unfold known.
  rewrite (IsDuplicateState_spec _ _ states _ Hr). cbn -[bool_decide]. now rewrite bool_decide_false by assumption.
Qed.

(** States are added to the machines of a client without a copy.  When the same
    two states (2 and 3) are added to a second machine (head 11), the first one
    (head 10) loses its list: the states are still found, but a search for any
    other state never ends. *)
Definition twoMachines : gmap nat ListNode :=
  list_to_map [(2%nat, mkListNode 0 0); (3%nat, mkListNode 0 0); (10%nat, mkListNode 10 10); (11%nat, mkListNode 11 11)].

Theorem shared_states_detach_first_machine :
  exists h1 h2, addStates twoMachines 10 [2%nat; 3%nat] = Some ([SOFTBUS_OK; SOFTBUS_OK], h1) /\
    addStates h1 11 [2%nat; 3%nat] = Some ([SOFTBUS_OK; SOFTBUS_OK], h2) /\
    LIST_FOR_EACH 5 h1 10 = Some [3%nat; 2%nat] /\
    IsDuplicateState h2 10 2 = Some true /\ IsDuplicateState h2 10 3 = Some true /\
    IsDuplicateState h2 10 4 = None /\ (forall fuel, LIST_FOR_EACH fuel h2 10 = None).
Proof.
  eexists _, _. split; [vm_compute; reflexivity|]. split; [vm_compute; reflexivity|].
  split; [vm_compute; reflexivity|]. split; [vm_compute; reflexivity|]. split; [vm_compute; reflexivity|].
  split; [vm_compute; reflexivity|]. intros fuel. unfold LIST_FOR_EACH.
  match goal with |- context [forEachFrom fuel ?h _ _] => set (h2 := h) end.
  assert (Hloop : forall fuel, forEachFrom fuel h2 10 3 = None /\ forEachFrom fuel h2 10 2 = None /\
    forEachFrom fuel h2 10 11 = None).
  { clear fuel. induction fuel as [|fuel (I1 & I2 & I3)]; [easy|]. cbn [forEachFrom Nat.eqb].
    change (h2 !! 3%nat) with (Some (mkListNode 11 2)). change (h2 !! 2%nat) with (Some (mkListNode 3 11)).
    change (h2 !! 11%nat) with (Some (mkListNode 2 3)). cbn. now rewrite I1, I2, I3. }
  change (h2 !! 10%nat) with (Some (mkListNode 2 3)). cbn. apply Hloop.
Qed.

(** ** A concrete machine *)

Module FsmDemo.

(** State 2 goes to state 3 on message 7; state 3 does nothing. *)
Definition plain : @FsmState unit := mkState None None (Some (fun w => Some w)).
Definition cb3 (s : nat) : @FsmState unit := plain.
Definition cb (s : nat) : @FsmState unit :=
  if (s =? 2)%nat then
    mkState (Some (fun w => Some w))
      (Some (fun w ty _ => if ty =? 7 then r ← LnnFsmTransactState cb3 w (Some 3%nat); Some r.2 else Some w))
      (Some (fun w => Some w))
  else plain.

Definition memory : gmap nat ListNode :=
  list_to_map [(2%nat, mkListNode 0 0); (3%nat, mkListNode 0 0); (10%nat, mkListNode 0 0); (11%nat, mkListNode 0 0)].

Definition ctx : @SoftBusLooperContext FsmCtrlMsgObj := mkContext false true None 0 [].
Definition msg (w a1 : Z) (o : option nat) : @SoftBusMessage FsmCtrlMsgObj := mkMessage w a1 0 0 (mkCtrl 1 o) (Some 1%nat) 0.

#[export] Instance demo_client : FsmClient cb true (rev [2%nat; 3%nat]).
Proof.
  split.
  - intros s f w E Hg. exists w. split; [|apply acts_own, own_refl]. unfold cb in E.
    destruct (s =? 2)%nat; [injection E as <-; reflexivity|discriminate].
  - intros s f w ty o E Hg. unfold cb in E. destruct (Nat.eqb_spec s 2) as [->|]; [|discriminate]. injection E as <-.
    destruct (ty =? 7); [|exists w; split; [reflexivity|apply acts_own, own_refl]].
    unfold LnnFsmTransactState.
    destruct (curState (fsm w)) as [s|] eqn:Ec; [|exists w; split; [reflexivity|apply acts_own, own_refl]].
    destruct (isRunning (fsm w)) eqn:Er; cbn [negb]; [|exists w; split; [reflexivity|apply acts_own, own_refl]].
    assert (Hin : 3%nat ∈ rev [2%nat; 3%nat]) by now left.
    assert (Hk : known w 3 = Some true) by exact (chained_found _ _ _ _ (good_list _ _ _ Hg) Hin).
    rewrite Hk. set (w1 := note (setCur (note w (Exit s)) (Some 3%nat)) (Enter 3)).
    exists w1. split; [reflexivity|].
    assert (Hl : leaveFor cb w s 3 = Some w1) by (unfold leaveFor, cb; now destruct (s =? 2)%nat).
    apply (acts_transact cb true _ w s 3 w1 SOFTBUS_OK w1 Ec Er Hin Hl); [|apply acts_own, own_refl].
    unfold LnnFsmTransactState. rewrite Ec, Er. cbn [negb]. rewrite Hk. cbn. rewrite Hl. reflexivity.
  - intros s f w E. exists w. split; [|apply own_refl]. unfold cb in E. destruct (s =? 2)%nat; injection E as <-; reflexivity.
Qed.

(** The memory with a machine of the two states. *)
Definition built (h : gmap nat ListNode) (head : nat) : gmap nat ListNode :=
  default ∅ (r ← LnnFsmInit h head true true; snd <$> addStates r.1.2 head [2%nat; 3%nat]).

(** The machine runs, a second one is made of its states and released again. *)
Definition inputs : list input :=
  [Deliver (msg 0 0 (Some 2%nat)); Elsewhere (built (built memory 10) 11); Deliver (msg 1 7 None);
   Elsewhere (delete 11%nat (built (built memory 10) 11)); Deliver (msg 1 5 None); Deliver (msg 2 0 None)].

End FsmDemo.

Lemma fsm_discipline_witness : exists w,
  takeAll FsmDemo.cb None true (mkWorld (FsmDemo.built FsmDemo.memory 10) (mkFsm None 0 10) FsmDemo.ctx tt []) FsmDemo.inputs
    = Some w /\
  log w = [Enter 2; Process 2 7; Exit 2; Enter 3; Stopped 3] /\ replay None (log w) = Some (curState (fsm w)).
Proof.
  destruct (fsm_discipline FsmDemo.cb None true [2%nat; 3%nat] (HC := FsmDemo.demo_client) FsmDemo.memory 10 FsmDemo.ctx tt)
    as (h0 & m & h1 & E0 & E1 & Hrun).
  - apply (bool_decide_unpack _). vm_compute. exact I.
  - apply (bool_decide_unpack _). vm_compute. exact I.
  - intros q Hq. repeat (apply elem_of_cons in Hq as [->|Hq]; [eexists; reflexivity|]). now apply elem_of_nil in Hq.
  - vm_compute in E0. injection E0 as <- <-. vm_compute in E1. injection E1 as <-.
    destruct (Hrun true FsmDemo.inputs) as (w & E & Hr & _).
    + assert (Hord : forall w a o, w <> FSM_CTRL_MSG_DEINIT -> (forall q, o = Some q -> q ∈ rev [2%nat; 3%nat]) ->
        ordinary true (rev [2%nat; 3%nat]) (FsmDemo.msg w a o)) by (intros w a o Hw Ho; split; [exact Hw|intros _ _; exact Ho]).
      assert (Hst : forall q, Some 2%nat = Some q -> q ∈ rev [2%nat; 3%nat]) by (intros q [= <-]; right; now left).
      assert (Hno : forall q, None = Some q -> q ∈ rev [2%nat; 3%nat]) by (intros q [=]).
      assert (H11 : 11%nat ∉ [0%nat; 10%nat; 3%nat; 2%nat]) by (apply (bool_decide_unpack _); vm_compute; exact I).
      split; [apply Hord; [discriminate|exact Hst]|]. intros w1 W1. vm_compute in W1. injection W1 as <-.
      split; [split; [reflexivity|]|].
      { eapply (else_make _ _ _ 11); [exact H11|eexists; reflexivity|vm_compute; reflexivity|vm_compute; reflexivity]. }
      intros w2 W2. vm_compute in W2. injection W2 as <-.
      split; [apply Hord; [discriminate|exact Hno]|]. intros w3 W3. vm_compute in W3. injection W3 as <-.
      split; [split; [reflexivity|]|].
      { apply (else_free _ _ (FsmDemo.built (FsmDemo.built FsmDemo.memory 10) 11) 11).
        intros Hx. apply H11. now right. }
      intros w4 W4. vm_compute in W4. injection W4 as <-.
      split; [apply Hord; [discriminate|exact Hno]|]. intros w5 W5. vm_compute in W5. injection W5 as <-.
      split; [apply Hord; [discriminate|exact Hno]|]. intros w6 W6. exact I.
    + exists w. split; [exact E|]. split; [|exact Hr]. vm_compute in E. injection E as <-. reflexivity.
Defined.

End LnnFsm.
